(* ===== verification/_CoqProject ===== *)
-Q . S2P
Prelude.v
Bytes.v
Fenwick.v
Intset.v
Numbers.v
Glob.v
Dict.v
DictProofs.v
DictOps.v
DictSpec.v
DictScan.v
DictIter.v
Kvstore.v
KvstoreProofs.v
KvstoreOps.v
KvstoreLoops.v
KvstoreSpec.v
KvstoreMove.v
KvstoreIter.v
KvstoreScan.v
Sds.v
SdsProofs.v
SdsOps.v
SdsSpec.v
Hll.v
HllBits.v
HllHisto.v
HllSparse.v
HllSet.v
HllRep.v
HllUpdate.v
HllMerge.v
HllSpec.v
HllSafe.v
HllTrunc.v
Skiplist.v
SkiplistProofs.v
SkiplistOps.v
SkiplistDelete.v
SkiplistRange.v
Zset.v
SortedSet.v
ZsetProofs.v
ZsetOps.v
ZsetRange.v
ZsetList.v
ZsetSpec.v
Listpack.v
ListpackProofs.v
ListpackOps.v
ListpackFind.v
ListpackValidate.v
ListpackSpec.v
Lzf.v
LzfProofs.v
LzfCompress.v
Rio.v
Rdb.v
RdbProofs.v
Crc.v
CrcProofs.v
CrcSpeed.v
Slot.v
Dump.v
Objects.v
Bitops.v
BitopsProofs.v
BitfieldProofs.v
BitCommands.v
BitfieldCommand.v
BitRange.v
BitOp.v
BitOpProofs.v
