(* ===== verification/Prelude.v ===== *)
(** * A verification of the core data structures and encodings of Redis

    The repository vendors the Redis server under src/redis-stable; its C
    files under src/redis-stable/src are the program verified here.  Redis
    keeps its keyspace in an array of incrementally rehashed hash tables, keeps
    small collections in packed byte blocks and large sorted sets in a skip list
    with a hash table, counts keys per slot in a Fenwick
    tree, converts integers and matches globs on every request, offers the bits
    of strings as arrays and fields, and writes strings to disk through a
    compressor and a stream layer.  These parts are
    translated definition by definition, with the C names, and proved against
    independent descriptions of what they should do.

    ** Parts of the program and the files that model them

    - Prelude (this file) and Bytes: outcomes, machine integers, memory blocks;
      endianconv.c and endianconv.h (byte order), on hosts of both orders.
    - Fenwick: fwtree.c, the tree kvstore.c keeps over its dictionaries
      (state [fenwickTree]).
    - Intset: intset.c, the sorted packed integer set; the state is the byte
      block itself.
    - Numbers: digits10, ull2string, ll2string, string2ll, string2l of util.c.
    - Glob: stringmatchlen, stringmatchlen_impl, prefixmatch of util.c.
    - Dict (definitions), DictProofs (invariant and lemmas), DictOps (the
      lookup, insertion, deletion and link operations), DictSpec (the finite
      map it implements), DictScan (dictScanDefrag and its reversed cursor),
      DictIter (safe and unsafe iterators): dict.c and dict.h (state [dict]:
      two tables, rehash index, pause counters).
    - Kvstore (definitions), KvstoreProofs (invariant and books), KvstoreOps,
      KvstoreLoops (the operations), KvstoreSpec (the list of finite maps it
      implements), KvstoreMove, KvstoreIter, KvstoreScan: kvstore.c and
      kvstore.h, the keyspace of a database.  It is the client of Dict and
      Fenwick: a dictionary logs the calls of its owner's callbacks ([notes]),
      the proofs of Dict say what the log adds up to ([told]), and kvstore plays
      the log on its counters ([on_dict], [callbacks]).
    - Sds (definitions), SdsProofs (invariant, size of the block), SdsOps (the
      operations), SdsSpec (the list of bytes it implements): sds.c and sds.h, the
      strings of the server.  The state [sds] is a header of one of five types and
      the block behind the pointer; the allocator is the class [SdsAllocator].
      Skiplist lays out the elements of its nodes with the same headers.
    - Hll (definitions), HllBits, HllHisto (dense registers and histograms),
      HllSparse, HllSet (opcodes of the sparse encoding and their edits), HllRep,
      HllUpdate, HllMerge (the registers of a string and the operations on them),
      HllSpec (the commands and the arrays of registers they implement), HllSafe
      (strings from elsewhere), HllTrunc (strings that end inside an opcode):
      hyperloglog.c, on strings of Sds with their blocks;
      the estimate from a histogram is an argument.
    - Skiplist (definitions), SkiplistProofs (order, invariant, searches),
      SkiplistOps (insertion), SkiplistDelete (unlinking, change of a score),
      SkiplistRange (ranks and ranges): the skip list of t_zset.c, with the types
      of server.h.  Nodes live in a heap (a finite map from addresses), point to
      each other and carry their element; the state is [zskiplist].
    - Zset (definitions), SortedSet (the ordered list it implements), ZsetProofs,
      ZsetOps, ZsetRange, ZsetList, ZsetSpec: sorted sets in their large encoding
      (t_zset.c, object.c).  The state [zset] is a [dict] whose keys are addresses
      of nodes of the skip list: the hash table reads its keys through the heap,
      and the lemmas of Dict are used at every heap the operations go through.
    - Listpack (definitions), ListpackProofs (format, walking), ListpackOps
      (editing), ListpackFind, ListpackValidate, ListpackSpec (the list it
      implements): listpack.c, listpack.h and listpack_malloc.h; the state is
      the byte block, the allocator is the class [Allocator].
    - Lzf (definitions and format), LzfProofs (decompressor), LzfCompress
      (compressor): lzf_c.c, lzf_d.c, lzfP.h.
    - Rio: the stream loops of rio.h and the buffer backend of rio.c, behind
      the classes [RioBackend] (function pointers) and [RioLaws] (contract).
    - Rdb (definitions), RdbProofs: the string layer of rdb.c and the object
      constructors of object.c it calls.  It is where the parts meet: Rdb uses
      Numbers for integer forms, Lzf for compression, Bytes for byte order, Sds
      for the sizes of strings and Rio for the stream; Listpack uses Numbers for strings that spell
      integers.
    - Crc (definitions), CrcProofs (the shift register as a linear map, the
      bit-by-bit routine, the tables), CrcSpeed (loops, streams, matrices):
      crc64.c, crcspeed.c, crccombine.c; the static matrix cache is threaded.
    - Slot: crc16.c, keyHashSlot of cluster.h and patternHashSlot of cluster.c,
      the latter against the matcher of Glob.
    - Dump: DUMP payloads (createDumpPayload and verifyDumpPayload of
      cluster.c), the checksum of a stream (rio.c) and the trailer of an RDB
      file (the ends of rdbSaveRio and rdbLoadRioWithLoadingCtx of rdb.c),
      over Rdb, Rio and Crc.
    - Objects: the string objects, arguments and keyspace the bit commands
      work on (object.c, sds.c).  Bitops and BitCommands (definitions),
      BitopsProofs, BitfieldProofs, BitfieldCommand, BitRange: SETBIT, GETBIT,
      BITCOUNT, BITPOS and BITFIELD of bitops.c, their argument parsers
      included.  BitOp, BitOpProofs: BITOP, with its word and byte loops.

    ** How code becomes definitions

    A C function is a Rocq function of the same name; a loop is a [Fixpoint]
    with fuel named after the function; a struct is a record; a fallible or
    partial computation returns [result], whose faults are reads or writes
    outside a block, failed assertions, signed overflow, null dereferences and
    exhausted fuel.  Pointers into a block are offsets, except where the code
    compares addresses (the hash table of the compressor).  What the code
    takes from its environment is a parameter: hash functions, key comparison
    and resize policy of a [dictType], allocators, uninitialised memory, the
    byte order of the host.

    ** What the theorems show

    - Refinement: any sequence of operations of a component runs without fault
      and gives the answers of an abstract structure: a finite map (dict), a
      list (listpack), a finite set (intset), an array (Fenwick tree), a list of
      finite maps with their counts (kvstore), a sequence of operations on an
      unbounded row of bits (BITFIELD), the ordered list of scored elements
      (sorted sets), a list of bytes (dynamic strings, under any allocator), arrays
      of registers merged by maximum (HyperLogLog).
    - Equivalence with a declarative definition: glob matching, decimal
      notation, the LZF token format, byte-order independence of intsets, the
      fast CRC-64 and the bit-by-bit one, CRC-16 and polynomial division, BITOP
      and the bitwise operation on padded strings, BITCOUNT, BITPOS and bits
      counted and searched one by one.
    - Round trips: integers through their decimal form, values through a
      listpack, blocks through LZF, string objects through RDB and DUMP.
    - Safety on untrusted bytes: the integrity checks of intset and listpack,
      LZF decompression, loading of RDB strings, the decoding loops of HyperLogLog
      strings, detection of corruption by the checksums of payloads and files.
    - Memory safety of a linked structure: the operations of sorted sets follow
      no null or dangling pointer, free every node once and leave the rest of the
      heap alone.
    - Invariant: the checksum register of a stream follows what is transferred;
      the bucket count, rehashing list, rehashing overhead and allocation count
      of a keyspace are exact; pointers, spans, hash table and allocation size of
      a sorted set agree.
    - Progress: rehashing completes, a cursor scan of a changing table or of a
      changing keyspace ends and misses no key that stays, iterators return
      every entry once.
    - Bounds: lpSafeToAdd, the worst-case size of LZF output, the overflow
      control of bit fields.
    - Behaviour outside a contract, where the code's comments or the callers
      suggest otherwise (the theorems whose statement is a fault or a wrong
      answer); each is a finding of the manifest.

    ** Limits of the statements

    A step that the C standard leaves undefined, or an assertion that fails, is
    a fault of the model, and the theorems say for which inputs it is reached.
    The map that a dictionary implements is proved for explicit rehashing of at
    most 214748364 steps, since dictRehash computes ten times its argument in an
    int.  The overflow check of signed bit fields subtracts without a cast: the
    theorems on BITFIELD say exactly when this overflows (a value above
    [2^63 - 2^(bits-1)], any positive value at 64 bits), and leave out saturating
    SETs far below a field, which are inverted.  Loading a string from RDB ends
    for every stream, in a value, NULL, or, for lengths within 18 of [2^64] that
    are not loaded into a plain buffer, a failed assertion.  The compressor is
    correct from two octets on.

    ** Fuel

    Every fuel is a measure of the data the loop walks (bytes of the block,
    buckets of a table, dictionaries of a store, nodes of a skip list, bits of an
    index, digits of a word), and the theorems that end in [Ok] show that it never
    runs out.  Glob matching nests at most 1000 deep, the limit of the code itself,
    and its theorem is stated below that limit.  The height of a new node of a
    skip list is drawn from a list of random numbers, which must hold one above
    the threshold; sorted sets stay below 2^62 elements, more than an address
    space holds.  A HyperLogLog string has at most one opcode a register, and its
    theorem asks for a limit on the sparse encoding of at least 32 bytes (the
    default is 3000): below it sdsIncrLen meets strings of type 5.

    ** Not modelled

    The event loop, sockets, threads, replication, cluster, sentinel,
    scripting and the modules API are bound to the operating system or to
    other programs.  The server core (server.c, networking.c, db.c, config.c)
    is process-wide state over clients.  Doubles are compared and added (as
    [spec_float]) in sorted sets; their text form (strtod, dtoa) and the code that
    needs it are left out: the listpack encoding of sorted sets and the
    conversions, the parsing of ranges, doubles in RDB, geo.  In t_zset.c neither
    are ZUNION, ZINTER, ZDIFF and random members; ranges by element are proved for
    sets whose scores are equal, the condition the commands document.  In the
    other parts above: in sds.c formatting with printf, splitting, joining, quoting,
    templates and failing allocations; in hyperloglog.c the floating-point estimate
    (hllSigma, hllTau), the vector variants and the debugging commands; random sampling and defragmentation of dict.c; in kvstore.c the
    memory and statistics reports, the time-driven kvstoreIncrementallyRehash,
    defragmentation, metadata blocks, kvstoreRelease, the wrappers around random
    sampling and the iterators of a single dictionary; random pairs of
    listpack.c; the file and socket backends of rio.c; in rdb.c everything above
    strings except the trailer; the 16-bit and vector variants of the fast CRC;
    in bitops.c the AVX2, AVX-512 and NEON variants, and with the commands the
    expiration, notifications and values of other types than strings.

    ** Plan

    Next: the random-access helpers of dict.c and listpack.c and their wrappers
    in kvstore.c; quicklist.c over Listpack and Lzf; adlist.c; rax.c.

    ** This file

    - [result]: the outcome of a C function, either a value or the fault the
      machine (or an [assert]) would stop on;
    - machine integers: values are plain [Z], wrap-around is written with
      [u8] ... [u64] and [i8] ... [i64], and signed arithmetic whose overflow
      the C standard leaves undefined goes through [chk_i32] / [chk_i64];
    - bit lemmas, the tactics and the hint databases of the development. *)

From Stdlib Require Import ZArith Lia Bool.
From stdpp Require Import base list numbers decidable.

Local Open Scope Z_scope.

(** * Outcomes *)

(** What stops a C function before it returns. *)
Inductive fault :=
  | OutOfBounds      (** a read or write outside the object *)
  | AssertFailed     (** an [assert] / [serverAssert] whose condition is false *)
  | SignedOverflow   (** signed arithmetic that leaves its type *)
  | NullDeref        (** a dereference of a null or dangling pointer *)
  | OutOfFuel.       (** the fuel of a loop ran out (excluded by theorems) *)

Inductive result (A : Type) :=
  | Ok (a : A)
  | Err (e : fault).
Arguments Ok {A} a.
Arguments Err {A} e.

Definition bindr {A B} (m : result A) (k : A -> result B) : result B :=
  match m with
  | Ok a => k a
  | Err e => Err e
  end.

Definition guardr (b : bool) (e : fault) : result unit :=
  if b then Ok tt else Err e.

Declare Scope redis_scope.
Delimit Scope redis_scope with redis.

Notation "'let*' x ':=' m 'in' k" := (bindr m (fun x => k))
  (at level 10, x pattern, m at level 100, k at level 200,
   format "'[v' 'let*'  x  ':='  m  'in' '/' k ']'") : redis_scope.

Notation "'check' b 'else' e ';;' k" := (bindr (guardr b e) (fun _ => k))
  (at level 10, b at level 100, e at level 0, k at level 200,
   format "'[v' 'check'  b  'else'  e  ';;' '/' k ']'") : redis_scope.

Open Scope redis_scope.

#[global] Instance fault_eq_dec : EqDecision fault.
Proof. solve_decision. Defined.

(** * Machine integers *)

Definition wrapU (w z : Z) : Z := z mod 2 ^ w.
Definition wrapS (w z : Z) : Z := (z + 2 ^ (w - 1)) mod 2 ^ w - 2 ^ (w - 1).

Abbreviation u8 := (wrapU 8).
Abbreviation u16 := (wrapU 16).
Abbreviation u32 := (wrapU 32).
Abbreviation u64 := (wrapU 64).
Abbreviation i8 := (wrapS 8).
Abbreviation i16 := (wrapS 16).
Abbreviation i32 := (wrapS 32).
Abbreviation i64 := (wrapS 64).

Abbreviation INT16_MIN := (-32768).
Abbreviation INT16_MAX := 32767.
Abbreviation INT32_MIN := (-2147483648).
Abbreviation INT32_MAX := 2147483647.
Abbreviation LLONG_MIN := (-9223372036854775808).
Abbreviation LLONG_MAX := 9223372036854775807.
Abbreviation ULLONG_MAX := 18446744073709551615.

Definition in_i32 (z : Z) : bool := (INT32_MIN <=? z) && (z <=? INT32_MAX).
Definition in_i64 (z : Z) : bool := (LLONG_MIN <=? z) && (z <=? LLONG_MAX).

(** Signed arithmetic: the value when it fits its type, a fault otherwise. *)
Definition chk_i32 (z : Z) : result Z := if in_i32 z then Ok z else Err SignedOverflow.
Definition chk_i64 (z : Z) : result Z := if in_i64 z then Ok z else Err SignedOverflow.

Definition b2z (b : bool) : Z := if b then 1 else 0.

Lemma wrapU_range w z : 0 <= w -> 0 <= wrapU w z < 2 ^ w.
Proof. intros. apply Z.mod_pos_bound, Z.pow_pos_nonneg; lia. Qed.

Lemma wrapU_small w z : 0 <= z < 2 ^ w -> wrapU w z = z.
Proof. intros. by apply Z.mod_small. Qed.

Lemma wrapS_small w z :
  0 < w -> - 2 ^ (w - 1) <= z < 2 ^ (w - 1) -> wrapS w z = z.
Proof.
  intros Hw Hz. unfold wrapS.
  assert (2 ^ w = 2 * 2 ^ (w - 1)) as Hp.
  { rewrite <- Z.pow_succ_r by lia. f_equal; lia. }
  rewrite Z.mod_small; lia.
Qed.

Lemma wrapU_add_l w a b : wrapU w (wrapU w a + b) = wrapU w (a + b).
Proof. apply Zplus_mod_idemp_l. Qed.

Lemma wrapU_add_r w a b : wrapU w (a + wrapU w b) = wrapU w (a + b).
Proof. apply Zplus_mod_idemp_r. Qed.

Lemma wrapU_sub_l w a b : wrapU w (wrapU w a - b) = wrapU w (a - b).
Proof. apply Zminus_mod_idemp_l. Qed.

Lemma wrapU_sub_r w a b : wrapU w (a - wrapU w b) = wrapU w (a - b).
Proof. apply Zminus_mod_idemp_r. Qed.

Lemma wrapU_wrapU w a : wrapU w (wrapU w a) = wrapU w a.
Proof. apply Zmod_mod. Qed.

(** Two's complement: the signed reading of an unsigned word, and back. *)
Lemma wrapS_wrapU w z : 0 <= w -> wrapS w (wrapU w z) = wrapS w z.
Proof.
  intros Hw. unfold wrapS, wrapU. by rewrite Zplus_mod_idemp_l.
Qed.

Lemma wrapU_wrapS w z : 0 < w -> wrapU w (wrapS w z) = wrapU w z.
Proof.
  intros Hw. unfold wrapS, wrapU. rewrite Zminus_mod_idemp_l. f_equal; lia.
Qed.

Lemma chk_i32_ok z : INT32_MIN <= z <= INT32_MAX -> chk_i32 z = Ok z.
Proof.
  intros H. unfold chk_i32, in_i32.
  rewrite (proj2 (Z.leb_le _ _)), (proj2 (Z.leb_le _ _)) by lia. done.
Qed.

Lemma chk_i64_ok z : LLONG_MIN <= z <= LLONG_MAX -> chk_i64 z = Ok z.
Proof.
  intros H. unfold chk_i64, in_i64.
  rewrite (proj2 (Z.leb_le _ _)), (proj2 (Z.leb_le _ _)) by lia. done.
Qed.

(** * Bits *)

Lemma land_low_high a b n : 0 <= n -> 0 <= a < 2 ^ n -> Z.land a (Z.shiftl b n) = 0.
Proof.
  intros Hn Ha. apply Z.bits_inj'. intros i Hi. rewrite Z.land_spec, Z.bits_0.
  destruct (Z.lt_ge_cases i n).
  - rewrite Z.shiftl_spec_low by lia. apply andb_false_r.
  - rewrite <- (Z.mod_small a (2 ^ n)), Z.mod_pow2_bits_high by lia. done.
Qed.

(** Or-ing a shifted word over smaller bits is an addition. *)
Lemma lor_disjoint a b n : 0 <= n -> 0 <= a < 2 ^ n -> Z.lor a (Z.shiftl b n) = a + b * 2 ^ n.
Proof.
  intros Hn Ha. pose proof (land_low_high a b n Hn Ha) as Hl.
  rewrite <- Z.lxor_lor by done. rewrite <- Z.add_nocarry_lxor by done.
  by rewrite Z.shiftl_mul_pow2.
Qed.

(** * Tactics *)

(** Case analysis on the boolean tests the C code makes, as facts on [Z]. *)
Ltac case_bool :=
  match goal with
  | |- context [?a <? ?b] => destruct (Z.ltb_spec a b)
  | |- context [?a <=? ?b] => destruct (Z.leb_spec a b)
  | |- context [?a =? ?b] => destruct (Z.eqb_spec a b)
  | |- context [?a >? ?b] => rewrite (Z.gtb_ltb a b)
  | |- context [?a >=? ?b] => rewrite (Z.geb_leb a b)
  end.

Ltac case_bool_in H :=
  match type of H with
  | context [?a <? ?b] => destruct (Z.ltb_spec a b)
  | context [?a <=? ?b] => destruct (Z.leb_spec a b)
  | context [?a =? ?b] => destruct (Z.eqb_spec a b)
  | context [?a >? ?b] => rewrite (Z.gtb_ltb a b) in H
  | context [?a >=? ?b] => rewrite (Z.geb_leb a b) in H
  end.

(** Run a computation in [result] one step: reduce the binds that meet a value. *)
Ltac runr := cbn [bindr guardr].
Ltac runr_in H := cbn [bindr guardr] in H.

(** Inversion of a bind that returned. *)
Lemma bindr_ok {A B} (m : result A) (k : A -> result B) b :
  bindr m k = Ok b -> exists a, m = Ok a /\ k a = Ok b.
Proof. destruct m; simpl; [eauto | discriminate]. Qed.

Lemma bindr_ret {A B} (a : A) (k : A -> result B) : bindr (Ok a) k = k a.
Proof. reflexivity. Qed.

Lemma Ok_inj {A} (a b : A) : Ok a = Ok b -> a = b.
Proof. by intros [= ->]. Qed.

Lemma guardr_ok b e : guardr b e = Ok tt <-> b = true.
Proof. unfold guardr. destruct b; split; congruence. Qed.

Lemma bindr_assoc {A B C} (m : result A) (f : A -> result B) (g : B -> result C) :
  bindr (bindr m f) g = bindr m (fun a => bindr (f a) g).
Proof. by destruct m. Qed.

(** Decide the comparisons of a goal whose outcome [lia] knows. *)
Ltac dec_bool :=
  repeat match goal with
  | |- context [?a <? ?b] =>
      first [ rewrite (proj2 (Z.ltb_lt a b)) by lia
            | rewrite (proj2 (Z.ltb_ge a b)) by lia ]
  | |- context [?a <=? ?b] =>
      first [ rewrite (proj2 (Z.leb_le a b)) by lia
            | rewrite (proj2 (Z.leb_gt a b)) by lia ]
  | |- context [?a =? ?b] =>
      first [ rewrite (proj2 (Z.eqb_eq a b)) by lia
            | rewrite (proj2 (Z.eqb_neq a b)) by lia ]
  | |- context [?a >? ?b] => rewrite (Z.gtb_ltb a b)
  | |- context [?a >=? ?b] => rewrite (Z.geb_leb a b)
  end; cbn [andb orb negb].

(** * Hint databases *)

Create Rewrite HintDb wrap.
#[export] Hint Rewrite wrapU_add_l wrapU_add_r wrapU_sub_l wrapU_sub_r wrapU_wrapU : wrap.

Create HintDb bytes.
Create Rewrite HintDb bytes.
