(* ===== verification/Bytes.v ===== *)
(** Bytes: memory blocks as byte lists, little-endian integers, and the
    byte-order helpers of src/redis-stable/src/endianconv.c and endianconv.h.

    A block of memory is the list of its bytes.  [rdn] and [wrn] are the only
    ways to read and write it: they fault with [OutOfBounds] when the access
    leaves the block, so a component that returns [Ok] never left its memory.

    The host's byte order is a parameter ([HostEndian]): Redis keeps its
    serialized structures little endian on every host by reversing on
    big-endian ones, and the theorems below hold for both. *)

From Stdlib Require Import ZArith Lia Bool.
From stdpp Require Import base list numbers decidable.
From S2P Require Import Prelude.

Local Open Scope Z_scope.

(** * Blocks of memory *)

Definition zlen {A} (l : list A) : Z := Z.of_nat (length l).

(** Read [n] bytes at offset [off]. *)
Definition rdn {A} (buf : list A) (off n : Z) : result (list A) :=
  if (0 <=? off) && (0 <=? n) && (off + n <=? zlen buf)
  then Ok (take (Z.to_nat n) (drop (Z.to_nat off) buf))
  else Err OutOfBounds.

(** Overwrite the bytes at offset [off] with [bs]. *)
Definition wrn {A} (buf : list A) (off : Z) (bs : list A) : result (list A) :=
  if (0 <=? off) && (off + zlen bs <=? zlen buf)
  then Ok (take (Z.to_nat off) buf ++ bs ++ drop (Z.to_nat off + length bs) buf)
  else Err OutOfBounds.

(** One cell. *)
Definition rd1 {A} (buf : list A) (off : Z) : result A :=
  if 0 <=? off then
    match buf !! Z.to_nat off with Some b => Ok b | None => Err OutOfBounds end
  else Err OutOfBounds.

Definition wr1 {A} (buf : list A) (off : Z) (b : A) : result (list A) :=
  if (0 <=? off) && (off <? zlen buf)
  then Ok (<[Z.to_nat off := b]> buf)
  else Err OutOfBounds.

(** [memmove(dst, src, n)] inside one block: the source is read before the
    destination is written, so overlapping ranges are copied correctly. *)
Definition memmove {A} (buf : list A) (dst src n : Z) : result (list A) :=
  let* bs := rdn buf src n in
  wrn buf dst bs.

(** [zrealloc(p, n)]: the block keeps its first bytes; the bytes it gains are
    indeterminate, here the values of an arbitrary function [uninit]. *)
Definition realloc {A} (uninit : nat -> A) (buf : list A) (n : Z) : list A :=
  take (Z.to_nat n) buf ++
  map (fun k => uninit (length buf + k)%nat) (seq 0 (Z.to_nat n - length buf)).

(** * Little-endian integers *)

Fixpoint le_bytes (n : nat) (z : Z) : list Z :=
  match n with
  | O => []
  | S n => z mod 256 :: le_bytes n (z / 256)
  end.

Fixpoint le_val (bs : list Z) : Z :=
  match bs with
  | [] => 0
  | b :: bs => b + 256 * le_val bs
  end.

Definition is_byte (b : Z) : Prop := 0 <= b < 256.

(** * endianconv.c *)

Section swap.
(** Exchange two cells through a temporary, the way memrevN does. *)
Definition swap_cells (x : list Z) (i j : nat) : list Z :=
  match x !! i, x !! j with
  | Some t, Some u => <[j := t]> (<[i := u]> x)
  | _, _ => x
  end.
End swap.

Definition memrev16 (x : list Z) : list Z := swap_cells x 0 1.

Definition memrev32 (x : list Z) : list Z := swap_cells (swap_cells x 0 3) 1 2.

Definition memrev64 (x : list Z) : list Z :=
  swap_cells (swap_cells (swap_cells (swap_cells x 0 7) 1 6) 2 5) 3 4.

(** Byte order of the host that runs the code. *)
Class HostEndian := host_is_be : bool.

Section host.
Context {host : HostEndian}.

(** The bytes of a C integer object of [n] bytes in this host's memory. *)
Definition store (n : nat) (z : Z) : list Z :=
  if host_is_be then reverse (le_bytes n z) else le_bytes n z.
Definition load (bs : list Z) : Z :=
  if host_is_be then le_val (reverse bs) else le_val bs.

Definition intrev16 (v : Z) : Z := load (memrev16 (store 2 v)).
Definition intrev32 (v : Z) : Z := load (memrev32 (store 4 v)).
Definition intrev64 (v : Z) : Z := load (memrev64 (store 8 v)).

(** endianconv.h: the [ifbe] variants do nothing on little-endian hosts. *)
Definition memrev16ifbe (x : list Z) : list Z := if host_is_be then memrev16 x else x.
Definition memrev32ifbe (x : list Z) : list Z := if host_is_be then memrev32 x else x.
Definition memrev64ifbe (x : list Z) : list Z := if host_is_be then memrev64 x else x.
Definition intrev16ifbe (v : Z) : Z := if host_is_be then intrev16 v else v.
Definition intrev32ifbe (v : Z) : Z := if host_is_be then intrev32 v else v.
Definition intrev64ifbe (v : Z) : Z := if host_is_be then intrev64 v else v.
End host.

(** * Lemmas on blocks *)

Lemma zlen_app {A} (a b : list A) : zlen (a ++ b) = zlen a + zlen b.
Proof. unfold zlen. rewrite length_app. lia. Qed.

Lemma zlen_nil {A} : zlen (@nil A) = 0.
Proof. done. Qed.

Lemma zlen_cons {A} (x : A) l : zlen (x :: l) = 1 + zlen l.
Proof. unfold zlen. simpl. lia. Qed.

Lemma zlen_one {A} (x : A) : zlen [x] = 1.
Proof. done. Qed.

Lemma zlen_nonneg {A} (l : list A) : 0 <= zlen l.
Proof. unfold zlen. lia. Qed.

Lemma zlen_insert {A} (l : list A) i x : zlen (<[i := x]> l) = zlen l.
Proof. unfold zlen. by rewrite length_insert. Qed.

Lemma zlen_take {A} (l : list A) k : 0 <= k <= zlen l -> zlen (take (Z.to_nat k) l) = k.
Proof. unfold zlen. rewrite length_take. lia. Qed.

Lemma zlen_drop {A} (l : list A) k : 0 <= k <= zlen l -> zlen (drop (Z.to_nat k) l) = zlen l - k.
Proof. unfold zlen. rewrite length_drop. lia. Qed.

Lemma zlen_nil_inv {A} (l : list A) : zlen l = 0 -> l = [].
Proof. destruct l; [done|]. rewrite zlen_cons. pose proof (zlen_nonneg l). lia. Qed.

(** A read of the middle part of a block laid out as [a ++ b ++ c]. *)
Lemma rdn_mid {A} (a b c : list A) off n :
  off = zlen a -> n = zlen b -> rdn (a ++ b ++ c) off n = Ok b.
Proof.
  intros -> ->. unfold rdn. rewrite !zlen_app.
  pose proof (zlen_nonneg a). pose proof (zlen_nonneg b). pose proof (zlen_nonneg c).
  dec_bool. unfold zlen. rewrite !Nat2Z.id, drop_app_length, take_app_length. done.
Qed.

Lemma wrn_mid {A} (a b b' c : list A) off :
  off = zlen a -> zlen b' = zlen b -> wrn (a ++ b ++ c) off b' = Ok (a ++ b' ++ c).
Proof.
  intros -> Hb. unfold wrn. rewrite !zlen_app.
  pose proof (zlen_nonneg a). pose proof (zlen_nonneg b). pose proof (zlen_nonneg c).
  dec_bool. unfold zlen in *. rewrite !Nat2Z.id, take_app_length.
  replace (length a + length b')%nat with (length (a ++ b)) by (rewrite length_app; lia).
  rewrite (app_assoc a b c), drop_app_length. done.
Qed.

Lemma rdn_length {A} (buf bs : list A) off n :
  rdn buf off n = Ok bs -> zlen bs = n.
Proof.
  unfold rdn. intros H. repeat (case_bool_in H; simpl in H; try discriminate).
  injection H as <-. unfold zlen in *. rewrite length_take, length_drop. lia.
Qed.

Lemma rd1_lookup {A} (buf : list A) off b :
  0 <= off -> buf !! Z.to_nat off = Some b -> rd1 buf off = Ok b.
Proof. intros H Hb. unfold rd1. dec_bool. by rewrite Hb. Qed.

Lemma rd1_inv {A} (buf : list A) off b :
  rd1 buf off = Ok b -> 0 <= off < zlen buf /\ buf !! Z.to_nat off = Some b.
Proof.
  unfold rd1. case_bool; [|discriminate].
  destruct (buf !! Z.to_nat off) eqn:E; [|discriminate].
  intros [= ->]. apply lookup_lt_Some in E as Hlt. unfold zlen. split; [lia | done].
Qed.

Lemma rd1_ok {A} (buf : list A) off :
  0 <= off < zlen buf -> exists b, rd1 buf off = Ok b /\ buf !! Z.to_nat off = Some b.
Proof.
  intros H. unfold zlen in H.
  destruct (lookup_lt_is_Some_2 buf (Z.to_nat off)) as [b Hb]; [lia|].
  exists b. split; [by apply rd1_lookup; [lia|] | done].
Qed.

Lemma wr1_ok {A} (buf : list A) off b :
  0 <= off < zlen buf -> wr1 buf off b = Ok (<[Z.to_nat off := b]> buf).
Proof. intros H. unfold wr1. dec_bool. done. Qed.

Lemma rd1_mid {A} (a c : list A) x off : off = zlen a -> rd1 (a ++ x :: c) off = Ok x.
Proof.
  intros ->. pose proof (zlen_nonneg a). apply rd1_lookup; [done|].
  unfold zlen. rewrite Nat2Z.id. by apply list_lookup_middle.
Qed.

Lemma wr1_mid {A} (a c : list A) x y off : off = zlen a -> wr1 (a ++ x :: c) off y = Ok (a ++ y :: c).
Proof.
  intros ->. pose proof (zlen_nonneg a). rewrite wr1_ok.
  - unfold zlen. rewrite Nat2Z.id, insert_app_r_alt, Nat.sub_diag by lia. done.
  - rewrite zlen_app, zlen_cons. pose proof (zlen_nonneg c). lia.
Qed.

Lemma memmove_mid {A} (a b c : list A) dst src n off buf :
  buf = a ++ b ++ c -> src = zlen a -> n = zlen b -> off = dst ->
  memmove buf dst src n = wrn (a ++ b ++ c) off b.
Proof. intros -> -> -> ->. unfold memmove. by rewrite rdn_mid by done. Qed.

(** The [n] bytes at an offset. *)
Definition seg (buf : list Z) (i n : Z) : list Z := take (Z.to_nat n) (drop (Z.to_nat i) buf).

Lemma seg_split buf i m n :
  0 <= i -> 0 <= m -> 0 <= n -> seg buf i (m + n) = seg buf i m ++ seg buf (i + m) n.
Proof.
  intros Hi Hm Hn. unfold seg. replace (Z.to_nat (i + m)) with (Z.to_nat i + Z.to_nat m)%nat by lia.
  rewrite Z2Nat.inj_add, <- drop_drop by lia. symmetry. apply take_take_drop.
Qed.

Lemma seg_length buf i n : 0 <= i -> 0 <= n -> i + n <= zlen buf -> length (seg buf i n) = Z.to_nat n.
Proof. intros Hi Hn Hl. unfold seg, zlen in *. rewrite length_take, length_drop. lia. Qed.

Lemma seg_bytes buf i n : Forall is_byte buf -> Forall is_byte (seg buf i n).
Proof. intros H. by apply Forall_take, Forall_drop. Qed.

Lemma rdn_seg buf i n : 0 <= i -> 0 <= n -> i + n <= zlen buf -> rdn buf i n = Ok (seg buf i n).
Proof. intros Hi Hn Hl. unfold rdn. dec_bool. done. Qed.

Lemma realloc_shrink {A} uninit (a b : list A) n :
  n = zlen a -> realloc uninit (a ++ b) n = a.
Proof.
  intros ->. unfold realloc, zlen. rewrite Nat2Z.id, take_app_length, length_app.
  replace (length a - (length a + length b))%nat with 0%nat by lia.
  simpl. by rewrite app_nil_r.
Qed.

Lemma realloc_grow {A} uninit (a : list A) n :
  zlen a <= n -> exists c, realloc uninit a n = a ++ c /\ zlen c = n - zlen a.
Proof.
  intros H. unfold realloc, zlen in *. rewrite take_ge by lia.
  eexists; split; [done|]. rewrite length_map, length_seq. lia.
Qed.

(** * Lemmas on little-endian integers *)

Lemma length_le_bytes n z : length (le_bytes n z) = n.
Proof. revert z; induction n; intros; simpl; auto. Qed.

Lemma zlen_le_bytes n z : zlen (le_bytes n z) = Z.of_nat n.
Proof. unfold zlen. by rewrite length_le_bytes. Qed.

Lemma le_bytes_byte n z : Forall is_byte (le_bytes n z).
Proof.
  revert z; induction n; intros; simpl; constructor; auto.
  unfold is_byte. apply Z.mod_pos_bound. lia.
Qed.

Lemma le_val_bytes n z : le_val (le_bytes n z) = z mod 2 ^ (8 * Z.of_nat n).
Proof.
  revert z; induction n as [|n IH]; intros z.
  - simpl. by rewrite Z.mod_1_r.
  - simpl le_bytes. simpl le_val. rewrite IH.
    replace (8 * Z.of_nat (S n)) with (8 + 8 * Z.of_nat n) by lia.
    rewrite Z.pow_add_r by lia. change (2 ^ 8) with 256.
    rewrite Z.rem_mul_r by (try apply Z.pow_pos_nonneg; lia). lia.
Qed.

Lemma le_val_range bs : Forall is_byte bs -> 0 <= le_val bs < 2 ^ (8 * zlen bs).
Proof.
  induction 1 as [|b bs Hb _ IH]; [unfold zlen; simpl; lia|].
  rewrite zlen_cons. simpl le_val. unfold is_byte in Hb.
  replace (8 * (1 + zlen bs)) with (8 + 8 * zlen bs) by lia.
  pose proof (zlen_nonneg bs). rewrite Z.pow_add_r by lia. change (2 ^ 8) with 256. lia.
Qed.

Lemma le_bytes_val bs : Forall is_byte bs -> le_bytes (length bs) (le_val bs) = bs.
Proof.
  induction 1 as [|b bs Hb _ IH]; [done|].
  simpl. unfold is_byte in Hb.
  replace (b + 256 * le_val bs) with (le_val bs * 256 + b) by lia.
  rewrite Z.add_comm, Z.mod_add, Z.mod_small by lia.
  rewrite Z.div_add, Z.div_small by lia. by rewrite Z.add_0_l, IH.
Qed.

Lemma le_bytes_mod n z : le_bytes n (z mod 2 ^ (8 * Z.of_nat n)) = le_bytes n z.
Proof.
  rewrite <- (le_val_bytes n z).
  rewrite <- (length_le_bytes n z) at 1. apply le_bytes_val, le_bytes_byte.
Qed.

#[export] Hint Rewrite @zlen_app @zlen_nil @zlen_cons @zlen_insert zlen_le_bytes : bytes.
#[export] Hint Resolve le_bytes_byte : bytes.

(** * Byte order *)

Lemma memrev16_reverse a b : memrev16 [a; b] = reverse [a; b].
Proof. done. Qed.

Lemma memrev32_reverse x : length x = 4%nat -> memrev32 x = reverse x.
Proof.
  intros H. do 4 (destruct x as [|? x]; [discriminate|]).
  destruct x; [done | discriminate].
Qed.

Lemma memrev64_reverse x : length x = 8%nat -> memrev64 x = reverse x.
Proof.
  intros H. do 8 (destruct x as [|? x]; [discriminate|]).
  destruct x; [done | discriminate].
Qed.

Lemma memrev16_reverse' x : length x = 2%nat -> memrev16 x = reverse x.
Proof.
  intros H. do 2 (destruct x as [|? x]; [discriminate|]).
  destruct x; [done | discriminate].
Qed.

Section host_lemmas.
Context {host : HostEndian}.

Lemma length_store n z : length (store n z) = n.
Proof. unfold store. case_match; rewrite ?length_reverse; apply length_le_bytes. Qed.

Lemma load_store n z : load (store n z) = z mod 2 ^ (8 * Z.of_nat n).
Proof.
  unfold load, store. destruct host_is_be; rewrite ?reverse_involutive; apply le_val_bytes.
Qed.

(** Storing a word and then reversing it on big-endian hosts leaves the
    little-endian bytes in memory, whatever the host. *)
Lemma store_memrev16 v : memrev16ifbe (store 2 v) = le_bytes 2 v.
Proof.
  unfold memrev16ifbe, store. destruct host_is_be; [|done].
  by rewrite memrev16_reverse', reverse_involutive by (by rewrite length_reverse, length_le_bytes).
Qed.

Lemma store_memrev32 v : memrev32ifbe (store 4 v) = le_bytes 4 v.
Proof.
  unfold memrev32ifbe, store. destruct host_is_be; [|done].
  by rewrite memrev32_reverse, reverse_involutive by (by rewrite length_reverse, length_le_bytes).
Qed.

Lemma store_memrev64 v : memrev64ifbe (store 8 v) = le_bytes 8 v.
Proof.
  unfold memrev64ifbe, store. destruct host_is_be; [|done].
  by rewrite memrev64_reverse, reverse_involutive by (by rewrite length_reverse, length_le_bytes).
Qed.

(** ... and the converse: what a reader of such a word sees. *)
Lemma load_memrev16 bs : length bs = 2%nat -> load (memrev16ifbe bs) = le_val bs.
Proof.
  intros H. unfold memrev16ifbe, load. destruct host_is_be; [|done].
  by rewrite memrev16_reverse', reverse_involutive.
Qed.

Lemma load_memrev32 bs : length bs = 4%nat -> load (memrev32ifbe bs) = le_val bs.
Proof.
  intros H. unfold memrev32ifbe, load. destruct host_is_be; [|done].
  by rewrite memrev32_reverse, reverse_involutive.
Qed.

Lemma load_memrev64 bs : length bs = 8%nat -> load (memrev64ifbe bs) = le_val bs.
Proof.
  intros H. unfold memrev64ifbe, load. destruct host_is_be; [|done].
  by rewrite memrev64_reverse, reverse_involutive.
Qed.

Lemma intrev32ifbe_invol v : 0 <= v < 2 ^ 32 -> intrev32ifbe (intrev32ifbe v) = v.
Proof.
  intros Hv. unfold intrev32ifbe, intrev32. destruct host_is_be eqn:E; [|done].
  assert (load (memrev32 (store 4 v)) = le_val (store 4 v)) as ->.
  { rewrite memrev32_reverse by apply length_store. unfold load. rewrite E.
    by rewrite reverse_involutive. }
  unfold store. rewrite E. unfold load. rewrite E.
  rewrite memrev32_reverse by (by rewrite length_reverse, length_le_bytes).
  rewrite !reverse_involutive.
  replace (le_bytes 4 (le_val (reverse (le_bytes 4 v)))) with (reverse (le_bytes 4 v)).
  { rewrite reverse_involutive, le_val_bytes, Z.mod_small; [done|]. change (8 * Z.of_nat 4) with 32. lia. }
  pose proof (le_bytes_val (reverse (le_bytes 4 v))) as Hb.
  rewrite length_reverse, length_le_bytes in Hb. symmetry. apply Hb.
  apply Forall_reverse, le_bytes_byte.
Qed.

Lemma intrev32ifbe_range v : 0 <= v < 2 ^ 32 -> 0 <= intrev32ifbe v < 2 ^ 32.
Proof.
  intros Hv. unfold intrev32ifbe, intrev32. destruct host_is_be eqn:E; [|done].
  rewrite memrev32_reverse by apply length_store. unfold load, store. rewrite E.
  rewrite !reverse_involutive.
  pose proof (le_val_range (reverse (le_bytes 4 v))) as Hr.
  unfold zlen in Hr. rewrite length_reverse, length_le_bytes in Hr.
  apply Hr, Forall_reverse, le_bytes_byte.
Qed.

(** A header word written through [intrev32ifbe] is little endian in memory,
    and reads back. *)
Lemma store_intrev32ifbe v : store 4 (intrev32ifbe v) = le_bytes 4 v.
Proof.
  unfold intrev32ifbe, intrev32. destruct host_is_be eqn:E; [|by unfold store; rewrite E].
  rewrite memrev32_reverse by apply length_store. unfold load, store. rewrite E.
  rewrite !reverse_involutive.
  pose proof (le_bytes_val (reverse (le_bytes 4 v))) as Hb.
  rewrite length_reverse, length_le_bytes in Hb.
  rewrite Hb by (apply Forall_reverse, le_bytes_byte). apply reverse_involutive.
Qed.

Lemma store_hdr v : store 4 v = le_bytes 4 (intrev32ifbe v).
Proof.
  unfold intrev32ifbe, intrev32. destruct host_is_be eqn:E; [|by unfold store; rewrite E].
  rewrite memrev32_reverse by apply length_store. unfold load, store. rewrite E.
  rewrite !reverse_involutive.
  pose proof (le_bytes_val (reverse (le_bytes 4 v))) as Hb.
  rewrite length_reverse, length_le_bytes in Hb. symmetry. apply Hb.
  apply Forall_reverse, le_bytes_byte.
Qed.

Lemma intrev32ifbe_load bs :
  length bs = 4%nat -> Forall is_byte bs -> intrev32ifbe (load bs) = le_val bs.
Proof.
  intros Hl Hb. unfold intrev32ifbe, intrev32, load, store. destruct host_is_be; [|done].
  assert (le_bytes 4 (le_val (reverse bs)) = reverse bs) as ->.
  { rewrite <- Hl, <- length_reverse. by apply le_bytes_val, Forall_reverse. }
  by rewrite reverse_involutive, memrev32_reverse, reverse_involutive.
Qed.
End host_lemmas.
