(* ===== verification/Fenwick.v ===== *)
(** Fenwick: the binary indexed tree of src/redis-stable/src/fwtree.c.

    kvstore.c and estore.c keep one counter per slot in such a tree, to find
    the slot that holds the n-th key and the next non-empty slot.  The record
    [fenwickTree] is the C structure; the abstract state is the plain array
    [a] of counters, and [represents ft a] says that the tree stores it.

    Theorems: every operation implements its array counterpart (prefix sum,
    point update, search for the slot of the n-th item, next non-empty slot),
    without leaving the array, without signed overflow and without firing the
    assertion; and what happens outside the documented precondition of
    [fwTreeFindIndex]. *)

From Stdlib Require Import ZArith Lia Bool.
From stdpp Require Import base list numbers decidable.
From S2P Require Import Prelude Bytes.

Local Open Scope Z_scope.

(** * The code *)

(** struct _fenwickTree *)
Record fenwickTree := {
  tree : list Z;
  size_bits : Z;
  size : Z;
  total : Z;
}.

(** [sizeBits] is the exponent of an [int] shift; the shift is defined while
    [1 << sizeBits] fits an [int]. *)
Definition fwTreeCreate (sizeBits : Z) : result fenwickTree :=
  check (0 <=? sizeBits) && (sizeBits <? 31) else SignedOverflow;;
  let sz := Z.shiftl 1 sizeBits in
  Ok {| tree := replicate (Z.to_nat (sz + 1)) 0;
        size_bits := sizeBits; size := sz; total := 0 |}.

(** [idx & -idx] *)
Definition lowbit (idx : Z) : Z := Z.land idx (- idx).

(** The [while (idx > 0)] loop of fwTreePrefixSum. *)
Fixpoint prefix_loop (fuel : nat) (t : list Z) (idx sum : Z) : result Z :=
  if idx >? 0 then
    match fuel with
    | O => Err OutOfFuel
    | S fuel =>
        let* v := rd1 t idx in
        prefix_loop fuel t (idx - lowbit idx) (u64 (sum + v))
    end
  else Ok sum.

(** The pointer may be NULL, hence the [option]. *)
Definition fwTreePrefixSum (ft : option fenwickTree) (idx : Z) : result Z :=
  match ft with
  | None => Ok 0
  | Some ft =>
      if idx <? 0 then Ok 0 else
      let idx := if idx >=? size ft then size ft - 1 else idx in
      let* idx := chk_i32 (idx + 1) in
      prefix_loop (Z.to_nat (size ft) + 1) (tree ft) idx 0
  end.

(** The [while (idx <= ft->size)] loop of fwTreeUpdate. *)
Fixpoint update_loop (fuel : nat) (sz : Z) (t : list Z) (idx delta : Z)
  : result (list Z) :=
  if idx <=? sz then
    match fuel with
    | O => Err OutOfFuel
    | S fuel =>
        let* v := rd1 t idx in
        check (negb (delta <? 0)) || (v >=? u64 (- delta)) else AssertFailed;;
        let* t := wr1 t idx (u64 (v + delta)) in
        let* idx := chk_i32 (idx + lowbit idx) in
        update_loop fuel sz t idx delta
    end
  else Ok t.

Definition fwTreeUpdate (ft : option fenwickTree) (idx delta : Z)
  : result (option fenwickTree) :=
  match ft with
  | None => Ok None
  | Some f =>
      if (idx <? 0) || (idx >=? size f) then Ok ft else
      let* idx := chk_i32 (idx + 1) in
      let tot := u64 (total f + delta) in
      let* t := update_loop (Z.to_nat (size f) + 1) (size f) (tree f) idx delta in
      Ok (Some {| tree := t; size_bits := size_bits f; size := size f; total := tot |})
  end.

(** The [for (int i = bit_mask; i != 0; i >>= 1)] loop of fwTreeFindIndex. *)
Fixpoint find_loop (fuel : nat) (t : list Z) (i result_ target : Z) : result Z :=
  if negb (i =? 0) then
    match fuel with
    | O => Err OutOfFuel
    | S fuel =>
        let* current := chk_i32 (result_ + i) in
        let* v := rd1 t current in
        if target >? v
        then find_loop fuel t (Z.shiftr i 1) current (u64 (target - v))
        else find_loop fuel t (Z.shiftr i 1) result_ target
    end
  else Ok result_.

Definition fwTreeFindIndex (ft : fenwickTree) (target : Z) : result Z :=
  if target <=? 0 then Ok 0 else
  let bit_mask := Z.shiftl 1 (size_bits ft) in
  find_loop (Z.to_nat (size_bits ft) + 1) (tree ft) bit_mask 0 target.

Definition fwTreeFindFirstNonEmpty (ft : fenwickTree) : result Z :=
  fwTreeFindIndex ft 1.

Definition fwTreeFindNextNonEmpty (ft : option fenwickTree) (idx : Z) : result Z :=
  match ft with
  | None => Ok (-1)
  | Some f =>
      if (idx <? 0) || (idx >=? size f) then Ok (-1) else
      let* s := fwTreePrefixSum ft idx in
      let next_sum := u64 (s + 1) in
      if next_sum <=? total f then fwTreeFindIndex f next_sum else Ok (-1)
  end.

Definition fwTreeClear (ft : fenwickTree) : fenwickTree :=
  {| tree := replicate (Z.to_nat (size ft + 1)) 0;
     size_bits := size_bits ft; size := size ft; total := 0 |}.

(** * The abstract array *)

Definition zsum (l : list Z) : Z := foldr Z.add 0 l.

(** Sum of the first [n] cells. *)
Definition psum (a : list Z) (n : Z) : Z := zsum (take (Z.to_nat n) a).

(** [ft] stores the counters [a]: 2^size_bits of them, none negative, their
    sum within a 64-bit word, node [j] the sum of cells (j - lowbit j, j]. *)
Record represents (ft : fenwickTree) (a : list Z) : Prop := {
  rep_bits : 0 <= size_bits ft < 30;
  rep_size : size ft = 2 ^ size_bits ft;
  rep_len : zlen a = size ft;
  rep_nonneg : Forall (fun v => 0 <= v) a;
  rep_total : total ft = zsum a;
  rep_word : zsum a < 2 ^ 64;
  rep_treelen : zlen (tree ft) = size ft + 1;
  rep_node : forall j, 1 <= j <= size ft ->
    tree ft !! Z.to_nat j = Some (psum a j - psum a (j - lowbit j));
}.

(** ** Sums *)

Lemma zsum_app l1 l2 : zsum (l1 ++ l2) = zsum l1 + zsum l2.
Proof. induction l1 as [|x l1 IH]; simpl; [done|]. unfold zsum in *. simpl. lia. Qed.

Lemma zsum_nonneg l : Forall (fun v => 0 <= v) l -> 0 <= zsum l.
Proof. induction 1; unfold zsum in *; simpl; lia. Qed.

Lemma psum_0 a n : n <= 0 -> psum a n = 0.
Proof. intros. unfold psum. by replace (Z.to_nat n) with 0%nat by lia. Qed.

Lemma psum_all a n : zlen a <= n -> psum a n = zsum a.
Proof. intros H. unfold psum, zlen in *. by rewrite take_ge by lia. Qed.

Lemma psum_mono a i j :
  Forall (fun v => 0 <= v) a -> i <= j -> psum a i <= psum a j.
Proof.
  intros Ha Hij. unfold psum.
  replace (Z.to_nat j) with (Z.to_nat i + (Z.to_nat j - Z.to_nat i))%nat by lia.
  rewrite <- take_take_drop, zsum_app.
  enough (0 <= zsum (take (Z.to_nat j - Z.to_nat i) (drop (Z.to_nat i) a))) by lia.
  by apply zsum_nonneg, Forall_take, Forall_drop.
Qed.

Lemma psum_range a i :
  Forall (fun v => 0 <= v) a -> 0 <= psum a i <= zsum a.
Proof.
  intros Ha. split.
  - apply zsum_nonneg. by apply Forall_take.
  - rewrite <- (psum_all a (Z.max i (zlen a))) by lia. apply psum_mono; [done | lia].
Qed.

(** Adding [delta] to cell [k] moves the sums that cover it. *)
Lemma zsum_alter a k delta :
  (k < length a)%nat -> zsum (alter (Z.add delta) k a) = zsum a + delta.
Proof.
  revert k. induction a as [|x a IH]; intros [|k] Hk; simpl in Hk; try lia.
  - change (alter (Z.add delta) 0%nat (x :: a)) with ((delta + x) :: a).
    unfold zsum. simpl. lia.
  - change (alter (Z.add delta) (S k) (x :: a)) with (x :: alter (Z.add delta) k a).
    specialize (IH k ltac:(lia)). unfold zsum in *. cbn [foldr]. lia.
Qed.

Lemma psum_alter a k delta j :
  0 <= k < zlen a ->
  psum (alter (Z.add delta) (Z.to_nat k) a) j = psum a j + (if k <? j then delta else 0).
Proof.
  intros Hk. unfold psum, zlen in *. case_bool.
  - rewrite take_alter_lt by lia. apply zsum_alter. rewrite length_take. lia.
  - rewrite take_alter_ge by lia. lia.
Qed.

(** ** The lowest set bit *)

Lemma lowbit_odd m : lowbit (2 * m + 1) = 1.
Proof.
  unfold lowbit. replace (- (2 * m + 1)) with (Z.lnot (2 * m)) by (pose proof (Z.add_lnot_diag (2 * m)); lia).
  apply Z.bits_inj'. intros n Hn. rewrite Z.land_spec, Z.lnot_spec by lia.
  destruct (Z.eqb_spec n 0) as [->|Hn0].
  - by rewrite Z.testbit_odd_0, Z.testbit_even_0.
  - replace n with (Z.succ (n - 1)) by lia.
    rewrite Z.testbit_odd_succ, Z.testbit_even_succ by lia.
    change 1 with (2 * 0 + 1) at 3. rewrite Z.testbit_odd_succ by lia.
    rewrite Z.testbit_0_l. by destruct (Z.testbit m (n - 1)).
Qed.

(** Every positive index is an odd multiple of its lowest set bit. *)
Lemma lowbit_decomp i : 0 < i ->
  exists k m, 0 <= k /\ 0 <= m /\ i = (2 * m + 1) * 2 ^ k /\ lowbit i = 2 ^ k.
Proof.
  destruct i as [|p|p]; intros H; try lia. clear H.
  induction p as [p IH|p IH|].
  - exists 0, (Z.pos p). rewrite Z.pow_0_r. split; [lia|]. split; [lia|]. split; [lia|].
    change (Z.pos p~1) with (2 * Z.pos p + 1). apply lowbit_odd.
  - destruct IH as (k & m & Hk & Hm & He & Hl). exists (k + 1), m.
    rewrite Z.pow_add_r, Z.pow_1_r by lia. split; [lia|]. split; [lia|]. split; [lia|].
    rewrite <- Hl. unfold lowbit.
    replace (Z.pos p~0) with (Z.shiftl (Z.pos p) 1) by (rewrite Z.shiftl_mul_pow2; lia).
    replace (- Z.shiftl (Z.pos p) 1) with (Z.shiftl (- Z.pos p) 1)
      by (rewrite !Z.shiftl_mul_pow2; lia).
    rewrite <- Z.shiftl_land, Z.shiftl_mul_pow2 by lia. lia.
  - exists 0, 0. by vm_compute.
Qed.

Lemma lowbit_mul_pow2 z k : 0 <= k -> lowbit (z * 2 ^ k) = lowbit z * 2 ^ k.
Proof.
  intros Hk. unfold lowbit. rewrite <- Z.mul_opp_l, <- !Z.shiftl_mul_pow2 by done.
  by rewrite Z.shiftl_land.
Qed.

Lemma lowbit_odd_pow2 m k : 0 <= k -> lowbit ((2 * m + 1) * 2 ^ k) = 2 ^ k.
Proof. intros. rewrite lowbit_mul_pow2, lowbit_odd by done. lia. Qed.

Lemma lowbit_bounds i : 0 < i -> 1 <= lowbit i <= i.
Proof.
  intros Hi. destruct (lowbit_decomp i Hi) as (k & m & Hk & Hm & He & ->).
  pose proof (Z.pow_pos_nonneg 2 k). nia.
Qed.

(** Between an index and its successor in the update chain, no node reaches
    back to the index. *)
Lemma lowbit_between i j :
  0 < i -> i < j < i + lowbit i -> i <= j - lowbit j.
Proof.
  intros Hi Hj. destruct (lowbit_decomp i Hi) as (k & m & Hk & Hm & He & Hl).
  destruct (lowbit_decomp (j - i) ltac:(lia)) as (l & n & Hl0 & Hn & Hr & _).
  assert (l < k) as Hlk.
  { apply (Z.pow_lt_mono_r_iff 2); [lia..|]. rewrite Hl in Hj.
    pose proof (Z.pow_pos_nonneg 2 l). nia. }
  assert (j = (2 * (n + (2 * m + 1) * 2 ^ (k - l - 1)) + 1) * 2 ^ l) as Hjeq.
  { replace j with ((j - i) + i) by lia. rewrite Hr, He at 1.
    replace (2 ^ k) with (2 * 2 ^ (k - l - 1) * 2 ^ l).
    - lia.
    - rewrite <- Z.pow_succ_r, <- Z.pow_add_r by lia. f_equal; lia. }
  rewrite Hjeq at 2. rewrite lowbit_odd_pow2 by done.
  pose proof (Z.pow_pos_nonneg 2 l). nia.
Qed.

(** The successor of a node in the update chain covers at least what it does. *)
Lemma lowbit_next i :
  0 < i -> (i + lowbit i) - lowbit (i + lowbit i) <= i - lowbit i.
Proof.
  intros Hi. destruct (lowbit_decomp i Hi) as (k & m & Hk & Hm & He & Hl).
  rewrite Hl. replace (i + 2 ^ k) with ((m + 1) * 2 ^ (k + 1))
    by (rewrite Z.pow_add_r, Z.pow_1_r by lia; lia).
  rewrite lowbit_mul_pow2 by lia. pose proof (lowbit_bounds (m + 1) ltac:(lia)).
  rewrite Z.pow_add_r, Z.pow_1_r by lia. pose proof (Z.pow_pos_nonneg 2 k). nia.
Qed.

(** A multiple of [2 * 2^k] below [2^b] leaves room for [2^k] more. *)
Lemma pow2_gap b k i r n :
  i = 2 ^ Z.of_nat k -> n = 2 ^ b -> 0 <= b -> 0 <= r ->
  (exists c, r = c * (2 * i)) -> 0 < r -> r <= n - 1 -> r + i <= n.
Proof.
  intros -> -> Hb Hr [c Hc] Hpos Hlt.
  pose proof (Z.pow_pos_nonneg 2 (Z.of_nat k)) as Hp. set (i := 2 ^ Z.of_nat k) in *.
  assert (1 <= c) by nia. assert (i < 2 ^ b) as Hib by nia.
  apply (Z.pow_lt_mono_r_iff 2) in Hib; [|lia..].
  assert (2 ^ b = 2 ^ (b - Z.of_nat k) * i) as Hbeq.
  { unfold i. rewrite <- Z.pow_add_r by lia. f_equal; lia. }
  assert (2 * c < 2 ^ (b - Z.of_nat k)) by (apply (Z.mul_lt_mono_pos_r i); lia).
  assert ((2 * c + 1) * i <= 2 ^ (b - Z.of_nat k) * i) by (apply Z.mul_le_mono_nonneg_r; lia).
  lia.
Qed.

(** ** Queries *)

Section represented.
Context (ft : fenwickTree) (a : list Z) (Hrep : represents ft a).

Lemma rep_size_bound : 1 <= size ft < 2 ^ 30.
Proof.
  destruct Hrep as [Hb Hs _ _ _ _ _ _]. rewrite Hs. split.
  - pose proof (Z.pow_pos_nonneg 2 (size_bits ft)). lia.
  - apply Z.pow_lt_mono_r; lia.
Qed.

Lemma rep_rd1 j : 1 <= j <= size ft ->
  rd1 (tree ft) j = Ok (psum a j - psum a (j - lowbit j)).
Proof. intros Hj. apply rd1_lookup; [lia|]. by apply (rep_node _ _ Hrep). Qed.

Lemma rep_psum_word j : 0 <= psum a j < 2 ^ 64.
Proof.
  pose proof (psum_range a j (rep_nonneg _ _ Hrep)).
  pose proof (rep_word _ _ Hrep). lia.
Qed.

Lemma prefix_loop_ok fuel i s :
  i <= size ft -> i <= Z.of_nat fuel -> 0 <= s -> 0 <= i ->
  s + psum a i < 2 ^ 64 ->
  prefix_loop fuel (tree ft) i s = Ok (s + psum a i).
Proof.
  revert i s. induction fuel as [|fuel IH]; intros i s Hi Hf Hs H0 Hw; simpl; case_bool; case_bool.
  - lia.
  - rewrite psum_0 by lia. f_equal; lia.
  - rewrite rep_rd1 by lia. runr. pose proof (lowbit_bounds i ltac:(lia)).
    pose proof (rep_psum_word i). pose proof (rep_psum_word (i - lowbit i)).
    pose proof (psum_mono a (i - lowbit i) i (rep_nonneg _ _ Hrep) ltac:(lia)).
    rewrite wrapU_small by lia. rewrite IH by lia. f_equal; lia.
  - rewrite psum_0 by lia. f_equal; lia.
Qed.

Lemma fwTreePrefixSum_all idx :
  fwTreePrefixSum (Some ft) idx = Ok (psum a (idx + 1)).
Proof.
  pose proof rep_size_bound. unfold fwTreePrefixSum.
  case_bool; [by rewrite psum_0 by lia|].
  rewrite Z.geb_leb. case_bool.
  - rewrite chk_i32_ok by lia. runr. rewrite prefix_loop_ok; try lia.
    + rewrite !psum_all by (rewrite (rep_len _ _ Hrep); lia). done.
    + apply rep_psum_word.
  - rewrite chk_i32_ok by lia. runr. rewrite prefix_loop_ok; try lia; [done|].
    apply rep_psum_word.
Qed.

(** The descent keeps [result_] the largest multiple of [2 * i] whose prefix
    sum is below the target, so it ends on the last index below it. *)
Lemma find_loop_ok k fuel r t goal :
  (k < fuel)%nat -> 0 <= r -> (exists c, r = c * (2 * 2 ^ Z.of_nat k)) ->
  r + 2 ^ Z.of_nat k <= size ft ->
  t = goal - psum a r -> psum a r < goal ->
  goal <= psum a (r + 2 * 2 ^ Z.of_nat k) -> 0 <= goal < 2 ^ 64 ->
  exists p, find_loop fuel (tree ft) (2 ^ Z.of_nat k) r t = Ok p /\
    r <= p < r + 2 * 2 ^ Z.of_nat k /\ psum a p < goal <= psum a (p + 1).
Proof.
  revert fuel r t. induction k as [|k IH]; intros [|fuel] r t Hf Hr [c Hc] Hsz Ht Hlo Hhi Hg;
    try lia; pose proof rep_size_bound.
  - change (Z.of_nat 0) with 0 in *. rewrite Z.pow_0_r in *. simpl.
    rewrite chk_i32_ok by lia. runr. rewrite rep_rd1 by lia. runr.
    assert (lowbit (r + 1) = 1) as -> by (replace (r + 1) with (2 * c + 1) by lia; apply lowbit_odd).
    replace (r + 1 - 1) with r by lia. rewrite Z.gtb_ltb.
    pose proof (rep_psum_word r). pose proof (rep_psum_word (r + 1)).
    case_bool.
    + exists (r + 1). replace (r + 1 + 1) with (r + 2) by lia.
      replace (r + 2 * 1) with (r + 2) in Hhi by lia.
      destruct fuel; simpl; split; try done; lia.
    + exists r. destruct fuel; simpl; split; try done; lia.
  - set (i := 2 ^ Z.of_nat k) in *.
    assert (2 ^ Z.of_nat (S k) = 2 * i) as Hi.
    { unfold i. rewrite Nat2Z.inj_succ, Z.pow_succ_r by lia. done. }
    assert (0 < i) by (apply Z.pow_pos_nonneg; lia).
    rewrite Hi in *. cbn [find_loop]. dec_bool. simpl negb. cbv iota.
    rewrite chk_i32_ok by lia. runr. rewrite rep_rd1 by lia. runr.
    assert (lowbit (r + 2 * i) = 2 * i) as ->.
    { rewrite <- Hi. replace (r + 2 ^ Z.of_nat (S k)) with ((2 * c + 1) * 2 ^ Z.of_nat (S k)).
      - apply lowbit_odd_pow2; lia.
      - rewrite Hi. lia. }
    replace (r + 2 * i - 2 * i) with r by lia.
    assert (Z.shiftr (2 * i) 1 = i) as Hs.
    { rewrite Z.shiftr_div_pow2 by lia. rewrite Z.mul_comm. by rewrite Z.div_mul by lia. }
    rewrite Hs. rewrite Z.gtb_ltb.
    pose proof (rep_psum_word r). pose proof (rep_psum_word (r + 2 * i)).
    case_bool.
    + assert (r + 2 * i <= size ft - 1) as Hlt.
      { destruct (Z.eq_dec (r + 2 * i) (size ft)) as [Heq|]; [|lia].
        pose proof (psum_range a (r + 2 * (2 * i)) (rep_nonneg _ _ Hrep)).
        rewrite Heq, psum_all in * by (rewrite (rep_len _ _ Hrep); lia). lia. }
      assert (r + 2 * i + i <= size ft).
      { pose proof (rep_bits _ _ Hrep).
        apply (pow2_gap (size_bits ft) k i (r + 2 * i) (size ft));
          [done | apply (rep_size _ _ Hrep) | lia | lia | exists (2 * c + 1); lia | lia | lia]. }
      rewrite wrapU_small by lia.
      destruct (IH fuel (r + 2 * i) (t - (psum a (r + 2 * i) - psum a r))) as (p & Hp1 & Hp2 & Hp3);
        try lia.
      * exists (2 * c + 1). lia.
      * replace (r + 2 * i + 2 * i) with (r + 2 * (2 * i)) by lia. done.
      * exists p. rewrite Hp1. split; [done|]. lia.
    + destruct (IH fuel r t) as (p & Hp1 & Hp2 & Hp3); try lia.
      * exists (2 * c). lia.
      * exists p. rewrite Hp1. split; [done|]. lia.
Qed.

Lemma find_index_ok target :
  1 <= target <= zsum a ->
  exists p, fwTreeFindIndex ft target = Ok p /\ 0 <= p < size ft /\
            psum a p < target <= psum a (p + 1).
Proof.
  intros Ht. unfold fwTreeFindIndex. dec_bool. pose proof rep_size_bound.
  pose proof (rep_bits _ _ Hrep). pose proof (rep_size _ _ Hrep) as Hs.
  pose proof (rep_word _ _ Hrep).
  rewrite Z.shiftl_mul_pow2, Z.mul_1_l by lia.
  destruct (find_loop_ok (Z.to_nat (size_bits ft)) (Z.to_nat (size_bits ft) + 1) 0 target target)
    as (p & Hp1 & Hp2 & Hp3); rewrite ?Z2Nat.id, ?(psum_0 a 0) in * by lia; try lia.
  - exists 0. lia.
  - rewrite psum_all by (rewrite (rep_len _ _ Hrep); lia). lia.
  - exists p. split; [done|]. split; [|done]. split; [lia|].
    destruct (Z_lt_le_dec p (size ft)) as [|Hge]; [done|].
    rewrite (psum_all a p) in Hp3 by (rewrite (rep_len _ _ Hrep); lia). lia.
Qed.
End represented.

(** ** Updates *)

Definition covers (j k : Z) : bool := (j - lowbit j <? k) && (k <=? j).

Lemma update_loop_ok fuel sz (v : Z -> Z) k delta : forall t i,
  0 < k -> sz < 2 ^ 30 -> zlen t = sz + 1 -> 0 < i -> covers i k = true ->
  sz - i < Z.of_nat fuel ->
  (forall j, 1 <= j <= sz -> i <= j -> t !! Z.to_nat j = Some (v j)) ->
  (delta < 0 -> forall j, 1 <= j <= sz -> covers j k = true -> u64 (- delta) <= v j) ->
  exists t', update_loop fuel sz t i delta = Ok t' /\ zlen t' = sz + 1 /\
    (forall j, 1 <= j < i -> t' !! Z.to_nat j = t !! Z.to_nat j) /\
    (forall j, i <= j <= sz ->
       t' !! Z.to_nat j = Some (if covers j k then u64 (v j + delta) else v j)).
Proof.
  induction fuel as [|fuel IH]; intros t i Hk Hsz Ht Hi Hcov Hf Hv Hneg; simpl;
    destruct (Z.leb_spec i sz); try lia.
  { exists t. split_and!; try done. intros; lia. }
  2: { exists t. split_and!; try done. intros; lia. }
  rewrite (rd1_lookup _ _ (v i)) by (try apply Hv; lia). runr.
  assert (negb (delta <? 0) || (v i >=? u64 (- delta)) = true) as ->.
  { case_bool; [|done]. simpl. rewrite Z.geb_leb. apply Z.leb_le. apply Hneg; auto; lia. }
  runr. rewrite wr1_ok by lia. runr.
  pose proof (lowbit_bounds i Hi).
  rewrite chk_i32_ok by lia. runr.
  unfold covers in Hcov. apply andb_prop in Hcov as [Hc1 Hc2].
  apply Z.ltb_lt in Hc1. apply Z.leb_le in Hc2.
  pose proof (lowbit_next i Hi).
  destruct (IH (<[Z.to_nat i := u64 (v i + delta)]> t) (i + lowbit i))
    as (t' & He & Hl & Hlo & Hhi); try lia; try done.
  - by rewrite zlen_insert.
  - unfold covers. dec_bool. done.
  - intros j Hj Hij. rewrite list_lookup_insert_ne by lia. apply Hv; lia.
  - exists t'. split; [done|]. split; [done|]. split.
    + intros j Hj. rewrite Hlo by lia. by rewrite list_lookup_insert_ne by lia.
    + intros j Hj. destruct (Z_lt_le_dec j (i + lowbit i)) as [Hlt|Hge]; [|by apply Hhi; lia].
      rewrite Hlo by lia. destruct (Z.eq_dec i j) as [->|Hne].
      * rewrite list_lookup_insert_eq by (unfold zlen in Ht; lia).
        unfold covers. dec_bool. done.
      * rewrite list_lookup_insert_ne by lia. rewrite Hv by lia. f_equal.
        pose proof (lowbit_between i j Hi ltac:(lia)).
        unfold covers. dec_bool. done.
Qed.

Lemma alter_nonneg a k delta :
  Forall (fun v => 0 <= v) a -> (forall x, a !! k = Some x -> 0 <= x + delta) ->
  Forall (fun v => 0 <= v) (alter (Z.add delta) k a).
Proof.
  intros Ha Hk. apply Forall_lookup. intros i x Hi.
  destruct (decide (i = k)) as [->|Hne].
  - rewrite list_lookup_alter_eq in Hi.
    destruct (a !! k) eqn:E; [|discriminate]. simpl in Hi. injection Hi as <-.
    specialize (Hk z eq_refl). lia.
  - rewrite list_lookup_alter_ne in Hi by done.
    eapply Forall_lookup_1 in Ha; eauto.
Qed.

(** A node that covers cell [idx] holds at least what the cell does. *)
Lemma node_ge_cell a j idx x :
  Forall (fun v => 0 <= v) a -> 0 <= idx -> a !! Z.to_nat idx = Some x ->
  covers j (idx + 1) = true -> x <= psum a j - psum a (j - lowbit j).
Proof.
  intros Ha Hidx Hx Hc. unfold covers in Hc. apply andb_prop in Hc as [H1 H2].
  apply Z.ltb_lt in H1. apply Z.leb_le in H2.
  pose proof (psum_mono a (j - lowbit j) idx Ha ltac:(lia)).
  pose proof (psum_mono a (idx + 1) j Ha ltac:(lia)).
  enough (psum a (idx + 1) = psum a idx + x) by lia.
  unfold psum. replace (Z.to_nat (idx + 1)) with (S (Z.to_nat idx)) by lia.
  rewrite (take_S_r _ _ x) by done. rewrite zsum_app. unfold zsum at 2. simpl. lia.
Qed.

Lemma update_node a j idx delta :
  0 <= idx < zlen a -> 0 < j ->
  psum (alter (Z.add delta) (Z.to_nat idx) a) j -
  psum (alter (Z.add delta) (Z.to_nat idx) a) (j - lowbit j) =
  (psum a j - psum a (j - lowbit j)) + (if covers j (idx + 1) then delta else 0).
Proof.
  intros Hi Hj. rewrite !psum_alter by done. pose proof (lowbit_bounds j Hj).
  unfold covers. destruct (Z.ltb_spec idx j), (Z.ltb_spec idx (j - lowbit j)); dec_bool; lia.
Qed.

Lemma update_represents ft a idx delta x :
  represents ft a -> 0 <= idx -> a !! Z.to_nat idx = Some x ->
  LLONG_MIN < delta <= LLONG_MAX -> 0 <= x + delta -> zsum a + delta < 2 ^ 64 ->
  exists ft', fwTreeUpdate (Some ft) idx delta = Ok (Some ft') /\
              represents ft' (alter (Z.add delta) (Z.to_nat idx) a).
Proof.
  intros Hrep Hidx Hx Hd Hxd Hw. pose proof (rep_size_bound _ _ Hrep) as Hsb.
  pose proof (rep_len _ _ Hrep) as Hlen. pose proof (rep_nonneg _ _ Hrep) as Hnn.
  apply lookup_lt_Some in Hx as Hlt. unfold fwTreeUpdate. unfold zlen in Hlen. dec_bool.
  rewrite chk_i32_ok by lia. runr.
  pose proof (lowbit_bounds (idx + 1) ltac:(lia)).
  pose proof (fun j => rep_psum_word _ _ Hrep j) as Hword.
  destruct (update_loop_ok (Z.to_nat (size ft) + 1) (size ft)
              (fun j => psum a j - psum a (j - lowbit j)) (idx + 1) delta (tree ft) (idx + 1))
    as (t' & -> & Hl & Hlo & Hhi); try lia.
  - apply (rep_treelen _ _ Hrep).
  - unfold covers. dec_bool. done.
  - intros j Hj _. by apply (rep_node _ _ Hrep).
  - intros Hneg j Hj Hc. rewrite wrapU_small by lia.
    pose proof (node_ge_cell a j idx x Hnn Hidx Hx Hc). lia.
  - runr. eexists; split; [done|]. split; simpl; try apply Hrep.
    + unfold zlen. rewrite length_alter. lia.
    + apply alter_nonneg; [done|]. intros y Hy. rewrite Hx in Hy. by injection Hy as <-.
    + rewrite (rep_total _ _ Hrep), zsum_alter by done. apply wrapU_small.
      pose proof (node_ge_cell a (size ft) idx x Hnn Hidx Hx) as Hge.
      pose proof (psum_range a idx Hnn).
      rewrite <- (zsum_alter a (Z.to_nat idx)) by done. split; [|by rewrite zsum_alter].
      apply zsum_nonneg, alter_nonneg; [done|]. intros y Hy. rewrite Hx in Hy. by injection Hy as <-.
    + by rewrite zsum_alter.
    + done.
    + intros j Hj. rewrite update_node by (unfold zlen; lia).
      destruct (Z_lt_le_dec j (idx + 1)) as [Hjl|Hjg].
      * rewrite Hlo, (rep_node _ _ Hrep) by lia. f_equal.
        unfold covers. dec_bool. rewrite andb_false_r. lia.
      * rewrite Hhi by lia. f_equal. destruct (covers j (idx + 1)) eqn:Hc; [|lia].
        pose proof (node_ge_cell a j idx x Hnn Hidx Hx Hc).
        apply wrapU_small. pose proof (Hword j). pose proof (Hword (j - lowbit j)).
        pose proof (psum_range a j Hnn). lia.
Qed.

(** ** Creation and clearing *)

Lemma zsum_zeros n : zsum (replicate n 0) = 0.
Proof. induction n; [done|]. unfold zsum in *. simpl. lia. Qed.

Lemma psum_zeros n j : psum (replicate n 0) j = 0.
Proof. unfold psum. rewrite take_replicate. apply zsum_zeros. Qed.

Lemma zeros_represents b n :
  0 <= b < 30 -> n = 2 ^ b ->
  represents {| tree := replicate (Z.to_nat (n + 1)) 0; size_bits := b; size := n; total := 0 |}
             (replicate (Z.to_nat n) 0).
Proof.
  intros Hb ->. pose proof (Z.pow_pos_nonneg 2 b).
  split; simpl; try done; unfold zlen; rewrite ?length_replicate, ?zsum_zeros; try lia.
  - apply Forall_replicate. lia.
  - intros j Hj. rewrite !psum_zeros. apply lookup_replicate_2. lia.
Qed.

Lemma create_represents b :
  0 <= b < 30 ->
  exists ft, fwTreeCreate b = Ok ft /\ size ft = 2 ^ b /\ size_bits ft = b /\
             represents ft (replicate (Z.to_nat (2 ^ b)) 0).
Proof.
  intros Hb. unfold fwTreeCreate. dec_bool. runr.
  rewrite Z.shiftl_mul_pow2, Z.mul_1_l by lia.
  eexists. split_and!; try done. by apply zeros_represents.
Qed.

Lemma clear_represents ft a :
  represents ft a -> represents (fwTreeClear ft) (replicate (Z.to_nat (size ft)) 0).
Proof. intros H. apply zeros_represents; apply H. Qed.

(** * Sequences of operations *)

(** The calls a client makes after [fwTreeCreate]. *)
Inductive op := Update (idx delta : Z) | Clear.

Definition run_op (ft : fenwickTree) (o : op) : result fenwickTree :=
  match o with
  | Update idx delta =>
      let* r := fwTreeUpdate (Some ft) idx delta in
      match r with Some ft' => Ok ft' | None => Err NullDeref end
  | Clear => Ok (fwTreeClear ft)
  end.

Fixpoint run (ft : fenwickTree) (os : list op) : result fenwickTree :=
  match os with
  | [] => Ok ft
  | o :: os => let* ft' := run_op ft o in run ft' os
  end.

(** The same calls on the array of counters. *)
Definition arr_op (a : list Z) (o : op) : list Z :=
  match o with
  | Update idx delta =>
      if (0 <=? idx) && (idx <? zlen a) then alter (Z.add delta) (Z.to_nat idx) a else a
  | Clear => replicate (length a) 0
  end.

(** A call is legal when the counter it moves stays between 0 and 2^64 - 1
    together with the others. *)
Definition op_legal (a : list Z) (o : op) : Prop :=
  match o with
  | Update idx delta =>
      LLONG_MIN < delta <= LLONG_MAX /\
      (forall x, 0 <= idx -> a !! Z.to_nat idx = Some x ->
         0 <= x + delta /\ zsum a + delta < 2 ^ 64)
  | Clear => True
  end.

Fixpoint ops_legal (a : list Z) (os : list op) : Prop :=
  match os with
  | [] => True
  | o :: os => op_legal a o /\ ops_legal (arr_op a o) os
  end.

Lemma run_op_ok ft a o :
  represents ft a -> op_legal a o ->
  exists ft', run_op ft o = Ok ft' /\ represents ft' (arr_op a o).
Proof.
  intros Hrep Hl. destruct o as [idx delta|]; cbn [run_op arr_op op_legal] in *.
  - destruct Hl as [Hd Hx]. pose proof (rep_len _ _ Hrep) as Hlen.
    destruct (Z.leb_spec 0 idx), (Z.ltb_spec idx (zlen a)); cbn [andb].
    2-4: unfold fwTreeUpdate; rewrite <- Hlen; dec_bool; eexists; split; [done | done].
    unfold zlen in *.
    destruct (lookup_lt_is_Some_2 a (Z.to_nat idx)) as [x Hx0]; [lia|].
    destruct (Hx x) as [H1 H2]; [lia | done |].
    destruct (update_represents ft a idx delta x) as (ft' & -> & Hr); try done.
    eexists; split; [done | done].
  - eexists; split; [done|].
    replace (length a) with (Z.to_nat (size ft)).
    + by eapply clear_represents.
    + pose proof (rep_len _ _ Hrep). unfold zlen in *. lia.
Qed.

Lemma run_ok os ft a :
  represents ft a -> ops_legal a os ->
  exists ft', run ft os = Ok ft' /\ represents ft' (fold_left arr_op os a).
Proof.
  revert ft a. induction os as [|o os IH]; intros ft a Hrep; simpl; [eauto|].
  intros [Ho Hos]. destruct (run_op_ok ft a o Hrep Ho) as (ft' & -> & Hr'). runr. eauto.
Qed.

Lemma psum_succ a q x :
  0 <= q -> a !! Z.to_nat q = Some x -> psum a (q + 1) = psum a q + x.
Proof.
  intros Hq Hx. unfold psum. replace (Z.to_nat (q + 1)) with (S (Z.to_nat q)) by lia.
  rewrite (take_S_r _ _ x) by done. rewrite zsum_app. unfold zsum at 2. simpl. lia.
Qed.

(** Where the cumulative sum does not move, the counters are zero. *)
Lemma flat_zero a lo hi q :
  Forall (fun v => 0 <= v) a -> 0 <= lo -> hi <= zlen a -> psum a hi <= psum a lo ->
  lo <= q < hi -> a !! Z.to_nat q = Some 0.
Proof.
  intros Hnn Hlo Hhi He Hq. unfold zlen in *.
  destruct (lookup_lt_is_Some_2 a (Z.to_nat q)) as [x Hx]; [lia|].
  pose proof (psum_succ a q x ltac:(lia) Hx). pose proof (psum_mono a lo q Hnn ltac:(lia)).
  pose proof (psum_mono a (q + 1) hi Hnn ltac:(lia)).
  pose proof (Forall_lookup_1 _ _ _ _ Hnn Hx). simpl in *. rewrite Hx. f_equal. lia.
Qed.

(** * Properties *)

(** C26: the tree is a faithful array of counters: any legal sequence of
    updates and clears after [fwTreeCreate] runs without leaving the array,
    overflowing or tripping the assertion, and the tree then represents the
    array obtained by the same sequence on plain counters. *)
Theorem fwtree_refines_array b os :
  0 <= b < 30 -> ops_legal (replicate (Z.to_nat (2 ^ b)) 0) os ->
  exists ft0 ft, fwTreeCreate b = Ok ft0 /\ run ft0 os = Ok ft /\
    represents ft (fold_left arr_op os (replicate (Z.to_nat (2 ^ b)) 0)).
Proof.
  intros Hb Hos. destruct (create_represents b Hb) as (ft0 & H0 & _ & _ & Hr).
  destruct (run_ok os ft0 _ Hr Hos) as (ft & Hrun & Hrep). eauto.
Qed.

Lemma fwtree_refines_array_witness :
  exists ft0 ft, fwTreeCreate 3 = Ok ft0 /\
    run ft0 [Update 2 3; Update 6 2; Update 2 (-1)] = Ok ft /\
    represents ft (fold_left arr_op [Update 2 3; Update 6 2; Update 2 (-1)]
                     (replicate (Z.to_nat (2 ^ 3)) 0)).
Proof.
  apply (fwtree_refines_array 3); [lia|].
  repeat (split; [split; [lia|]|]); [..|exact I];
    intros x _ Hx; vm_compute in Hx; injection Hx as <-; (split; [lia | by vm_compute]).
Defined.

(** [fwTreePrefixSum] returns the sum of the counters 0..idx for every
    index, 0 for a negative one and the total past the end. *)
Theorem fwTreePrefixSum_correct ft a idx :
  represents ft a -> fwTreePrefixSum (Some ft) idx = Ok (psum a (idx + 1)).
Proof. intros H. by apply fwTreePrefixSum_all. Qed.

(** A concrete tree of eight counters, for the witnesses. *)
Definition sample_tree : fenwickTree :=
  {| tree := [0; 5; 5; 3; 8; 7; 7; 2; 17]; size_bits := 3; size := 8; total := 17 |}.
Definition sample_array : list Z := [5; 0; 3; 0; 7; 0; 2; 0].

Lemma sample_represents : represents sample_tree sample_array.
Proof.
  split; try (vm_compute; done); try (by vm_compute).
  - repeat constructor; lia.
  - intros j Hj. simpl in Hj.
    assert (j = 1 \/ j = 2 \/ j = 3 \/ j = 4 \/ j = 5 \/ j = 6 \/ j = 7 \/ j = 8) as Hc by lia.
    repeat (destruct Hc as [->|Hc]; [by vm_compute|]). subst. by vm_compute.
Qed.

Lemma fwTreePrefixSum_correct_witness :
  fwTreePrefixSum (Some sample_tree) 4 = Ok (psum sample_array 5).
Proof. apply (fwTreePrefixSum_correct sample_tree sample_array 4 sample_represents). Defined.

(** for a target between 1 and the total, [fwTreeFindIndex] returns the
    first index whose cumulative sum reaches it. *)
Theorem fwTreeFindIndex_correct ft a target :
  represents ft a -> 1 <= target <= zsum a ->
  exists p, fwTreeFindIndex ft target = Ok p /\ 0 <= p < size ft /\
    target <= psum a (p + 1) /\ (forall q, 0 <= q < p -> psum a (q + 1) < target).
Proof.
  intros Hrep Ht. destruct (find_index_ok ft a Hrep target Ht) as (p & Hp & Hb & Hlo & Hhi).
  exists p. split_and!; try done; try lia. intros q Hq.
  pose proof (psum_mono a (q + 1) p (rep_nonneg _ _ Hrep) ltac:(lia)). lia.
Qed.

Lemma fwTreeFindIndex_correct_witness :
  exists p, fwTreeFindIndex sample_tree 9 = Ok p /\ 0 <= p < 8 /\
    9 <= psum sample_array (p + 1) /\ (forall q, 0 <= q < p -> psum sample_array (q + 1) < 9).
Proof. apply (fwTreeFindIndex_correct sample_tree sample_array 9 sample_represents). by vm_compute. Defined.

(** [fwTreeFindNextNonEmpty] returns the closest later index whose counter
    is not zero, and -1 exactly when there is none, as long as the total is
    below the largest 64-bit word. *)
Theorem fwTreeFindNextNonEmpty_correct ft a idx :
  represents ft a -> zsum a < 2 ^ 64 - 1 -> 0 <= idx < size ft ->
  exists p, fwTreeFindNextNonEmpty (Some ft) idx = Ok p /\
    ((p = -1 /\ forall q, idx < q < size ft -> a !! Z.to_nat q = Some 0) \/
     (idx < p < size ft /\ (exists v, a !! Z.to_nat p = Some v /\ 0 < v) /\
      forall q, idx < q < p -> a !! Z.to_nat q = Some 0)).
Proof.
  intros Hrep Hw Hidx. pose proof (rep_nonneg _ _ Hrep) as Hnn.
  pose proof (rep_len _ _ Hrep) as Hlen. pose proof (psum_range a (idx + 1) Hnn).
  unfold fwTreeFindNextNonEmpty. dec_bool. rewrite (fwTreePrefixSum_all _ _ Hrep). runr.
  rewrite (rep_total _ _ Hrep), wrapU_small by lia.
  destruct (Z.leb_spec (psum a (idx + 1) + 1) (zsum a)).
  - destruct (find_index_ok ft a Hrep (psum a (idx + 1) + 1)) as (p & -> & Hp & Hlo & Hhi); [lia|].
    exists p. split; [done|]. right.
    assert (idx < p) as Hlt.
    { destruct (Z_lt_le_dec idx p); [done|].
      pose proof (psum_mono a (p + 1) (idx + 1) Hnn ltac:(lia)). lia. }
    pose proof (psum_mono a (idx + 1) p Hnn ltac:(lia)).
    destruct (lookup_lt_is_Some_2 a (Z.to_nat p)) as [v Hv]; [unfold zlen in *; lia|].
    pose proof (psum_succ a p v ltac:(lia) Hv).
    split; [lia|]. split; [exists v; split; [done | lia]|].
    intros q Hq. apply (flat_zero a (idx + 1) p); try done; lia.
  - exists (-1). split; [done|]. left. split; [done|]. intros q Hq.
    apply (flat_zero a (idx + 1) (size ft)); try done; try lia.
    rewrite (psum_all a (size ft)) by lia. lia.
Qed.

Lemma fwTreeFindNextNonEmpty_correct_witness :
  exists p, fwTreeFindNextNonEmpty (Some sample_tree) 2 = Ok p /\
    ((p = -1 /\ forall q, 2 < q < 8 -> sample_array !! Z.to_nat q = Some 0) \/
     (2 < p < 8 /\ (exists v, sample_array !! Z.to_nat p = Some v /\ 0 < v) /\
      forall q, 2 < q < p -> sample_array !! Z.to_nat q = Some 0)).
Proof.
  apply (fwTreeFindNextNonEmpty_correct sample_tree sample_array 2 sample_represents);
    by vm_compute.
Defined.

(** Outside its precondition [fwTreeFindIndex] is not safe: on an empty
    tree of two slots or more, where its comment announces 0, the first probe
    jumps to the end of the array and the next one reads past it.  The same
    holds of [fwTreeFindFirstNonEmpty]. *)
Theorem fwTreeFindIndex_empty_overrun b target :
  1 <= b < 30 -> 1 <= target < 2 ^ 64 ->
  exists ft, fwTreeCreate b = Ok ft /\ total ft = 0 /\
             fwTreeFindIndex ft target = Err OutOfBounds.
Proof.
  intros Hb Ht. unfold fwTreeCreate. dec_bool. runr.
  rewrite Z.shiftl_mul_pow2, Z.mul_1_l by lia. eexists. split_and!; [done..|].
  unfold fwTreeFindIndex. dec_bool. cbn [size_bits tree].
  rewrite Z.shiftl_mul_pow2, Z.mul_1_l by lia.
  assert (2 ^ b = 2 * 2 ^ (b - 1)) as Hp by (rewrite <- Z.pow_succ_r by lia; f_equal; lia).
  pose proof (Z.pow_pos_nonneg 2 (b - 1)).
  assert (2 ^ b < 2 ^ 30) by (apply Z.pow_lt_mono_r; lia).
  replace (Z.to_nat b + 1)%nat with (S (S (Z.to_nat b - 1))) by lia.
  cbn [find_loop]. dec_bool. cbv iota. rewrite chk_i32_ok by lia. runr.
  rewrite (rd1_lookup _ _ 0) by (try apply lookup_replicate_2; lia). runr. dec_bool. cbv iota.
  assert (Z.shiftr (2 ^ b) 1 = 2 ^ (b - 1)) as ->.
  { rewrite Z.shiftr_div_pow2 by lia. rewrite Hp, Z.mul_comm. by rewrite Z.div_mul by lia. }
  dec_bool. cbv iota. rewrite chk_i32_ok by lia. runr.
  unfold rd1. dec_bool. rewrite lookup_ge_None_2 by (rewrite length_replicate; lia). done.
Qed.

Lemma fwTreeFindIndex_empty_overrun_witness :
  exists ft, fwTreeCreate 3 = Ok ft /\ total ft = 0 /\ fwTreeFindIndex ft 1 = Err OutOfBounds.
Proof. apply (fwTreeFindIndex_empty_overrun 3 1); lia. Defined.
