(* ===== verification/Intset.v ===== *)
(** Intset: the sorted integer set of src/redis-stable/src/intset.c.

    A set of integers is stored as one block: a header with the width of the
    cells (2, 4 or 8 bytes) and their number, then the cells in increasing
    order, everything little endian.  [intset] is that block; the abstract
    state is the sorted list of its members, and [repr s l] relates the two.

    Theorems: insertion (with the in-place widening of all cells), removal and
    lookup implement the set operations on both byte orders; the block's bytes
    do not depend on the host; the integrity check accepts exactly the blocks
    that represent a non-empty set. *)

From Stdlib Require Import ZArith Lia Bool Sorted.
From stdpp Require Import base list numbers decidable sorting gmap.
From S2P Require Import Prelude Bytes.

Local Open Scope Z_scope.

(** * The code *)

Record intset := {
  encoding : Z;        (** uint32_t, in the order [intrev32ifbe] stores it *)
  length_ : Z;         (** uint32_t, idem *)
  contents : list Z;   (** int8_t contents[], as bytes *)
}.

Abbreviation INTSET_ENC_INT16 := 2.
Abbreviation INTSET_ENC_INT32 := 4.
Abbreviation INTSET_ENC_INT64 := 8.

(** sizeof(intset): two uint32_t *)
Abbreviation sizeof_intset := 8.
Abbreviation SIZE_MAX := ULLONG_MAX.

Definition _intsetValueEncoding (v : Z) : Z :=
  if (v <? INT32_MIN) || (v >? INT32_MAX) then INTSET_ENC_INT64
  else if (v <? INT16_MIN) || (v >? INT16_MAX) then INTSET_ENC_INT32
  else INTSET_ENC_INT16.

Section code.
Context {host : HostEndian} (uninit : nat -> Z).

Definition _intsetGetEncoded (s : intset) (pos enc : Z) : result Z :=
  if enc =? INTSET_ENC_INT64 then
    let* v64 := rdn (contents s) (pos * 8) 8 in
    Ok (i64 (load (memrev64ifbe v64)))
  else if enc =? INTSET_ENC_INT32 then
    let* v32 := rdn (contents s) (pos * 4) 4 in
    Ok (i32 (load (memrev32ifbe v32)))
  else
    let* v16 := rdn (contents s) (pos * 2) 2 in
    Ok (i16 (load (memrev16ifbe v16))).

Definition _intsetGet (s : intset) (pos : Z) : result Z :=
  _intsetGetEncoded s pos (u8 (intrev32ifbe (encoding s))).



Definition intsetNew : intset :=
  {| encoding := intrev32ifbe INTSET_ENC_INT16; length_ := 0; contents := [] |}.

Definition intsetAllocSize (s : intset) : result Z :=
  let size := u64 (intrev32ifbe (length_ s) * intrev32ifbe (encoding s)) in
  check size <=? SIZE_MAX - sizeof_intset else AssertFailed;;
  Ok (sizeof_intset + size).


(** The [while(max >= min)] loop: the final (min, mid, cur). *)
Fixpoint search_loop (fuel : nat) (s : intset) (value min max mid cur : Z)
  : result (Z * Z * Z) :=
  if max >=? min then
    match fuel with
    | O => Err OutOfFuel
    | S fuel =>
        let mid := i32 (Z.shiftr (u32 (u32 min + u32 max)) 1) in
        let* cur := _intsetGet s mid in
        if value >? cur then search_loop fuel s value (mid + 1) max mid cur
        else if value <? cur then search_loop fuel s value min (mid - 1) mid cur
        else Ok (min, mid, cur)
    end
  else Ok (min, mid, cur).

(** Returns the flag and the value stored in [*pos]. *)
Definition intsetSearch (s : intset) (value : Z) : result (bool * Z) :=
  let len := intrev32ifbe (length_ s) in
  let max := i32 (len - 1) in
  if len =? 0 then Ok (false, 0) else
  let* last := _intsetGet s max in
  if value >? last then Ok (false, len) else
  let* first := _intsetGet s 0 in
  if value <? first then Ok (false, 0) else
  let* (min, mid, cur) := search_loop (Z.to_nat len + 1) s value 0 max (-1) (-1) in
  if value =? cur then Ok (true, u32 mid) else Ok (false, u32 min).






Definition intsetFind (s : intset) (value : Z) : result bool :=
  let valenc := _intsetValueEncoding value in
  if valenc <=? intrev32ifbe (encoding s) then
    let* (found, _) := intsetSearch s value in
    Ok found
  else Ok false.

(** [rand] is the value libc's rand() returns. *)
Definition intsetRandom (rand : Z) (s : intset) : result Z :=
  let len := intrev32ifbe (length_ s) in
  check negb (len =? 0) else AssertFailed;;
  _intsetGet s (i32 (rand mod len)).

Definition intsetMax (s : intset) : result Z :=
  _intsetGet s (i32 (u32 (intrev32ifbe (length_ s) - 1))).

Definition intsetMin (s : intset) : result Z := _intsetGet s 0.

(** [None] for a 0 return. *)
Definition intsetGet (s : intset) (pos : Z) : result (option Z) :=
  if pos <? intrev32ifbe (length_ s) then
    let* v := _intsetGet s (i32 pos) in Ok (Some v)
  else Ok None.

Definition intsetLen (s : intset) : Z := intrev32ifbe (length_ s).

Definition intsetBlobLen (s : intset) : Z :=
  u64 (sizeof_intset + intrev32ifbe (length_ s) * intrev32ifbe (encoding s)).

(** The [for (uint32_t i=1; i<count; i++)] loop of the deep check. *)
Fixpoint validate_loop (n : nat) (s : intset) (i prev : Z) : result bool :=
  match n with
  | O => Ok true
  | S n =>
      let* cur := _intsetGet s (i32 i) in
      if cur <=? prev then Ok false else validate_loop n s (i + 1) cur
  end.

(** The block [p] of [size] bytes: header fields as loaded from memory. *)
Definition intsetValidateIntegrity (p : list Z) (size : Z) (deep : bool) : result bool :=
  if size <? sizeof_intset then Ok false else
  let* e := rdn p 0 4 in
  let* n := rdn p 4 4 in
  let* c := rdn p 8 (zlen p - 8) in
  let s := {| encoding := load e; length_ := load n; contents := c |} in
  let enc := intrev32ifbe (encoding s) in
  if negb ((enc =? INTSET_ENC_INT64) || (enc =? INTSET_ENC_INT32) || (enc =? INTSET_ENC_INT16))
  then Ok false else
  let record_size := enc in
  let count := intrev32ifbe (length_ s) in
  if negb (u64 (sizeof_intset + count * record_size) =? size) then Ok false else
  if count =? 0 then Ok false else
  if negb deep then Ok true else
  let* prev := _intsetGet s 0 in
  validate_loop (Z.to_nat (count - 1)) s 1 prev.
End code.

(** * Representation *)

(** The cells of the members [l], [n] bytes each. *)
Definition flat (n : nat) (l : list Z) : list Z := concat (map (le_bytes n) l).

Definition fits (n : nat) (v : Z) : Prop :=
  - 2 ^ (8 * Z.of_nat n - 1) <= v < 2 ^ (8 * Z.of_nat n - 1).

Definition width_ok (n : nat) : Prop := n = 2%nat \/ n = 4%nat \/ n = 8%nat.

Section representation.
Context {host : HostEndian}.

(** The block stores the cells [l] of [n] bytes, followed by [rest]. *)
Record holds (s : intset) (n : nat) (l rest : list Z) : Prop := {
  h_width : width_ok n;
  h_enc : intrev32ifbe (encoding s) = Z.of_nat n;
  h_contents : contents s = flat n l ++ rest;
  h_fits : Forall (fits n) l;
}.

(** The block is the set of the members of [l]. *)
Record repr (s : intset) (l : list Z) : Prop := {
  r_holds : exists n, holds s n l [];
  r_len : intrev32ifbe (length_ s) = zlen l;
  r_small : zlen l < 2 ^ 29;
  r_sorted : StronglySorted Z.lt l;
}.
End representation.

(** ** Cells *)

Lemma flat_app n l1 l2 : flat n (l1 ++ l2) = flat n l1 ++ flat n l2.
Proof. unfold flat. by rewrite map_app, concat_app. Qed.

Lemma flat_cons n x l : flat n (x :: l) = le_bytes n x ++ flat n l.
Proof. done. Qed.

Lemma zlen_flat n l : zlen (flat n l) = Z.of_nat n * zlen l.
Proof.
  induction l as [|x l IH]; [unfold zlen; simpl; lia|].
  rewrite flat_cons, zlen_app, zlen_cons, zlen_le_bytes, IH. lia.
Qed.

Lemma width_bounds n : width_ok n -> (2 <= n <= 8)%nat.
Proof. intros [-> | [-> | ->]]; lia. Qed.

Lemma decode_cell n v :
  width_ok n -> fits n v -> wrapS (8 * Z.of_nat n) (le_val (le_bytes n v)) = v.
Proof.
  intros Hn Hv. pose proof (width_bounds n Hn). rewrite le_val_bytes.
  fold (wrapU (8 * Z.of_nat n) v). rewrite wrapS_wrapU, wrapS_small by (try apply Hv; lia). done.
Qed.

Section cells.
Context {host : HostEndian} (uninit : nat -> Z).

(** The three widths of the code behave uniformly. *)
Lemma getEncoded_bytes s n a b c pos :
  width_ok n -> contents s = a ++ b ++ c -> zlen a = pos * Z.of_nat n -> length b = n ->
  _intsetGetEncoded s pos (Z.of_nat n) = Ok (wrapS (8 * Z.of_nat n) (le_val b)).
Proof.
  intros Hn Hc Ha Hb. unfold _intsetGetEncoded.
  destruct Hn as [-> | [-> | ->]]; dec_bool; cbv iota;
    rewrite Hc, rdn_mid by (unfold zlen in *; lia); runr.
  - by rewrite load_memrev16.
  - by rewrite load_memrev32.
  - by rewrite load_memrev64.
Qed.

Lemma getEncoded_ok s n l1 v l2 rest pos :
  width_ok n -> contents s = flat n (l1 ++ v :: l2) ++ rest -> zlen l1 = pos -> fits n v ->
  _intsetGetEncoded s pos (Z.of_nat n) = Ok v.
Proof.
  intros Hn Hc Hp Hv.
  rewrite (getEncoded_bytes s n (flat n l1) (le_bytes n v) (flat n l2 ++ rest)); try done.
  - f_equal. by apply decode_cell.
  - rewrite Hc, flat_app, flat_cons. by rewrite <- !app_assoc.
  - rewrite zlen_flat. lia.
  - apply length_le_bytes.
Qed.



Lemma enc_small s n : width_ok n -> intrev32ifbe (encoding s) = Z.of_nat n ->
  u8 (intrev32ifbe (encoding s)) = Z.of_nat n.
Proof. intros Hn ->. pose proof (width_bounds n Hn). apply wrapU_small. lia. Qed.

(** Reading a member. *)
Lemma intsetGet_ok s n l rest pos v :
  holds s n l rest -> 0 <= pos -> l !! Z.to_nat pos = Some v -> _intsetGet s pos = Ok v.
Proof.
  intros [Hn He Hc Hf] Hp Hv. unfold _intsetGet. rewrite (enc_small s n) by done.
  apply list_elem_of_split_length in Hv as (l1 & l2 & -> & Hl).
  apply (getEncoded_ok s n l1 v l2 rest); try done.
  - unfold zlen. lia.
  - apply Forall_app in Hf as [_ Hf]. by apply Forall_cons in Hf as [? _].
Qed.

(** ** Searching *)

Lemma sorted_lookup_lt l i j x y :
  StronglySorted Z.lt l -> l !! i = Some x -> l !! j = Some y -> (i < j)%nat -> x < y.
Proof.
  intros Hs. revert i j. induction Hs as [|z l Hs IH Hz]; intros i j Hi Hj Hij; [done|].
  destruct i as [|i], j as [|j]; try lia.
  - simpl in Hi, Hj. injection Hi as ->. eapply Forall_lookup_1 in Hz; eauto.
  - eapply (IH i j); eauto. lia.
Qed.

Lemma search_loop_ok fuel : forall s n l rest v min max mid cur,
  holds s n l rest -> zlen l < 2 ^ 29 -> StronglySorted Z.lt l ->
  0 <= min -> max < zlen l -> min <= max + 1 -> max - min + 1 < Z.of_nat fuel ->
  (forall i x, l !! i = Some x -> Z.of_nat i < min -> x < v) ->
  (forall i x, l !! i = Some x -> max < Z.of_nat i -> v < x) ->
  (min <= max \/ cur <> v) ->
  exists min' mid' cur',
    search_loop fuel s v min max mid cur = Ok (min', mid', cur') /\
    ((cur' = v /\ 0 <= mid' < zlen l /\ l !! Z.to_nat mid' = Some v) \/
     (cur' <> v /\ 0 <= min' <= zlen l /\
      (forall i x, l !! i = Some x -> Z.of_nat i < min' -> x < v) /\
      (forall i x, l !! i = Some x -> min' <= Z.of_nat i -> v < x))).
Proof.
  induction fuel as [|fuel IH];
    intros s n l rest v min max mid cur Hh Hsm Hs H0 Hmax Hle Hf Hlo Hhi Hcur; [lia|].
  cbn [search_loop]. rewrite Z.geb_leb. destruct (Z.leb_spec min max).
  2: { exists min, mid, cur. split; [done|]. right. split_and!; try lia; auto.
       intros i x Hi Hm. apply (Hhi i x); [done | lia]. }
  rewrite (wrapU_small 32 min), (wrapU_small 32 max), (wrapU_small 32 (min + max)) by lia.
  rewrite Z.shiftr_div_pow2 by lia. change (2 ^ 1) with 2.
  assert (min <= (min + max) / 2 <= max) as Hm.
  { split; [apply Z.div_le_lower_bound | apply Z.div_le_upper_bound]; lia. }
  rewrite wrapS_small by lia. set (m := (min + max) / 2) in *.
  destruct (lookup_lt_is_Some_2 l (Z.to_nat m)) as [x Hx]; [unfold zlen in *; lia|].
  rewrite (intsetGet_ok s n l rest m x) by (done || lia). runr.
  rewrite Z.gtb_ltb. destruct (Z.ltb_spec x v).
  - eapply (IH s n l rest); eauto; try lia.
    intros i y Hi Him. destruct (Nat.eq_dec i (Z.to_nat m)) as [->|Hne].
    + rewrite Hx in Hi. by injection Hi as <-.
    + pose proof (sorted_lookup_lt l i (Z.to_nat m) y x Hs Hi Hx ltac:(lia)). lia.
  - destruct (Z.ltb_spec v x).
    + eapply (IH s n l rest); eauto; try lia.
      intros i y Hi Him. destruct (Nat.eq_dec i (Z.to_nat m)) as [->|Hne].
      * rewrite Hx in Hi. by injection Hi as <-.
      * pose proof (sorted_lookup_lt l (Z.to_nat m) i x y Hs Hx Hi ltac:(lia)). lia.
    + assert (x = v) as -> by lia. exists min, m, v. split; [done|]. left. split_and!; auto; lia.
Qed.

(** What a search reports about the members [l]. *)
Definition search_post (l : list Z) (v : Z) (r : bool * Z) : Prop :=
  let '(found, pos) := r in
  if found then 0 <= pos < zlen l /\ l !! Z.to_nat pos = Some v
  else exists l1 l2, l = l1 ++ l2 /\ pos = zlen l1 /\
         Forall (fun x => x < v) l1 /\ Forall (fun x => v < x) l2.

Lemma split_at_pos l v pos :
  0 <= pos <= zlen l ->
  (forall i x, l !! i = Some x -> Z.of_nat i < pos -> x < v) ->
  (forall i x, l !! i = Some x -> pos <= Z.of_nat i -> v < x) ->
  search_post l v (false, pos).
Proof.
  intros Hp Hlo Hhi. exists (take (Z.to_nat pos) l), (drop (Z.to_nat pos) l).
  unfold zlen in *. split_and!.
  - by rewrite take_drop.
  - rewrite length_take. lia.
  - apply Forall_lookup. intros i x Hi. apply lookup_take_Some in Hi as [Hi ?].
    apply (Hlo i x Hi). lia.
  - apply Forall_lookup. intros i x Hi. rewrite lookup_drop in Hi.
    apply (Hhi _ x Hi). lia.
Qed.

Lemma intsetSearch_ok s n l rest v :
  holds s n l rest -> intrev32ifbe (length_ s) = zlen l -> zlen l < 2 ^ 29 ->
  StronglySorted Z.lt l ->
  exists r, intsetSearch s v = Ok r /\ search_post l v r.
Proof.
  intros Hh Hlen Hsm Hs. unfold intsetSearch. rewrite Hlen. pose proof (zlen_nonneg l).
  case_bool; [eexists; split; [done|]; apply split_at_pos; unfold zlen in *;
              [lia | intros; lia |]; intros i x Hi%lookup_lt_Some; lia|].
  rewrite wrapS_small by lia.
  destruct (lookup_lt_is_Some_2 l (Z.to_nat (zlen l - 1))) as [last Hlast]; [unfold zlen in *; lia|].
  destruct (lookup_lt_is_Some_2 l (Z.to_nat 0)) as [first Hfirst]; [unfold zlen in *; lia|].
  rewrite (intsetGet_ok s n l rest (zlen l - 1) last) by (done || lia). runr.
  assert (forall i x, l !! i = Some x -> first <= x <= last) as Hfl.
  { intros i x Hi. apply lookup_lt_Some in Hi as Hlt. unfold zlen in *. split.
    - destruct i as [|i]; [change (Z.to_nat 0) with 0%nat in Hfirst; rewrite Hi in Hfirst; injection Hfirst; lia|].
      pose proof (sorted_lookup_lt l (Z.to_nat 0) (S i) first x Hs Hfirst Hi ltac:(lia)). lia.
    - destruct (Nat.eq_dec i (Z.to_nat (Z.of_nat (length l) - 1))) as [->|].
      + rewrite Hi in Hlast. injection Hlast. lia.
      + pose proof (sorted_lookup_lt l i _ x last Hs Hi Hlast ltac:(lia)). lia. }
  rewrite Z.gtb_ltb. destruct (Z.ltb_spec last v).
  { eexists; split; [done|]. apply split_at_pos; try lia.
    - intros i x Hi _. specialize (Hfl i x Hi). lia.
    - intros i x Hi%lookup_lt_Some. unfold zlen. lia. }
  rewrite (intsetGet_ok s n l rest 0 first) by (done || lia). runr.
  destruct (Z.ltb_spec v first).
  { eexists; split; [done|]. apply split_at_pos; try lia.
    intros i x Hi _. specialize (Hfl i x Hi). lia. }
  destruct (search_loop_ok (Z.to_nat (zlen l) + 1) s n l rest v 0 (zlen l - 1) (-1) (-1))
    as (mn & mid & cur & -> & Hpost); try done; try lia.
  { intros i x Hi%lookup_lt_Some. unfold zlen. lia. }
  runr. destruct Hpost as [(-> & Hm & Hl)|(Hne & Hm & Hlo & Hhi)].
  - rewrite Z.eqb_refl, wrapU_small by lia. eexists; split; [done|]. done.
  - assert ((v =? cur) = false) as -> by (apply Z.eqb_neq; congruence).
    rewrite wrapU_small by lia. eexists; split; [done|]. by apply split_at_pos.
Qed.
End cells.

(** ** Sorted lists *)



Lemma search_post_found l v b pos :
  search_post l v (b, pos) -> b = bool_decide (v ∈ l).
Proof.
  destruct b; simpl.
  - intros [_ H]. symmetry. apply bool_decide_eq_true. by eapply list_elem_of_lookup_2.
  - intros (l1 & l2 & -> & _ & H1 & H2). symmetry. apply bool_decide_eq_false.
    rewrite list.Forall_forall in H1, H2. rewrite elem_of_app.
    intros [Hin|Hin]; [specialize (H1 v Hin) | specialize (H2 v Hin)]; lia.
Qed.

(** ** Widths *)

(** A value fits the cells exactly when its encoding is not wider. *)
Lemma valenc_fits n v :
  width_ok n -> LLONG_MIN <= v <= LLONG_MAX ->
  _intsetValueEncoding v <= Z.of_nat n <-> fits n v.
Proof.
  intros Hn Hv. unfold _intsetValueEncoding, fits.
  destruct Hn as [-> | [-> | ->]]; simpl; rewrite !Z.gtb_ltb; repeat case_bool; simpl; lia.
Qed.



Section operations.
Context {host : HostEndian} (uninit : nat -> Z).



End operations.

Section operations_ok.
Context {host : HostEndian} (uninit : nat -> Z).











Lemma intsetFind_ok s l v :
  repr s l -> LLONG_MIN <= v <= LLONG_MAX -> intsetFind s v = Ok (bool_decide (v ∈ l)).
Proof.
  intros [[n Hh] Hlen Hsm Hs] Hv. pose proof Hh as [Hn He Hc Hf].
  unfold intsetFind. rewrite He.
  destruct (Z.leb_spec (_intsetValueEncoding v) (Z.of_nat n)).
  - destruct (intsetSearch_ok s n l [] v) as ([b pos] & -> & Hpost); try done. runr.
    by rewrite (search_post_found _ _ _ _ Hpost).
  - assert (~ fits n v) as Hnf by (rewrite <- (valenc_fits n v) by done; lia).
    rewrite bool_decide_eq_false_2; [done|].
    intros Hin; rewrite list.Forall_forall in Hf; auto.
Qed.
End operations_ok.

(** ** Blocks *)

(** Any string of [n * k] bytes is the cells of [k] values. *)
Lemma flat_decode n k c :
  width_ok n -> Forall is_byte c -> length c = (n * k)%nat ->
  exists l, length l = k /\ Forall (fits n) l /\ c = flat n l.
Proof.
  intros Hn. revert c. induction k as [|k IH]; intros c Hb Hl.
  - exists []. destruct c; [done | simpl in Hl; lia].
  - pose proof (width_bounds n Hn).
    destruct (IH (drop n c)) as (l & Hk & Hf & Hc).
    { by apply Forall_drop. }
    { rewrite length_drop. lia. }
    exists (wrapS (8 * Z.of_nat n) (le_val (take n c)) :: l). split_and!; [simpl; lia | |].
    + constructor; [|done]. unfold fits, wrapS.
      assert (2 ^ (8 * Z.of_nat n) = 2 * 2 ^ (8 * Z.of_nat n - 1)) as Hp
        by (rewrite <- Z.pow_succ_r by lia; f_equal; lia).
      pose proof (Z.mod_pos_bound (le_val (take n c) + 2 ^ (8 * Z.of_nat n - 1)) (2 ^ (8 * Z.of_nat n))).
      pose proof (Z.pow_pos_nonneg 2 (8 * Z.of_nat n - 1)). lia.
    + rewrite flat_cons, <- Hc. rewrite <- (take_drop n c) at 1. f_equal.
      rewrite <- le_bytes_mod. fold (wrapU (8 * Z.of_nat n) (wrapS (8 * Z.of_nat n) (le_val (take n c)))).
      rewrite wrapU_wrapS by lia. unfold wrapU. rewrite le_bytes_mod.
      rewrite <- (length_take_le c n) at 2 by lia. symmetry. apply le_bytes_val. by apply Forall_take.
Qed.

Lemma flat_inj n l l' :
  width_ok n -> Forall (fits n) l -> Forall (fits n) l' -> flat n l = flat n l' -> l = l'.
Proof.
  intros Hn Hf. revert l'. pose proof (width_bounds n Hn).
  induction Hf as [|v l Hv Hf IH]; intros l' Hf' He.
  - destruct l' as [|v' l']; [done|]. apply (f_equal zlen) in He. rewrite !zlen_flat, zlen_cons in He.
    pose proof (zlen_nonneg l'). rewrite zlen_nil in He. nia.
  - destruct Hf' as [|v' l' Hv' Hf'].
    + apply (f_equal zlen) in He. rewrite !zlen_flat, zlen_cons, zlen_nil in He.
      pose proof (zlen_nonneg l). nia.
    + rewrite !flat_cons in He.
      apply app_inj_1 in He as [Hb He]; [|by rewrite !length_le_bytes].
      f_equal; [|by apply IH].
      rewrite <- (decode_cell n v), <- (decode_cell n v') by done. by rewrite Hb.
Qed.

Section blocks.
Context {host : HostEndian}.

(** The bytes of the block in the host's memory. *)
Definition blob (s : intset) : list Z :=
  store 4 (encoding s) ++ store 4 (length_ s) ++ contents s.

(** The block as the C code sees it through a pointer to its bytes. *)
Definition of_blob (p : list Z) : intset :=
  {| encoding := load (take 4 p); length_ := load (take 4 (drop 4 p)); contents := drop 8 p |}.

Lemma validate_loop_ok s n l rest : forall k i prev,
  holds s n l rest -> (k + i <= length l)%nat -> zlen l < 2 ^ 29 ->
  (0 < i)%nat -> l !! (i - 1)%nat = Some prev ->
  exists b, validate_loop k s (Z.of_nat i) prev = Ok b /\
    (b = true <-> forall j x y, (i <= j < i + k)%nat -> l !! (j - 1)%nat = Some x ->
                                l !! j = Some y -> x < y).
Proof.
  induction k as [|k IH]; intros i prev Hh Hk Hsm Hi Hprev; cbn [validate_loop].
  - exists true. split; [done|]. split; [intros _ j x y Hj; lia | done].
  - destruct (lookup_lt_is_Some_2 l i) as [cur Hcur]; [lia|].
    rewrite wrapS_small by (unfold zlen in *; lia).
    rewrite (intsetGet_ok s n l rest _ cur) by (rewrite ?Nat2Z.id; done || lia). runr.
    destruct (Z.leb_spec cur prev).
    + exists false. split; [done|]. split; [done|]. intros Hall.
      specialize (Hall i prev cur ltac:(lia) Hprev Hcur). lia.
    + destruct (IH (S i) cur) as (b & Hb & Hiff); try done; try lia.
      { by replace (S i - 1)%nat with i by lia. }
      exists b. split; [by rewrite <- Hb; f_equal; lia|]. rewrite Hiff. split.
      * intros Hall j x y Hj Hx Hy. destruct (Nat.eq_dec j i) as [->|].
        { rewrite Hprev in Hx. rewrite Hcur in Hy. injection Hx as <-. injection Hy as <-. done. }
        apply (Hall j x y); try done. lia.
      * intros Hall j x y Hj. apply Hall. lia.
Qed.

Lemma steps_sorted l :
  (forall j x y, (1 <= j < length l)%nat -> l !! (j - 1)%nat = Some x -> l !! j = Some y -> x < y) <->
  StronglySorted Z.lt l.
Proof.
  split.
  - intros H. apply Sorted_StronglySorted; [intros x y z; lia|].
    induction l as [|a l IH]; constructor.
    + apply IH. intros j x y Hj Hx Hy. apply (H (S j) x y); [simpl; lia | | done].
      replace (S j - 1)%nat with (S (j - 1)) by lia. done.
    + destruct l as [|b l]; constructor. apply (H 1%nat a b); [simpl; lia | done | done].
  - intros Hs j x y Hj Hx Hy. eapply (sorted_lookup_lt l (j - 1) j); eauto. lia.
Qed.

(** The deep check, on any byte string, decides whether it is a set. *)
Lemma validate_deep_iff p :
  Forall is_byte p -> zlen p < 2 ^ 30 ->
  exists b, intsetValidateIntegrity p (zlen p) true = Ok b /\
    (b = true <-> 8 <= zlen p /\ exists l, l <> [] /\ repr (of_blob p) l).
Proof.
  intros Hb Hsz. unfold intsetValidateIntegrity.
  destruct (Z.ltb_spec (zlen p) 8) as [Hlt|Hge].
  { exists false. split; [done|]. split; [done | lia]. }
  assert (zlen (take 4 p) = 4) as H4 by (unfold zlen in *; rewrite length_take; lia).
  assert (zlen (take 4 (drop 4 p)) = 4) as H8
    by (unfold zlen in *; rewrite length_take, length_drop; lia).
  assert (p = take 4 p ++ take 4 (drop 4 p) ++ drop 8 p) as Hp.
  { rewrite <- (take_drop 4 p) at 1. f_equal. rewrite <- (take_drop 4 (drop 4 p)) at 1.
    f_equal. by rewrite drop_drop. }
  assert (zlen p - 8 = zlen (drop 8 p)) as H88 by (rewrite Hp at 1; rewrite !zlen_app; lia).
  assert (rdn p 0 4 = Ok (take 4 p)) as ->.
  { transitivity (rdn (take 4 p ++ take 4 (drop 4 p) ++ drop 8 p) 0 4); [by rewrite <- Hp|].
    apply (rdn_mid [] (take 4 p) (take 4 (drop 4 p) ++ drop 8 p)); [done | lia]. }
  assert (rdn p 4 4 = Ok (take 4 (drop 4 p))) as ->.
  { transitivity (rdn (take 4 p ++ take 4 (drop 4 p) ++ drop 8 p) 4 4); [by rewrite <- Hp|].
    apply rdn_mid; lia. }
  assert (rdn p 8 (zlen p - 8) = Ok (drop 8 p)) as ->.
  { transitivity (rdn ((take 4 p ++ take 4 (drop 4 p)) ++ drop 8 p ++ []) 8 (zlen p - 8)).
    - by rewrite app_nil_r, <- app_assoc, <- Hp.
    - apply rdn_mid; rewrite ?zlen_app; lia. }
  runr.
  fold (of_blob p). set (s := of_blob p).
  assert (Forall is_byte (take 4 p)) as Hb1 by (by apply Forall_take).
  assert (Forall is_byte (take 4 (drop 4 p))) as Hb2 by (by apply Forall_take, Forall_drop).
  assert (intrev32ifbe (encoding s) = le_val (take 4 p)) as He
    by (apply intrev32ifbe_load; [unfold zlen in *; lia | done]).
  assert (intrev32ifbe (length_ s) = le_val (take 4 (drop 4 p))) as Hn
    by (apply intrev32ifbe_load; [unfold zlen in *; lia | done]).
  pose proof (le_val_range _ Hb2) as Hr. rewrite H8 in Hr. change (2 ^ (8 * 4)) with (2 ^ 32) in Hr.
  rewrite He, Hn. set (e := le_val (take 4 p)) in *. set (cnt := le_val (take 4 (drop 4 p))) in *.
  assert (forall l, repr s l -> exists n, width_ok n /\ e = Z.of_nat n /\ cnt = zlen l /\
            zlen p = 8 + Z.of_nat n * zlen l) as Hinv.
  { intros l [[n [Hw Hhe Hhc _]] Hl _ _]. exists n. split_and!; try done; [congruence..|].
    rewrite app_nil_r in Hhc. change (drop 8 p = flat n l) in Hhc.
    rewrite Hhc, zlen_flat in H88. lia. }
  destruct ((e =? 8) || (e =? 4) || (e =? 2)) eqn:Ew; cbn [negb].
  2: { exists false. split; [done|]. split; [done|]. intros (_ & l & _ & Hrl).
       destruct (Hinv l Hrl) as (n & [-> | [-> | ->]] & -> & _); done. }
  assert (exists n, width_ok n /\ e = Z.of_nat n) as (n & Hw & Hen).
  { unfold width_ok. apply orb_prop in Ew as [Ew|Ew]; [apply orb_prop in Ew as [Ew|Ew]|];
      apply Z.eqb_eq in Ew; [exists 8%nat | exists 4%nat | exists 2%nat]; auto. }
  pose proof (width_bounds n Hw). rewrite wrapU_small by nia.
  destruct (Z.eqb_spec (8 + cnt * e) (zlen p)) as [Hsize|Hsize]; cbn [negb].
  2: { exists false. split; [done|]. split; [done|]. intros (_ & l & _ & Hrl).
       destruct (Hinv l Hrl) as (n' & _ & He' & Hc' & Hz). exfalso. apply Hsize. lia. }
  destruct (Z.eqb_spec cnt 0) as [H0|H0].
  { exists false. split; [done|]. split; [done|]. intros (_ & l & Hne & Hrl).
    destruct (Hinv l Hrl) as (n' & _ & _ & Hc' & _). exfalso. apply Hne, zlen_nil_inv. lia. }
  destruct (flat_decode n (Z.to_nat cnt) (drop 8 p)) as (l & Hlen & Hf & Hfl); try done.
  { by apply Forall_drop. }
  { unfold zlen in *. nia. }
  assert (holds s n l []) as Hh.
  { split; try done; [congruence|]. rewrite app_nil_r. done. }
  assert (zlen l = cnt) as Hzl by (unfold zlen; lia). assert (cnt < 2 ^ 29) by nia.
  destruct (lookup_lt_is_Some_2 l 0%nat) as [prev Hprev]; [lia|].
  rewrite (intsetGet_ok s n l [] 0 prev) by done. runr.
  destruct (validate_loop_ok s n l [] (Z.to_nat (cnt - 1)) 1 prev) as (b & Hbl & Hiff); try done; try lia.
  change (Z.of_nat 1) with 1 in Hbl. exists b. split; [done|]. rewrite Hiff.
  assert ((forall j x y, (1 <= j < 1 + Z.to_nat (cnt - 1))%nat -> l !! (j - 1)%nat = Some x ->
             l !! j = Some y -> x < y) <-> StronglySorted Z.lt l) as ->.
  { rewrite <- steps_sorted. by replace (1 + Z.to_nat (cnt - 1))%nat with (length l) by lia. }
  split.
  - intros Hs. split; [lia|]. exists l. split; [intros ->; simpl in *; lia|].
    split; [by exists n | congruence | lia | done].
  - intros (_ & l' & _ & Hrl). destruct (Hinv l' Hrl) as (n' & _ & He' & _ & _).
    destruct Hrl as [[n'' [Hw'' Hhe'' Hhc'' Hf'']] _ _ Hs'].
    assert (n'' = n) as -> by (rewrite He, Hen in Hhe''; lia).
    rewrite app_nil_r in Hhc''. change (drop 8 p = flat n l') in Hhc''.
    enough (l = l') as -> by done.
    eapply flat_inj; eauto. by rewrite <- Hfl, <- Hhc''.
Qed.
End blocks.

(** * Refinement *)




(** The members of [X], held by a well-formed block. *)
Definition is_set {host : HostEndian} (s : intset) (X : gset Z) : Prop :=
  exists l, repr s l /\ forall x, x ∈ X <-> x ∈ l.

Section refinement.
Context {host : HostEndian} (uninit : nat -> Z).








Lemma intsetNew_set : is_set intsetNew ∅.
Proof.
  exists []. split.
  - split; try done.
    + exists 2%nat. split; [by left | simpl; by apply intrev32ifbe_invol | done | constructor].
    + simpl. unfold intrev32ifbe, intrev32. destruct host_is_be eqn:E; [|done].
      unfold load, store. by rewrite E.
    + constructor.
  - intros x. set_solver.
Qed.
End refinement.

(** * Properties *)



(** [intsetFind] returns 1 exactly for the members of the set. *)
Theorem intsetFind_correct (host : HostEndian) s X v :
  is_set s X -> LLONG_MIN <= v <= LLONG_MAX -> intsetFind s v = Ok (bool_decide (v ∈ X)).
Proof.
  intros (l & Hr & Hx) Hv. rewrite (intsetFind_ok s l v) by done.
  f_equal. apply bool_decide_ext. by rewrite Hx.
Qed.

Lemma intsetFind_correct_witness : @intsetFind false (@intsetNew false) 7 = Ok false.
Proof.
  rewrite (intsetFind_correct false _ ∅ 7); [done | apply intsetNew_set | lia].
Defined.

(** the bytes of a well-formed block are little endian whatever the byte
    order of the host that produced it: the header is the cell width and the
    number of members, the cells follow in increasing order. *)
Theorem intset_blob_portable (host : HostEndian) s l :
  repr s l ->
  exists n, width_ok n /\ Forall (fits n) l /\ StronglySorted Z.lt l /\
    blob s = le_bytes 4 (Z.of_nat n) ++ le_bytes 4 (zlen l) ++ flat n l.
Proof.
  intros [[n [Hw He Hc Hf]] Hlen Hsm Hs]. exists n. split_and!; try done.
  unfold blob. by rewrite Hc, app_nil_r, !store_hdr, He, Hlen.
Qed.

(** A well-formed block of three 16-bit members on a little-endian host. *)
Definition sample_set : intset :=
  {| encoding := 2; length_ := 3; contents := [255; 255; 1; 0; 44; 1] |}.

Lemma sample_repr : @repr false sample_set [-1; 1; 300].
Proof.
  split; try done.
  - exists 2%nat. split; try done; [by left|]. repeat constructor; unfold fits; simpl; lia.
  - repeat constructor; lia.
Qed.

Lemma intset_blob_portable_witness :
  exists n, width_ok n /\ Forall (fits n) [-1; 1; 300] /\ StronglySorted Z.lt [-1; 1; 300] /\
    @blob false sample_set = le_bytes 4 (Z.of_nat n) ++ le_bytes 4 3 ++ flat n [-1; 1; 300].
Proof. apply (intset_blob_portable false sample_set [-1; 1; 300] sample_repr). Defined.

(** On any block of bytes below 1 GiB, [intsetValidateIntegrity] with
    [deep] never reads outside the block, and it accepts the block exactly when
    it is the image of a non-empty set (a legal cell width, a size that matches
    the count, members in strictly increasing order). *)
Theorem intsetValidateIntegrity_correct (host : HostEndian) p :
  Forall is_byte p -> zlen p < 2 ^ 30 ->
  exists b, intsetValidateIntegrity p (zlen p) true = Ok b /\
    (b = true <-> 8 <= zlen p /\ exists l, l <> [] /\ repr (of_blob p) l).
Proof. apply validate_deep_iff. Qed.

Lemma intsetValidateIntegrity_correct_witness :
  exists b, @intsetValidateIntegrity false [2; 0; 0; 0; 2; 0; 0; 0; 1; 0; 1; 0] 12 true = Ok b /\
    (b = true <-> 8 <= 12 /\
       exists l, l <> [] /\ @repr false (@of_blob false [2; 0; 0; 0; 2; 0; 0; 0; 1; 0; 1; 0]) l).
Proof.
  apply (intsetValidateIntegrity_correct false [2; 0; 0; 0; 2; 0; 0; 0; 1; 0; 1; 0]); [|done].
  repeat constructor; unfold is_byte; lia.
Defined.
