(* ===== verification/Numbers.v ===== *)
(** Numbers: the integer/decimal conversions of src/redis-stable/src/util.c.

    [digits10] counts digits, [ull2string] and [ll2string] print into a
    caller-supplied buffer two digits at a time, [string2ll] is the strict
    parser that decides whether a string may be stored as an integer.

    [dec] below is the reference: the decimal digits of a number, one at a
    time.  Theorems: the printers write exactly [dec] (with a sign and a
    terminator), never outside the buffer; printing then parsing gives back the
    number, for all 64-bit values; and the parser accepts a string exactly when
    it is what the printer writes for the value it returns, which is what makes
    the integer encodings of Redis strings lossless. *)

From Stdlib Require Import ZArith Lia Bool Ascii String.
From stdpp Require Import base list numbers decidable.
From S2P Require Import Prelude Bytes.

Local Open Scope Z_scope.

(** * The code *)

(** Characters, as the bytes of the C character constants. *)
Fixpoint chars (s : string) : list Z :=
  match s with
  | EmptyString => []
  | String a s => Z.of_N (N_of_ascii a) :: chars s
  end.

Abbreviation ch_minus := 45.
Abbreviation ch_0 := 48.
Abbreviation ch_1 := 49.
Abbreviation ch_9 := 57.

(** The recursion divides by 10^12, so a 64-bit value needs two levels. *)
Fixpoint digits10_rec (fuel : nat) (v : Z) : Z :=
  if v <? 10 then 1
  else if v <? 100 then 2
  else if v <? 1000 then 3
  else if v <? 1000000000000 then
    if v <? 100000000 then
      if v <? 1000000 then
        if v <? 10000 then 4 else 5 + b2z (v >=? 100000)
      else 7 + b2z (v >=? 10000000)
    else if v <? 10000000000 then 9 + b2z (v >=? 1000000000)
    else 11 + b2z (v >=? 100000000000)
  else match fuel with
       | O => 0
       | S fuel => 12 + digits10_rec fuel (v / 1000000000000)
       end.

Definition digits10 (v : Z) : Z := digits10_rec 2 v.

Definition sdigits10 (v : Z) : Z :=
  if v <? 0 then
    let uv := if negb (v =? LLONG_MIN) then u64 (- v) else LLONG_MAX + 1 in
    digits10 uv + 1
  else digits10 v.

(** static const char digits[201] *)
Definition digits : list Z := chars
  ("0001020304050607080910111213141516171819" ++
   "2021222324252627282930313233343536373839" ++
   "4041424344454647484950515253545556575859" ++
   "6061626364656667686970717273747576777879" ++
   "8081828384858687888990919293949596979899").

(** The [while (value >= 100)] loop of ull2string, writing at [off + next]. *)
Fixpoint ull_loop (fuel : nat) (dst : list Z) (off next value : Z)
  : result (list Z * Z * Z) :=
  if value >=? 100 then
    match fuel with
    | O => Err OutOfFuel
    | S fuel =>
        let i := (value mod 100) * 2 in
        let value := value / 100 in
        let* hi := rd1 digits (i + 1) in
        let* dst := wr1 dst (off + next) hi in
        let* lo := rd1 digits i in
        let* dst := wr1 dst (off + u32 (next - 1)) lo in
        ull_loop fuel dst off (u32 (next - 2)) value
    end
  else Ok (dst, next, value).

(** [dst] is the block the pointer points into, [off] the pointer's offset. *)
Definition ull2string (dst : list Z) (off dstlen value : Z) : result (list Z * Z) :=
  let length := digits10 value in
  if length >=? dstlen then
    let* dst := if dstlen >? 0 then wr1 dst off 0 else Ok dst in
    Ok (dst, 0)
  else
    let next := u32 (length - 1) in
    let* dst := wr1 dst (off + u32 (next + 1)) 0 in
    let* (dst, next, value) := ull_loop 10 dst off next value in
    if value <? 10 then
      let* dst := wr1 dst (off + next) (ch_0 + value) in
      Ok (dst, length)
    else
      let i := value * 2 in
      let* hi := rd1 digits (i + 1) in
      let* dst := wr1 dst (off + next) hi in
      let* lo := rd1 digits i in
      let* dst := wr1 dst (off + u32 (next - 1)) lo in
      Ok (dst, length).

Definition ll2string (dst : list Z) (off dstlen svalue : Z) : result (list Z * Z) :=
  if svalue <? 0 then
    let value := if negb (svalue =? LLONG_MIN) then u64 (- svalue) else LLONG_MAX + 1 in
    if dstlen <? 2 then
      let* dst := if dstlen >? 0 then wr1 dst off 0 else Ok dst in
      Ok (dst, 0)
    else
      let* dst := wr1 dst off ch_minus in
      let* (dst, length) := ull2string dst (off + 1) (dstlen - 1) value in
      if length =? 0 then Ok (dst, 0) else Ok (dst, length + 1)
  else
    let* (dst, length) := ull2string dst off dstlen svalue in
    if length =? 0 then Ok (dst, 0) else Ok (dst, length + 0).

Abbreviation LONG_STR_SIZE := 21.

(** The digit loop of string2ll: [None] for an overflow, otherwise the value
    and how many characters were consumed. *)
Fixpoint s2ll_loop (fuel : nat) (s : list Z) (plen slen v : Z) : result (option (Z * Z)) :=
  if plen <? slen then
    let* c := rd1 s plen in
    if (c >=? ch_0) && (c <=? ch_9) then
      match fuel with
      | O => Err OutOfFuel
      | S fuel =>
          if v >? ULLONG_MAX / 10 then Ok None else
          let v := v * 10 in
          if v >? ULLONG_MAX - (c - ch_0) then Ok None else
          s2ll_loop fuel s (plen + 1) slen (v + (c - ch_0))
      end
    else Ok (Some (v, plen))
  else Ok (Some (v, plen)).

(** [None] for a 0 return, the value stored in [*value] otherwise. *)
Definition string2ll (s : list Z) (slen : Z) : result (option Z) :=
  if (0 =? slen) || (slen >=? LONG_STR_SIZE) then Ok None else
  let* c := rd1 s 0 in
  if (slen =? 1) && (c =? ch_0) then Ok (Some 0) else
  let negative := c =? ch_minus in
  let plen := if negative then 1 else 0 in
  if negative && (plen =? slen) then Ok None else
  let* c := rd1 s plen in
  if negb ((c >=? ch_1) && (c <=? ch_9)) then Ok None else
  let* r := s2ll_loop (Z.to_nat slen) s (plen + 1) slen (c - ch_0) in
  match r with
  | None => Ok None
  | Some (v, plen) =>
      if plen <? slen then Ok None
      else if negative then
        if v >? u64 (- (LLONG_MIN + 1)) + 1 then Ok None else Ok (Some (i64 (u64 (- v))))
      else if v >? LLONG_MAX then Ok None else Ok (Some v)
  end.

(** [long] and [long long] have the same range on the supported 64-bit ABIs. *)
Definition string2l (s : list Z) (slen : Z) : result (option Z) :=
  let* r := string2ll s slen in
  match r with
  | None => Ok None
  | Some llval =>
      if (llval <? LLONG_MIN) || (llval >? LLONG_MAX) then Ok None else Ok (Some llval)
  end.

(** * The reference *)

Definition is_digit (c : Z) : Prop := ch_0 <= c <= ch_9.

(** Value of a string of digits. *)
Definition dec_val (ds : list Z) : Z := foldl (fun a c => a * 10 + (c - ch_0)) 0 ds.

(** [ds] is the decimal form of [v]: no leading zero except in "0". *)
Record is_dec (ds : list Z) (v : Z) : Prop := {
  d_digits : Forall is_digit ds;
  d_val : dec_val ds = v;
  d_len : 1 <= zlen ds;
  d_canon : zlen ds = 1 \/ 10 ^ (zlen ds - 1) <= v;
}.

(** The same with a sign. *)
Definition is_sdec (ds : list Z) (v : Z) : Prop :=
  if v <? 0 then exists ds', ds = ch_minus :: ds' /\ is_dec ds' (- v) else is_dec ds v.

Lemma foldl_dec ds a :
  foldl (fun a c => a * 10 + (c - ch_0)) a ds = a * 10 ^ zlen ds + dec_val ds.
Proof.
  unfold dec_val. revert a. induction ds as [|c ds IH]; intros a; simpl; [unfold zlen; simpl; lia|].
  rewrite IH, (IH (0 * 10 + (c - ch_0))), zlen_cons, Z.pow_add_r by (try apply zlen_nonneg; lia). lia.
Qed.

Lemma dec_val_app a b : dec_val (a ++ b) = dec_val a * 10 ^ zlen b + dec_val b.
Proof. unfold dec_val at 1. rewrite foldl_app. apply foldl_dec. Qed.

Lemma dec_val_cons c b : dec_val (c :: b) = (c - ch_0) * 10 ^ zlen b + dec_val b.
Proof. change (c :: b) with ([c] ++ b). rewrite dec_val_app. unfold dec_val at 1. simpl. lia. Qed.

Lemma dec_val_range ds : Forall is_digit ds -> 0 <= dec_val ds < 10 ^ zlen ds.
Proof.
  induction 1 as [|c ds Hc _ IH]; [unfold dec_val, zlen; simpl; lia|].
  rewrite dec_val_cons, zlen_cons, Z.pow_add_r by (try apply zlen_nonneg; lia).
  unfold is_digit in Hc. nia.
Qed.

Lemma dec_val_inj a b :
  zlen a = zlen b -> Forall is_digit a -> Forall is_digit b -> dec_val a = dec_val b -> a = b.
Proof.
  intros Hl Ha. revert b Hl. induction Ha as [|c a Hc Ha IH]; intros b Hl Hb He.
  - symmetry. apply zlen_nil_inv. by rewrite <- Hl.
  - destruct Hb as [|d b Hd Hb]; [rewrite zlen_cons, zlen_nil in Hl; pose proof (zlen_nonneg a); lia|].
    rewrite !zlen_cons in Hl. rewrite !dec_val_cons in He.
    replace (zlen a) with (zlen b) in He by lia.
    pose proof (dec_val_range a Ha). pose proof (dec_val_range b Hb).
    replace (zlen a) with (zlen b) in * by lia. unfold is_digit in *.
    assert (c = d) as -> by nia. f_equal. apply IH; [lia | done | lia].
Qed.

(** A number has one decimal form. *)
Lemma is_dec_unique a b v : is_dec a v -> is_dec b v -> a = b.
Proof.
  intros [Ha Hva Hla Hca] [Hb Hvb Hlb Hcb].
  pose proof (dec_val_range a Ha). pose proof (dec_val_range b Hb).
  assert (forall x y : Z, 1 <= x -> 1 <= y -> y = 1 \/ 10 ^ (y - 1) <= v -> v < 10 ^ x -> y <= x) as Hlen.
  { intros x y Hx Hy [->|Hle] Hlt; [done|].
    enough (y - 1 < x) by lia. apply (Z.pow_lt_mono_r_iff 10); lia. }
  apply dec_val_inj; try done; [|congruence].
  apply Z.le_antisymm; apply Hlen; try done; lia.
Qed.

Lemma is_sdec_unique a b v : is_sdec a v -> is_sdec b v -> a = b.
Proof.
  unfold is_sdec. case_bool; [|apply is_dec_unique].
  intros (a' & -> & Ha) (b' & -> & Hb). f_equal. eapply is_dec_unique; eauto.
Qed.

(** ** Counting digits *)

Lemma digits10_rec_spec fuel v :
  0 <= v < 10 ^ 24 -> (v < 10 ^ 12 \/ (1 <= fuel)%nat) ->
  let d := digits10_rec fuel v in
  1 <= d /\ v < 10 ^ d /\ (d = 1 \/ 10 ^ (d - 1) <= v).
Proof.
  assert (forall fuel v, 0 <= v < 10 ^ 12 ->
    let d := digits10_rec fuel v in 1 <= d /\ v < 10 ^ d /\ (d = 1 \/ 10 ^ (d - 1) <= v)) as Hsmall.
  { clear. intros fuel v Hv d. unfold d. change (10 ^ 12) with 1000000000000 in Hv.
    destruct fuel; cbn [digits10_rec];
      repeat (match goal with |- context [?a <? ?b] => destruct (Z.ltb_spec a b) end;
              [try lia | ]; try lia);
      rewrite ?Z.geb_leb; try (case_bool; cbn [b2z]); try lia. }
  intros Hv Hf d. unfold d. destruct (Z_lt_le_dec v (10 ^ 12)) as [Hlt|Hge].
  { apply Hsmall. lia. }
  destruct fuel as [|fuel]; [lia|]. cbn [digits10_rec]. change (10 ^ 12) with 1000000000000 in *.
  dec_bool. cbv iota.
  destruct (Hsmall fuel (v / 1000000000000)) as (H1 & H2 & H3).
  { change (10 ^ 12) with 1000000000000. change (10 ^ 24) with (1000000000000 * 1000000000000) in Hv.
    split; [apply Z.div_pos; lia | apply Z.div_lt_upper_bound; lia]. }
  set (e := digits10_rec fuel (v / 1000000000000)) in *.
  pose proof (Z.div_mod v 1000000000000 ltac:(lia)). pose proof (Z.mod_pos_bound v 1000000000000 ltac:(lia)).
  replace (12 + e) with (e + 12) by lia.
  split; [lia|]. rewrite Z.pow_add_r by lia. change (10 ^ 12) with 1000000000000. split; [nia|].
  right. replace (e + 12 - 1) with ((e - 1) + 12) by lia. rewrite Z.pow_add_r by lia.
  change (10 ^ 12) with 1000000000000. destruct H3 as [->|H3]; [simpl; nia | nia].
Qed.

Lemma digits10_spec v :
  0 <= v < 2 ^ 64 ->
  1 <= digits10 v <= 20 /\ v < 10 ^ digits10 v /\ (digits10 v = 1 \/ 10 ^ (digits10 v - 1) <= v).
Proof.
  intros Hv. destruct (digits10_rec_spec 2 v) as (H1 & H2 & H3).
  { change (10 ^ 24) with 1000000000000000000000000. lia. }
  { lia. }
  fold (digits10 v) in *. split_and!; try done. destruct H3 as [->|H3]; [lia|].
  enough (digits10 v - 1 < 20) by lia. apply (Z.pow_lt_mono_r_iff 10); [lia..|].
  change (10 ^ 20) with 100000000000000000000. lia.
Qed.

(** ** Printing *)

(** The table of two-digit strings. *)
Lemma digits_table k :
  0 <= k < 100 -> rd1 digits (k * 2) = Ok (ch_0 + k / 10) /\ rd1 digits (k * 2 + 1) = Ok (ch_0 + k mod 10).
Proof.
  intros Hk. replace k with (Z.of_nat (Z.to_nat k)) by lia.
  assert (Z.to_nat k < 100)%nat as Hn by lia. revert Hn. generalize (Z.to_nat k). clear.
  intros n Hn.
  do 100 (destruct n as [|n]; [by vm_compute|]). lia.
Qed.

Lemma two_digits k : 0 <= k < 100 ->
  Forall is_digit [ch_0 + k / 10; ch_0 + k mod 10] /\ dec_val [ch_0 + k / 10; ch_0 + k mod 10] = k.
Proof.
  intros Hk. pose proof (Z.div_mod k 10 ltac:(lia)). pose proof (Z.mod_pos_bound k 10 ltac:(lia)).
  split; [repeat constructor; lia|]. unfold dec_val. simpl. lia.
Qed.

(** Splitting the part of the buffer that is still to be written. *)
Lemma hole_snoc {A} (h : list A) : 1 <= zlen h -> exists h' x, h = h' ++ [x] /\ zlen h' = zlen h - 1.
Proof.
  intros Hh. destruct h as [|x h] using rev_ind; [rewrite zlen_nil in Hh; lia|].
  exists h, x. rewrite zlen_app. change (zlen [x]) with 1. split; [done | lia].
Qed.

(** The loop peels two digits at a time off the value, from the right. *)
Lemma ull_loop_ok fuel : forall pre hole tail off next v,
  zlen pre = off -> zlen hole = next + 1 -> next < 2 ^ 31 ->
  0 <= v -> v < 10 ^ (next + 1) -> (next = 0 \/ 10 ^ next <= v) -> 0 <= next ->
  next <= 2 * Z.of_nat fuel ->
  exists hole' ds n' v', ull_loop fuel (pre ++ hole ++ tail) off next v = Ok (pre ++ hole' ++ ds ++ tail, n', v') /\
    zlen hole' = n' + 1 /\ 0 <= n' < 2 /\ 0 <= v' < 10 ^ (n' + 1) /\ (n' = 0 \/ 10 ^ n' <= v') /\
    Forall is_digit ds /\ zlen ds = next - n' /\ v = v' * 10 ^ zlen ds + dec_val ds.
Proof.
  induction fuel as [|fuel IH]; intros pre hole tail off next v Hp Hh Hn31 Hv Hlt Hge Hn Hf;
    cbn [ull_loop]; rewrite Z.geb_leb; destruct (Z.leb_spec 100 v) as [H100|H100].
  1: { assert (next = 0) as -> by lia. simpl in Hlt. lia. }
  2: assert (2 <= next) as Hn2.
  2: { enough (2 < next + 1) by lia. apply (Z.pow_lt_mono_r_iff 10); [lia..|]. change (10 ^ 2) with 100. lia. }
  1, 3: assert (next < 2) as Hn2 by (destruct Hge as [->|Hge]; [lia|];
          apply (Z.pow_lt_mono_r_iff 10); [lia..|]; change (10 ^ 2) with 100; lia);
        exists hole, [], next, v; cbn [app]; split_and!; try done; try lia;
        unfold dec_val, zlen; simpl; lia.
  pose proof (Z.div_mod v 100 ltac:(lia)). pose proof (Z.mod_pos_bound v 100 ltac:(lia)).
  destruct (digits_table (v mod 100) ltac:(lia)) as [Hlo Hhi]. rewrite Hhi. runr.
  destruct (hole_snoc hole ltac:(lia)) as (h1 & x1 & -> & Hz1).
  destruct (hole_snoc h1 ltac:(lia)) as (h2 & x2 & -> & Hz2).
  rewrite <- !app_assoc. cbn [app]. rewrite !(app_assoc pre).
  change (x2 :: x1 :: tail) with ([x2] ++ x1 :: tail). rewrite (app_assoc (pre ++ h2) [x2]).
  rewrite wr1_mid by (rewrite !zlen_app, ?zlen_one in *; lia).
  runr. rewrite Hlo. runr. rewrite <- (app_assoc (pre ++ h2)). cbn [app].
  rewrite !(wrapU_small 32) by lia.
  rewrite wr1_mid by (rewrite !zlen_app in *; lia). runr. rewrite <- app_assoc.
  set (ds2 := [ch_0 + v mod 100 / 10; ch_0 + (v mod 100) mod 10]).
  destruct (two_digits (v mod 100) ltac:(lia)) as [Hd2 Hv2]. fold ds2 in Hd2, Hv2.
  destruct (IH pre h2 (ds2 ++ tail) off (next - 2) (v / 100))
    as (hole' & ds & n' & v' & Heq & Hhole & Hn' & Hv' & Hge' & Hds & Hzds & Hval); try lia.
  - replace (next + 1) with ((next - 2 + 1) + 2) in Hlt by lia. rewrite Z.pow_add_r in Hlt by lia.
    change (10 ^ 2) with 100 in Hlt. apply Z.div_lt_upper_bound; lia.
  - right. destruct Hge as [?|Hge]; [lia|]. replace next with ((next - 2) + 2) in Hge by lia.
    rewrite Z.pow_add_r in Hge by lia. change (10 ^ 2) with 100 in Hge.
    apply Z.div_le_lower_bound; lia.
  - exists hole', (ds ++ ds2), n', v'. cbn [app] in Heq. unfold ds2 in Heq at 1. cbn [app] in Heq.
    rewrite Heq. split_and!; try done; try lia.
    + by rewrite <- !app_assoc.
    + by apply Forall_app.
    + rewrite zlen_app. change (zlen ds2) with 2. lia.
    + rewrite dec_val_app, zlen_app, Hv2. change (zlen ds2) with 2. rewrite Z.pow_add_r by (pose proof (zlen_nonneg ds); lia).
      change (10 ^ 2) with 100. lia.
Qed.

(** What a successful print leaves in the block. *)
Definition printed (pre ds post : list Z) : list Z := pre ++ ds ++ 0 :: post.

Lemma ull2string_fits pre room post off dstlen v :
  zlen pre = off -> zlen room = dstlen -> 0 <= v < 2 ^ 64 -> digits10 v < dstlen ->
  exists ds, is_dec ds v /\ zlen ds = digits10 v /\
    ull2string (pre ++ room ++ post) off dstlen v =
      Ok (printed pre ds (drop (S (length ds)) room ++ post), zlen ds).
Proof.
  intros Hp Hr Hv Hd. pose proof (digits10_spec v Hv) as ([Hd1 Hd20] & Hlt & Hge).
  unfold ull2string. set (d := digits10 v) in *. rewrite Z.geb_leb. dec_bool.
  rewrite (wrapU_small 32 (d - 1)), (wrapU_small 32 (d - 1 + 1)) by lia.
  set (hole := take (Z.to_nat d) room).
  assert (exists x rest, room = hole ++ x :: rest) as (x & rest & Hroom).
  { destruct (drop (Z.to_nat d) room) as [|x rest] eqn:E.
    - apply (f_equal zlen) in E. rewrite zlen_drop, zlen_nil in E by lia. lia.
    - exists x, rest. rewrite <- E. unfold hole. by rewrite take_drop. }
  assert (zlen hole = d) as Hhole by (apply zlen_take; lia).
  assert (drop (S (Z.to_nat d)) room = rest) as Hrest.
  { rewrite Hroom, drop_app_ge by (unfold zlen in *; lia).
    by replace (S (Z.to_nat d) - length hole)%nat with 1%nat by (unfold zlen in *; lia). }
  assert (pre ++ room ++ post = (pre ++ hole) ++ x :: (rest ++ post)) as ->.
  { rewrite Hroom. by rewrite <- !app_assoc. }
  rewrite wr1_mid by (rewrite zlen_app; lia). runr. rewrite <- app_assoc.
  destruct (ull_loop_ok 10 pre hole (0 :: rest ++ post) off (d - 1) v)
    as (hole' & ds & n' & v' & -> & Hh' & Hn' & Hv' & Hge' & Hds & Hzds & Hval); try lia.
  { replace (d - 1 + 1) with d by lia. done. }
  runr.
  assert (forall fin, Forall is_digit fin -> zlen fin = n' + 1 -> dec_val fin = v' ->
            is_dec (fin ++ ds) v) as Hfin.
  { intros fin Hf Hz Hfv. split; rewrite ?dec_val_app, ?zlen_app; try lia; [by apply Forall_app|].
    replace (zlen fin + zlen ds) with d by lia. destruct Hge; [left; lia | by right]. }
  assert (forall fin, zlen fin = n' + 1 ->
            pre ++ fin ++ ds ++ 0 :: rest ++ post =
            printed pre (fin ++ ds) (drop (S (length (fin ++ ds))) room ++ post) /\
            zlen (fin ++ ds) = d) as Hpr.
  { intros fin Hz. unfold printed.
    assert (zlen (fin ++ ds) = d) as Hzd by (rewrite zlen_app; lia).
    replace (length (fin ++ ds)) with (Z.to_nat d) by (unfold zlen in *; lia).
    rewrite Hrest. by rewrite <- !app_assoc. }
  destruct (hole_snoc hole' ltac:(lia)) as (h1 & y1 & -> & Hz1).
  destruct (Z.ltb_spec v' 10) as [Hsm|Hbig].
  - assert (n' = 0) as -> by (destruct Hge' as [|Hge']; [done|]; destruct (Z.eq_dec n' 1) as [->|]; [simpl in Hge'; lia | lia]).
    assert (h1 = []) as -> by (apply zlen_nil_inv; lia). cbn [app].
    rewrite wr1_mid by lia. runr. destruct (Hpr [ch_0 + v'] ltac:(done)) as [Hpr1 Hpr2].
    exists ([ch_0 + v'] ++ ds). split_and!; [|done|].
    + apply Hfin; [repeat constructor; lia | done | unfold dec_val; simpl; lia].
    + rewrite <- Hpr1, Hpr2. done.
  - assert (n' = 1) as -> by (destruct (Z.eq_dec n' 0) as [->|]; [simpl in Hv'; lia | lia]).
    change (10 ^ (1 + 1)) with 100 in Hv'.
    destruct (hole_snoc h1 ltac:(lia)) as (h2 & y2 & -> & Hz2).
    assert (h2 = []) as -> by (apply zlen_nil_inv; lia). cbn [app].
    destruct (digits_table v' ltac:(lia)) as [Hlo Hhi]. rewrite Hhi. runr.
    change (y2 :: y1 :: ds ++ 0 :: rest ++ post) with ([y2] ++ y1 :: ds ++ 0 :: rest ++ post).
    rewrite app_assoc, wr1_mid by (rewrite zlen_app, zlen_one; lia). runr. rewrite Hlo. runr.
    rewrite <- app_assoc. cbn [app]. rewrite wrapU_small, wr1_mid by lia. runr.
    destruct (two_digits v' ltac:(lia)) as [Hd2 Hv2].
    set (fin := [ch_0 + v' / 10; ch_0 + v' mod 10]) in *.
    destruct (Hpr fin ltac:(done)) as [Hpr1 Hpr2].
    exists (fin ++ ds). split_and!; [by apply Hfin | done |].
    rewrite <- Hpr1, Hpr2. done.
Qed.

Lemma is_dec_exists v : 0 <= v < 2 ^ 64 -> exists ds, is_dec ds v /\ zlen ds = digits10 v.
Proof.
  intros Hv. pose proof (digits10_spec v Hv).
  destruct (ull2string_fits [] (replicate 21 0) [] 0 21 v) as (ds & Hds & Hz & _); try done; [lia|].
  eauto.
Qed.

Lemma is_dec_digits10 ds v : 0 <= v < 2 ^ 64 -> is_dec ds v -> zlen ds = digits10 v.
Proof.
  intros Hv Hds. destruct (is_dec_exists v Hv) as (ds' & Hds' & Hz).
  by rewrite (is_dec_unique ds ds' v Hds Hds').
Qed.

Lemma ull2string_ok pre room post off dstlen v ds :
  zlen pre = off -> zlen room = dstlen -> 0 <= v < 2 ^ 64 -> is_dec ds v ->
  if zlen ds <? dstlen
  then ull2string (pre ++ room ++ post) off dstlen v =
         Ok (printed pre ds (drop (S (length ds)) room ++ post), zlen ds)
  else exists room', zlen room' = dstlen /\
         ull2string (pre ++ room ++ post) off dstlen v = Ok (pre ++ room' ++ post, 0).
Proof.
  intros Hp Hr Hv Hds. pose proof (is_dec_digits10 ds v Hv Hds) as Hz. rewrite Hz.
  destruct (Z.ltb_spec (digits10 v) dstlen) as [Hlt|Hge].
  - destruct (ull2string_fits pre room post off dstlen v) as (ds' & Hds' & Hz' & Heq); try done.
    rewrite (is_dec_unique ds' ds v Hds' Hds) in Heq. rewrite Heq, Hz. done.
  - unfold ull2string. rewrite Z.geb_leb. dec_bool.
    destruct (Z.ltb_spec 0 dstlen).
    + destruct room as [|x room]; [rewrite zlen_nil in Hr; lia|]. cbn [app].
      rewrite wr1_mid by done. runr. exists (0 :: room). split; [by rewrite zlen_cons in * | done].
    + runr. by exists room.
Qed.

Lemma ll2string_ok pre room post off dstlen v ds :
  zlen pre = off -> zlen room = dstlen -> LLONG_MIN <= v <= LLONG_MAX -> is_sdec ds v ->
  if zlen ds <? dstlen
  then ll2string (pre ++ room ++ post) off dstlen v =
         Ok (printed pre ds (drop (S (length ds)) room ++ post), zlen ds)
  else exists room', zlen room' = dstlen /\
         ll2string (pre ++ room ++ post) off dstlen v = Ok (pre ++ room' ++ post, 0).
Proof.
  intros Hp Hr Hv Hds. unfold is_sdec in Hds. unfold ll2string.
  destruct (Z.ltb_spec v 0) as [Hneg|Hpos].
  - destruct Hds as (ds' & -> & Hds'). rewrite zlen_cons.
    assert ((if negb (v =? LLONG_MIN) then u64 (- v) else LLONG_MAX + 1) = - v) as ->.
    { case_bool; cbn [negb]; [lia | apply wrapU_small; lia]. }
    pose proof (d_len _ _ Hds').
    destruct (Z.ltb_spec dstlen 2).
    + dec_bool. destruct (Z.ltb_spec 0 dstlen).
      * destruct room as [|x room]; [rewrite zlen_nil in Hr; lia|]. cbn [app].
        rewrite wr1_mid by done. runr. exists (0 :: room). split; [by rewrite zlen_cons in * | done].
      * runr. by exists room.
    + destruct room as [|x room]; [rewrite zlen_nil in Hr; lia|]. cbn [app].
      rewrite zlen_cons in Hr. rewrite wr1_mid by done. runr.
      change (pre ++ ch_minus :: room ++ post) with (pre ++ [ch_minus] ++ room ++ post).
      rewrite (app_assoc pre [ch_minus]).
      pose proof (ull2string_ok (pre ++ [ch_minus]) room post (off + 1) (dstlen - 1) (- v) ds') as Hu.
      destruct (Z.ltb_spec (1 + zlen ds') dstlen).
      * rewrite (proj2 (Z.ltb_lt (zlen ds') (dstlen - 1))) in Hu by lia.
        rewrite Hu by (rewrite ?zlen_app, ?zlen_one; done || lia). runr. dec_bool.
        unfold printed. rewrite <- app_assoc. cbn [app]. do 2 f_equal. lia.
      * rewrite (proj2 (Z.ltb_ge (zlen ds') (dstlen - 1))) in Hu by lia.
        destruct Hu as (room' & Hz' & ->); try done; rewrite ?zlen_app, ?zlen_one; try lia.
        runr. exists (ch_minus :: room'). rewrite zlen_cons. split; [lia|].
        change (0 =? 0) with true. cbv iota. by rewrite <- app_assoc.
  - pose proof (ull2string_ok pre room post off dstlen v ds Hp Hr ltac:(lia) Hds) as Hu.
    pose proof (d_len _ _ Hds).
    destruct (Z.ltb_spec (zlen ds) dstlen).
    + rewrite Hu. runr. dec_bool. by rewrite Z.add_0_r.
    + destruct Hu as (room' & Hz' & ->). runr. by exists room'.
Qed.

Lemma is_sdec_exists v : LLONG_MIN <= v <= LLONG_MAX -> exists ds, is_sdec ds v /\ zlen ds <= 20.
Proof.
  intros Hv. unfold is_sdec. case_bool.
  - destruct (is_dec_exists (- v)) as (ds & Hds & Hz); [lia|].
    exists (ch_minus :: ds). split; [eauto|]. rewrite zlen_cons, Hz.
    destruct (digits10_spec (- v) ltac:(lia)) as (Hb & _ & Hge).
    destruct Hge as [->|Hge]; [lia|]. enough (digits10 (- v) - 1 < 19) by lia.
    apply (Z.pow_lt_mono_r_iff 10); [lia..|]. change (10 ^ 19) with 10000000000000000000. lia.
  - destruct (is_dec_exists v) as (ds & Hds & Hz); [lia|].
    exists ds. split; [done|]. rewrite Hz. pose proof (digits10_spec v ltac:(lia)). lia.
Qed.

(** ** Parsing *)

(** A tail the digit loop stops on. *)
Definition stops (t : list Z) : Prop := match t with [] => True | c :: _ => ~ is_digit c end.

Lemma split_digits l : exists ds t, l = ds ++ t /\ Forall is_digit ds /\ stops t.
Proof.
  induction l as [|c l (ds & t & -> & Hds & Ht)]; [by exists [], []|].
  destruct (decide (ch_0 <= c /\ c <= ch_9)) as [Hc|Hc].
  - exists (c :: ds), t. split_and!; try done. by constructor.
  - exists [], (c :: ds ++ t). split_and!; try done.
Qed.

Lemma s2ll_loop_ok fuel : forall s pre ds t v,
  s = pre ++ ds ++ t -> Forall is_digit ds -> stops t -> 0 <= v <= ULLONG_MAX ->
  zlen ds <= Z.of_nat fuel ->
  s2ll_loop fuel s (zlen pre) (zlen s) v =
    Ok (if v * 10 ^ zlen ds + dec_val ds <=? ULLONG_MAX
        then Some (v * 10 ^ zlen ds + dec_val ds, zlen pre + zlen ds) else None).
Proof.
  induction fuel as [|fuel IH]; intros s pre ds t v Hs Hds Ht Hv Hf;
    (destruct Hds as [|c ds Hc Hds];
     [ assert (zlen s = zlen pre + zlen t) as Hzs by (rewrite Hs; by rewrite zlen_app);
       cbn [s2ll_loop]; unfold dec_val; rewrite zlen_nil; cbn [foldl]; rewrite Z.pow_0_r, Z.mul_1_r, !Z.add_0_r;
       rewrite (proj2 (Z.leb_le v ULLONG_MAX)) by lia;
       destruct t as [|c t];
         [ rewrite zlen_nil in Hzs; dec_bool; done
         | rewrite zlen_cons in Hzs; pose proof (zlen_nonneg t); dec_bool; rewrite Hs; cbn [app];
           rewrite rd1_mid by done; runr; simpl in Ht; unfold is_digit in Ht;
           assert ((c >=? ch_0) && (c <=? ch_9) = false) as ->
             by (rewrite Z.geb_leb; destruct (Z.leb_spec ch_0 c), (Z.leb_spec c ch_9); simpl; try done; lia);
           done ]
     | ]); [rewrite zlen_cons in Hf; pose proof (zlen_nonneg ds); lia|].
  rewrite zlen_cons in Hf.
  assert (zlen s = zlen pre + 1 + zlen ds + zlen t) as Hzs
    by (rewrite Hs; rewrite !zlen_app, zlen_cons; lia).
  pose proof (zlen_nonneg ds) as Hd0. pose proof (zlen_nonneg t). pose proof (dec_val_range ds Hds) as Hdr.
  cbn [s2ll_loop]. rewrite (proj2 (Z.ltb_lt (zlen pre) (zlen s))) by lia.
  rewrite Hs at 1. cbn [app]. rewrite rd1_mid by done. runr. unfold is_digit in Hc.
  rewrite Z.geb_leb, (proj2 (Z.leb_le ch_0 c)), (proj2 (Z.leb_le c ch_9)) by lia. cbn [andb].
  rewrite dec_val_cons, zlen_cons, Z.pow_add_r, Z.pow_1_r by lia.
  assert (1 <= 10 ^ zlen ds) as H10 by (pose proof (Z.pow_pos_nonneg 10 (zlen ds)); lia).
  change (ULLONG_MAX / 10) with 1844674407370955161. rewrite !Z.gtb_ltb.
  destruct (Z.ltb_spec 1844674407370955161 v).
  { rewrite (proj2 (Z.leb_gt _ _)) by nia. done. }
  destruct (Z.ltb_spec (ULLONG_MAX - (c - ch_0)) (v * 10)).
  { rewrite (proj2 (Z.leb_gt _ _)) by nia. done. }
  replace (zlen pre + 1) with (zlen (pre ++ [c])) by (rewrite zlen_app; done).
  rewrite (IH s (pre ++ [c]) ds t) by (try done; try lia; rewrite Hs, <- app_assoc; done).
  rewrite zlen_app, zlen_one.
  replace ((v * 10 + (c - ch_0)) * 10 ^ zlen ds + dec_val ds)
    with (v * (10 * 10 ^ zlen ds) + ((c - ch_0) * 10 ^ zlen ds + dec_val ds)) by lia.
  case_bool; [|done]. do 3 f_equal. lia.
Qed.

(** The parser on a sign, a non-zero digit, more digits and a tail. *)
Definition parse_outcome (neg : bool) (v : Z) (t : list Z) : option Z :=
  if (v <=? ULLONG_MAX) && (zlen t =? 0) then
    if neg then if v <=? LLONG_MAX + 1 then Some (- v) else None
    else if v <=? LLONG_MAX then Some v else None
  else None.

Lemma string2ll_scan (neg : bool) c ds t s :
  s = (if neg then [ch_minus] else []) ++ c :: ds ++ t ->
  zlen s < LONG_STR_SIZE -> ch_1 <= c <= ch_9 -> Forall is_digit ds -> stops t ->
  string2ll s (zlen s) = Ok (parse_outcome neg (dec_val (c :: ds)) t).
Proof.
  intros Hs Hlen Hc Hds Ht. unfold string2ll.
  pose proof (zlen_nonneg ds). pose proof (zlen_nonneg t). pose proof (dec_val_range ds Hds) as Hdr.
  set (pre := if neg then [ch_minus] else []) in *.
  assert (zlen pre = b2z neg) as Hzp by (unfold pre; by destruct neg).
  assert (zlen s = b2z neg + 1 + zlen ds + zlen t) as Hzs
    by (rewrite Hs, zlen_app, zlen_cons, zlen_app; lia).
  assert (0 <= b2z neg) by (destruct neg; simpl; lia).
  rewrite Z.geb_leb. dec_bool.
  assert (rd1 s 0 = Ok (if neg then ch_minus else c)) as -> by (rewrite Hs; unfold pre; by destruct neg).
  runr.
  assert (((zlen s =? 1) && ((if neg then ch_minus else c) =? ch_0)) = false) as ->
    by (apply andb_false_iff; right; apply Z.eqb_neq; destruct neg; lia).
  assert (((if neg then ch_minus else c) =? ch_minus) = neg) as ->
    by (destruct neg; [done | apply Z.eqb_neq; lia]).
  assert ((if neg then 1 else 0) = zlen pre) as -> by (rewrite Hzp; by destruct neg).
  assert ((neg && (zlen pre =? zlen s)) = false) as -> by (apply andb_false_iff; right; apply Z.eqb_neq; lia).
  rewrite Hs at 1. rewrite rd1_mid by done. runr.
  rewrite Z.geb_leb, (proj2 (Z.leb_le ch_1 c)), (proj2 (Z.leb_le c ch_9)) by lia. cbn [andb negb].
  replace (zlen pre + 1) with (zlen (pre ++ [c])) by (rewrite zlen_app; done).
  rewrite (s2ll_loop_ok _ s (pre ++ [c]) ds t (c - ch_0)) by (try done; try lia; rewrite Hs, <- app_assoc; done).
  runr. rewrite <- dec_val_cons. unfold parse_outcome.
  set (v := dec_val (c :: ds)).
  assert (1 <= v) as Hv1.
  { unfold v. rewrite dec_val_cons. pose proof (Z.pow_pos_nonneg 10 (zlen ds)). nia. }
  destruct (Z.leb_spec v ULLONG_MAX); cbn [andb]; [|done].
  rewrite zlen_app, zlen_one. destruct (Z.eqb_spec (zlen t) 0).
  - rewrite (proj2 (Z.ltb_ge _ _)) by lia. rewrite !Z.gtb_ltb.
    destruct neg.
    + change (u64 (- (LLONG_MIN + 1)) + 1) with (LLONG_MAX + 1).
      destruct (Z.leb_spec v (LLONG_MAX + 1)).
      * rewrite (proj2 (Z.ltb_ge _ _)) by lia. rewrite wrapS_wrapU by lia.
        rewrite wrapS_small by lia. done.
      * by rewrite (proj2 (Z.ltb_lt _ _)) by lia.
    + destruct (Z.leb_spec v LLONG_MAX).
      * by rewrite (proj2 (Z.ltb_ge _ _)) by lia.
      * by rewrite (proj2 (Z.ltb_lt _ _)) by lia.
  - by rewrite (proj2 (Z.ltb_lt _ _)) by lia.
Qed.

(** A string that does not start with a sign or a non-zero digit (apart from
    "0" itself) is refused at once. *)
Lemma string2ll_no_digit s :
  s <> [ch_0] ->
  (match s with
   | c :: d :: _ => if c =? ch_minus then ~ ch_1 <= d <= ch_9 else ~ ch_1 <= c <= ch_9
   | [c] => ~ ch_1 <= c <= ch_9
   | [] => True
   end) ->
  string2ll s (zlen s) = Ok None.
Proof.
  intros Hne Hs. unfold string2ll. rewrite Z.geb_leb.
  destruct s as [|c s]; [done|]. rewrite zlen_cons. pose proof (zlen_nonneg s).
  destruct (_ || _) eqn:Eo; [done|].
  change (c :: s) with ([] ++ c :: s) at 1. rewrite rd1_mid by done. runr.
  destruct ((1 + zlen s =? 1) && (c =? ch_0)) eqn:E0.
  { apply andb_prop in E0 as [E1 E2]. apply Z.eqb_eq in E1, E2.
    assert (s = []) as -> by (apply zlen_nil_inv; lia). subst. done. }
  assert (forall c, ~ ch_1 <= c <= ch_9 -> ((c >=? ch_1) && (c <=? ch_9)) = false) as Hf.
  { intros x Hx. rewrite Z.geb_leb. destruct (Z.leb_spec ch_1 x), (Z.leb_spec x ch_9); simpl; try done; lia. }
  destruct (Z.eqb_spec c ch_minus) as [->|Hc]; cbn [andb].
  - destruct s as [|d s].
    + rewrite zlen_nil. done.
    + rewrite zlen_cons. pose proof (zlen_nonneg s). dec_bool. cbv iota.
      change (ch_minus :: d :: s) with ([ch_minus] ++ d :: s). rewrite rd1_mid by done. runr.
      cbn in Hs. by rewrite Hf.
  - change (c :: s) with ([] ++ c :: s) at 1. rewrite rd1_mid by done. runr.
    rewrite Hf; [done|]. destruct s; [done|]. by destruct (Z.eqb_spec c ch_minus).
Qed.

Lemma is_dec_zero_head ds v : is_dec (ch_0 :: ds) v -> ds = [].
Proof.
  intros [Hd Hv _ Hc]. apply list.Forall_cons in Hd as [_ Hd].
  rewrite dec_val_cons in Hv. rewrite zlen_cons in Hc.
  pose proof (dec_val_range ds Hd). pose proof (zlen_nonneg ds).
  destruct Hc as [Hc|Hc]; [apply zlen_nil_inv; lia|].
  replace (1 + zlen ds - 1) with (zlen ds) in Hc by lia. lia.
Qed.

(** A digit string with a non-zero head is canonical. *)
Lemma is_dec_nonzero c ds :
  ch_1 <= c <= ch_9 -> Forall is_digit ds -> is_dec (c :: ds) (dec_val (c :: ds)).
Proof.
  intros Hc Hds. pose proof (zlen_nonneg ds). pose proof (dec_val_range ds Hds).
  split; try done; rewrite ?zlen_cons; try lia.
  - constructor; [unfold is_digit; lia | done].
  - right. rewrite dec_val_cons. replace (1 + zlen ds - 1) with (zlen ds) by lia.
    pose proof (Z.pow_pos_nonneg 10 (zlen ds)). nia.
Qed.

(** A canonical form longer than 20 characters is out of range. *)
Lemma is_sdec_long s v : is_sdec s v -> LONG_STR_SIZE <= zlen s -> ~ LLONG_MIN <= v <= LLONG_MAX.
Proof.
  unfold is_sdec. intros Hs Hl Hv.
  assert (forall ds w, is_dec ds w -> 20 <= zlen ds -> 0 <= w <= LLONG_MAX + 1 -> False) as Hno.
  { intros ds w [Hd Hw Hl1 [Hc|Hc]] H20 Hr; [lia|].
    assert (10 ^ 19 <= 10 ^ (zlen ds - 1)) by (apply Z.pow_le_mono_r; lia).
    change (10 ^ 19) with 10000000000000000000 in *. lia. }
  destruct (Z.ltb_spec v 0).
  - destruct Hs as (ds & -> & Hds). rewrite zlen_cons in Hl. apply (Hno ds (- v)); [done | lia | lia].
  - apply (Hno s v); [done | lia | lia].
Qed.

Lemma digits_no_stop t : Forall is_digit t -> stops t -> t = [].
Proof. destruct 1; [done|]. simpl. tauto. Qed.

Lemma parse_outcome_iff (neg : bool) c ds t v :
  ch_1 <= c <= ch_9 -> Forall is_digit ds -> stops t ->
  parse_outcome neg (dec_val (c :: ds)) t = Some v <->
  is_sdec ((if neg then [ch_minus] else []) ++ c :: ds ++ t) v /\ LLONG_MIN <= v <= LLONG_MAX.
Proof.
  intros Hc Hds Ht. pose proof (is_dec_nonzero c ds Hc Hds) as Hdec.
  assert (1 <= dec_val (c :: ds)) as H1.
  { rewrite dec_val_cons. pose proof (dec_val_range ds Hds). pose proof (Z.pow_pos_nonneg 10 (zlen ds)).
    pose proof (zlen_nonneg ds). nia. }
  unfold parse_outcome, is_sdec. split.
  - destruct (Z.leb_spec (dec_val (c :: ds)) ULLONG_MAX); [|done].
    destruct (Z.eqb_spec (zlen t) 0) as [Hz|]; [|done]. apply zlen_nil_inv in Hz as ->.
    cbn [andb]. rewrite app_nil_r. destruct neg.
    + destruct (Z.leb_spec (dec_val (c :: ds)) (LLONG_MAX + 1)); [|done]. intros [= <-]. dec_bool.
      split; [|lia]. eexists; split; [done|].
      by rewrite Z.opp_involutive.
    + destruct (Z.leb_spec (dec_val (c :: ds)) LLONG_MAX); [|done]. intros [= <-]. dec_bool.
      split; [done | lia].
  - intros [Hs Hv].
    assert (is_dec (c :: ds ++ t) (if neg then - v else v) /\ (neg = true <-> v < 0)) as [Hd Hneg].
    { destruct neg; cbn [app] in Hs; destruct (Z.ltb_spec v 0).
      - destruct Hs as (ds' & [= <-] & Hd). split; [done | tauto].
      - destruct Hs as [Hf _ _ _]. apply list.Forall_cons in Hf as [Hf _]. unfold is_digit in Hf. lia.
      - destruct Hs as (ds' & [= -> _] & _). lia.
      - split; [done|]. split; [done | lia]. }
    assert (t = []) as ->.
    { destruct Hd as [Hf _ _ _]. apply list.Forall_cons in Hf as [_ Hf]. apply Forall_app in Hf as [_ Hf].
      by apply digits_no_stop. }
    rewrite app_nil_r in Hd. destruct Hd as [_ Hval _ _]. rewrite Hval. rewrite zlen_nil.
    destruct neg.
    + dec_bool. by rewrite Z.opp_involutive.
    + dec_bool. done.
Qed.

(** Every decimal form is "0", or an optional sign and a non-zero digit first. *)
Lemma is_sdec_shape s v : is_sdec s v ->
  s = [ch_0] \/ exists (neg : bool) c rest,
    s = (if neg then [ch_minus] else []) ++ c :: rest /\ ch_1 <= c <= ch_9.
Proof.
  assert (forall ds w, is_dec ds w -> ds = [ch_0] \/ exists c rest, ds = c :: rest /\ ch_1 <= c <= ch_9) as Hd.
  { intros ds w Hds. destruct ds as [|c ds]; [by destruct Hds as [_ _ Hl _]; rewrite zlen_nil in Hl|].
    destruct (Z.eq_dec c ch_0) as [->|Hne].
    - left. by rewrite (is_dec_zero_head ds w Hds).
    - right. exists c, ds. split; [done|]. destruct Hds as [Hf _ _ _].
      apply list.Forall_cons in Hf as [Hf _]. unfold is_digit in Hf. lia. }
  unfold is_sdec. destruct (Z.ltb_spec v 0).
  - intros (ds & -> & Hds). destruct (Hd ds _ Hds) as [->|(c & rest & -> & Hc)].
    + destruct Hds as [_ Hval _ _]. unfold dec_val in Hval. simpl in Hval. lia.
    + right. by exists true, c, rest.
  - intros Hds. destruct (Hd s _ Hds) as [->|(c & rest & -> & Hc)]; [by left|].
    right. by exists false, c, rest.
Qed.

Lemma string2ll_ok s :
  exists r, string2ll s (zlen s) = Ok r /\
    forall v, r = Some v <-> is_sdec s v /\ LLONG_MIN <= v <= LLONG_MAX.
Proof.
  destruct (Z_lt_le_dec (zlen s) LONG_STR_SIZE) as [Hlen|Hlen].
  2: { exists None. split.
       - unfold string2ll. rewrite Z.geb_leb, (proj2 (Z.leb_le LONG_STR_SIZE (zlen s))) by lia.
         by rewrite orb_true_r.
       - intros v. split; [done|]. intros [Hs Hv]. by apply (is_sdec_long s v) in Hv. }
  (* the strings that may be accepted start with an optional sign and a digit 1-9 *)
  assert (forall (neg : bool) c rest,
    s = (if neg then [ch_minus] else []) ++ c :: rest -> ch_1 <= c <= ch_9 ->
    exists r, string2ll s (zlen s) = Ok r /\
      forall v, r = Some v <-> is_sdec s v /\ LLONG_MIN <= v <= LLONG_MAX) as Hscan.
  { intros neg c rest Hs Hc. destruct (split_digits rest) as (ds & t & -> & Hds & Ht).
    exists (parse_outcome neg (dec_val (c :: ds)) t). split; [by apply string2ll_scan|].
    intros v. subst s. by apply parse_outcome_iff. }
  destruct (decide (s = [ch_0])) as [->|Hne].
  { exists (Some 0). split; [done|]. intros v. split.
    - intros [= <-]. split; [|lia]. split; unfold dec_val, zlen; simpl; try lia.
      repeat constructor; unfold is_digit; lia.
    - intros [Hs _]. unfold is_sdec in Hs. destruct (Z.ltb_spec v 0).
      + by destruct Hs as (ds & ? & _).
      + destruct Hs as [_ <- _ _]. done. }
  assert (forall c, { ch_1 <= c <= ch_9 } + { ~ ch_1 <= c <= ch_9 }) as Hdec.
  { intros c. destruct (Z_le_dec ch_1 c), (Z_le_dec c ch_9); (by left) || (right; lia). }
  (* anything else is refused, and is not a decimal form *)
  assert ((exists (neg : bool) c rest, s = (if neg then [ch_minus] else []) ++ c :: rest /\ ch_1 <= c <= ch_9)
          \/ string2ll s (zlen s) = Ok None) as [(neg & c & rest & Hs & Hc)|Hnone]; [|by eapply Hscan|].
  { destruct s as [|c [|d s]]; [by right| |].
    - destruct (Hdec c); [left; by exists false, c, [] | right; by apply string2ll_no_digit].
    - destruct (Z.eqb_spec c ch_minus) as [->|Hc].
      + destruct (Hdec d); [left; by exists true, d, s | right; by apply string2ll_no_digit].
      + destruct (Hdec c); [left; by exists false, c, (d :: s)|].
        right. apply string2ll_no_digit; [done|]. by destruct (Z.eqb_spec c ch_minus). }
  exists None. split; [done|]. intros v. split; [done|]. intros [Hs Hv].
  destruct (is_sdec_shape s v Hs) as [?|(neg & c & rest & Heq & Hc)]; [done|].
  destruct (Hscan neg c rest Heq Hc) as (r & Hr & Hiff). rewrite Hnone in Hr. injection Hr as <-.
  by apply Hiff.
Qed.

(** * Properties *)

(** [ll2string] prints every 64-bit integer: into a block laid out as
    [pre ++ room ++ post] with the pointer at [room], it writes the decimal
    form and a terminator inside [room] and returns its length when they fit,
    and otherwise returns 0 having changed nothing outside [room]. *)
Theorem ll2string_correct pre room post v ds :
  LLONG_MIN <= v <= LLONG_MAX -> is_sdec ds v ->
  if zlen ds <? zlen room
  then ll2string (pre ++ room ++ post) (zlen pre) (zlen room) v =
         Ok (printed pre ds (drop (S (length ds)) room ++ post), zlen ds)
  else exists room', zlen room' = zlen room /\
         ll2string (pre ++ room ++ post) (zlen pre) (zlen room) v = Ok (pre ++ room' ++ post, 0).
Proof. intros. by apply ll2string_ok. Qed.

Lemma sample_sdec : is_sdec (chars "-120") (-120).
Proof.
  unfold is_sdec. simpl. eexists; split; [done|].
  split; unfold dec_val, zlen; simpl; try lia. repeat constructor; unfold is_digit; lia.
Qed.

Lemma ll2string_correct_witness :
  ll2string ([7] ++ [1; 2; 3; 4; 5; 6] ++ [9]) 1 6 (-120) =
    Ok (printed [7] (chars "-120") ([6] ++ [9]), 4).
Proof. apply (ll2string_correct [7] [1; 2; 3; 4; 5; 6] [9] (-120) (chars "-120")); [lia | apply sample_sdec]. Defined.

(** C33: [string2ll] never reads past the string and accepts it exactly when it
    is the decimal form of a 64-bit integer, which it returns: no spaces, no
    plus sign, no leading zeros, no minus zero, no overflow. *)
Theorem string2ll_correct s :
  exists r, string2ll s (zlen s) = Ok r /\
    forall v, r = Some v <-> is_sdec s v /\ LLONG_MIN <= v <= LLONG_MAX.
Proof. apply string2ll_ok. Qed.

(** Printing a 64-bit integer into a buffer of 21 bytes and parsing the
    characters written gives the integer back; and a string that parses is
    reproduced, byte for byte, by printing its value, so storing it as an
    integer loses nothing. *)
Theorem ll_string_roundtrip room :
  zlen room = 21 ->
  (forall v, LLONG_MIN <= v <= LLONG_MAX ->
     exists buf n, ll2string room 0 21 v = Ok (buf, n) /\ 0 < n < 21 /\
       string2ll (take (Z.to_nat n) buf) n = Ok (Some v)) /\
  (forall s v, string2ll s (zlen s) = Ok (Some v) ->
     exists buf n, ll2string room 0 21 v = Ok (buf, n) /\ take (Z.to_nat n) buf = s).
Proof.
  intros Hroom.
  assert (forall v ds, LLONG_MIN <= v <= LLONG_MAX -> is_sdec ds v ->
    exists buf, ll2string room 0 21 v = Ok (buf, zlen ds) /\ zlen ds < 21 /\
                take (Z.to_nat (zlen ds)) buf = ds) as Hprint.
  { intros v ds Hv Hds. destruct (is_sdec_exists v Hv) as (ds' & Hds' & Hl).
    rewrite (is_sdec_unique _ _ _ Hds' Hds) in Hl.
    pose proof (ll2string_ok [] room [] 0 21 v ds ltac:(done) Hroom Hv Hds) as Hp.
    rewrite (proj2 (Z.ltb_lt _ _)) in Hp by lia. cbn [app] in Hp. rewrite app_nil_r in Hp.
    eexists. split; [exact Hp|]. split; [lia|]. unfold printed, zlen. cbn [app].
    by rewrite Nat2Z.id, take_app_length. }
  split.
  - intros v Hv. destruct (is_sdec_exists v Hv) as (ds & Hds & _).
    destruct (Hprint v ds Hv Hds) as (buf & Hp & Hl & Htake).
    exists buf, (zlen ds). rewrite Htake. split; [done|]. split.
    + split; [|done]. unfold is_sdec in Hds. destruct (v <? 0).
      * destruct Hds as (ds' & -> & Hd). rewrite zlen_cons. pose proof (zlen_nonneg ds'). lia.
      * pose proof (d_len _ _ Hds). lia.
    + destruct (string2ll_ok ds) as (r & -> & Hr). f_equal. by apply Hr.
  - intros s v Hs. destruct (string2ll_ok s) as (r & Hr & Hiff). rewrite Hs in Hr.
    injection Hr as <-. destruct (proj1 (Hiff v) eq_refl) as [Hd Hv].
    destruct (Hprint v s Hv Hd) as (buf & Hp & _ & Htake). eauto.
Qed.

Lemma ll_string_roundtrip_witness :
  exists buf n, ll2string (replicate 21 0) 0 21 (-9223372036854775808) = Ok (buf, n) /\ 0 < n < 21 /\
    string2ll (take (Z.to_nat n) buf) n = Ok (Some (-9223372036854775808)).
Proof. apply (ll_string_roundtrip (replicate 21 0)); [done | lia]. Defined.
