(* ===== verification/Glob.v ===== *)
(** Glob: the pattern matcher of src/redis-stable/src/util.c (KEYS, SCAN MATCH,
    PSUBSCRIBE, CONFIG GET, ACL patterns).

    The C function works on the raw pattern, recurses at each star and shares
    one flag ([skipLongerMatches]) between all recursion levels to cut the
    search short.  The reference semantics is separate: the pattern is parsed
    into tokens, and [glob] says declaratively which strings the tokens match.

    Theorems: for a non-empty string the matcher decides [glob] (so cutting the
    search short never loses a match) as long as the pattern has at most 1000
    stars; on the empty string it matches only the empty pattern.

    A pattern is the list of its bytes; the byte after its end is the NUL that
    terminates every sds string, which is what [pattern[1]] reads on the last
    character. *)

From Stdlib Require Import ZArith Lia Bool.
From stdpp Require Import base list numbers decidable.
From S2P Require Import Prelude Bytes.

Local Open Scope Z_scope.

(** * The code *)

Abbreviation ch_star := 42.
Abbreviation ch_quest := 63.
Abbreviation ch_lbrack := 91.
Abbreviation ch_rbrack := 93.
Abbreviation ch_backslash := 92.
Abbreviation ch_caret := 94.
Abbreviation ch_dash := 45.

(** [char] is signed on the supported hosts: the value of a byte as an int. *)
Definition schar (b : Z) : Z := i8 b.

(** tolower() in the C locale. *)
Definition tolower (c : Z) : Z := if (65 <=? c) && (c <=? 90) then c + 32 else c.

(** One character against one pattern character. *)
Definition same_char (nocase : bool) (a c : Z) : bool :=
  if negb nocase then a =? c else tolower (schar a) =? tolower (schar c).

(** [start-end] inside brackets. *)
Definition in_range (nocase : bool) (a e c : Z) : bool :=
  let start := schar a in
  let end_ := schar e in
  let c := schar c in
  let '(start, end_) := if start >? end_ then (end_, start) else (start, end_) in
  let '(start, end_, c) :=
    if nocase then (tolower start, tolower end_, tolower c) else (start, end_, c) in
  (c >=? start) && (c <=? end_).

(** The [while(1)] loop of the '[' case: whether [c] matched, and the pattern
    left after the class (the final [pattern++] included). *)
Fixpoint class_loop (nocase : bool) (c : Z) (p : list Z) (m : bool) : bool * list Z :=
  match p with
  | [] => (m, [])
  | a :: p1 =>
      match p1 with
      | b :: p2 =>
          if a =? ch_backslash then class_loop nocase c p2 (m || (b =? c))
          else if a =? ch_rbrack then (m, p1)
          else
            match p2 with
            | e :: p3 =>
                if b =? ch_dash then class_loop nocase c p3 (m || in_range nocase a e c)
                else class_loop nocase c p1 (m || same_char nocase a c)
            | [] => class_loop nocase c p1 (m || same_char nocase a c)
            end
      | [] =>
          if a =? ch_rbrack then (m, p1)
          else class_loop nocase c p1 (m || same_char nocase a c)
      end
  end.

(** [while (patternLen && pattern[1] == '*')]: stop on the last star. *)
Fixpoint skip_stars (p : list Z) : list Z :=
  match p with
  | a :: ((b :: _) as p1) => if b =? ch_star then skip_stars p1 else p
  | _ => p
  end.

(** [while(patternLen && *pattern == '*')]: drop the leading stars. *)
Fixpoint drop_stars (p : list Z) : list Z :=
  match p with
  | a :: p1 => if a =? ch_star then drop_stars p1 else p
  | [] => []
  end.

(** The [while(stringLen)] loop of the '*' case around the recursive call
    [f string skipLongerMatches]. *)
Fixpoint star_loop (f : list Z -> bool -> result (bool * bool)) (s : list Z) (skip : bool)
  : result (bool * bool) :=
  match s with
  | [] => Ok (false, true)
  | _ :: s1 =>
      let* (m, skip) := f s skip in
      if (m : bool) then Ok (true, skip)
      else if (skip : bool) then Ok (false, skip)
      else star_loop f s1 skip
  end.

(** The [while(patternLen && stringLen)] loop.  Returns the match flag and the
    final [*skipLongerMatches]. *)
Fixpoint match_loop (fuel : nat) (p s : list Z) (nocase skip : bool) (nesting : Z)
  : result (bool * bool) :=
  match p, s with
  | a :: p1, c :: s1 =>
      match fuel with
      | O => Err OutOfFuel
      | S fuel =>
          let next p' s' :=
            match s' with
            | [] => Ok (match drop_stars p' with [] => true | _ => false end, skip)
            | _ => match_loop fuel p' s' nocase skip nesting
            end in
          if a =? ch_star then
            match skip_stars p with
            | [_] => Ok (true, skip)
            | p' =>
                star_loop (fun s skip =>
                  if nesting + 1 >? 1000 then Ok (false, skip)
                  else match_loop fuel (tail p') s nocase skip (nesting + 1)) s skip
            end
          else if a =? ch_quest then next p1 s1
          else if a =? ch_lbrack then
            let not := match p1 with b :: _ => b =? ch_caret | [] => false end in
            let p2 := if not then tail p1 else p1 in
            let '(m, rest) := class_loop nocase c p2 false in
            if xorb not m then next rest s1 else Ok (false, skip)
          else
            let '(a, p1) := if a =? ch_backslash
                            then match p1 with b :: p2 => (b, p2) | [] => (a, p1) end
                            else (a, p1) in
            if same_char nocase a c then next p1 s1 else Ok (false, skip)
      end
  | [], [] => Ok (true, skip)
  | _, _ => Ok (false, skip)
  end.

Definition stringmatchlen_impl (p s : list Z) (nocase skip : bool) (nesting : Z)
  : result (bool * bool) :=
  if nesting >? 1000 then Ok (false, skip)
  else match_loop (S (length p)) p s nocase skip nesting.

Definition stringmatchlen (pattern string : list Z) (nocase : bool) : result bool :=
  let* (m, _) := stringmatchlen_impl pattern string nocase false 0 in
  Ok m.

(** [for (int i = patternLen - 2; i >= 0; i--)]: backslashes counted from the
    end of the reversed prefix. *)
Fixpoint backslashes (rp : list Z) : Z :=
  match rp with
  | a :: rp => if a =? ch_backslash then 1 + backslashes rp else 0
  | [] => 0
  end.

Definition prefixmatch (pattern prefixStr : list Z) (nocase : bool) : result bool :=
  let* (m, _) := stringmatchlen_impl pattern prefixStr nocase false 0 in
  if negb m then Ok false else
  match reverse pattern with
  | [] => Ok false
  | last :: before =>
      if negb (last =? ch_star) then Ok false
      else Ok (backslashes before mod 2 =? 0)
  end.

(** * Reference semantics *)

Inductive item := IChar (a : Z) | IRange (a e : Z) | IEsc (a : Z).

Inductive tok :=
  | TStar
  | TAny
  | TLit (a : Z)
  | TClass (neg : bool) (items : list item).

(** The items of a bracket class, and what follows it. *)
Fixpoint class_items (p : list Z) : list item * list Z :=
  match p with
  | [] => ([], [])
  | a :: p1 =>
      match p1 with
      | b :: p2 =>
          if a =? ch_backslash then let '(its, r) := class_items p2 in (IEsc b :: its, r)
          else if a =? ch_rbrack then ([], p1)
          else
            match p2 with
            | e :: p3 =>
                if b =? ch_dash then let '(its, r) := class_items p3 in (IRange a e :: its, r)
                else let '(its, r) := class_items p1 in (IChar a :: its, r)
            | [] => let '(its, r) := class_items p1 in (IChar a :: its, r)
            end
      | [] => if a =? ch_rbrack then ([], p1) else ([IChar a], [])
      end
  end.

Fixpoint parse_rec (fuel : nat) (p : list Z) : list tok :=
  match fuel, p with
  | S fuel, a :: p1 =>
      if a =? ch_star then TStar :: parse_rec fuel p1
      else if a =? ch_quest then TAny :: parse_rec fuel p1
      else if a =? ch_lbrack then
        let neg := match p1 with b :: _ => b =? ch_caret | [] => false end in
        let '(items, rest) := class_items (if neg then tail p1 else p1) in
        TClass neg items :: parse_rec fuel rest
      else if a =? ch_backslash then
        match p1 with
        | b :: p2 => TLit b :: parse_rec fuel p2
        | [] => [TLit a]
        end
      else TLit a :: parse_rec fuel p1
  | _, _ => []
  end.

(** The tokens of a pattern. *)
Definition parse (p : list Z) : list tok := parse_rec (length p) p.

Definition item_ok (nocase : bool) (c : Z) (i : item) : bool :=
  match i with
  | IChar a => same_char nocase a c
  | IRange a e => in_range nocase a e c
  | IEsc a => a =? c
  end.

(** The characters a single-character token stands for. *)
Definition tok_ok (nocase : bool) (t : tok) (c : Z) : bool :=
  match t with
  | TStar => false
  | TAny => true
  | TLit a => same_char nocase a c
  | TClass neg items => xorb neg (existsb (item_ok nocase c) items)
  end.

Inductive glob (nocase : bool) : list tok -> list Z -> Prop :=
  | glob_nil : glob nocase [] []
  | glob_star0 ts s : glob nocase ts s -> glob nocase (TStar :: ts) s
  | glob_star1 ts c s : glob nocase (TStar :: ts) s -> glob nocase (TStar :: ts) (c :: s)
  | glob_one t ts c s : tok_ok nocase t c = true -> glob nocase ts s -> glob nocase (t :: ts) (c :: s).

(** Number of stars. *)
Definition stars (ts : list tok) : Z :=
  zlen (List.filter (fun t => match t with TStar => true | _ => false end) ts).

(** * Parsing *)

(** The head of a class: what it contributes and what it leaves. *)
Definition class_step (a b : Z) (p2 : list Z) : option item * list Z :=
  if a =? ch_backslash then (Some (IEsc b), p2)
  else if a =? ch_rbrack then (None, b :: p2)
  else match p2 with
       | e :: p3 => if b =? ch_dash then (Some (IRange a e), p3) else (Some (IChar a), b :: p2)
       | [] => (Some (IChar a), b :: p2)
       end.

Lemma class_step_length a b p2 : (length (class_step a b p2).2 <= S (length p2))%nat.
Proof. unfold class_step. destruct p2; repeat case_bool; simpl; lia. Qed.

Lemma class_items_step a b p2 :
  class_items (a :: b :: p2) =
  match class_step a b p2 with
  | (Some i, r) => (i :: (class_items r).1, (class_items r).2)
  | (None, r) => ([], r)
  end.
Proof.
  unfold class_step. change (class_items (a :: b :: p2)) with
    (if a =? ch_backslash then let '(its, r) := class_items p2 in (IEsc b :: its, r)
     else if a =? ch_rbrack then ([], b :: p2)
     else match p2 with
          | e :: p3 =>
              if b =? ch_dash then let '(its, r) := class_items p3 in (IRange a e :: its, r)
              else let '(its, r) := class_items (b :: p2) in (IChar a :: its, r)
          | [] => let '(its, r) := class_items (b :: p2) in (IChar a :: its, r)
          end).
  destruct (_ =? _); [by destruct (class_items p2)|]. destruct (_ =? _); [done|].
  destruct p2 as [|e p3]; [by destruct (class_items [b])|].
  destruct (_ =? _); [by destruct (class_items p3)|by destruct (class_items (b :: e :: p3))].
Qed.

Lemma class_loop_step nc c a b p2 m :
  class_loop nc c (a :: b :: p2) m =
  match class_step a b p2 with
  | (Some i, r) => class_loop nc c r (m || item_ok nc c i)
  | (None, r) => (m, r)
  end.
Proof.
  unfold class_step. change (class_loop nc c (a :: b :: p2) m) with
    (if a =? ch_backslash then class_loop nc c p2 (m || (b =? c))
     else if a =? ch_rbrack then (m, b :: p2)
     else match p2 with
          | e :: p3 =>
              if b =? ch_dash then class_loop nc c p3 (m || in_range nc a e c)
              else class_loop nc c (b :: p2) (m || same_char nc a c)
          | [] => class_loop nc c (b :: p2) (m || same_char nc a c)
          end).
  destruct (a =? ch_backslash); [done|]. destruct (a =? ch_rbrack); [done|].
  destruct p2; [done|]. by destruct (b =? ch_dash).
Qed.

Lemma class_items_length p : (length (class_items p).2 <= length p)%nat.
Proof.
  induction p as [p IH] using (induction_ltof1 _ (@length Z)); unfold ltof in IH.
  destruct p as [|a [|b p2]]; [simpl; lia|simpl; case_bool; simpl; lia|].
  rewrite class_items_step. pose proof (class_step_length a b p2) as Hl.
  destruct (class_step a b p2) as [[i|] r]; simpl in *; [|lia].
  specialize (IH r ltac:(lia)). lia.
Qed.

(** The code's class loop computes the disjunction over the parsed items. *)
Lemma class_loop_items nc c p m :
  class_loop nc c p m =
  (m || existsb (item_ok nc c) (class_items p).1, (class_items p).2).
Proof.
  revert m. induction p as [p IH] using (induction_ltof1 _ (@length Z)); unfold ltof in IH.
  intros m. destruct p as [|a [|b p2]].
  - simpl. by rewrite orb_false_r.
  - simpl. case_bool; simpl; by rewrite ?orb_false_r.
  - rewrite class_loop_step, class_items_step. pose proof (class_step_length a b p2) as Hl.
    destruct (class_step a b p2) as [[i|] r]; simpl in *; [|by rewrite orb_false_r].
    rewrite IH by lia. by rewrite orb_assoc.
Qed.

(** The pattern after one token, and that token. *)
Definition next_tok (a : Z) (p1 : list Z) : tok * list Z :=
  if a =? ch_star then (TStar, p1)
  else if a =? ch_quest then (TAny, p1)
  else if a =? ch_lbrack then
    let neg := match p1 with b :: _ => b =? ch_caret | [] => false end in
    let '(items, rest) := class_items (if neg then tail p1 else p1) in
    (TClass neg items, rest)
  else if a =? ch_backslash then
    match p1 with b :: p2 => (TLit b, p2) | [] => (TLit a, []) end
  else (TLit a, p1).

Lemma next_tok_length a p1 : (length (next_tok a p1).2 <= length p1)%nat.
Proof.
  unfold next_tok.
  repeat (case_bool; simpl; [lia|]). case_bool; simpl.
  - set (neg := match p1 with b :: _ => b =? ch_caret | [] => false end).
    pose proof (class_items_length (if neg then tail p1 else p1)) as Hl.
    destruct (class_items _). simpl in *. destruct neg, p1; simpl in *; lia.
  - case_bool; [destruct p1|]; simpl; lia.
Qed.

Lemma parse_rec_next fuel a p1 :
  parse_rec (S fuel) (a :: p1) = (next_tok a p1).1 :: parse_rec fuel (next_tok a p1).2.
Proof.
  unfold next_tok. cbn [parse_rec].
  repeat (case_bool; [done|]). case_bool.
  - by destruct (class_items _).
  - case_bool; [destruct p1; [|done]|done]. simpl. by destruct fuel.
Qed.

Lemma parse_rec_fuel n m p :
  (length p <= n)%nat -> (length p <= m)%nat -> parse_rec n p = parse_rec m p.
Proof.
  revert m p. induction n as [|n IH]; intros m [|a p1] Hn Hm; simpl in Hn, Hm;
    try lia; try by destruct m.
  destruct m as [|m]; [lia|]. rewrite !parse_rec_next. f_equal.
  pose proof (next_tok_length a p1). apply IH; lia.
Qed.

Lemma parse_cons a p1 : parse (a :: p1) = (next_tok a p1).1 :: parse (next_tok a p1).2.
Proof.
  unfold parse at 1. simpl length. rewrite parse_rec_next. f_equal.
  pose proof (next_tok_length a p1). apply parse_rec_fuel; lia.
Qed.

Lemma parse_star p : parse (ch_star :: p) = TStar :: parse p.
Proof. by rewrite parse_cons. Qed.

(** * The declarative semantics *)

Section GlobFacts.
Context (nc : bool).

(** A star stands for any prefix: what follows it matches some suffix. *)
Lemma glob_star_iff ts s :
  glob nc (TStar :: ts) s <-> exists u, u `suffix_of` s /\ glob nc ts u.
Proof.
  split.
  - intros H. remember (TStar :: ts) as ts' eqn:E. induction H; simplify_eq.
    + by exists s.
    + destruct IHglob as (u & Hu & Hg); [done|]. exists u. split; [by apply suffix_cons_r|done].
  - intros (u & [k ->] & Hg). induction k as [|c k IH]; simpl; by constructor.
Qed.

Lemma glob_stars_collapse ts s : glob nc (TStar :: TStar :: ts) s <-> glob nc (TStar :: ts) s.
Proof.
  rewrite !glob_star_iff. setoid_rewrite glob_star_iff. split.
  - intros (u & Hu & v & Hv & Hg). exists v. split; [by etrans|done].
  - intros (u & Hu & Hg). exists u. split; [done|]. by exists u.
Qed.

Lemma glob_one_iff t ts c s :
  t <> TStar -> glob nc (t :: ts) (c :: s) <-> tok_ok nc t c = true /\ glob nc ts s.
Proof.
  intros Ht. split.
  - intros H. inversion H; simplify_eq; done.
  - intros []. by constructor.
Qed.

Lemma glob_one_nil t ts : t <> TStar -> ~ glob nc (t :: ts) [].
Proof. intros Ht H. inversion H; simplify_eq. Qed.

Lemma glob_nil_iff s : glob nc [] s <-> s = [].
Proof. split; [by inversion 1|intros ->; constructor]. Qed.

(** The empty string is matched by stars only. *)
Lemma drop_stars_glob p : drop_stars p = [] <-> glob nc (parse p) [].
Proof.
  induction p as [|a p IH]; simpl.
  { split; [constructor|done]. }
  case_bool; [subst a|].
  - rewrite parse_star, IH. split; [by constructor|]. by inversion 1.
  - split; [done|]. rewrite parse_cons. intros H. exfalso. revert H. apply glob_one_nil.
    unfold next_tok. dec_bool. repeat case_bool; try by destruct p.
    by destruct (class_items _).
Qed.
End GlobFacts.

Lemma stars_cons t ts :
  stars (t :: ts) = stars ts + match t with TStar => 1 | _ => 0 end.
Proof. unfold stars. simpl. destruct t; simpl; rewrite ?zlen_cons; lia. Qed.

Lemma stars_nonneg ts : 0 <= stars ts.
Proof. unfold stars, zlen. lia. Qed.

(** Skipping repeated stars keeps the language and does not add stars. *)
Lemma skip_stars_spec p :
  exists q, skip_stars (ch_star :: p) = ch_star :: q /\ (length q <= length p)%nat /\
    (match q with b :: _ => b <> ch_star | [] => True end) /\
    stars (parse q) <= stars (parse p) /\
    forall nc s, glob nc (TStar :: parse p) s <-> glob nc (TStar :: parse q) s.
Proof.
  induction p as [|b p (q & Hq & Hlen & Hhd & Hst & Hg)].
  { exists []. repeat split; auto; lia. }
  change (skip_stars (ch_star :: b :: p)) with
    (if b =? ch_star then skip_stars (b :: p) else ch_star :: b :: p).
  destruct (Z.eqb_spec b ch_star) as [->|Hb].
  - exists q. rewrite Hq, parse_star, stars_cons. simpl length. repeat split; auto; try lia.
    + rewrite glob_stars_collapse. apply Hg.
    + rewrite glob_stars_collapse. apply Hg.
  - exists (b :: p). repeat split; auto; lia.
Qed.

Lemma parse_not_all_stars nc b q : b <> ch_star -> ~ glob nc (parse (b :: q)) [].
Proof. intros Hb H%drop_stars_glob. simpl in H. by case_bool_in H. Qed.

(** * The matcher decides the declarative semantics *)

(** What a call on pattern tokens [ts] and string [s] returns: the verdict, and
    a flag that may only be raised when no suffix of [s] matches either. *)
Definition match_post (nc : bool) (ts : list tok) (s : list Z) (r : result (bool * bool)) : Prop :=
  exists b sk, r = Ok (b, sk) /\ (b = true <-> glob nc ts s) /\
    (sk = true -> forall u, u `suffix_of` s -> ~ glob nc ts u).

(** The search loop of the star case. *)
Lemma star_loop_post nc ts s f :
  ~ glob nc ts [] ->
  (forall u, u `suffix_of` s -> u <> [] -> match_post nc ts u (f u false)) ->
  match_post nc (TStar :: ts) s (star_loop f s false).
Proof.
  intros Hnil. induction s as [|c s IH]; intros Hf.
  { assert (~ glob nc (TStar :: ts) []) as Hno.
    { rewrite glob_star_iff. intros (u & ->%suffix_nil_inv & Hg). done. }
    exists false, true. repeat split; try done. intros _ u ->%suffix_nil_inv. done. }
  simpl. destruct (Hf (c :: s)) as (b & sk & -> & Hb & Hsk); [done..|]. simpl.
  destruct b.
  { exists true, sk. repeat split; auto.
    - intros _. constructor. by apply Hb.
    - intros H. exfalso. apply (Hsk H (c :: s)); [done|by apply Hb]. }
  destruct sk.
  { assert (forall u, u `suffix_of` c :: s -> ~ glob nc (TStar :: ts) u) as Hno.
    { intros u Hu. rewrite glob_star_iff. intros (v & Hv & Hg). apply (Hsk eq_refl v); [|done]. by etrans. }
    exists false, true. repeat split; try done. intros H. by destruct (Hno (c :: s)). }
  destruct IH as (b & sk & -> & Hb' & Hsk').
  { intros u Hu. apply Hf. by apply suffix_cons_r. }
  assert (glob nc (TStar :: ts) s <-> glob nc (TStar :: ts) (c :: s)) as Hiff.
  { split; [by constructor|]. intros H. inversion H; simplify_eq; try done.
    exfalso. by discriminate (proj2 Hb). }
  exists b, sk. repeat split.
  - intros H. by apply Hiff, Hb'.
  - intros H. by apply Hb', Hiff.
  - intros H u Hu. destruct u as [|x u].
    + intros Hg. apply (Hsk' H []); [by exists s; rewrite app_nil_r|done].
    + apply suffix_cons_inv in Hu as [[= -> ->]|Hu]; [|by apply Hsk'].
      rewrite <- Hiff. by apply Hsk'.
Qed.

(** One token that stands for a character, then the rest of the loop. *)
Lemma one_post nc t ts c s r :
  t <> TStar -> tok_ok nc t c = true ->
  match_post nc ts s r -> match_post nc (t :: ts) (c :: s) r.
Proof.
  intros Ht Hok (b & sk & -> & Hb & Hsk). exists b, sk. repeat split.
  - intros H. apply glob_one_iff; [done|]. split; [done|by apply Hb].
  - intros [_ H]%glob_one_iff; [|done]. by apply Hb.
  - intros H u Hu. destruct u as [|x u]; [by apply glob_one_nil|].
    rewrite glob_one_iff by done. intros [_ Hg]. apply (Hsk H u); [|done].
    apply suffix_cons_inv in Hu as [[= -> ->]|Hu]; [done|].
    by eapply suffix_cons_l.
Qed.

Lemma one_fail nc t ts c s :
  t <> TStar -> tok_ok nc t c = false -> match_post nc (t :: ts) (c :: s) (Ok (false, false)).
Proof.
  intros Ht Hok. exists false, false. repeat split; try done.
  intros [H _]%glob_one_iff; [congruence|done].
Qed.

Lemma match_loop_post fuel nc p s nest :
  (length p < fuel)%nat -> s <> [] -> nest + stars (parse p) <= 1000 ->
  match_post nc (parse p) s (match_loop fuel p s nc false nest).
Proof.
  revert p s nest. induction fuel as [|fuel IH]; intros p s nest Hf Hs Hn; [lia|].
  destruct s as [|c s]; [done|]. destruct p as [|a p1].
  { exists false, false. repeat split; try done. by inversion 1. }
  assert (forall t p', t <> TStar -> tok_ok nc t c = true ->
    (length p' <= length p1)%nat -> parse (a :: p1) = t :: parse p' ->
    match_post nc (parse (a :: p1)) (c :: s)
      match s with
      | [] => Ok (match drop_stars p' with [] => true | _ => false end, false)
      | _ => match_loop fuel p' s nc false nest
      end) as Hnext.
  { intros t p' Ht Hok Hlen Hp. rewrite Hp in *. rewrite stars_cons in Hn.
    apply one_post; [done..|]. destruct s as [|d s].
    - exists (match drop_stars p' with [] => true | _ => false end), false.
      repeat split; try done; rewrite <- drop_stars_glob; by destruct (drop_stars p').
    - apply IH; [simpl in Hf; lia|done|destruct t; done || lia]. }
  cbn [match_loop]. destruct (Z.eqb_spec a ch_star) as [->|Ha1].
  - destruct (skip_stars_spec p1) as (q & -> & Hlen & Hhd & Hst & Hg).
    rewrite parse_star in *. rewrite stars_cons in Hn.
    assert (match_post nc (TStar :: parse q) (c :: s)
      match q with [] => Ok (true, false) | _ => star_loop (fun s0 skip0 =>
        if nest + 1 >? 1000 then Ok (false, skip0)
        else match_loop fuel q s0 nc skip0 (nest + 1)) (c :: s) false end) as Hp.
    { destruct q as [|b q].
      - exists true, false. repeat split; try done. intros _. apply glob_star_iff.
        exists []. split; [by exists (c :: s); rewrite app_nil_r|constructor].
      - apply star_loop_post; [by apply parse_not_all_stars|].
        intros u _ Hu. pose proof (stars_nonneg (parse (b :: q))).
        dec_bool. apply IH; [simpl in *; lia|done|lia]. }
    destruct Hp as (b & sk & Hr & Hb & Hsk). exists b, sk.
    split; [by destruct q|]. setoid_rewrite Hg. done.
  - destruct (Z.eqb_spec a ch_quest) as [->|Ha2].
    { eapply Hnext; [..|by rewrite parse_cons]; done. }
    destruct (Z.eqb_spec a ch_lbrack) as [->|Ha3].
    { pose proof (parse_cons ch_lbrack p1) as Hp. pose proof (next_tok_length ch_lbrack p1) as Hl.
      unfold next_tok in Hp, Hl. simpl in Hp, Hl.
      set (neg := match p1 with b :: _ => b =? ch_caret | [] => false end) in *.
      rewrite class_loop_items. destruct (class_items _) as [items rest]. simpl in *.
      destruct (xorb _ _) eqn:Hx.
      - eapply Hnext; [..|exact Hp]; try done.
      - rewrite Hp. by apply one_fail. }
    pose proof (parse_cons a p1) as Hp. pose proof (next_tok_length a p1) as Hl.
    unfold next_tok in Hp, Hl. rewrite (proj2 (Z.eqb_neq a _) Ha1) in *.
    rewrite (proj2 (Z.eqb_neq a _) Ha2), (proj2 (Z.eqb_neq a _) Ha3) in *.
    set (x := if a =? ch_backslash then match p1 with b :: p2 => (b, p2) | [] => (a, p1) end else (a, p1)).
    assert (parse (a :: p1) = TLit x.1 :: parse x.2 /\ (length x.2 <= length p1)%nat) as [Hx Hxl].
    { rewrite Hp. subst x. destruct (a =? ch_backslash), p1; simpl; (split; [done|lia]). }
    destruct x as [a' p']. simpl in Hx, Hxl.
    destruct (same_char nc a' c) eqn:Hsc.
    + eapply Hnext; [..|exact Hx]; try done.
    + rewrite Hx. by apply one_fail.
Qed.

(** The empty string: the loop is not entered. *)
Lemma match_loop_empty fuel nc p skip nest :
  match_loop fuel p [] nc skip nest = Ok (match p with [] => true | _ => false end, skip).
Proof. by destruct fuel, p. Qed.

(** The matcher on a non-empty string, from the loop's postcondition. *)
Lemma stringmatchlen_post p s nc :
  s <> [] -> stars (parse p) <= 1000 ->
  exists b, stringmatchlen p s nc = Ok b /\ (b = true <-> glob nc (parse p) s).
Proof.
  intros Hs Hst. unfold stringmatchlen, stringmatchlen_impl.
  destruct (match_loop_post (S (length p)) nc p s 0) as (b & sk & Hr & Hb & _); [lia|done|lia|].
  dec_bool. rewrite Hr. by exists b.
Qed.

(** C25: the matcher never faults, always returns, and on a non-empty string its
    verdict is the declarative meaning of the pattern - so neither the shared
    [skipLongerMatches] flag nor the early returns ever lose or invent a match -
    for every pattern with at most 1000 stars, case sensitive or not. *)
Theorem stringmatchlen_correct (p s : list Z) (nocase : bool) :
  s <> [] -> stars (parse p) <= 1000 ->
  exists b, stringmatchlen p s nocase = Ok b /\ (b = true <-> glob nocase (parse p) s).
Proof. apply stringmatchlen_post. Qed.

Lemma stringmatchlen_correct_witness :
  exists b, stringmatchlen [104; 42; 91; 97; 45; 99; 93; 42; 111] [104; 105; 98; 98; 111] false = Ok b
    /\ (b = true <-> glob false (parse [104; 42; 91; 97; 45; 99; 93; 42; 111]) [104; 105; 98; 98; 111]).
Proof. apply stringmatchlen_correct; [done | vm_compute; congruence]. Defined.

(** The empty string is matched by the empty pattern only: a pattern made of
    stars, which matches the empty sequence everywhere else, is refused. *)
Theorem stringmatchlen_empty_string (p : list Z) (nocase : bool) :
  stringmatchlen p [] nocase = Ok (match p with [] => true | _ => false end) /\
  (p = [ch_star] -> glob nocase (parse p) [] /\ stringmatchlen p [] nocase = Ok false).
Proof.
  split.
  - unfold stringmatchlen, stringmatchlen_impl. dec_bool. by rewrite match_loop_empty.
  - intros ->. split; [|done]. constructor. constructor.
Qed.

Lemma stringmatchlen_empty_string_witness :
  stringmatchlen [ch_star] [] false = Ok false /\ glob false (parse [ch_star]) [].
Proof. destruct (stringmatchlen_empty_string [ch_star] false) as [_ H]. by destruct (H eq_refl). Defined.

(** * Prefix matching *)

(** A trailing star absorbs any extension of the string. *)
Lemma glob_trailing_star nc ts s t :
  glob nc (ts ++ [TStar]) s -> glob nc (ts ++ [TStar]) (s ++ t).
Proof.
  intros H. remember (ts ++ [TStar]) as ts' eqn:E. revert ts E.
  induction H as [|ts' s H IH|ts' c s H IH|k ts' c s Hok H IH]; intros ts E.
  - by destruct ts.
  - destruct ts as [|x ts]; simplify_list_eq.
    + apply glob_nil_iff in H as ->. apply glob_star_iff. exists [].
      split; [by exists t; rewrite app_nil_r|constructor].
    + constructor. by eapply IH.
  - simpl. apply glob_star1. by eapply IH.
  - destruct ts as [|x ts]; simplify_list_eq. constructor; [done|]. by eapply IH.
Qed.

(** when [prefixmatch] accepts a prefix and the last token of the pattern is
    a star, every string that starts with that prefix matches the pattern: the
    promise its callers (the expired / key-prefix filters) rely on. *)
Theorem prefixmatch_sound (p s t : list Z) (nocase : bool) (ts : list tok) :
  parse p = ts ++ [TStar] -> s <> [] -> stars (parse p) <= 1000 ->
  prefixmatch p s nocase = Ok true -> stringmatchlen p (s ++ t) nocase = Ok true.
Proof.
  intros Hp Hs Hst Hpm. unfold prefixmatch in Hpm.
  apply bindr_ok in Hpm as ([m sk] & Hr & Hpm). destruct m; [|done].
  assert (glob nocase (parse p) s) as Hg.
  { destruct (stringmatchlen_post p s nocase) as (b & Hb & Hiff); [done..|].
    unfold stringmatchlen in Hb. rewrite Hr in Hb. simpl in Hb. apply Hiff. congruence. }
  destruct (stringmatchlen_post p (s ++ t) nocase) as (b & Hb & Hiff); [by destruct s|done|].
  rewrite Hb. f_equal. apply Hiff. rewrite Hp in *. by apply glob_trailing_star.
Qed.

Lemma prefixmatch_sound_witness :
  stringmatchlen [107; 63; 42] ([107; 49] ++ [50; 51]) true = Ok true.
Proof.
  apply (prefixmatch_sound _ _ _ _ [TLit 107; TAny]); [done|done|vm_compute; congruence|done].
Defined.

(** Without that condition the promise fails: in the unterminated class
    [[*] the final star is a class member, [prefixmatch] takes it for a
    wildcard, and accepts a prefix whose extensions do not match. *)
Theorem prefixmatch_unterminated_class :
  prefixmatch [ch_lbrack; ch_star] [ch_star] false = Ok true /\
  stringmatchlen [ch_lbrack; ch_star] [ch_star; ch_star] false = Ok false /\
  parse [ch_lbrack; ch_star] = [TClass false [IChar ch_star]].
Proof. by vm_compute. Qed.
