(* ===== verification/Dict.v ===== *)
(** Dict: the chained hash table of src/redis-stable/src/dict.c, with its two
    tables, incremental rehashing, automatic resizing, the entry-less storage of
    keys in [no_value] dictionaries, links, and two-phase unlinking.

    This file holds the definitions; DictProofs.v has the invariant and the
    refinement to a finite map, DictScan.v the cursor iteration, DictIter.v the
    iterators.

    Correspondence.  A bucket is the list of the entries its chain links.  An
    entry is what a tagged pointer stands for: a bare key ([EntryKey]), an
    allocated entry without value ([EntryNoValue]), or a full entry
    ([EntryNormal], whose value is [None] until it is written).  A link
    ([dictEntryLink], the address of the pointer to an entry) is the position of
    that pointer: table, bucket, place in the chain.  The callbacks of the type
    that read keys are fields of [dictType]; those that notify the owner
    (rehashingStarted, rehashingCompleted, bucketChanged) are recorded in
    [notes], in call order.  Allocation and release of memory, and the address
    bits of pointer tagging, are not modelled. *)

From Stdlib Require Import ZArith Lia Bool.
From stdpp Require Import base list numbers decidable.
From S2P Require Import Prelude Bytes.

Local Open Scope Z_scope.

(** * Data *)

Inductive dictEntry (SK V : Type) :=
  | EntryKey (k : SK)
  | EntryNoValue (k : SK)
  | EntryNormal (k : SK) (v : option V).
Arguments EntryKey {SK V} k.
Arguments EntryNoValue {SK V} k.
Arguments EntryNormal {SK V} k v.

#[global] Instance dictEntry_eq_dec {SK V} `{EqDecision SK, EqDecision V} :
  EqDecision (dictEntry SK V).
Proof. solve_decision. Defined.

(** The type of a dictionary: [K] are lookup keys, [SK] stored keys. *)
Record dictType (K SK V : Type) := {
  hashFunction : K -> Z;
  keyDup : SK -> SK;
  valDup : V -> V;
  keyCompare : K -> K -> bool;
  resizeAllowed : Z -> Z -> Z -> bool;  (** memory needed, used, size *)
  keyFromStoredKey : SK -> K;
  no_value : bool;
  force_full_rehash : bool;
}.
Arguments hashFunction {K SK V}.
Arguments keyDup {K SK V}.
Arguments valDup {K SK V}.
Arguments keyCompare {K SK V}.
Arguments resizeAllowed {K SK V}.
Arguments keyFromStoredKey {K SK V}.
Arguments no_value {K SK V}.
Arguments force_full_rehash {K SK V}.

(** What the callbacks of a type promise to the dictionary. *)
Class DictTypeLaws {K SK V} (ty : dictType K SK V) := {
  hash_range : forall k, 0 <= hashFunction ty k < 2 ^ 64;
  compare_spec : forall a b, keyCompare ty a b = true <-> a = b;
  dup_key : forall s, keyFromStoredKey ty (keyDup ty s) = keyFromStoredKey ty s;
}.

Inductive dictResizeEnable := DICT_RESIZE_ENABLE | DICT_RESIZE_AVOID | DICT_RESIZE_FORBID.

#[global] Instance resize_eq_dec : EqDecision dictResizeEnable.
Proof. solve_decision. Defined.

(** A call of a callback of the owner.  The first two callbacks ask the
    dictionary, through dictRehashingInfo, for the size it rehashes from. *)
Inductive note :=
  | RehashingStarted (from : Z)
  | RehashingCompleted (from : Z)
  | BucketChanged (delta : Z).

(** One hash table: [ht_table], [ht_used], [ht_size_exp] at one index. *)
Record ht (SK V : Type) := {
  ht_table : list (list (dictEntry SK V));
  ht_used : Z;
  ht_size_exp : Z;
}.
Arguments Build_ht {SK V}.
Arguments ht_table {SK V}.
Arguments ht_used {SK V}.
Arguments ht_size_exp {SK V}.

Record dict (SK V : Type) := {
  ht0 : ht SK V;
  ht1 : ht SK V;
  rehashidx : Z;
  pauserehash : Z;
  pauseAutoResize : Z;
  notes : list note;
}.
Arguments Build_dict {SK V}.
Arguments ht0 {SK V}.
Arguments ht1 {SK V}.
Arguments rehashidx {SK V}.
Arguments pauserehash {SK V}.
Arguments pauseAutoResize {SK V}.
Arguments notes {SK V}.

Record dictEntryLink := { l_table : Z; l_idx : Z; l_pos : nat }.

Definition HASHTABLE_MIN_FILL : Z := 8.
Definition dict_force_resize_ratio : Z := 4.
Definition DICT_HT_INITIAL_EXP : Z := 2.
Definition DICT_HT_INITIAL_SIZE : Z := 4.

Definition DICTHT_SIZE (exp : Z) : Z := if exp =? -1 then 0 else u64 (Z.shiftl 1 exp).
Definition DICTHT_SIZE_MASK (exp : Z) : Z := if exp =? -1 then 0 else u64 (DICTHT_SIZE exp - 1).

(** __builtin_clzl for a non-zero argument. *)
Definition clzl (x : Z) : Z := 63 - Z.log2 x.

Definition _dictNextExp (size : Z) : Z :=
  if size <=? DICT_HT_INITIAL_SIZE then DICT_HT_INITIAL_EXP
  else if size >=? LLONG_MAX then 63
  else 64 - clzl (u64 (size - 1)).

Section dict_code.
Context {K SK V : Type} (ty : dictType K SK V).
Local Abbreviation entry := (dictEntry SK V).
Local Abbreviation table := (ht SK V).
Local Abbreviation dict := (dict SK V).

(** * Entries *)

Definition entryIsKey (e : entry) : bool :=
  match e with EntryKey _ => true | _ => false end.

(** The tag test: entries without value are untagged pointers too. *)
Definition entryIsNormal (e : entry) : bool := negb (entryIsKey e).
Definition entryHasValue (e : entry) : bool := entryIsNormal e.

Definition dictGetKey (e : entry) : SK :=
  match e with EntryKey k | EntryNoValue k | EntryNormal k _ => k end.

Definition dictStoredKey2Key (k : SK) : K := keyFromStoredKey ty k.

Definition entry_key (e : entry) : K := dictStoredKey2Key (dictGetKey e).

Definition dictGetHash (k : K) : Z := hashFunction ty k.

(** The chain after its first entry. *)
Definition dictGetNext (c : list entry) : list entry :=
  match c with
  | [] => []
  | e :: rest => if entryIsKey e then [] else rest
  end.

Definition dictSetNext (e : entry) (next : list entry) : result (list entry) :=
  check negb (entryIsKey e) else AssertFailed;;
  Ok (e :: next).

Definition dictGetVal (e : entry) : result (option V) :=
  check entryHasValue e else AssertFailed;;
  match e with
  | EntryNormal _ v => Ok v
  | _ => Err OutOfBounds
  end.

(** * Tables *)

Definition empty_ht : table := {| ht_table := []; ht_used := 0; ht_size_exp := -1 |}.

Definition ht_get (d : dict) (i : Z) : table := if i =? 0 then ht0 d else ht1 d.

Definition set_ht0 (d : dict) (h : table) : dict :=
  {| ht0 := h; ht1 := ht1 d; rehashidx := rehashidx d; pauserehash := pauserehash d;
     pauseAutoResize := pauseAutoResize d; notes := notes d |}.

Definition set_ht1 (d : dict) (h : table) : dict :=
  {| ht0 := ht0 d; ht1 := h; rehashidx := rehashidx d; pauserehash := pauserehash d;
     pauseAutoResize := pauseAutoResize d; notes := notes d |}.

Definition ht_set (d : dict) (i : Z) (h : table) : dict :=
  if i =? 0 then set_ht0 d h else set_ht1 d h.

Definition set_rehashidx (d : dict) (i : Z) : dict :=
  {| ht0 := ht0 d; ht1 := ht1 d; rehashidx := i; pauserehash := pauserehash d;
     pauseAutoResize := pauseAutoResize d; notes := notes d |}.

Definition set_pauserehash (d : dict) (p : Z) : dict :=
  {| ht0 := ht0 d; ht1 := ht1 d; rehashidx := rehashidx d; pauserehash := p;
     pauseAutoResize := pauseAutoResize d; notes := notes d |}.

Definition notify (d : dict) (n : note) : dict :=
  {| ht0 := ht0 d; ht1 := ht1 d; rehashidx := rehashidx d; pauserehash := pauserehash d;
     pauseAutoResize := pauseAutoResize d; notes := notes d ++ [n] |}.

(** The first answer of dictRehashingInfo. *)
Definition rehashing_from (d : dict) : Z := DICTHT_SIZE (ht_size_exp (ht0 d)).

Definition dictBuckets (d : dict) : Z :=
  u64 (DICTHT_SIZE (ht_size_exp (ht0 d)) + DICTHT_SIZE (ht_size_exp (ht1 d))).
Definition dictSize (d : dict) : Z := u64 (ht_used (ht0 d) + ht_used (ht1 d)).
Definition dictIsRehashing (d : dict) : bool := negb (rehashidx d =? -1).
Definition dictPauseRehashing (d : dict) : dict := set_pauserehash d (u32 (pauserehash d + 1)).
Definition dictResumeRehashing (d : dict) : dict := set_pauserehash d (u32 (pauserehash d - 1)).

Definition _dictReset (d : dict) (htidx : Z) : dict := ht_set d htidx empty_ht.

Definition _dictInit : dict :=
  {| ht0 := empty_ht; ht1 := empty_ht; rehashidx := -1; pauserehash := 0;
     pauseAutoResize := 0; notes := [] |}.

Definition dictCreate : dict := _dictInit.

(** * Rehashing *)

(** Bucket of the new table for an entry of bucket [idx] of the old one. *)
Definition rehash_target (d : dict) (idx : Z) (e : entry) : Z :=
  if ht_size_exp (ht1 d) >? ht_size_exp (ht0 d)
  then Z.land (dictGetHash (entry_key e)) (DICTHT_SIZE_MASK (ht_size_exp (ht1 d)))
  else Z.land idx (DICTHT_SIZE_MASK (ht_size_exp (ht1 d))).

(** How an entry is linked in front of chain [b] of the new table. *)
Definition relink (e : entry) (b : list entry) : result (list entry) :=
  if no_value ty then
    match b with
    | [] => Ok [EntryKey (dictGetKey e)]
    | _ => if entryIsKey e then Ok (EntryNoValue (dictGetKey e) :: b) else dictSetNext e b
    end
  else dictSetNext e b.

Definition move_used (d : dict) (t1 : list (list entry)) : dict :=
  set_ht1
    (set_ht0 d {| ht_table := ht_table (ht0 d); ht_used := u64 (ht_used (ht0 d) - 1);
                  ht_size_exp := ht_size_exp (ht0 d) |})
    {| ht_table := t1; ht_used := u64 (ht_used (ht1 d) + 1);
       ht_size_exp := ht_size_exp (ht1 d) |}.

(** The [while (de)] loop of rehashEntriesInBucketAtIndex. *)
Fixpoint rehash_chain (d : dict) (idx : Z) (de : list entry) : result dict :=
  match de with
  | [] => Ok d
  | e :: rest =>
      let h := rehash_target d idx e in
      let* b := rd1 (ht_table (ht1 d)) h in
      let* b' := relink e b in
      let* t1 := wr1 (ht_table (ht1 d)) h b' in
      if entryIsKey e then Ok (move_used d t1)
      else rehash_chain (move_used d t1) idx rest
  end.

Definition rehashEntriesInBucketAtIndex (d : dict) (idx : Z) : result dict :=
  let* de := rd1 (ht_table (ht0 d)) idx in
  let* d := rehash_chain d idx de in
  let* t0 := wr1 (ht_table (ht0 d)) idx [] in
  Ok (set_ht0 d {| ht_table := t0; ht_used := ht_used (ht0 d);
                   ht_size_exp := ht_size_exp (ht0 d) |}).

Definition dictCheckRehashingCompleted (d : dict) : dict * bool :=
  if negb (ht_used (ht0 d) =? 0) then (d, false)
  else
    let d := notify d (RehashingCompleted (rehashing_from d)) in
    let d := notify d (BucketChanged (- DICTHT_SIZE (ht_size_exp (ht0 d)))) in
    let d := set_ht0 d (ht1 d) in
    let d := _dictReset d 1 in
    (set_rehashidx d (-1), true).

(** Whether rehashing is held back by the global resize setting. *)
Definition rehash_avoided (cr : dictResizeEnable) (s0 s1 : Z) : bool :=
  bool_decide (cr = DICT_RESIZE_AVOID) &&
  (((s1 >? s0) && (s1 <? u64 (dict_force_resize_ratio * s0))) ||
   ((s1 <? s0) && (s0 <? u64 (HASHTABLE_MIN_FILL * dict_force_resize_ratio * s1)))).

(** [while(d->ht_table[0][d->rehashidx] == NULL)]; the flag is the early return. *)
Fixpoint skip_empty (fuel : nat) (d : dict) (empty_visits : Z) : result (dict * Z * bool) :=
  match fuel with
  | O => Err OutOfFuel
  | S fuel =>
      let* b := rd1 (ht_table (ht0 d)) (rehashidx d) in
      match b with
      | [] =>
          let d := set_rehashidx d (rehashidx d + 1) in
          let ev := empty_visits - 1 in
          if ev =? 0 then Ok (d, ev, true) else skip_empty fuel d ev
      | _ => Ok (d, empty_visits, false)
      end
  end.

(** [while(n-- && d->ht_used[0] != 0)]; the flag is the early return. *)
Fixpoint rehash_loop (n : nat) (d : dict) (empty_visits : Z) : result (dict * bool) :=
  match n with
  | O => Ok (d, false)
  | S n =>
      if ht_used (ht0 d) =? 0 then Ok (d, false)
      else
        check (DICTHT_SIZE (ht_size_exp (ht0 d)) >? u64 (rehashidx d)) else AssertFailed;;
        let* (d, ev, early) := skip_empty (S (length (ht_table (ht0 d)))) d empty_visits in
        if (early : bool) then Ok (d, true)
        else
          let* d := rehashEntriesInBucketAtIndex d (rehashidx d) in
          rehash_loop n (set_rehashidx d (rehashidx d + 1)) ev
  end.

(** [n] is an [int] that no caller makes negative; [n*10] is computed at the
    declaration, before the early returns, and may overflow. *)
Definition dictRehash (cr : dictResizeEnable) (d : dict) (n : nat) : result (dict * bool) :=
  let* empty_visits := chk_i32 (Z.of_nat n * 10) in
  let s0 := DICTHT_SIZE (ht_size_exp (ht0 d)) in
  let s1 := DICTHT_SIZE (ht_size_exp (ht1 d)) in
  if bool_decide (cr = DICT_RESIZE_FORBID) || negb (dictIsRehashing d) then Ok (d, false)
  else if rehash_avoided cr s0 s1 then Ok (d, false)
  else
    let* (d, early) := rehash_loop n d empty_visits in
    if (early : bool) then Ok (d, true)
    else let '(d, completed) := dictCheckRehashingCompleted d in Ok (d, negb completed).

Definition _dictRehashStep (cr : dictResizeEnable) (d : dict) : result dict :=
  if pauserehash d =? 0 then let* (d, _) := dictRehash cr d 1 in Ok d else Ok d.

Definition _dictBucketRehash (cr : dictResizeEnable) (d : dict) (idx : Z) : result (dict * bool) :=
  if negb (pauserehash d =? 0) then Ok (d, false)
  else
    let s0 := DICTHT_SIZE (ht_size_exp (ht0 d)) in
    let s1 := DICTHT_SIZE (ht_size_exp (ht1 d)) in
    if bool_decide (cr = DICT_RESIZE_FORBID) || negb (dictIsRehashing d) then Ok (d, false)
    else if rehash_avoided cr s0 s1 then Ok (d, false)
    else
      let* d := rehashEntriesInBucketAtIndex d idx in
      Ok ((dictCheckRehashingCompleted d).1, true).

Definition _dictRehashStepIfNeeded (cr : dictResizeEnable) (d : dict) (visitedIdx : Z) : result dict :=
  if negb (dictIsRehashing d) || negb (pauserehash d =? 0) then Ok d
  else
    let* here :=
      if i64 visitedIdx >=? rehashidx d
      then let* b := rd1 (ht_table (ht0 d)) visitedIdx in
           Ok (match b with [] => false | _ => true end)
      else Ok false in
    if (here : bool)
    then let* (d, _) := _dictBucketRehash cr d visitedIdx in Ok d
    else let* (d, _) := dictRehash cr d 1 in Ok d.

(** * Resizing *)

(** [while (dictRehash(d, 1000))]. *)
Fixpoint rehash_fully (fuel : nat) (cr : dictResizeEnable) (d : dict) : result dict :=
  match fuel with
  | O => Err OutOfFuel
  | S fuel =>
      let* (d, more) := dictRehash cr d 1000 in
      if (more : bool) then rehash_fully fuel cr d else Ok d
  end.

(** [try_alloc] is [None] when malloc_failed is NULL, and otherwise tells
    whether ztrycalloc succeeds.  Results: DICT_OK?, *malloc_failed. *)
Definition _dictResize (cr : dictResizeEnable) (d : dict) (size : Z) (try_alloc : option bool)
  : result (dict * bool * bool) :=
  check negb (dictIsRehashing d) else AssertFailed;;
  let new_exp := _dictNextExp size in
  let newsize := DICTHT_SIZE new_exp in
  if (newsize <? size) || (u64 (newsize * 8) <? newsize) then Ok (d, false, false)
  else if new_exp =? ht_size_exp (ht0 d) then Ok (d, false, false)
  else if match try_alloc with Some ok => negb ok | None => false end then Ok (d, false, true)
  else
    let h := {| ht_table := replicate (Z.to_nat newsize) []; ht_used := 0; ht_size_exp := new_exp |} in
    let d := set_ht1 d h in
    let d := set_rehashidx d 0 in
    let d := notify d (RehashingStarted (rehashing_from d)) in
    let d := notify d (BucketChanged (DICTHT_SIZE (ht_size_exp (ht1 d)))) in
    if match ht_table (ht0 d) with [] => true | _ => ht_used (ht0 d) =? 0 end then
      let d := notify d (RehashingCompleted (rehashing_from d)) in
      let d := notify d (BucketChanged (- DICTHT_SIZE (ht_size_exp (ht0 d)))) in
      let d := set_ht0 d h in
      let d := _dictReset d 1 in
      Ok (set_rehashidx d (-1), true, false)
    else if force_full_rehash ty then
      let* d := rehash_fully (S (S (length (ht_table (ht0 d))))) cr d in
      Ok (d, true, false)
    else Ok (d, true, false).

Definition _dictExpand (cr : dictResizeEnable) (d : dict) (size : Z) (try_alloc : option bool)
  : result (dict * bool * bool) :=
  if dictIsRehashing d || (ht_used (ht0 d) >? size)
     || (DICTHT_SIZE (ht_size_exp (ht0 d)) >=? size)
  then Ok (d, false, false)
  else _dictResize cr d size try_alloc.

Definition dictExpand (cr : dictResizeEnable) (d : dict) (size : Z) : result (dict * bool) :=
  let* (d, ok, _) := _dictExpand cr d size None in
  Ok (d, ok).

Definition dictTryExpand (cr : dictResizeEnable) (d : dict) (size : Z) (alloc_ok : bool)
  : result (dict * bool) :=
  let* (d, _, malloc_failed) := _dictExpand cr d size (Some alloc_ok) in
  Ok (d, negb malloc_failed).

Definition dictShrink (cr : dictResizeEnable) (d : dict) (size : Z) : result (dict * bool) :=
  if dictIsRehashing d || (ht_used (ht0 d) >? size)
     || (DICTHT_SIZE (ht_size_exp (ht0 d)) <=? size)
  then Ok (d, false)
  else let* (d, ok, _) := _dictResize cr d size None in Ok (d, ok).

Definition dictTypeResizeAllowed (d : dict) (size : Z) : bool :=
  resizeAllowed ty (u64 (DICTHT_SIZE (_dictNextExp size) * 8)) (ht_used (ht0 d))
    (DICTHT_SIZE (ht_size_exp (ht0 d))).

Definition dictExpandIfNeeded (cr : dictResizeEnable) (d : dict) : result (dict * bool) :=
  if dictIsRehashing d then Ok (d, true)
  else
    let size := DICTHT_SIZE (ht_size_exp (ht0 d)) in
    let used := ht_used (ht0 d) in
    if size =? 0 then
      let* (d, _) := dictExpand cr d DICT_HT_INITIAL_SIZE in Ok (d, true)
    else if (bool_decide (cr = DICT_RESIZE_ENABLE) && (used >=? size))
            || (negb (bool_decide (cr = DICT_RESIZE_FORBID))
                && (used >=? u64 (dict_force_resize_ratio * size))) then
      if dictTypeResizeAllowed d (u64 (used + 1))
      then let* (d, _) := dictExpand cr d (u64 (used + 1)) in Ok (d, true)
      else Ok (d, true)
    else Ok (d, false).

Definition _dictExpandIfNeeded (cr : dictResizeEnable) (d : dict) : result (dict * bool) :=
  if pauseAutoResize d >? 0 then Ok (d, false) else dictExpandIfNeeded cr d.

Definition dictShrinkIfNeeded (cr : dictResizeEnable) (d : dict) : result (dict * bool) :=
  if dictIsRehashing d then Ok (d, true)
  else
    let size := DICTHT_SIZE (ht_size_exp (ht0 d)) in
    let used := ht_used (ht0 d) in
    if size <=? DICT_HT_INITIAL_SIZE then Ok (d, true)
    else if (bool_decide (cr = DICT_RESIZE_ENABLE)
             && (u64 (used * HASHTABLE_MIN_FILL) <=? size))
            || (negb (bool_decide (cr = DICT_RESIZE_FORBID))
                && (u64 (used * HASHTABLE_MIN_FILL * dict_force_resize_ratio) <=? size)) then
      if dictTypeResizeAllowed d used
      then let* (d, _) := dictShrink cr d used in Ok (d, true)
      else Ok (d, true)
    else Ok (d, false).

Definition _dictShrinkIfNeeded (cr : dictResizeEnable) (d : dict) : result dict :=
  if pauseAutoResize d >? 0 then Ok d
  else let* (d, _) := dictShrinkIfNeeded cr d in Ok d.

(** * Lookup *)

(** The [while(he)] walk: the place of the first entry with the key. *)
Fixpoint chain_find (key : K) (c : list entry) : option nat :=
  match c with
  | [] => None
  | e :: rest =>
      if keyCompare ty key (entry_key e) then Some O
      else if entryIsKey e then None
      else S <$> chain_find key rest
  end.

(** The entry a link points to. *)
Definition deref (d : dict) (l : dictEntryLink) : result entry :=
  let* c := rd1 (ht_table (ht_get d (l_table l))) (l_idx l) in
  match c !! l_pos l with Some e => Ok e | None => Err NullDeref end.

(** Overwrite the entry a link points to. *)
Definition put (d : dict) (l : dictEntryLink) (e : entry) : result dict :=
  let h := ht_get d (l_table l) in
  let* c := rd1 (ht_table h) (l_idx l) in
  check bool_decide (l_pos l < length c)%nat else NullDeref;;
  let* t := wr1 (ht_table h) (l_idx l) (<[l_pos l := e]> c) in
  Ok (ht_set d (l_table l)
        {| ht_table := t; ht_used := ht_used h; ht_size_exp := ht_size_exp h |}).

(** The [for (table ...)] loop of dictFindLinkInternal: the link of the key, and
    the bucket last looked at. *)
Fixpoint find_link_loop (tables : list Z) (d : dict) (key : K) (hash idx : Z)
    (bucket : option dictEntryLink) : result (option dictEntryLink * option dictEntryLink) :=
  match tables with
  | [] => Ok (None, bucket)
  | t :: ts =>
      if (t =? 0) && (i64 idx <? rehashidx d)
      then find_link_loop ts d key hash idx bucket
      else
        let h := ht_get d t in
        let idx := Z.land hash (DICTHT_SIZE_MASK (ht_size_exp h)) in
        let* c := rd1 (ht_table h) idx in
        let bucket := Some {| l_table := t; l_idx := idx; l_pos := 0 |} in
        match chain_find key c with
        | Some p => Ok (Some {| l_table := t; l_idx := idx; l_pos := p |}, bucket)
        | None => find_link_loop ts d key hash idx bucket
        end
  end.

(** [want_bucket] tells whether the caller passed a bucket pointer. *)
Definition dictFindLinkInternal (cr : dictResizeEnable) (d : dict) (key : K) (want_bucket : bool)
  : result (dict * option dictEntryLink * option dictEntryLink) :=
  if negb want_bucket && (dictSize d =? 0) then Ok (d, None, None)
  else
    let hash := dictGetHash key in
    let idx := Z.land hash (DICTHT_SIZE_MASK (ht_size_exp (ht0 d))) in
    let* d := _dictRehashStepIfNeeded cr d idx in
    let tables := if dictIsRehashing d then [0; 1] else [0] in
    let* (link, bucket) := find_link_loop tables d key hash idx None in
    Ok (d, link, bucket).

Definition dictFindLink (cr : dictResizeEnable) (d : dict) (key : K) (want_bucket : bool)
  : result (dict * option dictEntryLink * option dictEntryLink) :=
  if dictSize d =? 0 then Ok (d, None, None)
  else dictFindLinkInternal cr d key want_bucket.

Definition dictFind (cr : dictResizeEnable) (d : dict) (key : K) : result (dict * option entry) :=
  let* (d, link, _) := dictFindLink cr d key false in
  match link with
  | Some l => let* e := deref d l in Ok (d, Some e)
  | None => Ok (d, None)
  end.

Definition dictFetchValue (cr : dictResizeEnable) (d : dict) (key : K)
  : result (dict * option (option V)) :=
  let* (d, he) := dictFind cr d key in
  match he with
  | Some e => let* v := dictGetVal e in Ok (d, Some v)
  | None => Ok (d, None)
  end.

(** * Insertion *)

(** The search loop of dictFindLinkForInsert: the existing entry, or the index
    of the last bucket searched. *)
Fixpoint insert_loop (tables : list Z) (d : dict) (key : K) (hash idx : Z)
  : result (dictEntryLink + Z) :=
  match tables with
  | [] => Ok (inr idx)
  | t :: ts =>
      if (t =? 0) && (i64 idx <? rehashidx d) then insert_loop ts d key hash idx
      else
        let h := ht_get d t in
        let idx := Z.land hash (DICTHT_SIZE_MASK (ht_size_exp h)) in
        let* c := rd1 (ht_table h) idx in
        match chain_find key c with
        | Some p => Ok (inl {| l_table := t; l_idx := idx; l_pos := p |})
        | None => if negb (dictIsRehashing d) then Ok (inr idx)
                  else insert_loop ts d key hash idx
        end
  end.

Definition ht_target (d : dict) : Z := if dictIsRehashing d then 1 else 0.

(** [inl]: the key exists, there; [inr]: the bucket to insert it in. *)
Definition dictFindLinkForInsert (cr : dictResizeEnable) (d : dict) (key : K)
  : result (dict * (dictEntryLink + dictEntryLink)) :=
  let hash := dictGetHash key in
  let idx := Z.land hash (DICTHT_SIZE_MASK (ht_size_exp (ht0 d))) in
  let* d := _dictRehashStepIfNeeded cr d idx in
  let* (d, _) := _dictExpandIfNeeded cr d in
  let* r := insert_loop [0; 1] d key hash idx in
  match r with
  | inl existing => Ok (d, inl existing)
  | inr idx => Ok (d, inr {| l_table := ht_target d; l_idx := idx; l_pos := 0 |})
  end.

Definition dictInsertKeyAtLink (d : dict) (key : SK) (l : dictEntryLink)
  : result (dict * dictEntryLink) :=
  let htidx := ht_target d in
  let h := ht_get d htidx in
  check (l_table l =? htidx) && (0 <=? l_idx l)
        && (l_idx l <=? DICTHT_SIZE_MASK (ht_size_exp h)) else AssertFailed;;
  let* b := rd1 (ht_table h) (l_idx l) in
  let entry :=
    if no_value ty then match b with [] => EntryKey key | _ => EntryNoValue key end
    else EntryNormal key None in
  let* t := wr1 (ht_table h) (l_idx l) (entry :: b) in
  Ok (ht_set d htidx {| ht_table := t; ht_used := u64 (ht_used h + 1);
                        ht_size_exp := ht_size_exp h |},
      {| l_table := htidx; l_idx := l_idx l; l_pos := 0 |}).

(** [inl]: NULL is returned and [*existing] is set; [inr]: the new entry. *)
Definition dictAddRaw (cr : dictResizeEnable) (d : dict) (key : SK)
  : result (dict * (dictEntryLink + dictEntryLink)) :=
  let* (d, position) := dictFindLinkForInsert cr d (dictStoredKey2Key key) in
  match position with
  | inl existing => Ok (d, inl existing)
  | inr bucket =>
      let* (d, e) := dictInsertKeyAtLink d (keyDup ty key) bucket in
      Ok (d, inr e)
  end.

Definition dictSetVal (d : dict) (l : dictEntryLink) (val : V) : result dict :=
  let* e := deref d l in
  check entryHasValue e else AssertFailed;;
  match e with
  | EntryNormal k _ => put d l (EntryNormal k (Some (valDup ty val)))
  | _ => Err OutOfBounds
  end.

Definition dictAdd (cr : dictResizeEnable) (d : dict) (key : SK) (val : V) : result (dict * bool) :=
  let* (d, r) := dictAddRaw cr d key in
  match r with
  | inl _ => Ok (d, false)
  | inr e =>
      let* d := if negb (no_value ty) then dictSetVal d e val else Ok d in
      Ok (d, true)
  end.

Definition dictReplace (cr : dictResizeEnable) (d : dict) (key : SK) (val : V)
  : result (dict * bool) :=
  let* (d, r) := dictAddRaw cr d key in
  match r with
  | inr e => let* d := dictSetVal d e val in Ok (d, true)
  | inl existing =>
      let* e := deref d existing in
      let* _ := dictGetVal e in
      let* d := dictSetVal d existing val in
      Ok (d, false)
  end.

Definition dictAddOrFind (cr : dictResizeEnable) (d : dict) (key : SK)
  : result (dict * dictEntryLink) :=
  let* (d, r) := dictAddRaw cr d key in
  match r with inl e | inr e => Ok (d, e) end.

Definition exps_eqb (a b : dict) : bool :=
  (ht_size_exp (ht0 a) =? ht_size_exp (ht0 b)) && (ht_size_exp (ht1 a) =? ht_size_exp (ht1 b)).

(** [rawKey] is what the callbacks see when they are handed a stored key where
    they expect a lookup key, as the last search of this function does. *)
Definition dictSetKeyAtLink (rawKey : SK -> K) (cr : dictResizeEnable) (d : dict) (key : SK)
    (link : option dictEntryLink) (newItem : bool) : result dict :=
  let addedKey := keyDup ty key in
  if newItem then
    let* (d', _) := dictExpandIfNeeded cr d in
    let* (d', l) :=
      match link with
      | Some l =>
          if exps_eqb d d' then Ok (d', l)
          else
            let* (d', found, bucket) :=
              dictFindLinkInternal cr d' (dictStoredKey2Key key) true in
            match bucket, found with
            | Some b, None => Ok (d', b)
            | _, _ => Err AssertFailed
            end
      | None =>
          let* (d', found, bucket) :=
            dictFindLinkInternal cr d' (dictStoredKey2Key key) true in
          match bucket, found with
          | Some b, None => Ok (d', b)
          | _, _ => Err AssertFailed
          end
      end in
    let* (d', _) := dictInsertKeyAtLink d' addedKey l in
    Ok d'
  else
    let* (d, l) :=
      match link with
      | Some l => Ok (d, l)
      | None =>
          let* (d, found, _) := dictFindLink cr d (rawKey key) false in
          match found with Some l => Ok (d, l) | None => Err AssertFailed end
      end in
    let* e := deref d l in
    put d l match e with
            | EntryKey _ => EntryKey addedKey
            | EntryNoValue _ => EntryNoValue addedKey
            | EntryNormal _ v => EntryNormal addedKey v
            end.

(** * Deletion *)

(** The chain without its entry at place [p]. *)
Fixpoint chain_unlink (p : nat) (c : list entry) : result (list entry) :=
  match p, c with
  | O, c => Ok (dictGetNext c)
  | S p, e :: rest => let* rest' := chain_unlink p rest in dictSetNext e rest'
  | S _, [] => Err NullDeref
  end.

(** Unlink the entry at place [p] of bucket [idx] of table [t]. *)
Definition unlink_at (d : dict) (t idx : Z) (p : nat) : result dict :=
  let h := ht_get d t in
  let* c := rd1 (ht_table h) idx in
  let* c' := chain_unlink p c in
  let* tab := wr1 (ht_table h) idx c' in
  Ok (ht_set d t {| ht_table := tab; ht_used := u64 (ht_used h - 1);
                    ht_size_exp := ht_size_exp h |}).

Fixpoint delete_loop (tables : list Z) (cr : dictResizeEnable) (d : dict) (key : K) (h idx : Z)
  : result (dict * option entry) :=
  match tables with
  | [] => Ok (d, None)
  | t :: ts =>
      if (t =? 0) && (i64 idx <? rehashidx d) then delete_loop ts cr d key h idx
      else
        let idx := Z.land h (DICTHT_SIZE_MASK (ht_size_exp (ht_get d t))) in
        let* c := rd1 (ht_table (ht_get d t)) idx in
        match chain_find key c with
        | Some p =>
            let* he := deref d {| l_table := t; l_idx := idx; l_pos := p |} in
            let* d := unlink_at d t idx p in
            let* d := _dictShrinkIfNeeded cr d in
            Ok (d, Some he)
        | None => if negb (dictIsRehashing d) then Ok (d, None)
                  else delete_loop ts cr d key h idx
        end
  end.

Definition dictGenericDelete (cr : dictResizeEnable) (d : dict) (key : K)
  : result (dict * option entry) :=
  if dictSize d =? 0 then Ok (d, None)
  else
    let h := dictGetHash key in
    let idx := Z.land h (DICTHT_SIZE_MASK (ht_size_exp (ht0 d))) in
    let* d := _dictRehashStepIfNeeded cr d idx in
    delete_loop [0; 1] cr d key h idx.

Definition dictDelete (cr : dictResizeEnable) (d : dict) (key : K) : result (dict * bool) :=
  let* (d, he) := dictGenericDelete cr d key in
  Ok (d, match he with Some _ => true | None => false end).

Definition dictUnlink (cr : dictResizeEnable) (d : dict) (key : K) : result (dict * option entry) :=
  dictGenericDelete cr d key.

Fixpoint unlink_find_loop (tables : list Z) (d : dict) (key : K) (h : Z)
  : result (dict * option dictEntryLink) :=
  match tables with
  | [] => Ok (d, None)
  | t :: ts =>
      let idx := Z.land h (DICTHT_SIZE_MASK (ht_size_exp (ht_get d t))) in
      if (t =? 0) && (i64 idx <? rehashidx d) then unlink_find_loop ts d key h
      else
        let* c := rd1 (ht_table (ht_get d t)) idx in
        match chain_find key c with
        | Some p =>
            Ok (dictPauseRehashing d, Some {| l_table := t; l_idx := idx; l_pos := p |})
        | None => if negb (dictIsRehashing d) then Ok (d, None)
                  else unlink_find_loop ts d key h
        end
  end.

Definition dictTwoPhaseUnlinkFind (cr : dictResizeEnable) (d : dict) (key : K)
  : result (dict * option dictEntryLink) :=
  if dictSize d =? 0 then Ok (d, None)
  else
    let* d := if dictIsRehashing d then _dictRehashStep cr d else Ok d in
    unlink_find_loop [0; 1] d key (dictGetHash key).

Definition dictTwoPhaseUnlinkFree (cr : dictResizeEnable) (d : dict) (plink : option dictEntryLink)
  : result dict :=
  match plink with
  | None => Ok d
  | Some l =>
      let* c := rd1 (ht_table (ht_get d (l_table l))) (l_idx l) in
      match c !! l_pos l with
      | None => Ok d
      | Some _ =>
          let* d := unlink_at d (l_table l) (l_idx l) (l_pos l) in
          let* d := _dictShrinkIfNeeded cr d in
          Ok (dictResumeRehashing d)
      end
  end.

(** * Emptying *)

(** The entries a chain walk visits. *)
Fixpoint chain_walk (c : list entry) : list entry :=
  match c with
  | [] => []
  | e :: rest => e :: if entryIsKey e then [] else chain_walk rest
  end.

(** The loop of _dictClear: the entries released, in order. *)
Fixpoint clear_loop (buckets : list (list entry)) (used : Z) : list entry :=
  match buckets with
  | [] => []
  | b :: bs =>
      if used >? 0
      then chain_walk b ++ clear_loop bs (u64 (used - zlen (chain_walk b)))
      else []
  end.

Definition _dictClear (d : dict) (htidx : Z) : dict * list entry :=
  let h := ht_get d htidx in
  (_dictReset d htidx, clear_loop (ht_table h) (ht_used h)).

(** The emptied dictionary and the entries released. *)
Definition dictEmpty (d : dict) : dict * list entry :=
  let d := if dictIsRehashing d then notify d (RehashingCompleted (rehashing_from d)) else d in
  let d := notify d (BucketChanged (- dictBuckets d)) in
  let '(d, freed0) := _dictClear d 0 in
  let '(d, freed1) := _dictClear d 1 in
  ({| ht0 := ht0 d; ht1 := ht1 d; rehashidx := -1; pauserehash := 0; pauseAutoResize := 0;
      notes := notes d |}, freed0 ++ freed1).

(** The calls of the owner's callbacks, and the entries released. *)
Definition dictRelease (d : dict) : list note * list entry :=
  let d := if dictIsRehashing d then notify d (RehashingCompleted (rehashing_from d)) else d in
  let d := notify d (BucketChanged (- dictBuckets d)) in
  let '(d, freed0) := _dictClear d 0 in
  let '(d, freed1) := _dictClear d 1 in
  (notes d, freed0 ++ freed1).

End dict_code.
