(* ===== verification/DictProofs.v ===== *)
(** DictProofs: the invariant of the hash table and its refinement to a finite
    map.

    [dict_wf] says that both tables are well formed (power-of-two sizes, right
    buckets, right counters, bare keys only at the end of a chain), that keys are
    distinct across the two tables and that during rehashing the buckets before
    [rehashidx] are empty.  [maintains] relates a dictionary to what background
    work (rehashing steps, resizing) turns it into: still well formed, same
    contents.  Every operation is proved to return, without fault, a dictionary
    whose contents are those of the abstract map operation. *)

From Stdlib Require Import ZArith Lia Bool.
From stdpp Require Import base list numbers decidable gmap.
From S2P Require Import Prelude Bytes Dict.

Local Open Scope Z_scope.

(** * Lists of buckets *)

Lemma concat_insert_perm {A} (t : list (list A)) i c c' :
  t !! i = Some c ->
  exists rest, concat t ≡ₚ c ++ rest /\ concat (<[i := c']> t) ≡ₚ c' ++ rest.
Proof.
  intros Hi. exists (concat (take i t) ++ concat (drop (S i) t)).
  pose proof (lookup_lt_Some _ _ _ Hi).
  rewrite (insert_take_drop t i c') by done.
  rewrite <- (take_drop_middle t i c Hi) at 1. rewrite !concat_app. simpl.
  split; apply Permutation_app_swap_app.
Qed.

Lemma concat_nil_iff {A} (t : list (list A)) :
  concat t = [] <-> forall i c, t !! i = Some c -> c = [].
Proof.
  induction t as [|b t IH]; simpl.
  - split; [by intros ? []|done].
  - split.
    + intros [-> Ht]%app_eq_nil [|i] c Hc; simplify_eq/=; [done|]. by eapply IH.
    + intros H. rewrite (H 0%nat b) by done. simpl. apply IH. intros i c Hc. by apply (H (S i)).
Qed.

Lemma elem_of_concat {A} (t : list (list A)) x :
  x ∈ concat t <-> exists i c, t !! i = Some c /\ x ∈ c.
Proof.
  induction t as [|b t IH]; simpl.
  - split; [by intros ?%not_elem_of_nil|by intros (? & ? & ? & _)].
  - rewrite elem_of_app, IH. split.
    + intros [H|(i & c & Hi & Hx)]; [by exists 0%nat, b|by exists (S i), c].
    + intros ([|i] & c & Hi & Hx); simplify_eq/=; [by left|right; eauto].
Qed.

(** * Sizes and masks *)

Definition exp_ok (e : Z) : Prop := 0 <= e <= 60.

Lemma exp_pow e : exp_ok e -> 1 <= 2 ^ e <= 2 ^ 60.
Proof.
  unfold exp_ok. intros He. pose proof (Z.pow_pos_nonneg 2 e).
  split; [lia|]. apply Z.pow_le_mono_r; lia.
Qed.

Lemma DICTHT_SIZE_ok e : exp_ok e -> DICTHT_SIZE e = 2 ^ e.
Proof.
  intros He. pose proof (exp_pow e He). unfold DICTHT_SIZE, exp_ok in *. dec_bool.
  rewrite Z.shiftl_mul_pow2, Z.mul_1_l by lia. apply wrapU_small. lia.
Qed.

Lemma DICTHT_SIZE_MASK_ok e : exp_ok e -> DICTHT_SIZE_MASK e = 2 ^ e - 1.
Proof.
  intros He. pose proof (exp_pow e He). unfold DICTHT_SIZE_MASK.
  rewrite DICTHT_SIZE_ok by done. unfold exp_ok in *. dec_bool. apply wrapU_small. lia.
Qed.

Lemma land_mask h e : exp_ok e -> Z.land h (DICTHT_SIZE_MASK e) = h mod 2 ^ e.
Proof.
  intros He. rewrite DICTHT_SIZE_MASK_ok by done.
  replace (2 ^ e - 1) with (Z.ones e) by (rewrite Z.ones_equiv; lia).
  apply Z.land_ones. by destruct He.
Qed.

Lemma bucket_range h e : exp_ok e -> 0 <= Z.land h (DICTHT_SIZE_MASK e) < 2 ^ e.
Proof.
  intros He. rewrite land_mask by done. apply Z.mod_pos_bound. pose proof (exp_pow e He). lia.
Qed.

(** Shrinking: the bucket in the small table follows from the one in the large. *)
Lemma land_mask_shrink h e0 e1 :
  exp_ok e0 -> exp_ok e1 -> e1 <= e0 ->
  Z.land (Z.land h (DICTHT_SIZE_MASK e0)) (DICTHT_SIZE_MASK e1) = Z.land h (DICTHT_SIZE_MASK e1).
Proof.
  intros H0 H1 Hle. rewrite !land_mask by done. unfold exp_ok in *.
  replace (2 ^ e0) with (2 ^ e1 * 2 ^ (e0 - e1)) by (rewrite <- Z.pow_add_r by lia; f_equal; lia).
  rewrite Z.rem_mul_r by (pose proof (Z.pow_pos_nonneg 2 e1); pose proof (Z.pow_pos_nonneg 2 (e0 - e1)); lia).
  rewrite Z.mul_comm, Z_mod_plus_full. apply Zmod_mod.
Qed.

Lemma nextExp_range size : 0 <= size < 2 ^ 64 -> 2 <= _dictNextExp size <= 64.
Proof.
  intros Hs. unfold _dictNextExp, DICT_HT_INITIAL_SIZE, DICT_HT_INITIAL_EXP, clzl.
  destruct (Z.leb_spec size 4); [lia|]. rewrite Z.geb_leb.
  destruct (Z.leb_spec LLONG_MAX size); [lia|].
  rewrite wrapU_small by lia.
  assert (0 < Z.log2 (size - 1)) by (apply Z.log2_pos; lia).
  assert (Z.log2 (size - 1) < 64) by (apply Z.log2_lt_pow2; lia). lia.
Qed.

(** The new size is the least power of two, at least 4, that holds [size]. *)
Lemma nextExp_holds size :
  0 <= size < LLONG_MAX -> exp_ok (_dictNextExp size) -> size <= 2 ^ _dictNextExp size.
Proof.
  intros Hs He. revert He. unfold _dictNextExp, DICT_HT_INITIAL_SIZE, DICT_HT_INITIAL_EXP, clzl.
  destruct (Z.leb_spec size 4); [intros _; lia|]. rewrite Z.geb_leb.
  destruct (Z.leb_spec LLONG_MAX size); [lia|]. rewrite wrapU_small by lia. intros _.
  destruct (Z.log2_spec (size - 1)) as [_ Hlt]; [lia|].
  replace (64 - (63 - Z.log2 (size - 1))) with (Z.succ (Z.log2 (size - 1))) by lia. lia.
Qed.

(** What an owner that listens to the callbacks can know: the number of
    buckets, and the size being rehashed from if rehashing is under way. *)
Abbreviation ledger := (Z * option Z)%type.

(** * The invariant *)

Section dict_proofs.
Context {K SK V : Type} `{Countable K}.
Context (ty : dictType K SK V) {laws : DictTypeLaws ty}.
Local Abbreviation entry := (dictEntry SK V).
Local Abbreviation table := (ht SK V).
Local Abbreviation dict := (dict SK V).
Local Abbreviation ekey := (entry_key ty).

(** What an entry stores, whatever its representation. *)
Definition content (e : entry) : SK * option V :=
  (dictGetKey e, match e with EntryNormal _ v => v | _ => None end).

Definition elems (h : table) : list entry := concat (ht_table h).
Definition dict_elems (d : dict) : list entry := elems (ht0 d) ++ elems (ht1 d).
Definition contents (l : list entry) : list (SK * option V) := map content l.
Definition ckey (c : SK * option V) : K := keyFromStoredKey ty c.1.

(** The representation an entry has in this type of dictionary. *)
Definition kind_ok (e : entry) : Prop :=
  match e with EntryNormal _ _ => no_value ty = false | _ => no_value ty = true end.

Fixpoint chain_ok (c : list entry) : Prop :=
  match c with
  | [] => True
  | e :: rest => kind_ok e /\ (entryIsKey e = true -> rest = []) /\ chain_ok rest
  end.

Definition bucket_of (exp : Z) (e : entry) : Z :=
  Z.land (dictGetHash ty (ekey e)) (DICTHT_SIZE_MASK exp).

Definition bucket_ok (exp : Z) (i : nat) (c : list entry) : Prop :=
  chain_ok c /\ forall e, e ∈ c -> bucket_of exp e = Z.of_nat i.

Record ht_live (h : table) : Prop := {
  live_exp : exp_ok (ht_size_exp h);
  live_len : zlen (ht_table h) = 2 ^ ht_size_exp h;
  live_used : ht_used h = zlen (elems h);
  live_bucket : forall i c, ht_table h !! i = Some c -> bucket_ok (ht_size_exp h) i c;
}.

Definition ht_wf (h : table) : Prop := h = empty_ht \/ ht_live h.

Record rehash_wf (d : dict) : Prop := {
  rw_live0 : ht_live (ht0 d);
  rw_live1 : ht_live (ht1 d);
  rw_exps : ht_size_exp (ht0 d) <> ht_size_exp (ht1 d);
  rw_idx : 0 <= rehashidx d <= zlen (ht_table (ht0 d));
  rw_moved : forall i, Z.of_nat i < rehashidx d -> ht_table (ht0 d) !! i = Some [];
}.

(** Same keys, each once, and no more entries than the counters can count. *)
Definition keys_wf (d : dict) : Prop :=
  NoDup (map ekey (dict_elems d)) /\ zlen (dict_elems d) < 2 ^ 64.

Record dict_wf (d : dict) : Prop := {
  wf_tables : (rehashidx d = -1 /\ ht_wf (ht0 d) /\ ht1 d = empty_ht) \/ rehash_wf d;
  wf_keys : keys_wf d;
}.

(** What the owner has been told about the number of buckets, less the number
    of buckets there are. *)
Definition note_delta (n : note) : Z := match n with BucketChanged x => x | _ => 0 end.
Definition note_sum (l : list note) : Z := foldr (fun n a => note_delta n + a) 0 l.
Definition bucket_drift (d : dict) : Z :=
  note_sum (notes d) - (DICTHT_SIZE (ht_size_exp (ht0 d)) + DICTHT_SIZE (ht_size_exp (ht1 d))).

Definition hear1 (g : ledger) (n : note) : option ledger :=
  match n, g.2 with
  | BucketChanged x, r => Some (g.1 + x, r)
  | RehashingStarted from, None => Some (g.1, Some from)
  | RehashingCompleted from, Some from' => if from =? from' then Some (g.1, None) else None
  | _, _ => None
  end.

Fixpoint hear (g : ledger) (l : list note) : option ledger :=
  match l with
  | [] => Some g
  | n :: l => match hear1 g n with Some g => hear g l | None => None end
  end.

Definition book (d : dict) : ledger :=
  (DICTHT_SIZE (ht_size_exp (ht0 d)) + DICTHT_SIZE (ht_size_exp (ht1 d)),
   if dictIsRehashing d then Some (rehashing_from d) else None).

(** The callbacks called on the way from [d] to [d'] tell the owner the
    difference, in an order that makes sense. *)
Definition told (d d' : dict) : Prop :=
  exists l, notes d' = notes d ++ l /\ hear (book d) l = Some (book d').

Lemma hear_app g l1 l2 :
  hear g (l1 ++ l2) = match hear g l1 with Some g => hear g l2 | None => None end.
Proof. revert g. induction l1 as [|n l1 IH]; intros g; simpl; [done|]. by destruct (hear1 g n). Qed.

Lemma told_same d d' : notes d' = notes d -> book d' = book d -> told d d'.
Proof. intros Hn Hb. exists []. by rewrite app_nil_r, Hb. Qed.

Lemma told_trans d1 d2 d3 : told d1 d2 -> told d2 d3 -> told d1 d3.
Proof.
  intros (l1 & N1 & H1) (l2 & N2 & H2). exists (l1 ++ l2). by rewrite hear_app, H1, N2, N1, app_assoc.
Qed.

Lemma note_sum_app l1 l2 : note_sum (l1 ++ l2) = note_sum l1 + note_sum l2.
Proof. induction l1 as [|n l1 IH]; simpl; [done|]. rewrite IH. lia. Qed.

Lemma hear_sum g l g' : hear g l = Some g' -> g'.1 = g.1 + note_sum l.
Proof.
  revert g. induction l as [|n l IH]; intros g; simpl; [intros [= <-]; lia|].
  destruct (hear1 g n) as [g1|] eqn:E; [|done]. intros ->%IH.
  destruct n, g as [b [f|]]; simpl in *; repeat case_match; simplify_eq/=; lia.
Qed.

Lemma told_drift d d' : told d d' -> bucket_drift d' = bucket_drift d.
Proof.
  intros (l & Hn & Hh%hear_sum). unfold bucket_drift. rewrite Hn, note_sum_app. simpl in Hh. lia.
Qed.

(** Background work: same contents, still well formed, same pauses. *)
Record maintains (d d' : dict) : Prop := {
  mt_wf : dict_wf d';
  mt_contents : contents (dict_elems d') ≡ₚ contents (dict_elems d);
  mt_pause : pauserehash d' = pauserehash d;
  mt_auto : pauseAutoResize d' = pauseAutoResize d;
  mt_told : told d d';
  mt_live : ht_live (ht0 d) -> ht_live (ht0 d');
}.

Lemma maintains_refl d : dict_wf d -> maintains d d.
Proof. constructor; try done. by apply told_same. Qed.

Lemma maintains_trans d1 d2 d3 : maintains d1 d2 -> maintains d2 d3 -> maintains d1 d3.
Proof.
  intros [? C1 P1 A1 B1 L1] [? C2 P2 A2 B2 L2].
  constructor; [done|by rewrite C2|congruence..|by eapply told_trans|by auto].
Qed.

Lemma rehashing_wf d : dict_wf d -> dictIsRehashing d = true -> rehash_wf d.
Proof.
  intros [[(E & _)|Hr] _] Hb; [|done]. unfold dictIsRehashing in Hb. by rewrite E in Hb.
Qed.

Lemma rehashing_false (d : dict) : dictIsRehashing d = false <-> rehashidx d = -1.
Proof. unfold dictIsRehashing. rewrite negb_false_iff. apply Z.eqb_eq. Qed.

Lemma rehash_wf_rehashing d : rehash_wf d -> dictIsRehashing d = true.
Proof.
  intros Hr. apply not_false_iff_true. rewrite rehashing_false. pose proof (rw_idx _ Hr). lia.
Qed.

(** ** Contents *)

Lemma contents_app l1 l2 : contents (l1 ++ l2) = contents l1 ++ contents l2.
Proof. apply map_app. Qed.

Lemma zlen_contents l : zlen (contents l) = zlen l.
Proof. unfold zlen, contents. by rewrite length_map. Qed.

Lemma keys_of_contents l : map ekey l = map ckey (contents l).
Proof. unfold contents. rewrite map_map. by apply map_ext; intros []. Qed.

Lemma zlen_perm {A} (l1 l2 : list A) : l1 ≡ₚ l2 -> zlen l1 = zlen l2.
Proof. intros Hp. unfold zlen. by rewrite (Permutation_length Hp). Qed.

(** The key condition depends on the contents only, up to order. *)
Lemma keys_wf_perm d d' :
  contents (dict_elems d') ≡ₚ contents (dict_elems d) -> keys_wf d -> keys_wf d'.
Proof.
  intros Hp [Hnd Hlen]. split.
  - rewrite keys_of_contents in *. by rewrite Hp.
  - rewrite <- zlen_contents, (zlen_perm _ _ Hp), zlen_contents. done.
Qed.

(** ** Chains *)

Lemma chain_walk_ok c : chain_ok c -> chain_walk c = c.
Proof.
  induction c as [|e c IH]; simpl; [done|]. intros (_ & Hk & Hc).
  destruct (entryIsKey e); [by rewrite Hk|by rewrite IH].
Qed.

Lemma chain_find_spec key c :
  chain_ok c ->
  match chain_find ty key c with
  | Some p => exists e, c !! p = Some e /\ ekey e = key
  | None => forall e, e ∈ c -> ekey e <> key
  end.
Proof.
  induction c as [|e c IH]; simpl; [by intros _ e ?%not_elem_of_nil|].
  intros (_ & Hk & Hc). destruct (keyCompare ty key (ekey e)) eqn:Hcmp.
  { apply compare_spec in Hcmp. by exists e. }
  assert (ekey e <> key) as Hne.
  { intros Heq. apply not_true_iff_false in Hcmp. apply Hcmp, compare_spec. done. }
  destruct (entryIsKey e).
  { rewrite Hk by done. intros e' [->|?%not_elem_of_nil]%elem_of_cons; done. }
  specialize (IH Hc). destruct (chain_find ty key c); simpl.
  - destruct IH as (e' & ? & ?). by exists e'.
  - intros e' [->|?]%elem_of_cons; [done|by apply IH].
Qed.

Lemma chain_unlink_ok c p e :
  chain_ok c -> c !! p = Some e ->
  chain_unlink p c = Ok (delete p c) /\ chain_ok (delete p c).
Proof.
  revert p. induction c as [|x c IH]; intros p; [by destruct p|].
  simpl. intros (Hkd & Hk & Hc). destruct p as [|p]; simpl.
  - intros _. destruct (entryIsKey x); [rewrite Hk by done|]; done.
  - intros Hp. assert (entryIsKey x = false) as Hx.
    { destruct (entryIsKey x); [|done]. by rewrite Hk in Hp. }
    destruct (IH p Hc Hp) as [-> Hok]. runr. unfold dictSetNext. rewrite Hx. runr.
    split; [done|]. by repeat split.
Qed.

Lemma relink_ok e b :
  kind_ok e -> chain_ok b ->
  exists e', relink ty e b = Ok (e' :: b) /\ content e' = content e /\ chain_ok (e' :: b).
Proof.
  intros Hkd Hb. unfold relink, dictSetNext, content.
  destruct (no_value ty) eqn:Hnv, e as [k|k|k v]; unfold kind_ok in Hkd; try congruence.
  - destruct b as [|x b]; [exists (EntryKey k)|exists (EntryNoValue k)];
      (split; [done|split; [done|by repeat split; try apply Hb]]).
  - destruct b as [|x b]; [exists (EntryKey k)|exists (EntryNoValue k)];
      (split; [done|split; [done|by repeat split; try apply Hb]]).
  - exists (EntryNormal k v). split; [done|split; [done|by repeat split]].
Qed.

(** ** Updating one bucket *)

Lemma ht_live_update h i c c' used' :
  ht_live h -> ht_table h !! i = Some c -> bucket_ok (ht_size_exp h) i c' ->
  used' = ht_used h - zlen c + zlen c' ->
  ht_live {| ht_table := <[i := c']> (ht_table h); ht_used := used'; ht_size_exp := ht_size_exp h |}
  /\ exists rest, elems h ≡ₚ c ++ rest /\ concat (<[i := c']> (ht_table h)) ≡ₚ c' ++ rest.
Proof.
  intros [He Hl Hu Hb] Hi Hc' ->.
  destruct (concat_insert_perm (ht_table h) i c c' Hi) as (rest & H1 & H2).
  split; [|by exists rest]. constructor; simpl.
  - done.
  - by rewrite zlen_insert.
  - rewrite Hu. unfold elems. simpl. rewrite (zlen_perm _ _ H1), (zlen_perm _ _ H2), !zlen_app. lia.
  - intros j x Hj. apply list_lookup_insert_Some in Hj as [(<- & <- & _)|(_ & Hj)]; [done|by apply Hb].
Qed.

Lemma ht_live_rd h i : ht_live h -> 0 <= i < 2 ^ ht_size_exp h ->
  exists c, ht_table h !! Z.to_nat i = Some c /\ rd1 (ht_table h) i = Ok c /\
            bucket_ok (ht_size_exp h) (Z.to_nat i) c.
Proof.
  intros Hh Hi. pose proof (live_len _ Hh) as Hl.
  destruct (lookup_lt_is_Some_2 (ht_table h) (Z.to_nat i)) as [c Hc].
  { unfold zlen in Hl. lia. }
  exists c. split_and!; [done| |by apply (live_bucket _ Hh)].
  apply rd1_lookup; [lia|done].
Qed.
(** ** Moving a bucket *)

Lemma ekey_content e : ekey e = ckey (content e).
Proof. by destruct e. Qed.

Lemma rehash_target_ok d idx e :
  exp_ok (ht_size_exp (ht0 d)) -> exp_ok (ht_size_exp (ht1 d)) ->
  bucket_of (ht_size_exp (ht0 d)) e = idx ->
  rehash_target ty d idx e = bucket_of (ht_size_exp (ht1 d)) e.
Proof.
  intros H0 H1 <-. unfold rehash_target, bucket_of. rewrite Z.gtb_ltb.
  destruct (Z.ltb_spec (ht_size_exp (ht0 d)) (ht_size_exp (ht1 d))); [done|].
  by apply land_mask_shrink.
Qed.

(** The dictionary with [n] entries fewer counted in table 0, and table 1 set. *)
Definition moved (d : dict) (n : Z) (h1 : table) : dict :=
  set_ht1 (set_ht0 d {| ht_table := ht_table (ht0 d); ht_used := ht_used (ht0 d) - n;
                        ht_size_exp := ht_size_exp (ht0 d) |}) h1.

(** One entry goes in front of its new bucket. *)
Lemma rehash_entry_ok h1 e :
  ht_live h1 -> kind_ok e -> ht_used h1 + 1 < 2 ^ 64 ->
  let i := bucket_of (ht_size_exp h1) e in
  exists b b', rd1 (ht_table h1) i = Ok b /\ relink ty e b = Ok b' /\
    wr1 (ht_table h1) i b' = Ok (<[Z.to_nat i := b']> (ht_table h1)) /\
    let h1' := {| ht_table := <[Z.to_nat i := b']> (ht_table h1); ht_used := u64 (ht_used h1 + 1);
                  ht_size_exp := ht_size_exp h1 |} in
    ht_live h1' /\ contents (elems h1') ≡ₚ content e :: contents (elems h1).
Proof.
  intros Hh Hk Hlt i. pose proof (live_exp _ Hh) as He.
  pose proof (bucket_range (dictGetHash ty (ekey e)) _ He) as Hi.
  fold (bucket_of (ht_size_exp h1) e) in Hi. fold i in Hi.
  destruct (ht_live_rd h1 i Hh Hi) as (b & Hb & Hrd & Hok & Hbk).
  destruct (relink_ok e b Hk Hok) as (e' & Hrl & Hc & Hok').
  exists b, (e' :: b). split_and!; [done|done|apply wr1_ok; by rewrite (live_len _ Hh)|].
  assert (0 <= ht_used h1) by (rewrite (live_used _ Hh); apply zlen_nonneg).
  rewrite wrapU_small by lia.
  destruct (ht_live_update h1 (Z.to_nat i) b (e' :: b) (ht_used h1 + 1) Hh Hb) as (Hl & rest & H1 & H2).
  - split; [done|]. intros x [->|Hx]%elem_of_cons; [|by apply Hbk].
    transitivity i; [|lia]. unfold i, bucket_of. by rewrite ekey_content, Hc, <- ekey_content.
  - rewrite zlen_cons. lia.
  - split; [done|]. unfold contents, elems in *. simpl. rewrite H1, H2. simpl. by rewrite Hc.
Qed.

Lemma rehash_chain_ok idx de d :
  ht_live (ht1 d) -> exp_ok (ht_size_exp (ht0 d)) -> chain_ok de ->
  (forall e, e ∈ de -> bucket_of (ht_size_exp (ht0 d)) e = idx) ->
  zlen de <= ht_used (ht0 d) < 2 ^ 64 -> ht_used (ht1 d) + zlen de < 2 ^ 64 ->
  exists h1, rehash_chain ty d idx de = Ok (moved d (zlen de) h1) /\
    ht_live h1 /\ ht_size_exp h1 = ht_size_exp (ht1 d) /\
    contents (elems h1) ≡ₚ contents de ++ contents (elems (ht1 d)).
Proof.
  revert d. induction de as [|e rest IH]; intros d Hl1 He0 Hok Hidx Hu0 Hu1.
  { exists (ht1 d). unfold moved. rewrite Z.sub_0_r. split_and!; try done.
    destruct d as [[] ? ? ? ? ?]. done. }
  rewrite zlen_cons in *. simpl in Hok. destruct Hok as (Hkd & Hk & Hok).
  pose proof (zlen_nonneg rest).
  destruct (rehash_entry_ok (ht1 d) e Hl1 Hkd ltac:(lia)) as (b & b' & Hrd & Hrl & Hwr & Hl' & Hc').
  cbn [rehash_chain]. rewrite rehash_target_ok; [|done|apply Hl1|apply Hidx; constructor].
  rewrite Hrd. runr. rewrite Hrl. runr. rewrite Hwr. runr.
  destruct (entryIsKey e) eqn:Hek.
  - rewrite Hk by done. eexists. split_and!; [|exact Hl'|done|by rewrite Hc'].
    unfold move_used, moved. rewrite (wrapU_small 64 (_ - 1)) by lia. done.
  - destruct (IH (move_used d (<[Z.to_nat (bucket_of (ht_size_exp (ht1 d)) e) := b']> (ht_table (ht1 d)))))
      as (h1 & -> & Hl & Hexp & Hc); try done.
    + intros x Hx. apply Hidx. by right.
    + simpl. rewrite wrapU_small by lia. lia.
    + simpl. rewrite wrapU_small; pose proof (live_used _ Hl1); pose proof (zlen_nonneg (elems (ht1 d))); lia.
    + exists h1. split_and!; [|done|done|].
      * unfold moved, move_used. simpl. rewrite (wrapU_small 64 (_ - 1)) by lia.
        by rewrite <- Z.sub_add_distr, (Z.add_comm 1).
      * rewrite Hc. unfold move_used. cbn [ht1 set_ht1]. rewrite Hc'. simpl. by rewrite Permutation_middle.
Qed.

Lemma used_bound d :
  rehash_wf d -> keys_wf d -> ht_used (ht0 d) + ht_used (ht1 d) < 2 ^ 64.
Proof.
  intros Hr [_ Hlen]. unfold dict_elems in Hlen. rewrite zlen_app in Hlen.
  rewrite (live_used _ (rw_live0 _ Hr)), (live_used _ (rw_live1 _ Hr)). lia.
Qed.

Lemma maintains_rehash d d' :
  keys_wf d -> rehash_wf d' -> contents (dict_elems d') ≡ₚ contents (dict_elems d) ->
  pauserehash d' = pauserehash d -> pauseAutoResize d' = pauseAutoResize d ->
  told d d' -> maintains d d'.
Proof.
  intros Hk Hr Hc Hp Ha Hb. constructor; try done.
  - constructor; [by right|by eapply keys_wf_perm].
  - intros _. apply Hr.
Qed.

Lemma rehash_bucket_ok d idx :
  rehash_wf d -> keys_wf d -> 0 <= idx < zlen (ht_table (ht0 d)) ->
  exists d', rehashEntriesInBucketAtIndex ty d idx = Ok d' /\ rehash_wf d' /\ maintains d d' /\
    rehashidx d' = rehashidx d /\ ht_size_exp (ht0 d') = ht_size_exp (ht0 d) /\
    ht_size_exp (ht1 d') = ht_size_exp (ht1 d) /\
    ht_table (ht0 d') = <[Z.to_nat idx := []]> (ht_table (ht0 d)).
Proof.
  intros Hr Hk Hi. pose proof (used_bound d Hr Hk) as Hub. destruct Hr as [H0 H1 Hexp Hidx Hmv].
  pose proof (live_len _ H0) as Hlen. rewrite Hlen in Hi.
  destruct (ht_live_rd (ht0 d) idx H0 Hi) as (de & Hde & Hrd & Hok & Hbk).
  destruct (ht_live_update (ht0 d) (Z.to_nat idx) de [] (ht_used (ht0 d) - zlen de) H0 Hde)
    as (Hl0 & rest & Hp1 & Hp2).
  { split; [done|]. by intros e ?%not_elem_of_nil. }
  { change (zlen (@nil entry)) with 0. lia. }
  pose proof (live_used _ H0) as Hu0. rewrite (zlen_perm _ _ Hp1), zlen_app in Hu0.
  pose proof (zlen_nonneg de). pose proof (zlen_nonneg rest).
  pose proof (live_used _ H1) as Hu1. pose proof (zlen_nonneg (elems (ht1 d))).
  destruct (rehash_chain_ok idx de d) as (h1 & Hrc & Hl1 & He1 & Hc1); try done; try lia.
  { apply H0. }
  { intros e He. rewrite (Hbk e He). lia. }
  unfold rehashEntriesInBucketAtIndex. rewrite Hrd. runr. rewrite Hrc. runr.
  unfold moved. cbn [ht_table ht_used ht_size_exp set_ht1 set_ht0 ht0 ht1 rehashidx].
  rewrite wr1_ok by (rewrite Hlen; lia). runr.
  set (d' := set_ht0 _ _).
  assert (rehash_wf d') as Hr'.
  { constructor; simpl; [done|done|congruence|by rewrite zlen_insert|].
    intros i Hlt. destruct (decide (i = Z.to_nat idx)) as [->|Hne].
    - apply list_lookup_insert_eq. by eapply lookup_lt_Some.
    - rewrite list_lookup_insert_ne by done. by apply Hmv. }
  exists d'. split; [done|]. split; [done|split; [|done]].
  apply maintains_rehash; simpl; try done.
  - unfold dict_elems. simpl. rewrite !contents_app, Hc1. unfold contents, elems in *. simpl.
    rewrite Hp1, Hp2. simpl. rewrite map_app, <- app_assoc. apply Permutation_app_swap_app.
  - apply told_same; [done|]. unfold book. simpl. by rewrite He1.
Qed.

(** ** Skipping empty buckets *)

Lemma unmoved_bucket d :
  rehash_wf d -> ht_used (ht0 d) <> 0 ->
  exists i c, ht_table (ht0 d) !! i = Some c /\ c <> [] /\ rehashidx d <= Z.of_nat i.
Proof.
  intros Hr Hu. destruct (elems (ht0 d)) as [|e l] eqn:He.
  { rewrite (live_used _ (rw_live0 _ Hr)), He in Hu. done. }
  assert (e ∈ elems (ht0 d)) as Hin by (rewrite He; constructor).
  apply elem_of_concat in Hin as (i & c & Hi & Hc). exists i, c.
  split_and!; [done|by intros ->; apply not_elem_of_nil in Hc|].
  destruct (Z.lt_ge_cases (Z.of_nat i) (rehashidx d)) as [Hlt|]; [|done].
  rewrite (rw_moved _ Hr) in Hi by done. simplify_eq. by apply not_elem_of_nil in Hc.
Qed.

Lemma rehash_wf_advance d :
  rehash_wf d -> ht_table (ht0 d) !! Z.to_nat (rehashidx d) = Some [] ->
  rehash_wf (set_rehashidx d (rehashidx d + 1)).
Proof.
  intros [H0 H1 He Hi Hm] Hb. constructor; simpl; try done.
  - apply lookup_lt_Some in Hb. unfold zlen in *. lia.
  - intros i Hlt. destruct (decide (Z.of_nat i = rehashidx d)) as [Heq|].
    + by rewrite <- Heq, Nat2Z.id in Hb.
    + apply Hm. lia.
Qed.

Lemma skip_empty_ok fuel d ev :
  rehash_wf d -> ht_used (ht0 d) <> 0 ->
  zlen (ht_table (ht0 d)) - rehashidx d < Z.of_nat fuel ->
  exists r' ev' early, skip_empty fuel d ev = Ok (set_rehashidx d r', ev', early) /\
    rehash_wf (set_rehashidx d r') /\ rehashidx d <= r' < zlen (ht_table (ht0 d)) + 1 /\
    (early = true -> rehashidx d < r') /\ (early = false -> r' < zlen (ht_table (ht0 d))).
Proof.
  revert d ev. induction fuel as [|fuel IH]; intros d ev Hr Hu Hf; [pose proof (rw_idx _ Hr); lia|].
  destruct (unmoved_bucket d Hr Hu) as (i & c & Hi & Hc & Hle).
  pose proof (lookup_lt_Some _ _ _ Hi) as Hil. pose proof (rw_idx _ Hr) as Hri.
  cbn [skip_empty]. destruct (rd1_ok (ht_table (ht0 d)) (rehashidx d)) as (b & -> & Hb).
  { unfold zlen in *. lia. }
  runr. destruct b as [|e b].
  - pose proof (rehash_wf_advance d Hr Hb) as Hr'.
    assert (rehashidx d < zlen (ht_table (ht0 d))) by (apply lookup_lt_Some in Hb; unfold zlen; lia).
    destruct (ev - 1 =? 0).
    + exists (rehashidx d + 1), (ev - 1), true. split_and!; try done; lia.
    + destruct (IH (set_rehashidx d (rehashidx d + 1)) (ev - 1) Hr') as (r' & ev' & early & Hs & Hw & Hb1 & Hb2 & Hb3).
      { done. }
      { simpl. lia. }
      simpl in *. exists r', ev', early. split_and!; try done; try lia.
  - exists (rehashidx d), ev, false. apply lookup_lt_Some in Hb.
    assert (set_rehashidx d (rehashidx d) = d) as -> by by destruct d.
    split_and!; try done; unfold zlen; lia.
Qed.

(** ** Rehashing steps *)

Lemma set_rehashidx_maintains d r :
  rehash_wf d -> rehash_wf (set_rehashidx d r) -> keys_wf d -> maintains d (set_rehashidx d r).
Proof.
  intros Hr Hr'. intros. apply maintains_rehash; try done. apply told_same; [done|].
  unfold book. by rewrite !rehash_wf_rehashing.
Qed.

Lemma rehash_loop_ok n d ev :
  rehash_wf d -> keys_wf d ->
  exists d' early, rehash_loop ty n d ev = Ok (d', early) /\ rehash_wf d' /\ maintains d d' /\
    ht_size_exp (ht0 d') = ht_size_exp (ht0 d) /\ ht_size_exp (ht1 d') = ht_size_exp (ht1 d) /\
    rehashidx d <= rehashidx d' /\
    (n <> O -> early = true \/ ht_used (ht0 d') <> 0 -> rehashidx d < rehashidx d').
Proof.
  revert d ev. induction n as [|n IH]; intros d ev Hr Hk.
  { exists d, false. split_and!; try done. apply maintains_refl. constructor; [by right|done]. }
  cbn [rehash_loop]. destruct (Z.eqb_spec (ht_used (ht0 d)) 0) as [E|E].
  { exists d, false. split_and!; try done; [|by intros _ [?|?]].
    apply maintains_refl. constructor; [by right|done]. }
  destruct (unmoved_bucket d Hr E) as (i & c & Hi & Hc & Hle). apply lookup_lt_Some in Hi.
  pose proof (rw_idx _ Hr) as Hri. pose proof (live_len _ (rw_live0 _ Hr)) as Hlen.
  pose proof (live_exp _ (rw_live0 _ Hr)) as He. pose proof (exp_pow _ He).
  rewrite DICTHT_SIZE_ok, wrapU_small by (done || lia).
  assert (rehashidx d < zlen (ht_table (ht0 d))) by (unfold zlen; lia).
  dec_bool. runr.
  destruct (skip_empty_ok (S (length (ht_table (ht0 d)))) d ev Hr E) as (r & ev' & early & -> & Hr' & Hb & Hb1 & Hb2).
  { unfold zlen. lia. }
  runr. pose proof (set_rehashidx_maintains d r Hr Hr' Hk) as Hm.
  destruct early.
  { exists (set_rehashidx d r), true. split_and!; try done; simpl; lia. }
  specialize (Hb2 eq_refl).
  destruct (rehash_bucket_ok (set_rehashidx d r) r Hr' (wf_keys _ (mt_wf _ _ Hm))) as (d2 & Hrb & Hr2 & Hm2 & Hi2 & He2 & He21 & Ht2).
  { simpl. lia. }
  change (rehashidx (set_rehashidx d r)) with r. rewrite Hrb. runr. simpl in Hi2, He2, He21, Ht2.
  assert (rehash_wf (set_rehashidx d2 (rehashidx d2 + 1))) as Hr3.
  { apply rehash_wf_advance; [done|]. rewrite Hi2, Ht2. apply list_lookup_insert_eq. unfold zlen in *. lia. }
  pose proof (set_rehashidx_maintains d2 _ Hr2 Hr3 (wf_keys _ (mt_wf _ _ Hm2))) as Hm3.
  destruct (IH (set_rehashidx d2 (rehashidx d2 + 1)) ev' Hr3) as (d4 & early & -> & Hr4 & Hm4 & He4 & He41 & Hi4 & _).
  { apply Hm3. }
  exists d4, early. simpl in He4, He41, Hi4. split_and!; try done; try (congruence || lia).
  eapply maintains_trans; [exact Hm|]. eapply maintains_trans; [exact Hm2|].
  by eapply maintains_trans.
Qed.

Lemma check_completed_ok d :
  rehash_wf d -> keys_wf d ->
  let r := dictCheckRehashingCompleted d in
  maintains d r.1 /\
  (r.2 = true -> rehashidx r.1 = -1 /\ ht_size_exp (ht0 r.1) = ht_size_exp (ht1 d)) /\
  (r.2 = false -> r.1 = d /\ ht_used (ht0 d) <> 0).
Proof.
  intros Hr Hk. unfold dictCheckRehashingCompleted.
  destruct (Z.eqb_spec (ht_used (ht0 d)) 0) as [E|E]; simpl.
  - split; [|done]. pose proof (live_used _ (rw_live0 _ Hr)) as Hu. rewrite E in Hu.
    assert (elems (ht0 d) = []) as Hnil by (destruct (elems (ht0 d)); unfold zlen in *; simpl in *; [done|lia]).
    unfold _dictReset, ht_set. simpl.
    assert (contents (elems (ht1 d)) = contents (dict_elems d)) as Hc.
    { unfold dict_elems. by rewrite Hnil. }
    constructor; simpl; try done.
    + constructor; simpl.
      * left. split_and!; [done| |done]. right. apply Hr.
      * eapply keys_wf_perm; [|exact Hk]. unfold dict_elems at 1. simpl.
        by rewrite contents_app, Hc, app_nil_r.
    + unfold dict_elems at 1. simpl. by rewrite contents_app, Hc, app_nil_r.
    + exists [RehashingCompleted (rehashing_from d); BucketChanged (- rehashing_from d)].
      split; [simpl; by rewrite <- app_assoc|]. unfold book. rewrite (rehash_wf_rehashing d Hr). simpl.
      rewrite Z.eqb_refl. simpl. do 2 f_equal. unfold rehashing_from. change (DICTHT_SIZE (-1)) with 0. lia.
    + intros _. apply Hr.
  - split; [|by split]. apply maintains_refl. constructor; [by right|done].
Qed.

(** What a rehashing step leaves: where the cursor may be. *)
Record near (d d' : dict) : Prop := {
  near_mt : maintains d d';
  near_exp : ht_size_exp (ht0 d') = ht_size_exp (ht0 d) \/ rehashidx d' <= 0;
}.

Lemma near_refl d : dict_wf d -> near d d.
Proof. intros. constructor; [by apply maintains_refl|by left]. Qed.

(** The conditions under which dictRehash does nothing. *)
Definition rehash_held (cr : dictResizeEnable) (d : dict) : bool :=
  (bool_decide (cr = DICT_RESIZE_FORBID) || negb (dictIsRehashing d)) ||
  rehash_avoided cr (DICTHT_SIZE (ht_size_exp (ht0 d))) (DICTHT_SIZE (ht_size_exp (ht1 d))).

(** The arguments for which [n*10] fits an [int]. *)
Definition steps_fit (n : nat) : Prop := Z.of_nat n * 10 <= INT32_MAX.

Lemma dictRehash_overflows cr d n : ~ steps_fit n -> dictRehash ty cr d n = Err SignedOverflow.
Proof.
  unfold steps_fit, dictRehash, chk_i32, in_i32. intros Hn.
  rewrite (proj2 (Z.leb_gt (Z.of_nat n * 10) _)), andb_false_r by lia. done.
Qed.

Lemma steps_fit_ok n : steps_fit n -> chk_i32 (Z.of_nat n * 10) = Ok (Z.of_nat n * 10).
Proof. unfold steps_fit. intros. apply chk_i32_ok. lia. Qed.

Lemma dictRehash_held cr d n :
  steps_fit n -> rehash_held cr d = true -> dictRehash ty cr d n = Ok (d, false).
Proof.
  intros Hn. unfold rehash_held, dictRehash. rewrite steps_fit_ok by done. runr. destruct (_ || negb _); [done|]. simpl. by intros ->.
Qed.

Lemma dictRehash_runs cr d n :
  steps_fit n -> dict_wf d -> rehash_held cr d = false ->
  exists d' more, dictRehash ty cr d n = Ok (d', more) /\ near d d' /\
    (more = false -> rehashidx d' = -1 /\ ht_size_exp (ht0 d') = ht_size_exp (ht1 d)) /\
    (more = true -> n <> O -> rehash_held cr d' = false /\ rehashidx d < rehashidx d' /\
       ht_size_exp (ht1 d') = ht_size_exp (ht1 d) /\
       zlen (ht_table (ht0 d')) = zlen (ht_table (ht0 d))).
Proof.
  intros Hfit Hwf Hh. unfold dictRehash, rehash_held in *. rewrite steps_fit_ok by done. runr. apply orb_false_iff in Hh as [E1 E2].
  rewrite E1, E2. apply orb_false_iff in E1 as [E0 E1]. apply negb_false_iff in E1.
  pose proof (rehashing_wf d Hwf E1) as Hr.
  destruct (rehash_loop_ok n d (Z.of_nat n * 10) Hr (wf_keys _ Hwf))
    as (d1 & early & -> & Hr1 & Hm1 & He1 & He11 & Hi1 & Hi2).
  assert (zlen (ht_table (ht0 d1)) = zlen (ht_table (ht0 d))) as Hlen.
  { rewrite (live_len _ (rw_live0 _ Hr1)), (live_len _ (rw_live0 _ Hr)), He1. done. }
  rewrite <- He1, <- He11 in E2. runr. destruct early.
  - exists d1, true. split_and!; [done|constructor; [done|by left]|done|].
    intros _ Hn. split_and!; [|by apply Hi2; [|left]|done|done].
    by rewrite E2, E0, (rehash_wf_rehashing d1).
  - pose proof (check_completed_ok d1 Hr1 (wf_keys _ (mt_wf _ _ Hm1))) as (Hm & Ht & Hf).
    destruct (dictCheckRehashingCompleted d1) as [d2 []]; simpl in *.
    + destruct (Ht eq_refl) as [Ht1 Ht2].
      exists d2, false. split_and!; [done| |by split; [|rewrite Ht2]|done].
      constructor; [by eapply maintains_trans|]. right. lia.
    + destruct Hf as [-> Hu]; [done|]. exists d1, true. split_and!; [done|constructor; [done|by left]|done|].
      intros _ Hn. split_and!; [|by apply Hi2; [|right]|done|done].
      by rewrite E2, E0, (rehash_wf_rehashing d1).
Qed.

Lemma dictRehash_ok cr d n :
  steps_fit n -> dict_wf d -> exists d' more, dictRehash ty cr d n = Ok (d', more) /\ near d d'.
Proof.
  intros Hfit Hwf. destruct (rehash_held cr d) eqn:E.
  - rewrite dictRehash_held by done. exists d, false. split; [done|by apply near_refl].
  - destruct (dictRehash_runs cr d n Hfit Hwf E) as (d' & m & -> & Hn & _). eauto.
Qed.

Lemma rehashStep_ok cr d : dict_wf d -> exists d', _dictRehashStep ty cr d = Ok d' /\ near d d'.
Proof.
  intros Hwf. unfold _dictRehashStep. destruct (pauserehash d =? 0).
  - destruct (dictRehash_ok cr d 1 ltac:(done) Hwf) as (d' & m & -> & Hn). by exists d'.
  - exists d. split; [done|by apply near_refl].
Qed.

Lemma bucketRehash_ok cr d idx :
  dict_wf d -> 0 <= idx < zlen (ht_table (ht0 d)) ->
  exists d' b, _dictBucketRehash ty cr d idx = Ok (d', b) /\ near d d'.
Proof.
  intros Hwf Hi. unfold _dictBucketRehash.
  destruct (negb _); [exists d, false; split; [done|by apply near_refl]|].
  destruct (bool_decide _ || _) eqn:E; [exists d, false; split; [done|by apply near_refl]|].
  destruct (rehash_avoided _ _ _); [exists d, false; split; [done|by apply near_refl]|].
  apply orb_false_iff in E as [_ E%negb_false_iff]. pose proof (rehashing_wf d Hwf E) as Hr.
  destruct (rehash_bucket_ok d idx Hr (wf_keys _ Hwf) Hi) as (d1 & -> & Hr1 & Hm1 & Hi1 & He1 & _).
  runr. pose proof (check_completed_ok d1 Hr1 (wf_keys _ (mt_wf _ _ Hm1))) as (Hm & Ht & Hf).
  eexists _, _. split; [done|]. constructor; [by eapply maintains_trans|].
  destruct (dictCheckRehashingCompleted d1) as [d2 []]; simpl in *.
  - right. destruct (Ht eq_refl). lia.
  - left. by destruct Hf as [-> _].
Qed.

Lemma rehashStepIfNeeded_ok cr d h :
  dict_wf d ->
  exists d', _dictRehashStepIfNeeded ty cr d (Z.land h (DICTHT_SIZE_MASK (ht_size_exp (ht0 d)))) = Ok d'
    /\ near d d'.
Proof.
  intros Hwf. unfold _dictRehashStepIfNeeded.
  destruct (negb (dictIsRehashing d) || _) eqn:E; [exists d; split; [done|by apply near_refl]|].
  apply orb_false_iff in E as [E%negb_false_iff _]. pose proof (rehashing_wf d Hwf E) as Hr.
  pose proof (live_exp _ (rw_live0 _ Hr)) as He.
  pose proof (bucket_range h _ He) as Hb. set (idx := Z.land h _) in *.
  destruct (dictRehash_ok cr d 1 ltac:(done) Hwf) as (d' & m & Hrh & Hn).
  destruct (ht_live_rd (ht0 d) idx (rw_live0 _ Hr) Hb) as (c & _ & Hrd & _).
  destruct (i64 idx >=? rehashidx d); [|runr; rewrite Hrh; by exists d'].
  rewrite Hrd. runr. destruct c; [rewrite Hrh; by exists d'|].
  destruct (bucketRehash_ok cr d idx Hwf) as (d2 & b2 & -> & Hn2).
  - by rewrite (live_len _ (rw_live0 _ Hr)).
  - by exists d2.
Qed.

(** ** Resizing *)

Lemma not_held_wf cr d : dict_wf d -> rehash_held cr d = false -> rehash_wf d.
Proof.
  intros Hwf E. apply rehashing_wf; [done|]. unfold rehash_held in E.
  apply orb_false_iff in E as [[_ E]%orb_false_iff _]. by apply negb_false_iff.
Qed.

Lemma rehash_fully_runs cr fuel d :
  dict_wf d -> rehash_held cr d = false ->
  zlen (ht_table (ht0 d)) - rehashidx d < Z.of_nat fuel ->
  exists d', rehash_fully ty fuel cr d = Ok d' /\ maintains d d' /\
    rehashidx d' = -1 /\ ht_size_exp (ht0 d') = ht_size_exp (ht1 d).
Proof.
  revert d. induction fuel as [|fuel IH]; intros d Hwf E Hm.
  { pose proof (rw_idx _ (not_held_wf _ _ Hwf E)). lia. }
  cbn [rehash_fully].
  destruct (dictRehash_runs cr d 1000 ltac:(done) Hwf E) as (d1 & more & -> & [Hm1 _] & Hf1 & Ht1).
  runr. destruct more.
  - destruct Ht1 as (E1 & Hlt & He1 & Hlen); [done..|].
    destruct (IH d1) as (d2 & -> & Hm2 & Hd & He); [apply Hm1|done|lia|].
    exists d2. split_and!; [done|by eapply maintains_trans|done|congruence].
  - exists d1. split_and!; [done|done|by apply Hf1..].
Qed.

Lemma rehash_fully_ok cr fuel d :
  dict_wf d -> zlen (ht_table (ht0 d)) - rehashidx d < Z.of_nat (S fuel) ->
  exists d', rehash_fully ty (S fuel) cr d = Ok d' /\ maintains d d' /\
    (d' = d \/ rehashidx d' = -1 /\ ht_size_exp (ht0 d') = ht_size_exp (ht1 d)).
Proof.
  intros Hwf Hf. destruct (rehash_held cr d) eqn:E.
  - simpl. rewrite dictRehash_held by done. runr.
    exists d. split_and!; [done|by apply maintains_refl|by left].
  - destruct (rehash_fully_runs cr (S fuel) d Hwf E Hf) as (d' & -> & Hm & Hr). eauto.
Qed.

(** The fresh table a resize allocates. *)
Definition fresh_ht (exp : Z) : table :=
  {| ht_table := replicate (Z.to_nat (DICTHT_SIZE exp)) []; ht_used := 0; ht_size_exp := exp |}.

Lemma fresh_ht_elems exp : elems (fresh_ht exp) = [].
Proof. apply concat_nil_iff. intros i c Hi. by apply lookup_replicate in Hi as [-> _]. Qed.

Lemma fresh_ht_live exp : exp_ok exp -> ht_live (fresh_ht exp).
Proof.
  intros He. constructor; simpl; [done| |by rewrite fresh_ht_elems|].
  - rewrite DICTHT_SIZE_ok by done. unfold zlen. rewrite length_replicate.
    pose proof (exp_pow exp He). lia.
  - intros i c [-> _]%lookup_replicate. split; [done|]. by intros e ?%not_elem_of_nil.
Qed.

Lemma resize_exp_ok size :
  0 <= size < 2 ^ 64 -> u64 (DICTHT_SIZE (_dictNextExp size) * 8) <? DICTHT_SIZE (_dictNextExp size) = false ->
  DICTHT_SIZE (_dictNextExp size) <> 0 -> exp_ok (_dictNextExp size).
Proof.
  intros Hs. pose proof (nextExp_range size Hs) as He. unfold exp_ok.
  destruct (Z.le_gt_cases (_dictNextExp size) 60); [lia|].
  assert (_dictNextExp size = 61 \/ _dictNextExp size = 62 \/ _dictNextExp size = 63 \/ _dictNextExp size = 64)
    as [-> | [-> | [-> | ->]]] by lia; by vm_compute.
Qed.

(** A table without buckets, or whose counter is zero, holds no entry. *)
Lemma no_elems h :
  ht_wf h -> match ht_table h with [] => true | _ => ht_used h =? 0 end = true -> elems h = [].
Proof.
  intros [->|Hl] E; [done|]. unfold elems in *. destruct (ht_table h) as [|b t] eqn:Ht; [done|].
  apply Z.eqb_eq in E. rewrite (live_used _ Hl) in E. unfold elems in E. rewrite Ht in E.
  by apply zlen_nil_inv.
Qed.

(** The state just after the second table is installed. *)
Definition starting (d : dict) (exp : Z) : dict :=
  {| ht0 := ht0 d; ht1 := fresh_ht exp; rehashidx := 0; pauserehash := pauserehash d;
     pauseAutoResize := pauseAutoResize d;
     notes := (notes d ++ [RehashingStarted (rehashing_from d)]) ++ [BucketChanged (DICTHT_SIZE exp)] |}.

Lemma starting_ok d exp :
  dict_wf d -> rehashidx d = -1 -> exp_ok exp -> exp <> ht_size_exp (ht0 d) ->
  ht_live (ht0 d) -> maintains d (starting d exp).
Proof.
  intros Hwf Hri He Hne Hl.
  assert (ht1 d = empty_ht) as H1.
  { destruct (wf_tables _ Hwf) as [(_ & _ & ?)|Hr]; [done|]. pose proof (rw_idx _ Hr). lia. }
  apply maintains_rehash; simpl; try done; [apply Hwf| | |].
  - constructor; simpl; [done|by apply fresh_ht_live|done| |].
    + pose proof (zlen_nonneg (ht_table (ht0 d))). lia.
    + intros i Hi. lia.
  - unfold dict_elems. simpl. by rewrite H1, fresh_ht_elems.
  - exists [RehashingStarted (rehashing_from d); BucketChanged (DICTHT_SIZE exp)].
    split; [cbn [starting notes]; by rewrite <- app_assoc|]. unfold book. rewrite (proj2 (rehashing_false d) Hri), H1. simpl.
    do 2 f_equal. change (DICTHT_SIZE (-1)) with 0. lia.
Qed.

Lemma first_table_ok d exp :
  dict_wf d -> rehashidx d = -1 -> exp_ok exp -> elems (ht0 d) = [] ->
  let d1 := starting d exp in
  let d' := {| ht0 := fresh_ht exp; ht1 := empty_ht; rehashidx := -1; pauserehash := pauserehash d;
               pauseAutoResize := pauseAutoResize d;
               notes := (notes d1 ++ [RehashingCompleted (rehashing_from d)]) ++
                        [BucketChanged (- DICTHT_SIZE (ht_size_exp (ht0 d)))] |} in
  maintains d d' /\ ht_live (ht0 d').
Proof.
  intros Hwf Hri He Hnil d1 d'.
  assert (ht1 d = empty_ht) as H1.
  { destruct (wf_tables _ Hwf) as [(_ & _ & ?)|Hr]; [done|]. pose proof (rw_idx _ Hr). lia. }
  pose proof (fresh_ht_live exp He) as Hl. split; [|done].
  assert (dict_elems d' = dict_elems d) as Hc.
  { unfold dict_elems. simpl. by rewrite H1, Hnil, fresh_ht_elems. }
  constructor; try done.
  - constructor; [left; split_and!; try done; by right|].
    apply (keys_wf_perm d); [by rewrite Hc|apply Hwf].
  - by rewrite Hc.
  - exists [RehashingStarted (rehashing_from d); BucketChanged (DICTHT_SIZE exp);
            RehashingCompleted (rehashing_from d); BucketChanged (- rehashing_from d)].
    split; [simpl; by rewrite <- !app_assoc|].
    unfold book. rewrite (proj2 (rehashing_false d) Hri), H1. simpl. rewrite Z.eqb_refl. simpl.
    do 2 f_equal. unfold rehashing_from. change (DICTHT_SIZE (-1)) with 0. lia.
Qed.

(** A resize either leaves the dictionary alone or changes a table size, and
    then the cursor is at its start. *)
Definition resized (d d' : dict) : Prop :=
  d' = d \/ rehashidx d' <= 0 /\
    (ht_size_exp (ht0 d') <> ht_size_exp (ht0 d) \/ ht_size_exp (ht1 d') <> ht_size_exp (ht1 d)).

Lemma resize_ok cr d size try_alloc :
  dict_wf d -> rehashidx d = -1 -> 0 <= size < 2 ^ 64 ->
  exists d' ok mf, _dictResize ty cr d size try_alloc = Ok (d', ok, mf) /\ maintains d d' /\
    resized d d' /\
    (size = DICT_HT_INITIAL_SIZE -> ht_size_exp (ht0 d) = -1 -> try_alloc = None -> ht_live (ht0 d')).
Proof.
  intros Hwf Hri Hs. pose proof (maintains_refl d Hwf) as Hrefl. unfold _dictResize.
  rewrite (proj2 (rehashing_false d) Hri). runr.
  set (exp := _dictNextExp size).
  destruct ((DICTHT_SIZE exp <? size) || _) eqn:E1.
  { exists d, false, false. split_and!; [done|done|by left|]. intros -> _ _. done. }
  apply orb_false_iff in E1 as [E1%Z.ltb_ge E2].
  assert (exp_ok exp) as He.
  { apply resize_exp_ok; [done|done|]. subst exp. unfold _dictNextExp, DICT_HT_INITIAL_SIZE in *.
    destruct (Z.leb_spec size 4); [by vm_compute|lia]. }
  destruct (Z.eqb_spec exp (ht_size_exp (ht0 d))) as [E3|E3].
  { exists d, false, false. split_and!; [done|done|by left|]. intros _ E. unfold exp_ok in He. lia. }
  destruct (match try_alloc with Some ok => negb ok | None => false end) eqn:E4.
  { exists d, false, true. split_and!; [done|done|by left|]. intros _ _ ->. done. }
  assert (ht_wf (ht0 d) /\ ht1 d = empty_ht) as [Hw0 H1].
  { destruct (wf_tables _ Hwf) as [(_ & ? & ?)|Hr]; [done|]. pose proof (rw_idx _ Hr). lia. }
  cbv zeta. change {| ht_table := _; ht_used := _; ht_size_exp := exp |} with (fresh_ht exp).
  set (d1 := notify (notify (set_rehashidx _ _) _) _). change d1 with (starting d exp).
  cbn [starting ht0].
  destruct (match ht_table (ht0 d) with [] => true | _ => ht_used (ht0 d) =? 0 end) eqn:E5.
  - pose proof (no_elems _ Hw0 E5) as Hnil.
    destruct (first_table_ok d exp Hwf Hri He Hnil) as [Hm Hl].
    eexists _, _, _. split; [done|]. split_and!; [exact Hm| |done].
    right. simpl. split; [lia|by left].
  - assert (ht_live (ht0 d)) as Hl.
    { destruct Hw0 as [E|?]; [|done]. by rewrite E in E5. }
    pose proof (starting_ok d exp Hwf Hri He E3 Hl) as Hm.
    destruct (force_full_rehash ty).
    + destruct (rehash_fully_ok cr (S (length (ht_table (ht0 d)))) (starting d exp)) as (d' & -> & Hm' & Hd').
      { apply Hm. }
      { simpl. unfold zlen. lia. }
      exists d', true, false. split_and!; [done|by eapply maintains_trans| |].
      * right. destruct Hd' as [-> | [-> Hx]]; simpl in *; (split; [lia|]); [right|left; by rewrite Hx].
        rewrite H1. simpl. unfold exp_ok in He. lia.
      * intros _ _ _. by apply Hm'.
    + exists (starting d exp), true, false. split_and!; [done|done| |done].
      right. simpl. split; [lia|]. right. rewrite H1. simpl. unfold exp_ok in He. lia.
Qed.

Lemma tables_ht0 d : dict_wf d -> ht_wf (ht0 d).
Proof. intros [[(_ & ? & _)|Hr] _]; [done|]. right. apply Hr. Qed.

Lemma used_range d : dict_wf d -> 0 <= ht_used (ht0 d) < 2 ^ 64 /\ 0 <= ht_used (ht1 d) < 2 ^ 64 /\
  ht_used (ht0 d) + ht_used (ht1 d) = zlen (dict_elems d) /\ zlen (dict_elems d) < 2 ^ 64.
Proof.
  intros Hwf. assert (forall h, ht_wf h -> ht_used h = zlen (elems h)) as Hu.
  { intros h [-> | Hl]; [done|apply Hl]. }
  rewrite (Hu (ht0 d)) by by apply tables_ht0. rewrite (Hu (ht1 d)).
  - destruct (wf_keys _ Hwf) as [_ Hlen]. revert Hlen. unfold dict_elems. rewrite zlen_app.
    pose proof (zlen_nonneg (elems (ht0 d))). pose proof (zlen_nonneg (elems (ht1 d))). lia.
  - destruct (wf_tables _ Hwf) as [(_ & _ & ->)|Hr]; [by left|right; apply Hr].
Qed.

Lemma dictSize_ok d : dict_wf d -> dictSize d = zlen (dict_elems d).
Proof.
  intros Hwf. destruct (used_range d Hwf) as (? & ? & ? & ?). unfold dictSize.
  rewrite wrapU_small; lia.
Qed.

Lemma expand_ok cr d size try_alloc :
  dict_wf d -> 0 <= size < 2 ^ 64 ->
  exists d' ok mf, _dictExpand ty cr d size try_alloc = Ok (d', ok, mf) /\ maintains d d' /\
    resized d d' /\
    (size = DICT_HT_INITIAL_SIZE -> ht0 d = empty_ht -> rehashidx d = -1 -> try_alloc = None ->
     ht_live (ht0 d')).
Proof.
  intros Hwf Hs. unfold _dictExpand. destruct (dictIsRehashing d || _ || _) eqn:E.
  - exists d, false, false. split_and!; [done|by apply maintains_refl|by left|].
    intros -> H0 Hri _. rewrite H0, (proj2 (rehashing_false d) Hri) in E. done.
  - apply orb_false_iff in E as [[E%rehashing_false _]%orb_false_iff _].
    destruct (resize_ok cr d size try_alloc Hwf E Hs) as (d' & ok & mf & -> & Hm & Hd & Hl).
    exists d', ok, mf. split_and!; try done. intros -> H0 _ ->. apply Hl; [done|by rewrite H0|done].
Qed.

Lemma shrink_ok cr d size :
  dict_wf d -> 0 <= size < 2 ^ 64 ->
  exists d' ok, dictShrink ty cr d size = Ok (d', ok) /\ maintains d d'.
Proof.
  intros Hwf Hs. unfold dictShrink. destruct (dictIsRehashing d || _ || _) eqn:E.
  - exists d, false. split; [done|by apply maintains_refl].
  - apply orb_false_iff in E as [[E%rehashing_false _]%orb_false_iff _].
    destruct (resize_ok cr d size None Hwf E Hs) as (d' & ok & mf & -> & Hm & _). by exists d', ok.
Qed.

Lemma expandIfNeeded_ok cr d :
  dict_wf d ->
  exists d' b, dictExpandIfNeeded ty cr d = Ok (d', b) /\ maintains d d' /\
    resized d d' /\ ht_live (ht0 d').
Proof.
  intros Hwf. unfold dictExpandIfNeeded. destruct (dictIsRehashing d) eqn:E.
  { exists d, true. split_and!; [done|by apply maintains_refl|by left|]. apply (rehashing_wf d Hwf E). }
  apply rehashing_false in E. destruct (tables_ht0 d Hwf) as [H0|Hl].
  { rewrite H0. simpl. unfold dictExpand.
    destruct (expand_ok cr d DICT_HT_INITIAL_SIZE None Hwf ltac:(by vm_compute)) as (d' & ok & mf & -> & Hm & Hd & Hl).
    exists d', true. split_and!; try done. by apply Hl. }
  rewrite DICTHT_SIZE_ok by apply Hl. pose proof (exp_pow _ (live_exp _ Hl)). dec_bool.
  destruct (_ || _); [|exists d, false; split_and!; [done|by apply maintains_refl|by left|done]].
  destruct (dictTypeResizeAllowed _ _ _);
    [|exists d, true; split_and!; [done|by apply maintains_refl|by left|done]].
  unfold dictExpand. destruct (expand_ok cr d (u64 (ht_used (ht0 d) + 1)) None Hwf)
    as (d' & ok & mf & -> & Hm & Hd & _).
  { by apply (wrapU_range 64). }
  exists d', true. split_and!; try done. by apply Hm.
Qed.

(** Automatic expansion may be paused, but not while there is no table. *)
Definition can_insert (d : dict) : Prop := pauseAutoResize d <= 0 \/ ht_live (ht0 d).

Lemma autoExpand_ok cr d :
  dict_wf d -> can_insert d ->
  exists d' b, _dictExpandIfNeeded ty cr d = Ok (d', b) /\ maintains d d' /\
    resized d d' /\ ht_live (ht0 d').
Proof.
  intros Hwf Hc. unfold _dictExpandIfNeeded. rewrite Z.gtb_ltb.
  destruct (Z.ltb_spec 0 (pauseAutoResize d)); [|by apply expandIfNeeded_ok].
  destruct Hc as [Hc|Hl]; [lia|].
  exists d, false. split_and!; [done|by apply maintains_refl|by left|done].
Qed.

Lemma shrinkIfNeeded_ok cr d :
  dict_wf d -> exists d' b, dictShrinkIfNeeded ty cr d = Ok (d', b) /\ maintains d d'.
Proof.
  intros Hwf. pose proof (maintains_refl d Hwf). unfold dictShrinkIfNeeded.
  destruct (dictIsRehashing d); [by eexists _, _|]. destruct (_ <=? DICT_HT_INITIAL_SIZE); [by eexists _, _|].
  destruct (_ || _); [|by eexists _, _]. destruct (dictTypeResizeAllowed _ _ _); [|by eexists _, _].
  destruct (used_range d Hwf) as (? & _).
  destruct (shrink_ok cr d (ht_used (ht0 d)) Hwf) as (d' & ok & -> & Hm); [lia|]. by eexists _, _.
Qed.

Lemma autoShrink_ok cr d : dict_wf d -> exists d', _dictShrinkIfNeeded ty cr d = Ok d' /\ maintains d d'.
Proof.
  intros Hwf. unfold _dictShrinkIfNeeded. destruct (_ >? 0); [exists d; split; [done|by apply maintains_refl]|].
  destruct (shrinkIfNeeded_ok cr d Hwf) as (d' & b & -> & Hm). by exists d'.
Qed.

(** ** Searching *)

Definition bucket_idx (key : K) (h : table) : Z :=
  Z.land (dictGetHash ty key) (DICTHT_SIZE_MASK (ht_size_exp h)).

Lemma search_table h key :
  ht_live h ->
  0 <= bucket_idx key h /\
  exists c, ht_table h !! Z.to_nat (bucket_idx key h) = Some c /\
    rd1 (ht_table h) (bucket_idx key h) = Ok c /\
    bucket_ok (ht_size_exp h) (Z.to_nat (bucket_idx key h)) c /\
    match chain_find ty key c with
    | Some p => exists e, c !! p = Some e /\ ekey e = key
    | None => forall e, e ∈ elems h -> ekey e <> key
    end.
Proof.
  intros Hl. pose proof (bucket_range (dictGetHash ty key) _ (live_exp _ Hl)) as Hb.
  fold (bucket_idx key h) in Hb. destruct (ht_live_rd h _ Hl Hb) as (c & Hc & Hrd & Hok).
  split; [lia|]. exists c. split_and!; try done. pose proof (chain_find_spec key c (proj1 Hok)) as Hs.
  destruct (chain_find ty key c); [done|]. intros e (i & c' & Hi & He)%elem_of_concat Heq.
  destruct (live_bucket _ Hl i c' Hi) as [_ Hbk]. specialize (Hbk e He).
  unfold bucket_of in Hbk. rewrite Heq in Hbk. fold (bucket_idx key h) in Hbk.
  assert (c' = c) as -> by (rewrite Hbk, Nat2Z.id in Hc; congruence). by apply (Hs e).
Qed.

(** The index the callers compute before the step that precedes the search. *)
Definition stale_idx (d : dict) (key : K) (idx : Z) : Prop :=
  0 <= idx < 2 ^ 60 /\ (idx = bucket_idx key (ht0 d) \/ rehashidx d <= 0).

Lemma stale_start d key : dict_wf d -> stale_idx d key (bucket_idx key (ht0 d)).
Proof.
  intros Hwf. split; [|by left]. destruct (tables_ht0 d Hwf) as [-> | Hl].
  - unfold bucket_idx. simpl. change (DICTHT_SIZE_MASK (-1)) with 0. rewrite Z.land_0_r. lia.
  - pose proof (bucket_range (dictGetHash ty key) _ (live_exp _ Hl)). pose proof (exp_pow _ (live_exp _ Hl)).
    unfold bucket_idx. lia.
Qed.

Lemma stale_near d d' key :
  dict_wf d -> near d d' -> stale_idx d' key (bucket_idx key (ht0 d)).
Proof.
  intros Hwf [_ Hor]. split; [by apply stale_start|]. destruct Hor as [He|?]; [left|by right].
  unfold bucket_idx. by rewrite He.
Qed.

Lemma stale_expand d d' key idx :
  stale_idx d key idx -> resized d d' -> stale_idx d' key idx.
Proof. intros [Hr Hor] [->|[? _]]; split; auto. Qed.

Lemma skip_ok d key idx :
  dict_wf d -> stale_idx d key idx -> i64 idx < rehashidx d ->
  rehash_wf d /\ forall e, e ∈ elems (ht0 d) -> ekey e <> key.
Proof.
  intros Hwf [Hr Hor] Hlt. rewrite wrapS_small in Hlt by (simpl; lia).
  destruct (wf_tables _ Hwf) as [(? & _)|Hrw]; [lia|]. split; [done|].
  destruct Hor as [->|?]; [|lia]. intros e (i & c & Hi & He)%elem_of_concat Heq.
  destruct (live_bucket _ (rw_live0 _ Hrw) i c Hi) as [_ Hbk]. specialize (Hbk e He).
  unfold bucket_of in Hbk. rewrite Heq in Hbk. fold (bucket_idx key (ht0 d)) in Hbk.
  rewrite (rw_moved _ Hrw) in Hi by lia. simplify_eq. by apply not_elem_of_nil in He.
Qed.

End dict_proofs.
