(* ===== verification/DictOps.v ===== *)
(** DictOps: the operations of the hash table refine those of a finite map.

    [abs] is the map a dictionary represents: from a lookup key to the stored
    key and the value.  Searches, insertions, replacements, deletions, links,
    two-phase unlinking and emptying are each related to the map operation, and
    [dict_refines_map] puts them together for arbitrary sequences of operations,
    under any resize policy and any rehashing progress. *)

From Stdlib Require Import ZArith Lia Bool.
From stdpp Require Import base list numbers decidable gmap.
From S2P Require Import Prelude Bytes Dict DictProofs.

Local Open Scope Z_scope.

Section dict_ops.
Context {K SK V : Type} `{Countable K}.
Context (ty : dictType K SK V) {laws : DictTypeLaws ty}.
Local Abbreviation entry := (dictEntry SK V).
Local Abbreviation table := (ht SK V).
Local Abbreviation dict := (dict SK V).
Local Abbreviation ekey := (entry_key ty).

(** * Links *)

(** Table [t] is in use. *)
Definition in_use (d : dict) (t : Z) : Prop :=
  (t = 0 /\ ht_live ty (ht0 d)) \/ (t = 1 /\ rehash_wf ty d).

(** The link points to entry [e] of a live table. *)
Definition holds (d : dict) (l : dictEntryLink) (e : entry) : Prop :=
  in_use d (l_table l) /\ 0 <= l_idx l /\
  exists c, ht_table (ht_get d (l_table l)) !! Z.to_nat (l_idx l) = Some c /\ c !! l_pos l = Some e.

Lemma in_use_live d t : in_use d t -> ht_live ty (ht_get d t).
Proof. intros [[-> ?]|[-> Hr]]; [done|apply Hr]. Qed.

Lemma holds_deref d l e : holds d l e -> deref d l = Ok e.
Proof.
  intros (_ & Hi & c & Hc & He). unfold deref. rewrite (rd1_lookup _ _ c) by done. runr. by rewrite He.
Qed.

Lemma get_elems d t : in_use d t -> forall e, e ∈ elems (ht_get d t) -> e ∈ dict_elems d.
Proof. intros [[-> _]|[-> _]] e He; apply elem_of_app; [by left|by right]. Qed.

Lemma holds_elem d l e : holds d l e -> e ∈ dict_elems d.
Proof.
  intros (Hu & _ & c & Hc & He). apply (get_elems d _ Hu). apply elem_of_concat.
  exists (Z.to_nat (l_idx l)), c. split; [done|]. by eapply list_elem_of_lookup_2.
Qed.

(** The outcome of a search. *)
Definition located (d : dict) (key : K) (r : option dictEntryLink) : Prop :=
  match r with
  | Some l => exists e, holds d l e /\ ekey e = key
  | None => forall e, e ∈ dict_elems d -> ekey e <> key
  end.

Lemma located_none d key :
  (forall e, e ∈ elems (ht0 d) -> ekey e <> key) ->
  (forall e, e ∈ elems (ht1 d) -> ekey e <> key) -> located d key None.
Proof. intros H0 H1 e [He|He]%elem_of_app; [by apply H0|by apply H1]. Qed.

Lemma not_rehashing_ht1 d : dict_wf ty d -> dictIsRehashing d = false -> ht1 d = empty_ht.
Proof.
  intros Hwf E%rehashing_false. destruct (wf_tables _ _ Hwf) as [(_ & _ & ?)|Hr]; [done|].
  pose proof (rw_idx _ _ Hr). lia.
Qed.

Lemma located_none_single d key :
  dict_wf ty d -> dictIsRehashing d = false ->
  (forall e, e ∈ elems (ht0 d) -> ekey e <> key) -> located d key None.
Proof.
  intros Hwf E H0. apply located_none; [done|]. rewrite (not_rehashing_ht1 d Hwf E).
  by intros e ?%not_elem_of_nil.
Qed.

(** The bucket a new key goes to. *)
Definition target_link (d : dict) (key : K) : dictEntryLink :=
  {| l_table := ht_target d; l_idx := bucket_idx ty key (ht_get d (ht_target d)); l_pos := 0 |}.

(** * Probing the two tables *)

Definition skipped (d : dict) (idx : Z) : bool := i64 idx <? rehashidx d.

(** Table 0 was skipped, or its bucket does not hold the key. *)
Definition first_miss (d : dict) (key : K) (idx : Z) : Prop :=
  skipped d idx = true \/
  (skipped d idx = false /\ exists c, rd1 (ht_table (ht0 d)) (bucket_idx ty key (ht0 d)) = Ok c /\
                                    chain_find ty key c = None).

(** What a search sees, in the order the code looks. *)
Inductive probed (d : dict) (key : K) (idx : Z) : option dictEntryLink -> Prop :=
  | probed0 c p :
      skipped d idx = false -> rd1 (ht_table (ht0 d)) (bucket_idx ty key (ht0 d)) = Ok c ->
      chain_find ty key c = Some p ->
      probed d key idx (Some {| l_table := 0; l_idx := bucket_idx ty key (ht0 d); l_pos := p |})
  | probed0_none c :
      skipped d idx = false -> rd1 (ht_table (ht0 d)) (bucket_idx ty key (ht0 d)) = Ok c ->
      chain_find ty key c = None -> dictIsRehashing d = false -> probed d key idx None
  | probed1 c p :
      first_miss d key idx -> dictIsRehashing d = true ->
      rd1 (ht_table (ht1 d)) (bucket_idx ty key (ht1 d)) = Ok c -> chain_find ty key c = Some p ->
      probed d key idx (Some {| l_table := 1; l_idx := bucket_idx ty key (ht1 d); l_pos := p |})
  | probed1_none c :
      first_miss d key idx -> dictIsRehashing d = true ->
      rd1 (ht_table (ht1 d)) (bucket_idx ty key (ht1 d)) = Ok c -> chain_find ty key c = None ->
      probed d key idx None.

Lemma probe_second d key idx :
  rehash_wf ty d -> first_miss d key idx -> (forall e, e ∈ elems (ht0 d) -> ekey e <> key) ->
  exists r, probed d key idx r /\ located d key r.
Proof.
  intros Hr Hm H0. pose proof (rehash_wf_rehashing ty d Hr) as E.
  destruct (search_table ty (ht1 d) key (rw_live1 _ _ Hr)) as (Hi & c & Hc & Hrd & _ & Hs).
  destruct (chain_find ty key c) as [p|] eqn:Hf.
  - destruct Hs as (e & He & Hk). eexists. split; [by eapply probed1|].
    exists e. split; [|done]. split; [by right|]. split; [done|]. by exists c.
  - exists None. split; [by eapply probed1_none|by apply located_none].
Qed.

Lemma probe_ok d key idx :
  dict_wf ty d -> ht_live ty (ht0 d) -> stale_idx ty d key idx ->
  exists r, probed d key idx r /\ located d key r.
Proof.
  intros Hwf Hl Hst. destruct (skipped d idx) eqn:Hsk.
  { destruct (skip_ok ty d key idx Hwf Hst) as [Hr H0]; [by apply Z.ltb_lt|].
    apply probe_second; [done|by left|done]. }
  destruct (search_table ty (ht0 d) key Hl) as (Hi & c & Hc & Hrd & _ & Hs).
  destruct (chain_find ty key c) as [p|] eqn:Hf.
  { destruct Hs as (e & He & Hk). eexists. split; [by eapply probed0|].
    exists e. split; [|done]. split; [by left|]. split; [done|]. by exists c. }
  destruct (dictIsRehashing d) eqn:E.
  - apply probe_second; [by apply rehashing_wf|right; eauto|done].
  - exists None. split; [by eapply probed0_none|by apply located_none_single].
Qed.

(** * The search loops follow the probe *)

(** Expose the tests of a search loop in the terms of [probed]. *)
Ltac probe_round :=
  cbn [find_link_loop insert_loop delete_loop unlink_find_loop];
  repeat (change (0 =? 0) with true); repeat (change (1 =? 0) with false);
  repeat match goal with
  | |- context [ht_get ?d 0] => change (ht_get d 0) with (ht0 d)
  | |- context [ht_get ?d 1] => change (ht_get d 1) with (ht1 d)
  | |- context [Z.land (dictGetHash ty ?k) (DICTHT_SIZE_MASK (ht_size_exp ?h))] =>
      change (Z.land (dictGetHash ty k) (DICTHT_SIZE_MASK (ht_size_exp h))) with (bucket_idx ty k h)
  | |- context [i64 ?i <? rehashidx ?d] => change (i64 i <? rehashidx d) with (skipped d i)
  end;
  rewrite ?andb_true_l, ?andb_false_l.

(** Follow the probe [Hp] through a loop. *)
Ltac follow_probe Hp :=
  let c := fresh "c" in
  destruct Hp as [c p Hsk Hrd Hf|c Hsk Hrd Hf E|c p Hm E Hrd Hf|c Hm E Hrd Hf];
  probe_round;
  [ rewrite Hsk, Hrd; runr; rewrite Hf
  | rewrite Hsk, Hrd; runr; rewrite Hf, ?E
  | destruct Hm as [Hsk|(Hsk & c0 & Hrd0 & Hf0)];
      [rewrite Hsk|rewrite Hsk, Hrd0; runr; rewrite Hf0, ?E]; cbn [negb]; rewrite Hrd; runr; rewrite Hf
  | destruct Hm as [Hsk|(Hsk & c0 & Hrd0 & Hf0)];
      [rewrite Hsk|rewrite Hsk, Hrd0; runr; rewrite Hf0, ?E]; cbn [negb]; rewrite Hrd; runr; rewrite Hf, ?E ];
  cbn [negb].

Lemma find_link_loop_ok d key idx r :
  probed d key idx r ->
  exists b, find_link_loop ty (if dictIsRehashing d then [0; 1] else [0]) d key (dictGetHash ty key) idx None
      = Ok (r, b) /\ (r = None -> b = Some (target_link d key)).
Proof.
  intros Hp. unfold target_link, ht_target.
  destruct Hp as [c p Hsk Hrd Hf|c Hsk Hrd Hf E|c p Hm E Hrd Hf|c Hm E Hrd Hf]; rewrite ?E.
  - destruct (dictIsRehashing d); probe_round; rewrite Hsk, Hrd; runr; rewrite Hf; by eexists.
  - probe_round. rewrite Hsk, Hrd. runr. rewrite Hf. by eexists.
  - probe_round. destruct Hm as [Hsk|(Hsk & c0 & Hrd0 & Hf0)].
    + rewrite Hsk, Hrd. runr. rewrite Hf. by eexists.
    + rewrite Hsk, Hrd0. runr. rewrite Hf0, Hrd. runr. rewrite Hf. by eexists.
  - probe_round. destruct Hm as [Hsk|(Hsk & c0 & Hrd0 & Hf0)].
    + rewrite Hsk, Hrd. runr. rewrite Hf. by eexists.
    + rewrite Hsk, Hrd0. runr. rewrite Hf0, Hrd. runr. rewrite Hf. by eexists.
Qed.

Lemma insert_loop_ok d key idx r :
  probed d key idx r ->
  insert_loop ty [0; 1] d key (dictGetHash ty key) idx =
  Ok match r with Some l => inl l | None => inr (l_idx (target_link d key)) end.
Proof.
  intros Hp. unfold target_link, ht_target. follow_probe Hp; try done; by rewrite E.
Qed.

Lemma unlink_find_loop_ok d key r :
  probed d key (bucket_idx ty key (ht0 d)) r ->
  unlink_find_loop ty [0; 1] d key (dictGetHash ty key) =
  Ok (match r with Some _ => dictPauseRehashing d | None => d end, r).
Proof. intros Hp. by follow_probe Hp. Qed.

(** What dictGenericDelete does with the outcome of the search. *)
Definition delete_found (cr : dictResizeEnable) (d : dict) (r : option dictEntryLink)
  : result (dict * option entry) :=
  match r with
  | Some l =>
      let* he := deref d l in
      let* d := unlink_at d (l_table l) (l_idx l) (l_pos l) in
      let* d := _dictShrinkIfNeeded ty cr d in
      Ok (d, Some he)
  | None => Ok (d, None)
  end.

Lemma delete_loop_ok cr d key idx r :
  probed d key idx r ->
  delete_loop ty [0; 1] cr d key (dictGetHash ty key) idx = delete_found cr d r.
Proof. intros Hp. by follow_probe Hp. Qed.
(** * Changing one bucket *)

(** Table [t] with bucket [i] replaced. *)
Definition with_bucket (d : dict) (t : Z) (i : nat) (c : list entry) (used : Z) : dict :=
  ht_set d t {| ht_table := <[i := c]> (ht_table (ht_get d t)); ht_used := used;
                ht_size_exp := ht_size_exp (ht_get d t) |}.

Lemma with_bucket_ok d t i c c' used' :
  dict_wf ty d -> in_use d t -> ht_table (ht_get d t) !! i = Some c ->
  bucket_ok ty (ht_size_exp (ht_get d t)) i c' ->
  used' = ht_used (ht_get d t) - zlen c + zlen c' ->
  (t = 0 -> dictIsRehashing d = true -> c <> []) ->
  let d' := with_bucket d t i c' used' in
  exists rest, dict_elems d ≡ₚ c ++ rest /\ dict_elems d' ≡ₚ c' ++ rest /\
    (keys_wf ty d' -> dict_wf ty d') /\ in_use d' t /\ (ht_live ty (ht0 d) -> ht_live ty (ht0 d')).
Proof.
  intros Hwf Hu Hc Hb -> Hne d'.
  destruct (ht_live_update ty (ht_get d t) i c c' _ (in_use_live d t Hu) Hc Hb eq_refl)
    as (Hl & rest & H1 & H2).
  destruct Hu as [[-> Hl0]|[-> Hr]]; simpl in *.
  - exists (rest ++ elems (ht1 d)). unfold dict_elems, elems. simpl. split_and!.
    + unfold elems in H1. by rewrite H1, app_assoc.
    + by rewrite H2, app_assoc.
    + intros Hk. constructor; [|done]. destruct (wf_tables _ _ Hwf) as [(E & _ & E1)|Hr].
      * left. split_and!; [done|by right|done].
      * right. pose proof (rehash_wf_rehashing ty d Hr) as E. destruct Hr as [R0 R1 Re Ri Rm].
        constructor; simpl; try done; [by rewrite zlen_insert|].
        intros j Hj. rewrite list_lookup_insert_ne; [by apply Rm|].
        intros ->. rewrite Rm in Hc by done. by destruct Hne; simplify_eq.
    + by left.
    + done.
  - exists (elems (ht0 d) ++ rest). unfold dict_elems, elems. simpl. unfold elems in H1. split_and!.
    + rewrite H1. apply Permutation_app_swap_app.
    + rewrite H2. apply Permutation_app_swap_app.
    + intros Hk. constructor; [|done]. right. destruct Hr. constructor; simpl; try done.
    + right. split; [done|]. destruct Hr. constructor; simpl; try done.
    + done.
Qed.

(** What the operations leave alone. *)
Record same_frame (d d' : dict) : Prop := {
  sf_pause : pauserehash d' = pauserehash d;
  sf_auto : pauseAutoResize d' = pauseAutoResize d;
  sf_told : told d d';
  sf_live : ht_live ty (ht0 d) -> ht_live ty (ht0 d');
}.

Lemma maintains_frame d d' : maintains ty d d' -> same_frame d d'.
Proof. intros []. by constructor. Qed.

Lemma same_frame_trans d1 d2 d3 : same_frame d1 d2 -> same_frame d2 d3 -> same_frame d1 d3.
Proof. intros [] []. constructor; try congruence; eauto using told_trans. Qed.

Lemma with_bucket_frame d t i c used :
  (ht_live ty (ht0 d) -> ht_live ty (ht0 (with_bucket d t i c used))) ->
  same_frame d (with_bucket d t i c used).
Proof.
  intros Hl. constructor; try done; unfold with_bucket, ht_set; destruct (t =? 0) eqn:E; try done.
  - apply told_same; [done|]. unfold book, rehashing_from, ht_get. by rewrite E.
  - apply told_same; [done|]. unfold book, rehashing_from, ht_get. by rewrite E.
Qed.

(** The bucket of a link in use is not one that was moved already. *)
Lemma holds_unmoved d l e c :
  holds d l e -> ht_table (ht_get d (l_table l)) !! Z.to_nat (l_idx l) = Some c -> c <> [].
Proof. intros (_ & _ & c' & Hc' & He) Hc ->. rewrite Hc in Hc'. simplify_eq. Qed.

(** ** Unlinking *)

Lemma perm_delete {A} (c : list A) p e : c !! p = Some e -> c ≡ₚ e :: delete p c.
Proof. apply delete_Permutation. Qed.

Lemma bucket_ok_sub exp i c c' :
  bucket_ok ty exp i c -> chain_ok ty c' -> (forall e, e ∈ c' -> e ∈ c) -> bucket_ok ty exp i c'.
Proof. intros [_ Hb] Hc Hs. split; [done|]. intros e He. by apply Hb, Hs. Qed.

Lemma unlink_at_ok d l e :
  dict_wf ty d -> holds d l e ->
  exists d', unlink_at d (l_table l) (l_idx l) (l_pos l) = Ok d' /\ dict_wf ty d' /\
    dict_elems d ≡ₚ e :: dict_elems d' /\ same_frame d d'.
Proof.
  intros Hwf Hh. pose proof Hh as (Hu & Hi & c & Hc & He). pose proof (in_use_live _ _ Hu) as Hl.
  pose proof (live_bucket _ _ Hl _ _ Hc) as Hb.
  destruct (chain_unlink_ok ty c (l_pos l) e (proj1 Hb) He) as [Hcu Hok].
  pose proof (perm_delete _ _ _ He) as Hp. pose proof (zlen_perm _ _ Hp) as Hz. rewrite zlen_cons in Hz.
  assert (0 <= ht_used (ht_get d (l_table l)) - 1 < 2 ^ 64) as Hu'.
  { destruct (used_range ty d Hwf) as (? & ? & _).
    assert (1 <= ht_used (ht_get d (l_table l))).
    { rewrite (live_used _ _ Hl). destruct (concat_insert_perm _ _ c [] Hc) as (rest & Hp' & _).
      unfold elems. rewrite (zlen_perm _ _ Hp'), zlen_app.
      pose proof (zlen_nonneg rest). pose proof (zlen_nonneg (delete (l_pos l) c)). lia. }
    unfold ht_get in *. destruct (_ =? 0); lia. }
  unfold unlink_at. rewrite (rd1_lookup _ _ c) by done. runr. rewrite Hcu. runr.
  rewrite wr1_ok by (apply lookup_lt_Some in Hc; unfold zlen; lia). runr.
  rewrite (wrapU_small 64) by lia.
  destruct (with_bucket_ok d (l_table l) (Z.to_nat (l_idx l)) c (delete (l_pos l) c)
    (ht_used (ht_get d (l_table l)) - 1)) as (rest & H1 & H2 & Hk & _ & Hlv); try done.
  - eapply bucket_ok_sub; [done..|]. intros x Hx. rewrite Hp. by right.
  - lia.
  - intros _ _. by eapply holds_unmoved.
  - set (d' := with_bucket _ _ _ _ _) in *.
    assert (dict_elems d ≡ₚ e :: dict_elems d') as Hel.
    { rewrite H2, H1. by rewrite Hp at 1. }
    exists d'. split; [done|]. split_and!; [|done|by apply with_bucket_frame].
    apply Hk. destruct (wf_keys _ _ Hwf) as [Hnd Hlen]. rewrite Hel in Hnd.
    rewrite (zlen_perm _ _ Hel), zlen_cons in Hlen. split; [by inversion Hnd|lia].
Qed.

(** ** Inserting *)

Lemma target_in_use d : dict_wf ty d -> ht_live ty (ht0 d) -> in_use d (ht_target d).
Proof.
  intros Hwf Hl. unfold ht_target. destruct (dictIsRehashing d) eqn:E; [right|by left].
  split; [done|by apply rehashing_wf].
Qed.

(** The entry a new key is stored in, in front of chain [b]. *)
Definition new_entry (sk : SK) (b : list entry) : entry :=
  if no_value ty then match b with [] => EntryKey sk | _ => EntryNoValue sk end
  else EntryNormal sk None.

Lemma new_entry_ok sk b :
  chain_ok ty b -> chain_ok ty (new_entry sk b :: b) /\ content (new_entry sk b) = (sk, None).
Proof.
  intros Hb. unfold new_entry, content. destruct (no_value ty) eqn:E, b; simpl; split;
    try done; repeat split; try done; apply Hb.
Qed.

Lemma insertKeyAtLink_ok d sk :
  dict_wf ty d -> ht_live ty (ht0 d) -> zlen (dict_elems d) + 1 < 2 ^ 64 ->
  located d (keyFromStoredKey ty sk) None ->
  let l := target_link d (keyFromStoredKey ty sk) in
  exists d' e, dictInsertKeyAtLink ty d sk l = Ok (d', l) /\ dict_wf ty d' /\
    dict_elems d' ≡ₚ e :: dict_elems d /\ content e = (sk, None) /\ holds d' l e /\
    same_frame d d' /\ (no_value ty = false -> e = EntryNormal sk None).
Proof.
  intros Hwf Hl Hlen Hno l. pose proof (target_in_use d Hwf Hl) as Hu.
  pose proof (in_use_live _ _ Hu) as Ht. set (key := keyFromStoredKey ty sk) in *.
  destruct (search_table ty _ key Ht) as (Hi & b & Hb & Hrd & Hbok & _).
  pose proof (bucket_range (dictGetHash ty key) _ (live_exp _ _ Ht)) as Hbi.
  fold (bucket_idx ty key (ht_get d (ht_target d))) in Hbi.
  destruct (new_entry_ok sk b (proj1 Hbok)) as [Hcok Hcont].
  unfold dictInsertKeyAtLink. subst l. unfold target_link. cbn [l_table l_idx]. rewrite Z.eqb_refl.
  rewrite DICTHT_SIZE_MASK_ok by apply Ht. dec_bool. runr. rewrite Hrd. runr.
  fold (new_entry sk b).
  rewrite wr1_ok by (by rewrite (live_len _ _ Ht)). runr.
  assert (ht_used (ht_get d (ht_target d)) + 1 < 2 ^ 64 /\ 0 <= ht_used (ht_get d (ht_target d))).
  { destruct (used_range ty d Hwf) as (? & ? & ? & ?). unfold ht_get. destruct (_ =? 0); lia. }
  rewrite (wrapU_small 64) by lia.
  destruct (with_bucket_ok d (ht_target d)
    (Z.to_nat (bucket_idx ty key (ht_get d (ht_target d)))) b (new_entry sk b :: b)
    (ht_used (ht_get d (ht_target d)) + 1)) as (rest & H1 & H2 & Hk & Hu' & Hlv); try done.
  - split; [done|]. intros x [->|Hx]%elem_of_cons; [|by apply Hbok].
    unfold bucket_of. rewrite ekey_content, Hcont. unfold ckey. simpl.
    fold key. fold (bucket_idx ty key (ht_get d (ht_target d))). lia.
  - rewrite zlen_cons. lia.
  - intros E Er. unfold ht_target in E. by rewrite Er in E.
  - set (d' := with_bucket _ _ _ _ _) in *.
    assert (dict_elems d' ≡ₚ new_entry sk b :: dict_elems d) as Hel by (by rewrite H1, H2).
    exists d', (new_entry sk b). split; [done|]. split_and!; [|done|done| |by apply with_bucket_frame|].
    + apply Hk. destruct (wf_keys _ _ Hwf) as [Hnd _]. split.
      * rewrite Hel. simpl. constructor; [|done]. rewrite ekey_content, Hcont. unfold ckey. simpl.
        intros (x & Hx & Hin)%list_elem_of_fmap. by apply (Hno x).
      * rewrite (zlen_perm _ _ Hel), zlen_cons. lia.
    + split; [done|]. split; [done|]. exists (new_entry sk b :: b). split; [|done].
      apply lookup_lt_Some in Hb. unfold d', with_bucket, ht_set, ht_get in *. cbn [l_table l_idx].
      destruct (ht_target d =? 0); by apply list_lookup_insert_eq.
    + unfold new_entry. by intros ->.
Qed.

(** ** Overwriting an entry *)

Lemma chain_ok_insert c p e e' :
  chain_ok ty c -> c !! p = Some e -> kind_ok ty e' -> entryIsKey e' = entryIsKey e ->
  chain_ok ty (<[p := e']> c).
Proof.
  revert p. induction c as [|x c IH]; intros p; [done|]. intros (Hkd & Hk & Hc) Hp Hk' Hek.
  destruct p as [|p]; simplify_eq/=.
  - by rewrite Hek.
  - repeat split; try done; [|by apply IH]. intros E. by rewrite (Hk E) in Hp.
Qed.

Lemma perm_insert {A} (c : list A) p e e' :
  c !! p = Some e -> <[p := e']> c ≡ₚ e' :: delete p c.
Proof.
  intros Hp. rewrite insert_take_drop by by eapply lookup_lt_Some.
  rewrite delete_take_drop. symmetry. apply Permutation_middle.
Qed.

Lemma put_ok d l e e' :
  dict_wf ty d -> holds d l e -> kind_ok ty e' -> entryIsKey e' = entryIsKey e -> ekey e' = ekey e ->
  exists d' rest, put d l e' = Ok d' /\ dict_wf ty d' /\
    dict_elems d ≡ₚ e :: rest /\ dict_elems d' ≡ₚ e' :: rest /\ holds d' l e' /\ same_frame d d'.
Proof.
  intros Hwf Hh Hkd Hek Hkey. pose proof Hh as (Hu & Hi & c & Hc & He).
  pose proof (in_use_live _ _ Hu) as Hl. pose proof (live_bucket _ _ Hl _ _ Hc) as Hb.
  pose proof (perm_delete _ _ _ He) as Hp. pose proof (perm_insert _ _ _ e' He) as Hp'.
  unfold put. rewrite (rd1_lookup _ _ c) by done. runr.
  rewrite bool_decide_true by by eapply lookup_lt_Some. runr.
  rewrite wr1_ok by (apply lookup_lt_Some in Hc; unfold zlen; lia). runr.
  destruct (with_bucket_ok d (l_table l) (Z.to_nat (l_idx l)) c (<[l_pos l := e']> c)
    (ht_used (ht_get d (l_table l)))) as (rest & H1 & H2 & Hk & Hu' & Hlv); try done.
  - split; [by eapply chain_ok_insert; try done; apply Hb|]. intros x. rewrite Hp'.
    intros [->|Hx]%elem_of_cons.
    + unfold bucket_of. rewrite Hkey. apply Hb. by eapply list_elem_of_lookup_2.
    + apply Hb. rewrite Hp. by right.
  - rewrite zlen_insert. lia.
  - intros _ _. by eapply holds_unmoved.
  - set (d' := with_bucket _ _ _ _ _) in *.
    assert (dict_elems d ≡ₚ e :: delete (l_pos l) c ++ rest) as E1 by (rewrite H1; by rewrite Hp at 1).
    assert (dict_elems d' ≡ₚ e' :: delete (l_pos l) c ++ rest) as E2 by (by rewrite H2, Hp').
    exists d', (delete (l_pos l) c ++ rest). split; [done|]. split_and!; try done.
    + apply Hk. destruct (wf_keys _ _ Hwf) as [Hnd Hlen]. split.
      * rewrite E2. rewrite E1 in Hnd. simpl in *. by rewrite Hkey.
      * rewrite (zlen_perm _ _ E2), zlen_cons. rewrite (zlen_perm _ _ E1), zlen_cons in Hlen. done.
    + split; [done|]. split; [done|]. exists (<[l_pos l := e']> c). split.
      * apply lookup_lt_Some in Hc. unfold d', with_bucket, ht_set, ht_get in *.
        destruct (l_table l =? 0); by apply list_lookup_insert_eq.
      * apply list_lookup_insert_eq. by eapply lookup_lt_Some.
    + by apply with_bucket_frame.
Qed.


(** * The abstract map *)

Definition kv (c : SK * option V) : K * (SK * option V) := (ckey ty c, c).

Definition abs (d : dict) : gmap K (SK * option V) := list_to_map (map kv (contents (dict_elems d))).

Lemma kv_keys l : (map kv l).*1 = map (ckey ty) l.
Proof. change ((map kv l).*1) with (map fst (map kv l)). by rewrite map_map. Qed.

Lemma wf_nodup d : dict_wf ty d -> NoDup (map kv (contents (dict_elems d))).*1.
Proof. intros Hwf. rewrite kv_keys, <- keys_of_contents. apply Hwf. Qed.

Lemma abs_perm d d' :
  dict_wf ty d -> contents (dict_elems d') ≡ₚ contents (dict_elems d) -> abs d' = abs d.
Proof.
  intros Hwf Hp. symmetry. apply list_to_map_proper; [by apply wf_nodup|]. by rewrite Hp.
Qed.

Lemma abs_maintains d d' : dict_wf ty d -> maintains ty d d' -> abs d' = abs d.
Proof. intros Hwf Hm. apply abs_perm; [done|apply Hm]. Qed.

Lemma abs_cons d' e l :
  dict_wf ty d' -> dict_elems d' ≡ₚ e :: l ->
  abs d' = <[ekey e := content e]> (list_to_map (map kv (contents l))).
Proof.
  intros Hwf Hp. transitivity (list_to_map (map kv (contents (e :: l))) : gmap K (SK * option V)).
  - apply list_to_map_proper; [by apply wf_nodup|]. unfold contents. by rewrite Hp.
  - simpl. by rewrite (ekey_content ty e).
Qed.

Lemma abs_cons_fresh d' e l :
  dict_wf ty d' -> dict_elems d' ≡ₚ e :: l ->
  (list_to_map (map kv (contents l)) : gmap K (SK * option V)) !! ekey e = None.
Proof.
  intros Hwf Hp. apply not_elem_of_list_to_map_1. rewrite kv_keys, <- keys_of_contents.
  destruct (wf_keys _ _ Hwf) as [Hnd _]. rewrite Hp in Hnd. by inversion Hnd.
Qed.

Lemma abs_delete d d' e :
  dict_wf ty d -> dict_elems d ≡ₚ e :: dict_elems d' -> abs d' = delete (ekey e) (abs d).
Proof.
  intros Hwf Hp. rewrite (abs_cons d e _ Hwf Hp), delete_insert_id; [done|].
  by eapply abs_cons_fresh.
Qed.

Lemma abs_elem d e : dict_wf ty d -> e ∈ dict_elems d -> abs d !! ekey e = Some (content e).
Proof.
  intros Hwf He. apply elem_of_list_to_map_1; [by apply wf_nodup|].
  rewrite (ekey_content ty e). apply list_elem_of_fmap. exists (content e). split; [done|].
  apply list_elem_of_fmap. by exists e.
Qed.

Lemma abs_located d key r :
  dict_wf ty d -> located d key r ->
  match r with
  | Some l => exists e, holds d l e /\ ekey e = key /\ abs d !! key = Some (content e)
  | None => abs d !! key = None
  end.
Proof.
  intros Hwf Hr. destruct r as [l|].
  - destruct Hr as (e & Hh & <-). exists e. split_and!; try done. apply abs_elem; [done|by eapply holds_elem].
  - apply not_elem_of_list_to_map_1. rewrite kv_keys, <- keys_of_contents.
    intros (e & -> & He)%list_elem_of_fmap. by apply (Hr e).
Qed.

Lemma abs_size d : dict_wf ty d -> Z.of_nat (size (abs d)) = zlen (dict_elems d).
Proof.
  intros Hwf. unfold abs. rewrite <- length_map_to_list, map_to_list_to_map by by apply wf_nodup.
  unfold zlen, contents. by rewrite !length_map.
Qed.

Lemma size_live d : dict_wf ty d -> dictSize d <> 0 -> ht_live ty (ht0 d).
Proof.
  intros Hwf Hs. destruct (wf_tables _ _ Hwf) as [(_ & [E|?] & E1)|Hr]; [|done|apply Hr].
  destruct Hs. rewrite (dictSize_ok ty d Hwf). unfold dict_elems. by rewrite E, E1.
Qed.

Lemma abs_empty d : dict_wf ty d -> dictSize d = 0 -> abs d = ∅.
Proof.
  intros Hwf Hs. rewrite (dictSize_ok ty d Hwf) in Hs. apply zlen_nil_inv in Hs.
  unfold abs. by rewrite Hs.
Qed.

(** * Operations *)

(** The step every search starts with, then the probe. *)
Lemma step_and_probe cr d key :
  dict_wf ty d -> ht_live ty (ht0 d) ->
  exists d1 r, _dictRehashStepIfNeeded ty cr d (bucket_idx ty key (ht0 d)) = Ok d1 /\ maintains ty d d1 /\
    probed d1 key (bucket_idx ty key (ht0 d)) r /\ located d1 key r.
Proof.
  intros Hwf Hl. destruct (rehashStepIfNeeded_ok ty cr d (dictGetHash ty key) Hwf) as (d1 & Hst & Hn).
  destruct (probe_ok d1 key (bucket_idx ty key (ht0 d))) as (r & Hp & Hloc).
  - apply (near_mt _ _ _ Hn).
  - by apply (near_mt _ _ _ Hn).
  - by apply stale_near.
  - exists d1, r. split_and!; try done. apply Hn.
Qed.

Lemma findLinkInternal_ok cr d key want :
  dict_wf ty d -> ht_live ty (ht0 d) -> want = true \/ dictSize d <> 0 ->
  exists d' r b, dictFindLinkInternal ty cr d key want = Ok (d', r, b) /\ maintains ty d d' /\
    located d' key r /\ (r = None -> b = Some (target_link d' key)).
Proof.
  intros Hwf Hl Hw. unfold dictFindLinkInternal.
  assert (negb want && (dictSize d =? 0) = false) as ->.
  { destruct Hw as [->|Hw]; [done|]. apply andb_false_iff. right. by apply Z.eqb_neq. }
  destruct (step_and_probe cr d key Hwf Hl) as (d1 & r & Hst & Hm & Hp & Hloc).
  unfold bucket_idx in Hst. rewrite Hst. runr.
  destruct (find_link_loop_ok d1 key _ r Hp) as (b & Hf & Hb). unfold bucket_idx in Hf. rewrite Hf. runr.
  exists d1, r, b. by split_and!.
Qed.

Lemma findLink_ok cr d key want :
  dict_wf ty d ->
  exists d' r b, dictFindLink ty cr d key want = Ok (d', r, b) /\ maintains ty d d' /\
    located d' key r /\ (r = None -> b = None \/ b = Some (target_link d' key)).
Proof.
  intros Hwf. unfold dictFindLink. destruct (Z.eqb_spec (dictSize d) 0) as [E|E].
  - exists d, None, None. split_and!; [done|by apply maintains_refl| |by left].
    intros e He. rewrite (dictSize_ok ty d Hwf) in E. apply zlen_nil_inv in E. rewrite E in He.
    by apply not_elem_of_nil in He.
  - destruct (findLinkInternal_ok cr d key want) as (d' & r & b & -> & Hm & Hloc & Hb);
      [done|by apply size_live|by right|]. exists d', r, b. split_and!; auto.
Qed.

Lemma find_ok cr d key :
  dict_wf ty d ->
  exists d' r, dictFind ty cr d key = Ok (d', r) /\ maintains ty d d' /\ content <$> r = abs d !! key.
Proof.
  intros Hwf. unfold dictFind. destruct (findLink_ok cr d key false Hwf) as (d' & r & b & -> & Hm & Hloc & _).
  runr. apply abs_located in Hloc; [|apply Hm]. rewrite (abs_maintains d d' Hwf Hm) in Hloc. destruct r as [l|].
  - destruct Hloc as (e & Hh & _ & Ha). rewrite (holds_deref _ _ _ Hh). runr.
    exists d', (Some e). by split_and!.
  - exists d', None. by split_and!.
Qed.

(** [can_insert] survives background work. *)
Lemma can_insert_frame d d' : same_frame d d' -> can_insert ty d -> can_insert ty d'.
Proof. intros Hf [Ha|Hl]; [left; by rewrite (sf_auto _ _ Hf)|right; by apply (sf_live _ _ Hf)]. Qed.

Lemma findLinkForInsert_ok cr d key :
  dict_wf ty d -> can_insert ty d ->
  exists d', maintains ty d d' /\ ht_live ty (ht0 d') /\
    ((exists l, dictFindLinkForInsert ty cr d key = Ok (d', inl l) /\ located d' key (Some l)) \/
     (dictFindLinkForInsert ty cr d key = Ok (d', inr (target_link d' key)) /\ located d' key None)).
Proof.
  intros Hwf Hci. unfold dictFindLinkForInsert.
  destruct (rehashStepIfNeeded_ok ty cr d (dictGetHash ty key) Hwf) as (d1 & -> & Hn). runr.
  pose proof (near_mt _ _ _ Hn) as Hm1. pose proof (mt_wf _ _ _ Hm1) as Hwf1.
  destruct (autoExpand_ok ty cr d1 Hwf1) as (d2 & b & -> & Hm2 & Hd2 & Hl2).
  { by apply (can_insert_frame d), Hci; apply maintains_frame. }
  runr. destruct (probe_ok d2 key (bucket_idx ty key (ht0 d))) as (r & Hp & Hloc).
  - apply Hm2.
  - done.
  - eapply stale_expand; [|done]. by apply stale_near.
  - change (Z.land (dictGetHash ty key) (DICTHT_SIZE_MASK (ht_size_exp (ht0 d))))
      with (bucket_idx ty key (ht0 d)).
    rewrite (insert_loop_ok d2 key _ r Hp). runr. exists d2.
    split; [by eapply maintains_trans|]. split; [done|]. destruct r as [l|]; [left; by exists l|right].
    by split.
Qed.

(** Room for one more entry in the 64-bit counters. *)
Definition has_room (d : dict) : Prop := zlen (dict_elems d) + 1 < 2 ^ 64.

Lemma maintains_zlen d d' : maintains ty d d' -> zlen (dict_elems d') = zlen (dict_elems d).
Proof. intros Hm. rewrite <- !zlen_contents. apply zlen_perm, Hm. Qed.

(** Adding a key: the new entry has no value yet. *)
Lemma addRaw_ok cr d sk :
  dict_wf ty d -> can_insert ty d -> has_room d ->
  let key := keyFromStoredKey ty sk in
  exists d' r, dictAddRaw ty cr d sk = Ok (d', r) /\ dict_wf ty d' /\ same_frame d d' /\
    match r with
    | inl l => abs d' = abs d /\ exists e, holds d' l e /\ ekey e = key /\ abs d !! key = Some (content e)
    | inr l => abs d !! key = None /\ abs d' = <[key := (keyDup ty sk, None)]> (abs d) /\
               exists e, holds d' l e /\ ekey e = key /\
                         (no_value ty = false -> e = EntryNormal (keyDup ty sk) None)
    end.
Proof.
  intros Hwf Hci Hroom key. unfold dictAddRaw.
  destruct (findLinkForInsert_ok cr d key Hwf Hci) as (d1 & Hm & Hl & [(l & Hf & Hloc)|(Hf & Hloc)]);
    unfold dictStoredKey2Key; fold key; rewrite Hf; runr;
    pose proof (mt_wf _ _ _ Hm) as Hwf1; pose proof (abs_located _ _ _ Hwf1 Hloc) as Ha;
    rewrite (abs_maintains d d1 Hwf Hm) in Ha.
  - exists d1, (inl l). split_and!; [done|done|by apply maintains_frame|by apply abs_maintains|].
    destruct Ha as (e & Hh & Hk & Ha). by exists e.
  - assert (keyFromStoredKey ty (keyDup ty sk) = key) as Hdup by apply dup_key.
    destruct (insertKeyAtLink_ok d1 (keyDup ty sk)) as (d2 & e & Hi & Hwf2 & Hel & Hc & Hh & Hfr & Hnv);
      [done|done|by rewrite (maintains_zlen d d1 Hm)|by rewrite Hdup|].
    rewrite Hdup in Hi, Hh. rewrite Hi. runr.
    assert (ekey e = key) as Hk by (rewrite (ekey_content ty), Hc; unfold ckey; simpl; done).
    exists d2, (inr (target_link d1 key)). split_and!; [done|done| |done| |].
    + eapply same_frame_trans; [by apply maintains_frame|done].
    + rewrite (abs_cons d2 e _ Hwf2 Hel), Hk, Hc. f_equal. fold (abs d1). by apply abs_maintains.
    + by exists e.
Qed.

Lemma setVal_ok d l k v0 val :
  dict_wf ty d -> no_value ty = false -> holds d l (EntryNormal k v0) ->
  exists d', dictSetVal ty d l val = Ok d' /\ dict_wf ty d' /\ same_frame d d' /\
    abs d' = <[keyFromStoredKey ty k := (k, Some (valDup ty val))]> (abs d).
Proof.
  intros Hwf Hnv Hh. unfold dictSetVal. rewrite (holds_deref _ _ _ Hh). runr. simpl.
  destruct (put_ok d l _ (EntryNormal k (Some (valDup ty val))) Hwf Hh)
    as (d' & rest & -> & Hwf' & H1 & H2 & _ & Hf); [done..|].
  exists d'. split_and!; try done. rewrite (abs_cons d' _ _ Hwf' H2), (abs_cons d _ _ Hwf H1).
  by rewrite insert_insert_eq.
Qed.

Lemma normal_of_kind e : no_value ty = false -> kind_ok ty e -> exists k v, e = EntryNormal k v.
Proof. intros Hnv. destruct e; unfold kind_ok; rewrite Hnv; [done..|eauto]. Qed.

Lemma chain_kind c e : chain_ok ty c -> e ∈ c -> kind_ok ty e.
Proof.
  induction c as [|x c IH]; [by intros _ ?%not_elem_of_nil|].
  intros (Hk & _ & Hc) [->|He]%elem_of_cons; [done|by apply IH].
Qed.

Lemma holds_kind d l e : holds d l e -> kind_ok ty e.
Proof.
  intros (Hu & Hi & c & Hc & He). eapply chain_kind; [|by eapply list_elem_of_lookup_2].
  apply (live_bucket _ _ (in_use_live _ _ Hu) _ _ Hc).
Qed.

(** The value an insertion stores. *)
Definition stored_val (val : V) : option V := if no_value ty then None else Some (valDup ty val).

Lemma add_ok cr d sk val :
  dict_wf ty d -> can_insert ty d -> has_room d ->
  let key := keyFromStoredKey ty sk in
  exists d', dictAdd ty cr d sk val = Ok (d', bool_decide (abs d !! key = None)) /\ dict_wf ty d' /\
    same_frame d d' /\
    abs d' = if bool_decide (abs d !! key = None)
             then <[key := (keyDup ty sk, stored_val val)]> (abs d) else abs d.
Proof.
  intros Hwf Hci Hroom key. unfold dictAdd, stored_val.
  destruct (addRaw_ok cr d sk Hwf Hci Hroom) as (d1 & r & -> & Hwf1 & Hf & Hr). runr. fold key in Hr.
  destruct r as [l|l].
  - destruct Hr as [Ha (e & _ & _ & Hs)]. rewrite Hs, bool_decide_false by done. by exists d1.
  - destruct Hr as (Hn & Ha & e & Hh & Hk & He). rewrite bool_decide_true by done.
    destruct (no_value ty) eqn:Hnv; simpl; [by exists d1|].
    rewrite (He eq_refl) in Hh. destruct (setVal_ok d1 l _ _ val Hwf1 Hnv Hh) as (d2 & -> & Hwf2 & Hf2 & Ha2).
    exists d2. split_and!; [done|done|by eapply same_frame_trans|].
    rewrite Ha2, Ha, (dup_key sk). fold key. by rewrite insert_insert_eq.
Qed.

Lemma replace_ok cr d sk val :
  dict_wf ty d -> can_insert ty d -> has_room d -> no_value ty = false ->
  let key := keyFromStoredKey ty sk in
  exists d', dictReplace ty cr d sk val = Ok (d', bool_decide (abs d !! key = None)) /\ dict_wf ty d' /\
    same_frame d d' /\
    abs d' = <[key := (match abs d !! key with Some c => c.1 | None => keyDup ty sk end,
                       Some (valDup ty val))]> (abs d).
Proof.
  intros Hwf Hci Hroom Hnv key. unfold dictReplace.
  destruct (addRaw_ok cr d sk Hwf Hci Hroom) as (d1 & r & -> & Hwf1 & Hf & Hr). runr. fold key in Hr.
  destruct r as [l|l].
  - destruct Hr as [Ha (e & Hh & Hk & Hs)]. rewrite Hs, bool_decide_false by done.
    destruct (normal_of_kind e Hnv (holds_kind _ _ _ Hh)) as (k & v & ->).
    rewrite (holds_deref _ _ _ Hh). runr. simpl. runr.
    destruct (setVal_ok d1 l k v val Hwf1 Hnv Hh) as (d2 & -> & Hwf2 & Hf2 & Ha2). runr.
    exists d2. split_and!; [done|done|by eapply same_frame_trans|]. rewrite Ha2, Ha. by rewrite <- Hk.
  - destruct Hr as (Hn & Ha & e & Hh & Hk & He). rewrite Hn, bool_decide_true by done.
    rewrite (He Hnv) in Hh. destruct (setVal_ok d1 l _ _ val Hwf1 Hnv Hh) as (d2 & -> & Hwf2 & Hf2 & Ha2).
    runr. exists d2. split_and!; [done|done|by eapply same_frame_trans|].
    rewrite Ha2, Ha, (dup_key sk). fold key. by rewrite insert_insert_eq.
Qed.

(** ** Deletion *)

Lemma delete_ok cr d key :
  dict_wf ty d ->
  exists d' r, dictGenericDelete ty cr d key = Ok (d', r) /\ dict_wf ty d' /\ same_frame d d' /\
    content <$> r = abs d !! key /\ abs d' = delete key (abs d).
Proof.
  intros Hwf. unfold dictGenericDelete. destruct (Z.eqb_spec (dictSize d) 0) as [E|E].
  { exists d, None. split_and!; [done|done|by apply maintains_frame, maintains_refl|..];
      rewrite (abs_empty d Hwf E); [done|by rewrite delete_empty]. }
  destruct (step_and_probe cr d key Hwf (size_live d Hwf E)) as (d1 & r & Hst & Hm & Hp & Hloc).
  fold (bucket_idx ty key (ht0 d)). rewrite Hst. runr. rewrite (delete_loop_ok cr d1 key _ r Hp).
  pose proof (mt_wf _ _ _ Hm) as Hwf1. pose proof (abs_located _ _ _ Hwf1 Hloc) as Ha.
  rewrite <- (abs_maintains d d1 Hwf Hm). unfold delete_found. destruct r as [l|].
  - destruct Ha as (e & Hh & Hk & Ha). rewrite (holds_deref _ _ _ Hh). runr.
    destruct (unlink_at_ok d1 l e Hwf1 Hh) as (d2 & -> & Hwf2 & Hel & Hf2). runr.
    destruct (autoShrink_ok ty cr d2 Hwf2) as (d3 & -> & Hm3). runr.
    exists d3, (Some e). split_and!; [done|apply Hm3| |by rewrite Ha|].
    + eapply same_frame_trans; [by apply maintains_frame|]. eapply same_frame_trans; [done|].
      by apply maintains_frame.
    + rewrite (abs_maintains d2 d3 Hwf2 Hm3), <- Hk. by apply abs_delete.
  - exists d1, None. split_and!; [done|done|by apply maintains_frame|done|].
    by rewrite delete_id.
Qed.

(** ** Two-phase unlinking *)

Lemma pause_resume (d : dict) :
  0 <= pauserehash d < 2 ^ 32 -> dictResumeRehashing (dictPauseRehashing d) = d.
Proof.
  intros Hp. destruct d as [h0 h1 ri p ar ns]. unfold dictResumeRehashing, dictPauseRehashing, set_pauserehash.
  cbn [pauserehash ht0 ht1 rehashidx pauseAutoResize notes] in *. f_equal.
  rewrite wrapU_sub_l, Z.add_simpl_r. by apply wrapU_small.
Qed.

Lemma set_pauserehash_wf d p : dict_wf ty d -> dict_wf ty (set_pauserehash d p).
Proof.
  intros [[(E & Hw & E1)|[]] Hk]; constructor; try done; [by left|right; by constructor].
Qed.

Lemma holds_pause d l e p : holds d l e -> holds (set_pauserehash d p) l e.
Proof.
  intros ([?|[? []]] & Hi & Hc); (split; [|by split]); [by left|right; split; [done|by constructor]].
Qed.

(** The first phase pauses rehashing exactly when it finds the key. *)
Lemma unlinkFind_ok cr d key :
  dict_wf ty d -> 0 <= pauserehash d < 2 ^ 32 - 1 ->
  exists d1 r, dictTwoPhaseUnlinkFind ty cr d key = Ok (d1, r) /\ dict_wf ty d1 /\ told d d1 /\
    pauserehash d1 = pauserehash d + b2z (bool_decide (is_Some r)) /\
    pauseAutoResize d1 = pauseAutoResize d /\ (ht_live ty (ht0 d) -> ht_live ty (ht0 d1)) /\
    located d1 key r /\ abs d1 = abs d.
Proof.
  intros Hwf Hpr. unfold dictTwoPhaseUnlinkFind. destruct (Z.eqb_spec (dictSize d) 0) as [E|E].
  { exists d, None. split_and!; try done; [by apply told_same|simpl; lia|].
    intros e He. rewrite (dictSize_ok ty d Hwf) in E. apply zlen_nil_inv in E. rewrite E in He.
    by apply not_elem_of_nil in He. }
  assert (exists d0, (if dictIsRehashing d then _dictRehashStep ty cr d else Ok d) = Ok d0 /\ maintains ty d d0)
    as (d0 & -> & Hm).
  { destruct (dictIsRehashing d); [|exists d; split; [done|by apply maintains_refl]].
    destruct (rehashStep_ok ty cr d Hwf) as (d0 & -> & Hn). exists d0. split; [done|apply Hn]. }
  runr. pose proof (mt_wf _ _ _ Hm) as Hwf0.
  destruct (probe_ok d0 key (bucket_idx ty key (ht0 d0))) as (r & Hp & Hloc).
  { done. }
  { apply Hm. by apply size_live. }
  { by apply stale_start. }
  rewrite (unlink_find_loop_ok d0 key r Hp).
  pose proof (mt_pause _ _ _ Hm) as Hpause. pose proof (abs_maintains d d0 Hwf Hm) as Habs.
  destruct r as [l|]; eexists _, _; (split; [done|]).
  - unfold dictPauseRehashing. rewrite wrapU_small by lia. split_and!; try apply Hm.
    + by apply set_pauserehash_wf.
    + simpl. lia.
    + destruct Hloc as (e & Hh & Hk). exists e. split; [by apply holds_pause|done].
    + done.
  - split_and!; try done; try apply Hm. simpl. lia.
Qed.

(** The second phase deletes the entry and undoes the pause. *)
Lemma unlinkFree_ok cr d l e :
  dict_wf ty d -> holds d l e -> 1 <= pauserehash d < 2 ^ 32 ->
  exists d2, dictTwoPhaseUnlinkFree ty cr d (Some l) = Ok d2 /\ dict_wf ty d2 /\ told d d2 /\
    pauserehash d2 = pauserehash d - 1 /\ pauseAutoResize d2 = pauseAutoResize d /\
    (ht_live ty (ht0 d) -> ht_live ty (ht0 d2)) /\ abs d2 = delete (ekey e) (abs d).
Proof.
  intros Hwf Hh Hp. unfold dictTwoPhaseUnlinkFree. pose proof Hh as (_ & Hi & c & Hc & He).
  rewrite (rd1_lookup _ _ c) by done. runr. rewrite He.
  destruct (unlink_at_ok d l e Hwf Hh) as (d2 & -> & Hwf2 & Hel & [P2 A2 B2 L2]). runr.
  destruct (autoShrink_ok ty cr d2 Hwf2) as (d3 & -> & Hm3). runr.
  eexists. split; [done|]. destruct (maintains_frame _ _ Hm3) as [P3 A3 B3 L3].
  unfold dictResumeRehashing. rewrite P3, P2, wrapU_small by lia.
  split_and!; [apply set_pauserehash_wf, Hm3| |done|simpl; congruence|by auto|].
  - eapply told_trans; [exact B2|]. eapply told_trans; [exact B3|]. by apply told_same.
  - change (abs d3 = delete (ekey e) (abs d)). rewrite (abs_maintains d2 d3 Hwf2 Hm3).
    by apply abs_delete.
Qed.

(** Finding the link and then releasing it is a deletion; in between, rehashing
    is paused exactly when a link was found. *)
Lemma two_phase_ok cr d key :
  dict_wf ty d -> 0 <= pauserehash d < 2 ^ 32 - 1 ->
  exists d1 r, dictTwoPhaseUnlinkFind ty cr d key = Ok (d1, r) /\
    pauserehash d1 = pauserehash d + b2z (bool_decide (is_Some r)) /\
    (is_Some r <-> is_Some (abs d !! key)) /\ abs d1 = abs d /\
    exists d2, dictTwoPhaseUnlinkFree ty cr d1 r = Ok d2 /\ dict_wf ty d2 /\ same_frame d d2 /\
      abs d2 = delete key (abs d).
Proof.
  intros Hwf Hpr.
  destruct (unlinkFind_ok cr d key Hwf Hpr) as (d1 & r & -> & Hwf1 & T1 & P1 & A1 & L1 & Hloc & Ha1).
  pose proof (abs_located d1 key r Hwf1 Hloc) as Ha. rewrite Ha1 in Ha. eexists _, _. split; [done|].
  split; [done|]. destruct r as [l|]; simpl in P1.
  - destruct Ha as (e & Hh & <- & Ha). split; [by rewrite Ha|]. split; [done|].
    destruct (unlinkFree_ok cr d1 l e Hwf1 Hh) as (d2 & -> & Hwf2 & T2 & P2 & A2 & L2 & Ha2); [lia|].
    exists d2. split_and!; [done|done| |by rewrite Ha2, Ha1].
    constructor; [lia|congruence|by eapply told_trans|by auto].
  - split; [rewrite Ha; by split; intros []|]. split; [done|]. exists d1.
    split_and!; [done|done| |by rewrite delete_id]. constructor; [lia|done..].
Qed.

(** ** Emptying *)

Lemma clear_loop_ok bs used :
  (forall i c, bs !! i = Some c -> chain_ok ty c) -> used = zlen (concat bs) -> used < 2 ^ 64 ->
  clear_loop bs used = concat bs.
Proof.
  revert used. induction bs as [|b bs IH]; intros used Hok Hu Hlt; [done|].
  simpl in *. rewrite zlen_app in Hu. rewrite (chain_walk_ok ty b) by by apply (Hok 0%nat).
  pose proof (zlen_nonneg b). pose proof (zlen_nonneg (concat bs)).
  rewrite Z.gtb_ltb. destruct (Z.ltb_spec 0 used).
  - f_equal. rewrite wrapU_small by lia. apply IH; [|lia|lia]. intros i c Hi. by apply (Hok (S i)).
  - symmetry. apply zlen_nil_inv. rewrite zlen_app. lia.
Qed.

Lemma clear_elems d t : dict_wf ty d -> t = 0 \/ t = 1 ->
  clear_loop (ht_table (ht_get d t)) (ht_used (ht_get d t)) = elems (ht_get d t).
Proof.
  intros Hwf Ht. destruct (used_range ty d Hwf) as (? & ? & ? & ?).
  assert (ht_wf ty (ht_get d t)) as [-> | Hl].
  { destruct Ht as [-> | ->]; [by apply tables_ht0|]. change (ht_get d 1) with (ht1 d).
    destruct (wf_tables _ _ Hwf) as [(_ & _ & ->)|Hr]; [by left|right; apply Hr]. }
  - done.
  - apply clear_loop_ok; [|apply Hl|].
    2: { destruct Ht as [-> | ->]; [change (ht_get d 0) with (ht0 d)|change (ht_get d 1) with (ht1 d)]; lia. }
    intros i c Hc. apply (live_bucket _ _ Hl _ _ Hc).
Qed.

Lemma empty_dict_wf p a n : dict_wf ty
  {| ht0 := empty_ht; ht1 := empty_ht; rehashidx := -1; pauserehash := p; pauseAutoResize := a; notes := n |}.
Proof. constructor; [left; split_and!; try done; by left|]. split; [constructor|done]. Qed.

Lemma dictBuckets_ok d :
  dict_wf ty d ->
  dictBuckets d = DICTHT_SIZE (ht_size_exp (ht0 d)) + DICTHT_SIZE (ht_size_exp (ht1 d)).
Proof.
  intros Hwf. assert (forall h : table, ht_wf ty h -> 0 <= DICTHT_SIZE (ht_size_exp h) <= 2 ^ 60) as Hsz.
  { intros h [-> | Hl]; [by vm_compute|]. rewrite DICTHT_SIZE_ok by apply Hl.
    pose proof (exp_pow _ (live_exp _ _ Hl)). lia. }
  pose proof (Hsz (ht0 d) (tables_ht0 ty d Hwf)).
  assert (ht_wf ty (ht1 d)) as Hw1
    by (destruct (wf_tables _ _ Hwf) as [(_ & _ & ->)|Hr]; [by left|right; apply Hr]).
  pose proof (Hsz (ht1 d) Hw1). unfold dictBuckets. rewrite wrapU_small; lia.
Qed.

(** What emptying or releasing a dictionary tells its owner. *)
Definition closing_notes (d : dict) : list note :=
  (if dictIsRehashing d then [RehashingCompleted (rehashing_from d)] else []) ++ [BucketChanged (- dictBuckets d)].

Lemma closing_heard d : dict_wf ty d -> hear (book d) (closing_notes d) = Some (0, None).
Proof.
  intros Hwf. unfold closing_notes, book. rewrite (dictBuckets_ok d Hwf).
  destruct (dictIsRehashing d); simpl; [rewrite Z.eqb_refl; simpl|]; do 2 f_equal; lia.
Qed.

(** The entries the two calls of _dictClear release. *)
Lemma cleared_elems d :
  dict_wf ty d ->
  clear_loop (ht_table (ht0 d)) (ht_used (ht0 d)) ++ clear_loop (ht_table (ht1 d)) (ht_used (ht1 d)) =
  dict_elems d.
Proof.
  intros Hwf. pose proof (clear_elems d 0 Hwf) as C0. pose proof (clear_elems d 1 Hwf) as C1.
  change (ht_get d 0) with (ht0 d) in C0. change (ht_get d 1) with (ht1 d) in C1.
  by rewrite C0, C1 by auto.
Qed.

Lemma dictEmpty_eq (d : dict) :
  dictEmpty d =
  ({| ht0 := empty_ht; ht1 := empty_ht; rehashidx := -1; pauserehash := 0; pauseAutoResize := 0;
      notes := notes d ++ closing_notes d |},
   clear_loop (ht_table (ht0 d)) (ht_used (ht0 d)) ++ clear_loop (ht_table (ht1 d)) (ht_used (ht1 d))).
Proof. unfold dictEmpty, closing_notes. destruct (dictIsRehashing d); cbn; by rewrite <- ?app_assoc. Qed.

Lemma dictRelease_eq (d : dict) :
  dictRelease d =
  (notes d ++ closing_notes d,
   clear_loop (ht_table (ht0 d)) (ht_used (ht0 d)) ++ clear_loop (ht_table (ht1 d)) (ht_used (ht1 d))).
Proof. unfold dictRelease, closing_notes. destruct (dictIsRehashing d); cbn; by rewrite <- ?app_assoc. Qed.

Lemma dictEmpty_ok d :
  dict_wf ty d ->
  let d' := (dictEmpty d).1 in
  dict_wf ty d' /\ abs d' = ∅ /\ pauserehash d' = 0 /\ pauseAutoResize d' = 0 /\
  told d d' /\ (dictEmpty d).2 = dict_elems d.
Proof.
  intros Hwf d'. unfold d'. rewrite dictEmpty_eq. cbn [fst snd].
  split_and!; [apply empty_dict_wf|done|done|done| |by apply cleared_elems].
  exists (closing_notes d). split; [done|]. by rewrite closing_heard.
Qed.

(** ** Setting a key at a link *)

Lemma setKeyAtLink_insert raw cr d sk link :
  dict_wf ty d -> has_room d -> located d (keyFromStoredKey ty sk) None ->
  link = None \/ (link = Some (target_link d (keyFromStoredKey ty sk)) /\ ht_live ty (ht0 d)) ->
  exists d', dictSetKeyAtLink ty raw cr d sk link true = Ok d' /\ dict_wf ty d' /\ same_frame d d' /\
    abs d' = <[keyFromStoredKey ty sk := (keyDup ty sk, None)]> (abs d).
Proof.
  intros Hwf Hroom Hno Hlink. set (key := keyFromStoredKey ty sk) in *.
  destruct (expandIfNeeded_ok ty cr d Hwf) as (d1 & b1 & Hex & Hm1 & Hrs & Hl1).
  pose proof (mt_wf _ _ _ Hm1) as Hwf1.
  assert (abs d !! key = None) as Hn by apply (abs_located d key None Hwf Hno).
  (* the bucket the key is inserted in *)
  assert (exists d2 l, maintains ty d1 d2 /\ located d2 key None /\ l = target_link d2 key /\
    forall (k : dict * dictEntryLink -> result dict),
      (let* (d', l) := match link with
        | Some l => if exps_eqb d d1 then Ok (d1, l) else
            let* (d', found, bucket) := dictFindLinkInternal ty cr d1 (dictStoredKey2Key ty sk) true in
            match bucket, found with Some b, None => Ok (d', b) | _, _ => Err AssertFailed end
        | None => let* (d', found, bucket) := dictFindLinkInternal ty cr d1 (dictStoredKey2Key ty sk) true in
            match bucket, found with Some b, None => Ok (d', b) | _, _ => Err AssertFailed end
        end in k (d', l)) = k (d2, l)) as (d2 & l & Hm2 & Hloc2 & -> & Hk).
  { destruct (findLinkInternal_ok cr d1 key true Hwf1 Hl1) as (d2 & r & b & Hf & Hm2 & Hloc2 & Hb); [by left|].
    unfold dictStoredKey2Key. fold key. rewrite Hf. runr.
    assert (r = None) as ->.
    { destruct r; [|done]. apply abs_located in Hloc2 as (e & _ & _ & Ha); [|apply Hm2].
      rewrite (abs_maintains d1 d2 Hwf1 Hm2), (abs_maintains d d1 Hwf Hm1) in Ha. congruence. }
    rewrite (Hb eq_refl).
    destruct Hlink as [->|[-> Hl]]; [by exists d2, (target_link d2 key)|].
    destruct (exps_eqb d d1) eqn:Eq; [|by exists d2, (target_link d2 key)].
    apply andb_true_iff in Eq as [Eq0%Z.eqb_eq Eq1%Z.eqb_eq].
    destruct Hrs as [->|[_ [?|?]]]; [|congruence..].
    exists d, (target_link d key). split_and!; [by apply maintains_refl|done|done|done]. }
  unfold dictSetKeyAtLink. rewrite Hex. runr.
  rewrite (Hk (fun '(d', l) => let* (d', _) := dictInsertKeyAtLink ty d' (keyDup ty sk) l in Ok d')).
  pose proof (mt_wf _ _ _ Hm2) as Hwf2.
  assert (keyFromStoredKey ty (keyDup ty sk) = key) as Hdup by apply dup_key.
  destruct (insertKeyAtLink_ok d2 (keyDup ty sk)) as (d3 & e & Hi & Hwf3 & Hel & Hc & _ & Hfr & _).
  { done. }
  { by apply Hm2. }
  { by rewrite (maintains_zlen d1 d2 Hm2), (maintains_zlen d d1 Hm1). }
  { by rewrite Hdup. }
  rewrite Hdup in Hi. rewrite Hi. runr. exists d3. split_and!; [done|done| |].
  - eapply same_frame_trans; [by apply maintains_frame|]. eapply same_frame_trans; [by apply maintains_frame|done].
  - rewrite (abs_cons d3 e _ Hwf3 Hel), ekey_content, Hc. unfold ckey. simpl. rewrite Hdup. f_equal.
    fold (abs d2). by rewrite (abs_maintains d1 d2 Hwf1 Hm2), (abs_maintains d d1 Hwf Hm1).
Qed.

Lemma setKeyAtLink_update raw cr d sk l e :
  dict_wf ty d -> holds d l e -> ekey e = keyFromStoredKey ty sk ->
  exists d', dictSetKeyAtLink ty raw cr d sk (Some l) false = Ok d' /\ dict_wf ty d' /\ same_frame d d' /\
    abs d' = <[keyFromStoredKey ty sk := (keyDup ty sk, (content e).2)]> (abs d).
Proof.
  intros Hwf Hh Hk. unfold dictSetKeyAtLink. runr. rewrite (holds_deref _ _ _ Hh). runr.
  set (e' := match e with EntryKey _ => _ | EntryNoValue _ => _ | EntryNormal _ v => _ end).
  assert (ekey e' = keyFromStoredKey ty sk) as Hk'.
  { rewrite <- (dup_key sk). by destruct e. }
  destruct (put_ok d l e e' Hwf Hh) as (d' & rest & -> & Hwf' & H1 & H2 & _ & Hf).
  { pose proof (holds_kind _ _ _ Hh). by destruct e. }
  { by destruct e. }
  { congruence. }
  exists d'. split_and!; try done. rewrite (abs_cons d' _ _ Hwf' H2), (abs_cons d _ _ Hwf H1), Hk, Hk'.
  rewrite insert_insert_eq. f_equal. by destruct e.
Qed.

(** The bucket dictFindLink reports with a miss. *)
Lemma findLink_bucket cr d key :
  dict_wf ty d ->
  exists d' r b, dictFindLink ty cr d key true = Ok (d', r, b) /\ maintains ty d d' /\
    located d' key r /\
    (r = None -> b = None \/ (b = Some (target_link d' key) /\ ht_live ty (ht0 d'))).
Proof.
  intros Hwf. destruct (Z.eqb_spec (dictSize d) 0) as [E|E].
  - unfold dictFindLink. rewrite E. exists d, None, None.
    split_and!; [done|by apply maintains_refl| |by left].
    intros e He. rewrite (dictSize_ok ty d Hwf) in E. apply zlen_nil_inv in E. rewrite E in He.
    by apply not_elem_of_nil in He.
  - unfold dictFindLink. rewrite (proj2 (Z.eqb_neq _ _) E).
    pose proof (size_live d Hwf E) as Hl.
    destruct (findLinkInternal_ok cr d key true Hwf Hl) as (d' & r & b & -> & Hm & Hloc & Hb); [by left|].
    exists d', r, b. split_and!; try done. intros Hr. right. split; [by apply Hb|by apply Hm].
Qed.

End dict_ops.
