(* ===== verification/DictSpec.v ===== *)
(** DictSpec: the hash table against its contract.

    The abstract dictionary is a finite map.  [dict_refines_map] runs any
    sequence of public operations - additions, replacements, lookups, plain and
    two-phase deletions, explicit expansions, shrinks and rehashing steps,
    changes of the global resize policy, emptying - on both sides and finds the
    same answers, whatever the hash function, with the invariant of DictProofs
    kept and the owner's bucket count exact.  The other theorems are about the
    protocols around it. *)

From Stdlib Require Import ZArith Lia Bool.
From stdpp Require Import base list numbers decidable gmap.
From S2P Require Import Prelude Bytes Dict DictProofs DictOps.

Local Open Scope Z_scope.

Section refinement.
Context {K SK V : Type} `{Countable K}.
Context (ty : dictType K SK V) {laws : DictTypeLaws ty}.
Local Abbreviation dict := (dict SK V).
Local Abbreviation amap := (gmap K (SK * option V)).

Inductive dop :=
  | DAdd (sk : SK) (v : V)
  | DReplace (sk : SK) (v : V)
  | DFind (k : K)
  | DDelete (k : K)
  | DUnlink2 (k : K)
  | DExpand (size : Z)
  | DTryExpand (size : Z) (alloc_ok : bool)
  | DShrink (size : Z)
  | DRehash (n : nat)
  | DPolicy (cr : dictResizeEnable)
  | DEmpty.

Inductive dout :=
  | OBool (b : bool)
  | OFound (c : option (SK * option V))
  | ODone.

(** One operation on the table; the state carries the global resize policy. *)
Definition conc_op (s : dictResizeEnable * dict) (o : dop)
  : result (dictResizeEnable * dict * dout) :=
  let '(cr, d) := s in
  match o with
  | DAdd sk v => let* (d, b) := dictAdd ty cr d sk v in Ok (cr, d, OBool b)
  | DReplace sk v => let* (d, b) := dictReplace ty cr d sk v in Ok (cr, d, OBool b)
  | DFind k => let* (d, e) := dictFind ty cr d k in Ok (cr, d, OFound (content <$> e))
  | DDelete k => let* (d, b) := dictDelete ty cr d k in Ok (cr, d, OBool b)
  | DUnlink2 k =>
      let* (d, l) := dictTwoPhaseUnlinkFind ty cr d k in
      let* d := dictTwoPhaseUnlinkFree ty cr d l in
      Ok (cr, d, OBool (bool_decide (is_Some l)))
  | DExpand n => let* (d, _) := dictExpand ty cr d n in Ok (cr, d, ODone)
  | DTryExpand n ok => let* (d, _) := dictTryExpand ty cr d n ok in Ok (cr, d, ODone)
  | DShrink n => let* (d, _) := dictShrink ty cr d n in Ok (cr, d, ODone)
  | DRehash n => let* (d, _) := dictRehash ty cr d n in Ok (cr, d, ODone)
  | DPolicy cr => Ok (cr, d, ODone)
  | DEmpty => Ok (cr, (dictEmpty d).1, ODone)
  end.

(** The same operation on a map. *)
Definition abs_op (m : amap) (o : dop) : amap * dout :=
  match o with
  | DAdd sk v =>
      let k := keyFromStoredKey ty sk in
      match m !! k with
      | Some _ => (m, OBool false)
      | None => (<[k := (keyDup ty sk, stored_val ty v)]> m, OBool true)
      end
  | DReplace sk v =>
      let k := keyFromStoredKey ty sk in
      match m !! k with
      | Some c => (<[k := (c.1, Some (valDup ty v))]> m, OBool false)
      | None => (<[k := (keyDup ty sk, Some (valDup ty v))]> m, OBool true)
      end
  | DFind k => (m, OFound (m !! k))
  | DDelete k | DUnlink2 k => (delete k m, OBool (bool_decide (is_Some (m !! k))))
  | DExpand _ | DTryExpand _ _ | DShrink _ | DRehash _ | DPolicy _ => (m, ODone)
  | DEmpty => (∅, ODone)
  end.

Fixpoint conc_run (s : dictResizeEnable * dict) (os : list dop)
  : result (dictResizeEnable * dict * list dout) :=
  match os with
  | [] => Ok (s, [])
  | o :: os =>
      let* (s, r) := conc_op s o in
      let* (s, rs) := conc_run s os in
      Ok (s, r :: rs)
  end.

Fixpoint abs_run (m : amap) (os : list dop) : amap * list dout :=
  match os with
  | [] => (m, [])
  | o :: os =>
      let '(m, r) := abs_op m o in
      let '(m, rs) := abs_run m os in
      (m, r :: rs)
  end.

(** Replacing needs values; sizes are unsigned longs; ten times the number of
    rehashing steps asked for is an int. *)
Definition op_legal (o : dop) : Prop :=
  match o with
  | DReplace _ _ => no_value ty = false
  | DExpand n | DTryExpand n _ | DShrink n => 0 <= n < 2 ^ 64
  | DRehash n => steps_fit n
  | _ => True
  end.

(** The state between operations. *)
Record rest_state (d : dict) : Prop := {
  rs_wf : dict_wf ty d;
  rs_pause : pauserehash d = 0;
  rs_auto : pauseAutoResize d = 0;
  rs_drift : bucket_drift d = 0;
}.

Lemma rest_frame d d' : rest_state d -> dict_wf ty d' -> same_frame ty d d' -> rest_state d'.
Proof.
  intros [] Hwf [? ? Ht%told_drift ?]. constructor; [done|congruence..].
Qed.

Lemma rest_maintains d d' : rest_state d -> maintains ty d d' -> rest_state d' /\ abs ty d' = abs ty d.
Proof.
  intros Hr Hm. split; [|by apply abs_maintains; [apply Hr|]].
  eapply rest_frame; [done|apply Hm|by apply maintains_frame].
Qed.

Lemma dict_op_ok cr d o :
  rest_state d -> op_legal o -> has_room d ->
  exists cr' d' r, conc_op (cr, d) o = Ok (cr', d', r) /\ rest_state d' /\
    abs_op (abs ty d) o = (abs ty d', r) /\ (size (abs ty d') <= S (size (abs ty d)))%nat.
Proof.
  intros Hr Hlg Hroom. pose proof (rs_wf _ Hr) as Hwf.
  assert (can_insert ty d) as Hci by (left; rewrite (rs_auto _ Hr); lia).
  destruct o as [sk v|sk v|k|k|k|n|n ok|n|n|cr'|]; simpl in Hlg; cbn [conc_op abs_op].
  - destruct (add_ok ty cr d sk v Hwf Hci Hroom) as (d' & -> & Hwf' & Hf & Ha). runr.
    eexists _, d', _. split; [done|]. split; [by eapply rest_frame|]. rewrite Ha.
    destruct (abs ty d !! keyFromStoredKey ty sk) eqn:E; simpl.
    + split; [done|lia].
    + split; [done|]. rewrite map_size_insert_None by done. lia.
  - destruct (replace_ok ty cr d sk v Hwf Hci Hroom Hlg) as (d' & -> & Hwf' & Hf & Ha). runr.
    eexists _, d', _. split; [done|]. split; [by eapply rest_frame|]. rewrite Ha.
    destruct (abs ty d !! keyFromStoredKey ty sk) eqn:E; simpl.
    + split; [done|]. rewrite map_size_insert, E. simpl. lia.
    + split; [done|]. rewrite map_size_insert_None by done. lia.
  - destruct (find_ok ty cr d k Hwf) as (d' & e & -> & Hm & He). runr.
    destruct (rest_maintains d d' Hr Hm) as [Hr' Ha].
    eexists _, d', _. split; [done|]. split; [done|]. rewrite Ha, He. split; [done|lia].
  - unfold dictDelete. destruct (delete_ok ty cr d k Hwf) as (d' & e & -> & Hwf' & Hf & He & Ha). runr.
    eexists _, d', _. split; [done|]. split; [by eapply rest_frame|]. rewrite Ha, <- He. split.
    + by destruct e.
    + rewrite map_size_delete. destruct (_ !! _); simpl; lia.
  - destruct (two_phase_ok ty cr d k Hwf) as (d1 & l & -> & _ & Hl & _ & d2 & Hfr & Hwf2 & Hf & Ha).
    { rewrite (rs_pause _ Hr). lia. }
    runr. rewrite Hfr. runr. eexists _, d2, _. split; [done|]. split; [by eapply rest_frame|]. rewrite Ha. split.
    + by rewrite (bool_decide_ext _ _ Hl).
    + rewrite map_size_delete. destruct (_ !! _); simpl; lia.
  - unfold dictExpand. destruct (expand_ok ty cr d n None Hwf Hlg) as (d' & ok & mf & -> & Hm & _). runr.
    destruct (rest_maintains d d' Hr Hm) as [Hr' Ha]. eexists _, d', _. split; [done|]. rewrite Ha. by auto.
  - unfold dictTryExpand. destruct (expand_ok ty cr d n (Some ok) Hwf Hlg) as (d' & ok' & mf & -> & Hm & _). runr.
    destruct (rest_maintains d d' Hr Hm) as [Hr' Ha]. eexists _, d', _. split; [done|]. rewrite Ha. by auto.
  - destruct (shrink_ok ty cr d n Hwf Hlg) as (d' & ok & -> & Hm). runr.
    destruct (rest_maintains d d' Hr Hm) as [Hr' Ha]. eexists _, d', _. split; [done|]. rewrite Ha. by auto.
  - destruct (dictRehash_ok ty cr d n Hlg Hwf) as (d' & more & -> & [Hm _]). runr.
    destruct (rest_maintains d d' Hr Hm) as [Hr' Ha]. eexists _, d', _. split; [done|]. rewrite Ha. by auto.
  - eexists _, d, _. split; [done|]. by auto.
  - destruct (dictEmpty_ok ty d Hwf) as (Hwf' & Ha & Hp & Hau & Hb & _).
    eexists _, _, _. split; [done|]. rewrite Ha, map_size_empty. split_and!; [|done|lia].
    constructor; [done..|]. by rewrite (told_drift _ _ Hb), (rs_drift _ Hr).
Qed.

Lemma dict_run_ok cr d os :
  rest_state d -> Forall op_legal os -> zlen (dict_elems d) + zlen os < 2 ^ 64 ->
  exists cr' d' rs, conc_run (cr, d) os = Ok (cr', d', rs) /\ rest_state d' /\
    abs_run (abs ty d) os = (abs ty d', rs).
Proof.
  revert cr d. induction os as [|o os IH]; intros cr d Hr Hlg Hlen.
  { exists cr, d, []. by split_and!. }
  rewrite zlen_cons in Hlen. pose proof (zlen_nonneg os). apply list.Forall_cons in Hlg as [Hlo Hlg].
  destruct (dict_op_ok cr d o Hr Hlo) as (cr1 & d1 & r & Hc & Hr1 & Ha & Hsz).
  { unfold has_room. lia. }
  destruct (IH cr1 d1 Hr1 Hlg) as (cr2 & d2 & rs & Hc2 & Hr2 & Ha2).
  { pose proof (abs_size ty d (rs_wf _ Hr)). pose proof (abs_size ty d1 (rs_wf _ Hr1)). lia. }
  exists cr2, d2, (r :: rs). cbn [conc_run abs_run]. rewrite Hc. runr. rewrite Hc2. runr.
  rewrite Ha, Ha2. by split_and!.
Qed.

Lemma create_rest : rest_state (dictCreate : dict).
Proof. constructor; try done. apply empty_dict_wf. Qed.

End refinement.

(** * Concrete dictionaries *)

(** Integer keys and values; keys collide modulo 8. *)
Definition int_type (nv ff : bool) : dictType Z Z Z := {|
  hashFunction := fun k => k mod 8;
  keyDup := fun s => s; valDup := fun v => v; keyCompare := Z.eqb;
  resizeAllowed := fun _ _ _ => true; keyFromStoredKey := fun s => s;
  no_value := nv; force_full_rehash := ff |}.

#[global] Instance int_type_laws nv ff : DictTypeLaws (int_type nv ff).
Proof.
  constructor; simpl; [|apply Z.eqb_eq|done].
  intros k. pose proof (Z.mod_pos_bound k 8). lia.
Qed.

(** Stored keys that carry a payload: the lookup key is their first part. *)
Definition pair_type : dictType Z (Z * Z) Z := {|
  hashFunction := fun k => k mod 8;
  keyDup := fun s => s; valDup := fun v => v; keyCompare := Z.eqb;
  resizeAllowed := fun _ _ _ => true; keyFromStoredKey := fst;
  no_value := true; force_full_rehash := false |}.

#[global] Instance pair_type_laws : DictTypeLaws pair_type.
Proof.
  constructor; simpl; [|apply Z.eqb_eq|done].
  intros k. pose proof (Z.mod_pos_bound k 8). lia.
Qed.

(** The state of a dictionary after a run. *)
Definition after {SK V} (r : result (dictResizeEnable * dict SK V * list (@dout SK V))) : dict SK V :=
  match r with Ok (_, d, _) => d | Err _ => dictCreate end.

(** Five keys in four buckets: a rehash to eight is under way. *)
Definition growing (nv : bool) : dict Z Z :=
  after (conc_run (int_type nv false) (DICT_RESIZE_ENABLE, dictCreate)
           [DAdd 1 10; DAdd 5 50; DAdd 9 90; DAdd 2 20; DAdd 13 130]).

Lemma run_rest nv ff cr os :
  Forall (op_legal (int_type nv ff)) os -> zlen os < 2 ^ 64 ->
  rest_state (int_type nv ff) (after (conc_run (int_type nv ff) (cr, dictCreate) os)).
Proof.
  intros Hlg Hlen.
  destruct (dict_run_ok (int_type nv ff) cr dictCreate os (create_rest _) Hlg) as (cr' & d' & rs & -> & Hr & _).
  { done. }
  done.
Qed.

Lemma growing_rest nv : rest_state (int_type nv false) (growing nv).
Proof. apply run_rest; [by repeat constructor|done]. Qed.

(** * The theorems *)

(** C1: the dictionary is a finite map: starting from an empty dictionary, any
    sequence of operations runs without fault (no failed assertion, no access
    outside a table) and answers exactly like the same sequence on a finite map,
    provided the step count of an explicit rehash fits (dictRehash computes ten
    times its argument in an int),
    for every type of dictionary (with values or keys only, with incremental or
    forced rehashing), every hash function and every resize policy; the element
    count is right and the bucket counts the owner was notified of add up to the
    buckets that exist. *)
Theorem dict_refines_map {K SK V : Type} `{Countable K} (ty : dictType K SK V)
    (laws : DictTypeLaws ty) (cr : dictResizeEnable) (os : list dop) :
  Forall (op_legal ty) os -> zlen os < 2 ^ 64 ->
  exists cr' d' rs, conc_run ty (cr, dictCreate) os = Ok (cr', d', rs) /\
    abs_run ty ∅ os = (abs ty d', rs) /\ dict_wf ty d' /\
    dictSize d' = Z.of_nat (size (abs ty d')) /\ note_sum (notes d') = dictBuckets d'.
Proof.
  intros Hlg Hlen. destruct (dict_run_ok ty cr dictCreate os (create_rest ty) Hlg) as (cr' & d' & rs & Hc & Hr & Ha).
  { done. }
  pose proof (rs_wf _ _ Hr) as Hwf. exists cr', d', rs. split_and!; [done|done|done| |].
  - by rewrite (dictSize_ok ty d' Hwf), abs_size.
  - pose proof (rs_drift _ _ Hr) as Hd. rewrite (dictBuckets_ok ty d' Hwf). unfold bucket_drift in Hd. lia.
Qed.

Lemma dict_refines_map_witness :
  exists cr' d' rs,
    conc_run (int_type false false) (DICT_RESIZE_ENABLE, dictCreate)
      [DAdd 1 10; DAdd 5 50; DAdd 9 90; DAdd 2 20; DAdd 13 130; DAdd 5 0; DReplace 9 99; DFind 9;
       DDelete 1; DFind 1; DUnlink2 13; DPolicy DICT_RESIZE_AVOID; DShrink 2; DRehash 1; DFind 2] =
    Ok (cr', d', rs) /\
    rs = [OBool true; OBool true; OBool true; OBool true; OBool true; OBool false; OBool false;
          OFound (Some (9, Some 99)); OBool true; OFound None; OBool true; ODone; ODone; ODone;
          OFound (Some (2, Some 20))].
Proof.
  destruct (dict_refines_map (int_type false false) _ DICT_RESIZE_ENABLE
    [DAdd 1 10; DAdd 5 50; DAdd 9 90; DAdd 2 20; DAdd 13 130; DAdd 5 0; DReplace 9 99; DFind 9;
     DDelete 1; DFind 1; DUnlink2 13; DPolicy DICT_RESIZE_AVOID; DShrink 2; DRehash 1; DFind 2])
    as (cr' & d' & rs & Hc & Ha & _).
  - by repeat constructor.
  - done.
  - exists cr', d', rs. split; [exact Hc|]. apply (f_equal snd) in Ha. etrans; [symmetry; exact Ha|by vm_compute].
Defined.

(** C31: rehashing terminates: unless the policy holds it back, repeating
    dictRehash at most once per bucket of the old table moves every entry, ends
    with a single table of the new size, and changes nothing in the map. *)
Theorem dictRehash_completes {K SK V : Type} `{Countable K} (ty : dictType K SK V)
    (laws : DictTypeLaws ty) (cr : dictResizeEnable) (d : dict SK V) :
  dict_wf ty d -> rehash_held cr d = false ->
  exists d', rehash_fully ty (S (length (ht_table (ht0 d)))) cr d = Ok d' /\ dict_wf ty d' /\
    rehashidx d' = -1 /\ ht_size_exp (ht0 d') = ht_size_exp (ht1 d) /\ abs ty d' = abs ty d.
Proof.
  intros Hwf Hh. destruct (rehash_fully_runs ty cr (S (length (ht_table (ht0 d)))) d Hwf Hh)
    as (d' & Hr & Hm & Hi & He).
  - pose proof (rw_idx _ _ (not_held_wf ty cr d Hwf Hh)). unfold zlen. lia.
  - exists d'. split_and!; try done; [apply Hm|by apply abs_maintains].
Qed.

Lemma dictRehash_completes_witness :
  exists d', rehash_fully (int_type false false) (S (length (ht_table (ht0 (growing false)))))
      DICT_RESIZE_ENABLE (growing false) = Ok d' /\
    rehashidx (growing false) = 0 /\ rehashidx d' = -1 /\ ht_size_exp (ht0 d') = 3.
Proof.
  destruct (dictRehash_completes (int_type false false) _ DICT_RESIZE_ENABLE (growing false))
    as (d' & Hr & _ & Hi & He & _).
  - apply growing_rest.
  - by vm_compute.
  - exists d'. split_and!; [exact Hr|by vm_compute|exact Hi|rewrite He; by vm_compute].
Defined.

(** The two-step insertion of a stored key: when dictFindLink does not find
    the key, setting it as a new item at the bucket it returned inserts it, even
    though an expansion may have moved the tables in between (the sizes it
    compares detect every reallocation); when it finds the key, setting it at
    the link replaces the stored key and keeps the value. *)
Theorem dict_link_protocol {K SK V : Type} `{Countable K} (ty : dictType K SK V)
    (laws : DictTypeLaws ty) (rawKey : SK -> K) (cr : dictResizeEnable) (d : dict SK V) (sk : SK) :
  dict_wf ty d -> has_room d ->
  exists d1 r b d2, dictFindLink ty cr d (keyFromStoredKey ty sk) true = Ok (d1, r, b) /\
    dictSetKeyAtLink ty rawKey cr d1 sk
      (match r with Some l => Some l | None => b end) (bool_decide (r = None)) = Ok d2 /\
    dict_wf ty d2 /\
    abs ty d2 = <[keyFromStoredKey ty sk :=
                    (keyDup ty sk, match abs ty d !! keyFromStoredKey ty sk with
                                   | Some c => c.2 | None => None end)]> (abs ty d).
Proof.
  intros Hwf Hroom. set (key := keyFromStoredKey ty sk).
  destruct (findLink_bucket ty cr d key Hwf) as (d1 & r & b & Hf & Hm & Hloc & Hb).
  pose proof (mt_wf _ _ _ Hm) as Hwf1. pose proof (abs_maintains ty d d1 Hwf Hm) as Ha.
  destruct r as [l|].
  - pose proof (abs_located ty d1 key _ Hwf1 Hloc) as (e & Hh & Hk & Hl). rewrite Ha in Hl.
    destruct (setKeyAtLink_update ty rawKey cr d1 sk l e Hwf1 Hh Hk) as (d2 & Hs & Hwf2 & _ & Ha2).
    exists d1, (Some l), b, d2. split_and!; [done|done|done|]. by rewrite Ha2, Ha, Hl.
  - pose proof (abs_located ty d1 key _ Hwf1 Hloc) as Hn. simpl in Hn. rewrite Ha in Hn.
    destruct (setKeyAtLink_insert ty rawKey cr d1 sk b Hwf1) as (d2 & Hs & Hwf2 & _ & Ha2);
      [unfold has_room; by rewrite (maintains_zlen ty d d1 Hm)|done|by apply Hb|].
    exists d1, None, b, d2. split_and!; [done|done|done|]. by rewrite Ha2, Ha, Hn.
Qed.

Lemma dict_link_protocol_witness :
  exists d1 r b d2, dictFindLink (int_type true false) DICT_RESIZE_ENABLE (growing true) 17 true = Ok (d1, r, b) /\
    dictSetKeyAtLink (int_type true false) (fun s => s) DICT_RESIZE_ENABLE d1 17
      (match r with Some l => Some l | None => b end) (bool_decide (r = None)) = Ok d2 /\
    abs (int_type true false) d2 !! 17 = Some (17, None).
Proof.
  destruct (dict_link_protocol (int_type true false) _ (fun s => s) DICT_RESIZE_ENABLE (growing true) 17)
    as (d1 & r & b & d2 & Hf & Hs & _ & Ha).
  - apply growing_rest.
  - by vm_compute.
  - exists d1, r, b, d2. split_and!; [exact Hf|exact Hs|]. rewrite Ha. by vm_compute.
Defined.

(** two-phase unlinking is a deletion split in two: the first phase finds the
    entry exactly when the key is there, pauses rehashing exactly in that case
    and leaves the map alone; the second phase deletes the key and undoes the
    pause. *)
Theorem dict_two_phase_unlink {K SK V : Type} `{Countable K} (ty : dictType K SK V)
    (laws : DictTypeLaws ty) (cr : dictResizeEnable) (d : dict SK V) (key : K) :
  dict_wf ty d -> 0 <= pauserehash d < 2 ^ 32 - 1 ->
  exists d1 r d2, dictTwoPhaseUnlinkFind ty cr d key = Ok (d1, r) /\
    (is_Some r <-> is_Some (abs ty d !! key)) /\ abs ty d1 = abs ty d /\
    pauserehash d1 = pauserehash d + b2z (bool_decide (is_Some r)) /\
    dictTwoPhaseUnlinkFree ty cr d1 r = Ok d2 /\ dict_wf ty d2 /\
    abs ty d2 = delete key (abs ty d) /\ pauserehash d2 = pauserehash d.
Proof.
  intros Hwf Hp. destruct (two_phase_ok ty cr d key Hwf Hp)
    as (d1 & r & Hf & Hpr & Hs & Ha & d2 & Hfr & Hwf2 & Hsf & Ha2).
  exists d1, r, d2. split_and!; try done; [by apply Hs..|apply Hsf].
Qed.

Lemma dict_two_phase_unlink_witness :
  exists d1 r d2, dictTwoPhaseUnlinkFind (int_type true false) DICT_RESIZE_ENABLE (growing true) 9 = Ok (d1, r) /\
    dictTwoPhaseUnlinkFree (int_type true false) DICT_RESIZE_ENABLE d1 r = Ok d2 /\
    abs (int_type true false) d2 !! 9 = None /\ pauserehash d1 = 1.
Proof.
  destruct (dict_two_phase_unlink (int_type true false) _ DICT_RESIZE_ENABLE (growing true) 9)
    as (d1 & r & d2 & Hf & Hs & _ & Hp & Hfr & _ & Ha & _).
  - apply growing_rest.
  - by vm_compute.
  - exists d1, r, d2. split_and!; [exact Hf|exact Hfr|rewrite Ha; by rewrite lookup_delete_eq|].
    rewrite Hp, bool_decide_true by (apply Hs; eexists; by vm_compute). by vm_compute.
Defined.

(** Emptying a dictionary releases every entry it holds, once each, in both
    tables, whatever the progress of rehashing, and leaves an empty dictionary
    that accepts keys again. *)
Theorem dictEmpty_releases {K SK V : Type} `{Countable K} (ty : dictType K SK V)
    (laws : DictTypeLaws ty) (d : dict SK V) :
  dict_wf ty d ->
  (dictEmpty d).2 = dict_elems d /\ dict_wf ty (dictEmpty d).1 /\ abs ty (dictEmpty d).1 = ∅ /\
  bucket_drift (dictEmpty d).1 = bucket_drift d /\ can_insert ty (dictEmpty d).1.
Proof.
  intros Hwf. destruct (dictEmpty_ok ty d Hwf) as (Hwf' & Ha & _ & Hau & Hb & Hfr).
  split_and!; try done; [by apply told_drift|]. left. by rewrite Hau.
Qed.

Lemma dictEmpty_releases_witness :
  length (dictEmpty (growing true)).2 = 5%nat /\ abs (int_type true false) (dictEmpty (growing true)).1 = ∅.
Proof.
  destruct (dictEmpty_releases (int_type true false) _ (growing true)) as (Hf & _ & Ha & _).
  - apply growing_rest.
  - split; [rewrite Hf; by vm_compute|exact Ha].
Defined.

(** Without a link, replacing the stored key of an existing entry looks the
    key up by the stored key itself instead of the lookup key it carries: in a
    dictionary whose stored keys carry more than the key the entry is not found
    and the assertion fails, although the key is there. *)
Theorem dictSetKeyAtLink_raw_key :
  exists d, conc_run pair_type (DICT_RESIZE_ENABLE, dictCreate) [DAdd (7, 70) 0] = Ok (DICT_RESIZE_ENABLE, d, [OBool true]) /\
    dictSetKeyAtLink pair_type snd DICT_RESIZE_ENABLE d (7, 71) None false = Err AssertFailed /\
    exists d', dictSetKeyAtLink pair_type fst DICT_RESIZE_ENABLE d (7, 71) None false = Ok d'.
Proof. eexists. split; [by vm_compute|]. split; [by vm_compute|]. eexists. by vm_compute. Qed.

(** While automatic resizing is paused, an insertion into a dictionary that
    has no table yet does not create one and reads through the null table. *)
Theorem dictAdd_paused_no_table {K SK V : Type} (ty : dictType K SK V) (cr : dictResizeEnable)
    (sk : SK) (v : V) (p : Z) :
  0 < p ->
  dictAdd ty cr {| ht0 := empty_ht; ht1 := empty_ht; rehashidx := -1; pauserehash := 0;
                   pauseAutoResize := p; notes := [] |} sk v = Err OutOfBounds.
Proof.
  intros Hp. unfold dictAdd, dictAddRaw, dictFindLinkForInsert. cbn [ht0 empty_ht ht_size_exp].
  change (DICTHT_SIZE_MASK (-1)) with 0. rewrite Z.land_0_r. unfold _dictRehashStepIfNeeded. simpl.
  unfold _dictExpandIfNeeded. simpl. dec_bool. cbn [bindr].
  change (i64 0 <? -1) with false. cbn [andb]. change (DICTHT_SIZE_MASK (-1)) with 0.
  rewrite Z.land_0_r. cbn [rehashidx]. change (i64 0 <? -1) with false. cbv iota.
  unfold ht_get. simpl. change (DICTHT_SIZE_MASK (-1)) with 0. by rewrite Z.land_0_r.
Qed.

Lemma dictAdd_paused_no_table_witness :
  dictAdd (int_type false false) DICT_RESIZE_ENABLE
    {| ht0 := empty_ht; ht1 := empty_ht; rehashidx := -1; pauserehash := 0;
       pauseAutoResize := 1; notes := [] |} 3 4 = Err OutOfBounds.
Proof. apply dictAdd_paused_no_table. lia. Defined.
