(* ===== verification/DictScan.v ===== *)
(** DictScan: the stateless cursor iteration of dict.c (SCAN and its family).

    The cursor is advanced on its reversed bits, so that a scan survives any
    resizing between calls.  The proof follows that idea: seen through [rev], the
    cursor is a position in [0, 2^64), each call emits every entry whose reversed
    hash lies between the old and the new position, and positions only grow. *)

From Stdlib Require Import ZArith Lia Bool.
From stdpp Require Import base list numbers decidable gmap.
From S2P Require Import Prelude Bytes Dict DictProofs DictOps DictSpec.

Local Open Scope Z_scope.

(** * Bit reversal *)

Definition ULONG_ONES : Z := 2 ^ 64 - 1.
Definition lnot64 (x : Z) : Z := Z.lxor x ULONG_ONES.

(** One round: swap neighbouring groups of [s] bits. *)
Definition rev_round (s mask v : Z) : Z :=
  Z.lor (Z.land (Z.shiftr v s) mask) (Z.land (u64 (Z.shiftl v s)) (lnot64 mask)).

(** [while ((s >>= 1) > 0)]. *)
Fixpoint rev_loop (fuel : nat) (s mask v : Z) : result Z :=
  match fuel with
  | O => Err OutOfFuel
  | S fuel =>
      let s := Z.shiftr s 1 in
      if s >? 0 then
        let mask := Z.lxor mask (u64 (Z.shiftl mask s)) in
        rev_loop fuel s mask (rev_round s mask v)
      else Ok v
  end.

Definition rev (v : Z) : result Z := rev_loop 7 64 ULONG_ONES v.

(** The cursor after one position of a table with mask [m]:
    [v |= ~m; v = rev(v); v++; v = rev(v)]. *)
Definition cursor_next (v m : Z) : result Z :=
  let* v := rev (Z.lor v (lnot64 m)) in
  rev (u64 (v + 1)).

Section scan_code.
Context {SK V : Type}.
Local Abbreviation entry := (dictEntry SK V).
Local Abbreviation dict := (dict SK V).

(** dictScanDefragBucket without defragmentation, for a callback that leaves the
    dictionary alone: the entries it is called with. *)
Definition dictScanDefragBucket (d : dict) (t idx : Z) : result (list entry) :=
  let* c := rd1 (ht_table (ht_get d t)) idx in
  Ok (chain_walk c).

(** The [do ... while (v & (m0 ^ m1))] loop over the larger table. *)
Fixpoint scan_expansions (fuel : nat) (d : dict) (t m0 m1 v : Z) (acc : list entry)
  : result (Z * list entry) :=
  match fuel with
  | O => Err OutOfFuel
  | S fuel =>
      let* es := dictScanDefragBucket d t (Z.land v m1) in
      let* v := cursor_next v m1 in
      if negb (Z.land v (Z.lxor m0 m1) =? 0)
      then scan_expansions fuel d t m0 m1 v (acc ++ es)
      else Ok (v, acc ++ es)
  end.

(** The new cursor and the entries emitted. *)
Definition dictScan (d : dict) (v : Z) : result (dict * Z * list entry) :=
  if dictSize d =? 0 then Ok (d, 0, [])
  else
    let d := dictPauseRehashing d in
    if negb (dictIsRehashing d) then
      let m0 := DICTHT_SIZE_MASK (ht_size_exp (ht0 d)) in
      let* es := dictScanDefragBucket d 0 (Z.land v m0) in
      let* v := cursor_next v m0 in
      Ok (dictResumeRehashing d, v, es)
    else
      let '(htidx0, htidx1) :=
        if DICTHT_SIZE (ht_size_exp (ht0 d)) >? DICTHT_SIZE (ht_size_exp (ht1 d))
        then (1, 0) else (0, 1) in
      let m0 := DICTHT_SIZE_MASK (ht_size_exp (ht_get d htidx0)) in
      let m1 := DICTHT_SIZE_MASK (ht_size_exp (ht_get d htidx1)) in
      let* es := dictScanDefragBucket d htidx0 (Z.land v m0) in
      let* (v, es') :=
        scan_expansions (S (length (ht_table (ht_get d htidx1)))) d htidx1 m0 m1 v es in
      Ok (dictResumeRehashing d, v, es').
End scan_code.

(** * Correctness of the bit reversal *)

Fixpoint rev_masks (fuel : nat) (s mask : Z) : list (Z * Z) :=
  match fuel with
  | O => []
  | S fuel =>
      let s := Z.shiftr s 1 in
      if s >? 0 then
        let mask := Z.lxor mask (u64 (Z.shiftl mask s)) in
        (s, mask) :: rev_masks fuel s mask
      else []
  end.

Definition rev_steps : list (Z * Z) := Eval vm_compute in rev_masks 7 64 ULONG_ONES.

(** The specification: bit [i] of the result is bit [63 - i]. *)
Definition rounds (v : Z) : Z := foldl (fun v '(s, m) => rev_round s m v) v rev_steps.

Lemma rev_rounds v : rev v = Ok (rounds v).
Proof. done. Qed.

(** Where bit [i] of a round comes from. *)
Definition bit_source (s m i : Z) : Z := if Z.testbit m i then i + s else i - s.

Lemma lnot64_testbit m i : 0 <= i < 64 -> Z.testbit (lnot64 m) i = negb (Z.testbit m i).
Proof.
  intros Hi. unfold lnot64, ULONG_ONES. change (2 ^ 64 - 1) with (Z.ones 64).
  rewrite Z.lxor_spec, Z.ones_spec_low by lia. by rewrite xorb_true_r.
Qed.

Lemma rev_round_testbit s m v i :
  0 <= s -> 0 <= i < 64 -> Z.testbit (rev_round s m v) i = Z.testbit v (bit_source s m i).
Proof.
  intros Hs Hi. unfold rev_round, bit_source, wrapU.
  rewrite Z.lor_spec, !Z.land_spec, lnot64_testbit, Z.shiftr_spec by lia.
  rewrite Z.mod_pow2_bits_low, Z.shiftl_spec by lia.
  destruct (Z.testbit m i); simpl; rewrite ?andb_true_r, ?andb_false_r, ?orb_false_r; done.
Qed.

Lemma foldl_round_testbit l v i :
  Forall (fun p => 0 <= p.1) l ->
  (forall k, (k < length l)%nat ->
     0 <= foldr (fun '(s, m) j => bit_source s m j) i (drop (S k) l) < 64) ->
  0 <= i < 64 ->
  Z.testbit (foldl (fun v '(s, m) => rev_round s m v) v l) i =
  Z.testbit v (foldr (fun '(s, m) j => bit_source s m j) i l).
Proof.
  revert v. induction l as [|[s m] l IH]; intros v Hs Hr Hi; [done|]. simpl.
  apply list.Forall_cons in Hs as [Hs Hl]. rewrite IH; [|done| |done].
  - rewrite rev_round_testbit; [done|done|]. apply (Hr 0%nat). simpl. lia.
  - intros k Hk. apply (Hr (S k)). simpl. lia.
Qed.

Definition chain_of (i : Z) : list Z :=
  map (fun k => foldr (fun '(s, m) j => bit_source s m j) i (drop k rev_steps)) (seq 0 7).

Lemma chains_ok i : 0 <= i < 64 ->
  (forall k, (k < 6)%nat -> 0 <= foldr (fun '(s, m) j => bit_source s m j) i (drop (S k) rev_steps) < 64) /\
  foldr (fun '(s, m) j => bit_source s m j) i rev_steps = 63 - i.
Proof.
  intros Hi.
  assert (forallb (fun n => let i := Z.of_nat n in
    forallb (fun k => let x := foldr (fun '(s, m) j => bit_source s m j) i (drop (S k) rev_steps) in
                      (0 <=? x) && (x <? 64)) (seq 0 6)
    && (foldr (fun '(s, m) j => bit_source s m j) i rev_steps =? 63 - i)) (seq 0 64) = true) as H by by vm_compute.
  rewrite forallb_forall in H. specialize (H (Z.to_nat i)).
  rewrite Z2Nat.id in H by lia. rewrite andb_true_iff in H.
  destruct H as [H1 H2]; [apply in_seq; lia|]. split; [|by apply Z.eqb_eq].
  intros k Hk. rewrite forallb_forall in H1. specialize (H1 k).
  rewrite andb_true_iff, Z.leb_le, Z.ltb_lt in H1. apply H1, in_seq. lia.
Qed.

Lemma rounds_testbit v i : 0 <= i < 64 -> Z.testbit (rounds v) i = Z.testbit v (63 - i).
Proof.
  intros Hi. destruct (chains_ok i Hi) as [H1 H2]. unfold rounds.
  rewrite foldl_round_testbit; [by rewrite H2| |done|done].
  unfold rev_steps. repeat (constructor; [simpl; lia|]). constructor.
Qed.

Lemma word_high x i : 0 <= x < 2 ^ 64 -> 64 <= i -> Z.testbit x i = false.
Proof.
  intros Hx Hi. destruct (Z.eq_dec x 0) as [->|]; [apply Z.bits_0|].
  apply Z.bits_above_log2; [lia|]. assert (Z.log2 x < 64) by (apply Z.log2_lt_pow2; lia). lia.
Qed.

Lemma word_ext x y :
  0 <= x < 2 ^ 64 -> 0 <= y < 2 ^ 64 ->
  (forall i, 0 <= i < 64 -> Z.testbit x i = Z.testbit y i) -> x = y.
Proof.
  intros Hx Hy Hb. apply Z.bits_inj'. intros i Hi.
  destruct (Z.lt_ge_cases i 64); [by apply Hb|]. by rewrite !word_high.
Qed.

Lemma land_word x y : 0 <= y < 2 ^ 64 -> 0 <= Z.land x y < 2 ^ 64.
Proof.
  intros Hy. split; [apply Z.land_nonneg; right; lia|].
  rewrite <- (Z.mod_small y (2 ^ 64)), <- Z.land_ones by lia.
  rewrite Z.land_assoc, Z.land_ones by lia. apply Z.mod_pos_bound. lia.
Qed.

Lemma lor_word x y : 0 <= x < 2 ^ 64 -> 0 <= y < 2 ^ 64 -> 0 <= Z.lor x y < 2 ^ 64.
Proof.
  intros Hx Hy. split; [apply Z.lor_nonneg; lia|].
  destruct (Z.eq_dec (Z.lor x y) 0) as [->|]; [lia|].
  apply Z.log2_lt_cancel. rewrite Z.log2_pow2, Z.log2_lor by lia.
  apply Z.max_lub_lt; (destruct (Z.eq_dec x 0), (Z.eq_dec y 0); subst; simpl; try lia; apply Z.log2_lt_pow2; lia).
Qed.

Lemma lnot64_word x : 0 <= x < 2 ^ 64 -> 0 <= lnot64 x < 2 ^ 64.
Proof.
  intros Hx. unfold lnot64, ULONG_ONES. change (2 ^ 64 - 1) with (Z.ones 64).
  rewrite <- Z.ldiff_ones_l_low.
  - rewrite Z.ldiff_land, Z.land_comm. apply land_word. done.
  - lia.
  - destruct (Z.eq_dec x 0) as [->|]; [done|]. apply Z.log2_lt_pow2; lia.
Qed.

Lemma rounds_range v : 0 <= rounds v < 2 ^ 64.
Proof.
  assert (forall s m x, 0 <= m < 2 ^ 64 -> 0 <= rev_round s m x < 2 ^ 64) as Hr.
  { intros s m x Hm. apply lor_word; apply land_word; [done|by apply lnot64_word]. }
  unfold rounds, rev_steps. cbn [foldl]. apply Hr. lia.
Qed.

Lemma rounds_invol v : 0 <= v < 2 ^ 64 -> rounds (rounds v) = v.
Proof.
  intros Hv. apply word_ext; [apply rounds_range|done|]. intros i Hi.
  rewrite !rounds_testbit by lia. f_equal. lia.
Qed.

Lemma rounds_zero v : 0 <= v < 2 ^ 64 -> rounds v = 0 <-> v = 0.
Proof.
  intros Hv. assert (rounds 0 = 0) as H0 by by vm_compute. split; [|by intros ->].
  intros H. rewrite <- (rounds_invol v), H by done. done.
Qed.

(** * Positions *)

Section positions.
Context (k : Z) (Hk : exp_ok k).
Local Abbreviation w := (64 - k).
Local Abbreviation m := (2 ^ k - 1).

Lemma mask_testbit i : 0 <= i -> Z.testbit m i = (i <? k).
Proof.
  intros Hi. replace m with (Z.ones k) by (rewrite Z.ones_equiv; lia).
  destruct (Z.ltb_spec i k); unfold exp_ok in Hk.
  - apply Z.ones_spec_low. lia.
  - apply Z.ones_spec_high. lia.
Qed.

Lemma mask_word : 0 <= m < 2 ^ 64.
Proof. pose proof (exp_pow k Hk). lia. Qed.

(** Filling the unmasked bits fills the low part of the position. *)
Lemma fill_position v :
  0 <= v < 2 ^ 64 ->
  rounds (Z.lor v (lnot64 m)) = rounds v / 2 ^ w * 2 ^ w + (2 ^ w - 1).
Proof.
  intros Hv. set (x := rounds (Z.lor v (lnot64 m))). unfold exp_ok in Hk.
  assert (0 < 2 ^ w) by (apply Z.pow_pos_nonneg; lia).
  assert (forall i, 0 <= i < 64 -> Z.testbit x i = Z.testbit (rounds v) i || (i <? w)) as Hx.
  { intros i Hi. unfold x. rewrite !rounds_testbit, Z.lor_spec, lnot64_testbit, mask_testbit by lia.
    f_equal. destruct (Z.ltb_spec (63 - i) k), (Z.ltb_spec i w); simpl; try done; lia. }
  assert (x / 2 ^ w = rounds v / 2 ^ w) as Hdiv.
  { apply Z.bits_inj'. intros i Hi. rewrite !Z.div_pow2_bits by lia.
    destruct (Z.lt_ge_cases (i + w) 64).
    - rewrite Hx by lia. destruct (Z.ltb_spec (i + w) w); [lia|]. by rewrite orb_false_r.
    - rewrite !word_high by (apply rounds_range || lia). done. }
  assert (x mod 2 ^ w = 2 ^ w - 1) as Hmod.
  { replace (2 ^ w - 1) with (Z.ones w) by (rewrite Z.ones_equiv; lia).
    apply Z.bits_inj'. intros i Hi. destruct (Z.lt_ge_cases i w).
    - rewrite Z.mod_pow2_bits_low, Z.ones_spec_low, Hx by lia.
      destruct (Z.ltb_spec i w); [|lia]. by rewrite orb_true_r.
    - rewrite Z.mod_pow2_bits_high, Z.ones_spec_high by lia. done. }
  rewrite (Z.div_mod x (2 ^ w)), Hdiv, Hmod by lia. lia.
Qed.

(** The position after the bucket of the cursor. *)
Definition next_pos (p : Z) : Z := (p / 2 ^ w + 1) * 2 ^ w.

Lemma cursor_next_pos v :
  0 <= v < 2 ^ 64 -> cursor_next v m = Ok (rounds (u64 (next_pos (rounds v)))).
Proof.
  intros Hv. unfold cursor_next. rewrite rev_rounds. runr. rewrite rev_rounds.
  rewrite fill_position by done. do 3 f_equal. unfold next_pos. lia.
Qed.

Lemma next_pos_bounds p : 0 <= p < 2 ^ 64 -> p < next_pos p <= 2 ^ 64.
Proof.
  intros Hp. unfold exp_ok in Hk. unfold next_pos.
  assert (0 < 2 ^ w) by (apply Z.pow_pos_nonneg; lia).
  pose proof (Z.div_mod p (2 ^ w)). pose proof (Z.mod_pos_bound p (2 ^ w)).
  assert (2 ^ 64 = 2 ^ k * 2 ^ w) as E by (rewrite <- Z.pow_add_r by lia; f_equal; lia).
  assert (p / 2 ^ w < 2 ^ k) by (apply Z.div_lt_upper_bound; nia). nia.
Qed.

(** Two words in the same bucket: same high part of the position. *)
Lemma same_bucket h v :
  0 <= h < 2 ^ 64 -> 0 <= v < 2 ^ 64 -> rounds h / 2 ^ w = rounds v / 2 ^ w ->
  Z.land h m = Z.land v m.
Proof.
  intros Hh Hv E. unfold exp_ok in Hk. apply Z.bits_inj'. intros i Hi.
  rewrite !Z.land_spec, mask_testbit by lia. destruct (Z.ltb_spec i k); [|by rewrite !andb_false_r].
  rewrite !andb_true_r. apply (f_equal (fun x => Z.testbit x (63 - i - w))) in E.
  rewrite !Z.div_pow2_bits in E by lia. rewrite !rounds_testbit in E by lia.
  replace (63 - (63 - i - w + w)) with i in E by lia. done.
Qed.
End positions.

(** The loop over expansions ends when the position is a multiple of the bucket
    width of the smaller table. *)
Lemma exit_test k0 k1 v :
  exp_ok k0 -> exp_ok k1 -> k0 <= k1 -> 0 <= v < 2 ^ 64 ->
  Z.land v (Z.lxor (2 ^ k0 - 1) (2 ^ k1 - 1)) = 0 <->
  (rounds v / 2 ^ (64 - k1)) mod 2 ^ (k1 - k0) = 0.
Proof.
  intros H0 H1 Hle Hv. pose proof (mask_testbit k0 H0) as M0. pose proof (mask_testbit k1 H1) as M1.
  unfold exp_ok in *.
  assert (forall i, 0 <= i -> Z.testbit (Z.land v (Z.lxor (2 ^ k0 - 1) (2 ^ k1 - 1))) i =
    Z.testbit v i && ((k0 <=? i) && (i <? k1))) as Hb.
  { intros i Hi. rewrite Z.land_spec, Z.lxor_spec, M0, M1 by done. f_equal.
    destruct (Z.ltb_spec i k0), (Z.ltb_spec i k1), (Z.leb_spec k0 i); simpl; try done; lia. }
  assert (forall j, 0 <= j -> Z.testbit ((rounds v / 2 ^ (64 - k1)) mod 2 ^ (k1 - k0)) j =
    (j <? k1 - k0) && Z.testbit v (k1 - 1 - j)) as Hm.
  { intros j Hj. destruct (Z.ltb_spec j (k1 - k0)); simpl.
    - rewrite Z.mod_pow2_bits_low, Z.div_pow2_bits, rounds_testbit by lia. f_equal. lia.
    - apply Z.mod_pow2_bits_high. lia. }
  split; intros E; apply Z.bits_inj'; intros i Hi; rewrite Z.bits_0.
  - rewrite Hm by done. destruct (Z.ltb_spec i (k1 - k0)); [|done]. simpl.
    specialize (Hb (k1 - 1 - i) ltac:(lia)). rewrite E, Z.bits_0 in Hb. symmetry in Hb.
    apply andb_false_iff in Hb as [Hb|Hb]; [done|]. apply andb_false_iff in Hb as [Hb|Hb]; lia.
  - rewrite Hb by done. destruct (Z.leb_spec k0 i), (Z.ltb_spec i k1); simpl; rewrite ?andb_false_r; try done.
    rewrite andb_true_r. specialize (Hm (k1 - 1 - i) ltac:(lia)). rewrite E, Z.bits_0 in Hm.
    replace (k1 - 1 - (k1 - 1 - i)) with i in Hm by lia.
    destruct (Z.ltb_spec (k1 - 1 - i) (k1 - k0)); [done|lia].
Qed.

(** * One call *)

Section scan_proofs.
Context {K SK V : Type} `{Countable K}.
Context (ty : dictType K SK V) {laws : DictTypeLaws ty}.
Local Abbreviation entry := (dictEntry SK V).
Local Abbreviation dict := (dict SK V).
Local Abbreviation ekey := (entry_key ty).

(** The position of a key. *)
Definition key_pos (key : K) : Z := rounds (dictGetHash ty key).

Lemma scan_bucket_ok d t v :
  in_use ty d t -> 0 <= v < 2 ^ 64 ->
  let k := ht_size_exp (ht_get d t) in
  exists es, dictScanDefragBucket d t (Z.land v (2 ^ k - 1)) = Ok es /\
    (forall e, e ∈ es -> e ∈ dict_elems d) /\
    (forall e, e ∈ elems (ht_get d t) ->
       key_pos (ekey e) / 2 ^ (64 - k) = rounds v / 2 ^ (64 - k) -> e ∈ es).
Proof.
  intros Hu Hv k. pose proof (in_use_live ty d t Hu) as Hl. pose proof (live_exp _ _ Hl) as Hk.
  pose proof (bucket_range v _ Hk) as Hb. rewrite DICTHT_SIZE_MASK_ok in Hb by done. fold k in Hb, Hk.
  destruct (ht_live_rd ty (ht_get d t) _ Hl Hb) as (c & Hc & Hrd & Hok & _).
  unfold dictScanDefragBucket. rewrite Hrd. runr. rewrite (chain_walk_ok ty c Hok).
  exists c. split_and!; [done| |].
  - intros e He. apply (get_elems ty d t Hu). apply elem_of_concat. eauto.
  - intros e (i & c' & Hi & He)%elem_of_concat Hp.
    destruct (live_bucket _ _ Hl i c' Hi) as [_ Hbk]. specialize (Hbk e He).
    unfold bucket_of in Hbk. fold k in Hbk. rewrite DICTHT_SIZE_MASK_ok in Hbk by done.
    rewrite (same_bucket k Hk _ v) in Hbk by (done || apply hash_range).
    rewrite Hbk, Nat2Z.id in Hc. by simplify_eq.
Qed.

(** The loop over the expansions of a small bucket in the larger table. *)
Lemma expansions_ok fuel d t k0 v acc :
  in_use ty d t -> let k1 := ht_size_exp (ht_get d t) in
  exp_ok k0 -> k0 <= k1 -> 0 <= v < 2 ^ 64 ->
  next_pos k0 (rounds v) / 2 ^ (64 - k1) - rounds v / 2 ^ (64 - k1) <= Z.of_nat fuel ->
  exists es, scan_expansions fuel d t (2 ^ k0 - 1) (2 ^ k1 - 1) v acc =
      Ok (rounds (u64 (next_pos k0 (rounds v))), acc ++ es) /\
    (forall e, e ∈ es -> e ∈ dict_elems d) /\
    (forall e, e ∈ elems (ht_get d t) ->
       rounds v <= key_pos (ekey e) < next_pos k0 (rounds v) -> e ∈ es).
Proof.
  intros Hu k1 Hk0 Hle. pose proof (live_exp _ _ (in_use_live ty d t Hu)) as Hk1. fold k1 in Hk1.
  set (W := 2 ^ (64 - k1)). set (q := 2 ^ (k1 - k0)).
  assert (2 ^ (64 - k0) = q * W) as HW.
  { unfold q, W, exp_ok in *. rewrite <- Z.pow_add_r by lia. f_equal. lia. }
  assert (0 < W /\ 0 < q) as [HW0 Hq0]
    by (unfold W, q, exp_ok in *; split; apply Z.pow_pos_nonneg; lia).
  (* positions of the larger table are counted in buckets *)
  assert (forall p, 0 <= p -> next_pos k0 p = (p / W / q + 1) * q * W) as Hnext.
  { intros p Hp. unfold next_pos. rewrite HW, (Z.mul_comm q W), <- Z.div_div by lia. lia. }
  revert v acc. induction fuel as [|fuel IH]; intros v acc Hv Hf.
  { pose proof (rounds_range v). rewrite Hnext, Z.div_mul in Hf by lia.
    pose proof (Z.div_mod (rounds v / W) q). pose proof (Z.mod_pos_bound (rounds v / W) q). nia. }
  pose proof (rounds_range v) as Hp. set (p := rounds v) in *. set (j := p / W) in *.
  assert (0 <= j) as Hj by (apply Z.div_pos; lia).
  pose proof (Z.div_mod j q ltac:(lia)) as Hjd. pose proof (Z.mod_pos_bound j q Hq0) as Hjm.
  pose proof (next_pos_bounds k0 Hk0 p Hp) as Hnb. pose proof (next_pos_bounds k1 Hk1 p Hp) as Hnb1.
  assert (next_pos k1 p = (j + 1) * W) as Hn1 by done.
  rewrite Hnext in * by lia. fold j in Hnb, Hf |- *. rewrite Z.div_mul in Hf by lia.
  destruct (scan_bucket_ok d t v Hu Hv) as (es & Hes & Hsub & Hin). fold k1 W p in Hes, Hin.
  cbn [scan_expansions]. rewrite Hes. runr. rewrite (cursor_next_pos k1 Hk1 v Hv). runr.
  fold p. rewrite Hn1. set (v' := rounds (u64 ((j + 1) * W))).
  assert (0 <= v' < 2 ^ 64) as Hv' by apply rounds_range.
  assert (rounds v' = u64 ((j + 1) * W)) as Hpv' by (apply rounds_invol, (wrapU_range 64); lia).
  assert (forall e, e ∈ elems (ht_get d t) -> p <= key_pos (ekey e) < (j + 1) * W -> e ∈ es) as Hin'.
  { intros e He Hpe. apply Hin; [done|]. fold j. pose proof (Z.div_mod p W ltac:(lia)).
    pose proof (Z.mod_pos_bound p W HW0). fold j in H0. symmetry. apply Z.div_unique with (key_pos (ekey e) - W * j); lia. }
  destruct (Z.eq_dec (j + 1) ((j / q + 1) * q)) as [Eend|Ene].
  - assert (Z.land v' (Z.lxor (2 ^ k0 - 1) (2 ^ k1 - 1)) = 0) as Hx.
    { apply exit_test; try done. rewrite Hpv'. fold W q.
      destruct (Z.eq_dec ((j + 1) * W) (2 ^ 64)) as [E|E].
      - rewrite E. unfold wrapU. rewrite Z_mod_same_full. by rewrite Z.div_0_l, Z.mod_0_l by lia.
      - rewrite wrapU_small by nia. rewrite Z.div_mul, Eend by lia. apply Z.mod_mul. lia. }
    rewrite Hx. simpl. exists es. split_and!; [by rewrite <- Eend|done|].
    intros e He Hpe. apply Hin'; [done|]. rewrite Eend. done.
  - assert (j + 1 < (j / q + 1) * q) as Hlt by nia.
    assert (0 <= (j + 1) * W < 2 ^ 64) as Hrng by nia.
    rewrite wrapU_small in Hpv' by done.
    assert ((j + 1) / q = j / q) as Hjq.
    { symmetry. apply Z.div_unique with (j + 1 - q * (j / q)); lia. }
    assert (Z.land v' (Z.lxor (2 ^ k0 - 1) (2 ^ k1 - 1)) <> 0) as Hx.
    { intros Hx. apply exit_test in Hx; try done. rewrite Hpv' in Hx. fold W q in Hx.
      rewrite Z.div_mul in Hx by lia. apply Z.mod_divide in Hx as [z Hz]; [|lia].
      assert (z = j / q) by (rewrite <- Hjq, Hz, Z.div_mul by lia; done). nia. }
    rewrite (proj2 (Z.eqb_neq _ _) Hx). cbn [negb].
    destruct (IH v' (acc ++ es) Hv') as (es' & Hr & Hsub' & Hcov).
    { rewrite Hpv', Hnext, !Z.div_mul, Hjq by nia. nia. }
    rewrite Hpv', Hnext, Z.div_mul, Hjq in Hr, Hcov by nia.
    exists (es ++ es'). split_and!.
    + rewrite Hr. by rewrite app_assoc.
    + intros e [He|He]%elem_of_app; [by apply Hsub|by apply Hsub'].
    + intros e He Hpe. apply elem_of_app.
      destruct (Z.lt_ge_cases (key_pos (ekey e)) ((j + 1) * W)); [left; apply Hin'; [done|lia]|].
      right. apply Hcov; [done|lia].
Qed.
(** The position a returned cursor stands for: 0 means the end. *)
Definition end_pos (v : Z) : Z := if v =? 0 then 2 ^ 64 else rounds v.

Lemma end_pos_next k p :
  exp_ok k -> 0 <= p < 2 ^ 64 -> end_pos (rounds (u64 (next_pos k p))) = next_pos k p.
Proof.
  intros Hk Hp. pose proof (next_pos_bounds k Hk p Hp) as Hn. unfold end_pos.
  destruct (Z.eq_dec (next_pos k p) (2 ^ 64)) as [->|E]; [by vm_compute|].
  rewrite wrapU_small by lia. destruct (Z.eqb_spec (rounds (next_pos k p)) 0) as [Ez|_].
  - rewrite rounds_zero in Ez by lia. lia.
  - by apply rounds_invol; lia.
Qed.

(** What one call guarantees: it emits entries of the dictionary, all those
    between the two positions, and advances past a bucket of a table. *)
Definition scan_post (d : dict) (v v' : Z) (es : list entry) : Prop :=
  0 <= v' < 2 ^ 64 /\
  (forall e, e ∈ es -> e ∈ dict_elems d) /\
  (forall e, e ∈ dict_elems d -> rounds v <= key_pos (ekey e) < end_pos v' -> e ∈ es) /\
  (end_pos v' = 2 ^ 64 \/
   exists k, (k = ht_size_exp (ht0 d) \/ k = ht_size_exp (ht1 d)) /\ exp_ok k /\
     end_pos v' = next_pos k (rounds v)) /\ rounds v < end_pos v'.

Lemma scan_post_next d v k es :
  0 <= v < 2 ^ 64 -> exp_ok k -> k = ht_size_exp (ht0 d) \/ k = ht_size_exp (ht1 d) ->
  (forall e, e ∈ es -> e ∈ dict_elems d) ->
  (forall e, e ∈ dict_elems d -> rounds v <= key_pos (ekey e) < next_pos k (rounds v) -> e ∈ es) ->
  scan_post d v (rounds (u64 (next_pos k (rounds v)))) es.
Proof.
  intros Hv Hk Hor Hsub Hcov. pose proof (rounds_range v) as Hp. pose proof (next_pos_bounds k Hk _ Hp).
  unfold scan_post. rewrite end_pos_next by done. split_and!; try done; try lia.
  - apply rounds_range.
  - apply rounds_range.
  - right. by exists k.
Qed.

(** Entries of a bucket of width [2^(64-k)] share the high part of their position. *)
Lemma high_part k p x :
  exp_ok k -> 0 <= p -> p <= x < next_pos k p -> x / 2 ^ (64 - k) = p / 2 ^ (64 - k).
Proof.
  unfold exp_ok, next_pos. intros Hk Hp Hx. assert (0 < 2 ^ (64 - k)) by (apply Z.pow_pos_nonneg; lia).
  pose proof (Z.div_mod p (2 ^ (64 - k))). pose proof (Z.mod_pos_bound p (2 ^ (64 - k))).
  symmetry. apply Z.div_unique with (x - 2 ^ (64 - k) * (p / 2 ^ (64 - k))); nia.
Qed.

(** The rehashing case, [t0] being the smaller table. *)
Lemma scan_two_ok d t0 t1 v :
  rehash_wf ty d -> 0 <= v < 2 ^ 64 ->
  (t0, t1) = (0, 1) \/ (t0, t1) = (1, 0) ->
  let k0 := ht_size_exp (ht_get d t0) in let k1 := ht_size_exp (ht_get d t1) in
  k0 <= k1 ->
  exists v' es es', dictScanDefragBucket d t0 (Z.land v (2 ^ k0 - 1)) = Ok es /\
    scan_expansions (S (length (ht_table (ht_get d t1)))) d t1 (2 ^ k0 - 1) (2 ^ k1 - 1) v es = Ok (v', es') /\
    scan_post d v v' es'.
Proof.
  intros Hr Hv Ht k0 k1 Hle. pose proof (rounds_range v) as Hp.
  assert (in_use ty d t0 /\ in_use ty d t1) as [Hu0 Hu1].
  { destruct Ht as [[= -> ->]|[= -> ->]]; split; ((by right) || (left; split; [done|apply Hr])). }
  pose proof (live_exp _ _ (in_use_live ty d t0 Hu0)) as Hk0.
  pose proof (live_exp _ _ (in_use_live ty d t1 Hu1)) as Hk1. fold k0 in Hk0. fold k1 in Hk1.
  destruct (scan_bucket_ok d t0 v Hu0 Hv) as (es & Hes & Hsub & Hin). fold k0 in Hes, Hin.
  destruct (expansions_ok (S (length (ht_table (ht_get d t1)))) d t1 k0 v es Hu1 Hk0 Hle Hv)
    as (es' & Hx & Hsub' & Hin').
  { fold k1. pose proof (live_len _ _ (in_use_live ty d t1 Hu1)) as Hlen. fold k1 in Hlen. unfold zlen in Hlen.
    pose proof (next_pos_bounds k0 Hk0 _ Hp) as Hn. unfold exp_ok in *.
    assert (0 < 2 ^ (64 - k1)) by (apply Z.pow_pos_nonneg; lia).
    assert (next_pos k0 (rounds v) / 2 ^ (64 - k1) <= 2 ^ 64 / 2 ^ (64 - k1)) by (apply Z.div_le_mono; lia).
    assert (2 ^ 64 / 2 ^ (64 - k1) = 2 ^ k1).
    { replace 64 with (k1 + (64 - k1)) at 1 by lia. rewrite Z.pow_add_r by lia. apply Z.div_mul. lia. }
    assert (0 <= rounds v / 2 ^ (64 - k1)) by (apply Z.div_pos; lia). lia. }
  fold k1 in Hx. eexists _, es, (es ++ es'). split_and!; [done|done|].
  apply scan_post_next; [done|done| | |].
  - destruct Ht as [[= -> ->]|[= -> ->]]; [by left|by right].
  - intros e [He|He]%elem_of_app; [by apply Hsub|by apply Hsub'].
  - intros e He Hpe. apply elem_of_app.
    assert (e ∈ elems (ht_get d t0) \/ e ∈ elems (ht_get d t1)) as [He'|He'].
    { apply elem_of_app in He. destruct Ht as [[= -> ->]|[= -> ->]]; simpl; tauto. }
    + left. apply Hin; [done|]. apply high_part; [done|lia|done].
    + right. by apply Hin'.
Qed.

Lemma scan_expansions_pause fuel (d : dict) t m0 m1 v acc :
  scan_expansions fuel (dictPauseRehashing d) t m0 m1 v acc = scan_expansions fuel d t m0 m1 v acc.
Proof.
  revert v acc. induction fuel as [|fuel IH]; intros v acc; [done|]. cbn [scan_expansions].
  change (dictScanDefragBucket (dictPauseRehashing d)) with (dictScanDefragBucket d).
  generalize (dictScanDefragBucket d t (Z.land v m1)) (cursor_next v m1). intros es c.
  destruct es as [es|]; [|reflexivity]. destruct c as [c|]; [|reflexivity]. runr. by rewrite IH.
Qed.

Lemma dictScan_ok d v :
  dict_wf ty d -> 0 <= pauserehash d < 2 ^ 32 -> 0 <= v < 2 ^ 64 ->
  exists v' es, dictScan d v = Ok (d, v', es) /\ scan_post d v v' es.
Proof.
  intros Hwf Hpr Hv. unfold dictScan. destruct (Z.eqb_spec (dictSize d) 0) as [E|E].
  { rewrite (dictSize_ok ty d Hwf) in E. apply zlen_nil_inv in E. exists 0, []. split; [done|].
    unfold scan_post. rewrite E. change (end_pos 0) with (2 ^ 64). pose proof (rounds_range v).
    split_and!; try done; try lia; try (by left); by intros e ?%not_elem_of_nil. }
  pose proof (pause_resume d Hpr) as Hres. pose proof (size_live ty d Hwf E) as Hl0.
  change (dictIsRehashing (dictPauseRehashing d)) with (dictIsRehashing d).
  change (ht0 (dictPauseRehashing d)) with (ht0 d). change (ht1 (dictPauseRehashing d)) with (ht1 d).
  change (@dictScanDefragBucket SK V (dictPauseRehashing d)) with (@dictScanDefragBucket SK V d).
  destruct (dictIsRehashing d) eqn:Er; cbn [negb].
  - pose proof (rehashing_wf ty d Hwf Er) as Hr.
    pose proof (live_exp _ _ (rw_live0 _ _ Hr)) as He0. pose proof (live_exp _ _ (rw_live1 _ _ Hr)) as He1.
    set (tt := if DICTHT_SIZE _ >? _ then (1, 0) else (0, 1)).
    assert (exists t0 t1, tt = (t0, t1) /\ ((t0, t1) = (0, 1) \/ (t0, t1) = (1, 0)) /\
      ht_size_exp (ht_get d t0) <= ht_size_exp (ht_get d t1)) as (t0 & t1 & -> & Ht & Hle).
    { unfold tt. rewrite !DICTHT_SIZE_ok, Z.gtb_ltb by done. unfold exp_ok in *.
      destruct (Z.ltb_spec (2 ^ ht_size_exp (ht1 d)) (2 ^ ht_size_exp (ht0 d))) as [Hlt|Hge].
      - exists 1, 0. split_and!; [done|by right|]. change (ht_size_exp (ht1 d) <= ht_size_exp (ht0 d)). apply Z.pow_lt_mono_r_iff in Hlt; lia.
      - exists 0, 1. split_and!; [done|by left|]. change (ht_size_exp (ht0 d) <= ht_size_exp (ht1 d)). apply Z.pow_le_mono_r_iff in Hge; lia. }
    assert (exp_ok (ht_size_exp (ht_get d t0)) /\ exp_ok (ht_size_exp (ht_get d t1))) as [Hk0 Hk1].
    { destruct Ht as [[= -> ->]|[= -> ->]]; done. }
    change (ht_get (dictPauseRehashing d)) with (ht_get d). rewrite !DICTHT_SIZE_MASK_ok by done.
    destruct (scan_two_ok d t0 t1 v Hr Hv Ht Hle) as (v' & es & es' & Hb & Hx & Hpost).
    rewrite Hb. runr. rewrite scan_expansions_pause, Hx. runr. rewrite Hres. by exists v', es'.
  - rewrite DICTHT_SIZE_MASK_ok by apply Hl0.
    destruct (scan_bucket_ok d 0 v) as (es & Hes & Hsub & Hin); [by left|done|].
    change (ht_get d 0) with (ht0 d) in *. rewrite Hes. runr.
    rewrite (cursor_next_pos _ (live_exp _ _ Hl0) v Hv). runr. rewrite Hres.
    eexists _, es. split; [done|]. apply scan_post_next; [done|apply Hl0|by left|done|].
    intros e He Hpe. apply Hin.
    + unfold dict_elems in He. rewrite (not_rehashing_ht1 ty d Hwf Er) in He.
      by apply elem_of_app in He as [?|?%not_elem_of_nil].
    + apply high_part; [apply Hl0|apply rounds_range|done].
Qed.

End scan_proofs.

(** * A whole scan *)

(** Scan from cursor [v]; the i-th call finds the dictionary [ds i], which other
    operations may have changed in any way between the calls. *)
Fixpoint scan_from {SK V} (fuel : nat) (ds : nat -> dict SK V) (i : nat) (v : Z)
  : result (list (list (dictEntry SK V))) :=
  match fuel with
  | O => Err OutOfFuel
  | S fuel =>
      let* (_, v, es) := dictScan (ds i) v in
      if v =? 0 then Ok [es]
      else let* l := scan_from fuel ds (S i) v in Ok (es :: l)
  end.

Section whole_scan.
Context {K SK V : Type} `{Countable K}.
Context (ty : dictType K SK V) {laws : DictTypeLaws ty}.
Context (ds : nat -> dict SK V) (B : Z).
Hypothesis ds_wf : forall i, dict_wf ty (ds i).
Hypothesis ds_pause : forall i, 0 <= pauserehash (ds i) < 2 ^ 32.
Hypothesis B_ok : exp_ok B.
Hypothesis ds_small : forall i, ht_size_exp (ht0 (ds i)) <= B /\ ht_size_exp (ht1 (ds i)) <= B.

Lemma next_pos_multiple k p :
  exp_ok k -> k <= B -> 0 <= p -> (2 ^ (64 - B) | next_pos k p).
Proof.
  intros Hk Hle Hp. unfold exp_ok, next_pos in *.
  replace (2 ^ (64 - k)) with (2 ^ (B - k) * 2 ^ (64 - B)) by (rewrite <- Z.pow_add_r by lia; f_equal; lia).
  rewrite Z.mul_assoc. apply Z.divide_factor_r.
Qed.

(** Distinct multiples of the bucket width are a bucket apart. *)
Lemma multiple_step W p p' n fuel :
  0 < W -> (W | p) -> (W | p') -> p < p' -> n - p <= Z.of_nat (S fuel) * W ->
  n - p' <= Z.of_nat fuel * W.
Proof.
  intros HW [a ->] [b ->] Hlt Hf. assert (a + 1 <= b) by nia.
  rewrite Nat2Z.inj_succ in Hf. nia.
Qed.

(** The scan returns, and covers every key from the current position on that
    is present at each call. *)
Lemma scan_from_ok fuel i v :
  0 <= v < 2 ^ 64 -> (2 ^ (64 - B) | rounds v) -> 2 ^ 64 - rounds v <= Z.of_nat fuel * 2 ^ (64 - B) ->
  exists l, scan_from fuel ds i v = Ok l /\ (length l <= fuel)%nat /\
    (forall j es, l !! j = Some es -> forall e, e ∈ es -> e ∈ dict_elems (ds (i + j))) /\
    forall key, rounds v <= key_pos ty key ->
      (forall j, (i <= j)%nat -> exists e, e ∈ dict_elems (ds j) /\ entry_key ty e = key) ->
      exists e, e ∈ concat l /\ entry_key ty e = key.
Proof.
  revert i v. induction fuel as [|fuel IH]; intros i v Hv Hd Hf.
  { pose proof (rounds_range v). lia. }
  pose proof (rounds_range v) as Hp.
  destruct (dictScan_ok ty (ds i) v (ds_wf i) (ds_pause i) Hv) as (v' & es & Hs & Hv' & Hsub & Hcov & Hnx & Hlt).
  cbn [scan_from]. rewrite Hs. runr. destruct (Z.eqb_spec v' 0) as [->|Hne].
  - exists [es]. split_and!; [done|simpl; lia| |].
    + intros [|j] es' Hj e He; [|done]. simplify_eq/=. rewrite Nat.add_0_r. by apply Hsub.
    + intros key Hk Hall. destruct (Hall i) as (e & He & <-); [done|]. exists e. split; [|done].
      simpl. rewrite app_nil_r. apply Hcov; [done|]. change (end_pos 0) with (2 ^ 64).
      unfold key_pos in *. pose proof (rounds_range (dictGetHash ty (entry_key ty e))). lia.
  - assert (end_pos v' = rounds v') as Hend by (unfold end_pos; by rewrite (proj2 (Z.eqb_neq _ _) Hne)).
    rewrite Hend in *. pose proof (rounds_range v') as Hp'.
    assert ((2 ^ (64 - B) | rounds v')) as Hd'.
    { destruct Hnx as [E|(k & Hor & Hk & ->)]; [lia|]. apply next_pos_multiple; [done| |lia].
      destruct (ds_small i). destruct Hor as [-> | ->]; lia. }
    destruct (IH (S i) v' Hv' Hd') as (l & Hl & Hlen & Hsubl & Hcovl).
    { apply multiple_step with (rounds v); try done. unfold exp_ok in B_ok. apply Z.pow_pos_nonneg; lia. }
    rewrite Hl. runr. exists (es :: l). split_and!; [done|simpl; lia| |].
    + intros [|j] es' Hj e He; simplify_eq/=.
      * rewrite Nat.add_0_r. by apply Hsub.
      * rewrite Nat.add_succ_r. by eapply (Hsubl j).
    + intros key Hk Hall. destruct (Z.lt_ge_cases (key_pos ty key) (rounds v')) as [Hlt'|Hge].
      * destruct (Hall i) as (e & He & <-); [done|]. exists e. split; [|done].
        simpl. apply elem_of_app. left. by apply Hcov.
      * destruct (Hcovl key Hge) as (e & He & Hke).
        { intros j Hj. apply Hall. lia. }
        exists e. split; [|done]. simpl. apply elem_of_app. by right.
Qed.
End whole_scan.

(** C22: a full SCAN misses nothing and ends: start with cursor 0 and call
    dictScan with the cursor it returned until it returns 0, while other
    operations change the dictionary between the calls in any way, resizing and
    rehashing included.  If no table is ever larger than 2^B, the scan ends
    after at most 2^B calls; every entry it reports was in the dictionary at
    that call; and every key that is in the dictionary at each call is
    reported. *)
Theorem dictScan_complete {K SK V : Type} `{Countable K} (ty : dictType K SK V)
    (laws : DictTypeLaws ty) (ds : nat -> dict SK V) (B : Z) :
  (forall i, dict_wf ty (ds i)) -> (forall i, 0 <= pauserehash (ds i) < 2 ^ 32) ->
  0 <= B <= 60 ->
  (forall i, ht_size_exp (ht0 (ds i)) <= B /\ ht_size_exp (ht1 (ds i)) <= B) ->
  exists l, scan_from (Z.to_nat (2 ^ B)) ds 0 0 = Ok l /\ Z.of_nat (length l) <= 2 ^ B /\
    (forall j es, l !! j = Some es -> forall e, e ∈ es -> e ∈ dict_elems (ds j)) /\
    forall key, (forall j, exists e, e ∈ dict_elems (ds j) /\ entry_key ty e = key) ->
      exists e, e ∈ concat l /\ entry_key ty e = key.
Proof.
  intros Hwf Hpr HB Hsm. pose proof (exp_pow B HB) as HpB.
  destruct (scan_from_ok ty ds B Hwf Hpr HB Hsm (Z.to_nat (2 ^ B)) 0 0) as (l & Hl & Hlen & Hsub & Hcov).
  - lia.
  - change (rounds 0) with 0. apply Z.divide_0_r.
  - change (rounds 0) with 0. rewrite Z2Nat.id, <- Z.pow_add_r by lia.
    replace (B + (64 - B)) with 64 by lia. lia.
  - exists l. split_and!; [done|lia|done|]. intros key Hall. apply Hcov; [|by intros j _].
    apply rounds_range.
Qed.

(** The dictionary of the witness: a rehash is under way at the first call and
    over at the following ones. *)
Definition grown : dict Z Z :=
  after (conc_run (int_type false false) (DICT_RESIZE_ENABLE, dictCreate)
           [DAdd 1 10; DAdd 5 50; DAdd 9 90; DAdd 2 20; DAdd 13 130; DRehash 100]).

Definition changing (i : nat) : dict Z Z := match i with O => growing false | S _ => grown end.

Lemma changing_rest i : rest_state (int_type false false) (changing i).
Proof. destruct i; (apply run_rest; [by repeat constructor|done]). Qed.

Lemma dictScan_complete_witness :
  rehashidx (changing 0) = 0 /\ rehashidx (changing 1) = -1 /\
  exists l, scan_from (Z.to_nat (2 ^ 3)) changing 0 0 = Ok l /\
    exists e, e ∈ concat l /\ entry_key (int_type false false) e = 13.
Proof.
  split; [by vm_compute|]. split; [by vm_compute|].
  destruct (dictScan_complete (int_type false false) _ changing 3) as (l & Hl & _ & _ & Hcov).
  - intros i. apply changing_rest.
  - intros i. rewrite (rs_pause _ _ (changing_rest i)). lia.
  - lia.
  - intros i. destruct i; by vm_compute.
  - exists l. split; [exact Hl|]. apply Hcov. intros j. exists (EntryNormal 13 (Some 130)).
    split; [|done]. apply (bool_decide_unpack _). destruct j; by vm_compute.
Defined.
