(* ===== verification/DictIter.v ===== *)
(** DictIter: the iterators of dict.c.

    An unsafe iterator checks a fingerprint of the dictionary when it is reset; a
    safe one pauses rehashing while it runs.  The pointers an iterator holds into
    a chain are the chain from that entry on (NULL is the empty chain); the
    addresses that enter the fingerprint are parameters. *)

From Stdlib Require Import ZArith Lia Bool.
From stdpp Require Import base list numbers decidable gmap.
From S2P Require Import Prelude Bytes Dict DictProofs DictOps DictSpec.

Local Open Scope Z_scope.

(** Thomas Wang's 64-bit mix, as written. *)
Definition wang_mix (hash : Z) : Z :=
  let hash := u64 (u64 (Z.lnot hash) + u64 (Z.shiftl hash 21)) in
  let hash := Z.lxor hash (Z.shiftr hash 24) in
  let hash := u64 (u64 (hash + u64 (Z.shiftl hash 3)) + u64 (Z.shiftl hash 8)) in
  let hash := Z.lxor hash (Z.shiftr hash 14) in
  let hash := u64 (u64 (hash + u64 (Z.shiftl hash 2)) + u64 (Z.shiftl hash 4)) in
  let hash := Z.lxor hash (Z.shiftr hash 28) in
  u64 (hash + u64 (Z.shiftl hash 31)).

Section iter_code.
Context {SK V : Type}.
Local Abbreviation entry := (dictEntry SK V).
Local Abbreviation dict := (dict SK V).
(** The addresses of the two bucket arrays. *)
Context (addr0 addr1 : Z).

Definition dictFingerprint (d : dict) : Z :=
  foldl (fun hash i => wang_mix (u64 (hash + i))) 0
    [u64 addr0; u64 (ht_size_exp (ht0 d)); ht_used (ht0 d);
     u64 addr1; u64 (ht_size_exp (ht1 d)); ht_used (ht1 d)].

Record dictIterator := {
  it_index : Z;
  it_table : Z;
  it_safe : bool;
  it_entry : list entry;
  it_nextEntry : list entry;
  it_fingerprint : Z;
}.

(** The fingerprint field is not written by the initialisation. *)
Definition dictInitIterator (garbage : Z) : dictIterator :=
  {| it_index := -1; it_table := 0; it_safe := false; it_entry := []; it_nextEntry := [];
     it_fingerprint := garbage |}.

Definition dictInitSafeIterator (garbage : Z) : dictIterator :=
  {| it_index := -1; it_table := 0; it_safe := true; it_entry := []; it_nextEntry := [];
     it_fingerprint := garbage |}.

(** An iterator moved to a bucket, with the chain found there. *)
Definition it_at (it : dictIterator) (table index : Z) (chain next : list entry) (fp : Z) : dictIterator :=
  {| it_index := index; it_table := table; it_safe := it_safe it; it_entry := chain;
     it_nextEntry := next; it_fingerprint := fp |}.

(** What the first call does before moving. *)
Definition iter_start (d : dict) (it : dictIterator) : dict * Z * Z :=
  if (it_index it =? -1) && (it_table it =? 0) then
    let '(d, fp) := if it_safe it then (dictPauseRehashing d, it_fingerprint it)
                    else (d, dictFingerprint d) in
    (d, if dictIsRehashing d then rehashidx d - 1 else it_index it, fp)
  else (d, it_index it, it_fingerprint it).

(** The [while (1)] loop. *)
Fixpoint dictNext_loop (fuel : nat) (d : dict) (it : dictIterator)
  : result (dict * dictIterator * option entry) :=
  match fuel with
  | O => Err OutOfFuel
  | S fuel =>
      let found d it chain :=
        match chain with
        | e :: _ => Ok (d, it_at it (it_table it) (it_index it) chain (dictGetNext chain) (it_fingerprint it), Some e)
        | [] => dictNext_loop fuel d (it_at it (it_table it) (it_index it) [] (it_nextEntry it) (it_fingerprint it))
        end in
      match it_entry it with
      | [] =>
          let '(d, index, fp) := iter_start d it in
          let index := index + 1 in
          let size := DICTHT_SIZE (ht_size_exp (ht_get d (it_table it))) in
          if index >=? i64 size then
            if dictIsRehashing d && (it_table it =? 0) then
              let* chain := rd1 (ht_table (ht_get d 1)) 0 in
              found d (it_at it 1 0 chain (it_nextEntry it) fp) chain
            else Ok (d, it_at it (it_table it) index [] (it_nextEntry it) fp, None)
          else
            let* chain := rd1 (ht_table (ht_get d (it_table it))) index in
            found d (it_at it (it_table it) index chain (it_nextEntry it) fp) chain
      | _ => found d it (it_nextEntry it)
      end
  end.

Definition dictNext (d : dict) (it : dictIterator) : result (dict * dictIterator * option entry) :=
  dictNext_loop (length (ht_table (ht0 d)) + length (ht_table (ht1 d)) + 3) d it.

Definition dictResetIterator (d : dict) (it : dictIterator) : result dict :=
  if negb ((it_index it =? -1) && (it_table it =? 0)) then
    if it_safe it then Ok (dictResumeRehashing d)
    else check it_fingerprint it =? dictFingerprint d else AssertFailed;; Ok d
  else Ok d.

(** [while ((de = dictNext(&di)) != NULL)]: the entries seen. *)
Fixpoint dictForEach (fuel : nat) (d : dict) (it : dictIterator)
  : result (dict * dictIterator * list entry) :=
  match fuel with
  | O => Err OutOfFuel
  | S fuel =>
      let* (d, it, e) := dictNext d it in
      match e with
      | None => Ok (d, it, [])
      | Some e => let* (d, it, es) := dictForEach fuel d it in Ok (d, it, e :: es)
      end
  end.
End iter_code.

(** * Correctness *)

Section iter_proofs.
Context {K SK V : Type} `{Countable K}.
Context (ty : dictType K SK V) {laws : DictTypeLaws ty} (addr0 addr1 : Z).
Local Abbreviation entry := (dictEntry SK V).
Local Abbreviation dict := (dict SK V).
Local Abbreviation iterator := (@dictIterator SK V).

(** The buckets of table [t], and the entries from bucket [i] of it on. *)
Definition buckets_of (d : dict) (t : Z) : Z := zlen (ht_table (ht_get d t)).

Definition pending (d : dict) (t i : Z) : list entry :=
  concat (drop (Z.to_nat i) (ht_table (ht_get d t))) ++
  (if dictIsRehashing d && (t =? 0) then elems (ht1 d) else []).

(** A place an iterator can stand at. *)
Definition place (d : dict) (t i : Z) : Prop :=
  (t = 0 \/ (t = 1 /\ dictIsRehashing d = true)) /\ 0 <= i <= buckets_of d t.

(** How many buckets are still to be looked at. *)
Definition togo (d : dict) (t i : Z) : Z :=
  buckets_of d t - i + (if dictIsRehashing d && (t =? 0) then buckets_of d 1 else 0).

Lemma size_buckets d t :
  dict_wf ty d -> t = 0 \/ t = 1 -> i64 (DICTHT_SIZE (ht_size_exp (ht_get d t))) = buckets_of d t.
Proof.
  intros Hwf Ht. assert (ht_wf ty (ht_get d t)) as [E|Hl].
  { destruct Ht as [-> | ->]; [by apply tables_ht0|]. change (ht_get d 1) with (ht1 d).
    destruct (wf_tables _ _ Hwf) as [(_ & _ & ->)|Hr]; [by left|right; apply Hr]. }
  - unfold buckets_of. rewrite E. by vm_compute.
  - unfold buckets_of. rewrite DICTHT_SIZE_ok, (live_len _ _ Hl) by apply Hl.
    pose proof (exp_pow _ (live_exp _ _ Hl)). apply wrapS_small; simpl; lia.
Qed.

Lemma pending_step d t i c :
  0 <= i -> ht_table (ht_get d t) !! Z.to_nat i = Some c -> pending d t i = c ++ pending d t (i + 1).
Proof.
  intros Hi Hc. unfold pending. rewrite (drop_S _ c) by done. simpl.
  replace (Z.to_nat (i + 1)) with (S (Z.to_nat i)) by lia. by rewrite app_assoc.
Qed.

Lemma pending_end d t : pending d t (buckets_of d t) = if dictIsRehashing d && (t =? 0) then elems (ht1 d) else [].
Proof. unfold pending, buckets_of, zlen. rewrite Nat2Z.id, drop_ge by lia. done. Qed.

Lemma bucket_at d t i :
  dict_wf ty d -> place d t i -> i < buckets_of d t ->
  exists c, rd1 (ht_table (ht_get d t)) i = Ok c /\ ht_table (ht_get d t) !! Z.to_nat i = Some c /\ chain_ok ty c.
Proof.
  intros Hwf [Ht Hi] Hlt. destruct (rd1_ok (ht_table (ht_get d t)) i) as (c & Hrd & Hc); [unfold buckets_of in *; lia|].
  exists c. split_and!; [done..|].
  assert (ht_wf ty (ht_get d t)) as [E|Hl].
  { destruct Ht as [-> | [-> E]]; [by apply tables_ht0|right; apply (rehashing_wf ty d Hwf E)]. }
  - by rewrite E in Hc.
  - apply (live_bucket _ _ Hl _ _ Hc).
Qed.

(** An iterator in the middle of a chain, with [l] still to be returned. *)
Record midway (d : dict) (it : iterator) (l : list entry) : Prop := {
  mw_entry : it_entry it <> [];
  mw_next : chain_ok ty (it_nextEntry it);
  mw_place : place d (it_table it) (it_index it + 1) /\ 0 <= it_index it;
  mw_rest : it_nextEntry it ++ pending d (it_table it) (it_index it + 1) = l;
}.

(** The outcome of a call when [l] is still to be returned. *)
Definition next_post (d : dict) (safe : bool) (fp : Z) (l : list entry)
    (r : result (dict * iterator * option entry)) : Prop :=
  exists it', it_safe it' = safe /\ it_fingerprint it' = fp /\ 0 <= it_index it' /\
    match l with
    | [] => r = Ok (d, it', None)
    | e :: l' => r = Ok (d, it', Some e) /\ midway d it' l'
    end.

(** Stopping at a non-empty chain. *)
Lemma stop_post d it t i e c fp :
  chain_ok ty (e :: c) -> 0 <= i -> place d t (i + 1) ->
  next_post d (it_safe it) fp ((e :: c) ++ pending d t (i + 1))
    (Ok (d, it_at it t i (e :: c) (dictGetNext (e :: c)) fp, Some e)).
Proof.
  intros Hc Hi Hp. exists (it_at it t i (e :: c) (dictGetNext (e :: c)) fp).
  split; [done|]. split; [done|]. split; [done|]. split; [done|].
  assert (dictGetNext (e :: c) = c) as Hn.
  { simpl. destruct Hc as (_ & Hk & _). destruct (entryIsKey e); [by rewrite Hk|done]. }
  rewrite Hn. constructor; simpl; try done. apply Hc.
Qed.

Lemma iter_started (d : dict) (it : iterator) :
  0 <= it_index it -> iter_start addr0 addr1 d it = (d, it_index it, it_fingerprint it).
Proof. intros Hi. unfold iter_start. dec_bool. done. Qed.

(** Looking from bucket [i] of table [t] on. *)
Lemma look_ok fuel d0 d it t i fp :
  dict_wf ty d -> place d t i -> togo d t i < Z.of_nat fuel -> it_entry it = [] -> it_table it = t ->
  iter_start addr0 addr1 d0 it = (d, i - 1, fp) ->
  next_post d (it_safe it) fp (pending d t i) (dictNext_loop addr0 addr1 fuel d0 it).
Proof.
  intros Hwf. revert d0 it t i. induction fuel as [|fuel IH]; intros d0 it t i Hpl Hf He Ht Hst;
    pose proof Hpl as [Hor Hrange]; (assert (t = 0 \/ t = 1) as Ht01 by tauto);
    (assert (0 <= buckets_of d 1) by apply zlen_nonneg); unfold togo in Hf.
  { destruct (dictIsRehashing d && _); lia. }
  cbn [dictNext_loop]. rewrite He, Hst, Ht, size_buckets, Z.sub_add, Z.geb_leb by done.
  destruct (Z.leb_spec (buckets_of d t) i) as [Hge|Hlt].
  - replace i with (buckets_of d t) in * by lia. rewrite pending_end.
    destruct (dictIsRehashing d && (t =? 0)) eqn:E.
    + apply andb_true_iff in E as [E E0%Z.eqb_eq]. subst t.
      pose proof (rehashing_wf ty d Hwf E) as Hr. pose proof (live_len _ _ (rw_live1 _ _ Hr)) as Hlen.
      pose proof (exp_pow _ (live_exp _ _ (rw_live1 _ _ Hr))) as Hpow.
      assert (place d 1 0) as Hp1 by (split; [by right|lia]).
      destruct (bucket_at d 1 0 Hwf Hp1) as (c & Hrd & Hc & Hok).
      { unfold buckets_of. change (ht_get d 1) with (ht1 d). lia. }
      rewrite Hrd. runr.
      assert (elems (ht1 d) = pending d 1 0) as ->.
      { unfold pending. change (1 =? 0) with false. by rewrite andb_false_r, app_nil_r. }
      rewrite (pending_step d 1 0 c) by done.
      assert (place d 1 (0 + 1)) as Hp2.
      { split; [by right|]. unfold buckets_of. change (ht_get d 1) with (ht1 d). lia. }
      destruct c as [|e c]; [|by apply (stop_post d (it_at it 1 0 (e :: c) (it_nextEntry it) fp) 1 0)].
      apply (IH d (it_at (it_at it 1 0 [] (it_nextEntry it) fp) 1 0 [] (it_nextEntry it) fp) 1 (0 + 1)); [done| |done|done|by apply iter_started].
      unfold togo. change (1 =? 0) with false. rewrite andb_false_r. lia.
    + exists (it_at it t (buckets_of d t) [] (it_nextEntry it) fp). split_and!; try done. simpl. lia.
  - destruct (bucket_at d t i Hwf Hpl Hlt) as (c & Hrd & Hc & Hok). rewrite Hrd. runr.
    rewrite (pending_step d t i c) by (done || lia).
    assert (place d t (i + 1)) as Hp2 by (split; [done|lia]).
    destruct c as [|e c];
      [|apply (stop_post d (it_at it t i (e :: c) (it_nextEntry it) fp) t i); done || lia].
    apply (IH d (it_at (it_at it t i [] (it_nextEntry it) fp) t i [] (it_nextEntry it) fp) t (i + 1)); [done| |done|done|].
    + unfold togo. destruct (dictIsRehashing d && _); lia.
    + rewrite iter_started by (simpl; lia). simpl. f_equal. f_equal. lia.
Qed.

(** Enough fuel from anywhere. *)
Lemma togo_fuel d t i : place d t i ->
  togo d t i < Z.of_nat (length (ht_table (ht0 d)) + length (ht_table (ht1 d)) + 2).
Proof.
  intros [Ht Hi]. unfold togo, buckets_of, zlen in *. change (ht_get d 1) with (ht1 d).
  destruct Ht as [-> | [-> E]].
  - change (ht_get d 0) with (ht0 d) in *. destruct (dictIsRehashing d); simpl; lia.
  - change (1 =? 0) with false. rewrite andb_false_r. change (ht_get d 1) with (ht1 d) in *. lia.
Qed.

Lemma next_ok d it l :
  dict_wf ty d -> midway d it l ->
  next_post d (it_safe it) (it_fingerprint it) l (dictNext addr0 addr1 d it).
Proof.
  intros Hwf [He Hn [Hp Hi] <-]. unfold dictNext. rewrite Nat.add_succ_r. cbn [dictNext_loop].
  destruct (it_entry it) as [|x xs] eqn:Ee; [done|]. destruct (it_nextEntry it) as [|e c] eqn:En.
  - apply (look_ok _ d d (it_at it (it_table it) (it_index it) [] [] (it_fingerprint it)) (it_table it)); [done|done|by apply togo_fuel|done|done|].
    rewrite iter_started by done. simpl. do 2 f_equal. lia.
  - by apply (stop_post d it (it_table it) (it_index it)).
Qed.

Lemma foreach_ok fuel d it l :
  dict_wf ty d -> midway d it l -> (length l < fuel)%nat ->
  exists it', dictForEach addr0 addr1 fuel d it = Ok (d, it', l) /\ it_safe it' = it_safe it /\
    it_fingerprint it' = it_fingerprint it /\ 0 <= it_index it'.
Proof.
  intros Hwf. revert it l. induction fuel as [|fuel IH]; intros it l Hm Hf; [lia|].
  cbn [dictForEach]. destruct (next_ok d it l Hwf Hm) as (it1 & Hs & Hfp & Hi & Hr).
  destruct l as [|e l].
  - rewrite Hr. by exists it1.
  - destruct Hr as [-> Hm1]. runr. destruct (IH it1 l Hm1) as (it2 & -> & Hs2 & Hfp2 & Hi2); [simpl in *; lia|].
    exists it2. split_and!; [done|congruence..|done].
Qed.

(** The buckets before the rehashing cursor hold nothing. *)
Lemma pending_start d :
  dict_wf ty d -> pending d 0 (if dictIsRehashing d then rehashidx d else 0) = dict_elems d.
Proof.
  intros Hwf. unfold pending, dict_elems. change (ht_get d 0) with (ht0 d).
  change (0 =? 0) with true. rewrite andb_true_r. destruct (dictIsRehashing d) eqn:E.
  - f_equal. pose proof (rehashing_wf ty d Hwf E) as Hr. pose proof (rw_idx _ _ Hr) as Hi.
    unfold elems. rewrite <- (take_drop (Z.to_nat (rehashidx d)) (ht_table (ht0 d))) at 2.
    rewrite concat_app. replace (concat (take _ _)) with (@nil entry); [done|]. symmetry.
    apply concat_nil_iff. intros i c [Hc Hlt]%lookup_take_Some.
    rewrite (rw_moved _ _ Hr) in Hc by lia. by simplify_eq.
  - rewrite (not_rehashing_ht1 ty d Hwf E). done.
Qed.

(** The dictionary while an iterator runs on it. *)
Definition iterated (safe : bool) (d : dict) : dict := if safe then dictPauseRehashing d else d.
Definition start_fp (safe : bool) (garbage : Z) (d : dict) : Z :=
  if safe then garbage else dictFingerprint addr0 addr1 d.
Definition init_iterator (safe : bool) (garbage : Z) : iterator :=
  if safe then dictInitSafeIterator garbage else dictInitIterator garbage.

Lemma iterated_wf safe d : dict_wf ty d -> dict_wf ty (iterated safe d).
Proof. intros Hwf. destruct safe; [by apply set_pauserehash_wf|done]. Qed.

(** The first call of dictNext. *)
Lemma iter_first_ok d (safe : bool) garbage :
  dict_wf ty d ->
  next_post (iterated safe d) safe (start_fp safe garbage d) (dict_elems d)
    (dictNext addr0 addr1 d (init_iterator safe garbage)).
Proof.
  intros Hwf. set (i := if dictIsRehashing d then rehashidx d else 0).
  assert (pending (iterated safe d) 0 i = pending d 0 i) as E3 by by destruct safe.
  assert (place (iterated safe d) 0 i) as Hpl.
  { split; [by left|]. unfold i. destruct (dictIsRehashing d) eqn:E; [|split; [lia|apply zlen_nonneg]].
    pose proof (rw_idx _ _ (rehashing_wf ty d Hwf E)). destruct safe; done. }
  assert (iter_start addr0 addr1 d (init_iterator safe garbage) = (iterated safe d, i - 1, start_fp safe garbage d)) as Hst.
  { unfold iter_start, init_iterator, iterated, start_fp, i. destruct safe; simpl;
      [change (dictIsRehashing (dictPauseRehashing d)) with (dictIsRehashing d)|];
      destruct (dictIsRehashing d); done. }
  pose proof (pending_start d Hwf) as Hps. fold i in Hps.
  rewrite <- Hps, <- E3. replace safe with (it_safe (init_iterator safe garbage)) at 2 by by destruct safe.
  apply look_ok; try done; [by apply iterated_wf| |by destruct safe..].
  pose proof (togo_fuel (iterated safe d) 0 i Hpl) as Ht. destruct safe; simpl in *; lia.
Qed.

(** Resetting an iterator that has started. *)
Lemma reset_ok d (safe : bool) garbage it' :
  0 <= pauserehash d < 2 ^ 32 -> it_safe it' = safe -> it_fingerprint it' = start_fp safe garbage d -> 0 <= it_index it' ->
  dictResetIterator addr0 addr1 (iterated safe d) it' = Ok d.
Proof.
  intros Hp Hs' Hfp' Hi'. unfold dictResetIterator. rewrite Hs', Hfp'. unfold iterated, start_fp.
  dec_bool. destruct safe.
  - rewrite pause_resume by lia. reflexivity.
  - rewrite Z.eqb_refl. reflexivity.
Qed.

(** A whole iteration, from initialisation to reset. *)
Lemma iterate_ok d (safe : bool) garbage :
  dict_wf ty d -> 0 <= pauserehash d < 2 ^ 32 - 1 ->
  exists d1 it', dictForEach addr0 addr1 (S (length (dict_elems d))) d (init_iterator safe garbage) =
      Ok (d1, it', dict_elems d) /\
    pauserehash d1 = pauserehash d + b2z safe /\ dictResetIterator addr0 addr1 d1 it' = Ok d.
Proof.
  intros Hwf Hp. destruct (iter_first_ok d safe garbage Hwf) as (it1 & Hs & Hfp & Hi & Hr).
  assert (pauserehash (iterated safe d) = pauserehash d + b2z safe) as E4.
  { unfold iterated, dictPauseRehashing. destruct safe; simpl; [apply wrapU_small; lia|lia]. }
  cbn [dictForEach]. destruct (dict_elems d) as [|e l] eqn:El.
  - rewrite Hr. runr. exists (iterated safe d), it1. split_and!; [done|done|]. by apply (reset_ok d safe garbage); [lia|..].
  - destruct Hr as [-> Hm]. runr. destruct (foreach_ok (length (e :: l)) (iterated safe d) it1 l (iterated_wf safe d Hwf) Hm)
      as (it2 & -> & Hs2 & Hfp2 & Hi2); [simpl; lia|].
    exists (iterated safe d), it2. split_and!; [done|done|]. apply (reset_ok d safe garbage); [lia|congruence..|done].
Qed.
End iter_proofs.

(** An iteration over an unchanged dictionary, safe or not, returns every
    entry of both tables exactly once and then ends, whatever the progress of
    rehashing; a safe iterator holds rehashing paused in between, and resetting
    the iterator restores the dictionary (for an unsafe one, the fingerprint
    check passes). *)
Theorem dictIterator_visits_all {K SK V : Type} `{Countable K} (ty : dictType K SK V)
    (laws : DictTypeLaws ty) (addr0 addr1 garbage : Z) (d : dict SK V) (safe : bool) :
  dict_wf ty d -> 0 <= pauserehash d < 2 ^ 32 - 1 ->
  exists d1 it',
    dictForEach addr0 addr1 (S (length (dict_elems d))) d
      (if safe then dictInitSafeIterator garbage else dictInitIterator garbage)
      = Ok (d1, it', dict_elems d) /\
    pauserehash d1 = pauserehash d + b2z safe /\ dictResetIterator addr0 addr1 d1 it' = Ok d.
Proof. intros Hwf Hp. by apply (iterate_ok ty addr0 addr1 d safe garbage). Qed.

Lemma dictIterator_visits_all_witness :
  exists d1 it',
    dictForEach 4096 8192 (S (length (dict_elems (growing true)))) (growing true) (dictInitSafeIterator 0)
      = Ok (d1, it', dict_elems (growing true)) /\ length (dict_elems (growing true)) = 5%nat /\
    pauserehash d1 = pauserehash (growing true) + 1.
Proof.
  destruct (dictIterator_visits_all (int_type true false) _ 4096 8192 0 (growing true) true)
    as (d1 & it' & Hf & Hp & _).
  - apply growing_rest.
  - rewrite (rs_pause _ _ (growing_rest true)). lia.
  - exists d1, it'. split; [exact Hf|]. split; [by vm_compute|exact Hp].
Defined.
