(* ===== verification/Kvstore.v ===== *)
(** Kvstore: the array of dictionaries of src/redis-stable/src/kvstore.c, the
    keyspace of a database: one dictionary per hash slot in cluster mode, one in
    all otherwise.

    This file holds the definitions; KvstoreProofs.v has the invariant and the
    books, KvstoreOps.v and KvstoreLoops.v the operations, KvstoreSpec.v the
    refinement, KvstoreMove.v the move between two stores, KvstoreIter.v the
    iterator and KvstoreScan.v the cursor over all dictionaries.

    Correspondence.  [kvstore] has the fields of struct _kvstore.  A slot of
    [dicts] is NULL ([None]) or a dictionary with the part of its metadata the
    store uses, the flag [kd_rehashing_node] for a non-null rehashing_node.  The
    list [rehashing] holds the indexes of the dictionaries its nodes point to.
    A dictionary calls back its owner while an operation runs; no callback
    changes what the dictionary does, so [on_dict] runs the operation and then
    plays the calls it recorded, in order.  [cr] is the global resize policy of
    dict.c.  The type's canFreeDict is a parameter; onDictEmpty and
    onKvstoreEmpty work on metadata outside this structure and are left out. *)

From Stdlib Require Import ZArith Lia Bool.
From S2P Require Import Prelude Bytes Fenwick Dict DictScan DictIter.
From stdpp Require Import base list numbers decidable gmap.

Local Open Scope Z_scope.

Definition KVSTORE_ALLOCATE_DICTS_ON_DEMAND : Z := 1.
Definition KVSTORE_FREE_EMPTY_DICTS : Z := 2.

Record kvdict (SK V : Type) := {
  kd_dict : dict SK V;
  kd_rehashing_node : bool;
}.
Arguments Build_kvdict {SK V}.
Arguments kd_dict {SK V}.
Arguments kd_rehashing_node {SK V}.

Record kvstore (SK V : Type) := {
  flags : Z;
  dicts : list (option (kvdict SK V));
  num_dicts : Z;
  num_dicts_bits : Z;
  rehashing : list Z;
  resize_cursor : Z;
  allocated_dicts : Z;
  non_empty_dicts : Z;
  key_count : Z;
  bucket_count : Z;
  dict_sizes : option fenwickTree;
  overhead_hashtable_rehashing : Z;
}.
Arguments Build_kvstore {SK V}.
Arguments flags {SK V}.
Arguments dicts {SK V}.
Arguments num_dicts {SK V}.
Arguments num_dicts_bits {SK V}.
Arguments rehashing {SK V}.
Arguments resize_cursor {SK V}.
Arguments allocated_dicts {SK V}.
Arguments non_empty_dicts {SK V}.
Arguments key_count {SK V}.
Arguments bucket_count {SK V}.
Arguments dict_sizes {SK V}.
Arguments overhead_hashtable_rehashing {SK V}.

Section kvstore_code.
Context {K SK V : Type} (ty : dictType K SK V).
Local Abbreviation entry := (dictEntry SK V).
Local Abbreviation dict := (dict SK V).
Local Abbreviation kvdict := (kvdict SK V).
Local Abbreviation kvstore := (kvstore SK V).

(** The callback of the store's type: [None] when it is NULL. *)
Context (canFreeDict : option (kvstore -> Z -> bool)).

(** * Assignments to fields *)

Definition set_slot (kvs : kvstore) (didx : Z) (s : option kvdict) : kvstore :=
  {| flags := flags kvs; dicts := <[Z.to_nat didx := s]> (dicts kvs); num_dicts := num_dicts kvs;
     num_dicts_bits := num_dicts_bits kvs; rehashing := rehashing kvs; resize_cursor := resize_cursor kvs;
     allocated_dicts := allocated_dicts kvs; non_empty_dicts := non_empty_dicts kvs;
     key_count := key_count kvs; bucket_count := bucket_count kvs; dict_sizes := dict_sizes kvs;
     overhead_hashtable_rehashing := overhead_hashtable_rehashing kvs |}.

Definition set_rehashing (kvs : kvstore) (l : list Z) (overhead : Z) : kvstore :=
  {| flags := flags kvs; dicts := dicts kvs; num_dicts := num_dicts kvs;
     num_dicts_bits := num_dicts_bits kvs; rehashing := l; resize_cursor := resize_cursor kvs;
     allocated_dicts := allocated_dicts kvs; non_empty_dicts := non_empty_dicts kvs;
     key_count := key_count kvs; bucket_count := bucket_count kvs; dict_sizes := dict_sizes kvs;
     overhead_hashtable_rehashing := overhead |}.

Definition set_bucket_count (kvs : kvstore) (n : Z) : kvstore :=
  {| flags := flags kvs; dicts := dicts kvs; num_dicts := num_dicts kvs;
     num_dicts_bits := num_dicts_bits kvs; rehashing := rehashing kvs; resize_cursor := resize_cursor kvs;
     allocated_dicts := allocated_dicts kvs; non_empty_dicts := non_empty_dicts kvs;
     key_count := key_count kvs; bucket_count := n; dict_sizes := dict_sizes kvs;
     overhead_hashtable_rehashing := overhead_hashtable_rehashing kvs |}.

Definition set_allocated (kvs : kvstore) (n : Z) : kvstore :=
  {| flags := flags kvs; dicts := dicts kvs; num_dicts := num_dicts kvs;
     num_dicts_bits := num_dicts_bits kvs; rehashing := rehashing kvs; resize_cursor := resize_cursor kvs;
     allocated_dicts := n; non_empty_dicts := non_empty_dicts kvs;
     key_count := key_count kvs; bucket_count := bucket_count kvs; dict_sizes := dict_sizes kvs;
     overhead_hashtable_rehashing := overhead_hashtable_rehashing kvs |}.

Definition set_counts (kvs : kvstore) (keys non_empty : Z) (ft : option fenwickTree) : kvstore :=
  {| flags := flags kvs; dicts := dicts kvs; num_dicts := num_dicts kvs;
     num_dicts_bits := num_dicts_bits kvs; rehashing := rehashing kvs; resize_cursor := resize_cursor kvs;
     allocated_dicts := allocated_dicts kvs; non_empty_dicts := non_empty;
     key_count := keys; bucket_count := bucket_count kvs; dict_sizes := ft;
     overhead_hashtable_rehashing := overhead_hashtable_rehashing kvs |}.

Definition set_resize_cursor (kvs : kvstore) (c : Z) : kvstore :=
  {| flags := flags kvs; dicts := dicts kvs; num_dicts := num_dicts kvs;
     num_dicts_bits := num_dicts_bits kvs; rehashing := rehashing kvs; resize_cursor := c;
     allocated_dicts := allocated_dicts kvs; non_empty_dicts := non_empty_dicts kvs;
     key_count := key_count kvs; bucket_count := bucket_count kvs; dict_sizes := dict_sizes kvs;
     overhead_hashtable_rehashing := overhead_hashtable_rehashing kvs |}.

Definition kvs_flag (kvs : kvstore) (f : Z) : bool := negb (Z.land (flags kvs) f =? 0).

(** * Helpers *)

Definition kvstoreGetDict (kvs : kvstore) (didx : Z) : result (option kvdict) := rd1 (dicts kvs) didx.

Definition kvstoreSize (kvs : kvstore) : Z := key_count kvs.

Definition slot_size (s : option kvdict) : Z :=
  match s with Some kd => dictSize (kd_dict kd) | None => 0 end.

Definition kvstoreDictSize (kvs : kvstore) (didx : Z) : result Z :=
  let* d := kvstoreGetDict kvs didx in Ok (slot_size d).

Definition kvstoreDictIsRehashingPaused (kvs : kvstore) (didx : Z) : result bool :=
  let* d := kvstoreGetDict kvs didx in
  Ok (match d with Some kd => pauserehash (kd_dict kd) >? 0 | None => false end).

Definition addDictIndexToCursor (kvs : kvstore) (didx cursor : Z) : Z :=
  if num_dicts kvs =? 1 then cursor
  else if didx <? 0 then cursor
  else Z.lor (u64 (Z.shiftl cursor (num_dicts_bits kvs))) (u64 didx).

(** The index, and the cursor without it. *)
Definition getAndClearDictIndexFromCursor (kvs : kvstore) (cursor : Z) : Z * Z :=
  if num_dicts kvs =? 1 then (0, cursor)
  else (i32 (Z.land cursor (num_dicts kvs - 1)), Z.shiftr cursor (num_dicts_bits kvs)).

Definition cumulativeKeyCountAdd (kvs : kvstore) (didx delta : Z) : result kvstore :=
  let keys := u64 (key_count kvs + delta) in
  let* d := kvstoreGetDict kvs didx in
  match d with
  | None => Err NullDeref
  | Some kd =>
      let dsize := dictSize (kd_dict kd) in
      let non_empty_dicts_delta :=
        if (dsize =? 1) && (delta >? 0) then 1 else if dsize =? 0 then -1 else 0 in
      let* non_empty := chk_i32 (non_empty_dicts kvs + non_empty_dicts_delta) in
      if num_dicts kvs =? 1 then Ok (set_counts kvs keys non_empty (dict_sizes kvs))
      else
        let* ft := fwTreeUpdate (dict_sizes kvs) didx delta in
        Ok (set_counts kvs keys non_empty ft)
  end.

Definition createDictIfNeeded (kvs : kvstore) (didx : Z) : result kvstore :=
  let* d := kvstoreGetDict kvs didx in
  match d with
  | Some _ => Ok kvs
  | None =>
      let kvs := set_slot kvs didx (Some {| kd_dict := dictCreate; kd_rehashing_node := false |}) in
      let* n := chk_i32 (allocated_dicts kvs + 1) in
      Ok (set_allocated kvs n)
  end.

(** * Callbacks of a dictionary *)

Definition set_node (kvs : kvstore) (didx : Z) (node : bool) : kvstore :=
  match dicts kvs !! Z.to_nat didx with
  | Some (Some kd) => set_slot kvs didx (Some {| kd_dict := kd_dict kd; kd_rehashing_node := node |})
  | _ => kvs
  end.

Definition has_node (kvs : kvstore) (didx : Z) : bool :=
  match dicts kvs !! Z.to_nat didx with
  | Some (Some kd) => kd_rehashing_node kd
  | _ => false
  end.

(** listDelNode of the node whose value is the dictionary [didx]. *)
Fixpoint del_node (didx : Z) (l : list Z) : list Z :=
  match l with
  | [] => []
  | x :: l => if x =? didx then l else x :: del_node didx l
  end.

Definition kvstoreDictRehashingStarted (kvs : kvstore) (didx from : Z) : kvstore :=
  let kvs := set_node kvs didx true in
  set_rehashing kvs (rehashing kvs ++ [didx]) (u64 (overhead_hashtable_rehashing kvs + from)).

Definition kvstoreDictRehashingCompleted (kvs : kvstore) (didx from : Z) : kvstore :=
  let kvs :=
    if has_node kvs didx
    then let kvs := set_node kvs didx false in
         set_rehashing kvs (del_node didx (rehashing kvs)) (overhead_hashtable_rehashing kvs)
    else kvs in
  set_rehashing kvs (rehashing kvs) (u64 (overhead_hashtable_rehashing kvs - from)).

Definition kvstoreDictBucketChanged (kvs : kvstore) (delta : Z) : kvstore :=
  set_bucket_count kvs (u64 (bucket_count kvs + delta)).

Definition callback (didx : Z) (kvs : kvstore) (n : note) : kvstore :=
  match n with
  | RehashingStarted from => kvstoreDictRehashingStarted kvs didx from
  | RehashingCompleted from => kvstoreDictRehashingCompleted kvs didx from
  | BucketChanged delta => kvstoreDictBucketChanged kvs delta
  end.

Definition callbacks (didx : Z) (kvs : kvstore) (l : list note) : kvstore :=
  foldl (callback didx) kvs l.

Definition clear_notes (d : dict) : dict :=
  {| ht0 := ht0 d; ht1 := ht1 d; rehashidx := rehashidx d; pauserehash := pauserehash d;
     pauseAutoResize := pauseAutoResize d; notes := [] |}.

(** An operation of dict.c on the dictionary at [didx], with its callbacks. *)
Definition on_dict {R} (kvs : kvstore) (didx : Z) (op : dict -> result (dict * R))
  : result (kvstore * R) :=
  let* s := kvstoreGetDict kvs didx in
  match s with
  | None => Err NullDeref
  | Some kd =>
      let* (d, r) := op (clear_notes (kd_dict kd)) in
      let kvs := set_slot kvs didx
        (Some {| kd_dict := clear_notes d; kd_rehashing_node := kd_rehashing_node kd |}) in
      Ok (callbacks didx kvs (notes d), r)
  end.

Definition freeDictIfNeeded (kvs : kvstore) (didx : Z) : result kvstore :=
  if negb (kvs_flag kvs KVSTORE_FREE_EMPTY_DICTS) then Ok kvs
  else
    let* s := kvstoreGetDict kvs didx in
    match s with
    | None => Ok kvs
    | Some kd =>
        let* size := kvstoreDictSize kvs didx in
        if negb (size =? 0) then Ok kvs
        else
          let* paused := kvstoreDictIsRehashingPaused kvs didx in
          if (paused : bool) then Ok kvs
          else if match canFreeDict with Some f => negb (f kvs didx) | None => false end then Ok kvs
          else
            let '(ns, _) := dictRelease (clear_notes (kd_dict kd)) in
            let kvs := callbacks didx kvs ns in
            let kvs := set_slot kvs didx None in
            let* n := chk_i32 (allocated_dicts kvs - 1) in
            Ok (set_allocated kvs n)
    end.

(** * API *)

(** [for (int i = 0; i < kvs->num_dicts; i++)]: from index [i], [n] rounds. *)
Fixpoint for_dicts (n : nat) (i : Z) (body : kvstore -> Z -> result kvstore) (kvs : kvstore)
  : result kvstore :=
  match n with
  | O => Ok kvs
  | S n => let* kvs := body kvs i in for_dicts n (i + 1) body kvs
  end.

Definition kvstoreCreate (bits fl : Z) : result kvstore :=
  check (bits <=? 16) else AssertFailed;;
  check (0 <=? bits) else SignedOverflow;;
  let n := Z.shiftl 1 bits in
  let kvs :=
    {| flags := fl; dicts := replicate (Z.to_nat n) None; num_dicts := n; num_dicts_bits := bits;
       rehashing := []; resize_cursor := 0; allocated_dicts := 0; non_empty_dicts := 0;
       key_count := 0; bucket_count := 0; dict_sizes := None; overhead_hashtable_rehashing := 0 |} in
  let* kvs :=
    if negb (kvs_flag kvs KVSTORE_ALLOCATE_DICTS_ON_DEMAND)
    then for_dicts (Z.to_nat n) 0 createDictIfNeeded kvs else Ok kvs in
  let* ft := if n >? 1 then let* ft := fwTreeCreate bits in Ok (Some ft) else Ok None in
  Ok (set_counts kvs 0 0 ft).

(** One round of the loop of kvstoreEmpty. *)
Definition empty_dict (kvs : kvstore) (didx : Z) : result kvstore :=
  let* s := kvstoreGetDict kvs didx in
  match s with
  | None => Ok kvs
  | Some _ =>
      let kvs := set_node kvs didx false in
      let* (kvs, _) := on_dict kvs didx (fun d => Ok (dictEmpty d)) in
      freeDictIfNeeded kvs didx
  end.

Definition kvstoreEmpty (kvs : kvstore) : result kvstore :=
  let* kvs := for_dicts (Z.to_nat (num_dicts kvs)) 0 empty_dict kvs in
  let kvs := set_rehashing kvs [] 0 in
  let kvs := set_resize_cursor kvs 0 in
  let kvs := set_bucket_count kvs 0 in
  Ok (set_counts kvs 0 0 (fwTreeClear <$> dict_sizes kvs)).

Definition kvstoreBuckets (kvs : kvstore) : result Z :=
  if negb (num_dicts kvs =? 1) then Ok (bucket_count kvs)
  else let* s := kvstoreGetDict kvs 0 in
       Ok (match s with Some kd => dictBuckets (kd_dict kd) | None => 0 end).

Definition kvstoreNumNonEmptyDicts (kvs : kvstore) : Z := non_empty_dicts kvs.
Definition kvstoreNumAllocatedDicts (kvs : kvstore) : Z := allocated_dicts kvs.
Definition kvstoreNumDicts (kvs : kvstore) : Z := i32 (num_dicts kvs).
Definition kvstoreOverheadHashtableLut (kvs : kvstore) : Z := u64 (bucket_count kvs * 8).
Definition kvstoreOverheadHashtableRehashing (kvs : kvstore) : Z :=
  u64 (overhead_hashtable_rehashing kvs * 8).
Definition kvstoreDictRehashingCount (kvs : kvstore) : Z := zlen (rehashing kvs).

(** ** Searches by count *)

Definition the_tree (kvs : kvstore) : result fenwickTree :=
  match dict_sizes kvs with Some ft => Ok ft | None => Err NullDeref end.

Definition kvstoreFindDictIndexByKeyIndex (kvs : kvstore) (target : Z) : result Z :=
  if (num_dicts kvs =? 1) || (kvstoreSize kvs =? 0) then Ok 0
  else
    check (target <=? kvstoreSize kvs) else AssertFailed;;
    let* ft := the_tree kvs in
    fwTreeFindIndex ft target.

Definition kvstoreGetFirstNonEmptyDictIndex (kvs : kvstore) : result Z :=
  if kvstoreSize kvs =? 0 then Ok (-1)
  else if num_dicts kvs =? 1 then Ok 0
  else let* ft := the_tree kvs in fwTreeFindFirstNonEmpty ft.

Definition kvstoreGetNextNonEmptyDictIndex (kvs : kvstore) (didx : Z) : result Z :=
  if num_dicts kvs =? 1 then
    check (didx =? 0) else AssertFailed;; Ok (-1)
  else fwTreeFindNextNonEmpty (dict_sizes kvs) didx.

(** The fair attempts of kvstoreGetFairRandomDictIndex: [rnd] are the values of
    randomULong, [skip] the skip callback. *)
Fixpoint fair_attempts_loop (rnd : list Z) (skip : Z -> bool) (kvs : kvstore) : result (option Z) :=
  match rnd with
  | [] => Ok None
  | r :: rnd =>
      let target := u64 (r mod kvstoreSize kvs + 1) in
      let* didx := kvstoreFindDictIndexByKeyIndex kvs target in
      if skip didx then fair_attempts_loop rnd skip kvs else Ok (Some didx)
  end.

(** The systematic search from [start]. *)
Fixpoint systematic_loop (n : nat) (i start : Z) (skip : Z -> bool) (kvs : kvstore) : result Z :=
  match n with
  | O => Ok (-1)
  | S n =>
      let didx := (start + i) mod num_dicts kvs in
      let* d := kvstoreGetDict kvs didx in
      if match d with Some _ => negb (skip didx) | None => false end then Ok didx
      else systematic_loop n (i + 1) start skip kvs
  end.

(** [rnd] has one value per fair attempt, [rnd_start] is the next one. *)
Definition kvstoreGetFairRandomDictIndex (kvs : kvstore) (skip : Z -> bool) (rnd : list Z)
    (slow_fallback : bool) (rnd_start : Z) : result Z :=
  if (num_dicts kvs =? 1) || (kvstoreSize kvs =? 0) then Ok 0
  else
    let* r := fair_attempts_loop rnd skip kvs in
    match r with
    | Some didx => Ok didx
    | None =>
        if slow_fallback
        then systematic_loop (Z.to_nat (num_dicts kvs)) 0 (i32 (rnd_start mod num_dicts kvs)) skip kvs
        else Ok (-1)
    end.

(** ** Scanning *)

(** For a scan callback that leaves the dictionary alone.  Results: the next
    cursor, the entries handed to the callback. *)
Definition kvstoreScan (kvs : kvstore) (cursor onlydidx : Z) (skip_cb : dict -> Z -> bool)
  : result (kvstore * Z * list entry) :=
  let '(didx, cursor) := getAndClearDictIndexFromCursor kvs cursor in
  if (onlydidx >=? 0) && (didx >? onlydidx) then Ok (kvs, 0, [])
  else
    let* (didx, cursor) :=
      if (onlydidx >=? 0) && (didx <? onlydidx)
      then check (onlydidx <? num_dicts kvs) else AssertFailed;; Ok (onlydidx, 0)
      else Ok (didx, cursor) in
    let* s := kvstoreGetDict kvs didx in
    let skip := match s with Some kd => skip_cb (kd_dict kd) didx | None => true end in
    let* (kvs, _cursor, es) :=
      if skip then Ok (kvs, 0, [])
      else
        let* (kvs, r) := on_dict kvs didx
          (fun d => let* (d, v, es) := dictScan d cursor in Ok (d, (v, es))) in
        let* kvs := freeDictIfNeeded kvs didx in
        Ok (kvs, r.1, r.2) in
    if (_cursor =? 0) || skip then
      if onlydidx >=? 0 then Ok (kvs, 0, es)
      else
        let* didx := kvstoreGetNextNonEmptyDictIndex kvs didx in
        if didx =? -1 then Ok (kvs, 0, es)
        else Ok (kvs, addDictIndexToCursor kvs didx _cursor, es)
    else if didx =? -1 then Ok (kvs, 0, es)
    else Ok (kvs, addDictIndexToCursor kvs didx _cursor, es).

(** ** Resizing *)

(** [alloc_ok] tells whether the allocation of the table at an index succeeds. *)
Fixpoint expand_loop (cr : dictResizeEnable) (n : nat) (i newsize : Z) (try_expand : bool)
    (alloc_ok skip_cb : Z -> bool) (kvs : kvstore) : result (kvstore * bool) :=
  match n with
  | O => Ok (kvs, true)
  | S n =>
      if skip_cb i then expand_loop cr n (i + 1) newsize try_expand alloc_ok skip_cb kvs
      else
        let* kvs := createDictIfNeeded kvs i in
        let* (kvs, ok) := on_dict kvs i (fun d =>
          if try_expand then dictTryExpand ty cr d newsize (alloc_ok i) else dictExpand ty cr d newsize) in
        if try_expand && negb ok then Ok (kvs, false)
        else expand_loop cr n (i + 1) newsize try_expand alloc_ok skip_cb kvs
  end.

Definition kvstoreExpand (cr : dictResizeEnable) (kvs : kvstore) (newsize : Z) (try_expand : bool)
    (alloc_ok skip_cb : Z -> bool) : result (kvstore * bool) :=
  expand_loop cr (Z.to_nat (num_dicts kvs)) 0 newsize try_expand alloc_ok skip_cb kvs.

(** What kvstoreTryResizeDicts does to one dictionary. *)
Definition resize_dict (cr : dictResizeEnable) (d : dict) : result (dict * unit) :=
  let* (d, ok) := dictShrinkIfNeeded ty cr d in
  if (ok : bool) then Ok (d, tt)
  else let* (d, _) := dictExpandIfNeeded ty cr d in Ok (d, tt).

Fixpoint try_resize_loop (cr : dictResizeEnable) (n : nat) (kvs : kvstore) : result kvstore :=
  match n with
  | O => Ok kvs
  | S n =>
      let didx := resize_cursor kvs in
      let* s := kvstoreGetDict kvs didx in
      let* kvs :=
        match s with
        | Some _ => let* (kvs, _) := on_dict kvs didx (resize_dict cr) in Ok kvs
        | None => Ok kvs
        end in
      try_resize_loop cr n (set_resize_cursor kvs (i32 ((didx + 1) mod num_dicts kvs)))
  end.

Definition kvstoreTryResizeDicts (cr : dictResizeEnable) (kvs : kvstore) (limit : Z) : result kvstore :=
  let limit := if limit >? num_dicts kvs then num_dicts kvs else limit in
  try_resize_loop cr (Z.to_nat limit) kvs.

Definition kvstoreDictExpand (cr : dictResizeEnable) (kvs : kvstore) (didx size : Z)
  : result (kvstore * bool) :=
  let* kvs := createDictIfNeeded kvs didx in
  on_dict kvs didx (fun d => dictExpand ty cr d size).

(** ** Moving a dictionary to another store *)

Definition kvstoreMoveDict (kvs dst : kvstore) (didx : Z) : result (kvstore * kvstore) :=
  check (num_dicts kvs >? didx) else AssertFailed;;
  check (num_dicts kvs =? num_dicts dst) else AssertFailed;;
  let* there := kvstoreGetDict dst didx in
  check negb (match there with Some _ => true | None => false end) else AssertFailed;;
  let* s := kvstoreGetDict kvs didx in
  match s with
  | None => Ok (kvs, dst)
  | Some kd =>
      let d := kd_dict kd in
      let* n := chk_i32 (allocated_dicts kvs - 1) in
      let kvs := set_allocated kvs n in
      let* kvs := cumulativeKeyCountAdd kvs didx (- dictSize d) in
      let kvs := kvstoreDictBucketChanged kvs (- dictBuckets d) in
      let kvs := if dictIsRehashing d then kvstoreDictRehashingCompleted kvs didx (rehashing_from d) else kvs in
      let node := has_node kvs didx in
      let kvs := set_slot kvs didx None in
      let* kvs :=
        if negb (kvs_flag kvs (Z.lor KVSTORE_ALLOCATE_DICTS_ON_DEMAND KVSTORE_FREE_EMPTY_DICTS))
        then createDictIfNeeded kvs didx else Ok kvs in
      let dst := set_slot dst didx (Some {| kd_dict := d; kd_rehashing_node := node |}) in
      let* n := chk_i32 (allocated_dicts dst + 1) in
      let dst := set_allocated dst n in
      let* dst := cumulativeKeyCountAdd dst didx (dictSize d) in
      let dst := kvstoreDictBucketChanged dst (dictBuckets d) in
      let dst := if dictIsRehashing d then kvstoreDictRehashingStarted dst didx (rehashing_from d) else dst in
      Ok (kvs, dst)
  end.

(** ** Operations on one dictionary *)

Definition kvstoreDictFind (cr : dictResizeEnable) (kvs : kvstore) (didx : Z) (key : K)
  : result (kvstore * option entry) :=
  let* s := kvstoreGetDict kvs didx in
  match s with
  | None => Ok (kvs, None)
  | Some _ => on_dict kvs didx (fun d => dictFind ty cr d key)
  end.

Definition kvstoreDictFetchValue (cr : dictResizeEnable) (kvs : kvstore) (didx : Z) (key : K)
  : result (kvstore * option (option V)) :=
  let* s := kvstoreGetDict kvs didx in
  match s with
  | None => Ok (kvs, None)
  | Some _ =>
      check negb (no_value ty) else AssertFailed;;
      on_dict kvs didx (fun d => dictFetchValue ty cr d key)
  end.

(** The link, and what [*bucket] is set to. *)
Definition kvstoreDictFindLink (cr : dictResizeEnable) (kvs : kvstore) (didx : Z) (key : K)
    (want_bucket : bool) : result (kvstore * (option dictEntryLink * option dictEntryLink)) :=
  let* s := kvstoreGetDict kvs didx in
  match s with
  | None => Ok (kvs, (None, None))
  | Some _ =>
      on_dict kvs didx (fun d =>
        let* (d, link, bucket) := dictFindLink ty cr d key want_bucket in Ok (d, (link, bucket)))
  end.

Definition kvstoreDictSetAtLink (rawKey : SK -> K) (cr : dictResizeEnable) (kvs : kvstore) (didx : Z)
    (kv : SK) (link : option dictEntryLink) (newItem : bool) : result kvstore :=
  let set_key d := let* d := dictSetKeyAtLink ty rawKey cr d kv link newItem in Ok (d, tt) in
  if newItem then
    let* kvs := createDictIfNeeded kvs didx in
    let* (kvs, _) := on_dict kvs didx set_key in
    cumulativeKeyCountAdd kvs didx 1
  else
    let* (kvs, _) := on_dict kvs didx set_key in
    Ok kvs.

(** [inl]: the key is there already; [inr]: the new entry. *)
Definition kvstoreDictAddRaw (cr : dictResizeEnable) (kvs : kvstore) (didx : Z) (key : SK)
  : result (kvstore * (dictEntryLink + dictEntryLink)) :=
  let* kvs := createDictIfNeeded kvs didx in
  let* (kvs, ret) := on_dict kvs didx (fun d => dictAddRaw ty cr d key) in
  match ret with
  | inr _ => let* kvs := cumulativeKeyCountAdd kvs didx 1 in Ok (kvs, ret)
  | inl _ => Ok (kvs, ret)
  end.

Definition kvstoreDictSetVal (kvs : kvstore) (didx : Z) (de : dictEntryLink) (val : V) : result kvstore :=
  check negb (no_value ty) else AssertFailed;;
  let* (kvs, _) := on_dict kvs didx (fun d => let* d := dictSetVal ty d de val in Ok (d, tt)) in
  Ok kvs.

Definition kvstoreDictTwoPhaseUnlinkFind (cr : dictResizeEnable) (kvs : kvstore) (didx : Z) (key : K)
  : result (kvstore * option dictEntryLink) :=
  let* s := kvstoreGetDict kvs didx in
  match s with
  | None => Ok (kvs, None)
  | Some _ => on_dict kvs didx (fun d => dictTwoPhaseUnlinkFind ty cr d key)
  end.

Definition kvstoreDictTwoPhaseUnlinkFree (cr : dictResizeEnable) (kvs : kvstore) (didx : Z)
    (link : option dictEntryLink) : result kvstore :=
  let* (kvs, _) := on_dict kvs didx
    (fun d => let* d := dictTwoPhaseUnlinkFree ty cr d link in Ok (d, tt)) in
  let* kvs := cumulativeKeyCountAdd kvs didx (-1) in
  freeDictIfNeeded kvs didx.

Definition kvstoreDictDelete (cr : dictResizeEnable) (kvs : kvstore) (didx : Z) (key : K)
  : result (kvstore * bool) :=
  let* s := kvstoreGetDict kvs didx in
  match s with
  | None => Ok (kvs, false)
  | Some _ =>
      let* (kvs, ret) := on_dict kvs didx (fun d => dictDelete ty cr d key) in
      if (ret : bool) then
        let* kvs := cumulativeKeyCountAdd kvs didx (-1) in
        let* kvs := freeDictIfNeeded kvs didx in
        Ok (kvs, true)
      else Ok (kvs, false)
  end.

(** ** Iterators *)

(** [ki_di_dict] is the index of the dictionary the inner iterator is on, -1
    when its dictionary is NULL. *)
Record kvstoreIterator := {
  ki_didx : Z;
  ki_next_didx : Z;
  ki_di : @dictIterator SK V;
  ki_di_dict : Z;
}.

(** The addresses of the bucket arrays and the bytes an initialisation leaves
    unwritten matter only to unsafe iterators. *)
Context (addr0 addr1 garbage : Z).

Definition kvstoreIteratorInit (kvs : kvstore) : result kvstoreIterator :=
  let* first := kvstoreGetFirstNonEmptyDictIndex kvs in
  Ok {| ki_didx := -1; ki_next_didx := first; ki_di := dictInitSafeIterator garbage; ki_di_dict := -1 |}.

(** dictResetIterator of the inner iterator, which skips its dictionary when it
    has not started. *)
Definition reset_inner (kvs : kvstore) (it : kvstoreIterator) : result kvstore :=
  if (it_index (ki_di it) =? -1) && (it_table (ki_di it) =? 0) then Ok kvs
  else
    let* (kvs, _) := on_dict kvs (ki_di_dict it)
      (fun d => let* d := dictResetIterator addr0 addr1 d (ki_di it) in Ok (d, tt)) in
    Ok kvs.

Definition kvstoreIteratorReset (kvs : kvstore) (it : kvstoreIterator) : result kvstore :=
  let* kvs := reset_inner kvs it in
  if negb (ki_didx it =? -1) then freeDictIfNeeded kvs (ki_didx it) else Ok kvs.

(** The index of the dictionary returned, -1 for NULL. *)
Definition kvstoreIteratorNextDict (kvs : kvstore) (it : kvstoreIterator)
  : result (kvstore * kvstoreIterator * Z) :=
  if ki_next_didx it =? -1 then Ok (kvs, it, -1)
  else
    let* current := if ki_didx it =? -1 then Ok None else kvstoreGetDict kvs (ki_didx it) in
    let* kvs :=
      match current with
      | Some _ => let* kvs := reset_inner kvs it in freeDictIfNeeded kvs (ki_didx it)
      | None => Ok kvs
      end in
    let didx := ki_next_didx it in
    let* next := kvstoreGetNextNonEmptyDictIndex kvs didx in
    let it := {| ki_didx := didx; ki_next_didx := next; ki_di := ki_di it; ki_di_dict := ki_di_dict it |} in
    let* s := kvstoreGetDict kvs didx in
    Ok (kvs, it, match s with Some _ => didx | None => -1 end).

(** dictNext of the inner iterator. *)
Definition next_inner (kvs : kvstore) (it : kvstoreIterator)
  : result (kvstore * kvstoreIterator * option entry) :=
  let* (kvs, r) := on_dict kvs (ki_di_dict it)
    (fun d => let* (d, di, de) := dictNext addr0 addr1 d (ki_di it) in Ok (d, (di, de))) in
  Ok (kvs, {| ki_didx := ki_didx it; ki_next_didx := ki_next_didx it; ki_di := r.1;
              ki_di_dict := ki_di_dict it |}, r.2).

Definition kvstoreIteratorNext (kvs : kvstore) (it : kvstoreIterator)
  : result (kvstore * kvstoreIterator * option entry) :=
  let* (kvs, it, de) := if ki_di_dict it =? -1 then Ok (kvs, it, None) else next_inner kvs it in
  match de with
  | Some _ => Ok (kvs, it, de)
  | None =>
      let* (kvs, it, d) := kvstoreIteratorNextDict kvs it in
      if d =? -1 then Ok (kvs, it, None)
      else next_inner kvs {| ki_didx := ki_didx it; ki_next_didx := ki_next_didx it;
                             ki_di := dictInitSafeIterator garbage; ki_di_dict := d |}
  end.

(** [while ((de = kvstoreIteratorNext(&it)) != NULL)]: the entries seen. *)
Fixpoint kvstoreForEach (fuel : nat) (kvs : kvstore) (it : kvstoreIterator)
  : result (kvstore * kvstoreIterator * list entry) :=
  match fuel with
  | O => Err OutOfFuel
  | S fuel =>
      let* (kvs, it, de) := kvstoreIteratorNext kvs it in
      match de with
      | None => Ok (kvs, it, [])
      | Some e => let* (kvs, it, es) := kvstoreForEach fuel kvs it in Ok (kvs, it, e :: es)
      end
  end.

End kvstore_code.
