(* ===== verification/KvstoreProofs.v ===== *)
(** KvstoreProofs: the invariant of the array of dictionaries.

    What the store keeps besides the dictionaries is redundant: counters, a
    Fenwick tree, the list of the dictionaries being rehashed.  [kv_books] says
    that what the dictionaries announce through their callbacks (buckets,
    rehashing) is recorded exactly, [kv_counts] that the key counts are, and
    [kv_wf] is both.  [on_dict_ok] carries any operation of dict.c that keeps
    the contract [told] of DictProofs over to the store; the operations of the
    store are then proved one by one. *)

From Stdlib Require Import ZArith Lia Bool.
From S2P Require Import Prelude Bytes Fenwick Dict DictProofs DictOps Kvstore.
From stdpp Require Import base list numbers decidable gmap.

Local Open Scope Z_scope.

(** * Sums over the slots *)

Lemma zsum_map_insert {A} (f : A -> Z) (l : list A) i x y :
  l !! i = Some x -> zsum (map f (<[i := y]> l)) = zsum (map f l) - f x + f y.
Proof.
  revert i. induction l as [|a l IH]; intros [|i] Hi; simplify_eq/=.
  - unfold zsum. simpl. lia.
  - unfold zsum in *. simpl. rewrite (IH i Hi). lia.
Qed.

Lemma zsum_map_bounds {A} (f : A -> Z) (l : list A) :
  (forall x, 0 <= f x <= 1) -> 0 <= zsum (map f l) <= zlen l.
Proof.
  intros Hf. induction l as [|x l IH]; [done|]. rewrite zlen_cons. simpl. unfold zsum in *. simpl.
  specialize (Hf x). lia.
Qed.

Lemma zsum_map_zero {A} (f : A -> Z) (l : list A) : Forall (fun x => f x = 0) l -> zsum (map f l) = 0.
Proof. induction 1; [done|]. unfold zsum in *. simpl. lia. Qed.

Lemma map_list_insert {A B} (f : A -> B) (l : list A) i x : map f (<[i := x]> l) = <[i := f x]> (map f l).
Proof. exact (list_fmap_insert f l i x). Qed.

Lemma map_list_insert_same {A B} (f : A -> B) (l : list A) i x y :
  l !! i = Some y -> f x = f y -> map f (<[i := x]> l) = map f l.
Proof. intros Hi E. rewrite map_list_insert, E. apply list_insert_id. change (map f l) with (f <$> l). by rewrite list_lookup_fmap, Hi. Qed.

(** * Deleting a node *)

Lemma del_node_elem x i l : NoDup l -> x ∈ del_node i l <-> x ∈ l /\ x <> i.
Proof.
  induction 1 as [|a l Ha Hl IH]; simpl; [set_solver|].
  destruct (Z.eqb_spec a i) as [->|Hne].
  - split; [|set_solver]. intros Hx. split; [by right|]. by intros ->.
  - rewrite !elem_of_cons, IH. set_solver.
Qed.

Lemma del_node_nodup i l : NoDup l -> NoDup (del_node i l).
Proof.
  induction 1 as [|a l Ha Hl IH]; simpl; [constructor|]. destruct (a =? i); [done|].
  constructor; [|done]. rewrite del_node_elem by done. tauto.
Qed.

Section kvstore_proofs.
Context {K SK V : Type} `{Countable K}.
Context (ty : dictType K SK V) {laws : DictTypeLaws ty}.
Context (canFreeDict : option (kvstore SK V -> Z -> bool)).
Local Abbreviation entry := (dictEntry SK V).
Local Abbreviation dict := (dict SK V).
Local Abbreviation kvdict := (kvdict SK V).
Local Abbreviation kvstore := (kvstore SK V).

(** * What a slot contributes *)

Definition slot_book (s : option kvdict) : ledger :=
  match s with Some kd => book (kd_dict kd) | None => (0, None) end.
Definition slot_alloc (s : option kvdict) : Z := match s with Some _ => 1 | None => 0 end.
Definition slot_abs (s : option kvdict) : gmap K (SK * option V) :=
  match s with Some kd => abs ty (kd_dict kd) | None => ∅ end.
Definition from_of (g : ledger) : Z := default 0 g.2.
Definition nonempty (n : Z) : Z := b2z (negb (n =? 0)).

(** The fields an operation on one dictionary leaves alone. *)
Record kv_frame (a b : kvstore) : Prop := {
  fr_flags : flags b = flags a;
  fr_num : num_dicts b = num_dicts a;
  fr_bits : num_dicts_bits b = num_dicts_bits a;
  fr_alloc : allocated_dicts b = allocated_dicts a;
  fr_nonempty : non_empty_dicts b = non_empty_dicts a;
  fr_keys : key_count b = key_count a;
  fr_tree : dict_sizes b = dict_sizes a;
  fr_cursor : resize_cursor b = resize_cursor a;
}.

Lemma kv_frame_refl a : kv_frame a a.
Proof. by constructor. Qed.

Lemma kv_frame_trans a b c : kv_frame a b -> kv_frame b c -> kv_frame a c.
Proof. intros [] []. constructor; congruence. Qed.

(** * The books: buckets and rehashing *)

(** The store has recorded the ledgers [gs], one per slot. *)
Record ledgers (kvs : kvstore) (gs : list ledger) : Prop := {
  lg_len : length gs = length (dicts kvs);
  lg_buckets : bucket_count kvs = u64 (zsum (map fst gs));
  lg_over : overhead_hashtable_rehashing kvs = u64 (zsum (map from_of gs));
  lg_nodup : NoDup (rehashing kvs);
  lg_range : Forall (fun x => 0 <= x) (rehashing kvs);
  lg_list : forall i, Z.of_nat i ∈ rehashing kvs <-> exists g, gs !! i = Some g /\ is_Some g.2;
  lg_node : forall i kd g, dicts kvs !! i = Some (Some kd) -> gs !! i = Some g ->
    kd_rehashing_node kd = bool_decide (is_Some g.2);
}.

(** The slot after a callback: only the node flag may have changed. *)
Definition renoded (kvs kvs' : kvstore) (i : nat) (d : dict) : Prop :=
  exists b, dicts kvs' = <[i := Some {| kd_dict := d; kd_rehashing_node := b |}]> (dicts kvs).

Lemma ledgers_started kvs gs didx kd b from :
  ledgers kvs gs -> 0 <= didx -> dicts kvs !! Z.to_nat didx = Some (Some kd) ->
  gs !! Z.to_nat didx = Some (b, None) ->
  ledgers (kvstoreDictRehashingStarted kvs didx from) (<[Z.to_nat didx := (b, Some from)]> gs).
Proof.
  intros [L1 L2 L3 L4 L5 L6 L7] Hd Hkd Hg. set (i := Z.to_nat didx) in *.
  pose proof (lookup_lt_Some _ _ _ Hg) as Hlt.
  assert (didx ∉ rehashing kvs) as Hnew.
  { replace didx with (Z.of_nat i) by (unfold i; lia). rewrite L6. intros (g & E & [? Hs]). by simplify_eq. }
  unfold kvstoreDictRehashingStarted, set_node. fold i. rewrite Hkd.
  constructor; cbn [set_rehashing set_slot dicts bucket_count overhead_hashtable_rehashing rehashing]; fold i.
  - by rewrite !length_insert.
  - by rewrite (zsum_map_insert _ _ _ _ _ Hg), L2, Z.sub_add.
  - rewrite (zsum_map_insert _ _ _ _ _ Hg), L3, wrapU_add_l. change (from_of (b, None)) with 0. change (from_of (b, Some from)) with from. f_equal. lia.
  - apply NoDup_app. split_and!; [done| |apply NoDup_singleton].
    intros x Hx ->%list_elem_of_singleton. done.
  - apply Forall_app. by repeat constructor.
  - intros j. rewrite elem_of_app, list_elem_of_singleton, L6. destruct (decide (j = i)) as [->|Hne].
    + rewrite list_lookup_insert_eq by done. split; [intros _; by eexists|intros _; right; unfold i; lia].
    + rewrite list_lookup_insert_ne by done. split; [intros [?|E]; [done|]|by left]. destruct Hne. unfold i. lia.
  - intros j kd' g. destruct (decide (j = i)) as [->|Hne].
    + rewrite !list_lookup_insert_eq by (done || by eapply lookup_lt_Some). intros. by simplify_eq.
    + rewrite !list_lookup_insert_ne by done. apply L7.
Qed.

Lemma ledgers_completed kvs gs didx kd b from :
  ledgers kvs gs -> 0 <= didx -> dicts kvs !! Z.to_nat didx = Some (Some kd) ->
  gs !! Z.to_nat didx = Some (b, Some from) ->
  ledgers (kvstoreDictRehashingCompleted kvs didx from) (<[Z.to_nat didx := (b, None)]> gs).
Proof.
  intros [L1 L2 L3 L4 L5 L6 L7] Hd Hkd Hg. set (i := Z.to_nat didx) in *.
  pose proof (lookup_lt_Some _ _ _ Hg) as Hlt.
  unfold kvstoreDictRehashingCompleted, has_node, set_node. fold i. rewrite Hkd.
  rewrite (L7 _ _ _ Hkd Hg), bool_decide_true by by eexists.
  constructor; cbn [set_rehashing set_slot dicts bucket_count overhead_hashtable_rehashing rehashing]; fold i.
  - by rewrite !length_insert.
  - by rewrite (zsum_map_insert _ _ _ _ _ Hg), L2, Z.sub_add.
  - rewrite (zsum_map_insert _ _ _ _ _ Hg), L3, wrapU_sub_l. change (from_of (b, None)) with 0. change (from_of (b, Some from)) with from. f_equal. lia.
  - by apply del_node_nodup.
  - apply list.Forall_forall. intros x Hx. apply del_node_elem in Hx as [Hx _]; [|done].
    rewrite list.Forall_forall in L5. by apply L5.
  - intros j. rewrite del_node_elem, L6 by done. destruct (decide (j = i)) as [->|Hne].
    + rewrite list_lookup_insert_eq by done. split; [intros [_ []]; unfold i; lia|].
      intros (g & ? & [? Hs]). by simplify_eq.
    + rewrite list_lookup_insert_ne by done. split; [by intros []|]. intros. split; [done|].
      intros E. destruct Hne. unfold i. lia.
  - intros j kd' g. destruct (decide (j = i)) as [->|Hne].
    + rewrite !list_lookup_insert_eq by (done || by eapply lookup_lt_Some). intros. by simplify_eq.
    + rewrite !list_lookup_insert_ne by done. apply L7.
Qed.

Lemma ledgers_bucket kvs gs didx b r delta :
  ledgers kvs gs -> gs !! Z.to_nat didx = Some (b, r) ->
  ledgers (kvstoreDictBucketChanged kvs delta) (<[Z.to_nat didx := (b + delta, r)]> gs).
Proof.
  intros [L1 L2 L3 L4 L5 L6 L7] Hg. set (i := Z.to_nat didx) in *. pose proof (lookup_lt_Some _ _ _ Hg) as Hlt.
  constructor; cbn [kvstoreDictBucketChanged set_bucket_count dicts bucket_count overhead_hashtable_rehashing rehashing];
    try done.
  - by rewrite length_insert.
  - rewrite (zsum_map_insert _ _ _ _ _ Hg), L2, wrapU_add_l. cbn [fst]. f_equal. lia.
  - by rewrite (zsum_map_insert _ _ _ _ _ Hg), L3, Z.sub_add.
  - intros j. rewrite L6. destruct (decide (j = i)) as [->|Hne]; [|by rewrite list_lookup_insert_ne].
    rewrite list_lookup_insert_eq by done. rewrite Hg. split; intros (g & ? & ?); simplify_eq; by eexists.
  - intros j kd' g. destruct (decide (j = i)) as [->|Hne]; [|rewrite list_lookup_insert_ne by done; apply L7].
    rewrite list_lookup_insert_eq by done. intros Hk Heq. simplify_eq. by rewrite (L7 _ _ _ Hk Hg).
Qed.

(** The dictionary [d] stays in its slot through a callback. *)
Lemma callback_frame didx kvs n kd :
  dicts kvs !! Z.to_nat didx = Some (Some kd) ->
  kv_frame kvs (callback didx kvs n) /\ renoded kvs (callback didx kvs n) (Z.to_nat didx) (kd_dict kd).
Proof.
  intros Hkd. unfold renoded. destruct n as [from|from|delta]; cbn [callback].
  - unfold kvstoreDictRehashingStarted, set_node. rewrite Hkd. split; [done|]. by exists true.
  - unfold kvstoreDictRehashingCompleted, has_node, set_node. rewrite Hkd.
    destruct (kd_rehashing_node kd) eqn:E; (split; [done|]); [by exists false|].
    exists false. simpl. rewrite list_insert_id; [done|]. rewrite Hkd, <- E. by destruct kd.
  - split; [done|]. exists (kd_rehashing_node kd). simpl. rewrite list_insert_id; [done|].
    rewrite Hkd. by destruct kd.
Qed.

Lemma callbacks_ok didx l : forall kvs gs kd g g',
  ledgers kvs gs -> 0 <= didx -> dicts kvs !! Z.to_nat didx = Some (Some kd) ->
  gs !! Z.to_nat didx = Some g -> hear g l = Some g' ->
  ledgers (callbacks didx kvs l) (<[Z.to_nat didx := g']> gs) /\
  kv_frame kvs (callbacks didx kvs l) /\ renoded kvs (callbacks didx kvs l) (Z.to_nat didx) (kd_dict kd).
Proof.
  induction l as [|n l IH]; intros kvs gs kd g g' HL Hd Hkd Hg Hh; simpl in Hh.
  { simplify_eq. rewrite list_insert_id by done. split; [done|]. split; [done|].
    exists (kd_rehashing_node kd). simpl. rewrite list_insert_id; [done|]. rewrite Hkd. by destruct kd. }
  destruct (hear1 g n) as [g1|] eqn:E1; [|done].
  assert (ledgers (callback didx kvs n) (<[Z.to_nat didx := g1]> gs)) as HL1.
  { destruct n as [from|from|delta], g as [b [f|]]; simpl in E1; try done.
    - simplify_eq. by eapply ledgers_started.
    - destruct (Z.eqb_spec from f) as [-> |]; [|done]. simplify_eq. by eapply ledgers_completed.
    - simplify_eq. by apply ledgers_bucket.
    - simplify_eq. by apply ledgers_bucket. }
  destruct (callback_frame didx kvs n kd Hkd) as [F1 (b1 & D1)].
  pose proof (lookup_lt_Some _ _ _ Hkd) as Hlt.
  destruct (IH (callback didx kvs n) (<[Z.to_nat didx := g1]> gs) {| kd_dict := kd_dict kd; kd_rehashing_node := b1 |} g1 g')
    as (HL2 & F2 & (b2 & D2)); try done.
  - rewrite D1. by apply list_lookup_insert_eq.
  - apply list_lookup_insert_eq. by eapply lookup_lt_Some.
  - split; [by rewrite list_insert_insert_eq in HL2|]. split; [by eapply kv_frame_trans|].
    exists b2. cbn [callbacks foldl]. unfold callbacks in D2. by rewrite D2, D1, list_insert_insert_eq.
Qed.

(** * The invariant *)

Record dict_ok (d : dict) : Prop := {
  do_wf : dict_wf ty d;
  do_auto : pauseAutoResize d = 0;
  do_pause : 0 <= pauserehash d < 2 ^ 32;
}.

Record kv_books (kvs : kvstore) : Prop := {
  kb_bits : 0 <= num_dicts_bits kvs <= 16;
  kb_num : num_dicts kvs = 2 ^ num_dicts_bits kvs;
  kb_len : zlen (dicts kvs) = num_dicts kvs;
  kb_dict : forall i kd, dicts kvs !! i = Some (Some kd) -> dict_ok (kd_dict kd);
  kb_alloc : allocated_dicts kvs = zsum (map slot_alloc (dicts kvs));
  kb_ledgers : ledgers kvs (map slot_book (dicts kvs));
  kb_cursor : 0 <= resize_cursor kvs < num_dicts kvs;
  kb_tidy : forall i kd, dicts kvs !! i = Some (Some kd) -> notes (kd_dict kd) = [];
}.

(** The sizes of the dictionaries are [ss]. *)
Record kv_counts (kvs : kvstore) (ss : list Z) : Prop := {
  kc_nonneg : Forall (fun v => 0 <= v) ss;
  kc_word : zsum ss < 2 ^ 64;
  kc_keys : key_count kvs = zsum ss;
  kc_nonempty : non_empty_dicts kvs = zsum (map nonempty ss);
  kc_one : num_dicts kvs = 1 -> dict_sizes kvs = None;
  kc_tree : num_dicts kvs <> 1 -> exists ft, dict_sizes kvs = Some ft /\ represents ft ss;
}.

Record kv_wf (kvs : kvstore) : Prop := {
  kw_books : kv_books kvs;
  kw_counts : kv_counts kvs (map slot_size (dicts kvs));
}.

(** Rehashing is paused in no dictionary: no safe iterator is at work. *)
Definition quiet (kvs : kvstore) : Prop :=
  forall i kd, dicts kvs !! i = Some (Some kd) -> pauserehash (kd_dict kd) = 0.

Definition slot_quiet (s : option kvdict) : Prop :=
  match s with Some kd => pauserehash (kd_dict kd) = 0 | None => True end.

Lemma quiet_insert kvs kvs' i s :
  dicts kvs' = <[i := s]> (dicts kvs) -> slot_quiet s -> quiet kvs -> quiet kvs'.
Proof.
  intros HD Hs Hq j kd. rewrite HD. intros Hj. destruct (decide (j = i)) as [->|Hne].
  - destruct (decide (i < length (dicts kvs))%nat).
    + rewrite list_lookup_insert_eq in Hj by done. by simplify_eq.
    + rewrite list_insert_ge in Hj by lia. by apply (Hq i).
  - rewrite list_lookup_insert_ne in Hj by done. by apply (Hq j).
Qed.

Definition kabs (kvs : kvstore) : list (gmap K (SK * option V)) := map slot_abs (dicts kvs).

Lemma num_dicts_range kvs : kv_books kvs -> 1 <= num_dicts kvs <= 2 ^ 16.
Proof.
  intros [Hb Hn _ _ _ _ _ _]. rewrite Hn. split; [pose proof (Z.pow_pos_nonneg 2 (num_dicts_bits kvs)); lia|].
  apply Z.pow_le_mono_r; lia.
Qed.

Lemma slot_at kvs didx :
  kv_books kvs -> 0 <= didx < num_dicts kvs ->
  exists s, kvstoreGetDict kvs didx = Ok s /\ dicts kvs !! Z.to_nat didx = Some s.
Proof. intros Hb Hd. apply rd1_ok. by rewrite (kb_len _ Hb). Qed.

Lemma slot_range kvs didx s :
  kv_books kvs -> 0 <= didx -> dicts kvs !! Z.to_nat didx = Some s -> 0 <= didx < num_dicts kvs.
Proof. intros Hb Hd Hs%lookup_lt_Some. rewrite <- (kb_len _ Hb). unfold zlen. lia. Qed.

Lemma get_slot (kvs : kvstore) didx s :
  0 <= didx -> dicts kvs !! Z.to_nat didx = Some s -> kvstoreGetDict kvs didx = Ok s.
Proof. intros. by apply rd1_lookup. Qed.

(** ** Forgetting the notes *)

Lemma clear_notes_wf d : dict_wf ty d -> dict_wf ty (clear_notes d).
Proof. intros [[(E & Hw & E1)|[]] Hk]; constructor; try done; [by left|right; by constructor]. Qed.

Lemma clear_notes_ok d : dict_ok d -> dict_ok (clear_notes d).
Proof. intros [Hwf Ha Hp]. constructor; [by apply clear_notes_wf|done..]. Qed.

(** ** An operation on one dictionary *)

Lemma lookup_map_Some {A B} (f : A -> B) (l : list A) i x : l !! i = Some x -> map f l !! i = Some (f x).
Proof. intros Hi. change (map f l) with (f <$> l). by rewrite list_lookup_fmap, Hi. Qed.

Lemma ledgers_set_slot kvs gs didx kd d :
  ledgers kvs gs -> dicts kvs !! Z.to_nat didx = Some (Some kd) ->
  ledgers (set_slot kvs didx (Some {| kd_dict := d; kd_rehashing_node := kd_rehashing_node kd |})) gs.
Proof.
  intros [? ? ? ? ? ? L7] Hkd. constructor; cbn [set_slot dicts bucket_count overhead_hashtable_rehashing rehashing]; try done.
  - by rewrite length_insert.
  - intros i kd' g Hi Hg. destruct (decide (i = Z.to_nat didx)) as [->|Hne].
    + rewrite list_lookup_insert_eq in Hi by by eapply lookup_lt_Some. simplify_eq/=. by apply (L7 _ _ _ Hkd).
    + rewrite list_lookup_insert_ne in Hi by done. by apply (L7 i).
Qed.

Lemma books_renoded kvs kvs' didx kd d :
  kv_books kvs -> dicts kvs !! Z.to_nat didx = Some (Some kd) -> dict_ok d -> notes d = [] ->
  ledgers kvs' (<[Z.to_nat didx := book d]> (map slot_book (dicts kvs))) ->
  kv_frame kvs kvs' -> renoded kvs kvs' (Z.to_nat didx) d -> kv_books kvs'.
Proof.
  intros [B1 B2 B3 B4 B5 B6 B7 B8] Hkd Hd Hnil HL [] (b & HD). constructor; rewrite ?HD.
  - congruence.
  - congruence.
  - rewrite zlen_insert. congruence.
  - intros i kd' Hi. destruct (decide (i = Z.to_nat didx)) as [->|Hne].
    + rewrite list_lookup_insert_eq in Hi by by eapply lookup_lt_Some. by simplify_eq.
    + rewrite list_lookup_insert_ne in Hi by done. by apply (B4 i).
  - rewrite (zsum_map_insert _ _ _ _ _ Hkd). simpl. lia.
  - by rewrite map_list_insert.
  - congruence.
  - intros i kd' Hi. destruct (decide (i = Z.to_nat didx)) as [->|Hne].
    + rewrite list_lookup_insert_eq in Hi by by eapply lookup_lt_Some. by simplify_eq.
    + rewrite list_lookup_insert_ne in Hi by done. by apply (B8 i).
Qed.

Lemma on_dict_ok {R} kvs didx kd (op : dict -> result (dict * R)) d' r :
  kv_books kvs -> 0 <= didx -> dicts kvs !! Z.to_nat didx = Some (Some kd) ->
  op (clear_notes (kd_dict kd)) = Ok (d', r) -> dict_ok d' -> told (clear_notes (kd_dict kd)) d' ->
  exists kvs', on_dict kvs didx op = Ok (kvs', r) /\ kv_books kvs' /\ kv_frame kvs kvs' /\
    renoded kvs kvs' (Z.to_nat didx) (clear_notes d').
Proof.
  intros HB Hd Hkd Hop Hok (l & Hn & Hh). unfold on_dict. rewrite (get_slot _ _ _ Hd Hkd). runr.
  rewrite Hop. runr. simpl in Hn. rewrite Hn. pose proof (lookup_lt_Some _ _ _ Hkd) as Hlt.
  set (kvs1 := set_slot _ _ _).
  destruct (callbacks_ok didx l kvs1 (map slot_book (dicts kvs))
    {| kd_dict := clear_notes d'; kd_rehashing_node := kd_rehashing_node kd |} (book (kd_dict kd)) (book d'))
    as (HL & HF & (b & HD)).
  - by apply ledgers_set_slot; [apply kb_ledgers|].
  - done.
  - by apply list_lookup_insert_eq.
  - by apply (lookup_map_Some slot_book _ _ _ Hkd).
  - done.
  - eexists. split; [done|]. assert (renoded kvs (callbacks didx kvs1 l) (Z.to_nat didx) (clear_notes d')) as HR.
    { exists b. rewrite HD. simpl. by rewrite list_insert_insert_eq. }
    assert (kv_frame kvs (callbacks didx kvs1 l)) as HF1 by by eapply kv_frame_trans; [|exact HF].
    split; [|done]. by apply (books_renoded kvs _ didx kd (clear_notes d') HB Hkd (clear_notes_ok _ Hok) eq_refl).
Qed.

(** ** Key counts *)

Lemma alter_as_insert (l : list Z) i x delta : l !! i = Some x -> alter (Z.add delta) i l = <[i := x + delta]> l.
Proof.
  intros Hi. apply list_eq. intros j. destruct (decide (j = i)) as [->|Hne].
  - rewrite list_lookup_alter_eq, Hi, list_lookup_insert_eq by by eapply lookup_lt_Some. simpl. f_equal. lia.
  - by rewrite list_lookup_alter_ne, list_lookup_insert_ne.
Qed.

Lemma zsum_insert l i (x y : Z) : l !! i = Some x -> zsum (<[i := y]> l) = zsum l - x + y.
Proof.
  intros Hi. pose proof (zsum_map_insert (fun z => z) l i x y Hi) as E. by rewrite !map_id in E.
Qed.

Lemma nonempty_range n : 0 <= nonempty n <= 1.
Proof. unfold nonempty, b2z. destruct (n =? 0); simpl; lia. Qed.

(** What the sizes become, and how the counter of non-empty dictionaries moves:
    by the size the dictionary has when the function is called. *)
Definition non_empty_step (dsize delta : Z) : Z :=
  if (dsize =? 1) && (delta >? 0) then 1 else if dsize =? 0 then -1 else 0.

Lemma count_add_core kvs ss didx kd s delta :
  kv_counts kvs ss -> zlen ss <= 2 ^ 16 -> 0 <= didx -> dicts kvs !! Z.to_nat didx = Some (Some kd) ->
  ss !! Z.to_nat didx = Some s -> 0 <= s + delta -> LLONG_MIN < delta <= LLONG_MAX -> zsum ss + delta < 2 ^ 64 ->
  exists ft, cumulativeKeyCountAdd kvs didx delta =
      Ok (set_counts kvs (zsum ss + delta) (non_empty_dicts kvs + non_empty_step (dictSize (kd_dict kd)) delta) ft) /\
    (num_dicts kvs = 1 -> ft = None) /\
    (num_dicts kvs <> 1 -> exists t, ft = Some t /\ represents t (<[Z.to_nat didx := s + delta]> ss)).
Proof.
  intros [C1 C2 C3 C4 C5 C6] Hlen Hd Hkd Hs Hnn Hdelta Hw. unfold cumulativeKeyCountAdd.
  rewrite (get_slot _ _ _ Hd Hkd). runr. fold (non_empty_step (dictSize (kd_dict kd)) delta).
  assert (Forall (fun v => 0 <= v) (<[Z.to_nat didx := s + delta]> ss)) as Hf by by apply list.Forall_insert.
  pose proof (zsum_insert ss _ s (s + delta) Hs) as Hz. pose proof (zsum_nonneg _ Hf) as Hz0.
  pose proof (zsum_map_bounds nonempty ss nonempty_range) as Hnr.
  assert (-1 <= non_empty_step (dictSize (kd_dict kd)) delta <= 1) as Hstep
    by (unfold non_empty_step; repeat case_match; lia).
  rewrite chk_i32_ok by lia. runr. rewrite C3, (wrapU_small 64) by lia.
  destruct (Z.eqb_spec (num_dicts kvs) 1) as [E|E].
  - eexists. split; [done|]. split; [done|by intros].
  - destruct (C6 E) as (ft & -> & Hr).
    destruct (update_represents ft ss didx delta s Hr Hd Hs) as (ft' & -> & Hr'); [lia..|]. runr.
    rewrite (alter_as_insert _ _ _ _ Hs) in Hr'. eexists. split; [done|]. split; [by intros|]. intros _. by exists ft'.
Qed.

Lemma count_add_ok kvs ss didx kd s delta :
  kv_counts kvs ss -> zlen ss <= 2 ^ 16 -> 0 <= didx -> dicts kvs !! Z.to_nat didx = Some (Some kd) ->
  ss !! Z.to_nat didx = Some s -> dictSize (kd_dict kd) = s + delta -> 0 <= s + delta ->
  delta = 1 \/ delta = -1 -> zsum ss + delta < 2 ^ 64 ->
  exists k n ft, cumulativeKeyCountAdd kvs didx delta = Ok (set_counts kvs k n ft) /\
    kv_counts (set_counts kvs k n ft) (<[Z.to_nat didx := s + delta]> ss).
Proof.
  intros HC Hlen Hd Hkd Hs Hsz Hnn Hdelta Hw.
  destruct (count_add_core kvs ss didx kd s delta HC Hlen Hd Hkd Hs Hnn ltac:(lia) Hw) as (ft & -> & H1 & H2).
  pose proof (list.Forall_lookup_1 _ _ _ _ (kc_nonneg _ _ HC) Hs) as Hs0. simpl in Hs0.
  pose proof (zsum_insert ss _ s (s + delta) Hs) as Hz. eexists _, _, _. split; [done|].
  constructor; cbn [set_counts key_count non_empty_dicts num_dicts dict_sizes]; try done; [|lia|lia|].
  - apply list.Forall_insert; [apply HC|done].
  - rewrite (zsum_map_insert nonempty ss _ s _ Hs), (kc_nonempty _ _ HC), Hsz. unfold non_empty_step, nonempty, b2z.
    destruct Hdelta as [-> | ->]; repeat case_bool; simpl; lia.
Qed.

Lemma books_set_counts kvs k n ft : kv_books kvs -> kv_books (set_counts kvs k n ft).
Proof. intros [? ? ? ? ? [] ? ?]. constructor; done. Qed.

Lemma counts_frame kvs kvs' ss : kv_frame kvs kvs' -> kv_counts kvs ss -> kv_counts kvs' ss.
Proof.
  intros [F1 F2 F3 F4 F5 F6 F7 F8] [C1 C2 C3 C4 C5 C6].
  constructor; rewrite ?F2, ?F5, ?F6, ?F7; done.
Qed.

Lemma sizes_renoded kvs kvs' i d :
  renoded kvs kvs' i d -> map slot_size (dicts kvs') = <[i := dictSize d]> (map slot_size (dicts kvs)).
Proof. intros (b & ->). by rewrite map_list_insert. Qed.

Lemma kabs_renoded kvs kvs' i d : renoded kvs kvs' i d -> kabs kvs' = <[i := abs ty d]> (kabs kvs).
Proof. intros (b & HD). unfold kabs. by rewrite HD, map_list_insert. Qed.

(** An operation that does not change the number of keys. *)
Lemma on_dict_same {R} kvs didx kd (op : dict -> result (dict * R)) d' r :
  kv_wf kvs -> 0 <= didx -> dicts kvs !! Z.to_nat didx = Some (Some kd) ->
  op (clear_notes (kd_dict kd)) = Ok (d', r) -> dict_ok d' -> told (clear_notes (kd_dict kd)) d' ->
  dictSize d' = dictSize (kd_dict kd) ->
  exists kvs', on_dict kvs didx op = Ok (kvs', r) /\ kv_wf kvs' /\ kv_frame kvs kvs' /\
    renoded kvs kvs' (Z.to_nat didx) (clear_notes d').
Proof.
  intros [HB HC] Hd Hkd Hop Hok Ht Hs.
  destruct (on_dict_ok kvs didx kd op d' r HB Hd Hkd Hop Hok Ht) as (kvs' & -> & HB' & HF & HR).
  exists kvs'. split_and!; try done. constructor; [done|]. rewrite (sizes_renoded _ _ _ _ HR).
  change (dictSize (clear_notes d')) with (dictSize d'). rewrite Hs.
  rewrite list_insert_id by by apply (lookup_map_Some slot_size _ _ _ Hkd). by eapply counts_frame.
Qed.

(** An operation that adds or removes one key, and the count that follows it. *)
Lemma on_dict_count {R} kvs didx kd (op : dict -> result (dict * R)) d' r delta :
  kv_wf kvs -> 0 <= didx -> dicts kvs !! Z.to_nat didx = Some (Some kd) ->
  op (clear_notes (kd_dict kd)) = Ok (d', r) -> dict_ok d' -> told (clear_notes (kd_dict kd)) d' ->
  dictSize d' = dictSize (kd_dict kd) + delta -> 0 <= dictSize d' -> delta = 1 \/ delta = -1 ->
  key_count kvs + delta < 2 ^ 64 ->
  exists kvs1 kvs2, on_dict kvs didx op = Ok (kvs1, r) /\ kv_frame kvs kvs1 /\
    renoded kvs kvs1 (Z.to_nat didx) (clear_notes d') /\
    cumulativeKeyCountAdd kvs1 didx delta = Ok kvs2 /\ kv_wf kvs2 /\ dicts kvs2 = dicts kvs1 /\
    flags kvs2 = flags kvs /\ num_dicts kvs2 = num_dicts kvs.
Proof.
  intros [HB HC] Hd Hkd Hop Hok Ht Hs Hnn Hdelta Hw.
  destruct (on_dict_ok kvs didx kd op d' r HB Hd Hkd Hop Hok Ht) as (kvs1 & Hon & HB' & HF & HR).
  pose proof (counts_frame _ _ _ HF HC) as HC1. pose proof (lookup_lt_Some _ _ _ Hkd) as Hlt.
  destruct HR as (b & HD). pose proof (num_dicts_range kvs HB) as Hnr.
  destruct (count_add_ok kvs1 _ didx {| kd_dict := clear_notes d'; kd_rehashing_node := b |}
    (dictSize (kd_dict kd)) delta HC1) as (k & n & ft & Hc & HC2); try done.
  - unfold zlen. rewrite length_map. pose proof (kb_len _ HB). unfold zlen in *. lia.
  - rewrite HD. by apply list_lookup_insert_eq.
  - by apply (lookup_map_Some slot_size _ _ _ Hkd).
  - lia.
  - rewrite <- (kc_keys _ _ HC). lia.
  - exists kvs1, (set_counts kvs1 k n ft). split_and!; try done; [by exists b| |apply HF|apply HF].
    constructor; [by apply books_set_counts|]. simpl. rewrite HD, map_list_insert. rewrite <- Hs in HC2. done.
Qed.

(** ** Creating and releasing dictionaries *)

Definition slot_ok (s : option kvdict) : Prop :=
  match s with
  | Some kd => dict_ok (kd_dict kd) /\ notes (kd_dict kd) = [] /\
               kd_rehashing_node kd = bool_decide (is_Some (book (kd_dict kd)).2)
  | None => True
  end.

(** Another dictionary, or none, in slot [didx]. *)
Lemma books_swap kvs kvs1 didx s s' x n :
  kv_books kvs -> dicts kvs !! Z.to_nat didx = Some s ->
  ledgers kvs1 (<[Z.to_nat didx := slot_book s']> (map slot_book (dicts kvs))) ->
  kv_frame kvs kvs1 -> dicts kvs1 = <[Z.to_nat didx := x]> (dicts kvs) -> slot_ok s' ->
  n = allocated_dicts kvs - slot_alloc s + slot_alloc s' ->
  kv_books (set_allocated (set_slot kvs1 didx s') n).
Proof.
  intros [B1 B2 B3 B4 B5 B6 B7 B8] Hs [L1 L2 L3 L4 L5 L6 L7] [] HD Hok ->. pose proof (lookup_lt_Some _ _ _ Hs) as Hlt.
  assert (dicts (set_slot kvs1 didx s') = <[Z.to_nat didx := s']> (dicts kvs)) as HD'.
  { simpl. by rewrite HD, list_insert_insert_eq. }
  constructor; cbn [set_allocated num_dicts num_dicts_bits allocated_dicts set_slot].
  - congruence.
  - congruence.
  - change (dicts (set_allocated ?k ?n)) with (dicts k). rewrite HD', zlen_insert. congruence.
  - intros i kd Hi. change (dicts (set_slot kvs1 didx s') !! i = Some (Some kd)) in Hi. rewrite HD' in Hi.
    destruct (decide (i = Z.to_nat didx)) as [->|Hne].
    + rewrite list_lookup_insert_eq in Hi by done. simplify_eq. apply Hok.
    + rewrite list_lookup_insert_ne in Hi by done. by apply (B4 i).
  - change (dicts (set_allocated ?k ?n)) with (dicts k). rewrite HD', (zsum_map_insert _ _ _ _ _ Hs). lia.
  - change (dicts (set_allocated ?k ?n)) with (dicts k). rewrite HD', map_list_insert.
    constructor; try done.
    + change (dicts (set_allocated ?k ?n)) with (dicts k). rewrite HD', !length_insert. by rewrite length_map.
    + intros i kd g Hi Hg. change (dicts (set_slot kvs1 didx s') !! i = Some (Some kd)) in Hi. rewrite HD' in Hi.
      destruct (decide (i = Z.to_nat didx)) as [->|Hne].
      * rewrite list_lookup_insert_eq in Hi by done.
        rewrite list_lookup_insert_eq in Hg by by rewrite length_map. simplify_eq. apply Hok.
      * rewrite list_lookup_insert_ne in Hi by done. apply (L7 i); [|done].
        by rewrite HD, list_lookup_insert_ne.
  - cbn. congruence.
  - intros i kd Hi. change (dicts (set_slot kvs1 didx s') !! i = Some (Some kd)) in Hi. rewrite HD' in Hi.
    destruct (decide (i = Z.to_nat didx)) as [->|Hne].
    + rewrite list_lookup_insert_eq in Hi by done. simplify_eq. apply Hok.
    + rewrite list_lookup_insert_ne in Hi by done. by apply (B8 i).
Qed.

(** Housekeeping: the keys and their counts are the same. *)
Record kv_keeps (a b : kvstore) : Prop := {
  kk_flags : flags b = flags a;
  kk_num : num_dicts b = num_dicts a;
  kk_keys : key_count b = key_count a;
  kk_abs : kabs b = kabs a;
  kk_quiet : quiet a -> quiet b;
}.

Lemma kv_keeps_refl a : kv_keeps a a.
Proof. by constructor. Qed.

Lemma kv_keeps_trans a b c : kv_keeps a b -> kv_keeps b c -> kv_keeps a c.
Proof. intros [] []. constructor; [congruence..|auto]. Qed.

Lemma alloc_range kvs : kv_books kvs -> 0 <= allocated_dicts kvs <= 2 ^ 16.
Proof.
  intros HB. rewrite (kb_alloc _ HB).
  pose proof (zsum_map_bounds slot_alloc (dicts kvs) ltac:(intros []; simpl; lia)) as Hz.
  rewrite (kb_len _ HB) in Hz. pose proof (num_dicts_range _ HB). lia.
Qed.

Lemma dictCreate_ok : dict_ok (dictCreate : dict).
Proof. constructor; [apply empty_dict_wf|done..]. Qed.

(** Swapping slots of the same size and contents keeps everything else. *)
Lemma wf_swap kvs kvs1 didx s s' x n :
  kv_wf kvs -> dicts kvs !! Z.to_nat didx = Some s ->
  ledgers kvs1 (<[Z.to_nat didx := slot_book s']> (map slot_book (dicts kvs))) ->
  kv_frame kvs kvs1 -> dicts kvs1 = <[Z.to_nat didx := x]> (dicts kvs) -> slot_ok s' ->
  n = allocated_dicts kvs - slot_alloc s + slot_alloc s' -> slot_size s' = slot_size s -> slot_abs s' = slot_abs s -> slot_quiet s' ->
  let kvs2 := set_allocated (set_slot kvs1 didx s') n in
  kv_wf kvs2 /\ kv_keeps kvs kvs2.
Proof.
  intros [HB HC] Hs HL HF HD Hok Hn Hsz Ha Hq kvs2.
  assert (dicts kvs2 = <[Z.to_nat didx := s']> (dicts kvs)) as HD'.
  { simpl. by rewrite HD, list_insert_insert_eq. }
  split.
  - constructor; [by eapply books_swap|]. rewrite HD', (map_list_insert_same _ _ _ _ _ Hs Hsz).
    destruct HC as [C1 C2 C3 C4 C5 C6], HF as [F1 F2 F3 F4 F5 F6 F7 F8].
    constructor; cbn [kvs2 set_allocated set_slot num_dicts dict_sizes non_empty_dicts key_count];
      rewrite ?F2, ?F5, ?F6, ?F7; done.
  - constructor; [apply HF..| |by apply (quiet_insert _ _ _ _ HD')].
    unfold kabs. by rewrite HD', (map_list_insert_same _ _ _ _ _ Hs Ha).
Qed.

Lemma createDict_ok kvs didx :
  kv_wf kvs -> 0 <= didx < num_dicts kvs ->
  exists kvs' kd, createDictIfNeeded kvs didx = Ok kvs' /\ kv_wf kvs' /\ kv_keeps kvs kvs' /\
    dicts kvs' !! Z.to_nat didx = Some (Some kd) /\
    (forall kd0, dicts kvs !! Z.to_nat didx = Some (Some kd0) -> kvs' = kvs).
Proof.
  intros Hwf Hd. destruct (slot_at kvs didx (kw_books _ Hwf) Hd) as (s & Hg & Hs).
  unfold createDictIfNeeded. rewrite Hg. runr. destruct s as [kd|].
  { exists kvs, kd. by split_and!. }
  pose proof (alloc_range kvs (kw_books _ Hwf)).
  set (fresh := Some {| kd_dict := dictCreate; kd_rehashing_node := false |}).
  destruct (wf_swap kvs kvs didx None fresh None (allocated_dicts kvs + 1)) as [Hwf' Hk]; try done.
  - rewrite list_insert_id; [apply (kb_ledgers _ (kw_books _ Hwf))|]. by apply (lookup_map_Some slot_book _ _ _ Hs).
  - by rewrite list_insert_id.
  - split; [apply dictCreate_ok|done].
  - simpl. lia.
  - rewrite chk_i32_ok by (simpl; lia). runr. eexists _, _. split; [done|]. split; [exact Hwf'|]. split; [exact Hk|].
    split; [|intros kd0 E; by rewrite Hs in E]. simpl. apply list_lookup_insert_eq. by eapply lookup_lt_Some.
Qed.

Lemma freeDict_ok kvs didx :
  kv_wf kvs -> 0 <= didx < num_dicts kvs ->
  exists kvs', freeDictIfNeeded canFreeDict kvs didx = Ok kvs' /\ kv_wf kvs' /\ kv_keeps kvs kvs'.
Proof.
  intros Hwf Hd. destruct (slot_at kvs didx (kw_books _ Hwf) Hd) as (s & Hg & Hs).
  assert (exists kvs', Ok kvs = Ok kvs' /\ kv_wf kvs' /\ kv_keeps kvs kvs') as Hsame
    by (exists kvs; by split_and!).
  unfold freeDictIfNeeded. destruct (negb (kvs_flag _ _)); [done|]. rewrite Hg. runr. destruct s as [kd|]; [|done].
  unfold kvstoreDictSize, kvstoreDictIsRehashingPaused. rewrite Hg. runr.
  destruct (Z.eqb_spec (slot_size (Some kd)) 0) as [E|E]; [|done]. cbn [negb].
  destruct (pauserehash (kd_dict kd) >? 0); [done|]. destruct (match canFreeDict with Some f => _ | None => _ end); [done|].
  pose proof (kb_dict _ (kw_books _ Hwf) _ _ Hs) as [Hdw _ _]. rewrite dictRelease_eq. cbn [fst].
  destruct (callbacks_ok didx ([] ++ closing_notes (clear_notes (kd_dict kd))) kvs (map slot_book (dicts kvs)) kd
    (book (kd_dict kd)) (0, None)) as (HL & HF & (b & HD)).
  { apply (kb_ledgers _ (kw_books _ Hwf)). }
  { lia. }
  { done. }
  { by apply (lookup_map_Some slot_book _ _ _ Hs). }
  { apply (closing_heard ty (clear_notes (kd_dict kd))). by apply clear_notes_wf. }
  change (notes (clear_notes (kd_dict kd))) with (@nil note). set (kvs1 := callbacks _ _ _) in *.
  pose proof (alloc_range kvs (kw_books _ Hwf)).
  assert (1 <= allocated_dicts kvs) as Hal.
  { rewrite (kb_alloc _ (kw_books _ Hwf)).
    pose proof (zsum_map_insert slot_alloc _ _ _ None Hs) as Hz. simpl in Hz.
    pose proof (zsum_map_bounds slot_alloc (<[Z.to_nat didx := None]> (dicts kvs)) ltac:(intros []; simpl; lia)). lia. }
  destruct (wf_swap kvs kvs1 didx (Some kd) None _ (allocated_dicts kvs - 1) Hwf Hs HL HF HD) as [Hwf' Hk].
  { done. }
  { simpl. lia. }
  { done. }
  { simpl. symmetry. by apply abs_empty. }
  { done. }
  change (allocated_dicts (set_slot kvs1 didx None)) with (allocated_dicts kvs1). rewrite (fr_alloc _ _ HF).
  rewrite chk_i32_ok by lia. runr. eexists. split; [done|]. by split.
Qed.
End kvstore_proofs.
