(* ===== verification/KvstoreOps.v ===== *)
(** KvstoreOps: the operations of the array of dictionaries, one by one.

    The contents of a store are a list of finite maps, [kabs], one per
    dictionary.  Each operation is shown to run without fault from a well-formed
    store, to leave one behind and to do to the maps what it should. *)

From Stdlib Require Import ZArith Lia Bool.
From S2P Require Import Prelude Bytes Fenwick Dict DictProofs DictOps Kvstore KvstoreProofs.
From stdpp Require Import base list numbers decidable gmap.

Local Open Scope Z_scope.

(** The number of keys in each map. *)
Definition sizes {K A} `{Countable K} (m : list (gmap K A)) : list Z := map (fun a => Z.of_nat (size a)) m.

Section kvstore_ops.
Context {K SK V : Type} `{Countable K}.
Context (ty : dictType K SK V) {laws : DictTypeLaws ty}.
Context (canFreeDict : option (kvstore SK V -> Z -> bool)).
Local Abbreviation entry := (dictEntry SK V).
Local Abbreviation dict := (dict SK V).
Local Abbreviation kvdict := (kvdict SK V).
Local Abbreviation kvstore := (kvstore SK V).
Local Abbreviation amap := (gmap K (SK * option V)).
Local Abbreviation kabs := (kabs ty).
Local Abbreviation kv_wf := (kv_wf ty).

(** The map at an index. *)
Definition at_slot (m : list amap) (didx : Z) : amap := default ∅ (m !! Z.to_nat didx).
Definition set_at (m : list amap) (didx : Z) (a : amap) : list amap := <[Z.to_nat didx := a]> m.

(** The store [kvs'] follows [kvs] and holds the maps [m]. *)
Record steps_to (kvs kvs' : kvstore) (m : list amap) : Prop := {
  st_wf : kv_wf kvs';
  st_flags : flags kvs' = flags kvs;
  st_num : num_dicts kvs' = num_dicts kvs;
  st_abs : kabs kvs' = m;
  st_quiet : quiet kvs -> quiet kvs';
}.

Lemma steps_keeps kvs kvs' : kv_wf kvs' -> kv_keeps ty kvs kvs' -> steps_to kvs kvs' (kabs kvs).
Proof. intros Hwf []. by constructor. Qed.

Lemma steps_trans a b c m m' : steps_to a b m -> steps_to b c m' -> steps_to a c m'.
Proof. intros [] []. constructor; [congruence..|auto]. Qed.

(** * Sizes *)

Lemma dict_size_abs d : dict_wf ty d -> dictSize d = Z.of_nat (size (abs ty d)).
Proof. intros Hwf. by rewrite (dictSize_ok ty d Hwf), abs_size. Qed.

Lemma slot_sizes kvs : kv_books ty kvs -> map slot_size (dicts kvs) = sizes (kabs kvs).
Proof.
  intros HB. unfold sizes, kabs. rewrite map_map. apply list_eq. intros i.
  change (map ?f (dicts kvs)) with (f <$> dicts kvs). rewrite !list_lookup_fmap.
  destruct (dicts kvs !! i) as [[kd|]|] eqn:E; simpl; [|by rewrite map_size_empty|done].
  f_equal. apply dict_size_abs. apply (kb_dict _ _ HB _ _ E).
Qed.

Lemma key_count_sizes kvs : kv_wf kvs -> key_count kvs = zsum (sizes (kabs kvs)).
Proof. intros [HB HC]. by rewrite (kc_keys _ _ HC), slot_sizes. Qed.

Lemma sizes_word kvs : kv_wf kvs -> zsum (sizes (kabs kvs)) < 2 ^ 64.
Proof. intros [HB HC]. rewrite <- (slot_sizes kvs HB). apply HC. Qed.

Lemma sizes_nonneg (m : list amap) : Forall (fun v => 0 <= v) (sizes m).
Proof. unfold sizes. induction m; simpl; constructor; [lia|done]. Qed.

Lemma kabs_len kvs : kv_wf kvs -> zlen (kabs kvs) = num_dicts kvs.
Proof. intros [HB _]. rewrite <- (kb_len _ _ HB). unfold zlen, kabs. by rewrite length_map. Qed.

Lemma kabs_slot kvs didx s : dicts kvs !! Z.to_nat didx = Some s -> kabs kvs !! Z.to_nat didx = Some (slot_abs ty s).
Proof. apply lookup_map_Some. Qed.

Lemma at_slot_slot kvs didx s : dicts kvs !! Z.to_nat didx = Some s -> at_slot (kabs kvs) didx = slot_abs ty s.
Proof. intros Hs. unfold at_slot. by rewrite (kabs_slot _ _ _ Hs). Qed.

Lemma set_at_same kvs didx s : dicts kvs !! Z.to_nat didx = Some s -> set_at (kabs kvs) didx (slot_abs ty s) = kabs kvs.
Proof. intros Hs. apply list_insert_id. by apply kabs_slot. Qed.

Lemma at_slot_size kvs didx :
  kv_wf kvs -> 0 <= Z.of_nat (size (at_slot (kabs kvs) didx)) <= key_count kvs.
Proof.
  intros Hwf. split; [lia|]. rewrite (key_count_sizes kvs Hwf). unfold at_slot.
  destruct (kabs kvs !! Z.to_nat didx) as [a|] eqn:E; simpl.
  - pose proof (zsum_insert (sizes (kabs kvs)) (Z.to_nat didx) (Z.of_nat (size a)) 0) as Hz.
    assert (Forall (fun v => 0 <= v) (<[Z.to_nat didx := 0]> (sizes (kabs kvs)))) as Hf
      by (apply list.Forall_insert; [apply sizes_nonneg|done]).
    pose proof (zsum_nonneg _ Hf). rewrite Hz in * by (by apply (lookup_map_Some (fun a => Z.of_nat (size a)) _ _ _ E)). lia.
  - rewrite map_size_empty. apply zsum_nonneg, sizes_nonneg.
Qed.

(** * Carrying dictionary lemmas over *)

Lemma frame_dict_ok d d' : dict_ok ty d -> dict_wf ty d' -> same_frame ty d d' -> dict_ok ty d'.
Proof. intros [? Ha Hp] ? []. constructor; [done|congruence..]. Qed.

Lemma maintains_size d d' : dict_wf ty d -> maintains ty d d' -> dictSize d' = dictSize d.
Proof.
  intros Hwf Hm. rewrite (dictSize_ok ty d Hwf), (dictSize_ok ty d' (mt_wf _ _ _ Hm)). by apply (maintains_zlen ty).
Qed.

Section at_a_slot.
Context (kvs : kvstore) (didx : Z) (kd : kvdict).
Context (Hwf : kv_wf kvs) (Hd : 0 <= didx) (Hkd : dicts kvs !! Z.to_nat didx = Some (Some kd)).

Lemma cleared_ok : dict_ok ty (clear_notes (kd_dict kd)).
Proof. apply clear_notes_ok. apply (kb_dict _ _ (kw_books _ _ Hwf) _ _ Hkd). Qed.

Lemma cleared_wf : dict_wf ty (clear_notes (kd_dict kd)).
Proof. apply cleared_ok. Qed.

Lemma cleared_insert : can_insert ty (clear_notes (kd_dict kd)).
Proof. left. rewrite (do_auto _ _ cleared_ok). done. Qed.

Lemma cleared_abs : abs ty (clear_notes (kd_dict kd)) = at_slot (kabs kvs) didx.
Proof. symmetry. apply (at_slot_slot _ _ _ Hkd). Qed.

Lemma cleared_size : dictSize (clear_notes (kd_dict kd)) = Z.of_nat (size (at_slot (kabs kvs) didx)).
Proof. rewrite <- cleared_abs. apply dict_size_abs, cleared_wf. Qed.

Lemma cleared_room : key_count kvs + 1 < 2 ^ 64 -> has_room (clear_notes (kd_dict kd)).
Proof.
  intros Hr. unfold has_room. rewrite <- (dictSize_ok ty _ cleared_wf), cleared_size.
  pose proof (at_slot_size kvs didx Hwf). lia.
Qed.

Lemma quiet_renoded kvs' d' :
  renoded kvs kvs' (Z.to_nat didx) (clear_notes d') ->
  pauserehash d' = pauserehash (clear_notes (kd_dict kd)) -> quiet kvs -> quiet kvs'.
Proof.
  intros (b & HD) Hp Hq. apply (quiet_insert _ _ _ _ HD); [|done]. simpl. rewrite Hp. by apply (Hq _ _ Hkd).
Qed.

(** Background work on the dictionary. *)
Lemma on_dict_maintains {R} (op : dict -> result (dict * R)) d' r :
  op (clear_notes (kd_dict kd)) = Ok (d', r) -> maintains ty (clear_notes (kd_dict kd)) d' ->
  exists kvs', on_dict kvs didx op = Ok (kvs', r) /\ steps_to kvs kvs' (kabs kvs) /\
    renoded kvs kvs' (Z.to_nat didx) (clear_notes d').
Proof.
  intros Hop Hm.
  destruct (on_dict_same ty kvs didx kd op d' r Hwf Hd Hkd Hop) as (kvs' & -> & Hwf' & HF & HR).
  - apply (frame_dict_ok _ _ cleared_ok); [apply Hm|by apply maintains_frame].
  - apply Hm.
  - apply (maintains_size _ _ cleared_wf Hm).
  - exists kvs'. split_and!; try done. constructor; [done|apply HF|apply HF| |].
    + rewrite (kabs_renoded ty _ _ _ _ HR). change (abs ty (clear_notes d')) with (abs ty d').
      rewrite (abs_maintains ty _ _ cleared_wf Hm). apply (set_at_same _ _ _ Hkd).
    + apply (quiet_renoded kvs' d' HR). apply Hm.
Qed.

(** A change of the contents that keeps the number of keys. *)
Lemma on_dict_update {R} (op : dict -> result (dict * R)) d' r :
  op (clear_notes (kd_dict kd)) = Ok (d', r) -> dict_wf ty d' -> same_frame ty (clear_notes (kd_dict kd)) d' ->
  size (abs ty d') = size (at_slot (kabs kvs) didx) ->
  exists kvs', on_dict kvs didx op = Ok (kvs', r) /\ steps_to kvs kvs' (set_at (kabs kvs) didx (abs ty d')) /\
    renoded kvs kvs' (Z.to_nat didx) (clear_notes d').
Proof.
  intros Hop Hwf' Hfr Hsz.
  destruct (on_dict_same ty kvs didx kd op d' r Hwf Hd Hkd Hop) as (kvs' & -> & Hw & HF & HR).
  - by apply (frame_dict_ok _ _ cleared_ok).
  - apply Hfr.
  - rewrite (dict_size_abs d' Hwf'), Hsz. symmetry. apply cleared_size.
  - exists kvs'. split_and!; try done. constructor; [done|apply HF|apply HF| |].
    + exact (kabs_renoded ty _ _ _ _ HR).
    + apply (quiet_renoded kvs' d' HR). apply Hfr.
Qed.

(** One key more or less, with the count that follows. *)
Lemma on_dict_change {R} (op : dict -> result (dict * R)) d' r delta :
  op (clear_notes (kd_dict kd)) = Ok (d', r) -> dict_wf ty d' -> same_frame ty (clear_notes (kd_dict kd)) d' ->
  Z.of_nat (size (abs ty d')) = Z.of_nat (size (at_slot (kabs kvs) didx)) + delta ->
  delta = 1 \/ delta = -1 -> key_count kvs + delta < 2 ^ 64 ->
  exists kvs1 kvs2, on_dict kvs didx op = Ok (kvs1, r) /\ cumulativeKeyCountAdd kvs1 didx delta = Ok kvs2 /\
    steps_to kvs kvs2 (set_at (kabs kvs) didx (abs ty d')) /\
    exists b, dicts kvs2 !! Z.to_nat didx = Some (Some {| kd_dict := clear_notes d'; kd_rehashing_node := b |}).
Proof.
  intros Hop Hwf' Hfr Hsz Hdelta Hw.
  destruct (on_dict_count ty kvs didx kd op d' r delta Hwf Hd Hkd Hop)
    as (kvs1 & kvs2 & H1 & HF & HR & H2 & Hw2 & HD & Hfl & Hn); try done.
  - by apply (frame_dict_ok _ _ cleared_ok).
  - apply Hfr.
  - rewrite (dict_size_abs d' Hwf'), Hsz. change (dictSize (kd_dict kd)) with (dictSize (clear_notes (kd_dict kd))).
    by rewrite cleared_size.
  - rewrite (dict_size_abs d' Hwf'). lia.
  - exists kvs1, kvs2. split_and!; [done|done| |].
    + constructor; [done..| |].
      * unfold set_at. change (abs ty d') with (abs ty (clear_notes d')).
        rewrite <- (kabs_renoded ty _ _ _ _ HR). unfold kabs. by rewrite HD.
      * intros Hq i kd' Hi. rewrite HD in Hi. revert i kd' Hi.
        apply (quiet_renoded kvs1 d' HR); [apply Hfr|done].
    + destruct HR as (b & HR). exists b. rewrite HD, HR. apply list_lookup_insert_eq. by eapply lookup_lt_Some.
Qed.
End at_a_slot.

Lemma create_steps kvs didx :
  kv_wf kvs -> 0 <= didx < num_dicts kvs ->
  exists kvs' kd, createDictIfNeeded kvs didx = Ok kvs' /\ steps_to kvs kvs' (kabs kvs) /\
    key_count kvs' = key_count kvs /\ dicts kvs' !! Z.to_nat didx = Some (Some kd) /\
    (forall kd0, dicts kvs !! Z.to_nat didx = Some (Some kd0) -> kvs' = kvs).
Proof.
  intros Hwf Hd. destruct (createDict_ok ty kvs didx Hwf Hd) as (kvs' & kd & -> & Hwf' & Hk & Hs & He).
  exists kvs', kd. split_and!; try done; [by apply steps_keeps|apply Hk].
Qed.

Lemma free_steps kvs didx :
  kv_wf kvs -> 0 <= didx < num_dicts kvs ->
  exists kvs', freeDictIfNeeded canFreeDict kvs didx = Ok kvs' /\ steps_to kvs kvs' (kabs kvs).
Proof.
  intros Hwf Hd. destruct (freeDict_ok ty canFreeDict kvs didx Hwf Hd) as (kvs' & -> & Hwf' & Hk).
  exists kvs'. split; [done|by apply steps_keeps].
Qed.

Lemma holds_clear d l e : holds ty d l e -> holds ty (clear_notes d) l e.
Proof.
  intros ([?|[? []]] & Hi & Hc); (split; [|by split]); [by left|right; split; [done|by constructor]].
Qed.

Lemma set_at_at m didx (a : amap) : 0 <= didx < zlen m -> at_slot (set_at m didx a) didx = a.
Proof. intros Hd. unfold at_slot, set_at. rewrite list_lookup_insert_eq; [done|]. unfold zlen in *. lia. Qed.

Lemma set_at_set m didx (a b : amap) : set_at (set_at m didx a) didx b = set_at m didx b.
Proof. apply list_insert_insert_eq. Qed.

(** * Lookups *)

Lemma kv_find_ok cr kvs didx key :
  kv_wf kvs -> 0 <= didx < num_dicts kvs ->
  exists kvs' e, kvstoreDictFind ty cr kvs didx key = Ok (kvs', e) /\ steps_to kvs kvs' (kabs kvs) /\
    content <$> e = at_slot (kabs kvs) didx !! key.
Proof.
  intros Hwf Hd. destruct (slot_at ty kvs didx (kw_books _ _ Hwf) Hd) as (s & Hg & Hs).
  unfold kvstoreDictFind. rewrite Hg. runr. destruct s as [kd|].
  - destruct (find_ok ty cr _ key (cleared_wf _ _ _ Hwf Hs)) as (d' & e & Hf & Hm & He).
    destruct (on_dict_maintains kvs didx kd Hwf ltac:(lia) Hs (fun d => dictFind ty cr d key) d' e Hf Hm)
      as (kvs' & -> & Hst & _).
    exists kvs', e. split_and!; [done|done|]. by rewrite He, (cleared_abs kvs didx kd Hs).
  - exists kvs, None. split; [done|]. split; [by constructor|]. rewrite (at_slot_slot _ _ _ Hs). symmetry. apply lookup_empty.
Qed.

(** * Insertions *)

Lemma kv_addRaw_ok cr kvs didx sk :
  kv_wf kvs -> 0 <= didx < num_dicts kvs -> key_count kvs + 1 < 2 ^ 64 ->
  let key := keyFromStoredKey ty sk in
  let a := at_slot (kabs kvs) didx in
  exists kvs' r, kvstoreDictAddRaw ty cr kvs didx sk = Ok (kvs', r) /\
    match r with
    | inl _ => is_Some (a !! key) /\ steps_to kvs kvs' (kabs kvs)
    | inr l => a !! key = None /\ steps_to kvs kvs' (set_at (kabs kvs) didx (<[key := (keyDup ty sk, None)]> a)) /\
        exists kd e, dicts kvs' !! Z.to_nat didx = Some (Some kd) /\ holds ty (kd_dict kd) l e /\
                     (no_value ty = false -> e = EntryNormal (keyDup ty sk) None)
    end.
Proof.
  intros Hwf Hd Hroom key a. unfold kvstoreDictAddRaw.
  destruct (create_steps kvs didx Hwf Hd) as (kvs1 & kd & -> & Hst1 & Hkc & Hkd & _). runr.
  pose proof (st_wf _ _ _ Hst1) as Hwf1. pose proof (st_abs _ _ _ Hst1) as Ha1.
  destruct (addRaw_ok ty cr _ sk (cleared_wf _ _ _ Hwf1 Hkd) (cleared_insert _ _ _ Hwf1 Hkd))
    as (d' & r & Hadd & Hwf' & Hfr & Hr); [apply (cleared_room _ _ _ Hwf1 Hkd); lia|].
  rewrite (cleared_abs _ _ _ Hkd), Ha1 in Hr. fold key a in Hr. destruct r as [l|l].
  - destruct Hr as [Ha (e & _ & _ & Hs)].
    destruct (on_dict_update kvs1 didx kd Hwf1 ltac:(lia) Hkd (fun d => dictAddRaw ty cr d sk) d' (inl l) Hadd Hwf' Hfr)
      as (kvs2 & -> & Hst2 & _); [by rewrite Ha, Ha1|].
    eexists _, _. split; [done|]. split; [by eexists|]. rewrite Ha, Ha1 in Hst2. unfold a in Hst2.
    eapply steps_trans; [exact Hst1|]. rewrite <- Ha1 in Hst2.
    by rewrite (at_slot_slot _ _ _ Hkd), (set_at_same _ _ _ Hkd), Ha1 in Hst2.
  - destruct Hr as (Hn & Ha & e & Hh & _ & He).
    destruct (on_dict_change kvs1 didx kd Hwf1 ltac:(lia) Hkd (fun d => dictAddRaw ty cr d sk) d' (inr l) 1 Hadd Hwf' Hfr)
      as (kvs2 & kvs3 & -> & Hc & Hst2 & b & HD).
    { rewrite Ha, Ha1, map_size_insert_None by done. fold a. lia. }
    { by left. }
    { lia. }
    runr. rewrite Hc. runr. eexists _, _. split; [done|]. split; [done|].
    split; [rewrite Ha, Ha1 in Hst2; by eapply steps_trans|].
    eexists _, e. split; [exact HD|]. split; [by apply holds_clear|done].
Qed.

Lemma kv_setVal_ok kvs didx kd l k v0 val :
  kv_wf kvs -> 0 <= didx -> dicts kvs !! Z.to_nat didx = Some (Some kd) -> no_value ty = false ->
  holds ty (kd_dict kd) l (EntryNormal k v0) ->
  exists kvs', kvstoreDictSetVal ty kvs didx l val = Ok kvs' /\
    steps_to kvs kvs' (set_at (kabs kvs) didx
      (<[keyFromStoredKey ty k := (k, Some (valDup ty val))]> (at_slot (kabs kvs) didx))).
Proof.
  intros Hwf Hd Hkd Hnv Hh%holds_clear. unfold kvstoreDictSetVal. rewrite Hnv. runr.
  pose proof (cleared_wf _ _ _ Hwf Hkd) as Hdw.
  destruct (setVal_ok ty _ l k v0 val Hdw Hnv Hh) as (d' & Hs & Hwf' & Hfr & Ha).
  pose proof (abs_elem ty _ _ Hdw (holds_elem ty _ _ _ Hh)) as Hl. rewrite (cleared_abs _ _ _ Hkd) in Ha, Hl.
  change (entry_key ty (EntryNormal k v0)) with (keyFromStoredKey ty k) in Hl.
  destruct (on_dict_update kvs didx kd Hwf Hd Hkd
    (fun d => let* d := dictSetVal ty d l val in Ok (d, tt)) d' tt) as (kvs' & -> & Hst & _).
  - by rewrite Hs.
  - done.
  - done.
  - rewrite Ha, map_size_insert, Hl. done.
  - exists kvs'. split; [done|]. by rewrite <- Ha.
Qed.

(** * Deletions *)

Lemma kv_delete_ok cr kvs didx key :
  kv_wf kvs -> 0 <= didx < num_dicts kvs ->
  exists kvs', kvstoreDictDelete ty canFreeDict cr kvs didx key =
      Ok (kvs', bool_decide (is_Some (at_slot (kabs kvs) didx !! key))) /\
    steps_to kvs kvs' (set_at (kabs kvs) didx (delete key (at_slot (kabs kvs) didx))).
Proof.
  intros Hwf Hd. destruct (slot_at ty kvs didx (kw_books _ _ Hwf) Hd) as (s & Hg & Hs).
  unfold kvstoreDictDelete. rewrite Hg. runr. destruct s as [kd|].
  2:{ exists kvs. rewrite (at_slot_slot _ _ _ Hs). cbn [slot_abs]. rewrite lookup_empty, delete_empty. split; [done|].
      constructor; try done. symmetry. apply (set_at_same _ _ _ Hs). }
  destruct (delete_ok ty cr _ key (cleared_wf _ _ _ Hwf Hs)) as (d' & e & Hdel & Hwf' & Hfr & He & Ha).
  rewrite (cleared_abs _ _ _ Hs) in He, Ha.
  assert (dictDelete ty cr (clear_notes (kd_dict kd)) key = Ok (d', bool_decide (is_Some e))) as Hop.
  { unfold dictDelete. rewrite Hdel. runr. by destruct e. }
  assert (is_Some e <-> is_Some (at_slot (kabs kvs) didx !! key)) as Hiff by (rewrite <- He; by destruct e; split; intros []).
  rewrite (bool_decide_ext _ _ Hiff) in Hop. destruct (at_slot (kabs kvs) didx !! key) as [c|] eqn:Hc.
  - assert (size (at_slot (kabs kvs) didx) <> 0%nat) as Hnz.
    { intros E%map_size_empty_inv. by rewrite E, lookup_empty in Hc. }
    destruct (on_dict_change kvs didx kd Hwf ltac:(lia) Hs (fun d => dictDelete ty cr d key) d' true (-1) Hop Hwf' Hfr)
      as (kvs1 & kvs2 & -> & Hcnt & Hst & _).
    { rewrite Ha, map_size_delete, Hc. lia. }
    { by right. }
    { pose proof (sizes_word kvs Hwf). rewrite <- (key_count_sizes kvs Hwf) in *. lia. }
    runr. rewrite Hcnt. runr. destruct (free_steps kvs2 didx (st_wf _ _ _ Hst)) as (kvs3 & -> & Hst3).
    { by rewrite (st_num _ _ _ Hst). }
    runr. exists kvs3. split; [done|]. rewrite (st_abs _ _ _ Hst) in Hst3. rewrite <- Ha. by eapply steps_trans.
  - destruct (on_dict_update kvs didx kd Hwf ltac:(lia) Hs (fun d => dictDelete ty cr d key) d' false Hop Hwf' Hfr)
      as (kvs1 & -> & Hst & _); [by rewrite Ha, delete_id|].
    exists kvs1. split; [done|]. by rewrite <- Ha.
Qed.

(** The first phase of an unlink: a key that is found leaves its dictionary
    paused, with a link to the entry. *)
Lemma kv_unlinkFind_ok cr kvs didx key :
  kv_wf kvs -> quiet kvs -> 0 <= didx < num_dicts kvs ->
  exists kvs1 r, kvstoreDictTwoPhaseUnlinkFind ty cr kvs didx key = Ok (kvs1, r) /\
    (is_Some r <-> is_Some (at_slot (kabs kvs) didx !! key)) /\
    match r with
    | None => steps_to kvs kvs1 (kabs kvs)
    | Some l =>
        exists kd1 e, kv_wf kvs1 /\ kv_frame kvs kvs1 /\ kabs kvs1 = kabs kvs /\
          dicts kvs1 = <[Z.to_nat didx := Some kd1]> (dicts kvs) /\
          holds ty (kd_dict kd1) l e /\ entry_key ty e = key /\ pauserehash (kd_dict kd1) = 1
    end.
Proof.
  intros Hwf Hq Hd. destruct (slot_at ty kvs didx (kw_books _ _ Hwf) Hd) as (s & Hg & Hs).
  unfold kvstoreDictTwoPhaseUnlinkFind. rewrite Hg. runr. destruct s as [kd|].
  2:{ exists kvs, None. split; [done|]. rewrite (at_slot_slot _ _ _ Hs). cbn [slot_abs].
      rewrite lookup_empty. split; [by split; intros []|by constructor]. }
  pose proof (Hq _ _ Hs) as Hp. pose proof (cleared_wf _ _ _ Hwf Hs) as Hdw.
  destruct (unlinkFind_ok ty cr _ key Hdw) as (d1 & r & Hf & Hwf1 & T1 & P1 & A1 & L1 & Hloc & Ha1); [simpl; lia|].
  pose proof (abs_located ty d1 key r Hwf1 Hloc) as Ha. rewrite Ha1, (cleared_abs _ _ _ Hs) in Ha.
  assert (dict_ok ty d1) as Hok1.
  { constructor; [done|rewrite A1; apply (cleared_ok _ _ _ Hwf Hs)|]. simpl in P1.
    destruct (bool_decide _); simpl in P1; lia. }
  destruct (on_dict_same ty kvs didx kd (fun d => dictTwoPhaseUnlinkFind ty cr d key) d1 r Hwf ltac:(lia) Hs Hf Hok1 T1)
    as (kvs1 & -> & Hw1 & HF & (b & HD)).
  { rewrite (dict_size_abs d1 Hwf1), Ha1. symmetry. exact (dict_size_abs _ Hdw). }
  assert (kabs kvs1 = kabs kvs) as Hka.
  { unfold kabs. rewrite HD. apply (map_list_insert_same _ _ _ _ _ Hs). exact Ha1. }
  eexists _, _. split; [done|]. destruct r as [l|].
  - destruct Ha as (e & Hh & Hk & Ha). split; [by rewrite Ha|]. eexists _, e. split_and!; [done..|exact HD| |done|].
    + by apply holds_clear.
    + simpl in *. lia.
  - split; [rewrite Ha; by split; intros []|]. constructor; [done|apply HF|apply HF|done|].
    apply (quiet_renoded kvs didx kd Hs kvs1 d1); [by exists b|]. simpl in *. lia.
Qed.

(** The second phase deletes the entry, resumes the dictionary, counts the key
    out and may release the dictionary. *)
Lemma kv_unlinkFree_ok cr kvs didx kd l e :
  kv_wf kvs -> 0 <= didx -> dicts kvs !! Z.to_nat didx = Some (Some kd) ->
  holds ty (kd_dict kd) l e -> pauserehash (kd_dict kd) = 1 ->
  exists kvs', kvstoreDictTwoPhaseUnlinkFree ty canFreeDict cr kvs didx (Some l) = Ok kvs' /\
    kv_wf kvs' /\ flags kvs' = flags kvs /\ num_dicts kvs' = num_dicts kvs /\
    kabs kvs' = set_at (kabs kvs) didx (delete (entry_key ty e) (at_slot (kabs kvs) didx)) /\
    ((forall i kd', i <> Z.to_nat didx -> dicts kvs !! i = Some (Some kd') -> pauserehash (kd_dict kd') = 0) -> quiet kvs').
Proof.
  intros Hwf Hd Hs Hh%holds_clear Hp. unfold kvstoreDictTwoPhaseUnlinkFree.
  pose proof (cleared_wf _ _ _ Hwf Hs) as Hdw. pose proof (cleared_ok _ _ _ Hwf Hs) as Hok.
  pose proof (abs_elem ty _ _ Hdw (holds_elem ty _ _ _ Hh)) as Ha.
  destruct (unlinkFree_ok ty cr _ l e Hdw Hh) as (d2 & Hfr & Hwf2 & T2 & P2 & A2 & L2 & Ha2); [simpl; lia|].
  rewrite (cleared_abs _ _ _ Hs) in Ha, Ha2. simpl in P2.
  assert (size (at_slot (kabs kvs) didx) <> 0%nat) as Hnz.
  { intros E%map_size_empty_inv. by rewrite E, lookup_empty in Ha. }
  destruct (on_dict_count ty kvs didx _ (fun d => let* d := dictTwoPhaseUnlinkFree ty cr d (Some l) in Ok (d, tt)) d2 tt (-1)
    Hwf Hd Hs) as (kvs2 & kvs3 & -> & HF2 & HR2 & Hc & Hw3 & HD3 & Hfl & Hn).
  { by rewrite Hfr. }
  { constructor; [done|by rewrite A2; apply Hok|lia]. }
  { done. }
  { rewrite (dict_size_abs d2 Hwf2), Ha2, map_size_delete, Ha.
    pose proof (cleared_size _ _ _ Hwf Hs) as Hcs. simpl in Hcs. change (dictSize (kd_dict kd)) with (dictSize (clear_notes (kd_dict kd))).
    rewrite Hcs. lia. }
  { rewrite (dict_size_abs d2 Hwf2). lia. }
  { by right. }
  { pose proof (sizes_word kvs Hwf). rewrite <- (key_count_sizes kvs Hwf) in *. lia. }
  runr. rewrite Hc. runr. destruct HR2 as (b2 & HR2).
  destruct (free_steps kvs3 didx Hw3) as (kvs4 & -> & [Hw4 Hf4 Hn4 Ha4 Hq4]).
  { rewrite Hn. by apply (slot_range ty kvs didx _ (kw_books _ _ Hwf) Hd Hs). }
  exists kvs4. split_and!; [done|done|congruence|congruence| |].
  - rewrite Ha4. unfold kabs at 1. rewrite HD3, HR2, map_list_insert. simpl.
    change (abs ty (clear_notes d2)) with (abs ty d2). by rewrite Ha2.
  - intros Hq. apply Hq4. intros j kd'. rewrite HD3, HR2. destruct (decide (j = Z.to_nat didx)) as [->|Hne].
    + rewrite list_lookup_insert_eq by by eapply lookup_lt_Some. intros. simplify_eq/=. lia.
    + rewrite list_lookup_insert_ne by done. by apply Hq.
Qed.

(** Both phases. *)
Lemma kv_unlink_ok cr kvs didx key :
  kv_wf kvs -> quiet kvs -> 0 <= didx < num_dicts kvs ->
  exists kvs1 r, kvstoreDictTwoPhaseUnlinkFind ty cr kvs didx key = Ok (kvs1, r) /\
    (is_Some r <-> is_Some (at_slot (kabs kvs) didx !! key)) /\
    match r with
    | None => steps_to kvs kvs1 (kabs kvs)
    | Some _ =>
        exists kvs2, kvstoreDictTwoPhaseUnlinkFree ty canFreeDict cr kvs1 didx r = Ok kvs2 /\
          steps_to kvs kvs2 (set_at (kabs kvs) didx (delete key (at_slot (kabs kvs) didx)))
    end.
Proof.
  intros Hwf Hq Hd. destruct (kv_unlinkFind_ok cr kvs didx key Hwf Hq Hd) as (kvs1 & r & Hf & Hiff & Hr).
  exists kvs1, r. split; [done|]. split; [done|]. destruct r as [l|]; [|done].
  destruct Hr as (kd1 & e & Hw1 & HF & Hka & HD & Hh & Hk & Hp).
  destruct (slot_at ty kvs didx (kw_books _ _ Hwf) Hd) as (s & _ & Hs%lookup_lt_Some).
  destruct (kv_unlinkFree_ok cr kvs1 didx kd1 l e Hw1 ltac:(lia)) as (kvs2 & Hfr & Hw2 & Hfl & Hn & Ha & Hq2); [|done..|].
  { rewrite HD. by apply list_lookup_insert_eq. }
  exists kvs2. split; [done|]. rewrite Hka, Hk in Ha. destruct HF. constructor; [done|congruence..|].
  intros _. apply Hq2. intros j kd' Hne. rewrite HD, list_lookup_insert_ne by done. apply Hq.
Qed.

(** * The two-step insertion of a stored key *)

Lemma located_clear d key r : located ty d key r -> located ty (clear_notes d) key r.
Proof. destruct r as [l|]; [|done]. intros (e & Hh & Hk). exists e. split; [by apply holds_clear|done]. Qed.

(** The link of the key, or the bucket it belongs to. *)
Lemma kv_findLink_ok cr kvs didx key :
  kv_wf kvs -> 0 <= didx < num_dicts kvs ->
  exists kvs1 r b, kvstoreDictFindLink ty cr kvs didx key true = Ok (kvs1, (r, b)) /\
    steps_to kvs kvs1 (kabs kvs) /\ key_count kvs1 = key_count kvs /\
    match dicts kvs1 !! Z.to_nat didx with
    | Some (Some kd) =>
        located ty (kd_dict kd) key r /\
        (r = None -> b = None \/ (b = Some (target_link ty (kd_dict kd) key) /\ ht_live ty (ht0 (kd_dict kd))))
    | _ => r = None /\ b = None
    end.
Proof.
  intros Hwf Hd. destruct (slot_at ty kvs didx (kw_books _ _ Hwf) Hd) as (s & Hg & Hs).
  unfold kvstoreDictFindLink. rewrite Hg. runr. destruct s as [kd|].
  2:{ exists kvs, None, None. rewrite Hs. split; [done|]. split; [by constructor|done]. }
  destruct (findLink_bucket ty cr _ key (cleared_wf _ _ _ Hwf Hs)) as (d' & r & b & Hf & Hm & Hloc & Hb).
  destruct (on_dict_maintains kvs didx kd Hwf ltac:(lia) Hs
    (fun d => let* (d, link, bucket) := dictFindLink ty cr d key true in Ok (d, (link, bucket))) d' (r, b))
    as (kvs1 & -> & Hst & (bn & HD)); [by rewrite Hf|done|].
  exists kvs1, r, b. split; [done|]. split; [done|].
  split; [by rewrite (key_count_sizes _ (st_wf _ _ _ Hst)), (st_abs _ _ _ Hst), key_count_sizes|].
  rewrite HD, list_lookup_insert_eq by by eapply lookup_lt_Some. split; [by apply located_clear|done].
Qed.

Lemma kv_setAtLink_new rawKey cr kvs didx sk b :
  kv_wf kvs -> 0 <= didx < num_dicts kvs -> key_count kvs + 1 < 2 ^ 64 ->
  let key := keyFromStoredKey ty sk in
  match dicts kvs !! Z.to_nat didx with
  | Some (Some kd) =>
      located ty (kd_dict kd) key None /\
      (b = None \/ (b = Some (target_link ty (kd_dict kd) key) /\ ht_live ty (ht0 (kd_dict kd))))
  | _ => b = None
  end ->
  exists kvs', kvstoreDictSetAtLink ty rawKey cr kvs didx sk b true = Ok kvs' /\
    steps_to kvs kvs' (set_at (kabs kvs) didx (<[key := (keyDup ty sk, None)]> (at_slot (kabs kvs) didx))).
Proof.
  intros Hwf Hd Hroom key Hb. unfold kvstoreDictSetAtLink.
  destruct (create_steps kvs didx Hwf Hd) as (kvs1 & kd & -> & Hst1 & Hkc & Hkd & Hold). runr.
  pose proof (st_wf _ _ _ Hst1) as Hwf1. pose proof (st_abs _ _ _ Hst1) as Ha1.
  assert (located ty (kd_dict kd) key None /\
    (b = None \/ (b = Some (target_link ty (kd_dict kd) key) /\ ht_live ty (ht0 (kd_dict kd))))) as [Hloc Hbb].
  { destruct (dicts kvs !! Z.to_nat didx) as [[kd0|]|] eqn:E.
    - rewrite (Hold kd0 eq_refl) in Hkd. by simplify_eq.
    - split; [|by left]. intros e He. assert (abs ty (clear_notes (kd_dict kd)) = ∅) as Hemp.
      { change (slot_abs ty (Some kd) = ∅). by rewrite <- (at_slot_slot _ _ _ Hkd), Ha1, (at_slot_slot _ _ _ E). }
      apply (f_equal (lookup (entry_key ty e))) in Hemp. rewrite (abs_elem ty _ _ (cleared_wf _ _ _ Hwf1 Hkd) He) in Hemp.
      by rewrite lookup_empty in Hemp.
    - apply lookup_lt_Some in Hkd. apply lookup_ge_None_1 in E. pose proof (kabs_len _ Hwf) as L0.
      unfold zlen, kabs in L0. rewrite length_map in L0. lia. }
  destruct (setKeyAtLink_insert ty rawKey cr (clear_notes (kd_dict kd)) sk b) as (d' & Hset & Hwf' & Hfr & Ha).
  { by eapply cleared_wf. }
  { apply (cleared_room _ _ _ Hwf1 Hkd). lia. }
  { done. }
  { done. }
  fold key in Ha. rewrite (cleared_abs _ _ _ Hkd), Ha1 in Ha.
  pose proof (abs_located ty _ key None (cleared_wf _ _ _ Hwf1 Hkd) Hloc) as Hn. simpl in Hn.
  rewrite (cleared_abs _ _ _ Hkd), Ha1 in Hn.
  destruct (on_dict_change kvs1 didx kd Hwf1 ltac:(lia) Hkd
    (fun d => let* d := dictSetKeyAtLink ty rawKey cr d sk b true in Ok (d, tt)) d' tt 1) as (kvs2 & kvs3 & -> & Hc & Hst2 & _).
  { by rewrite Hset. }
  { done. }
  { done. }
  { rewrite Ha, Ha1, map_size_insert_None by done. lia. }
  { by left. }
  { lia. }
  runr. rewrite Hc. exists kvs3. split; [done|]. rewrite Ha, Ha1 in Hst2. by eapply steps_trans.
Qed.

Lemma kv_setAtLink_old rawKey cr kvs didx kd sk l e :
  kv_wf kvs -> 0 <= didx -> dicts kvs !! Z.to_nat didx = Some (Some kd) ->
  let key := keyFromStoredKey ty sk in
  holds ty (kd_dict kd) l e -> entry_key ty e = key ->
  exists kvs', kvstoreDictSetAtLink ty rawKey cr kvs didx sk (Some l) false = Ok kvs' /\
    steps_to kvs kvs' (set_at (kabs kvs) didx (<[key := (keyDup ty sk, (content e).2)]> (at_slot (kabs kvs) didx))).
Proof.
  intros Hwf Hd Hkd key Hh%holds_clear Hk. unfold kvstoreDictSetAtLink. pose proof (cleared_wf _ _ _ Hwf Hkd) as Hdw.
  destruct (setKeyAtLink_update ty rawKey cr _ sk l e Hdw Hh Hk) as (d' & Hset & Hwf' & Hfr & Ha).
  pose proof (abs_elem ty _ _ Hdw (holds_elem ty _ _ _ Hh)) as Hl. rewrite Hk in Hl.
  fold key in Ha. rewrite (cleared_abs _ _ _ Hkd) in Ha, Hl.
  destruct (on_dict_update kvs didx kd Hwf Hd Hkd
    (fun d => let* d := dictSetKeyAtLink ty rawKey cr d sk (Some l) false in Ok (d, tt)) d' tt) as (kvs' & -> & Hst & _).
  - by rewrite Hset.
  - done.
  - done.
  - by rewrite Ha, map_size_insert, Hl.
  - exists kvs'. split; [done|]. by rewrite <- Ha.
Qed.

(** Finding the link of a key and setting it there, as a new item or not. *)
Lemma kv_set_ok rawKey cr kvs didx sk :
  kv_wf kvs -> 0 <= didx < num_dicts kvs -> key_count kvs + 1 < 2 ^ 64 ->
  let key := keyFromStoredKey ty sk in
  let a := at_slot (kabs kvs) didx in
  exists kvs1 r b kvs2, kvstoreDictFindLink ty cr kvs didx key true = Ok (kvs1, (r, b)) /\
    kvstoreDictSetAtLink ty rawKey cr kvs1 didx sk (match r with Some l => Some l | None => b end)
      (bool_decide (r = None)) = Ok kvs2 /\
    steps_to kvs kvs2 (set_at (kabs kvs) didx
      (<[key := (keyDup ty sk, match a !! key with Some c => c.2 | None => None end)]> a)).
Proof.
  intros Hwf Hd Hroom key a. destruct (kv_findLink_ok cr kvs didx key Hwf Hd) as (kvs1 & r & b & Hf & Hst1 & Hkc & Hr).
  pose proof (st_wf _ _ _ Hst1) as Hwf1. pose proof (st_abs _ _ _ Hst1) as Ha1.
  destruct (slot_at ty kvs1 didx (kw_books _ _ Hwf1)) as (s & _ & Hs); [by rewrite (st_num _ _ _ Hst1)|].
  exists kvs1, r, b. rewrite Hs in Hr.
  assert (forall kd, s = Some kd -> abs ty (kd_dict kd) = a) as Hab.
  { intros kd ->. unfold a. by rewrite <- Ha1, (at_slot_slot _ _ _ Hs). }
  destruct r as [l|].
  - destruct s as [kd|]; [|by destruct Hr]. destruct Hr as [Hloc _].
    destruct Hloc as (e0 & Hh & Hk).
    pose proof (abs_elem ty _ _ (cleared_wf _ _ _ Hwf1 Hs) (holds_elem ty _ _ _ (holds_clear _ _ _ Hh))) as Hl.
    change (abs ty (clear_notes (kd_dict kd))) with (abs ty (kd_dict kd)) in Hl. rewrite (Hab kd eq_refl), Hk in Hl.
    destruct (kv_setAtLink_old rawKey cr kvs1 didx kd sk l e0 Hwf1 ltac:(lia) Hs Hh Hk) as (kvs2 & Hset & Hst2).
    exists kvs2. split; [done|]. split; [done|]. fold key in Hst2. rewrite Ha1 in Hst2. fold a in Hst2.
    rewrite Hl. by eapply steps_trans.
  - assert (a !! key = None) as Hn.
    { destruct s as [kd|].
      - destruct Hr as [Hloc _].
        pose proof (abs_located ty _ key None (cleared_wf _ _ _ Hwf1 Hs) Hloc) as Hn. simpl in Hn.
        rewrite <- (Hab kd eq_refl). exact Hn.
      - unfold a. rewrite <- Ha1, (at_slot_slot _ _ _ Hs). apply lookup_empty. }
    destruct (kv_setAtLink_new rawKey cr kvs1 didx sk b Hwf1) as (kvs2 & Hset & Hst2).
    { by rewrite (st_num _ _ _ Hst1). }
    { by rewrite Hkc. }
    { rewrite Hs. destruct s as [kd|]; [|by destruct Hr]. destruct Hr as [Hloc Hb]. split; [done|by apply Hb]. }
    exists kvs2. split; [done|]. split; [done|]. fold key in Hst2. rewrite Ha1 in Hst2. fold a in Hst2.
    rewrite Hn. by eapply steps_trans.
Qed.
End kvstore_ops.
