(* ===== verification/KvstoreLoops.v ===== *)
(** KvstoreLoops: the operations of the array of dictionaries that walk over
    its slots (creation, emptying, expansion, resizing), and its searches by
    count, against [nth_slot] and [next_slot] on the list of sizes. *)

From Stdlib Require Import ZArith Lia Bool.
From S2P Require Import Prelude Bytes Fenwick Dict DictProofs DictOps Kvstore KvstoreProofs KvstoreOps.
From stdpp Require Import base list numbers decidable gmap.

Local Open Scope Z_scope.

(** * Searches in a list of sizes *)

(** The slot that holds the [target]-th key, counting from 1. *)
Fixpoint nth_slot (ss : list Z) (target : Z) : Z :=
  match ss with
  | [] => 0
  | s :: ss => if target <=? s then 0 else 1 + nth_slot ss (target - s)
  end.

(** The first slot of a non-zero size, -1 if there is none. *)
Fixpoint first_slot (ss : list Z) : Z :=
  match ss with
  | [] => -1
  | s :: ss => if s =? 0 then (let r := first_slot ss in if r =? -1 then -1 else 1 + r) else 0
  end.

(** The first slot of a non-zero size after [i]. *)
Definition next_slot (ss : list Z) (i : Z) : Z :=
  let r := first_slot (drop (Z.to_nat (i + 1)) ss) in if r =? -1 then -1 else i + 1 + r.

Lemma psum_cons s ss n : 0 < n -> psum (s :: ss) n = s + psum ss (n - 1).
Proof.
  intros Hn. unfold psum. replace (Z.to_nat n) with (S (Z.to_nat (n - 1))) by lia. done.
Qed.

Lemma nth_slot_unique ss target p :
  Forall (fun v => 0 <= v) ss -> 0 <= p < zlen ss -> psum ss p < target <= psum ss (p + 1) ->
  nth_slot ss target = p.
Proof.
  revert target p. induction ss as [|s ss IH]; intros target p Hf Hp Ht.
  { change (zlen (@nil Z)) with 0 in Hp. lia. }
  apply list.Forall_cons in Hf as [Hs Hf]. rewrite zlen_cons in Hp. simpl.
  rewrite (psum_cons s ss (p + 1)), Z.add_simpl_r in Ht by lia. destruct (Z.eq_dec p 0) as [->|Hne].
  - change (psum ss 0) with 0 in Ht. dec_bool. done.
  - rewrite psum_cons in Ht by lia. pose proof (psum_range ss (p - 1) Hf). dec_bool.
    rewrite (IH (target - s) (p - 1)); [lia|done|lia|]. replace (p - 1 + 1) with p by lia. lia.
Qed.

Lemma first_slot_unique ss p v :
  0 <= p -> ss !! Z.to_nat p = Some v -> v <> 0 -> (forall q, 0 <= q < p -> ss !! Z.to_nat q = Some 0) ->
  first_slot ss = p.
Proof.
  revert p. induction ss as [|s ss IH]; intros p Hp Hv Hnz Hz; [done|]. simpl.
  destruct (Z.eq_dec p 0) as [->|Hne].
  - simpl in Hv. simplify_eq. dec_bool. done.
  - pose proof (Hz 0 ltac:(lia)) as H0. simpl in H0. simplify_eq. simpl.
    rewrite (IH (p - 1)); [|lia| |done|].
    + dec_bool. lia.
    + replace (Z.to_nat p) with (S (Z.to_nat (p - 1))) in Hv by lia. done.
    + intros q Hq. specialize (Hz (q + 1) ltac:(lia)). by replace (Z.to_nat (q + 1)) with (S (Z.to_nat q)) in Hz by lia.
Qed.

Lemma first_slot_none ss : Forall (fun v => v = 0) ss -> first_slot ss = -1.
Proof. induction 1 as [|s ss -> _ IH]; [done|]. simpl. by rewrite IH. Qed.

Lemma next_slot_unique ss i p :
  0 <= i < zlen ss ->
  (p = -1 /\ forall q, i < q < zlen ss -> ss !! Z.to_nat q = Some 0) \/
  (i < p < zlen ss /\ (exists v, ss !! Z.to_nat p = Some v /\ 0 < v) /\
   forall q, i < q < p -> ss !! Z.to_nat q = Some 0) ->
  next_slot ss i = p.
Proof.
  intros Hi Hp. unfold next_slot. destruct Hp as [[-> Hz]|(Hp & (v & Hv & Hpos) & Hz)].
  - rewrite first_slot_none; [done|]. apply list.Forall_lookup. intros j x. rewrite lookup_drop. intros Hx.
    pose proof (lookup_lt_Some _ _ _ Hx). specialize (Hz (i + 1 + Z.of_nat j)).
    replace (Z.to_nat (i + 1 + Z.of_nat j)) with (Z.to_nat (i + 1) + j)%nat in Hz by lia.
    rewrite Hx in Hz. unfold zlen in *. by simplify_eq (Hz ltac:(lia)).
  - rewrite (first_slot_unique _ (p - i - 1) v); [dec_bool; lia|lia| |lia|].
    + rewrite lookup_drop. by replace (Z.to_nat (i + 1) + Z.to_nat (p - i - 1))%nat with (Z.to_nat p) by lia.
    + intros q Hq. rewrite lookup_drop.
      replace (Z.to_nat (i + 1) + Z.to_nat q)%nat with (Z.to_nat (i + 1 + q)) by lia. apply Hz. lia.
Qed.

Lemma nth_first ss : Forall (fun v => 0 <= v) ss -> 1 <= zsum ss -> nth_slot ss 1 = first_slot ss.
Proof.
  induction 1 as [|s ss Hs _ IH]; [done|]. intros Hz. simpl. unfold zsum in Hz, IH. simpl in Hz.
  destruct (Z.eqb_spec s 0) as [->|Hne]; [|by dec_bool]. dec_bool. rewrite Z.sub_0_r, IH by lia.
  destruct (Z.eqb_spec (first_slot ss) (-1)) as [E|]; [|done].
  rewrite <- IH in E by lia. exfalso. clear -E.
  assert (forall l t, 0 <= nth_slot l t) as Hn.
  { induction l as [|x l IH]; intros t; simpl; [lia|]. destruct (t <=? x); [lia|]. specialize (IH (t - x)). lia. }
  specialize (Hn ss 1). lia.
Qed.

Section kvstore_loops.
Context {K SK V : Type} `{Countable K}.
Context (ty : dictType K SK V) {laws : DictTypeLaws ty}.
Context (canFreeDict : option (kvstore SK V -> Z -> bool)).
Local Abbreviation entry := (dictEntry SK V).
Local Abbreviation dict := (dict SK V).
Local Abbreviation kvdict := (kvdict SK V).
Local Abbreviation kvstore := (kvstore SK V).
Local Abbreviation amap := (gmap K (SK * option V)).
Local Abbreviation kabs := (kabs ty).
Local Abbreviation kv_wf := (kv_wf ty).
Local Abbreviation steps_to := (steps_to ty).

(** * Searches *)

Lemma kv_tree kvs :
  kv_wf kvs -> num_dicts kvs <> 1 ->
  exists ft, dict_sizes kvs = Some ft /\ represents ft (sizes (kabs kvs)) /\ Fenwick.size ft = num_dicts kvs.
Proof.
  intros [HB HC] Hn. destruct (kc_tree _ _ HC Hn) as (ft & Hft & Hr). rewrite (slot_sizes ty kvs HB) in Hr.
  exists ft. split_and!; [done|done|]. rewrite <- (rep_len _ _ Hr). unfold sizes, KvstoreProofs.kabs.
  rewrite <- (kb_len _ _ HB). unfold zlen. by rewrite !length_map.
Qed.

Lemma sizes_len kvs : kv_wf kvs -> zlen (sizes (kabs kvs)) = num_dicts kvs.
Proof. intros Hwf. rewrite <- (kabs_len ty kvs Hwf). unfold zlen, sizes. by rewrite length_map. Qed.

Lemma one_slot kvs : kv_wf kvs -> num_dicts kvs = 1 -> exists s, sizes (kabs kvs) = [s] /\ 0 <= s.
Proof.
  intros Hwf Hn. pose proof (sizes_len kvs Hwf) as Hl. rewrite Hn in Hl.
  pose proof (sizes_nonneg (kabs kvs)) as Hf. destruct (sizes (kabs kvs)) as [|s [|s' l]] eqn:E.
  - by change (zlen (@nil Z)) with 0 in Hl.
  - exists s. split; [done|]. by apply list.Forall_cons in Hf as [? _].
  - rewrite !zlen_cons in Hl. pose proof (zlen_nonneg l). lia.
Qed.

Lemma kv_nth_ok kvs target :
  kv_wf kvs -> 1 <= target <= zsum (sizes (kabs kvs)) ->
  kvstoreFindDictIndexByKeyIndex kvs target = Ok (nth_slot (sizes (kabs kvs)) target).
Proof.
  intros Hwf Ht. unfold kvstoreFindDictIndexByKeyIndex, kvstoreSize. rewrite (key_count_sizes ty kvs Hwf).
  destruct (Z.eqb_spec (num_dicts kvs) 1) as [E|E].
  - destruct (one_slot kvs Hwf E) as (s & Hs & _). rewrite Hs in *. unfold zsum in Ht. simpl in *. dec_bool. done.
  - dec_bool. runr. destruct (kv_tree kvs Hwf E) as (ft & Hft & Hr & Hsz). unfold the_tree. rewrite Hft. runr.
    destruct (find_index_ok ft _ Hr target Ht) as (p & -> & Hp & Hlt). f_equal. symmetry.
    apply nth_slot_unique; [apply sizes_nonneg| |done]. by rewrite (rep_len _ _ Hr).
Qed.

Lemma kv_first_ok kvs :
  kv_wf kvs -> kvstoreGetFirstNonEmptyDictIndex kvs = Ok (first_slot (sizes (kabs kvs))).
Proof.
  intros Hwf. unfold kvstoreGetFirstNonEmptyDictIndex, kvstoreSize. rewrite (key_count_sizes ty kvs Hwf).
  pose proof (sizes_nonneg (kabs kvs)) as Hf. pose proof (zsum_nonneg _ Hf) as Hnn.
  destruct (Z.eqb_spec (zsum (sizes (kabs kvs))) 0) as [Ez|Ez].
  - rewrite first_slot_none; [done|]. apply list.Forall_lookup. intros i x Hx.
    pose proof (zsum_insert _ i x 0 Hx) as Hz. pose proof (list.Forall_lookup_1 _ _ _ _ Hf Hx).
    assert (Forall (fun v => 0 <= v) (<[i := 0]> (sizes (kabs kvs)))) as Hf2 by by apply list.Forall_insert.
    pose proof (zsum_nonneg _ Hf2). simpl in *. lia.
  - destruct (Z.eqb_spec (num_dicts kvs) 1) as [E|E].
    + destruct (one_slot kvs Hwf E) as (s & Hs & Hs0). rewrite Hs in *. unfold zsum in Ez. simpl in *. dec_bool. done.
    + destruct (kv_tree kvs Hwf E) as (ft & Hft & Hr & Hsz). unfold the_tree. rewrite Hft. runr.
      unfold fwTreeFindFirstNonEmpty. destruct (find_index_ok ft _ Hr 1 ltac:(lia)) as (p & -> & Hp & Hlt).
      rewrite <- nth_first by (done || lia). f_equal. symmetry. apply nth_slot_unique; [done| |done].
      by rewrite (rep_len _ _ Hr).
Qed.

Lemma kv_next_ok kvs didx :
  kv_wf kvs -> zsum (sizes (kabs kvs)) < 2 ^ 64 - 1 -> 0 <= didx < num_dicts kvs ->
  kvstoreGetNextNonEmptyDictIndex kvs didx = Ok (next_slot (sizes (kabs kvs)) didx).
Proof.
  intros Hwf Hw Hd. unfold kvstoreGetNextNonEmptyDictIndex. destruct (Z.eqb_spec (num_dicts kvs) 1) as [E|E].
  - replace didx with 0 by lia. destruct (one_slot kvs Hwf E) as (s & -> & _). done.
  - destruct (kv_tree kvs Hwf E) as (ft & -> & Hr & Hsz).
    destruct (fwTreeFindNextNonEmpty_correct ft _ didx Hr Hw) as (p & -> & Hp); [by rewrite Hsz|].
    f_equal. symmetry. rewrite Hsz, <- (sizes_len kvs Hwf) in Hp. apply next_slot_unique; [|done].
    by rewrite sizes_len.
Qed.

(** * Expansion and resizing *)

Lemma kv_dictExpand_ok cr kvs didx n :
  kv_wf kvs -> 0 <= didx < num_dicts kvs -> 0 <= n < 2 ^ 64 ->
  exists kvs' ok, kvstoreDictExpand ty cr kvs didx n = Ok (kvs', ok) /\ steps_to kvs kvs' (kabs kvs).
Proof.
  intros Hwf Hd Hn. unfold kvstoreDictExpand.
  destruct (create_steps ty kvs didx Hwf Hd) as (kvs1 & kd & -> & Hst1 & _ & Hkd & _). runr.
  pose proof (st_wf _ _ _ _ Hst1) as Hwf1.
  destruct (expand_ok ty cr _ n None (cleared_wf ty _ _ _ Hwf1 Hkd) Hn) as (d' & ok & mf & He & Hm & _).
  destruct (on_dict_maintains ty kvs1 didx kd Hwf1 ltac:(lia) Hkd (fun d => dictExpand ty cr d n) d' ok) as (kvs2 & -> & Hst2 & _).
  - unfold dictExpand. by rewrite He.
  - done.
  - exists kvs2, ok. split; [done|]. rewrite (st_abs _ _ _ _ Hst1) in Hst2. by eapply steps_trans.
Qed.

Lemma kv_expand_loop cr newsize try_expand alloc_ok skip_cb n : forall i kvs,
  kv_wf kvs -> 0 <= i -> i + Z.of_nat n <= num_dicts kvs -> 0 <= newsize < 2 ^ 64 ->
  exists kvs' ok, expand_loop ty cr n i newsize try_expand alloc_ok skip_cb kvs = Ok (kvs', ok) /\
    steps_to kvs kvs' (kabs kvs) /\
    (try_expand = false \/ (forall j, alloc_ok j = true) -> ok = true).
Proof.
  induction n as [|n IH]; intros i kvs Hwf Hi Hn Hs; cbn [expand_loop].
  { exists kvs, true. split_and!; try done. }
  destruct (skip_cb i); [by apply IH; try done; lia|].
  destruct (create_steps ty kvs i Hwf) as (kvs1 & kd & -> & Hst1 & _ & Hkd & _); [lia|]. runr.
  pose proof (st_wf _ _ _ _ Hst1) as Hwf1.
  destruct (expand_ok ty cr _ newsize (if try_expand then Some (alloc_ok i) else None) (cleared_wf ty _ _ _ Hwf1 Hkd) Hs)
    as (d' & ok & mf & He & Hm & _).
  destruct (on_dict_maintains ty kvs1 i kd Hwf1 Hi Hkd (fun d =>
    if try_expand then dictTryExpand ty cr d newsize (alloc_ok i) else dictExpand ty cr d newsize)
    d' (if try_expand then negb mf else ok)) as (kvs2 & -> & Hst2 & _).
  { unfold dictTryExpand, dictExpand. destruct try_expand; by rewrite He. }
  { done. }
  runr. rewrite (st_abs _ _ _ _ Hst1) in Hst2. pose proof (steps_trans _ _ _ _ _ _ Hst1 Hst2) as Hst.
  destruct (try_expand && negb (if try_expand then negb mf else ok)) eqn:Et.
  - exists kvs2, false. split_and!; try done. apply andb_true_iff in Et as [-> Et]. intros [?|Hal]; [done|].
    rewrite negb_involutive in Et. subst mf. exfalso. rewrite Hal in He. revert He. unfold _dictExpand, _dictResize, guardr, bindr.
    repeat case_match; intros; simplify_eq.
  - destruct (IH (i + 1) kvs2) as (kvs3 & ok3 & -> & Hst3 & Hok3); [apply Hst|lia|rewrite (st_num _ _ _ _ Hst); lia|done|].
    exists kvs3, ok3. split; [done|]. split; [|done]. rewrite (st_abs _ _ _ _ Hst) in Hst3. by eapply steps_trans.
Qed.

Lemma wf_set_cursor kvs c : kv_wf kvs -> 0 <= c < num_dicts kvs -> kv_wf (set_resize_cursor kvs c).
Proof. intros [[? ? ? ? ? [] ? ?] []] Hc. constructor; constructor; done. Qed.

Lemma kv_resize_loop cr n : forall kvs,
  kv_wf kvs ->
  exists kvs', try_resize_loop ty cr n kvs = Ok kvs' /\ steps_to kvs kvs' (kabs kvs) /\
    resize_cursor kvs' = (resize_cursor kvs + Z.of_nat n) mod num_dicts kvs.
Proof.
  induction n as [|n IH]; intros kvs Hwf; pose proof (kb_cursor _ _ (kw_books _ _ Hwf)) as Hc; cbn [try_resize_loop].
  { exists kvs. split; [done|]. split; [by constructor|]. rewrite Z.add_0_r, Z.mod_small by lia. done. }
  set (didx := resize_cursor kvs) in *. pose proof (num_dicts_range ty kvs (kw_books _ _ Hwf)) as Hr.
  destruct (slot_at ty kvs didx (kw_books _ _ Hwf) Hc) as (s & -> & Hs). runr.
  assert (exists kvs1, (match s with
      | Some _ => let* (kvs, _) := on_dict kvs didx (resize_dict ty cr) in Ok kvs
      | None => Ok kvs end) = Ok kvs1 /\ steps_to kvs kvs1 (kabs kvs)) as (kvs1 & -> & Hst).
  { destruct s as [kd|]; [|exists kvs; split; [done|by constructor]].
    destruct (shrinkIfNeeded_ok ty cr _ (cleared_wf ty _ _ _ Hwf Hs)) as (d1 & b1 & H1 & Hm1).
    destruct (expandIfNeeded_ok ty cr d1 (mt_wf _ _ _ Hm1)) as (d2 & b2 & H2 & Hm2 & _).
    destruct (on_dict_maintains ty kvs didx kd Hwf ltac:(lia) Hs (resize_dict ty cr) (if b1 then d1 else d2) tt)
      as (kvs1 & -> & Hst & _).
    - unfold resize_dict. rewrite H1. runr. destruct b1; [done|]. by rewrite H2.
    - destruct b1; [done|by eapply maintains_trans].
    - by exists kvs1. }
  runr. set (c := i32 ((didx + 1) mod num_dicts kvs1)).
  pose proof (Z.mod_pos_bound (didx + 1) (num_dicts kvs)) as Hmod.
  assert (c = (didx + 1) mod num_dicts kvs) as Hce.
  { unfold c. rewrite (st_num _ _ _ _ Hst). apply wrapS_small; simpl; lia. }
  assert (steps_to kvs (set_resize_cursor kvs1 c) (kabs kvs)) as Hst1.
  { destruct Hst as [Hw Hfl Hn Ha Hq]. constructor; try done. apply wf_set_cursor; [done|]. rewrite Hn, Hce. lia. }
  destruct (IH (set_resize_cursor kvs1 c)) as (kvs2 & -> & Hst2 & Hc2); [apply Hst1|].
  exists kvs2. split; [done|]. split; [rewrite (st_abs _ _ _ _ Hst1) in Hst2; by eapply steps_trans|].
  rewrite Hc2. simpl. rewrite (st_num _ _ _ _ Hst), Hce, Zplus_mod_idemp_l. f_equal. lia.
Qed.

(** * Creation and emptying *)

Definition fresh_kd : kvdict := {| kd_dict := dictCreate; kd_rehashing_node := false |}.

(** A slot without keys whose dictionary, if any, has no table. *)
Definition blank (s : option kvdict) : Prop := s = None \/ s = Some fresh_kd.

(** The slots before [done] are blank. *)
Record kv_shape (done : Z) (kvs : kvstore) : Prop := {
  sh_num : 1 <= num_dicts kvs <= 2 ^ 16;
  sh_len : zlen (dicts kvs) = num_dicts kvs;
  sh_alloc : allocated_dicts kvs = zsum (map slot_alloc (dicts kvs));
  sh_done : forall i s, Z.of_nat i < done -> dicts kvs !! i = Some s -> blank s;
}.

Record same_rest (a b : kvstore) : Prop := {
  sr_flags : flags b = flags a;
  sr_num : num_dicts b = num_dicts a;
  sr_bits : num_dicts_bits b = num_dicts_bits a;
  sr_tree : dict_sizes b = dict_sizes a;
}.

Lemma same_rest_trans a b c : same_rest a b -> same_rest b c -> same_rest a c.
Proof. intros [] []. constructor; congruence. Qed.

Lemma frame_rest a b : kv_frame a b -> same_rest a b.
Proof. intros []. by constructor. Qed.

Lemma shape_alloc done kvs : kv_shape done kvs -> 0 <= allocated_dicts kvs <= 2 ^ 16.
Proof.
  intros [Hn Hl Ha _]. rewrite Ha.
  pose proof (zsum_map_bounds slot_alloc (dicts kvs) ltac:(intros []; simpl; lia)). lia.
Qed.

(** Slot [i] has become blank. *)
Lemma shape_step i kvs kvs' s s' :
  kv_shape i kvs -> 0 <= i -> dicts kvs !! Z.to_nat i = Some s -> same_rest kvs kvs' ->
  dicts kvs' = <[Z.to_nat i := s']> (dicts kvs) -> blank s' ->
  allocated_dicts kvs' = allocated_dicts kvs - slot_alloc s + slot_alloc s' -> kv_shape (i + 1) kvs'.
Proof.
  intros [Hn Hl Ha Hd] Hi Hs [] HD Hb Hal. constructor.
  - congruence.
  - rewrite HD, zlen_insert. congruence.
  - rewrite HD, (zsum_map_insert _ _ _ _ _ Hs). lia.
  - intros j x Hj. rewrite HD. destruct (decide (j = Z.to_nat i)) as [->|Hne].
    + rewrite list_lookup_insert_eq by by eapply lookup_lt_Some. intros. by simplify_eq.
    + rewrite list_lookup_insert_ne by done. apply Hd. lia.
Qed.

(** Closing callbacks of a dictionary without a node change no slot. *)
Lemma closing_callbacks didx (kvs : kvstore) (d : dict) :
  has_node kvs didx = false ->
  dicts (callbacks didx kvs (closing_notes d)) = dicts kvs /\ kv_frame kvs (callbacks didx kvs (closing_notes d)).
Proof.
  intros Hn. unfold closing_notes, callbacks. rewrite foldl_app. destruct (dictIsRehashing d); simpl; [|done].
  unfold kvstoreDictRehashingCompleted. rewrite Hn. done.
Qed.

Lemma createDict_shape kvs i :
  kv_shape i kvs -> dicts kvs !! Z.to_nat i = Some None -> 0 <= i ->
  exists kvs', createDictIfNeeded kvs i = Ok kvs' /\ kv_shape (i + 1) kvs' /\ same_rest kvs kvs' /\
    kv_frame (set_allocated kvs (allocated_dicts kvs')) kvs' /\ dicts kvs' = <[Z.to_nat i := Some fresh_kd]> (dicts kvs) /\
    (rehashing kvs', bucket_count kvs', overhead_hashtable_rehashing kvs') =
    (rehashing kvs, bucket_count kvs, overhead_hashtable_rehashing kvs).
Proof.
  intros Hsh Hs Hi. unfold createDictIfNeeded. rewrite (get_slot _ _ _ Hi Hs). runr.
  pose proof (shape_alloc _ _ Hsh). rewrite chk_i32_ok by (simpl; lia). runr.
  eexists. split; [done|]. split_and!; try done.
  eapply shape_step; [done|done|exact Hs|done|done|by right|]. simpl. lia.
Qed.

Lemma freeDict_blank kvs i :
  kv_shape i kvs -> 0 <= i -> kv_shape (i + 1) kvs -> dicts kvs !! Z.to_nat i = Some (Some fresh_kd) ->
  exists kvs', freeDictIfNeeded canFreeDict kvs i = Ok kvs' /\ kv_shape (i + 1) kvs' /\ same_rest kvs kvs'.
Proof.
  intros Hsh Hi Hsh1 Hs.
  assert (exists kvs', Ok kvs = Ok kvs' /\ kv_shape (i + 1) kvs' /\ same_rest kvs kvs') as Hsame
    by (exists kvs; by split_and!).
  unfold freeDictIfNeeded. destruct (negb (kvs_flag _ _)); [done|]. rewrite (get_slot _ _ _ Hi Hs). runr.
  unfold kvstoreDictSize, kvstoreDictIsRehashingPaused. rewrite (get_slot _ _ _ Hi Hs). runr.
  destruct (negb _); [done|]. destruct (_ >? 0); [done|].
  destruct (match canFreeDict with Some f => _ | None => _ end); [done|].
  rewrite dictRelease_eq.
  change (notes (clear_notes (kd_dict fresh_kd)) ++ closing_notes (clear_notes (kd_dict fresh_kd)))
    with (closing_notes (dictCreate : dict)).
  destruct (closing_callbacks i kvs dictCreate) as [HD HF]; [unfold has_node; by rewrite Hs|].
  pose proof (shape_alloc _ _ Hsh). change (allocated_dicts (set_slot ?k ?a ?b)) with (allocated_dicts k).
  rewrite (fr_alloc _ _ HF), chk_i32_ok by lia. runr. eexists. split; [done|].
  match goal with |- kv_shape _ ?k /\ _ => assert (same_rest kvs k) as Hsr end.
  { apply frame_rest in HF. by destruct HF; constructor. }
  split; [|done]. eapply (shape_step i kvs _ _ None); [done|done|exact Hs|done| |by left|].
  - cbn [set_allocated set_slot dicts]. by rewrite HD.
  - simpl. lia.
Qed.

Lemma empty_dict_shape kvs i :
  kv_shape i kvs -> 0 <= i < num_dicts kvs ->
  exists kvs', empty_dict canFreeDict kvs i = Ok kvs' /\ kv_shape (i + 1) kvs' /\ same_rest kvs kvs'.
Proof.
  intros Hsh Hi. unfold empty_dict.
  destruct (rd1_ok (dicts kvs) i) as (s & Hrd & Hs); [by rewrite (sh_len _ _ Hsh)|].
  unfold kvstoreGetDict. rewrite Hrd. runr. pose proof (lookup_lt_Some _ _ _ Hs) as Hlt. destruct s as [kd|].
  2:{ exists kvs. split; [done|]. split; [|done]. eapply shape_step; [done|lia|exact Hs|done| |by left|].
      - symmetry. by apply list_insert_id.
      - simpl. lia. }
  unfold set_node. rewrite Hs. set (kvs1 := set_slot kvs i _).
  assert (dicts kvs1 !! Z.to_nat i = Some (Some {| kd_dict := kd_dict kd; kd_rehashing_node := false |})) as Hs1
    by by apply list_lookup_insert_eq.
  unfold on_dict. rewrite (get_slot kvs1 i _ (proj1 Hi) Hs1). runr. rewrite dictEmpty_eq. runr.
  cbn [notes clear_notes app kd_rehashing_node kd_dict].
  set (d0 := clear_notes (kd_dict kd)). set (kvs2 := set_slot kvs1 i _).
  assert (dicts kvs2 = <[Z.to_nat i := Some fresh_kd]> (dicts kvs)) as HD2.
  { unfold kvs2, kvs1. simpl. by rewrite list_insert_insert_eq. }
  destruct (closing_callbacks i kvs2 d0) as [HD HF].
  { unfold has_node. rewrite HD2. by rewrite list_lookup_insert_eq. }
  set (kvs3 := callbacks i kvs2 (closing_notes d0)) in *. rewrite HD2 in HD.
  assert (same_rest kvs kvs3) as Hsr by (eapply same_rest_trans; [|by apply frame_rest]; done).
  assert (kv_shape (i + 1) kvs3) as Hsh3.
  { eapply shape_step; [exact Hsh|lia|exact Hs|exact Hsr|exact HD|by right|]. rewrite (fr_alloc _ _ HF). simpl. lia. }
  destruct (freeDict_blank kvs3 i) as (kvs4 & -> & Hsh4 & Hsr4).
  - destruct Hsh3. constructor; try done. intros j x Hj. apply sh_done0. lia.
  - lia.
  - done.
  - rewrite HD. by apply list_lookup_insert_eq.
  - exists kvs4. split_and!; try done. by eapply same_rest_trans.
Qed.

Lemma empty_loop_shape n : forall i kvs,
  kv_shape i kvs -> 0 <= i -> i + Z.of_nat n = num_dicts kvs ->
  exists kvs', for_dicts n i (empty_dict canFreeDict) kvs = Ok kvs' /\ kv_shape (num_dicts kvs) kvs' /\ same_rest kvs kvs'.
Proof.
  induction n as [|n IH]; intros i kvs Hsh Hi Hn; cbn [for_dicts].
  { exists kvs. split; [done|]. split; [|done]. by replace (num_dicts kvs) with i by lia. }
  destruct (empty_dict_shape kvs i Hsh) as (kvs1 & -> & Hsh1 & Hsr); [lia|]. runr.
  destruct (IH (i + 1) kvs1 Hsh1) as (kvs2 & -> & Hsh2 & Hsr2); [lia|rewrite (sr_num _ _ Hsr); lia|].
  exists kvs2. split; [done|]. rewrite (sr_num _ _ Hsr) in Hsh2. split; [done|by eapply same_rest_trans].
Qed.

(** What the counters are when nothing is stored. *)
Definition zeroed (kvs : kvstore) : Prop :=
  rehashing kvs = [] /\ bucket_count kvs = 0 /\ overhead_hashtable_rehashing kvs = 0 /\ resize_cursor kvs = 0.

Lemma blank_map {B} (f : option kvdict -> B) c kvs :
  kv_shape (num_dicts kvs) kvs -> f None = c -> f (Some fresh_kd) = c ->
  map f (dicts kvs) = replicate (Z.to_nat (num_dicts kvs)) c.
Proof.
  intros [Hn Hl _ Hd] E1 E2. apply list_eq. intros i. change (map f (dicts kvs)) with (f <$> dicts kvs).
  rewrite list_lookup_fmap. destruct (dicts kvs !! i) as [s|] eqn:E.
  - pose proof (lookup_lt_Some _ _ _ E) as Hlt. unfold zlen in Hl. rewrite lookup_replicate_2 by lia.
    simpl. f_equal. destruct (Hd i s) as [-> | ->]; [lia|done..].
  - apply lookup_ge_None_1 in E. unfold zlen in Hl. symmetry. apply lookup_ge_None_2. rewrite length_replicate. lia.
Qed.

Lemma blank_wf kvs :
  kv_shape (num_dicts kvs) kvs -> zeroed kvs -> 0 <= num_dicts_bits kvs <= 16 ->
  num_dicts kvs = 2 ^ num_dicts_bits kvs -> key_count kvs = 0 -> non_empty_dicts kvs = 0 ->
  (num_dicts kvs = 1 -> dict_sizes kvs = None) ->
  (num_dicts kvs <> 1 -> exists ft, dict_sizes kvs = Some ft /\ represents ft (replicate (Z.to_nat (num_dicts kvs)) 0)) ->
  kv_wf kvs /\ quiet kvs /\ kabs kvs = replicate (Z.to_nat (num_dicts kvs)) ∅.
Proof.
  intros Hsh (Z1 & Z2 & Z3 & Z4) Hb Hn Hk Hne H1 Ht.
  assert (forall i kd, dicts kvs !! i = Some (Some kd) -> kd = fresh_kd) as Hfresh.
  { intros i kd Hi. pose proof (lookup_lt_Some _ _ _ Hi). pose proof (sh_len _ _ Hsh) as Hl. unfold zlen in Hl.
    destruct (sh_done _ _ Hsh i (Some kd)) as [?|?]; [lia|done|done|by simplify_eq]. }
  split; [|split; [intros i kd Hi; by rewrite (Hfresh i kd Hi)|by apply blank_map]].
  assert (forall m, zsum (map fst (replicate m ((0, None) : ledger))) = 0 /\
    zsum (map from_of (replicate m (0, None))) = 0) as Hzero.
  { intros m. split; apply zsum_map_zero, Forall_replicate; done. }
  constructor.
  - constructor; try done.
    + apply Hsh.
    + intros i kd Hi. rewrite (Hfresh i kd Hi). apply dictCreate_ok.
    + apply Hsh.
    + rewrite (blank_map slot_book (0, None)) by done. constructor.
      * rewrite length_replicate. pose proof (sh_len _ _ Hsh). unfold zlen in *. lia.
      * rewrite (proj1 (Hzero _)), Z2. done.
      * rewrite (proj2 (Hzero _)), Z3. done.
      * rewrite Z1. constructor.
      * rewrite Z1. constructor.
      * intros i. rewrite Z1. split; [by intros ?%not_elem_of_nil|].
        intros (g & [-> _]%lookup_replicate & [? ?]). done.
      * intros i kd g Hi [-> _]%lookup_replicate. by rewrite (Hfresh i kd Hi).
    + rewrite Z4. pose proof (sh_num _ _ Hsh). lia.
    + intros i kd Hi. by rewrite (Hfresh i kd Hi).
  - rewrite (blank_map slot_size 0) by done. constructor; rewrite ?zsum_zeros; try done.
    + by apply Forall_replicate.
    + rewrite Hne. symmetry. by apply zsum_map_zero, Forall_replicate.
Qed.

Lemma kv_empty_ok kvs :
  kv_wf kvs ->
  exists kvs', kvstoreEmpty canFreeDict kvs = Ok kvs' /\
    steps_to kvs kvs' (replicate (Z.to_nat (num_dicts kvs)) ∅) /\ quiet kvs'.
Proof.
  intros [HB HC]. pose proof (num_dicts_range ty kvs HB) as Hr. unfold kvstoreEmpty.
  destruct (empty_loop_shape (Z.to_nat (num_dicts kvs)) 0 kvs) as (kvs1 & -> & Hsh & [F N B T]).
  { constructor; [done|apply HB|apply HB|]. intros i s Hi. lia. }
  { done. }
  { lia. }
  runr. eexists. split; [done|]. set (kvs2 := set_counts _ _ _ _).
  assert (kv_wf kvs2 /\ quiet kvs2 /\ kabs kvs2 = replicate (Z.to_nat (num_dicts kvs2)) ∅) as (Hw & Hq & Ha).
  { apply blank_wf; try done; cbn [kvs2 set_counts set_bucket_count set_resize_cursor set_rehashing num_dicts num_dicts_bits dict_sizes].
    - rewrite N. by destruct Hsh; constructor.
    - rewrite B. apply HB.
    - rewrite N, B. apply HB.
    - rewrite N, T. intros E. by rewrite (kc_one _ _ HC E).
    - rewrite N, T. intros E. destruct (kc_tree _ _ HC E) as (ft & -> & Hrep). exists (fwTreeClear ft).
      split; [done|]. replace (num_dicts kvs) with (Fenwick.size ft); [by eapply clear_represents|].
      rewrite <- (rep_len _ _ Hrep), <- (kb_len _ _ HB). unfold zlen. by rewrite length_map. }
  split; [|done]. constructor; [done|done|done| |done]. rewrite Ha. cbn. by rewrite N.
Qed.

Lemma create_loop_shape n : forall i kvs,
  kv_shape i kvs -> 0 <= i -> i + Z.of_nat n = num_dicts kvs -> zeroed kvs ->
  (forall j s, i <= Z.of_nat j -> dicts kvs !! j = Some s -> s = None) ->
  exists kvs', for_dicts n i createDictIfNeeded kvs = Ok kvs' /\ kv_shape (num_dicts kvs) kvs' /\
    same_rest kvs kvs' /\ zeroed kvs'.
Proof.
  induction n as [|n IH]; intros i kvs Hsh Hi Hn Hz Hnone; cbn [for_dicts].
  { exists kvs. split_and!; try done. by replace (num_dicts kvs) with i by lia. }
  pose proof (sh_len _ _ Hsh) as Hl. unfold zlen in Hl.
  destruct (lookup_lt_is_Some_2 (dicts kvs) (Z.to_nat i)) as [s Hs]; [lia|].
  rewrite (Hnone (Z.to_nat i) s ltac:(lia) Hs) in Hs.
  destruct (createDict_shape kvs i Hsh Hs Hi) as (kvs1 & -> & Hsh1 & Hsr & HF & HD & Hsame). runr.
  destruct (IH (i + 1) kvs1 Hsh1) as (kvs2 & -> & Hsh2 & Hsr2 & Hz2).
  - lia.
  - rewrite (sr_num _ _ Hsr). lia.
  - destruct Hz as (Z1 & Z2 & Z3 & Z4). pose proof (fr_cursor _ _ HF) as Hcur. simpl in Hcur.
    injection Hsame as E1 E2 E3. unfold zeroed. by rewrite E1, E2, E3, Hcur.
  - intros j x Hj. rewrite HD, list_lookup_insert_ne by lia. apply Hnone. lia.
  - exists kvs2. rewrite (sr_num _ _ Hsr) in Hsh2. split_and!; try done. by eapply same_rest_trans.
Qed.

Lemma kv_create_ok bits fl :
  0 <= bits <= 16 ->
  exists kvs, kvstoreCreate bits fl = Ok kvs /\ kv_wf kvs /\ quiet kvs /\ flags kvs = fl /\
    num_dicts kvs = 2 ^ bits /\ kabs kvs = replicate (Z.to_nat (2 ^ bits)) ∅.
Proof.
  intros Hb. unfold kvstoreCreate. dec_bool. runr. rewrite Z.shiftl_mul_pow2, Z.mul_1_l by lia.
  assert (1 <= 2 ^ bits <= 2 ^ 16) as Hp
    by (split; [pose proof (Z.pow_pos_nonneg 2 bits); lia|apply Z.pow_le_mono_r; lia]).
  set (kvs0 := {| flags := fl |}).
  assert (zlen (dicts kvs0) = 2 ^ bits) as Hlen by (unfold zlen; simpl; rewrite length_replicate; lia).
  assert (forall d, d <= 0 -> kv_shape d kvs0) as Hsh0.
  { intros d Hd. constructor; [done|done| |intros; lia]. simpl. symmetry. by apply zsum_map_zero, Forall_replicate. }
  assert (exists kvs1, (if negb (kvs_flag kvs0 KVSTORE_ALLOCATE_DICTS_ON_DEMAND)
      then for_dicts (Z.to_nat (2 ^ bits)) 0 createDictIfNeeded kvs0 else Ok kvs0) = Ok kvs1 /\
    kv_shape (2 ^ bits) kvs1 /\ same_rest kvs0 kvs1 /\ zeroed kvs1) as (kvs1 & -> & Hsh & [F N B T] & Hz).
  { destruct (negb _).
    - apply (create_loop_shape (Z.to_nat (2 ^ bits)) 0 kvs0); try done; [by apply Hsh0|simpl; lia|].
      intros j s _. simpl. by intros [-> _]%lookup_replicate.
    - exists kvs0. split; [done|]. split; [|done]. destruct (Hsh0 0); [done|]. constructor; try done.
      intros i s _ Hi. left. simpl in Hi. by apply lookup_replicate in Hi as [-> _]. }
  runr. simpl in F, N, B, T.
  assert (exists ft, (if 1 <? 2 ^ bits then let* ft := fwTreeCreate bits in Ok (Some ft) else Ok None) = Ok ft /\
    (2 ^ bits = 1 -> ft = None) /\
    (2 ^ bits <> 1 -> exists t, ft = Some t /\ represents t (replicate (Z.to_nat (2 ^ bits)) 0))) as (ft & -> & Hf1 & Hf2).
  { destruct (Z.ltb_spec 1 (2 ^ bits)).
    - destruct (create_represents bits) as (t & -> & _ & _ & Hr); [lia|]. runr. eexists. split; [done|].
      split; [lia|]. intros _. by exists t.
    - exists None. split; [done|]. split; [done|lia]. }
  runr. eexists. split; [done|]. set (kvs2 := set_counts kvs1 0 0 ft).
  destruct (blank_wf kvs2) as (Hw & Hq & Ha); try done; cbn [kvs2 set_counts num_dicts num_dicts_bits dict_sizes]; rewrite ?N, ?B; try done.
  - by destruct Hsh; constructor.
  - split_and!; try done. rewrite Ha. cbn. by rewrite N.
Qed.
End kvstore_loops.
