(* ===== verification/KvstoreSpec.v ===== *)
(** KvstoreSpec: the array of dictionaries against its contract.

    The abstract store is a list of finite maps, one per dictionary.
    [kvstore_refines_maps] runs any sequence of operations on both sides and
    finds the same answers: lookups, insertions through raw entries or links,
    both kinds of deletion, expansions, incremental resizing, emptying, and the
    questions answered from the counters and the Fenwick tree.  The other
    theorems are about moving a dictionary between stores. *)

From Stdlib Require Import ZArith Lia Bool.
From S2P Require Import Prelude Bytes Fenwick Dict DictProofs DictOps DictSpec.
From S2P Require Import Kvstore KvstoreProofs KvstoreOps KvstoreLoops.
From stdpp Require Import base list numbers decidable gmap.

Local Open Scope Z_scope.

Section refinement.
Context {K SK V : Type} `{Countable K}.
Context (ty : dictType K SK V) {laws : DictTypeLaws ty}.
Context (canFreeDict : option (kvstore SK V -> Z -> bool)) (rawKey : SK -> K).
Local Abbreviation kvstore := (kvstore SK V).
Local Abbreviation amap := (gmap K (SK * option V)).
Local Abbreviation kabs := (kabs ty).
Local Abbreviation kv_wf := (kv_wf ty).
Local Abbreviation steps_to := (steps_to ty).

Inductive kop :=
  | KAdd (didx : Z) (sk : SK) (v : V)
  | KSet (didx : Z) (sk : SK)
  | KFind (didx : Z) (k : K)
  | KDelete (didx : Z) (k : K)
  | KUnlink (didx : Z) (k : K)
  | KDictExpand (didx n : Z)
  | KExpand (n : Z)
  | KTryExpand (n : Z) (alloc_ok : Z -> bool)
  | KResize (limit : Z)
  | KPolicy (cr : dictResizeEnable)
  | KEmpty
  | KSize
  | KDictSize (didx : Z)
  | KNumNonEmpty
  | KNth (target : Z)
  | KFirst
  | KNext (didx : Z).

Inductive kout :=
  | KBool (b : bool)
  | KFound (c : option (SK * option V))
  | KNum (n : Z)
  | KDone.

(** kvstoreDictAddRaw, then kvstoreDictSetVal on a new entry. *)
Definition kv_add (cr : dictResizeEnable) (kvs : kvstore) (didx : Z) (sk : SK) (v : V)
  : result (kvstore * bool) :=
  let* (kvs, r) := kvstoreDictAddRaw ty cr kvs didx sk in
  match r with
  | inl _ => Ok (kvs, false)
  | inr de =>
      let* kvs := if no_value ty then Ok kvs else kvstoreDictSetVal ty kvs didx de v in
      Ok (kvs, true)
  end.

(** kvstoreDictFindLink, then kvstoreDictSetAtLink at what it found. *)
Definition kv_set (cr : dictResizeEnable) (kvs : kvstore) (didx : Z) (sk : SK) : result (kvstore * bool) :=
  let* (kvs, r) := kvstoreDictFindLink ty cr kvs didx (keyFromStoredKey ty sk) true in
  let '(link, bucket) := r in
  let* kvs := kvstoreDictSetAtLink ty rawKey cr kvs didx sk
    (match link with Some l => Some l | None => bucket end) (bool_decide (link = None)) in
  Ok (kvs, bool_decide (link = None)).

(** Both phases of an unlink, the second one only on a link. *)
Definition kv_unlink (cr : dictResizeEnable) (kvs : kvstore) (didx : Z) (k : K) : result (kvstore * bool) :=
  let* (kvs, link) := kvstoreDictTwoPhaseUnlinkFind ty cr kvs didx k in
  match link with
  | None => Ok (kvs, false)
  | Some _ =>
      let* kvs := kvstoreDictTwoPhaseUnlinkFree ty canFreeDict cr kvs didx link in
      Ok (kvs, true)
  end.

(** One operation; the state carries the global resize policy. *)
Definition kconc_op (s : dictResizeEnable * kvstore) (o : kop)
  : result (dictResizeEnable * kvstore * kout) :=
  let '(cr, kvs) := s in
  match o with
  | KAdd didx sk v => let* (kvs, b) := kv_add cr kvs didx sk v in Ok (cr, kvs, KBool b)
  | KSet didx sk => let* (kvs, b) := kv_set cr kvs didx sk in Ok (cr, kvs, KDone)
  | KFind didx k => let* (kvs, e) := kvstoreDictFind ty cr kvs didx k in Ok (cr, kvs, KFound (content <$> e))
  | KDelete didx k => let* (kvs, b) := kvstoreDictDelete ty canFreeDict cr kvs didx k in Ok (cr, kvs, KBool b)
  | KUnlink didx k => let* (kvs, b) := kv_unlink cr kvs didx k in Ok (cr, kvs, KBool b)
  | KDictExpand didx n => let* (kvs, _) := kvstoreDictExpand ty cr kvs didx n in Ok (cr, kvs, KDone)
  | KExpand n =>
      let* (kvs, ok) := kvstoreExpand ty cr kvs n false (fun _ => true) (fun _ => false) in
      Ok (cr, kvs, KBool ok)
  | KTryExpand n alloc_ok =>
      let* (kvs, _) := kvstoreExpand ty cr kvs n true alloc_ok (fun _ => false) in Ok (cr, kvs, KDone)
  | KResize limit => let* kvs := kvstoreTryResizeDicts ty cr kvs limit in Ok (cr, kvs, KDone)
  | KPolicy cr => Ok (cr, kvs, KDone)
  | KEmpty => let* kvs := kvstoreEmpty canFreeDict kvs in Ok (cr, kvs, KDone)
  | KSize => Ok (cr, kvs, KNum (kvstoreSize kvs))
  | KDictSize didx => let* n := kvstoreDictSize kvs didx in Ok (cr, kvs, KNum n)
  | KNumNonEmpty => Ok (cr, kvs, KNum (kvstoreNumNonEmptyDicts kvs))
  | KNth target => let* i := kvstoreFindDictIndexByKeyIndex kvs target in Ok (cr, kvs, KNum i)
  | KFirst => let* i := kvstoreGetFirstNonEmptyDictIndex kvs in Ok (cr, kvs, KNum i)
  | KNext didx => let* i := kvstoreGetNextNonEmptyDictIndex kvs didx in Ok (cr, kvs, KNum i)
  end.

(** The same operation on a list of maps. *)
Definition kabs_op (m : list amap) (o : kop) : list amap * kout :=
  match o with
  | KAdd didx sk v =>
      let k := keyFromStoredKey ty sk in
      match at_slot m didx !! k with
      | Some _ => (m, KBool false)
      | None => (set_at m didx (<[k := (keyDup ty sk, stored_val ty v)]> (at_slot m didx)), KBool true)
      end
  | KSet didx sk =>
      let k := keyFromStoredKey ty sk in
      (set_at m didx (<[k := (keyDup ty sk, match at_slot m didx !! k with Some c => c.2 | None => None end)]>
                        (at_slot m didx)), KDone)
  | KFind didx k => (m, KFound (at_slot m didx !! k))
  | KDelete didx k | KUnlink didx k =>
      (set_at m didx (delete k (at_slot m didx)), KBool (bool_decide (is_Some (at_slot m didx !! k))))
  | KDictExpand _ _ | KTryExpand _ _ | KResize _ | KPolicy _ => (m, KDone)
  | KExpand _ => (m, KBool true)
  | KEmpty => (replicate (length m) ∅, KDone)
  | KSize => (m, KNum (zsum (sizes m)))
  | KDictSize didx => (m, KNum (Z.of_nat (size (at_slot m didx))))
  | KNumNonEmpty => (m, KNum (zsum (map nonempty (sizes m))))
  | KNth target => (m, KNum (nth_slot (sizes m) target))
  | KFirst => (m, KNum (first_slot (sizes m)))
  | KNext didx => (m, KNum (next_slot (sizes m) didx))
  end.

Fixpoint kconc_run (s : dictResizeEnable * kvstore) (os : list kop)
  : result (dictResizeEnable * kvstore * list kout) :=
  match os with
  | [] => Ok (s, [])
  | o :: os =>
      let* (s, r) := kconc_op s o in
      let* (s, rs) := kconc_run s os in
      Ok (s, r :: rs)
  end.

Fixpoint kabs_run (m : list amap) (os : list kop) : list amap * list kout :=
  match os with
  | [] => (m, [])
  | o :: os =>
      let '(m, r) := kabs_op m o in
      let '(m, rs) := kabs_run m os in
      (m, r :: rs)
  end.

(** Indexes are those of a slot, a key index counts an existing key. *)
Definition kop_legal (m : list amap) (o : kop) : Prop :=
  match o with
  | KAdd didx _ _ | KSet didx _ | KFind didx _ | KDelete didx _ | KUnlink didx _ | KDictSize didx | KNext didx =>
      0 <= didx < zlen m
  | KDictExpand didx n => 0 <= didx < zlen m /\ 0 <= n < 2 ^ 64
  | KExpand n | KTryExpand n _ => 0 <= n < 2 ^ 64
  | KNth target => 1 <= target <= zsum (sizes m)
  | _ => True
  end.

Fixpoint kops_legal (m : list amap) (os : list kop) : Prop :=
  match os with
  | [] => True
  | o :: os => kop_legal m o /\ kops_legal (kabs_op m o).1 os
  end.

Lemma steps_refl kvs : kv_wf kvs -> steps_to kvs kvs (kabs kvs).
Proof. by constructor. Qed.

Lemma kv_add_ok cr kvs didx sk v :
  kv_wf kvs -> 0 <= didx < num_dicts kvs -> key_count kvs + 1 < 2 ^ 64 ->
  exists kvs' b, kv_add cr kvs didx sk v = Ok (kvs', b) /\
    steps_to kvs kvs' (kabs_op (kabs kvs) (KAdd didx sk v)).1 /\
    (kabs_op (kabs kvs) (KAdd didx sk v)).2 = KBool b.
Proof.
  intros Hwf Hd Hroom. cbn [kabs_op]. unfold kv_add, stored_val.
  destruct (kv_addRaw_ok ty cr kvs didx sk Hwf Hd Hroom) as (kvs1 & r & -> & Hr). runr. destruct r as [l|l].
  - destruct Hr as [[c ->] Hst]. by eexists _, _.
  - destruct Hr as (-> & Hst & kd & e & Hkd & Hh & He). destruct (no_value ty) eqn:Hnv; [by eexists _, _|].
    rewrite (He eq_refl) in Hh.
    destruct (kv_setVal_ok ty kvs1 didx kd l _ _ v (st_wf _ _ _ _ Hst) ltac:(lia) Hkd Hnv Hh) as (kvs2 & -> & Hst2). runr.
    eexists _, _. split; [done|]. split; [|done]. eapply steps_trans; [exact Hst|]. cbn [fst].
    rewrite (st_abs _ _ _ _ Hst) in Hst2. rewrite (dup_key sk), set_at_set, set_at_at in Hst2
      by (by rewrite (kabs_len ty kvs Hwf)). by rewrite insert_insert_eq in Hst2.
Qed.

Lemma kv_resize_ok cr kvs limit :
  kv_wf kvs -> exists kvs', kvstoreTryResizeDicts ty cr kvs limit = Ok kvs' /\ steps_to kvs kvs' (kabs kvs).
Proof.
  intros Hwf. unfold kvstoreTryResizeDicts.
  destruct (kv_resize_loop ty cr (Z.to_nat (if limit >? num_dicts kvs then num_dicts kvs else limit)) kvs Hwf)
    as (kvs' & -> & Hst & _). by exists kvs'.
Qed.

Lemma kvstore_op_ok cr kvs o :
  kv_wf kvs -> quiet kvs -> kop_legal (kabs kvs) o -> zsum (sizes (kabs kvs)) + 1 < 2 ^ 64 ->
  exists cr' kvs' r, kconc_op (cr, kvs) o = Ok (cr', kvs', r) /\
    steps_to kvs kvs' (kabs_op (kabs kvs) o).1 /\ (kabs_op (kabs kvs) o).2 = r.
Proof.
  intros Hwf Hq Hlg Hroom. pose proof (kabs_len ty kvs Hwf) as Hlen.
  assert (key_count kvs + 1 < 2 ^ 64) as Hroom' by by rewrite (key_count_sizes ty kvs Hwf).
  destruct o as [didx sk v|didx sk|didx k|didx k|didx k|didx n|n|n al|limit|cr'| | |didx| |target| |didx];
    cbn [kconc_op kop_legal] in *; rewrite ?Hlen in Hlg.
  - destruct (kv_add_ok cr kvs didx sk v Hwf Hlg Hroom') as (kvs' & b & -> & Hst & Hr). by eexists _, _, _.
  - destruct (kv_set_ok ty rawKey cr kvs didx sk Hwf Hlg Hroom') as (kvs1 & r & b & kvs2 & Hf & Hs & Hst).
    unfold kv_set. rewrite Hf. runr. rewrite Hs. by eexists _, _, _.
  - destruct (kv_find_ok ty cr kvs didx k Hwf Hlg) as (kvs' & e & -> & Hst & He). runr. rewrite He. by eexists _, _, _.
  - destruct (kv_delete_ok ty canFreeDict cr kvs didx k Hwf Hlg) as (kvs' & -> & Hst). by eexists _, _, _.
  - destruct (kv_unlink_ok ty canFreeDict cr kvs didx k Hwf Hq Hlg) as (kvs1 & r & Hf & Hiff & Hr).
    unfold kv_unlink. rewrite Hf. runr. cbn [kabs_op]. destruct r as [l|].
    + destruct Hr as (kvs2 & -> & Hst). runr. rewrite bool_decide_true by by apply Hiff. by eexists _, _, _.
    + assert (at_slot (kabs kvs) didx !! k = None) as Hn
        by (destruct (at_slot (kabs kvs) didx !! k); [by destruct Hiff as [_ [? ?]]|done]).
      rewrite Hn, delete_id by done. eexists _, _, _. split; [done|]. split; [|done].
      unfold set_at, at_slot. cbn [fst]. rewrite list_insert_id; [done|].
      destruct (lookup_lt_is_Some_2 (kabs kvs) (Z.to_nat didx)) as [a ->]; [unfold zlen in Hlen; lia|done].
  - destruct Hlg as [Hd Hn]. destruct (kv_dictExpand_ok ty cr kvs didx n Hwf ltac:(lia) Hn) as (kvs' & ok & -> & Hst).
    by eexists _, _, _.
  - destruct (kv_expand_loop ty cr n false (fun _ => true) (fun _ => false) (Z.to_nat (num_dicts kvs)) 0 kvs Hwf)
      as (kvs' & ok & Hex & Hst & Hok); [done|pose proof (zlen_nonneg (kabs kvs)); lia|done|].
    unfold kvstoreExpand. rewrite Hex, Hok by by left. by eexists _, _, _.
  - destruct (kv_expand_loop ty cr n true al (fun _ => false) (Z.to_nat (num_dicts kvs)) 0 kvs Hwf)
      as (kvs' & ok & Hex & Hst & _); [done|pose proof (zlen_nonneg (kabs kvs)); lia|done|].
    unfold kvstoreExpand. rewrite Hex. by eexists _, _, _.
  - destruct (kv_resize_ok cr kvs limit Hwf) as (kvs' & -> & Hst). by eexists _, _, _.
  - eexists _, _, _. split; [done|]. by split; [apply steps_refl|].
  - destruct (kv_empty_ok ty canFreeDict kvs Hwf) as (kvs' & -> & Hst & _). eexists _, _, _. split; [done|]. split; [|done].
    cbn [kabs_op fst]. rewrite <- Hlen in Hst. unfold zlen in Hst. by rewrite Nat2Z.id in Hst.
  - eexists _, _, _. split; [done|]. split; [by apply steps_refl|]. cbn. by rewrite <- (key_count_sizes ty kvs Hwf).
  - destruct (slot_at ty kvs didx (kw_books _ _ Hwf) Hlg) as (s & Hg & Hs). unfold kvstoreDictSize. rewrite Hg. runr.
    eexists _, _, _. split; [done|]. split; [by apply steps_refl|]. cbn [kabs_op snd].
    rewrite (at_slot_slot ty kvs didx s Hs). f_equal. destruct s as [kd|]; [|done].
    symmetry. apply dict_size_abs. apply (kb_dict _ _ (kw_books _ _ Hwf) _ _ Hs).
  - eexists _, _, _. split; [done|]. split; [by apply steps_refl|]. cbn [kabs_op snd]. unfold kvstoreNumNonEmptyDicts.
    by rewrite (kc_nonempty _ _ (kw_counts _ _ Hwf)), (slot_sizes ty kvs (kw_books _ _ Hwf)).
  - rewrite (kv_nth_ok ty kvs target Hwf Hlg). runr. eexists _, _, _. split; [done|]. by split; [apply steps_refl|].
  - rewrite (kv_first_ok ty kvs Hwf). runr. eexists _, _, _. split; [done|]. by split; [apply steps_refl|].
  - rewrite (kv_next_ok ty kvs didx Hwf) by lia. runr. eexists _, _, _. split; [done|]. by split; [apply steps_refl|].
Qed.

(** An operation adds one key at most. *)
Lemma sizes_set_at (m : list amap) didx a :
  0 <= didx < zlen m -> Z.of_nat (size a) <= Z.of_nat (size (at_slot m didx)) + 1 ->
  zsum (sizes (set_at m didx a)) <= zsum (sizes m) + 1.
Proof.
  intros Hd Ha. unfold sizes, set_at, at_slot in *.
  destruct (lookup_lt_is_Some_2 m (Z.to_nat didx)) as [b Hb]; [unfold zlen in Hd; lia|].
  rewrite Hb in Ha. simpl in Ha. rewrite (zsum_map_insert _ _ _ _ _ Hb). lia.
Qed.

Lemma sizes_op (m : list amap) o : kop_legal m o -> zsum (sizes (kabs_op m o).1) <= zsum (sizes m) + 1.
Proof.
  intros Hlg. assert (forall k c (a : amap), Z.of_nat (size (<[k := c]> a)) <= Z.of_nat (size a) + 1) as Hins.
  { intros k c a. rewrite map_size_insert. destruct (a !! k); simpl; lia. }
  assert (forall k (a : amap), Z.of_nat (size (delete k a)) <= Z.of_nat (size a) + 1) as Hdel.
  { intros k a. rewrite map_size_delete. destruct (a !! k); simpl; lia. }
  destruct o; cbn [kabs_op kop_legal fst] in *; try lia.
  - case_match; cbn [fst]; [lia|by apply sizes_set_at].
  - by apply sizes_set_at.
  - by apply sizes_set_at.
  - by apply sizes_set_at.
  - unfold sizes. rewrite zsum_map_zero; [pose proof (zsum_nonneg _ (sizes_nonneg m)); unfold sizes in *; lia|].
    apply Forall_replicate. by rewrite map_size_empty.
Qed.

Lemma kvstore_run_ok os : forall cr kvs,
  kv_wf kvs -> quiet kvs -> kops_legal (kabs kvs) os -> zsum (sizes (kabs kvs)) + zlen os + 1 < 2 ^ 64 ->
  exists cr' kvs' rs, kconc_run (cr, kvs) os = Ok (cr', kvs', rs) /\ kabs_run (kabs kvs) os = (kabs kvs', rs) /\
    kv_wf kvs' /\ quiet kvs' /\ num_dicts kvs' = num_dicts kvs.
Proof.
  induction os as [|o os IH]; intros cr kvs Hwf Hq Hlg Hlen.
  { exists cr, kvs, []. by split_and!. }
  rewrite zlen_cons in Hlen. pose proof (zlen_nonneg os). destruct Hlg as [Ho Hos].
  destruct (kvstore_op_ok cr kvs o Hwf Hq Ho) as (cr1 & kvs1 & r & Hc & [Hw1 Hf1 Hn1 Ha1 Hq1] & Hr); [lia|].
  pose proof (sizes_op _ o Ho) as Hsz. rewrite <- Ha1 in Hos, Hsz.
  destruct (IH cr1 kvs1 Hw1 (Hq1 Hq) Hos) as (cr2 & kvs2 & rs & Hc2 & Ha2 & Hw2 & Hq2 & Hn2); [lia|].
  exists cr2, kvs2, (r :: rs). cbn [kconc_run kabs_run]. rewrite Hc. runr. rewrite Hc2.
  destruct (kabs_op (kabs kvs) o) as [m1 r1] eqn:E. simpl in Ha1, Hr. subst m1 r1. rewrite Ha2.
  split_and!; try done. congruence.
Qed.

Lemma create_run_ok bits fl cr os :
  0 <= bits <= 16 -> kops_legal (replicate (Z.to_nat (2 ^ bits)) ∅) os -> zlen os + 1 < 2 ^ 64 ->
  exists kvs0 cr' kvs' rs, kvstoreCreate bits fl = Ok kvs0 /\ kconc_run (cr, kvs0) os = Ok (cr', kvs', rs) /\
    kabs_run (replicate (Z.to_nat (2 ^ bits)) ∅) os = (kabs kvs', rs) /\ kv_wf kvs' /\ quiet kvs' /\
    num_dicts kvs' = 2 ^ bits.
Proof.
  intros Hb Hlg Hlen. destruct (kv_create_ok ty bits fl Hb) as (kvs0 & Hc & Hwf & Hq & _ & Hn & Ha).
  rewrite <- Ha in Hlg |- *. destruct (kvstore_run_ok os cr kvs0 Hwf Hq Hlg) as (cr' & kvs' & rs & Hr & Hab & Hw & Hq' & Hn').
  - rewrite Ha. unfold sizes. rewrite zsum_map_zero; [lia|]. apply Forall_replicate. by rewrite map_size_empty.
  - exists kvs0, cr', kvs', rs. split_and!; try done. congruence.
Qed.

(** ** What the books say *)

(** The dictionaries of a store, with their indexes. *)
Definition dict_at (kvs : kvstore) (i : Z) (d : dict SK V) : Prop :=
  0 <= i /\ exists kd, dicts kvs !! Z.to_nat i = Some (Some kd) /\ kd_dict kd = d.

Definition slot_buckets (s : option (kvdict SK V)) : Z :=
  match s with Some kd => dictBuckets (kd_dict kd) | None => 0 end.
Definition slot_from (s : option (kvdict SK V)) : Z :=
  match s with
  | Some kd => if dictIsRehashing (kd_dict kd) then rehashing_from (kd_dict kd) else 0
  | None => 0
  end.

Lemma zsum_map_ext {A} (f g : A -> Z) (l : list A) :
  (forall x, x ∈ l -> f x = g x) -> zsum (map f l) = zsum (map g l).
Proof.
  induction l as [|x l IH]; intros Hfg; [done|]. unfold zsum in *. simpl. rewrite (Hfg x) by by left.
  f_equal. apply IH. intros y Hy. apply Hfg. by right.
Qed.

Lemma books_buckets kvs : kv_wf kvs -> bucket_count kvs = u64 (zsum (map slot_buckets (dicts kvs))).
Proof.
  intros [HB _]. rewrite (lg_buckets _ _ (kb_ledgers _ _ HB)), map_map. f_equal. apply zsum_map_ext.
  intros [kd|] [i Hi]%list_elem_of_lookup; [|done]. simpl. symmetry.
  apply (dictBuckets_ok ty). apply (kb_dict _ _ HB _ _ Hi).
Qed.

Lemma books_overhead kvs : kv_wf kvs -> overhead_hashtable_rehashing kvs = u64 (zsum (map slot_from (dicts kvs))).
Proof.
  intros [HB _]. rewrite (lg_over _ _ (kb_ledgers _ _ HB)), map_map. f_equal. apply zsum_map_ext.
  intros [kd|] _; [|done]. unfold from_of. simpl. by destruct (dictIsRehashing (kd_dict kd)).
Qed.

Lemma books_rehashing kvs i :
  kv_wf kvs -> i ∈ rehashing kvs <-> exists d, dict_at kvs i d /\ dictIsRehashing d = true.
Proof.
  intros [HB _]. pose proof (kb_ledgers _ _ HB) as HL. unfold dict_at.
  assert (0 <= i -> (i ∈ rehashing kvs <->
    exists g, map slot_book (dicts kvs) !! Z.to_nat i = Some g /\ is_Some g.2)) as Hl.
  { intros Hi. replace i with (Z.of_nat (Z.to_nat i)) at 1 by lia. apply (lg_list _ _ HL). }
  change (map slot_book (dicts kvs)) with (slot_book <$> dicts kvs) in Hl. rewrite list_lookup_fmap in Hl. split.
  - intros Hi. assert (0 <= i) as H0.
    { pose proof (lg_range _ _ HL) as Hr. rewrite list.Forall_forall in Hr. by apply Hr. }
    apply Hl in Hi as (g & Hg & [f Hf]); [|done]. destruct (dicts kvs !! Z.to_nat i) as [[kd|]|]; simplify_eq/=.
    destruct (dictIsRehashing (kd_dict kd)) eqn:E; [|done]. eauto 10.
  - intros (d & (H0 & kd & Hkd & <-) & Hd). apply Hl; [done|]. rewrite Hkd. simpl.
    eexists. split; [done|]. simpl. rewrite Hd. by eexists.
Qed.
End refinement.

(** * Concrete stores *)

(** Four dictionaries, created on demand and released when empty. *)
Definition sample_flags : Z := Z.lor KVSTORE_ALLOCATE_DICTS_ON_DEMAND KVSTORE_FREE_EMPTY_DICTS.

Definition sample_ops : list (@kop Z Z Z) :=
  [KAdd 1 10 100; KAdd 1 11 110; KAdd 3 10 300; KAdd 3 10 0; KFind 3 10; KSize; KNumNonEmpty; KNth 3; KFirst; KNext 1;
   KDelete 3 10; KDictSize 3; KUnlink 1 11; KResize 4; KNext 1; KEmpty; KSize].

Lemma sample_legal : kops_legal (int_type false false) (replicate (Z.to_nat (2 ^ 2)) ∅) sample_ops.
Proof. by vm_compute. Qed.

(** * The theorems *)

(** C2: the keyspace is a list of finite maps: from a new store of [2 ^ bits]
    dictionaries, any sequence of operations runs without fault and answers like
    the same sequence on a list of finite maps: lookups, insertions, both kinds
    of deletion, resizing and emptying, the number of keys in all and per
    dictionary, the number of non-empty dictionaries, and the searches through
    the Fenwick tree (the dictionary of the n-th key, the first and the next
    non-empty one), whatever the flags, the release callback, the hash function
    and the resize policy. *)
Theorem kvstore_refines_maps {K SK V : Type} `{Countable K} (ty : dictType K SK V) (laws : DictTypeLaws ty)
    (canFreeDict : option (kvstore SK V -> Z -> bool)) (rawKey : SK -> K) (bits fl : Z)
    (cr : dictResizeEnable) (os : list kop) :
  0 <= bits <= 16 -> kops_legal ty (replicate (Z.to_nat (2 ^ bits)) ∅) os -> zlen os + 1 < 2 ^ 64 ->
  exists kvs0 cr' kvs' rs, kvstoreCreate bits fl = Ok kvs0 /\
    kconc_run ty canFreeDict rawKey (cr, kvs0) os = Ok (cr', kvs', rs) /\
    kabs_run ty (replicate (Z.to_nat (2 ^ bits)) ∅) os = (kabs ty kvs', rs).
Proof.
  intros Hb Hlg Hlen. destruct (create_run_ok ty canFreeDict rawKey bits fl cr os Hb Hlg Hlen)
    as (kvs0 & cr' & kvs' & rs & Hc & Hr & Ha & _). by exists kvs0, cr', kvs', rs.
Qed.

Lemma kvstore_refines_maps_witness :
  exists kvs0 cr' kvs' rs, kvstoreCreate 2 sample_flags = Ok kvs0 /\
    kconc_run (int_type false false) None (fun s => s) (DICT_RESIZE_ENABLE, kvs0) sample_ops = Ok (cr', kvs', rs) /\
    rs = [KBool true; KBool true; KBool true; KBool false; KFound (Some (10, Some 300)); KNum 3; KNum 2; KNum 3; KNum 1;
          KNum 3; KBool true; KNum 0; KBool true; KDone; KNum (-1); KDone; KNum 0].
Proof.
  destruct (kvstore_refines_maps (int_type false false) _ None (fun s => s) 2 sample_flags DICT_RESIZE_ENABLE sample_ops)
    as (kvs0 & cr' & kvs' & rs & Hc & Hr & Ha).
  - lia.
  - exact sample_legal.
  - by vm_compute.
  - exists kvs0, cr', kvs', rs. split; [exact Hc|]. split; [exact Hr|].
    apply (f_equal snd) in Ha. etrans; [symmetry; exact Ha|by vm_compute].
Defined.

(** C4: the books of the keyspace are exact after any sequence of operations:
    the bucket count is the number of buckets of all the dictionaries (modulo
    2^64, its type), the list of rehashing dictionaries holds each dictionary
    that is being rehashed, once, and no other, the rehashing overhead is the
    number of buckets of their old tables, and the allocation count is the
    number of dictionaries that exist. *)
Theorem kvstore_books_exact {K SK V : Type} `{Countable K} (ty : dictType K SK V) (laws : DictTypeLaws ty)
    (canFreeDict : option (kvstore SK V -> Z -> bool)) (rawKey : SK -> K) (bits fl : Z)
    (cr : dictResizeEnable) (os : list kop) :
  0 <= bits <= 16 -> kops_legal ty (replicate (Z.to_nat (2 ^ bits)) ∅) os -> zlen os + 1 < 2 ^ 64 ->
  exists kvs0 cr' kvs rs, kvstoreCreate bits fl = Ok kvs0 /\
    kconc_run ty canFreeDict rawKey (cr, kvs0) os = Ok (cr', kvs, rs) /\
    bucket_count kvs = u64 (zsum (map slot_buckets (dicts kvs))) /\
    overhead_hashtable_rehashing kvs = u64 (zsum (map slot_from (dicts kvs))) /\
    NoDup (rehashing kvs) /\
    (forall i, i ∈ rehashing kvs <-> exists d, dict_at kvs i d /\ dictIsRehashing d = true) /\
    kvstoreNumAllocatedDicts kvs = zsum (map slot_alloc (dicts kvs)).
Proof.
  intros Hb Hlg Hlen. destruct (create_run_ok ty canFreeDict rawKey bits fl cr os Hb Hlg Hlen)
    as (kvs0 & cr' & kvs' & rs & Hc & Hr & _ & Hw & _). exists kvs0, cr', kvs', rs.
  split_and!; [done|done|by apply (books_buckets ty)|by apply (books_overhead ty)| |intros i; by apply (books_rehashing ty)|].
  - apply (lg_nodup _ _ (kb_ledgers _ _ (kw_books _ _ Hw))).
  - apply (kb_alloc _ _ (kw_books _ _ Hw)).
Qed.

(** Five keys in the four buckets of dictionary 1, one in dictionary 3. *)
Definition growing_ops : list (@kop Z Z Z) :=
  [KAdd 1 1 10; KAdd 1 5 50; KAdd 1 9 90; KAdd 1 2 20; KAdd 1 13 130; KAdd 3 7 70].

Lemma kvstore_books_exact_witness :
  exists kvs0 cr' kvs rs, kvstoreCreate 2 sample_flags = Ok kvs0 /\
    kconc_run (int_type false false) None (fun s => s) (DICT_RESIZE_ENABLE, kvs0) growing_ops = Ok (cr', kvs, rs) /\
    bucket_count kvs = u64 (zsum (map slot_buckets (dicts kvs))) /\
    bucket_count kvs = 16 /\ rehashing kvs = [1] /\ overhead_hashtable_rehashing kvs = 4.
Proof.
  destruct (kvstore_books_exact (int_type false false) _ None (fun s => s) 2 sample_flags DICT_RESIZE_ENABLE growing_ops)
    as (kvs0 & cr' & kvs & rs & Hc & Hr & Hb & _).
  - lia.
  - by vm_compute.
  - by vm_compute.
  - exists kvs0, cr', kvs, rs. split; [exact Hc|]. split; [exact Hr|]. split; [exact Hb|].
    vm_compute in Hc. injection Hc as <-. vm_compute in Hr. injection Hr as _ <- _. by vm_compute.
Defined.
