(* ===== verification/KvstoreMove.v ===== *)
(** KvstoreMove: moving a dictionary from one store to another, as the
    background trimming of slots does.  The keys and the key counts move; the
    counters of non-empty dictionaries do not follow. *)

From Stdlib Require Import ZArith Lia Bool.
From S2P Require Import Prelude Bytes Fenwick Dict DictProofs DictOps DictSpec.
From S2P Require Import Kvstore KvstoreProofs KvstoreOps KvstoreLoops KvstoreSpec.
From stdpp Require Import base list numbers decidable gmap.

Local Open Scope Z_scope.

Section move.
Context {K SK V : Type} `{Countable K}.
Context (ty : dictType K SK V) {laws : DictTypeLaws ty}.
Local Abbreviation dict := (dict SK V).
Local Abbreviation kvstore := (kvstore SK V).
Local Abbreviation kabs := (kabs ty).
Local Abbreviation kv_wf := (kv_wf ty).

(** The number of dictionaries that hold keys. *)
Definition true_non_empty (kvs : kvstore) : Z := zsum (map nonempty (sizes (kabs kvs))).

(** The two callbacks that follow the count keep it, and the dictionary. *)
Lemma move_callbacks (kvs : kvstore) didx kd ns :
  dicts kvs !! Z.to_nat didx = Some (Some kd) ->
  kv_frame kvs (callbacks didx kvs ns) /\
  exists b, dicts (callbacks didx kvs ns) = <[Z.to_nat didx := Some {| kd_dict := kd_dict kd; kd_rehashing_node := b |}]> (dicts kvs).
Proof.
  revert kvs kd. induction ns as [|n ns IH]; intros kvs kd Hkd.
  { split; [done|]. exists (kd_rehashing_node kd). simpl. rewrite list_insert_id; [done|]. rewrite Hkd. by destruct kd. }
  destruct (callback_frame didx kvs n kd Hkd) as [F1 (b1 & D1)]. pose proof (lookup_lt_Some _ _ _ Hkd) as Hlt.
  destruct (IH (callback didx kvs n) {| kd_dict := kd_dict kd; kd_rehashing_node := b1 |}) as [F2 (b2 & D2)].
  { rewrite D1. by apply list_lookup_insert_eq. }
  split; [by eapply kv_frame_trans|]. exists b2. cbn [callbacks foldl]. unfold callbacks in D2.
  by rewrite D2, D1, list_insert_insert_eq.
Qed.

Definition leaving_notes (d : dict) : list note :=
  [BucketChanged (- dictBuckets d)] ++ (if dictIsRehashing d then [RehashingCompleted (rehashing_from d)] else []).
Definition arriving_notes (d : dict) : list note :=
  [BucketChanged (dictBuckets d)] ++ (if dictIsRehashing d then [RehashingStarted (rehashing_from d)] else []).

Lemma counts_set_allocated (kvs : kvstore) n ss : kv_counts kvs ss -> kv_counts (set_allocated kvs n) ss.
Proof. intros []. by constructor. Qed.

(** The count of a store whose slot changes from size [s] to [s + delta] while
    the counter moves by [step]. *)
Lemma true_after (kvs kvs' : kvstore) didx s s' step :
  kv_wf kvs -> sizes (kabs kvs) !! Z.to_nat didx = Some s ->
  sizes (kabs kvs') = <[Z.to_nat didx := s']> (sizes (kabs kvs)) ->
  non_empty_dicts kvs' = non_empty_dicts kvs + step ->
  non_empty_dicts kvs' = true_non_empty kvs' + step + nonempty s - nonempty s'.
Proof.
  intros Hwf Hs Hsz Hn. unfold true_non_empty. rewrite Hsz, (zsum_map_insert nonempty _ _ _ _ Hs), Hn.
  rewrite (kc_nonempty _ _ (kw_counts _ _ Hwf)), (slot_sizes ty kvs (kw_books _ _ Hwf)). lia.
Qed.

Lemma move_source kvs didx kd :
  kv_wf kvs -> 0 <= didx -> dicts kvs !! Z.to_nat didx = Some (Some kd) ->
  let d := kd_dict kd in
  let s := dictSize d in
  s <= LLONG_MAX ->
  exists n kvs1 kvs2,
    chk_i32 (allocated_dicts kvs - 1) = Ok n /\
    cumulativeKeyCountAdd (set_allocated kvs n) didx (- s) = Ok kvs1 /\
    (let kvs := set_slot (callbacks didx kvs1 (leaving_notes d)) didx None in
     if negb (kvs_flag kvs (Z.lor KVSTORE_ALLOCATE_DICTS_ON_DEMAND KVSTORE_FREE_EMPTY_DICTS))
     then createDictIfNeeded kvs didx else Ok kvs) = Ok kvs2 /\
    kabs kvs2 = set_at (kabs kvs) didx ∅ /\ key_count kvs2 = key_count kvs - s /\
    non_empty_dicts kvs2 = true_non_empty kvs2 + (if s =? 0 then -1 else 1).
Proof.
  intros Hwf Hd Hkd d s Hs. pose proof (kw_books _ _ Hwf) as HB. pose proof (lookup_lt_Some _ _ _ Hkd) as Hlt.
  pose proof (alloc_range ty kvs HB). exists (allocated_dicts kvs - 1).
  assert (0 <= s) as Hs0 by (unfold s; rewrite (dict_size_abs ty d) by apply (kb_dict _ _ HB _ _ Hkd); lia).
  pose proof (num_dicts_range ty kvs HB) as Hnr. pose proof (kb_len _ _ HB) as Hlen.
  destruct (count_add_core (set_allocated kvs (allocated_dicts kvs - 1)) (map slot_size (dicts kvs)) didx kd s (- s))
    as (ft & Hc & _); try done; try lia.
  { apply counts_set_allocated, (kw_counts ty), Hwf. }
  { unfold zlen. rewrite length_map. unfold zlen in Hlen. lia. }
  { by apply (lookup_map_Some slot_size _ _ _ Hkd). }
  { pose proof (kc_word _ _ (kw_counts _ _ Hwf)). lia. }
  set (kvs1 := set_counts _ _ _ _) in Hc.
  destruct (move_callbacks kvs1 didx kd (leaving_notes d) Hkd) as (HF & b & HD).
  set (kvs3 := set_slot (callbacks didx kvs1 (leaving_notes d)) didx None).
  assert (dicts kvs3 = <[Z.to_nat didx := None]> (dicts kvs)) as HD3.
  { unfold kvs3. cbn [set_slot dicts]. by rewrite HD, list_insert_insert_eq. }
  assert (allocated_dicts kvs3 = allocated_dicts kvs - 1) as Hal by apply HF.
  assert (exists kvs2, (if negb (kvs_flag kvs3 (Z.lor KVSTORE_ALLOCATE_DICTS_ON_DEMAND KVSTORE_FREE_EMPTY_DICTS))
      then createDictIfNeeded kvs3 didx else Ok kvs3) = Ok kvs2 /\ kabs kvs2 = set_at (kabs kvs) didx ∅ /\
    key_count kvs2 = key_count kvs3 /\ non_empty_dicts kvs2 = non_empty_dicts kvs3) as (kvs2 & Hc2 & Ha & Hk & Hn).
  { assert (kabs kvs3 = set_at (kabs kvs) didx ∅) as Ha3 by (unfold kabs; by rewrite HD3, map_list_insert).
    destruct (negb _); [|by exists kvs3]. unfold createDictIfNeeded.
    rewrite (get_slot kvs3 didx None) by (done || rewrite HD3; by apply list_lookup_insert_eq). runr.
    change (allocated_dicts (set_slot ?k ?a ?b)) with (allocated_dicts k). rewrite Hal, chk_i32_ok by lia. runr.
    eexists. split; [done|]. split; [|done]. unfold kabs. cbn [set_allocated set_slot dicts].
    by rewrite HD3, list_insert_insert_eq, map_list_insert. }
  exists kvs1, kvs2. split_and!; [by rewrite chk_i32_ok by lia|done|done|done| |].
  - rewrite Hk. transitivity (key_count kvs1); [apply HF|]. cbn. rewrite (kc_keys _ _ (kw_counts _ _ Hwf)). lia.
  - rewrite (true_after kvs kvs2 didx s 0 (non_empty_step s (- s)) Hwf).
    + unfold non_empty_step, nonempty, b2z. rewrite Z.gtb_ltb. repeat case_bool; simpl; lia.
    + rewrite <- (slot_sizes ty kvs HB). by apply (lookup_map_Some slot_size _ _ _ Hkd).
    + rewrite Ha. unfold sizes, set_at. by rewrite map_list_insert.
    + rewrite Hn. transitivity (non_empty_dicts kvs1); [apply HF|done].
Qed.

Lemma move_target dst didx kd :
  kv_wf dst -> 0 <= didx -> dicts dst !! Z.to_nat didx = Some None -> dict_wf ty (kd_dict kd) ->
  let d := kd_dict kd in
  let s := dictSize d in
  s <= LLONG_MAX -> key_count dst + s < 2 ^ 64 ->
  let dst0 := set_slot dst didx (Some kd) in
  exists n dst1, chk_i32 (allocated_dicts dst0 + 1) = Ok n /\
    cumulativeKeyCountAdd (set_allocated dst0 n) didx s = Ok dst1 /\
    let dst2 := callbacks didx dst1 (arriving_notes d) in
    kabs dst2 = set_at (kabs dst) didx (abs ty d) /\ key_count dst2 = key_count dst + s /\
    non_empty_dicts dst2 = true_non_empty dst2 + (if s =? 1 then 0 else -1).
Proof.
  intros Hwf Hd Hnone Hdw d s Hs Hroom dst0. pose proof (kw_books _ _ Hwf) as HB.
  pose proof (lookup_lt_Some _ _ _ Hnone) as Hlt. pose proof (alloc_range ty dst HB).
  exists (allocated_dicts dst + 1). rewrite chk_i32_ok by (simpl; lia).
  assert (0 <= s) as Hs0 by (unfold s; rewrite (dict_size_abs ty d Hdw); lia).
  pose proof (num_dicts_range ty dst HB) as Hnr. pose proof (kb_len _ _ HB) as Hlen.
  assert (dicts dst0 !! Z.to_nat didx = Some (Some kd)) as Hkd by by apply list_lookup_insert_eq.
  destruct (count_add_core (set_allocated dst0 (allocated_dicts dst + 1)) (map slot_size (dicts dst)) didx kd 0 s)
    as (ft & Hc & _); try done; try lia.
  { by destruct (kw_counts _ _ Hwf); constructor. }
  { unfold zlen. rewrite length_map. unfold zlen in Hlen. lia. }
  { by apply (lookup_map_Some slot_size _ _ _ Hnone). }
  { rewrite <- (kc_keys _ _ (kw_counts _ _ Hwf)). lia. }
  set (dst1 := set_counts _ _ _ _) in Hc. exists dst1. split; [done|]. split; [done|]. intros dst2.
  destruct (move_callbacks dst1 didx kd (arriving_notes d) Hkd) as (HF & b & HD). fold dst2 in HF, HD.
  assert (kabs dst2 = set_at (kabs dst) didx (abs ty d)) as Ha.
  { unfold kabs. rewrite HD. cbn [dst1 set_counts set_allocated dst0 set_slot dicts].
    by rewrite list_insert_insert_eq, map_list_insert. }
  split_and!; [done| |].
  - rewrite (fr_keys _ _ HF). cbn. by rewrite (kc_keys _ _ (kw_counts _ _ Hwf)).
  - rewrite (true_after dst dst2 didx 0 s (non_empty_step s s) Hwf).
    + unfold non_empty_step, nonempty, b2z. rewrite Z.gtb_ltb. repeat case_bool; simpl; lia.
    + rewrite <- (slot_sizes ty dst HB). by apply (lookup_map_Some slot_size _ _ _ Hnone).
    + rewrite Ha. unfold sizes, set_at, s. by rewrite map_list_insert, (dict_size_abs ty d Hdw).
    + rewrite (fr_nonempty _ _ HF). done.
Qed.
End move.

(** C35: moving a dictionary between stores moves its keys and their count, and
    gets both counters of non-empty dictionaries wrong: the count is taken while
    the source still holds the dictionary, so the source keeps counting it (or,
    for an empty dictionary, counts one too few), and the target counts it only
    when it has exactly one key. *)
Theorem kvstoreMoveDict_miscounts {K SK V : Type} `{Countable K} (ty : dictType K SK V) (laws : DictTypeLaws ty)
    (kvs dst : kvstore SK V) (didx : Z) (kd : kvdict SK V) :
  kv_wf ty kvs -> kv_wf ty dst -> num_dicts dst = num_dicts kvs -> 0 <= didx ->
  dicts kvs !! Z.to_nat didx = Some (Some kd) -> dicts dst !! Z.to_nat didx = Some None ->
  let s := dictSize (kd_dict kd) in
  s <= LLONG_MAX -> key_count dst + s < 2 ^ 64 ->
  exists kvs' dst', kvstoreMoveDict kvs dst didx = Ok (kvs', dst') /\
    kabs ty kvs' = set_at (kabs ty kvs) didx ∅ /\ kabs ty dst' = set_at (kabs ty dst) didx (abs ty (kd_dict kd)) /\
    kvstoreSize kvs' = kvstoreSize kvs - s /\ kvstoreSize dst' = kvstoreSize dst + s /\
    kvstoreNumNonEmptyDicts kvs' = true_non_empty ty kvs' + (if s =? 0 then -1 else 1) /\
    kvstoreNumNonEmptyDicts dst' = true_non_empty ty dst' + (if s =? 1 then 0 else -1).
Proof.
  intros Hw Hwd Hn Hd Hkd Hnone s Hs Hroom. pose proof (slot_range ty kvs didx _ (kw_books _ _ Hw) Hd Hkd) as Hr.
  unfold kvstoreMoveDict. rewrite Z.gtb_ltb, Hn, Z.eqb_refl, (get_slot _ _ _ Hd Hnone), (get_slot _ _ _ Hd Hkd).
  dec_bool. runr. cbn [negb]. runr.
  destruct (move_source ty kvs didx kd Hw Hd Hkd Hs) as (n1 & kvs1 & kvs2 & -> & Hc1 & Hc2 & Ha & Hk & Hne).
  runr. fold s in Hc1 |- *. rewrite Hc1. runr.
  set (kvs3 := if dictIsRehashing (kd_dict kd) then _ else _).
  assert (kvs3 = callbacks didx kvs1 (leaving_notes (kd_dict kd))) as ->.
  { unfold kvs3, leaving_notes. by destruct (dictIsRehashing (kd_dict kd)). }
  cbv zeta in Hc2. rewrite Hc2. runr. set (kd' := {| kd_dict := kd_dict kd; kd_rehashing_node := _ |}).
  destruct (move_target ty dst didx kd' Hwd Hd Hnone) as (n2 & dst1 & Hal & Hcd & Had & Hkdst & Hned).
  { apply (kb_dict _ _ (kw_books _ _ Hw) _ _ Hkd). }
  { done. }
  { done. }
  rewrite Hal. runr. change (dictSize (kd_dict kd')) with s in Hcd. rewrite Hcd. runr.
  set (dst3 := if dictIsRehashing (kd_dict kd) then _ else _).
  assert (dst3 = callbacks didx dst1 (arriving_notes (kd_dict kd'))) as ->.
  { unfold dst3, arriving_notes. simpl. by destruct (dictIsRehashing (kd_dict kd)). }
  eexists _, _. by split_and!.
Qed.

(** A store after a run. *)
Definition store_after {SK V} (r : result (dictResizeEnable * kvstore SK V * list (@kout SK V))) (k0 : kvstore SK V)
  : kvstore SK V := match r with Ok (_, k, _) => k | Err _ => k0 end.

Definition sample_store (os : list (@kop Z Z Z)) : kvstore Z Z :=
  match kvstoreCreate 2 sample_flags with
  | Ok k0 => store_after (kconc_run (int_type false false) None (fun s => s) (DICT_RESIZE_ENABLE, k0) os) k0
  | Err _ => {| flags := 0; dicts := []; num_dicts := 0; num_dicts_bits := 0; rehashing := []; resize_cursor := 0;
                allocated_dicts := 0; non_empty_dicts := 0; key_count := 0; bucket_count := 0; dict_sizes := None;
                overhead_hashtable_rehashing := 0 |}
  end.

Lemma sample_store_wf os :
  kops_legal (int_type false false) (replicate (Z.to_nat (2 ^ 2)) ∅) os -> zlen os + 1 < 2 ^ 64 ->
  kv_wf (int_type false false) (sample_store os) /\ quiet (sample_store os).
Proof.
  intros Hlg Hlen. destruct (create_run_ok (int_type false false) None (fun s => s) 2 sample_flags DICT_RESIZE_ENABLE os)
    as (kvs0 & cr' & kvs' & rs & Hc & Hr & _ & Hw & Hq & _); [lia|done|done|].
  unfold sample_store. rewrite Hc, Hr. done.
Qed.

Lemma kvstoreMoveDict_miscounts_witness :
  exists kvs' dst', kvstoreMoveDict (sample_store growing_ops) (sample_store []) 1 = Ok (kvs', dst') /\
    kvstoreNumNonEmptyDicts kvs' = true_non_empty (int_type false false) kvs' + 1 /\
    kvstoreNumNonEmptyDicts dst' = true_non_empty (int_type false false) dst' - 1 /\
    kvstoreNumNonEmptyDicts kvs' = 2 /\ kvstoreNumNonEmptyDicts dst' = 0.
Proof.
  destruct (kvstoreMoveDict_miscounts (int_type false false) _ (sample_store growing_ops) (sample_store []) 1
    (match dicts (sample_store growing_ops) !! 1%nat with Some (Some kd) => kd | _ => fresh_kd end))
    as (kvs' & dst' & Hm & _ & _ & _ & _ & Hn & Hd).
  - by apply sample_store_wf; vm_compute.
  - by apply sample_store_wf; vm_compute.
  - by vm_compute.
  - lia.
  - by vm_compute.
  - by vm_compute.
  - by vm_compute.
  - by vm_compute.
  - exists kvs', dst'. split; [exact Hm|]. split; [exact Hn|]. split; [exact Hd|].
    clear Hn Hd. vm_compute in Hm. injection Hm as <- <-. split; reflexivity.
Defined.
