(* ===== verification/KvstoreIter.v ===== *)
(** KvstoreIter: the iterator over all the dictionaries of a store, which runs
    a safe iterator of DictIter in one dictionary after the other. *)

From Stdlib Require Import ZArith Lia Bool.
From S2P Require Import Prelude Bytes Fenwick Dict DictProofs DictOps DictSpec DictIter.
From S2P Require Import Kvstore KvstoreProofs KvstoreOps KvstoreLoops KvstoreSpec KvstoreMove.
From stdpp Require Import base list numbers decidable gmap.

Local Open Scope Z_scope.

(** * The next non-empty slot *)

Lemma first_slot_spec ss :
  (first_slot ss = -1 /\ Forall (fun v => v = 0) ss) \/
  (exists p v, first_slot ss = Z.of_nat p /\ ss !! p = Some v /\ v <> 0 /\ Forall (fun v => v = 0) (take p ss)).
Proof.
  induction ss as [|s ss IH]; [by left|]. simpl. destruct (Z.eqb_spec s 0) as [->|Hne].
  - destruct IH as [[-> Hf]|(p & v & -> & Hv & Hnz & Hf)]; [left; split; [done|by constructor]|right].
    exists (S p), v. split_and!; [|done|done|by constructor]. dec_bool. lia.
  - right. by exists 0%nat, s.
Qed.

Section iterate.
Context {K SK V : Type} `{Countable K}.
Context (ty : dictType K SK V) {laws : DictTypeLaws ty}.
Context (canFreeDict : option (kvstore SK V -> Z -> bool)) (addr0 addr1 garbage : Z).
Local Abbreviation entry := (dictEntry SK V).
Local Abbreviation dict := (dict SK V).
Local Abbreviation kvdict := (kvdict SK V).
Local Abbreviation kvstore := (kvstore SK V).
Local Abbreviation kabs := (kabs ty).
Local Abbreviation kv_wf := (kv_wf ty).
Local Abbreviation iterator := (@kvstoreIterator SK V).

(** The store being iterated over. *)
Context (kvs0 : kvstore) (Hwf : kv_wf kvs0) (Hq : quiet kvs0).
Context (Hword : zsum (sizes (kabs kvs0)) < 2 ^ 64 - 1).
Local Abbreviation ss := (sizes (kabs kvs0)).

Definition slot_elems (s : option kvdict) : list entry :=
  match s with Some kd => dict_elems (kd_dict kd) | None => [] end.

(** The entries of the slots from [i] on. *)
Definition pend (i : nat) : list entry := concat (map slot_elems (drop i (dicts kvs0))).

Lemma slot_elems_size i s : dicts kvs0 !! i = Some s -> ss !! i = Some (zlen (slot_elems s)).
Proof.
  intros Hs. rewrite <- (slot_sizes ty kvs0 (kw_books _ _ Hwf)).
  rewrite (lookup_map_Some slot_size _ _ _ Hs). f_equal. destruct s as [kd|]; [|done]. simpl.
  apply (dictSize_ok ty). apply (kb_dict _ _ (kw_books _ _ Hwf) _ _ Hs).
Qed.

Lemma pend_step i s : dicts kvs0 !! i = Some s -> pend i = slot_elems s ++ pend (S i).
Proof. intros Hs. unfold pend. by rewrite (drop_S _ s) by done. Qed.

Lemma pend_zero i p : Forall (fun v => v = 0) (take p (drop i ss)) -> pend i = pend (i + p).
Proof.
  revert i. induction p as [|p IH]; intros i Hf; [by rewrite Nat.add_0_r|].
  destruct (dicts kvs0 !! i) as [s|] eqn:Hs.
  - pose proof (slot_elems_size i s Hs) as Hz. rewrite (drop_S _ _ _ Hz) in Hf. simpl in Hf.
    apply list.Forall_cons in Hf as [Hz0 Hf]. apply zlen_nil_inv in Hz0.
    rewrite (pend_step i s Hs), Hz0, (IH (S i) Hf). simpl. f_equal. lia.
  - apply lookup_ge_None_1 in Hs. unfold pend. by rewrite !drop_ge by lia.
Qed.

(** Where the iterator goes after slot [i]. *)
Lemma next_spec i :
  -1 <= i < num_dicts kvs0 ->
  (next_slot ss i = -1 /\ pend (Z.to_nat (i + 1)) = []) \/
  (exists kd, let j := next_slot ss i in 0 <= j < num_dicts kvs0 /\ dicts kvs0 !! Z.to_nat j = Some (Some kd) /\
     pend (Z.to_nat (i + 1)) = pend (Z.to_nat j) /\ dict_elems (kd_dict kd) <> []).
Proof.
  intros Hi. unfold next_slot.
  destruct (first_slot_spec (drop (Z.to_nat (i + 1)) ss)) as [[-> Hf]|(p & v & -> & Hv & Hnz & Hf)].
  - left. split; [done|]. rewrite (pend_zero _ (length ss)); [|by rewrite take_ge by (rewrite length_drop; lia)].
    unfold pend. rewrite drop_ge; [done|]. pose proof (sizes_len ty kvs0 Hwf) as Hl.
    pose proof (kb_len _ _ (kw_books _ _ Hwf)). unfold zlen in *. lia.
  - right. dec_bool. rewrite lookup_drop in Hv. pose proof (lookup_lt_Some _ _ _ Hv) as Hlt.
    pose proof (sizes_len ty kvs0 Hwf) as Hl. pose proof (kb_len _ _ (kw_books _ _ Hwf)) as Hl2. unfold zlen in *.
    destruct (lookup_lt_is_Some_2 (dicts kvs0) (Z.to_nat (i + 1) + p)) as [s Hs]; [lia|].
    rewrite (slot_elems_size _ _ Hs) in Hv. destruct s as [kd|]; [|by simplify_eq]. exists kd. cbv zeta.
    replace (Z.to_nat (i + 1 + Z.of_nat p)) with (Z.to_nat (i + 1) + p)%nat by lia.
    split_and!; [lia|lia|done|by apply pend_zero|]. intros E. simpl in Hv. rewrite E in Hv. by simplify_eq.
Qed.

(** The store while the iterator is in slot [i]: its dictionary is paused. *)
Definition paused (i : Z) (kd : kvdict) : kvstore :=
  set_slot kvs0 i (Some {| kd_dict := dictPauseRehashing (kd_dict kd); kd_rehashing_node := kd_rehashing_node kd |}).

Lemma set_slot_id (kvs : kvstore) i s : dicts kvs !! Z.to_nat i = Some s -> set_slot kvs i s = kvs.
Proof. intros Hs. unfold set_slot. rewrite list_insert_id by done. by destruct kvs. Qed.

Lemma set_slot_set (kvs : kvstore) i s s' : set_slot (set_slot kvs i s) i s' = set_slot kvs i s'.
Proof. unfold set_slot. simpl. by rewrite list_insert_insert_eq. Qed.

Lemma clear_tidy (d : dict) : notes d = [] -> clear_notes d = d.
Proof. destruct d. simpl. by intros ->. Qed.

(** An operation that calls nothing back just replaces the dictionary. *)
Lemma on_dict_plain {R} (kvs : kvstore) i kd (op : dict -> result (dict * R)) d' r :
  0 <= i -> dicts kvs !! Z.to_nat i = Some (Some kd) -> notes (kd_dict kd) = [] ->
  op (kd_dict kd) = Ok (d', r) -> notes d' = [] ->
  on_dict kvs i op = Ok (set_slot kvs i (Some {| kd_dict := d'; kd_rehashing_node := kd_rehashing_node kd |}), r).
Proof.
  intros Hi Hkd Hn Hop Hn'. unfold on_dict. rewrite (get_slot _ _ _ Hi Hkd). runr.
  rewrite (clear_tidy _ Hn), Hop. runr. by rewrite (clear_tidy _ Hn'), Hn'.
Qed.

(** A dictionary with keys is not released. *)
Lemma free_kept kvs i kd :
  0 <= i -> dicts kvs !! Z.to_nat i = Some (Some kd) -> dictSize (kd_dict kd) <> 0 ->
  freeDictIfNeeded canFreeDict kvs i = Ok kvs.
Proof.
  intros Hi Hkd Hs. unfold freeDictIfNeeded. destruct (negb (kvs_flag _ _)); [done|].
  rewrite (get_slot _ _ _ Hi Hkd). runr. unfold kvstoreDictSize. rewrite (get_slot _ _ _ Hi Hkd). runr.
  simpl. rewrite (proj2 (Z.eqb_neq _ _) Hs). done.
Qed.

Section in_slot.
Context (i : Z) (kd : kvdict).
Context (Hi : 0 <= i < num_dicts kvs0) (Hkd : dicts kvs0 !! Z.to_nat i = Some (Some kd)).

Lemma slot_dict_wf : dict_wf ty (kd_dict kd).
Proof. apply (kb_dict _ _ (kw_books _ _ Hwf) _ _ Hkd). Qed.

Lemma slot_tidy : notes (kd_dict kd) = [].
Proof. apply (kb_tidy _ _ (kw_books _ _ Hwf) _ _ Hkd). Qed.

Lemma paused_slot :
  dicts (paused i kd) !! Z.to_nat i =
  Some (Some {| kd_dict := dictPauseRehashing (kd_dict kd); kd_rehashing_node := kd_rehashing_node kd |}).
Proof. unfold paused. simpl. apply list_lookup_insert_eq. by eapply lookup_lt_Some. Qed.

(** The iterator in this slot, with [nx] for the slot it remembers as the next. *)
Definition in_slot_to (nx : Z) (di : dictIterator) : iterator :=
  {| ki_didx := i; ki_next_didx := nx; ki_di := di; ki_di_dict := i |}.
Definition in_slot (di : dictIterator) : iterator := in_slot_to (next_slot ss i) di.

Lemma advance nx di l :
  midway ty (dictPauseRehashing (kd_dict kd)) di l ->
  exists di', next_inner addr0 addr1 (paused i kd) (in_slot_to nx di) = Ok (paused i kd, in_slot_to nx di', head l) /\
    it_safe di' = it_safe di /\ it_fingerprint di' = it_fingerprint di /\ 0 <= it_index di' /\
    (l <> [] -> midway ty (dictPauseRehashing (kd_dict kd)) di' (tail l)).
Proof.
  intros Hm. assert (dict_wf ty (dictPauseRehashing (kd_dict kd))) as Hw by apply set_pauserehash_wf, slot_dict_wf.
  destruct (next_ok ty addr0 addr1 _ di l Hw Hm) as (di' & Hs & Hfp & Hidx & Hr). exists di'.
  assert (dictNext addr0 addr1 (dictPauseRehashing (kd_dict kd)) di = Ok (dictPauseRehashing (kd_dict kd), di', head l)) as Hn
    by (destruct l; [done|by destruct Hr]).
  split_and!; [|done..|by destruct l; [|destruct Hr]]. unfold next_inner. cbn [in_slot_to ki_di_dict ki_di].
  rewrite (on_dict_plain (paused i kd) i _ _ (dictPauseRehashing (kd_dict kd)) (di', head l)
             ltac:(lia) paused_slot); [|apply slot_tidy| |apply slot_tidy].
  - cbn [kd_rehashing_node]. by rewrite (set_slot_id _ _ _ paused_slot).
  - cbn [kd_dict]. by rewrite Hn.
Qed.

Lemma leave_inner nx di :
  it_safe di = true -> 0 <= it_index di -> reset_inner addr0 addr1 (paused i kd) (in_slot_to nx di) = Ok kvs0.
Proof.
  intros Hs Hidx. unfold reset_inner. cbn [in_slot_to ki_di ki_di_dict]. dec_bool. cbn [andb].
  rewrite (on_dict_plain (paused i kd) i _ _ (kd_dict kd) tt ltac:(lia) paused_slot); [|apply slot_tidy| |apply slot_tidy].
  - runr. unfold paused. rewrite set_slot_set. f_equal. apply set_slot_id. rewrite Hkd. by destruct kd.
  - cbn [kd_dict]. pose proof (reset_ok addr0 addr1 (kd_dict kd) true (it_fingerprint di) di) as Hreset.
    change (iterated true (kd_dict kd)) with (dictPauseRehashing (kd_dict kd)) in Hreset.
    rewrite Hreset by (try done; rewrite (Hq _ _ Hkd); lia). done.
Qed.

(** A second reset of the inner iterator takes back a pause that is not there. *)
Lemma leave_twice nx di :
  it_safe di = true -> 0 <= it_index di ->
  exists kvs2 kd2, reset_inner addr0 addr1 kvs0 (in_slot_to nx di) = Ok kvs2 /\
    kvs2 = set_slot kvs0 i (Some kd2) /\ pauserehash (kd_dict kd2) = 2 ^ 32 - 1.
Proof.
  intros Hs Hidx. unfold reset_inner. cbn [in_slot_to ki_di ki_di_dict]. dec_bool. cbn [andb].
  rewrite (on_dict_plain kvs0 i kd _ (dictResumeRehashing (kd_dict kd)) tt ltac:(lia) Hkd); [|apply slot_tidy| |apply slot_tidy].
  - runr. eexists _, _. split; [done|]. split; [done|]. cbn. by rewrite (Hq _ _ Hkd).
  - unfold dictResetIterator. dec_bool. cbn [andb negb]. by rewrite Hs.
Qed.

Context (Hne : dict_elems (kd_dict kd) <> []).

Lemma enter_slot :
  exists di e l, dict_elems (kd_dict kd) = e :: l /\
    next_inner addr0 addr1 kvs0 (in_slot (dictInitSafeIterator garbage)) = Ok (paused i kd, in_slot di, Some e) /\
    midway ty (dictPauseRehashing (kd_dict kd)) di l /\ it_safe di = true /\ it_fingerprint di = garbage.
Proof.
  destruct (iter_first_ok ty addr0 addr1 (kd_dict kd) true garbage slot_dict_wf) as (di & Hs & Hfp & _ & Hr).
  destruct (dict_elems (kd_dict kd)) as [|e l]; [done|]. destruct Hr as [Hn Hm]. exists di, e, l.
  split; [done|]. split; [|done]. unfold next_inner. cbn [in_slot in_slot_to ki_di_dict ki_di].
  rewrite (on_dict_plain kvs0 i kd _ (dictPauseRehashing (kd_dict kd)) (di, Some e)); [done|lia|done|apply slot_tidy| |apply slot_tidy].
  change (init_iterator true garbage) with (dictInitSafeIterator garbage : @dictIterator SK V) in Hn. by rewrite Hn.
Qed.

Lemma leave_slot di :
  it_safe di = true -> 0 <= it_index di ->
  reset_inner addr0 addr1 (paused i kd) (in_slot di) = Ok kvs0 /\ freeDictIfNeeded canFreeDict kvs0 i = Ok kvs0.
Proof.
  intros Hs Hidx. split; [by apply leave_inner|].
  apply (free_kept kvs0 i kd ltac:(lia) Hkd). rewrite (dictSize_ok ty _ slot_dict_wf).
  by intros ?%zlen_nil_inv.
Qed.
End in_slot.

(** The end of an iteration: the iterator, reset, gives the store back. *)
Lemma reset_slot i kd di :
  0 <= i < num_dicts kvs0 -> dicts kvs0 !! Z.to_nat i = Some (Some kd) -> dict_elems (kd_dict kd) <> [] ->
  it_safe di = true -> 0 <= it_index di ->
  kvstoreIteratorReset canFreeDict addr0 addr1 (paused i kd) (in_slot i di) = Ok kvs0.
Proof.
  intros Hi Hkd Hne Hs Hidx. destruct (leave_slot i kd Hi Hkd Hne di Hs Hidx) as [Hr Hf].
  unfold kvstoreIteratorReset. rewrite Hr. runr. cbn [in_slot in_slot_to ki_didx]. dec_bool. done.
Qed.

Lemma foreach_slots fuel : forall i kd di l,
  0 <= i < num_dicts kvs0 -> dicts kvs0 !! Z.to_nat i = Some (Some kd) -> dict_elems (kd_dict kd) <> [] ->
  midway ty (dictPauseRehashing (kd_dict kd)) di l -> it_safe di = true -> it_fingerprint di = garbage ->
  (length l + length (pend (Z.to_nat (i + 1))) < fuel)%nat ->
  exists kvs1 it', kvstoreForEach canFreeDict addr0 addr1 garbage fuel (paused i kd) (in_slot i di) =
      Ok (kvs1, it', l ++ pend (Z.to_nat (i + 1))) /\
    kvstoreIteratorReset canFreeDict addr0 addr1 kvs1 it' = Ok kvs0.
Proof.
  induction fuel as [|fuel IH]; intros i kd di l Hi Hkd Hne Hm Hs Hfp Hf; [lia|].
  cbn [kvstoreForEach]. unfold kvstoreIteratorNext, in_slot.
  change (ki_di_dict (in_slot_to i (next_slot ss i) di)) with i. dec_bool.
  destruct (advance i kd Hi Hkd (next_slot ss i) di l Hm) as (di' & Hn & Hs' & Hfp' & Hidx & Hm'). rewrite Hn. runr.
  rewrite Hs in Hs'. rewrite Hfp in Hfp'. destruct l as [|e l]; cbn [head].
  2:{ runr. fold (in_slot i di'). destruct (IH i kd di' l Hi Hkd Hne) as (kvs1 & it' & -> & Hrst); try done; [by apply Hm'|simpl in Hf; lia|].
      exists kvs1, it'. by split. }
  destruct (leave_slot i kd Hi Hkd Hne di' Hs' Hidx) as [Hr Hfree].
  unfold kvstoreIteratorNextDict. cbn [in_slot in_slot_to ki_next_didx ki_didx ki_di ki_di_dict].
  destruct (next_spec i ltac:(lia)) as [[E Hp]|(kd2 & Hj & Hkd2 & Hp & Hne2)].
  { exists (paused i kd), (in_slot i di'). split; [|by apply reset_slot].
    unfold in_slot. rewrite E. runr. by rewrite Hp. }
  set (j := next_slot ss i) in *. dec_bool.
  rewrite (get_slot (paused i kd) i _ ltac:(lia) (paused_slot i kd Hkd)). runr.
  unfold in_slot in Hr. fold j in Hr. unfold in_slot_to in Hr |- *. rewrite Hr. runr. rewrite Hfree. runr. rewrite (kv_next_ok ty kvs0 j Hwf Hword Hj). runr.
  rewrite (get_slot kvs0 j _ ltac:(lia) Hkd2). runr. dec_bool.
  destruct (enter_slot j kd2 Hj Hkd2 Hne2) as (di2 & e & l & He & Hen & Hm2 & Hs2 & Hfp2).
  cbn [ki_didx ki_next_didx]. change {| ki_didx := j |} with (in_slot j (dictInitSafeIterator garbage)).
  rewrite Hen. runr. rewrite Hp, (pend_step _ _ Hkd2) in Hf |- *. simpl in Hf |- *. rewrite He in Hf |- *. simpl in Hf |- *.
  replace (S (Z.to_nat j)) with (Z.to_nat (j + 1)) in * by lia. rewrite length_app in Hf.
  destruct (IH j kd2 di2 l Hj Hkd2 Hne2 Hm2 Hs2 Hfp2) as (kvs1 & it' & -> & Hrst); [lia|].
  exists kvs1, it'. by split.
Qed.

(** What freeing leaves of the array of dictionaries. *)
Lemma callbacks_slots i l : forall (kvs : kvstore) kd,
  dicts kvs !! Z.to_nat i = Some (Some kd) ->
  exists b, dicts (callbacks i kvs l) =
    <[Z.to_nat i := Some {| kd_dict := kd_dict kd; kd_rehashing_node := b |}]> (dicts kvs).
Proof.
  induction l as [|n l IH]; intros kvs kd Hkd.
  - exists (kd_rehashing_node kd). simpl. rewrite list_insert_id; [done|]. rewrite Hkd. by destruct kd.
  - destruct (callback_frame i kvs n kd Hkd) as [_ (b1 & D1)].
    destruct (IH (callback i kvs n) {| kd_dict := kd_dict kd; kd_rehashing_node := b1 |}) as (b & Hb).
    { rewrite D1. apply list_lookup_insert_eq. by eapply lookup_lt_Some. }
    exists b. change (callbacks i kvs (n :: l)) with (callbacks i (callback i kvs n) l).
    rewrite Hb, D1. by rewrite list_insert_insert_eq.
Qed.

Lemma free_slots (kvs kvs' : kvstore) i s :
  0 <= i -> dicts kvs !! Z.to_nat i = Some s -> freeDictIfNeeded canFreeDict kvs i = Ok kvs' ->
  kvs' = kvs \/ dicts kvs' = <[Z.to_nat i := None]> (dicts kvs).
Proof.
  intros Hi Hs. unfold freeDictIfNeeded, kvstoreDictSize, kvstoreDictIsRehashingPaused.
  destruct (negb (kvs_flag _ _)); [intros [= ->]; by left|].
  rewrite (get_slot _ _ _ Hi Hs). runr. destruct s as [kd|]; [|intros [= ->]; by left].
  destruct (negb _); [intros [= ->]; by left|]. runr. destruct (_ >? 0); [intros [= ->]; by left|].
  destruct (match canFreeDict with Some f => _ | None => _ end); [intros [= ->]; by left|].
  destruct (dictRelease _) as [ns x]. destruct (chk_i32 _) as [n|]; [|done]. intros [= <-]. right. simpl.
  destruct (callbacks_slots i ns kvs kd Hs) as (b & ->). by rewrite list_insert_insert_eq.
Qed.

(** The iterator at the end of slot [i], when the slot [j] that it remembers
    has been emptied and freed. *)
Lemma stale_next i j kd di :
  0 <= i < num_dicts kvs0 -> dicts kvs0 !! Z.to_nat i = Some (Some kd) ->
  0 <= j < num_dicts kvs0 -> dicts kvs0 !! Z.to_nat j = Some None ->
  midway ty (dictPauseRehashing (kd_dict kd)) di [] -> it_safe di = true ->
  exists kvs1 di', freeDictIfNeeded canFreeDict kvs0 i = Ok kvs1 /\
    it_safe di' = true /\ 0 <= it_index di' /\ dicts kvs1 !! Z.to_nat j = Some None /\
    kvstoreIteratorNext canFreeDict addr0 addr1 garbage (paused i kd) (in_slot_to i j di) =
      Ok (kvs1, {| ki_didx := j; ki_next_didx := next_slot ss j; ki_di := di'; ki_di_dict := i |}, None).
Proof.
  intros Hi Hkd Hj Hnone Hm Hs. unfold kvstoreIteratorNext. change (ki_di_dict (in_slot_to i j di)) with i. dec_bool.
  destruct (advance i kd Hi Hkd j di [] Hm) as (di' & -> & Hs' & _ & Hidx & _).
  rewrite Hs in Hs'. runr. cbn [head]. unfold kvstoreIteratorNextDict. cbn [in_slot_to ki_next_didx ki_didx ki_di ki_di_dict].
  dec_bool. rewrite (get_slot (paused i kd) i _ ltac:(lia) (paused_slot i kd Hkd)). runr.
  rewrite (leave_inner i kd Hi Hkd j di' Hs' Hidx). runr.
  destruct (freeDict_ok ty canFreeDict kvs0 i Hwf Hi) as (kvs1 & Hf & Hwf1 & Hk). rewrite Hf. runr.
  assert (dicts kvs1 !! Z.to_nat j = Some None) as Hnone1.
  { destruct (free_slots kvs0 kvs1 i _ ltac:(lia) Hkd Hf) as [-> | ->]; [done|].
    rewrite list_lookup_insert_ne; [done|]. intros E. rewrite E in Hkd. congruence. }
  rewrite (kv_next_ok ty kvs1 j Hwf1); [|by rewrite (kk_abs _ _ _ Hk)|by rewrite (kk_num _ _ _ Hk)]. runr.
  rewrite (get_slot kvs1 j _ ltac:(lia) Hnone1). runr. rewrite (kk_abs _ _ _ Hk). eauto 10.
Qed.

Lemma first_is_next : first_slot ss = next_slot ss (-1).
Proof. unfold next_slot. simpl. rewrite drop_0. destruct (Z.eqb_spec (first_slot ss) (-1)) as [E|]; [done|lia]. Qed.

Lemma iterate_slots :
  exists it0 kvs1 it', kvstoreIteratorInit garbage kvs0 = Ok it0 /\
    kvstoreForEach canFreeDict addr0 addr1 garbage (S (length (pend 0))) kvs0 it0 = Ok (kvs1, it', pend 0) /\
    kvstoreIteratorReset canFreeDict addr0 addr1 kvs1 it' = Ok kvs0.
Proof.
  unfold kvstoreIteratorInit. rewrite (kv_first_ok ty kvs0 Hwf). runr. rewrite first_is_next.
  cbn [kvstoreForEach]. unfold kvstoreIteratorNext, kvstoreIteratorNextDict.
  pose proof (num_dicts_range ty kvs0 (kw_books _ _ Hwf)) as Hr.
  exists {| ki_didx := -1; ki_next_didx := next_slot ss (-1); ki_di := dictInitSafeIterator garbage; ki_di_dict := -1 |}.
  destruct (next_spec (-1) ltac:(lia)) as [[-> Hp]|(kd & Hj & Hkd & Hp & Hne)]; change (Z.to_nat (-1 + 1)) with 0%nat in Hp.
  - rewrite Hp. eexists _, _. split; [done|]. split; [done|]. done.
  - set (j := next_slot ss (-1)) in *. cbn [ki_di_dict]. change (-1 =? -1) with true.
    cbv iota. runr. cbn [ki_di_dict ki_next_didx ki_didx ki_di].
    rewrite (proj2 (Z.eqb_neq j (-1))) by lia. change (-1 =? -1) with true. cbv iota. runr.
    rewrite (kv_next_ok ty kvs0 j Hwf Hword Hj). runr.
    rewrite (get_slot kvs0 j _ ltac:(lia) Hkd). runr. rewrite (proj2 (Z.eqb_neq j (-1))) by lia.
    destruct (enter_slot j kd Hj Hkd Hne) as (di & e & l & He & Hen & Hm & Hs & Hfp).
    cbn [ki_didx ki_next_didx]. change {| ki_didx := j |} with (in_slot j (dictInitSafeIterator garbage)).
    rewrite Hp, (pend_step _ _ Hkd). cbn [slot_elems]. rewrite He. cbn [app length]. replace (S (Z.to_nat j)) with (Z.to_nat (j + 1)) by lia.
    destruct (foreach_slots (S (length (l ++ pend (Z.to_nat (j + 1))))) j kd di l Hj Hkd Hne Hm Hs Hfp)
      as (kvs1 & it' & Hfe & Hrst); [rewrite length_app; lia|].
    exists kvs1, it'. split; [done|]. split; [|done]. rewrite Hen. runr. by rewrite Hfe.
Qed.
End iterate.

(** The entries of a store, dictionary by dictionary. *)
Definition store_elems {SK V} (kvs : kvstore SK V) : list (dictEntry SK V) := concat (map slot_elems (dicts kvs)).

(** An iteration over an unchanged store returns every entry of every
    dictionary exactly once, in the order of the dictionaries, and then ends;
    resetting the iterator gives back the very store it started from, with no
    dictionary left paused and none released, whatever the progress of rehashing
    in each of them. *)
Theorem kvstoreIterator_visits_all {K SK V : Type} `{Countable K} (ty : dictType K SK V) (laws : DictTypeLaws ty)
    (canFreeDict : option (kvstore SK V -> Z -> bool)) (addr0 addr1 garbage : Z) (kvs : kvstore SK V) :
  kv_wf ty kvs -> quiet kvs -> kvstoreSize kvs < 2 ^ 64 - 1 ->
  exists it0 kvs1 it', kvstoreIteratorInit garbage kvs = Ok it0 /\
    kvstoreForEach canFreeDict addr0 addr1 garbage (S (length (store_elems kvs))) kvs it0 =
      Ok (kvs1, it', store_elems kvs) /\
    kvstoreIteratorReset canFreeDict addr0 addr1 kvs1 it' = Ok kvs.
Proof.
  intros Hwf Hq Hw. unfold kvstoreSize in Hw. rewrite (key_count_sizes ty kvs Hwf) in Hw.
  exact (iterate_slots ty canFreeDict addr0 addr1 garbage kvs Hwf Hq Hw).
Qed.

Lemma kvstoreIterator_visits_all_witness :
  exists it0 kvs1 it', kvstoreIteratorInit 0 (sample_store growing_ops) = Ok it0 /\
    kvstoreForEach None 4096 8192 0 (S (length (store_elems (sample_store growing_ops)))) (sample_store growing_ops) it0 =
      Ok (kvs1, it', store_elems (sample_store growing_ops)) /\
    length (store_elems (sample_store growing_ops)) = 6%nat /\
    kvstoreIteratorReset None 4096 8192 kvs1 it' = Ok (sample_store growing_ops).
Proof.
  destruct (kvstoreIterator_visits_all (int_type false false) _ None 4096 8192 0 (sample_store growing_ops))
    as (it0 & kvs1 & it' & Hi & Hf & Hr).
  - by apply sample_store_wf; vm_compute.
  - by apply sample_store_wf; vm_compute.
  - by vm_compute.
  - exists it0, kvs1, it'. split; [exact Hi|]. split; [exact Hf|]. split; [by vm_compute|exact Hr].
Defined.

(** * Deleting during an iteration *)

Definition pause_of {SK V} (kvs : kvstore SK V) (i : Z) : option Z :=
  match dicts kvs !! Z.to_nat i with Some (Some kd) => Some (pauserehash (kd_dict kd)) | _ => None end.

(** C36: the iterator remembers the next dictionary when it enters the current
    one.  In any store where that next dictionary, [j], has been emptied and
    freed by the time the current one, [i], is exhausted, the iteration ends:
    the next call returns NULL, whatever keys the later dictionaries hold.  By
    then the inner iterator has been reset, and dictionary [i] freed if it was
    empty.  Resetting the store's iterator resets the inner one again: if
    dictionary [i] is still there its pause counter goes below zero and wraps
    to its largest value, which stops rehashing in it for good; otherwise the
    reset accesses the dictionary that was freed. *)
Theorem kvstoreIterator_stale_next {K SK V : Type} `{Countable K} (ty : dictType K SK V) (laws : DictTypeLaws ty)
    (canFreeDict : option (kvstore SK V -> Z -> bool)) (addr0 addr1 garbage : Z) (kvs : kvstore SK V)
    (i j : Z) (kd : kvdict SK V) (di : @dictIterator SK V) :
  kv_wf ty kvs -> quiet kvs -> kvstoreSize kvs < 2 ^ 64 - 1 ->
  0 <= i < num_dicts kvs -> dicts kvs !! Z.to_nat i = Some (Some kd) ->
  0 <= j < num_dicts kvs -> dicts kvs !! Z.to_nat j = Some None ->
  midway ty (dictPauseRehashing (kd_dict kd)) di [] -> it_safe di = true ->
  exists kvs1 it1,
    kvstoreIteratorNext canFreeDict addr0 addr1 garbage (paused kvs i kd)
      {| ki_didx := i; ki_next_didx := j; ki_di := di; ki_di_dict := i |} = Ok (kvs1, it1, None) /\
    freeDictIfNeeded canFreeDict kvs i = Ok kvs1 /\
    match pause_of kvs1 i with
    | Some _ => exists kvs2, kvstoreIteratorReset canFreeDict addr0 addr1 kvs1 it1 = Ok kvs2 /\
                  pause_of kvs2 i = Some (2 ^ 32 - 1)
    | None => kvstoreIteratorReset canFreeDict addr0 addr1 kvs1 it1 = Err NullDeref
    end.
Proof.
  intros Hwf Hq Hw Hi Hkd Hj Hnone Hm Hs. unfold kvstoreSize in Hw. rewrite (key_count_sizes ty kvs Hwf) in Hw.
  destruct (stale_next ty canFreeDict addr0 addr1 garbage kvs Hwf Hq Hw i j kd di Hi Hkd Hj Hnone Hm Hs)
    as (kvs1 & di' & Hf & Hs' & Hidx & Hnone1 & Hn).
  eexists _, _. split; [exact Hn|]. split; [done|]. unfold kvstoreIteratorReset. cbn [ki_didx].
  set (nx := next_slot _ j). clearbody nx.
  assert (dicts kvs1 !! Z.to_nat i = Some (Some kd) /\ kvs1 = kvs \/ dicts kvs1 !! Z.to_nat i = Some None) as [[Hs1 ->] | Hs1].
  { destruct (free_slots canFreeDict kvs kvs1 i _ ltac:(lia) Hkd Hf) as [-> | ->]; [by left|right].
    apply list_lookup_insert_eq. by eapply lookup_lt_Some. }
  - unfold pause_of at 1. rewrite Hs1.
    destruct (leave_twice ty addr0 addr1 kvs Hwf Hq i kd Hi Hkd nx di' Hs' Hidx) as (kvs2 & kd2 & Hr & -> & Hp).
    unfold reset_inner in *. cbn [in_slot_to ki_di ki_di_dict] in *. rewrite Hr. runr. dec_bool.
    exists (set_slot kvs i (Some kd2)). split.
    + unfold freeDictIfNeeded. destruct (negb (kvs_flag _ _)); [done|].
      assert (i <> j) as Hij by (intros ->; congruence).
      rewrite (get_slot _ j None); [done|lia|]. unfold set_slot. cbn. rewrite list_lookup_insert_ne by lia. done.
    + unfold pause_of, set_slot. cbn. rewrite list_lookup_insert_eq by (by eapply lookup_lt_Some). by rewrite Hp.
  - unfold pause_of. rewrite Hs1. unfold reset_inner. cbn [ki_di ki_di_dict]. dec_bool. cbn [andb].
    unfold on_dict. rewrite (get_slot _ i None) by (done || lia). done.
Qed.

(** One key in each of the dictionaries 1, 2 and 3; the first entry is taken,
    and then the only key of dictionary 2 is deleted. *)
Definition stale_state : result (kvstore Z Z * @kvstoreIterator Z Z) :=
  let kvs := sample_store [KAdd 1 10 100; KAdd 2 20 200; KAdd 3 30 300] in
  let* it := kvstoreIteratorInit 0 kvs in
  let* (kvs, it, _) := kvstoreIteratorNext None 4096 8192 0 kvs it in
  let* (_, kvs, _) := kconc_run (int_type false false) None (fun s => s) (DICT_RESIZE_ENABLE, kvs) [KDelete 2 20] in
  Ok (kvs, it).

Lemma kvstoreIterator_stale_next_witness :
  exists kvs it kvs1 it1 kvs2, stale_state = Ok (kvs, it) /\
    kvstoreIteratorNext None 4096 8192 0 kvs it = Ok (kvs1, it1, None) /\
    kvstoreSize kvs1 = 2 /\ kvstoreIteratorReset None 4096 8192 kvs1 it1 = Ok kvs2 /\
    pause_of kvs2 1 = Some (2 ^ 32 - 1).
Proof.
  pose (kvs := sample_store [KAdd 1 10 100; KAdd 2 20 200; KAdd 3 30 300; KDelete 2 20]).
  assert (kv_wf (int_type false false) kvs /\ quiet kvs) as [Hwf Hq] by (by apply sample_store_wf; vm_compute).
  evar (kd : kvdict Z Z). evar (kvs0 : kvstore Z Z). evar (it : @kvstoreIterator Z Z).
  assert (dicts kvs !! Z.to_nat 1 = Some (Some kd)) as Hkd by (vm_compute; reflexivity).
  assert (stale_state = Ok (kvs0, it)) as Hst by (vm_compute; reflexivity).
  destruct (kvstoreIterator_stale_next (int_type false false) _ None 4096 8192 0 kvs 1 2 kd (ki_di it) Hwf Hq)
    as (kvs1 & it1 & Hn & Hf & Hr).
  - vm_compute. reflexivity.
  - vm_compute. split; [intros E; discriminate E | reflexivity].
  - exact Hkd.
  - vm_compute. split; [intros E; discriminate E | reflexivity].
  - vm_compute. reflexivity.
  - clear. constructor.
    + intros E. discriminate E.
    + vm_compute. constructor.
    + vm_compute. repeat split; try (intros E; discriminate E). left. reflexivity.
    + vm_compute. reflexivity.
  - vm_compute. reflexivity.
  - exists kvs0, it, kvs1, it1. clear Hwf Hq.
    change (paused kvs 1 kd) with kvs0 in Hn.
    replace {| ki_didx := 1; ki_next_didx := 2; ki_di := ki_di it; ki_di_dict := 1 |} with it in Hn by (vm_compute; reflexivity).
    assert (freeDictIfNeeded None kvs 1 = Ok kvs) as Hk by (vm_compute; reflexivity).
    assert (kvstoreSize kvs = 2) as Hsz by (vm_compute; reflexivity).
    assert (pause_of kvs 1 = Some 0) as Hpz by (vm_compute; reflexivity).
    clearbody kvs. rewrite Hk in Hf. injection Hf as <-. rewrite Hpz in Hr.
    destruct Hr as (kvs2 & Hr & Hp). exists kvs2.
    split; [exact Hst|]. split; [exact Hn|]. split; [exact Hsz|]. split; [exact Hr | exact Hp].
Defined.
