(* ===== verification/KvstoreScan.v ===== *)
(** KvstoreScan: the cursor over all the dictionaries of a store.

    The low bits of a cursor are the index of a dictionary, the others the
    cursor inside it.  A scan of the whole keyspace that runs while the keyspace
    changes ends, and misses no key that stays: the theorem puts the cursor of
    DictScan and the Fenwick tree of the sizes together. *)

From Stdlib Require Import ZArith Lia Bool.
From S2P Require Import Prelude Bytes Fenwick Dict DictProofs DictOps DictSpec DictScan.
From S2P Require Import Kvstore KvstoreProofs KvstoreOps KvstoreLoops KvstoreSpec KvstoreMove KvstoreIter.
From stdpp Require Import base list numbers decidable gmap.

Local Open Scope Z_scope.

(** A cursor whose position is a multiple of the bucket width of a table of
    2^B buckets fits in B bits. *)
Lemma cursor_small B v :
  exp_ok B -> 0 <= v < 2 ^ 64 -> (2 ^ (64 - B) | rounds v) -> v < 2 ^ B.
Proof.
  unfold exp_ok. intros HB Hv [q Hq]. assert (v = v mod 2 ^ B) as ->; [|apply Z.mod_pos_bound, Z.pow_pos_nonneg; lia].
  apply Z.bits_inj'. intros i Hi. destruct (Z.lt_ge_cases i B).
  - by rewrite Z.mod_pow2_bits_low.
  - rewrite Z.mod_pow2_bits_high by lia. destruct (Z.lt_ge_cases i 64); [|by apply word_high].
    rewrite <- (rounds_invol v Hv), rounds_testbit, Hq by lia. apply Z.mul_pow2_bits_low. lia.
Qed.

Section cursors.
Context {SK V : Type} (kvs : kvstore SK V) (bits : Z).
Context (Hbits : 0 <= bits <= 16) (Hb : num_dicts_bits kvs = bits) (Hn : num_dicts kvs = 2 ^ bits).

Lemma add_index didx v :
  0 <= didx < 2 ^ bits -> 0 <= v < 2 ^ (64 - bits) -> addDictIndexToCursor kvs didx v = v * 2 ^ bits + didx.
Proof.
  intros Hd Hv. unfold addDictIndexToCursor. rewrite Hn, Hb.
  destruct (Z.eqb_spec (2 ^ bits) 1) as [E|E]; [rewrite E in Hd |- *; lia|]. dec_bool.
  assert (2 ^ bits * 2 ^ (64 - bits) = 2 ^ 64) as Hp by (rewrite <- Z.pow_add_r by lia; f_equal; lia).
  rewrite (wrapU_small 64 (Z.shiftl v bits)), (wrapU_small 64 didx) by (rewrite ?Z.shiftl_mul_pow2 by lia; nia).
  rewrite Z.lor_comm, lor_disjoint by lia. lia.
Qed.

Lemma get_index didx v :
  0 <= didx < 2 ^ bits -> 0 <= v < 2 ^ (64 - bits) ->
  getAndClearDictIndexFromCursor kvs (v * 2 ^ bits + didx) = (didx, v).
Proof.
  intros Hd Hv. unfold getAndClearDictIndexFromCursor. rewrite Hn, Hb.
  destruct (Z.eqb_spec (2 ^ bits) 1) as [E|E]; [rewrite E in Hd |- *; f_equal; lia|].
  assert (2 ^ bits <= 2 ^ 16) by (apply Z.pow_le_mono_r; lia).
  replace (2 ^ bits - 1) with (Z.ones bits) by (rewrite Z.ones_equiv; lia).
  rewrite Z.land_ones, Z.shiftr_div_pow2 by lia.
  rewrite Z.add_comm, Z_mod_plus_full, Z.mod_small, Z.div_add, Z.div_small by lia.
  rewrite wrapS_small by (simpl; lia). f_equal.
Qed.
End cursors.

(** * A whole scan *)

(** Scan from cursor [c]; the i-th call finds the store [ks i], which other
    operations may have changed in any way between the calls.  Each call reports
    the index of the dictionary it looked at and the entries. *)
Fixpoint kvscan_from {SK V} (canFreeDict : option (kvstore SK V -> Z -> bool)) (fuel : nat)
    (ks : nat -> kvstore SK V) (i : nat) (c : Z) : result (list (Z * list (dictEntry SK V))) :=
  match fuel with
  | O => Err OutOfFuel
  | S fuel =>
      let didx := (getAndClearDictIndexFromCursor (ks i) c).1 in
      let* (_, c, es) := kvstoreScan canFreeDict (ks i) c (-1) (fun _ _ => false) in
      if c =? 0 then Ok [(didx, es)]
      else let* l := kvscan_from canFreeDict fuel ks (S i) c in Ok ((didx, es) :: l)
  end.

Section scan_step.
Context {K SK V : Type} `{Countable K}.
Context (ty : dictType K SK V) {laws : DictTypeLaws ty}.
Context (canFreeDict : option (kvstore SK V -> Z -> bool)).
Context (kvs : kvstore SK V) (bits B : Z).
Context (Hwf : kv_wf ty kvs) (Hq : quiet kvs) (Hword : zsum (sizes (kabs ty kvs)) < 2 ^ 64 - 1).
Context (Hbits : num_dicts_bits kvs = bits) (HB : 0 <= B <= 60) (HBb : B + bits <= 64).
Context (Hsmall : forall i kd, dicts kvs !! i = Some (Some kd) ->
  ht_size_exp (ht0 (kd_dict kd)) <= B /\ ht_size_exp (ht1 (kd_dict kd)) <= B).
Local Abbreviation kabs := (kabs ty).

(** What a call of dictScan with cursor [v] leaves, on the slot [s]. *)
Record scanned (s : option (kvdict SK V)) (v v' : Z) (es : list (dictEntry SK V)) : Prop := {
  sc_word : 0 <= v' < 2 ^ 64;
  sc_sub : forall e, e ∈ es -> e ∈ slot_elems s;
  sc_cover : forall e, e ∈ slot_elems s -> rounds v <= key_pos ty (entry_key ty e) < end_pos v' -> e ∈ es;
  sc_mult : v' <> 0 -> (2 ^ (64 - B) | rounds v');
  sc_less : rounds v < end_pos v';
}.

Lemma scan_slot kd i v :
  dicts kvs !! i = Some (Some kd) -> 0 <= v < 2 ^ 64 ->
  exists v' es, dictScan (clear_notes (kd_dict kd)) v = Ok (clear_notes (kd_dict kd), v', es) /\
    scanned (Some kd) v v' es.
Proof.
  intros Hkd Hv. pose proof (kb_dict _ _ (kw_books _ _ Hwf) _ _ Hkd) as [Hdw _ Hp].
  destruct (dictScan_ok ty (clear_notes (kd_dict kd)) v (clear_notes_wf ty _ Hdw) Hp Hv)
    as (v' & es & Hs & Hv' & Hsub & Hcov & Hnx & Hlt).
  exists v', es. split; [done|]. constructor; try done. intros Hne.
  assert (end_pos v' = rounds v') as Hend by (unfold end_pos; by rewrite (proj2 (Z.eqb_neq _ _) Hne)).
  rewrite Hend in *. pose proof (rounds_range v'). pose proof (rounds_range v).
  destruct Hnx as [E|(k & Hor & Hk & ->)]; [lia|]. apply next_pos_multiple; [done|done| |lia].
  destruct (Hsmall _ _ Hkd). destruct Hor as [-> | ->]; simpl; lia.
Qed.

(** One call on the whole store: it goes on in the dictionary, or to the next
    one that holds keys, or ends. *)
Lemma kvscan_step didx v :
  0 <= didx < num_dicts kvs -> 0 <= v < 2 ^ B ->
  exists s kvs' v' es, dicts kvs !! Z.to_nat didx = Some s /\ scanned s v v' es /\
    kvstoreScan canFreeDict kvs (v * 2 ^ bits + didx) (-1) (fun _ _ => false) =
    Ok (kvs', (if v' =? 0 then (let j := next_slot (sizes (kabs kvs)) didx in if j =? -1 then 0 else j)
               else v' * 2 ^ bits + didx), es).
Proof.
  intros Hd Hv. pose proof (kw_books _ _ Hwf) as HBk. pose proof (kb_bits _ _ HBk) as Hb. rewrite Hbits in Hb.
  pose proof (kb_num _ _ HBk) as Hn. rewrite Hbits in Hn.
  assert (2 ^ B <= 2 ^ (64 - bits)) as HpB by (apply Z.pow_le_mono_r; lia).
  assert (2 ^ (64 - bits) <= 2 ^ 64) as Hp64 by (apply Z.pow_le_mono_r; lia).
  destruct (slot_at ty kvs didx HBk Hd) as (s & Hg & Hs). unfold kvstoreScan.
  rewrite (get_index kvs bits Hb Hbits Hn) by lia. cbv beta iota. change (-1 >=? 0) with false. cbn [andb]. runr.
  rewrite Hg. runr. exists s. destruct s as [kd|].
  - destruct (scan_slot kd _ v Hs) as (v' & es & Hscan & Hsc); [lia|].
    destruct (on_dict_maintains ty kvs didx kd Hwf ltac:(lia) Hs
      (fun d => let* (d, v, es) := dictScan d v in Ok (d, (v, es))) (clear_notes (kd_dict kd)) (v', es))
      as (kvs1 & -> & Hst & _).
    { by rewrite Hscan. }
    { apply maintains_refl. apply clear_notes_wf. apply (kb_dict _ _ HBk _ _ Hs). }
    runr. destruct (free_steps ty canFreeDict kvs1 didx (st_wf _ _ _ _ Hst)) as (kvs2 & -> & Hst2).
    { by rewrite (st_num _ _ _ _ Hst). }
    runr. cbn [fst snd]. rewrite orb_false_r. rewrite (st_abs _ _ _ _ Hst) in Hst2.
    assert (num_dicts kvs2 = num_dicts kvs) as Hn2 by (rewrite (st_num _ _ _ _ Hst2); apply Hst).
    assert (num_dicts_bits kvs2 = bits) as Hb2.
    { pose proof (kb_num _ _ (kw_books _ _ (st_wf _ _ _ _ Hst2))) as E. rewrite Hn2, Hn in E.
      pose proof (kb_bits _ _ (kw_books _ _ (st_wf _ _ _ _ Hst2))). symmetry. apply (Z.pow_inj_r 2); lia || done. }
    exists kvs2, v', es. split; [done|]. split; [done|]. destruct (Z.eqb_spec v' 0) as [->|Hne].
    + rewrite (kv_next_ok ty kvs2 didx (st_wf _ _ _ _ Hst2)); rewrite ?(st_abs _ _ _ _ Hst2), ?Hn2; try done.
      runr. destruct (Z.eqb_spec (next_slot (sizes (kabs kvs)) didx) (-1)); [done|].
      destruct (next_spec ty kvs Hwf didx ltac:(lia)) as [[? _]|(kd2 & Hj & _)]; [done|].
      rewrite (add_index kvs2 bits Hb Hb2) by (rewrite ?Hn2; lia || (rewrite <- ?Hn; lia)). done.
    + dec_bool. pose proof (sc_word _ _ _ _ Hsc).
      assert (v' < 2 ^ B) by (apply cursor_small; [done|done|by apply Hsc]).
      rewrite (add_index kvs2 bits Hb Hb2) by (rewrite ?Hn2; lia). done.
  - exists kvs, 0, []. split; [done|]. split.
    { constructor; [lia|by intros e ?%not_elem_of_nil|by intros e ?%not_elem_of_nil|done|].
      change (end_pos 0) with (2 ^ 64). apply rounds_range. }
    cbv beta iota zeta. runr. change (0 =? 0) with true. cbn [orb].
    rewrite (kv_next_ok ty kvs didx Hwf Hword Hd). runr.
    destruct (Z.eqb_spec (next_slot (sizes (kabs kvs)) didx) (-1)); [done|].
    destruct (next_spec ty kvs Hwf didx ltac:(lia)) as [[? _]|(kd2 & Hj & _)]; [done|].
    rewrite (add_index kvs bits Hb Hbits) by (lia || (rewrite <- ?Hn; lia)). done.
Qed.
End scan_step.

Lemma next_slot_gt ss i : next_slot ss i <> -1 -> i < next_slot ss i.
Proof.
  unfold next_slot. destruct (first_slot_spec (drop (Z.to_nat (i + 1)) ss)) as [[-> _]|(p & v & -> & _)]; [done|].
  dec_bool. lia.
Qed.

(** No slot with keys is jumped over. *)
Lemma next_slot_le ss i s v :
  0 <= i < s -> ss !! Z.to_nat s = Some v -> v <> 0 -> next_slot ss i <> -1 /\ next_slot ss i <= s.
Proof.
  intros Hs Hv Hnz. unfold next_slot.
  assert (drop (Z.to_nat (i + 1)) ss !! Z.to_nat (s - i - 1) = Some v) as Hd.
  { rewrite lookup_drop. by replace (Z.to_nat (i + 1) + Z.to_nat (s - i - 1))%nat with (Z.to_nat s) by lia. }
  destruct (first_slot_spec (drop (Z.to_nat (i + 1)) ss)) as [[-> Hf]|(p & w & -> & _ & _ & Hf)].
  - by rewrite (list.Forall_lookup_1 _ _ _ _ Hf Hd) in Hnz.
  - dec_bool. split; [lia|]. destruct (Z.le_gt_cases (i + 1 + Z.of_nat p) s) as [|Hgt]; [done|].
    destruct Hnz. apply (list.Forall_lookup_1 _ _ (Z.to_nat (s - i - 1)) v Hf). rewrite lookup_take_lt by lia. done.
Qed.

Section whole_scan.
Context {K SK V : Type} `{Countable K}.
Context (ty : dictType K SK V) {laws : DictTypeLaws ty}.
Context (canFreeDict : option (kvstore SK V -> Z -> bool)).
Context (ks : nat -> kvstore SK V) (bits B : Z).
Context (ks_wf : forall i, kv_wf ty (ks i)).
Context (ks_word : forall i, zsum (sizes (kabs ty (ks i))) < 2 ^ 64 - 1).
Context (ks_bits : forall i, num_dicts_bits (ks i) = bits).
Context (B_ok : 0 <= B <= 60) (B_fits : B + bits <= 64).
Context (ks_small : forall i j kd, dicts (ks i) !! j = Some (Some kd) ->
  ht_size_exp (ht0 (kd_dict kd)) <= B /\ ht_size_exp (ht1 (kd_dict kd)) <= B).

(** The entry is in dictionary [s] of the store. *)
Definition stored_in (kvs : kvstore SK V) (s : Z) (e : dictEntry SK V) : Prop :=
  exists sl, dicts kvs !! Z.to_nat s = Some sl /\ e ∈ slot_elems sl.

(** The key is in dictionary [s] from call [i] on. *)
Definition stays (i : nat) (s : Z) (key : K) : Prop :=
  forall j, (i <= j)%nat -> exists e, stored_in (ks j) s e /\ entry_key ty e = key.

Local Abbreviation N := (2 ^ bits).
Local Abbreviation W := (2 ^ (64 - B)).

Lemma stored_size kvs s e :
  kv_wf ty kvs -> stored_in kvs s e -> exists v, sizes (kabs ty kvs) !! Z.to_nat s = Some v /\ v <> 0.
Proof.
  intros Hwf (sl & Hs & He). exists (zlen (slot_elems sl)). split; [by apply slot_elems_size|].
  intros E%zlen_nil_inv. rewrite E in He. by apply not_elem_of_nil in He.
Qed.

(** The outcome of a scan that starts in dictionary [didx] at cursor [v]. *)
Definition scan_outcome (i : nat) (didx v : Z) (l : list (Z * list (dictEntry SK V))) : Prop :=
  (forall j d es, l !! j = Some (d, es) -> forall e, e ∈ es -> stored_in (ks (i + j)) d e) /\
  (forall s key, didx <= s < N -> (s = didx -> rounds v <= key_pos ty key) -> stays i s key ->
     exists es e, (s, es) ∈ l /\ e ∈ es /\ entry_key ty e = key).

(** The call that starts the scan, then the rest of it. *)
Lemma outcome_cons i didx v sl v' es didx2 v2 l :
  dicts (ks i) !! Z.to_nat didx = Some sl -> scanned ty B sl v v' es ->
  scan_outcome (S i) didx2 v2 l ->
  (v' <> 0 /\ didx2 = didx /\ v2 = v') \/
  (v' = 0 /\ v2 = 0 /\ forall s key, didx < s -> stays i s key -> didx2 <= s) ->
  scan_outcome i didx v ((didx, es) :: l).
Proof.
  intros Hsl Hsc [Hsub Hcov] Hnext. split.
  - intros [|j] d es' Hj e He; simplify_eq/=.
    + rewrite Nat.add_0_r. exists sl. split; [done|by apply Hsc].
    + rewrite Nat.add_succ_r. by apply (Hsub j d es').
  - intros s key Hs Hpos Hst. assert (stays (S i) s key) as Hst' by (intros j Hj; apply Hst; lia).
    destruct (Z.eq_dec s didx) as [->|Hne].
    + destruct (Z.lt_ge_cases (key_pos ty key) (end_pos v')) as [Hlt|Hge].
      * destruct (Hst i) as (e & (sl' & Hs' & He) & <-); [done|]. rewrite Hsl in Hs'. simplify_eq.
        exists es, e. split; [by left|]. split; [|done]. apply (sc_cover _ _ _ _ _ _ Hsc); [done|]. split; [by apply Hpos|done].
      * assert (0 <= key_pos ty key < 2 ^ 64) by apply rounds_range.
        destruct Hnext as [(Hv' & -> & ->)|(-> & _)]; [|change (end_pos 0) with (2 ^ 64) in Hge; lia].
        destruct (Hcov didx key) as (es' & e & Hin & He); [lia| |done|].
        { intros _. unfold end_pos in Hge. rewrite (proj2 (Z.eqb_neq _ _) Hv') in Hge. lia. }
        exists es', e. split; [by right|done].
    + destruct Hnext as [(_ & -> & ->)|(-> & -> & Hle)].
      * destruct (Hcov s key Hs) as (es' & e & Hin & He); [done|done|]. exists es', e. split; [by right|done].
      * destruct (Hcov s key) as (es' & e & Hin & He); [split; [apply (Hle s key); [lia|done]|lia]| |done|].
        { intros _. change (rounds 0) with 0. apply rounds_range. }
        exists es', e. split; [by right|done].
Qed.

Lemma outcome_last i didx v sl es :
  dicts (ks i) !! Z.to_nat didx = Some sl -> scanned ty B sl v 0 es ->
  (forall s key, didx < s < N -> stays i s key -> False) ->
  scan_outcome i didx v [(didx, es)].
Proof.
  intros Hsl Hsc Hnone. split.
  - intros [|j] d es' Hj e He; [|done]. simplify_eq/=. rewrite Nat.add_0_r. exists sl. split; [done|by apply Hsc].
  - intros s key Hs Hpos Hst. destruct (Z.eq_dec s didx) as [->|Hne]; [|destruct (Hnone s key); [lia|done]].
    destruct (Hst i) as (e & (sl' & Hs' & He) & <-); [done|]. rewrite Hsl in Hs'. simplify_eq.
    exists es, e. split; [by left|]. split; [|done]. apply (sc_cover _ _ _ _ _ _ Hsc); [done|].
    change (end_pos 0) with (2 ^ 64). split; [by apply Hpos|apply rounds_range].
Qed.

Lemma kvscan_ok fuel : forall i didx v,
  0 <= didx < N -> 0 <= v < 2 ^ B -> (W | rounds v) -> (N - didx) * 2 ^ B - rounds v / W <= Z.of_nat fuel ->
  exists l, kvscan_from canFreeDict fuel ks i (v * 2 ^ bits + didx) = Ok l /\ (length l <= fuel)%nat /\
    scan_outcome i didx v l.
Proof.
  assert (0 < W) as HW by (apply Z.pow_pos_nonneg; lia). pose proof (exp_pow B B_ok) as HpB.
  assert (2 ^ 64 = 2 ^ B * W) as H64 by (rewrite <- Z.pow_add_r by lia; f_equal; lia).
  induction fuel as [|fuel IH]; intros i didx v Hd Hv Hm Hf; pose proof (rounds_range v) as Hr;
    (assert (0 <= rounds v / W < 2 ^ B) as Hq by (split; [apply Z.div_pos; lia|apply Z.div_lt_upper_bound; nia]));
    [nia|].
  pose proof (kb_bits _ _ (kw_books _ _ (ks_wf i))) as Hb. rewrite ks_bits in Hb.
  pose proof (kb_num _ _ (kw_books _ _ (ks_wf i))) as Hn. rewrite ks_bits in Hn.
  destruct (kvscan_step ty canFreeDict (ks i) bits B (ks_wf i) (ks_word i) (ks_bits i) B_ok B_fits (ks_small i) didx v)
    as (sl & kvs' & v' & es & Hsl & Hsc & Hstep); [lia|done|].
  assert (2 ^ B <= 2 ^ (64 - bits)) by (apply Z.pow_le_mono_r; lia).
  cbn [kvscan_from]. rewrite (get_index (ks i) bits Hb (ks_bits i) Hn didx v Hd) by lia. rewrite Hstep. runr. cbn [fst].
  destruct (Z.eqb_spec v' 0) as [->|Hne].
  - set (j := next_slot (sizes (kabs ty (ks i))) didx). cbv zeta.
    assert (forall s key, didx < s -> stays i s key -> j <> -1 /\ j <= s) as Hle.
    { intros s key Hs Hst. destruct (Hst i) as (e & He & _); [done|].
      destruct (stored_size (ks i) s e (ks_wf i) He) as (x & Hx & Hnz). apply (next_slot_le _ didx s x); [lia|done|done]. }
    destruct (Z.eqb_spec j (-1)) as [Ej|Ej].
    + change (0 =? 0) with true. cbv iota. eexists. split; [done|]. split; [simpl; lia|].
      eapply outcome_last; [done|done|]. intros s key Hs Hst. by destruct (Hle s key ltac:(lia) Hst).
    + pose proof (next_slot_gt _ _ Ej) as Hgt. fold j in Hgt. rewrite (proj2 (Z.eqb_neq j 0)) by lia.
      destruct (next_spec ty (ks i) (ks_wf i) didx ltac:(lia)) as [[? _]|(kd2 & Hj & _)]; [done|]. fold j in Hj.
      destruct (IH (S i) j 0) as (l & Hl & Hlen & Hout); [lia|lia|apply Z.divide_0_r|change (rounds 0) with 0; rewrite Z.div_0_l by lia; nia|].
      change (0 * 2 ^ bits + j) with j in Hl. rewrite Hl. runr. eexists. split; [done|]. split; [simpl; lia|].
      eapply outcome_cons; [done|done|done|]. right. split; [done|]. split; [done|]. intros s key Hs Hst. by apply (Hle s key).
  - pose proof (sc_word _ _ _ _ _ _ Hsc) as Hw. pose proof (sc_mult _ _ _ _ _ _ Hsc Hne) as Hm'.
    pose proof (cursor_small B v' B_ok Hw Hm') as Hsmall. pose proof (sc_less _ _ _ _ _ _ Hsc) as Hless.
    unfold end_pos in Hless. rewrite (proj2 (Z.eqb_neq _ _) Hne) in Hless.
    assert (0 < v' * 2 ^ bits) by (apply Z.mul_pos_pos; [lia|apply Z.pow_pos_nonneg; lia]).
    rewrite (proj2 (Z.eqb_neq (v' * 2 ^ bits + didx) 0)) by lia.
    destruct (IH (S i) didx v' Hd ltac:(lia) Hm') as (l & -> & Hlen & Hout).
    { destruct Hm as [a Ha], Hm' as [b Hb']. rewrite Ha, Hb' in *. rewrite Z.div_mul in * by lia. nia. }
    runr. eexists. split; [done|]. split; [simpl; lia|]. eapply outcome_cons; [done|done|done|]. by left.
Qed.
End whole_scan.

(** C3: kvstoreScan with the cursor it returned each time visits the whole
    keyspace.  The i-th call finds the store [ks i], changed in any way since
    the call before (keys added and removed, dictionaries created, freed,
    grown, shrunk or halfway through a rehash), only the number of dictionaries
    is fixed and no table has more than 2^B buckets.  The scan ends after at most
    2^bits * 2^B calls, reports only entries of the dictionary it looks at, and a
    key that is in dictionary [s] at every call is reported from there. *)
Theorem kvstoreScan_complete {K SK V : Type} `{Countable K} (ty : dictType K SK V)
    (laws : DictTypeLaws ty) (canFreeDict : option (kvstore SK V -> Z -> bool))
    (ks : nat -> kvstore SK V) (bits B : Z) :
  (forall i, kv_wf ty (ks i)) -> (forall i, zsum (sizes (kabs ty (ks i))) < 2 ^ 64 - 1) ->
  (forall i, num_dicts_bits (ks i) = bits) -> 0 <= B <= 60 -> B + bits <= 64 ->
  (forall i j kd, dicts (ks i) !! j = Some (Some kd) ->
     ht_size_exp (ht0 (kd_dict kd)) <= B /\ ht_size_exp (ht1 (kd_dict kd)) <= B) ->
  exists l, kvscan_from canFreeDict (Z.to_nat (2 ^ bits * 2 ^ B)) ks 0 0 = Ok l /\
    Z.of_nat (length l) <= 2 ^ bits * 2 ^ B /\
    (forall j d es, l !! j = Some (d, es) -> forall e, e ∈ es -> stored_in (ks j) d e) /\
    (forall s key, 0 <= s < 2 ^ bits ->
       (forall j, exists e, stored_in (ks j) s e /\ entry_key ty e = key) ->
       exists es e, (s, es) ∈ l /\ e ∈ es /\ entry_key ty e = key).
Proof.
  intros Hwf Hw Hb HB HBb Hsm. pose proof (exp_pow B HB) as HpB.
  pose proof (kb_bits _ _ (kw_books _ _ (Hwf 0%nat))) as Hbits. rewrite Hb in Hbits.
  assert (0 < 2 ^ bits) as HN by (apply Z.pow_pos_nonneg; lia).
  destruct (kvscan_ok ty canFreeDict ks bits B Hwf Hw Hb HB HBb Hsm (Z.to_nat (2 ^ bits * 2 ^ B)) 0 0 0)
    as (l & Hl & Hlen & Hsub & Hcov).
  - lia.
  - lia.
  - change (rounds 0) with 0. apply Z.divide_0_r.
  - change (rounds 0) with 0. rewrite Z.div_0_l by (apply Z.pow_nonzero; lia). nia.
  - exists l. split; [done|]. split; [nia|]. split; [exact Hsub|]. intros s key Hs Hst.
    apply Hcov; [done| |by intros j _]. intros _. change (rounds 0) with 0. apply rounds_range.
Qed.

(** The store of the witness at each call: dictionary 1 is halfway through a
    rehash at the first call and has lost most keys afterwards, dictionary 2
    comes into being in the middle. *)
Definition changing_store (i : nat) : kvstore Z Z :=
  match i with
  | O => sample_store growing_ops
  | S O => sample_store [KAdd 1 1 10; KAdd 2 4 40; KAdd 2 8 80; KAdd 3 7 70]
  | _ => sample_store [KAdd 1 1 10; KAdd 2 6 60; KAdd 3 7 70]
  end.

Definition tables_within (B : Z) (kvs : kvstore Z Z) : bool :=
  forallb (fun s => match s with
                    | Some kd => (ht_size_exp (ht0 (kd_dict kd)) <=? B) && (ht_size_exp (ht1 (kd_dict kd)) <=? B)
                    | None => true
                    end) (dicts kvs).

Lemma tables_within_spec B kvs j kd :
  tables_within B kvs = true -> dicts kvs !! j = Some (Some kd) ->
  ht_size_exp (ht0 (kd_dict kd)) <= B /\ ht_size_exp (ht1 (kd_dict kd)) <= B.
Proof.
  unfold tables_within. intros Hf Hj. rewrite forallb_forall in Hf.
  specialize (Hf (Some kd) (proj1 (list_elem_of_In _ _) (list_elem_of_lookup_2 _ _ _ Hj))). simpl in Hf.
  apply andb_prop in Hf. lia.
Qed.

Lemma kvstoreScan_complete_witness :
  exists l, kvscan_from None (Z.to_nat (2 ^ 2 * 2 ^ 3)) changing_store 0 0 = Ok l /\
    exists es e, (3, es) ∈ l /\ e ∈ es /\ entry_key (int_type false false) e = 7.
Proof.
  destruct (kvstoreScan_complete (int_type false false) _ None changing_store 2 3) as (l & Hl & _ & _ & Hcov).
  - by intros [|[|i]]; apply sample_store_wf; vm_compute.
  - by intros [|[|i]]; vm_compute.
  - by intros [|[|i]]; vm_compute.
  - lia.
  - lia.
  - by intros [|[|i]] j kd; apply tables_within_spec; vm_compute.
  - exists l. split; [exact Hl|]. clear Hl. apply Hcov; [lia|]. clear Hcov.
    by intros [|[|i]]; eexists; (split; [eexists; (split; [vm_compute; reflexivity|left]) | reflexivity]).
Defined.
