(* ===== verification/Sds.v ===== *)
(** Sds: the dynamic strings of src/redis-stable/src/sds.c and sds.h.

    This file holds the definitions; SdsProofs.v has the invariant and the size of
    the block, SdsOps.v the operations, SdsSpec.v the sequence of bytes a string
    implements.

    Correspondence.  A C sds points behind a header of one of five types.  An
    [sds] is that header (type, length, allocated size; strings of type 5 keep no
    allocated size) and [s_buf], the bytes from the pointer to the end of the
    block.  Writing a length or an allocated size reduces it to the width of the
    header's field.  The allocator is the class [SdsAllocator]: how large a block
    it returns, what fresh memory holds, and whether it is jemalloc, for which
    sdsResize has a shortcut.  zmalloc ends the process when memory runs out, so no
    allocation fails here. *)

From Stdlib Require Import ZArith Lia Bool.
From stdpp Require Import base list numbers decidable.
From S2P Require Import Prelude Bytes.

Local Open Scope Z_scope.

Definition SDS_TYPE_5 : Z := 0.
Definition SDS_TYPE_8 : Z := 1.
Definition SDS_TYPE_16 : Z := 2.
Definition SDS_TYPE_32 : Z := 3.
Definition SDS_TYPE_64 : Z := 4.

Definition SDS_MAX_PREALLOC : Z := 1024 * 1024.

Definition sdsHdrSize (type : Z) : Z :=
  if type =? SDS_TYPE_5 then 1
  else if type =? SDS_TYPE_8 then 3
  else if type =? SDS_TYPE_16 then 5
  else if type =? SDS_TYPE_32 then 9
  else if type =? SDS_TYPE_64 then 17
  else 0.

Definition sdsReqType (string_size : Z) : Z :=
  if string_size <? Z.shiftl 1 5 then SDS_TYPE_5
  else if string_size <=? Z.shiftl 1 8 - 3 - 1 then SDS_TYPE_8
  else if string_size <=? Z.shiftl 1 16 - 5 - 1 then SDS_TYPE_16
  else if string_size <=? Z.shiftl 1 32 - 9 - 1 then SDS_TYPE_32
  else SDS_TYPE_64.

Definition sdsTypeMaxSize (type : Z) : Z :=
  if type =? SDS_TYPE_5 then Z.shiftl 1 5 - 1
  else if type =? SDS_TYPE_8 then Z.shiftl 1 8 - 1
  else if type =? SDS_TYPE_16 then Z.shiftl 1 16 - 1
  else if type =? SDS_TYPE_32 then Z.shiftl 1 32 - 1
  else u64 (-1).

Definition sdsReqSize (len type : Z) : Z := u64 (len + sdsHdrSize type + 1).

(** The new type and header size, and whether they changed. *)
Definition adjustTypeIfNeeded (type hdrlen bufsize : Z) : Z * Z * bool :=
  let usable := u64 (bufsize - hdrlen - 1) in
  if negb (type =? SDS_TYPE_5) && (usable >? sdsTypeMaxSize type) then
    let type := sdsReqType usable in (type, sdsHdrSize type, true)
  else (type, hdrlen, false).

Record sds := { s_type : Z; s_len : Z; s_alloc : Z; s_buf : list Z }.

Class SdsAllocator := {
  s_usable : Z -> Z;
  s_uninit : nat -> Z;
  use_jemalloc : bool;
}.

(** A block is as large as asked. *)
Class SdsAllocatorLaws `{SdsAllocator} := {
  s_usable_fits : forall n, 0 <= n < 2 ^ 62 + 2 ^ 32 -> n <= s_usable n < 2 ^ 63;
}.

(** * Header fields *)

(** Bits of the length field. *)
Definition type_width (type : Z) : Z :=
  if type =? SDS_TYPE_5 then 5
  else if type =? SDS_TYPE_8 then 8
  else if type =? SDS_TYPE_16 then 16
  else if type =? SDS_TYPE_32 then 32
  else 64.

Definition sdslen (s : sds) : Z := s_len s.

Definition sdsavail (s : sds) : Z :=
  if s_type s =? SDS_TYPE_5 then 0
  else if s_type s =? SDS_TYPE_32 then u32 (s_alloc s - s_len s)
  else u64 (s_alloc s - s_len s).

Definition sdsalloc (s : sds) : Z := if s_type s =? SDS_TYPE_5 then s_len s else s_alloc s.

Definition sdsAllocSize (s : sds) : Z := u64 (sdsHdrSize (s_type s) + sdsalloc s + 1).

Definition sdssetlen (s : sds) (newlen : Z) : sds :=
  {| s_type := s_type s; s_len := wrapU (type_width (s_type s)) newlen; s_alloc := s_alloc s; s_buf := s_buf s |}.

Definition sdsinclen (s : sds) (inc : Z) : sds := sdssetlen s (s_len s + inc).

Definition sdssetalloc (s : sds) (newlen : Z) : sds :=
  if s_type s =? SDS_TYPE_5 then s
  else {| s_type := s_type s; s_len := s_len s; s_alloc := wrapU (type_width (s_type s)) newlen; s_buf := s_buf s |}.

Definition set_buf (s : sds) (buf : list Z) : sds :=
  {| s_type := s_type s; s_len := s_len s; s_alloc := s_alloc s; s_buf := buf |}.

(** [s[i] = b]. *)
Definition put_byte (s : sds) (i b : Z) : result sds :=
  let* buf := wr1 (s_buf s) i b in Ok (set_buf s buf).

(** [memcpy(s + off, t, len)]. *)
Definition put_bytes (s : sds) (off : Z) (t : list Z) (len : Z) : result sds :=
  let* bs := rdn t 0 len in
  let* buf := wrn (s_buf s) off bs in
  Ok (set_buf s buf).

(** [memmove(s + dst, s + src, n)]. *)
Definition move_bytes (s : sds) (dst src n : Z) : result sds :=
  let* buf := memmove (s_buf s) dst src n in Ok (set_buf s buf).

(** * Creation *)

(** The argument [init]: SDS_NOINIT, NULL, or a block. *)
Inductive sds_init := NoInit | Zeros | InitFrom (bs : list Z).

Section sds_code.
Context `{SdsAllocator}.

Definition fresh_bytes (n : Z) : list Z := map s_uninit (seq 0 (Z.to_nat n)).

Definition sdsnewplacement (buf : list Z) (bufsize type : Z) (init : sds_init) (initlen : Z) : result sds :=
  check bufsize >=? sdsReqSize initlen type else AssertFailed;;
  let hdrlen := sdsHdrSize type in
  let usable := u64 (bufsize - hdrlen - 1) in
  let s := {| s_type := type; s_len := 0; s_alloc := 0; s_buf := drop (Z.to_nat hdrlen) buf |} in
  let s := sdssetalloc (sdssetlen s initlen) usable in
  let* s :=
    match init with
    | NoInit => Ok s
    | Zeros => put_bytes s 0 (replicate (Z.to_nat initlen) 0) initlen
    | InitFrom bs => if initlen =? 0 then Ok s else put_bytes s 0 bs initlen
    end in
  put_byte s initlen 0.

Definition _sdsnewlen (init : sds_init) (initlen : Z) : result sds :=
  let type := sdsReqType initlen in
  let type := if (type =? SDS_TYPE_5) && (initlen =? 0) then SDS_TYPE_8 else type in
  let hdrlen := sdsHdrSize type in
  check u64 (initlen + hdrlen + 1) >? initlen else AssertFailed;;
  let bufsize := s_usable (hdrlen + initlen + 1) in
  let '(type, hdrlen, _) := adjustTypeIfNeeded type hdrlen bufsize in
  sdsnewplacement (fresh_bytes bufsize) bufsize type init initlen.

Definition sdsnewlen (init : sds_init) (initlen : Z) : result sds := _sdsnewlen init initlen.

Definition sdsempty : result sds := sdsnewlen (InitFrom []) 0.

Definition sdsdup (s : sds) : result sds := sdsnewlen (InitFrom (s_buf s)) (sdslen s).

(** * Size of the block *)

(** The header grows by [d] bytes: the string moves up inside its block. *)
Definition shift_string (s : sds) (d len : Z) : result sds :=
  let* s := move_bytes s d 0 (len + 1) in
  Ok (set_buf s (drop (Z.to_nat d) (s_buf s))).

Definition with_type (s : sds) (type : Z) : sds :=
  {| s_type := type; s_len := s_len s; s_alloc := s_alloc s; s_buf := s_buf s |}.

(** s_realloc_usable, and the change of header that the size of the block may
    ask for. *)
Definition realloc_string (s : sds) (type hdrlen len bufsize : Z) : result (sds * Z * Z) :=
  let s := set_buf s (realloc s_uninit (s_buf s) (bufsize - hdrlen)) in
  let '(type', hdrlen', adjusted) := adjustTypeIfNeeded type hdrlen bufsize in
  if (adjusted : bool) then
    let* s := shift_string s (hdrlen' - hdrlen) len in
    Ok (sdssetlen (with_type s type') len, type', hdrlen')
  else Ok (s, type', hdrlen').

(** s_malloc_usable, and the copy of the string into the new block. *)
Definition malloc_string (s : sds) (type hdrlen len bufsize : Z) : result (sds * Z * Z) :=
  let '(type, hdrlen, _) := adjustTypeIfNeeded type hdrlen bufsize in
  let* s' := put_bytes (set_buf s (fresh_bytes (bufsize - hdrlen))) 0 (s_buf s) (len + 1) in
  Ok (with_type s' type, type, hdrlen).

Definition _sdsMakeRoomFor (s : sds) (addlen : Z) (greedy : bool) : result sds :=
  let avail := sdsavail s in
  let oldtype := s_type s in
  if avail >=? addlen then Ok s
  else
    let len := sdslen s in
    let newlen := u64 (len + addlen) in
    let reqlen := newlen in
    check newlen >? len else AssertFailed;;
    let newlen :=
      if greedy then if newlen <? SDS_MAX_PREALLOC then u64 (newlen * 2) else u64 (newlen + SDS_MAX_PREALLOC)
      else newlen in
    let type := sdsReqType newlen in
    let type := if type =? SDS_TYPE_5 then SDS_TYPE_8 else type in
    let hdrlen := sdsHdrSize type in
    check u64 (hdrlen + newlen + 1) >? reqlen else AssertFailed;;
    let bufsize := s_usable (hdrlen + newlen + 1) in
    let* (s, type, hdrlen) :=
      if oldtype =? type then realloc_string s type hdrlen len bufsize
      else
        let* (s, type, hdrlen) := malloc_string s type hdrlen len bufsize in
        Ok (sdssetlen s len, type, hdrlen) in
    let usable := u64 (bufsize - hdrlen - 1) in
    check (type =? SDS_TYPE_5) || (usable <=? sdsTypeMaxSize type) else AssertFailed;;
    Ok (sdssetalloc s usable).

Definition sdsMakeRoomFor (s : sds) (addlen : Z) : result sds := _sdsMakeRoomFor s addlen true.

Definition sdsMakeRoomForNonGreedy (s : sds) (addlen : Z) : result sds := _sdsMakeRoomFor s addlen false.

(** The new block of sdsResize and the size to store.  je_nallocx tells the size
    malloc would give. *)
Definition resize_block (s : sds) (size type len : Z) : result (sds * Z) :=
  let oldtype := s_type s in
  let oldhdrlen := sdsHdrSize oldtype in
  let hdrlen := sdsHdrSize type in
  let use_realloc := (oldtype =? type) || ((type <? oldtype) && (type >? SDS_TYPE_8)) in
  let newlen := if use_realloc then u64 (oldhdrlen + size + 1) else u64 (hdrlen + size + 1) in
  let bufsize := s_usable newlen in
  if use_realloc then
    if use_jemalloc && (s_usable newlen =? sdsAllocSize s)
    then Ok (s, u64 (sdsAllocSize s - oldhdrlen - 1))
    else
      let* (s, _, oldhdrlen) := realloc_string s oldtype oldhdrlen len bufsize in
      Ok (s, u64 (bufsize - oldhdrlen - 1))
  else
    let* (s, _, hdrlen) := malloc_string s type hdrlen len bufsize in
    Ok (s, u64 (bufsize - hdrlen - 1)).

Definition sdsResize (s : sds) (size : Z) (would_regrow : bool) : result sds :=
  let len := sdslen s in
  if sdsalloc s =? size then Ok s
  else
    let len := if size <? len then size else len in
    let type := sdsReqType size in
    let type := if would_regrow && (type =? SDS_TYPE_5) then SDS_TYPE_8 else type in
    let* (s, newsize) := resize_block s size type len in
    let* s := put_byte s len 0 in
    Ok (sdssetalloc (sdssetlen s len) newsize).

Definition sdsRemoveFreeSpace (s : sds) (would_regrow : bool) : result sds := sdsResize s (sdslen s) would_regrow.

(** The assertions differ by type: in type 5 an increment of zero is refused. *)
Definition sdsIncrLen (s : sds) (incr : Z) : result sds :=
  let type := s_type s in
  let ok :=
    if type =? SDS_TYPE_5 then ((incr >? 0) && (s_len s + incr <? 32)) || ((incr <? 0) && (s_len s >=? u32 (- incr)))
    else if type =? SDS_TYPE_32 then
      ((incr >=? 0) && (u32 (s_alloc s - s_len s) >=? u32 incr)) || ((incr <? 0) && (s_len s >=? u32 (- incr)))
    else if type =? SDS_TYPE_64 then
      ((incr >=? 0) && (u64 (s_alloc s - s_len s) >=? u64 incr)) || ((incr <? 0) && (s_len s >=? u64 (- incr)))
    else ((incr >=? 0) && (s_alloc s - s_len s >=? incr)) || ((incr <? 0) && (s_len s >=? u32 (- incr))) in
  check ok else AssertFailed;;
  let s := sdsinclen s incr in
  put_byte s (s_len s) 0.

(** * Contents *)

(** strlen of the bytes behind the pointer. *)
Fixpoint strlen_loop (buf : list Z) (n : Z) : result Z :=
  match buf with
  | [] => Err OutOfBounds
  | b :: buf => if b =? 0 then Ok n else strlen_loop buf (n + 1)
  end.

Definition strlen (buf : list Z) : result Z := strlen_loop buf 0.

Definition sdsupdatelen (s : sds) : result sds :=
  let* reallen := strlen (s_buf s) in Ok (sdssetlen s reallen).

Definition sdsclear (s : sds) : result sds := put_byte (sdssetlen s 0) 0 0.

Definition sdsgrowzero (s : sds) (len : Z) : result sds :=
  let curlen := sdslen s in
  if len <=? curlen then Ok s
  else
    let* s := sdsMakeRoomFor s (u64 (len - curlen)) in
    let* s := put_bytes s curlen (replicate (Z.to_nat (len - curlen + 1)) 0) (len - curlen + 1) in
    Ok (sdssetlen s len).

Definition sdscatlen (s : sds) (t : list Z) (len : Z) : result sds :=
  let curlen := sdslen s in
  let* s := sdsMakeRoomFor s len in
  let* s := put_bytes s curlen t len in
  put_byte (sdssetlen s (u64 (curlen + len))) (u64 (curlen + len)) 0.

(** [t] is the block the C string is in. *)
Definition sdscat (s : sds) (t : list Z) : result sds := let* n := strlen t in sdscatlen s t n.

Definition sdscatsds (s t : sds) : result sds := sdscatlen s (s_buf t) (sdslen t).

Definition sdscpylen (s : sds) (t : list Z) (len : Z) : result sds :=
  let* s := if sdsalloc s <? len then sdsMakeRoomFor s (u64 (len - sdslen s)) else Ok s in
  let* s := put_bytes s 0 t len in
  let* s := put_byte s len 0 in
  Ok (sdssetlen s len).

(** strchr finds the end of [cset] too, so it accepts the byte 0. *)
Definition in_cset (cset : list Z) (c : Z) : bool := (c =? 0) || existsb (Z.eqb c) cset.

(** [while (sp <= end && strchr(cset, *sp)) sp++]: [n] positions are left. *)
Fixpoint trim_left (n : nat) (buf cset : list Z) (sp : Z) : result Z :=
  match n with
  | O => Ok sp
  | S n => let* c := rd1 buf sp in if in_cset cset c then trim_left n buf cset (sp + 1) else Ok sp
  end.

(** [while (ep > sp && strchr(cset, *ep)) ep--]. *)
Fixpoint trim_right (n : nat) (buf cset : list Z) (ep : Z) : result Z :=
  match n with
  | O => Ok ep
  | S n => let* c := rd1 buf ep in if in_cset cset c then trim_right n buf cset (ep - 1) else Ok ep
  end.

Definition sdstrim (s : sds) (cset : list Z) : result sds :=
  let end_ := sdslen s - 1 in
  let* sp := trim_left (Z.to_nat (sdslen s)) (s_buf s) cset 0 in
  let* ep := trim_right (Z.to_nat (end_ - sp)) (s_buf s) cset end_ in
  let len := ep - sp + 1 in
  let* s := if sp =? 0 then Ok s else move_bytes s 0 sp len in
  let* s := put_byte s len 0 in
  Ok (sdssetlen s len).

Definition sdssubstr (s : sds) (start len : Z) : result sds :=
  let oldlen := sdslen s in
  let '(start, len) := if start >=? oldlen then (0, 0) else (start, len) in
  let len := if len >? u64 (oldlen - start) then u64 (oldlen - start) else len in
  let* s := if len =? 0 then Ok s else move_bytes s 0 start len in
  let* s := put_byte s len 0 in
  Ok (sdssetlen s len).

(** The interval is computed in ssize_t. *)
Definition sdsrange (s : sds) (start end_ : Z) : result sds :=
  let len := sdslen s in
  if len =? 0 then Ok s
  else
    let start := if start <? 0 then i64 (len + start) else start in
    let end_ := if end_ <? 0 then i64 (len + end_) else end_ in
    let* newlen :=
      if start >? end_ then Ok 0
      else let* d := chk_i64 (end_ - start) in chk_i64 (d + 1) in
    sdssubstr s (u64 start) (u64 newlen).

(** tolower and toupper of the C locale. *)
Definition tolower (c : Z) : Z := if (65 <=? c) && (c <=? 90) then c + 32 else c.
Definition toupper (c : Z) : Z := if (97 <=? c) && (c <=? 122) then c - 32 else c.

(** [for (j = 0; j < len; j++) s[j] = f(s[j])]. *)
Fixpoint each_byte (n : nat) (f : Z -> result Z) (s : sds) (j : Z) : result sds :=
  match n with
  | O => Ok s
  | S n =>
      let* c := rd1 (s_buf s) j in
      let* c := f c in
      let* s := put_byte s j c in
      each_byte n f s (j + 1)
  end.

Definition sdstolower (s : sds) : result sds := each_byte (Z.to_nat (sdslen s)) (fun c => Ok (tolower c)) s 0.
Definition sdstoupper (s : sds) : result sds := each_byte (Z.to_nat (sdslen s)) (fun c => Ok (toupper c)) s 0.

(** The inner loop of sdsmapchars: [n] characters of the set are left. *)
Fixpoint map_char (n : nat) (from to : list Z) (i : Z) (c : Z) : result Z :=
  match n with
  | O => Ok c
  | S n =>
      let* f := rd1 from i in
      if c =? f then rd1 to i else map_char n from to (i + 1) c
  end.

Definition sdsmapchars (s : sds) (from to : list Z) (setlen : Z) : result sds :=
  each_byte (Z.to_nat (sdslen s)) (map_char (Z.to_nat setlen) from to 0) s 0.

End sds_code.
