(* ===== verification/SdsProofs.v ===== *)
(** SdsProofs: the invariant of the strings of Sds.v, and each operation against
    the same edit of a list of bytes. *)

From Stdlib Require Import ZArith Lia Bool.
From stdpp Require Import base list numbers decidable.
From S2P Require Import Prelude Bytes Sds.

Local Open Scope Z_scope.

(** The bytes of the string. *)
Definition contents (s : sds) : list Z := take (Z.to_nat (s_len s)) (s_buf s).

(** The longest string sdsReqType chooses a type for. *)
Definition req_max (type : Z) : Z :=
  if type =? SDS_TYPE_5 then 31
  else if type =? SDS_TYPE_8 then 252
  else if type =? SDS_TYPE_16 then 65530
  else if type =? SDS_TYPE_32 then 2 ^ 32 - 10
  else 2 ^ 63.

(** The length is within the string, the string within the block, and both
    sizes within their header fields; a zero follows the string. *)
Record sds_ok (s : sds) : Prop := {
  so_type : 0 <= s_type s <= 4;
  so_len : 0 <= s_len s <= sdsTypeMaxSize (s_type s);
  so_small : s_type s = SDS_TYPE_5 -> s_len s + 1 <= zlen (s_buf s);
  so_alloc : s_type s <> SDS_TYPE_5 ->
    s_len s <= s_alloc s <= sdsTypeMaxSize (s_type s) /\ zlen (s_buf s) = s_alloc s + 1;
  so_size : zlen (s_buf s) < 2 ^ 63;
  so_end : s_buf s !! Z.to_nat (s_len s) = Some 0;
}.

(** * Types *)

Ltac by_type t := assert (t = 0 \/ t = 1 \/ t = 2 \/ t = 3 \/ t = 4) as [->|[->|[->|[->| ->]]]] by lia.

Lemma max_5 : sdsTypeMaxSize 0 = 31. Proof. done. Qed.
Lemma max_8 : sdsTypeMaxSize 1 = 255. Proof. done. Qed.
Lemma max_16 : sdsTypeMaxSize 2 = 65535. Proof. done. Qed.
Lemma max_32 : sdsTypeMaxSize 3 = 2 ^ 32 - 1. Proof. done. Qed.
Lemma max_64 : sdsTypeMaxSize 4 = 2 ^ 64 - 1. Proof. done. Qed.
Lemma req_5 : req_max 0 = 31. Proof. done. Qed.
Lemma req_8 : req_max 1 = 252. Proof. done. Qed.
Lemma req_16 : req_max 2 = 65530. Proof. done. Qed.
Lemma req_32 : req_max 3 = 2 ^ 32 - 10. Proof. done. Qed.
Lemma req_64 : req_max 4 = 2 ^ 63. Proof. done. Qed.
Lemma hdr_5 : sdsHdrSize 0 = 1. Proof. done. Qed.
Lemma hdr_8 : sdsHdrSize 1 = 3. Proof. done. Qed.
Lemma hdr_16 : sdsHdrSize 2 = 5. Proof. done. Qed.
Lemma hdr_32 : sdsHdrSize 3 = 9. Proof. done. Qed.
Lemma hdr_64 : sdsHdrSize 4 = 17. Proof. done. Qed.

Create Rewrite HintDb sds_types.
#[export] Hint Rewrite max_5 max_8 max_16 max_32 max_64 req_5 req_8 req_16 req_32 req_64 hdr_5 hdr_8 hdr_16 hdr_32 hdr_64 : sds_types.

Lemma reqType_spec n : 0 <= n < 2 ^ 63 ->
  0 <= sdsReqType n <= 4 /\ n <= req_max (sdsReqType n) /\
  (sdsReqType n = SDS_TYPE_8 -> 31 < n) /\ (sdsReqType n = SDS_TYPE_16 -> 252 < n) /\
  (sdsReqType n = SDS_TYPE_32 -> 65530 < n) /\ (sdsReqType n = SDS_TYPE_64 -> 2 ^ 32 - 10 < n).
Proof.
  intros Hn. unfold sdsReqType, req_max, SDS_TYPE_5, SDS_TYPE_8, SDS_TYPE_16, SDS_TYPE_32, SDS_TYPE_64.
  change (Z.shiftl 1 5) with 32. change (Z.shiftl 1 8) with 256. change (Z.shiftl 1 16) with 65536. change (Z.shiftl 1 32) with (2 ^ 32).
  repeat case_bool; cbn [Z.eqb Pos.eqb]; repeat split; intros; try discriminate; try lia.
Qed.

Lemma hdr_bounds type : 0 <= type <= 4 -> 1 <= sdsHdrSize type <= 17.
Proof. intros H. by_type type; cbn; lia. Qed.

Lemma max_bounds type : 0 <= type <= 4 -> req_max type <= sdsTypeMaxSize type < 2 ^ 64 /\ 31 <= req_max type.
Proof. intros H. by_type type; autorewrite with sds_types; lia. Qed.

Lemma width_max type : 0 <= type <= 4 -> 2 ^ type_width type = sdsTypeMaxSize type + 1.
Proof. intros H. by_type type; vm_compute; done. Qed.

Lemma req_max_mono a b : 0 <= a <= b -> b <= 4 -> req_max a <= req_max b.
Proof. intros H1 H2. by_type a; by_type b; autorewrite with sds_types; lia. Qed.

(** After the adjustment the block still has room for what was asked, and its
    size fits the header. *)
Lemma adjust_ok type bufsize n : 0 <= type <= 4 -> 0 <= n <= req_max type ->
  sdsHdrSize type + n + 1 <= bufsize < 2 ^ 63 ->
  exists type' adj, adjustTypeIfNeeded type (sdsHdrSize type) bufsize = (type', sdsHdrSize type', adj) /\
    0 <= type' <= 4 /\ (type' = SDS_TYPE_5 <-> type = SDS_TYPE_5) /\
    sdsHdrSize type' + n + 1 <= bufsize /\ sdsHdrSize type <= sdsHdrSize type' /\
    (adj = false -> type' = type) /\
    (type <> SDS_TYPE_5 -> bufsize - sdsHdrSize type' - 1 <= sdsTypeMaxSize type').
Proof.
  intros Ht Hn Hb. unfold adjustTypeIfNeeded. pose proof (hdr_bounds type Ht).
  rewrite wrapU_small by lia. set (u := bufsize - sdsHdrSize type - 1) in *.
  destruct (Z.eqb_spec type SDS_TYPE_5) as [->|H5].
  { cbn [negb andb]. exists SDS_TYPE_5, false. repeat split; done || lia. }
  cbn [negb andb]. rewrite Z.gtb_ltb. destruct (Z.ltb_spec (sdsTypeMaxSize type) u) as [Hu|Hu].
  - destruct (reqType_spec u) as (H0 & H1 & H8 & H16 & H32 & H64); [lia|].
    exists (sdsReqType u), true. split; [done|]. generalize dependent (sdsReqType u). intros t Ht' Hmax H8 H16 H32 H64.
    assert (u = bufsize - sdsHdrSize type - 1) as Eu by done. clearbody u.
    unfold SDS_TYPE_5, SDS_TYPE_8, SDS_TYPE_16, SDS_TYPE_32, SDS_TYPE_64 in *.
    by_type type; [done|..]; by_type t; autorewrite with sds_types in *;
      try specialize (H8 eq_refl); try specialize (H16 eq_refl); try specialize (H32 eq_refl); try specialize (H64 eq_refl);
      try lia; repeat split; try discriminate; try lia.
  - exists type, false. repeat split; done || lia.
Qed.

(** * Strings and their bytes *)

(** [s] is a well-formed string that spells [l]. *)
Definition holds (s : sds) (l : list Z) : Prop := sds_ok s /\ contents s = l.

(** [l] and its zero at the start of a block. *)
Definition starts (buf l : list Z) : Prop := take (S (length l)) buf = l ++ [0].

Lemma starts_split buf l : starts buf l <-> exists rest, buf = l ++ 0 :: rest.
Proof.
  unfold starts. split.
  - intros H. exists (drop (S (length l)) buf). rewrite <- (take_drop (S (length l)) buf) at 1. rewrite H. by rewrite <- app_assoc.
  - intros [rest ->]. rewrite (cons_middle 0 l rest), app_assoc. replace (S (length l)) with (length (l ++ [0])) by (rewrite length_app; simpl; lia).
    apply take_app_length.
Qed.

Lemma starts_length buf l : starts buf l -> zlen l + 1 <= zlen buf.
Proof. intros (rest & ->)%starts_split. rewrite zlen_app, zlen_cons. pose proof (zlen_nonneg rest). lia. Qed.

(** Two blocks with the same first bytes. *)
Lemma starts_take buf buf' l : starts buf l -> take (S (length l)) buf' = take (S (length l)) buf -> starts buf' l.
Proof. unfold starts. congruence. Qed.

Lemma holds_intro t a buf l : 0 <= t <= 4 -> zlen l <= sdsTypeMaxSize t -> starts buf l -> zlen buf < 2 ^ 63 ->
  (t <> SDS_TYPE_5 -> zlen buf = a + 1 /\ a <= sdsTypeMaxSize t) ->
  holds {| s_type := t; s_len := zlen l; s_alloc := a; s_buf := buf |} l.
Proof.
  intros Ht Hl Hs Hb Ha. pose proof (starts_length _ _ Hs) as Hsl. pose proof (zlen_nonneg l).
  apply starts_split in Hs as (rest & ->). split.
  - constructor; cbn [s_type s_len s_alloc s_buf]; [done|lia|lia| |done|].
    + intros H5. destruct (Ha H5). lia.
    + unfold zlen. rewrite Nat2Z.id. by apply list_lookup_middle.
  - unfold contents. cbn [s_len s_buf]. unfold zlen. rewrite Nat2Z.id. apply take_app_length.
Qed.

Lemma holds_elim s l : holds s l ->
  s = {| s_type := s_type s; s_len := zlen l; s_alloc := s_alloc s; s_buf := s_buf s |} /\
  0 <= s_type s <= 4 /\ zlen l <= sdsTypeMaxSize (s_type s) /\ starts (s_buf s) l /\ zlen (s_buf s) < 2 ^ 63 /\
  (s_type s <> SDS_TYPE_5 -> zlen (s_buf s) = s_alloc s + 1 /\ s_alloc s <= sdsTypeMaxSize (s_type s)).
Proof.
  intros [[Ht Hl H5 Ha Hsz He] Hc]. unfold contents in Hc. apply lookup_lt_Some in He as Hlt.
  assert (zlen l = s_len s) as El by (rewrite <- Hc; unfold zlen; rewrite length_take; lia).
  rewrite El. split; [by destruct s|]. split; [done|]. split; [lia|]. split; [|split; [done|]].
  - unfold starts. assert (length l = Z.to_nat (s_len s)) as -> by (unfold zlen in El; lia).
    rewrite <- Hc. by apply take_S_r.
  - intros H. destruct (Ha H). lia.
Qed.

Lemma holds_len s l : holds s l -> s_len s = zlen l.
Proof. intros (E & _)%holds_elim. by rewrite E. Qed.

(** The free space of a string that has any. *)
Lemma avail_ok s l : holds s l -> s_type s <> SDS_TYPE_5 -> sdsavail s = s_alloc s - zlen l /\ zlen l <= s_alloc s.
Proof.
  intros Hs H5. pose proof (holds_elim s l Hs) as (E & Ht & Hl & Hst & Hb & Ha). destruct (Ha H5) as [Hz Hm].
  pose proof (starts_length _ _ Hst) as Hsl. pose proof (zlen_nonneg l). pose proof (max_bounds _ Ht).
  unfold sdsavail. rewrite (holds_len s l Hs). rewrite (proj2 (Z.eqb_neq _ _)) by done.
  destruct (Z.eqb_spec (s_type s) SDS_TYPE_32) as [E32|_]; [|rewrite wrapU_small; lia].
  rewrite E32 in Hm. change (sdsTypeMaxSize SDS_TYPE_32) with (2 ^ 32 - 1) in Hm. rewrite wrapU_small; lia.
Qed.

Lemma setlen_small s n : 0 <= s_type s <= 4 -> 0 <= n <= sdsTypeMaxSize (s_type s) ->
  sdssetlen s n = {| s_type := s_type s; s_len := n; s_alloc := s_alloc s; s_buf := s_buf s |}.
Proof. intros Ht Hn. unfold sdssetlen. rewrite wrapU_small; [done|]. rewrite width_max by done. lia. Qed.

Lemma setalloc_small s n : 0 <= s_type s <= 4 -> 0 <= n <= sdsTypeMaxSize (s_type s) -> s_type s <> SDS_TYPE_5 ->
  sdssetalloc s n = {| s_type := s_type s; s_len := s_len s; s_alloc := n; s_buf := s_buf s |}.
Proof.
  intros Ht Hn H5. unfold sdssetalloc. rewrite (proj2 (Z.eqb_neq _ _)) by done. rewrite wrapU_small; [done|].
  rewrite width_max by done. lia.
Qed.

(** What the sizes at the end of a change of block add up to. *)
Lemma resized_ok s l n : 0 <= s_type s <= 4 -> zlen l <= sdsTypeMaxSize (s_type s) -> starts (s_buf s) l -> zlen (s_buf s) < 2 ^ 63 ->
  n = zlen (s_buf s) - 1 -> (s_type s <> SDS_TYPE_5 -> n <= sdsTypeMaxSize (s_type s)) ->
  holds (sdssetalloc (sdssetlen s (zlen l)) n) l.
Proof.
  intros Ht Hl Hst Hb -> Hm. pose proof (starts_length _ _ Hst). pose proof (zlen_nonneg l).
  rewrite setlen_small by lia. destruct (decide (s_type s = SDS_TYPE_5)) as [H5|H5].
  - unfold sdssetalloc. cbn [s_type]. rewrite H5, Z.eqb_refl. rewrite H5 in Ht, Hl. apply holds_intro; done.
  - rewrite setalloc_small by (cbn [s_type]; specialize (Hm H5); lia || done). cbn [s_type s_len s_alloc s_buf].
    apply holds_intro; [done|done|done|done|]. intros _. specialize (Hm H5). lia.
Qed.

Section sds_ops.
Context `{alloc : SdsAllocator} {laws : SdsAllocatorLaws}.

Lemma fresh_length n : 0 <= n -> zlen (fresh_bytes n) = n.
Proof. intros Hn. unfold fresh_bytes, zlen. rewrite length_map, length_seq. lia. Qed.

Lemma realloc_length {A} (un : nat -> A) buf n : 0 <= n -> zlen (realloc un buf n) = n.
Proof. intros Hn. unfold realloc, zlen. rewrite length_app, length_take, length_map, length_seq. lia. Qed.

Lemma realloc_take {A} (un : nat -> A) buf n k : (k <= Z.to_nat n)%nat -> (k <= length buf)%nat ->
  take k (realloc un buf n) = take k buf.
Proof.
  intros H1 H2. unfold realloc. rewrite take_app_le by (rewrite length_take; lia). rewrite take_take. f_equal. lia.
Qed.

Lemma rdn_prefix {A} (buf : list A) n : 0 <= n <= zlen buf -> rdn buf 0 n = Ok (take (Z.to_nat n) buf).
Proof. intros Hn. unfold rdn. dec_bool. by rewrite Z2Nat.inj_0, drop_0. Qed.

Lemma wrn_prefix {A} (buf bs : list A) : zlen bs <= zlen buf -> wrn buf 0 bs = Ok (bs ++ drop (length bs) buf).
Proof. intros Hn. unfold wrn. dec_bool. by rewrite Z2Nat.inj_0, take_0. Qed.

(** What both ways to a new block give: the first [len] bytes and the one after
    them, in a block of the right size, under a header whose fields hold its
    sizes. *)
Record reblocked (s s' : sds) (type bufsize n len : Z) : Prop := {
  rb_type : 0 <= s_type s' <= 4;
  rb_five : s_type s' = SDS_TYPE_5 <-> type = SDS_TYPE_5;
  rb_take : take (Z.to_nat (len + 1)) (s_buf s') = take (Z.to_nat (len + 1)) (s_buf s);
  rb_size : zlen (s_buf s') = bufsize - sdsHdrSize (s_type s');
  rb_room : n <= zlen (s_buf s') - 1;
  rb_len : n <= req_max (s_type s');
  rb_max : type <> SDS_TYPE_5 -> zlen (s_buf s') - 1 <= sdsTypeMaxSize (s_type s');
}.

Lemma five_max type t' n : 0 <= t' <= 4 -> (t' = SDS_TYPE_5 <-> type = SDS_TYPE_5) -> sdsHdrSize type <= sdsHdrSize t' ->
  0 <= type <= 4 -> n <= req_max type -> n <= req_max t'.
Proof.
  intros Ht' H5 Hh Ht Hn. assert (req_max type <= req_max t'); [|lia]. apply req_max_mono; [|lia].
  unfold SDS_TYPE_5 in H5. by_type type; by_type t'; autorewrite with sds_types in *; lia.
Qed.

Lemma malloc_string_ok s type n len bufsize : 0 <= type <= 4 -> 0 <= len <= n -> len < zlen (s_buf s) -> n <= req_max type ->
  sdsHdrSize type + n + 1 <= bufsize < 2 ^ 63 ->
  exists s', malloc_string s type (sdsHdrSize type) len bufsize = Ok (s', s_type s', sdsHdrSize (s_type s')) /\
    reblocked s s' type bufsize n len.
Proof.
  intros Ht Hl Hlen Hn Hb. destruct (adjust_ok type bufsize n Ht ltac:(lia) Hb) as (t' & adj & E & Ht' & H5 & Hb' & Hh & _ & Hm).
  unfold malloc_string. rewrite E. pose proof (hdr_bounds t' Ht'). pose proof (fresh_length (bufsize - sdsHdrSize t') ltac:(lia)) as Hf.
  unfold put_bytes. rewrite rdn_prefix by lia. runr. cbn [set_buf s_buf].
  assert (zlen (take (Z.to_nat (len + 1)) (s_buf s)) = len + 1) as Hz by (apply zlen_take; lia).
  rewrite wrn_prefix by lia. runr. eexists (with_type (set_buf (set_buf s _) _) t'). split; [reflexivity|].
  set (fb := fresh_bytes _) in *. set (pre := take _ _) in *. assert (length pre = Z.to_nat (len + 1)) as Hp by (unfold zlen in Hz; lia).
  assert (zlen (pre ++ drop (length pre) fb) = bufsize - sdsHdrSize t') as Hw.
  { rewrite <- Hf. unfold zlen. rewrite length_app, length_drop. unfold zlen in Hf. lia. }
  constructor; cbn [with_type set_buf s_type s_len s_alloc s_buf]; rewrite ?Hw; try done; try lia.
  - change (take (Z.to_nat (len + 1)) (s_buf s)) with pre. rewrite <- Hp. apply take_app_length.
  - by apply (five_max type).
Qed.

Lemma shift_string_ok s d len : 0 <= d -> 0 <= len -> d + len + 1 <= zlen (s_buf s) ->
  exists buf, shift_string s d len = Ok (set_buf s buf) /\
    zlen buf = zlen (s_buf s) - d /\ take (Z.to_nat (len + 1)) buf = take (Z.to_nat (len + 1)) (s_buf s).
Proof.
  intros Hd Hl Hb. unfold shift_string, move_bytes, memmove. rewrite rdn_prefix by lia. runr.
  assert (zlen (take (Z.to_nat (len + 1)) (s_buf s)) = len + 1) as Hz by (apply zlen_take; lia).
  unfold wrn. rewrite Hz. dec_bool. runr. cbn [set_buf s_type s_len s_alloc s_buf]. eexists. split; [done|].
  set (pre := take (Z.to_nat (len + 1)) (s_buf s)) in *. assert (length pre = Z.to_nat (len + 1)) as Hp by (unfold zlen in Hz; lia).
  assert (length (take (Z.to_nat d) (s_buf s)) = Z.to_nat d) as Ht by (rewrite length_take; unfold zlen in Hb; lia).
  assert (forall X, drop (Z.to_nat d) (take (Z.to_nat d) (s_buf s) ++ X) = X) as -> by (intros X; rewrite <- Ht at 1; apply drop_app_length). split.
  - unfold zlen in *. rewrite length_app, length_drop. lia.
  - rewrite <- Hp. apply take_app_length.
Qed.

Lemma realloc_string_ok s n len bufsize : 0 <= s_type s <= 4 -> 0 <= len <= n -> len < zlen (s_buf s) -> n <= req_max (s_type s) ->
  sdsHdrSize (s_type s) + n + 1 <= bufsize < 2 ^ 63 ->
  exists s', realloc_string s (s_type s) (sdsHdrSize (s_type s)) len bufsize = Ok (s', s_type s', sdsHdrSize (s_type s')) /\
    reblocked s s' (s_type s) bufsize n len /\ (s_len s = len -> s_len s' = len).
Proof.
  intros Ht Hl Hlen Hn Hb. destruct (adjust_ok (s_type s) bufsize n Ht ltac:(lia) Hb) as (t' & adj & E & Ht' & H5 & Hb' & Hh & Hsame & Hm).
  unfold realloc_string. rewrite E. pose proof (hdr_bounds (s_type s) Ht). pose proof (hdr_bounds t' Ht').
  pose proof (realloc_length s_uninit (s_buf s) (bufsize - sdsHdrSize (s_type s)) ltac:(lia)) as Hr.
  assert (take (Z.to_nat (len + 1)) (realloc s_uninit (s_buf s) (bufsize - sdsHdrSize (s_type s))) = take (Z.to_nat (len + 1)) (s_buf s)) as Htk.
  { apply realloc_take; unfold zlen in *; lia. }
  pose proof (five_max (s_type s) t' n Ht' H5 Hh Ht Hn) as Hn'. pose proof (max_bounds t' Ht').
  destruct adj.
  - destruct (shift_string_ok (set_buf s (realloc s_uninit (s_buf s) (bufsize - sdsHdrSize (s_type s)))) (sdsHdrSize t' - sdsHdrSize (s_type s)) len)
      as (buf & -> & Hz & Hk); [lia|lia|cbn [set_buf s_buf]; lia|]. runr. cbn [set_buf s_buf] in Hz, Hk. rewrite Hr in Hz. rewrite Htk in Hk.
    rewrite setlen_small by (cbn [with_type s_type]; lia). eexists (Build_sds t' len _ _). split; [reflexivity|].
    split; [|done]. constructor; cbn [with_type set_buf s_type s_len s_alloc s_buf]; rewrite ?Hz; try done; try lia.
  - rewrite (Hsame eq_refl) in *. eexists (set_buf s _). split; [reflexivity|]. split; [|done].
    constructor; cbn [set_buf s_type s_len s_alloc s_buf]; rewrite ?Hr; try done; try lia.
Qed.

(** The end of a change of block, when the byte after the string is its zero. *)
Lemma reblocked_holds s s' type bufsize n l : reblocked s s' type bufsize n (zlen l) -> zlen l <= n -> bufsize < 2 ^ 63 ->
  starts (s_buf s) l -> holds (sdssetalloc (sdssetlen s' (zlen l)) (u64 (bufsize - sdsHdrSize (s_type s') - 1))) l.
Proof.
  intros [Ht H5 Htk Hz Hr Hl Hm] Hn Hb Hst. pose proof (max_bounds _ Ht). pose proof (hdr_bounds _ Ht). pose proof (zlen_nonneg l).
  rewrite wrapU_small by lia. apply resized_ok; [done|lia| |lia|lia|].
  - apply (starts_take (s_buf s)); [done|]. replace (S (length l)) with (Z.to_nat (zlen l + 1)) by (unfold zlen; lia). done.
  - intros ne. rewrite <- Z.sub_add_distr. assert (type <> SDS_TYPE_5) as ne' by (intros e; by apply ne, H5). specialize (Hm ne'). lia.
Qed.

Lemma setlen_same s n : 0 <= s_type s <= 4 -> 0 <= n <= sdsTypeMaxSize (s_type s) -> s_len s = n -> sdssetlen s n = s.
Proof. intros Ht Hn <-. rewrite setlen_small by lia. by destruct s. Qed.

(** The type chosen for [n] bytes of a string that will grow. *)
Lemma growing_type n (regrow : bool) : 0 <= n < 2 ^ 63 ->
  let type := if regrow && (sdsReqType n =? SDS_TYPE_5) then SDS_TYPE_8 else sdsReqType n in
  0 <= type <= 4 /\ n <= req_max type /\ (regrow = true -> type <> SDS_TYPE_5).
Proof.
  intros Hn. destruct (reqType_spec n Hn) as (Ht & Hm & _). destruct regrow; cbn [andb]; [|done].
  destruct (Z.eqb_spec (sdsReqType n) SDS_TYPE_5) as [e|ne]; [|done].
  rewrite e in Hm. change (req_max SDS_TYPE_5) with 31 in Hm. change (req_max SDS_TYPE_8) with 252. unfold SDS_TYPE_8, SDS_TYPE_5. repeat split; lia || done.
Qed.

Lemma room_of s l n : holds s l -> s_type s <> SDS_TYPE_5 -> n <= zlen (s_buf s) - 1 -> n - zlen l <= sdsavail s.
Proof.
  intros Hs H5 Hn. pose proof (holds_elim s l Hs) as (_ & _ & _ & _ & _ & Ha). destruct (Ha H5) as [Hz _].
  destruct (avail_ok s l Hs H5) as [-> _]. lia.
Qed.

Lemma setalloc_frame s n : s_type (sdssetalloc s n) = s_type s /\ s_buf (sdssetalloc s n) = s_buf s.
Proof. unfold sdssetalloc. by case_bool. Qed.

Lemma makeRoom_ok s l addlen greedy : holds s l -> 0 <= addlen -> zlen l + addlen < 2 ^ 62 ->
  exists s', _sdsMakeRoomFor s addlen greedy = Ok s' /\ holds s' l /\ addlen <= sdsavail s' /\ (0 < addlen -> s_type s' <> SDS_TYPE_5).
Proof.
  intros Hs Ha Hsz. pose proof (holds_elim s l Hs) as (_ & Ht & Hl & Hst & Hb & _). pose proof (zlen_nonneg l).
  pose proof (starts_length _ _ Hst) as Hsl. unfold _sdsMakeRoomFor, sdslen. rewrite (holds_len s l Hs).
  rewrite Z.geb_leb. destruct (Z.leb_spec addlen (sdsavail s)) as [Hav|Hav].
  { exists s. split; [done|]. split; [done|]. split; [done|]. intros Hpos H5. unfold sdsavail in Hav. rewrite H5 in Hav. cbn in Hav. lia. }
  rewrite (wrapU_small 64 (zlen l + addlen)) by lia.
  assert (0 < addlen) as Hpos.
  { destruct (decide (s_type s = SDS_TYPE_5)) as [H5|H5]; [unfold sdsavail in Hav; rewrite H5 in Hav; cbn in Hav; lia|].
    destruct (avail_ok s l Hs H5). lia. }
  unfold guardr at 1. rewrite Z.gtb_ltb, (proj2 (Z.ltb_lt _ _)) by lia. runr.
  set (n := if greedy then _ else zlen l + addlen).
  assert (zlen l + addlen <= n <= zlen l + addlen + 2 ^ 20) as Hn.
  { unfold n, SDS_MAX_PREALLOC. destruct greedy; [|lia]. case_bool; rewrite wrapU_small; lia. }
  clearbody n. destruct (growing_type n true ltac:(lia)) as (Htt & Hm & H5t). cbn [andb] in Htt, Hm, H5t. specialize (H5t eq_refl).
  set (type := if sdsReqType n =? SDS_TYPE_5 then SDS_TYPE_8 else sdsReqType n) in *. clearbody type.
  pose proof (hdr_bounds type Htt) as Hh. rewrite wrapU_small by lia.
  rewrite Z.gtb_ltb, (proj2 (Z.ltb_lt (zlen l + addlen) _)) by lia. cbn [guardr]. runr.
  pose proof (s_usable_fits (sdsHdrSize type + n + 1) ltac:(lia)) as Hu. set (bufsize := s_usable _) in *. clearbody bufsize.
  assert (exists s', (if s_type s =? type then realloc_string s type (sdsHdrSize type) (zlen l) bufsize
      else let* (s, type, hdrlen) := malloc_string s type (sdsHdrSize type) (zlen l) bufsize in Ok (sdssetlen s (zlen l), type, hdrlen)) =
      Ok (sdssetlen s' (zlen l), s_type s', sdsHdrSize (s_type s')) /\ reblocked s s' type bufsize n (zlen l)) as (s' & -> & Hr).
  { destruct (Z.eqb_spec (s_type s) type) as [e|ne].
    - destruct (realloc_string_ok s n (zlen l) bufsize) as (s' & E & Hr & Hsame); [done|lia|lia|by rewrite e|by rewrite e|].
      rewrite e in E, Hr. exists s'. rewrite E. rewrite (setlen_same s'); [done|apply Hr| |by apply Hsame, holds_len].
      pose proof (rb_type _ _ _ _ _ _ Hr) as Ht'. pose proof (max_bounds _ Ht'). pose proof (rb_len _ _ _ _ _ _ Hr). lia.
    - destruct (malloc_string_ok s type n (zlen l) bufsize) as (s' & E & Hr); [done|lia|lia|done|done|].
      exists s'. rewrite E. by runr. }
  runr. pose proof (reblocked_holds s s' type bufsize n l Hr ltac:(lia) ltac:(lia) Hst) as Hh'. destruct Hr as [Ht' H5' Htk Hz Hroom Hmax Hfit].
  pose proof (hdr_bounds _ Ht') as Hh2. rewrite wrapU_small in Hh' |- * by lia. rewrite (proj2 (Z.leb_le (bufsize - sdsHdrSize (s_type s') - 1) _)) by (specialize (Hfit H5t); lia).
  rewrite orb_true_r. cbn [guardr]. runr. eexists. split; [done|]. split; [exact Hh'|].
  destruct (setalloc_frame (sdssetlen s' (zlen l)) (bufsize - sdsHdrSize (s_type s') - 1)) as [Eft Efb].
  assert (s_type (sdssetalloc (sdssetlen s' (zlen l)) (bufsize - sdsHdrSize (s_type s') - 1)) <> SDS_TYPE_5) as Hne.
  { rewrite Eft. cbn [sdssetlen s_type]. intros e. by apply H5t, H5'. }
  split; [|done]. pose proof (room_of _ l n Hh' Hne) as Hr2. rewrite Efb in Hr2. cbn [sdssetlen s_buf] in Hr2. lia.
Qed.

(** Writing the zero behind [l]. *)
Lemma terminate buf l : take (length l) buf = l -> zlen l + 1 <= zlen buf ->
  exists buf', wr1 buf (zlen l) 0 = Ok buf' /\ starts buf' l /\ zlen buf' = zlen buf.
Proof.
  intros Ht Hl. pose proof (zlen_nonneg l). rewrite wr1_ok by lia. eexists. split; [done|]. split; [|by rewrite zlen_insert].
  unfold starts, zlen. rewrite Nat2Z.id. unfold zlen in Hl. rewrite (take_S_r _ _ 0).
  - rewrite take_insert_ge by lia. by rewrite Ht.
  - apply list_lookup_insert_eq. lia.
Qed.

Lemma starts_prefix buf l : starts buf l -> take (length l) buf = l.
Proof. intros (rest & ->)%starts_split. apply take_app_length. Qed.

Lemma resize_end s l newsize : 0 <= s_type s <= 4 -> zlen l <= sdsTypeMaxSize (s_type s) -> take (length l) (s_buf s) = l ->
  zlen l + 1 <= zlen (s_buf s) < 2 ^ 63 ->
  (s_type s <> SDS_TYPE_5 -> newsize = zlen (s_buf s) - 1 /\ newsize <= sdsTypeMaxSize (s_type s)) ->
  exists s', (let* s := put_byte s (zlen l) 0 in Ok (sdssetalloc (sdssetlen s (zlen l)) newsize)) = Ok s' /\
    holds s' l /\ s_type s' = s_type s /\ zlen (s_buf s') = zlen (s_buf s).
Proof.
  intros Ht Hl Htk Hb Hn. destruct (terminate (s_buf s) l Htk ltac:(lia)) as (buf & E & Hst & Hz).
  unfold put_byte. rewrite E. runr. eexists. split; [done|].
  destruct (setalloc_frame (sdssetlen (set_buf s buf) (zlen l)) newsize) as [Et Eb]. rewrite Et, Eb. split; [|done].
  destruct (decide (s_type s = SDS_TYPE_5)) as [H5|H5].
  - assert (forall n, sdssetalloc (sdssetlen (set_buf s buf) (zlen l)) newsize = sdssetalloc (sdssetlen (set_buf s buf) (zlen l)) n) as Eq.
    { intros n. unfold sdssetalloc. cbn [sdssetlen set_buf s_type]. by rewrite H5. }
    rewrite (Eq (zlen buf - 1)). by apply resized_ok; cbn [set_buf s_type s_buf]; try lia.
  - destruct (Hn H5) as [-> Hm]. rewrite <- Hz. apply resized_ok; cbn [set_buf s_type s_buf]; try done; lia.
Qed.

Lemma take_length_take {A} (l : list A) k : take (length (take k l)) l = take k l.
Proof.
  rewrite length_take. destruct (Nat.le_gt_cases k (length l)); [f_equal; lia|]. rewrite !take_ge by lia. done.
Qed.

Lemma reblocked_take s s' type bufsize n l : reblocked s s' type bufsize n (zlen l) -> take (length l) (s_buf s) = l ->
  take (length l) (s_buf s') = l.
Proof.
  intros Hr Hl. pose proof (rb_take _ _ _ _ _ _ Hr) as Ht. rewrite <- Hl at 2.
  replace (length l) with (Nat.min (length l) (Z.to_nat (zlen l + 1))) by (unfold zlen; lia). rewrite <- !take_take. by rewrite Ht.
Qed.

Lemma resize_block_ok s l l' size type : holds s l -> 0 <= size < 2 ^ 62 -> sdsalloc s <> size -> 0 <= type <= 4 -> size <= req_max type ->
  zlen l' <= size -> zlen l' <= zlen l -> take (length l') (s_buf s) = l' ->
  exists s1 newsize, resize_block s size type (zlen l') = Ok (s1, newsize) /\
    0 <= s_type s1 <= 4 /\ zlen l' <= sdsTypeMaxSize (s_type s1) /\
    take (length l') (s_buf s1) = l' /\ zlen l' + 1 <= zlen (s_buf s1) < 2 ^ 63 /\
    (s_type s1 <> SDS_TYPE_5 -> newsize = zlen (s_buf s1) - 1 /\ newsize <= sdsTypeMaxSize (s_type s1)) /\
    (type <> SDS_TYPE_5 -> s_type s1 <> SDS_TYPE_5 /\ size <= zlen (s_buf s1) - 1).
Proof.
  intros Hs Hsz Hne Htt Hm Hl1 Hl2 Hpre. pose proof (holds_elim s l Hs) as (_ & Ht & Hl & Hst & Hb & Hal). pose proof (zlen_nonneg l').
  pose proof (starts_length _ _ Hst) as Hsl. pose proof (max_bounds _ Ht) as Hmx.
  pose proof (hdr_bounds type Htt). pose proof (hdr_bounds _ Ht). unfold resize_block. rewrite !wrapU_small by lia.
  destruct ((s_type s =? type) || _) eqn:Eu.
  - assert (size <= req_max (s_type s) /\ (type <> SDS_TYPE_5 -> s_type s <> SDS_TYPE_5)) as [Hm' H5'].
    { apply orb_true_iff in Eu as [->%Z.eqb_eq|[Hlt%Z.ltb_lt Hgt]%andb_true_iff]; [done|].
      rewrite Z.gtb_ltb in Hgt. apply Z.ltb_lt in Hgt. pose proof (req_max_mono type (s_type s)). unfold SDS_TYPE_8, SDS_TYPE_5 in *. split; lia. }
    pose proof (s_usable_fits (sdsHdrSize (s_type s) + size + 1) ltac:(lia)) as Hu. set (bufsize := s_usable _) in *. clearbody bufsize.
    assert (sdsalloc s <= zlen (s_buf s) - 1) as Has.
    { unfold sdsalloc. rewrite (holds_len s l Hs). case_bool; [lia|]. destruct (Hal ltac:(done)). lia. }
    assert (0 <= sdsalloc s) as Ha0.
    { unfold sdsalloc. rewrite (holds_len s l Hs). pose proof (zlen_nonneg l). case_bool; [lia|]. destruct (Hal ltac:(done)). lia. }
    unfold sdsAllocSize. rewrite (wrapU_small 64 (sdsHdrSize _ + _ + 1)) by lia.
    destruct (use_jemalloc && (bufsize =? sdsHdrSize (s_type s) + sdsalloc s + 1)) eqn:Ej.
    + apply andb_true_iff in Ej as [_ Ej%Z.eqb_eq]. rewrite wrapU_small by lia. eexists s, _. split; [done|].
      split; [done|]. split; [lia|]. split; [done|]. split; [lia|]. split.
      * intros n5. destruct (Hal n5). unfold sdsalloc. rewrite (proj2 (Z.eqb_neq _ _)) by done. lia.
      * intros n5. specialize (H5' n5). split; [done|]. lia.
    + destruct (realloc_string_ok s size (zlen l') bufsize) as (s1 & -> & Hr & _); [done|lia|lia|done|done|]. runr.
      pose proof (reblocked_take _ _ _ _ _ _ Hr Hpre) as Hp1. destruct Hr as [R1 R2 _ R4 R5 R6 R7]. pose proof (hdr_bounds _ R1). pose proof (max_bounds _ R1).
      rewrite wrapU_small by lia. eexists s1, _. split; [done|]. split; [done|]. split; [lia|]. split; [done|]. split; [lia|]. split.
      * intros n5. assert (s_type s <> SDS_TYPE_5) as n5' by (intros e; by apply n5, R2). specialize (R7 n5'). lia.
      * intros n5. specialize (H5' n5). split; [|done]. intros e. by apply H5', R2.
  - pose proof (s_usable_fits (sdsHdrSize type + size + 1) ltac:(lia)) as Hu. set (bufsize := s_usable _) in *. clearbody bufsize.
    destruct (malloc_string_ok s type size (zlen l') bufsize) as (s1 & -> & Hr); [done|lia|lia|done|done|]. runr.
    pose proof (reblocked_take _ _ _ _ _ _ Hr Hpre) as Hp1. destruct Hr as [R1 R2 _ R4 R5 R6 R7]. pose proof (hdr_bounds _ R1). pose proof (max_bounds _ R1).
    rewrite wrapU_small by lia. eexists s1, _. split; [done|]. split; [done|]. split; [lia|]. split; [done|]. split; [lia|]. split.
    + intros n5. assert (type <> SDS_TYPE_5) as n5' by (intros e; by apply n5, R2). specialize (R7 n5'). lia.
    + intros n5. split; [|done]. intros e. by apply n5, R2.
Qed.

Lemma sds_resize_ok s l size regrow : holds s l -> 0 <= size < 2 ^ 62 ->
  exists s', sdsResize s size regrow = Ok s' /\ holds s' (take (Z.to_nat size) l) /\
    (regrow = true -> sdsalloc s <> size -> s_type s' <> SDS_TYPE_5 /\ size <= zlen (s_buf s') - 1).
Proof.
  intros Hs Hsz. pose proof (holds_elim s l Hs) as (_ & Ht & Hl & Hst & Hb & Hal). unfold sdsResize, sdslen. rewrite (holds_len s l Hs).
  destruct (Z.eqb_spec (sdsalloc s) size) as [e|ne].
  { exists s. split; [done|]. split; [|done]. rewrite take_ge; [done|]. unfold sdsalloc in e. rewrite (holds_len s l Hs) in e.
    pose proof (starts_length _ _ Hst). destruct (Z.eqb_spec (s_type s) SDS_TYPE_5) as [_|n5]; [unfold zlen in e; lia|]. destruct (Hal n5). unfold zlen in *. lia. }
  set (l' := take (Z.to_nat size) l). assert ((if size <? zlen l then size else zlen l) = zlen l') as ->.
  { unfold l', zlen. rewrite length_take. case_bool; lia. }
  assert (zlen l' <= size /\ zlen l' <= zlen l) as [Hl1 Hl2] by (unfold l', zlen; rewrite length_take; lia).
  assert (take (length l') (s_buf s) = l') as Hpre.
  { apply starts_split in Hst as (rest & ->). unfold l'. rewrite take_app_le by (rewrite length_take; lia). apply take_length_take. }
  destruct (growing_type size regrow ltac:(lia)) as (Htt & Hm & H5t). set (type := if regrow && _ then _ else _) in *. clearbody type.
  destruct (resize_block_ok s l l' size type Hs Hsz ne Htt Hm Hl1 Hl2 Hpre) as (s1 & newsize & -> & H1 & H2 & H3 & H4 & H6 & H7). runr.
  destruct (resize_end s1 l' newsize H1 H2 H3 H4 H6) as (s' & E' & Hs' & Et & Ez). exists s'.
  split; [exact E'|]. split; [done|]. intros Hr _. rewrite Et, Ez. by apply H7, H5t.
Qed.
End sds_ops.
