(* ===== verification/SdsOps.v ===== *)
(** SdsOps: creating and editing the strings of Sds.v, against the same edits of
    a list of bytes. *)

From Stdlib Require Import ZArith Lia Bool.
From stdpp Require Import base list numbers decidable.
From S2P Require Import Prelude Bytes Sds SdsProofs.

Local Open Scope Z_scope.

(** * Writing inside the block *)

Lemma capacity s l add : holds s l -> 0 <= add <= sdsavail s ->
  zlen l + add <= sdsTypeMaxSize (s_type s) /\ zlen l + add + 1 <= zlen (s_buf s).
Proof.
  intros Hs Ha. pose proof (holds_elim s l Hs) as (_ & Ht & Hl & Hst & Hb & Hal). pose proof (starts_length _ _ Hst).
  destruct (decide (s_type s = SDS_TYPE_5)) as [H5|H5].
  - unfold sdsavail in Ha. rewrite H5 in Ha. cbn in Ha. lia.
  - destruct (avail_ok s l Hs H5) as [Ea _]. destruct (Hal H5). lia.
Qed.

Lemma edit_holds s l l' buf : holds s l -> zlen buf = zlen (s_buf s) -> zlen l' <= sdsTypeMaxSize (s_type s) -> starts buf l' ->
  holds (sdssetlen (set_buf s buf) (zlen l')) l'.
Proof.
  intros Hs Hz Hm Hst. pose proof (holds_elim s l Hs) as (_ & Ht & Hl & _ & Hb & Hal). pose proof (zlen_nonneg l').
  rewrite setlen_small by (cbn [set_buf s_type]; lia). cbn [set_buf s_type s_alloc s_buf]. apply holds_intro; try done; [lia|].
  intros H5. destruct (Hal H5). lia.
Qed.

Lemma alloc_len s l : holds s l -> zlen l <= sdsalloc s.
Proof.
  intros Hs. unfold sdsalloc. rewrite (holds_len s l Hs). destruct (Z.eqb_spec (s_type s) SDS_TYPE_5); [lia|].
  by apply avail_ok.
Qed.

(** The end of an edit: the zero and the length, in either order. *)
Lemma edit_end s l l' buf : holds s l -> zlen buf = zlen (s_buf s) -> zlen l' <= sdsTypeMaxSize (s_type s) ->
  zlen l' + 1 <= zlen buf -> take (length l') buf = l' ->
  exists s', holds s' l' /\
    (let* s := put_byte (set_buf s buf) (zlen l') 0 in Ok (sdssetlen s (zlen l'))) = Ok s' /\
    put_byte (sdssetlen (set_buf s buf) (zlen l')) (zlen l') 0 = Ok s'.
Proof.
  intros Hs Hz Hm Hb Htk. destruct (terminate buf l' Htk Hb) as (buf' & E & Hst & Hz').
  exists (sdssetlen (set_buf s buf') (zlen l')). split; [apply (edit_holds s l); congruence || done|].
  unfold put_byte. cbn [set_buf sdssetlen s_buf]. rewrite E. by runr.
Qed.

Lemma set_buf_same s : set_buf s (s_buf s) = s.
Proof. by destruct s. Qed.

Lemma wrn_at {A} (buf bs : list A) off : 0 <= off -> off + zlen bs <= zlen buf ->
  exists buf', wrn buf off bs = Ok buf' /\ zlen buf' = zlen buf /\
    take (Z.to_nat off + length bs) buf' = take (Z.to_nat off) buf ++ bs /\
    drop (Z.to_nat off + length bs) buf' = drop (Z.to_nat off + length bs) buf.
Proof.
  intros Ho Hb. unfold wrn. dec_bool.
  exists ((take (Z.to_nat off) buf ++ bs) ++ drop (Z.to_nat off + length bs) buf). split; [by rewrite app_assoc|].
  assert (length (take (Z.to_nat off) buf ++ bs) = (Z.to_nat off + length bs)%nat) as El.
  { unfold zlen in Hb. rewrite length_app, length_take. lia. }
  rewrite <- El. rewrite take_app_length, drop_app_length. split; [|done].
  unfold zlen in *. rewrite length_app, length_drop, El. lia.
Qed.

Section sds_edits.
Context `{alloc : SdsAllocator} {laws : SdsAllocatorLaws}.

(** * Creation *)

Definition init_bytes (init : sds_init) (n : Z) (l : list Z) : Prop :=
  zlen l = n /\
  match init with
  | NoInit => True
  | Zeros => l = replicate (Z.to_nat n) 0
  | InitFrom bs => n <= zlen bs /\ l = take (Z.to_nat n) bs
  end.

(** Filling the first [n] bytes of a block. *)
Lemma init_ok s init n : 0 <= n -> n + 1 <= zlen (s_buf s) -> (forall bs, init = InitFrom bs -> n <= zlen bs) ->
  exists l buf,
    match init with
    | NoInit => Ok s
    | Zeros => put_bytes s 0 (replicate (Z.to_nat n) 0) n
    | InitFrom bs => if n =? 0 then Ok s else put_bytes s 0 bs n
    end = Ok (set_buf s buf) /\ init_bytes init n l /\ take (length l) buf = l /\ zlen buf = zlen (s_buf s).
Proof.
  intros Hn Hb Hi.
  assert (forall bs, n <= zlen bs -> exists buf, put_bytes s 0 bs n = Ok (set_buf s buf) /\
    take (length (take (Z.to_nat n) bs)) buf = take (Z.to_nat n) bs /\ zlen buf = zlen (s_buf s)) as Hput.
  { intros bs Hbs. unfold put_bytes. rewrite rdn_prefix by lia. runr. assert (zlen (take (Z.to_nat n) bs) = n) as Hz by (apply zlen_take; lia).
    destruct (wrn_at (s_buf s) (take (Z.to_nat n) bs) 0) as (buf & -> & Hzb & Htk & _); [lia|lia|]. runr. exists buf.
    split; [done|]. split; [|done]. rewrite Z2Nat.inj_0, take_0 in Htk. exact Htk. }
  destruct init as [| |bs].
  - exists (take (Z.to_nat n) (s_buf s)), (s_buf s). rewrite set_buf_same. split; [done|]. split; [split; [apply zlen_take; lia|done]|].
    split; [apply take_length_take|done].
  - assert (n <= zlen (replicate (Z.to_nat n) 0)) as Hr by (unfold zlen; rewrite length_replicate; lia).
    destruct (Hput _ Hr) as (buf & E & Htk & Hz). rewrite (take_ge (replicate _ _)) in Htk by (rewrite length_replicate; lia).
    exists (replicate (Z.to_nat n) 0), buf. split; [done|]. split; [|done]. split; [|done]. unfold zlen. rewrite length_replicate. lia.
  - specialize (Hi bs eq_refl). destruct (Hput bs Hi) as (buf & E & Htk & Hz). exists (take (Z.to_nat n) bs). destruct (Z.eqb_spec n 0) as [->|ne].
    + exists (s_buf s). rewrite set_buf_same. split; [done|]. split; [|done]. split; [done|]. by split.
    + exists buf. split; [done|]. split; [|done]. split; [apply zlen_take; lia|by split].
Qed.

Lemma newlen_ok init n : 0 <= n < 2 ^ 62 -> (forall bs, init = InitFrom bs -> n <= zlen bs) ->
  exists s l, sdsnewlen init n = Ok s /\ holds s l /\ init_bytes init n l.
Proof.
  intros Hn Hi. unfold sdsnewlen, _sdsnewlen.
  destruct (growing_type n (n =? 0) ltac:(lia)) as (Htt & Hm & _). rewrite andb_comm. set (type := if (n =? 0) && _ then _ else _) in *. clearbody type.
  pose proof (hdr_bounds type Htt) as Hh. rewrite (wrapU_small 64 (n + sdsHdrSize type + 1)) by lia.
  unfold guardr at 1. rewrite Z.gtb_ltb, (proj2 (Z.ltb_lt _ _)) by lia. runr.
  pose proof (s_usable_fits (sdsHdrSize type + n + 1) ltac:(lia)) as Hu. set (bufsize := s_usable _) in *. clearbody bufsize.
  destruct (adjust_ok type bufsize n Htt ltac:(lia) ltac:(lia)) as (t & adj & -> & Ht & H5 & Hb & Hh2 & _ & Hmax).
  pose proof (hdr_bounds t Ht) as Hht. pose proof (max_bounds t Ht). pose proof (five_max type t n Ht H5 Hh2 Htt Hm) as Hm'.
  unfold sdsnewplacement. unfold sdsReqSize. rewrite (wrapU_small 64 (n + sdsHdrSize t + 1)) by lia.
  unfold guardr at 1. rewrite Z.geb_leb, (proj2 (Z.leb_le _ _)) by lia. runr. rewrite wrapU_small by lia.
  set (buf0 := drop (Z.to_nat (sdsHdrSize t)) (fresh_bytes bufsize)).
  assert (zlen buf0 = bufsize - sdsHdrSize t) as Hb0.
  { unfold buf0. rewrite zlen_drop by (rewrite fresh_length; lia). rewrite fresh_length; lia. }
  set (s0 := {| s_type := t; s_len := 0; s_alloc := 0; s_buf := buf0 |}). set (usable := bufsize - sdsHdrSize t - 1).
  destruct (setalloc_frame (sdssetlen s0 n) usable) as [Et Eb]. cbn [sdssetlen s0 s_type s_buf] in Et, Eb.
  destruct (init_ok (sdssetalloc (sdssetlen s0 n) usable) init n) as (l & buf & -> & Hl & Htk & Hz); [lia|rewrite Eb; lia|done|]. runr.
  assert (zlen l = n) as El by apply Hl. rewrite <- El in *. rewrite Eb in Hz.
  destruct (terminate buf l Htk ltac:(lia)) as (buf' & E & Hst & Hz'). unfold put_byte. cbn [set_buf s_buf]. rewrite E. runr.
  assert (set_buf (set_buf (sdssetalloc (sdssetlen s0 (zlen l)) usable) buf) buf' = sdssetalloc (sdssetlen (Build_sds t 0 0 buf') (zlen l)) usable) as ->.
  { unfold sdssetalloc, set_buf, sdssetlen. cbn [s_type s0]. by case_bool. }
  eexists _, l. split; [done|]. assert (holds (sdssetalloc (sdssetlen (Build_sds t 0 0 buf') (zlen l)) usable) l) as Hh'.
  { apply resized_ok; cbn [s_type s_buf]; try done; try lia. }
  by split.
Qed.

Lemma sds_dup_ok s l : holds s l -> zlen l < 2 ^ 62 -> exists s', sdsdup s = Ok s' /\ holds s' l.
Proof.
  intros Hs Hl. pose proof (holds_elim s l Hs) as (_ & _ & _ & Hst & _). pose proof (starts_length _ _ Hst). pose proof (zlen_nonneg l).
  unfold sdsdup, sdslen. rewrite (holds_len s l Hs). destruct (newlen_ok (InitFrom (s_buf s)) (zlen l)) as (s' & l' & E & Hh & Hi); [lia|intros bs [= <-]; lia|].
  exists s'. split; [done|]. destruct Hi as (_ & _ & ->). revert Hh. unfold zlen. by rewrite Nat2Z.id, (starts_prefix _ _ Hst).
Qed.

Lemma empty_ok : exists s, sdsempty = Ok s /\ holds s [].
Proof.
  destruct (newlen_ok (InitFrom []) 0) as (s & l & E & Hh & Hi); [lia|intros bs [= <-]; done|]. exists s. split; [done|].
  destruct Hi as (_ & _ & ->). done.
Qed.

(** * Edits *)

Lemma take_prefix buf l k : starts buf l -> (k <= length l)%nat -> take k buf = take k l.
Proof. intros (rest & ->)%starts_split Hk. by rewrite take_app_le. Qed.

Lemma cat_ok s l t n : holds s l -> 0 <= n <= zlen t -> zlen l + n < 2 ^ 62 ->
  exists s', sdscatlen s t n = Ok s' /\ holds s' (l ++ take (Z.to_nat n) t).
Proof.
  intros Hs Hn Hsz. pose proof (zlen_nonneg l). unfold sdscatlen, sdslen, sdsMakeRoomFor. rewrite (holds_len s l Hs).
  destruct (makeRoom_ok s l n true Hs ltac:(lia) Hsz) as (s1 & -> & Hs1 & Hav & _). runr.
  destruct (capacity s1 l n Hs1 ltac:(lia)) as [Hc1 Hc2]. pose proof (holds_elim s1 l Hs1) as (_ & _ & _ & Hst & _).
  unfold put_bytes. rewrite rdn_prefix by lia. runr. set (bs := take (Z.to_nat n) t). assert (zlen bs = n) as Hb by (apply zlen_take; lia).
  destruct (wrn_at (s_buf s1) bs (zlen l)) as (buf & -> & Hz & Htk & _); [lia|lia|]. runr. rewrite wrapU_small by lia.
  destruct (edit_end s1 l (l ++ bs) buf Hs1 Hz) as (s' & Hs' & _ & E).
  - rewrite zlen_app. lia.
  - rewrite zlen_app. lia.
  - rewrite length_app. replace (length l) with (Z.to_nat (zlen l)) by (unfold zlen; lia). rewrite Htk.
    unfold zlen. rewrite Nat2Z.id. by rewrite (starts_prefix _ _ Hst).
  - exists s'. rewrite zlen_app, Hb in E. by split.
Qed.

Lemma cpy_ok s l t n : holds s l -> 0 <= n <= zlen t -> n < 2 ^ 62 -> zlen l < 2 ^ 62 ->
  exists s', sdscpylen s t n = Ok s' /\ holds s' (take (Z.to_nat n) t).
Proof.
  intros Hs Hn Hsz Hl. pose proof (zlen_nonneg l). unfold sdscpylen, sdslen, sdsMakeRoomFor. rewrite (holds_len s l Hs).
  assert (exists s1, (if sdsalloc s <? n then _sdsMakeRoomFor s (u64 (n - zlen l)) true else Ok s) = Ok s1 /\ holds s1 l /\
    n <= sdsTypeMaxSize (s_type s1) /\ n + 1 <= zlen (s_buf s1)) as (s1 & -> & Hs1 & Hc1 & Hc2).
  { pose proof (alloc_len s l Hs). destruct (Z.ltb_spec (sdsalloc s) n) as [Hlt|Hlt].
    - rewrite wrapU_small by lia. destruct (makeRoom_ok s l (n - zlen l) true Hs) as (s1 & -> & Hs1 & Hav & _); [lia|lia|].
      exists s1. split; [done|]. split; [done|]. destruct (capacity s1 l (n - zlen l) Hs1 ltac:(lia)). lia.
    - exists s. split; [done|]. split; [done|]. pose proof (holds_elim s l Hs) as (_ & _ & Hm & Hst & _ & Hal). pose proof (starts_length _ _ Hst).
      unfold sdsalloc in Hlt. rewrite (holds_len s l Hs) in Hlt. revert Hlt. destruct (Z.eqb_spec (s_type s) SDS_TYPE_5) as [_|n5]; [lia|]. destruct (Hal n5). lia. }
  runr. unfold put_bytes. rewrite rdn_prefix by lia. runr. set (bs := take (Z.to_nat n) t). assert (zlen bs = n) as Hb by (apply zlen_take; lia).
  destruct (wrn_at (s_buf s1) bs 0) as (buf & -> & Hz & Htk & _); [lia|lia|]. runr. rewrite Z2Nat.inj_0, take_0 in Htk.
  destruct (edit_end s1 l bs buf Hs1 Hz) as (s' & Hs' & E & _); [lia|lia|done|]. exists s'. rewrite Hb in E. by split.
Qed.

Lemma growzero_ok s l n : holds s l -> 0 <= n < 2 ^ 62 ->
  exists s', sdsgrowzero s n = Ok s' /\ holds s' (l ++ replicate (Z.to_nat n - length l) 0).
Proof.
  intros Hs Hn. pose proof (zlen_nonneg l). unfold sdsgrowzero, sdslen, sdsMakeRoomFor. rewrite (holds_len s l Hs).
  destruct (Z.leb_spec n (zlen l)).
  { exists s. split; [done|]. replace (Z.to_nat n - length l)%nat with 0%nat by (unfold zlen in *; lia). by rewrite app_nil_r. }
  rewrite wrapU_small by lia. destruct (makeRoom_ok s l (n - zlen l) true Hs) as (s1 & -> & Hs1 & Hav & _); [lia|lia|]. runr.
  destruct (capacity s1 l (n - zlen l) Hs1 ltac:(lia)) as [Hc1 Hc2]. pose proof (holds_elim s1 l Hs1) as (_ & _ & _ & Hst & _).
  unfold put_bytes. set (zs := replicate (Z.to_nat (n - zlen l + 1)) 0). assert (zlen zs = n - zlen l + 1) as Hzs by (unfold zs; unfold zlen at 1; rewrite length_replicate; lia).
  rewrite rdn_prefix by lia. runr. rewrite take_ge by (unfold zlen in *; lia).
  destruct (wrn_at (s_buf s1) zs (zlen l)) as (buf & -> & Hz & Htk & _); [lia|lia|]. runr. eexists. split; [done|].
  set (l' := l ++ replicate (Z.to_nat n - length l) 0). assert (zlen l' = n) as Hl' by (unfold l', zlen in *; rewrite length_app, length_replicate; lia).
  rewrite <- Hl'. apply (edit_holds s1 l); [done|done|lia|].
  unfold starts. assert (S (length l') = Z.to_nat (zlen l) + length zs)%nat as -> by (unfold zlen in *; lia). rewrite Htk.
  replace (take (Z.to_nat (zlen l)) (s_buf s1)) with l by (unfold zlen; rewrite Nat2Z.id; symmetry; by apply starts_prefix).
  unfold l'. rewrite <- app_assoc. f_equal. unfold zs. replace (Z.to_nat (n - zlen l + 1)) with (Z.to_nat n - length l + 1)%nat by (unfold zlen in *; lia).
  by rewrite replicate_add.
Qed.

(** Cutting the string down inside its block. *)
Lemma cut_end s l l' buf : holds s l -> zlen buf = zlen (s_buf s) -> zlen l' <= zlen l -> take (length l') buf = l' ->
  exists s', holds s' l' /\
    (let* s := put_byte (set_buf s buf) (zlen l') 0 in Ok (sdssetlen s (zlen l'))) = Ok s' /\
    put_byte (sdssetlen (set_buf s buf) (zlen l')) (zlen l') 0 = Ok s'.
Proof.
  intros Hs Hz Hl Htk. pose proof (holds_elim s l Hs) as (_ & _ & Hm & Hst & _). pose proof (starts_length _ _ Hst).
  apply (edit_end s l); try done; lia.
Qed.

Lemma clear_ok s l : holds s l -> exists s', sdsclear s = Ok s' /\ holds s' [].
Proof.
  intros Hs. pose proof (zlen_nonneg l). destruct (cut_end s l [] (s_buf s) Hs eq_refl) as (s' & Hs' & _ & E); [done|done|].
  rewrite set_buf_same in E. exists s'. by split.
Qed.

Lemma strlen_ok a b : Forall (fun c => c <> 0) a -> forall n, strlen_loop (a ++ 0 :: b) n = Ok (n + zlen a).
Proof.
  induction 1 as [|c a Hc Ha IH]; intros n; cbn [app strlen_loop]; [by rewrite Z.add_0_r|].
  rewrite (proj2 (Z.eqb_neq _ _)) by done. rewrite IH, zlen_cons. f_equal. lia.
Qed.

(** The bytes before the first zero. *)
Fixpoint c_string (l : list Z) : list Z :=
  match l with [] => [] | c :: l => if c =? 0 then [] else c :: c_string l end.

Lemma c_string_split l : Forall (fun c => c <> 0) (c_string l) /\ exists b, l ++ [0] = c_string l ++ 0 :: b.
Proof.
  induction l as [|c l [IH1 [b IH2]]]; cbn [c_string app]; [by split; [|exists []]|].
  destruct (Z.eqb_spec c 0) as [->|Hc]; [by split; [|eexists]|]. split; [by constructor|]. exists b. cbn [app]. by rewrite IH2.
Qed.

Lemma updatelen_ok s l : holds s l -> exists s', sdsupdatelen s = Ok s' /\ holds s' (c_string l).
Proof.
  intros Hs. pose proof (holds_elim s l Hs) as (_ & _ & Hm & Hst & _). pose proof Hst as Hst'. apply starts_split in Hst' as (rest & E).
  destruct (c_string_split l) as [Hc [b Eb]]. assert (s_buf s = c_string l ++ 0 :: b ++ rest) as Es.
  { rewrite E, (cons_middle 0 l rest), app_assoc, Eb. by rewrite <- app_assoc. }
  unfold sdsupdatelen, strlen. rewrite Es, (strlen_ok _ _ Hc). runr. eexists. split; [done|]. change (0 + zlen (c_string l)) with (zlen (c_string l)).
  rewrite <- (set_buf_same s). apply (edit_holds s l); [done|done| |apply starts_split; by eexists].
  assert (zlen (l ++ [0]) = zlen (c_string l ++ 0 :: b)) as Hz by by rewrite Eb. rewrite !zlen_app, !zlen_cons in Hz. change (zlen []) with 0 in Hz. pose proof (zlen_nonneg b). lia.
Qed.

Lemma move_front s l src n : holds s l -> 0 <= src -> 0 <= n -> src + n <= zlen l ->
  exists buf, move_bytes s 0 src n = Ok (set_buf s buf) /\ zlen buf = zlen (s_buf s) /\
    take (Z.to_nat n) buf = take (Z.to_nat n) (drop (Z.to_nat src) l).
Proof.
  intros Hs H1 H2 H3. pose proof (holds_elim s l Hs) as (_ & _ & _ & Hst & _). pose proof (starts_length _ _ Hst).
  unfold move_bytes, memmove. unfold rdn. dec_bool. runr. set (bs := take _ _). assert (zlen bs = n) as Hb by (unfold bs; apply zlen_take; rewrite zlen_drop; lia).
  destruct (wrn_at (s_buf s) bs 0) as (buf & -> & Hz & Htk & _); [lia|lia|]. runr. exists buf. split; [done|]. split; [done|].
  rewrite Z2Nat.inj_0, take_0 in Htk. cbn [app Nat.add] in Htk. replace (length bs) with (Z.to_nat n) in Htk by (unfold zlen in Hb; lia). rewrite Htk.
  unfold bs. apply starts_split in Hst as (rest & ->). rewrite drop_app_le by (unfold zlen in *; lia).
  apply take_app_le. rewrite length_drop. unfold zlen in *. lia.
Qed.

Lemma substr_ok s l start n : holds s l -> 0 <= start -> 0 <= n ->
  exists s', sdssubstr s start n = Ok s' /\ holds s' (take (Z.to_nat n) (drop (Z.to_nat start) l)).
Proof.
  intros Hs H1 H2. pose proof (zlen_nonneg l). pose proof (holds_elim s l Hs) as (_ & Ht & Hm & _ & Hb & _).
  assert (zlen l < 2 ^ 64) by (pose proof (max_bounds _ Ht); lia).
  unfold sdssubstr, sdslen. rewrite (holds_len s l Hs). rewrite Z.geb_leb.
  set (p := if zlen l <=? start then (0, 0) else (start, n)).
  assert (exists a k, p = (a, k) /\ 0 <= a <= zlen l /\ 0 <= k /\
    take (Z.to_nat (Z.min k (zlen l - a))) (drop (Z.to_nat a) l) = take (Z.to_nat n) (drop (Z.to_nat start) l)) as (a & k & -> & Ha & Hk & Et).
  { unfold p. destruct (Z.leb_spec (zlen l) start).
    - exists 0, 0. split; [done|]. split; [lia|]. split; [lia|]. rewrite (drop_ge l (Z.to_nat start)) by (unfold zlen in *; lia). rewrite take_nil.
      replace (Z.to_nat (Z.min 0 (zlen l - 0))) with 0%nat by lia. apply take_0.
    - exists start, n. split; [done|]. split; [lia|]. split; [lia|]. destruct (Z.le_gt_cases n (zlen l - start)).
      + do 2 f_equal. lia.
      + rewrite !take_ge; [done|rewrite length_drop; unfold zlen in *; lia|rewrite length_drop; unfold zlen in *; lia]. }
  rewrite (wrapU_small 64 (zlen l - a)) by lia. rewrite Z.gtb_ltb.
  assert ((if zlen l - a <? k then zlen l - a else k) = Z.min k (zlen l - a)) as -> by (case_bool; lia).
  set (m := Z.min k (zlen l - a)) in *. set (l' := take (Z.to_nat n) (drop (Z.to_nat start) l)) in *.
  assert (zlen l' = m) as El by (rewrite <- Et; apply zlen_take; rewrite zlen_drop; lia).
  assert (exists buf, (if m =? 0 then Ok s else move_bytes s 0 a m) = Ok (set_buf s buf) /\ zlen buf = zlen (s_buf s) /\ take (length l') buf = l') as (buf & -> & Hz & Htk).
  { destruct (Z.eqb_spec m 0) as [e|ne].
    - exists (s_buf s). rewrite set_buf_same. split; [done|]. split; [done|]. rewrite e in El. apply zlen_nil_inv in El. by rewrite El.
    - destruct (move_front s l a m Hs) as (buf & -> & Hz & Htk); [lia|lia|lia|]. exists buf. split; [done|]. split; [done|].
      replace (length l') with (Z.to_nat m) by (unfold zlen in El; lia). by rewrite Htk. }
  runr. destruct (cut_end s l l' buf Hs Hz) as (s' & Hs' & E & _); [lia|done|]. rewrite El in E. exists s'. by split.
Qed.

(** Indexes from the end are negative; a range that starts before the string is
    empty. *)
Definition range_bytes (l : list Z) (start end_ : Z) : list Z :=
  let a := if start <? 0 then zlen l + start else start in
  let b := if end_ <? 0 then zlen l + end_ else end_ in
  if (a <? 0) || (b <? a) then [] else take (Z.to_nat (b - a + 1)) (drop (Z.to_nat a) l).

Lemma range_ok s l start end_ : holds s l -> - 2 ^ 61 <= start < 2 ^ 61 -> - 2 ^ 61 <= end_ < 2 ^ 61 -> zlen l < 2 ^ 62 ->
  exists s', sdsrange s start end_ = Ok s' /\ holds s' (range_bytes l start end_).
Proof.
  intros Hs H1 H2 Hl. pose proof (zlen_nonneg l). unfold sdsrange, sdslen, range_bytes. rewrite (holds_len s l Hs).
  destruct (Z.eqb_spec (zlen l) 0) as [e|ne].
  { exists s. split; [done|]. apply zlen_nil_inv in e. subst l. rewrite drop_nil, take_nil. by destruct (_ || _). }
  assert (forall x, - 2 ^ 61 <= x < 2 ^ 61 -> (if x <? 0 then i64 (zlen l + x) else x) = (if x <? 0 then zlen l + x else x)) as Hw.
  { intros x Hx. destruct (x <? 0); [|done]. apply wrapS_small; lia. }
  rewrite !Hw by done. set (a := if start <? 0 then _ else _). set (b := if end_ <? 0 then _ else _).
  assert (- 2 ^ 61 <= a < 2 ^ 62) by (unfold a; case_bool; lia). assert (- 2 ^ 61 <= b < 2 ^ 62) by (unfold b; case_bool; lia).
  clearbody a b. rewrite Z.gtb_ltb. destruct (Z.ltb_spec b a).
  - runr. rewrite orb_true_r. destruct (substr_ok s l (u64 a) (u64 0) Hs) as (s' & -> & Hs'); [apply wrapU_range; lia|done|].
    exists s'. split; [done|]. by rewrite take_0 in Hs'.
  - rewrite (chk_i64_ok (b - a)) by lia. runr. rewrite chk_i64_ok by lia. runr. rewrite orb_false_r, (wrapU_small 64 (b - a + 1)) by lia.
    destruct (substr_ok s l (u64 a) (b - a + 1) Hs) as (s' & -> & Hs'); [apply wrapU_range; lia|lia|]. exists s'. split; [done|].
    destruct (Z.ltb_spec a 0); [|by rewrite wrapU_small in Hs' by lia].
    rewrite drop_ge, take_nil in Hs'; [done|]. unfold zlen in *. replace (u64 a) with (a + 2 ^ 64); [lia|].
    unfold wrapU. rewrite <- (Z_mod_plus_full a 1 (2 ^ 64)). rewrite Z.mod_small; lia.
Qed.

(** ** Trimming *)

Fixpoint drop_while (f : Z -> bool) (l : list Z) : list Z :=
  match l with [] => [] | c :: l' => if f c then drop_while f l' else l end.

Definition trim_bytes (cset l : list Z) : list Z :=
  rev (drop_while (in_cset cset) (rev (drop_while (in_cset cset) l))).

Lemma drop_while_suffix f l : exists a, l = a ++ drop_while f l.
Proof.
  induction l as [|c l [a IH]]; cbn [drop_while]; [by exists []|]. destruct (f c); [|by exists []].
  exists (c :: a). cbn [app]. by f_equal.
Qed.

Lemma drop_while_head f l c d : drop_while f l = c :: d -> f c = false.
Proof.
  induction l as [|x l IH]; cbn [drop_while]; [done|]. destruct (f x) eqn:E; [done|]. by intros [= <- <-].
Qed.

Lemma trim_left_ok cset b rest : forall a, trim_left (length b) (a ++ b ++ rest) cset (zlen a) =
  Ok (zlen a + zlen b - zlen (drop_while (in_cset cset) b)).
Proof.
  induction b as [|c b IH]; intros a; cbn [trim_left length drop_while].
  - f_equal. change (zlen []) with 0. lia.
  - cbn [app]. rewrite rd1_mid by done. runr. destruct (in_cset cset c).
    + replace (zlen a + 1) with (zlen (a ++ [c])) by (rewrite zlen_app; done). replace (a ++ c :: b ++ rest) with ((a ++ [c]) ++ b ++ rest) by by rewrite <- app_assoc.
      rewrite IH, zlen_app, !zlen_cons. change (zlen []) with 0. f_equal. lia.
    + f_equal. lia.
Qed.

Lemma trim_right_ok cset : forall n a b rest, length b = n -> trim_right n (a ++ b ++ rest) cset (zlen a + zlen b - 1) =
  Ok (zlen a + zlen (drop_while (in_cset cset) (rev b)) - 1).
Proof.
  induction n as [|n IH]; intros a b rest Hn; cbn [trim_right].
  - destruct b; [|done]. cbn. f_equal.
  - destruct b as [|c b] using rev_ind; [done|]. clear IHb. rewrite rev_unit. cbn [drop_while]. rewrite length_app in Hn. simpl in Hn.
    replace (a ++ (b ++ [c]) ++ rest) with ((a ++ b) ++ c :: rest) by by rewrite <- !app_assoc.
    rewrite rd1_mid by (rewrite !zlen_app; change (zlen [c]) with 1; lia). runr. destruct (in_cset cset c).
    + replace ((a ++ b) ++ c :: rest) with (a ++ b ++ c :: rest) by by rewrite <- app_assoc.
      replace (zlen a + zlen (b ++ [c]) - 1 - 1) with (zlen a + zlen b - 1) by (rewrite zlen_app; change (zlen [c]) with 1; lia).
      apply IH. lia.
    + f_equal. rewrite zlen_app, !zlen_cons. change (zlen []) with 0. unfold zlen. rewrite length_rev. lia.
Qed.

Lemma trim_ok s l cset : holds s l -> exists s', sdstrim s cset = Ok s' /\ holds s' (trim_bytes cset l).
Proof.
  intros Hs. pose proof (holds_elim s l Hs) as (_ & _ & _ & Hst & _). pose proof Hst as Hst'. apply starts_split in Hst' as (rest & Es).
  unfold sdstrim, sdslen, trim_bytes. rewrite (holds_len s l Hs), Es. set (f := in_cset cset).
  replace (Z.to_nat (zlen l)) with (length l) by (unfold zlen; lia). pose proof (trim_left_ok cset l (0 :: rest) []) as El. cbn [app] in El.
  change (zlen []) with 0 in El. rewrite El. runr. fold f. destruct (drop_while_suffix f l) as [a Ea]. set (d := drop_while f l) in *.
  assert (zlen l = zlen a + zlen d) as Hl by (rewrite Ea at 1; apply zlen_app). rewrite Hl. pose proof (zlen_nonneg a). pose proof (zlen_nonneg d).
  replace (0 + (zlen a + zlen d) - zlen d) with (zlen a) by lia.
  assert (d = [] \/ exists c d', d = c :: d' /\ f c = false) as Hd0.
  { destruct d as [|c d'] eqn:Ed; [by left|]. right. exists c, d'. split; [done|]. by apply (drop_while_head f l c d'). }
  clearbody d. set (l' := rev (drop_while f (rev d))).
  assert (trim_right (Z.to_nat (zlen a + zlen d - 1 - zlen a)) (l ++ 0 :: rest) cset (zlen a + zlen d - 1) = Ok (zlen a + zlen l' - 1)) as ->.
  { destruct Hd0 as [->|(c & d' & -> & Hc)].
    { change (zlen []) with 0. replace (Z.to_nat (zlen a + 0 - 1 - zlen a)) with 0%nat by lia. done. }
    rewrite Ea, <- app_assoc. replace (a ++ (c :: d') ++ 0 :: rest) with ((a ++ [c]) ++ d' ++ 0 :: rest) by by rewrite <- !app_assoc.
    replace (zlen a + zlen (c :: d') - 1) with (zlen (a ++ [c]) + zlen d' - 1) by (rewrite zlen_app, !zlen_cons; change (zlen []) with 0; lia).
    rewrite trim_right_ok by (rewrite zlen_app, zlen_cons; change (zlen []) with 0; unfold zlen; lia).
    f_equal. rewrite zlen_app, zlen_cons. change (zlen []) with 0. unfold l'. cbn [rev]. unfold zlen. rewrite length_rev.
    assert (length (drop_while f (rev d' ++ [c])) = S (length (drop_while f (rev d')))) as ->; [|fold f; lia].
    clear -Hc. induction (rev d') as [|z m IH]; cbn [app drop_while]; [by rewrite Hc|]. destruct (f z); [done|].
    cbn [length]. rewrite length_app. simpl. lia. }
  runr. replace (zlen a + zlen l' - 1 - zlen a + 1) with (zlen l') by lia.
  destruct (drop_while_suffix f (rev d)) as [x Ex]. assert (d = l' ++ rev x) as Ed.
  { rewrite <- (rev_involutive d), Ex, rev_app_distr. done. }
  assert (zlen d = zlen l' + zlen (rev x)) as Hd by (rewrite Ed at 1; apply zlen_app). pose proof (zlen_nonneg (rev x)). pose proof (zlen_nonneg l').
  assert (exists buf, (if zlen a =? 0 then Ok s else move_bytes s 0 (zlen a) (zlen l')) = Ok (set_buf s buf) /\ zlen buf = zlen (s_buf s) /\
    take (length l') buf = l') as (buf & -> & Hz & Htk).
  { destruct (Z.eqb_spec (zlen a) 0) as [e|ne].
    - exists (s_buf s). rewrite set_buf_same. split; [done|]. split; [done|]. apply zlen_nil_inv in e. subst a. cbn [app] in Ea.
      rewrite (take_prefix _ l) by (done || unfold zlen in *; lia). rewrite Ea, Ed. apply take_app_length.
    - destruct (move_front s l (zlen a) (zlen l') Hs) as (buf & -> & Hz & Htk); [lia|lia|lia|]. exists buf. split; [done|]. split; [done|].
      unfold zlen in Htk. rewrite !Nat2Z.id in Htk. rewrite Htk, Ea, drop_app_length, Ed. apply take_app_length. }
  runr. destruct (cut_end s l l' buf Hs Hz) as (s' & Hs' & E & _); [lia|done|]. exists s'. by split.
Qed.

(** ** Byte by byte *)

Lemma each_ok f g rest : (forall c, f c = Ok (g c)) -> forall b s a, s_buf s = a ++ b ++ rest ->
  each_byte (length b) f s (zlen a) = Ok (set_buf s (a ++ map g b ++ rest)).
Proof.
  intros Hf. induction b as [|c b IH]; intros s a E; cbn [each_byte length map].
  - cbn [app] in *. rewrite <- E. by rewrite set_buf_same.
  - rewrite E. cbn [app]. rewrite rd1_mid by done. runr. rewrite Hf. runr. unfold put_byte. rewrite E. cbn [app].
    unfold wr1. pose proof (zlen_nonneg a). pose proof (zlen_nonneg (b ++ rest)). rewrite zlen_app, zlen_cons. dec_bool. runr.
    replace (<[Z.to_nat (zlen a):=g c]> (a ++ c :: b ++ rest)) with ((a ++ [g c]) ++ b ++ rest).
    2: { unfold zlen. rewrite Nat2Z.id, insert_app_r_alt, Nat.sub_diag by lia. cbn. by rewrite <- app_assoc. }
    replace (zlen a + 1) with (zlen (a ++ [g c])) by (rewrite zlen_app; done). rewrite IH by done. unfold set_buf. cbn [s_type s_len s_alloc]. by rewrite <- !app_assoc.
Qed.

Lemma each_holds s l f g : holds s l -> (forall c, f c = Ok (g c)) ->
  exists s', each_byte (Z.to_nat (sdslen s)) f s 0 = Ok s' /\ holds s' (map g l).
Proof.
  intros Hs Hf. pose proof (holds_elim s l Hs) as (E & Ht & Hm & Hst & Hb & Hal). apply starts_split in Hst as (rest & Es).
  unfold sdslen. rewrite (holds_len s l Hs). replace (Z.to_nat (zlen l)) with (length l) by (unfold zlen; lia).
  pose proof (each_ok f g (0 :: rest) Hf l s [] Es) as Ee. change (zlen []) with 0 in Ee. rewrite Ee. eexists. split; [done|]. cbn [app].
  assert (zlen (map g l) = zlen l) as Hlm by (unfold zlen; by rewrite length_map).
  rewrite <- (setlen_same (set_buf s (map g l ++ 0 :: rest)) (zlen (map g l))); [|done|rewrite Hlm; cbn [set_buf s_type]; pose proof (zlen_nonneg l); lia|].
  - apply (edit_holds s l); [done| |by rewrite Hlm|apply starts_split; by eexists]. rewrite Es, !zlen_app. lia.
  - rewrite Hlm. apply (holds_len s l Hs).
Qed.

(** The first replacement that applies. *)
Fixpoint subst_char (from to : list Z) (c : Z) : Z :=
  match from, to with f :: from, t :: to => if c =? f then t else subst_char from to c | _, _ => c end.

Lemma map_char_ok c : forall from to af at_, length from = length to -> length af = length at_ ->
  map_char (length from) (af ++ from) (at_ ++ to) (zlen af) c = Ok (subst_char from to c).
Proof.
  induction from as [|f from IH]; intros [|t to] af at_ Hl Ha; cbn [map_char length subst_char]; try done.
  rewrite rd1_mid by done. runr. destruct (c =? f).
  - apply rd1_mid. unfold zlen. lia.
  - replace (zlen af + 1) with (zlen (af ++ [f])) by (rewrite zlen_app; done).
    replace (af ++ f :: from) with ((af ++ [f]) ++ from) by by rewrite <- app_assoc.
    replace (at_ ++ t :: to) with ((at_ ++ [t]) ++ to) by by rewrite <- app_assoc. apply IH; [by injection Hl|rewrite !length_app; simpl; lia].
Qed.

Lemma mapchars_ok s l from to : holds s l -> length from = length to ->
  exists s', sdsmapchars s from to (zlen from) = Ok s' /\ holds s' (map (subst_char from to) l).
Proof.
  intros Hs Hl. apply each_holds; [done|]. intros c. unfold zlen. rewrite Nat2Z.id.
  pose proof (map_char_ok c from to [] [] Hl eq_refl) as E. cbn [app] in E. exact E.
Qed.

(** ** Moving the end *)

Lemma incrLen_raw s incr : 0 <= s_type s <= 4 -> (s_type s = SDS_TYPE_5 -> incr < 0) ->
  0 <= s_len s <= sdsTypeMaxSize (s_type s) -> 0 <= s_len s + incr ->
  (s_type s <> SDS_TYPE_5 -> s_len s <= s_alloc s <= sdsTypeMaxSize (s_type s) /\ s_len s + incr <= s_alloc s /\ s_alloc s < 2 ^ 63) ->
  sdsIncrLen s incr = put_byte {| s_type := s_type s; s_len := s_len s + incr; s_alloc := s_alloc s; s_buf := s_buf s |} (s_len s + incr) 0.
Proof.
  intros Ht H5 Hl Hi Ha. unfold sdsIncrLen, sdsinclen. rewrite setlen_small; [|done|].
  2: { destruct (decide (s_type s = SDS_TYPE_5)) as [e|ne]; [specialize (H5 e); lia|]. specialize (Ha ne). lia. }
  cbn [s_len]. set (ok := if s_type s =? SDS_TYPE_5 then _ else _). assert (ok = true) as ->; [|by cbn [guardr]; runr].
  unfold ok. rewrite !Z.gtb_ltb, !Z.geb_leb. destruct s as [t len al buf]. cbn [s_type s_len s_alloc] in *.
  unfold SDS_TYPE_5, SDS_TYPE_32, SDS_TYPE_64 in *. by_type t; autorewrite with sds_types in *; cbn [Z.eqb Pos.eqb];
    try (specialize (H5 eq_refl)); try (destruct Ha as (Ha1 & Ha2 & Ha3); [done|]);
    (destruct (Z.lt_ge_cases incr 0);
     [apply orb_true_iff; right; apply andb_true_iff; split; [apply Z.ltb_lt; lia|rewrite wrapU_small by lia; apply Z.leb_le; lia]
     |first [lia|apply orb_true_iff; left; apply andb_true_iff; split; [apply Z.leb_le; lia|rewrite ?wrapU_small by lia; apply Z.leb_le; lia]]]).
Qed.
End sds_edits.
