(* ===== verification/SdsSpec.v ===== *)
(** SdsSpec: the strings of Sds.v against their contract, a sequence of bytes.

    [run_sops] runs a sequence of edits on a string with its header and block,
    [spec_sops] runs it on the list of bytes. *)

From Stdlib Require Import ZArith Lia Bool.
From stdpp Require Import base list numbers decidable.
From S2P Require Import Prelude Bytes Sds SdsProofs SdsOps.

Local Open Scope Z_scope.

Inductive sop :=
  | SCat (t : list Z)
  | SCpy (t : list Z)
  | SGrow (n : Z)
  | SRange (start end_ : Z)
  | SSubstr (start n : Z)
  | STrim (cset : list Z)
  | SClear
  | SUpdateLen
  | SLower
  | SUpper
  | SMap (from to : list Z)
  | SMakeRoom (n : Z) (greedy : bool)
  | SResize (n : Z) (regrow : bool)
  | SRemoveFree (regrow : bool)
  | SDup
  | SFill (bs : list Z)
  | SCut (n : Z).

Definition spec_sop (l : list Z) (o : sop) : list Z :=
  match o with
  | SCat t => l ++ t
  | SCpy t => t
  | SGrow n => l ++ replicate (Z.to_nat n - length l) 0
  | SRange start end_ => range_bytes l start end_
  | SSubstr start n => take (Z.to_nat n) (drop (Z.to_nat start) l)
  | STrim cset => trim_bytes cset l
  | SClear => []
  | SUpdateLen => c_string l
  | SLower => map tolower l
  | SUpper => map toupper l
  | SMap from to => map (subst_char from to) l
  | SMakeRoom _ _ | SRemoveFree _ | SDup => l
  | SResize n _ => take (Z.to_nat n) l
  | SFill bs => l ++ bs
  | SCut n => take (length l - Z.to_nat n) l
  end.

Fixpoint spec_sops (l : list Z) (os : list sop) : list Z :=
  match os with [] => l | o :: os => spec_sops (spec_sop l o) os end.

(** Sizes are what an address space holds, the indexes of sdsrange do not
    overflow, the sets of sdsmapchars have one length, and sdsIncrLen moves the
    end of the string by something, and not before its start. *)
Definition sop_legal (l : list Z) (o : sop) : Prop :=
  match o with
  | SCat t => zlen l + zlen t < 2 ^ 62
  | SCpy t => zlen t < 2 ^ 62
  | SGrow n => 0 <= n < 2 ^ 62
  | SRange start end_ => - 2 ^ 61 <= start < 2 ^ 61 /\ - 2 ^ 61 <= end_ < 2 ^ 61
  | SSubstr start n => 0 <= start /\ 0 <= n
  | SMap from to => length from = length to
  | SMakeRoom n _ => 0 <= n /\ zlen l + n < 2 ^ 62
  | SResize n _ => 0 <= n < 2 ^ 62
  | SFill bs => bs <> [] /\ zlen l + zlen bs < 2 ^ 62
  | SCut n => 0 < n <= zlen l
  | _ => True
  end.

Fixpoint sops_legal (l : list Z) (os : list sop) : Prop :=
  match os with [] => True | o :: os => sop_legal l o /\ sops_legal (spec_sop l o) os end.

Section sds_spec.
Context `{alloc : SdsAllocator}.

Definition conc_sop (s : sds) (o : sop) : result sds :=
  match o with
  | SCat t => sdscatlen s t (zlen t)
  | SCpy t => sdscpylen s t (zlen t)
  | SGrow n => sdsgrowzero s n
  | SRange start end_ => sdsrange s start end_
  | SSubstr start n => sdssubstr s start n
  | STrim cset => sdstrim s cset
  | SClear => sdsclear s
  | SUpdateLen => sdsupdatelen s
  | SLower => sdstolower s
  | SUpper => sdstoupper s
  | SMap from to => sdsmapchars s from to (zlen from)
  | SMakeRoom n greedy => _sdsMakeRoomFor s n greedy
  | SResize n regrow => sdsResize s n regrow
  | SRemoveFree regrow => sdsRemoveFreeSpace s regrow
  | SDup => sdsdup s
  | SFill bs =>
      let* s := sdsMakeRoomFor s (zlen bs) in
      let* s := put_bytes s (sdslen s) bs (zlen bs) in
      sdsIncrLen s (zlen bs)
  | SCut n => sdsIncrLen s (- n)
  end.

Fixpoint run_sops (s : sds) (os : list sop) : result sds :=
  match os with [] => Ok s | o :: os => let* s := conc_sop s o in run_sops s os end.

Context {laws : SdsAllocatorLaws}.

Lemma take_all (t : list Z) : take (Z.to_nat (zlen t)) t = t.
Proof. apply take_ge. unfold zlen. lia. Qed.

Lemma cut_ok s l n : holds s l -> 0 < n <= zlen l -> exists s', sdsIncrLen s (- n) = Ok s' /\ holds s' (take (length l - Z.to_nat n) l).
Proof.
  intros Hs Hn. pose proof (holds_elim s l Hs) as (E & Ht & Hm & Hst & Hb & Ha). pose proof (starts_length _ _ Hst).
  set (l' := take (length l - Z.to_nat n) l). assert (zlen l' = zlen l - n) as Hl' by (unfold l', zlen in *; rewrite length_take; lia).
  rewrite incrLen_raw; rewrite ?(holds_len s l Hs); [|done|lia|pose proof (zlen_nonneg l); lia|lia|intros H5; destruct (Ha H5); lia].
  replace (zlen l + - n) with (zlen l') by lia. destruct (cut_end s l l' (s_buf s) Hs eq_refl) as (s' & Hs' & _ & E'); [lia| |].
  - rewrite (take_prefix _ l) by (done || (unfold l'; rewrite length_take; lia)). apply take_length_take.
  - exists s'. split; [|done]. rewrite setlen_small in E' by (cbn [set_buf s_type]; pose proof (zlen_nonneg l'); lia || done). exact E'.
Qed.

Lemma fill_ok s l bs : holds s l -> bs <> [] -> zlen l + zlen bs < 2 ^ 62 ->
  exists s', conc_sop s (SFill bs) = Ok s' /\ holds s' (l ++ bs).
Proof.
  intros Hs Hne Hsz. pose proof (zlen_nonneg l). assert (0 < zlen bs) as Hpos.
  { destruct bs as [|b bs']; [done|]. rewrite zlen_cons. pose proof (zlen_nonneg bs'). lia. }
  cbn [conc_sop]. unfold sdsMakeRoomFor. destruct (makeRoom_ok s l (zlen bs) true Hs ltac:(lia) Hsz) as (s1 & -> & Hs1 & Hav & H5). runr.
  specialize (H5 Hpos). destruct (capacity s1 l (zlen bs) Hs1 ltac:(lia)) as [Hc1 Hc2].
  pose proof (holds_elim s1 l Hs1) as (E1 & Ht & Hm & Hst & Hb & Ha). destruct (Ha H5) as [Hz Hmax].
  unfold sdslen, put_bytes. rewrite (holds_len s1 l Hs1), rdn_prefix, take_all by lia. runr.
  destruct (wrn_at (s_buf s1) bs (zlen l)) as (buf & -> & Hzb & Htk & _); [lia|lia|]. runr.
  rewrite incrLen_raw; cbn [set_buf s_type s_len s_alloc s_buf]; rewrite ?(holds_len s1 l Hs1); [|done|done|lia|lia|lia].
  replace (zlen l + zlen bs) with (zlen (l ++ bs)) by apply zlen_app.
  destruct (edit_end s1 l (l ++ bs) buf Hs1 Hzb) as (s' & Hs' & _ & E); rewrite ?zlen_app; [lia|lia| |].
  - rewrite length_app. replace (length l) with (Z.to_nat (zlen l)) by (unfold zlen; lia). rewrite Htk.
    unfold zlen. rewrite Nat2Z.id. by rewrite (starts_prefix _ _ Hst).
  - exists s'. split; [|done]. rewrite setlen_small in E by (cbn [set_buf s_type]; rewrite ?zlen_app; lia || done). rewrite <- zlen_app. exact E.
Qed.

Lemma sop_ok s l o : holds s l -> zlen l < 2 ^ 62 -> sop_legal l o -> exists s', conc_sop s o = Ok s' /\ holds s' (spec_sop l o).
Proof.
  intros Hs Hl Ho. pose proof (zlen_nonneg l).
  destruct o as [t|t|n|a b|a n|cset| | | | |from to|n greedy|n regrow|regrow| |bs|n]; cbn [conc_sop spec_sop sop_legal] in *.
  - destruct (cat_ok s l t (zlen t) Hs) as (s' & E & Hs'); [pose proof (zlen_nonneg t); lia|done|]. rewrite take_all in Hs'. by exists s'.
  - destruct (cpy_ok s l t (zlen t) Hs) as (s' & E & Hs'); [pose proof (zlen_nonneg t); lia|done|done|]. rewrite take_all in Hs'. by exists s'.
  - by apply (growzero_ok s l).
  - destruct Ho. by apply (range_ok s l).
  - destruct Ho. by apply (substr_ok s l).
  - by apply (trim_ok s l).
  - by apply (clear_ok s l).
  - by apply (updatelen_ok s l).
  - by apply (each_holds s l).
  - by apply (each_holds s l).
  - by apply (mapchars_ok s l).
  - destruct (makeRoom_ok s l n greedy Hs) as (s' & E & Hs' & _); [lia|lia|]. by exists s'.
  - destruct (sds_resize_ok s l n regrow Hs Ho) as (s' & E & Hs' & _). by exists s'.
  - unfold sdsRemoveFreeSpace, sdslen. rewrite (holds_len s l Hs).
    destruct (sds_resize_ok s l (zlen l) regrow Hs) as (s' & E & Hs' & _); [lia|]. rewrite take_all in Hs'. by exists s'.
  - by apply (sds_dup_ok s l).
  - destruct Ho. by apply (fill_ok s l).
  - by apply (cut_ok s l).
Qed.

Lemma drop_while_length f l : (length (drop_while f l) <= length l)%nat.
Proof. induction l as [|c l IH]; cbn [drop_while length]; [done|]. destruct (f c); cbn [length]; lia. Qed.

Lemma spec_sop_length l o : zlen l < 2 ^ 62 -> sop_legal l o -> zlen (spec_sop l o) < 2 ^ 62.
Proof.
  intros Hl Ho. unfold zlen in *. destruct o as [t|t|n|a b|a n|cset| | | | |from to|n greedy|n regrow|regrow| |bs|n]; cbn [spec_sop sop_legal] in *; unfold zlen in *;
    rewrite ?length_app, ?length_map, ?length_take, ?length_replicate, ?length_drop; try (simpl; lia).
  - unfold range_bytes. destruct (_ || _); [simpl; lia|]. rewrite length_take, length_drop. lia.
  - unfold trim_bytes. rewrite length_rev. pose proof (drop_while_length (in_cset cset) l). pose proof (drop_while_length (in_cset cset) (rev (drop_while (in_cset cset) l))) as H2.
    rewrite length_rev in H2. lia.
  - assert (length (c_string l) <= length l)%nat; [|lia]. clear. induction l as [|c l IH]; cbn [c_string length]; [done|]. destruct (c =? 0); simpl; lia.
Qed.

Lemma sops_ok os : forall s l, holds s l -> zlen l < 2 ^ 62 -> sops_legal l os -> exists s', run_sops s os = Ok s' /\ holds s' (spec_sops l os).
Proof.
  induction os as [|o os IH]; intros s l Hs Hl Ho; cbn [run_sops spec_sops]; [by exists s|]. destruct Ho as [Ho Hos].
  destruct (sop_ok s l o Hs Hl Ho) as (s1 & -> & Hs1). runr. apply IH; [done| |done]. by apply spec_sop_length.
Qed.
End sds_spec.

(** An allocator that returns blocks of 16 bytes. *)
#[local] Instance chunk_allocator : SdsAllocator :=
  {| s_usable n := (n + 15) / 16 * 16; s_uninit i := 170; use_jemalloc := false |}.

#[local] Instance chunk_allocator_laws : SdsAllocatorLaws.
Proof.
  constructor. intros n Hn. cbn [s_usable chunk_allocator]. pose proof (Z.div_mod (n + 15) 16). pose proof (Z.mod_pos_bound (n + 15) 16). lia.
Qed.

(** C8: a dynamic string is a sequence of bytes: any legal sequence of
    concatenations, copies, growing, ranges, trimming, case changes,
    substitutions, changes of the block, writes behind the end and moves of the
    end runs without fault under any allocator, whatever the memory it returns
    holds, and spells the same edits of the list; afterwards the length is within
    the block and its header field, and a zero follows the string. *)
Theorem sds_refines_bytes `{alloc : SdsAllocator} (laws : SdsAllocatorLaws) (bs : list Z) (os : list sop) :
  zlen bs < 2 ^ 62 -> sops_legal bs os ->
  exists s0 s, sdsnewlen (InitFrom bs) (zlen bs) = Ok s0 /\ run_sops s0 os = Ok s /\
    contents s = spec_sops bs os /\ sdslen s = zlen (spec_sops bs os) /\ sds_ok s.
Proof.
  intros Hb Ho. pose proof (zlen_nonneg bs). destruct (newlen_ok (InitFrom bs) (zlen bs)) as (s0 & l & E & Hs & Hi); [lia|by intros b [= <-]|].
  destruct Hi as (_ & _ & ->). rewrite take_all in Hs. destruct (sops_ok os s0 bs Hs Hb Ho) as (s & Er & Hs').
  exists s0, s. split; [done|]. split; [done|]. split; [apply Hs'|]. split; [by apply holds_len|apply Hs'].
Qed.

(** A string that outgrows its first header and loses its ends. *)
Definition sds_example : list sop :=
  [SGrow 40; SCat [72; 105]; SRange (-3) (-1); STrim [105]; SUpper; SFill [97; 98]; SCut 1; SRemoveFree false; SLower].

Lemma sds_refines_bytes_witness :
  exists s0 s, sdsnewlen (InitFrom [1; 2]) 2 = Ok s0 /\ s_type s0 = SDS_TYPE_5 /\ run_sops s0 sds_example = Ok s /\ contents s = [104; 97].
Proof.
  destruct (sds_refines_bytes chunk_allocator_laws [1; 2] sds_example) as (s0 & s & E0 & E & Ec & _).
  - done.
  - cbn [sds_example sops_legal sop_legal]. split_and!; try done; vm_compute; split; congruence.
  - exists s0, s. split; [exact E0|].
    assert (match sdsnewlen (InitFrom [1; 2]) 2 with Ok s => s_type s | Err _ => 9 end = SDS_TYPE_5) as Et by (vm_compute; reflexivity).
    change (zlen [1; 2]) with 2 in E0. rewrite E0 in Et. split; [exact Et|]. split; [exact E|]. rewrite Ec. vm_compute. reflexivity.
Defined.

(** C38: sdsIncrLen with an increment of zero, which every other type of header
    accepts, fails its assertion on a string of type 5, the type of every new
    string of 1 to 31 bytes. *)
Theorem sdsIncrLen_zero_type5 `{alloc : SdsAllocator} (laws : SdsAllocatorLaws) (bs : list Z) :
  1 <= zlen bs <= 31 ->
  exists s, sdsnewlen (InitFrom bs) (zlen bs) = Ok s /\ contents s = bs /\ s_type s = SDS_TYPE_5 /\ sdsIncrLen s 0 = Err AssertFailed.
Proof.
  intros Hb. destruct (newlen_ok (InitFrom bs) (zlen bs)) as (s & l & E & Hs & Hi); [lia|by intros b [= <-]|].
  destruct Hi as (_ & _ & ->). rewrite take_all in Hs. exists s. split; [done|]. split; [apply Hs|].
  assert (s_type s = SDS_TYPE_5) as H5.
  { revert E. unfold sdsnewlen, _sdsnewlen. assert (sdsReqType (zlen bs) = SDS_TYPE_5) as ->.
    { unfold sdsReqType. change (Z.shiftl 1 5) with 32. by rewrite (proj2 (Z.ltb_lt _ _)) by lia. }
    rewrite (proj2 (Z.eqb_neq (zlen bs) 0)) by lia. rewrite andb_false_r. unfold adjustTypeIfNeeded. cbn [SDS_TYPE_5 Z.eqb negb andb].
    intros (_ & _ & E)%bindr_ok. unfold sdsnewplacement in E. apply bindr_ok in E as (_ & _ & E). apply bindr_ok in E as (s1 & E1 & E).
    unfold put_byte in E. apply bindr_ok in E as (b & _ & E). injection E as <-. cbn [set_buf s_type].
    rewrite (proj2 (Z.eqb_neq (zlen bs) 0)) in E1 by lia. unfold put_bytes in E1. apply bindr_ok in E1 as (b1 & _ & E1). apply bindr_ok in E1 as (b2 & _ & E1).
    by injection E1 as <-. }
  split; [done|]. unfold sdsIncrLen. rewrite H5. cbn [Z.eqb SDS_TYPE_5 Z.gtb Z.ltb Z.compare andb orb]. reflexivity.
Qed.

Lemma sdsIncrLen_zero_type5_witness :
  exists s, sdsnewlen (InitFrom [1; 2]) 2 = Ok s /\ contents s = [1; 2] /\ s_type s = SDS_TYPE_5 /\ sdsIncrLen s 0 = Err AssertFailed.
Proof. apply (sdsIncrLen_zero_type5 chunk_allocator_laws [1; 2]). done. Defined.
