(* ===== verification/Hll.v ===== *)
(** Hll: the HyperLogLog of src/redis-stable/src/hyperloglog.c.

    This file holds the definitions; HllBits.v and HllHisto.v have the registers of
    the dense encoding and their histogram, HllSparse.v the opcodes of the sparse
    one, HllSet.v their edits, HllRep.v and HllUpdate.v the registers a string of
    either encoding stands for and the update of one, HllMerge.v the operations on
    all of them, HllSpec.v the commands and the arrays they implement, HllSafe.v
    strings that were not written by the commands.

    Correspondence.  A HyperLogLog is a string, an [sds] of Sds.v with its header
    and block: offsets 0 to 15 of the block are struct hllhdr, the registers start
    at 16.  A pointer into the string is an offset.  The three functions that
    decode a sparse string (hllSparseToDense, hllSparseRegHisto, hllMerge) run the
    same loop on different accumulators: [opcode_loop] is that loop, with what it
    does on a run of zeroes and on a run of a value as arguments.  The estimate of
    the cardinality from the histogram of the registers, the second half of
    hllCount, is in floating point with functions of the mathematics library: it is
    the argument [estimate].  Of the commands, the values of the keys
    are arguments; the setting hll-sparse-max-bytes and whether the value of a key
    must be copied before it is written are too. *)

From Stdlib Require Import ZArith Lia Bool.
From stdpp Require Import base list numbers decidable.
From S2P Require Import Prelude Bytes Sds.

Local Open Scope Z_scope.

(** * Constants *)

Definition HLL_P : Z := 14.
Definition HLL_Q : Z := 64 - HLL_P.
Definition HLL_REGISTERS : Z := Z.shiftl 1 HLL_P.
Definition HLL_P_MASK : Z := HLL_REGISTERS - 1.
Definition HLL_BITS : Z := 6.
Definition HLL_REGISTER_MAX : Z := Z.shiftl 1 HLL_BITS - 1.
Definition HLL_HDR_SIZE : Z := 16.
Definition HLL_DENSE_SIZE : Z := HLL_HDR_SIZE + (HLL_REGISTERS * HLL_BITS + 7) / 8.
Definition HLL_DENSE : Z := 0.
Definition HLL_SPARSE : Z := 1.
Definition HLL_MAX_ENCODING : Z := 1.

Definition HLL_SPARSE_XZERO_BIT : Z := 64.
Definition HLL_SPARSE_VAL_BIT : Z := 128.
Definition HLL_SPARSE_VAL_MAX_VALUE : Z := 32.
Definition HLL_SPARSE_VAL_MAX_LEN : Z := 4.
Definition HLL_SPARSE_ZERO_MAX_LEN : Z := 64.
Definition HLL_SPARSE_XZERO_MAX_LEN : Z := 16384.

(** The fields encoding and card[7] of struct hllhdr. *)
Definition hdr_encoding : Z := 4.
Definition hdr_card : Z := 8.

Definition HLL_INVALIDATE_CACHE (s : sds) : result sds :=
  let* b := rd1 (s_buf s) (hdr_card + 7) in put_byte s (hdr_card + 7) (Z.lor b (Z.shiftl 1 7)).

Definition HLL_VALID_CACHE (s : sds) : result bool :=
  let* b := rd1 (s_buf s) (hdr_card + 7) in Ok (Z.land b (Z.shiftl 1 7) =? 0).

(** * Registers of six bits *)

(** [p] is the offset of the registers in the block. *)
Definition HLL_DENSE_GET_REGISTER (buf : list Z) (p regnum : Z) : result Z :=
  let byte := regnum * HLL_BITS / 8 in
  let fb := Z.land (regnum * HLL_BITS) 7 in
  let fb8 := 8 - fb in
  let* b0 := rd1 buf (p + byte) in
  let* b1 := rd1 buf (p + byte + 1) in
  Ok (Z.land (Z.lor (Z.shiftr b0 fb) (Z.shiftl b1 fb8)) HLL_REGISTER_MAX).

Definition HLL_DENSE_SET_REGISTER (buf : list Z) (p regnum val : Z) : result (list Z) :=
  let byte := regnum * HLL_BITS / 8 in
  let fb := Z.land (regnum * HLL_BITS) 7 in
  let fb8 := 8 - fb in
  let* b := rd1 buf (p + byte) in
  let b := u8 (Z.land b (Z.lnot (Z.shiftl HLL_REGISTER_MAX fb))) in
  let* buf := wr1 buf (p + byte) (u8 (Z.lor b (Z.shiftl val fb))) in
  let* b := rd1 buf (p + byte + 1) in
  let b := u8 (Z.land b (Z.lnot (Z.shiftr HLL_REGISTER_MAX fb8))) in
  wr1 buf (p + byte + 1) (u8 (Z.lor b (Z.shiftr val fb8))).

(** [b[0] | b[1] << 8 | ...]. *)
Definition word_of_bytes (bs : list Z) : Z :=
  match bs with
  | [b0; b1; b2; b3; b4; b5; b6; b7] =>
      Z.lor (Z.lor (Z.lor (Z.lor (Z.lor (Z.lor (Z.lor b0 (Z.shiftl b1 8)) (Z.shiftl b2 16)) (Z.shiftl b3 24))
        (Z.shiftl b4 32)) (Z.shiftl b5 40)) (Z.shiftl b6 48)) (Z.shiftl b7 56)
  | _ => 0
  end.

(** * Hashing *)

Section hash.
Context {host : HostEndian}.

(** The eight bytes at [data], read as a word or byte by byte. *)
Definition murmur_word (data : list Z) (off : Z) : result Z :=
  let* bs := rdn data off 8 in
  Ok (if host_is_be then word_of_bytes bs else load bs).

Definition murmur_m : Z := 0xc6a4a7935bd1e995.
Definition murmur_r : Z := 47.

Fixpoint murmur_loop (n : nat) (data : list Z) (off h : Z) : result Z :=
  match n with
  | O => Ok h
  | S n =>
      let* k := murmur_word data off in
      let k := u64 (k * murmur_m) in
      let k := Z.lxor k (Z.shiftr k murmur_r) in
      let k := u64 (k * murmur_m) in
      murmur_loop n data (off + 8) (u64 (Z.lxor h k * murmur_m))
  end.

(** The cases [i] down to 1 of the switch that fall through. *)
Fixpoint murmur_tail (i : nat) (data : list Z) (off h : Z) : result Z :=
  match i with
  | O => Ok h
  | S i =>
      let* b := rd1 data (off + Z.of_nat i) in
      murmur_tail i data off (Z.lxor h (Z.shiftl b (8 * Z.of_nat i)))
  end.

Definition MurmurHash64A (key : list Z) (len seed : Z) : result Z :=
  let h := Z.lxor seed (u64 (len * murmur_m)) in
  let* h := murmur_loop (Z.to_nat (len / 8)) key 0 h in
  let rest := Z.land len 7 in
  let* h := murmur_tail (Z.to_nat rest) key (len - rest) h in
  let h := if rest =? 0 then h else u64 (h * murmur_m) in
  let h := Z.lxor h (Z.shiftr h murmur_r) in
  let h := u64 (h * murmur_m) in
  Ok (Z.lxor h (Z.shiftr h murmur_r)).

(** __builtin_ctzll. *)
Fixpoint ctz (fuel : nat) (x n : Z) : Z :=
  match fuel with
  | O => n
  | S fuel => if Z.testbit x n then n else ctz fuel x (n + 1)
  end.

(** The length of the pattern, and the register. *)
Definition hllPatLen (ele : list Z) (elesize : Z) : result (Z * Z) :=
  let* hash := MurmurHash64A ele elesize 0xadc83b19 in
  let index := Z.land hash HLL_P_MASK in
  let hash := Z.shiftr hash HLL_P in
  let hash := Z.lor hash (Z.shiftl 1 HLL_Q) in
  Ok (ctz 64 hash 0 + 1, index).
End hash.

(** * The dense encoding *)

Definition hllDenseSet (buf : list Z) (p index count : Z) : result (list Z * Z) :=
  let* oldcount := HLL_DENSE_GET_REGISTER buf p index in
  if count >? oldcount then
    let* buf := HLL_DENSE_SET_REGISTER buf p index count in Ok (buf, 1)
  else Ok (buf, 0).

(** [reghisto[reg]++]. *)
Definition histo_incr (reghisto : list Z) (reg n : Z) : result (list Z) :=
  let* c := rd1 reghisto reg in
  let* c := chk_i32 (c + n) in
  wr1 reghisto reg c.

Fixpoint histo_all (reghisto : list Z) (regs : list Z) : result (list Z) :=
  match regs with
  | [] => Ok reghisto
  | r :: regs => let* h := histo_incr reghisto r 1 in histo_all h regs
  end.

(** The sixteen registers of twelve bytes. *)
Definition sixteen_registers (r : list Z) : list Z :=
  match r with
  | [a0; a1; a2; a3; a4; a5; a6; a7; a8; a9; a10; a11] =>
      [Z.land a0 63; Z.land (Z.lor (Z.shiftr a0 6) (Z.shiftl a1 2)) 63;
       Z.land (Z.lor (Z.shiftr a1 4) (Z.shiftl a2 4)) 63; Z.land (Z.shiftr a2 2) 63;
       Z.land a3 63; Z.land (Z.lor (Z.shiftr a3 6) (Z.shiftl a4 2)) 63;
       Z.land (Z.lor (Z.shiftr a4 4) (Z.shiftl a5 4)) 63; Z.land (Z.shiftr a5 2) 63;
       Z.land a6 63; Z.land (Z.lor (Z.shiftr a6 6) (Z.shiftl a7 2)) 63;
       Z.land (Z.lor (Z.shiftr a7 4) (Z.shiftl a8 4)) 63; Z.land (Z.shiftr a8 2) 63;
       Z.land a9 63; Z.land (Z.lor (Z.shiftr a9 6) (Z.shiftl a10 2)) 63;
       Z.land (Z.lor (Z.shiftr a10 4) (Z.shiftl a11 4)) 63; Z.land (Z.shiftr a11 2) 63]
  | _ => []
  end.

Fixpoint dense_histo_loop (n : nat) (buf : list Z) (r : Z) (reghisto : list Z) : result (list Z) :=
  match n with
  | O => Ok reghisto
  | S n =>
      let* bs := rdn buf r 12 in
      let* reghisto := histo_all reghisto (sixteen_registers bs) in
      dense_histo_loop n buf (r + 12) reghisto
  end.

Definition hllDenseRegHisto (buf : list Z) (p : Z) (reghisto : list Z) : result (list Z) :=
  dense_histo_loop 1024 buf p reghisto.

(** * The sparse encoding *)

Definition HLL_SPARSE_IS_ZERO (b : Z) : bool := Z.land b 0xc0 =? 0.
Definition HLL_SPARSE_IS_XZERO (b : Z) : bool := Z.land b 0xc0 =? HLL_SPARSE_XZERO_BIT.
Definition HLL_SPARSE_IS_VAL (b : Z) : bool := negb (Z.land b HLL_SPARSE_VAL_BIT =? 0).
Definition HLL_SPARSE_ZERO_LEN (b : Z) : Z := Z.land b 0x3f + 1.
Definition HLL_SPARSE_XZERO_LEN (b b1 : Z) : Z := Z.lor (Z.shiftl (Z.land b 0x3f) 8) b1 + 1.
Definition HLL_SPARSE_VAL_VALUE (b : Z) : Z := Z.land (Z.shiftr b 2) 0x1f + 1.
Definition HLL_SPARSE_VAL_LEN (b : Z) : Z := Z.land b 0x3 + 1.

(** The bytes the SET macros write. *)
Definition HLL_SPARSE_VAL_SET (val len : Z) : list Z :=
  [u8 (Z.lor (Z.lor (Z.shiftl (val - 1) 2) (len - 1)) HLL_SPARSE_VAL_BIT)].
Definition HLL_SPARSE_ZERO_SET (len : Z) : list Z := [u8 (len - 1)].
Definition HLL_SPARSE_XZERO_SET (len : Z) : list Z :=
  [u8 (Z.lor (Z.shiftr (len - 1) 8) HLL_SPARSE_XZERO_BIT); u8 (Z.land (len - 1) 0xff)].

(** The loop that decodes a sparse string from [p] to [end_]: the accumulator,
    the registers covered, and whether no run went beyond the last register. *)
Fixpoint opcode_loop {A} (fuel : nat) (on_zero : A -> Z -> Z -> result A) (on_val : A -> Z -> Z -> Z -> result A)
    (buf : list Z) (p end_ idx : Z) (acc : A) : result (A * Z * bool) :=
  if p <? end_ then
    match fuel with
    | O => Err OutOfFuel
    | S fuel =>
        let* b := rd1 buf p in
        if HLL_SPARSE_IS_ZERO b then
          let runlen := HLL_SPARSE_ZERO_LEN b in
          if runlen + idx >? HLL_REGISTERS then Ok (acc, idx, false)
          else
            let* acc := on_zero acc idx runlen in
            opcode_loop fuel on_zero on_val buf (p + 1) end_ (idx + runlen) acc
        else if HLL_SPARSE_IS_XZERO b then
          let* b1 := rd1 buf (p + 1) in
          let runlen := HLL_SPARSE_XZERO_LEN b b1 in
          if runlen + idx >? HLL_REGISTERS then Ok (acc, idx, false)
          else
            let* acc := on_zero acc idx runlen in
            opcode_loop fuel on_zero on_val buf (p + 2) end_ (idx + runlen) acc
        else
          let runlen := HLL_SPARSE_VAL_LEN b in
          let regval := HLL_SPARSE_VAL_VALUE b in
          if runlen + idx >? HLL_REGISTERS then Ok (acc, idx, false)
          else
            let* acc := on_val acc idx runlen regval in
            opcode_loop fuel on_zero on_val buf (p + 1) end_ (idx + runlen) acc
    end
  else Ok (acc, idx, true).

(** [while (runlen--)]: [n] registers from [idx] on. *)
Fixpoint run_loop {A} (n : nat) (f : A -> Z -> result A) (idx : Z) (acc : A) : result A :=
  match n with
  | O => Ok acc
  | S n => let* acc := f acc idx in run_loop n f (idx + 1) acc
  end.

Section sparse.
Context `{SdsAllocator}.

(** The object after the call, and whether it returned C_OK. *)
Definition hllSparseToDense (o : sds) : result (sds * bool) :=
  let* enc := rd1 (s_buf o) hdr_encoding in
  if enc =? HLL_DENSE then Ok (o, true)
  else
    let* dense := sdsnewlen Zeros HLL_DENSE_SIZE in
    let* hdr := rdn (s_buf o) 0 HLL_HDR_SIZE in
    let* dense := put_bytes dense 0 hdr HLL_HDR_SIZE in
    let* dense := put_byte dense hdr_encoding HLL_DENSE in
    let* (buf, idx, valid) :=
      opcode_loop (Z.to_nat (sdslen o)) (fun buf _ _ => Ok buf)
        (fun buf idx runlen regval =>
           run_loop (Z.to_nat runlen) (fun buf i => HLL_DENSE_SET_REGISTER buf HLL_HDR_SIZE i regval) idx buf)
        (s_buf o) HLL_HDR_SIZE (sdslen o) 0 (s_buf dense) in
    if negb valid || negb (idx =? HLL_REGISTERS) then Ok (o, false)
    else Ok (set_buf dense buf, true).

(** Step 1 of hllSparseSet: the opcode that covers [index], the one before it,
    its first register and its length. *)
Fixpoint locate (fuel : nat) (buf : list Z) (p end_ : Z) (prev : option Z) (first span index : Z)
  : result (Z * option Z * Z * Z) :=
  if p <? end_ then
    match fuel with
    | O => Err OutOfFuel
    | S fuel =>
        let* b := rd1 buf p in
        let* (span, oplen) :=
          if HLL_SPARSE_IS_ZERO b then Ok (HLL_SPARSE_ZERO_LEN b, 1)
          else if HLL_SPARSE_IS_VAL b then Ok (HLL_SPARSE_VAL_LEN b, 1)
          else let* b1 := rd1 buf (p + 1) in Ok (HLL_SPARSE_XZERO_LEN b b1, 2) in
        if index <=? first + span - 1 then Ok (p, prev, first, span)
        else locate fuel buf (p + oplen) end_ (Some p) (first + span) span index
    end
  else Ok (p, prev, first, span).

(** A run of zeroes in the shorter of the two forms. *)
Definition zero_run (len : Z) : list Z :=
  if len >? HLL_SPARSE_ZERO_MAX_LEN then HLL_SPARSE_XZERO_SET len else HLL_SPARSE_ZERO_SET len.

(** The sequence that replaces the opcode of [first] to [last]. *)
Definition split_opcode (is_val : bool) (curval first last index count : Z) : list Z :=
  let run len := if is_val then HLL_SPARSE_VAL_SET curval len else zero_run len in
  (if index =? first then [] else run (index - first)) ++ HLL_SPARSE_VAL_SET count 1 ++
  (if index =? last then [] else run (last - index)).

(** Step 4: [while (p < end && scanlen--)]. *)
Fixpoint merge_loop (scanlen : nat) (o : sds) (p end_ : Z) : result sds :=
  if p <? end_ then
    match scanlen with
    | O => Ok o
    | S scanlen =>
        let* b := rd1 (s_buf o) p in
        if HLL_SPARSE_IS_XZERO b then merge_loop scanlen o (p + 2) end_
        else if HLL_SPARSE_IS_ZERO b then merge_loop scanlen o (p + 1) end_
        else
          let* merged :=
            if p + 1 <? end_ then
              let* b1 := rd1 (s_buf o) (p + 1) in
              let len := HLL_SPARSE_VAL_LEN b + HLL_SPARSE_VAL_LEN b1 in
              Ok (if HLL_SPARSE_IS_VAL b1 && (HLL_SPARSE_VAL_VALUE b =? HLL_SPARSE_VAL_VALUE b1) && (len <=? HLL_SPARSE_VAL_MAX_LEN)
                  then Some len else None)
            else Ok None in
          match merged with
          | Some len =>
              let* o := put_bytes o (p + 1) (HLL_SPARSE_VAL_SET (HLL_SPARSE_VAL_VALUE b) len) 1 in
              let* o := move_bytes o p (p + 1) (end_ - p) in
              let* o := sdsIncrLen o (-1) in
              merge_loop scanlen o p (end_ - 1)
          | None => merge_loop scanlen o (p + 1) end_
          end
    end
  else Ok o.

(** The label [updated]. *)
Definition sparse_updated (o : sds) (prev : option Z) (end_ : Z) : result (sds * Z) :=
  let p := match prev with Some p => p | None => HLL_HDR_SIZE end in
  let* o := merge_loop 5 o p end_ in
  let* o := HLL_INVALIDATE_CACHE o in
  Ok (o, 1).

(** The label [promote]. *)
Definition sparse_promote (o : sds) (index count : Z) : result (sds * Z) :=
  let* (o, valid) := hllSparseToDense o in
  if negb valid then Ok (o, -1)
  else
    let* (buf, dense_retval) := hllDenseSet (s_buf o) HLL_HDR_SIZE index count in
    check dense_retval =? 1 else AssertFailed;;
    Ok (set_buf o buf, dense_retval).

(** Room for three more bytes, unless that is beyond the limit. *)
Definition sparse_room (max_bytes : Z) (o : sds) : result sds :=
  if (sdsalloc o <? max_bytes) && (sdsavail o <? 3) then
    let newlen := u64 (sdslen o + 3) in
    let newlen := u64 (newlen + Z.min newlen 300) in
    let newlen := if newlen >? max_bytes then max_bytes else newlen in
    sdsResize o newlen true
  else Ok o.

(** Steps 2 and 3, on the opcode [b] at [p]. *)
Definition sparse_replace (max_bytes : Z) (o : sds) (p : Z) (prev : option Z) (first span index count b : Z)
  : result (sds * Z) :=
  let end_ := sdslen o in
  let is_xzero := HLL_SPARSE_IS_XZERO b in
  let is_zero := HLL_SPARSE_IS_ZERO b in
  let is_val := negb (is_zero || is_xzero) in
  let next := if is_xzero then p + 2 else p + 1 in
  let next := if next >=? end_ then None else Some next in
  if is_val && (HLL_SPARSE_VAL_VALUE b >=? count) then Ok (o, 0)
  else if negb is_xzero && (span =? 1) then
    let* o := put_bytes o p (HLL_SPARSE_VAL_SET count 1) 1 in
    sparse_updated o prev end_
  else
    let last := first + span - 1 in
    let seq := split_opcode is_val (HLL_SPARSE_VAL_VALUE b) first last index count in
    let seqlen := zlen seq in
    check seqlen <=? 5 else OutOfBounds;;
    let oldlen := if is_xzero then 2 else 1 in
    let deltalen := seqlen - oldlen in
    if (deltalen >? 0) && (u64 (sdslen o + deltalen) >? max_bytes) then sparse_promote o index count
    else
      check u64 (sdslen o + deltalen) <=? sdsalloc o else AssertFailed;;
      let* o :=
        match next with
        | Some next => if deltalen =? 0 then Ok o else move_bytes o (next + deltalen) next (end_ - next)
        | None => Ok o
        end in
      let* o := sdsIncrLen o deltalen in
      let* o := put_bytes o p seq seqlen in
      sparse_updated o prev (end_ + deltalen).

(** 1 when the register was updated, 0 when it was not, -1 when the string is not
    valid. *)
Definition hllSparseSet (max_bytes : Z) (o : sds) (index count : Z) : result (sds * Z) :=
  if count >? HLL_SPARSE_VAL_MAX_VALUE then sparse_promote o index count
  else
    let* o := sparse_room max_bytes o in
    let end_ := sdslen o in
    let* (p, prev, first, span) := locate (Z.to_nat end_) (s_buf o) HLL_HDR_SIZE end_ None 0 0 index in
    if (span =? 0) || (p >=? end_) then Ok (o, -1)
    else
      let* b := rd1 (s_buf o) p in
      sparse_replace max_bytes o p prev first span index count b.

Definition hllSparseRegHisto (buf : list Z) (sparse sparselen : Z) (reghisto : list Z) : result (list Z * bool) :=
  let* (reghisto, idx, valid) :=
    opcode_loop (Z.to_nat sparselen) (fun h _ runlen => histo_incr h 0 runlen)
      (fun h _ runlen regval => histo_incr h regval runlen) buf sparse (sparse + sparselen) 0 reghisto in
  Ok (reghisto, negb valid || negb (idx =? HLL_REGISTERS)).

(** * Merging *)

Fixpoint merge_dense_loop (n : nat) (i : Z) (reg_raw reg_dense : list Z) (p : Z) : result (list Z) :=
  match n with
  | O => Ok reg_raw
  | S n =>
      let* val := HLL_DENSE_GET_REGISTER reg_dense p i in
      let* old := rd1 reg_raw i in
      let* reg_raw := wr1 reg_raw i (Z.max old val) in
      merge_dense_loop n (i + 1) reg_raw reg_dense p
  end.

Definition hllMergeDense (reg_raw reg_dense : list Z) (p : Z) : result (list Z) :=
  merge_dense_loop (Z.to_nat HLL_REGISTERS) 0 reg_raw reg_dense p.

Definition hllMerge (max : list Z) (hll : sds) : result (list Z * bool) :=
  let* enc := rd1 (s_buf hll) hdr_encoding in
  if enc =? HLL_DENSE then
    let* max := hllMergeDense max (s_buf hll) HLL_HDR_SIZE in Ok (max, true)
  else
    let* (max, i, valid) :=
      opcode_loop (Z.to_nat (sdslen hll)) (fun max _ _ => Ok max)
        (fun max i runlen regval =>
           run_loop (Z.to_nat runlen)
             (fun max i => let* m := rd1 max i in if regval >? m then wr1 max i regval else Ok max) i max)
        (s_buf hll) HLL_HDR_SIZE (sdslen hll) 0 max in
    Ok (max, valid && (i =? HLL_REGISTERS)).

Fixpoint dense_compress_loop (n : nat) (i : Z) (reg_dense : list Z) (p : Z) (reg_raw : list Z) : result (list Z) :=
  match n with
  | O => Ok reg_dense
  | S n =>
      let* v := rd1 reg_raw i in
      let* reg_dense := HLL_DENSE_SET_REGISTER reg_dense p i v in
      dense_compress_loop n (i + 1) reg_dense p reg_raw
  end.

Definition hllDenseCompress (reg_dense : list Z) (p : Z) (reg_raw : list Z) : result (list Z) :=
  dense_compress_loop (Z.to_nat HLL_REGISTERS) 0 reg_dense p reg_raw.

(** Eight registers at a time, a word of zeroes at once. *)
Fixpoint raw_histo_loop (n : nat) (registers : list Z) (off : Z) (reghisto : list Z) : result (list Z) :=
  match n with
  | O => Ok reghisto
  | S n =>
      let* word := rdn registers off 8 in
      let* reghisto :=
        if forallb (Z.eqb 0) word then histo_incr reghisto 0 8 else histo_all reghisto word in
      raw_histo_loop n registers (off + 8) reghisto
  end.

Definition hllRawRegHisto (registers reghisto : list Z) : result (list Z) :=
  raw_histo_loop (Z.to_nat (HLL_REGISTERS / 8)) registers 0 reghisto.

(** * Objects *)

(** The opcodes of an empty HyperLogLog: [n] runs. *)
Fixpoint xzero_loop (n : nat) (s : sds) (p aux : Z) : result (sds * Z) :=
  if aux =? 0 then Ok (s, p)
  else
    match n with
    | O => Err OutOfFuel
    | S n =>
        let xzero := if HLL_SPARSE_XZERO_MAX_LEN >? aux then aux else HLL_SPARSE_XZERO_MAX_LEN in
        let* s := put_bytes s p (HLL_SPARSE_XZERO_SET xzero) 2 in
        xzero_loop n s (p + 2) (aux - xzero)
    end.

Definition createHLLObject : result sds :=
  let sparselen := HLL_HDR_SIZE + (HLL_REGISTERS + (HLL_SPARSE_XZERO_MAX_LEN - 1)) / HLL_SPARSE_XZERO_MAX_LEN * 2 in
  let* s := sdsnewlen Zeros sparselen in
  let* (s, p) := xzero_loop (Z.to_nat HLL_REGISTERS) s HLL_HDR_SIZE HLL_REGISTERS in
  check p =? sparselen else AssertFailed;;
  let* s := put_bytes s 0 [72; 89; 76; 76] 4 in
  put_byte s hdr_encoding HLL_SPARSE.

(** The tests on a value that is a string. *)
Definition isHLLObject (o : sds) : result bool :=
  if sdslen o <? HLL_HDR_SIZE then Ok false
  else
    let* magic := rdn (s_buf o) 0 4 in
    let* enc := rd1 (s_buf o) hdr_encoding in
    Ok (bool_decide (magic = [72; 89; 76; 76]) && negb (enc >? HLL_MAX_ENCODING) &&
        negb ((enc =? HLL_DENSE) && negb (sdslen o =? HLL_DENSE_SIZE))).

Context {host : HostEndian}.

Definition hllAdd (max_bytes : Z) (o : sds) (ele : list Z) (elesize : Z) : result (sds * Z) :=
  let* enc := rd1 (s_buf o) hdr_encoding in
  if enc =? HLL_DENSE then
    let* (count, index) := hllPatLen ele elesize in
    let* (buf, r) := hllDenseSet (s_buf o) HLL_HDR_SIZE index count in
    Ok (set_buf o buf, r)
  else if enc =? HLL_SPARSE then
    let* (count, index) := hllPatLen ele elesize in
    hllSparseSet max_bytes o index count
  else Ok (o, -1).

(** * Commands *)

Inductive pf_reply :=
  | PfOk
  | PfInt (n : Z)
  | PfWrongType
  | PfInvalid.

(** dbUnshareStringValue: a value that is shared or not raw is copied. *)
Definition unshare (copy : bool) (o : sds) : result sds := if copy then sdsdup o else Ok o.

(** The elements of PFADD: the number of updates, or nothing after an error. *)
Fixpoint pfadd_loop (max_bytes : Z) (o : sds) (eles : list (list Z)) (updated : Z) : result (sds * option Z) :=
  match eles with
  | [] => Ok (o, Some updated)
  | ele :: eles =>
      let* (o, retval) := hllAdd max_bytes o ele (zlen ele) in
      if retval =? 1 then pfadd_loop max_bytes o eles (updated + 1)
      else if retval =? -1 then Ok (o, None)
      else pfadd_loop max_bytes o eles updated
  end.

Definition pfaddCommand (max_bytes : Z) (copy : bool) (kv : option sds) (eles : list (list Z)) : result (option sds * pf_reply) :=
  let* start :=
    match kv with
    | None => let* o := createHLLObject in Ok (Some (o, 1))
    | Some o =>
        let* hll := isHLLObject o in
        if negb hll then Ok None else let* o := unshare copy o in Ok (Some (o, 0))
    end in
  match start with
  | None => Ok (kv, PfWrongType)
  | Some (o, updated) =>
      let* (o, updated) := pfadd_loop max_bytes o eles updated in
      match updated with
      | None => Ok (Some o, PfInvalid)
      | Some updated =>
          if updated =? 0 then Ok (Some o, PfInt 0)
          else let* o := HLL_INVALIDATE_CACHE o in Ok (Some o, PfInt 1)
      end
  end.

(** The first half of hllCount: the histogram, and whether the string is not
    valid. *)
Definition hllCountHisto (o : sds) : result (list Z * bool) :=
  let reghisto := replicate 64 0 in
  let* enc := rd1 (s_buf o) hdr_encoding in
  if enc =? HLL_DENSE then let* h := hllDenseRegHisto (s_buf o) HLL_HDR_SIZE reghisto in Ok (h, false)
  else if enc =? HLL_SPARSE then
    hllSparseRegHisto (s_buf o) HLL_HDR_SIZE (sdslen o - HLL_HDR_SIZE) reghisto
  else Err AssertFailed.

(** The sources of PFCOUNT and PFMERGE: the maximum of their registers and
    whether one of them is dense, or the error that stops the command. *)
Fixpoint merge_sources (srcs : list (option sds)) (max : list Z) (use_dense : bool) : result (list Z * bool * option pf_reply) :=
  match srcs with
  | [] => Ok (max, use_dense, None)
  | None :: srcs => merge_sources srcs max use_dense
  | Some o :: srcs =>
      let* hll := isHLLObject o in
      if negb hll then Ok (max, use_dense, Some PfWrongType)
      else
        let* enc := rd1 (s_buf o) hdr_encoding in
        let use_dense := if enc =? HLL_DENSE then true else use_dense in
        let* (max, valid) := hllMerge max o in
        if negb valid then Ok (max, use_dense, Some PfInvalid)
        else merge_sources srcs max use_dense
  end.

Section count.
Context (estimate : list Z -> Z).

Definition pfcount_union (srcs : list (option sds)) : result pf_reply :=
  let* (max, _, err) := merge_sources srcs (replicate (Z.to_nat HLL_REGISTERS) 0) false in
  match err with
  | Some e => Ok e
  | None => let* h := hllRawRegHisto max (replicate 64 0) in Ok (PfInt (estimate h))
  end.

(** One key: the cached cardinality, or a new one that is cached. *)
Definition pfcount_one (copy : bool) (kv : option sds) : result (option sds * pf_reply) :=
  match kv with
  | None => Ok (kv, PfInt 0)
  | Some o =>
      let* hll := isHLLObject o in
      if negb hll then Ok (kv, PfWrongType)
      else
        let* o := unshare copy o in
        let* cached := HLL_VALID_CACHE o in
        if (cached : bool) then
          let* card := rdn (s_buf o) hdr_card 8 in Ok (Some o, PfInt (word_of_bytes card))
        else
          let* (h, invalid) := hllCountHisto o in
          let card := estimate h in
          if (invalid : bool) then Ok (Some o, PfInvalid)
          else
            let* o := put_bytes o hdr_card (map (fun k => Z.land (Z.shiftr card (8 * k)) 0xff) [0; 1; 2; 3; 4; 5; 6; 7]) 8 in
            Ok (Some o, PfInt card)
  end.
End count.

(** The registers of the maximum that are not zero, one by one. *)
Fixpoint merge_store_loop (max_bytes : Z) (n : nat) (j : Z) (max : list Z) (kv : sds) : result sds :=
  match n with
  | O => Ok kv
  | S n =>
      let* m := rd1 max j in
      let* kv :=
        if m =? 0 then Ok kv
        else
          let* enc := rd1 (s_buf kv) hdr_encoding in
          if enc =? HLL_DENSE then let* (buf, _) := hllDenseSet (s_buf kv) HLL_HDR_SIZE j m in Ok (set_buf kv buf)
          else if enc =? HLL_SPARSE then let* (kv, _) := hllSparseSet max_bytes kv j m in Ok kv
          else Ok kv in
      merge_store_loop max_bytes n (j + 1) max kv
  end.

(** [dest] is the first source. *)
Definition pfmergeCommand (max_bytes : Z) (copy : bool) (dest : option sds) (srcs : list (option sds)) : result (option sds * pf_reply) :=
  let* (max, use_dense, err) := merge_sources (dest :: srcs) (replicate (Z.to_nat HLL_REGISTERS) 0) false in
  match err with
  | Some e => Ok (dest, e)
  | None =>
      let* kv := match dest with None => createHLLObject | Some o => unshare copy o end in
      let* (kv, valid) := if (use_dense : bool) then hllSparseToDense kv else Ok (kv, true) in
      if negb valid then Ok (Some kv, PfInvalid)
      else
        let* kv :=
          if use_dense then let* buf := hllDenseCompress (s_buf kv) HLL_HDR_SIZE max in Ok (set_buf kv buf)
          else merge_store_loop max_bytes (Z.to_nat HLL_REGISTERS) 0 max kv in
        let* kv := HLL_INVALIDATE_CACHE kv in
        Ok (Some kv, PfOk)
  end.

End sparse.
