(* ===== verification/HllBits.v ===== *)
(** HllBits: the registers of six bits of Hll.v, the low bits of a byte first.

    [bit_at] is a bit of a block; a register is six bits in a row, and writing one
    changes those six bits and no other. *)

From Stdlib Require Import ZArith Lia Bool.
From stdpp Require Import base list numbers decidable.
From S2P Require Import Prelude Bytes Sds Hll.

Local Open Scope Z_scope.

Definition byte_at (buf : list Z) (k : Z) : Z := default 0 (buf !! Z.to_nat k).
Definition bit_at (buf : list Z) (k : Z) : bool := Z.testbit (byte_at buf (k / 8)) (k mod 8).

(** Register [i] of the registers at byte [p]. *)
Definition reg_at (buf : list Z) (p i : Z) : Z :=
  Z.land (Z.lor (Z.shiftr (byte_at buf (p + i * 6 / 8)) ((i * 6) mod 8))
            (Z.shiftl (byte_at buf (p + i * 6 / 8 + 1)) (8 - (i * 6) mod 8))) 63.

Lemma byte_and_7 n : Z.land n 7 = n mod 8.
Proof. change 7 with (Z.ones 3). by rewrite Z.land_ones. Qed.

Lemma testbit_63 j : 0 <= j -> Z.testbit 63 j = (j <? 6).
Proof. intros Hj. change 63 with (Z.ones 6). rewrite Z.testbit_ones by lia. by rewrite (proj2 (Z.leb_le 0 j)). Qed.

Lemma small_high n w j : 0 <= n < 2 ^ w -> 0 <= w <= j -> Z.testbit n j = false.
Proof. intros Hn Hj. rewrite <- (Z.mod_small n (2 ^ w)) by done. apply Z.mod_pow2_bits_high. lia. Qed.

(** The first [n] cells of a block are bytes. *)
Definition byte_range (buf : list Z) (n : Z) : Prop := forall k, 0 <= k < n -> 0 <= byte_at buf k < 2 ^ 8.

Lemma reg_bits buf n p i j : byte_range buf n -> 0 <= p -> 0 <= i -> p + i * 6 / 8 < n -> 0 <= j ->
  Z.testbit (reg_at buf p i) j = (j <? 6) && bit_at buf (8 * p + 6 * i + j).
Proof.
  intros Hb Hp Hi Hn Hj. assert (0 <= i * 6 / 8) by (apply Z.div_pos; lia). unfold reg_at. rewrite Z.land_spec, testbit_63 by done. rewrite andb_comm. destruct (Z.ltb_spec j 6); [|done]. cbn [andb].
  pose proof (Z.div_mod (i * 6) 8 ltac:(lia)) as Hdm. pose proof (Z.mod_pos_bound (i * 6) 8 ltac:(lia)) as Hm.
  set (q := i * 6 / 8) in *. set (fb := (i * 6) mod 8) in *. rewrite Z.lor_spec, Z.shiftr_spec, Z.shiftl_spec by lia.
  unfold bit_at. pose proof (Hb (p + q) ltac:(lia)) as Hby. destruct (Z.lt_ge_cases (j + fb) 8).
  - rewrite (Z.testbit_neg_r _ (j - (8 - fb))) by lia. rewrite orb_false_r.
    rewrite <- (Z.div_unique_pos (8 * p + 6 * i + j) 8 (p + q) (j + fb)) by lia.
    by rewrite <- (Z.mod_unique_pos (8 * p + 6 * i + j) 8 (p + q) (j + fb)) by lia.
  - rewrite (small_high _ 8) by lia. cbn [orb].
    rewrite <- (Z.div_unique_pos (8 * p + 6 * i + j) 8 (p + q + 1) (j + fb - 8)) by lia.
    rewrite <- (Z.mod_unique_pos (8 * p + 6 * i + j) 8 (p + q + 1) (j + fb - 8)) by lia. f_equal. lia.
Qed.

Lemma reg_range buf p i : 0 <= reg_at buf p i < 64.
Proof. unfold reg_at. change 63 with (Z.ones 6). rewrite Z.land_ones by lia. apply Z.mod_pos_bound. lia. Qed.

Lemma get_register_ok buf p i : 0 <= p -> 0 <= i -> p + i * 6 / 8 + 1 < zlen buf ->
  HLL_DENSE_GET_REGISTER buf p i = Ok (reg_at buf p i).
Proof.
  intros Hp Hi Hb. assert (0 <= i * 6 / 8) by (apply Z.div_pos; lia). unfold HLL_DENSE_GET_REGISTER, reg_at, HLL_BITS, byte_at. rewrite byte_and_7.
  destruct (rd1_ok buf (p + i * 6 / 8)) as (b0 & -> & ->); [lia|]. destruct (rd1_ok buf (p + i * 6 / 8 + 1)) as (b1 & -> & ->); [lia|]. by runr.
Qed.

(** The two bytes a register is written to. *)
Lemma low_byte_bits b fb v m : 0 <= fb < 8 -> 0 <= v < 64 -> 0 <= m < 8 ->
  Z.testbit (u8 (Z.lor (u8 (Z.land b (Z.lnot (Z.shiftl 63 fb)))) (Z.shiftl v fb))) m =
  if (fb <=? m) && (m <? fb + 6) then Z.testbit v (m - fb) else Z.testbit b m.
Proof.
  intros Hf Hv Hm. unfold wrapU. rewrite Z.mod_pow2_bits_low, Z.lor_spec, Z.mod_pow2_bits_low, Z.land_spec, Z.lnot_spec, !Z.shiftl_spec by lia.
  destruct (Z.leb_spec fb m); cbn [andb].
  - rewrite testbit_63 by lia. destruct (Z.ltb_spec m (fb + 6)).
    + rewrite (proj2 (Z.ltb_lt (m - fb) 6)) by lia. by rewrite andb_false_r.
    + rewrite (proj2 (Z.ltb_ge (m - fb) 6)) by lia. rewrite andb_true_r, (small_high v 6) by lia. apply orb_false_r.
  - rewrite !(Z.testbit_neg_r _ (m - fb)) by lia. by rewrite andb_true_r, orb_false_r.
Qed.

Lemma high_byte_bits b fb v m : 0 <= fb < 8 -> 0 <= v < 64 -> 0 <= m < 8 ->
  Z.testbit (u8 (Z.lor (u8 (Z.land b (Z.lnot (Z.shiftr 63 (8 - fb))))) (Z.shiftr v (8 - fb)))) m =
  if m + 8 <? fb + 6 then Z.testbit v (m + 8 - fb) else Z.testbit b m.
Proof.
  intros Hf Hv Hm. unfold wrapU. rewrite Z.mod_pow2_bits_low, Z.lor_spec, Z.mod_pow2_bits_low, Z.land_spec, Z.lnot_spec, !Z.shiftr_spec by lia.
  rewrite testbit_63 by lia. replace (m + (8 - fb)) with (m + 8 - fb) by lia. destruct (Z.ltb_spec (m + 8) (fb + 6)).
  - rewrite (proj2 (Z.ltb_lt (m + 8 - fb) 6)) by lia. by rewrite andb_false_r.
  - rewrite (proj2 (Z.ltb_ge (m + 8 - fb) 6)) by lia. rewrite andb_true_r, (small_high v 6) by lia. apply orb_false_r.
Qed.

Lemma byte_at_insert buf i b k : 0 <= i < zlen buf -> 0 <= k -> byte_at (<[Z.to_nat i := b]> buf) k = if k =? i then b else byte_at buf k.
Proof.
  intros Hi Hk. unfold byte_at. destruct (Z.eqb_spec k i) as [->|Hne].
  - rewrite list_lookup_insert_eq; [done|]. unfold zlen in Hi. lia.
  - by rewrite list_lookup_insert_ne by lia.
Qed.

(** What writing register [i] does: its six bits, and no others. *)
Record reg_set (buf buf' : list Z) (p i v : Z) : Prop := {
  rs_length : zlen buf' = zlen buf;
  rs_bytes : forall n, n <= zlen buf -> byte_range buf n -> byte_range buf' n;
  rs_bits : forall k, 0 <= k ->
    bit_at buf' k = if (8 * p + 6 * i <=? k) && (k <? 8 * p + 6 * i + 6) then Z.testbit v (k - (8 * p + 6 * i)) else bit_at buf k;
}.

Lemma set_register_ok buf p i v : 0 <= p -> 0 <= i -> 0 <= v < 64 -> p + i * 6 / 8 + 1 < zlen buf ->
  exists buf', HLL_DENSE_SET_REGISTER buf p i v = Ok buf' /\ reg_set buf buf' p i v.
Proof.
  intros Hp Hi Hv Hl. pose proof (Z.div_mod (i * 6) 8 ltac:(lia)) as Hdm. pose proof (Z.mod_pos_bound (i * 6) 8 ltac:(lia)) as Hm.
  assert (0 <= i * 6 / 8) as Hq by (apply Z.div_pos; lia). unfold HLL_DENSE_SET_REGISTER, HLL_BITS. rewrite byte_and_7.
  change HLL_REGISTER_MAX with 63. set (q := i * 6 / 8) in *. set (fb := (i * 6) mod 8) in *.
  destruct (rd1_ok buf (p + q)) as (b0 & -> & E0); [lia|]. runr. rewrite wr1_ok by lia. runr.
  set (c0 := u8 (Z.lor _ _)). set (buf1 := <[Z.to_nat (p + q) := c0]> buf).
  assert (zlen buf1 = zlen buf) as Hl1 by apply zlen_insert. destruct (rd1_ok buf1 (p + q + 1)) as (b1 & -> & E1); [lia|]. runr.
  rewrite wr1_ok by lia. set (c1 := u8 (Z.lor _ _)). eexists. split; [done|].
  assert (b1 = byte_at buf (p + q + 1)) as ->.
  { unfold buf1 in E1. rewrite list_lookup_insert_ne in E1 by lia. unfold byte_at. by rewrite E1. }
  assert (b0 = byte_at buf (p + q)) as -> by (unfold byte_at; by rewrite E0).
  constructor.
  - by rewrite zlen_insert.
  - intros n Hn Hb k Hk. rewrite byte_at_insert by lia. unfold buf1. rewrite byte_at_insert by lia.
    repeat case_bool; (apply Hb; lia) || (apply wrapU_range; lia).
  - intros k Hk. pose proof (Z.div_mod k 8 ltac:(lia)) as Hkm. pose proof (Z.mod_pos_bound k 8 ltac:(lia)) as Hkb.
    assert (0 <= k / 8) by (apply Z.div_pos; lia). unfold bit_at at 1. rewrite byte_at_insert by lia. unfold buf1. rewrite byte_at_insert by lia.
    destruct (Z.eqb_spec (k / 8) (p + q + 1)) as [e|n1]; [|destruct (Z.eqb_spec (k / 8) (p + q)) as [e|n0]].
    + unfold c1. rewrite high_byte_bits by lia. unfold bit_at. rewrite e.
      destruct (Z.ltb_spec (k mod 8 + 8) (fb + 6)), (Z.leb_spec (8 * p + 6 * i) k), (Z.ltb_spec k (8 * p + 6 * i + 6)); cbn [andb]; try lia; f_equal; lia.
    + unfold c0. rewrite low_byte_bits by lia. unfold bit_at. rewrite e.
      destruct (Z.leb_spec fb (k mod 8)), (Z.ltb_spec (k mod 8) (fb + 6)), (Z.leb_spec (8 * p + 6 * i) k), (Z.ltb_spec k (8 * p + 6 * i + 6)); cbn [andb]; try lia; f_equal; lia.
    + unfold bit_at. destruct (Z.leb_spec (8 * p + 6 * i) k), (Z.ltb_spec k (8 * p + 6 * i + 6)); cbn [andb]; try done. lia.
Qed.

Lemma set_other_byte buf buf' p i v n k : reg_set buf buf' p i v -> n <= zlen buf -> byte_range buf n -> 0 <= k < n ->
  8 * k + 8 <= 8 * p + 6 * i \/ 8 * p + 6 * i + 6 <= 8 * k -> byte_at buf' k = byte_at buf k.
Proof.
  intros [_ Hb' Hbits] Hn Hb Hk Hout. pose proof (Hb k Hk) as H1. pose proof (Hb' n Hn Hb k Hk) as H2. apply Z.bits_inj'. intros m Hm.
  destruct (Z.lt_ge_cases m 8) as [Hlt|Hge]; [|by rewrite !(small_high _ 8) by lia].
  specialize (Hbits (8 * k + m) ltac:(lia)). unfold bit_at in Hbits.
  rewrite <- (Z.div_unique_pos (8 * k + m) 8 k m) in Hbits by lia. rewrite <- (Z.mod_unique_pos (8 * k + m) 8 k m) in Hbits by lia.
  rewrite Hbits. destruct (Z.leb_spec (8 * p + 6 * i) (8 * k + m)), (Z.ltb_spec (8 * k + m) (8 * p + 6 * i + 6)); cbn [andb]; done || lia.
Qed.

Lemma reg_at_set buf buf' p i v n j : reg_set buf buf' p i v -> n <= zlen buf -> byte_range buf n -> 0 <= p -> 0 <= i -> 0 <= j ->
  0 <= v < 64 -> p + j * 6 / 8 < n -> reg_at buf' p j = if j =? i then v else reg_at buf p j.
Proof.
  intros Hs Hn Hb Hp Hi Hj Hv Hr. pose proof (rs_bytes _ _ _ _ _ Hs n Hn Hb) as Hb'. apply Z.bits_inj'. intros m Hm.
  rewrite (reg_bits buf' n) by done. destruct (Z.ltb_spec m 6) as [H6|H6]; cbn [andb].
  - rewrite (rs_bits _ _ _ _ _ Hs) by lia. destruct (Z.eqb_spec j i) as [->|Hne].
    + dec_bool. f_equal. lia.
    + rewrite (reg_bits buf n) by done. rewrite (proj2 (Z.ltb_lt m 6)) by done. cbn [andb].
      destruct (Z.leb_spec (8 * p + 6 * i) (8 * p + 6 * j + m)), (Z.ltb_spec (8 * p + 6 * j + m) (8 * p + 6 * i + 6)); cbn [andb]; done || lia.
  - destruct (j =? i); [by rewrite (small_high v 6) by lia|]. by rewrite (small_high _ 6) by (pose proof (reg_range buf p j); lia).
Qed.

(** * All the registers *)

Definition hll_n : nat := Z.to_nat HLL_REGISTERS.

Definition regs_of (buf : list Z) (p : Z) : list Z := (fun i => reg_at buf p (Z.of_nat i)) <$> seq 0 hll_n.

Lemma hll_n_eq : Z.of_nat hll_n = 16384.
Proof. unfold hll_n. rewrite Z2Nat.id; done. Qed.

#[global] Opaque hll_n.

Lemma regs_length buf p : length (regs_of buf p) = hll_n.
Proof. unfold regs_of. by rewrite length_fmap, length_seq. Qed.

Lemma regs_lookup buf p i : (i < hll_n)%nat -> regs_of buf p !! i = Some (reg_at buf p (Z.of_nat i)).
Proof. intros Hi. unfold regs_of. rewrite list_lookup_fmap, lookup_seq_lt by done. done. Qed.

(** The last register ends within the byte before [p + 12288]. *)
Lemma reg_byte_bound i : (i < hll_n)%nat -> 0 <= Z.of_nat i * 6 / 8 <= 12287.
Proof.
  intros Hi. pose proof hll_n_eq. split; [apply Z.div_pos; lia|]. assert (Z.of_nat i * 6 / 8 < 12288); [|lia]. apply Z.div_lt_upper_bound; lia.
Qed.

Lemma regs_set buf buf' p i v : reg_set buf buf' p (Z.of_nat i) v -> (i < hll_n)%nat -> p + 12288 <= zlen buf -> byte_range buf (p + 12288) ->
  0 <= p -> 0 <= v < 64 -> regs_of buf' p = <[i := v]> (regs_of buf p).
Proof.
  intros Hs Hi Hl Hb Hp Hv. apply list_eq. intros j. destruct (decide (j < hll_n)%nat) as [Hj|Hj].
  - rewrite regs_lookup by done. pose proof (reg_byte_bound j Hj). rewrite (reg_at_set buf buf' p (Z.of_nat i) v (p + 12288)) by (done || lia).
    destruct (Z.eqb_spec (Z.of_nat j) (Z.of_nat i)) as [e|ne].
    + apply Nat2Z.inj in e as ->. by rewrite list_lookup_insert_eq by (rewrite regs_length; lia).
    + rewrite list_lookup_insert_ne by lia. by rewrite regs_lookup.
  - rewrite !lookup_ge_None_2; [done|rewrite length_insert, regs_length; lia|rewrite regs_length; lia].
Qed.
