(* ===== verification/HllHisto.v ===== *)
(** HllHisto: the histograms of registers Hll.v computes from the dense and the
    raw representation, against counting. *)

From Stdlib Require Import ZArith Lia Bool.
From stdpp Require Import base list numbers decidable.
From S2P Require Import Prelude Bytes Sds Hll HllBits.

Local Open Scope Z_scope.

(** How often each value below 64 occurs. *)
Definition occurs (R : list Z) (v : Z) : Z := zlen (filter (fun r => r = v) R).
Definition hist (R : list Z) : list Z := (fun v => occurs R (Z.of_nat v)) <$> seq 0 64.

Definition is_reg (r : Z) : Prop := 0 <= r < 64.

Lemma hist_length R : length (hist R) = 64%nat.
Proof. unfold hist. by rewrite length_fmap, length_seq. Qed.

Lemma hist_lookup R v : (v < 64)%nat -> hist R !! v = Some (occurs R (Z.of_nat v)).
Proof. intros Hv. unfold hist. by rewrite list_lookup_fmap, lookup_seq_lt. Qed.

Lemma occurs_app R R' v : occurs (R ++ R') v = occurs R v + occurs R' v.
Proof. unfold occurs. by rewrite list.filter_app, zlen_app. Qed.

Lemma occurs_le R v : 0 <= occurs R v <= zlen R.
Proof. unfold occurs, zlen. pose proof (list.length_filter (fun r => r = v) R). lia. Qed.

Lemma occurs_replicate n v w : occurs (replicate n v) w = if decide (v = w) then Z.of_nat n else 0.
Proof.
  unfold occurs. induction n as [|n IH]; [by destruct (decide _)|]. cbn [replicate]. rewrite filter_cons.
  destruct (decide (v = w)); [|done]. rewrite zlen_cons, IH. lia.
Qed.

Lemma hist_nil : hist [] = replicate 64 0.
Proof. done. Qed.

(** Counting a run. *)
Lemma histo_incr_ok R v n : is_reg v -> 0 <= n -> zlen R + n < 2 ^ 31 ->
  histo_incr (hist R) v n = Ok (hist (R ++ replicate (Z.to_nat n) v)).
Proof.
  intros Hv Hn Hl. unfold is_reg in Hv. unfold histo_incr. pose proof (occurs_le R v).
  rewrite (rd1_lookup _ _ (occurs R v)); [|lia|rewrite hist_lookup by lia; f_equal; f_equal; lia]. runr.
  rewrite chk_i32_ok by lia. runr. rewrite wr1_ok by (unfold zlen; rewrite hist_length; lia). f_equal.
  apply list_eq. intros i. destruct (decide (i < 64)%nat) as [Hi|Hi].
  - rewrite (hist_lookup (R ++ _)) by done. rewrite occurs_app, occurs_replicate. destruct (decide (v = Z.of_nat i)) as [->|Hne].
    + rewrite Nat2Z.id, list_lookup_insert_eq by (rewrite hist_length; lia). f_equal. lia.
    + rewrite list_lookup_insert_ne, hist_lookup by lia. f_equal. lia.
  - rewrite !lookup_ge_None_2; [done|rewrite hist_length; lia|rewrite length_insert, hist_length; lia].
Qed.

Lemma histo_all_ok rs : forall R, Forall is_reg rs -> zlen R + zlen rs < 2 ^ 31 -> histo_all (hist R) rs = Ok (hist (R ++ rs)).
Proof.
  induction rs as [|r rs IH]; intros R Hr Hl; cbn [histo_all]; [by rewrite app_nil_r|]. apply list.Forall_cons in Hr as [Hr Hrs].
  rewrite zlen_cons in Hl. pose proof (zlen_nonneg rs). rewrite histo_incr_ok by (done || lia). runr.
  change (replicate (Z.to_nat 1) r) with [r]. rewrite IH; [by rewrite <- app_assoc|done|]. rewrite zlen_app. change (zlen [r]) with 1. lia.
Qed.

(** * The raw representation *)

Lemma raw_loop_ok rest : forall n R, Forall is_reg rest -> length rest = (8 * n)%nat -> zlen R + zlen rest < 2 ^ 31 ->
  raw_histo_loop n (R ++ rest) (zlen R) (hist R) = Ok (hist (R ++ rest)).
Proof.
  intros n. revert rest. induction n as [|n IH]; intros rest R Hr Hn Hl; cbn [raw_histo_loop].
  - apply nil_length_inv in Hn as ->. by rewrite app_nil_r.
  - set (w := take 8 rest). set (rest' := drop 8 rest). assert (rest = w ++ rest') as Er by (symmetry; apply take_drop).
    assert (length w = 8%nat) as Hw by (unfold w; rewrite length_take; lia).
    assert (zlen w = 8) as Hzw by (unfold zlen; lia).
    rewrite Er, (rdn_mid R w rest') by (done || lia). runr. rewrite Er in Hr, Hl. apply list.Forall_app in Hr as [Hrw Hrr]. rewrite zlen_app in Hl. pose proof (zlen_nonneg rest').
    assert ((if forallb (Z.eqb 0) w then histo_incr (hist R) 0 8 else histo_all (hist R) w) = Ok (hist (R ++ w))) as ->.
    { destruct (forallb (Z.eqb 0) w) eqn:Ez; [|apply histo_all_ok; [done|lia]].
      rewrite histo_incr_ok by (unfold is_reg; lia). do 3 f_equal. change (Z.to_nat 8) with 8%nat. rewrite <- Hw. apply replicate_as_elem_of.
      split; [done|]. intros x Hx. rewrite forallb_forall in Ez. specialize (Ez x (proj1 (list_elem_of_In _ _) Hx)). by apply Z.eqb_eq in Ez. }
    runr. rewrite app_assoc. replace (zlen R + 8) with (zlen (R ++ w)) by (rewrite zlen_app; lia).
    apply IH; [done|unfold rest'; rewrite length_drop; lia|rewrite zlen_app; lia].
Qed.

Lemma raw_histo_ok R : Forall is_reg R -> length R = hll_n -> hllRawRegHisto R (replicate 64 0) = Ok (hist R).
Proof.
  intros Hr Hn. pose proof hll_n_eq. unfold hllRawRegHisto. pose proof (raw_loop_ok R (Z.to_nat (HLL_REGISTERS / 8)) [] Hr) as E.
  rewrite hist_nil in E. apply E.
  - rewrite Hn. apply Nat2Z.inj. rewrite Nat2Z.inj_mul, hll_n_eq. done.
  - change (zlen []) with 0. unfold zlen. rewrite Hn. lia.
Qed.

(** * The dense representation, sixteen registers at a time *)

Lemma reg_at_shift buf p j i : 0 <= i -> 0 <= j -> reg_at buf p (16 * j + i) = reg_at buf (p + 12 * j) i.
Proof.
  intros Hi Hj. unfold reg_at. replace ((16 * j + i) * 6) with (i * 6 + (12 * j) * 8) by lia.
  rewrite Z.div_add, Z.mod_add by lia. do 3 f_equal; f_equal; lia.
Qed.

(** Bits above the sixth do not matter. *)
Lemma land_high x y n : 6 <= n -> Z.land (Z.lor x (Z.shiftl y n)) 63 = Z.land x 63.
Proof.
  intros Hn. apply Z.bits_inj'. intros j Hj. rewrite !Z.land_spec, Z.lor_spec, testbit_63 by done. destruct (Z.ltb_spec j 6).
  - rewrite Z.shiftl_spec_low by lia. by rewrite orb_false_r.
  - by rewrite !andb_false_r.
Qed.

Lemma twelve (bs : list Z) : length bs = 12%nat -> exists a0 a1 a2 a3 a4 a5 a6 a7 a8 a9 a10 a11,
  bs = [a0; a1; a2; a3; a4; a5; a6; a7; a8; a9; a10; a11].
Proof. intros H. do 12 (destruct bs as [|? bs]; [discriminate H|]). destruct bs; [|discriminate H]. by do 12 eexists. Qed.

Lemma sixteen_ok buf p : 0 <= p -> p + 12 <= zlen buf ->
  sixteen_registers (take 12 (drop (Z.to_nat p) buf)) = (fun i => reg_at buf p (Z.of_nat i)) <$> seq 0 16.
Proof.
  intros Hp Hl. destruct (twelve (take 12 (drop (Z.to_nat p) buf))) as (a0 & a1 & a2 & a3 & a4 & a5 & a6 & a7 & a8 & a9 & a10 & a11 & E).
  { rewrite length_take, length_drop. unfold zlen in Hl. lia. }
  assert (forall m a, take 12 (drop (Z.to_nat p) buf) !! m = Some a -> byte_at buf (p + Z.of_nat m) = a) as Hb.
  { intros m a Hm. pose proof (lookup_lt_Some _ _ _ Hm) as Hlt. rewrite E in Hlt. cbn [length] in Hlt.
    rewrite lookup_take_lt, lookup_drop in Hm by lia. unfold byte_at. replace (Z.to_nat (p + Z.of_nat m)) with (Z.to_nat p + m)%nat by lia. by rewrite Hm. }
  rewrite E in Hb |- *. pose proof (Hb 0%nat a0 eq_refl : byte_at buf (p + 0) = a0) as B0. pose proof (Hb 1%nat a1 eq_refl : byte_at buf (p + 1) = a1) as B1. pose proof (Hb 2%nat a2 eq_refl : byte_at buf (p + 2) = a2) as B2.
  pose proof (Hb 3%nat a3 eq_refl : byte_at buf (p + 3) = a3) as B3. pose proof (Hb 4%nat a4 eq_refl : byte_at buf (p + 4) = a4) as B4. pose proof (Hb 5%nat a5 eq_refl : byte_at buf (p + 5) = a5) as B5. pose proof (Hb 6%nat a6 eq_refl : byte_at buf (p + 6) = a6) as B6.
  pose proof (Hb 7%nat a7 eq_refl : byte_at buf (p + 7) = a7) as B7. pose proof (Hb 8%nat a8 eq_refl : byte_at buf (p + 8) = a8) as B8. pose proof (Hb 9%nat a9 eq_refl : byte_at buf (p + 9) = a9) as B9.
  pose proof (Hb 10%nat a10 eq_refl : byte_at buf (p + 10) = a10) as B10. pose proof (Hb 11%nat a11 eq_refl : byte_at buf (p + 11) = a11) as B11. clear Hb E.
  cbn [sixteen_registers seq fmap list_fmap]. unfold reg_at.
  repeat match goal with |- context [Z.of_nat ?k * 6 / 8] => let v := eval vm_compute in (Z.of_nat k * 6 / 8) in change (Z.of_nat k * 6 / 8) with v end.
  repeat match goal with |- context [(Z.of_nat ?k * 6) mod 8] => let v := eval vm_compute in ((Z.of_nat k * 6) mod 8) in change ((Z.of_nat k * 6) mod 8) with v end.
  repeat match goal with |- context [p + ?a + 1] => let v := eval vm_compute in (a + 1) in replace (p + a + 1) with (p + v) by lia end.
  cbn [Z.sub Z.add Z.opp Pos.sub Z.pos_sub Pos.pred_double Pos.sub_mask Pos.double_mask Pos.succ_double_mask Pos.double_pred_mask]. 
  rewrite !(land_high _ _ 8), !(land_high _ _ 6) by lia. rewrite !Z.shiftr_0_r.
  rewrite B0, B1, B2, B3, B4, B5, B6, B7, B8, B9, B10, B11. reflexivity.
Qed.

(** [m] registers from register [k] on. *)
Definition regs_from (buf : list Z) (p : Z) (k m : nat) : list Z := (fun i => reg_at buf p (Z.of_nat i)) <$> seq k m.

Lemma regs_are buf p k m : Forall is_reg (regs_from buf p k m).
Proof. apply Forall_fmap, Forall_true. intros i. apply reg_range. Qed.

Lemma regs_from_add buf p k m m' : regs_from buf p k (m + m') = regs_from buf p k m ++ regs_from buf p (k + m) m'.
Proof. unfold regs_from. by rewrite seq_app, fmap_app. Qed.

Lemma regs_from_sixteen buf p j : regs_from buf p (16 * j) 16 = (fun i => reg_at buf (p + 12 * Z.of_nat j) (Z.of_nat i)) <$> seq 0 16.
Proof.
  unfold regs_from. rewrite <- (Nat.add_0_r (16 * j)) at 1. rewrite <- fmap_add_seq, <- list_fmap_compose. apply list_fmap_ext. intros _ i _.
  cbn [compose]. rewrite Nat2Z.inj_add, Nat2Z.inj_mul. apply reg_at_shift; lia.
Qed.

Lemma dense_loop_ok buf p : forall n j R, 0 <= p -> p + 12 * Z.of_nat (j + n) <= zlen buf -> zlen R + 16 * Z.of_nat n < 2 ^ 31 ->
  dense_histo_loop n buf (p + 12 * Z.of_nat j) (hist R) = Ok (hist (R ++ regs_from buf p (16 * j) (16 * n))).
Proof.
  induction n as [|n IH]; intros j R Hp Hl Hr; cbn [dense_histo_loop]; [by rewrite app_nil_r|].
  rewrite rdn_seg by lia. runr. unfold seg. change (Z.to_nat 12) with 12%nat. rewrite sixteen_ok by lia. rewrite <- regs_from_sixteen.
  assert (zlen (regs_from buf p (16 * j) 16) = 16) as H16 by (unfold zlen, regs_from; by rewrite length_fmap, length_seq).
  rewrite histo_all_ok; [|apply regs_are|lia]. runr. replace (p + 12 * Z.of_nat j + 12) with (p + 12 * Z.of_nat (S j)) by lia.
  rewrite IH; [|done|lia|rewrite zlen_app; lia]. replace (16 * S n)%nat with (16 + 16 * n)%nat by lia. rewrite regs_from_add, <- app_assoc.
  by replace (16 * S j)%nat with (16 * j + 16)%nat by lia.
Qed.

Lemma dense_histo_ok buf p : 0 <= p -> p + 12288 <= zlen buf -> hllDenseRegHisto buf p (replicate 64 0) = Ok (hist (regs_of buf p)).
Proof.
  intros Hp Hl. assert (Z.of_nat 1024 = 1024) as Hn by lia. unfold hllDenseRegHisto. rewrite <- hist_nil. revert Hn. generalize 1024%nat. intros n Hn.
  pose proof hll_n_eq as Hh. assert (hll_n = (16 * n)%nat) as E by lia. pose proof (dense_loop_ok buf p n 0 [] Hp) as Ed.
  rewrite Z.mul_0_r, Z.add_0_r in Ed. rewrite Ed by (rewrite ?Hn; lia || done). unfold regs_of. by rewrite E.
Qed.
