(* ===== verification/HllSparse.v ===== *)
(** HllSparse: the opcodes of the sparse encoding of Hll.v.

    A sparse string is a list of opcodes, runs of a value; [expand] gives the
    registers they stand for.  The decoding loops read exactly these opcodes back,
    and what they do on the way is stated by an invariant on the registers read so
    far. *)

From Stdlib Require Import ZArith Lia Bool.
From stdpp Require Import base list numbers decidable.
From S2P Require Import Prelude Bytes Sds Hll HllBits HllHisto.

Local Open Scope Z_scope.

Inductive opcode := OZero (n : Z) | OXZero (n : Z) | OVal (v n : Z).

Definition op_ok (o : opcode) : Prop :=
  match o with
  | OZero n => 1 <= n <= 64
  | OXZero n => 1 <= n <= 16384
  | OVal v n => 1 <= v <= 32 /\ 1 <= n <= 4
  end.

Definition op_bytes (o : opcode) : list Z :=
  match o with
  | OZero n => HLL_SPARSE_ZERO_SET n
  | OXZero n => HLL_SPARSE_XZERO_SET n
  | OVal v n => HLL_SPARSE_VAL_SET v n
  end.

Definition op_len (o : opcode) : Z := match o with OZero n | OXZero n | OVal _ n => n end.
Definition op_val (o : opcode) : Z := match o with OVal v _ => v | _ => 0 end.
Definition op_regs (o : opcode) : list Z := replicate (Z.to_nat (op_len o)) (op_val o).

Definition encode (ops : list opcode) : list Z := concat (map op_bytes ops).
Definition expand (ops : list opcode) : list Z := concat (map op_regs ops).

Lemma encode_app a b : encode (a ++ b) = encode a ++ encode b.
Proof. unfold encode. by rewrite map_app, concat_app. Qed.

Lemma expand_app a b : expand (a ++ b) = expand a ++ expand b.
Proof. unfold expand. by rewrite map_app, concat_app. Qed.

Lemma op_len_pos o : op_ok o -> 1 <= op_len o.
Proof. destruct o; cbn; lia. Qed.

Lemma op_regs_len o : op_ok o -> zlen (op_regs o) = op_len o.
Proof. intros Ho. pose proof (op_len_pos o Ho). unfold op_regs, zlen. rewrite length_replicate. lia. Qed.

(** * The macros *)

Lemma in_range_forallb (f : Z -> bool) lo n x : forallb f (seqZ lo n) = true -> lo <= x < lo + n -> f x = true.
Proof. intros Hf Hx. rewrite forallb_forall in Hf. apply Hf. apply list_elem_of_In, elem_of_seqZ. lia. Qed.

Lemma zero_byte n : 1 <= n <= 64 -> exists b, HLL_SPARSE_ZERO_SET n = [b] /\ is_byte b /\
  HLL_SPARSE_IS_ZERO b = true /\ HLL_SPARSE_IS_XZERO b = false /\ HLL_SPARSE_IS_VAL b = false /\ HLL_SPARSE_ZERO_LEN b = n.
Proof.
  intros Hn. eexists. split; [done|]. set (b := u8 (n - 1)).
  pose proof (in_range_forallb (fun n => let b := u8 (n - 1) in
    (0 <=? b) && (b <? 256) && HLL_SPARSE_IS_ZERO b && negb (HLL_SPARSE_IS_XZERO b) && negb (HLL_SPARSE_IS_VAL b) && (HLL_SPARSE_ZERO_LEN b =? n)) 1 64 n
    ltac:(vm_compute; reflexivity) ltac:(lia)) as H. cbn beta zeta in H. fold b in H.
  rewrite !andb_true_iff, !negb_true_iff, Z.leb_le, Z.ltb_lt, Z.eqb_eq in H. unfold is_byte. intuition.
Qed.

Lemma val_byte v n : 1 <= v <= 32 -> 1 <= n <= 4 -> exists b, HLL_SPARSE_VAL_SET v n = [b] /\ is_byte b /\
  HLL_SPARSE_IS_ZERO b = false /\ HLL_SPARSE_IS_XZERO b = false /\ HLL_SPARSE_IS_VAL b = true /\
  HLL_SPARSE_VAL_VALUE b = v /\ HLL_SPARSE_VAL_LEN b = n.
Proof.
  intros Hv Hn. eexists. split; [done|]. set (b := u8 _).
  pose proof (in_range_forallb (fun v => forallb (fun n => let b := u8 (Z.lor (Z.lor (Z.shiftl (v - 1) 2) (n - 1)) HLL_SPARSE_VAL_BIT) in
    (0 <=? b) && (b <? 256) && negb (HLL_SPARSE_IS_ZERO b) && negb (HLL_SPARSE_IS_XZERO b) && HLL_SPARSE_IS_VAL b &&
      (HLL_SPARSE_VAL_VALUE b =? v) && (HLL_SPARSE_VAL_LEN b =? n)) (seqZ 1 4)) 1 32 v ltac:(vm_compute; reflexivity) ltac:(lia)) as H.
  pose proof (in_range_forallb _ 1 4 n H ltac:(lia)) as H'. cbn beta zeta in H'. fold b in H'.
  rewrite !andb_true_iff, !negb_true_iff, Z.leb_le, Z.ltb_lt, !Z.eqb_eq in H'. unfold is_byte. intuition.
Qed.

Lemma xzero_bytes n : 1 <= n <= 16384 -> exists b b1, HLL_SPARSE_XZERO_SET n = [b; b1] /\ is_byte b /\ is_byte b1 /\
  HLL_SPARSE_IS_ZERO b = false /\ HLL_SPARSE_IS_XZERO b = true /\ HLL_SPARSE_IS_VAL b = false /\ HLL_SPARSE_XZERO_LEN b b1 = n.
Proof.
  intros Hn. do 2 eexists. split; [done|].
  assert (Z.land (n - 1) 0xff = (n - 1) mod 256) as -> by (change 0xff with (Z.ones 8); by rewrite Z.land_ones).
  rewrite Z.shiftr_div_pow2 by lia. change (2 ^ 8) with 256. pose proof (Z.mod_pos_bound (n - 1) 256 ltac:(lia)) as Hm.
  pose proof (Z.div_mod (n - 1) 256 ltac:(lia)) as Hdm. assert (0 <= (n - 1) / 256 < 64) as Hh by (split; [apply Z.div_pos; lia|apply Z.div_lt_upper_bound; lia]).
  set (h := (n - 1) / 256) in *. set (l := (n - 1) mod 256) in *. rewrite (wrapU_small 8 l) by lia. set (b := u8 _).
  pose proof (in_range_forallb (fun h => let b := u8 (Z.lor h HLL_SPARSE_XZERO_BIT) in
    (0 <=? b) && (b <? 256) && negb (HLL_SPARSE_IS_ZERO b) && HLL_SPARSE_IS_XZERO b && negb (HLL_SPARSE_IS_VAL b) && (Z.land b 0x3f =? h)) 0 64 h
    ltac:(vm_compute; reflexivity) ltac:(lia)) as H. cbn beta zeta in H. fold b in H.
  rewrite !andb_true_iff, !negb_true_iff, Z.leb_le, Z.ltb_lt, Z.eqb_eq in H. destruct H as (((((H1 & H2) & H3) & H4) & H5) & H6).
  unfold is_byte, HLL_SPARSE_XZERO_LEN. rewrite H6, Z.lor_comm, lor_disjoint by lia. repeat (split; [done || lia|]). lia.
Qed.

Lemma op_bytes_pos o : op_ok o -> 1 <= zlen (op_bytes o) <= 2.
Proof. intros _. by destruct o. Qed.

Lemma op_bytes_are o : op_ok o -> Forall is_byte (op_bytes o).
Proof.
  destruct o as [n|n|v n]; cbn [op_ok op_bytes]; intros Ho.
  - destruct (zero_byte n Ho) as (b & -> & Hb & _). auto.
  - destruct (xzero_bytes n Ho) as (b & b1 & -> & Hb & Hb1 & _). auto.
  - destruct Ho as [Hv Hn]. destruct (val_byte v n Hv Hn) as (b & -> & Hb & _). auto.
Qed.

Lemma encode_bytes ops : Forall op_ok ops -> Forall is_byte (encode ops).
Proof. induction 1 as [|o ops Ho _ IH]; [constructor|]. apply Forall_app. split; [by apply op_bytes_are|done]. Qed.

Lemma expand_regs ops : Forall op_ok ops -> Forall (fun r => 0 <= r <= 32) (expand ops).
Proof.
  induction 1 as [|o ops Ho _ IH]; [constructor|]. apply Forall_app. split; [|done]. apply Forall_replicate. destruct o; cbn in *; lia.
Qed.

(** No more than two bytes for a register. *)
Lemma encode_short ops : Forall op_ok ops -> zlen ops <= zlen (expand ops) /\ zlen ops <= zlen (encode ops) <= 2 * zlen (expand ops).
Proof.
  induction 1 as [|o ops Ho _ IH]; [done|]. change (encode (o :: ops)) with (op_bytes o ++ encode ops). change (expand (o :: ops)) with (op_regs o ++ expand ops).
  rewrite zlen_cons, !zlen_app, op_regs_len by done. pose proof (op_bytes_pos o Ho). pose proof (op_len_pos o Ho). lia.
Qed.

(** * Decoding *)

(** Where the loops stop, from [p] on: behind the opcodes, or one byte earlier
    when the last one is the long form of a run of zeroes, whose second byte is
    read without a look at the end. *)
Definition loop_end (p : Z) (ops : list opcode) (end_ : Z) : Prop :=
  end_ = p + zlen (encode ops) \/
  (end_ = p + zlen (encode ops) - 1 /\ (ops = [] \/ exists a n, ops = a ++ [OXZero n])).

Lemma loop_end_nil p end_ : loop_end p [] end_ -> end_ <= p.
Proof. unfold loop_end. change (zlen (encode [])) with 0. lia. Qed.

Lemma loop_end_cons p o ops end_ : op_ok o -> Forall op_ok ops -> loop_end p (o :: ops) end_ ->
  p < end_ /\ loop_end (p + zlen (op_bytes o)) ops end_.
Proof.
  intros Ho Hos. pose proof (op_bytes_pos o Ho). destruct (encode_short ops Hos) as [_ [Hsh _]].
  unfold loop_end. change (encode (o :: ops)) with (op_bytes o ++ encode ops). rewrite zlen_app. pose proof (zlen_nonneg ops).
  intros [E|[E [|(a & n & Ea)]]]; [split; [lia|left; lia]|done|].
  destruct a as [|x a]; injection Ea as -> Ea.
  - subst ops. change (encode []) with (@nil Z) in *. rewrite zlen_nil in *. change (zlen (op_bytes (OXZero n))) with 2 in *. split; [lia|]. right. split; [lia|by left].
  - assert (1 <= zlen ops) by (subst ops; rewrite zlen_app, zlen_one; pose proof (zlen_nonneg a); lia). split; [lia|]. right. split; [lia|]. right. by exists a, n.
Qed.

Section decode.
Context {A : Type} (on_zero : A -> Z -> Z -> result A) (on_val : A -> Z -> Z -> Z -> result A).

(** [I R acc]: after the registers [R]. *)
Context (I : list Z -> A -> Prop).

Definition runs_ok : Prop :=
  (forall R acc n, I R acc -> 1 <= n -> zlen R + n <= 16384 ->
     exists acc', on_zero acc (zlen R) n = Ok acc' /\ I (R ++ replicate (Z.to_nat n) 0) acc') /\
  (forall R acc n v, I R acc -> 1 <= n -> 1 <= v <= 32 -> zlen R + n <= 16384 ->
     exists acc', on_val acc (zlen R) n v = Ok acc' /\ I (R ++ replicate (Z.to_nat n) v) acc').

Lemma opcode_loop_ends : runs_ok -> forall ops fuel pre post R acc end_, Forall op_ok ops -> (length ops <= fuel)%nat ->
  loop_end (zlen pre) ops end_ -> zlen R + zlen (expand ops) <= 16384 -> I R acc ->
  exists acc', opcode_loop fuel on_zero on_val (pre ++ encode ops ++ post) (zlen pre) end_ (zlen R) acc = Ok (acc', zlen R + zlen (expand ops), true) /\
    I (R ++ expand ops) acc'.
Proof.
  intros [Hz Hv]. induction ops as [|o ops IH]; intros fuel pre post R acc end_ Ho Hf He Hr HI.
  - exists acc. change (zlen (expand [])) with 0. apply loop_end_nil in He. rewrite Z.add_0_r, app_nil_r.
    destruct fuel; cbn [opcode_loop]; by rewrite (proj2 (Z.ltb_ge _ _)) by lia.
  - apply list.Forall_cons in Ho as [Ho Hos]. destruct fuel as [|fuel]; [cbn [length] in Hf; lia|].
    apply (loop_end_cons _ _ _ _ Ho Hos) in He as [Hlt He].
    change (encode (o :: ops)) with (op_bytes o ++ encode ops) in *. change (expand (o :: ops)) with (op_regs o ++ expand ops) in *.
    rewrite zlen_app in Hr. rewrite op_regs_len in Hr by done. pose proof (zlen_nonneg (encode ops)). pose proof (zlen_nonneg (expand ops)).
    pose proof (op_bytes_pos o Ho). pose proof (op_len_pos o Ho).
    specialize (IH fuel (pre ++ op_bytes o) post (R ++ op_regs o)). rewrite !zlen_app, op_regs_len in IH by done.
    rewrite <- !app_assoc in IH. rewrite <- app_assoc. cbn [length] in Hf.
    cbn [opcode_loop]. rewrite (proj2 (Z.ltb_lt _ _)) by lia. change HLL_REGISTERS with 16384. rewrite zlen_app, op_regs_len by done. rewrite Z.add_assoc.
    destruct o as [n|n|v n]; cbn [op_bytes op_len op_ok] in *.
    + destruct (zero_byte n Ho) as (b & E & _ & B1 & B2 & B3 & B4). rewrite E in *. change (zlen [b]) with 1 in *. cbn [app].
      rewrite rd1_mid by done. runr. rewrite B1, B4. rewrite Z.gtb_ltb, (proj2 (Z.ltb_ge _ _)) by lia.
      destruct (Hz R acc n HI) as (acc1 & -> & HI1); [lia|lia|]. runr. apply IH; (done || lia).
    + destruct (xzero_bytes n Ho) as (b & b1 & E & _ & _ & B1 & B2 & B3 & B4). rewrite E in *. change (zlen [b; b1]) with 2 in *. cbn [app].
      rewrite rd1_mid by done. runr. rewrite B1, B2. rewrite (cons_middle b), app_assoc, rd1_mid by (rewrite zlen_app, zlen_one; lia). runr.
      rewrite B4. rewrite Z.gtb_ltb, (proj2 (Z.ltb_ge _ _)) by lia. rewrite <- app_assoc. cbn [app].
      destruct (Hz R acc n HI) as (acc1 & -> & HI1); [lia|lia|]. runr. apply IH; (done || lia).
    + destruct Ho as [Ho1 Ho2]. destruct (val_byte v n Ho1 Ho2) as (b & E & _ & B1 & B2 & B3 & B4 & B5). rewrite E in *. change (zlen [b]) with 1 in *. cbn [app].
      rewrite rd1_mid by done. runr. rewrite B1, B2, B4, B5. rewrite Z.gtb_ltb, (proj2 (Z.ltb_ge _ _)) by lia.
      destruct (Hv R acc n v HI) as (acc1 & -> & HI1); [lia|lia|lia|]. runr. apply IH; (done || lia).
Qed.

Lemma opcode_loop_ok : runs_ok -> forall ops fuel pre post R acc end_, Forall op_ok ops -> (length ops <= fuel)%nat ->
  end_ = zlen pre + zlen (encode ops) -> zlen R + zlen (expand ops) <= 16384 -> I R acc ->
  exists acc', opcode_loop fuel on_zero on_val (pre ++ encode ops ++ post) (zlen pre) end_ (zlen R) acc = Ok (acc', zlen R + zlen (expand ops), true) /\
    I (R ++ expand ops) acc'.
Proof. intros Hr ops fuel pre post R acc end_ Ho Hf He. apply opcode_loop_ends; [done..|by left]. Qed.
End decode.

(** A run of registers, one by one. *)
Lemma run_loop_ok {A} (f : A -> Z -> result A) (J : Z -> A -> Prop) : forall n i acc, J i acc ->
  (forall j a, i <= j < i + Z.of_nat n -> J j a -> exists a', f a j = Ok a' /\ J (j + 1) a') ->
  exists acc', run_loop n f i acc = Ok acc' /\ J (i + Z.of_nat n) acc'.
Proof.
  induction n as [|n IH]; intros i acc HJ Hf; cbn [run_loop]; [exists acc; by rewrite Z.add_0_r|].
  destruct (Hf i acc) as (a' & -> & HJ'); [lia|done|]. runr. destruct (IH (i + 1) a' HJ') as (acc' & E & H).
  - intros j a Hj. apply Hf. lia.
  - exists acc'. split; [done|]. by replace (i + Z.of_nat (S n)) with (i + 1 + Z.of_nat n) by lia.
Qed.

(** * Locating a register *)

Lemma locate_ends index : forall ops fuel pre post prev first span end_, Forall op_ok ops -> (length ops <= fuel)%nat ->
  loop_end (zlen pre) ops end_ -> first <= index < first + zlen (expand ops) ->
  exists a o b, ops = a ++ o :: b /\ first + zlen (expand a) <= index < first + zlen (expand a) + op_len o /\
    locate fuel (pre ++ encode ops ++ post) (zlen pre) end_ prev first span index =
    Ok (zlen pre + zlen (encode a),
        match reverse a with [] => prev | x :: a' => Some (zlen pre + zlen (encode (reverse a'))) end,
        first + zlen (expand a), op_len o).
Proof.
  induction ops as [|o ops IH]; intros fuel pre post prev first span end_ Ho Hf He Hi.
  - change (zlen (expand [])) with 0 in Hi. lia.
  - apply list.Forall_cons in Ho as [Ho Hos]. destruct fuel as [|fuel]; [cbn [length] in Hf; lia|].
    apply (loop_end_cons _ _ _ _ Ho Hos) in He as [Hlt He].
    change (encode (o :: ops)) with (op_bytes o ++ encode ops) in *. change (expand (o :: ops)) with (op_regs o ++ expand ops) in *.
    rewrite zlen_app in Hi. rewrite op_regs_len in Hi by done. pose proof (zlen_nonneg (encode ops)). pose proof (op_bytes_pos o Ho).
    pose proof (op_len_pos o Ho). rewrite <- app_assoc. cbn [length] in Hf. cbn [locate]. rewrite (proj2 (Z.ltb_lt _ _)) by lia.
    assert (exists b, rd1 (pre ++ op_bytes o ++ encode ops ++ post) (zlen pre) = Ok b /\
      (if HLL_SPARSE_IS_ZERO b then Ok (HLL_SPARSE_ZERO_LEN b, 1)
       else if HLL_SPARSE_IS_VAL b then Ok (HLL_SPARSE_VAL_LEN b, 1)
       else let* b1 := rd1 (pre ++ op_bytes o ++ encode ops ++ post) (zlen pre + 1) in Ok (HLL_SPARSE_XZERO_LEN b b1, 2)) = Ok (op_len o, zlen (op_bytes o))) as (b & Eb & Es).
    { destruct o as [n|n|v n]; cbn [op_bytes op_len op_ok] in *.
      - destruct (zero_byte n Ho) as (b & -> & _ & B1 & B2 & B3 & B4). exists b. cbn [app]. rewrite rd1_mid by done. by rewrite B1, B4.
      - destruct (xzero_bytes n Ho) as (b & b1 & -> & _ & _ & B1 & B2 & B3 & B4). exists b. cbn [app]. rewrite rd1_mid by done. rewrite B1, B3.
        rewrite (cons_middle b), app_assoc, rd1_mid by (rewrite zlen_app, zlen_one; lia). runr. by rewrite B4.
      - destruct Ho as [Ho1 Ho2]. destruct (val_byte v n Ho1 Ho2) as (b & -> & _ & B1 & B2 & B3 & B4 & B5). exists b. cbn [app]. rewrite rd1_mid by done. by rewrite B1, B3, B5. }
    rewrite Eb. runr. rewrite Es. runr. destruct (Z.leb_spec index (first + op_len o - 1)) as [Hle|Hgt].
    + exists [], o, ops. split; [done|]. change (zlen (expand [])) with 0. change (zlen (encode [])) with 0. rewrite !Z.add_0_r. split; [lia|]. done.
    + destruct (IH fuel (pre ++ op_bytes o) post (Some (zlen pre)) (first + op_len o) (op_len o) end_) as (a & o' & b' & E & Hi' & El);
        [done|lia|by rewrite zlen_app|lia|].
      exists (o :: a), o', b'. split; [by rewrite E|].
      change (encode (o :: a)) with (op_bytes o ++ encode a). change (expand (o :: a)) with (op_regs o ++ expand a). rewrite !zlen_app, op_regs_len by done.
      rewrite <- app_assoc, zlen_app in El. split; [lia|]. rewrite El, reverse_cons. rewrite !Z.add_assoc. do 2 f_equal. f_equal. f_equal.
      destruct (reverse a) as [|x a']; cbn [app].
      * change (encode (reverse [])) with (@nil Z). by rewrite zlen_nil, Z.add_0_r.
      * rewrite reverse_app. change (reverse [o]) with [o]. cbn [app]. change (encode (o :: reverse a')) with (op_bytes o ++ encode (reverse a')).
        rewrite zlen_app. f_equal. lia.
Qed.

Lemma locate_ok index : forall ops fuel pre post prev first span end_, Forall op_ok ops -> (length ops <= fuel)%nat ->
  end_ = zlen pre + zlen (encode ops) -> first <= index < first + zlen (expand ops) ->
  exists a o b, ops = a ++ o :: b /\ first + zlen (expand a) <= index < first + zlen (expand a) + op_len o /\
    locate fuel (pre ++ encode ops ++ post) (zlen pre) end_ prev first span index =
    Ok (zlen pre + zlen (encode a),
        match reverse a with [] => prev | x :: a' => Some (zlen pre + zlen (encode (reverse a'))) end,
        first + zlen (expand a), op_len o).
Proof. intros ops fuel pre post prev first span end_ Ho Hf He. apply locate_ends; [done..|by left]. Qed.

(** * Splitting an opcode *)

Definition is_val_op (o : opcode) : bool := match o with OVal _ _ => true | _ => false end.

(** The shorter run of the same value. *)
Definition run_op (o : opcode) (k : Z) : opcode :=
  match o with OVal v _ => OVal v k | _ => if k >? 64 then OXZero k else OZero k end.

Definition split_ops (o : opcode) (k count : Z) : list opcode :=
  (if k =? 0 then [] else [run_op o k]) ++ OVal count 1 :: (if k =? op_len o - 1 then [] else [run_op o (op_len o - 1 - k)]).

Lemma run_opcode_ok o k : op_ok o -> 1 <= k < op_len o ->
  op_ok (run_op o k) /\ op_regs (run_op o k) = replicate (Z.to_nat k) (op_val o) /\
  zlen (op_bytes (run_op o k)) <= zlen (op_bytes o) /\
  (forall v, (is_val_op o = true -> v = op_val o) ->
     (if is_val_op o then HLL_SPARSE_VAL_SET v k else zero_run k) = op_bytes (run_op o k)).
Proof.
  intros Ho Hk. destruct o as [n|n|v n]; cbn [op_ok op_len run_op is_val_op op_val] in *.
  1, 2: unfold zero_run; change HLL_SPARSE_ZERO_MAX_LEN with 64; rewrite !Z.gtb_ltb; destruct (Z.ltb_spec 64 k) as [H64|H64]; try (exfalso; lia);
    cbn [op_ok]; (split; [lia|]); (split; [done|]); split; done.
  split; [lia|]. split; [done|]. split; [done|]. intros w Hw. by rewrite (Hw eq_refl).
Qed.

Lemma split_ok o v first index count : op_ok o -> 1 <= count <= 32 -> first <= index < first + op_len o -> (is_val_op o = true -> v = op_val o) ->
  let nops := split_ops o (index - first) count in
  split_opcode (is_val_op o) v first (first + op_len o - 1) index count = encode nops /\
  Forall op_ok nops /\ expand nops = <[Z.to_nat (index - first) := count]> (op_regs o) /\
  1 <= zlen (encode nops) <= 5 /\ zlen (encode nops) - zlen (op_bytes o) <= 3.
Proof.
  intros Ho Hc Hi Hv nops. unfold nops, split_ops, split_opcode. set (k := index - first).
  replace (index =? first) with (k =? 0) by (unfold k; repeat case_bool; lia).
  replace (index =? first + op_len o - 1) with (k =? op_len o - 1) by (unfold k; repeat case_bool; lia).
  replace (first + op_len o - 1 - index) with (op_len o - 1 - k) by lia.
  assert (op_ok (OVal count 1)) as Hoc by (cbn; lia). pose proof (op_bytes_pos o Ho) as Hb.
  unfold op_regs at 1. rewrite insert_replicate_lt by lia. rewrite (encode_app _ (_ :: _)), (expand_app _ (_ :: _)).
  assert (forall k', 1 <= k' < op_len o -> Forall op_ok [run_op o k'] /\ encode [run_op o k'] = (if is_val_op o then HLL_SPARSE_VAL_SET v k' else zero_run k') /\
    expand [run_op o k'] = replicate (Z.to_nat k') (op_val o) /\ zlen (encode [run_op o k']) <= zlen (op_bytes o)) as Hrun.
  { intros k' Hk'. destruct (run_opcode_ok o k' Ho Hk') as (R1 & R2 & R3 & R4). unfold encode, expand. cbn [map concat]. rewrite !app_nil_r.
    split; [by repeat constructor|]. split; [by rewrite R4|]. by split. }
  change (encode (OVal count 1 :: ?b)) with (HLL_SPARSE_VAL_SET count 1 ++ encode b).
  set (L := if k =? 0 then [] else [run_op o k]). set (R := if k =? op_len o - 1 then [] else [run_op o (op_len o - 1 - k)]).
  change (encode (OVal count 1 :: R)) with (HLL_SPARSE_VAL_SET count 1 ++ encode R). change (expand (OVal count 1 :: R)) with (count :: expand R).
  assert (Forall op_ok L /\ encode L = (if k =? 0 then [] else if is_val_op o then HLL_SPARSE_VAL_SET v k else zero_run k) /\
    expand L = replicate (Z.to_nat k) (op_val o) /\ zlen (encode L) <= zlen (op_bytes o)) as (L1 & L2 & L3 & L4).
  { unfold L. destruct (Z.eqb_spec k 0) as [->|]; [split_and!; [constructor|done|done|change (zlen (encode [])) with 0; lia]|]. destruct (Hrun k) as (? & ? & ? & ?); [lia|]. auto. }
  assert (Forall op_ok R /\ encode R = (if k =? op_len o - 1 then [] else if is_val_op o then HLL_SPARSE_VAL_SET v (op_len o - 1 - k) else zero_run (op_len o - 1 - k)) /\
    expand R = replicate (Z.to_nat (op_len o) - S (Z.to_nat k)) (op_val o) /\ zlen (encode R) <= zlen (op_bytes o)) as (R1 & R2 & R3 & R4).
  { unfold R. destruct (Z.eqb_spec k (op_len o - 1)) as [->|].
    - replace (Z.to_nat (op_len o) - S (Z.to_nat (op_len o - 1)))%nat with 0%nat by lia. split_and!; [constructor|done|done|change (zlen (encode [])) with 0; lia].
    - destruct (Hrun (op_len o - 1 - k)) as (? & ? & -> & ?); [lia|]. split; [done|]. split; [done|]. split; [f_equal; lia|done]. }
  rewrite <- L2, <- R2, L3, R3. split; [done|]. split; [apply Forall_app; split; [done|by constructor]|]. split; [done|].
  rewrite !zlen_app. change (zlen (HLL_SPARSE_VAL_SET count 1)) with 1. pose proof (zlen_nonneg (encode L)). pose proof (zlen_nonneg (encode R)). lia.
Qed.
