(* ===== verification/HllSet.v ===== *)
(** HllSet: writing a register of a sparse string of Hll.v.

    Opcodes are replaced in place, which moves the rest of the string inside its
    block; then neighbours of the same value are merged. *)

From Stdlib Require Import ZArith Lia Bool.
From stdpp Require Import base list numbers decidable.
From S2P Require Import Prelude Bytes Sds SdsProofs SdsOps Hll HllBits HllHisto HllSparse.

Local Open Scope Z_scope.

(** * Edits inside a string *)

(** [s'] is [s] with other contents. *)
Definition edited (s s' : sds) (l : list Z) : Prop := holds s' l /\ s_type s' = s_type s /\ s_alloc s' = s_alloc s.

Lemma edit_block s l l' buf : holds s l -> zlen buf = zlen (s_buf s) -> zlen l' <= sdsTypeMaxSize (s_type s) -> starts buf l' ->
  edited s {| s_type := s_type s; s_len := zlen l'; s_alloc := s_alloc s; s_buf := buf |} l'.
Proof.
  intros Hs Hz Hm Hst. pose proof (holds_elim s l Hs) as (_ & Ht & _ & _ & Hb & Ha). split; [|done].
  apply holds_intro; try done; [by rewrite Hz|]. intros H5. rewrite Hz. by apply Ha.
Qed.

Lemma holds_buf s l : holds s l -> exists rest, s_buf s = l ++ 0 :: rest.
Proof. intros (_ & _ & _ & Hst & _)%holds_elim. by apply starts_split. Qed.

Lemma overwrite s A x B y : holds s (A ++ x ++ B) -> zlen y = zlen x ->
  exists s', put_bytes s (zlen A) y (zlen y) = Ok s' /\ edited s s' (A ++ y ++ B).
Proof.
  intros Hs Hy. destruct (holds_buf _ _ Hs) as [rest E]. pose proof (zlen_nonneg y). unfold put_bytes. rewrite rdn_prefix by lia. runr. rewrite take_ge by (unfold zlen; lia).
  rewrite <- !app_assoc in E. rewrite E, (wrn_mid A x y) by done. runr. eexists. split; [done|].
  pose proof (holds_elim _ _ Hs) as (_ & _ & Hm & _). rewrite !zlen_app in Hm.
  assert (set_buf s (A ++ y ++ B ++ 0 :: rest) = {| s_type := s_type s; s_len := zlen (A ++ y ++ B); s_alloc := s_alloc s; s_buf := A ++ y ++ B ++ 0 :: rest |}) as ->.
  { unfold set_buf. f_equal. rewrite (holds_len _ _ Hs), !zlen_app. lia. }
  apply (edit_block s (A ++ x ++ B)); [done|rewrite E, !zlen_app; lia|rewrite !zlen_app; lia|].
  apply starts_split. exists rest. by rewrite <- !app_assoc.
Qed.

Lemma overwrite_byte s A x B y : holds s (A ++ x :: B) ->
  exists s', put_byte s (zlen A) y = Ok s' /\ edited s s' (A ++ y :: B).
Proof.
  intros Hs. destruct (holds_buf _ _ Hs) as [rest E]. rewrite <- app_assoc in E. cbn [app] in E. unfold put_byte. rewrite E, wr1_mid by done. runr. eexists. split; [done|].
  pose proof (holds_elim _ _ Hs) as (_ & _ & Hm & _). rewrite zlen_app, zlen_cons in Hm.
  assert (set_buf s (A ++ y :: B ++ 0 :: rest) = {| s_type := s_type s; s_len := zlen (A ++ y :: B); s_alloc := s_alloc s; s_buf := A ++ y :: B ++ 0 :: rest |}) as ->.
  { unfold set_buf. f_equal. rewrite (holds_len _ _ Hs), !zlen_app, !zlen_cons. lia. }
  apply (edit_block s (A ++ x :: B)); [done|rewrite E, !zlen_app, !zlen_cons, !zlen_app; lia|rewrite zlen_app, zlen_cons; lia|].
  apply starts_split. exists rest. by rewrite <- app_assoc.
Qed.

Lemma read_byte s A x B : holds s (A ++ x :: B) -> rd1 (s_buf s) (zlen A) = Ok x.
Proof. intros [rest E]%holds_buf. rewrite <- app_assoc in E. rewrite E. by apply rd1_mid. Qed.

(** sdsIncrLen writes the terminator. *)
Lemma incrLen_put s l buf d : holds s l -> zlen buf = zlen (s_buf s) -> 0 <= zlen l + d -> (s_type s = SDS_TYPE_5 -> d < 0) ->
  (s_type s <> SDS_TYPE_5 -> zlen l + d <= s_alloc s) ->
  sdsIncrLen (set_buf s buf) d =
  Ok {| s_type := s_type s; s_len := zlen l + d; s_alloc := s_alloc s; s_buf := <[Z.to_nat (zlen l + d) := 0]> buf |} /\
  zlen l + d + 1 <= zlen buf /\ zlen l + d <= sdsTypeMaxSize (s_type s).
Proof.
  intros Hs Hz Hd H5 Ha. pose proof (holds_elim s l Hs) as (_ & Ht & Hm & Hst & Hb & Hal). pose proof (starts_length _ _ Hst). pose proof (zlen_nonneg l).
  assert (zlen l + d + 1 <= zlen buf /\ zlen l + d <= sdsTypeMaxSize (s_type s)) as [Hl Hmax].
  { destruct (Z.eq_dec (s_type s) SDS_TYPE_5) as [e|ne]; [specialize (H5 e); lia|]. specialize (Ha ne). destruct (Hal ne). lia. }
  split; [|done]. rewrite incrLen_raw; cbn [set_buf s_type s_len s_alloc s_buf]; rewrite ?(holds_len _ _ Hs).
  - unfold put_byte. cbn [s_buf]. rewrite wr1_ok by lia. done.
  - done.
  - done.
  - lia.
  - lia.
  - intros ne. destruct (Hal ne). destruct (avail_ok s l Hs ne). specialize (Ha ne). lia.
Qed.

(** Three writes: the rest of the string to its new place, the terminator, the new
    bytes. *)
Lemma splice_ok s A x B y : holds s (A ++ x ++ B) ->
  let delta := zlen y - zlen x in
  let next := zlen A + zlen x in
  (s_type s = SDS_TYPE_5 -> delta < 0) -> (s_type s <> SDS_TYPE_5 -> zlen A + zlen y + zlen B <= s_alloc s) ->
  exists s1 s2 s',
    match (if next >=? zlen (A ++ x ++ B) then None else Some next) with
    | Some next => if delta =? 0 then Ok s else move_bytes s (next + delta) next (zlen (A ++ x ++ B) - next)
    | None => Ok s
    end = Ok s1 /\
    sdsIncrLen s1 delta = Ok s2 /\ put_bytes s2 (zlen A) y (zlen y) = Ok s' /\ edited s s' (A ++ y ++ B).
Proof.
  intros Hs delta next H5 Ha. pose proof (zlen_nonneg A) as HA. pose proof (zlen_nonneg x) as Hx. pose proof (zlen_nonneg B) as HB. pose proof (zlen_nonneg y) as Hy.
  pose proof (holds_elim _ _ Hs) as (_ & Ht & Hm & Hst & Hb & Hal). destruct (holds_buf _ _ Hs) as [rest E]. rewrite <- !app_assoc in E.
  assert (s_buf s = (A ++ x) ++ B ++ 0 :: rest) as E' by (by rewrite <- app_assoc). assert (zlen (A ++ x ++ B) = zlen A + zlen x + zlen B) as HL by (rewrite !zlen_app; lia). rewrite HL in Hm |- *.
  assert (zlen (s_buf s) = zlen A + zlen x + zlen B + 1 + zlen rest) as HZ by (rewrite E, !zlen_app, zlen_cons; lia). pose proof (zlen_nonneg rest).
  assert (zlen A + zlen y + zlen B + 1 <= zlen (s_buf s)) as Hfit.
  { destruct (Z.eq_dec (s_type s) SDS_TYPE_5) as [e|ne]; [specialize (H5 e); lia|]. specialize (Ha ne). destruct (Hal ne). lia. }
  set (buf1 := take (Z.to_nat (zlen A + zlen y)) (s_buf s) ++ B ++ drop (Z.to_nat (zlen A + zlen y) + length B) (s_buf s)).
  assert (match (if next >=? zlen A + zlen x + zlen B then None else Some next) with
    | Some next => if delta =? 0 then Ok s else move_bytes s (next + delta) next (zlen A + zlen x + zlen B - next)
    | None => Ok s end = Ok (set_buf s buf1)) as ->.
  { rewrite Z.geb_leb. destruct (Z.leb_spec (zlen A + zlen x + zlen B) next) as [Hle|Hgt].
    - assert (B = []) as -> by (apply zlen_nil_inv; lia). unfold buf1. cbn [app length]. rewrite Nat.add_0_r, take_drop. by rewrite set_buf_same.
    - destruct (Z.eqb_spec delta 0) as [Hd|Hd].
      + unfold buf1. f_equal. replace (zlen A + zlen y) with (zlen (A ++ x)) by (rewrite zlen_app; lia). rewrite E'. unfold zlen. rewrite Nat2Z.id, take_app_length.
        rewrite drop_app_add, drop_app_length. rewrite <- E'. by rewrite set_buf_same.
      + unfold move_bytes, memmove. rewrite E', (rdn_mid (A ++ x) B) by (rewrite ?zlen_app; lia). runr. rewrite <- E'. unfold wrn. dec_bool. runr.
        do 2 f_equal. unfold buf1. by replace (next + delta) with (zlen A + zlen y) by lia. }
  exists (set_buf s buf1). assert (zlen buf1 = zlen (s_buf s)) as Hz1.
  { unfold buf1. rewrite !zlen_app, zlen_take by lia. unfold zlen in *. rewrite length_drop. lia. }
  destruct (incrLen_put s (A ++ x ++ B) buf1 delta Hs Hz1) as (Ei & Hi1 & Hi2); rewrite ?HL; [lia|done|intros ne; specialize (Ha ne); lia|].
  rewrite HL in Ei, Hi1, Hi2. assert (zlen A + zlen x + zlen B + delta = zlen A + zlen y + zlen B) as Hnl by lia. rewrite Hnl in *.
  set (buf2 := <[Z.to_nat (zlen A + zlen y + zlen B) := 0]> buf1) in *.
  assert (exists mid tl, buf2 = A ++ mid ++ B ++ 0 :: tl /\ zlen mid = zlen y) as (mid & tl & E2 & Hmid).
  { assert (exists mid, take (Z.to_nat (zlen A + zlen y)) (s_buf s) = A ++ mid /\ zlen mid = zlen y) as (mid & Em & Hmid).
    { exists (take (length y) (drop (length A) (s_buf s))). replace (Z.to_nat (zlen A + zlen y)) with (length A + length y)%nat by (unfold zlen; lia).
      rewrite <- take_take_drop. split.
      - f_equal. by rewrite E, take_app_length.
      - unfold zlen in *. rewrite length_take, length_drop. lia. }
    exists mid. assert (zlen (drop (Z.to_nat (zlen A + zlen y) + length B) (s_buf s)) = zlen (s_buf s) - (zlen A + zlen y + zlen B)) as Hd by (unfold zlen in *; rewrite length_drop; lia).
    destruct (drop (Z.to_nat (zlen A + zlen y) + length B) (s_buf s)) as [|z tl] eqn:Ed; [rewrite zlen_nil in Hd; lia|]. exists tl. split; [|done].
    unfold buf2, buf1. rewrite ?Ed, Em, <- app_assoc. rewrite (insert_app_r_alt A) by (unfold zlen; lia). f_equal.
    rewrite (insert_app_r_alt mid) by (unfold zlen in *; lia). f_equal. rewrite (insert_app_r_alt B) by (unfold zlen in *; lia). f_equal.
    replace (_ - _ - _ - _)%nat with 0%nat by (unfold zlen in *; lia). done. }
  eexists _, _. split; [done|]. split; [exact Ei|].
  unfold put_bytes. cbn [s_buf]. rewrite rdn_prefix by lia. runr. rewrite take_ge by (unfold zlen; lia).
  rewrite E2, (wrn_mid A mid y) by lia. runr. split; [reflexivity|].
  unfold set_buf. cbn [s_type s_len s_alloc s_buf]. replace (zlen A + zlen y + zlen B) with (zlen (A ++ y ++ B)) by (rewrite !zlen_app; lia).
  apply (edit_block s (A ++ x ++ B)); [done| |rewrite !zlen_app; lia|].
  - assert (zlen buf2 = zlen (s_buf s)) as Hz2 by (unfold buf2; by rewrite zlen_insert). rewrite <- Hz2, E2, !zlen_app. lia.
  - apply starts_split. exists tl. by rewrite <- !app_assoc.
Qed.

Lemma edited_trans s s1 s2 l l1 : edited s s1 l1 -> edited s1 s2 l -> edited s s2 l.
Proof. intros (_ & H1 & H2) (H3 & H4 & H5). split; [done|]. split; congruence. Qed.

Lemma edited_refl s l : holds s l -> edited s s l.
Proof. by intros Hs. Qed.

(** * Merging neighbours *)

(** Two bytes become one. *)
Lemma merge_pair s A b b1 B c : holds s (A ++ b :: b1 :: B) ->
  exists s1 s2 s3, put_bytes s (zlen A + 1) [c] 1 = Ok s1 /\ move_bytes s1 (zlen A) (zlen A + 1) (zlen (A ++ b :: b1 :: B) - zlen A) = Ok s2 /\
    sdsIncrLen s2 (-1) = Ok s3 /\ edited s s3 (A ++ c :: B).
Proof.
  intros Hs. pose proof (zlen_nonneg A). pose proof (zlen_nonneg B). rewrite (cons_middle b), (cons_middle b1), app_assoc in Hs.
  destruct (overwrite s (A ++ [b]) [b1] B [c] Hs eq_refl) as (s1 & E1 & He1). rewrite zlen_app in E1. change (zlen [b]) with 1 in E1. change (zlen [c]) with 1 in E1.
  exists s1. pose proof He1 as (H1 & T1 & A1). rewrite <- app_assoc in H1. cbn [app] in H1. destruct (holds_buf _ _ H1) as [rest E]. rewrite <- app_assoc in E. cbn [app] in E.
  rewrite zlen_app, !zlen_cons. set (buf2 := A ++ c :: B ++ 0 :: 0 :: rest).
  assert (move_bytes s1 (zlen A) (zlen A + 1) (zlen A + (1 + (1 + zlen B)) - zlen A) = Ok (set_buf s1 buf2)) as E2.
  { unfold move_bytes, memmove. rewrite E. replace (A ++ b :: c :: B ++ 0 :: rest) with ((A ++ [b]) ++ (c :: B ++ [0]) ++ rest) by (rewrite <- !app_assoc; cbn [app]; by rewrite <- app_assoc).
    rewrite rdn_mid by (rewrite ?zlen_app, ?zlen_cons, ?zlen_app, ?zlen_cons, ?zlen_nil; lia). runr.
    replace ((A ++ [b]) ++ (c :: B ++ [0]) ++ rest) with (A ++ ([b; c] ++ B) ++ 0 :: rest) by (rewrite <- !app_assoc; cbn [app]; by rewrite <- app_assoc).
    rewrite wrn_mid by (rewrite ?zlen_cons, ?zlen_app, ?zlen_cons, ?zlen_nil; lia). runr. unfold buf2. cbn [app]. by rewrite <- app_assoc. }
  exists (set_buf s1 buf2). assert (zlen buf2 = zlen (s_buf s1)) as Hz by (unfold buf2; rewrite E, !zlen_app, !zlen_cons, !zlen_app, !zlen_cons; lia).
  destruct (incrLen_put s1 _ buf2 (-1) H1 Hz) as (E3 & F1 & F2).
  - rewrite zlen_app, !zlen_cons. lia.
  - done.
  - intros ne. destruct (avail_ok _ _ H1 ne) as [_ Hle]. lia.
  - rewrite zlen_app, !zlen_cons in E3, F1, F2. eexists. split; [exact E1|]. split; [exact E2|]. split; [exact E3|]. apply (edited_trans s s1 _ _ _ He1).
    replace (zlen A + (1 + (1 + zlen B)) + -1) with (zlen (A ++ c :: B)) in * by (rewrite zlen_app, zlen_cons; lia).
    apply (edit_block s1 _ _ _ H1); [by rewrite zlen_insert|done|]. apply starts_split. exists (0 :: rest).
    unfold buf2. replace (A ++ c :: B ++ 0 :: 0 :: rest) with ((A ++ c :: B) ++ 0 :: 0 :: rest) by (by rewrite <- app_assoc). unfold zlen. rewrite Nat2Z.id.
    rewrite insert_app_r_alt by lia. by rewrite Nat.sub_diag.
Qed.

Lemma next_val o ops : op_ok o -> exists b1 tl, encode (o :: ops) = b1 :: tl /\
  HLL_SPARSE_IS_VAL b1 = is_val_op o /\ (is_val_op o = true -> tl = encode ops /\ HLL_SPARSE_VAL_VALUE b1 = op_val o /\ HLL_SPARSE_VAL_LEN b1 = op_len o).
Proof.
  change (encode (o :: ops)) with (op_bytes o ++ encode ops). destruct o as [n|n|v n]; cbn [op_ok op_bytes is_val_op op_val op_len]; intros Ho.
  - destruct (zero_byte n Ho) as (b & -> & _ & B1 & B2 & B3 & B4). exists b. eexists. split; [done|]. by split.
  - destruct (xzero_bytes n Ho) as (b & b1 & -> & _ & _ & B1 & B2 & B3 & B4). exists b. eexists. split; [done|]. by split.
  - destruct Ho as [Ho1 Ho2]. destruct (val_byte v n Ho1 Ho2) as (b & -> & _ & B1 & B2 & B3 & B4 & B5). exists b. eexists. split; [done|]. split; [done|]. auto.
Qed.

Lemma expand_merge v n m ops : 1 <= n -> 1 <= m -> expand (OVal v n :: OVal v m :: ops) = expand (OVal v (n + m) :: ops).
Proof.
  intros Hn Hm. unfold expand. cbn [map concat]. rewrite app_assoc. f_equal. unfold op_regs. cbn [op_len op_val].
  rewrite <- replicate_add. f_equal. lia.
Qed.

(** What the scan does with the opcode in front of it: it goes on, or merges. *)
Definition merged_into (s : sds) (P : list Z) (ops : list opcode) (r : result sds) : Prop :=
  exists s' ops', r = Ok s' /\ edited s s' (P ++ encode ops') /\ Forall op_ok ops' /\ expand ops' = expand ops.

Lemma merged_skip s P o ops r : op_ok o -> merged_into s (P ++ op_bytes o) ops r -> merged_into s P (o :: ops) r.
Proof.
  intros Ho (s' & ops' & Er & He & Hf & Hx). exists s', (o :: ops'). split; [done|]. rewrite <- app_assoc in He. split; [done|]. split; [by constructor|].
  change (expand (o :: ops')) with (op_regs o ++ expand ops'). by rewrite Hx.
Qed.

Lemma merge_loop_ok : forall n ops s P, holds s (P ++ encode ops) -> Forall op_ok ops ->
  merged_into s P ops (merge_loop n s (zlen P) (zlen P + zlen (encode ops))).
Proof.
  induction n as [|n IH]; intros ops s P Hs Hf.
  { cbn [merge_loop]. exists s, ops. split; [by case_bool|]. split; [by apply edited_refl|done]. }
  cbn [merge_loop]. destruct ops as [|o ops].
  { change (zlen (encode [])) with 0. rewrite (proj2 (Z.ltb_ge _ _)) by lia. exists s, []. split; [done|]. split; [by apply edited_refl|done]. }
  apply list.Forall_cons in Hf as [Ho Hf]. change (encode (o :: ops)) with (op_bytes o ++ encode ops) in *. rewrite zlen_app. pose proof (op_bytes_pos o Ho). pose proof (zlen_nonneg (encode ops)).
  rewrite (proj2 (Z.ltb_lt _ _)) by lia. assert (merged_into s P (o :: ops) (merge_loop n s (zlen P + zlen (op_bytes o)) (zlen P + (zlen (op_bytes o) + zlen (encode ops))))) as Hskip.
  { apply merged_skip; [done|]. pose proof (IH ops s (P ++ op_bytes o)) as E. rewrite <- app_assoc, zlen_app in E. replace (zlen P + (zlen (op_bytes o) + zlen (encode ops))) with (zlen P + zlen (op_bytes o) + zlen (encode ops)) by lia. by apply E. }
  destruct o as [k|k|v k]; cbn [op_ok op_bytes] in *.
  - destruct (zero_byte k Ho) as (b & E & _ & B1 & B2 & B3 & B4). rewrite E in *. cbn [app] in Hs. rewrite (read_byte s P b _ Hs). runr. by rewrite B2, B1.
  - destruct (xzero_bytes k Ho) as (b & b1 & E & _ & _ & B1 & B2 & B3 & B4). rewrite E in *. cbn [app] in Hs. rewrite (read_byte s P b _ Hs). runr. by rewrite B2.
  - pose proof Ho as [Ho1 Ho2]. destruct (val_byte v k Ho1 Ho2) as (b & E & _ & B1 & B2 & B3 & B4 & B5). rewrite E in *. change (zlen [b]) with 1 in *. cbn [app] in Hs.
    rewrite (read_byte s P b _ Hs). runr. rewrite B2, B1, B4, B5. destruct ops as [|o' ops].
    { change (zlen (encode [])) with 0 in *. rewrite (proj2 (Z.ltb_ge _ _)) by lia. by runr. }
    apply list.Forall_cons in Hf as [Ho' Hf]. destruct (next_val o' ops Ho') as (b1 & tl & E1 & C1 & C2). rewrite E1 in *. rewrite zlen_cons in *. pose proof (zlen_nonneg tl).
    rewrite (proj2 (Z.ltb_lt _ _)) by lia. pose proof Hs as Hs'. rewrite (cons_middle b), app_assoc in Hs'. pose proof (read_byte s _ b1 _ Hs') as Er.
    rewrite zlen_app in Er. change (zlen [b]) with 1 in Er. rewrite Er. runr. rewrite C1. destruct (is_val_op o') eqn:Ev; [|exact Hskip]. destruct (C2 eq_refl) as (Et & C3 & C4). rewrite C3, C4. cbn [andb].
    destruct (Z.eqb_spec v (op_val o')) as [Hv|Hv]; [|exact Hskip]. cbn [andb]. change HLL_SPARSE_VAL_MAX_LEN with 4.
    destruct (Z.leb_spec (k + op_len o') 4) as [H4|H4]; [|exact Hskip]. subst tl. clear Hskip. pose proof (op_len_pos _ Ho').
    destruct (val_byte v (k + op_len o')) as (c & Ec & _ & _); [done|lia|]. rewrite Ec.
    destruct (merge_pair s P b b1 (encode ops) c Hs) as (s1 & s2 & s3 & -> & M2 & M3 & M4). runr. rewrite zlen_app, !zlen_cons in M2.
    rewrite M2. runr. rewrite M3. runr.
    assert (op_ok (OVal v (k + op_len o'))) as Hov by (cbn; lia). pose proof M4 as (M5 & _ & _).
    assert (c :: encode ops = encode (OVal v (k + op_len o') :: ops)) as Eo.
    { change (encode (OVal v (k + op_len o') :: ops)) with (HLL_SPARSE_VAL_SET v (k + op_len o') ++ encode ops). by rewrite Ec. }
    rewrite Eo in M5. destruct (IH (OVal v (k + op_len o') :: ops) s3 P M5) as (s' & ops' & Em & He & Hf' & Hx); [by constructor|].
    exists s', ops'. split.
    + rewrite <- Em. f_equal. rewrite <- Eo, zlen_cons. lia.
    + split; [by apply (edited_trans s s3 s' _ _ M4)|]. split; [done|]. rewrite Hx. destruct o' as [?|?|v' m]; try done. cbn [op_val op_len] in *. rewrite <- Hv. symmetry. apply expand_merge; lia.
Qed.
