(* ===== verification/HllRep.v ===== *)
(** HllRep: the registers a HyperLogLog string of Hll.v stands for, dense or
    sparse, and the operations on one register. *)

From Stdlib Require Import ZArith Lia Bool.
From stdpp Require Import base list numbers decidable.
From S2P Require Import Prelude Bytes Sds SdsProofs SdsOps Hll HllBits HllHisto HllSparse HllSet.

Local Open Scope Z_scope.

(** * Representation *)

(** The bytes of struct hllhdr. *)
Record hdr_ok (hdr : list Z) : Prop := {
  ho_length : length hdr = 16%nat;
  ho_bytes : Forall is_byte hdr;
  ho_magic : take 4 hdr = [72; 89; 76; 76];
}.

(** A block with a header, dense registers and a terminator. *)
Record dense_buf (hdr R buf : list Z) : Prop := {
  db_split : exists body rest, buf = hdr ++ body ++ 0 :: rest /\ zlen body = 12288 /\ Forall is_byte body;
  db_regs : regs_of buf 16 = R;
}.

Definition dense_rep (s : sds) (hdr R : list Z) : Prop :=
  hdr !! 4%nat = Some 0 /\ (exists l, holds s l /\ zlen l = 12304) /\ dense_buf hdr R (s_buf s).

Definition sparse_rep (s : sds) (hdr R : list Z) : Prop :=
  hdr !! 4%nat = Some 1 /\ exists ops, holds s (hdr ++ encode ops) /\ Forall op_ok ops /\ expand ops = R.

Definition hll_rep (s : sds) (hdr R : list Z) : Prop :=
  hdr_ok hdr /\ length R = hll_n /\ (sparse_rep s hdr R \/ dense_rep s hdr R).

(** * Dense registers *)

Lemma dense_length hdr R buf : length hdr = 16%nat -> dense_buf hdr R buf -> 12305 <= zlen buf.
Proof.
  intros Hh [(body & rest & -> & Hb & _) _]. pose proof (zlen_nonneg rest). rewrite !zlen_app, zlen_cons. unfold zlen at 1. rewrite Hh. lia.
Qed.

Lemma byte_at_app a b k : 0 <= k < zlen a -> byte_at (a ++ b) k = byte_at a k.
Proof. intros Hk. unfold byte_at. rewrite lookup_app_l; [done|]. unfold zlen in Hk. lia. Qed.

Lemma byte_at_forall a k : Forall is_byte a -> 0 <= k < zlen a -> is_byte (byte_at a k).
Proof.
  intros Ha Hk. unfold byte_at. destruct (a !! Z.to_nat k) as [b|] eqn:E; [|apply lookup_ge_None in E; unfold zlen in Hk; lia].
  exact (proj1 (Forall_lookup _ _) Ha _ _ E).
Qed.

Lemma dense_bytes hdr R buf : hdr_ok hdr -> dense_buf hdr R buf -> byte_range buf 12305.
Proof.
  intros [Hh Hhb _] [(body & rest & -> & Hb & Hbb) _] k Hk. rewrite (cons_middle 0), !app_assoc. rewrite byte_at_app.
  - apply byte_at_forall; [|rewrite !zlen_app, Hb; unfold zlen; rewrite Hh; cbn; lia]. apply Forall_app. split; [apply Forall_app; by split|by repeat constructor].
  - rewrite !zlen_app, Hb. unfold zlen. rewrite Hh. cbn. lia.
Qed.

Lemma byte_at_lookup a b k : zlen a = zlen b -> byte_at a (Z.of_nat k) = byte_at b (Z.of_nat k) -> a !! k = b !! k.
Proof.
  intros Hz. unfold byte_at. rewrite Nat2Z.id. unfold zlen in Hz. destruct (a !! k) eqn:Ea, (b !! k) eqn:Eb; cbn; try congruence.
  - apply lookup_lt_Some in Ea. apply lookup_ge_None in Eb. lia.
  - apply lookup_lt_Some in Eb. apply lookup_ge_None in Ea. lia.
Qed.

(** Writing a register leaves the header and the terminator. *)
Lemma dense_write hdr R buf i v : hdr_ok hdr -> dense_buf hdr R buf -> (i < hll_n)%nat -> 0 <= v < 64 ->
  exists buf', HLL_DENSE_SET_REGISTER buf 16 (Z.of_nat i) v = Ok buf' /\ dense_buf hdr (<[i := v]> R) buf' /\ zlen buf' = zlen buf.
Proof.
  intros Hh Hd Hi Hv. pose proof (dense_length _ _ _ (ho_length _ Hh) Hd) as Hl. pose proof (dense_bytes _ _ _ Hh Hd) as Hb. pose proof (reg_byte_bound i Hi) as Hr. pose proof hll_n_eq.
  destruct (set_register_ok buf 16 (Z.of_nat i) v) as (buf' & E & Hs); [lia|lia|done|lia|]. exists buf'. split; [done|].
  pose proof (rs_length _ _ _ _ _ Hs) as Hz. pose proof (rs_bytes _ _ _ _ _ Hs 12305 Hl Hb) as Hb'. split; [|done]. constructor.
  2: { rewrite (regs_set buf buf' 16 i v Hs Hi) by (lia || (intros k Hk; apply Hb; lia)). f_equal. apply Hd. }
  assert (forall k, (k < 16)%nat \/ Z.of_nat k = 12304 -> buf' !! k = buf !! k) as Hsame.
  { intros k Hk. apply byte_at_lookup; [done|]. apply (set_other_byte _ _ _ _ _ 12305 _ Hs Hl Hb); lia. }
  destruct Hd as [(body & rest & -> & Hbl & Hbb) _]. destruct Hh as [Hh Hhb _]. set (m := Z.to_nat 12288). assert (Z.of_nat m = 12288) as Hm by (unfold m; lia). clearbody m.
  exists (take m (drop 16 buf')), (drop (S (16 + m)) buf'). rewrite (zlen_app hdr), zlen_app, zlen_cons, Hbl in Hz, Hl. unfold zlen at 2 in Hz. rewrite Hh in Hz.
  assert (length buf' = 16 + m + 1 + length rest)%nat as Hlen by (unfold zlen in Hz; lia). split; [|split].
  - rewrite <- (take_drop 16 buf') at 1. f_equal.
    + apply list_eq. intros k. destruct (decide (k < 16)%nat) as [Hk|Hk].
      * rewrite lookup_take_lt, Hsame by lia. by rewrite lookup_app_l by lia.
      * rewrite !lookup_ge_None_2; [done|lia|rewrite length_take; lia].
    + rewrite <- (take_drop m (drop 16 buf')) at 1. f_equal. rewrite drop_drop. apply drop_S.
      rewrite Hsame by lia. rewrite app_assoc, lookup_app_r by (rewrite length_app; unfold zlen in Hbl; lia).
      rewrite length_app. replace (16 + m - (length hdr + length body))%nat with 0%nat by (unfold zlen in Hbl; lia). done.
  - unfold zlen. rewrite length_take, length_drop. lia.
  - apply Forall_lookup. intros k b Hk. pose proof (lookup_lt_Some _ _ _ Hk) as Hlt. rewrite length_take, length_drop in Hlt. rewrite lookup_take_lt, lookup_drop in Hk by lia.
    specialize (Hb' (Z.of_nat (16 + k)) ltac:(lia)). unfold byte_at in Hb'. rewrite Nat2Z.id, Hk in Hb'. exact Hb'.
Qed.

Lemma dense_read hdr R buf i : hdr_ok hdr -> dense_buf hdr R buf -> (i < hll_n)%nat ->
  exists r, R !! i = Some r /\ is_reg r /\ HLL_DENSE_GET_REGISTER buf 16 (Z.of_nat i) = Ok r.
Proof.
  intros Hh Hd Hi. pose proof (dense_length _ _ _ (ho_length _ Hh) Hd) as Hl. pose proof (reg_byte_bound i Hi) as Hr.
  exists (reg_at buf 16 (Z.of_nat i)). rewrite <- (db_regs _ _ _ Hd). split; [by apply regs_lookup|]. split; [apply reg_range|]. apply get_register_ok; lia.
Qed.

Lemma dense_registers hdr R buf : dense_buf hdr R buf -> length R = hll_n /\ Forall is_reg R.
Proof.
  intros [_ <-]. split; [apply regs_length|]. unfold regs_of. apply Forall_fmap, Forall_true. intros i. apply reg_range.
Qed.

(** The new registers, and whether one was raised. *)
Definition raise (R : list Z) (i : nat) (c : Z) : list Z := <[i := Z.max c (default 0 (R !! i))]> R.
Definition raised (R : list Z) (i : nat) (c : Z) : bool := default 0 (R !! i) <? c.

Lemma raise_up R i r c : R !! i = Some r -> r < c -> raise R i c = <[i := c]> R.
Proof. intros Hr Hc. unfold raise. rewrite Hr. cbn. f_equal. lia. Qed.

Lemma raise_not R i r c : R !! i = Some r -> c <= r -> raise R i c = R.
Proof. intros Hr Hc. unfold raise. rewrite Hr. cbn. rewrite Z.max_r by done. by apply list_insert_id. Qed.

Lemma dense_set_ok hdr R buf i c : hdr_ok hdr -> dense_buf hdr R buf -> (i < hll_n)%nat -> is_reg c ->
  exists buf', hllDenseSet buf 16 (Z.of_nat i) c = Ok (buf', b2z (raised R i c)) /\ dense_buf hdr (raise R i c) buf' /\ zlen buf' = zlen buf.
Proof.
  intros Hh Hd Hi Hc. destruct (dense_read _ _ _ i Hh Hd Hi) as (r & Er & Hr & Eg). unfold hllDenseSet. rewrite Eg. runr.
  unfold raised. rewrite Er. cbn [default]. change (id r) with r. rewrite Z.gtb_ltb. destruct (Z.ltb_spec r c) as [Hlt|Hge].
  - rewrite (raise_up _ _ _ _ Er Hlt). destruct (dense_write _ _ _ i c Hh Hd Hi Hc) as (buf' & -> & H1 & H2). runr. by exists buf'.
  - rewrite (raise_not _ _ _ _ Er Hge). by exists buf.
Qed.

Lemma dense_rep_set s hdr R R' buf : length hdr = 16%nat -> dense_rep s hdr R -> dense_buf hdr R' buf -> zlen buf = zlen (s_buf s) -> dense_rep (set_buf s buf) hdr R'.
Proof.
  intros Hh (He & (l & Hs & Hl) & _) Hd Hz. split; [done|]. split; [|done]. destruct (db_split _ _ _ Hd) as (body & rest & E & Hb & _).
  exists (hdr ++ body). assert (zlen (hdr ++ body) = 12304) as Hzl by (rewrite zlen_app, Hb; unfold zlen; rewrite Hh; done). split; [|done].
  assert (set_buf s buf = {| s_type := s_type s; s_len := zlen (hdr ++ body); s_alloc := s_alloc s; s_buf := buf |}) as ->.
  { unfold set_buf. f_equal. rewrite (holds_len _ _ Hs). lia. }
  pose proof (holds_elim _ _ Hs) as (_ & _ & Hm & _). apply (edit_block s l); [done|done|lia|]. apply starts_split. exists rest. by rewrite <- app_assoc.
Qed.

(** Registers that are all zero after a prefix. *)
Definition pad (R : list Z) : list Z := R ++ replicate (hll_n - length R) 0.

Lemma pad_zeros R n : (length R + n <= hll_n)%nat -> pad (R ++ replicate n 0) = pad R.
Proof.
  intros Hn. unfold pad. rewrite <- app_assoc, length_app, length_replicate, <- replicate_add. do 2 f_equal. lia.
Qed.

Lemma pad_insert R v : (length R < hll_n)%nat -> <[length R := v]> (pad R) = pad (R ++ [v]).
Proof.
  intros Hn. unfold pad. rewrite insert_app_r_alt, Nat.sub_diag by done. rewrite length_app. cbn [length].
  destruct (hll_n - length R)%nat as [|k] eqn:Ek; [lia|]. replace (hll_n - (length R + 1))%nat with k by lia. rewrite <- app_assoc. done.
Qed.

Lemma pad_full R : length R = hll_n -> pad R = R.
Proof. intros Hn. unfold pad. rewrite Hn, Nat.sub_diag. apply app_nil_r. Qed.

Lemma regs_zero buf : (forall k, 16 <= k <= 12304 -> byte_at buf k = 0) -> regs_of buf 16 = pad [].
Proof.
  intros Hz. unfold pad. cbn [app length]. rewrite Nat.sub_0_r. apply list_eq. intros i. destruct (decide (i < hll_n)%nat) as [Hi|Hi].
  - rewrite regs_lookup, lookup_replicate_2 by done. f_equal. pose proof (reg_byte_bound i Hi). unfold reg_at. rewrite !Hz by lia.
    by rewrite Z.shiftr_0_l, Z.shiftl_0_l.
  - rewrite !lookup_ge_None_2; [done|rewrite length_replicate; lia|rewrite regs_length; lia].
Qed.

Section objects.
Context `{alloc : SdsAllocator} {laws : SdsAllocatorLaws}.

(** A new string of zeroes with a header in front. *)
Lemma dense_new hdr : hdr_ok hdr -> exists d0 d1, sdsnewlen Zeros HLL_DENSE_SIZE = Ok d0 /\ put_bytes d0 0 hdr 16 = Ok d1 /\
  exists d, put_byte d1 4 0 = Ok d /\ hdr_ok (<[4%nat := 0]> hdr) /\ dense_rep d (<[4%nat := 0]> hdr) (pad []).
Proof.
  intros Hh. change HLL_DENSE_SIZE with 12304. destruct (newlen_ok Zeros 12304) as (d0 & l & E0 & Hs & Hi); [lia|done|]. destruct Hi as (Hl & Hz).
  exists d0. destruct Hh as [Hh Hhb Hhm]. set (m := Z.to_nat 12288) in *. assert (Z.of_nat m = 12288) as Hm by (unfold m; lia).
  assert (l = replicate 16 0 ++ replicate m 0) as El.
  { rewrite Hz, <- replicate_add. by replace (16 + m)%nat with (Z.to_nat 12304) by (unfold m; lia). }
  clearbody m. clear Hz. subst l. pose proof (overwrite d0 [] (replicate 16 0) (replicate m 0) hdr Hs) as Ho. cbn [app] in Ho. change (zlen []) with 0 in Ho.
  assert (zlen hdr = 16) as Hzh by (unfold zlen; by rewrite Hh). rewrite Hzh in Ho. destruct Ho as (d1 & E1 & Hd1 & _); [done|]. exists d1. split; [done|]. split; [done|].
  destruct (lookup_lt_is_Some_2 hdr 4) as [e He]; [lia|]. pose proof (take_drop_middle hdr 4 e He) as Hmid.
  assert (zlen (take 4 hdr) = 4) as Hz4 by (unfold zlen; rewrite length_take; lia).
  rewrite <- Hmid, <- app_assoc in Hd1. cbn [app] in Hd1. destruct (overwrite_byte d1 _ e _ 0 Hd1) as (d & E2 & Hd & _). rewrite Hz4 in E2. exists d. split; [done|].
  assert (<[4%nat := 0]> hdr = take 4 hdr ++ 0 :: drop 5 hdr) as Hins by (apply insert_take_drop; lia).
  assert (take 4 hdr ++ 0 :: drop 5 hdr ++ replicate m 0 = <[4%nat := 0]> hdr ++ replicate m 0) as Hcat by (rewrite Hins, <- app_assoc; done). rewrite Hcat in Hd.
  assert (length (<[4%nat := 0]> hdr) = 16%nat) as Hh' by (by rewrite length_insert). split; [|split; [|split]].
  - constructor; [done|apply Forall_insert; done|]. rewrite take_insert_ge by lia. done.
  - by rewrite list_lookup_insert_eq by lia.
  - eexists. split; [done|]. rewrite zlen_app. unfold zlen. rewrite Hh', length_replicate. lia.
  - destruct (holds_buf _ _ Hd) as [rest E]. rewrite <- app_assoc in E. constructor.
    + exists (replicate m 0), rest. split; [done|]. unfold zlen. rewrite length_replicate. split; [lia|]. by apply Forall_replicate.
    + apply regs_zero. intros k Hk. rewrite E. unfold byte_at. rewrite lookup_app_r by lia. rewrite Hh'. destruct (decide (Z.to_nat k - 16 < m)%nat) as [Hlt|Hge].
      * rewrite lookup_app_l by (rewrite length_replicate; lia). by rewrite lookup_replicate_2.
      * rewrite lookup_app_r by (rewrite length_replicate; lia). rewrite length_replicate. by replace (Z.to_nat k - 16 - m)%nat with 0%nat by lia.
Qed.

(** hllSparseToDense writes the runs of values over zeroes. *)
Lemma to_dense_runs hdr L : hdr_ok hdr ->
  runs_ok (fun buf _ _ => Ok buf) (fun buf idx runlen regval => run_loop (Z.to_nat runlen) (fun buf i => HLL_DENSE_SET_REGISTER buf 16 i regval) idx buf)
    (fun R buf => dense_buf hdr (pad R) buf /\ zlen buf = L).
Proof.
  intros Hh. pose proof hll_n_eq as Hn. split.
  - intros R buf n Hd H1 Hl. exists buf. split; [done|]. rewrite pad_zeros; [done|]. unfold zlen in Hl. lia.
  - intros R buf n v Hd H1 Hv Hl.
    destruct (run_loop_ok (fun buf i => HLL_DENSE_SET_REGISTER buf 16 i v) (fun j buf => dense_buf hdr (pad (R ++ replicate (Z.to_nat (j - zlen R)) v)) buf /\ zlen buf = L)
      (Z.to_nat n) (zlen R) buf) as (buf' & E & H).
    + rewrite Z.sub_diag. cbn [replicate Z.to_nat]. by rewrite app_nil_r.
    + intros j a Hj [Ha Hz]. set (k := Z.to_nat (j - zlen R)) in *. assert (length (R ++ replicate k v) = Z.to_nat j) as Hk by (rewrite length_app, length_replicate; unfold zlen in *; lia).
      destruct (dense_write hdr _ a (Z.to_nat j) v Hh Ha) as (a' & Ea & Hd' & Hz'); [lia|lia|]. rewrite Z2Nat.id in Ea by (unfold zlen in Hj; lia).
      exists a'. split; [done|]. split; [|lia]. rewrite <- Hk in Hd'. rewrite pad_insert in Hd' by lia.
      replace (Z.to_nat (j + 1 - zlen R)) with (k + 1)%nat by (unfold zlen in *; lia). rewrite replicate_add. cbn [replicate]. by rewrite app_assoc.
    + exists buf'. split; [done|]. replace (zlen R + Z.of_nat (Z.to_nat n) - zlen R) with n in H by lia. exact H.
Qed.

Lemma sparse_to_dense_ok s hdr R : hdr_ok hdr -> length R = hll_n -> sparse_rep s hdr R ->
  exists s', hllSparseToDense s = Ok (s', true) /\ hdr_ok (<[4%nat := 0]> hdr) /\ dense_rep s' (<[4%nat := 0]> hdr) R.
Proof.
  intros Hh HR (He & ops & Hs & Hf & Hx). pose proof hll_n_eq as Hn. pose proof (ho_length _ Hh) as Hlen.
  assert (zlen hdr = 16) as Hzh by (unfold zlen; by rewrite Hlen). destruct (holds_buf _ _ Hs) as [rest E]. rewrite <- app_assoc in E.
  unfold hllSparseToDense. change hdr_encoding with 4. change HLL_HDR_SIZE with 16. change HLL_DENSE with 0. change HLL_REGISTERS with 16384.
  rewrite (rd1_lookup _ 4 1); [|lia|rewrite E, lookup_app_l by (rewrite Hlen; lia); done]. runr. cbn [Z.eqb].
  destruct (dense_new hdr Hh) as (d0 & d1 & -> & E1 & d & E2 & Hh' & Hd). runr. rewrite E, rdn_prefix by (rewrite zlen_app, Hzh; pose proof (zlen_nonneg (encode ops ++ 0 :: rest)); lia). runr.
  replace (take (Z.to_nat 16) (hdr ++ encode ops ++ 0 :: rest)) with hdr by (rewrite take_app_le, take_ge by lia; done). rewrite E1. runr. rewrite E2. runr.
  unfold sdslen. rewrite (holds_len _ _ Hs), zlen_app, Hzh. destruct (encode_short ops Hf) as [Hsh1 Hsh2].
  destruct (opcode_loop_ok _ _ _ (to_dense_runs _ (zlen (s_buf d)) Hh') ops (Z.to_nat (16 + zlen (encode ops))) hdr (0 :: rest) [] (s_buf d) (16 + zlen (encode ops))) as (buf & El & Hb & Hz).
  - done.
  - unfold zlen in *. lia.
  - lia.
  - rewrite Hx. unfold zlen. rewrite HR. cbn [length]. lia.
  - split; [apply Hd|done].
  - rewrite Hzh in El. change (zlen []) with 0 in El. rewrite El. runr. cbn [negb orb]. rewrite Hx in Hb |- *. assert (zlen R = 16384) as -> by (unfold zlen; lia). cbn [Z.add Z.eqb Pos.eqb negb].
    eexists. split; [done|]. split; [done|]. cbn [app] in Hb. rewrite pad_full in Hb by done. apply (dense_rep_set d _ (pad [])); [apply Hh'|done|done|done].
Qed.

(** * Writing a register *)

(** The string that was written: other registers, and perhaps another header, with
    the cached cardinality invalid. *)
Definition updates (s' : sds) (hdr R : list Z) (i : nat) (c : Z) : Prop :=
  exists hdr', hll_rep s' hdr' (raise R i c) /\ (raised R i c = false -> hdr' = hdr).

Lemma sparse_reg s hdr R i : sparse_rep s hdr R -> (i < length R)%nat -> exists r, R !! i = Some r /\ 0 <= r <= 32.
Proof.
  intros (_ & ops & _ & Hf & <-) Hi. destruct (lookup_lt_is_Some_2 _ _ Hi) as [r Hr]. exists r. split; [done|].
  exact (proj1 (Forall_lookup _ _) (expand_regs ops Hf) _ _ Hr).
Qed.

Lemma raise_length R i c : length (raise R i c) = length R.
Proof. apply length_insert. Qed.

Lemma promote_ok s hdr R i c r : hdr_ok hdr -> length R = hll_n -> sparse_rep s hdr R -> (i < hll_n)%nat -> is_reg c -> R !! i = Some r -> r < c ->
  exists s', sparse_promote s (Z.of_nat i) c = Ok (s', 1) /\ updates s' hdr R i c.
Proof.
  intros Hh HR Hs Hi Hc Er Hlt. destruct (sparse_to_dense_ok s hdr R Hh HR Hs) as (s1 & E1 & Hh' & Hd). unfold sparse_promote. rewrite E1. runr. cbn [negb].
  destruct (dense_set_ok _ _ _ i c Hh' (proj2 (proj2 Hd)) Hi Hc) as (buf & E2 & Hb & Hz). change HLL_HDR_SIZE with 16. rewrite E2. runr.
  assert (raised R i c = true) as Hup by (unfold raised; rewrite Er; cbn; by apply Z.ltb_lt). rewrite Hup. cbn [b2z Z.eqb guardr]. runr. eexists. split; [done|].
  exists (<[4%nat := 0]> hdr). split; [|by rewrite Hup]. split; [done|]. split; [by rewrite raise_length|]. right. apply (dense_rep_set s1 _ R); [exact (ho_length _ Hh')|done|done|done].
Qed.

(** After sparse_room an opcode can be replaced by a sequence three bytes longer,
    unless that is beyond the limit. *)
Lemma room_ok max_bytes s l : 32 <= max_bytes < 2 ^ 62 -> holds s l -> zlen l < 2 ^ 61 ->
  exists s', sparse_room max_bytes s = Ok s' /\ holds s' l /\ s_type s' <> SDS_TYPE_5 /\
    (forall d, d <= 3 -> zlen l + d <= max_bytes \/ d <= 0 -> zlen l + d <= s_alloc s').
Proof.
  intros Hm Hs Hl. pose proof (zlen_nonneg l). pose proof (holds_elim s l Hs) as (_ & Ht & Hlm & _ & _ & Hal). pose proof (alloc_len s l Hs) as Hla.
  unfold sparse_room. destruct (Z.ltb_spec (sdsalloc s) max_bytes) as [H1|H1]; [destruct (Z.ltb_spec (sdsavail s) 3) as [H2|H2]|]; cbn [andb].
  - unfold sdslen. rewrite (holds_len s l Hs). rewrite (wrapU_small 64 (zlen l + 3)) by lia. rewrite wrapU_small by lia.
    set (newlen := if _ >? max_bytes then _ else _). assert (newlen <= max_bytes /\ zlen l < newlen /\ (newlen < zlen l + 4 -> newlen = max_bytes)) as (N1 & N2 & N3).
    { unfold newlen. rewrite Z.gtb_ltb. case_bool; lia. }
    assert (sdsalloc s <> newlen) as Hne.
    { intros e. assert (s_type s <> SDS_TYPE_5 -> sdsavail s = sdsalloc s - zlen l) as Hav.
      { intros ne. destruct (avail_ok s l Hs ne) as [-> _]. unfold sdsalloc. by rewrite (proj2 (Z.eqb_neq _ _)). }
      destruct (Z.eq_dec (s_type s) SDS_TYPE_5) as [e5|ne]; [|specialize (Hav ne); lia].
      unfold sdsalloc in e. rewrite e5, Z.eqb_refl, (holds_len s l Hs) in e. lia. }
    destruct (sds_resize_ok s l newlen true Hs) as (s' & E & Hs' & Hr); [lia|]. destruct (Hr eq_refl Hne) as [R1 R2]. exists s'. split; [done|].
    rewrite take_ge in Hs' by (unfold zlen in *; lia). split; [done|]. split; [done|]. intros d Hd Hor.
    pose proof (holds_elim s' l Hs') as (_ & _ & _ & _ & _ & Hal'). destruct (Hal' R1) as [Hz _]. destruct (avail_ok s' l Hs' R1). lia.
  - assert (s_type s <> SDS_TYPE_5) as ne by (intros e; unfold sdsavail in H2; rewrite e in H2; cbn in H2; lia).
    exists s. split; [done|]. split; [done|]. split; [done|]. intros d Hd _. destruct (avail_ok s l Hs ne). lia.
  - assert (s_type s <> SDS_TYPE_5) as ne.
    { intros e. unfold sdsalloc in H1. rewrite e, Z.eqb_refl, (holds_len s l Hs) in H1. rewrite e in Hlm. change (sdsTypeMaxSize SDS_TYPE_5) with 31 in Hlm. lia. }
    exists s. split; [done|]. split; [done|]. split; [done|]. intros d Hd Hor. unfold sdsalloc in H1, Hla. rewrite (proj2 (Z.eqb_neq _ _)) in H1, Hla by done. lia.
Qed.

(** HLL_INVALIDATE_CACHE touches the last byte of the header. *)
Definition invalid_hdr (hdr : list Z) : list Z := <[15%nat := Z.lor (default 0 (hdr !! 15%nat)) 128]> hdr.

Lemma or_128 b : is_byte b -> is_byte (Z.lor b 128).
Proof.
  intros Hb. unfold is_byte in *. split; [apply Z.lor_nonneg; lia|]. destruct (Z.eq_dec b 0) as [->|Hb0]; [done|]. apply Z.log2_lt_cancel.
  rewrite Z.log2_lor by lia. pose proof (Z.log2_le_mono b 255 ltac:(lia)) as H. change (Z.log2 255) with 7 in H. change (Z.log2 128) with 7. change (Z.log2 256) with 8. lia.
Qed.

Lemma invalid_hdr_ok hdr : hdr_ok hdr -> hdr_ok (invalid_hdr hdr) /\ (invalid_hdr hdr) !! 4%nat = hdr !! 4%nat.
Proof.
  intros [H1 H2 H3]. unfold invalid_hdr. split; [constructor|].
  - by rewrite length_insert.
  - apply Forall_insert; [done|]. apply or_128. destruct (lookup_lt_is_Some_2 hdr 15) as [b Hb]; [lia|]. rewrite Hb. exact (proj1 (Forall_lookup _ _) H2 _ _ Hb).
  - by rewrite take_insert_ge by lia.
  - by rewrite list_lookup_insert_ne by lia.
Qed.

Lemma invalidate_ok s hdr B : hdr_ok hdr -> holds s (hdr ++ B) ->
  exists s', HLL_INVALIDATE_CACHE s = Ok s' /\ edited s s' (invalid_hdr hdr ++ B) /\ s_buf s' = <[15%nat := Z.lor (default 0 (hdr !! 15%nat)) 128]> (s_buf s).
Proof.
  intros [Hh _ _] Hs. destruct (lookup_lt_is_Some_2 hdr 15) as [b Hb]; [lia|]. pose proof (take_drop_middle hdr 15 b Hb) as Hm.
  assert (zlen (take 15 hdr) = 15) as Hz by (unfold zlen; rewrite length_take; lia).
  assert (holds s (take 15 hdr ++ b :: drop 16 hdr ++ B)) as Hs' by (replace (take 15 hdr ++ b :: drop 16 hdr ++ B) with (hdr ++ B); [done|]; rewrite <- Hm at 1; by rewrite <- app_assoc).
  unfold HLL_INVALIDATE_CACHE. change (hdr_card + 7) with 15. change (Z.shiftl 1 7) with 128. pose proof (read_byte s _ _ _ Hs') as Er. rewrite Hz in Er. rewrite Er. runr.
  destruct (overwrite_byte s _ b _ (Z.lor b 128) Hs') as (s' & E & He). rewrite Hz in E. exists s'. split; [done|].
  unfold invalid_hdr. rewrite Hb. cbn [default]. change (id b) with b. rewrite insert_take_drop by lia. rewrite <- app_assoc. split; [exact He|].
  unfold put_byte in E. destruct (holds_buf _ _ Hs) as [rest Es]. rewrite wr1_ok in E; [injection E as <-; done|].
  rewrite Es, !zlen_app, zlen_cons. pose proof (zlen_nonneg B). pose proof (zlen_nonneg rest). unfold zlen at 1. rewrite Hh. lia.
Qed.
End objects.
