(* ===== verification/HllUpdate.v ===== *)
(** HllUpdate: hllSparseSet of Hll.v raises one register.

    The opcode that covers the register is located, overwritten or split, and its
    neighbours are merged; when the string would grow beyond the limit, or the
    value does not fit an opcode, the string becomes dense. *)

From Stdlib Require Import ZArith Lia Bool.
From stdpp Require Import base list numbers decidable.
From S2P Require Import Prelude Bytes Sds SdsProofs SdsOps Hll HllBits HllHisto HllSparse HllSet HllRep.

Local Open Scope Z_scope.

Section update.
Context `{alloc : SdsAllocator} {laws : SdsAllocatorLaws}.

(** The first byte of an opcode. *)
Lemma op_head o : op_ok o -> exists b tl, op_bytes o = b :: tl /\
  HLL_SPARSE_IS_XZERO b = (zlen (op_bytes o) =? 2) /\ negb (HLL_SPARSE_IS_ZERO b || HLL_SPARSE_IS_XZERO b) = is_val_op o /\
  (is_val_op o = true -> HLL_SPARSE_VAL_VALUE b = op_val o) /\ (if HLL_SPARSE_IS_XZERO b then 2 else 1) = zlen (op_bytes o).
Proof.
  destruct o as [n|n|v n]; cbn [op_ok op_bytes is_val_op op_val]; intros Ho.
  - destruct (zero_byte n Ho) as (b & -> & _ & B1 & B2 & B3 & B4). exists b, []. by rewrite B1, B2.
  - destruct (xzero_bytes n Ho) as (b & b1 & -> & _ & _ & B1 & B2 & B3 & B4). exists b, [b1]. by rewrite B1, B2.
  - destruct Ho as [Ho1 Ho2]. destruct (val_byte v n Ho1 Ho2) as (b & -> & _ & B1 & B2 & B3 & B4 & B5). exists b, []. by rewrite B1, B2.
Qed.

(** [prev] is the start of an opcode. *)
Definition boundary (ops : list opcode) (prev : option Z) : Prop :=
  match prev with None => True | Some p => exists a b, ops = a ++ b /\ p = 16 + zlen (encode a) end.

Lemma updated_ok s hdr ops prev : hdr_ok hdr -> hdr !! 4%nat = Some 1 -> holds s (hdr ++ encode ops) -> Forall op_ok ops -> length (expand ops) = hll_n ->
  boundary ops prev -> exists s', sparse_updated s prev (16 + zlen (encode ops)) = Ok (s', 1) /\ hll_rep s' (invalid_hdr hdr) (expand ops).
Proof.
  intros Hh He Hs Hf Hx Hp. pose proof (ho_length _ Hh) as Hl. assert (zlen hdr = 16) as Hz by (unfold zlen; by rewrite Hl).
  assert (exists a b, ops = a ++ b /\ match prev with Some p => p | None => HLL_HDR_SIZE end = 16 + zlen (encode a)) as (a & b & -> & Ep).
  { destruct prev as [p|]; [exact Hp|]. by exists [], ops. }
  unfold sparse_updated. rewrite Ep. apply Forall_app in Hf as [Hfa Hfb]. rewrite encode_app, app_assoc in Hs.
  destruct (merge_loop_ok 5 b s (hdr ++ encode a) Hs Hfb) as (s1 & b' & E & (Hs1 & _ & _) & Hfb' & Hxb). rewrite zlen_app, Hz in E. rewrite encode_app, zlen_app, Z.add_assoc, E. runr.
  rewrite <- app_assoc in Hs1. destruct (invalidate_ok s1 hdr _ Hh Hs1) as (s2 & E2 & (Hs2 & _ & _) & _). rewrite E2. runr. eexists. split; [done|].
  destruct (invalid_hdr_ok hdr Hh) as [Hh' H4]. rewrite expand_app, <- Hxb, <- expand_app in Hx |- *. split; [done|]. split; [done|]. left. split; [by rewrite H4|].
  exists (a ++ b'). split; [by rewrite encode_app|]. split; [|done]. apply Forall_app. by split.
Qed.

Lemma expand_lookup a o b i : op_ok o -> zlen (expand a) <= Z.of_nat i < zlen (expand a) + op_len o -> expand (a ++ o :: b) !! i = Some (op_val o).
Proof.
  intros Ho Hi. pose proof (op_regs_len o Ho) as Hl. unfold zlen in *. rewrite expand_app. change (expand (o :: b)) with (op_regs o ++ expand b).
  rewrite lookup_app_r by lia. rewrite lookup_app_l by lia. apply lookup_replicate_2. unfold op_regs in Hl. rewrite length_replicate in Hl. lia.
Qed.

(** The opcodes [nops] stand for the run [o] with one register raised. *)
Lemma expand_raise a o b nops i c : op_ok o -> op_val o < c -> zlen (expand a) <= Z.of_nat i < zlen (expand a) + op_len o ->
  expand nops = <[Z.to_nat (Z.of_nat i - zlen (expand a)) := c]> (op_regs o) ->
  expand (a ++ nops ++ b) = raise (expand (a ++ o :: b)) i c /\ raised (expand (a ++ o :: b)) i c = true.
Proof.
  intros Ho Hlt Hi Hn. pose proof (expand_lookup a o b i Ho Hi) as Hr. split; [|unfold raised; rewrite Hr; by apply Z.ltb_lt].
  rewrite (raise_up _ _ _ _ Hr Hlt). pose proof (op_regs_len o Ho) as Hl. unfold zlen in *. rewrite !expand_app. change (expand (o :: b)) with (op_regs o ++ expand b).
  rewrite insert_app_r_alt by lia. rewrite insert_app_l by lia. rewrite Hn. do 3 f_equal. lia.
Qed.

Section replace.
Context (hdr : list Z) (a : list opcode) (o : opcode) (b : list opcode) (i : nat) (c : Z) (prev : option Z).
Context (Hh : hdr_ok hdr) (He : hdr !! 4%nat = Some 1) (Hf : Forall op_ok (a ++ o :: b)) (Hx : length (expand (a ++ o :: b)) = hll_n).
Context (Hi : zlen (expand a) <= Z.of_nat i < zlen (expand a) + op_len o) (Hc : 1 <= c <= 32).
Context (Hp : forall ops, boundary (a ++ ops) prev).

Lemma replaced_ok s nops : holds s (hdr ++ encode a ++ encode nops ++ encode b) -> Forall op_ok nops -> op_val o < c ->
  expand nops = <[Z.to_nat (Z.of_nat i - zlen (expand a)) := c]> (op_regs o) ->
  exists s', sparse_updated s prev (16 + zlen (encode a) + zlen (encode nops) + zlen (encode b)) = Ok (s', b2z (raised (expand (a ++ o :: b)) i c)) /\
    updates s' hdr (expand (a ++ o :: b)) i c.
Proof.
  intros Hs Hfn Hlt Hn. apply list.Forall_app in Hf as [Hfa Hfo]. apply list.Forall_cons in Hfo as [Ho Hfb].
  destruct (expand_raise a o b nops i c Ho Hlt Hi Hn) as [Ex Hup]. rewrite Hup. cbn [b2z].
  destruct (updated_ok s hdr (a ++ nops ++ b) prev Hh He) as (s' & E & Hrep).
  - by rewrite !encode_app.
  - apply Forall_app. split; [done|]. apply Forall_app. by split.
  - by rewrite Ex, raise_length.
  - apply Hp.
  - rewrite !encode_app, !zlen_app, !Z.add_assoc in E. exists s'. split; [done|]. exists (invalid_hdr hdr). rewrite Ex in Hrep. split; [done|]. by rewrite Hup.
Qed.

(** An opcode of one byte for one register is overwritten, the others are split. *)
Lemma opcode_replace_ok max_bytes s : holds s (hdr ++ encode (a ++ o :: b)) -> s_type s <> SDS_TYPE_5 -> 0 <= max_bytes < 2 ^ 62 ->
  (forall d, d <= 3 -> zlen (hdr ++ encode (a ++ o :: b)) + d <= max_bytes \/ d <= 0 -> zlen (hdr ++ encode (a ++ o :: b)) + d <= s_alloc s) ->
  exists b0 s', rd1 (s_buf s) (16 + zlen (encode a)) = Ok b0 /\
    sparse_replace max_bytes s (16 + zlen (encode a)) prev (zlen (expand a)) (op_len o) (Z.of_nat i) c b0 = Ok (s', b2z (raised (expand (a ++ o :: b)) i c)) /\
    updates s' hdr (expand (a ++ o :: b)) i c.
Proof.
  intros Hs H5 Hm Hroom. pose proof (ho_length _ Hh) as Hl. assert (zlen hdr = 16) as Hz by (unfold zlen; by rewrite Hl).
  pose proof Hf as Hf'. apply list.Forall_app in Hf' as [Hfa Hfo]. apply list.Forall_cons in Hfo as [Ho Hfb]. destruct (op_head o Ho) as (b0 & tl & Eb & B1 & B2 & B3 & B4).
  pose proof (op_bytes_pos o Ho) as Hob. pose proof (expand_lookup a o b i Ho Hi) as Hr. pose proof (zlen_nonneg (encode a)). pose proof (zlen_nonneg (encode b)).
  assert (sparse_rep s hdr (expand (a ++ o :: b))) as Hrep by (split; [done|]; by exists (a ++ o :: b)).
  assert (hdr ++ encode (a ++ o :: b) = (hdr ++ encode a) ++ op_bytes o ++ encode b) as Eenc by (rewrite encode_app; by rewrite <- app_assoc). rewrite Eenc in Hs, Hroom.
  assert (zlen (hdr ++ encode a) = 16 + zlen (encode a)) as HzP by (rewrite zlen_app; lia). rewrite !zlen_app, Hz in Hroom.
  destruct (split_ok o (HLL_SPARSE_VAL_VALUE b0) (zlen (expand a)) (Z.of_nat i) c Ho Hc Hi B3) as (S1 & S2 & S3 & S4 & S5). set (nops := split_ops o _ c) in *.
  exists b0. assert (rd1 (s_buf s) (16 + zlen (encode a)) = Ok b0) as Erd by (rewrite <- HzP; rewrite Eb in Hs; exact (read_byte _ _ _ _ Hs)).
  unfold sparse_replace, sdslen. rewrite (holds_len _ _ Hs), !zlen_app, Hz. rewrite B2.
  destruct (is_val_op o && (HLL_SPARSE_VAL_VALUE b0 >=? c)) eqn:Ekeep.
  { apply andb_true_iff in Ekeep as [Ev Ege]. rewrite (B3 Ev) in Ege. apply Z.geb_le in Ege. exists s. split; [done|].
    assert (raised (expand (a ++ o :: b)) i c = false) as Hup by (unfold raised; rewrite Hr; apply Z.ltb_ge; done). rewrite Hup. split; [done|].
    exists hdr. rewrite (raise_not _ _ _ _ Hr Ege). split; [|done]. split; [exact Hh|]. split; [exact Hx|]. left. exact Hrep. }
  assert (op_val o < c) as Hlt.
  { destruct o as [n|n|v n]; cbn [op_val is_val_op andb] in *; [lia|lia|]. rewrite (B3 eq_refl) in Ekeep. rewrite Z.geb_leb in Ekeep. apply Z.leb_gt in Ekeep. lia. }
  destruct (negb (HLL_SPARSE_IS_XZERO b0) && (op_len o =? 1)) eqn:Eone.
  - apply andb_true_iff in Eone as [Ex Es]. apply Z.eqb_eq in Es. rewrite B1 in Ex. apply negb_true_iff, Z.eqb_neq in Ex.
    destruct (overwrite s (hdr ++ encode a) (op_bytes o) (encode b) (HLL_SPARSE_VAL_SET c 1) Hs) as (s1 & E1 & (Hs1 & _ & _)); [change (zlen (HLL_SPARSE_VAL_SET c 1)) with 1; lia|].
    rewrite HzP in E1. change (zlen (HLL_SPARSE_VAL_SET c 1)) with 1 in E1. rewrite E1. runr. rewrite <- app_assoc in Hs1.
    destruct (replaced_ok s1 [OVal c 1]) as (s' & E' & Hup); [exact Hs1|repeat constructor; lia|done| |].
    + unfold op_regs. rewrite Es. replace (Z.to_nat (Z.of_nat i - zlen (expand a))) with 0%nat by lia. done.
    + exists s'. split; [done|]. split; [|done]. rewrite <- E'. change (zlen (encode [OVal c 1])) with 1.
      by replace (16 + zlen (encode a) + (zlen (op_bytes o) + zlen (encode b))) with (16 + zlen (encode a) + 1 + zlen (encode b)) by lia.
  - rewrite S1. rewrite (proj2 (Z.leb_le (zlen (encode nops)) 5)) by lia. cbn [guardr]. runr. rewrite B4. set (d := zlen (encode nops) - zlen (op_bytes o)) in *.
    destruct (encode_short _ Hf) as [_ Hsh]. assert (zlen (expand (a ++ o :: b)) = 16384) as Hxz by (pose proof hll_n_eq; unfold zlen; lia). rewrite Hxz, encode_app in Hsh. change (encode (o :: b)) with (op_bytes o ++ encode b) in Hsh. rewrite !zlen_app in Hsh.
    rewrite !(wrapU_small 64) by lia. destruct ((d >? 0) && (16 + zlen (encode a) + (zlen (op_bytes o) + zlen (encode b)) + d >? max_bytes)) eqn:Epro.
    + destruct (promote_ok s hdr _ i c (op_val o) Hh Hx Hrep) as (s' & E' & Hup'); [|unfold is_reg; lia|done|done|].
      * unfold zlen in Hi. apply lookup_lt_Some in Hr. lia.
      * exists s'. split; [done|]. split; [|done]. rewrite E'. unfold raised. rewrite Hr. cbn [default]. change (id (op_val o)) with (op_val o). by rewrite (proj2 (Z.ltb_lt _ _)).
    + assert (16 + zlen (encode a) + (zlen (op_bytes o) + zlen (encode b)) + d <= s_alloc s) as Hcap.
      { apply Hroom; [lia|]. apply andb_false_iff in Epro as [Ep|Ep]; rewrite Z.gtb_ltb in Ep; apply Z.ltb_ge in Ep; lia. }
      assert (sdsalloc s = s_alloc s) as -> by (unfold sdsalloc; by rewrite (proj2 (Z.eqb_neq _ _))). rewrite (proj2 (Z.leb_le _ _)) by lia. cbn [guardr]. runr.
      destruct (splice_ok s (hdr ++ encode a) (op_bytes o) (encode b) (encode nops) Hs) as (s1 & s2 & s3 & M1 & M2 & M3 & (Hs3 & _ & _)); [done|intros _; lia|].
      rewrite !zlen_app, Hz in M1. rewrite zlen_app, Hz in M3. fold d in M1, M2. replace (if HLL_SPARSE_IS_XZERO b0 then 16 + zlen (encode a) + 2 else 16 + zlen (encode a) + 1) with (16 + zlen (encode a) + zlen (op_bytes o)) by (rewrite <- B4; by destruct (HLL_SPARSE_IS_XZERO b0)).
      rewrite M1. runr. rewrite M2. runr. rewrite M3. runr. rewrite <- app_assoc in Hs3. destruct (replaced_ok s3 nops Hs3 S2 Hlt S3) as (s' & E' & Hup).
      exists s'. split; [done|]. split; [|done]. rewrite <- E'.
      by replace (16 + zlen (encode a) + (zlen (op_bytes o) + zlen (encode b)) + d) with (16 + zlen (encode a) + zlen (encode nops) + zlen (encode b)) by lia.
Qed.
End replace.

Lemma locate_boundary a o ops : boundary (a ++ ops) (match reverse a with [] => o | x :: a' => Some (16 + zlen (encode (reverse a'))) end) \/ (a = [] /\ o <> None).
Proof.
  destruct (reverse a) as [|x a'] eqn:E.
  - assert (a = []) as -> by (rewrite <- (reverse_involutive a), E; done). destruct o; [by right|by left].
  - left. exists (reverse a'), ([x] ++ ops). split; [|done]. rewrite app_assoc. f_equal. rewrite <- (reverse_involutive a), E, reverse_cons. done.
Qed.

Lemma sparse_set_ok max_bytes s hdr R i c : 32 <= max_bytes < 2 ^ 62 -> hdr_ok hdr -> length R = hll_n -> sparse_rep s hdr R -> (i < hll_n)%nat -> 1 <= c < 64 ->
  exists s', hllSparseSet max_bytes s (Z.of_nat i) c = Ok (s', b2z (raised R i c)) /\ updates s' hdr R i c.
Proof.
  intros Hm Hh HR Hrep Hi Hc. pose proof hll_n_eq as Hn. unfold hllSparseSet. change HLL_SPARSE_VAL_MAX_VALUE with 32. rewrite Z.gtb_ltb. destruct (Z.ltb_spec 32 c) as [Hgt|Hle].
  - destruct (sparse_reg s hdr R i Hrep) as (r & Er & Hr); [by rewrite HR|]. assert (raised R i c = true) as -> by (unfold raised; rewrite Er; apply Z.ltb_lt; cbn; lia).
    assert (r < c) by lia. assert (is_reg c) by (unfold is_reg; lia). clear Hn. by apply (promote_ok s hdr R i c r).
  - destruct Hrep as (He & ops & Hs & Hf & <-). pose proof (ho_length _ Hh) as Hl. assert (zlen hdr = 16) as Hz by (unfold zlen; by rewrite Hl). destruct (encode_short _ Hf) as [Hsh1 Hsh2].
    assert (zlen (expand ops) = 16384) as Hx by (unfold zlen; lia). destruct (room_ok max_bytes s _ Hm Hs) as (s1 & E1 & Hs1 & H5 & Hroom); [rewrite zlen_app; lia|]. rewrite E1. runr.
    unfold sdslen. rewrite (holds_len _ _ Hs1), zlen_app, Hz. destruct (holds_buf _ _ Hs1) as [rest Eb]. rewrite <- app_assoc in Eb.
    destruct (locate_ok (Z.of_nat i) ops (Z.to_nat (16 + zlen (encode ops))) hdr (0 :: rest) None 0 0 (16 + zlen (encode ops)) Hf) as (a & o & b & Eo & Hio & El).
    + unfold zlen in *. lia.
    + lia.
    + lia.
    + clear Hn Hx. rewrite Hz in El. change HLL_HDR_SIZE with 16. rewrite Eb, El. runr. subst ops. pose proof Hf as Hf'. apply list.Forall_app in Hf' as [_ Ho]. apply list.Forall_cons in Ho as [Ho _]. pose proof (op_len_pos o Ho). pose proof (op_bytes_pos o Ho).
      rewrite (proj2 (Z.eqb_neq (op_len o) 0)) by lia. cbn [orb]. rewrite encode_app, zlen_app. change (encode (o :: b)) with (op_bytes o ++ encode b). rewrite zlen_app. pose proof (zlen_nonneg (encode b)).
      rewrite Z.geb_leb, (proj2 (Z.leb_gt _ _)) by lia. change (op_bytes o ++ encode b) with (encode (o :: b)). rewrite <- encode_app, <- Eb.
      destruct (opcode_replace_ok hdr a o b i c (match reverse a with [] => None | _ :: a' => Some (16 + zlen (encode (reverse a'))) end) Hh He Hf HR) with (max_bytes := max_bytes) (s := s1) as (b0 & s' & Er & Es & Hup); try done; try lia.
      * intros ops'. by destruct (locate_boundary a None ops') as [Hb|[_ Hb]].
      * rewrite Er. runr. rewrite Z.add_0_l. by exists s'.
Qed.

Context {host : HostEndian}.

(** * Hashing an element *)

Lemma murmur_loop_ok data : forall n off h, 0 <= off -> off + 8 * Z.of_nat n <= zlen data -> exists h', murmur_loop n data off h = Ok h'.
Proof.
  induction n as [|n IH]; intros off h Ho Hl; cbn [murmur_loop]; [by exists h|]. unfold murmur_word. rewrite rdn_seg by lia. runr. apply IH; lia.
Qed.

Lemma murmur_tail_ok data : forall i off h, 0 <= off -> off + Z.of_nat i <= zlen data -> exists h', murmur_tail i data off h = Ok h'.
Proof.
  induction i as [|i IH]; intros off h Ho Hl; cbn [murmur_tail]; [by exists h|]. destruct (rd1_ok data (off + Z.of_nat i)) as (x & -> & _); [lia|]. runr. apply IH; lia.
Qed.

Lemma xor_shift_range h n : 0 <= h < 2 ^ 64 -> 0 <= n -> 0 <= Z.lxor h (Z.shiftr h n) < 2 ^ 64.
Proof.
  intros Hh Hn. assert (0 <= Z.shiftr h n <= h) as Hs.
  { split; [apply Z.shiftr_nonneg; lia|]. rewrite Z.shiftr_div_pow2 by done. pose proof (Z.pow_pos_nonneg 2 n). apply Z.div_le_upper_bound; nia. }
  split; [apply Z.lxor_nonneg; lia|]. destruct (Z.eq_dec (Z.lxor h (Z.shiftr h n)) 0) as [->|Hne]; [lia|].
  apply Z.log2_lt_pow2; [pose proof (proj2 (Z.lxor_nonneg h (Z.shiftr h n))); lia|]. pose proof (Z.log2_lxor h (Z.shiftr h n) ltac:(lia) ltac:(lia)) as Hl.
  pose proof (Z.log2_le_mono (Z.shiftr h n) h ltac:(lia)). pose proof (Z.log2_le_mono h (2 ^ 64 - 1) ltac:(lia)) as H64. change (Z.log2 (2 ^ 64 - 1)) with 63 in H64. lia.
Qed.

Lemma murmur_ok ele seed : exists h, MurmurHash64A ele (zlen ele) seed = Ok h /\ 0 <= h < 2 ^ 64.
Proof.
  unfold MurmurHash64A. pose proof (zlen_nonneg ele). pose proof (Z.div_mod (zlen ele) 8 ltac:(lia)) as Hdm. pose proof (Z.mod_pos_bound (zlen ele) 8 ltac:(lia)) as Hmb.
  assert (0 <= zlen ele / 8) by (apply Z.div_pos; lia). rewrite byte_and_7. destruct (murmur_loop_ok ele (Z.to_nat (zlen ele / 8)) 0 (Z.lxor seed (u64 (zlen ele * murmur_m)))) as (h1 & ->); [lia|lia|]. runr.
  destruct (murmur_tail_ok ele (Z.to_nat (zlen ele mod 8)) (zlen ele - zlen ele mod 8) h1) as (h2 & ->); [lia|lia|]. runr.
  eexists. split; [done|]. apply xor_shift_range; [apply wrapU_range; lia|done].
Qed.

Lemma ctz_le x : forall fuel n m, n <= m -> (Z.to_nat (m - n) < fuel)%nat -> Z.testbit x m = true -> n <= ctz fuel x n <= m.
Proof.
  induction fuel as [|fuel IH]; intros n m Hn Hf Hm; cbn [ctz]; [lia|]. destruct (Z.testbit x n) eqn:E; [lia|].
  assert (n <> m) by congruence. specialize (IH (n + 1) m ltac:(lia) ltac:(lia) Hm). lia.
Qed.

Lemma hllPatLen_ok ele : exists i c, hllPatLen ele (zlen ele) = Ok (c, Z.of_nat i) /\ (i < hll_n)%nat /\ 1 <= c <= 51.
Proof.
  unfold hllPatLen. destruct (murmur_ok ele 0xadc83b19) as (h & -> & Hh). runr. pose proof hll_n_eq.
  assert (Z.land h HLL_P_MASK = h mod 16384) as -> by (change HLL_P_MASK with (Z.ones 14); by rewrite Z.land_ones). pose proof (Z.mod_pos_bound h 16384 ltac:(lia)).
  exists (Z.to_nat (h mod 16384)). rewrite Z2Nat.id by lia. eexists. split; [done|]. split; [lia|].
  assert (0 <= ctz 64 (Z.lor (Z.shiftr h HLL_P) (Z.shiftl 1 HLL_Q)) 0 <= 50); [|lia]. apply ctz_le; [lia|lia|].
  rewrite Z.lor_spec. change (Z.testbit (Z.shiftl 1 HLL_Q) 50) with true. apply orb_true_r.
Qed.

(** * Adding an element *)

Lemma hll_enc s hdr R : hll_rep s hdr R -> exists e, rd1 (s_buf s) hdr_encoding = Ok e /\
  ((e = 1 /\ sparse_rep s hdr R) \/ (e = 0 /\ dense_rep s hdr R)).
Proof.
  intros (Hh & _ & Hr). pose proof (ho_length _ Hh) as Hl. change hdr_encoding with 4.
  assert (forall e tl, hdr !! 4%nat = Some e -> s_buf s = hdr ++ tl -> rd1 (s_buf s) 4 = Ok e) as Hrd.
  { intros e tl He E. apply rd1_lookup; [lia|]. rewrite E, lookup_app_l by lia. exact He. }
  destruct Hr as [Hr|Hr]; [exists 1|exists 0].
  - split; [|left; done]. destruct Hr as (He & ops & Hs & _). destruct (holds_buf _ _ Hs) as [rest E]. rewrite <- app_assoc in E. by apply (Hrd _ _ He E).
  - split; [|right; done]. destruct Hr as (He & _ & Hd). destruct (db_split _ _ _ Hd) as (body & rest & E & _). by apply (Hrd _ _ He E).
Qed.

(** The two encodings raise a register alike. *)
Lemma dense_update s hdr R i c : hdr_ok hdr -> length R = hll_n -> dense_rep s hdr R -> (i < hll_n)%nat -> is_reg c ->
  exists buf, hllDenseSet (s_buf s) HLL_HDR_SIZE (Z.of_nat i) c = Ok (buf, b2z (raised R i c)) /\ hll_rep (set_buf s buf) hdr (raise R i c).
Proof.
  intros Hh HR Hd Hi Hc. change HLL_HDR_SIZE with 16. destruct (dense_set_ok hdr R (s_buf s) i c Hh (proj2 (proj2 Hd)) Hi Hc) as (buf & E & Hb & Hz). exists buf. split; [exact E|].
  split; [exact Hh|]. split; [by rewrite raise_length|]. right. exact (dense_rep_set s hdr R _ buf (ho_length _ Hh) Hd Hb Hz).
Qed.

Lemma hllAdd_ok max_bytes s hdr R ele : 32 <= max_bytes < 2 ^ 62 -> hll_rep s hdr R ->
  exists i c s', hllPatLen ele (zlen ele) = Ok (c, Z.of_nat i) /\ hllAdd max_bytes s ele (zlen ele) = Ok (s', b2z (raised R i c)) /\ updates s' hdr R i c /\ (i < hll_n)%nat.
Proof.
  intros Hm Hrep. destruct (hllPatLen_ok ele) as (i & c & Ep & Hi & Hc). exists i, c. unfold hllAdd. destruct (hll_enc s hdr R Hrep) as (e & Ee & He). rewrite Ee. runr. rewrite Ep. runr.
  destruct Hrep as (Hh & HR & _). destruct He as [[-> Hs]|[-> Hd]]; cbn [Z.eqb].
  - destruct (sparse_set_ok max_bytes s hdr R i c Hm Hh HR Hs Hi) as (s' & E & Hup); [lia|]. exists s'. split; [done|]. split; [exact E|]. by split.
  - destruct (dense_update s hdr R i c Hh HR Hd Hi) as (buf & E & Hrep'); [unfold is_reg; lia|]. rewrite E. runr. eexists. split; [done|]. split; [done|]. split; [|done].
    exists hdr. by split.
Qed.
End update.
