(* ===== verification/HllMerge.v ===== *)
(** HllMerge: the operations of Hll.v on whole strings: creation, histogram,
    maximum of registers, storing the maximum. *)

From Stdlib Require Import ZArith Lia Bool.
From stdpp Require Import base list numbers decidable.
From S2P Require Import Prelude Bytes Sds SdsProofs SdsOps Hll HllBits HllHisto HllSparse HllSet HllRep HllUpdate.

Local Open Scope Z_scope.

(** * Headers *)

Lemma regs_ext buf buf' : (forall k, 16 <= k <= 12304 -> byte_at buf k = byte_at buf' k) -> regs_of buf 16 = regs_of buf' 16.
Proof.
  intros Hk. apply list_eq. intros i. destruct (decide (i < hll_n)%nat) as [Hi|Hi].
  - rewrite !regs_lookup by done. f_equal. pose proof (reg_byte_bound i Hi). unfold reg_at. by rewrite !Hk by lia.
  - rewrite !lookup_ge_None_2; [done|rewrite regs_length; lia|rewrite regs_length; lia].
Qed.

Lemma dense_holds s hdr R : length hdr = 16%nat -> dense_rep s hdr R ->
  exists body rest, holds s (hdr ++ body) /\ s_buf s = hdr ++ body ++ 0 :: rest /\ zlen body = 12288 /\ Forall is_byte body.
Proof.
  intros Hh (_ & (l & Hs & Hl) & Hd). destruct (db_split _ _ _ Hd) as (body & rest & E & Hb & Hbb). exists body, rest. split; [|done].
  assert (zlen (hdr ++ body) = 12304) as Hz by (rewrite zlen_app, Hb; unfold zlen; rewrite Hh; done).
  destruct (holds_buf _ _ Hs) as [rest' E']. assert (l = hdr ++ body) as <-; [|done]. rewrite E', app_assoc in E. apply app_inj_1 in E as [-> _]; [done|]. unfold zlen in *. lia.
Qed.

(** The same registers behind another header, in another block. *)
Lemma header_swap s hdr R : hll_rep s hdr R -> exists B, holds s (hdr ++ B) /\ zlen B <= 32768 /\
  forall s' hdr', hdr_ok hdr' -> hdr' !! 4%nat = hdr !! 4%nat -> holds s' (hdr' ++ B) -> hll_rep s' hdr' R.
Proof.
  intros (Hh & HR & [(He & ops & Hs & Hf & Hx)|Hd]).
  - exists (encode ops). split; [done|]. destruct (encode_short ops Hf) as [_ Hsh]. rewrite Hx in Hsh. split; [pose proof hll_n_eq; unfold zlen in *; lia|].
    intros s' hdr' Hh' H4 Hs'. split; [done|]. split; [done|]. left. split; [by rewrite H4|]. by exists ops.
  - destruct (dense_holds s hdr R (ho_length _ Hh) Hd) as (body & rest & Hs & E & Hb & Hbb). exists body. split; [done|]. split; [lia|]. intros s' hdr' Hh' H4 Hs'.
    destruct (holds_buf _ _ Hs') as [rest' E']. rewrite <- app_assoc in E'. pose proof (ho_length _ Hh). pose proof (ho_length _ Hh').
    split; [done|]. split; [done|]. right. destruct Hd as (He & _ & Hd). split; [by rewrite H4|]. split.
    + exists (hdr' ++ body). split; [done|]. rewrite zlen_app, Hb. unfold zlen. lia.
    + constructor; [by exists body, rest'|]. rewrite <- (db_regs _ _ _ Hd). apply regs_ext. intros k Hk. rewrite E, E'. unfold byte_at. rewrite !(lookup_app_r _ (body ++ _)) by lia.
      replace (length hdr') with (length hdr) by lia. rewrite (cons_middle 0 body rest), (cons_middle 0 body rest'), !app_assoc.
      by rewrite !(lookup_app_l (body ++ [0])) by (rewrite length_app; cbn [length]; unfold zlen in *; lia).
Qed.

(** * Maximum of registers *)

Definition vmax (A B : list Z) : list Z := zip_with Z.max A B.

Lemma vmax_length A B : length A = hll_n -> length B = hll_n -> length (vmax A B) = hll_n.
Proof. intros HA HB. unfold vmax. rewrite length_zip_with. lia. Qed.

Lemma vmax_regs A B : Forall is_reg A -> Forall is_reg B -> Forall is_reg (vmax A B).
Proof.
  intros HA HB. apply Forall_lookup. intros i x Hx. unfold vmax in Hx. apply lookup_zip_with_Some in Hx as (a & b & -> & Ha & Hb).
  pose proof (proj1 (Forall_lookup _ _) HA _ _ Ha) as H1. pose proof (proj1 (Forall_lookup _ _) HB _ _ Hb) as H2. unfold is_reg in *. lia.
Qed.

Lemma pad_length R : (length R <= hll_n)%nat -> length (pad R) = hll_n.
Proof. intros HR. unfold pad. rewrite length_app, length_replicate. lia. Qed.

(** One register more. *)
Lemma vmax_next M R v : length M = hll_n -> (length R < hll_n)%nat -> Forall is_reg M ->
  exists m, vmax M (pad R) !! length R = Some m /\ vmax M (pad (R ++ [v])) = <[length R := Z.max m v]> (vmax M (pad R)) /\ is_reg m.
Proof.
  intros HM HR Hr. destruct (lookup_lt_is_Some_2 M (length R)) as [m Hm]; [lia|]. exists m. pose proof (proj1 (Forall_lookup _ _) Hr _ _ Hm) as Hmr.
  assert (pad R !! length R = Some 0) as Hp by (unfold pad; rewrite lookup_app_r, Nat.sub_diag by done; apply lookup_replicate_2; lia).
  split; [|split; [|done]].
  - unfold vmax. apply lookup_zip_with_Some. exists m, 0. unfold is_reg in Hmr. split; [lia|done].
  - unfold vmax. rewrite <- pad_insert by done. rewrite <- (list_insert_id M (length R) m Hm) at 1. by rewrite <- insert_zip_with.
Qed.

Lemma vmax_zero M : length M = hll_n -> Forall is_reg M -> vmax M (pad []) = M.
Proof.
  intros HM Hr. apply list_eq. intros i. unfold vmax, pad. rewrite lookup_zip_with. cbn [app length]. rewrite Nat.sub_0_r. destruct (M !! i) as [m|] eqn:Em; [|done]. cbn.
  rewrite lookup_replicate_2 by (apply lookup_lt_Some in Em; lia). cbn. f_equal. pose proof (proj1 (Forall_lookup _ _) Hr _ _ Em) as H. unfold is_reg in H. lia.
Qed.

Section whole.
Context `{alloc : SdsAllocator} {laws : SdsAllocatorLaws}.

Lemma merge_runs M : length M = hll_n -> Forall is_reg M ->
  runs_ok (fun max _ _ => Ok max) (fun max i runlen regval => run_loop (Z.to_nat runlen) (fun max i => let* m := rd1 max i in if regval >? m then wr1 max i regval else Ok max) i max)
    (fun R m => m = vmax M (pad R)).
Proof.
  intros HM Hr. pose proof hll_n_eq as Hn. split.
  - intros R buf n -> H1 Hl. eexists. split; [done|]. rewrite pad_zeros; [done|]. unfold zlen in Hl. lia.
  - intros R buf n v -> H1 Hv Hl.
    destruct (run_loop_ok (fun max i => let* m := rd1 max i in if v >? m then wr1 max i v else Ok max) (fun j m => m = vmax M (pad (R ++ replicate (Z.to_nat (j - zlen R)) v)))
      (Z.to_nat n) (zlen R) (vmax M (pad R))) as (m' & E & H).
    + rewrite Z.sub_diag. cbn [replicate Z.to_nat]. by rewrite app_nil_r.
    + intros j a Hj ->. set (k := Z.to_nat (j - zlen R)) in *. assert (length (R ++ replicate k v) = Z.to_nat j) as Hk by (rewrite length_app, length_replicate; unfold zlen in *; lia).
      destruct (vmax_next M (R ++ replicate k v) v HM) as (m & Em & En & Hmr); [lia|done|]. rewrite Hk in Em, En. pose proof (zlen_nonneg R).
      replace (Z.to_nat (j + 1 - zlen R)) with (k + 1)%nat by lia. rewrite replicate_add. cbn [replicate]. rewrite app_assoc, En.
      rewrite (rd1_lookup _ j m) by (lia || done). runr. rewrite Z.gtb_ltb. destruct (Z.ltb_spec m v).
      * rewrite wr1_ok by (unfold zlen; apply lookup_lt_Some in Em; lia). eexists. split; [done|]. f_equal. lia.
      * eexists. split; [done|]. rewrite Z.max_l by lia. by rewrite list_insert_id.
    + exists m'. split; [done|]. replace (zlen R + Z.of_nat (Z.to_nat n) - zlen R) with n in H by lia. exact H.
Qed.

Lemma merge_dense_ok M buf hdr D : hdr_ok hdr -> dense_buf hdr D buf -> length M = hll_n -> Forall is_reg M ->
  forall n i, (i + n = hll_n)%nat -> merge_dense_loop n (Z.of_nat i) (vmax M (pad (take i D))) buf 16 = Ok (vmax M D).
Proof.
  intros Hh Hd HM Hr. destruct (dense_registers _ _ _ Hd) as [HD _]. induction n as [|n IH]; intros i Hi; cbn [merge_dense_loop].
  - rewrite take_ge by lia. by rewrite pad_full.
  - destruct (dense_read _ _ _ i Hh Hd) as (v & Ev & _ & Eg); [lia|]. rewrite Eg. runr. assert (length (take i D) = i) as Hl by (rewrite length_take; lia).
    destruct (vmax_next M (take i D) v HM) as (m & Em & En & _); [lia|done|]. rewrite Hl in Em, En. rewrite (rd1_lookup _ (Z.of_nat i) m); [|lia|by rewrite Nat2Z.id]. runr.
    rewrite wr1_ok by (unfold zlen; apply lookup_lt_Some in Em; lia). runr. rewrite Nat2Z.id, <- En. rewrite <- (take_S_r _ _ _ Ev).
    replace (Z.of_nat i + 1) with (Z.of_nat (S i)) by lia. apply IH. lia.
Qed.

Lemma hllMerge_ok M s hdr R : hll_rep s hdr R -> length M = hll_n -> Forall is_reg M -> hllMerge M s = Ok (vmax M R, true).
Proof.
  intros Hrep HM Hr. destruct (hll_enc s hdr R Hrep) as (e & Ee & He). unfold hllMerge. rewrite Ee. runr. destruct Hrep as (Hh & HR & _). destruct He as [[-> Hs]|[-> Hd]]; cbn [Z.eqb HLL_DENSE].
  - destruct Hs as (He & ops & Hs & Hf & Hx). destruct (holds_buf _ _ Hs) as [rest E]. rewrite <- app_assoc in E. pose proof (ho_length _ Hh) as Hl. assert (zlen hdr = 16) as Hz by (unfold zlen; by rewrite Hl).
    assert (zlen R = 16384) as HzR by (pose proof hll_n_eq; unfold zlen; lia). destruct (encode_short ops Hf) as [Hsh1 Hsh2].
    unfold sdslen. rewrite (holds_len _ _ Hs), zlen_app, Hz, E. change HLL_HDR_SIZE with 16.
    destruct (opcode_loop_ok _ _ _ (merge_runs M HM Hr) ops (Z.to_nat (16 + zlen (encode ops))) hdr (0 :: rest) [] M (16 + zlen (encode ops))) as (m & El & Hm).
    + exact Hf.
    + unfold zlen in *. lia.
    + lia.
    + rewrite Hx, HzR. done.
    + by rewrite vmax_zero.
    + rewrite Hz in El. change (zlen []) with 0 in El. rewrite El. runr. cbn [app] in Hm. rewrite Hx in Hm. rewrite pad_full in Hm by exact HR. rewrite Hx, HzR. by rewrite Hm.
  - change (Z.to_nat HLL_REGISTERS) with hll_n. unfold hllMergeDense. change HLL_HDR_SIZE with 16. pose proof (merge_dense_ok M (s_buf s) hdr R Hh (proj2 (proj2 Hd)) HM Hr hll_n 0 eq_refl) as E.
    rewrite take_0, vmax_zero in E by done. change (Z.of_nat 0) with 0 in E. unfold hll_n in E at 1. rewrite E. by runr.
Qed.

(** * Histogram *)

Lemma histo_runs : runs_ok (fun h _ runlen => histo_incr h 0 runlen) (fun h _ runlen regval => histo_incr h regval runlen) (fun R h => h = hist R).
Proof.
  split.
  - intros R h n -> H1 Hl. eexists. split; [|done]. apply histo_incr_ok; [unfold is_reg; lia|lia|lia].
  - intros R h n v -> H1 Hv Hl. eexists. split; [|done]. apply histo_incr_ok; [unfold is_reg; lia|lia|lia].
Qed.

Lemma count_histo_ok s hdr R : hll_rep s hdr R -> hllCountHisto s = Ok (hist R, false).
Proof.
  intros Hrep. destruct (hll_enc s hdr R Hrep) as (e & Ee & He). unfold hllCountHisto. rewrite Ee. runr. destruct Hrep as (Hh & HR & _). destruct He as [[-> Hs]|[-> Hd]]; cbn [Z.eqb HLL_DENSE HLL_SPARSE].
  - destruct Hs as (He & ops & Hs & Hf & Hx). destruct (holds_buf _ _ Hs) as [rest E]. rewrite <- app_assoc in E. pose proof (ho_length _ Hh) as Hl. assert (zlen hdr = 16) as Hz by (unfold zlen; by rewrite Hl).
    assert (zlen R = 16384) as HzR by (pose proof hll_n_eq; unfold zlen; lia). destruct (encode_short ops Hf) as [Hsh1 Hsh2].
    unfold hllSparseRegHisto, sdslen. rewrite (holds_len _ _ Hs), zlen_app, Hz, E. change HLL_HDR_SIZE with 16.
    destruct (opcode_loop_ok _ _ _ histo_runs ops (Z.to_nat (16 + zlen (encode ops) - 16)) hdr (0 :: rest) [] (hist []) (16 + (16 + zlen (encode ops) - 16))) as (h & El & Hh').
    + exact Hf.
    + unfold zlen in *. lia.
    + lia.
    + rewrite Hx, HzR. done.
    + done.
    + rewrite Hz in El. change (zlen []) with 0 in El. rewrite <- hist_nil, El. runr. cbn [app] in Hh'. rewrite Hx in Hh' |- *. rewrite HzR. by rewrite Hh'.
  - change HLL_HDR_SIZE with 16. destruct Hd as (_ & _ & Hd). pose proof (dense_length _ _ _ (ho_length _ Hh) Hd). rewrite dense_histo_ok by lia. runr. by rewrite (db_regs _ _ _ Hd).
Qed.

(** * Storing the maximum *)

Lemma store_step {A} (M R : list A) i m : M !! i = Some m -> (i < length R)%nat -> <[i := m]> (take i M ++ drop i R) = take (S i) M ++ drop (S i) R.
Proof.
  intros Hm Hi. pose proof (lookup_lt_Some _ _ _ Hm). rewrite (take_S_r _ _ _ Hm), <- app_assoc. rewrite insert_app_r_alt by (rewrite length_take; lia).
  rewrite length_take, Nat.min_l, Nat.sub_diag by lia. f_equal. destruct (lookup_lt_is_Some_2 R i Hi) as [r Hr]. by rewrite (drop_S _ _ _ Hr).
Qed.

Lemma compress_ok M hdr R : hdr_ok hdr -> length M = hll_n -> length R = hll_n -> Forall is_reg M ->
  forall n i buf, (i + n = hll_n)%nat -> dense_buf hdr (take i M ++ drop i R) buf ->
  exists buf', dense_compress_loop n (Z.of_nat i) buf 16 M = Ok buf' /\ dense_buf hdr M buf' /\ zlen buf' = zlen buf.
Proof.
  intros Hh HM HR Hr. induction n as [|n IH]; intros i buf Hi Hd; cbn [dense_compress_loop].
  - exists buf. rewrite take_ge, drop_ge, app_nil_r in Hd by lia. done.
  - destruct (lookup_lt_is_Some_2 M i) as [m Hm]; [lia|]. rewrite (rd1_lookup _ (Z.of_nat i) m) by (rewrite ?Nat2Z.id; lia || done). runr.
    destruct (dense_write hdr _ buf i m Hh Hd) as (buf1 & -> & Hd1 & Hz1); [lia|exact (proj1 (Forall_lookup _ _) Hr _ _ Hm)|]. runr. rewrite store_step in Hd1 by (done || lia).
    replace (Z.of_nat i + 1) with (Z.of_nat (S i)) by lia. destruct (IH (S i) buf1) as (buf' & E & Hd' & Hz'); [lia|done|]. exists buf'. split; [done|]. split; [done|]. lia.
Qed.

(** Registers that are below others. *)
Definition below (R M : list Z) : Prop := forall i r m, R !! i = Some r -> M !! i = Some m -> 0 <= r <= m.

Context {host : HostEndian}.

Lemma updates_rep s hdr R i c : updates s hdr R i c -> exists hdr', hll_rep s hdr' (raise R i c).
Proof. intros (hdr' & H & _). by exists hdr'. Qed.

Lemma merge_store_ok max_bytes M R : 32 <= max_bytes < 2 ^ 62 -> length M = hll_n -> length R = hll_n -> Forall is_reg M -> below R M ->
  forall n i s hdr, (i + n = hll_n)%nat -> hll_rep s hdr (take i M ++ drop i R) ->
  exists s' hdr', merge_store_loop max_bytes n (Z.of_nat i) M s = Ok s' /\ hll_rep s' hdr' M.
Proof.
  intros Hmb HM HR Hr Hbelow. induction n as [|n IH]; intros i s hdr Hi Hrep; cbn [merge_store_loop].
  - exists s, hdr. rewrite take_ge, drop_ge, app_nil_r in Hrep by lia. done.
  - destruct (lookup_lt_is_Some_2 M i) as [m Hm]; [lia|]. destruct (lookup_lt_is_Some_2 R i) as [r Hri]; [lia|]. pose proof (Hbelow i r m Hri Hm) as Hle. pose proof (proj1 (Forall_lookup _ _) Hr _ _ Hm) as Hmr. unfold is_reg in Hmr.
    rewrite (rd1_lookup _ (Z.of_nat i) m) by (rewrite ?Nat2Z.id; lia || done). runr.
    assert ((take i M ++ drop i R) !! i = Some r) as Hcur.
    { rewrite lookup_app_r by (rewrite length_take; lia). rewrite length_take, Nat.min_l, Nat.sub_diag, lookup_drop, Nat.add_0_r by lia. done. }
    assert (raise (take i M ++ drop i R) i m = take (S i) M ++ drop (S i) R) as Hraise.
    { unfold raise. rewrite Hcur. cbn [default]. rewrite Z.max_l by (unfold id; lia). apply store_step; [done|lia]. }
    replace (Z.of_nat i + 1) with (Z.of_nat (S i)) by lia. destruct (Z.eqb_spec m 0) as [H0|H0].
    + runr. apply (IH (S i) s hdr); [lia|]. rewrite <- Hraise, (raise_not _ _ _ _ Hcur) by lia. done.
    + destruct (hll_enc s hdr _ Hrep) as (e & Ee & He). rewrite Ee. runr. pose proof Hrep as (Hh & HL & _).
      destruct He as [[-> Hs]|[-> Hd]]; cbn [Z.eqb HLL_DENSE HLL_SPARSE].
      * destruct (sparse_set_ok max_bytes s hdr _ i m Hmb Hh HL Hs) as (s1 & E & Hup); [lia|lia|]. rewrite E. runr. destruct (updates_rep _ _ _ _ _ Hup) as [hdr1 Hrep1]. rewrite Hraise in Hrep1.
        apply (IH (S i) s1 hdr1); [lia|exact Hrep1].
      * destruct (dense_update s hdr _ i m Hh HL Hd) as (buf & E & Hrep1); [lia|unfold is_reg; lia|]. rewrite E. runr. rewrite Hraise in Hrep1.
        apply (IH (S i) (set_buf s buf) hdr); [lia|exact Hrep1].
Qed.

(** * Objects *)

Lemma xzero_once n s : xzero_loop (S n) s 16 16384 = let* s := put_bytes s 16 (HLL_SPARSE_XZERO_SET 16384) 2 in Ok (s, 18).
Proof. cbn [xzero_loop Z.eqb]. change (HLL_SPARSE_XZERO_MAX_LEN >? 16384) with false. change HLL_SPARSE_XZERO_MAX_LEN with 16384. destruct (put_bytes _ _ _ _) as [s'|]; [|done]. runr. by destruct n. Qed.

Definition new_hdr : list Z := [72; 89; 76; 76; 1; 0; 0; 0; 0; 0; 0; 0; 0; 0; 0; 0].

Lemma hll_create_ok : exists s, createHLLObject = Ok s /\ hll_rep s new_hdr (pad []).
Proof.
  unfold createHLLObject. change HLL_REGISTERS with 16384. change HLL_HDR_SIZE with 16. change HLL_SPARSE_XZERO_MAX_LEN with 16384. change (16 + (16384 + (16384 - 1)) / 16384 * 2) with 18.
  destruct (newlen_ok Zeros 18) as (s0 & l & E0 & Hs & Hi); [lia|done|]. destruct Hi as (_ & ->). rewrite E0. runr. pose proof hll_n_eq as Hn. change (Z.to_nat 16384) with hll_n.
  destruct hll_n as [|n]; [lia|]. clear Hn. rewrite xzero_once. assert (op_ok (OXZero 16384)) as Ho by (cbn; lia). destruct (xzero_bytes 16384) as (b & b1 & Ex & _); [lia|].
  destruct (overwrite s0 (replicate 16 0) [0; 0] [] (HLL_SPARSE_XZERO_SET 16384) Hs eq_refl) as (s1 & E1 & Hs1 & _). change (zlen (replicate 16 0)) with 16 in E1. change (zlen (HLL_SPARSE_XZERO_SET 16384)) with 2 in E1. rewrite E1. runr.
  cbn [Z.eqb Pos.eqb guardr]. runr. destruct (overwrite s1 [] [0; 0; 0; 0] (replicate 12 0 ++ HLL_SPARSE_XZERO_SET 16384) [72; 89; 76; 76] Hs1 eq_refl) as (s2 & E2 & Hs2 & _).
  change (zlen []) with 0 in E2. change (zlen [72; 89; 76; 76]) with 4 in E2. rewrite E2. runr. change hdr_encoding with (zlen [72; 89; 76; 76]). change HLL_SPARSE with 1.
  destruct (overwrite_byte s2 [72; 89; 76; 76] 0 (replicate 11 0 ++ HLL_SPARSE_XZERO_SET 16384) 1 Hs2) as (s3 & E3 & Hs3 & _). exists s3. split; [done|].
  split; [constructor; [done|repeat constructor; unfold is_byte; lia|done]|]. split; [apply pad_length; cbn [length]; lia|]. left. split; [done|].
  exists [OXZero 16384]. unfold encode, expand. cbn [map concat op_bytes]. rewrite !app_nil_r. split; [exact Hs3|]. split; [by repeat constructor|].
  unfold pad, op_regs. cbn [app length op_len op_val]. rewrite Nat.sub_0_r. pose proof hll_n_eq as He. replace (Z.to_nat 16384) with hll_n by lia. reflexivity.
Qed.

Lemma isHLL_ok s hdr R : hll_rep s hdr R -> isHLLObject s = Ok true.
Proof.
  intros Hrep. destruct (hll_enc s hdr R Hrep) as (e & Ee & He). destruct (header_swap s hdr R Hrep) as (B & Hs & _). pose proof Hrep as ([Hl Hb Hm] & _ & _).
  pose proof (zlen_nonneg B). assert (zlen hdr = 16) as Hz by (unfold zlen; by rewrite Hl). unfold isHLLObject, sdslen. rewrite (holds_len _ _ Hs), zlen_app, Hz. change HLL_HDR_SIZE with 16. rewrite (proj2 (Z.ltb_ge _ _)) by lia.
  destruct (holds_buf _ _ Hs) as [rest E]. rewrite rdn_prefix by (rewrite E, !zlen_app, Hz, zlen_cons; pose proof (zlen_nonneg rest); lia). runr. rewrite Ee. runr.
  replace (take (Z.to_nat 4) (s_buf s)) with [72; 89; 76; 76] by (rewrite E, <- app_assoc, take_app_le by (rewrite Hl; lia); done).
  destruct He as [[-> _]|[-> Hd]]; [done|]. destruct (dense_holds s hdr R Hl Hd) as (body & _ & Hs' & _ & Hzb & _).
  pose proof (holds_len _ _ Hs) as H1. rewrite (holds_len _ _ Hs'), !zlen_app, Hzb in H1. assert (zlen B = 12288) as -> by lia. done.
Qed.

Lemma invalidate_rep s hdr R : hll_rep s hdr R -> exists s', HLL_INVALIDATE_CACHE s = Ok s' /\ hll_rep s' (invalid_hdr hdr) R.
Proof.
  intros Hrep. destruct (header_swap s hdr R Hrep) as (B & Hs & _ & Hsw). pose proof Hrep as (Hh & _). destruct (invalidate_ok s hdr B Hh Hs) as (s' & E & (Hs' & _) & _). exists s'. split; [done|].
  destruct (invalid_hdr_ok hdr Hh) as [Hh' H4]. by apply Hsw.
Qed.

(** A copy, or the value itself. *)
Lemma unshare_ok copy s hdr R : hll_rep s hdr R -> exists s', unshare copy s = Ok s' /\ hll_rep s' hdr R.
Proof.
  intros Hrep. destruct copy; [|by exists s]. destruct (header_swap s hdr R Hrep) as (B & Hs & HB & Hsw). pose proof Hrep as (Hh & _). pose proof (ho_length _ Hh) as Hl.
  destruct (sds_dup_ok s _ Hs) as (s' & E & Hs'); [rewrite zlen_app; unfold zlen at 1; lia|]. exists s'. split; [done|]. by apply Hsw.
Qed.

(** The registers of a value. *)
Lemma hll_regs s hdr R : hll_rep s hdr R -> length R = hll_n /\ Forall is_reg R.
Proof.
  intros (_ & HR & [Hs|Hd]); (split; [done|]).
  - destruct Hs as (_ & ops & _ & Hf & <-). eapply list.Forall_impl; [exact (expand_regs ops Hf)|]. cbn beta. unfold is_reg. intros r Hr. lia.
  - exact (proj2 (dense_registers _ _ _ (proj2 (proj2 Hd)))).
Qed.

(** The dense form of either encoding. *)
Lemma to_dense_any s hdr R : hll_rep s hdr R -> exists s' hdr', hllSparseToDense s = Ok (s', true) /\ hdr_ok hdr' /\ dense_rep s' hdr' R.
Proof.
  intros Hrep. destruct (hll_enc s hdr R Hrep) as (e & Ee & [[He Hs]|[He Hd]]); pose proof Hrep as (Hh & HR & _).
  - destruct (sparse_to_dense_ok s hdr R Hh HR Hs) as (s' & E & Hh' & Hd). by exists s', (<[4%nat := 0]> hdr).
  - exists s, hdr. unfold hllSparseToDense. rewrite Ee. runr. by rewrite He.
Qed.
End whole.
