(* ===== verification/HllSpec.v ===== *)
(** HllSpec: PFADD, PFCOUNT and PFMERGE of Hll.v against arrays of registers.

    The keyspace is a finite map from keys to strings.  [run_pf] runs a sequence of
    commands on it, with the setting hll-sparse-max-bytes and the flag of each
    command that says whether its value is copied; [spec_pf] runs the sequence on
    arrays of registers. *)

From Stdlib Require Import ZArith Lia Bool.
From stdpp Require Import base list numbers decidable gmap.
From S2P Require Import Prelude Bytes Sds SdsProofs SdsOps SdsSpec Hll HllBits HllHisto HllSparse HllSet HllRep HllUpdate HllMerge.

Local Open Scope Z_scope.

Inductive pf_cmd :=
  | PfAdd (copy : bool) (key : list Z) (eles : list (list Z))
  | PfCountOne (copy : bool) (key : list Z)
  | PfCount (keys : list (list Z))
  | PfMerge (copy : bool) (dest : list Z) (keys : list (list Z)).

(** * Registers *)

Section patterns.
Context {host : HostEndian}.

Definition pattern (ele : list Z) : nat * Z :=
  match hllPatLen ele (zlen ele) with Ok (c, i) => (Z.to_nat i, c) | Err _ => (0%nat, 0) end.

Definition spec_add (R ele : list Z) : list Z := let '(i, c) := pattern ele in raise R i c.
Definition spec_adds (R : list Z) (eles : list (list Z)) : list Z := foldl spec_add R eles.
End patterns.

Definition spec_union (Rs : list (option (list Z))) : list Z :=
  foldl (fun M o => match o with Some R => vmax M R | None => M end) (pad []) Rs.

(** Whether registers grew shows in their sum. *)
Definition zsum (R : list Z) : Z := foldr Z.add 0 R.

Lemma regs_sum_insert R i r x : R !! i = Some r -> zsum (<[i := x]> R) = zsum R - r + x.
Proof.
  unfold zsum. revert i. induction R as [|a R IH]; intros [|i] Hr; try done; cbn in *.
  - injection Hr as ->. lia.
  - rewrite IH by done. lia.
Qed.

Lemma zsum_raise R i c : (i < length R)%nat -> zsum R <= zsum (raise R i c) /\ (raised R i c = true -> zsum R < zsum (raise R i c)) /\ (raised R i c = false -> raise R i c = R).
Proof.
  intros Hi. destruct (lookup_lt_is_Some_2 R i Hi) as [r Hr]. unfold raised. rewrite Hr. cbn [default]. change (id r) with r. destruct (Z.ltb_spec r c) as [Hlt|Hge].
  - rewrite (raise_up _ _ _ _ Hr Hlt), (regs_sum_insert _ _ _ _ Hr). split; [lia|]. split; [lia|done].
  - rewrite (raise_not _ _ _ _ Hr Hge). by split.
Qed.

(** * Commands *)

Section commands.
Context `{alloc : SdsAllocator} {host : HostEndian} (estimate : list Z -> Z) (max_bytes : Z).

Definition put_value (m : gmap (list Z) sds) (k : list Z) (v : option sds) : gmap (list Z) sds :=
  match v with Some o => <[k := o]> m | None => m end.

Definition run_pf1 (m : gmap (list Z) sds) (c : pf_cmd) : result (gmap (list Z) sds * pf_reply) :=
  match c with
  | PfAdd copy k eles => let* (v, r) := pfaddCommand max_bytes copy (m !! k) eles in Ok (put_value m k v, r)
  | PfCountOne copy k => let* (v, r) := pfcount_one estimate copy (m !! k) in Ok (put_value m k v, r)
  | PfCount ks => let* r := pfcount_union estimate ((m !!.) <$> ks) in Ok (m, r)
  | PfMerge copy k ks => let* (v, r) := pfmergeCommand max_bytes copy (m !! k) ((m !!.) <$> ks) in Ok (put_value m k v, r)
  end.

Fixpoint run_pf (m : gmap (list Z) sds) (cs : list pf_cmd) : result (gmap (list Z) sds * list pf_reply) :=
  match cs with
  | [] => Ok (m, [])
  | c :: cs =>
      let* (m, r) := run_pf1 m c in
      let* (m, rs) := run_pf m cs in
      Ok (m, r :: rs)
  end.

Definition spec_pf1 (M : gmap (list Z) (list Z)) (c : pf_cmd) : gmap (list Z) (list Z) * pf_reply :=
  match c with
  | PfAdd _ k eles =>
      let R := default (pad []) (M !! k) in
      let R' := spec_adds R eles in
      (<[k := R']> M, PfInt (if bool_decide (M !! k = None \/ R' <> R) then 1 else 0))
  | PfCountOne _ k => (M, PfInt (match M !! k with Some R => estimate (hist R) | None => 0 end))
  | PfCount ks => (M, PfInt (estimate (hist (spec_union ((M !!.) <$> ks)))))
  | PfMerge _ k ks => (<[k := spec_union ((M !!.) <$> k :: ks)]> M, PfOk)
  end.

Fixpoint spec_pf (M : gmap (list Z) (list Z)) (cs : list pf_cmd) : gmap (list Z) (list Z) * list pf_reply :=
  match cs with
  | [] => (M, [])
  | c :: cs => let '(M, r) := spec_pf1 M c in let '(M, rs) := spec_pf M cs in (M, r :: rs)
  end.

(** A cached cardinality that is valid is the estimate for the registers. *)
Definition cache_ok (hdr R : list Z) : Prop := Z.land (default 0 (hdr !! 15%nat)) 128 = 0 -> word_of_bytes (drop 8 hdr) = estimate (hist R).

Definition value_ok (s : sds) (R : list Z) : Prop := exists hdr, hll_rep s hdr R /\ cache_ok hdr R.

Definition keys_ok (m : gmap (list Z) sds) (M : gmap (list Z) (list Z)) : Prop := forall k, option_Forall2 value_ok (m !! k) (M !! k).

Context {laws : SdsAllocatorLaws}.
Context (max_ok : 32 <= max_bytes < 2 ^ 62) (estimate_ll : forall h, 0 <= estimate h < 2 ^ 63).

Lemma invalid_cache hdr R : hdr_ok hdr -> cache_ok (invalid_hdr hdr) R.
Proof.
  intros [Hl _ _]. unfold cache_ok, invalid_hdr. rewrite list_lookup_insert_eq by lia. cbn [default]. intros H. exfalso. apply (f_equal (fun z => Z.testbit z 7)) in H. unfold id in H.
  rewrite Z.land_spec, Z.lor_spec, orb_true_r in H. done.
Qed.

(** ** PFADD *)

Lemma pfadd_loop_ok eles : forall s hdr R u, hll_rep s hdr R -> 0 <= u ->
  exists s' hdr' u', pfadd_loop max_bytes s eles u = Ok (s', Some u') /\ hll_rep s' hdr' (spec_adds R eles) /\
    (u' = u -> hdr' = hdr /\ spec_adds R eles = R) /\ u <= u' /\ (u < u' -> zsum R < zsum (spec_adds R eles)) /\ zsum R <= zsum (spec_adds R eles).
Proof.
  induction eles as [|ele eles IH]; intros s hdr R u Hrep Hu; cbn [pfadd_loop spec_adds foldl].
  - exists s, hdr, u. split_and!; try done; lia.
  - destruct (hllAdd_ok max_bytes s hdr R ele max_ok Hrep) as (i & c & s1 & Ep & E & (hdr1 & Hrep1 & Hsame) & Hi). rewrite E. runr.
    assert (spec_add R ele = raise R i c) as Ea by (unfold spec_add, pattern; rewrite Ep; by rewrite Nat2Z.id). unfold spec_adds. cbn [foldl]. rewrite Ea. fold (spec_adds (raise R i c) eles).
    destruct (hll_regs s hdr R Hrep) as [HR _]. destruct (zsum_raise R i c) as (Z1 & Z2 & Z3); [by rewrite HR|]. destruct (raised R i c) eqn:Er; cbn [b2z Z.eqb].
    + destruct (IH s1 hdr1 _ (u + 1) Hrep1) as (s' & hdr' & u' & E' & Hr' & H1 & H2 & H3 & H4); [lia|]. exists s', hdr', u'. specialize (Z2 eq_refl). split_and!; [done|done|lia|lia|lia|lia].
    + specialize (Z3 eq_refl). rewrite Z3 in *. rewrite (Hsame eq_refl) in Hrep1. destruct (IH s1 hdr R u Hrep1 Hu) as (s' & hdr' & u' & E' & H). by exists s', hdr', u'.
Qed.

Lemma pfadd_ok copy kv oR eles : option_Forall2 value_ok kv oR ->
  let R := default (pad []) oR in let R' := spec_adds R eles in
  exists s', pfaddCommand max_bytes copy kv eles = Ok (Some s', PfInt (if bool_decide (oR = None \/ R' <> R) then 1 else 0)) /\ value_ok s' R'.
Proof.
  intros Hv R R'. unfold pfaddCommand.
  assert (exists s hdr u, (match kv with
    | None => let* o := createHLLObject in Ok (Some (o, 1))
    | Some o => let* hll := isHLLObject o in if negb hll then Ok None else let* o := unshare copy o in Ok (Some (o, 0))
    end) = Ok (Some (s, u)) /\ hll_rep s hdr R /\ 0 <= u /\ (u = 0 <-> oR <> None) /\ (u = 0 -> cache_ok hdr R)) as (s & hdr & u & E & Hrep & Hu & Hu0 & Hca).
  { destruct Hv as [o Ro (hdr & Hrep & Hc)|].
    - rewrite (isHLL_ok _ _ _ Hrep). runr. cbn [negb]. destruct (unshare_ok copy o hdr Ro Hrep) as (s & E & Hs). rewrite E. runr. exists s, hdr, 0. split_and!; done || lia.
    - destruct hll_create_ok as (s & E & Hs). rewrite E. runr. exists s, new_hdr, 1. split_and!; done || lia. }
  rewrite E. runr. destruct (pfadd_loop_ok eles s hdr R u Hrep Hu) as (s' & hdr' & u' & E' & Hr' & H1 & H2 & H3 & H4). rewrite E'. runr. fold R' in Hr', H1, H3, H4.
  destruct (Z.eqb_spec u' 0) as [H0|H0].
  - assert (u = 0) as Hu00 by lia. destruct (H1 ltac:(lia)) as [-> HR']. rewrite bool_decide_eq_false_2 by (intros [Ho|Hne]; [by apply Hu0 in Hu00|done]).
    exists s'. split; [done|]. rewrite HR' in *. exists hdr. split; [done|]. by apply Hca.
  - destruct (invalidate_rep s' hdr' R' Hr') as (s2 & E2 & Hs2). rewrite E2. runr. rewrite bool_decide_eq_true_2.
    + exists s2. split; [done|]. exists (invalid_hdr hdr'). split; [done|]. apply invalid_cache, Hr'.
    + destruct (decide (oR = None)) as [Hn|Hn]; [by left|right]. intros HR. apply Hu0 in Hn. specialize (H3 ltac:(lia)). rewrite HR in H3. lia.
Qed.

(** ** PFCOUNT *)

Lemma card_bytes card : map (fun k => Z.land (Z.shiftr card (8 * k)) 0xff) [0; 1; 2; 3; 4; 5; 6; 7] = le_bytes 8 card.
Proof.
  cbn [map le_bytes]. change 0xff with (Z.ones 8). rewrite !Z.land_ones, !Z.shiftr_div_pow2 by lia. rewrite !Z.div_div by lia. rewrite Z.div_1_r. reflexivity.
Qed.

Lemma or_bytes_le b0 b1 b2 b3 b4 b5 b6 b7 : Forall is_byte [b0; b1; b2; b3; b4; b5; b6; b7] ->
  word_of_bytes [b0; b1; b2; b3; b4; b5; b6; b7] = le_val [b0; b1; b2; b3; b4; b5; b6; b7].
Proof.
  rewrite !list.Forall_cons. unfold is_byte. intros (H0 & H1 & H2 & H3 & H4 & H5 & H6 & H7 & _). cbn [word_of_bytes le_val].
  rewrite (lor_disjoint b0) by lia. rewrite (lor_disjoint _ b2), (lor_disjoint _ b3), (lor_disjoint _ b4), (lor_disjoint _ b5), (lor_disjoint _ b6), (lor_disjoint _ b7) by lia. lia.
Qed.

Lemma or_card card : 0 <= card < 2 ^ 64 -> word_of_bytes (le_bytes 8 card) = card.
Proof.
  intros Hc. pose proof (le_bytes_byte 8 card) as Hb. pose proof (le_val_bytes 8 card) as Hv. cbn [le_bytes] in Hb, Hv |- *. rewrite or_bytes_le by done. rewrite Hv. by apply Z.mod_small.
Qed.

(** The last eight bytes of the header. *)
Lemma hdr_split hdr : hdr_ok hdr -> exists c7, hdr !! 15%nat = Some c7 /\ zlen (take 8 hdr) = 8 /\ zlen (drop 8 hdr) = 8.
Proof.
  intros [Hl _ _]. destruct (lookup_lt_is_Some_2 hdr 15) as [c7 Hc]; [lia|]. exists c7. unfold zlen. rewrite length_take, length_drop. split; [done|]. lia.
Qed.

Lemma cache_written hdr card : hdr_ok hdr -> hdr_ok (take 8 hdr ++ le_bytes 8 card) /\ (take 8 hdr ++ le_bytes 8 card) !! 4%nat = hdr !! 4%nat /\ drop 8 (take 8 hdr ++ le_bytes 8 card) = le_bytes 8 card.
Proof.
  intros [H1 H2 H3]. assert (length (take 8 hdr) = 8%nat) as Hl by (rewrite length_take; lia). split; [constructor|split].
  - rewrite length_app, Hl, length_le_bytes. lia.
  - apply Forall_app. split; [by apply Forall_take|apply le_bytes_byte].
  - rewrite take_app_le by lia. rewrite take_take. done.
  - rewrite lookup_app_l by lia. by rewrite lookup_take_lt by lia.
  - rewrite <- Hl at 1. apply drop_app_length.
Qed.

Lemma pfcount_one_ok copy kv oR : option_Forall2 value_ok kv oR ->
  exists kv', pfcount_one estimate copy kv = Ok (kv', PfInt (match oR with Some R => estimate (hist R) | None => 0 end)) /\ option_Forall2 value_ok kv' oR.
Proof.
  intros [o R (hdr & Hrep & Hc)|]; cbn [pfcount_one]; [|eexists; split; [done|constructor]]. rewrite (isHLL_ok _ _ _ Hrep). runr. cbn [negb].
  destruct (unshare_ok copy o hdr R Hrep) as (s & E & Hs). rewrite E. runr. destruct (header_swap s hdr R Hs) as (B & Hh & _ & Hsw). pose proof Hs as (Hok & _).
  destruct (hdr_split hdr Hok) as (c7 & E7 & Hz1 & Hz2). destruct (holds_buf _ _ Hh) as [rest Eb]. rewrite <- app_assoc in Eb. unfold HLL_VALID_CACHE. change (hdr_card + 7) with 15. change hdr_card with 8.
  rewrite (rd1_lookup _ 15 c7); [|lia|rewrite Eb, lookup_app_l by (rewrite (ho_length _ Hok); lia); done]. runr. change (Z.shiftl 1 7) with 128. destruct (Z.eqb_spec (Z.land c7 128) 0) as [Hv|Hv].
  - assert (s_buf s = take 8 hdr ++ drop 8 hdr ++ B ++ 0 :: rest) as Eb' by (by rewrite (app_assoc (take 8 hdr)), take_drop). rewrite Eb', rdn_mid by lia. runr. rewrite Hc by (by rewrite E7). eexists. split; [done|]. constructor. by exists hdr.
  - rewrite (count_histo_ok s hdr R Hs). runr. rewrite card_bytes. set (card := estimate (hist R)). rewrite <- (take_drop 8 hdr), <- app_assoc in Hh.
    destruct (overwrite s (take 8 hdr) (drop 8 hdr) B (le_bytes 8 card) Hh) as (s2 & E2 & Hs2 & _); [rewrite Hz2; by rewrite zlen_le_bytes|]. rewrite Hz1, zlen_le_bytes in E2. change (Z.of_nat 8) with 8 in E2. rewrite E2. runr.
    eexists. split; [done|]. constructor. destruct (cache_written hdr card Hok) as (C1 & C2 & C3). exists (take 8 hdr ++ le_bytes 8 card). split; [apply Hsw; [done|done|by rewrite <- app_assoc]|].
    unfold cache_ok. intros _. rewrite C3. apply or_card. pose proof (estimate_ll (hist R)). unfold card. lia.
Qed.

(** ** Several keys *)

Lemma merge_sources_ok kvs oRs : Forall2 (option_Forall2 value_ok) kvs oRs -> forall M d, length M = hll_n -> Forall is_reg M ->
  exists d', merge_sources kvs M d = Ok (foldl (fun M o => match o with Some R => vmax M R | None => M end) M oRs, d', None).
Proof.
  induction 1 as [|kv oR kvs oRs Hv _ IH]; intros M d HM Hr; cbn [merge_sources foldl]; [by exists d|]. destruct Hv as [o R (hdr & Hrep & _)|]; [|by apply IH].
  rewrite (isHLL_ok _ _ _ Hrep). runr. cbn [negb]. destruct (hll_enc o hdr R Hrep) as (e & -> & _). runr. rewrite (hllMerge_ok M o hdr R Hrep HM Hr). runr. cbn [negb].
  destruct (hll_regs o hdr R Hrep) as [HR Hrr]. apply IH; [by apply vmax_length|by apply vmax_regs].
Qed.

Lemma pad_regs : length (pad []) = hll_n /\ Forall is_reg (pad []).
Proof. split; [apply pad_length; cbn [length]; lia|]. unfold pad. cbn [app]. apply Forall_replicate. done. Qed.

(** The maximum is above each of its sources. *)
Lemma union_above oRs : (forall R, Some R ∈ oRs -> length R = hll_n /\ Forall is_reg R) -> forall M, length M = hll_n -> Forall is_reg M ->
  let U := foldl (fun M o => match o with Some R => vmax M R | None => M end) M oRs in length U = hll_n /\ Forall is_reg U /\ below M U.
Proof.
  assert (forall M, Forall is_reg M -> below M M) as Hrefl.
  { intros M Hr i r m H1 H2. rewrite H1 in H2. injection H2 as ->. pose proof (proj1 (Forall_lookup _ _) Hr _ _ H1) as H. unfold is_reg in H. lia. }
  induction oRs as [|[R|] oRs IH]; intros Hin M HM Hr; cbn [foldl]; [by auto| |apply IH; [|done|done]; intros R HR; apply Hin; by right].
  destruct (Hin R) as [HR Hrr]; [by left|]. destruct (IH ltac:(intros R' HR'; apply Hin; by right) (vmax M R)) as (H1 & H2 & H3); [by apply vmax_length|by apply vmax_regs|].
  split; [done|]. split; [done|]. intros i r u E1 E2. destruct (lookup_lt_is_Some_2 R i) as [q Hq]; [apply lookup_lt_Some in E1; lia|].
  assert (vmax M R !! i = Some (Z.max r q)) as Em by (unfold vmax; rewrite lookup_zip_with, E1; cbn; by rewrite Hq). specialize (H3 i _ u Em E2).
  pose proof (proj1 (Forall_lookup _ _) Hr _ _ E1) as H. unfold is_reg in H. lia.
Qed.

Lemma pfcount_union_ok kvs oRs : Forall2 (option_Forall2 value_ok) kvs oRs -> (forall R, Some R ∈ oRs -> length R = hll_n /\ Forall is_reg R) ->
  pfcount_union estimate kvs = Ok (PfInt (estimate (hist (spec_union oRs)))).
Proof.
  intros Hv Hin. destruct pad_regs as [P1 P2]. unfold pfcount_union. change (Z.to_nat HLL_REGISTERS) with hll_n.
  assert (replicate hll_n 0 = pad []) as -> by (unfold pad; cbn [app length]; by rewrite Nat.sub_0_r).
  destruct (merge_sources_ok kvs oRs Hv (pad []) false P1 P2) as (d & ->). runr. fold (spec_union oRs). destruct (union_above oRs Hin (pad []) P1 P2) as (U1 & U2 & _). fold (spec_union oRs) in U1, U2.
  rewrite raw_histo_ok by done. by runr.
Qed.

(** ** PFMERGE *)

Lemma vmax_zero_l R : length R = hll_n -> Forall is_reg R -> vmax (pad []) R = R.
Proof.
  intros HR Hr. rewrite <- (vmax_zero R HR Hr) at 2. apply list_eq. intros i. unfold vmax. rewrite !lookup_zip_with.
  destruct (pad [] !! i), (R !! i); cbn; try done. f_equal. apply Z.max_comm.
Qed.

Definition union_from (M : list Z) (oRs : list (option (list Z))) : list Z := foldl (fun M o => match o with Some R => vmax M R | None => M end) M oRs.

Lemma pfmerge_ok copy kv oR kvs oRs : option_Forall2 value_ok kv oR -> Forall2 (option_Forall2 value_ok) kvs oRs ->
  (forall R, Some R ∈ oR :: oRs -> length R = hll_n /\ Forall is_reg R) ->
  exists s', pfmergeCommand max_bytes copy kv kvs = Ok (Some s', PfOk) /\ value_ok s' (spec_union (oR :: oRs)).
Proof.
  intros Hv Hvs Hin. destruct pad_regs as [P1 P2]. unfold pfmergeCommand. change (Z.to_nat HLL_REGISTERS) with hll_n.
  assert (replicate hll_n 0 = pad []) as -> by (unfold pad; cbn [app length]; by rewrite Nat.sub_0_r).
  destruct (merge_sources_ok (kv :: kvs) (oR :: oRs) ltac:(by constructor) (pad []) false P1 P2) as (d & ->). runr. fold (spec_union (oR :: oRs)). set (R0 := default (pad []) oR).
  assert (length R0 = hll_n /\ Forall is_reg R0) as [H01 H02] by (unfold R0; destruct oR as [R|]; [apply Hin; by left|exact (conj P1 P2)]).
  assert (spec_union (oR :: oRs) = union_from R0 oRs) as EU.
  { unfold spec_union, union_from, R0. cbn [foldl]. destruct oR as [R|]; [|done]. cbn [default]. by rewrite vmax_zero_l. }
  destruct (union_above oRs ltac:(intros R HR; apply Hin; by right) R0 H01 H02) as (U1 & U2 & U3). fold (union_from R0 oRs) in U1, U2, U3. rewrite EU. set (U := union_from R0 oRs) in *.
  assert (exists s hdr, (match kv with None => createHLLObject | Some o => unshare copy o end) = Ok s /\ hll_rep s hdr R0) as (s & hdr & Es & Hs).
  { unfold R0. destruct Hv as [o R (hdr & Hrep & _)|].
    - destruct (unshare_ok copy o hdr R Hrep) as (s & E & Hs). exists s, hdr. split; [exact E|exact Hs].
    - destruct hll_create_ok as (s & E & Hs). exists s, new_hdr. split; [exact E|exact Hs]. }
  rewrite Es. runr. assert (exists s2 hdr2, (let* (kv, valid) := if d then hllSparseToDense s else Ok (s, true) in
    if negb valid then Ok (Some kv, PfInvalid) else
    let* kv := if d then let* buf := hllDenseCompress (s_buf kv) HLL_HDR_SIZE U in Ok (set_buf kv buf) else merge_store_loop max_bytes hll_n 0 U kv in
    let* kv := HLL_INVALIDATE_CACHE kv in Ok (Some kv, PfOk)) = (let* kv := HLL_INVALIDATE_CACHE s2 in Ok (Some kv, PfOk)) /\ hll_rep s2 hdr2 U) as (s2 & hdr2 & E2 & Hs2).
  { destruct d.
    - destruct (to_dense_any s hdr R0 Hs) as (s1 & hdr1 & E1 & Hh1 & Hd1). rewrite E1. runr. cbn [negb]. unfold hllDenseCompress. change (Z.to_nat HLL_REGISTERS) with hll_n. change HLL_HDR_SIZE with 16.
      destruct (compress_ok U hdr1 R0 Hh1 U1 H01 U2 hll_n 0 (s_buf s1) eq_refl (proj2 (proj2 Hd1))) as (buf & Eb & Hb & Hz). change (Z.of_nat 0) with 0 in Eb. rewrite Eb. runr.
      exists (set_buf s1 buf), hdr1. split; [done|]. split; [done|]. split; [done|]. right. exact (dense_rep_set s1 hdr1 R0 U buf (ho_length _ Hh1) Hd1 Hb Hz).
    - runr. cbn [negb]. destruct (merge_store_ok max_bytes U R0 max_ok U1 H01 U2 U3 hll_n 0 s hdr eq_refl Hs) as (s2 & hdr2 & Em & Hs2). change (Z.of_nat 0) with 0 in Em. rewrite Em. runr.
      exists s2, hdr2. split; [reflexivity|exact Hs2]. }
  rewrite E2. destruct (invalidate_rep s2 hdr2 U Hs2) as (s3 & E3 & Hs3). rewrite E3. runr. exists s3. split; [done|]. exists (invalid_hdr hdr2). split; [done|]. apply invalid_cache, Hs2.
Qed.

(** * Sequences of commands *)

Lemma keys_lookup m M (ks : list (list Z)) : keys_ok m M -> Forall2 (option_Forall2 value_ok) ((m !!.) <$> ks) ((M !!.) <$> ks).
Proof. intros Hk. induction ks as [|k ks IH]; [constructor|]. constructor; [apply Hk|done]. Qed.

Lemma keys_regs m M (ks : list (list Z)) R : keys_ok m M -> Some R ∈ ((M !!.) <$> ks) -> length R = hll_n /\ Forall is_reg R.
Proof.
  intros Hk Hin. apply list_elem_of_fmap in Hin as (k & E & _). specialize (Hk k). rewrite <- E in Hk. inversion Hk as [s ? (hdr & Hrep & _) Es|]. exact (hll_regs s hdr R Hrep).
Qed.

Lemma keys_put m M k s R : keys_ok m M -> value_ok s R -> keys_ok (<[k := s]> m) (<[k := R]> M).
Proof.
  intros Hk Hv k'. destruct (decide (k = k')) as [<-|Hne]; [rewrite !lookup_insert_eq; by constructor|]. rewrite !lookup_insert_ne by done. apply Hk.
Qed.

Lemma run_pf1_ok m M c : keys_ok m M -> exists m', run_pf1 m c = Ok (m', (spec_pf1 M c).2) /\ keys_ok m' (spec_pf1 M c).1.
Proof.
  intros Hk. destruct c as [copy k eles|copy k|ks|copy k ks]; cbn [run_pf1 spec_pf1 fst snd].
  - destruct (pfadd_ok copy _ _ eles (Hk k)) as (s & E & Hv). rewrite E. runr. eexists. split; [done|]. by apply keys_put.
  - destruct (pfcount_one_ok copy _ _ (Hk k)) as (kv & E & Hv). rewrite E. runr. eexists. split; [done|]. intros k'. destruct kv as [s|]; cbn [put_value]; [|apply Hk].
    destruct (decide (k = k')) as [<-|Hne]; [by rewrite lookup_insert_eq|]. rewrite lookup_insert_ne by done. apply Hk.
  - rewrite (pfcount_union_ok _ _ (keys_lookup m M ks Hk)) by (intros R HR; by apply (keys_regs m M ks)). runr. by exists m.
  - destruct (pfmerge_ok copy _ _ _ _ (Hk k) (keys_lookup m M ks Hk)) as (s & E & Hv); [intros R HR; by apply (keys_regs m M (k :: ks))|]. rewrite E. runr. eexists. split; [done|]. by apply keys_put.
Qed.

Lemma run_pf_ok cs : forall m M, keys_ok m M -> exists m', run_pf m cs = Ok (m', (spec_pf M cs).2) /\ keys_ok m' (spec_pf M cs).1.
Proof.
  induction cs as [|c cs IH]; intros m M Hk; cbn [run_pf spec_pf]; [by exists m|]. destruct (run_pf1_ok m M c Hk) as (m1 & E & H1). rewrite E. runr. destruct (spec_pf1 M c) as [M1 r]. cbn [fst snd] in *.
  destruct (IH m1 M1 H1) as (m2 & E2 & H2). rewrite E2. runr. destruct (spec_pf M1 cs) as [M2 rs]. by exists m2.
Qed.
End commands.

(** * Byte order *)

(** The hash reads words byte by byte on big-endian hosts, so that both kinds of
    hosts put an element in the same register. *)
Lemma murmur_words_neutral data off : Forall is_byte data -> murmur_word (host := true) data off = murmur_word (host := false) data off.
Proof.
  intros Hb. unfold murmur_word. destruct (rdn data off 8) as [bs|] eqn:E; [|done]. runr. pose proof (rdn_length _ _ _ _ E) as Hl. cbn [load]. unfold load. f_equal.
  assert (Forall is_byte bs) as Hbs.
  { unfold rdn in E. destruct (_ && _) in E; [|done]. injection E as <-. by apply Forall_take, Forall_drop. }
  unfold zlen in Hl. do 8 (destruct bs as [|? bs]; [cbn in Hl; lia|]). destruct bs as [|? bs]; [|cbn in Hl; lia]. by apply or_bytes_le.
Qed.

Lemma murmur_endian_neutral ele seed : Forall is_byte ele -> MurmurHash64A (host := true) ele (zlen ele) seed = MurmurHash64A (host := false) ele (zlen ele) seed.
Proof.
  intros Hb. unfold MurmurHash64A. assert (forall n off h, murmur_loop (host := true) n ele off h = murmur_loop (host := false) n ele off h) as ->; [|done].
  induction n as [|n IH]; intros off h; cbn [murmur_loop]; [done|]. rewrite murmur_words_neutral by done. destruct (murmur_word ele off); [|done]. runr. apply IH.
Qed.

(** C9: PFADD, PFCOUNT and PFMERGE keep arrays of 16384 registers: any sequence of
    commands on an empty keyspace, with any elements, keys, values that are copied
    before they are written, allocator and limit of at least 32 bytes on the sparse
    encoding, runs without fault and gives the replies of the arrays, raised by the
    elements' patterns and merged by their maximum, whatever the encoding a value
    has at the time and however often it changed; every value is left well formed,
    and a cardinality it caches is the estimate for its registers. *)
Theorem hll_refines_registers `{alloc : SdsAllocator} {host : HostEndian} (laws : SdsAllocatorLaws) (estimate : list Z -> Z) (max_bytes : Z) (cs : list pf_cmd) :
  32 <= max_bytes < 2 ^ 62 -> (forall h, 0 <= estimate h < 2 ^ 63) ->
  exists m, run_pf estimate max_bytes ∅ cs = Ok (m, (spec_pf estimate ∅ cs).2) /\ keys_ok estimate m (spec_pf estimate ∅ cs).1.
Proof.
  intros Hm He. apply (run_pf_ok estimate max_bytes Hm He). intros k. rewrite !lookup_empty. constructor.
Qed.

#[local] Existing Instances chunk_allocator chunk_allocator_laws.

(** Registers in use. *)
Definition used_registers (h : list Z) : Z := wrapU 63 (16384 - default 0 (h !! 0%nat)).

Definition hll_example : list pf_cmd :=
  [PfAdd false [107] [[97]; [98]]; PfCountOne true [107]; PfAdd true [108] [[97]]; PfCount [[107]; [108]; [109]]; PfMerge false [109] [[107]; [108]]; PfCountOne false [109]].

Lemma hll_refines_registers_witness :
  exists m, run_pf (host := false) used_registers 3000 ∅ hll_example = Ok (m, (spec_pf (host := false) used_registers ∅ hll_example).2) /\
    keys_ok used_registers m (spec_pf (host := false) used_registers ∅ hll_example).1.
Proof.
  apply (hll_refines_registers (host := false) chunk_allocator_laws used_registers 3000 hll_example); [done|]. intros h. by apply wrapU_range.
Defined.
