(* ===== verification/HllSafe.v ===== *)
(** HllSafe: the decoding loops of Hll.v on strings nobody wrote with PFADD.

    A client can SET any bytes under a key.  If they pass isHLLObject, the loops
    that read registers stay inside the block: a run of zeroes whose second byte is
    missing reads the terminator. *)

From Stdlib Require Import ZArith Lia Bool.
From stdpp Require Import base list numbers decidable.
From S2P Require Import Prelude Bytes Sds SdsProofs SdsOps SdsSpec Hll HllBits HllHisto HllSparse HllSet HllRep HllUpdate HllMerge.

Local Open Scope Z_scope.

(** What the macros read from any byte. *)
Lemma byte_lengths b : is_byte b -> 1 <= HLL_SPARSE_ZERO_LEN b <= 64 /\ 1 <= HLL_SPARSE_VAL_LEN b <= 4 /\ 1 <= HLL_SPARSE_VAL_VALUE b <= 32 /\ 0 <= Z.land b 0x3f < 64.
Proof.
  intros Hb. unfold HLL_SPARSE_ZERO_LEN, HLL_SPARSE_VAL_LEN, HLL_SPARSE_VAL_VALUE. change 0x3f with (Z.ones 6). change 0x3 with (Z.ones 2). change 0x1f with (Z.ones 5).
  rewrite !Z.land_ones by lia. pose proof (Z.mod_pos_bound b (2 ^ 6) ltac:(lia)). pose proof (Z.mod_pos_bound b (2 ^ 2) ltac:(lia)). pose proof (Z.mod_pos_bound (Z.shiftr b 2) (2 ^ 5) ltac:(lia)). lia.
Qed.

Lemma xzero_length b b1 : is_byte b -> is_byte b1 -> 1 <= HLL_SPARSE_XZERO_LEN b b1 <= 16384.
Proof.
  intros Hb Hb1. destruct (byte_lengths b Hb) as (_ & _ & _ & H). unfold HLL_SPARSE_XZERO_LEN. unfold is_byte in *. rewrite Z.lor_comm, lor_disjoint by lia. lia.
Qed.

Section any_bytes.
Context {A : Type} (on_zero : A -> Z -> Z -> result A) (on_val : A -> Z -> Z -> Z -> result A) (J : Z -> A -> Prop).

Definition runs_safe : Prop :=
  (forall acc i n, J i acc -> 0 <= i -> 1 <= n -> i + n <= 16384 -> exists acc', on_zero acc i n = Ok acc' /\ J (i + n) acc') /\
  (forall acc i n v, J i acc -> 0 <= i -> 1 <= n -> 1 <= v <= 32 -> i + n <= 16384 -> exists acc', on_val acc i n v = Ok acc' /\ J (i + n) acc').

Lemma opcode_loop_safe buf end_ : runs_safe -> Forall is_byte (take (Z.to_nat (end_ + 1)) buf) -> end_ < zlen buf ->
  forall fuel p i acc, 0 <= p -> end_ - p <= Z.of_nat fuel -> 0 <= i -> J i acc ->
  exists acc' i' valid, opcode_loop fuel on_zero on_val buf p end_ i acc = Ok (acc', i', valid) /\ J i' acc'.
Proof.
  intros [Hz Hv] Hb Hl. assert (forall p, 0 <= p <= end_ -> exists b, rd1 buf p = Ok b /\ is_byte b) as Hrd.
  { intros p Hp. destruct (rd1_ok buf p) as (b & E & Hlk); [lia|]. exists b. split; [done|].
    apply (proj1 (Forall_lookup _ _) Hb (Z.to_nat p)). by rewrite lookup_take_lt by lia. }
  induction fuel as [|fuel IH]; intros p i acc Hp Hf Hi HJ; cbn [opcode_loop].
  - rewrite (proj2 (Z.ltb_ge _ _)) by lia. by exists acc, i, true.
  - destruct (Z.ltb_spec p end_) as [Hpe|Hpe]; [|by exists acc, i, true]. destruct (Hrd p) as (b & -> & Hbb); [lia|]. runr. destruct (byte_lengths b Hbb) as (L1 & L2 & L3 & _). change HLL_REGISTERS with 16384.
    destruct (HLL_SPARSE_IS_ZERO b); [|destruct (HLL_SPARSE_IS_XZERO b)].
    + rewrite Z.gtb_ltb. destruct (Z.ltb_spec 16384 (HLL_SPARSE_ZERO_LEN b + i)); [by exists acc, i, false|].
      destruct (Hz acc i (HLL_SPARSE_ZERO_LEN b) HJ) as (acc' & -> & HJ'); [lia|lia|lia|]. runr. apply IH; [lia|lia|lia|done].
    + destruct (Hrd (p + 1)) as (b1 & -> & Hb1); [lia|]. runr. pose proof (xzero_length b b1 Hbb Hb1). rewrite Z.gtb_ltb. destruct (Z.ltb_spec 16384 (HLL_SPARSE_XZERO_LEN b b1 + i)); [by exists acc, i, false|].
      destruct (Hz acc i (HLL_SPARSE_XZERO_LEN b b1) HJ) as (acc' & -> & HJ'); [lia|lia|lia|]. runr. apply IH; [lia|lia|lia|done].
    + rewrite Z.gtb_ltb. destruct (Z.ltb_spec 16384 (HLL_SPARSE_VAL_LEN b + i)); [by exists acc, i, false|].
      destruct (Hv acc i (HLL_SPARSE_VAL_LEN b) (HLL_SPARSE_VAL_VALUE b) HJ) as (acc' & -> & HJ'); [lia|lia|lia|lia|]. runr. apply IH; [lia|lia|lia|done].
Qed.
End any_bytes.

(** * The three accumulators *)

Lemma histo_safe : runs_safe (fun h _ runlen => histo_incr h 0 runlen) (fun h _ runlen regval => histo_incr h regval runlen)
  (fun i h => length h = 64%nat /\ Forall (fun x => 0 <= x <= i) h).
Proof.
  assert (forall h i n v, length h = 64%nat /\ Forall (fun x => 0 <= x <= i) h -> 1 <= n -> i + n <= 16384 -> 0 <= v < 64 ->
    exists h', histo_incr h v n = Ok h' /\ length h' = 64%nat /\ Forall (fun x => 0 <= x <= i + n) h') as Hstep.
  { intros h i n v [Hl Hb] Hn Hi Hv. unfold histo_incr. destruct (rd1_ok h v) as (x & -> & Hx); [unfold zlen; lia|]. runr. pose proof (proj1 (Forall_lookup _ _) Hb _ _ Hx) as Hxb. cbn beta in Hxb.
    rewrite chk_i32_ok by lia. runr. rewrite wr1_ok by (unfold zlen; lia). eexists. split; [done|]. rewrite length_insert. split; [done|].
    apply Forall_insert; [|lia]. eapply list.Forall_impl; [exact Hb|]. cbn beta. intros y Hy. lia. }
  split; intros; apply Hstep; (done || lia).
Qed.

Lemma merge_safe : runs_safe (fun max _ _ => Ok max)
  (fun max i runlen regval => run_loop (Z.to_nat runlen) (fun max i => let* m := rd1 max i in if regval >? m then wr1 max i regval else Ok max) i max)
  (fun _ m => length m = hll_n /\ Forall is_reg m).
Proof.
  split; [by intros acc i n HJ _ _ _; exists acc|]. intros acc i n v HJ Hi Hn Hv Hl.
  destruct (run_loop_ok (fun max i => let* m := rd1 max i in if v >? m then wr1 max i v else Ok max) (fun _ m => length m = hll_n /\ Forall is_reg m) (Z.to_nat n) i acc HJ) as (m & E & HJ').
  - intros j a Hj [Ha Hr]. assert (0 <= j < zlen a) as Hja by (pose proof hll_n_eq; unfold zlen; lia). destruct (rd1_ok a j) as (x & -> & _); [done|]. runr. destruct (v >? x); [|by exists a]. rewrite wr1_ok by done. eexists. split; [done|].
    rewrite length_insert. split; [done|]. apply Forall_insert; [done|]. unfold is_reg. lia.
  - by exists m.
Qed.

Lemma to_dense_safe hdr L : hdr_ok hdr -> runs_safe (fun buf _ _ => Ok buf)
  (fun buf idx runlen regval => run_loop (Z.to_nat runlen) (fun buf i => HLL_DENSE_SET_REGISTER buf 16 i regval) idx buf)
  (fun _ buf => (exists R, dense_buf hdr R buf) /\ zlen buf = L).
Proof.
  intros Hh. split; [by intros acc i n HJ _ _ _; exists acc|]. intros acc i n v HJ Hi Hn Hv Hl.
  destruct (run_loop_ok (fun buf i => HLL_DENSE_SET_REGISTER buf 16 i v) (fun _ buf => (exists R, dense_buf hdr R buf) /\ zlen buf = L) (Z.to_nat n) i acc HJ) as (m & E & HJ').
  - intros j a Hj [[R Hd] Hz]. destruct (dense_write hdr R a (Z.to_nat j) v Hh Hd) as (a' & Ea & Hd' & Hz'); [pose proof hll_n_eq; lia|lia|]. rewrite Z2Nat.id in Ea by lia. exists a'. split; [done|]. split; [by eexists|lia].
  - by exists m.
Qed.

(** * Strings that pass the check *)

Section checked.
Context `{alloc : SdsAllocator} {laws : SdsAllocatorLaws} {host : HostEndian}.

(** They are valid dense strings, or have a header and any opcodes. *)
Lemma checked_cases s l : holds s l -> Forall is_byte l -> isHLLObject s = Ok true ->
  exists hdr B, l = hdr ++ B /\ hdr_ok hdr /\ (hdr !! 4%nat = Some 1 \/ exists R, hll_rep s hdr R).
Proof.
  intros Hs Hb Hc. destruct (holds_buf _ _ Hs) as [rest E]. unfold isHLLObject, sdslen in Hc. rewrite (holds_len _ _ Hs) in Hc. change HLL_HDR_SIZE with 16 in Hc. destruct (Z.ltb_spec (zlen l) 16) as [|Hl]; [done|].
  apply bindr_ok in Hc as (magic & Em & Hc). apply bindr_ok in Hc as (enc & Ee & Hc). rewrite rdn_prefix in Em by (rewrite E, zlen_app, zlen_cons; pose proof (zlen_nonneg rest); lia).
  injection Em as <-. injection Hc as Hc. apply andb_true_iff in Hc as [Hc Hc3]. apply andb_true_iff in Hc as [Hc1 Hc2]. apply bool_decide_eq_true in Hc1.
  exists (take 16 l), (drop 16 l). split; [by rewrite take_drop|]. assert (length (take 16 l) = 16%nat) as H16 by (rewrite length_take; unfold zlen in Hl; lia).
  assert (hdr_ok (take 16 l)) as Hh.
  { constructor; [done|by apply Forall_take|]. rewrite take_take. rewrite E, take_app_le in Hc1 by (unfold zlen in Hl; lia). done. }
  split; [done|]. apply rd1_inv in Ee as [_ Ee]. change (Z.to_nat hdr_encoding) with 4%nat in Ee. rewrite E, lookup_app_l in Ee by (unfold zlen in Hl; lia).
  pose proof (proj1 (Forall_lookup _ _) Hb _ _ Ee) as Hbe. unfold is_byte in Hbe. change HLL_MAX_ENCODING with 1 in Hc2. rewrite Z.gtb_ltb, negb_true_iff in Hc2. apply Z.ltb_ge in Hc2.
  assert (take 16 l !! 4%nat = Some enc) as H4 by (by rewrite lookup_take_lt by lia). destruct (Z.eq_dec enc 1) as [->|Hne]; [by left|]. assert (enc = 0) as -> by lia. right.
  change (0 =? HLL_DENSE) with true in Hc3. cbn [andb] in Hc3. rewrite negb_involutive in Hc3. apply Z.eqb_eq in Hc3. change HLL_DENSE_SIZE with 12304 in Hc3.
  exists (regs_of (s_buf s) 16). split; [done|]. split; [apply regs_length|]. right. split; [done|]. split; [by exists l|]. constructor; [|done].
  exists (drop 16 l), rest. split; [by rewrite E, app_assoc, take_drop|]. unfold zlen in *. rewrite length_drop. split; [lia|by apply Forall_drop].
Qed.

Lemma sparse_loop_bytes s l : holds s l -> Forall is_byte l -> Forall is_byte (take (Z.to_nat (zlen l + 1)) (s_buf s)) /\ zlen l < zlen (s_buf s).
Proof.
  intros Hs Hb. destruct (holds_buf _ _ Hs) as [rest E]. rewrite E, (cons_middle 0), app_assoc. pose proof (zlen_nonneg rest). rewrite !zlen_app. change (zlen [0]) with 1. split; [|lia].
  rewrite take_app_le by (rewrite length_app; unfold zlen; cbn [length]; lia). apply Forall_take, Forall_app. split; [done|by repeat constructor].
Qed.

Lemma read_encoding s l e : holds s l -> 16 <= zlen l -> l !! 4%nat = Some e -> rd1 (s_buf s) hdr_encoding = Ok e.
Proof.
  intros Hs Hl He. destruct (holds_buf _ _ Hs) as [rest E]. apply rd1_lookup; [done|]. rewrite E, lookup_app_l; [done|]. change (Z.to_nat hdr_encoding) with 4%nat. unfold zlen in Hl. lia.
Qed.

Lemma checked_count s l : holds s l -> Forall is_byte l -> 16 <= zlen l -> l !! 4%nat = Some 1 ->
  exists h invalid, hllCountHisto s = Ok (h, invalid) /\ length h = 64%nat.
Proof.
  intros Hs Hb Hl He. destruct (sparse_loop_bytes s l Hs Hb) as [Hbb Hlt]. unfold hllCountHisto. rewrite (read_encoding s l 1 Hs Hl He). runr. cbn [Z.eqb HLL_DENSE HLL_SPARSE]. unfold hllSparseRegHisto, sdslen. rewrite (holds_len _ _ Hs). change HLL_HDR_SIZE with 16.
  destruct (opcode_loop_safe _ _ _ (s_buf s) (16 + (zlen l - 16)) histo_safe) with (fuel := Z.to_nat (zlen l - 16)) (p := 16) (i := 0) (acc := replicate 64 0) as (h & i & valid & El & Hlen & _);
    [by replace (16 + (zlen l - 16)) with (zlen l) by lia|lia|lia|lia|lia|split; [done|by apply Forall_replicate]|]. rewrite El. runr. eexists _, _. by split.
Qed.

Lemma checked_merge s l M : holds s l -> Forall is_byte l -> 16 <= zlen l -> l !! 4%nat = Some 1 -> length M = hll_n -> Forall is_reg M ->
  exists M' valid, hllMerge M s = Ok (M', valid) /\ length M' = hll_n /\ Forall is_reg M'.
Proof.
  intros Hs Hb Hl He HM Hr. destruct (sparse_loop_bytes s l Hs Hb) as [Hbb Hlt]. unfold hllMerge. rewrite (read_encoding s l 1 Hs Hl He). runr. cbn [Z.eqb HLL_DENSE]. unfold sdslen. rewrite (holds_len _ _ Hs). change HLL_HDR_SIZE with 16.
  destruct (opcode_loop_safe _ _ _ (s_buf s) (zlen l) merge_safe Hbb Hlt (Z.to_nat (zlen l)) 16 0 M) as (M' & i & valid & El & HJ); [lia|lia|lia|by split|]. rewrite El. runr. eexists _, _. by split.
Qed.

Lemma checked_to_dense s l hdr B : l = hdr ++ B -> holds s l -> Forall is_byte l -> hdr_ok hdr -> hdr !! 4%nat = Some 1 ->
  exists s' valid, hllSparseToDense s = Ok (s', valid) /\ (if (valid : bool) then exists hdr' R, hll_rep s' hdr' R else s' = s).
Proof.
  intros El Hs Hb Hh He. pose proof (ho_length _ Hh) as H16. pose proof (zlen_nonneg B). assert (zlen hdr = 16) as Hz by (unfold zlen; by rewrite H16).
  assert (16 <= zlen l) as Hl by (rewrite El, zlen_app; lia). assert (l !! 4%nat = Some 1) as He' by (rewrite El, lookup_app_l by lia; done).
  destruct (sparse_loop_bytes s l Hs Hb) as [Hbb Hlt]. destruct (holds_buf _ _ Hs) as [rest E]. unfold hllSparseToDense. rewrite (read_encoding s l 1 Hs Hl He'). runr. cbn [Z.eqb HLL_DENSE].
  change hdr_encoding with 4. change HLL_HDR_SIZE with 16. change HLL_DENSE with 0. destruct (dense_new hdr Hh) as (d0 & d1 & -> & E1 & d & E2 & Hh' & Hd). runr. rewrite rdn_prefix by lia. runr.
  replace (take (Z.to_nat 16) (s_buf s)) with hdr by (rewrite E, El, <- app_assoc, take_app_le, take_ge by lia; done). rewrite E1. runr. rewrite E2. runr. unfold sdslen. rewrite (holds_len _ _ Hs).
  destruct (opcode_loop_safe _ _ _ (s_buf s) (zlen l) (to_dense_safe _ (zlen (s_buf d)) Hh') Hbb Hlt (Z.to_nat (zlen l)) 16 0 (s_buf d)) as (buf & i & valid & Eo & [R Hbuf] & Hzb);
    [lia|lia|lia|split; [exists (pad []); apply Hd|done]|]. rewrite Eo. runr. destruct (negb valid || negb (i =? HLL_REGISTERS)); [by exists s, false|]. eexists _, true. split; [done|].
  exists (<[4%nat := 0]> hdr), R. split; [exact Hh'|]. split; [exact (proj1 (dense_registers _ _ _ Hbuf))|]. right. exact (dense_rep_set d _ _ R buf (ho_length _ Hh') Hd Hbuf Hzb).
Qed.
End checked.

(** C12: a client can store any bytes under a key: if they pass isHLLObject, counting
    their registers, merging them into an array of registers and converting them to
    the dense form run without a fault, whatever opcodes they hold; the array keeps
    its size and its values, and the conversion either reports the string as not
    valid and leaves it, or makes a valid dense string. *)
Theorem hll_untrusted_safe `{alloc : SdsAllocator} {host : HostEndian} (laws : SdsAllocatorLaws) (s : sds) (l M : list Z) :
  holds s l -> Forall is_byte l -> isHLLObject s = Ok true -> length M = hll_n -> Forall is_reg M ->
  (exists h invalid, hllCountHisto s = Ok (h, invalid) /\ length h = 64%nat) /\
  (exists M' valid, hllMerge M s = Ok (M', valid) /\ length M' = hll_n /\ Forall is_reg M') /\
  (exists s' valid, hllSparseToDense s = Ok (s', valid) /\ (if (valid : bool) then exists hdr R, hll_rep s' hdr R else s' = s)).
Proof.
  intros Hs Hb Hc HM Hr. destruct (checked_cases s l Hs Hb Hc) as (hdr & B & El & Hh & [He|[R Hrep]]).
  - pose proof (ho_length _ Hh) as H16. assert (16 <= zlen l) as Hl by (rewrite El, zlen_app; pose proof (zlen_nonneg B); unfold zlen at 1; lia).
    assert (l !! 4%nat = Some 1) as He' by (rewrite El, lookup_app_l by lia; done).
    split; [by apply (checked_count s l)|]. split; [by apply (checked_merge s l)|by apply (checked_to_dense s l hdr B)].
  - destruct (hll_regs s hdr R Hrep) as [HR Hrr]. split; [exists (hist R), false; split; [by apply (count_histo_ok s hdr)|apply hist_length]|]. split.
    + exists (vmax M R), true. split; [by apply (hllMerge_ok M s hdr)|]. split; [by apply vmax_length|by apply vmax_regs].
    + destruct (to_dense_any s hdr R Hrep) as (s' & hdr' & E & Hh' & Hd). exists s', true. split; [done|]. exists hdr', R. split; [done|]. split; [done|by right].
Qed.

#[local] Existing Instances chunk_allocator chunk_allocator_laws.

(** A run of 255 zeroes, and the first of the two bytes of a run of 16129. *)
Definition truncated : list Z := [72; 89; 76; 76; 1; 0; 0; 0; 0; 0; 0; 0; 0; 0; 0; 128; 64; 254; 127].

Lemma hll_untrusted_safe_witness : exists s, sdsnewlen (InitFrom truncated) 19 = Ok s /\ exists h invalid, hllCountHisto s = Ok (h, invalid) /\ length h = 64%nat.
Proof.
  destruct (newlen_ok (InitFrom truncated) 19) as (s & l & E & Hs & _ & _ & Hl); [lia|by intros bs [= <-]|]. exists s. split; [exact E|].
  assert (match sdsnewlen (InitFrom truncated) 19 with Ok s => isHLLObject s | Err e => Err e end = Ok true) as Hc by (vm_compute; reflexivity). rewrite E in Hc.
  apply (hll_untrusted_safe (host := false) chunk_allocator_laws s truncated (pad [])).
  - by rewrite Hl in Hs.
  - repeat constructor; unfold is_byte; lia.
  - exact Hc.
  - apply pad_length. cbn [length]. lia.
  - unfold pad. cbn [app]. apply Forall_replicate. done.
Defined.
