(* ===== verification/HllTrunc.v ===== *)
(** HllTrunc: sparse strings of Hll.v that end in the middle of an opcode.

    The decoding loops look for the end of the string only before an opcode, so
    that the second byte of a long run of zeroes may be the terminator behind the
    string.  Here is what such strings stand for and what an update makes of
    them. *)

From Stdlib Require Import ZArith Lia Bool.
From stdpp Require Import base list numbers decidable.
From S2P Require Import Prelude Bytes Sds SdsProofs SdsOps SdsSpec Hll HllBits HllHisto HllSparse HllSet HllRep HllMerge.

Local Open Scope Z_scope.

Lemma xzero_split n : 1 <= n <= 16384 -> op_bytes (OXZero n) = [64 + (n - 1) / 256; (n - 1) mod 256].
Proof.
  intros Hn. cbn [op_bytes]. unfold HLL_SPARSE_XZERO_SET.
  assert (Z.land (n - 1) 0xff = (n - 1) mod 256) as -> by (change 0xff with (Z.ones 8); by rewrite Z.land_ones).
  rewrite Z.shiftr_div_pow2 by lia. change (2 ^ 8) with 256. pose proof (Z.mod_pos_bound (n - 1) 256 ltac:(lia)).
  assert (0 <= (n - 1) / 256 < 64) by (split; [apply Z.div_pos; lia|apply Z.div_lt_upper_bound; lia]).
  rewrite (wrapU_small 8 ((n - 1) mod 256)) by lia. f_equal.
  pose proof (in_range_forallb (fun h => u8 (Z.lor h HLL_SPARSE_XZERO_BIT) =? 64 + h) 0 64 ((n - 1) / 256)
    ltac:(vm_compute; reflexivity) ltac:(lia)) as H'. by apply Z.eqb_eq in H'.
Qed.

(** The first byte of a run of [256 * h + 1] zeroes, or of up to 255 more. *)
Lemma xzero_half h : 0 <= h < 64 -> op_bytes (OXZero (256 * h + 1)) = [64 + h; 0].
Proof.
  intros Hh. rewrite xzero_split by lia. replace (256 * h + 1 - 1) with (h * 256) by lia.
  by rewrite Z.div_mul, Z.mod_mul by lia.
Qed.

(** A header, opcodes, and the first byte of a last one. *)
Definition cut (hdr : list Z) (ops : list opcode) (h : Z) : list Z := hdr ++ encode ops ++ [64 + h].

Lemma encode_one o : encode [o] = op_bytes o.
Proof. unfold encode. cbn [map concat]. apply app_nil_r. Qed.

Lemma zlen_cut hdr ops h : length hdr = 16%nat -> zlen (cut hdr ops h) = 17 + zlen (encode ops).
Proof. intros Hl. unfold cut. rewrite !zlen_app, zlen_one. unfold zlen at 1. lia. Qed.

Section cut_strings.
Context `{alloc : SdsAllocator} {laws : SdsAllocatorLaws}.

Lemma cut_buf s hdr ops h : 0 <= h < 64 -> holds s (cut hdr ops h) ->
  exists rest, s_buf s = hdr ++ encode (ops ++ [OXZero (256 * h + 1)]) ++ rest.
Proof.
  intros Hh Hs. destruct (holds_buf _ _ Hs) as [rest E]. exists rest. rewrite E. unfold cut.
  rewrite encode_app, encode_one, xzero_half by done. by rewrite <- !app_assoc.
Qed.

(** They are counted as if the terminator were the last byte. *)
Lemma cut_count s hdr ops h : hdr_ok hdr -> hdr !! 4%nat = Some 1 -> Forall op_ok ops -> 0 <= h < 64 ->
  zlen (expand ops) + (256 * h + 1) <= 16384 -> holds s (cut hdr ops h) ->
  exists hi, hllCountHisto s = Ok (hi, negb (zlen (expand ops) + (256 * h + 1) =? 16384)).
Proof.
  intros Hh He Hf Hr Hx Hs. pose proof (ho_length _ Hh) as Hl. destruct (cut_buf s hdr ops h Hr Hs) as [rest E].
  assert (Forall op_ok (ops ++ [OXZero (256 * h + 1)])) as Hf' by (apply Forall_app; split; [done|]; repeat constructor; lia).
  unfold hllCountHisto. rewrite (rd1_lookup _ hdr_encoding 1); [|done|rewrite E, lookup_app_l by (change (Z.to_nat hdr_encoding) with 4%nat; lia); done].
  runr. cbn [Z.eqb HLL_DENSE HLL_SPARSE]. unfold hllSparseRegHisto, sdslen. rewrite (holds_len _ _ Hs), zlen_cut by done.
  change HLL_HDR_SIZE with 16. assert (zlen hdr = 16) as Hz by (unfold zlen; lia).
  assert (zlen (encode (ops ++ [OXZero (256 * h + 1)])) = zlen (encode ops) + 2) as Ez by (rewrite encode_app, encode_one, zlen_app; done).
  assert (zlen (expand (ops ++ [OXZero (256 * h + 1)])) = zlen (expand ops) + (256 * h + 1)) as Ex.
  { rewrite expand_app, zlen_app. f_equal. unfold expand. cbn [map concat]. rewrite app_nil_r. apply op_regs_len. cbn. lia. }
  destruct (encode_short _ Hf) as [_ Hsh]. pose proof (zlen_nonneg ops).
  destruct (opcode_loop_ends _ _ _ histo_runs (ops ++ [OXZero (256 * h + 1)]) (Z.to_nat (17 + zlen (encode ops) - 16)) hdr rest [] (hist [])
    (16 + (17 + zlen (encode ops) - 16)) Hf') as (hi & El & _).
  - rewrite length_app. cbn [length]. unfold zlen in *. lia.
  - right. split; [lia|]. right. by exists ops, (256 * h + 1).
  - rewrite Ex. change (zlen []) with 0. lia.
  - done.
  - rewrite Hz, <- E in El. change (zlen []) with 0 in El. rewrite <- hist_nil, El, Ex. runr. by eexists.
Qed.

(** * Updating *)

(** The scan for neighbours goes over an opcode that is not followed by a value. *)
Lemma merge_skip n s P o tl end_ : op_ok o -> s_buf s = P ++ op_bytes o ++ tl -> zlen P < end_ ->
  (is_val_op o = true -> exists o' tl', op_ok o' /\ is_val_op o' = false /\ tl = op_bytes o' ++ tl') ->
  merge_loop (S n) s (zlen P) end_ = merge_loop n s (zlen P + zlen (op_bytes o)) end_.
Proof.
  intros Ho E Hlt Hv. cbn [merge_loop]. rewrite (proj2 (Z.ltb_lt _ _)) by done. rewrite E.
  destruct o as [k|k|v k]; cbn [op_ok op_bytes] in *.
  - destruct (zero_byte k Ho) as (b & -> & _ & B1 & B2 & _). cbn [app]. rewrite rd1_mid by done. runr. by rewrite B2, B1.
  - destruct (xzero_bytes k Ho) as (b & b1 & -> & _ & _ & B1 & B2 & _). cbn [app]. rewrite rd1_mid by done. runr. by rewrite B2.
  - destruct Ho as [Ho1 Ho2]. destruct (val_byte v k Ho1 Ho2) as (b & -> & _ & B1 & B2 & B3 & B4 & B5). cbn [app]. rewrite rd1_mid by done. runr. rewrite B2, B1.
    destruct (Hv eq_refl) as (o' & tl' & Ho' & Hv' & ->). destruct (next_val o' [] Ho') as (b1 & tl1 & Eb & Hb & _). rewrite encode_one in Eb. rewrite Eb.
    change (zlen [b]) with 1. destruct (zlen P + 1 <? end_); [|done]. rewrite (cons_middle b), app_assoc. cbn [app]. rewrite rd1_mid by (rewrite zlen_app, zlen_one; lia). runr. by rewrite Hb, Hv'.
Qed.

(** The last opcode of the list is the one that covers the registers behind the
    others. *)
Lemma last_covers ops x a o b i : Forall op_ok ops -> a ++ o :: b = ops ++ [x] -> zlen (expand ops) <= i ->
  i < zlen (expand a) + op_len o -> a = ops /\ o = x /\ b = [].
Proof.
  intros Hf E Hi Hlt. destruct b as [|y b] using rev_ind; [apply app_inj_tail in E as [-> ->]; auto|]. clear IHb.
  change (a ++ o :: b ++ [y]) with (a ++ (o :: b) ++ [y]) in E. rewrite app_assoc in E. apply app_inj_tail in E as [<- _].
  apply Forall_app in Hf as [_ Hf]. apply list.Forall_cons in Hf as [Ho _]. rewrite expand_app, zlen_app in Hi.
  change (expand (o :: b)) with (op_regs o ++ expand b) in Hi. rewrite zlen_app, op_regs_len in Hi by done. pose proof (zlen_nonneg (expand b)). lia.
Qed.

(** No neighbours are merged around a register inside a run of zeroes, and the
    scan stops before the byte behind the string. *)
Lemma cut_merge s hdr ops k c m rest prev : length hdr = 16%nat -> Forall op_ok ops -> 1 <= k <= 16384 -> 1 <= c <= 32 -> 1 <= m <= 16384 ->
  s_buf s = hdr ++ encode (ops ++ [OXZero k; OVal c 1; OXZero m]) ++ rest ->
  prev = match reverse ops with [] => None | x :: a => Some (16 + zlen (encode (reverse a))) end ->
  merge_loop 5 s (match prev with Some p => p | None => HLL_HDR_SIZE end) (16 + zlen (encode ops) + 4) = Ok s.
Proof.
  intros Hl Hf Hk Hc Hm E Hp. assert (zlen hdr = 16) as Hz by (unfold zlen; lia).
  assert (forall n P, zlen P = 16 + zlen (encode ops) -> s_buf s = P ++ op_bytes (OXZero k) ++ op_bytes (OVal c 1) ++ op_bytes (OXZero m) ++ rest ->
    merge_loop (S (S (S n))) s (zlen P) (16 + zlen (encode ops) + 4) = Ok s) as Hscan.
  { intros n P HP EP. rewrite (merge_skip _ _ P (OXZero k) _ _ Hk EP); [|lia|done]. change (zlen (op_bytes (OXZero k))) with 2.
    rewrite (app_assoc P) in EP. replace (zlen P + 2) with (zlen (P ++ op_bytes (OXZero k))) by (rewrite zlen_app; done).
    rewrite (merge_skip _ _ _ (OVal c 1) _ _ ltac:(cbn; lia) EP); [|rewrite zlen_app; change (zlen (op_bytes (OXZero k))) with 2; lia|intros _; by exists (OXZero m), rest].
    change (zlen (op_bytes (OVal c 1))) with 1. rewrite (app_assoc (P ++ _)) in EP.
    replace (zlen (P ++ op_bytes (OXZero k)) + 1) with (zlen ((P ++ op_bytes (OXZero k)) ++ op_bytes (OVal c 1))) by (rewrite zlen_app; done).
    rewrite (merge_skip _ _ _ (OXZero m) _ _ Hm EP); [|rewrite !zlen_app; change (zlen (op_bytes (OXZero k))) with 2; change (zlen (op_bytes (OVal c 1))) with 1; lia|done].
    change (zlen (op_bytes (OXZero m))) with 2. rewrite !zlen_app. change (zlen (op_bytes (OXZero k))) with 2. change (zlen (op_bytes (OVal c 1))) with 1.
    destruct n; cbn [merge_loop]; by rewrite (proj2 (Z.ltb_ge _ _)) by lia. }
  assert (encode [OXZero k; OVal c 1; OXZero m] = op_bytes (OXZero k) ++ op_bytes (OVal c 1) ++ op_bytes (OXZero m)) as E3 by done.
  rewrite encode_app, E3, <- !app_assoc in E. subst prev. destruct (reverse ops) as [|x a] eqn:Er.
  - assert (ops = []) as -> by (rewrite <- (reverse_involutive ops), Er; done). change HLL_HDR_SIZE with 16. rewrite <- Hz at 1.
    apply Hscan; [change (zlen (encode [])) with 0; lia|exact E].
  - assert (ops = reverse a ++ [x]) as Eo by (rewrite <- (reverse_involutive ops), Er; apply reverse_cons).
    assert (op_ok x) as Hx by (rewrite Eo in Hf; apply Forall_app in Hf as [_ Hx]; by apply list.Forall_cons in Hx as [Hx _]).
    rewrite Eo, encode_app, encode_one, <- !app_assoc in E. rewrite (app_assoc hdr) in E.
    assert (zlen (encode ops) = zlen (encode (reverse a)) + zlen (op_bytes x)) as Ez by (rewrite Eo, encode_app, encode_one, zlen_app; done).
    pose proof (op_bytes_pos x Hx). replace (16 + zlen (encode (reverse a))) with (zlen (hdr ++ encode (reverse a))) by (rewrite zlen_app; lia).
    rewrite (merge_skip _ _ _ x _ _ Hx E); [|rewrite zlen_app; lia|intros _; eexists (OXZero k), _; done].
    rewrite (app_assoc (hdr ++ _)) in E. replace (zlen (hdr ++ encode (reverse a)) + zlen (op_bytes x)) with (zlen ((hdr ++ encode (reverse a)) ++ op_bytes x)) by (by rewrite zlen_app).
    apply Hscan; [rewrite !zlen_app; lia|exact E].
Qed.

(** The cache flag, on any block with a header. *)
Lemma invalidate_block s hdr tl : length hdr = 16%nat -> s_buf s = hdr ++ tl ->
  HLL_INVALIDATE_CACHE s = Ok (set_buf s (invalid_hdr hdr ++ tl)).
Proof.
  intros Hl E. destruct (lookup_lt_is_Some_2 hdr 15) as [b Hb]; [lia|]. unfold HLL_INVALIDATE_CACHE. change (hdr_card + 7) with 15. change (Z.shiftl 1 7) with 128.
  rewrite (rd1_lookup _ 15 b); [|lia|rewrite E, lookup_app_l by (change (Z.to_nat 15) with 15%nat; lia); done]. runr. unfold put_byte.
  rewrite wr1_ok by (rewrite E, zlen_app; pose proof (zlen_nonneg tl); unfold zlen at 1; lia). runr. do 2 f_equal.
  rewrite E. change (Z.to_nat 15) with 15%nat. rewrite insert_app_l by lia. unfold invalid_hdr. by rewrite Hb.
Qed.

Lemma cut_set max_bytes s hdr ops h i c : hdr_ok hdr -> Forall op_ok ops -> 0 <= h < 64 ->
  zlen (expand ops) + (256 * h + 1) = 16384 -> holds s (cut hdr ops h) ->
  32 <= max_bytes < 2 ^ 62 -> zlen (cut hdr ops h) + 3 <= max_bytes -> 1 <= c <= 32 ->
  zlen (expand ops) + 64 < i -> i + 64 < 16383 ->
  exists s' rest, hllSparseSet max_bytes s i c = Ok (s', 1) /\ sdslen s' = zlen (cut hdr ops h) + 3 /\
    s_buf s' = invalid_hdr hdr ++ encode (ops ++ [OXZero (i - zlen (expand ops)); OVal c 1; OXZero (16383 - i)]) ++ rest.
Proof.
  intros Hh Hf Hr Hx Hs Hm Hfit Hc Hi1 Hi2. pose proof (ho_length _ Hh) as Hl. assert (zlen hdr = 16) as Hz by (unfold zlen; lia).
  pose proof (zlen_cut hdr ops h Hl) as Hzl. destruct (encode_short _ Hf) as [Hsh1 Hsh2]. pose proof (zlen_nonneg ops).
  set (n := 256 * h + 1) in *. assert (op_ok (OXZero n)) as Ho by (cbn; lia).
  unfold hllSparseSet. change HLL_SPARSE_VAL_MAX_VALUE with 32. rewrite Z.gtb_ltb, (proj2 (Z.ltb_ge _ _)) by lia.
  destruct (room_ok max_bytes s _ Hm Hs) as (s1 & -> & Hs1 & H5 & Hroom); [lia|]. runr.
  specialize (Hroom 3 ltac:(lia) ltac:(left; lia)). unfold sdslen. rewrite (holds_len _ _ Hs1), Hzl.
  destruct (cut_buf s1 hdr ops h Hr Hs1) as [rest Eb]. fold n in Eb.
  assert (zlen (expand (ops ++ [OXZero n])) = 16384) as Ex.
  { rewrite expand_app, zlen_app. unfold expand at 2. cbn [map concat]. rewrite app_nil_r, op_regs_len by done. exact Hx. }
  destruct (locate_ends i (ops ++ [OXZero n]) (Z.to_nat (17 + zlen (encode ops))) hdr rest None 0 0 (17 + zlen (encode ops))) as (a & o & b & Eo & Hio & El).
  { apply Forall_app. split; [done|]. constructor; [exact Ho|constructor]. }
  { rewrite length_app. cbn [length]. unfold zlen in *. lia. }
  { right. split; [rewrite encode_app, encode_one, zlen_app, Hz; change (zlen (op_bytes (OXZero n))) with 2; lia|]. right. by exists ops, n. }
  { lia. }
  destruct (last_covers ops (OXZero n) a o b i Hf (eq_sym Eo)) as (-> & -> & ->); [lia|lia|]. clear Eo.
  change HLL_HDR_SIZE with 16. rewrite <- Eb, Hz in El. rewrite El. runr. cbn [op_len]. rewrite (proj2 (Z.eqb_neq n 0)) by lia. cbn [orb].
  rewrite Z.geb_leb, (proj2 (Z.leb_gt _ _)) by lia. rewrite encode_app, encode_one, <- app_assoc, (app_assoc hdr) in Eb.
  destruct (xzero_bytes n Ho) as (b0 & b1 & Exz & _ & _ & B1 & B2 & B3 & _). cbn [op_bytes] in Eb. rewrite Exz in Eb. cbn [app] in Eb.
  rewrite Eb, rd1_mid by (rewrite zlen_app, Hz; done). runr.
  unfold sparse_replace, sdslen. rewrite (holds_len _ _ Hs1), Hzl, B1, B2. cbn [orb negb andb].
  rewrite !Z.geb_leb, (proj2 (Z.leb_le (17 + zlen (encode ops)) (16 + zlen (encode ops) + 2))) by lia. rewrite Z.add_0_l.
  destruct (split_ok (OXZero n) (HLL_SPARSE_VAL_VALUE b0) (zlen (expand ops)) i c Ho Hc) as (S1 & S2 & _ & S4 & _); [cbn [op_len]; lia|done|].
  cbn [op_len is_val_op] in S1. rewrite S1. set (nops := split_ops _ _ _) in *.
  assert (nops = [OXZero (i - zlen (expand ops)); OVal c 1; OXZero (16383 - i)]) as En.
  { unfold nops, split_ops. cbn [op_len run_op]. rewrite (proj2 (Z.eqb_neq _ _)), (proj2 (Z.eqb_neq _ (n - 1))) by lia.
    rewrite !Z.gtb_ltb, !(proj2 (Z.ltb_lt _ _)) by lia. cbn [app]. do 4 f_equal. lia. }
  clearbody nops. subst nops. set (nops := [OXZero _; OVal c 1; OXZero _]) in *.
  assert (zlen (encode nops) = 5) as E5 by done. rewrite E5. cbn [Z.leb Z.compare Pos.compare Pos.compare_cont guardr]. runr.
  change (5 - 2) with 3. change (3 >? 0) with true. rewrite wrapU_small by lia. cbn [andb].
  rewrite Z.gtb_ltb, (proj2 (Z.ltb_ge _ _)) by lia. assert (sdsalloc s1 = s_alloc s1) as -> by (unfold sdsalloc; by rewrite (proj2 (Z.eqb_neq _ _))).
  rewrite (proj2 (Z.leb_le _ _)) by lia. cbn [guardr]. runr.
  destruct (incrLen_put s1 _ (s_buf s1) 3 Hs1 eq_refl) as (Ei & Hi3 & _); [lia|done|intros _; lia|].
  rewrite set_buf_same in Ei. rewrite Ei. runr. rewrite Hzl in *. unfold put_bytes. cbn [s_buf]. rewrite rdn_prefix by lia. runr.
  rewrite (take_ge (encode nops)) by (unfold zlen in E5; lia).
  set (buf2 := <[Z.to_nat (17 + zlen (encode ops) + 3) := 0]> (s_buf s1)).
  assert (exists mid tl, buf2 = (hdr ++ encode ops) ++ mid ++ tl /\ zlen mid = 5) as (mid & tl & E2 & Hmid).
  { exists (take 5 (drop (length (hdr ++ encode ops)) buf2)), (drop 5 (drop (length (hdr ++ encode ops)) buf2)).
    assert (length (hdr ++ encode ops) = Z.to_nat (16 + zlen (encode ops))) as HL by (rewrite length_app; unfold zlen in *; lia).
    split.
    - rewrite take_drop. rewrite <- (take_drop (length (hdr ++ encode ops)) buf2) at 1. f_equal. unfold buf2.
      rewrite take_insert_ge by (rewrite HL; lia). by rewrite Eb, take_app_length.
    - unfold zlen in *. rewrite length_take, length_drop, HL. unfold buf2. rewrite length_insert. lia. }
  rewrite E2, (wrn_mid _ mid (encode nops)) by (rewrite ?zlen_app; lia). runr. 
  replace ((hdr ++ encode ops) ++ encode nops ++ tl) with (hdr ++ encode (ops ++ nops) ++ tl) by (by rewrite encode_app, <- !app_assoc).
  unfold set_buf. cbn [s_type s_len s_alloc]. set (s2 := {| s_buf := _ |}). unfold sparse_updated.
  replace (17 + zlen (encode ops) + 3) with (16 + zlen (encode ops) + 4) by lia.
  rewrite (cut_merge s2 hdr ops (i - zlen (expand ops)) c (16383 - i) tl _ Hl Hf); [|lia|lia|lia|done|done]. runr.
  rewrite (invalidate_block s2 hdr (encode (ops ++ nops) ++ tl) Hl eq_refl). runr.
  eexists _, tl. split; [reflexivity|]. cbn. split; [lia|done].
Qed.

Lemma cut_is_hll s hdr ops h : hdr_ok hdr -> hdr !! 4%nat = Some 1 -> holds s (cut hdr ops h) -> isHLLObject s = Ok true.
Proof.
  intros [Hl _ Hmg] He Hs. destruct (holds_buf _ _ Hs) as [rest E]. pose proof (zlen_nonneg (encode ops)). pose proof (zlen_nonneg rest).
  unfold isHLLObject, sdslen. rewrite (holds_len _ _ Hs), zlen_cut by done. change HLL_HDR_SIZE with 16. rewrite (proj2 (Z.ltb_ge _ _)) by lia.
  rewrite rdn_prefix by (rewrite E, zlen_app, zlen_cut, zlen_cons by done; lia). runr. unfold cut in E. rewrite <- !app_assoc in E.
  rewrite (rd1_lookup _ hdr_encoding 1); [|done|rewrite E, lookup_app_l by (change (Z.to_nat hdr_encoding) with 4%nat; lia); done]. runr.
  rewrite E, take_app_le by (change (Z.to_nat 4) with 4%nat; lia). change (Z.to_nat 4) with 4%nat. rewrite Hmg. done.
Qed.

(** The byte behind the updated string, and the string that a copy of it holds. *)
Lemma updated_tail hdr ops k c m rest : length hdr = 16%nat -> 1 <= m <= 16384 ->
  let buf := hdr ++ encode (ops ++ [OXZero k; OVal c 1; OXZero m]) ++ rest in
  rd1 buf (20 + zlen (encode ops)) = Ok ((m - 1) mod 256) /\
  take (Z.to_nat (20 + zlen (encode ops))) buf = cut hdr (ops ++ [OXZero k; OVal c 1]) ((m - 1) / 256) /\
  20 + zlen (encode ops) <= zlen buf.
Proof.
  intros Hl Hm buf. set (A := cut hdr (ops ++ [OXZero k; OVal c 1]) ((m - 1) / 256)).
  assert (buf = A ++ (m - 1) mod 256 :: rest) as ->.
  { unfold buf, A, cut. rewrite !encode_app. change (encode [OXZero k; OVal c 1; OXZero m]) with (encode [OXZero k; OVal c 1] ++ op_bytes (OXZero m)).
    rewrite (xzero_split m) by done. rewrite <- !app_assoc. done. }
  assert (zlen A = 20 + zlen (encode ops)) as HA by (unfold A; rewrite zlen_cut, encode_app, zlen_app by done; change (zlen (encode [OXZero k; OVal c 1])) with 3; lia).
  rewrite <- HA. split; [by apply rd1_mid|]. split; [unfold zlen; by rewrite Nat2Z.id, take_app_length|]. rewrite zlen_app. pose proof (zlen_nonneg ((m - 1) mod 256 :: rest)). lia.
Qed.

End cut_strings.

(** C39: A sparse string that ends with the first byte of a long run of zeroes is
    taken for a valid one, the terminator standing for the second byte, when the
    runs then cover all registers.  Setting a register inside that last run, more
    than 64 registers from its ends, reports success and counts the missing byte
    as if it had been in the string: the string grows by three bytes where it
    needs four, and its new last byte is stored over the terminator, which becomes
    [(16382 - i) mod 256].  A copy of the string ends before that byte, and unless
    the byte happens to be zero the copy is not a valid one. *)
Theorem hll_truncated_xzero `{alloc : SdsAllocator} (laws : SdsAllocatorLaws) max_bytes s hdr ops h i c :
  hdr_ok hdr -> hdr !! 4%nat = Some 1 -> Forall op_ok ops -> 0 <= h < 64 ->
  zlen (expand ops) + (256 * h + 1) = 16384 -> holds s (cut hdr ops h) ->
  32 <= max_bytes < 2 ^ 62 -> zlen (cut hdr ops h) + 3 <= max_bytes -> 1 <= c <= 32 ->
  zlen (expand ops) + 64 < i -> i + 64 < 16383 ->
  isHLLObject s = Ok true /\ (exists hi, hllCountHisto s = Ok (hi, false)) /\
  exists s', hllSparseSet max_bytes s i c = Ok (s', 1) /\ sdslen s' = sdslen s + 3 /\
    rd1 (s_buf s') (sdslen s') = Ok ((16382 - i) mod 256) /\
    exists t hi, sdsdup s' = Ok t /\ hllCountHisto t = Ok (hi, negb ((16382 - i) mod 256 =? 0)).
Proof.
  intros Hh He Hf Hr Hx Hs Hm Hfit Hc Hi1 Hi2. pose proof (ho_length _ Hh) as Hl. pose proof (zlen_cut hdr ops h Hl) as Hzl.
  destruct (encode_short _ Hf) as [_ Hsh]. pose proof (zlen_nonneg ops).
  split; [by apply (cut_is_hll s hdr ops h)|]. split.
  { destruct (cut_count s hdr ops h Hh He Hf Hr ltac:(lia) Hs) as [hi E]. exists hi. rewrite E, Hx. done. }
  destruct (cut_set max_bytes s hdr ops h i c) as (s' & rest & E & Elen & Ebuf); try done.
  destruct (invalid_hdr_ok hdr Hh) as [Hh' He']. rewrite He in He'.
  destruct (updated_tail (invalid_hdr hdr) ops (i - zlen (expand ops)) c (16383 - i) rest (ho_length _ Hh')) as (T1 & T2 & T3); [lia|].
  rewrite <- Ebuf in T1, T2, T3. replace (16383 - i - 1) with (16382 - i) in * by lia.
  assert (sdslen s' = 20 + zlen (encode ops)) as El by lia.
  exists s'. split; [done|]. split; [rewrite Elen; unfold sdslen; by rewrite (holds_len _ _ Hs)|]. split; [by rewrite El|].
  unfold sdsdup. rewrite El. destruct (newlen_ok (InitFrom (s_buf s')) (20 + zlen (encode ops))) as (t & l & Et & Ht & _ & _ & Hl'); [lia|by intros bs [= <-]|].
  rewrite T2 in Hl'. subst l. exists t. pose proof (Z.div_mod (16382 - i) 256 ltac:(lia)) as Hdm. pose proof (Z.mod_pos_bound (16382 - i) 256 ltac:(lia)).
  assert (0 <= (16382 - i) / 256 < 64) by (split; [apply Z.div_pos; lia|apply Z.div_lt_upper_bound; lia]).
  assert (zlen (expand (ops ++ [OXZero (i - zlen (expand ops)); OVal c 1])) = i + 1) as Ex.
  { rewrite expand_app, zlen_app. change (expand [OXZero (i - zlen (expand ops)); OVal c 1]) with (op_regs (OXZero (i - zlen (expand ops))) ++ [c]).
    rewrite zlen_app, zlen_one, op_regs_len by (cbn; lia). cbn [op_len]. lia. }
  destruct (cut_count t (invalid_hdr hdr) (ops ++ [OXZero (i - zlen (expand ops)); OVal c 1]) ((16382 - i) / 256)) as [hi Eh]; try done.
  - apply Forall_app. split; [done|]. constructor; [cbn; lia|]. constructor; [cbn; lia|constructor].
  - rewrite Ex. lia.
  - exists hi. split; [exact Et|]. rewrite Eh, Ex. do 3 f_equal.
    destruct (Z.eqb_spec (i + 1 + (256 * ((16382 - i) / 256) + 1)) 16384), (Z.eqb_spec ((16382 - i) mod 256) 0); done || lia.
Qed.

#[local] Existing Instances chunk_allocator chunk_allocator_laws.

(** A run of 255 zeroes, and the first byte of a run of 16129 to 16384. *)
Lemma hll_truncated_xzero_witness :
  exists s s' t hi, sdsnewlen (InitFrom [72; 89; 76; 76; 1; 0; 0; 0; 0; 0; 0; 0; 0; 0; 0; 128; 64; 254; 127]) 19 = Ok s /\
    isHLLObject s = Ok true /\ hllSparseSet 3000 s 5000 3 = Ok (s', 1) /\ rd1 (s_buf s') (sdslen s') = Ok 118 /\
    sdsdup s' = Ok t /\ hllCountHisto t = Ok (hi, true).
Proof.
  destruct (newlen_ok (InitFrom (cut [72; 89; 76; 76; 1; 0; 0; 0; 0; 0; 0; 0; 0; 0; 0; 128] [OXZero 255] 63)) 19)
    as (s & l & E & Hs & _ & _ & Hl); [lia|by intros bs [= <-]|].
  destruct (hll_truncated_xzero chunk_allocator_laws 3000 s [72; 89; 76; 76; 1; 0; 0; 0; 0; 0; 0; 0; 0; 0; 0; 128] [OXZero 255] 63 5000 3)
    as (H1 & _ & s' & H2 & _ & H3 & t & hi & H4 & H5).
  - constructor; [reflexivity|repeat constructor; unfold is_byte; lia|reflexivity].
  - reflexivity.
  - constructor; [cbn; lia|constructor].
  - lia.
  - vm_compute. reflexivity.
  - rewrite Hl in Hs. exact Hs.
  - lia.
  - vm_compute. discriminate.
  - lia.
  - vm_compute. reflexivity.
  - lia.
  - exists s, s', t, hi. split; [exact E|]. split; [exact H1|]. split; [exact H2|]. split; [exact H3|]. split; [exact H4|exact H5].
Defined.
