(* ===== verification/Skiplist.v ===== *)
(** Skiplist: the skip list of sorted sets, of src/redis-stable/src/t_zset.c.

    This file holds the definitions; SkiplistProofs.v has the order of the
    elements and the invariant, SkiplistOps.v insertion,
    SkiplistDelete.v deletion, SkiplistRange.v ranks and ranges; SortedSet.v is
    the sorted list it implements.

    Correspondence.  Nodes live in a [heap], a finite map from addresses, and
    point to each other; a [node] has the fields of zskiplistNode, its array
    [level], and the string embedded after it.  The span of level 0, which the
    code uses to store the zskiplistNodeInfo of the node, is the field [n_info].
    Following a pointer that is null or dangling, or an index outside an array,
    is a fault.  A score is a double: a [spec_float], with the comparisons and the
    addition of IEEE 754.  The allocator is the class [NodeAllocator]: which
    address it returns, and how many bytes it reserves for a request.  The loops
    along one level are instances of [walk]: [cond] is the condition of the while
    loop, given the counter, the span and the forward pointer.  A function whose
    loop counts nothing ignores the counter. *)

From Stdlib Require Import ZArith Lia Bool.
From Stdlib Require Export SpecFloat.
From S2P Require Import Prelude Bytes Sds.
From stdpp Require Import base list numbers decidable gmap.

Local Open Scope Z_scope.

(** * Doubles and strings *)

Abbreviation double := spec_float.

Definition isnan (x : double) : bool := match x with S754_nan => true | _ => false end.

#[global] Instance double_eq_dec : EqDecision double.
Proof. solve_decision. Defined.

(** memcmp: the sign of the first difference. *)
Fixpoint memcmp (a b : list Z) (n : nat) : result Z :=
  match n with
  | O => Ok 0
  | S n =>
      match a, b with
      | x :: a, y :: b => if x <? y then Ok (-1) else if x >? y then Ok 1 else memcmp a b n
      | _, _ => Err OutOfBounds
      end
  end.

Definition sdscmp (s1 s2 : list Z) : result Z :=
  let l1 := zlen s1 in
  let l2 := zlen s2 in
  let minlen := if l1 <? l2 then l1 else l2 in
  let* cmp := memcmp s1 s2 (Z.to_nat minlen) in
  Ok (if cmp =? 0 then if l1 >? l2 then 1 else if l1 <? l2 then -1 else 0 else cmp).

(** * Nodes *)

Definition ZSKIPLIST_MAXLEVEL : Z := 32.
Definition ZSKIPLIST_MAX_SEARCH : Z := 10.
Definition ZSL_OFFSET_NO_ELE : Z := 65535.

Abbreviation addr := positive.

Record zskiplistLevel := { forward : option addr; span : Z }.

Record zskiplistNodeInfo := { sdsoffset : Z; levels : Z }.

(** [n_block] is the size that was asked of the allocator. *)
Record zskiplistNode := {
  n_score : double;
  n_backward : option addr;
  n_level : list zskiplistLevel;
  n_info : zskiplistNodeInfo;
  n_ele : list Z;
  n_block : Z;
}.

Abbreviation heap := (gmap addr zskiplistNode).

Record zskiplist := {
  zsl_header : addr;
  zsl_tail : option addr;
  zsl_length : Z;
  zsl_level : Z;
  alloc_size : Z;
}.

(** zmalloc: the address of a new block, and the usable size of a block. *)
Class NodeAllocator := {
  new_addr : heap -> addr;
  usable_size : Z -> Z;
}.

(** A new block is none of the blocks in use, and a block is as large as asked. *)
Class NodeAllocatorLaws `{NodeAllocator} := {
  new_addr_fresh : forall h, h !! new_addr h = None;
  usable_size_fits : forall n, 0 <= n < 2 ^ 32 -> n <= usable_size n < 2 ^ 64;
}.

Definition set_length (z : zskiplist) (n : Z) : zskiplist :=
  {| zsl_header := zsl_header z; zsl_tail := zsl_tail z; zsl_length := n; zsl_level := zsl_level z; alloc_size := alloc_size z |}.
Definition set_level (z : zskiplist) (n : Z) : zskiplist :=
  {| zsl_header := zsl_header z; zsl_tail := zsl_tail z; zsl_length := zsl_length z; zsl_level := n; alloc_size := alloc_size z |}.
Definition set_tail (z : zskiplist) (t : option addr) : zskiplist :=
  {| zsl_header := zsl_header z; zsl_tail := t; zsl_length := zsl_length z; zsl_level := zsl_level z; alloc_size := alloc_size z |}.
Definition set_alloc (z : zskiplist) (n : Z) : zskiplist :=
  {| zsl_header := zsl_header z; zsl_tail := zsl_tail z; zsl_length := zsl_length z; zsl_level := zsl_level z; alloc_size := n |}.

(** ** Reading and writing fields *)

Definition get_node (h : heap) (x : addr) : result zskiplistNode :=
  match h !! x with Some n => Ok n | None => Err NullDeref end.

Definition get_level (h : heap) (x : addr) (i : Z) : result zskiplistLevel :=
  let* n := get_node h x in rd1 (n_level n) i.

Definition get_forward (h : heap) (x : addr) (i : Z) : result (option addr) :=
  let* l := get_level h x i in Ok (forward l).

Definition with_level (n : zskiplistNode) (l : list zskiplistLevel) : zskiplistNode :=
  {| n_score := n_score n; n_backward := n_backward n; n_level := l; n_info := n_info n;
     n_ele := n_ele n; n_block := n_block n |}.
Definition with_backward (n : zskiplistNode) (b : option addr) : zskiplistNode :=
  {| n_score := n_score n; n_backward := b; n_level := n_level n; n_info := n_info n;
     n_ele := n_ele n; n_block := n_block n |}.
Definition with_score (n : zskiplistNode) (s : double) : zskiplistNode :=
  {| n_score := s; n_backward := n_backward n; n_level := n_level n; n_info := n_info n;
     n_ele := n_ele n; n_block := n_block n |}.
Definition with_levels (n : zskiplistNode) (k : Z) : zskiplistNode :=
  {| n_score := n_score n; n_backward := n_backward n; n_level := n_level n;
     n_info := {| sdsoffset := sdsoffset (n_info n); levels := k |};
     n_ele := n_ele n; n_block := n_block n |}.

Definition on_node (h : heap) (x : addr) (f : zskiplistNode -> zskiplistNode) : result heap :=
  let* n := get_node h x in Ok (<[x := f n]> h).

(** [x->level[i] = l]. *)
Definition put_level (h : heap) (x : addr) (i : Z) (l : zskiplistLevel) : result heap :=
  let* n := get_node h x in
  let* ls := wr1 (n_level n) i l in
  Ok (<[x := with_level n ls]> h).

Definition set_forward (h : heap) (x : addr) (i : Z) (f : option addr) : result heap :=
  let* l := get_level h x i in put_level h x i {| forward := f; span := span l |}.

Definition set_span (h : heap) (x : addr) (i : Z) (s : Z) : result heap :=
  let* l := get_level h x i in put_level h x i {| forward := forward l; span := s |}.

Definition zslGetNodeSpanAtLevel (h : heap) (x : addr) (level : Z) : result Z :=
  if level >? 0 then let* l := get_level h x level in Ok (span l)
  else let* f := get_forward h x 0 in Ok (match f with Some _ => 1 | None => 0 end).

Definition zslSetNodeSpanAtLevel (h : heap) (x : addr) (level s : Z) : result heap :=
  if level >? 0 then set_span h x level s else Ok h.

Definition zslIncrNodeSpanAtLevel (h : heap) (x : addr) (level incr : Z) : result heap :=
  if level >? 0 then let* l := get_level h x level in set_span h x level (u64 (span l + incr)) else Ok h.

Definition zslDecrNodeSpanAtLevel (h : heap) (x : addr) (level decr : Z) : result heap :=
  if level >? 0 then let* l := get_level h x level in set_span h x level (u64 (span l - decr)) else Ok h.

Definition zslSetNodeInfo (levels sdsoffset : Z) : zskiplistNodeInfo :=
  {| sdsoffset := u16 sdsoffset; levels := u8 levels |}.

(** The header has no element: its offset points outside the block. *)
Definition zslGetNodeElement (h : heap) (x : addr) : result (list Z) :=
  let* n := get_node h x in
  check negb (sdsoffset (n_info n) =? ZSL_OFFSET_NO_ELE) else OutOfBounds;;
  Ok (n_ele n).

Definition zslCompareWithNode (h : heap) (score : double) (ele : list Z) (n : option addr) : result Z :=
  match n with
  | None => Ok (-1)
  | Some x =>
      let* nd := get_node h x in
      if SFltb score (n_score nd) then Ok (-1)
      else if SFltb (n_score nd) score then Ok 1
      else let* e := zslGetNodeElement h x in sdscmp ele e
  end.

Section skiplist_code.
Context `{NodeAllocator}.

(** ** Creation *)

Definition zslCreateHeaderNode (h : heap) (zsl : zskiplist) : heap * zskiplist * addr :=
  let size := 16 + ZSKIPLIST_MAXLEVEL * 16 in
  let zn := new_addr h in
  let node :=
    {| n_score := S754_zero false; n_backward := None;
       n_level := replicate (Z.to_nat ZSKIPLIST_MAXLEVEL) {| forward := None; span := 0 |};
       n_info := zslSetNodeInfo ZSKIPLIST_MAXLEVEL ZSL_OFFSET_NO_ELE; n_ele := []; n_block := size |} in
  (<[zn := node]> h, set_alloc zsl (u64 (alloc_size zsl + usable_size size)), zn).

(** The forward pointers and spans of a new node are not written yet: [uninit]
    is what the memory held. *)
Definition zslCreateNode (uninit : nat -> zskiplistLevel) (h : heap) (zsl : zskiplist) (level : Z)
    (score : double) (ele : list Z) : heap * zskiplist * addr :=
  let ele_len := zlen ele in
  let sds_type := sdsReqType ele_len in
  let sds_hdr_len := sdsHdrSize sds_type in
  let node_size := 16 + level * 16 in
  let sds_buf_size := sds_hdr_len + ele_len + 1 in
  let total_size := u64 (node_size + sds_buf_size) in
  let sds_offset := node_size + sds_hdr_len in
  let zn := new_addr h in
  let node :=
    {| n_score := score; n_backward := None; n_level := map uninit (seq 0 (Z.to_nat level));
       n_info := zslSetNodeInfo level sds_offset; n_ele := ele; n_block := total_size |} in
  (<[zn := node]> h, set_alloc zsl (u64 (alloc_size zsl + usable_size total_size)), zn).

(** The size of struct zskiplist. *)
Definition zsl_struct_size : Z := 40.

Definition zslCreate (h : heap) : heap * zskiplist :=
  let zsl := {| zsl_header := 1%positive; zsl_tail := None; zsl_length := 0; zsl_level := 1;
                alloc_size := usable_size zsl_struct_size |} in
  let '(h, zsl, hd) := zslCreateHeaderNode h zsl in
  (h, {| zsl_header := hd; zsl_tail := None; zsl_length := zsl_length zsl; zsl_level := zsl_level zsl;
         alloc_size := alloc_size zsl |}).

Definition zslFreeNode (h : heap) (zsl : zskiplist) (x : addr) : result (heap * zskiplist) :=
  let* n := get_node h x in
  Ok (delete x h, set_alloc zsl (u64 (alloc_size zsl - usable_size (n_block n)))).

Fixpoint free_loop (fuel : nat) (h : heap) (zsl : zskiplist) (node : option addr) : result (heap * zskiplist) :=
  match node with
  | None => Ok (h, zsl)
  | Some x =>
      match fuel with
      | O => Err OutOfFuel
      | S fuel =>
          let* next := get_forward h x 0 in
          let* (h, zsl) := zslFreeNode h zsl x in
          free_loop fuel h zsl next
      end
  end.

(** The heap without the list, and the allocation size the last assertion
    compares with the size of the struct. *)
Definition zslFree (h : heap) (zsl : zskiplist) : result heap :=
  let* node := get_forward h (zsl_header zsl) 0 in
  let* (h, zsl) := zslFreeNode h zsl (zsl_header zsl) in
  let* (h, zsl) := free_loop (S (Z.to_nat (zsl_length zsl))) h zsl node in
  check alloc_size zsl =? usable_size zsl_struct_size else AssertFailed;;
  Ok h.

(** [rnd]: the values random() returns.  The threshold is ZSKIPLIST_P * RAND_MAX
    as an int. *)
Definition random_threshold : Z := 536870911.

Fixpoint random_loop (rnd : list Z) (level : Z) : result Z :=
  match rnd with
  | [] => Err OutOfFuel
  | r :: rnd =>
      if r <? random_threshold then let* level := chk_i32 (level + 1) in random_loop rnd level
      else Ok level
  end.

Definition zslRandomLevel (rnd : list Z) : result Z :=
  let* level := random_loop rnd 1 in
  Ok (if level <? ZSKIPLIST_MAXLEVEL then level else ZSKIPLIST_MAXLEVEL).

(** ** Walking *)

(** [while (cond) { rank += span; x = x->level[i].forward; }] *)
Fixpoint walk (fuel : nat) (cond : Z -> Z -> option addr -> result bool) (h : heap) (i : Z)
    (x : addr) (rank : Z) : result (addr * Z) :=
  match fuel with
  | O => Err OutOfFuel
  | S fuel =>
      let* f := get_forward h x i in
      let* s := zslGetNodeSpanAtLevel h x i in
      let* go := cond rank s f in
      if (go : bool) then
        match f with
        | None => Err NullDeref
        | Some y => walk fuel cond h i y (u64 (rank + s))
        end
      else Ok (x, rank)
  end.

(** [for (i = n-1; i >= 0; i--)] a walk, remembering where it ended at every
    level: the arrays update and rank. *)
Fixpoint descend (n : nat) (fuel : nat) (cond : Z -> Z -> option addr -> result bool) (h : heap)
    (x : addr) (rank : Z) (upd : list (addr * Z)) : result (addr * Z * list (addr * Z)) :=
  match n with
  | O => Ok (x, rank, upd)
  | S n =>
      let* (x, rank) := walk fuel cond h (Z.of_nat n) x rank in
      descend n fuel cond h x rank ((x, rank) :: upd)
  end.

Definition list_fuel (zsl : zskiplist) : nat := S (Z.to_nat (zsl_length zsl)).

(** Before [score, ele]: the condition of the searches for a position. *)
Definition cond_before (h : heap) (score : double) (ele : list Z) (rank s : Z) (f : option addr) : result bool :=
  let* c := zslCompareWithNode h score ele f in Ok (c >? 0).

Definition search (h : heap) (zsl : zskiplist) (score : double) (ele : list Z)
  : result (addr * Z * list (addr * Z)) :=
  descend (Z.to_nat (zsl_level zsl)) (list_fuel zsl) (cond_before h score ele) h (zsl_header zsl) 0 [].

(** ** Insertion *)

(** The levels the header gains. *)
Fixpoint raise_loop (n : nat) (i : Z) (h : heap) (zsl : zskiplist) (upd : list (addr * Z))
  : result (heap * list (addr * Z)) :=
  match n with
  | O => Ok (h, upd)
  | S n =>
      let* h := zslSetNodeSpanAtLevel h (zsl_header zsl) i (zsl_length zsl) in
      raise_loop n (i + 1) h zsl (upd ++ [(zsl_header zsl, 0)])
  end.

Fixpoint link_loop (n : nat) (i : Z) (h : heap) (node : addr) (upd : list (addr * Z)) (rank0 : Z) : result heap :=
  match n with
  | O => Ok h
  | S n =>
      let* (u, rank) := rd1 upd i in
      let* f := get_forward h u i in
      let* h := set_forward h node i f in
      let* h := set_forward h u i (Some node) in
      let* s := zslGetNodeSpanAtLevel h u i in
      let* h := zslSetNodeSpanAtLevel h node i (u64 (s - u64 (rank0 - rank))) in
      let* h := zslSetNodeSpanAtLevel h u i (u64 (u64 (rank0 - rank) + 1)) in
      link_loop n (i + 1) h node upd rank0
  end.

Fixpoint incr_loop (n : nat) (i : Z) (h : heap) (upd : list (addr * Z)) : result heap :=
  match n with
  | O => Ok h
  | S n =>
      let* (u, _) := rd1 upd i in
      let* h := zslIncrNodeSpanAtLevel h u i 1 in
      incr_loop n (i + 1) h upd
  end.

(** The last pointer backwards: of the node [f] that follows, or the tail. *)
Definition set_back (h : heap) (zsl : zskiplist) (f b : option addr) : result (heap * zskiplist) :=
  match f with
  | Some y => let* h := on_node h y (fun n => with_backward n b) in Ok (h, zsl)
  | None => Ok (h, set_tail zsl b)
  end.

Definition zslInsertNode (h : heap) (zsl : zskiplist) (node : addr) : result (heap * zskiplist) :=
  let* nd := get_node h node in
  let score := n_score nd in
  let* ele := zslGetNodeElement h node in
  let level := levels (n_info nd) in
  check negb (isnan score) else AssertFailed;;
  let* (_, _, upd) := search h zsl score ele in
  let* (h, zsl, upd) :=
    if level >? zsl_level zsl then
      let* (h, upd) := raise_loop (Z.to_nat (level - zsl_level zsl)) (zsl_level zsl) h zsl upd in
      let* h := on_node h (zsl_header zsl) (fun n => with_levels n (u8 level)) in
      Ok (h, set_level zsl level, upd)
    else Ok (h, zsl, upd) in
  let* (u0, rank0) := rd1 upd 0 in
  let* h := link_loop (Z.to_nat level) 0 h node upd rank0 in
  let* h := incr_loop (Z.to_nat (zsl_level zsl - level)) level h upd in
  let* h := on_node h node (fun n => with_backward n (if decide (u0 = zsl_header zsl) then None else Some u0)) in
  let* f := get_forward h node 0 in
  let* (h, zsl) := set_back h zsl f (Some node) in
  Ok (h, set_length zsl (u64 (zsl_length zsl + 1))).

Definition zslInsert (rnd : list Z) (uninit : nat -> zskiplistLevel) (h : heap) (zsl : zskiplist)
    (score : double) (ele : list Z) : result (heap * zskiplist * addr) :=
  check negb (isnan score) else AssertFailed;;
  let* level := zslRandomLevel rnd in
  let '(h, zsl, node) := zslCreateNode uninit h zsl level score ele in
  let* (h, zsl) := zslInsertNode h zsl node in
  Ok (h, zsl, node).

(** ** Deletion *)

Fixpoint unlink_loop (n : nat) (i : Z) (h : heap) (x : addr) (upd : list (addr * Z)) : result heap :=
  match n with
  | O => Ok h
  | S n =>
      let* (u, _) := rd1 upd i in
      let* f := get_forward h u i in
      let* h :=
        if decide (f = Some x) then
          let* s := zslGetNodeSpanAtLevel h x i in
          let* h := zslIncrNodeSpanAtLevel h u i (u64 (s - 1)) in
          let* fx := get_forward h x i in
          set_forward h u i fx
        else zslDecrNodeSpanAtLevel h u i 1 in
      unlink_loop n (i + 1) h x upd
  end.

(** [while (zsl->level > 1 && ...)]: the fuel is the level. *)
Fixpoint lower_loop (fuel : nat) (h : heap) (zsl : zskiplist) : result (heap * zskiplist) :=
  match fuel with
  | O => Err OutOfFuel
  | S fuel =>
      if zsl_level zsl >? 1 then
        let* f := get_forward h (zsl_header zsl) (zsl_level zsl - 1) in
        match f with
        | None =>
            let* h := set_span h (zsl_header zsl) (zsl_level zsl - 1) 0 in
            lower_loop fuel h (set_level zsl (zsl_level zsl - 1))
        | Some _ => Ok (h, zsl)
        end
      else Ok (h, zsl)
  end.

Definition zslUnlinkNode (h : heap) (zsl : zskiplist) (x : addr) (upd : list (addr * Z)) : result (heap * zskiplist) :=
  let* h := unlink_loop (Z.to_nat (zsl_level zsl)) 0 h x upd in
  let* n := get_node h x in
  let* f := get_forward h x 0 in
  let* (h, zsl) := set_back h zsl f (n_backward n) in
  let* (h, zsl) := lower_loop (S (Z.to_nat (zsl_level zsl))) h zsl in
  Ok (h, set_length zsl (u64 (zsl_length zsl - 1))).

(** The search and the check that it found [node]. *)
Definition find_node (h : heap) (zsl : zskiplist) (node : addr) : result (list (addr * Z)) :=
  let* nd := get_node h node in
  let* ele := zslGetNodeElement h node in
  let* (x, _, upd) := search h zsl (n_score nd) ele in
  let* f := get_forward h x 0 in
  check bool_decide (f = Some node) else AssertFailed;;
  Ok upd.

Definition zslDelete (h : heap) (zsl : zskiplist) (node : addr) : result (heap * zskiplist) :=
  let* upd := find_node h zsl node in
  let* (h, zsl) := zslUnlinkNode h zsl node upd in
  zslFreeNode h zsl node.

Definition zslUpdateScore (h : heap) (zsl : zskiplist) (node : addr) (newscore : double)
  : result (heap * zskiplist) :=
  let* nd := get_node h node in
  let* before :=
    match n_backward nd with
    | None => Ok true
    | Some b => let* n := get_node h b in Ok (SFltb (n_score n) newscore)
    end in
  let* after :=
    if (before : bool) then
      let* f := get_forward h node 0 in
      match f with
      | None => Ok true
      | Some y => let* n := get_node h y in Ok (SFltb newscore (n_score n))
      end
    else Ok false in
  if before && after then
    let* h := on_node h node (fun n => with_score n newscore) in Ok (h, zsl)
  else
    let* upd := find_node h zsl node in
    let* (h, zsl) := zslUnlinkNode h zsl node upd in
    let* h := on_node h node (fun n => with_score n newscore) in
    zslInsertNode h zsl node.

(** ** Ranks *)

(** The search loop of zslGetRank, with the test at the end of each level. *)
Fixpoint rank_loop (n : nat) (fuel : nat) (h : heap) (zsl : zskiplist) (score : double) (ele : list Z)
    (x : addr) (rank : Z) : result Z :=
  match n with
  | O => Ok 0
  | S n =>
      let* (x, rank) := walk fuel (fun _ _ f => let* c := zslCompareWithNode h score ele f in Ok (c >=? 0))
                          h (Z.of_nat n) x rank in
      let* found :=
        if decide (x = zsl_header zsl) then Ok false
        else let* c := zslCompareWithNode h score ele (Some x) in Ok (c =? 0) in
      if (found : bool) then Ok rank else rank_loop n fuel h zsl score ele x rank
  end.

Definition zslGetRank (h : heap) (zsl : zskiplist) (score : double) (ele : list Z) : result Z :=
  rank_loop (Z.to_nat (zsl_level zsl)) (list_fuel zsl) h zsl score ele (zsl_header zsl) 0.

Fixpoint distance_loop (fuel : nat) (h : heap) (x : option addr) (distance_to_end : Z) : result Z :=
  match x with
  | None => Ok distance_to_end
  | Some x =>
      match fuel with
      | O => Err OutOfFuel
      | S fuel =>
          let* n := get_node h x in
          let level := levels (n_info n) - 1 in
          let* s := zslGetNodeSpanAtLevel h x level in
          let* f := get_forward h x level in
          distance_loop fuel h f (u64 (distance_to_end + s))
      end
  end.

Definition zslGetRankByNode (h : heap) (zsl : zskiplist) (x : addr) : result Z :=
  let* distance_to_end := distance_loop (list_fuel zsl) h (Some x) 0 in
  Ok (u64 (zsl_length zsl - distance_to_end)).

Fixpoint by_rank_loop (n : nat) (fuel : nat) (h : heap) (x : addr) (traversed rank : Z) : result (option addr) :=
  match n with
  | O => Ok None
  | S n =>
      let* (x, traversed) := walk fuel
        (fun t s f => Ok (match f with Some _ => u64 (t + s) <=? rank | None => false end))
        h (Z.of_nat n) x traversed in
      if traversed =? rank then Ok (Some x) else by_rank_loop n fuel h x traversed rank
  end.

(** Levels [start_level] down to 0. *)
Definition zslGetElementByRankFromNode (h : heap) (zsl : zskiplist) (start_node : addr) (start_level : Z)
    (rank : Z) : result (option addr) :=
  by_rank_loop (Z.to_nat (start_level + 1)) (list_fuel zsl) h start_node 0 rank.

Definition zslGetElementByRank (h : heap) (zsl : zskiplist) (rank : Z) : result (option addr) :=
  zslGetElementByRankFromNode h zsl (zsl_header zsl) (zsl_level zsl - 1) rank.

(** ** Ranges *)

Record zrangespec := { zr_min : double; zr_max : double; minex : bool; maxex : bool }.

(** A bound of a lexicographic range: shared.minstring, shared.maxstring, or a
    string of its own. *)
Inductive lexsds := MinString | MaxString | Sds (s : list Z).

Record zlexrangespec := { lmin : lexsds; lmax : lexsds; lminex : bool; lmaxex : bool }.

Definition zslValueGteMin (value : double) (spec : zrangespec) : bool :=
  if minex spec then SFltb (zr_min spec) value else SFleb (zr_min spec) value.

Definition zslValueLteMax (value : double) (spec : zrangespec) : bool :=
  if maxex spec then SFltb value (zr_max spec) else SFleb value (zr_max spec).

(** Two strings of their own are never the same pointer here; comparing them
    tells equal contents anyway. *)
Definition sdscmplex (a b : lexsds) : result Z :=
  match a, b with
  | MinString, MinString | MaxString, MaxString => Ok 0
  | MinString, _ | _, MaxString => Ok (-1)
  | MaxString, _ | _, MinString => Ok 1
  | Sds a, Sds b => sdscmp a b
  end.

Definition zslLexValueGteMin (value : list Z) (spec : zlexrangespec) : result bool :=
  let* c := sdscmplex (Sds value) (lmin spec) in Ok (if lminex spec then c >? 0 else c >=? 0).

Definition zslLexValueLteMax (value : list Z) (spec : zlexrangespec) : result bool :=
  let* c := sdscmplex (Sds value) (lmax spec) in Ok (if lmaxex spec then c <? 0 else c <=? 0).

(** The tests of a node the functions on ranges make, by score or by element. *)
Definition score_gte (range : zrangespec) (h : heap) (x : addr) : result bool :=
  let* n := get_node h x in Ok (zslValueGteMin (n_score n) range).
Definition score_lte (range : zrangespec) (h : heap) (x : addr) : result bool :=
  let* n := get_node h x in Ok (zslValueLteMax (n_score n) range).
Definition lex_gte (range : zlexrangespec) (h : heap) (x : addr) : result bool :=
  let* e := zslGetNodeElement h x in zslLexValueGteMin e range.
Definition lex_lte (range : zlexrangespec) (h : heap) (x : addr) : result bool :=
  let* e := zslGetNodeElement h x in zslLexValueLteMax e range.

(** The ends of the list against the ends of the range. *)
Definition ends_in_range (gte lte : heap -> addr -> result bool) (h : heap) (zsl : zskiplist) : result bool :=
  match zsl_tail zsl with
  | None => Ok false
  | Some x =>
      let* g := gte h x in
      if negb g then Ok false
      else
        let* f := get_forward h (zsl_header zsl) 0 in
        match f with None => Ok false | Some y => lte h y end
  end.

Definition zslIsInRange (h : heap) (zsl : zskiplist) (range : zrangespec) : result bool :=
  if SFltb (zr_max range) (zr_min range) || (SFeqb (zr_min range) (zr_max range) && (minex range || maxex range)) then Ok false
  else ends_in_range (score_gte range) (score_lte range) h zsl.

Definition zslIsInLexRange (h : heap) (zsl : zskiplist) (range : zlexrangespec) : result bool :=
  let* cmp := sdscmplex (lmin range) (lmax range) in
  if (cmp >? 0) || ((cmp =? 0) && (lminex range || lmaxex range)) then Ok false
  else ends_in_range (lex_gte range) (lex_lte range) h zsl.

(** [x->level[i].forward && test(x->level[i].forward)]. *)
Definition cond_forward (test : heap -> addr -> result bool) (h : heap) (rank s : Z) (f : option addr) : result bool :=
  match f with None => Ok false | Some y => test h y end.

Definition not_test (test : heap -> addr -> result bool) (h : heap) (x : addr) : result bool :=
  let* b := test h x in Ok (negb b).

Fixpoint forward_steps (n : nat) (h : heap) (x : option addr) : result (option addr) :=
  match n with
  | O => Ok x
  | S n => match x with None => Err NullDeref | Some x => let* f := get_forward h x 0 in forward_steps n h f end
  end.

Fixpoint backward_steps (n : nat) (h : heap) (x : option addr) : result (option addr) :=
  match n with
  | O => Ok x
  | S n => match x with None => Err NullDeref | Some x => let* nd := get_node h x in backward_steps n h (n_backward nd) end
  end.

(** The last test, and the rank stored through [out_rank]. *)
Definition checked (test : heap -> addr -> result bool) (h : heap) (x : option addr) (rank : Z)
  : result (option (addr * Z)) :=
  match x with
  | None => Ok None
  | Some x => let* t := test h x in Ok (if (t : bool) then Some (x, rank) else None)
  end.

(** zslNthInRange and zslNthInLexRange after their first test. *)
Definition nth_in_range (gte lte : heap -> addr -> result bool) (h : heap) (zsl : zskiplist) (n : Z)
  : result (option (addr * Z)) :=
  let fuel := list_fuel zsl in
  let i := zsl_level zsl - 1 in
  let* (x, edge_rank) := walk fuel (cond_forward (not_test gte) h) h i (zsl_header zsl) 0 in
  let last_highest_level_node := x in
  let last_highest_level_rank := edge_rank in
  if n >=? 0 then
    let* (x, edge_rank, _) := descend (Z.to_nat (zsl_level zsl - 1)) fuel (cond_forward (not_test gte) h) h x edge_rank [] in
    let* target := chk_i64 (edge_rank + n) in
    if u64 target >=? zsl_length zsl then Ok None
    else
      let* r := chk_i64 (edge_rank + 1 + n) in
      let* x :=
        if n <? ZSKIPLIST_MAX_SEARCH then forward_steps (Z.to_nat (n + 1)) h (Some x)
        else zslGetElementByRankFromNode h zsl last_highest_level_node i (u64 (r - last_highest_level_rank)) in
      checked lte h x (u64 r)
  else
    let* (x, edge_rank, _) := descend (Z.to_nat (zsl_level zsl)) fuel (cond_forward lte h) h x edge_rank [] in
    let* back := chk_i64 (- n) in
    if edge_rank <? back then Ok None
    else
      let r := edge_rank + 1 + n in
      let* x :=
        if n + 1 >? - ZSKIPLIST_MAX_SEARCH then backward_steps (Z.to_nat (- n - 1)) h (Some x)
        else zslGetElementByRankFromNode h zsl last_highest_level_node i (u64 (r - last_highest_level_rank)) in
      checked gte h x (u64 r).

Definition zslNthInRange (h : heap) (zsl : zskiplist) (range : zrangespec) (n : Z) : result (option (addr * Z)) :=
  let* within := zslIsInRange h zsl range in
  if (within : bool) then nth_in_range (score_gte range) (score_lte range) h zsl n else Ok None.

Definition zslNthInLexRange (h : heap) (zsl : zskiplist) (range : zlexrangespec) (n : Z) : result (option (addr * Z)) :=
  let* within := zslIsInLexRange h zsl range in
  if (within : bool) then nth_in_range (lex_gte range) (lex_lte range) h zsl n else Ok None.

End skiplist_code.

(** A machine to run examples on: addresses in order, blocks of 16 bytes. *)
#[global] Instance bump_allocator : NodeAllocator :=
  {| new_addr h := fresh (dom h : gset positive); usable_size n := (n + 15) / 16 * 16 |}.

#[global] Instance bump_allocator_laws : NodeAllocatorLaws.
Proof.
  constructor.
  - intros h. pose proof (is_fresh (dom h : gset positive)) as Hf. by apply not_elem_of_dom in Hf.
  - intros n Hn. cbn [usable_size bump_allocator]. pose proof (Z.div_mod (n + 15) 16). pose proof (Z.mod_pos_bound (n + 15) 16). lia.
Qed.
