(* ===== verification/SkiplistProofs.v ===== *)
(** SkiplistProofs: the order of a sorted set, the invariant of the skip list of
    Skiplist.v, and the searches.

    Position 0 of a list is its header, position p its p-th node; [spine] gives
    the address and the height of each.  The invariant says that the pointer of
    level i at position p leads to the next position whose node is higher than
    i, and that its span is the distance.  A search whose condition holds up to
    position k ends, at level i, at the last such node not after k. *)

From Stdlib Require Import ZArith Lia Bool.
From S2P Require Import Prelude Bytes Sds Skiplist.
From stdpp Require Import base list numbers decidable gmap sorting.

Local Open Scope Z_scope.

(** * The order *)

(** Doubles in their order, as triples in the lexicographic one. *)
Definition fkey (x : double) : Z * Z * Z :=
  match x with
  | S754_infinity true => (-2, 0, 0)
  | S754_finite true m e => (-1, -e, - Zpos m)
  | S754_zero _ => (0, 0, 0)
  | S754_finite false m e => (1, e, Zpos m)
  | S754_infinity false => (2, 0, 0)
  | S754_nan => (3, 0, 0)
  end.

Definition then_cmp (c d : comparison) : comparison := match c with Eq => d | _ => c end.

Definition fcmp (x y : double) : comparison :=
  let '(a1, a2, a3) := fkey x in
  let '(b1, b2, b3) := fkey y in
  then_cmp (a1 ?= b1) (then_cmp (a2 ?= b2) (a3 ?= b3)).

Fixpoint lexcmp (a b : list Z) : comparison :=
  match a, b with
  | [], [] => Eq
  | [], _ => Lt
  | _, [] => Gt
  | x :: a, y :: b => then_cmp (x ?= y) (lexcmp a b)
  end.

(** What a sorted set holds: scores and elements. *)
Abbreviation scored := (double * list Z)%type.

Definition ecmp (p q : scored) : comparison := then_cmp (fcmp p.1 q.1) (lexcmp p.2 q.2).
Definition elt (p q : scored) : Prop := ecmp p q = Lt.

Definition sign (c : comparison) : Z := match c with Lt => -1 | Eq => 0 | Gt => 1 end.

Lemma then_cmp_opp c d : CompOpp (then_cmp c d) = then_cmp (CompOpp c) (CompOpp d).
Proof. by destruct c. Qed.

Lemma fcmp_antisym x y : fcmp y x = CompOpp (fcmp x y).
Proof.
  unfold fcmp. destruct (fkey x) as [[a1 a2] a3], (fkey y) as [[b1 b2] b3].
  rewrite !then_cmp_opp. by rewrite <- !Z.compare_antisym.
Qed.

Lemma fcmp_eq x y : fcmp x y = Eq <-> fkey x = fkey y.
Proof.
  unfold fcmp. destruct (fkey x) as [[a1 a2] a3], (fkey y) as [[b1 b2] b3]. unfold then_cmp.
  destruct (Z.compare_spec a1 b1), (Z.compare_spec a2 b2), (Z.compare_spec a3 b3); split; intros E;
    simplify_eq; try done; lia.
Qed.

Lemma fcmp_lt_trans x y z : fcmp x y = Lt -> fcmp y z = Lt -> fcmp x z = Lt.
Proof.
  unfold fcmp. destruct (fkey x) as [[a1 a2] a3], (fkey y) as [[b1 b2] b3], (fkey z) as [[c1 c2] c3].
  unfold then_cmp.
  destruct (Z.compare_spec a1 b1), (Z.compare_spec b1 c1), (Z.compare_spec a1 c1); try done; try lia; subst;
    destruct (Z.compare_spec a2 b2), (Z.compare_spec b2 c2), (Z.compare_spec a2 c2); try done; try lia; subst;
    destruct (Z.compare_spec a3 b3), (Z.compare_spec b3 c3), (Z.compare_spec a3 c3); try done; lia.
Qed.

Lemma fcmp_refl x : fcmp x x = Eq.
Proof. by apply fcmp_eq. Qed.

Lemma fcmp_eq_l x y z : fcmp x y = Eq -> fcmp x z = fcmp y z.
Proof. intros E%fcmp_eq. unfold fcmp. by rewrite E. Qed.

Lemma fcmp_eq_r x y z : fcmp y z = Eq -> fcmp x y = fcmp x z.
Proof. intros E%fcmp_eq. unfold fcmp. by rewrite E. Qed.

Lemma lexcmp_antisym a b : lexcmp b a = CompOpp (lexcmp a b).
Proof.
  revert b. induction a as [|x a IH]; intros [|y b]; simpl; try done.
  by rewrite then_cmp_opp, <- Z.compare_antisym, IH.
Qed.

Lemma lexcmp_eq a b : lexcmp a b = Eq <-> a = b.
Proof.
  revert b. induction a as [|x a IH]; intros [|y b]; simpl; try done. unfold then_cmp.
  destruct (Z.compare_spec x y) as [->|?|?]; [rewrite IH|..]; split; intros E; simplify_eq; try done; lia.
Qed.

Lemma lexcmp_lt_trans a b c : lexcmp a b = Lt -> lexcmp b c = Lt -> lexcmp a c = Lt.
Proof.
  revert b c. induction a as [|x a IH]; intros [|y b] [|z c]; simpl; try done. unfold then_cmp.
  destruct (Z.compare_spec x y), (Z.compare_spec y z), (Z.compare_spec x z); try done; try lia.
  intros. by apply (IH b).
Qed.

Lemma ecmp_antisym p q : ecmp q p = CompOpp (ecmp p q).
Proof. unfold ecmp. by rewrite then_cmp_opp, <- fcmp_antisym, <- lexcmp_antisym. Qed.

Lemma ecmp_refl p : ecmp p p = Eq.
Proof. unfold ecmp. rewrite fcmp_refl. by apply lexcmp_eq. Qed.

Lemma ecmp_eq p q : ecmp p q = Eq <-> fcmp p.1 q.1 = Eq /\ p.2 = q.2.
Proof. unfold ecmp. rewrite <- lexcmp_eq. unfold then_cmp. destruct (fcmp p.1 q.1); naive_solver. Qed.

#[global] Instance elt_trans : Transitive elt.
Proof.
  intros p q r. unfold elt, ecmp, then_cmp. destruct (fcmp p.1 q.1) eqn:E1, (fcmp q.1 r.1) eqn:E2; try done.
  - rewrite (fcmp_eq_l _ _ _ E1), E2. by apply lexcmp_lt_trans.
  - by rewrite (fcmp_eq_l _ _ _ E1), E2.
  - by rewrite <- (fcmp_eq_r _ _ _ E2), E1.
  - by rewrite (fcmp_lt_trans _ _ _ E1 E2).
Qed.

Lemma elt_irrefl p : ~ elt p p.
Proof. unfold elt. by rewrite ecmp_refl. Qed.

Lemma elt_asym p q : elt p q -> ~ elt q p.
Proof. intros Hpq Hqp. by apply (elt_irrefl p), (elt_trans p q p). Qed.

(** ** What the code computes of it *)

Lemma SFcompare_fcmp x y : isnan x = false -> isnan y = false -> SFcompare x y = Some (fcmp x y).
Proof.
  destruct x as [?|[]| |[] m1 e1], y as [?|[]| |[] m2 e2]; intros Hx Hy; simplify_eq/=; try done.
  - unfold fcmp. simpl. rewrite Z.compare_opp, (Z.compare_antisym e1 e2). by destruct (e1 ?= e2).
  - unfold fcmp. simpl. by destruct (e1 ?= e2).
Qed.

Lemma SFltb_fcmp x y : isnan x = false -> isnan y = false -> SFltb x y = match fcmp x y with Lt => true | _ => false end.
Proof. intros Hx Hy. unfold SFltb. by rewrite SFcompare_fcmp. Qed.

Lemma SFleb_fcmp x y : isnan x = false -> isnan y = false -> SFleb x y = match fcmp x y with Gt => false | _ => true end.
Proof. intros Hx Hy. unfold SFleb. rewrite SFcompare_fcmp by done. by destruct (fcmp x y). Qed.

Lemma SFeqb_fcmp x y : isnan x = false -> isnan y = false -> SFeqb x y = match fcmp x y with Eq => true | _ => false end.
Proof. intros Hx Hy. unfold SFeqb. by rewrite SFcompare_fcmp. Qed.

Lemma memcmp_ok a b :
  memcmp a b (Nat.min (length a) (length b)) =
  Ok (sign (lexcmp (take (length b) a) (take (length a) b))).
Proof.
  revert b. induction a as [|x a IH]; intros [|y b]; try done. cbn [length Nat.min memcmp take].
  destruct (Z.ltb_spec x y) as [?|?].
  { cbn [lexcmp]. by rewrite (proj2 (Z.compare_lt_iff x y)). }
  rewrite Z.gtb_ltb. destruct (Z.ltb_spec y x).
  { cbn [lexcmp]. by rewrite (proj2 (Z.compare_gt_iff x y)). }
  cbn [lexcmp]. rewrite (proj2 (Z.compare_eq_iff x y)) by lia. apply IH.
Qed.

Lemma lexcmp_take a b :
  lexcmp a b = then_cmp (lexcmp (take (length b) a) (take (length a) b)) (zlen a ?= zlen b).
Proof.
  revert b. induction a as [|x a IH]; intros [|y b]; try done.
  cbn [length take lexcmp]. rewrite IH. unfold then_cmp. destruct (x ?= y); try done.
  destruct (lexcmp (take (length b) a) (take (length a) b)); try done.
  rewrite !zlen_cons. destruct (Z.compare_spec (zlen a) (zlen b)); symmetry;
    [apply Z.compare_eq_iff|apply Z.compare_lt_iff|apply Z.compare_gt_iff]; lia.
Qed.

Lemma sdscmp_ok a b : sdscmp a b = Ok (sign (lexcmp a b)).
Proof.
  unfold sdscmp. replace (Z.to_nat (if zlen a <? zlen b then zlen a else zlen b))
    with (Nat.min (length a) (length b)) by (unfold zlen; case_bool; lia).
  rewrite memcmp_ok. runr. rewrite (lexcmp_take a b).
  destruct (lexcmp (take (length b) a) (take (length a) b)); try done. cbn [sign then_cmp].
  change (0 =? 0) with true. cbv iota. rewrite Z.gtb_ltb.
  destruct (Z.compare_spec (zlen a) (zlen b)); by dec_bool.
Qed.

(** * Fields of the heap *)

(** The level array entry [i] of node [a]. *)
Definition lv (h : heap) (a : addr) (i : nat) : option zskiplistLevel :=
  h !! a ≫= fun n => n_level n !! i.

(** A node without what its level array holds. *)
Definition bare (n : zskiplistNode) : zskiplistNode :=
  with_level n (map (fun _ => {| forward := None; span := 0 |}) (n_level n)).

Definition same_nodes (h h' : heap) : Prop := forall a, bare <$> h' !! a = bare <$> h !! a.

(** Only entry [i] of node [x] differs: it is [l]. *)
Record wrote (h h' : heap) (x : addr) (i : nat) (l : zskiplistLevel) : Prop := {
  wr_nodes : same_nodes h h';
  wr_here : lv h' x i = Some l;
  wr_other : forall a j, a <> x \/ j <> i -> lv h' a j = lv h a j;
}.

Lemma same_nodes_refl h : same_nodes h h.
Proof. done. Qed.

Lemma same_nodes_trans h1 h2 h3 : same_nodes h1 h2 -> same_nodes h2 h3 -> same_nodes h1 h3.
Proof. intros H12 H23 a. by rewrite H23. Qed.

Lemma same_nodes_node h h' a n :
  same_nodes h h' -> h !! a = Some n -> exists n', h' !! a = Some n' /\ bare n' = bare n.
Proof. intros Hs Ha. specialize (Hs a). rewrite Ha in Hs. apply fmap_Some in Hs as (n' & Hn' & E). by exists n'. Qed.

Lemma bare_length n n' : bare n = bare n' -> length (n_level n) = length (n_level n').
Proof.
  intros E. apply (f_equal (fun n => length (n_level n))) in E. simpl in E. by rewrite !length_map in E.
Qed.

Lemma lv_node h a i l : lv h a i = Some l -> exists n, h !! a = Some n /\ n_level n !! i = Some l.
Proof. unfold lv. intros (n & ? & ?)%bind_Some. by exists n. Qed.

Lemma get_level_ok h a i l : lv h a i = Some l -> get_level h a (Z.of_nat i) = Ok l.
Proof.
  intros (n & Hn & Hl)%lv_node. unfold get_level, get_node. rewrite Hn. runr.
  apply rd1_lookup; [lia|]. by rewrite Nat2Z.id.
Qed.

Lemma get_forward_ok h a i l : lv h a i = Some l -> get_forward h a (Z.of_nat i) = Ok (forward l).
Proof. intros Hl. unfold get_forward. by rewrite (get_level_ok _ _ _ _ Hl). Qed.

Lemma get_span_ok h a i l :
  lv h a i = Some l ->
  zslGetNodeSpanAtLevel h a (Z.of_nat i) =
  Ok (if decide (i = 0%nat) then match forward l with Some _ => 1 | None => 0 end else span l).
Proof.
  intros Hl. unfold zslGetNodeSpanAtLevel. destruct (decide (i = 0%nat)) as [->|Hi].
  - change (Z.of_nat 0 >? 0) with false. change 0 with (Z.of_nat 0). by rewrite (get_forward_ok _ _ _ _ Hl).
  - rewrite (proj2 (Z.gtb_lt _ _)) by lia. by rewrite (get_level_ok _ _ _ _ Hl).
Qed.

Lemma lv_insert h a n b j : lv (<[a := n]> h) b j = if decide (b = a) then n_level n !! j else lv h b j.
Proof.
  unfold lv. destruct (decide (b = a)) as [->|Hne]; [by rewrite lookup_insert_eq|by rewrite lookup_insert_ne].
Qed.

Lemma map_const_insert {A B} (c : B) (l : list A) i x : map (fun _ => c) (<[i := x]> l) = map (fun _ => c) l.
Proof. revert i. induction l as [|y l IH]; intros [|i]; simpl; try done. by rewrite IH. Qed.

Lemma put_level_ok h x i l0 l :
  lv h x i = Some l0 -> exists h', put_level h x (Z.of_nat i) l = Ok h' /\ wrote h h' x i l.
Proof.
  intros (n & Hn & Hl)%lv_node. pose proof (lookup_lt_Some _ _ _ Hl) as Hi. unfold put_level, get_node. rewrite Hn. runr.
  rewrite wr1_ok by (unfold zlen; lia). runr. rewrite Nat2Z.id. eexists. split; [done|]. constructor.
  - intros a. destruct (decide (a = x)) as [->|Hne]; [|by rewrite lookup_insert_ne].
    rewrite lookup_insert_eq, Hn. simpl. unfold bare, with_level. simpl. by rewrite map_const_insert.
  - rewrite lv_insert, decide_True by done. simpl. by apply list_lookup_insert_eq.
  - intros a j Ha. rewrite lv_insert. destruct (decide (a = x)) as [->|Hne]; [|done].
    simpl. unfold lv. rewrite Hn. simpl. rewrite list_lookup_insert_ne by (intros ->; naive_solver). done.
Qed.

Lemma set_forward_ok h x i l f :
  lv h x i = Some l ->
  exists h', set_forward h x (Z.of_nat i) f = Ok h' /\ wrote h h' x i {| forward := f; span := span l |}.
Proof.
  intros Hl. unfold set_forward. rewrite (get_level_ok _ _ _ _ Hl). runr. by apply (put_level_ok _ _ _ l).
Qed.

Lemma set_span_ok h x i l s :
  lv h x i = Some l ->
  exists h', set_span h x (Z.of_nat i) s = Ok h' /\ wrote h h' x i {| forward := forward l; span := s |}.
Proof.
  intros Hl. unfold set_span. rewrite (get_level_ok _ _ _ _ Hl). runr. by apply (put_level_ok _ _ _ l).
Qed.

(** Spans are written above level 0 only. *)
Definition span_at (i : nat) (l : zskiplistLevel) (s : Z) : zskiplistLevel :=
  {| forward := forward l; span := if decide (i = 0%nat) then span l else s |}.

Lemma wrote_same h x i l : lv h x i = Some l -> wrote h h x i l.
Proof. by constructor. Qed.

Lemma set_span_at_ok h x i l s :
  lv h x i = Some l ->
  exists h', zslSetNodeSpanAtLevel h x (Z.of_nat i) s = Ok h' /\ wrote h h' x i (span_at i l s).
Proof.
  intros Hl. unfold zslSetNodeSpanAtLevel, span_at. destruct (decide (i = 0%nat)) as [->|Hi].
  - exists h. split; [done|]. apply wrote_same. rewrite Hl. by destruct l.
  - rewrite (proj2 (Z.gtb_lt _ _)) by lia. by apply set_span_ok.
Qed.

Lemma incr_span_at_ok h x i l s :
  lv h x i = Some l ->
  exists h', zslIncrNodeSpanAtLevel h x (Z.of_nat i) s = Ok h' /\ wrote h h' x i (span_at i l (u64 (span l + s))).
Proof.
  intros Hl. destruct (set_span_at_ok h x i l (u64 (span l + s)) Hl) as (h' & Hs & Hw). exists h'. split; [|done].
  unfold zslIncrNodeSpanAtLevel, zslSetNodeSpanAtLevel in *. destruct (Z.of_nat i >? 0); [|done].
  by rewrite (get_level_ok _ _ _ _ Hl).
Qed.

Lemma decr_span_at_ok h x i l s :
  lv h x i = Some l ->
  exists h', zslDecrNodeSpanAtLevel h x (Z.of_nat i) s = Ok h' /\ wrote h h' x i (span_at i l (u64 (span l - s))).
Proof.
  intros Hl. destruct (set_span_at_ok h x i l (u64 (span l - s)) Hl) as (h' & Hs & Hw). exists h'. split; [|done].
  unfold zslDecrNodeSpanAtLevel, zslSetNodeSpanAtLevel in *. destruct (Z.of_nat i >? 0); [|done].
  by rewrite (get_level_ok _ _ _ _ Hl).
Qed.

(** Two writes of the same entry. *)
Lemma wrote_twice h1 h2 h3 x i l l' : wrote h1 h2 x i l -> wrote h2 h3 x i l' -> wrote h1 h3 x i l'.
Proof.
  intros [N1 H1 O1] [N2 H2 O2]. constructor; [by eapply same_nodes_trans|done|].
  intros a j Ha. by rewrite O2, O1.
Qed.

(** * The invariant *)

Record tower := { t_addr : addr; t_key : scored; t_height : nat }.

Definition keys (L : list tower) : list scored := map t_key L.

Abbreviation spine_t := (list (addr * nat)).

Definition spine (hd : addr) (L : list tower) : spine_t :=
  (hd, Z.to_nat ZSKIPLIST_MAXLEVEL) :: map (fun t => (t_addr t, t_height t)) L.

(** [q] is the first position after [p] whose node is higher than [i], or the
    position after the last. *)
Record is_next (S : spine_t) (i p q : nat) : Prop := {
  nx_after : (p < q)%nat;
  nx_end : (q <= length S)%nat;
  nx_skip : forall r x, (p < r < q)%nat -> S !! r = Some x -> (x.2 <= i)%nat;
  nx_tall : forall x, S !! q = Some x -> (i < x.2)%nat;
}.

(** Entry [i] of the node [a] at position [p]. *)
Definition link_ok (h : heap) (S : spine_t) (lim : Z) (i p : nat) (a : addr) : Prop :=
  exists l q, lv h a i = Some l /\ is_next S i p q /\ forward l = fst <$> S !! q /\
    ((0 < i)%nat -> Z.of_nat i < lim -> span l = Z.of_nat (Nat.min q (length S - 1) - p)).

Definition node_block (t : tower) : Z :=
  let len := zlen (t_key t).2 in
  u64 (16 + Z.of_nat (t_height t) * 16 + (sdsHdrSize (sdsReqType len) + len + 1)).

Record node_is (n : zskiplistNode) (t : tower) : Prop := {
  ni_score : n_score n = (t_key t).1;
  ni_ele : n_ele n = (t_key t).2;
  ni_nan : isnan (t_key t).1 = false;
  ni_level : length (n_level n) = t_height t;
  ni_levels : levels (n_info n) = Z.of_nat (t_height t);
  ni_offset : sdsoffset (n_info n) <> ZSL_OFFSET_NO_ELE;
  ni_block : n_block n = node_block t;
}.

(** The node before position [p] of the list, if it is not the header. *)
Definition back_of (L : list tower) (p : nat) : option addr :=
  match p with O => None | S p => t_addr <$> L !! p end.

Record skl (h : heap) (z : zskiplist) (L : list tower) : Prop := {
  sk_nodup : NoDup (map fst (spine (zsl_header z) L));
  sk_level : 1 <= zsl_level z <= ZSKIPLIST_MAXLEVEL;
  sk_heights : forall t, t ∈ L -> (0 < t_height t)%nat /\ Z.of_nat (t_height t) <= zsl_level z;
  sk_length : zsl_length z = zlen L;
  sk_bound : zlen L < 2 ^ 63 - 1;
  sk_tail : zsl_tail z = t_addr <$> last L;
  sk_nodes : forall p t, L !! p = Some t ->
    exists n, h !! t_addr t = Some n /\ node_is n t /\ n_backward n = back_of L p;
  sk_header : exists n, h !! zsl_header z = Some n /\ length (n_level n) = Z.to_nat ZSKIPLIST_MAXLEVEL /\ n_block n = 528;
  sk_links : forall p a H i, spine (zsl_header z) L !! p = Some (a, H) -> (i < H)%nat ->
    link_ok h (spine (zsl_header z) L) (zsl_level z) i p a;
}.

(** The allocation size is what the struct, the header and the nodes take. *)
Definition blocks_size `{NodeAllocator} (L : list tower) : Z :=
  foldr (fun t a => usable_size (node_block t) + a) 0 L.

Definition alloc_exact `{NodeAllocator} (z : zskiplist) (L : list tower) : Prop :=
  alloc_size z = u64 (usable_size zsl_struct_size + usable_size 528 + blocks_size L).

(** ** Positions *)

Lemma spine_length hd L : length (spine hd L) = S (length L).
Proof. simpl. by rewrite length_map. Qed.

Lemma spine_head hd L : spine hd L !! 0%nat = Some (hd, 32%nat).
Proof. done. Qed.

Lemma spine_node hd L p : spine hd L !! S p = (fun t => (t_addr t, t_height t)) <$> L !! p.
Proof. simpl. apply list_lookup_fmap. Qed.

Lemma spine_cases hd L p a H :
  spine hd L !! p = Some (a, H) ->
  (p = 0%nat /\ a = hd /\ H = 32%nat) \/
  (exists q t, p = S q /\ L !! q = Some t /\ a = t_addr t /\ H = t_height t).
Proof.
  destruct p as [|q]; [rewrite spine_head; intros; simplify_eq; by left|].
  rewrite spine_node. intros (t & Ht & E)%fmap_Some. simplify_eq. right. by exists q, t.
Qed.

Lemma spine_inj hd L p q a Hp Hq :
  NoDup (map fst (spine hd L)) -> spine hd L !! p = Some (a, Hp) -> spine hd L !! q = Some (a, Hq) -> p = q.
Proof.
  intros Hnd Ep Eq. apply (NoDup_lookup _ _ _ a Hnd).
  - change (map fst (spine hd L)) with (fst <$> spine hd L). by rewrite list_lookup_fmap, Ep.
  - change (map fst (spine hd L)) with (fst <$> spine hd L). by rewrite list_lookup_fmap, Eq.
Qed.

Lemma spine_lt hd L p a H : spine hd L !! p = Some (a, H) -> (p <= length L)%nat.
Proof. intros Hp%lookup_lt_Some. rewrite spine_length in Hp. lia. Qed.

Lemma spine_get hd L p : (p <= length L)%nat -> exists a H, spine hd L !! p = Some (a, H).
Proof.
  intros Hp. destruct (spine hd L !! p) as [[a H]|] eqn:E; [by exists a, H|].
  apply lookup_ge_None in E. rewrite spine_length in E. lia.
Qed.

Lemma is_next_inj S i p q q' : is_next S i p q -> is_next S i p q' -> q = q'.
Proof.
  intros [A1 E1 K1 T1] [A2 E2 K2 T2].
  assert (forall q q', is_next S i p q -> is_next S i p q' -> ~ (q < q')%nat) as Hno.
  { clear. intros q q' [A1 E1 K1 T1] [A2 E2 K2 T2] Hlt.
    destruct (lookup_lt_is_Some_2 S q ltac:(lia)) as [x Hx]. specialize (T1 x Hx). specialize (K2 q x ltac:(lia) Hx). lia. }
  assert (~ (q < q')%nat) by (apply Hno; by constructor).
  assert (~ (q' < q)%nat) by (apply Hno; by constructor). lia.
Qed.

(** ** Walking along a level *)

(** [u] is the last position not after [k] whose node is higher than [i]. *)
Record is_last (S : spine_t) (i k u : nat) : Prop := {
  ls_le : (u <= k)%nat;
  ls_tall : exists x, S !! u = Some x /\ (i < x.2)%nat;
  ls_skip : forall r x, (u < r <= k)%nat -> S !! r = Some x -> (x.2 <= i)%nat;
}.

Lemma is_last_inj S i k u u' : is_last S i k u -> is_last S i k u' -> u = u'.
Proof.
  intros [L1 (x & X1 & T1) K1] [L2 (y & X2 & T2) K2].
  destruct (Nat.lt_trichotomy u u') as [Hlt|[->|Hlt]]; [|done|].
  - specialize (K1 u' y ltac:(lia) X2). lia.
  - specialize (K2 u x ltac:(lia) X1). lia.
Qed.

(** The node after the last one is after [k]. *)
Lemma is_last_next S i k u q : is_last S i k u -> is_next S i u q -> (k < length S)%nat -> (k < q)%nat.
Proof.
  intros [L1 _ K1] [A E K T] Hk. destruct (Nat.lt_ge_cases k q) as [|Hge]; [done|].
  destruct (lookup_lt_is_Some_2 S q ltac:(lia)) as [x Hx]. specialize (K1 q x ltac:(lia) Hx). specialize (T x Hx). lia.
Qed.

Section walking.
Context (h : heap) (z : zskiplist) (L : list tower).
Context (Hsk : skl h z L).
Local Abbreviation S_ := (spine (zsl_header z) L).

(** The condition [cond] of a loop whose counter is the position less [b]
    holds for the nodes up to position [k]. *)
Definition up_to (cond : Z -> Z -> option addr -> result bool) (b : Z) (k : nat) : Prop :=
  forall p q : nat, (Z.to_nat b <= p <= k)%nat -> (p < q <= S (length L))%nat ->
    cond (Z.of_nat p - b) (Z.of_nat (Nat.min q (length L) - p)) (fst <$> S_ !! q) = Ok (bool_decide (q <= k)%nat).

Lemma link_at p a H i :
  S_ !! p = Some (a, H) -> (i < H)%nat -> Z.of_nat i < zsl_level z ->
  exists q, is_next S_ i p q /\ get_forward h a (Z.of_nat i) = Ok (fst <$> S_ !! q) /\
    zslGetNodeSpanAtLevel h a (Z.of_nat i) = Ok (Z.of_nat (Nat.min q (length L) - p)).
Proof.
  intros Hp Hi Hlim. destruct (sk_links _ _ _ Hsk p a H i Hp Hi) as (l & q & Hl & Hn & Hf & Hs).
  exists q. split; [done|]. rewrite (get_forward_ok _ _ _ _ Hl), Hf. split; [done|].
  rewrite (get_span_ok _ _ _ _ Hl). f_equal. pose proof (spine_lt _ _ _ _ _ Hp) as Hpl.
  rewrite spine_length in Hs. replace (S (length L) - 1)%nat with (length L) in Hs by lia.
  destruct (decide (i = 0%nat)) as [->|Hne]; [|by apply Hs; lia].
  destruct Hn as [A E K T]. rewrite Hf. rewrite spine_length in E. destruct (S_ !! q) as [x|] eqn:Hq; simpl.
  - pose proof (lookup_lt_Some _ _ _ Hq) as Hql. rewrite spine_length in Hql.
    assert (q = S p); [|lia]. destruct (Nat.eq_dec q (S p)) as [|Hne]; [done|].
    destruct (spine_get (zsl_header z) L (S p) ltac:(lia)) as (a' & H' & Ha'). specialize (K (S p) _ ltac:(lia) Ha').
    apply spine_cases in Ha' as [(? & _)|(q' & t & E' & Ht & _ & ->)]; [lia|].
    destruct (sk_heights _ _ _ Hsk t (list_elem_of_lookup_2 _ _ _ Ht)). simpl in K. lia.
  - apply lookup_ge_None in Hq. rewrite spine_length in Hq.
    destruct (Nat.eq_dec p (length L)); [lia|].
    destruct (spine_get (zsl_header z) L (S p) ltac:(lia)) as (a' & H' & Ha'). specialize (K (S p) _ ltac:(lia) Ha').
    apply spine_cases in Ha' as [(? & _)|(q' & t & E' & Ht & _ & ->)]; [lia|].
    destruct (sk_heights _ _ _ Hsk t (list_elem_of_lookup_2 _ _ _ Ht)). simpl in K. lia.
Qed.

Lemma walk_ok cond b k i : forall fuel p a H,
  up_to cond b k -> (k <= length L)%nat -> 0 <= b -> Z.of_nat i < zsl_level z ->
  S_ !! p = Some (a, H) -> (i < H)%nat -> (Z.to_nat b <= p <= k)%nat -> (k - p < fuel)%nat ->
  exists u a' H', is_last S_ i k u /\ S_ !! u = Some (a', H') /\ (p <= u)%nat /\
    walk fuel cond h (Z.of_nat i) a (Z.of_nat p - b) = Ok (a', Z.of_nat u - b).
Proof.
  induction fuel as [|fuel IH]; intros p a H Hc Hk Hb Hlim Hp Hi Hpk Hfuel; [lia|].
  destruct (link_at p a H i Hp Hi Hlim) as (q & Hn & Hf & Hs). cbn [walk]. rewrite Hf, Hs. runr.
  pose proof (nx_after _ _ _ _ Hn) as A. pose proof (nx_end _ _ _ _ Hn) as E. rewrite spine_length in E.
  rewrite (Hc p q) by lia. runr. destruct (bool_decide_reflect (q <= k)%nat) as [Hqk|Hqk].
  - destruct (spine_get (zsl_header z) L q ltac:(lia)) as (a2 & H2 & Hq). rewrite Hq. cbn [fmap option_fmap option_map fst].
    rewrite Nat.min_l by lia. pose proof (sk_bound _ _ _ Hsk) as Hbd. unfold zlen in Hbd.
    rewrite wrapU_small by lia. replace (Z.of_nat p - b + Z.of_nat (q - p)) with (Z.of_nat q - b) by lia.
    destruct (IH q a2 H2) as (u & a' & H' & Hu & Ha' & Hpu & ->); try done; try lia.
    { by apply (nx_tall _ _ _ _ Hn _ Hq). }
    exists u, a', H'. split_and!; try done. lia.
  - exists p, a, H. split_and!; try done. constructor; [lia|by exists (a, H)|].
    intros r x Hr Hx. apply (nx_skip _ _ _ _ Hn r x); [lia|done].
Qed.

(** Going down the levels, from a position where the top one is reached. *)
Lemma descend_ok cond b k fuel : forall n p a H upd,
  up_to cond b k -> (k <= length L)%nat -> 0 <= b -> (n <= Z.to_nat (zsl_level z))%nat ->
  S_ !! p = Some (a, H) -> (n <= H)%nat -> (Z.to_nat b <= p <= k)%nat -> (length L < fuel)%nat ->
  exists us a' H' u, length us = n /\ S_ !! u = Some (a', H') /\ (p <= u <= k)%nat /\ (n <> 0 -> u = k)%nat /\
    descend n fuel cond h a (Z.of_nat p - b) upd = Ok (a', Z.of_nat u - b, us ++ upd) /\
    (n = 0%nat -> u = p) /\
    forall i, (i < n)%nat -> exists v av Hv, us !! i = Some (av, Z.of_nat v - b) /\ S_ !! v = Some (av, Hv) /\ is_last S_ i k v.
Proof.
  induction n as [|n IH]; intros p a H upd Hc Hk Hb Hn Hp HnH Hpk Hfuel.
  - exists [], a, H, p. split_and!; try done; try lia.
  - cbn [descend]. pose proof (sk_level _ _ _ Hsk) as Hlev.
    destruct (walk_ok cond b k n fuel p a H) as (u & a2 & H2 & Hu & Ha2 & Hpu & ->); try done; try lia.
    runr. pose proof (ls_le _ _ _ _ Hu) as Hle. destruct (ls_tall _ _ _ _ Hu) as (x & Hx & Ht). rewrite Ha2 in Hx. simplify_eq/=.
    destruct (IH u a2 H2 ((a2, Z.of_nat u - b) :: upd)) as (us & a' & H' & u' & Hlen & Ha' & Hu' & Hk0 & Hd & Hz & Hus);
      try done; try lia.
    exists (us ++ [(a2, Z.of_nat u - b)]), a', H', u'. split_and!; try done; try lia.
    + rewrite length_app. simpl. lia.
    + intros _. destruct (Nat.eq_dec n 0%nat) as [->|]; [|by apply Hk0]. rewrite Hz by done.
      destruct (Nat.eq_dec u k) as [|Hne]; [done|].
      destruct (spine_get (zsl_header z) L (S u) ltac:(lia)) as (a3 & H3 & Ha3).
      pose proof (ls_skip _ _ _ _ Hu (S u) _ ltac:(lia) Ha3) as Hlow.
      apply spine_cases in Ha3 as [(? & _)|(q' & t & E' & Ht' & _ & ->)]; [lia|].
      destruct (sk_heights _ _ _ Hsk t (list_elem_of_lookup_2 _ _ _ Ht')). simpl in Hlow. lia.
    + by rewrite Hd, <- app_assoc.
    + intros i Hi. destruct (Nat.eq_dec i n) as [->|].
      * exists u, a2, H2. split_and!; try done. rewrite lookup_app_r by lia. by rewrite Hlen, Nat.sub_diag.
      * destruct (Hus i ltac:(lia)) as (v & av & Hv & E1 & E2 & E3). exists v, av, Hv. split_and!; try done.
        by apply lookup_app_l_Some.
Qed.
End walking.

(** ** Searches *)

(** The nodes with property [P] are the first [k]. *)
Definition splits (P : scored -> Prop) (L : list tower) (k : nat) : Prop :=
  (k <= length L)%nat /\ forall p t, L !! p = Some t -> P (t_key t) <-> (p < k)%nat.

(** The arrays update and rank of a search that ended at position [k]. *)
Definition searched (S : spine_t) (k n : nat) (upd : list (addr * Z)) : Prop :=
  length upd = n /\
  forall i, (i < n)%nat -> exists v a H, upd !! i = Some (a, Z.of_nat v) /\ S !! v = Some (a, H) /\ is_last S i k v.

Lemma node_compare_ok h t n score ele :
  h !! t_addr t = Some n -> node_is n t -> isnan score = false ->
  zslCompareWithNode h score ele (Some (t_addr t)) = Ok (sign (ecmp (score, ele) (t_key t))).
Proof.
  intros Hn Hni Hs. unfold zslCompareWithNode, zslGetNodeElement, get_node. rewrite Hn. runr.
  rewrite (proj2 (Z.eqb_neq _ _)) by apply (ni_offset _ _ Hni). cbn [negb]. runr.
  rewrite (ni_score _ _ Hni), (ni_ele _ _ Hni). pose proof (ni_nan _ _ Hni).
  rewrite !SFltb_fcmp by done. unfold ecmp. rewrite (fcmp_antisym score (t_key t).1). cbn [fst snd].
  destruct (fcmp score (t_key t).1); try done. cbn [CompOpp then_cmp]. by rewrite sdscmp_ok.
Qed.

Section searching.
Context (h : heap) (z : zskiplist) (L : list tower).
Context (Hsk : skl h z L).
Local Abbreviation S_ := (spine (zsl_header z) L).

(** A test of nodes, as a condition on pointers. *)
Lemma up_to_test (test : heap -> addr -> result bool) (P : scored -> Prop) k b (cond : Z -> Z -> option addr -> result bool) :
  splits P L k ->
  (forall r s, cond r s None = Ok false) ->
  (forall p t r s, L !! p = Some t -> cond r s (Some (t_addr t)) = Ok true <-> P (t_key t)) ->
  (forall p t r s, L !! p = Some t -> exists c, cond r s (Some (t_addr t)) = Ok c) ->
  up_to z L cond b k.
Proof.
  intros [Hk Hsp] Hnone Htest Hval p q Hp Hq. destruct q as [|q]; [lia|]. rewrite spine_node.
  destruct (L !! q) as [t|] eqn:Ht; cbn [fmap option_fmap option_map fst].
  - destruct (Hval q t (Z.of_nat p - b) (Z.of_nat (Nat.min (S q) (length L) - p)) Ht) as [c Hc].
    pose proof (Htest q t (Z.of_nat p - b) (Z.of_nat (Nat.min (S q) (length L) - p)) Ht) as Hiff. rewrite Hc in *. f_equal.
    rewrite (Hsp q t Ht) in Hiff. destruct c; symmetry; [apply bool_decide_eq_true|apply bool_decide_eq_false].
    + by apply Nat.le_succ_l, Hiff.
    + intros E. apply Nat.le_succ_l in E. apply Hiff in E. done.
  - rewrite Hnone. f_equal. symmetry. apply bool_decide_eq_false. apply lookup_ge_None in Ht. lia.
Qed.

Lemma up_to_before score ele k :
  isnan score = false -> splits (fun e => elt e (score, ele)) L k -> up_to z L (cond_before h score ele) 0 k.
Proof.
  intros Hs Hsp. assert (forall p t, L !! p = Some t -> forall r s,
    cond_before h score ele r s (Some (t_addr t)) = Ok (sign (ecmp (score, ele) (t_key t)) >? 0)) as Hc.
  { intros p t Ht r s. destruct (sk_nodes _ _ _ Hsk p t Ht) as (n & Hn & Hni & _).
    unfold cond_before. by rewrite (node_compare_ok _ _ _ _ _ Hn Hni Hs). }
  apply (up_to_test (fun _ _ => Ok true) _ _ _ _ Hsp).
  - done.
  - intros p t r s Ht. rewrite (Hc p t Ht). unfold elt. rewrite (ecmp_antisym (score, ele) (t_key t)).
    by destruct (ecmp (score, ele) (t_key t)).
  - intros p t r s Ht. eexists. by apply (Hc p).
Qed.

(** All the levels, from the header. *)
Lemma descend_all cond k :
  up_to z L cond 0 k -> (k <= length L)%nat ->
  exists a H upd, descend (Z.to_nat (zsl_level z)) (list_fuel z) cond h (zsl_header z) 0 [] = Ok (a, Z.of_nat k, upd) /\
    S_ !! k = Some (a, H) /\ searched S_ k (Z.to_nat (zsl_level z)) upd.
Proof.
  intros Hup Hk. pose proof (sk_level _ _ _ Hsk) as Hlev. unfold ZSKIPLIST_MAXLEVEL in Hlev.
  destruct (descend_ok h z L Hsk cond 0 k (list_fuel z) (Z.to_nat (zsl_level z)) 0%nat (zsl_header z) 32%nat [])
    as (us & a & H & u & Hlen & Ha & Hu & Hk0 & Hd & _ & Hus); try done; try lia.
  { unfold list_fuel. rewrite (sk_length _ _ _ Hsk). unfold zlen. lia. }
  rewrite Hk0 in * by lia. rewrite app_nil_r, !Z.sub_0_r in Hd. exists a, H, us. split; [done|]. split; [done|].
  split; [done|]. intros i Hi. destruct (Hus i Hi) as (v & av & Hv & E1 & E2 & E3). rewrite Z.sub_0_r in E1.
  by exists v, av, Hv.
Qed.

Lemma search_ok score ele k :
  isnan score = false -> splits (fun e => elt e (score, ele)) L k ->
  exists a H upd, search h z score ele = Ok (a, Z.of_nat k, upd) /\
    S_ !! k = Some (a, H) /\ searched S_ k (Z.to_nat (zsl_level z)) upd.
Proof.
  intros Hs Hsp. apply descend_all; [|apply Hsp]. by apply up_to_before.
Qed.
End searching.

(** ** Sorted lists *)

Abbreviation sorted := (StronglySorted elt).

Lemma sorted_lookup l p q a b :
  sorted l -> l !! p = Some a -> l !! q = Some b -> (p < q)%nat -> elt a b.
Proof.
  intros Hs. revert p q. induction Hs as [|x l Hs IH Hf]; intros p q Hp Hq Hlt; [done|].
  destruct q as [|q]; [lia|]. destruct p as [|p]; simplify_eq/=; [|by apply (IH p q); lia || done].
  by apply (list.Forall_lookup_1 _ _ _ _ Hf Hq).
Qed.

Lemma sorted_mid a x b : sorted (a ++ x :: b) <->
  sorted a /\ sorted b /\ Forall (fun y => elt y x) a /\ Forall (elt x) b /\ Forall (fun y => Forall (elt y) b) a.
Proof.
  induction a as [|y a IH]; simpl.
  - split; [intros Hs; inversion Hs; subst; split_and!; by try constructor|].
    intros (_ & Hb & _ & Hx & _). by constructor.
  - rewrite !list.Forall_cons. split.
    + intros Hs. inversion Hs as [|? ? Hs' Hf]; subst. apply IH in Hs' as (? & ? & ? & ? & ?).
      apply Forall_app in Hf as [? [??]%list.Forall_cons]. split_and!; try done. by constructor.
    + intros (Ha & Hb & [? ?] & Hx & [? ?]). inversion Ha; subst. constructor; [by apply IH|].
      apply Forall_app. split; [done|]. by constructor.
Qed.

Lemma sorted_keys_nodup l : sorted l -> NoDup l.
Proof.
  induction 1 as [|x l Hs IH Hf]; constructor; [|done]. intros Hin.
  rewrite list.Forall_forall in Hf. by apply (elt_irrefl x), Hf.
Qed.

(** The number of elements before a key. *)
Fixpoint place (k : scored) (l : list scored) : nat :=
  match l with
  | [] => 0
  | x :: l => match ecmp x k with Lt => S (place k l) | _ => 0 end
  end.

Lemma place_le k l : (place k l <= length l)%nat.
Proof. induction l as [|x l IH]; simpl; [lia|]. destruct (ecmp x k); lia. Qed.

Lemma place_spec k l p x : sorted l -> l !! p = Some x -> elt x k <-> (p < place k l)%nat.
Proof.
  intros Hs. revert p. induction Hs as [|y l Hs IH Hf]; intros p Hp; [done|].
  simpl. destruct p as [|p]; simplify_eq/=.
  - unfold elt. destruct (ecmp x k); split; intros; try done; lia.
  - destruct (ecmp y k) eqn:E.
    3: { split; [|lia]. intros Hx. pose proof (list.Forall_lookup_1 _ _ _ _ Hf Hp) as Hyx.
         pose proof (elt_trans _ _ _ Hyx Hx) as Hyk. unfold elt in Hyk. congruence. }
    1: { split; [|lia]. intros Hx. pose proof (list.Forall_lookup_1 _ _ _ _ Hf Hp) as Hyx.
         pose proof (elt_trans _ _ _ Hyx Hx) as Hyk. unfold elt in Hyk. congruence. }
    rewrite (IH p Hp). lia.
Qed.

Lemma splits_place L k : sorted (keys L) -> splits (fun e => elt e k) L (place k (keys L)).
Proof.
  intros Hs. split.
  - pose proof (place_le k (keys L)) as Hle. unfold keys in Hle. by rewrite length_map in Hle.
  - intros p t Ht. apply place_spec; [done|]. unfold keys. change (map t_key L) with (t_key <$> L).
    by rewrite list_lookup_fmap, Ht.
Qed.
