(* ===== verification/SkiplistOps.v ===== *)
(** SkiplistOps: insertion in the skip list of Skiplist.v; deletion is in
    SkiplistDelete.v.

    The loops over the levels are described level by level: which entries they
    write and what they write there.  The rest is arithmetic on positions. *)

From Stdlib Require Import ZArith Lia Bool.
From S2P Require Import Prelude Bytes Skiplist SkiplistProofs.
From stdpp Require Import base list numbers decidable gmap sorting.

Local Open Scope Z_scope.

(** * Loops over the levels *)

(** Nothing but entries of the levels [i], ..., [i + n - 1] differs, and those are
    related by [R]. *)
Definition levelwise (R : heap -> heap -> nat -> Prop) (h h' : heap) (i n : nat) : Prop :=
  same_nodes h h' /\
  forall j, if decide (i <= j < i + n)%nat then R h h' j else forall b, lv h' b j = lv h b j.

(** [R] looks at one level only. *)
Definition local_rel (R : heap -> heap -> nat -> Prop) : Prop :=
  forall h1 h2 h1' h2' j, (forall b, lv h1' b j = lv h1 b j) -> (forall b, lv h2' b j = lv h2 b j) ->
    R h1 h2 j -> R h1' h2' j.

Lemma levelwise_nil R h i : levelwise R h h i 0.
Proof. split; [done|]. intros j. by rewrite decide_False by lia. Qed.

Lemma levelwise_cons R h h1 h' i n :
  local_rel R -> same_nodes h h1 -> R h h1 i -> (forall b j, j <> i -> lv h1 b j = lv h b j) ->
  levelwise R h1 h' (S i) n -> levelwise R h h' i (S n).
Proof.
  intros HR Hs Hi Ho [Hs' Hl]. split; [by eapply same_nodes_trans|]. intros j. specialize (Hl j).
  destruct (decide (j = i)) as [->|Hne].
  - rewrite decide_True by lia. rewrite decide_False in Hl by lia. apply (HR h h1); done.
  - destruct (decide (i <= j < i + S n)%nat).
    + rewrite decide_True in Hl by lia. apply (HR h1 h'); try done. intros b. symmetry. by apply Ho.
    + rewrite decide_False in Hl by lia. intros b. by rewrite Hl, Ho.
Qed.

(** ** Linking a new node *)

Definition linked (a : addr) (upd : list (addr * Z)) (r0 : Z) (h h' : heap) (j : nat) : Prop :=
  exists u r lu la, upd !! j = Some (u, r) /\ lv h u j = Some lu /\ lv h a j = Some la /\
    lv h' u j = Some (span_at j {| forward := Some a; span := span lu |} (u64 (u64 (r0 - r) + 1))) /\
    lv h' a j = Some (span_at j {| forward := forward lu; span := span la |} (u64 (span lu - u64 (r0 - r)))) /\
    forall b, b <> a -> b <> u -> lv h' b j = lv h b j.

Lemma linked_local a upd r0 : local_rel (linked a upd r0).
Proof.
  intros h1 h2 h1' h2' j E1 E2 (u & r & lu & la & Hu & Hlu & Hla & Hu' & Ha' & Ho).
  exists u, r, lu, la. rewrite !E1, !E2. split_and!; try done. intros b ? ?. by rewrite E1, E2, Ho.
Qed.

Lemma upd_at {A} (upd : list A) i x : upd !! i = Some x -> rd1 upd (Z.of_nat i) = Ok x.
Proof. intros Hx. apply rd1_lookup; [lia|]. by rewrite Nat2Z.id. Qed.

Lemma link_loop_ok a upd r0 : forall n i h,
  (forall j, (i <= j < i + n)%nat -> exists u r lu la, upd !! j = Some (u, r) /\ u <> a /\
     lv h u j = Some lu /\ lv h a j = Some la) ->
  exists h', link_loop n (Z.of_nat i) h a upd r0 = Ok h' /\ levelwise (linked a upd r0) h h' i n.
Proof.
  induction n as [|n IH]; intros i h Hpre; [exists h; split; [done|apply levelwise_nil]|].
  destruct (Hpre i ltac:(lia)) as (u & r & lu & la & Hu & Hne & Hlu & Hla).
  cbn [link_loop]. rewrite (upd_at _ _ _ Hu). runr. rewrite (get_forward_ok _ _ _ _ Hlu). runr.
  destruct (set_forward_ok h a i la (forward lu) Hla) as (h1 & -> & W1). runr.
  assert (lv h1 u i = Some lu) as Hlu1 by (rewrite (wr_other _ _ _ _ _ W1) by (left; done); done).
  destruct (set_forward_ok h1 u i lu (Some a) Hlu1) as (h2 & -> & W2). runr.
  rewrite (get_span_ok _ _ _ _ (wr_here _ _ _ _ _ W2)). runr. cbn [forward span].
  assert (lv h2 a i = Some {| forward := forward lu; span := span la |}) as Hla2.
  { rewrite (wr_other _ _ _ _ _ W2) by (left; congruence). apply W1. }
  set (s := if decide (i = 0%nat) then 1 else span lu).
  destruct (set_span_at_ok h2 a i _ (u64 (s - u64 (r0 - r))) Hla2) as (h3 & -> & W3). runr.
  assert (lv h3 u i = Some {| forward := Some a; span := span lu |}) as Hlu3.
  { rewrite (wr_other _ _ _ _ _ W3) by (left; congruence). apply W2. }
  destruct (set_span_at_ok h3 u i _ (u64 (u64 (r0 - r) + 1)) Hlu3) as (h4 & -> & W4). runr.
  assert (forall b j, j <> i -> lv h4 b j = lv h b j) as Ho.
  { intros b j Hj. rewrite (wr_other _ _ _ _ _ W4), (wr_other _ _ _ _ _ W3), (wr_other _ _ _ _ _ W2),
      (wr_other _ _ _ _ _ W1); auto. }
  replace (Z.of_nat i + 1) with (Z.of_nat (S i)) by lia.
  destruct (IH (S i) h4) as (h' & -> & Hl).
  { intros j Hj. destruct (Hpre j ltac:(lia)) as (u' & r' & lu' & la' & ? & ? & ? & ?).
    exists u', r', lu', la'. rewrite !Ho by lia. done. }
  exists h'. split; [done|]. apply (levelwise_cons _ _ h4); try done.
  - apply linked_local.
  - eapply same_nodes_trans; [apply W1|]. eapply same_nodes_trans; [apply W2|].
    eapply same_nodes_trans; [apply W3|apply W4].
  - exists u, r, lu, la. split_and!; try done; [apply W4| |].
    + rewrite (wr_other _ _ _ _ _ W4) by (left; congruence). rewrite (wr_here _ _ _ _ _ W3). f_equal.
      unfold span_at, s. cbn [forward span]. by destruct (decide (i = 0%nat)).
    + intros b Hba Hbu. rewrite (wr_other _ _ _ _ _ W4), (wr_other _ _ _ _ _ W3), (wr_other _ _ _ _ _ W2),
        (wr_other _ _ _ _ _ W1); auto.
Qed.

(** ** The levels above the new node *)

Definition stretched (upd : list (addr * Z)) (h h' : heap) (j : nat) : Prop :=
  exists u r lu, upd !! j = Some (u, r) /\ lv h u j = Some lu /\
    lv h' u j = Some (span_at j lu (u64 (span lu + 1))) /\ forall b, b <> u -> lv h' b j = lv h b j.

Lemma stretched_local upd : local_rel (stretched upd).
Proof.
  intros h1 h2 h1' h2' j E1 E2 (u & r & lu & Hu & Hlu & Hu' & Ho).
  exists u, r, lu. rewrite !E1, !E2. split_and!; try done. intros b ?. by rewrite E1, E2, Ho.
Qed.

Lemma incr_loop_ok upd : forall n i h,
  (forall j, (i <= j < i + n)%nat -> exists u r lu, upd !! j = Some (u, r) /\ lv h u j = Some lu) ->
  exists h', incr_loop n (Z.of_nat i) h upd = Ok h' /\ levelwise (stretched upd) h h' i n.
Proof.
  induction n as [|n IH]; intros i h Hpre; [exists h; split; [done|apply levelwise_nil]|].
  destruct (Hpre i ltac:(lia)) as (u & r & lu & Hu & Hlu).
  cbn [incr_loop]. rewrite (upd_at _ _ _ Hu). runr.
  destruct (incr_span_at_ok h u i lu 1 Hlu) as (h1 & -> & W). runr.
  replace (Z.of_nat i + 1) with (Z.of_nat (S i)) by lia. destruct (IH (S i) h1) as (h' & -> & Hl).
  { intros j Hj. destruct (Hpre j ltac:(lia)) as (u' & r' & lu' & ? & ?). exists u', r', lu'.
    rewrite (wr_other _ _ _ _ _ W) by (right; lia). done. }
  exists h'. split; [done|]. apply (levelwise_cons _ _ h1); try done; [apply stretched_local|apply W| |].
  - exists u, r, lu. split_and!; try done; [apply W|]. intros b Hb. apply (wr_other _ _ _ _ _ W). by left.
  - intros b j Hj. apply (wr_other _ _ _ _ _ W). by right.
Qed.

(** ** Unlinking *)

Definition unlinked (x : addr) (upd : list (addr * Z)) (h h' : heap) (j : nat) : Prop :=
  exists u r lu, upd !! j = Some (u, r) /\ lv h u j = Some lu /\
    (forall b, b <> u -> lv h' b j = lv h b j) /\
    ((forward lu = Some x /\ exists lx, lv h x j = Some lx /\
        lv h' u j = Some {| forward := forward lx;
          span := span (span_at j lu (u64 (span lu + u64 (span lx - 1)))) |}) \/
     (forward lu <> Some x /\ lv h' u j = Some (span_at j lu (u64 (span lu - 1))))).

Lemma unlinked_local x upd : local_rel (unlinked x upd).
Proof.
  intros h1 h2 h1' h2' j E1 E2 (u & r & lu & Hu & Hlu & Ho & Hor).
  exists u, r, lu. rewrite !E1, !E2. split_and!; try done. intros b ?. by rewrite E1, E2, Ho.
Qed.

Lemma unlink_loop_ok x upd : forall n i h,
  (forall j, (i <= j < i + n)%nat -> exists u r lu, upd !! j = Some (u, r) /\ u <> x /\ lv h u j = Some lu /\
     (forward lu = Some x -> exists lx, lv h x j = Some lx)) ->
  exists h', unlink_loop n (Z.of_nat i) h x upd = Ok h' /\ levelwise (unlinked x upd) h h' i n.
Proof.
  induction n as [|n IH]; intros i h Hpre; [exists h; split; [done|apply levelwise_nil]|].
  destruct (Hpre i ltac:(lia)) as (u & r & lu & Hu & Hne & Hlu & Hx).
  cbn [unlink_loop]. rewrite (upd_at _ _ _ Hu). runr. rewrite (get_forward_ok _ _ _ _ Hlu). runr.
  assert (exists h1, (if decide (forward lu = Some x) then
            let* s := zslGetNodeSpanAtLevel h x (Z.of_nat i) in
            let* h0 := zslIncrNodeSpanAtLevel h u (Z.of_nat i) (u64 (s - 1)) in
            let* fx := get_forward h0 x (Z.of_nat i) in set_forward h0 u (Z.of_nat i) fx
          else zslDecrNodeSpanAtLevel h u (Z.of_nat i) 1) = Ok h1 /\
          same_nodes h h1 /\ (forall b j, j <> i -> lv h1 b j = lv h b j) /\ unlinked x upd h h1 i)
    as (h1 & -> & Hs & Ho & Hun).
  { destruct (decide (forward lu = Some x)) as [Hf|Hf].
    - destruct (Hx Hf) as (lx & Hlx). rewrite (get_span_ok _ _ _ _ Hlx). runr.
      set (s := if decide (i = 0%nat) then match forward lx with Some _ => 1 | None => 0 end else span lx).
      destruct (incr_span_at_ok h u i lu (u64 (s - 1)) Hlu) as (h0 & -> & W0). runr.
      assert (lv h0 x i = Some lx) as Hlx0 by (rewrite (wr_other _ _ _ _ _ W0) by (left; congruence); done).
      rewrite (get_forward_ok _ _ _ _ Hlx0). runr.
      destruct (set_forward_ok h0 u i _ (forward lx) (wr_here _ _ _ _ _ W0)) as (h1 & -> & W1).
      pose proof (wrote_twice _ _ _ _ _ _ _ W0 W1) as W. exists h1. split; [done|]. split; [apply W|].
      split; [intros b j Hj; apply W; by right|]. exists u, r, lu. split_and!; try done.
      { intros b Hb. apply W. by left. }
      left. split; [done|]. exists lx. split; [done|]. rewrite (wr_here _ _ _ _ _ W). f_equal. f_equal.
      unfold span_at, s. cbn [span]. by destruct (decide (i = 0%nat)).
    - destruct (decr_span_at_ok h u i lu 1 Hlu) as (h1 & -> & W). exists h1. split; [done|]. split; [apply W|].
      split; [intros b j Hj; apply W; by right|]. exists u, r, lu. split_and!; try done.
      { intros b Hb. apply W. by left. }
      right. split; [done|apply W]. }
  runr. replace (Z.of_nat i + 1) with (Z.of_nat (S i)) by lia. destruct (IH (S i) h1) as (h' & -> & Hl).
  { intros j Hj. destruct (Hpre j ltac:(lia)) as (u' & r' & lu' & ? & ? & ? & Hx'). exists u', r', lu'.
    rewrite !Ho by lia. done. }
  exists h'. split; [done|]. apply (levelwise_cons _ _ h1); try done. apply unlinked_local.
Qed.

(** * Positions when a node comes in or goes out *)

Section positions.
Context (S S' : spine_t) (k : nat) (x : addr * nat).
Context (Hk : (k < length S)%nat).
Context (HS' : S' = take (Datatypes.S k) S ++ x :: drop (Datatypes.S k) S).

Lemma put_length : length S' = Datatypes.S (length S).
Proof. rewrite HS', length_app, length_take. cbn [length]. rewrite length_drop. lia. Qed.

Lemma put_before r : (r <= k)%nat -> S' !! r = S !! r.
Proof. intros Hr. rewrite HS', lookup_app_l by (rewrite length_take; lia). by rewrite lookup_take_lt by lia. Qed.

Lemma put_here : S' !! Datatypes.S k = Some x.
Proof. rewrite HS', lookup_app_r by (rewrite length_take; lia). rewrite length_take. by replace (Datatypes.S k - _)%nat with 0%nat by lia. Qed.

Lemma put_after r : (k < r)%nat -> S' !! Datatypes.S r = S !! r.
Proof.
  intros Hr. rewrite HS', lookup_app_r by (rewrite length_take; lia). rewrite length_take.
  replace (Datatypes.S r - _ `min` _)%nat with (Datatypes.S (r - Datatypes.S k)) by lia. simpl.
  rewrite lookup_drop. f_equal. lia.
Qed.

Lemma next_below i p q : (q <= k)%nat -> is_next S i p q <-> is_next S' i p q.
Proof.
  intros Hq. split; intros [A E K T]; constructor; try lia; pose proof put_length.
  - lia.
  - intros r y Hr. rewrite put_before by lia. by apply K.
  - intros y. rewrite put_before by lia. apply T.
  - intros r y Hr. rewrite <- put_before by lia. by apply K.
  - intros y. rewrite <- put_before by lia. apply T.
Qed.

Lemma next_above i p q : (k < p)%nat -> is_next S i p q <-> is_next S' i (Datatypes.S p) (Datatypes.S q).
Proof.
  intros Hp. split; intros [A E K T]; constructor; try lia; pose proof put_length; try lia.
  - intros r y Hr. destruct r as [|r]; [lia|]. rewrite put_after by lia. apply K. lia.
  - intros y. rewrite put_after by lia. apply T.
  - intros r y Hr. rewrite <- put_after by lia. apply K. lia.
  - intros y. rewrite <- put_after by lia. apply T.
Qed.

(** A pointer over the gap, from the last tall node before it. *)
Lemma next_to_new i u : is_last S i k u -> (i < x.2)%nat -> is_next S' i u (Datatypes.S k).
Proof.
  intros [Hu _ K] Hx. constructor; [lia|rewrite put_length; lia| |].
  - intros r y Hr. rewrite put_before by lia. apply K. lia.
  - intros y. rewrite put_here. by intros [= <-].
Qed.

Lemma next_from_new i u q : is_last S i k u -> is_next S i u q -> is_next S' i (Datatypes.S k) (Datatypes.S q).
Proof.
  intros Hl Hn. pose proof (is_last_next _ _ _ _ _ Hl Hn Hk) as Hkq. destruct Hn as [A E K T].
  constructor; [lia|rewrite put_length; lia| |].
  - intros r y Hr. destruct r as [|r]; [lia|]. rewrite put_after by lia. apply K. pose proof (ls_le _ _ _ _ Hl). lia.
  - intros y. rewrite put_after by lia. apply T.
Qed.

Lemma next_over_new i u q :
  is_last S i k u -> (x.2 <= i)%nat -> is_next S i u q <-> is_next S' i u (Datatypes.S q).
Proof.
  intros Hl Hx. pose proof (ls_le _ _ _ _ Hl) as Hu. split.
  - intros Hn. pose proof (is_last_next _ _ _ _ _ Hl Hn Hk) as Hkq. destruct Hn as [A E K T].
    constructor; [lia|rewrite put_length; lia| |].
    + intros r y Hr. destruct (Nat.lt_trichotomy r (Datatypes.S k)) as [|[->|]].
      * rewrite put_before by lia. apply K. lia.
      * rewrite put_here. by intros [= <-].
      * destruct r as [|r]; [lia|]. rewrite put_after by lia. apply K. lia.
    + intros y. rewrite put_after by lia. apply T.
  - intros [A E K T]. rewrite put_length in E.
    assert (k < q)%nat as Hkq.
    { destruct (Nat.lt_ge_cases k q) as [|Hge]; [done|]. exfalso.
      destruct (lookup_lt_is_Some_2 S' (Datatypes.S q) ltac:(rewrite put_length; lia)) as [y Hy]. specialize (T y Hy).
      destruct (Nat.eq_dec q k) as [->|Hne]; [rewrite put_here in Hy; simplify_eq; lia|].
      rewrite put_before in Hy by lia. pose proof (ls_skip _ _ _ _ Hl (Datatypes.S q) y ltac:(lia) Hy). lia. }
    constructor; [lia|lia| |].
    + intros r y Hr Hy. destruct (Nat.le_gt_cases r k).
      * apply (K r y); [lia|]. by rewrite put_before by lia.
      * apply (K (Datatypes.S r) y); [lia|]. by rewrite put_after by lia.
    + intros y Hy. apply T. by rewrite put_after by lia.
Qed.

(** A tall node not after [k] is the last one, or its next one is not after [k]. *)
Lemma next_or_last i p q y : S !! p = Some y -> (i < y.2)%nat -> (p <= k)%nat -> is_next S i p q ->
  (q <= k)%nat \/ ((k < q)%nat /\ is_last S i k p).
Proof.
  intros Hp Hy Hpk Hn. destruct (Nat.le_gt_cases q k); [by left|right]. split; [done|].
  constructor; [done|by exists y|]. intros r w Hr. apply (nx_skip _ _ _ _ Hn). lia.
Qed.
End positions.

Lemma spine_put hd L k t :
  spine hd (take k L ++ t :: drop k L) =
  take (S k) (spine hd L) ++ (t_addr t, t_height t) :: drop (S k) (spine hd L).
Proof. unfold spine. cbn [take drop]. by rewrite map_app, map_cons, <- firstn_map, <- skipn_map. Qed.

(** The header is a node of all heights. *)
Lemma last_exists hd L k i : (i < 32)%nat -> (k <= length L)%nat -> exists u, is_last (spine hd L) i k u.
Proof.
  intros Hi. induction k as [|k IH]; intros Hk.
  - exists 0%nat. constructor; [lia|by exists (hd, 32%nat)|intros r; lia].
  - destruct (spine_get hd L (S k) Hk) as (a & H & Ha). destruct (Nat.lt_ge_cases i H) as [Hlt|Hge].
    + exists (S k). constructor; [lia|by exists (a, H)|intros r; lia].
    + destruct IH as (u & [Hu Ht Hs]); [lia|]. exists u. constructor; [lia|done|].
      intros r x Hr Hx. destruct (Nat.eq_dec r (S k)) as [->|]; [|apply (Hs r); [lia|done]]. by simplify_eq.
Qed.

(** * Insertion *)

Section insertion.
Context (h h2 : heap) (z : zskiplist) (L : list tower) (k : nat) (t : tower) (upd : list (addr * Z)).
Context (Hsk : skl h z L) (Hk : (k <= length L)%nat).
Context (Hnew : t_addr t ∉ map fst (spine (zsl_header z) L)).
Context (Hht : Z.of_nat (t_height t) <= zsl_level z).
Context (Hupd : searched (spine (zsl_header z) L) k (Z.to_nat (zsl_level z)) upd).
Context (Hlinked : forall j, (j < t_height t)%nat -> linked (t_addr t) upd (Z.of_nat k) h h2 j).
Context (Hstretched : forall j, (t_height t <= j)%nat -> Z.of_nat j < zsl_level z -> stretched upd h h2 j).
Context (Hsame : forall j b, zsl_level z <= Z.of_nat j -> lv h2 b j = lv h b j).
Local Abbreviation S0 := (spine (zsl_header z) L).
Local Abbreviation S1 := (spine (zsl_header z) (take k L ++ t :: drop k L)).
Local Abbreviation n := (length L).

Local Lemma bound : (Z.of_nat n < 2 ^ 63 - 1)%Z.
Proof. apply (sk_bound _ _ _ Hsk). Qed.

Local Lemma klen : (k < length S0)%nat.
Proof. rewrite spine_length. lia. Qed.

Local Lemma put_eq : S1 = take (S k) S0 ++ (t_addr t, t_height t) :: drop (S k) S0.
Proof. apply spine_put. Qed.

(** The array update at a level, and the entry it leads to. *)
Lemma upd_entry j :
  (j < 32)%nat -> exists u a H l q, S0 !! u = Some (a, H) /\ (j < H)%nat /\ is_last S0 j k u /\ a <> t_addr t /\
    (Z.of_nat j < zsl_level z -> upd !! j = Some (a, Z.of_nat u)) /\
    lv h a j = Some l /\ is_next S0 j u q /\ forward l = fst <$> S0 !! q /\ (k < q <= S n)%nat /\ (u <= k)%nat /\
    ((0 < j)%nat -> Z.of_nat j < zsl_level z -> span l = Z.of_nat (Nat.min q n - u)).
Proof.
  intros Hj. destruct (last_exists (zsl_header z) L k j Hj Hk) as (u & Hu).
  destruct (ls_tall _ _ _ _ Hu) as ([a H] & Ha & Ht). simpl in Ht.
  destruct (sk_links _ _ _ Hsk u a H j Ha Ht) as (l & q & Hl & Hq & Hf & Hs).
  exists u, a, H, l, q. pose proof (is_last_next _ _ _ _ _ Hu Hq klen). pose proof (nx_end _ _ _ _ Hq) as He.
  rewrite spine_length in He, Hs. replace (S n - 1)%nat with n in Hs by lia.
  pose proof (ls_le _ _ _ _ Hu). split_and!; try done; try lia.
  - intros ->. apply Hnew. apply list_elem_of_fmap. exists (t_addr t, H). split; [done|]. by eapply list_elem_of_lookup_2.
  - intros Hlim. destruct Hupd as [_ Hup]. destruct (Hup j ltac:(lia)) as (v & a' & H' & E & Ha' & Hv).
    rewrite (is_last_inj _ _ _ _ _ Hu Hv) in *. by simplify_eq.
Qed.

(** The new node. *)
Lemma link_new i : (i < t_height t)%nat -> link_ok h2 S1 (zsl_level z) i (S k) (t_addr t).
Proof.
  intros Hi. pose proof (sk_level _ _ _ Hsk) as Hlev. unfold ZSKIPLIST_MAXLEVEL in Hlev. pose proof bound as Hbd.
  destruct (upd_entry i ltac:(lia)) as (u & a & H & l & q & Ha & HiH & Hu & Hne & Hup & Hl & Hq & Hf & Hkq & Huk & Hs).
  destruct (Hlinked i Hi) as (u' & r & lu & la & Eu & Hlu & Hla & _ & Hla' & _).
  rewrite Hup in Eu by lia. simplify_eq. eexists _, (S q).
  split; [exact Hla'|]. split; [apply (next_from_new _ _ _ _ klen put_eq i u); done|]. split.
  - cbn [forward span_at]. rewrite Hf, (put_after _ _ _ _ klen put_eq); [done|lia].
  - intros Hpos Hlim. unfold span_at. rewrite decide_False by lia. cbn [span]. rewrite Hs by lia.
    rewrite spine_length, length_app. cbn [length]. rewrite length_take, length_drop.
    rewrite !wrapU_small by (rewrite ?wrapU_small by lia; lia). lia.
Qed.

(** The nodes that were there. *)
Lemma link_old i p b Hb :
  S0 !! p = Some (b, Hb) -> (i < Hb)%nat ->
  link_ok h2 S1 (zsl_level z) i (if decide (p <= k)%nat then p else S p) b.
Proof.
  intros Hp Hi. pose proof (sk_level _ _ _ Hsk) as Hlev. unfold ZSKIPLIST_MAXLEVEL in Hlev. pose proof bound as Hbd.
  assert (b <> t_addr t) as Hbt.
  { intros ->. apply Hnew. apply list_elem_of_fmap. exists (t_addr t, Hb). split; [done|]. by eapply list_elem_of_lookup_2. }
  assert (i < 32)%nat as Hi32.
  { apply spine_cases in Hp as [(_ & _ & ->)|(r & s & _ & Hs & _ & ->)]; [lia|].
    destruct (sk_heights _ _ _ Hsk s (list_elem_of_lookup_2 _ _ _ Hs)). lia. }
  assert (length S1 - 1 = S n)%nat as Hlen.
  { rewrite spine_length, length_app. cbn [length]. rewrite length_take, length_drop. lia. }
  destruct (sk_links _ _ _ Hsk p b Hb i Hp Hi) as (l & q & Hl & Hq & Hf & Hs). rewrite spine_length in Hs.
  replace (S n - 1)%nat with n in Hs by lia. pose proof (nx_after _ _ _ _ Hq) as Hpq.
  destruct (upd_entry i Hi32) as (u & a & H & lu & qu & Ha & HiH & Hu & Hne & Hup & Hlu & Hqu & Hfu & Hkq & Huk & Hsu).
  (* away from the last node before the gap nothing changes *)
  assert (b <> a -> lv h2 b i = Some l) as Hkeep.
  { intros Hba. destruct (Z.lt_ge_cases (Z.of_nat i) (zsl_level z)) as [Hlim|]; [|by rewrite Hsame].
    destruct (Nat.lt_ge_cases i (t_height t)) as [Hit|Hit].
    - destruct (Hlinked i Hit) as (u' & r & lu' & la & Eu & _ & _ & _ & _ & Ho). rewrite Hup in Eu by done. simplify_eq.
      by rewrite Ho.
    - destruct (Hstretched i Hit Hlim) as (u' & r & lu' & Eu & _ & _ & Ho). rewrite Hup in Eu by done. simplify_eq.
      by rewrite Ho. }
  destruct (decide (p <= k)%nat) as [Hpk|Hpk].
  - destruct (next_or_last S0 k klen i p q _ Hp Hi Hpk Hq) as [Hqk|[Hkq' Hlast]].
    + exists l, q. split_and!.
      * apply Hkeep. intros ->. pose proof (spine_inj _ _ _ _ _ _ _ (sk_nodup _ _ _ Hsk) Hp Ha) as ->.
        rewrite (is_next_inj _ _ _ _ _ Hq Hqu) in *. lia.
      * by apply (next_below _ _ _ _ klen put_eq).
      * by rewrite (put_before _ _ _ _ klen put_eq).
      * intros Hpos Hlim. rewrite Hs, Hlen by done. lia.
    + rewrite (is_last_inj _ _ _ _ _ Hlast Hu) in *. rewrite Ha in Hp. rewrite (is_next_inj _ _ _ _ _ Hq Hqu) in *. simplify_eq.
      destruct (Nat.lt_ge_cases i (t_height t)) as [Hit|Hit].
      * destruct (Hlinked i Hit) as (u' & r & lu' & la & Eu & Hlu' & _ & Hu' & _). rewrite Hup in Eu by lia. simplify_eq.
        eexists _, (S k). split; [exact Hu'|]. split; [by apply (next_to_new _ _ _ _ klen put_eq)|].
        rewrite (put_here _ _ _ _ klen put_eq). split; [done|]. intros Hpos Hlim. unfold span_at.
        rewrite decide_False by lia. cbn [span]. rewrite Hlen, !wrapU_small by (rewrite ?wrapU_small by lia; lia). lia.
      * destruct (Z.lt_ge_cases (Z.of_nat i) (zsl_level z)) as [Hlim|Hlim].
        { destruct (Hstretched i Hit Hlim) as (u' & r & lu' & Eu & Hlu' & Hu' & _). rewrite Hup in Eu by done. simplify_eq.
          eexists _, (S qu). split; [exact Hu'|]. split; [by apply (next_over_new _ _ _ _ klen put_eq)|]. split.
          - cbn [forward span_at]. rewrite (put_after _ _ _ _ klen put_eq); [done|lia].
          - intros Hpos _. unfold span_at. rewrite decide_False by lia. cbn [span]. rewrite Hsu, Hlen by done.
            rewrite wrapU_small by lia. lia. }
        { exists l, (S qu). rewrite Hsame by done. split; [done|]. split; [by apply (next_over_new _ _ _ _ klen put_eq)|].
          split; [rewrite (put_after _ _ _ _ klen put_eq) by lia; done|]. intros _ ?. lia. }
  - exists l, (S q). split_and!.
    + apply Hkeep. intros ->. pose proof (spine_inj _ _ _ _ _ _ _ (sk_nodup _ _ _ Hsk) Hp Ha). lia.
    + apply (next_above _ _ _ _ klen put_eq); [lia|done].
    + rewrite (put_after _ _ _ _ klen put_eq); [done|lia].
    + intros Hpos Hlim. rewrite Hs, Hlen by done. lia.
Qed.

Lemma links_insert p b Hb i :
  S1 !! p = Some (b, Hb) -> (i < Hb)%nat -> link_ok h2 S1 (zsl_level z) i p b.
Proof.
  intros Hp Hi. destruct (Nat.lt_trichotomy p (S k)) as [Hlt|[->|Hgt]].
  - rewrite (put_before _ _ _ _ klen put_eq) in Hp by lia. pose proof (link_old i p b Hb Hp Hi) as Ho.
    by rewrite decide_True in Ho by lia.
  - rewrite (put_here _ _ _ _ klen put_eq) in Hp. simplify_eq. by apply link_new.
  - destruct p as [|p]; [lia|]. rewrite (put_after _ _ _ _ klen put_eq) in Hp by lia.
    pose proof (link_old i p b Hb Hp Hi) as Ho. by rewrite decide_False in Ho by lia.
Qed.
End insertion.

(** ** The other fields *)

Lemma bare_fields n n' : bare n' = bare n ->
  n_score n' = n_score n /\ n_backward n' = n_backward n /\ n_info n' = n_info n /\ n_ele n' = n_ele n /\
  n_block n' = n_block n /\ length (n_level n') = length (n_level n).
Proof.
  intros E. pose proof (bare_length _ _ E). unfold bare, with_level in E. split_and!; try done; congruence.
Qed.

Lemma node_is_bare n n' t : bare n' = bare n -> node_is n t -> node_is n' t.
Proof.
  intros (E1 & E2 & E3 & E4 & E5 & E6)%bare_fields []. constructor; congruence.
Qed.

Lemma node_is_back n t b : node_is n t -> node_is (with_backward n b) t.
Proof. by intros []. Qed.

Lemma on_node_ok h x n f : h !! x = Some n -> on_node h x f = Ok (<[x := f n]> h).
Proof. intros Hx. unfold on_node, get_node. by rewrite Hx. Qed.

Lemma lv_on_node h x n n' b j : h !! x = Some n -> n_level n' = n_level n -> lv (<[x := n']> h) b j = lv h b j.
Proof.
  intros Hx E. rewrite lv_insert. destruct (decide (b = x)) as [->|]; [|done]. unfold lv. by rewrite Hx, E.
Qed.

(** A heap is its nodes and their entries. *)
Lemma heap_ext h h' b : bare <$> h' !! b = bare <$> h !! b -> (forall j, lv h' b j = lv h b j) -> h' !! b = h !! b.
Proof.
  intros Hb Hl. unfold lv in Hl. destruct (h !! b) as [n|], (h' !! b) as [n'|]; try done.
  simpl in Hb, Hl. assert (bare n' = bare n) as Hb' by congruence. clear Hb. apply bare_fields in Hb' as (E1 & E2 & E3 & E4 & E5 & _). f_equal.
  assert (n_level n' = n_level n) by by apply list_eq. destruct n, n'; simpl in *; congruence.
Qed.

Lemma next_zero hd L p q :
  (forall t, t ∈ L -> (0 < t_height t)%nat) -> (p <= length L)%nat -> is_next (spine hd L) 0 p q -> q = S p.
Proof.
  intros Hh Hp [A E K T]. destruct (Nat.eq_dec q (S p)) as [|Hne]; [done|]. rewrite spine_length in E.
  destruct (spine_get hd L (S p) ltac:(lia)) as (a & H & Ha). specialize (K (S p) _ ltac:(lia) Ha).
  apply spine_cases in Ha as [(? & _)|(r & t & _ & Ht & _ & ->)]; [done|].
  specialize (Hh t (list_elem_of_lookup_2 _ _ _ Ht)). simpl in K. lia.
Qed.

Lemma sk_positive h z L t : skl h z L -> t ∈ L -> (0 < t_height t)%nat.
Proof. intros Hsk Ht. by apply (sk_heights _ _ _ Hsk). Qed.

(** The pointer of level 0 leads to the next node. *)
Lemma forward_zero h z L p a H :
  skl h z L -> spine (zsl_header z) L !! p = Some (a, H) -> get_forward h a 0 = Ok (t_addr <$> L !! p).
Proof.
  intros Hsk Hp. pose proof (spine_lt _ _ _ _ _ Hp) as Hlt. pose proof (sk_level _ _ _ Hsk) as Hlev.
  assert (0 < H)%nat.
  { apply spine_cases in Hp as [(_ & _ & ->)|(r & t & _ & Ht & _ & ->)]; [lia|].
    apply (sk_positive _ _ _ _ Hsk). by eapply list_elem_of_lookup_2. }
  destruct (link_at h z L Hsk p a H 0 Hp) as (q & Hq & Hf & _); [done|lia|].
  change 0 with (Z.of_nat 0). rewrite Hf. apply next_zero in Hq as ->; [|intros t; by apply (sk_positive _ _ _ _ Hsk)|done].
  f_equal. rewrite spine_node. by destruct (L !! p).
Qed.

(** ** More levels *)

Definition raised (hd : addr) (len : Z) (h h' : heap) (j : nat) : Prop :=
  exists l, lv h hd j = Some l /\ lv h' hd j = Some (span_at j l len) /\ forall b, b <> hd -> lv h' b j = lv h b j.

Lemma raised_local hd len : local_rel (raised hd len).
Proof.
  intros h1 h2 h1' h2' j E1 E2 (l & Hl & Hl' & Ho). exists l. rewrite E1, E2. split_and!; try done.
  intros b ?. by rewrite E1, E2, Ho.
Qed.

Lemma raise_loop_ok z : forall n i h upd,
  (forall j, (i <= j < i + n)%nat -> exists l, lv h (zsl_header z) j = Some l) ->
  exists h', raise_loop n (Z.of_nat i) h z upd = Ok (h', upd ++ replicate n (zsl_header z, 0)) /\
    levelwise (raised (zsl_header z) (zsl_length z)) h h' i n.
Proof.
  induction n as [|n IH]; intros i h upd Hpre.
  - exists h. cbn [raise_loop replicate]. rewrite app_nil_r. split; [done|apply levelwise_nil].
  - destruct (Hpre i ltac:(lia)) as (l & Hl). cbn [raise_loop].
    destruct (set_span_at_ok h _ i l (zsl_length z) Hl) as (h1 & -> & W). runr.
    replace (Z.of_nat i + 1) with (Z.of_nat (S i)) by lia.
    destruct (IH (S i) h1 (upd ++ [(zsl_header z, 0)])) as (h' & -> & Hlw).
    { intros j Hj. destruct (Hpre j ltac:(lia)) as (l' & Hl'). exists l'. rewrite (wr_other _ _ _ _ _ W) by (right; lia). done. }
    exists h'. split; [by rewrite <- app_assoc|]. apply (levelwise_cons _ _ h1); try done; [apply raised_local|apply W| |].
    + exists l. split_and!; [done|apply W|]. intros b Hb. apply W. by left.
    + intros b j Hj. apply W. by right.
Qed.

Lemma lv_exists h a n i : h !! a = Some n -> (i < length (n_level n))%nat -> exists l, lv h a i = Some l.
Proof. intros Ha Hi. unfold lv. rewrite Ha. simpl. by apply lookup_lt_is_Some_2. Qed.

(** Nothing outside the addresses [l] differs. *)
Definition only_on (l : list addr) (h h' : heap) : Prop := forall b, b ∉ l -> h' !! b = h !! b.

Lemma raise_ok h z L k H upd :
  skl h z L -> zsl_level z < Z.of_nat H <= ZSKIPLIST_MAXLEVEL -> (k <= length L)%nat ->
  searched (spine (zsl_header z) L) k (Z.to_nat (zsl_level z)) upd ->
  exists h1 h2 upd', raise_loop (Z.to_nat (Z.of_nat H - zsl_level z)) (zsl_level z) h z upd = Ok (h1, upd') /\
    on_node h1 (zsl_header z) (fun n => with_levels n (u8 (Z.of_nat H))) = Ok h2 /\
    skl h2 (set_level z (Z.of_nat H)) L /\ searched (spine (zsl_header z) L) k H upd' /\ only_on [zsl_header z] h h2.
Proof.
  intros Hsk HH Hk [Hul Hup]. destruct (sk_header _ _ _ Hsk) as (n & Hn & Hnl & Hnb).
  pose proof (sk_level _ _ _ Hsk) as Hlev. unfold ZSKIPLIST_MAXLEVEL in *.
  set (lev := Z.to_nat (zsl_level z)) in *. assert (zsl_level z = Z.of_nat lev) as Elev by lia.
  destruct (raise_loop_ok z (H - lev) lev h upd) as (h1 & Hr & Hs & Hl).
  { intros j Hj. apply (lv_exists h _ n); [done|lia]. }
  destruct (same_nodes_node _ _ _ _ Hs Hn) as (n1 & Hn1 & Hb1). pose proof (bare_fields _ _ Hb1) as (_ & _ & _ & _ & Ebl & Ell).
  set (h2 := <[zsl_header z := with_levels n1 (u8 (Z.of_nat H))]> h1).
  assert (forall b j, lv h2 b j = lv h1 b j) as Hlv by (intros b j; by apply (lv_on_node h1 _ n1)).
  exists h1, h2, (upd ++ replicate (H - lev) (zsl_header z, 0)). split; [rewrite Elev; by replace (Z.to_nat (Z.of_nat H - Z.of_nat lev)) with (H - lev)%nat by lia|].
  split; [exact (on_node_ok h1 _ n1 _ Hn1)|]. split; [constructor|split]; cbn [zsl_level zsl_header zsl_length zsl_tail set_level].
  - apply Hsk.
  - unfold ZSKIPLIST_MAXLEVEL. lia.
  - intros t Ht. destruct (sk_heights _ _ _ Hsk t Ht). lia.
  - apply Hsk.
  - apply Hsk.
  - apply Hsk.
  - intros p t Ht. destruct (sk_nodes _ _ _ Hsk p t Ht) as (m & Hm & Hmi & Hmb).
    destruct (same_nodes_node _ _ _ _ Hs Hm) as (m1 & Hm1 & Hbm). exists m1. split.
    + unfold h2. rewrite lookup_insert_ne; [done|]. intros E. pose proof (sk_nodup _ _ _ Hsk) as Hnd. simpl in Hnd.
      apply NoDup_cons in Hnd as [Hnot _]. apply Hnot. rewrite E. apply list_elem_of_fmap. exists (t_addr t, t_height t).
      split; [done|]. apply list_elem_of_fmap. exists t. split; [done|]. by eapply list_elem_of_lookup_2.
    + split; [by apply (node_is_bare m)|]. by rewrite (proj1 (proj2 (bare_fields _ _ Hbm))).
  - eexists. split; [apply lookup_insert_eq|]. cbn [n_level n_block with_levels]. split; [by rewrite Ell|by rewrite Ebl].
  - intros p a Hp i Ha Hi. destruct (sk_links _ _ _ Hsk p a Hp i Ha Hi) as (l & q & Hla & Hq & Hf & Hsp).
    specialize (Hl i). destruct (decide (lev <= i < lev + (H - lev))%nat) as [Hin|Hout].
    + destruct Hl as (l' & Hl1 & Hl2 & _).
      apply spine_cases in Ha as Hc. destruct Hc as [(-> & -> & ->)|(r & t & -> & Ht & _ & ->)].
      2:{ destruct (sk_heights _ _ _ Hsk t (list_elem_of_lookup_2 _ _ _ Ht)). lia. }
      rewrite Hla in Hl1. simplify_eq. eexists _, q. split; [rewrite Hlv; exact Hl2|]. split; [done|]. split; [done|].
      intros Hpos _. unfold span_at. rewrite decide_False by lia. cbn [span]. rewrite (sk_length _ _ _ Hsk).
      rewrite spine_length. unfold zlen. pose proof (nx_end _ _ _ _ Hq) as He. rewrite spine_length in He.
      enough (q = S (length L)) by lia. destruct (Nat.eq_dec q (S (length L))) as [|Hne]; [done|].
      destruct (spine_get (zsl_header z) L q ltac:(lia)) as (a' & H' & Ha'). pose proof (nx_tall _ _ _ _ Hq _ Ha') as Htall.
      pose proof (nx_after _ _ _ _ Hq). apply spine_cases in Ha' as [(? & _)|(r & t & _ & Ht & _ & ->)]; [lia|].
      destruct (sk_heights _ _ _ Hsk t (list_elem_of_lookup_2 _ _ _ Ht)). simpl in Htall. lia.
    + exists l, q. rewrite Hlv, Hl. split; [done|]. split; [done|]. split; [done|]. intros Hpos Hlim. apply Hsp; lia.
  - split; [rewrite length_app, length_replicate; lia|]. intros i Hi.
    destruct (Nat.lt_ge_cases i lev) as [Hlt|Hge].
    + destruct (Hup i Hlt) as (v & a & Hv & E1 & E2 & E3). exists v, a, Hv. split_and!; try done. by apply lookup_app_l_Some.
    + exists 0%nat, (zsl_header z), 32%nat. split; [|split; [done|]].
      * rewrite lookup_app_r by lia. apply lookup_replicate_2. lia.
      * constructor; [lia|exists (zsl_header z, 32%nat); split; [done|simpl; lia]|].
        intros r x Hlt Hx. destruct r as [|r]; [lia|]. rewrite spine_node in Hx. apply fmap_Some in Hx as (t & Ht & ->).
        destruct (sk_heights _ _ _ Hsk t (list_elem_of_lookup_2 _ _ _ Ht)). simpl. lia.
  - intros b Hb. assert (b <> zsl_header z) as Hne by (intros ->; apply Hb; by left).
    unfold h2. rewrite lookup_insert_ne by congruence. apply heap_ext; [apply Hs|]. intros j. specialize (Hl j).
    destruct (decide _); [|done]. destruct Hl as (l & _ & _ & Ho). by apply Ho.
Qed.

(** ** The back pointers and the tail *)

Lemma put_nodup hd L k t :
  NoDup (map fst (spine hd L)) -> t_addr t ∉ map fst (spine hd L) ->
  NoDup (map fst (spine hd (take k L ++ t :: drop k L))).
Proof.
  intros Hnd Hnot. assert (map fst (spine hd (take k L ++ t :: drop k L)) ≡ₚ t_addr t :: map fst (spine hd L)) as ->.
  { rewrite spine_put, map_app, map_cons. cbn [fst]. rewrite <- Permutation_middle. apply perm_skip.
    by rewrite <- map_app, take_drop. }
  by constructor.
Qed.

Lemma spine_addr hd L p t : L !! p = Some t -> t_addr t ∈ map fst (spine hd L).
Proof.
  intros Ht. apply list_elem_of_fmap. exists (t_addr t, t_height t). split; [done|].
  apply (list_elem_of_lookup_2 _ (S p)). by rewrite spine_node, Ht.
Qed.

Lemma header_not_node hd L p t : NoDup (map fst (spine hd L)) -> L !! p = Some t -> t_addr t <> hd.
Proof.
  intros Hnd Ht E. assert (S p = 0)%nat; [|done].
  apply (spine_inj hd L _ _ hd (t_height t) 32 Hnd); [|done]. by rewrite spine_node, Ht, <- E.
Qed.

Lemma addr_inj hd L p q t s :
  NoDup (map fst (spine hd L)) -> L !! p = Some t -> L !! q = Some s -> t_addr t = t_addr s -> p = q.
Proof.
  intros Hnd Ht Hs E. assert (S p = S q) as Epq; [|by injection Epq].
  apply (spine_inj hd L _ _ (t_addr t) (t_height t) (t_height s) Hnd).
  - by rewrite spine_node, Ht.
  - by rewrite spine_node, Hs, E.
Qed.

Lemma set_back_ok h z f b :
  (forall y, f = Some y -> exists n, h !! y = Some n) ->
  exists h' z', set_back h z f b = Ok (h', z') /\
    zsl_header z' = zsl_header z /\ zsl_level z' = zsl_level z /\ zsl_length z' = zsl_length z /\
    alloc_size z' = alloc_size z /\ zsl_tail z' = (match f with Some _ => zsl_tail z | None => b end) /\
    (forall a j, lv h' a j = lv h a j) /\
    (forall a, f <> Some a -> h' !! a = h !! a) /\
    (forall y n, f = Some y -> h !! y = Some n -> h' !! y = Some (with_backward n b)).
Proof.
  intros Hf. destruct f as [y|]; simpl.
  - destruct (Hf y eq_refl) as (n & Hn). rewrite (on_node_ok _ _ n) by done. runr. eexists _, _. split; [done|].
    split_and!; try done.
    + intros a j. by apply (lv_on_node _ _ n).
    + intros a Ha. apply lookup_insert_ne. congruence.
    + intros y' n' [= <-] Hn'. simplify_eq. apply lookup_insert_eq.
  - eexists _, _. split; [done|]. by split_and!.
Qed.

Lemma last_put {A} (L : list A) k t :
  (k <= length L)%nat -> last (take k L ++ t :: drop k L) = match L !! k with Some _ => last L | None => Some t end.
Proof.
  intros Hk. destruct (L !! k) as [y|] eqn:E.
  - rewrite (drop_S _ _ _ E). rewrite <- (take_drop k L) at 3. rewrite (drop_S _ _ _ E), !last_app_cons.
    by rewrite !last_cons_cons.
  - apply lookup_ge_None in E. rewrite drop_ge by done. apply last_snoc.
Qed.

Lemma put_lookup {A} (L : list A) k t p s :
  (k <= length L)%nat -> (take k L ++ t :: drop k L) !! p = Some s ->
  ((p < k)%nat /\ L !! p = Some s) \/ (p = k /\ s = t) \/ (exists q, p = S q /\ (k <= q)%nat /\ L !! q = Some s).
Proof.
  intros Hk. destruct (Nat.lt_trichotomy p k) as [Hlt|[->|Hgt]].
  - rewrite lookup_app_l by (rewrite length_take; lia). rewrite lookup_take_lt by done. by left.
  - rewrite lookup_app_r by (rewrite length_take; lia). rewrite length_take.
    replace (k - k `min` length L)%nat with 0%nat by lia. intros E. simplify_eq/=. right. by left.
  - rewrite lookup_app_r by (rewrite length_take; lia). rewrite length_take.
    destruct p as [|q]; [lia|]. replace (S q - k `min` length L)%nat with (S (q - k)) by lia. simpl.
    rewrite lookup_drop. replace (k + (q - k))%nat with q by lia. intros E. right. right. exists q. split_and!; [done|lia|done].
Qed.

Lemma zlen_put {A} (L : list A) k t : zlen (take k L ++ t :: drop k L) = zlen L + 1.
Proof. rewrite zlen_app, zlen_cons. rewrite <- (take_drop k L) at 3. rewrite zlen_app. lia. Qed.

Definition addrs (z : zskiplist) (L : list tower) : list addr := map fst (spine (zsl_header z) L).

(** What is left to show when the links are right: [h2] is the heap with the new
    links, [h4] the one with the new pointers backwards. *)
Lemma insert_assemble h h2 h4 z z4 L k t :
  skl h z L -> (k <= length L)%nat -> zlen L + 1 < 2 ^ 63 - 1 -> t_addr t ∉ addrs z L ->
  (0 < t_height t)%nat -> Z.of_nat (t_height t) <= zsl_level z ->
  same_nodes h h2 -> (forall a j, lv h4 a j = lv h2 a j) ->
  (forall p b Hb i, spine (zsl_header z) (take k L ++ t :: drop k L) !! p = Some (b, Hb) -> (i < Hb)%nat ->
     link_ok h2 (spine (zsl_header z) (take k L ++ t :: drop k L)) (zsl_level z) i p b) ->
  zsl_header z4 = zsl_header z -> zsl_level z4 = zsl_level z -> zsl_length z4 = zsl_length z ->
  zsl_tail z4 = (match L !! k with Some _ => zsl_tail z | None => Some (t_addr t) end) ->
  (exists n, h4 !! t_addr t = Some n /\ node_is n t /\ n_backward n = back_of L k) ->
  (forall b, b <> t_addr t -> (forall s, L !! k = Some s -> b <> t_addr s) -> h4 !! b = h2 !! b) ->
  (forall s n, L !! k = Some s -> h2 !! t_addr s = Some n -> h4 !! t_addr s = Some (with_backward n (Some (t_addr t)))) ->
  skl h4 (set_length z4 (u64 (zsl_length z4 + 1))) (take k L ++ t :: drop k L).
Proof.
  intros Hsk Hk Hlen Hnew Hpos Hht Hs Hlv Hlinks Eh El En Et Hnode Hother Hnext.
  pose proof (sk_nodup _ _ _ Hsk) as Hnd.
  constructor; cbn [zsl_level zsl_header zsl_length zsl_tail set_length]; rewrite ?Eh, ?El, ?En.
  - by apply put_nodup.
  - apply Hsk.
  - intros s Hs'. apply elem_of_app in Hs' as [Hs'|[->|Hs']%elem_of_cons]; [|done|].
    + apply (sk_heights _ _ _ Hsk), (subseteq_take k), Hs'.
    + apply (sk_heights _ _ _ Hsk), (subseteq_drop k), Hs'.
  - rewrite (sk_length _ _ _ Hsk), zlen_put, wrapU_small; [done|]. pose proof (zlen_nonneg L). lia.
  - rewrite zlen_put. lia.
  - rewrite Et, last_put by done. destruct (L !! k); [apply Hsk|done].
  - intros p s Hp. destruct (put_lookup _ _ _ _ _ Hk Hp) as [[Hlt Hl]|[[-> ->]|(q & -> & Hq & Hl)]].
    + destruct (sk_nodes _ _ _ Hsk p s Hl) as (m & Hm & Hmi & Hmb). destruct (same_nodes_node _ _ _ _ Hs Hm) as (m2 & Hm2 & Hb2).
      exists m2. rewrite Hother; [|intros E; apply Hnew; rewrite <- E; by eapply spine_addr|].
      2:{ intros s' Hs' E. pose proof (addr_inj _ _ _ _ _ _ Hnd Hl Hs' E). lia. }
      split; [done|]. split; [by apply (node_is_bare m)|]. rewrite (proj1 (proj2 (bare_fields _ _ Hb2))), Hmb.
      destruct p as [|p]; [done|]. simpl. rewrite lookup_app_l by (rewrite length_take; lia). by rewrite lookup_take_lt by lia.
    + destruct Hnode as (n & Hn & Hni & Hnb). exists n. split; [done|]. split; [done|]. rewrite Hnb.
      destruct k as [|k]; [done|]. cbn [back_of]. rewrite lookup_app_l by (rewrite length_take; lia). by rewrite lookup_take_lt by lia.
    + destruct (sk_nodes _ _ _ Hsk q s Hl) as (m & Hm & Hmi & Hmb). destruct (same_nodes_node _ _ _ _ Hs Hm) as (m2 & Hm2 & Hb2).
      assert (t_addr s <> t_addr t) as Hst by (intros E; apply Hnew; rewrite <- E; by eapply spine_addr).
      pose proof (node_is_bare _ _ _ Hb2 Hmi) as Hmi2. destruct (Nat.eq_dec q k) as [->|Hne].
      * exists (with_backward m2 (Some (t_addr t))). split; [by apply Hnext|]. split; [by apply node_is_back|].
        cbn [n_backward with_backward back_of]. rewrite lookup_app_r by (rewrite length_take; lia).
        rewrite length_take. by replace (k - k `min` length L)%nat with 0%nat by lia.
      * exists m2. rewrite Hother; [|done|].
        2:{ intros s' Hs' E. pose proof (addr_inj _ _ _ _ _ _ Hnd Hl Hs' E). lia. }
        split; [done|]. split; [done|]. rewrite (proj1 (proj2 (bare_fields _ _ Hb2))), Hmb.
        destruct q as [|q]; [lia|]. cbn [back_of]. rewrite lookup_app_r by (rewrite length_take; lia).
        rewrite length_take. replace (S q - k `min` length L)%nat with (S (q - k)) by lia. simpl.
        rewrite lookup_drop. by replace (k + (q - k))%nat with q by lia.
  - destruct (sk_header _ _ _ Hsk) as (n & Hn & Hnl & Hnb). destruct (same_nodes_node _ _ _ _ Hs Hn) as (n2 & Hn2 & Hb2).
    pose proof (bare_fields _ _ Hb2) as (_ & _ & _ & _ & E5 & E6). exists n2. rewrite Hother.
    + split; [done|]. by rewrite E5, E6.
    + intros E. apply Hnew. rewrite <- E. by left.
    + intros s Hs' E. by apply (header_not_node _ _ _ _ Hnd Hs').
  - intros p a Hp i Ha Hi. destruct (Hlinks p a Hp i Ha Hi) as (l & q & Hl & Hrest). exists l, q. by rewrite Hlv.
Qed.

Lemma only_on_mono l l' h h' : (forall b, b ∈ l -> b ∈ l') -> only_on l h h' -> only_on l' h h'.
Proof. intros Hsub Ho b Hb. apply Ho. intros Hin. by apply Hb, Hsub. Qed.

Lemma only_on_trans l h1 h2 h3 : only_on l h1 h2 -> only_on l h2 h3 -> only_on l h1 h3.
Proof. intros H12 H23 b Hb. by rewrite H23, H12. Qed.

(** The loops of insertion, when the header has enough levels. *)
Lemma insert_links h z L k t n upd :
  skl h z L -> (k <= length L)%nat -> t_addr t ∉ addrs z L -> Z.of_nat (t_height t) <= zsl_level z ->
  h !! t_addr t = Some n -> node_is n t -> searched (spine (zsl_header z) L) k (Z.to_nat (zsl_level z)) upd ->
  exists h1 h2, link_loop (t_height t) 0 h (t_addr t) upd (Z.of_nat k) = Ok h1 /\
    incr_loop (Z.to_nat (zsl_level z - Z.of_nat (t_height t))) (Z.of_nat (t_height t)) h1 upd = Ok h2 /\
    same_nodes h h2 /\ only_on (t_addr t :: addrs z L) h h2 /\
    (forall p b Hb i, spine (zsl_header z) (take k L ++ t :: drop k L) !! p = Some (b, Hb) -> (i < Hb)%nat ->
       link_ok h2 (spine (zsl_header z) (take k L ++ t :: drop k L)) (zsl_level z) i p b).
Proof.
  intros Hsk Hk Hnew Hht Hn Hni Hup. pose proof (sk_level _ _ _ Hsk) as Hlev. unfold ZSKIPLIST_MAXLEVEL in Hlev.
  assert (forall j, (j < Z.to_nat (zsl_level z))%nat -> exists u r lu, upd !! j = Some (u, r) /\ u <> t_addr t /\
    u ∈ addrs z L /\ lv h u j = Some lu) as Hent.
  { intros j Hj. destruct (upd_entry h z L k t upd Hsk Hk Hnew Hup j ltac:(lia))
      as (u & a & H & l & q & Ha & _ & _ & Hne & Hu & Hl & _). exists a, (Z.of_nat u), l. split_and!; try done.
    - apply Hu. lia.
    - apply list_elem_of_fmap. exists (a, H). split; [done|]. by eapply list_elem_of_lookup_2. }
  destruct (link_loop_ok (t_addr t) upd (Z.of_nat k) (t_height t) 0 h) as (h1 & Hl1 & Hs1 & Hw1).
  { intros j Hj. destruct (Hent j ltac:(lia)) as (u & r & lu & Hu & Hne & _ & Hlu).
    destruct (lv_exists h _ n j Hn) as (la & Hla); [rewrite (ni_level _ _ Hni); lia|]. by exists u, r, lu, la. }
  destruct (incr_loop_ok upd (Z.to_nat (zsl_level z - Z.of_nat (t_height t))) (t_height t) h1) as (h2 & Hl2 & Hs2 & Hw2).
  { intros j Hj. destruct (Hent j ltac:(lia)) as (u & r & lu & Hu & Hne & _ & Hlu). exists u, r, lu.
    specialize (Hw1 j). rewrite decide_False in Hw1 by lia. by rewrite Hw1. }
  exists h1, h2. split; [done|]. split; [done|]. pose proof (same_nodes_trans _ _ _ Hs1 Hs2) as Hs. split; [done|].
  assert (forall j, (j < t_height t)%nat -> linked (t_addr t) upd (Z.of_nat k) h h2 j) as HA.
  { intros j Hj. specialize (Hw1 j). rewrite decide_True in Hw1 by lia. specialize (Hw2 j). rewrite decide_False in Hw2 by lia.
    by apply (linked_local _ _ _ h h1). }
  assert (forall j, (t_height t <= j)%nat -> Z.of_nat j < zsl_level z -> stretched upd h h2 j) as HB.
  { intros j Hj Hlim. specialize (Hw1 j). rewrite decide_False in Hw1 by lia. specialize (Hw2 j). rewrite decide_True in Hw2 by lia.
    by apply (stretched_local _ h1 h2). }
  assert (forall j b, zsl_level z <= Z.of_nat j -> lv h2 b j = lv h b j) as HC.
  { intros j b Hj. specialize (Hw1 j). rewrite decide_False in Hw1 by lia. specialize (Hw2 j). rewrite decide_False in Hw2 by lia.
    by rewrite Hw2. }
  split.
  - intros b Hb. apply heap_ext; [apply Hs|]. intros j. assert (b <> t_addr t) as Hbt by (intros ->; apply Hb; by left).
    destruct (Z.lt_ge_cases (Z.of_nat j) (zsl_level z)) as [Hj|]; [|by apply HC].
    destruct (Hent j ltac:(lia)) as (u & r & lu & Hu & _ & Hin & _).
    assert (b <> u) as Hbu by (intros ->; apply Hb; by right). destruct (Nat.lt_ge_cases j (t_height t)) as [Hjt|Hjt].
    + destruct (HA j Hjt) as (u' & r' & ? & ? & Eu & _ & _ & _ & _ & Ho). rewrite Hu in Eu. simplify_eq. by apply Ho.
    + destruct (HB j Hjt Hj) as (u' & r' & ? & Eu & _ & _ & Ho). rewrite Hu in Eu. simplify_eq. by apply Ho.
  - intros p b Hb i. apply (links_insert h h2 z L k t upd); done.
Qed.

Lemma insert_low h z L k t n upd :
  skl h z L -> (k <= length L)%nat -> zlen L + 1 < 2 ^ 63 - 1 -> t_addr t ∉ addrs z L ->
  (0 < t_height t)%nat -> Z.of_nat (t_height t) <= zsl_level z ->
  h !! t_addr t = Some n -> node_is n t -> searched (spine (zsl_header z) L) k (Z.to_nat (zsl_level z)) upd ->
  exists h' z',
    (let* (u0, rank0) := rd1 upd 0 in
     let* h := link_loop (t_height t) 0 h (t_addr t) upd rank0 in
     let* h := incr_loop (Z.to_nat (zsl_level z - Z.of_nat (t_height t))) (Z.of_nat (t_height t)) h upd in
     let* h := on_node h (t_addr t) (fun n => with_backward n (if decide (u0 = zsl_header z) then None else Some u0)) in
     let* f := get_forward h (t_addr t) 0 in
     let* (h, z) := set_back h z f (Some (t_addr t)) in
     Ok (h, set_length z (u64 (zsl_length z + 1)))) = Ok (h', z') /\
    skl h' z' (take k L ++ t :: drop k L) /\ alloc_size z' = alloc_size z /\ zsl_header z' = zsl_header z /\
    only_on (t_addr t :: addrs z L) h h'.
Proof.
  intros Hsk Hk Hlen Hnew Hpos Hht Hn Hni Hup. pose proof (sk_level _ _ _ Hsk) as Hlev. unfold ZSKIPLIST_MAXLEVEL in Hlev.
  destruct (insert_links h z L k t n upd Hsk Hk Hnew Hht Hn Hni Hup) as (h1 & h2 & E1 & E2 & Hs & Ho2 & Hlinks).
  pose proof (proj2 Hup 0%nat ltac:(lia)) as (v & u0 & H0 & Hu0 & Hv & Hlast).
  assert (v = k) as ->.
  { apply (is_last_inj (spine (zsl_header z) L) 0 k); [done|]. destruct (spine_get (zsl_header z) L k Hk) as (a & H & Ha).
    constructor; [lia| |intros r x; lia]. exists (a, H). split; [done|].
    apply spine_cases in Ha as [(_ & _ & ->)|(r & s & _ & Hs' & _ & ->)]; [simpl; lia|].
    apply (sk_positive _ _ _ _ Hsk). by eapply list_elem_of_lookup_2. }
  change 0 with (Z.of_nat 0) at 1. rewrite (upd_at _ _ _ Hu0). runr. rewrite E1. runr. rewrite E2. runr.
  destruct (same_nodes_node _ _ _ _ Hs Hn) as (n2 & Hn2 & Hb2).
  set (bk := if decide (u0 = zsl_header z) then None else Some u0). rewrite (on_node_ok _ _ n2) by done. runr.
  set (h3 := <[t_addr t := with_backward n2 bk]> h2).
  assert (forall a j, lv h3 a j = lv h2 a j) as Hlv3 by (intros a j; by apply (lv_on_node _ _ n2)).
  set (L' := take k L ++ t :: drop k L) in *. set (hd := zsl_header z) in *.
  assert (spine hd L' !! S k = Some (t_addr t, t_height t)) as HSk.
  { unfold L'. rewrite spine_put. apply put_here with (S := spine hd L); [rewrite spine_length; lia|done]. }
  assert (get_forward h3 (t_addr t) 0 = Ok (t_addr <$> L !! k)) as Hf.
  { destruct (Hlinks (S k) (t_addr t) (t_height t) 0%nat HSk Hpos) as (l & q & Hl & Hq & Hf & _).
    change 0 with (Z.of_nat 0). rewrite <- Hlv3 in Hl. rewrite (get_forward_ok _ _ _ _ Hl), Hf. f_equal.
    apply next_zero in Hq as ->.
    - unfold L'. rewrite spine_put, (put_after (spine hd L) _ k (t_addr t, t_height t));
        [|rewrite spine_length; lia|done|lia]. rewrite spine_node. by destruct (L !! k).
    - intros s Hs'. apply elem_of_app in Hs' as [Hs'|[->|Hs']%elem_of_cons]; [|done|]; apply (sk_positive _ _ _ _ Hsk).
      + by apply (subseteq_take k).
      + by apply (subseteq_drop k).
    - unfold L'. rewrite length_app. cbn [length]. rewrite length_take, length_drop. lia. }
  rewrite Hf. runr. destruct (set_back_ok h3 z (t_addr <$> L !! k) (Some (t_addr t)))
    as (h4 & z4 & -> & Z1 & Z2 & Z3 & Z4 & Z5 & Hlv4 & Ho4 & Hn4).
  { intros y (s & Hs' & ->)%fmap_Some. destruct (sk_nodes _ _ _ Hsk k s Hs') as (m & Hm & _).
    destruct (same_nodes_node _ _ _ _ Hs Hm) as (m2 & Hm2 & _). exists m2. unfold h3. rewrite lookup_insert_ne; [done|].
    intros E. apply Hnew. unfold addrs. rewrite E. by eapply spine_addr. }
  runr. eexists _, _. split; [done|]. cbn [zsl_header alloc_size set_length].
  assert (forall s, L !! k = Some s -> t_addr s <> t_addr t) as Hst.
  { intros s Hs' E. apply Hnew. rewrite <- E. by eapply spine_addr. }
  split; [|split; [done|split; [done|]]].
  - apply (insert_assemble h h2 h4 z z4 L k t); try done.
    + intros a j. by rewrite Hlv4.
    + by rewrite Z5; destruct (L !! k).
    + exists (with_backward n2 bk). split; [|split].
      * rewrite Ho4; [apply lookup_insert_eq|]. intros (s & Hs' & E)%fmap_Some. by apply (Hst s).
      * by apply node_is_back, (node_is_bare n).
      * cbn [n_backward with_backward]. unfold bk. apply spine_cases in Hv as [(-> & -> & _)|(r & s & -> & Hs' & -> & _)].
        { by rewrite decide_True. }
        { rewrite decide_False by by apply (header_not_node _ _ _ _ (sk_nodup _ _ _ Hsk) Hs'). cbn [back_of]. by rewrite Hs'. }
    + intros b Hb Hbs. rewrite Ho4; [by apply lookup_insert_ne|]. intros (s & Hs' & E)%fmap_Some. by apply (Hbs s).
    + intros s m Hs' Hm. apply Hn4; [by rewrite Hs'|]. unfold h3. rewrite lookup_insert_ne; [done|]. intros E. by apply (Hst s).
  - intros b Hb. rewrite Ho4.
    { unfold h3. rewrite lookup_insert_ne; [by apply Ho2|intros E; apply Hb; rewrite E; by left]. }
    intros (s & Hs' & ->)%fmap_Some. apply Hb. right. by eapply spine_addr.
Qed.

Lemma insertNode_ok h z L k t n :
  skl h z L -> zlen L + 1 < 2 ^ 63 - 1 -> t_addr t ∉ addrs z L ->
  (0 < t_height t)%nat -> Z.of_nat (t_height t) <= ZSKIPLIST_MAXLEVEL ->
  h !! t_addr t = Some n -> node_is n t -> splits (fun e => elt e (t_key t)) L k ->
  exists h' z', zslInsertNode h z (t_addr t) = Ok (h', z') /\ skl h' z' (take k L ++ t :: drop k L) /\
    alloc_size z' = alloc_size z /\ zsl_header z' = zsl_header z /\ only_on (t_addr t :: addrs z L) h h'.
Proof.
  intros Hsk Hlen Hnew Hpos Hht Hn Hni Hsp. pose proof (proj1 Hsp) as Hk. unfold zslInsertNode, zslGetNodeElement, get_node.
  rewrite Hn. runr. rewrite (proj2 (Z.eqb_neq _ _)) by apply (ni_offset _ _ Hni). cbn [negb]. runr.
  rewrite (ni_score _ _ Hni), (ni_ele _ _ Hni), (ni_nan _ _ Hni), (ni_levels _ _ Hni). cbn [negb]. runr.
  destruct (search_ok h z L Hsk (t_key t).1 (t_key t).2 k) as (a & H & upd & -> & _ & Hup).
  { apply (ni_nan _ _ Hni). }
  { destruct (t_key t). done. }
  runr. rewrite Z.gtb_ltb. destruct (Z.ltb_spec (zsl_level z) (Z.of_nat (t_height t))) as [Hlt|Hge].
  - destruct (raise_ok h z L k (t_height t) upd Hsk) as (h1 & h2 & upd' & -> & E2 & Hsk2 & Hup2 & Ho2); [lia|done|done|].
    runr. rewrite E2. runr. rewrite Nat2Z.id.
    destruct (insert_low h2 (set_level z (Z.of_nat (t_height t))) L k t n upd') as (h' & z' & E & Hsk' & Ha & Hh & Ho); try done.
    + rewrite Ho2; [done|]. intros [E|[]%not_elem_of_nil]%elem_of_cons. apply Hnew. rewrite E. by left.
    + cbn [zsl_level zsl_header set_level]. by rewrite Nat2Z.id.
    + exists h', z'. split; [exact E|]. split_and!; try done. apply (only_on_trans _ _ h2); [|done].
      apply (only_on_mono [zsl_header z]); [|done]. intros b [->|[]%not_elem_of_nil]%elem_of_cons. right. by left.
  - runr. rewrite Nat2Z.id. by apply (insert_low h z L k t n upd).
Qed.
