(* ===== verification/SkiplistDelete.v ===== *)
(** SkiplistDelete: unlinking nodes of the skip list of Skiplist.v, deletion and
    change of a score. *)

From Stdlib Require Import ZArith Lia Bool.
From S2P Require Import Prelude Bytes Sds Skiplist SkiplistProofs SkiplistOps.
From stdpp Require Import base list numbers decidable gmap sorting.

Local Open Scope Z_scope.

(** * Links without the node *)

Section unlinking.
Context (h : heap) (z : zskiplist) (A B : list tower) (t : tower) (upd : list (addr * Z)).
Local Abbreviation L := (A ++ t :: B).
Local Abbreviation k := (length A).
Local Abbreviation S0 := (spine (zsl_header z) (A ++ B)).
Local Abbreviation S1 := (spine (zsl_header z) L).
Local Abbreviation n := (length (A ++ B)).
Context (Hsk : skl h z L).
Context (Hupd : searched S1 k (Z.to_nat (zsl_level z)) upd).

Local Lemma klen' : (k < length S0)%nat.
Proof. rewrite spine_length, length_app. lia. Qed.

Local Lemma put_eq' : S1 = take (S k) S0 ++ (t_addr t, t_height t) :: drop (S k) S0.
Proof. rewrite <- spine_put. by rewrite take_app_length, drop_app_length. Qed.

Local Lemma len' : length L = S n.
Proof. rewrite !length_app. simpl. lia. Qed.

Lemma last_both i u : is_last S1 i k u <-> is_last S0 i k u.
Proof.
  split; intros [Hu (x & Hx & Ht) Hs]; constructor; try done.
  - exists x. split; [|done]. by rewrite <- (put_before _ _ _ _ klen' put_eq').
  - intros r y Hr. rewrite <- (put_before _ _ _ _ klen' put_eq') by lia. by apply Hs.
  - exists x. split; [|done]. by rewrite (put_before _ _ _ _ klen' put_eq').
  - intros r y Hr. rewrite (put_before _ _ _ _ klen' put_eq') by lia. by apply Hs.
Qed.

(** The pointer of the node that goes out, seen from the last tall node before it. *)
Lemma next_past i u q : is_last S0 i k u -> is_next S1 i (S k) q -> exists q0, q = S q0 /\ (k < q0)%nat /\ is_next S0 i u q0.
Proof.
  intros Hl [Ha He Ks Kt]. rewrite (put_length _ _ _ _ klen' put_eq') in He. destruct q as [|q]; [lia|].
  exists q. split; [done|]. split; [lia|]. pose proof (ls_le _ _ _ _ Hl). constructor; [lia|lia| |].
  - intros r y Hr Hy. destruct (Nat.le_gt_cases r k); [apply (ls_skip _ _ _ _ Hl r y); [lia|done]|].
    apply (Ks (S r) y); [lia|]. by rewrite (put_after _ _ _ _ klen' put_eq').
  - intros y Hy. apply Kt. by rewrite (put_after _ _ _ _ klen' put_eq') by lia.
Qed.

Lemma t_at : L !! k = Some t.
Proof. by apply list_lookup_middle. Qed.

Lemma t_spine : S1 !! S k = Some (t_addr t, t_height t).
Proof. by rewrite spine_node, t_at. Qed.

(** The array update at a level, and the entry it leads to. *)
Lemma upd_entry' j :
  (j < 32)%nat -> exists u a H l q, S1 !! u = Some (a, H) /\ is_last S0 j k u /\ a <> t_addr t /\
    (Z.of_nat j < zsl_level z -> upd !! j = Some (a, Z.of_nat u)) /\
    lv h a j = Some l /\ is_next S1 j u q /\ forward l = fst <$> S1 !! q /\ (k < q <= S (S n))%nat /\ (u <= k)%nat /\
    ((0 < j)%nat -> Z.of_nat j < zsl_level z -> span l = Z.of_nat (Nat.min q (S n) - u)) /\
    (forward l = Some (t_addr t) <-> q = S k) /\ (q = S k <-> (j < t_height t)%nat).
Proof.
  intros Hj. assert (k <= length L)%nat as Hkl by (rewrite len', length_app; lia).
  destruct (last_exists (zsl_header z) L k j Hj Hkl) as (u & Hu).
  destruct (ls_tall _ _ _ _ Hu) as ([a H] & Ha & Ht). simpl in Ht.
  destruct (sk_links _ _ _ Hsk u a H j Ha Ht) as (l & q & Hl & Hq & Hf & Hs).
  assert (k < length S1)%nat as Hk1 by (rewrite spine_length; lia).
  pose proof (is_last_next _ _ _ _ _ Hu Hq Hk1). pose proof (nx_end _ _ _ _ Hq) as He.
  rewrite spine_length, len' in He, Hs. pose proof (ls_le _ _ _ _ Hu).
  exists u, a, H, l, q. split_and!; try done; try lia.
  - by apply last_both.
  - intros ->. pose proof (spine_inj _ _ _ _ _ _ _ (sk_nodup _ _ _ Hsk) Ha t_spine). lia.
  - intros Hlim. destruct Hupd as [_ Hup]. destruct (Hup j ltac:(lia)) as (v & a' & H' & E & Ha' & Hv).
    rewrite (is_last_inj _ _ _ _ _ Hu Hv) in *. by simplify_eq.
  - rewrite Hf. split; [|by intros ->; rewrite t_spine]. intros ([a' H'] & Hq' & E)%fmap_Some. simpl in E. subst a'.
    apply (spine_inj _ _ _ _ _ _ _ (sk_nodup _ _ _ Hsk) Hq' t_spine).
  - split; [intros ->; apply (nx_tall _ _ _ _ Hq _ t_spine)|]. intros Hjt.
    destruct (Nat.eq_dec q (S k)) as [|Hne]; [done|].
    pose proof (nx_skip _ _ _ _ Hq (S k) _ ltac:(lia) t_spine) as Hlow. simpl in Hlow. lia.
Qed.

(** A link as it is with the node, and without. *)
Lemma unlink_links h2 :
  (forall j, Z.of_nat j < zsl_level z -> unlinked (t_addr t) upd h h2 j) ->
  (forall j b, zsl_level z <= Z.of_nat j -> lv h2 b j = lv h b j) ->
  forall p b Hb i, S0 !! p = Some (b, Hb) -> (i < Hb)%nat -> link_ok h2 S0 (zsl_level z) i p b.
Proof.
  intros Hun Hsame p b Hb i Hp Hi. pose proof (sk_level _ _ _ Hsk) as Hlev. unfold ZSKIPLIST_MAXLEVEL in Hlev.
  pose proof (sk_bound _ _ _ Hsk) as Hbd. unfold zlen in Hbd. rewrite len' in Hbd.
  set (p1 := if decide (p <= k)%nat then p else S p).
  assert (S1 !! p1 = Some (b, Hb)) as Hp1.
  { unfold p1. destruct (decide (p <= k)%nat).
    - by rewrite (put_before _ _ _ _ klen' put_eq').
    - by rewrite (put_after _ _ _ _ klen' put_eq') by lia. }
  assert (i < 32)%nat as Hi32.
  { apply spine_cases in Hp1 as [(_ & _ & ->)|(r & s & _ & Hs & _ & ->)]; [lia|].
    destruct (sk_heights _ _ _ Hsk s (list_elem_of_lookup_2 _ _ _ Hs)). lia. }
  destruct (sk_links _ _ _ Hsk p1 b Hb i Hp1 Hi) as (l & q & Hl & Hq & Hf & Hs). rewrite spine_length, len' in Hs.
  destruct (upd_entry' i Hi32) as (u & a & H & lu & qu & Ha & Hu & Hne & Hup & Hlu & Hqu & Hfu & Hkq & Huk & Hsu & Hft & Htall).
  assert (b <> a -> lv h2 b i = Some l) as Hkeep.
  { intros Hba. destruct (Z.lt_ge_cases (Z.of_nat i) (zsl_level z)) as [Hlim|]; [|by rewrite Hsame].
    destruct (Hun i Hlim) as (u' & r & lu' & Eu & _ & Ho & _). rewrite Hup in Eu by done. simplify_eq. by rewrite Ho. }
  assert (length S0 - 1 = n)%nat as Hlen by (rewrite spine_length; lia). unfold p1 in *. clear p1.
  destruct (decide (p <= k)%nat) as [Hpk|Hpk].
  - assert (k < length S1)%nat as Hk1 by (rewrite spine_length, len', length_app; lia).
    destruct (next_or_last S1 k Hk1 i p q _ Hp1 Hi Hpk Hq) as [Hqk|[Hkq' Hlast]].
    + exists l, q. split_and!.
      * apply Hkeep. intros ->. pose proof (spine_inj _ _ _ _ _ _ _ (sk_nodup _ _ _ Hsk) Hp1 Ha) as ->.
        rewrite (is_next_inj _ _ _ _ _ Hq Hqu) in *. lia.
      * by apply (next_below _ _ _ _ klen' put_eq').
      * by rewrite <- (put_before _ _ _ _ klen' put_eq').
      * intros Hpos Hlim. rewrite Hs, Hlen by done. rewrite length_app in *. lia.
    + apply last_both in Hlast. rewrite (is_last_inj _ _ _ _ _ Hlast Hu) in *. rewrite Ha in Hp1. rewrite (is_next_inj _ _ _ _ _ Hq Hqu) in *.
      simplify_eq. destruct (Z.lt_ge_cases (Z.of_nat i) (zsl_level z)) as [Hlim|Hlim].
      * destruct (Hun i Hlim) as (u' & r & lu' & Eu & Hlu' & _ & Hor). rewrite Hup in Eu by done. simplify_eq.
        destruct Hor as [(Hfx & lx & Hlx & Hu')|(Hfx & Hu')].
        { apply Hft in Hfx. pose proof Hfx as Hit. rewrite Htall in Hit.
          destruct (sk_links _ _ _ Hsk (S k) (t_addr t) (t_height t) i t_spine Hit) as (lx' & qx & Hlx' & Hqx & Hfx' & Hsx).
          rewrite Hlx in Hlx'. simplify_eq. rewrite spine_length, len' in Hsx. pose proof (nx_end _ _ _ _ Hqx) as Hqe. rewrite spine_length, len' in Hqe.
          destruct (next_past i u qx Hu Hqx) as (q0 & -> & Hkq0 & Hq0).
          eexists _, q0. split; [exact Hu'|]. split; [done|]. cbn [forward span]. split.
          - rewrite Hfx'. by rewrite (put_after _ _ _ _ klen' put_eq') by lia.
          - intros Hpos _. unfold span_at. rewrite decide_False by lia. cbn [span]. rewrite Hsu, Hsx, Hlen by done.
            rewrite wrapU_add_r, wrapU_small by lia. lia. }
        { assert (t_height t <= i)%nat as Hit by (apply Nat.nlt_ge; intros Hit; by apply Hfx, Hft, Htall).
          destruct qu as [|q0]; [lia|]. assert (S q0 <> S k) by (intros E; apply Hfx; by apply Hft).
          eexists _, q0. split; [exact Hu'|]. split; [by apply (next_over_new _ _ _ _ klen' put_eq')|]. split.
          - cbn [forward span_at]. rewrite Hfu. by rewrite (put_after _ _ _ _ klen' put_eq') by lia.
          - intros Hpos _. unfold span_at. rewrite decide_False by lia. cbn [span]. rewrite Hsu, Hlen by done.
            rewrite wrapU_small by lia. lia. }
      * assert (t_height t <= i)%nat as Hit.
        { destruct (sk_heights _ _ _ Hsk t (list_elem_of_lookup_2 _ _ _ t_at)). lia. }
        destruct qu as [|q0]; [lia|]. assert (S q0 <> S k) by (intros E; apply Htall in E; lia).
        exists l, q0. rewrite Hsame by done. split; [done|]. split; [by apply (next_over_new _ _ _ _ klen' put_eq')|]. split; [|lia].
        rewrite Hfu. by rewrite (put_after _ _ _ _ klen' put_eq') by lia.
  - destruct q as [|q]; [pose proof (nx_after _ _ _ _ Hq); lia|]. pose proof (nx_after _ _ _ _ Hq).
    exists l, q. split_and!.
    + apply Hkeep. intros ->. pose proof (spine_inj _ _ _ _ _ _ _ (sk_nodup _ _ _ Hsk) Hp1 Ha). lia.
    + apply (next_above _ _ _ _ klen' put_eq'); [lia|done].
    + rewrite Hf. by rewrite (put_after _ _ _ _ klen' put_eq') by lia.
    + intros Hpos Hlim. rewrite Hs, Hlen by done. lia.
Qed.
End unlinking.

(** ** Levels the header loses *)

Lemma header_forward h z L i :
  skl h z L -> (i < 32)%nat -> exists l q, lv h (zsl_header z) i = Some l /\ is_next (spine (zsl_header z) L) i 0 q /\
    forward l = fst <$> spine (zsl_header z) L !! q.
Proof.
  intros Hsk Hi. destruct (sk_links _ _ _ Hsk 0%nat (zsl_header z) 32%nat i) as (l & q & Hl & Hq & Hf & _); try done. by exists l, q.
Qed.

(** One level less: nothing is that high. *)
Lemma lower_one h h' z L l :
  skl h z L -> 1 < zsl_level z -> lv h (zsl_header z) (Z.to_nat (zsl_level z - 1)) = Some l -> forward l = None ->
  wrote h h' (zsl_header z) (Z.to_nat (zsl_level z - 1)) {| forward := forward l; span := 0 |} ->
  skl h' (set_level z (zsl_level z - 1)) L.
Proof.
  intros Hsk Hlev Hl Hf [Hs Hw Ho]. pose proof (sk_level _ _ _ Hsk) as Hlv. unfold ZSKIPLIST_MAXLEVEL in Hlv.
  destruct (header_forward h z L (Z.to_nat (zsl_level z - 1)) Hsk ltac:(lia)) as (l' & q & Hl' & Hq & Hf').
  rewrite Hl in Hl'. simplify_eq. rewrite Hf in Hf'. symmetry in Hf'. apply fmap_None in Hf'.
  assert (forall t, t ∈ L -> Z.of_nat (t_height t) <= zsl_level z - 1) as Hlow.
  { intros t (p & Ht)%list_elem_of_lookup. assert (spine (zsl_header z) L !! S p = Some (t_addr t, t_height t)) as Hsp by by rewrite spine_node, Ht.
    pose proof (lookup_lt_Some _ _ _ Hsp). apply lookup_ge_None in Hf'.
    pose proof (nx_skip _ _ _ _ Hq (S p) _ ltac:(lia) Hsp) as Hle. simpl in Hle. lia. }
  constructor; cbn [zsl_level zsl_header zsl_length zsl_tail set_level]; try apply Hsk.
  - unfold ZSKIPLIST_MAXLEVEL. lia.
  - intros t Ht. split; [by apply (sk_positive _ _ _ _ Hsk)|by apply Hlow].
  - intros p t Ht. destruct (sk_nodes _ _ _ Hsk p t Ht) as (m & Hm & Hmi & Hmb). destruct (same_nodes_node _ _ _ _ Hs Hm) as (m2 & Hm2 & Hb2).
    exists m2. split; [done|]. split; [by apply (node_is_bare m)|]. by rewrite (proj1 (proj2 (bare_fields _ _ Hb2))).
  - destruct (sk_header _ _ _ Hsk) as (n & Hn & Hnl & Hnb). destruct (same_nodes_node _ _ _ _ Hs Hn) as (n2 & Hn2 & Hb2).
    pose proof (bare_fields _ _ Hb2) as (_ & _ & _ & _ & E5 & E6). exists n2. by rewrite E5, E6.
  - intros p a H i Ha Hi. destruct (sk_links _ _ _ Hsk p a H i Ha Hi) as (la & qa & Hla & Hqa & Hfa & Hsa).
    destruct (decide (a = zsl_header z /\ i = Z.to_nat (zsl_level z - 1))) as [[-> ->]|Hne].
    + rewrite Hl in Hla. simplify_eq. eexists _, qa. split; [exact Hw|]. split; [done|]. split; [done|]. lia.
    + exists la, qa. split; [rewrite Ho; [done|]|split; [done|split; [done|intros; apply Hsa; lia]]].
      destruct (decide (a = zsl_header z)); [right; naive_solver|by left].
Qed.

Lemma lower_ok L : forall fuel h z,
  skl h z L -> zsl_level z <= Z.of_nat fuel ->
  exists h' z', lower_loop fuel h z = Ok (h', z') /\ skl h' z' L /\ alloc_size z' = alloc_size z /\
    zsl_header z' = zsl_header z /\ zsl_length z' = zsl_length z /\ only_on [zsl_header z] h h'.
Proof.
  induction fuel as [|fuel IH]; intros h z Hsk Hfuel; pose proof (sk_level _ _ _ Hsk) as Hlv; unfold ZSKIPLIST_MAXLEVEL in Hlv; [lia|].
  cbn [lower_loop]. rewrite Z.gtb_ltb. destruct (Z.ltb_spec 1 (zsl_level z)) as [Hlev|].
  2:{ exists h, z. by split_and!. }
  destruct (header_forward h z L (Z.to_nat (zsl_level z - 1)) Hsk ltac:(lia)) as (l & q & Hl & _ & _).
  assert (zsl_level z - 1 = Z.of_nat (Z.to_nat (zsl_level z - 1))) as Em by lia.
  set (m := Z.to_nat (zsl_level z - 1)) in *. rewrite Em, (get_forward_ok _ _ _ _ Hl). runr. destruct (forward l) eqn:Hf; [exists h, z; by split_and!|].
  destruct (set_span_ok h _ _ l 0 Hl) as (h1 & -> & W). runr. rewrite <- Em.
  destruct (IH h1 (set_level z (zsl_level z - 1))) as (h' & z' & -> & Hsk' & Ha & Hh & Hlen & Ho).
  - by apply (lower_one h h1 z L l).
  - simpl. lia.
  - exists h', z'. split_and!; try done. apply (only_on_trans _ _ h1); [|done]. intros b Hb. apply heap_ext; [apply W|].
    intros j. apply W. left. intros ->. apply Hb. by left.
Qed.

(** ** Unlinking a node *)

Lemma unlink_nodes h z A t B upd :
  skl h z (A ++ t :: B) -> searched (spine (zsl_header z) (A ++ t :: B)) (length A) (Z.to_nat (zsl_level z)) upd ->
  exists h2, unlink_loop (Z.to_nat (zsl_level z)) 0 h (t_addr t) upd = Ok h2 /\ same_nodes h h2 /\
    only_on (addrs z (A ++ t :: B)) h h2 /\
    (forall j, lv h2 (t_addr t) j = lv h (t_addr t) j) /\
    (forall p b Hb i, spine (zsl_header z) (A ++ B) !! p = Some (b, Hb) -> (i < Hb)%nat ->
       link_ok h2 (spine (zsl_header z) (A ++ B)) (zsl_level z) i p b).
Proof.
  intros Hsk Hup. pose proof (sk_level _ _ _ Hsk) as Hlev. unfold ZSKIPLIST_MAXLEVEL in Hlev.
  assert (forall j, (j < Z.to_nat (zsl_level z))%nat -> exists u r lu, upd !! j = Some (u, r) /\ u <> t_addr t /\
    u ∈ addrs z (A ++ t :: B) /\ lv h u j = Some lu /\ (forward lu = Some (t_addr t) -> exists lx, lv h (t_addr t) j = Some lx)) as Hent.
  { intros j Hj. destruct (upd_entry' h z A B t upd Hsk Hup j ltac:(lia))
      as (u & a & H & l & q & Ha & _ & Hne & Hu & Hl & _ & _ & _ & _ & _ & Hft & Htall). exists a, (Z.of_nat u), l. split_and!; try done.
    - apply Hu. lia.
    - apply list_elem_of_fmap. exists (a, H). split; [done|]. by eapply list_elem_of_lookup_2.
    - intros Hf. apply Hft, Htall in Hf. destruct (sk_nodes _ _ _ Hsk (length A) t) as (n & Hn & Hni & _); [by apply list_lookup_middle|].
      apply (lv_exists h _ n); [done|]. by rewrite (ni_level _ _ Hni). }
  destruct (unlink_loop_ok (t_addr t) upd (Z.to_nat (zsl_level z)) 0 h) as (h2 & E & Hs & Hw).
  { intros j Hj. destruct (Hent j ltac:(lia)) as (u & r & lu & ? & ? & _ & ? & ?). by exists u, r, lu. }
  exists h2. split; [done|]. split; [done|].
  assert (forall j, Z.of_nat j < zsl_level z -> unlinked (t_addr t) upd h h2 j) as HA.
  { intros j Hj. specialize (Hw j). by rewrite decide_True in Hw by lia. }
  assert (forall j b, zsl_level z <= Z.of_nat j -> lv h2 b j = lv h b j) as HC.
  { intros j b Hj. specialize (Hw j). rewrite decide_False in Hw by lia. by rewrite Hw. }
  assert (forall b, (forall j u r, (j < Z.to_nat (zsl_level z))%nat -> upd !! j = Some (u, r) -> b <> u) ->
    forall j, lv h2 b j = lv h b j) as Hkeep.
  { intros b Hb j. destruct (Z.lt_ge_cases (Z.of_nat j) (zsl_level z)) as [Hj|]; [|by apply HC].
    destruct (HA j Hj) as (u & r & lu & Eu & _ & Ho & _). apply Ho. apply (Hb j u r); [lia|done]. }
  split; [|split].
  - intros b Hb. apply heap_ext; [apply Hs|]. apply Hkeep. intros j u r Hj Eu ->.
    destruct (Hent j Hj) as (u' & r' & lu & Eu' & _ & Hin & _). rewrite Eu in Eu'. simplify_eq. by apply Hb.
  - apply Hkeep. intros j u r Hj Eu <-. destruct (Hent j Hj) as (u' & r' & lu & Eu' & Hne & _). rewrite Eu in Eu'. by simplify_eq.
  - by apply (unlink_links h z A B t upd).
Qed.

Lemma lower_loop_length n fuel : forall h z h' z',
  lower_loop fuel h z = Ok (h', z') -> lower_loop fuel h (set_length z n) = Ok (h', set_length z' n).
Proof.
  induction fuel as [|fuel IH]; intros h z h' z' E; [done|]. cbn [lower_loop] in *.
  cbn [zsl_level zsl_header set_length]. destruct (zsl_level z >? 1); [|by simplify_eq].
  apply bindr_ok in E as (f & Hf & E). rewrite Hf. runr. destruct f; [by simplify_eq|].
  apply bindr_ok in E as (h1 & Hs & E). rewrite Hs. runr. apply (IH h1 (set_level z (zsl_level z - 1)) h' z' E).
Qed.

(** The nodes and the back pointers of a list without its element [t]. *)
Lemma unlink_assemble h h2 h4 z z4 A t B :
  skl h z (A ++ t :: B) -> same_nodes h h2 -> (forall a j, lv h4 a j = lv h2 a j) ->
  (forall p b Hb i, spine (zsl_header z) (A ++ B) !! p = Some (b, Hb) -> (i < Hb)%nat ->
     link_ok h2 (spine (zsl_header z) (A ++ B)) (zsl_level z) i p b) ->
  zsl_header z4 = zsl_header z -> zsl_level z4 = zsl_level z ->
  zsl_tail z4 = (match B with [] => back_of (A ++ t :: B) (length A) | _ => zsl_tail z end) ->
  (forall b, (forall s, head B = Some s -> b <> t_addr s) -> h4 !! b = h2 !! b) ->
  (forall s n, head B = Some s -> h2 !! t_addr s = Some n ->
     h4 !! t_addr s = Some (with_backward n (back_of (A ++ t :: B) (length A)))) ->
  skl h4 (set_length z4 (zlen (A ++ B))) (A ++ B).
Proof.
  intros Hsk Hs Hlv Hlinks Eh El Et Hother Hnext. pose proof (sk_nodup _ _ _ Hsk) as Hnd.
  assert (forall s, s ∈ A ++ B -> s ∈ A ++ t :: B) as Hsub.
  { intros s. rewrite !elem_of_app, elem_of_cons. tauto. }
  assert (forall p s, (A ++ B) !! p = Some s -> (A ++ t :: B) !! (if decide (p < length A)%nat then p else S p) = Some s) as Hat.
  { intros p s. destruct (decide (p < length A)%nat).
    - by rewrite !lookup_app_l by done.
    - rewrite !lookup_app_r by lia. by replace (S p - length A)%nat with (S (p - length A)) by lia. }
  constructor; cbn [zsl_level zsl_header zsl_length zsl_tail set_length]; rewrite ?Eh, ?El.
  - assert (map fst (spine (zsl_header z) (A ++ t :: B)) ≡ₚ t_addr t :: map fst (spine (zsl_header z) (A ++ B))) as Hp.
    { unfold spine. rewrite <- (Permutation_middle A B t). apply perm_swap. }
    rewrite Hp in Hnd. by apply NoDup_cons in Hnd as [_ ?].
  - apply Hsk.
  - intros s Hs'. apply (sk_heights _ _ _ Hsk). by apply Hsub.
  - done.
  - pose proof (sk_bound _ _ _ Hsk) as Hb. rewrite zlen_app, zlen_cons in Hb. rewrite zlen_app. lia.
  - rewrite Et. destruct B as [|s B].
    + rewrite app_nil_r. destruct A as [|x A _] using rev_ind; [done|]. rewrite length_app, last_snoc. simpl.
      rewrite Nat.add_1_r. cbn [back_of]. rewrite <- app_assoc. simpl. by rewrite list_lookup_middle.
    + rewrite (sk_tail _ _ _ Hsk), !last_app_cons. by rewrite last_cons_cons.
  - intros p s Hp. pose proof (Hat p s Hp) as Hp1. destruct (sk_nodes _ _ _ Hsk _ s Hp1) as (m & Hm & Hmi & Hmb).
    destruct (same_nodes_node _ _ _ _ Hs Hm) as (m2 & Hm2 & Hb2). pose proof (node_is_bare _ _ _ Hb2 Hmi) as Hmi2.
    pose proof (proj1 (proj2 (bare_fields _ _ Hb2))) as Ebk. rewrite Hmb in Ebk.
    destruct (decide (p = length A)) as [->|Hne].
    + rewrite decide_False in Hp1 by lia. rewrite lookup_app_r, Nat.sub_diag in Hp by done.
      exists (with_backward m2 (back_of (A ++ t :: B) (length A))). split; [apply Hnext; [by destruct B|done]|].
      split; [by apply node_is_back|]. cbn [n_backward with_backward]. destruct A as [|x A _] using rev_ind; [done|].
      rewrite length_app, Nat.add_1_r. cbn [back_of]. rewrite <- !app_assoc. simpl. by rewrite !list_lookup_middle.
    + exists m2. rewrite Hother.
      2:{ intros s' Hs' E. destruct (decide (p < length A)%nat) as [Hlt|Hge].
          - assert ((A ++ t :: B) !! S (length A) = Some s') as Hs1 by (rewrite lookup_app_r by lia; replace (S (length A) - length A)%nat with 1%nat by lia; by destruct B).
            pose proof (addr_inj _ _ _ _ _ _ Hnd Hp1 Hs1 E). lia.
          - assert ((A ++ t :: B) !! S (length A) = Some s') as Hs1 by (rewrite lookup_app_r by lia; replace (S (length A) - length A)%nat with 1%nat by lia; by destruct B).
            pose proof (addr_inj _ _ _ _ _ _ Hnd Hp1 Hs1 E). lia. }
      split; [done|]. split; [done|]. rewrite Ebk. destruct (decide (p < length A)%nat) as [Hlt|Hge].
      * destruct p as [|p]; [done|]. cbn [back_of]. by rewrite !lookup_app_l by lia.
      * destruct p as [|p]; [lia|]. cbn [back_of]. rewrite !lookup_app_r by lia.
        by replace (S p - length A)%nat with (S (p - length A)) by lia.
  - destruct (sk_header _ _ _ Hsk) as (n & Hn & Hnl & Hnb). destruct (same_nodes_node _ _ _ _ Hs Hn) as (n2 & Hn2 & Hb2).
    pose proof (bare_fields _ _ Hb2) as (_ & _ & _ & _ & E5 & E6). exists n2. rewrite Hother, E5, E6; [done|].
    intros s Hs' E. destruct B as [|s' B]; simplify_eq/=. symmetry in E.
    apply (header_not_node _ _ (S (length A)) s Hnd); [|done]. rewrite lookup_app_r by lia.
    by replace (S (length A) - length A)%nat with 1%nat by lia.
  - intros p a H i Ha Hi. destruct (Hlinks p a H i Ha Hi) as (l & q & Hl & Hrest). exists l, q. by rewrite Hlv.
Qed.

Lemma unlinkNode_ok h z A t B upd :
  skl h z (A ++ t :: B) -> searched (spine (zsl_header z) (A ++ t :: B)) (length A) (Z.to_nat (zsl_level z)) upd ->
  exists h' z', zslUnlinkNode h z (t_addr t) upd = Ok (h', z') /\ skl h' z' (A ++ B) /\
    alloc_size z' = alloc_size z /\ zsl_header z' = zsl_header z /\ only_on (addrs z (A ++ t :: B)) h h' /\
    exists n, h' !! t_addr t = Some n /\ node_is n t.
Proof.
  intros Hsk Hup. destruct (unlink_nodes h z A t B upd Hsk Hup) as (h2 & E & Hs & Ho2 & Hlvt & Hlinks).
  pose proof (sk_nodup _ _ _ Hsk) as Hnd. pose proof (sk_level _ _ _ Hsk) as Hlev. unfold ZSKIPLIST_MAXLEVEL in Hlev.
  assert ((A ++ t :: B) !! length A = Some t) as Ht by by apply list_lookup_middle.
  assert (forall s, head B = Some s -> (A ++ t :: B) !! S (length A) = Some s) as HB.
  { intros s Hs'. rewrite lookup_app_r by lia. replace (S (length A) - length A)%nat with 1%nat by lia. by destruct B. }
  destruct (sk_nodes _ _ _ Hsk _ t Ht) as (n & Hn & Hni & Hnb). destruct (same_nodes_node _ _ _ _ Hs Hn) as (n2 & Hn2 & Hb2).
  unfold zslUnlinkNode. rewrite E. runr. unfold get_node. rewrite Hn2. runr.
  assert (get_forward h2 (t_addr t) 0 = Ok (t_addr <$> head B)) as Hf.
  { assert (get_forward h2 (t_addr t) 0 = get_forward h (t_addr t) 0) as ->.
    { assert (0 < t_height t)%nat by (apply (sk_positive _ _ _ _ Hsk); by eapply list_elem_of_lookup_2).
      destruct (lv_exists h _ n 0 Hn) as (l & Hl); [rewrite (ni_level _ _ Hni); lia|].
      change 0 with (Z.of_nat 0). by rewrite (get_forward_ok _ _ _ _ Hl), (get_forward_ok h2 _ _ l) by by rewrite Hlvt. }
    rewrite (forward_zero h z (A ++ t :: B) (S (length A)) _ (t_height t) Hsk) by (by rewrite spine_node, Ht). f_equal.
    rewrite lookup_app_r by lia. replace (S (length A) - length A)%nat with 1%nat by lia. by destruct B. }
  rewrite Hf. runr. rewrite (proj1 (proj2 (bare_fields _ _ Hb2))), Hnb.
  destruct (set_back_ok h2 z (t_addr <$> head B) (back_of (A ++ t :: B) (length A)))
    as (h4 & z4 & -> & Z1 & Z2 & Z3 & Z4 & Z5 & Hlv4 & Ho4 & Hn4).
  { intros y (s & Hs' & ->)%fmap_Some. destruct (sk_nodes _ _ _ Hsk _ s (HB s Hs')) as (m & Hm & _).
    destruct (same_nodes_node _ _ _ _ Hs Hm) as (m2 & Hm2 & _). by exists m2. }
  runr.
  assert (skl h4 (set_length z4 (zlen (A ++ B))) (A ++ B)) as Hsk4.
  { apply (unlink_assemble h h2 h4 z z4 A t B); try done.
    - rewrite Z5. by destruct B.
    - intros b Hb. apply Ho4. intros (s & Hs' & E')%fmap_Some. by apply (Hb s).
    - intros s m Hs' Hm. apply Hn4; [by rewrite Hs'|done]. }
  destruct (lower_ok (A ++ B) (S (Z.to_nat (zsl_level z4))) h4 (set_length z4 (zlen (A ++ B))) Hsk4)
    as (h5 & z5 & E5 & Hsk5 & Ha5 & Hh5 & Hl5 & Ho5); [simpl; lia|].
  apply (lower_loop_length (zsl_length z4)) in E5.
  replace (set_length (set_length z4 (zlen (A ++ B))) (zsl_length z4)) with z4 in E5 by by destruct z4.
  rewrite E5. runr. eexists _, _. split; [done|]. cbn [zsl_length set_length alloc_size zsl_header] in *.
  rewrite Z3, (sk_length _ _ _ Hsk). replace (zlen (A ++ t :: B) - 1) with (zlen (A ++ B)) by (rewrite !zlen_app, zlen_cons; lia).
  rewrite wrapU_small by (pose proof (sk_bound _ _ _ Hsk5); pose proof (zlen_nonneg (A ++ B)); lia).
  split; [|split; [congruence|split; [congruence|split]]].
  - replace (set_length (set_length z5 (zlen (A ++ t :: B))) (zlen (A ++ B))) with z5; [done|].
    destruct z5. cbn in *. by subst.
  - intros b Hb. rewrite Ho5, Ho4; [by apply Ho2| |].
    + intros (s & Hs' & ->)%fmap_Some. apply Hb. unfold addrs. eapply spine_addr. by apply HB.
    + intros [E'|[]%not_elem_of_nil]%elem_of_cons. apply Hb. rewrite E', Z1. by left.
  - exists n2. split; [|by apply (node_is_bare n)]. rewrite Ho5, Ho4; [done| |].
    + intros (s & Hs' & E')%fmap_Some. pose proof (addr_inj _ _ _ _ _ _ Hnd Ht (HB s Hs') E'). lia.
    + intros [E'|[]%not_elem_of_nil]%elem_of_cons. rewrite Z1 in E'. by apply (header_not_node _ _ _ _ Hnd Ht).
Qed.

(** * The operations *)

(** Only the nodes of the list matter. *)
Lemma skl_frame h h' z L : skl h z L -> (forall b, b ∈ addrs z L -> h' !! b = h !! b) -> skl h' z L.
Proof.
  intros Hsk He. assert (forall p a H, spine (zsl_header z) L !! p = Some (a, H) -> h' !! a = h !! a) as Ha.
  { intros p a H Hp. apply He. apply list_elem_of_fmap. exists (a, H). split; [done|]. by eapply list_elem_of_lookup_2. }
  constructor; try apply Hsk.
  - intros p t Ht. rewrite (Ha (S p) _ (t_height t)) by by rewrite spine_node, Ht. by apply Hsk.
  - rewrite (Ha 0%nat _ 32%nat) by done. apply Hsk.
  - intros p a H i Hp Hi. destruct (sk_links _ _ _ Hsk p a H i Hp Hi) as (l & q & Hl & Hrest). exists l, q.
    unfold lv. by rewrite (Ha p a H Hp).
Qed.

Section operations.
Context `{alloc : NodeAllocator} {laws : NodeAllocatorLaws}.

(** The skip list of a sorted set: in order, each element once, and its blocks
    accounted for. *)
Record zsl_ok (h : heap) (z : zskiplist) (L : list tower) : Prop := {
  zo_skl : skl h z L;
  zo_sorted : sorted (keys L);
  zo_distinct : NoDup (map snd (keys L));
  zo_alloc : alloc_exact z L;
}.

Definition ins_tower (t : tower) (L : list tower) : list tower :=
  let k := place (t_key t) (keys L) in take k L ++ t :: drop k L.

Definition ins (k : scored) (l : list scored) : list scored := take (place k l) l ++ k :: drop (place k l) l.

Lemma keys_ins t L : keys (ins_tower t L) = ins (t_key t) (keys L).
Proof. unfold keys, ins_tower, ins. by rewrite map_app, map_cons, <- firstn_map, <- skipn_map. Qed.

Lemma ins_perm k l : ins k l ≡ₚ k :: l.
Proof. unfold ins. by rewrite <- Permutation_middle, take_drop. Qed.

Lemma ins_tower_perm t L : ins_tower t L ≡ₚ t :: L.
Proof. unfold ins_tower. by rewrite <- Permutation_middle, take_drop. Qed.

Lemma ins_sorted k l : sorted l -> k.2 ∉ map snd l -> sorted (ins k l).
Proof.
  intros Hs Hk. unfold ins. pose proof (take_drop (place k l) l) as E. pose proof Hs as Hs'. rewrite <- E in Hs'.
  assert (Forall (fun y => elt y k) (take (place k l) l)) as Hlow.
  { apply list.Forall_lookup. intros p x Hp. apply lookup_take_Some in Hp as [Hp Hlt]. by apply (place_spec k l p x Hs Hp). }
  assert (Forall (elt k) (drop (place k l) l)) as Hhigh.
  { apply list.Forall_lookup. intros p x Hp. rewrite lookup_drop in Hp. pose proof (place_spec k l _ x Hs Hp) as Hiff.
    unfold elt in *. rewrite (ecmp_antisym x k). destruct (ecmp x k) eqn:Ec; [|pose proof (proj1 Hiff eq_refl); lia|done].
    apply ecmp_eq in Ec as [_ Ee]. destruct Hk. rewrite <- Ee. apply list_elem_of_fmap. exists x. split; [done|].
    by eapply list_elem_of_lookup_2. }
  apply StronglySorted_app in Hs' as (_ & Ht & Hd). apply StronglySorted_app_2; [|done|].
  - intros x1 x2 H1 H2. pose proof (proj1 (list.Forall_forall _ _) Hlow x1 H1) as Hx1.
    apply elem_of_cons in H2 as [->|H2]; [done|]. apply (elt_trans _ k); [done|]. by apply (proj1 (list.Forall_forall _ _) Hhigh).
  - by constructor.
Qed.

(** A place in a sorted list is where the elements before it end. *)
Lemma place_mid k a b : Forall (fun y => elt y k) a -> Forall (fun y => ~ elt y k) b -> place k (a ++ b) = length a.
Proof.
  intros Ha Hb. induction Ha as [|x a Hx _ IH]; simpl.
  - destruct Hb as [|y b Hy _]; [done|]. simpl. unfold elt in Hy. by destruct (ecmp y k).
  - rewrite Hx. by rewrite IH.
Qed.

Lemma ins_tower_mid t A B :
  Forall (fun y => elt y (t_key t)) (keys A) -> Forall (fun y => ~ elt y (t_key t)) (keys B) ->
  ins_tower t (A ++ B) = A ++ t :: B.
Proof.
  intros HA HB. unfold ins_tower, keys. rewrite map_app, place_mid by done. rewrite length_map.
  by rewrite take_app_length, drop_app_length.
Qed.

Lemma blocks_perm L L' : L ≡ₚ L' -> blocks_size L = blocks_size L'.
Proof. intros Hp. unfold blocks_size. induction Hp; simpl; lia. Qed.

Lemma sorted_at A t B : sorted (keys (A ++ t :: B)) ->
  sorted (keys (A ++ B)) /\ Forall (fun y => elt y (t_key t)) (keys A) /\ Forall (elt (t_key t)) (keys B) /\
  splits (fun e => elt e (t_key t)) (A ++ t :: B) (length A).
Proof.
  unfold keys. rewrite !map_app, map_cons. intros Hs. apply sorted_mid in Hs as (Ha & Hb & HA & HB & HAB).
  split_and!; try done.
  - apply StronglySorted_app_2; [|done|done]. intros y w Hy Hw.
    apply (proj1 (list.Forall_forall _ _) (proj1 (list.Forall_forall _ _) HAB y Hy) w Hw).
  - split; [rewrite length_app; lia|].
    intros p s Hp. destruct (Nat.lt_trichotomy p (length A)) as [Hlt|[->|Hgt]].
    + rewrite lookup_app_l in Hp by done. split; [done|]. intros _. apply (proj1 (list.Forall_forall _ _) HA).
      apply list_elem_of_fmap. exists s. split; [done|]. by eapply list_elem_of_lookup_2.
    + rewrite list_lookup_middle in Hp by done. simplify_eq. split; [intros []%elt_irrefl|lia].
    + rewrite lookup_app_r in Hp by lia. split; [|lia]. intros He. exfalso.
      replace (p - length A)%nat with (S (p - length A - 1)) in Hp by lia. simpl in Hp.
      apply (elt_asym _ _ He). apply (proj1 (list.Forall_forall _ _) HB).
      apply list_elem_of_fmap. exists s. split; [done|]. by eapply list_elem_of_lookup_2.
Qed.

(** ** Creation and insertion *)

Lemma create_ok h :
  exists h' z', zslCreate h = (h', z') /\ zsl_ok h' z' [] /\ h !! zsl_header z' = None /\ only_on [zsl_header z'] h h'.
Proof.
  unfold zslCreate, zslCreateHeaderNode. eexists _, _. split; [done|]. cbn [zsl_header]. split; [|split; [apply new_addr_fresh|]].
  - constructor; [|constructor|constructor|].
    + constructor; cbn [zsl_header zsl_level zsl_length zsl_tail set_alloc]; try done.
      * simpl. apply NoDup_singleton.
      * by intros t ?%not_elem_of_nil.
      * eexists. split; [apply lookup_insert_eq|]. done.
      * intros p a H i Hp Hi. apply spine_cases in Hp as [(-> & -> & ->)|(q & t & _ & Ht & _)]; [|done].
        exists {| forward := None; span := 0 |}, 1%nat. split_and!; try done.
        { unfold lv. rewrite lookup_insert_eq. cbn [mbind option_bind n_level]. by apply lookup_replicate_2. }
        { constructor; simpl; try lia; try done. }
    + unfold alloc_exact. simpl. by rewrite Z.add_0_r.
  - intros b Hb. apply lookup_insert_ne. intros E. apply Hb. rewrite <- E. by left.
Qed.

Lemma random_level_ok rnd :
  zlen rnd < 2 ^ 30 -> (exists r, r ∈ rnd /\ random_threshold <= r) ->
  exists H, zslRandomLevel rnd = Ok (Z.of_nat H) /\ (0 < H)%nat /\ Z.of_nat H <= ZSKIPLIST_MAXLEVEL.
Proof.
  intros Hlen (r & Hr & Hge). unfold zslRandomLevel, ZSKIPLIST_MAXLEVEL.
  assert (forall level, 1 <= level -> level + zlen rnd < 2 ^ 31 -> exists l, random_loop rnd level = Ok l /\ 1 <= l) as Hl.
  { clear Hlen. induction rnd as [|x rnd IH]; intros level H1 H2; [by apply not_elem_of_nil in Hr|].
    cbn [random_loop]. rewrite zlen_cons in H2. pose proof (zlen_nonneg rnd). destruct (Z.ltb_spec x random_threshold).
    - rewrite chk_i32_ok by lia. runr. apply IH; [|lia|lia]. apply elem_of_cons in Hr as [->|]; [lia|done].
    - by exists level. }
  destruct (Hl 1) as (l & -> & H1); [lia|lia|]. runr. exists (Z.to_nat (if l <? 32 then l else 32)).
  case_bool; rewrite Z2Nat.id by lia; split_and!; done || lia.
Qed.

Lemma insert_tower_ok h z L t n :
  skl h z L -> sorted (keys L) -> NoDup (map snd (keys L)) -> alloc_exact z (t :: L) -> zlen L + 1 < 2 ^ 63 - 1 ->
  (0 < t_height t)%nat -> Z.of_nat (t_height t) <= ZSKIPLIST_MAXLEVEL -> t_addr t ∉ addrs z L ->
  (t_key t).2 ∉ map snd (keys L) -> h !! t_addr t = Some n -> node_is n t ->
  exists h' z', zslInsertNode h z (t_addr t) = Ok (h', z') /\ zsl_ok h' z' (ins_tower t L) /\
    zsl_header z' = zsl_header z /\ only_on (t_addr t :: addrs z L) h h'.
Proof.
  intros Hsk Hso Hdi Hal Hlen Hpos Hmax Hnew Hele Hn Hni.
  destruct (insertNode_ok h z L (place (t_key t) (keys L)) t n Hsk Hlen Hnew Hpos Hmax Hn Hni (splits_place L _ Hso))
    as (h' & z' & E & Hsk1 & Ha & Hh & Ho).
  exists h', z'. split; [done|]. split; [|done]. constructor.
  - done.
  - rewrite keys_ins. by apply ins_sorted.
  - rewrite keys_ins, ins_perm. by constructor.
  - unfold alloc_exact in *. by rewrite Ha, (blocks_perm _ _ (ins_tower_perm t L)).
Qed.

(** The nodes of a list are in the heap. *)
Lemma addrs_in h z L b : skl h z L -> b ∈ addrs z L -> h !! b <> None.
Proof.
  intros Hsk ([a H] & -> & (p & Hp)%list_elem_of_lookup)%list_elem_of_fmap. simpl.
  apply spine_cases in Hp as [(-> & -> & ->)|(q & s & -> & Hs & -> & ->)].
  - destruct (sk_header _ _ _ Hsk) as (n & -> & _). done.
  - destruct (sk_nodes _ _ _ Hsk q s Hs) as (n & -> & _). done.
Qed.

Lemma skl_alloc h z L a : skl h z L -> skl h (set_alloc z a) L.
Proof. intros []. by constructor. Qed.

Lemma create_node_ok uninit h z L H score ele :
  zsl_ok h z L -> Z.of_nat H <= ZSKIPLIST_MAXLEVEL -> isnan score = false ->
  let t := {| t_addr := new_addr h; t_key := (score, ele); t_height := H |} in
  exists h1 z1 n, zslCreateNode uninit h z (Z.of_nat H) score ele = (h1, z1, t_addr t) /\
    skl h1 z1 L /\ alloc_exact z1 (t :: L) /\ zsl_header z1 = zsl_header z /\ h1 !! t_addr t = Some n /\ node_is n t /\
    t_addr t ∉ addrs z L /\ only_on [t_addr t] h h1.
Proof.
  intros [Hsk Hso Hdi Hal] Hmax Hnan t. unfold ZSKIPLIST_MAXLEVEL in Hmax.
  assert (t_addr t ∉ addrs z L) as Hnew by (intros Hin; apply (addrs_in h z L _ Hsk Hin), new_addr_fresh).
  eexists _, _, _. split; [reflexivity|]. split_and!; try done.
  - apply skl_alloc, (skl_frame h); [done|]. intros b Hb. apply lookup_insert_ne. intros E. apply Hnew. by rewrite <- E in Hb.
  - unfold alloc_exact in *. cbn [alloc_size set_alloc]. rewrite Hal, wrapU_add_l. f_equal.
    unfold blocks_size. cbn [foldr]. fold (blocks_size L). unfold node_block, t. cbn [t_key t_height snd]. lia.
  - apply lookup_insert_eq.
  - constructor; cbn [n_score n_ele n_level n_info n_block t_key t_height fst snd t]; try done.
    + by rewrite length_map, length_seq, Nat2Z.id.
    + unfold zslSetNodeInfo. cbn [levels]. apply wrapU_small. lia.
    + unfold zslSetNodeInfo, ZSL_OFFSET_NO_ELE. cbn [sdsoffset].
      assert (0 <= sdsHdrSize (sdsReqType (zlen ele)) <= 17) by (unfold sdsHdrSize; repeat case_bool; lia).
      rewrite wrapU_small by lia. lia.
  - intros b Hb. apply lookup_insert_ne. intros E. apply Hb. rewrite <- E. by left.
Qed.

Lemma zslInsert_ok rnd uninit h z L score ele :
  zsl_ok h z L -> zlen L + 1 < 2 ^ 63 - 1 -> isnan score = false -> ele ∉ map snd (keys L) ->
  zlen rnd < 2 ^ 30 -> (exists r, r ∈ rnd /\ random_threshold <= r) ->
  exists h' z' t, zslInsert rnd uninit h z score ele = Ok (h', z', t_addr t) /\ t_key t = (score, ele) /\
    h !! t_addr t = None /\ zsl_ok h' z' (ins_tower t L) /\ zsl_header z' = zsl_header z /\
    only_on (t_addr t :: addrs z L) h h'.
Proof.
  intros Hok Hlen Hnan Hele Hrl Hr. unfold zslInsert. rewrite Hnan. cbn [negb]. runr.
  destruct (random_level_ok rnd Hrl Hr) as (H & -> & Hpos & Hmax). runr.
  destruct (create_node_ok uninit h z L H score ele Hok Hmax Hnan) as (h1 & z1 & n & -> & Hsk & Hal & Eh & Hn & Hni & Hnew & Ho1).
  set (t := {| t_addr := new_addr h; t_key := (score, ele); t_height := H |}) in *.
  destruct (insert_tower_ok h1 z1 L t n Hsk) as (h' & z' & -> & Hok' & Hh & Ho); try done; try apply Hok.
  { unfold addrs. by rewrite Eh. }
  runr. exists h', z', t. split; [done|]. split; [done|]. split; [apply new_addr_fresh|]. split; [done|]. split; [congruence|].
  apply (only_on_trans _ _ h1).
  - apply (only_on_mono [t_addr t]); [|done]. intros b [->|[]%not_elem_of_nil]%elem_of_cons. by left.
  - unfold addrs in *. by rewrite Eh in Ho.
Qed.

(** ** Deletion *)

Lemma node_at h z A t B : skl h z (A ++ t :: B) -> exists n, h !! t_addr t = Some n /\ node_is n t /\
  n_backward n = back_of (A ++ t :: B) (length A).
Proof. intros Hsk. apply (sk_nodes _ _ _ Hsk). by apply list_lookup_middle. Qed.

Lemma find_node_ok h z A t B :
  zsl_ok h z (A ++ t :: B) ->
  exists upd, find_node h z (t_addr t) = Ok upd /\
    searched (spine (zsl_header z) (A ++ t :: B)) (length A) (Z.to_nat (zsl_level z)) upd.
Proof.
  intros [Hsk Hso _ _]. destruct (node_at _ _ _ _ _ Hsk) as (n & Hn & Hni & _).
  destruct (sorted_at _ _ _ Hso) as (_ & _ & _ & Hsp).
  unfold find_node, zslGetNodeElement, get_node. rewrite Hn. runr.
  rewrite (proj2 (Z.eqb_neq _ _)) by apply (ni_offset _ _ Hni). cbn [negb]. runr.
  rewrite (ni_score _ _ Hni), (ni_ele _ _ Hni).
  destruct (search_ok h z _ Hsk (t_key t).1 (t_key t).2 (length A)) as (a & H & upd & -> & Ha & Hup).
  { apply (ni_nan _ _ Hni). }
  { by destruct (t_key t). }
  runr. rewrite (forward_zero h z _ (length A) _ H Hsk Ha), list_lookup_middle by done. runr.
  cbn [fmap option_fmap option_map]. rewrite bool_decide_eq_true_2 by done. runr. by exists upd.
Qed.

Lemma distinct_without A t B :
  NoDup (map snd (keys (A ++ t :: B))) -> NoDup (map snd (keys (A ++ B))) /\ (t_key t).2 ∉ map snd (keys (A ++ B)).
Proof.
  unfold keys. rewrite <- (Permutation_middle A B t). intros Hnd. simpl in Hnd. apply NoDup_cons in Hnd. tauto.
Qed.

(** A node unlinked and then freed. *)
Lemma unlink_free_ok h z A t B upd :
  zsl_ok h z (A ++ t :: B) -> searched (spine (zsl_header z) (A ++ t :: B)) (length A) (Z.to_nat (zsl_level z)) upd ->
  exists h1 z1 h2 z2, zslUnlinkNode h z (t_addr t) upd = Ok (h1, z1) /\ zslFreeNode h1 z1 (t_addr t) = Ok (h2, z2) /\
    skl h1 z1 (A ++ B) /\ (exists n, h1 !! t_addr t = Some n /\ node_is n t) /\
    zsl_ok h2 z2 (A ++ B) /\ zsl_header z2 = zsl_header z /\ zsl_level z2 = zsl_level z1 /\ h2 !! t_addr t = None /\
    only_on (addrs z (A ++ t :: B)) h h2.
Proof.
  intros [Hsk Hso Hdi Hal] Hup.
  destruct (unlinkNode_ok h z A t B upd Hsk Hup) as (h1 & z1 & E & Hsk1 & Ha1 & Hh1 & Ho1 & n & Hn & Hni).
  assert (t_addr t ∉ addrs z1 (A ++ B)) as Hout.
  { pose proof (sk_nodup _ _ _ Hsk) as Hnd. unfold addrs. rewrite Hh1. revert Hnd. unfold spine.
    rewrite <- (Permutation_middle A B t). simpl. rewrite !NoDup_cons, !elem_of_cons. naive_solver. }
  exists h1, z1. eexists _, _. split; [done|]. split; [unfold zslFreeNode, get_node; by rewrite Hn|]. split; [done|]. split; [by exists n|].
  split; [constructor|split; [done|split; [done|split]]].
  - apply skl_alloc, (skl_frame h1); [done|]. intros b Hb. apply lookup_delete_ne. intros E'. apply Hout. by rewrite E'.
  - by apply sorted_at in Hso as [? _].
  - by apply distinct_without in Hdi as [? _].
  - unfold alloc_exact in *. cbn [alloc_size set_alloc]. rewrite Ha1, Hal, (ni_block _ _ Hni), wrapU_sub_l.
    rewrite (blocks_perm (A ++ t :: B) (t :: A ++ B)) by (symmetry; apply Permutation_middle).
    f_equal. unfold blocks_size. cbn [foldr]. lia.
  - apply lookup_delete_eq.
  - intros b Hb. rewrite lookup_delete_ne; [by apply Ho1|]. intros E'. apply Hb. rewrite <- E'. unfold addrs.
    apply (spine_addr _ _ (length A)). by apply list_lookup_middle.
Qed.

Lemma zslDelete_ok h z A t B :
  zsl_ok h z (A ++ t :: B) ->
  exists h' z', zslDelete h z (t_addr t) = Ok (h', z') /\ zsl_ok h' z' (A ++ B) /\ zsl_header z' = zsl_header z /\
    h' !! t_addr t = None /\ only_on (addrs z (A ++ t :: B)) h h'.
Proof.
  intros Hok. destruct (find_node_ok _ _ _ _ _ Hok) as (upd & Hf & Hup).
  destruct (unlink_free_ok h z A t B upd Hok Hup) as (h1 & z1 & h2 & z2 & E1 & E2 & _ & _ & Hok2 & Hh & _ & Hnone & Hon).
  exists h2, z2. split; [|done]. unfold zslDelete. rewrite Hf. runr. rewrite E1. by runr.
Qed.

(** *** Updates that are longer than the list is high *)

Lemma unlink_loop_take x : forall n i h upd m, (Z.to_nat i + n <= m)%nat -> 0 <= i ->
  unlink_loop n i h x (take m upd) = unlink_loop n i h x upd.
Proof.
  intros n. induction n as [|n IH]; intros i h upd m Hm Hi; [done|]. cbn [unlink_loop].
  assert (rd1 (take m upd) i = rd1 upd i) as ->.
  { destruct (upd !! Z.to_nat i) as [y|] eqn:E.
    - rewrite !(rd1_lookup _ _ y) by (done || (rewrite lookup_take_lt by lia; done)). done.
    - apply lookup_ge_None in E. rewrite take_ge by lia. done. }
  destruct (rd1 upd i) as [[u ?]|]; [|done]. runr. destruct (get_forward h u i) as [f|]; [|done]. runr.
  lazymatch goal with |- bindr ?c _ = _ => destruct c as [h2|]; [|done] end. runr. apply IH; lia.
Qed.

Lemma zslUnlinkNode_take h z x upd :
  1 <= zsl_level z -> zslUnlinkNode h z x (take (Z.to_nat (zsl_level z)) upd) = zslUnlinkNode h z x upd.
Proof. intros Hl. unfold zslUnlinkNode. by rewrite unlink_loop_take by lia. Qed.

Lemma lower_loop_level fuel : forall h z h' z', lower_loop fuel h z = Ok (h', z') -> zsl_level z' <= zsl_level z.
Proof.
  induction fuel as [|fuel IH]; intros h z h' z' E; [done|]. cbn [lower_loop] in E.
  destruct (zsl_level z >? 1); [|by injection E as <- <-].
  destruct (get_forward h (zsl_header z) (zsl_level z - 1)) as [[f|]|]; [by injection E as <- <-| |done]. revert E. runr.
  destruct (set_span h (zsl_header z) (zsl_level z - 1) 0) as [h2|]; [|done]. runr. intros E. apply IH in E. cbn [zsl_level set_level] in E. lia.
Qed.

Lemma zslUnlinkNode_level h z x upd h' z' : zslUnlinkNode h z x upd = Ok (h', z') -> zsl_level z' <= zsl_level z.
Proof.
  unfold zslUnlinkNode. destruct (unlink_loop _ _ _ _ _) as [h1|]; [|done]. runr. destruct (get_node h1 x) as [n|]; [|done]. runr.
  destruct (get_forward h1 x 0) as [f|]; [|done]. runr. destruct (set_back h1 z f (n_backward n)) as [[h2 z2]|] eqn:Eb; [|done]. runr.
  destruct (lower_loop _ h2 z2) as [[h3 z3]|] eqn:El; [|done]. runr. intros [= <- <-]. cbn [zsl_level set_length].
  apply lower_loop_level in El. unfold set_back in Eb. destruct f as [y|]; [|by injection Eb as <- <-].
  destruct (on_node h1 y _); [|done]. by injection Eb as <- <-.
Qed.

(** What the arrays of a search say of the positions up to [k] stays true. *)
Lemma searched_shorter hd A t B n n' upd :
  searched (spine hd (A ++ t :: B)) (length A) n (take n upd) -> (n' <= n)%nat ->
  searched (spine hd (A ++ B)) (length A) n' (take n' upd).
Proof.
  intros [Hlen Hs] Hn. rewrite length_take in Hlen. split; [rewrite length_take; lia|]. intros i Hi.
  destruct (Hs i) as (v & a & H & E & Hv & [Hle Htall Hskip]); [lia|]. exists v, a, H.
  assert (forall p, (p <= length A)%nat -> spine hd (A ++ B) !! p = spine hd (A ++ t :: B) !! p) as Hsp.
  { intros [|p] Hp; [done|]. by rewrite !spine_node, !lookup_app_l by lia. }
  rewrite lookup_take_lt in E by lia. rewrite lookup_take_lt by lia. split; [done|]. rewrite Hsp by lia. split; [done|].
  constructor; [done|by rewrite Hsp by lia|]. intros r x Hr. rewrite Hsp by lia. by apply Hskip.
Qed.

(** ** A new score *)

Definition rescore (t : tower) (s : double) : tower :=
  {| t_addr := t_addr t; t_key := (s, (t_key t).2); t_height := t_height t |}.

Lemma node_is_rescore n t s : node_is n t -> isnan s = false -> node_is (with_score n s) (rescore t s).
Proof. intros [] Hs. by constructor. Qed.

Lemma skl_rescore h z A t B n s :
  skl h z (A ++ t :: B) -> h !! t_addr t = Some n -> node_is n t -> isnan s = false ->
  skl (<[t_addr t := with_score n s]> h) z (A ++ rescore t s :: B).
Proof.
  intros Hsk Hn Hni Hs. pose proof (sk_nodup _ _ _ Hsk) as Hnd.
  assert (spine (zsl_header z) (A ++ rescore t s :: B) = spine (zsl_header z) (A ++ t :: B)) as Es.
  { unfold spine. by rewrite !map_app, !map_cons. }
  assert (forall p x, (A ++ rescore t s :: B) !! p = Some x ->
    exists y, (A ++ t :: B) !! p = Some y /\ t_addr x = t_addr y /\ t_height x = t_height y /\
      ((p = length A /\ x = rescore t s /\ y = t) \/ (p <> length A /\ x = y))) as Hat.
  { intros p x Hp. destruct (decide (p = length A)) as [->|Hne].
    - rewrite list_lookup_middle in Hp by done. simplify_eq. exists t. rewrite list_lookup_middle by done. split_and!; try done. by left.
    - exists x. split; [|split_and!; try done; by right]. revert Hp. destruct (Nat.lt_ge_cases p (length A)).
      + by rewrite !lookup_app_l.
      + rewrite !lookup_app_r by lia. destruct (p - length A)%nat eqn:E; [lia|done]. }
  constructor; rewrite ?Es; try apply Hsk.
  - intros x (p & Hp)%list_elem_of_lookup. destruct (Hat p x Hp) as (y & Hy & _ & -> & _).
    apply (sk_heights _ _ _ Hsk). by eapply list_elem_of_lookup_2.
  - rewrite (sk_length _ _ _ Hsk). unfold zlen. by rewrite !length_app.
  - pose proof (sk_bound _ _ _ Hsk). unfold zlen in *. rewrite !length_app in *. done.
  - rewrite (sk_tail _ _ _ Hsk), !last_app_cons. by destruct B.
  - intros p x Hp. destruct (Hat p x Hp) as (y & Hy & Ea & _ & Hor). destruct (sk_nodes _ _ _ Hsk p y Hy) as (m & Hm & Hmi & Hmb).
    assert (back_of (A ++ rescore t s :: B) p = back_of (A ++ t :: B) p) as Eb.
    { destruct p as [|p]; [done|]. cbn [back_of]. destruct ((A ++ rescore t s :: B) !! p) as [w|] eqn:Hw.
      - destruct (Hat p w Hw) as (w' & -> & Ew & _). simpl. by rewrite Ew.
      - apply lookup_ge_None in Hw. rewrite lookup_ge_None_2; [done|]. rewrite !length_app in *. done. }
    rewrite Eb, Ea. destruct Hor as [(-> & -> & ->)|[Hne ->]].
    + rewrite Hn in Hm. simplify_eq. exists (with_score m s). split; [apply lookup_insert_eq|]. split; [|done].
      by apply node_is_rescore.
    + exists m. split; [|done]. rewrite lookup_insert_ne; [done|]. intros E. apply Hne.
      symmetry. apply (addr_inj _ (A ++ t :: B) _ _ t y Hnd); [by apply list_lookup_middle|done|done].
  - destruct (sk_header _ _ _ Hsk) as (m & Hm & Hrest). exists m. split; [|done]. rewrite lookup_insert_ne; [done|].
    apply (header_not_node _ (A ++ t :: B) (length A)); [done|]. by apply list_lookup_middle.
  - intros p a H i Hp Hi. destruct (sk_links _ _ _ Hsk p a H i Hp Hi) as (l & q & Hl & Hrest). exists l, q.
    split; [|done]. by rewrite (lv_on_node _ _ n).
Qed.

Lemma sorted_before A t B : sorted (keys (A ++ t :: B)) -> forall b, b ∈ keys A -> elt b (t_key t).
Proof. intros (_ & HA & _)%sorted_at b Hb. by apply (proj1 (list.Forall_forall _ _) HA). Qed.

(** Between its neighbours a new score keeps the node where it is. *)
Lemma rescore_in_place A t B s :
  sorted (keys (A ++ t :: B)) ->
  (forall x, last A = Some x -> fcmp (t_key x).1 s = Lt) -> (forall x, head B = Some x -> fcmp s (t_key x).1 = Lt) ->
  ins_tower (rescore t s) (A ++ B) = A ++ rescore t s :: B.
Proof.
  intros Hso HA HB. assert (forall e x, fcmp e.1 x.1 = Lt -> elt e x) as Hlt by (intros e x E; unfold elt, ecmp; by rewrite E).
  apply ins_tower_mid; apply list.Forall_forall; intros e He; simpl.
  - destruct A as [|a A _] using rev_ind; [by apply not_elem_of_nil in He|]. rewrite last_snoc in HA. specialize (HA a eq_refl).
    unfold keys in He. rewrite map_app in He. apply elem_of_app in He as [He|[->|[]%not_elem_of_nil]%elem_of_cons]; [|by apply Hlt].
    apply (elt_trans _ (t_key a)); [|by apply Hlt]. rewrite <- app_assoc in Hso. apply (sorted_before A a _ Hso _ He).
  - destruct B as [|b B]; [by apply not_elem_of_nil in He|]. specialize (HB b eq_refl).
    apply elt_asym. apply elem_of_cons in He as [->|He]; [by apply Hlt|]. apply (elt_trans _ (t_key b)); [by apply Hlt|].
    rewrite (assoc_L (++) A [t] (b :: B) : A ++ t :: b :: B = (A ++ [t]) ++ b :: B) in Hso.
    apply sorted_at in Hso as (_ & _ & Hb & _). by apply (proj1 (list.Forall_forall _ _) Hb).
Qed.

(** The test of zslUpdateScore. *)
Definition update_test (h : heap) (nd : zskiplistNode) (node : addr) (newscore : double) : result bool :=
  let* before :=
    match n_backward nd with
    | None => Ok true
    | Some b => let* n := get_node h b in Ok (SFltb (n_score n) newscore)
    end in
  let* after :=
    if (before : bool) then
      let* f := get_forward h node 0 in
      match f with
      | None => Ok true
      | Some y => let* n := get_node h y in Ok (SFltb newscore (n_score n))
      end
    else Ok false in
  Ok (before && after).

Lemma update_test_ok h z A t B n s :
  skl h z (A ++ t :: B) -> h !! t_addr t = Some n -> node_is n t -> n_backward n = back_of (A ++ t :: B) (length A) ->
  isnan s = false ->
  exists b, update_test h n (t_addr t) s = Ok b /\
    (b = true -> (forall x, last A = Some x -> fcmp (t_key x).1 s = Lt) /\ (forall x, head B = Some x -> fcmp s (t_key x).1 = Lt)).
Proof.
  intros Hsk Hn Hni Hbk Hs. unfold update_test. rewrite Hbk.
  assert (forall p x, (A ++ t :: B) !! p = Some x -> exists m, h !! t_addr x = Some m /\ n_score m = (t_key x).1 /\ isnan (t_key x).1 = false) as Hnode.
  { intros p x Hp. destruct (sk_nodes _ _ _ Hsk p x Hp) as (m & Hm & Hmi & _). exists m. split_and!; [done|apply Hmi|apply Hmi]. }
  assert (get_forward h (t_addr t) 0 = Ok (t_addr <$> head B)) as Hf.
  { rewrite (forward_zero h z (A ++ t :: B) (S (length A)) _ (t_height t) Hsk) by (by rewrite spine_node, list_lookup_middle).
    rewrite lookup_app_r by lia. replace (S (length A) - length A)%nat with 1%nat by lia. by destruct B. }
  assert (exists before, match back_of (A ++ t :: B) (length A) with
    | None => Ok true
    | Some b => let* n := get_node h b in Ok (SFltb (n_score n) s) end = Ok before /\
    (before = true -> forall x, last A = Some x -> fcmp (t_key x).1 s = Lt)) as (before & -> & HA).
  { destruct A as [|a A _] using rev_ind; [by exists true|]. rewrite length_app, Nat.add_1_r. cbn [back_of].
    rewrite <- app_assoc. simpl. rewrite list_lookup_middle by done. simpl.
    destruct (Hnode (length A) a) as (m & Hm & Em & En); [by rewrite <- app_assoc; apply list_lookup_middle|].
    unfold get_node. rewrite Hm. runr. eexists. split; [done|]. rewrite Em, SFltb_fcmp by done. rewrite last_snoc.
    intros Hb x [= <-]. by destruct (fcmp (t_key a).1 s). }
  runr. destruct before; [|by exists false]. rewrite Hf. runr. destruct B as [|b B]; simpl.
  { exists true. split; [done|]. intros _. split; [by apply HA|done]. }
  destruct (Hnode (S (length A)) b) as (m & Hm & Em & En).
  { rewrite lookup_app_r by lia. by replace (S (length A) - length A)%nat with 1%nat by lia. }
  unfold get_node. rewrite Hm. runr. eexists. split; [done|]. rewrite Em, SFltb_fcmp by done. intros Hb. split; [by apply HA|].
  intros x [= <-]. by destruct (fcmp s (t_key b).1).
Qed.

Lemma updateScore_unfold h z node s :
  zslUpdateScore h z node s =
  (let* nd := get_node h node in
   let* fast := update_test h nd node s in
   if (fast : bool) then let* h := on_node h node (fun n => with_score n s) in Ok (h, z)
   else
     let* upd := find_node h z node in
     let* (h, z) := zslUnlinkNode h z node upd in
     let* h := on_node h node (fun n => with_score n s) in
     zslInsertNode h z node).
Proof.
  unfold zslUpdateScore, update_test. destruct (get_node h node); [|done]. runr. rewrite bindr_assoc.
  lazymatch goal with |- bindr ?m _ = _ => destruct m as [before|]; [|done] end. runr. rewrite bindr_assoc.
  lazymatch goal with |- bindr ?m _ = _ => by destruct m end.
Qed.

Lemma zslUpdateScore_ok h z A t B s :
  zsl_ok h z (A ++ t :: B) -> isnan s = false ->
  exists h' z', zslUpdateScore h z (t_addr t) s = Ok (h', z') /\ zsl_ok h' z' (ins_tower (rescore t s) (A ++ B)) /\
    zsl_header z' = zsl_header z /\ only_on (addrs z (A ++ t :: B)) h h'.
Proof.
  intros Hok Hs. pose proof Hok as [Hsk Hso Hdi Hal]. destruct (node_at _ _ _ _ _ Hsk) as (n & Hn & Hni & Hbk).
  assert (t_addr t ∈ addrs z (A ++ t :: B)) as Hin by (apply (spine_addr _ _ (length A)); by apply list_lookup_middle).
  assert (alloc_exact z (rescore t s :: A ++ B)) as Hal'.
  { unfold alloc_exact in *. by rewrite Hal, (blocks_perm (A ++ t :: B) (t :: A ++ B)) by (symmetry; apply Permutation_middle). }
  rewrite updateScore_unfold. unfold get_node at 1. rewrite Hn. runr.
  destruct (update_test_ok h z A t B n s Hsk Hn Hni Hbk Hs) as ([] & -> & Hfast); runr.
  - destruct Hfast as [HA HB]; [done|]. rewrite (on_node_ok _ _ n) by done. runr. eexists _, _. split; [done|].
    rewrite (rescore_in_place A t B s Hso HA HB). split; [constructor|split; [done|]].
    + by apply skl_rescore.
    + rewrite <- (rescore_in_place A t B s Hso HA HB), keys_ins. apply ins_sorted; [by apply sorted_at in Hso as [? _]|].
      simpl. by apply distinct_without in Hdi as [_ ?].
    + unfold keys in *. rewrite !map_app in *. done.
    + unfold alloc_exact in *. rewrite Hal'. by rewrite (blocks_perm (A ++ rescore t s :: B) (rescore t s :: A ++ B)) by (symmetry; apply Permutation_middle).
    + intros b Hb. apply lookup_insert_ne. intros E. apply Hb. by rewrite <- E.
  - clear Hfast. destruct (find_node_ok _ _ _ _ _ Hok) as (upd & -> & Hup). runr.
    destruct (unlinkNode_ok h z A t B upd Hsk Hup) as (h1 & z1 & -> & Hsk1 & Ha1 & Hh1 & Ho1 & m & Hm & Hmi). runr.
    rewrite (on_node_ok _ _ m) by done. runr.
    assert (t_addr t ∉ addrs z1 (A ++ B)) as Hout.
    { pose proof (sk_nodup _ _ _ Hsk) as Hnd. unfold addrs. rewrite Hh1. revert Hnd. unfold spine.
      rewrite <- (Permutation_middle A B t). simpl. rewrite !NoDup_cons, !elem_of_cons. naive_solver. }
    destruct (insert_tower_ok (<[t_addr t := with_score m s]> h1) z1 (A ++ B) (rescore t s) (with_score m s))
      as (h' & z' & E & Hok' & Hh & Ho); try done.
    + apply (skl_frame h1); [done|]. intros b Hb. apply lookup_insert_ne. intros E. apply Hout. by rewrite E.
    + by apply sorted_at in Hso as [? _].
    + by apply distinct_without in Hdi as [? _].
    + unfold alloc_exact in *. by rewrite Ha1, Hal'.
    + pose proof (sk_bound _ _ _ Hsk) as Hb. rewrite zlen_app, zlen_cons in Hb. rewrite zlen_app. lia.
    + apply (sk_positive h z _ t Hsk). apply list_elem_of_lookup. exists (length A). by apply list_lookup_middle.
    + destruct (sk_heights _ _ _ Hsk t) as [_ Hle]; [apply list_elem_of_lookup; exists (length A); by apply list_lookup_middle|].
      pose proof (sk_level _ _ _ Hsk). simpl. lia.
    + by apply distinct_without in Hdi as [_ ?].
    + apply lookup_insert_eq.
    + by apply node_is_rescore.
    + exists h', z'. split; [exact E|]. split; [done|]. split; [congruence|].
      apply (only_on_trans _ _ (<[t_addr t := with_score m s]> h1)).
      * intros b Hb. rewrite lookup_insert_ne; [by apply Ho1|]. intros E'. apply Hb. by rewrite <- E'.
      * apply (only_on_mono (t_addr t :: addrs z1 (A ++ B))); [|done]. intros b [->|Hb]%elem_of_cons; [done|].
        unfold addrs in *. rewrite Hh1 in Hb. revert Hb. unfold spine. rewrite <- (Permutation_middle A B t). simpl.
        rewrite !elem_of_cons. tauto.
Qed.
End operations.
