(* ===== verification/SkiplistRange.v ===== *)
(** SkiplistRange: ranks, positions and ranges in the skip list of Skiplist.v,
    and the end of a list. *)

From Stdlib Require Import ZArith Lia Bool.
From S2P Require Import Prelude Bytes Skiplist SkiplistProofs SkiplistOps SkiplistDelete.
From stdpp Require Import base list numbers decidable gmap sorting.

Local Open Scope Z_scope.

(** The nodes that pass [f] are the first [k]. *)
Definition prefix_of (f : scored -> bool) (L : list tower) (k : nat) : Prop :=
  splits (fun e => f e = true) L k.

Section ranks.
Context (h : heap) (z : zskiplist) (L : list tower).
Context (Hsk : skl h z L).
Local Abbreviation S_ := (spine (zsl_header z) L).
Local Abbreviation n := (length L).

Local Lemma level_range : 1 <= zsl_level z <= 32.
Proof. apply (sk_level _ _ _ Hsk). Qed.

Local Lemma size_bound : Z.of_nat n < 2 ^ 63 - 1.
Proof. apply (sk_bound _ _ _ Hsk). Qed.

Local Lemma fuel_enough : (n < list_fuel z)%nat.
Proof. unfold list_fuel. rewrite (sk_length _ _ _ Hsk). unfold zlen. lia. Qed.

(** The last node of level 0 not after [k] is the one at [k]. *)
Lemma last_zero k u : (k <= n)%nat -> is_last S_ 0 k u -> u = k.
Proof.
  intros Hk Hl. apply (is_last_inj _ _ _ _ _ Hl). destruct (spine_get (zsl_header z) L k Hk) as (a & H & Ha).
  constructor; [lia| |intros r x; lia]. exists (a, H). split; [done|]. simpl.
  apply spine_cases in Ha as [(_ & _ & ->)|(q & t & _ & Ht & _ & ->)]; [lia|].
  apply (sk_positive _ _ _ _ Hsk). by eapply list_elem_of_lookup_2.
Qed.

(** ** By rank *)

Lemma up_to_rank p0 rank :
  0 <= rank < 2 ^ 64 -> (p0 <= n)%nat ->
  up_to z L (fun t s f => Ok (match f with Some _ => u64 (t + s) <=? rank | None => false end)) (Z.of_nat p0)
    (Nat.min n (p0 + Z.to_nat rank)).
Proof.
  intros Hr Hp0 p q Hp Hq. f_equal. pose proof size_bound.
  destruct (S_ !! q) as [x|] eqn:Hx; cbn [fmap option_fmap option_map].
  - pose proof (lookup_lt_Some _ _ _ Hx) as Hlt. rewrite spine_length in Hlt.
    rewrite wrapU_small by lia. case_bool; symmetry; [apply bool_decide_eq_true|apply bool_decide_eq_false]; lia.
  - apply lookup_ge_None in Hx. rewrite spine_length in Hx. symmetry. apply bool_decide_eq_false. lia.
Qed.

Definition addr_at (p : nat) : option addr := fst <$> S_ !! p.

Lemma addr_at_node p t : L !! p = Some t -> addr_at (S p) = Some (t_addr t).
Proof. intros Ht. unfold addr_at. by rewrite spine_node, Ht. Qed.

Lemma addr_at_end p : (n < p)%nat -> addr_at p = None.
Proof. intros Hp. unfold addr_at. rewrite lookup_ge_None_2; [done|]. rewrite spine_length. lia. Qed.

Lemma by_rank_loop_ok rank p0 : forall i p a H,
  0 <= rank < 2 ^ 64 -> (i <= Z.to_nat (zsl_level z))%nat -> (0 < i)%nat -> S_ !! p = Some (a, H) -> (i <= H)%nat ->
  (p0 <= p <= p0 + Z.to_nat rank)%nat ->
  by_rank_loop i (list_fuel z) h a (Z.of_nat p - Z.of_nat p0) rank = Ok (addr_at (p0 + Z.to_nat rank)).
Proof.
  intros i. induction i as [|i IH]; intros p a H Hr Hi Hpos Hp HH Hpr; [lia|].
  pose proof level_range. pose proof fuel_enough. pose proof (spine_lt _ _ _ _ _ Hp) as Hpn. cbn [by_rank_loop].
  destruct (walk_ok h z L Hsk _ (Z.of_nat p0) (Nat.min n (p0 + Z.to_nat rank)) i (list_fuel z) p a H
    (up_to_rank p0 rank Hr ltac:(lia))) as (u & a' & H' & Hu & Ha' & Hpu & ->); try done; try lia.
  runr. pose proof (ls_le _ _ _ _ Hu) as Hle. destruct (Z.eqb_spec (Z.of_nat u - Z.of_nat p0) rank) as [E|E].
  - replace (p0 + Z.to_nat rank)%nat with u by lia. unfold addr_at. by rewrite Ha'.
  - destruct i as [|i].
    + apply last_zero in Hu as ->; [|lia]. cbn [by_rank_loop]. rewrite addr_at_end by lia. done.
    + destruct (ls_tall _ _ _ _ Hu) as (x & Hx & Ht). rewrite Ha' in Hx. simplify_eq/=.
      apply (IH u a' H'); try done; lia.
Qed.

Lemma by_rank_from_ok rank p0 a H :
  0 <= rank < 2 ^ 64 -> S_ !! p0 = Some (a, H) -> (Z.to_nat (zsl_level z) <= H)%nat ->
  zslGetElementByRankFromNode h z a (zsl_level z - 1) rank = Ok (addr_at (p0 + Z.to_nat rank)).
Proof.
  intros Hr Hp HH. pose proof level_range. unfold zslGetElementByRankFromNode.
  replace (zsl_level z - 1 + 1) with (zsl_level z) by lia. rewrite <- (Z.sub_diag (Z.of_nat p0)).
  apply (by_rank_loop_ok rank p0 _ p0 a H); try done; lia.
Qed.

(** The first node is at rank 1; rank 0 is the header. *)
Lemma by_rank_ok rank :
  0 <= rank < 2 ^ 64 -> zslGetElementByRank h z rank = Ok (addr_at (Z.to_nat rank)).
Proof.
  intros Hr. pose proof level_range. unfold zslGetElementByRank. by rewrite (by_rank_from_ok rank 0 (zsl_header z) 32) by (done || lia).
Qed.

(** ** The rank of a node *)

Lemma distance_ok fuel : forall p d,
  (n - p <= fuel)%nat -> 0 <= d -> d + Z.of_nat (n - p) < 2 ^ 64 ->
  (forall t, L !! p = Some t ->
    distance_loop (S fuel) h (Some (t_addr t)) d = Ok (d + Z.of_nat (n - S p))).
Proof.
  induction fuel as [|fuel IH]; intros p d Hf Hd Hb t Ht; pose proof (lookup_lt_Some _ _ _ Ht) as Hlt; [lia|].
  destruct (sk_nodes _ _ _ Hsk p t Ht) as (m & Hm & Hmi & _). remember (S fuel) as f. cbn [distance_loop].
  unfold get_node. rewrite Hm. runr. rewrite (ni_levels _ _ Hmi).
  destruct (sk_heights _ _ _ Hsk t (list_elem_of_lookup_2 _ _ _ Ht)) as [Hpos Hle].
  replace (Z.of_nat (t_height t) - 1) with (Z.of_nat (t_height t - 1)) by lia.
  destruct (link_at h z L Hsk (S p) (t_addr t) (t_height t) (t_height t - 1)) as (q & Hq & Hfw & Hsp);
    [by rewrite spine_node, Ht|lia|lia|].
  pose proof (nx_after _ _ _ _ Hq). pose proof (nx_end _ _ _ _ Hq) as He. rewrite spine_length in He.
  rewrite Hsp, Hfw. runr. rewrite wrapU_small by lia. destruct q as [|q]; [lia|]. rewrite spine_node.
  destruct (L !! q) as [s|] eqn:Hs; cbn [fmap option_fmap option_map fst]; subst f.
  - pose proof (lookup_lt_Some _ _ _ Hs). rewrite (IH q) by (done || lia). f_equal. lia.
  - apply lookup_ge_None in Hs. cbn [distance_loop]. f_equal. lia.
Qed.

Lemma rank_by_node_ok p t : L !! p = Some t -> zslGetRankByNode h z (t_addr t) = Ok (Z.of_nat p + 1).
Proof.
  intros Ht. pose proof size_bound. pose proof (lookup_lt_Some _ _ _ Ht). unfold zslGetRankByNode, list_fuel.
  rewrite (sk_length _ _ _ Hsk). unfold zlen. rewrite Nat2Z.id. rewrite (distance_ok n p 0) by (done || lia). runr.
  rewrite wrapU_small by lia. f_equal. lia.
Qed.

(** ** The rank of a key *)

Lemma up_to_upto score ele k :
  isnan score = false -> splits (fun e => ~ elt (score, ele) e) L k ->
  up_to z L (fun _ _ f => let* c := zslCompareWithNode h score ele f in Ok (c >=? 0)) 0 k.
Proof.
  intros Hs Hsp. assert (forall p t, L !! p = Some t ->
    (let* c := zslCompareWithNode h score ele (Some (t_addr t)) in Ok (c >=? 0)) = Ok (sign (ecmp (score, ele) (t_key t)) >=? 0)) as Hc.
  { intros p t Ht. destruct (sk_nodes _ _ _ Hsk p t Ht) as (m & Hm & Hmi & _). by rewrite (node_compare_ok _ _ _ _ _ Hm Hmi Hs). }
  apply (up_to_test z L (fun _ _ => Ok true) _ _ _ _ Hsp).
  - done.
  - intros p t r s Ht. rewrite (Hc p t Ht). unfold elt. by destruct (ecmp (score, ele) (t_key t)).
  - intros p t r s Ht. eexists. by apply (Hc p).
Qed.

(** Position [k] if its node is the key. *)
Definition rank_at (key : scored) (k : nat) : Z :=
  match L !! (k - 1)%nat with
  | Some t => match k, ecmp key (t_key t) with S _, Eq => Z.of_nat k | _, _ => 0 end
  | None => 0
  end.

Lemma rank_loop_ok score ele k : isnan score = false -> sorted (keys L) -> splits (fun e => ~ elt (score, ele) e) L k ->
  forall i p a H, (i <= Z.to_nat (zsl_level z))%nat -> (0 < i)%nat -> S_ !! p = Some (a, H) -> (i <= H)%nat -> (p <= k)%nat ->
  rank_loop i (list_fuel z) h z score ele a (Z.of_nat p) = Ok (rank_at (score, ele) k).
Proof.
  intros Hs Hso Hsp i. pose proof (proj1 Hsp) as Hk. induction i as [|i IH]; intros p a H Hi Hpos Hp HH Hpk; [lia|].
  pose proof level_range. pose proof fuel_enough. cbn [rank_loop].
  destruct (walk_ok h z L Hsk _ 0 k i (list_fuel z) p a H (up_to_upto score ele k Hs Hsp)) as (u & a' & H' & Hu & Ha' & Hpu & E); try done; try lia.
  rewrite !Z.sub_0_r in E. rewrite E. runr. pose proof (ls_le _ _ _ _ Hu) as Hle.
  (* the test at the end of the level *)
  assert (exists b, (if decide (a' = zsl_header z) then Ok false
    else let* c := zslCompareWithNode h score ele (Some a') in Ok (c =? 0)) = Ok b /\
    if (b : bool) then rank_at (score, ele) k = Z.of_nat u else u = k -> rank_at (score, ele) k = 0) as (b & -> & Hb).
  { pose proof Ha' as Hc. apply spine_cases in Hc as [(-> & -> & _)|(q & t & -> & Ht & -> & _)].
    - rewrite decide_True by done. exists false. split; [done|]. intros <-. unfold rank_at. by destruct (L !! (0 - 1)%nat).
    - rewrite decide_False by by apply (header_not_node _ _ _ _ (sk_nodup _ _ _ Hsk) Ht).
      destruct (sk_nodes _ _ _ Hsk q t Ht) as (m & Hm & Hmi & _). rewrite (node_compare_ok _ _ _ _ _ Hm Hmi Hs). runr.
      eexists. split; [done|]. destruct (ecmp (score, ele) (t_key t)) eqn:Ec; cbn [sign Z.eqb].
      + (* no other node compares equal *)
        assert (S q = k) as <-.
        { destruct (Nat.eq_dec (S q) k) as [|Hne]; [done|]. destruct (lookup_lt_is_Some_2 L (S q) ltac:(lia)) as [s Hs'].
          exfalso. apply (proj2 (proj2 Hsp _ _ Hs')); [lia|].
          assert (elt (t_key t) (t_key s)) as Hlt.
          { apply (sorted_lookup (keys L) q (S q)); [done| | |lia]; unfold keys.
            - change (map t_key L) with (t_key <$> L). by rewrite list_lookup_fmap, Ht.
            - change (map t_key L) with (t_key <$> L). by rewrite list_lookup_fmap, Hs'. }
          unfold elt, ecmp in *. unfold then_cmp in *. destruct (fcmp (score, ele).1 (t_key t).1) eqn:E1; try done.
          apply lexcmp_eq in Ec. rewrite (fcmp_eq_l _ _ _ E1), Ec. done. }
        unfold rank_at. replace (S q - 1)%nat with q by lia. by rewrite Ht, Ec.
      + intros <-. unfold rank_at. replace (S q - 1)%nat with q by lia. by rewrite Ht, Ec.
      + intros <-. unfold rank_at. replace (S q - 1)%nat with q by lia. by rewrite Ht, Ec. }
  runr. destruct b; [by rewrite Hb|]. destruct i as [|i].
  - apply last_zero in Hu as ->; [|done]. cbn [rank_loop]. by rewrite Hb.
  - destruct (ls_tall _ _ _ _ Hu) as (x & Hx & Ht). rewrite Ha' in Hx. simplify_eq/=. apply (IH u a' H'); try done; lia.
Qed.
End ranks.

(** * Ranges *)

(** A test of nodes that reads the key of a node only. *)
Definition tests_key (test : heap -> addr -> result bool) (f : scored -> bool) (h : heap) (L : list tower) : Prop :=
  forall p t, L !! p = Some t -> test h (t_addr t) = Ok (f (t_key t)).

Section ranges.
Context (h : heap) (z : zskiplist) (L : list tower).
Context (Hsk : skl h z L).
Context (gte lte : heap -> addr -> result bool) (g m : scored -> bool).
Context (Hgte : tests_key gte g h L) (Hlte : tests_key lte m h L).
Context (lo hi : nat).
Context (Hlo : prefix_of (fun e => negb (g e)) L lo) (Hhi : prefix_of m L hi).
Local Abbreviation S_ := (spine (zsl_header z) L).
Local Abbreviation n := (length L).

Lemma up_to_forward test f k :
  tests_key test f h L -> prefix_of f L k -> up_to z L (cond_forward test h) 0 k.
Proof.
  intros Ht Hp. apply (up_to_test z L test (fun e => f e = true) _ _ _ Hp).
  - done.
  - intros p t r s Hl. cbn [cond_forward]. rewrite (Ht p t Hl). split; [by intros [= ->]|by intros ->].
  - intros p t r s Hl. eexists. by apply (Ht p).
Qed.

Lemma not_tests : tests_key (not_test gte) (fun e => negb (g e)) h L.
Proof. intros p t Hl. unfold not_test. by rewrite (Hgte p t Hl). Qed.

Lemma g_at p t : L !! p = Some t -> g (t_key t) = negb (bool_decide (p < lo)%nat).
Proof.
  intros Ht. destruct Hlo as [_ Hi]. specialize (Hi p t Ht). destruct (bool_decide_reflect (p < lo)%nat) as [Hlt|Hge].
  - apply Hi in Hlt. by destruct (g (t_key t)).
  - destruct (g (t_key t)); [done|]. exfalso. by apply Hge, Hi.
Qed.

Lemma m_at p t : L !! p = Some t -> m (t_key t) = bool_decide (p < hi)%nat.
Proof.
  intros Ht. destruct Hhi as [_ Hi]. specialize (Hi p t Ht). destruct (bool_decide_reflect (p < hi)%nat) as [Hlt|Hge].
  - by apply Hi.
  - destruct (m (t_key t)); [|done]. exfalso. by apply Hge, Hi.
Qed.

Lemma forward_steps_ok k : forall p a H, S_ !! p = Some (a, H) -> (p + k <= n)%nat ->
  forward_steps k h (Some a) = Ok (addr_at z L (p + k)).
Proof.
  induction k as [|k IH]; intros p a H Hp Hk.
  - cbn [forward_steps]. rewrite Nat.add_0_r. unfold addr_at. by rewrite Hp.
  - cbn [forward_steps]. rewrite (forward_zero h z L p a H Hsk Hp). runr.
    destruct (lookup_lt_is_Some_2 L p ltac:(lia)) as [t Ht]. rewrite Ht. cbn [fmap option_fmap option_map].
    rewrite (IH (S p) (t_addr t) (t_height t)); [|by rewrite spine_node, Ht|lia]. do 2 f_equal. lia.
Qed.

Lemma backward_steps_ok k : forall p a H, S_ !! p = Some (a, H) -> (k < p)%nat ->
  backward_steps k h (Some a) = Ok (addr_at z L (p - k)).
Proof.
  induction k as [|k IH]; intros p a H Hp Hk.
  - cbn [backward_steps]. rewrite Nat.sub_0_r. unfold addr_at. by rewrite Hp.
  - cbn [backward_steps]. apply spine_cases in Hp as [(-> & _)|(q & t & -> & Ht & -> & _)]; [lia|].
    destruct (sk_nodes _ _ _ Hsk q t Ht) as (nd & Hn & _ & Hb). unfold get_node. rewrite Hn. runr. rewrite Hb.
    destruct q as [|q]; [lia|]. cbn [back_of]. pose proof (lookup_lt_Some _ _ _ Ht).
    destruct (lookup_lt_is_Some_2 L q ltac:(lia)) as [s Hs]. rewrite Hs. cbn [fmap option_fmap option_map].
    rewrite (IH (S q) (t_addr s) (t_height s)); [|by rewrite spine_node, Hs|lia]. do 2 f_equal.
Qed.

(** The index, from 0, of the answer. *)
Definition nth_index (k : Z) : option nat :=
  if k >=? 0 then let i := (lo + Z.to_nat k)%nat in if decide (i < hi)%nat then Some i else None
  else if decide (Z.of_nat lo <= Z.of_nat hi + k) then Some (Z.to_nat (Z.of_nat hi + k)) else None.

Definition nth_answer (k : Z) : option (addr * Z) :=
  match nth_index k with
  | Some i => match L !! i with Some t => Some (t_addr t, Z.of_nat i + 1) | None => None end
  | None => None
  end.

(** Down all the levels below the top, from where the walk along the top ended. *)
Lemma descend_from_top k u a H cond :
  up_to z L cond 0 k -> (k <= n)%nat -> S_ !! u = Some (a, H) -> (u <= k)%nat ->
  (Z.to_nat (zsl_level z) - 1 < H)%nat -> forall c, (c <= Z.to_nat (zsl_level z))%nat ->
  (c = 0%nat -> u = k) ->
  exists a' H' us, descend c (list_fuel z) cond h a (Z.of_nat u) [] = Ok (a', Z.of_nat k, us) /\ S_ !! k = Some (a', H').
Proof.
  intros Hup Hk Hu Huk HH c Hc Hz. pose proof (fuel_enough h z L Hsk) as Hfuel. pose proof (level_range h z L Hsk) as Hlev.
  destruct (descend_ok h z L Hsk cond 0 k (list_fuel z) c u a H []) as (us & a' & H' & v & _ & Hv & Hle & Hk0 & Hd & Hz0 & _);
    try done; try lia.
  rewrite !Z.sub_0_r, app_nil_r in Hd. assert (v = k) as ->.
  { destruct (Nat.eq_dec c 0%nat) as [E|Hne]; [rewrite Hz0 by done; by apply Hz|by apply Hk0]. }
  by exists a', H', us.
Qed.

Lemma checked_ok test f p (r : Z) :
  tests_key test f h L -> (0 < p)%nat ->
  checked test h (addr_at z L p) r =
  Ok match L !! (p - 1)%nat with Some t => if f (t_key t) then Some (t_addr t, r) else None | None => None end.
Proof.
  intros Ht Hp. destruct p as [|p]; [lia|]. replace (S p - 1)%nat with p by lia. unfold addr_at. rewrite spine_node.
  destruct (L !! p) as [t|] eqn:E; [|done]. cbn [fmap option_fmap option_map fst checked]. by rewrite (Ht p t E).
Qed.

(** The walk along the top level. *)
Lemma top_walk :
  exists u a H, walk (list_fuel z) (cond_forward (not_test gte) h) h (zsl_level z - 1) (zsl_header z) 0 = Ok (a, Z.of_nat u) /\
    S_ !! u = Some (a, H) /\ (u <= lo)%nat /\ (Z.to_nat (zsl_level z) - 1 < H)%nat /\ (zsl_level z = 1 -> u = lo).
Proof.
  pose proof (fuel_enough h z L Hsk) as Hfuel. pose proof (level_range h z L Hsk) as Hlev.
  destruct (walk_ok h z L Hsk (cond_forward (not_test gte) h) 0 lo (Z.to_nat (zsl_level z) - 1) (list_fuel z) 0 (zsl_header z) 32)
    as (u & a & H & Hu & Ha & _ & Hw); try done; try lia.
  { apply (up_to_forward _ (fun e => negb (g e))); [apply not_tests|done]. }
  { apply Hlo. }
  { pose proof (proj1 Hlo). lia. }
  replace (Z.of_nat (Z.to_nat (zsl_level z) - 1)) with (zsl_level z - 1) in Hw by lia. rewrite !Z.sub_0_r in Hw.
  exists u, a, H. split; [exact Hw|]. split; [done|]. split; [apply Hu|]. split.
  - destruct (ls_tall _ _ _ _ Hu) as (x & Hx & Ht). rewrite Ha in Hx. by simplify_eq.
  - intros E. apply (last_zero h z L Hsk); [apply Hlo|]. by replace (Z.to_nat (zsl_level z) - 1)%nat with 0%nat in Hu by lia.
Qed.

Lemma nth_forward k :
  (lo <= hi)%nat -> 0 <= k -> k + Z.of_nat n < 2 ^ 63 -> nth_in_range gte lte h z k = Ok (nth_answer k).
Proof.
  intros Hlh Hk Hb. pose proof (fuel_enough h z L Hsk) as Hfuel. pose proof (level_range h z L Hsk) as Hlev.
  pose proof (size_bound h z L Hsk) as Hn. pose proof (proj1 Hlo) as Hlon. pose proof (proj1 Hhi) as Hhin.
  destruct top_walk as (u & a & H & Hw & Ha & Hul & HH & Hu1). unfold nth_in_range. rewrite Hw. runr.
  rewrite Z.geb_leb, (proj2 (Z.leb_le 0 k)) by done.
  destruct (descend_from_top lo u a H (cond_forward (not_test gte) h)) with (c := Z.to_nat (zsl_level z - 1)) as (a' & H' & us & -> & Ha');
    try done; try lia.
  { apply (up_to_forward _ (fun e => negb (g e))); [apply not_tests|done]. }
  runr. rewrite chk_i64_ok by lia. runr. rewrite wrapU_small by lia. rewrite (sk_length _ _ _ Hsk). unfold zlen.
  rewrite Z.geb_leb. unfold nth_answer, nth_index. rewrite Z.geb_leb, (proj2 (Z.leb_le 0 k)) by done.
  destruct (Z.leb_spec (Z.of_nat n) (Z.of_nat lo + k)) as [Hge|Hlt]; [by rewrite decide_False by lia|].
  rewrite chk_i64_ok by lia. runr.
  assert ((if k <? ZSKIPLIST_MAX_SEARCH then forward_steps (Z.to_nat (k + 1)) h (Some a')
    else zslGetElementByRankFromNode h z a (zsl_level z - 1) (u64 (Z.of_nat lo + 1 + k - Z.of_nat u))) =
    Ok (addr_at z L (S (lo + Z.to_nat k)))) as ->.
  { destruct (k <? ZSKIPLIST_MAX_SEARCH).
    - rewrite (forward_steps_ok (Z.to_nat (k + 1)) lo a' H') by (done || lia). do 2 f_equal. lia.
    - rewrite wrapU_small by lia. rewrite (by_rank_from_ok h z L Hsk _ u a H) by (done || lia). do 2 f_equal. lia. }
  runr. rewrite (checked_ok lte m) by (done || lia). replace (S (lo + Z.to_nat k) - 1)%nat with (lo + Z.to_nat k)%nat by lia.
  f_equal. destruct (lookup_lt_is_Some_2 L (lo + Z.to_nat k) ltac:(lia)) as [t Ht]. rewrite Ht, (m_at _ _ Ht).
  rewrite wrapU_small by lia. destruct (decide (lo + Z.to_nat k < hi)%nat).
  - rewrite bool_decide_eq_true_2, Ht by done. do 2 f_equal. lia.
  - by rewrite bool_decide_eq_false_2.
Qed.

Lemma nth_backward k :
  (lo <= hi)%nat -> - 2 ^ 63 < k < 0 -> nth_in_range gte lte h z k = Ok (nth_answer k).
Proof.
  intros Hlh Hk. pose proof (fuel_enough h z L Hsk) as Hfuel. pose proof (level_range h z L Hsk) as Hlev.
  pose proof (size_bound h z L Hsk) as Hn. pose proof (proj1 Hlo) as Hlon. pose proof (proj1 Hhi) as Hhin.
  destruct top_walk as (u & a & H & Hw & Ha & Hul & HH & _). unfold nth_in_range. rewrite Hw. runr.
  rewrite Z.geb_leb, (proj2 (Z.leb_gt 0 k)) by lia.
  destruct (descend_from_top hi u a H (cond_forward lte h)) with (c := Z.to_nat (zsl_level z)) as (a' & H' & us & -> & Ha');
    try done; try lia.
  { by apply (up_to_forward _ m). }
  runr. rewrite chk_i64_ok by lia. runr. unfold nth_answer, nth_index. rewrite Z.geb_leb, (proj2 (Z.leb_gt 0 k)) by lia.
  destruct (Z.ltb_spec (Z.of_nat hi) (- k)) as [Hlt|Hge]; [by rewrite decide_False by lia|].
  set (p := Z.to_nat (Z.of_nat hi + 1 + k)). assert (0 < p <= hi)%nat as Hp by lia.
  assert (exists x, (if k + 1 >? - ZSKIPLIST_MAX_SEARCH then backward_steps (Z.to_nat (- k - 1)) h (Some a')
    else zslGetElementByRankFromNode h z a (zsl_level z - 1) (u64 (Z.of_nat hi + 1 + k - Z.of_nat u))) = Ok x /\
    (x = addr_at z L p \/ ((p < u)%nat /\ x = None))) as (x & -> & Hx).
  { destruct (k + 1 >? - ZSKIPLIST_MAX_SEARCH).
    - exists (addr_at z L p). split; [|by left]. rewrite (backward_steps_ok (Z.to_nat (- k - 1)) hi a' H') by (done || lia). do 2 f_equal. lia.
    - destruct (Nat.le_gt_cases u p).
      + exists (addr_at z L p). split; [|by left]. rewrite wrapU_small by lia.
        rewrite (by_rank_from_ok h z L Hsk _ u a H) by (done || lia). do 2 f_equal. lia.
      + exists None. split; [|by right]. pose proof (wrapU_range 64 (Z.of_nat hi + 1 + k - Z.of_nat u)) as Hwr.
        assert (u64 (Z.of_nat hi + 1 + k - Z.of_nat u) = 2 ^ 64 + (Z.of_nat hi + 1 + k - Z.of_nat u)) as Ew.
        { unfold wrapU. rewrite <- (Z_mod_plus_full _ 1), Z.mod_small; lia. }
        rewrite (by_rank_from_ok h z L Hsk _ u a H) by (done || lia). f_equal. apply addr_at_end. rewrite Ew. lia. }
  runr. destruct (lookup_lt_is_Some_2 L (p - 1) ltac:(lia)) as [t Ht].
  assert (Z.to_nat (Z.of_nat hi + k) = (p - 1)%nat) as Ep by lia. rewrite Ep.
  destruct Hx as [-> |[Hpu ->]].
  - rewrite (checked_ok gte g) by (done || lia). rewrite Ht, (g_at _ _ Ht), wrapU_small by lia.
    destruct (decide (Z.of_nat lo <= Z.of_nat hi + k)).
    + rewrite bool_decide_eq_false_2, Ht by lia. cbn [negb]. do 3 f_equal. lia.
    + by rewrite bool_decide_eq_true_2 by lia.
  - by rewrite decide_False by lia.
Qed.
End ranges.

(** ** Intervals of an order *)

Class OrderCmp {A} (cmp : A -> A -> comparison) := {
  oc_antisym : forall x y, cmp y x = CompOpp (cmp x y);
  oc_eq_l : forall x y z, cmp x y = Eq -> cmp x z = cmp y z;
  oc_lt_trans : forall x y z, cmp x y = Lt -> cmp y z = Lt -> cmp x z = Lt;
}.

#[global] Instance fcmp_order : OrderCmp fcmp.
Proof. constructor; [apply fcmp_antisym|apply fcmp_eq_l|apply fcmp_lt_trans]. Qed.

(** The bounds of a lexicographic range. *)
Definition lcmp (a b : lexsds) : comparison :=
  match a, b with
  | MinString, MinString | MaxString, MaxString => Eq
  | MinString, _ | _, MaxString => Lt
  | MaxString, _ | _, MinString => Gt
  | Sds a, Sds b => lexcmp a b
  end.

#[global] Instance lcmp_order : OrderCmp lcmp.
Proof.
  constructor.
  - intros [| |x] [| |y]; try done. apply lexcmp_antisym.
  - intros [| |x] [| |y] z; try done. simpl. by intros ->%lexcmp_eq.
  - intros [| |x] [| |y] [| |z]; try done. apply lexcmp_lt_trans.
Qed.

Lemma sdscmplex_ok a b : sdscmplex a b = Ok (sign (lcmp a b)).
Proof. destruct a, b; try done. apply sdscmp_ok. Qed.

Section interval.
Context {A} (cmp : A -> A -> comparison) {oc : OrderCmp cmp}.
Context (lo hi : A) (loex hiex : bool).

Definition above (v : A) : bool := match cmp lo v with Lt => true | Eq => negb loex | Gt => false end.
Definition below (v : A) : bool := match cmp v hi with Lt => true | Eq => negb hiex | Gt => false end.
Definition void : bool := match cmp lo hi with Gt => true | Eq => loex || hiex | Lt => false end.

Lemma oc_eq_r x y z : cmp y z = Eq -> cmp x y = cmp x z.
Proof.
  intros E. rewrite (oc_antisym (cmp := cmp) y x), (oc_antisym (cmp := cmp) z x). f_equal. by apply oc_eq_l.
Qed.

Lemma oc_gt_lt x y : cmp x y = Gt <-> cmp y x = Lt.
Proof. rewrite (oc_antisym (cmp := cmp) x y). by destruct (cmp x y). Qed.

Lemma above_mono a b : cmp a b <> Gt -> above a = true -> above b = true.
Proof.
  unfold above. intros Hab. destruct (cmp a b) eqn:E; [|clear Hab|done].
  - by rewrite (oc_eq_r lo a b E).
  - destruct (cmp lo a) eqn:Ea; [|by rewrite (oc_lt_trans _ _ _ Ea E)|done]. by rewrite (oc_eq_l _ _ b Ea), E.
Qed.

Lemma below_mono a b : cmp a b <> Gt -> below b = true -> below a = true.
Proof.
  unfold below. intros Hab. destruct (cmp a b) eqn:E; [|clear Hab|done].
  - by rewrite (oc_eq_l a b hi E).
  - destruct (cmp b hi) eqn:Eb; [|by rewrite (oc_lt_trans _ _ _ E Eb)|done]. by rewrite <- (oc_eq_r a _ _ Eb), E.
Qed.

Lemma void_empty v : void = true -> above v = true -> below v = false.
Proof.
  unfold void, above, below. destruct (cmp lo v) eqn:E; [| |done].
  - rewrite <- (oc_eq_l _ _ hi E). destruct (cmp lo hi); try done. destruct loex, hiex; done.
  - intros Hv _. destruct (cmp v hi) eqn:E'; [| |done].
    + rewrite <- (oc_eq_r lo _ _ E'), E in Hv. done.
    + by rewrite (oc_lt_trans _ _ _ E E') in Hv.
Qed.

Lemma not_above_below v : void = false -> above v = false -> below v = true.
Proof.
  unfold void, above, below. destruct (cmp lo v) eqn:E; [| done|].
  - rewrite <- (oc_eq_l _ _ hi E). destruct (cmp lo hi); try done. destruct loex, hiex; done.
  - apply oc_gt_lt in E. intros Hv _. destruct (cmp lo hi) eqn:E'; [| |done].
    + by rewrite <- (oc_eq_r v _ _ E'), E.
    + by rewrite (oc_lt_trans _ _ _ E E').
Qed.
End interval.

(** ** What a range selects *)

(** The elements with their ranks, from 1. *)
Definition ranked (L : list tower) : list (tower * Z) := imap (fun i t => (t, Z.of_nat i + 1)) L.

Definition selected (P : scored -> bool) (L : list tower) : list (tower * Z) :=
  filter (fun x => P (t_key x.1) = true) (ranked L).

(** The [k]-th, or from the end the [-k]-th. *)
Definition pick {A} (l : list A) (k : Z) : option A :=
  if k >=? 0 then l !! Z.to_nat k else if zlen l + k >=? 0 then l !! Z.to_nat (zlen l + k) else None.

Lemma pick_nil {A} k : pick (A := A) [] k = None.
Proof. unfold pick. by repeat case_match. Qed.

Lemma filter_none {A} (P : A -> Prop) `{forall x, Decision (P x)} (l : list A) : (forall x, x ∈ l -> ~ P x) -> filter P l = [].
Proof.
  induction l as [|x l IH]; intros Hl; [done|]. rewrite filter_cons_False; [|apply Hl; by left]. apply IH. intros y Hy. apply Hl. by right.
Qed.

Lemma filter_all {A} (P : A -> Prop) `{forall x, Decision (P x)} (l : list A) : (forall x, x ∈ l -> P x) -> filter P l = l.
Proof.
  induction l as [|x l IH]; intros Hl; [done|]. rewrite filter_cons_True; [|apply Hl; by left]. rewrite IH; [done|]. intros y Hy. apply Hl. by right.
Qed.

Lemma filter_window {A} (P : A -> Prop) `{forall x, Decision (P x)} (l : list A) lo hi :
  (lo <= hi)%nat -> (forall p x, l !! p = Some x -> P x <-> (lo <= p < hi)%nat) ->
  filter P l = take (hi - lo) (drop lo l).
Proof.
  intros Hlh HP. rewrite <- (take_drop lo l) at 1. rewrite filter_app.
  rewrite <- (take_drop (hi - lo) (drop lo l)) at 1. rewrite filter_app, drop_drop.
  assert (filter P (take lo l) = []) as ->.
  { apply filter_none. intros x (p & Hp)%list_elem_of_lookup. apply lookup_take_Some in Hp as [Hp Hlt]. rewrite (HP _ _ Hp). lia. }
  assert (filter P (drop (lo + (hi - lo)) l) = []) as ->.
  { apply filter_none. intros x (p & Hp)%list_elem_of_lookup. rewrite lookup_drop in Hp. rewrite (HP _ _ Hp). lia. }
  rewrite app_nil_l, app_nil_r. apply filter_all.
  intros x (p & Hp)%list_elem_of_lookup. apply lookup_take_Some in Hp as [Hp Hlt]. rewrite lookup_drop in Hp. rewrite (HP _ _ Hp). lia.
Qed.

(** A test that fails for good once it fails cuts a sorted list in two. *)
Lemma splits_down f L :
  sorted (keys L) -> (forall a b, a ∈ keys L -> b ∈ keys L -> elt a b -> f b = true -> f a = true) ->
  exists k, prefix_of f L k.
Proof.
  unfold prefix_of, keys. induction L as [|t L IH]; intros Hso Hdown.
  - exists 0%nat. split; [done|]. by intros p t Ht.
  - simpl in Hso. inversion Hso as [|? ? Hso' Hf]; subst. destruct (f (t_key t)) eqn:Et.
    + destruct IH as (k & Hk & Hsp); [done|by intros a b Ha Hb; apply Hdown; right|]. exists (S k). split; [simpl; lia|].
      intros [|p] s Hs; simplify_eq/=; [split; [lia|done]|]. rewrite (Hsp p s Hs). lia.
    + exists 0%nat. split; [lia|]. intros p s Hs. split; [|lia]. intros Hfs. exfalso. destruct p as [|p]; simplify_eq/=; [congruence|].
      assert (t_key s ∈ map t_key L) as Hin by (apply list_elem_of_fmap; exists s; split; [done|by eapply list_elem_of_lookup_2]).
      assert (f (t_key t) = true); [|congruence]. apply (Hdown _ (t_key s)); [by left|by right| |done].
      by apply (proj1 (list.Forall_forall _ _) Hf).
Qed.

Section selection.
Context (h : heap) (z : zskiplist) (L : list tower) (Hsk : skl h z L) (Hso : sorted (keys L)).
Context {A : Type} (cmp : A -> A -> comparison) {oc : OrderCmp cmp} (lo hi : A) (loex hiex : bool) (pr : scored -> A).
Context (Hpr : forall a b, a ∈ keys L -> b ∈ keys L -> elt a b -> cmp (pr a) (pr b) <> Gt).
Context (gte lte : heap -> addr -> result bool).
Context (Hgte : tests_key gte (fun e => above cmp lo loex (pr e)) h L).
Context (Hlte : tests_key lte (fun e => below cmp hi hiex (pr e)) h L).
Local Abbreviation g := (fun e => above cmp lo loex (pr e)).
Local Abbreviation m := (fun e => below cmp hi hiex (pr e)).
Local Abbreviation P := (fun e : scored => above cmp lo loex (pr e) && below cmp hi hiex (pr e)).

Lemma lookup_ranked p x : ranked L !! p = Some x -> exists t, L !! p = Some t /\ x = (t, Z.of_nat p + 1).
Proof. unfold ranked. rewrite list_lookup_imap. intros (t & Ht & E)%fmap_Some. by exists t. Qed.

Lemma key_elem p t : L !! p = Some t -> t_key t ∈ keys L.
Proof. intros Ht. apply list_elem_of_fmap. exists t. split; [done|]. by eapply list_elem_of_lookup_2. Qed.

(** Along the list the elements only go up. *)
Lemma key_le p q t s : L !! p = Some t -> L !! q = Some s -> (p <= q)%nat -> cmp (pr (t_key t)) (pr (t_key s)) <> Gt.
Proof.
  intros Ht Hs Hpq. destruct (decide (p = q)) as [->|Hne].
  - simplify_eq. intros E. pose proof (oc_antisym (cmp := cmp) (pr (t_key t)) (pr (t_key t))) as Ha. by rewrite E in Ha.
  - apply Hpr; [by eapply key_elem|by eapply key_elem|].
    apply (sorted_lookup (keys L) p q); [done| | |lia]; unfold keys; change (map t_key L) with (t_key <$> L);
      by rewrite list_lookup_fmap, ?Ht, ?Hs.
Qed.

Lemma selected_nil : (forall p t, L !! p = Some t -> P (t_key t) = false) -> selected P L = [].
Proof.
  intros HP. apply filter_none. intros x (p & Hp)%list_elem_of_lookup. apply lookup_ranked in Hp as (t & Ht & ->).
  cbn [fst]. by rewrite (HP p t Ht).
Qed.

Lemma selected_void : void cmp lo hi loex hiex = true -> selected P L = [].
Proof.
  intros Hv. apply selected_nil. intros p t Ht. apply andb_false_iff. destruct (above cmp lo loex (pr (t_key t))) eqn:E; [right|by left].
  by apply (void_empty cmp lo hi loex hiex).
Qed.

Lemma ends_ok : exists b, ends_in_range gte lte h z = Ok b /\ (b = false -> selected P L = []).
Proof.
  unfold ends_in_range. rewrite (sk_tail _ _ _ Hsk). destruct (last L) as [t|] eqn:El; cbn [fmap option_fmap option_map].
  2: { exists false. split; [done|]. intros _. apply last_None in El as ->. done. }
  pose proof El as Ht. rewrite last_lookup in Ht. rewrite (Hgte _ _ Ht). runr.
  destruct (above cmp lo loex (pr (t_key t))) eqn:Eg; cbn [negb].
  2: { exists false. split; [done|]. intros _. apply selected_nil. intros p s Hs. apply andb_false_iff. left.
       destruct (above cmp lo loex (pr (t_key s))) eqn:Es; [|done]. pose proof (lookup_lt_Some _ _ _ Hs).
       rewrite <- Eg. symmetry. apply (above_mono cmp lo loex (pr (t_key s))); [|done]. apply (key_le p (pred (length L))); [done|done|lia]. }
  rewrite (forward_zero h z L 0 _ 32%nat Hsk) by done. runr. destruct (L !! 0%nat) as [t0|] eqn:H0; cbn [fmap option_fmap option_map].
  2: { apply lookup_ge_None in H0. apply lookup_lt_Some in Ht. lia. }
  rewrite (Hlte 0%nat t0 H0). eexists. split; [done|].
  intros E. apply selected_nil. intros p s Hs. apply andb_false_iff. right.
  destruct (below cmp hi hiex (pr (t_key s))) eqn:Es; [|done]. rewrite <- E. symmetry.
  apply (below_mono cmp hi hiex _ (pr (t_key s))); [|done]. apply (key_le 0 p); [done|done|lia].
Qed.

(** Where the range starts and where it ends. *)
Lemma cuts : exists a b, prefix_of (fun e => negb (g e)) L a /\ prefix_of m L b.
Proof.
  destruct (splits_down (fun e => negb (g e)) L Hso) as (a & Ha).
  { intros x y Hx Hy Hxy. rewrite !negb_true_iff. intros Ey. destruct (above cmp lo loex (pr x)) eqn:Ex; [|done].
    rewrite <- Ey. symmetry. apply (above_mono cmp lo loex (pr x)); [by apply Hpr|done]. }
  destruct (splits_down m L Hso) as (b & Hb).
  { intros x y Hx Hy Hxy. apply below_mono; [done|by apply Hpr]. }
  by exists a, b.
Qed.

Lemma window : void cmp lo hi loex hiex = false ->
  exists a b, prefix_of (fun e => negb (g e)) L a /\ prefix_of m L b /\ (a <= b)%nat /\
    selected P L = take (b - a) (drop a (ranked L)).
Proof.
  intros Hv. destruct cuts as (a & b & Ha & Hb). exists a, b. split; [done|]. split; [done|].
  destruct Ha as [Ha1 Ha2], Hb as [Hb1 Hb2]. assert (a <= b)%nat as Hab.
  { destruct a as [|a]; [lia|]. destruct (lookup_lt_is_Some_2 L a) as [t Ht]; [lia|]. apply (Hb2 a t Ht).
    apply (not_above_below cmp lo hi loex hiex); [done|]. apply negb_true_iff, (Ha2 a t Ht). lia. }
  split; [done|]. apply filter_window; [done|]. intros p x Hx. apply lookup_ranked in Hx as (t & Ht & ->). cbn [fst].
  specialize (Ha2 p t Ht). specialize (Hb2 p t Ht). rewrite andb_true_iff, Hb2.
  destruct (above cmp lo loex (pr (t_key t))); simpl in Ha2; intuition lia.
Qed.

Definition found_at (r : option (tower * Z)) : option (addr * Z) := (fun x => (t_addr x.1, x.2)) <$> r.

Lemma nth_answer_pick a b k :
  (a <= b <= length L)%nat ->
  nth_answer L a b k = found_at (pick (take (b - a) (drop a (ranked L))) k).
Proof.
  intros Hab. unfold nth_answer, nth_index, pick, zlen. assert (length (ranked L) = length L) as El by apply length_imap.
  rewrite !length_take, !length_drop, !El, !Nat.min_l by lia. unfold found_at.
  assert (forall i, (take (b - a) (drop a (ranked L)) !! i) =
    if decide (a + i < b)%nat then (fun t => (t, Z.of_nat (a + i) + 1)) <$> L !! (a + i)%nat else None) as Hat.
  { intros i. destruct (decide (a + i < b)%nat).
    - rewrite lookup_take_lt, lookup_drop by lia. apply list_lookup_imap.
    - apply lookup_take_ge. lia. }
  rewrite !Z.geb_leb. destruct (Z.leb_spec 0 k).
  - rewrite Hat. destruct (decide (a + Z.to_nat k < b)%nat); [|done]. by destruct (L !! (a + Z.to_nat k)%nat).
  - destruct (Z.leb_spec 0 (Z.of_nat (b - a) + k)).
    + rewrite decide_True by lia. rewrite Hat, decide_True by lia.
      replace (a + Z.to_nat (Z.of_nat (b - a) + k))%nat with (Z.to_nat (Z.of_nat b + k)) by lia.
      by destruct (L !! Z.to_nat (Z.of_nat b + k)).
    + by rewrite decide_False by lia.
Qed.

Lemma nth_selected k :
  void cmp lo hi loex hiex = false -> - 2 ^ 63 < k -> k + zlen L < 2 ^ 63 ->
  nth_in_range gte lte h z k = Ok (found_at (pick (selected P L) k)).
Proof.
  intros Hv Hk1 Hk2. destruct (window Hv) as (a & b & Ha & Hb & Hab & ->).
  rewrite <- nth_answer_pick by (split; [done|apply Hb]). unfold zlen in Hk2. destruct (Z.le_gt_cases 0 k).
  - by apply (nth_forward h z L Hsk gte lte g m Hgte Hlte a b Ha Hb).
  - by apply (nth_backward h z L Hsk gte lte g m Hgte Hlte a b Ha Hb).
Qed.

Lemma nth_of_range k :
  - 2 ^ 63 < k -> k + zlen L < 2 ^ 63 ->
  (let* within := (if void cmp lo hi loex hiex then Ok false else ends_in_range gte lte h z) in
   if (within : bool) then nth_in_range gte lte h z k else Ok None) = Ok (found_at (pick (selected P L) k)).
Proof.
  intros Hk1 Hk2. destruct (void cmp lo hi loex hiex) eqn:Hv.
  - rewrite selected_void by done. runr. by rewrite pick_nil.
  - destruct ends_ok as ([] & -> & Hb); runr; [by apply nth_selected|]. rewrite Hb by done. by rewrite pick_nil.
Qed.
End selection.

(** ** The two kinds of ranges *)

Definition score_selects (range : zrangespec) (e : scored) : bool :=
  above fcmp (zr_min range) (minex range) e.1 && below fcmp (zr_max range) (maxex range) e.1.

Definition lex_selects (range : zlexrangespec) (e : scored) : bool :=
  above lcmp (lmin range) (lminex range) (Sds e.2) && below lcmp (lmax range) (lmaxex range) (Sds e.2).

Lemma node_score h z L p t : skl h z L -> L !! p = Some t ->
  exists n, h !! t_addr t = Some n /\ n_score n = (t_key t).1 /\ isnan (t_key t).1 = false.
Proof. intros Hsk Ht. destruct (sk_nodes _ _ _ Hsk p t Ht) as (n & Hn & [] & _). by exists n. Qed.

Lemma node_ele h z L p t : skl h z L -> L !! p = Some t -> zslGetNodeElement h (t_addr t) = Ok (t_key t).2.
Proof.
  intros Hsk Ht. destruct (sk_nodes _ _ _ Hsk p t Ht) as (n & Hn & Hni & _). unfold zslGetNodeElement, get_node. rewrite Hn. runr.
  rewrite (proj2 (Z.eqb_neq _ _)) by apply (ni_offset _ _ Hni). cbn [negb]. runr. f_equal. apply (ni_ele _ _ Hni).
Qed.

Lemma score_tests h z L range :
  skl h z L -> isnan (zr_min range) = false -> isnan (zr_max range) = false ->
  tests_key (score_gte range) (fun e => above fcmp (zr_min range) (minex range) e.1) h L /\
  tests_key (score_lte range) (fun e => below fcmp (zr_max range) (maxex range) e.1) h L.
Proof.
  intros Hsk Hmin Hmax. split; intros p t Ht; destruct (node_score _ _ _ _ _ Hsk Ht) as (n & Hn & Es & Hnan);
    unfold score_gte, score_lte, get_node; rewrite Hn; runr; f_equal; rewrite Es; unfold zslValueGteMin, zslValueLteMax, above, below.
  - rewrite SFltb_fcmp, SFleb_fcmp by done. by destruct (minex range), (fcmp _ _).
  - rewrite SFltb_fcmp, SFleb_fcmp by done. by destruct (maxex range), (fcmp _ _).
Qed.

Lemma lex_tests h z L range :
  skl h z L ->
  tests_key (lex_gte range) (fun e => above lcmp (lmin range) (lminex range) (Sds e.2)) h L /\
  tests_key (lex_lte range) (fun e => below lcmp (lmax range) (lmaxex range) (Sds e.2)) h L.
Proof.
  intros Hsk. split; intros p t Ht; unfold lex_gte, lex_lte; rewrite (node_ele _ _ _ _ _ Hsk Ht); runr;
    unfold zslLexValueGteMin, zslLexValueLteMax; rewrite sdscmplex_ok; runr; f_equal; unfold above, below.
  - rewrite (oc_antisym (cmp := lcmp) (lmin range)). by destruct (lminex range), (lcmp (lmin range) _).
  - by destruct (lmaxex range), (lcmp _ _).
Qed.

Lemma elt_score a b : elt a b -> fcmp a.1 b.1 <> Gt.
Proof. unfold elt, ecmp, then_cmp. by destruct (fcmp a.1 b.1). Qed.

Lemma elt_lex a b : fcmp a.1 b.1 = Eq -> elt a b -> lexcmp a.2 b.2 <> Gt.
Proof. unfold elt, ecmp. intros -> E. simpl in E. by rewrite E. Qed.

Lemma nth_by_score h z L range k :
  skl h z L -> sorted (keys L) -> isnan (zr_min range) = false -> isnan (zr_max range) = false ->
  - 2 ^ 63 < k -> k + zlen L < 2 ^ 63 ->
  zslNthInRange h z range k = Ok (found_at (pick (selected (score_selects range) L) k)).
Proof.
  intros Hsk Hso Hmin Hmax Hk1 Hk2. destruct (score_tests h z L range Hsk Hmin Hmax) as [Hg Hl].
  rewrite <- (nth_of_range h z L Hsk Hso fcmp (zr_min range) (zr_max range) (minex range) (maxex range) fst)
    with (gte := score_gte range) (lte := score_lte range) by (done || (intros a b _ _; apply elt_score)).
  unfold zslNthInRange, zslIsInRange. by rewrite SFltb_fcmp, SFeqb_fcmp, (fcmp_antisym (zr_min range)) by done;
    unfold void; destruct (fcmp (zr_min range) (zr_max range)).
Qed.

Lemma nth_by_lex h z L range k :
  skl h z L -> sorted (keys L) -> (forall a b, a ∈ keys L -> b ∈ keys L -> fcmp a.1 b.1 = Eq) ->
  - 2 ^ 63 < k -> k + zlen L < 2 ^ 63 ->
  zslNthInLexRange h z range k = Ok (found_at (pick (selected (lex_selects range) L) k)).
Proof.
  intros Hsk Hso Hsame Hk1 Hk2. destruct (lex_tests h z L range Hsk) as [Hg Hl].
  rewrite <- (nth_of_range h z L Hsk Hso lcmp (lmin range) (lmax range) (lminex range) (lmaxex range) (fun e => Sds e.2))
    with (gte := lex_gte range) (lte := lex_lte range) by (done || (intros a b Ha Hb; apply elt_lex; by apply Hsame)).
  unfold zslNthInLexRange, zslIsInLexRange. rewrite sdscmplex_ok. runr.
  by unfold void; destruct (lcmp (lmin range) (lmax range)).
Qed.

(** ** What clients of a range rely on *)

(** The tests of nodes, the [k]-th node, and where the range starts and ends. *)
Record ranged (h : heap) (L : list tower) (nth : Z -> result (option (addr * Z)))
    (gte lte : heap -> addr -> result bool) (g m : scored -> bool) : Prop := {
  rg_gte : tests_key gte g h L;
  rg_lte : tests_key lte m h L;
  rg_nth : forall k, - 2 ^ 63 < k -> k + zlen L < 2 ^ 63 -> nth k = Ok (found_at (pick (selected (fun e => g e && m e) L) k));
  rg_cuts : exists a b, prefix_of (fun e => negb (g e)) L a /\ prefix_of m L b;
}.

Definition score_above (range : zrangespec) (e : scored) : bool := above fcmp (zr_min range) (minex range) e.1.
Definition score_below (range : zrangespec) (e : scored) : bool := below fcmp (zr_max range) (maxex range) e.1.
Definition lex_above (range : zlexrangespec) (e : scored) : bool := above lcmp (lmin range) (lminex range) (Sds e.2).
Definition lex_below (range : zlexrangespec) (e : scored) : bool := below lcmp (lmax range) (lmaxex range) (Sds e.2).

Lemma ranged_score h z L range :
  skl h z L -> sorted (keys L) -> isnan (zr_min range) = false -> isnan (zr_max range) = false ->
  ranged h L (zslNthInRange h z range) (score_gte range) (score_lte range) (score_above range) (score_below range).
Proof.
  intros Hsk Hso Hmin Hmax. destruct (score_tests h z L range Hsk Hmin Hmax) as [Hg Hl]. constructor; [done|done| |].
  - intros k Hk1 Hk2. by apply nth_by_score.
  - apply (cuts L Hso fcmp). intros a b _ _. apply elt_score.
Qed.

Lemma ranged_lex h z L range :
  skl h z L -> sorted (keys L) -> (forall a b, a ∈ keys L -> b ∈ keys L -> fcmp a.1 b.1 = Eq) ->
  ranged h L (zslNthInLexRange h z range) (lex_gte range) (lex_lte range) (lex_above range) (lex_below range).
Proof.
  intros Hsk Hso Hsame. destruct (lex_tests h z L range Hsk) as [Hg Hl]. constructor; [done|done| |].
  - intros k Hk1 Hk2. by apply (nth_by_lex h z).
  - apply (cuts L Hso lcmp _ _ _ _ (fun e => Sds e.2)). intros a b Ha Hb. apply elt_lex. by apply Hsame.
Qed.

(** ** The rank of a score and an element *)

(** Where an element stands, from 1; 0 if it is not there. *)
Definition rank_in (key : scored) (K : list scored) : Z :=
  match list_find (fun e => ecmp key e = Eq) K with Some (i, _) => Z.of_nat i + 1 | None => 0 end.

Lemma ecmp_eq_l x y e : ecmp x y = Eq -> ecmp x e = ecmp y e.
Proof. intros [E1 E2]%ecmp_eq. unfold ecmp. by rewrite (fcmp_eq_l _ _ _ E1), E2. Qed.

Lemma sorted_unique K key p q a b :
  sorted K -> K !! p = Some a -> K !! q = Some b -> ecmp key a = Eq -> ecmp key b = Eq -> p = q.
Proof.
  intros Hso Ha Hb Ea Eb. destruct (Nat.lt_trichotomy p q) as [Hlt|[->|Hlt]]; [exfalso|done|exfalso].
  - pose proof (sorted_lookup K p q a b Hso Ha Hb Hlt) as E. unfold elt in E. rewrite <- (ecmp_eq_l key a b Ea), Eb in E. done.
  - pose proof (sorted_lookup K q p b a Hso Hb Ha Hlt) as E. unfold elt in E. rewrite <- (ecmp_eq_l key b a Eb), Ea in E. done.
Qed.

Lemma rank_in_at K key p a : sorted K -> K !! p = Some a -> ecmp key a = Eq -> rank_in key K = Z.of_nat p + 1.
Proof.
  intros Hso Ha Ea. unfold rank_in. assert (list_find (fun e => ecmp key e = Eq) K = Some (p, a)) as ->; [|done].
  apply list_find_Some. split; [done|]. split; [done|]. intros j y Hy Hj Ey.
  pose proof (sorted_unique K key j p y a Hso Hy Ha Ey Ea). lia.
Qed.

Lemma rank_in_none K key : (forall p a, K !! p = Some a -> ecmp key a <> Eq) -> rank_in key K = 0.
Proof.
  intros Hno. unfold rank_in. destruct (list_find _ K) as [[i x]|] eqn:E; [|done].
  apply list_find_Some in E as (Hx & Ex & _). by destruct (Hno i x).
Qed.

Lemma key_at L p t : L !! p = Some t -> keys L !! p = Some (t_key t).
Proof. intros Ht. unfold keys. change (map t_key L) with (t_key <$> L). by rewrite list_lookup_fmap, Ht. Qed.

Lemma key_tower L p e : keys L !! p = Some e -> exists t, L !! p = Some t /\ t_key t = e.
Proof. unfold keys. change (map t_key L) with (t_key <$> L). rewrite list_lookup_fmap. intros (t & Ht & E)%fmap_Some. by exists t. Qed.

Lemma getRank_ok h z L score ele :
  skl h z L -> sorted (keys L) -> isnan score = false -> zslGetRank h z score ele = Ok (rank_in (score, ele) (keys L)).
Proof.
  intros Hsk Hso Hs. set (key := (score, ele)). set (f e := match ecmp key e with Lt => false | _ => true end).
  destruct (splits_down f L Hso) as (k & Hk).
  { intros a b _ _ Hab. unfold f. destruct (ecmp key a) eqn:E; try done. intros Hb.
    rewrite (elt_trans key a b E Hab : ecmp key b = Lt) in Hb. done. }
  assert (splits (fun e => ~ elt key e) L k) as Hsp.
  { destruct Hk as [Hk1 Hk2]. split; [done|]. intros p t Ht. rewrite <- (Hk2 p t Ht). unfold f, elt. by destruct (ecmp key (t_key t)). }
  pose proof (level_range h z L Hsk). unfold zslGetRank. change 0 with (Z.of_nat 0).
  rewrite (rank_loop_ok h z L Hsk score ele k Hs Hso Hsp _ 0 (zsl_header z) 32); try done; try lia. f_equal. unfold rank_at.
  assert (forall p t, L !! p = Some t -> ecmp key (t_key t) = Eq -> S p = k) as Hpos.
  { intros p t Ht E. assert (p < k)%nat by (apply (proj2 Hsp p t Ht); unfold elt; by rewrite E).
    destruct (decide (S p = k)) as [|Hne]; [done|]. destruct (lookup_lt_is_Some_2 L (S p)) as [s Hs']; [pose proof (proj1 Hsp); lia|].
    exfalso. apply (proj2 (proj2 Hsp (S p) s Hs')); [lia|]. unfold elt. rewrite (ecmp_eq_l key (t_key t)) by done.
    apply (sorted_lookup (keys L) p (S p)); [done|by apply key_at|by apply key_at|lia]. }
  destruct (L !! (k - 1)%nat) as [t|] eqn:Ht.
  2: { symmetry. apply rank_in_none. intros p a (t & Ht' & <-)%key_tower E. pose proof (Hpos p t Ht' E) as Ek.
       replace (k - 1)%nat with p in Ht by lia. congruence. }
  destruct k as [|k].
  { symmetry. apply rank_in_none. intros p a (s & Hs' & <-)%key_tower E. by pose proof (Hpos p s Hs' E). }
  replace (S k - 1)%nat with k in Ht by lia. destruct (ecmp (score, ele) (t_key t)) eqn:E.
  1: { symmetry. rewrite (rank_in_at (keys L) key k (t_key t)); [lia|done|by apply key_at|done]. }
  all: symmetry; apply rank_in_none; intros p a (s & Hs' & <-)%key_tower E'; pose proof (Hpos p s Hs' E'); simplify_eq;
    unfold key in E'; congruence.
Qed.

(** * The end of a list *)

Section release.
Context `{alloc : NodeAllocator} {laws : NodeAllocatorLaws}.

Lemma free_loop_ok h z L B : skl h z L -> forall A fuel h1 z1 c,
  L = A ++ B -> (length B < fuel)%nat -> (forall t, t ∈ B -> h1 !! t_addr t = h !! t_addr t) -> alloc_size z1 = u64 c ->
  exists h2 z2, free_loop fuel h1 z1 (t_addr <$> head B) = Ok (h2, z2) /\ alloc_size z2 = u64 (c - blocks_size B) /\
    forall b, h2 !! b = if decide (b ∈ map t_addr B) then None else h1 !! b.
Proof.
  intros Hsk. pose proof (sk_nodup _ _ _ Hsk) as Hnd. induction B as [|t B IH]; intros A fuel h1 z1 c EL Hf Heq Hc.
  - exists h1, z1. destruct fuel; (split; [done|]); (split; [rewrite Hc; unfold blocks_size; simpl; f_equal; lia|done]).
  - destruct fuel as [|fuel]; [simpl in Hf; lia|]. subst L. cbn [head fmap option_fmap option_map free_loop].
    destruct (node_at _ _ _ _ _ Hsk) as (n & Hn & Hni & _). pose proof (Heq t (list_elem_of_here _ _)) as Ht. rewrite Hn in Ht.
    assert (get_forward h1 (t_addr t) 0 = Ok (t_addr <$> head B)) as ->.
    { transitivity (get_forward h (t_addr t) 0); [unfold get_forward, get_level, get_node; by rewrite Ht, Hn|].
      rewrite (forward_zero h z (A ++ t :: B) (S (length A)) _ (t_height t) Hsk) by (by rewrite spine_node, list_lookup_middle).
      rewrite lookup_app_r by lia. replace (S (length A) - length A)%nat with 1%nat by lia. by destruct B. }
    runr. unfold zslFreeNode, get_node. rewrite Ht. runr. rewrite (ni_block _ _ Hni).
    destruct (IH (A ++ [t]) fuel (delete (t_addr t) h1) (set_alloc z1 (u64 (alloc_size z1 - usable_size (node_block t)))) (c - usable_size (node_block t)))
      as (h2 & z2 & E & Ha & Hh).
    + by rewrite <- app_assoc.
    + simpl in Hf. lia.
    + intros s Hs. rewrite lookup_delete_ne; [apply Heq; by right|]. intros Es. apply list_elem_of_lookup in Hs as (j & Hj).
      assert (S (length A) + j = length A)%nat; [|lia]. apply (addr_inj _ _ _ _ s t Hnd); [|by apply list_lookup_middle|done].
      rewrite lookup_app_r by lia. by replace (S (length A) + j - length A)%nat with (S j) by lia.
    + cbn [alloc_size set_alloc]. rewrite Hc. apply wrapU_sub_l.
    + exists h2, z2. split; [exact E|]. split; [rewrite Ha; f_equal; unfold blocks_size; simpl; lia|]. intros b. rewrite Hh. simpl.
      destruct (decide (b = t_addr t)) as [->|Hne].
      * rewrite lookup_delete_eq, (decide_True (P := t_addr t ∈ t_addr t :: _)) by by left. by destruct (decide _).
      * rewrite lookup_delete_ne by done. destruct (decide (b ∈ map t_addr B)) as [Hb|Hb].
        -- by rewrite decide_True by by right.
        -- by rewrite decide_False by (intros [->|?]%elem_of_cons; done).
Qed.

(** Nothing but the nodes of the list leaves the heap, and the sizes add up. *)
Lemma free_ok h z L :
  zsl_ok h z L -> exists h', zslFree h z = Ok h' /\ forall b, h' !! b = if decide (b ∈ addrs z L) then None else h !! b.
Proof.
  intros [Hsk Hso Hdi Hal]. destruct (sk_header _ _ _ Hsk) as (n & Hn & _ & Hb). unfold zslFree.
  rewrite (forward_zero h z L 0 _ 32 Hsk) by done. runr. unfold zslFreeNode at 1, get_node. rewrite Hn. runr.
  pose proof (sk_nodup _ _ _ Hsk) as Hnd.
  destruct (free_loop_ok h z L L Hsk [] (S (Z.to_nat (zsl_length z))) (delete (zsl_header z) h)
    (set_alloc z (u64 (alloc_size z - usable_size (n_block n)))) (usable_size zsl_struct_size + blocks_size L)) as (h2 & z2 & E & Ha & Hh).
  - done.
  - rewrite (sk_length _ _ _ Hsk). unfold zlen. lia.
  - intros t (p & Hp)%list_elem_of_lookup. apply lookup_delete_ne. intros Eh. by apply (header_not_node _ _ _ _ Hnd Hp).
  - cbn [alloc_size set_alloc]. rewrite Hal, Hb, wrapU_sub_l. f_equal. lia.
  - cbn [zsl_length set_alloc]. replace (L !! 0%nat) with (head L) by by destruct L. rewrite E. runr. rewrite Ha. replace (usable_size zsl_struct_size + blocks_size L - blocks_size L)
      with (usable_size zsl_struct_size) by lia. pose proof (usable_size_fits zsl_struct_size ltac:(done)).
    rewrite wrapU_small, Z.eqb_refl by (unfold zsl_struct_size in *; lia). runr. exists h2. split; [done|]. intros b. rewrite Hh. unfold addrs, spine. simpl.
    replace (map fst (map (fun t => (t_addr t, t_height t)) L)) with (map t_addr L) by by rewrite map_map.
    destruct (decide (b = zsl_header z)) as [->|Hne].
    + rewrite lookup_delete_eq, (decide_True (P := zsl_header z ∈ zsl_header z :: _)) by by left. by destruct (decide _).
    + rewrite lookup_delete_ne by done. destruct (decide (b ∈ map t_addr L)) as [Hb'|Hb'].
      * by rewrite decide_True by by right.
      * by rewrite decide_False by (intros [->|?]%elem_of_cons; done).
Qed.
End release.
