(* ===== verification/Zset.v ===== *)
(** Zset: sorted sets encoded as a skip list with a hash table, of
    src/redis-stable/src/t_zset.c and object.c.

    This file holds the definitions; ZsetProofs.v and ZsetSpec.v have the
    proofs.

    Correspondence.  A [zset] is the pair of the hash table of Dict.v, whose
    stored keys are addresses of nodes of the skip list of Skiplist.v, and that
    skip list.  The callbacks of the table read elements through the heap, so
    its type [zsetDictType] is a function of the heap, and every operation of the
    table is called with the heap of that moment.  Only the branch of each
    function for the encoding OBJ_ENCODING_SKIPLIST is here.  [hash] stands for
    the hash function with its seed, [cr] for the resize policy of the server,
    [rnd] for the numbers random() returns, [uninit] for uninitialised memory;
    the addition of scores is the one of binary64.  The functions that emit
    elements to a client return the list of what they emit. *)

From Stdlib Require Import ZArith Lia Bool.
From stdpp Require Import base list numbers decidable gmap.
From S2P Require Import Prelude Bytes Dict Skiplist.

Local Open Scope Z_scope.

Definition dictSdsKeyCompare (key1 key2 : list Z) : bool :=
  let l1 := zlen key1 in
  let l2 := zlen key2 in
  if negb (l1 =? l2) then false
  else match memcmp key1 key2 (Z.to_nat l1) with Ok c => c =? 0 | Err _ => false end.

(** The element of a node; of an address that is no node, nothing can be said:
    the theorems show that the table never holds one. *)
Definition zslGetNodeElementForDict (h : heap) (node : addr) : list Z :=
  match h !! node with Some n => n_ele n | None => [] end.

Definition zsetDictType (hash : list Z -> Z) (h : heap) : dictType (list Z) addr unit := {|
  hashFunction := hash;
  keyDup := fun node => node;
  valDup := fun v => v;
  keyCompare := dictSdsKeyCompare;
  resizeAllowed := fun _ _ _ => true;
  keyFromStoredKey := zslGetNodeElementForDict h;
  no_value := true;
  force_full_rehash := false |}.

Record zset := { zs_dict : dict addr unit; zs_zsl : zskiplist }.

Definition set_dict (zs : zset) (d : dict addr unit) : zset := {| zs_dict := d; zs_zsl := zs_zsl zs |}.
Definition set_zsl (zs : zset) (z : zskiplist) : zset := {| zs_dict := zs_dict zs; zs_zsl := z |}.

Definition set_pauseAutoResize (d : dict addr unit) (p : Z) : dict addr unit :=
  {| ht0 := ht0 d; ht1 := ht1 d; rehashidx := rehashidx d; pauserehash := pauserehash d;
     pauseAutoResize := p; notes := notes d |}.
Definition dictPauseAutoResize (d : dict addr unit) : dict addr unit := set_pauseAutoResize d (wrapS 16 (pauseAutoResize d + 1)).
Definition dictResumeAutoResize (d : dict addr unit) : dict addr unit := set_pauseAutoResize d (wrapS 16 (pauseAutoResize d - 1)).

Definition ZADD_IN_NONE : Z := 0.
Definition ZADD_IN_INCR : Z := Z.shiftl 1 0.
Definition ZADD_IN_NX : Z := Z.shiftl 1 1.
Definition ZADD_IN_XX : Z := Z.shiftl 1 2.
Definition ZADD_IN_GT : Z := Z.shiftl 1 3.
Definition ZADD_IN_LT : Z := Z.shiftl 1 4.

Definition ZADD_OUT_NOP : Z := Z.shiftl 1 0.
Definition ZADD_OUT_NAN : Z := Z.shiftl 1 1.
Definition ZADD_OUT_ADDED : Z := Z.shiftl 1 2.
Definition ZADD_OUT_UPDATED : Z := Z.shiftl 1 3.

(** The addition of doubles, to nearest even. *)
Definition double_add (x y : double) : double := SFadd 53 1024 x y.

(** What zsetAdd returns: its result, the flags, and the new score if it writes
    one. *)
Record zadd_result := { za_ret : Z; za_flags : Z; za_score : option double }.

Definition zadd_out (ret flags : Z) (s : option double) : zadd_result :=
  {| za_ret := ret; za_flags := flags; za_score := s |}.

Section zset_code.
Context `{alloc : NodeAllocator} (hash : list Z -> Z) (cr : dictResizeEnable).
Local Abbreviation ty := (zsetDictType hash).

(** * Creation and release *)

Definition createZsetObject (h : heap) : heap * zset :=
  let '(h, z) := zslCreate h in (h, {| zs_dict := dictCreate; zs_zsl := z |}).

(** dictRelease frees the entries of the table and not the nodes. *)
Definition freeZsetObject (h : heap) (zs : zset) : result heap := zslFree h (zs_zsl zs).

Definition zsetLength (zs : zset) : Z := zsl_length (zs_zsl zs).

(** * Elements *)

(** dictFind followed by dictGetKey. *)
Definition find_znode (h : heap) (zs : zset) (ele : list Z) : result (zset * option addr) :=
  let* (d, de) := dictFind (ty h) cr (zs_dict zs) ele in
  Ok (set_dict zs d, dictGetKey <$> de).

Definition zsetScore (h : heap) (zs : zset) (member : list Z) : result (zset * option double) :=
  let* (zs, de) := find_znode h zs member in
  match de with
  | None => Ok (zs, None)
  | Some znode => let* n := get_node h znode in Ok (zs, Some (n_score n))
  end.

Definition zsetAdd (rnd : list Z) (uninit : nat -> zskiplistLevel) (h : heap) (zs : zset)
    (score : double) (ele : list Z) (in_flags : Z) : result (heap * zset * zadd_result) :=
  let incr := negb (Z.land in_flags ZADD_IN_INCR =? 0) in
  let nx := negb (Z.land in_flags ZADD_IN_NX =? 0) in
  let xx := negb (Z.land in_flags ZADD_IN_XX =? 0) in
  let gt := negb (Z.land in_flags ZADD_IN_GT =? 0) in
  let lt := negb (Z.land in_flags ZADD_IN_LT =? 0) in
  if isnan score then Ok (h, zs, zadd_out 0 ZADD_OUT_NAN None)
  else
    let* (d, link, bucket) := dictFindLink (ty h) cr (zs_dict zs) ele true in
    let zs := set_dict zs d in
    match link with
    | Some l =>
        let* de := deref d l in
        if nx then Ok (h, zs, zadd_out 1 ZADD_OUT_NOP None)
        else
          let znode := dictGetKey de in
          let* n := get_node h znode in
          let curscore := n_score n in
          let score := if incr then double_add score curscore else score in
          if incr && isnan score then Ok (h, zs, zadd_out 0 ZADD_OUT_NAN None)
          else if (lt && SFleb curscore score) || (gt && SFleb score curscore)
          then Ok (h, zs, zadd_out 1 ZADD_OUT_NOP None)
          else if negb (SFeqb score curscore) then
            let* (h, z) := zslUpdateScore h (zs_zsl zs) znode score in
            Ok (h, set_zsl zs z, zadd_out 1 ZADD_OUT_UPDATED (Some score))
          else Ok (h, zs, zadd_out 1 0 (Some score))
    | None =>
        if negb xx then
          let* (h, z, znode) := zslInsert rnd uninit h (zs_zsl zs) score ele in
          let* d := dictSetKeyAtLink (ty h) (fun _ => []) cr d znode bucket true in
          Ok (h, {| zs_dict := d; zs_zsl := z |}, zadd_out 1 ZADD_OUT_ADDED (Some score))
        else Ok (h, zs, zadd_out 1 ZADD_OUT_NOP None)
    end.

Definition zsetRemoveFromSkiplist (h : heap) (zs : zset) (ele : list Z) : result (heap * zset * bool) :=
  let* (d, de) := dictUnlink (ty h) cr (zs_dict zs) ele in
  match de with
  | Some e =>
      let znode := dictGetKey e in
      let* (h, z) := zslDelete h (zs_zsl zs) znode in
      Ok (h, {| zs_dict := d; zs_zsl := z |}, true)
  | None => Ok (h, set_dict zs d, false)
  end.

Definition zsetDel (h : heap) (zs : zset) (ele : list Z) : result (heap * zset * bool) :=
  zsetRemoveFromSkiplist h zs ele.

(** The rank, and the score stored through [output_score]. *)
Definition zsetRank (h : heap) (zs : zset) (ele : list Z) (reverse : bool) : result (zset * option (Z * double)) :=
  let llen := zsetLength zs in
  let* (zs, de) := find_znode h zs ele in
  match de with
  | None => Ok (zs, None)
  | Some n =>
      let* rank := zslGetRankByNode h (zs_zsl zs) n in
      check negb (rank =? 0) else AssertFailed;;
      let* nd := get_node h n in
      Ok (zs, Some (i64 (if reverse then u64 (llen - rank) else u64 (rank - 1)), n_score nd))
  end.

(** ** Deleting ranges *)

(** [while (x && test(x))]: what is unlinked is deleted from the table and
    freed; [r] counts from the first node. *)
Fixpoint delete_range_loop (fuel : nat) (test : Z -> heap -> addr -> result bool) (h : heap) (zs : zset)
    (upd : list (addr * Z)) (r : Z) (x : option addr) (removed : Z) : result (heap * zset * Z) :=
  match x with
  | None => Ok (h, zs, removed)
  | Some x =>
      let* t := test r h x in
      if (t : bool) then
        match fuel with
        | O => Err OutOfFuel
        | S fuel =>
            let* next := get_forward h x 0 in
            let* (h, z) := zslUnlinkNode h (zs_zsl zs) x upd in
            let* ele := zslGetNodeElement h x in
            let* (d, _) := dictDelete (ty h) cr (zs_dict zs) ele in
            let* (h, z) := zslFreeNode h z x in
            delete_range_loop fuel test h {| zs_dict := d; zs_zsl := z |} upd (u64 (r + 1)) next (u64 (removed + 1))
        end
      else Ok (h, zs, removed)
  end.

Definition delete_range (cond : Z -> Z -> option addr -> result bool) (test : Z -> heap -> addr -> result bool)
    (h : heap) (zs : zset) : result (heap * zset * Z) :=
  let z := zs_zsl zs in
  let* (x, traversed, upd) := descend (Z.to_nat (zsl_level z)) (list_fuel z) cond h (zsl_header z) 0 [] in
  let* x := get_forward h x 0 in
  delete_range_loop (list_fuel z) test h zs upd (u64 (traversed + 1)) x 0.

Definition zslDeleteRangeByScore (h : heap) (zs : zset) (range : zrangespec) : result (heap * zset * Z) :=
  delete_range (cond_forward (not_test (score_gte range)) h) (fun _ => score_lte range) h zs.

Definition zslDeleteRangeByLex (h : heap) (zs : zset) (range : zlexrangespec) : result (heap * zset * Z) :=
  delete_range (cond_forward (not_test (lex_gte range)) h) (fun _ => lex_lte range) h zs.

(** [start] and [end] are unsigned ints. *)
Definition zslDeleteRangeByRank (h : heap) (zs : zset) (start end_ : Z) : result (heap * zset * Z) :=
  delete_range (fun traversed s f => Ok (match f with Some _ => u64 (traversed + s) <? start | None => false end))
    (fun traversed _ _ => Ok (traversed <=? end_)) h zs.

(** The deletion of zremrangeGenericCommand: automatic resizing is paused, and
    the table of a set that is not empty shrunk in the end. *)
Definition zremrange (delete : heap -> zset -> result (heap * zset * Z)) (h : heap) (zs : zset)
  : result (heap * zset * Z) :=
  let zs := set_dict zs (dictPauseAutoResize (zs_dict zs)) in
  let* (h, zs, deleted) := delete h zs in
  let d := dictResumeAutoResize (zs_dict zs) in
  if dictSize d =? 0 then Ok (h, set_dict zs d, deleted)
  else
    let* (d, _) := dictShrinkIfNeeded (ty h) cr d in
    Ok (h, set_dict zs d, deleted).

(** Indexes from either end, brought into the list: none is left when the range
    is empty. *)
Definition sanitize_indexes (llen start end_ : Z) : option (Z * Z) :=
  let start := if start <? 0 then i64 (llen + start) else start in
  let end_ := if end_ <? 0 then i64 (llen + end_) else end_ in
  let start := if start <? 0 then 0 else start in
  if (start >? end_) || (start >=? llen) then None
  else Some (start, if end_ >=? llen then llen - 1 else end_).

(** zremrangeGenericCommand by ranks: the longs become unsigned ints. *)
Definition zremrangebyrank (start end_ : Z) (h : heap) (zs : zset) : result (heap * zset * Z) :=
  match sanitize_indexes (i64 (zsetLength zs)) start end_ with
  | None => Ok (h, zs, 0)
  | Some (start, end_) =>
      zremrange (fun h zs => zslDeleteRangeByRank h zs (u32 (start + 1)) (u32 (end_ + 1))) h zs
  end.

(** ** Counting and listing *)

(** The number of elements in a range, from the ranks of its ends. *)
Definition count_range (nth : heap -> zskiplist -> Z -> result (option (addr * Z))) (h : heap) (zs : zset) : result Z :=
  let z := zs_zsl zs in
  let* zn := nth h z 0 in
  match zn with
  | None => Ok 0
  | Some (_, rank) =>
      let count := u64 (zsl_length z - u64 (rank - 1)) in
      let* zn := nth h z (-1) in
      match zn with
      | None => Ok count
      | Some (_, rank) => Ok (u64 (count - u64 (zsl_length z - rank)))
      end
  end.

Definition zcountCommand (h : heap) (zs : zset) (range : zrangespec) : result Z :=
  count_range (fun h z n => zslNthInRange h z range n) h zs.

Definition zlexcountCommand (h : heap) (zs : zset) (range : zlexrangespec) : result Z :=
  count_range (fun h z n => zslNthInLexRange h z range n) h zs.

(** [ln = reverse ? ln->backward : ln->level[0].forward]. *)
Definition next_node (reverse : bool) (h : heap) (ln : addr) : result (option addr) :=
  if reverse then let* n := get_node h ln in Ok (n_backward n) else get_forward h ln 0.

Definition emit_node (h : heap) (ln : addr) : result (double * list Z) :=
  let* n := get_node h ln in
  let* ele := zslGetNodeElement h ln in
  Ok (n_score n, ele).

(** [while (rangelen--)]. *)
Fixpoint emit_loop (n : nat) (reverse : bool) (h : heap) (ln : option addr) : result (list (double * list Z)) :=
  match n with
  | O => Ok []
  | S n =>
      match ln with
      | None => Err AssertFailed
      | Some x =>
          let* e := emit_node h x in
          let* next := next_node reverse h x in
          let* es := emit_loop n reverse h next in
          Ok (e :: es)
      end
  end.

Definition genericZrangebyrankCommand (h : heap) (zs : zset) (start end_ : Z) (reverse : bool)
  : result (list (double * list Z)) :=
  let z := zs_zsl zs in
  let llen := i64 (zsetLength zs) in
  match sanitize_indexes llen start end_ with
  | None => Ok []
  | Some (start, end_) =>
    let rangelen := end_ - start + 1 in
    let* ln :=
      if reverse then
        if start >? 0 then zslGetElementByRank h z (u64 (llen - start)) else Ok (zsl_tail z)
      else
        if start >? 0 then zslGetElementByRank h z (u64 (start + 1)) else get_forward h (zsl_header z) 0 in
    emit_loop (Z.to_nat rangelen) reverse h ln
  end.

(** [while (ln && limit--)]: the limit is any long, negative for none. *)
Fixpoint emit_range_loop (fuel : nat) (reverse : bool) (test : heap -> addr -> result bool) (h : heap)
    (ln : option addr) (limit : Z) : result (list (double * list Z)) :=
  match ln with
  | None => Ok []
  | Some x =>
      if limit =? 0 then Ok []
      else
        match fuel with
        | O => Err OutOfFuel
        | S fuel =>
            let* limit := chk_i64 (limit - 1) in
            let* t := test h x in
            if (t : bool) then
              let* e := emit_node h x in
              let* next := next_node reverse h x in
              let* es := emit_range_loop fuel reverse test h next limit in
              Ok (e :: es)
            else Ok []
        end
  end.

Definition emit_range (nth : Z -> result (option (addr * Z))) (gte lte : heap -> addr -> result bool) (h : heap) (zs : zset)
    (offset limit : Z) (reverse : bool) : result (list (double * list Z)) :=
  if (offset <? 0) || ((offset >? 0) && (offset >=? i64 (zsetLength zs))) then Ok []
  else
    let* r := nth (if reverse then - offset - 1 else offset) in
    emit_range_loop (list_fuel (zs_zsl zs)) reverse (if reverse then gte else lte) h (fst <$> r) limit.

Definition genericZrangebyscoreCommand (h : heap) (zs : zset) (range : zrangespec) (offset limit : Z) (reverse : bool)
  : result (list (double * list Z)) :=
  emit_range (fun n => zslNthInRange h (zs_zsl zs) range n) (score_gte range) (score_lte range) h zs offset limit reverse.

Definition genericZrangebylexCommand (h : heap) (zs : zset) (range : zlexrangespec) (offset limit : Z) (reverse : bool)
  : result (list (double * list Z)) :=
  emit_range (fun n => zslNthInLexRange h (zs_zsl zs) range n) (lex_gte range) (lex_lte range) h zs offset limit reverse.

(** [do ... while (--rangelen)] of genericZpopCommand: the first or last
    element, deleted. *)
Fixpoint zpop_loop (fuel : nat) (max : bool) (h : heap) (zs : zset) (rangelen : Z)
  : result (heap * zset * list (double * list Z)) :=
  match fuel with
  | O => Err OutOfFuel
  | S fuel =>
      let* zln := if max then Ok (zsl_tail (zs_zsl zs)) else get_forward h (zsl_header (zs_zsl zs)) 0 in
      match zln with
      | None => Err AssertFailed
      | Some x =>
          let* e := emit_node h x in
          let* (h, zs, deleted) := zsetDel h zs e.2 in
          check (deleted : bool) else AssertFailed;;
          let rangelen := rangelen - 1 in
          if rangelen =? 0 then Ok (h, zs, [e])
          else
            let* (h, zs, es) := zpop_loop fuel max h zs rangelen in
            Ok (h, zs, e :: es)
      end
  end.

(** A positive count, or -1 for a single pop, on a set that is not empty. *)
Definition genericZpop (max : bool) (count : Z) (h : heap) (zs : zset) : result (heap * zset * list (double * list Z)) :=
  let count := if count =? -1 then 1 else count in
  let llen := i64 (zsetLength zs) in
  let rangelen := if count >? llen then llen else count in
  zpop_loop (Z.to_nat rangelen) max h zs rangelen.

(** ** Copying *)

(** [while (llen--)]: from the greatest down. *)
Fixpoint dup_loop (n : nat) (rnds : list (list Z)) (uninit : nat -> zskiplistLevel) (h : heap) (new_zs : zset)
    (ln : option addr) : result (heap * zset) :=
  match n with
  | O => Ok (h, new_zs)
  | S n =>
      match ln, rnds with
      | Some x, rnd :: rnds =>
          let* ele := zslGetNodeElement h x in
          let* nd := get_node h x in
          let* (h, z, znode) := zslInsert rnd uninit h (zs_zsl new_zs) (n_score nd) ele in
          let* (d, _) := dictAdd (ty h) cr (zs_dict new_zs) znode tt in
          let* nd := get_node h x in
          dup_loop n rnds uninit h {| zs_dict := d; zs_zsl := z |} (n_backward nd)
      | None, _ => Err NullDeref
      | _, [] => Err OutOfFuel
      end
  end.

Definition zsetDup (rnds : list (list Z)) (uninit : nat -> zskiplistLevel) (h : heap) (zs : zset) : result (heap * zset) :=
  let '(h, new_zs) := createZsetObject h in
  let* (d, _) := dictExpand (ty h) cr (zs_dict new_zs) (dictSize (zs_dict zs)) in
  dup_loop (Z.to_nat (zsetLength zs)) rnds uninit h (set_dict new_zs d) (zsl_tail (zs_zsl zs)).

End zset_code.
