(* ===== verification/SortedSet.v ===== *)
(** SortedSet: what a sorted set is, for its users: the list of its scored
    elements in order, each element once.

    The operations are the ones clients see, with the answers of Zset.v: adding
    with the flags of ZADD, removing, scores and ranks, the elements of a range
    of scores, of elements or of ranks, and popping.  Ranks count from 0 here. *)

From Stdlib Require Import ZArith Lia Bool.
From S2P Require Import Prelude Bytes Skiplist SkiplistProofs SkiplistDelete SkiplistRange Zset.
From stdpp Require Import base list numbers decidable sorting.

Local Open Scope Z_scope.

Abbreviation sset := (list scored).

(** In order, each element once, no score that is not a number. *)
Record sset_ok (K : sset) : Prop := {
  so_sorted : sorted K;
  so_distinct : NoDup (map snd K);
  so_numbers : Forall (fun e => isnan e.1 = false) K;
}.

Definition entry_of (K : sset) (ele : list Z) : option (nat * scored) := list_find (fun e => e.2 = ele) K.

Definition score_of (K : sset) (ele : list Z) : option double := (fun x => x.2.1) <$> entry_of K ele.

Definition without (K : sset) (ele : list Z) : sset := filter (fun e => e.2 <> ele) K.

(** The rank of an element, from the other end if [reverse], and its score. *)
Definition rank_of (K : sset) (ele : list Z) (reverse : bool) : option (Z * double) :=
  (fun x => (if reverse : bool then zlen K - 1 - Z.of_nat x.1 else Z.of_nat x.1, x.2.1)) <$> entry_of K ele.

(** ZADD with its flags. *)
Definition add (K : sset) (score : double) (ele : list Z) (incr nx xx gt lt : bool) : sset * zadd_result :=
  if isnan score then (K, zadd_out 0 ZADD_OUT_NAN None)
  else
    match score_of K ele with
    | Some cur =>
        let s := if incr then double_add score cur else score in
        if nx then (K, zadd_out 1 ZADD_OUT_NOP None)
        else if isnan s then (K, zadd_out 0 ZADD_OUT_NAN None)
        else
          match fcmp s cur with
          | Eq => if gt || lt then (K, zadd_out 1 ZADD_OUT_NOP None) else (K, zadd_out 1 0 (Some s))
          | Lt => if gt then (K, zadd_out 1 ZADD_OUT_NOP None)
                  else (ins (s, ele) (without K ele), zadd_out 1 ZADD_OUT_UPDATED (Some s))
          | Gt => if lt then (K, zadd_out 1 ZADD_OUT_NOP None)
                  else (ins (s, ele) (without K ele), zadd_out 1 ZADD_OUT_UPDATED (Some s))
          end
    | None =>
        if xx then (K, zadd_out 1 ZADD_OUT_NOP None)
        else (ins (score, ele) K, zadd_out 1 ZADD_OUT_ADDED (Some score))
    end.

Definition flag (flags f : Z) : bool := negb (Z.land flags f =? 0).

Definition add_flags (K : sset) (score : double) (ele : list Z) (flags : Z) : sset * zadd_result :=
  add K score ele (flag flags ZADD_IN_INCR) (flag flags ZADD_IN_NX) (flag flags ZADD_IN_XX)
    (flag flags ZADD_IN_GT) (flag flags ZADD_IN_LT).

(** The elements that pass a test, and the others. *)
Definition among (P : scored -> bool) (K : sset) : sset := filter (fun e => P e = true) K.
Definition except (P : scored -> bool) (K : sset) : sset := filter (fun e => P e = false) K.

(** [limit] elements from [offset] on; all of them if the limit is negative. *)
Definition window_of (K : sset) (offset limit : Z) : sset :=
  let l := drop (Z.to_nat offset) K in if limit <? 0 then l else take (Z.to_nat limit) l.

Definition list_range (P : scored -> bool) (K : sset) (offset limit : Z) (reverse : bool) : sset :=
  if offset <? 0 then []
  else window_of (if reverse then rev (among P K) else among P K) offset limit.

(** Indexes from the end are negative. *)
Definition norm_index (n i : Z) : Z := if i <? 0 then n + i else i.

Definition rank_window (n start end_ : Z) : Z * Z :=
  (Z.max 0 (norm_index n start), Z.min (n - 1) (norm_index n end_)).

Definition list_ranks (K : sset) (start end_ : Z) (reverse : bool) : sset :=
  let '(a, b) := rank_window (zlen K) start end_ in
  if a <=? b then take (Z.to_nat (b - a + 1)) (drop (Z.to_nat a) (if reverse then rev K else K)) else [].

(** Removing the ranks [start] to [end_], from 1. *)
Definition without_ranks (K : sset) (start end_ : Z) : sset :=
  take (Z.to_nat (start - 1)) K ++ drop (Nat.max (Z.to_nat (start - 1)) (Z.to_nat end_)) K.

(** Removing by indexes from either end. *)
Definition without_window (K : sset) (start end_ : Z) : sset :=
  let '(a, b) := rank_window (zlen K) start end_ in if a <=? b then without_ranks K (a + 1) (b + 1) else K.

Definition pop (K : sset) (max : bool) (count : Z) : sset * sset :=
  let n := Z.to_nat (Z.min count (zlen K)) in
  if max then (take (length K - n) K, rev (drop (length K - n) K)) else (drop n K, take n K).

(** * Laws *)

Lemma entry_of_split K ele i e : entry_of K ele = Some (i, e) ->
  exists A B, K = A ++ e :: B /\ length A = i /\ e.2 = ele.
Proof.
  unfold entry_of. intros (Hi & He & _)%list_find_Some. apply list_elem_of_split_length in Hi as (A & B & -> & ->). by exists A, B.
Qed.

Lemma entry_of_none K ele : entry_of K ele = None -> ele ∉ map snd K.
Proof.
  unfold entry_of. intros Hn%list_find_None. intros (e & -> & He)%list_elem_of_fmap.
  by apply (proj1 (list.Forall_forall _ _) Hn e He).
Qed.

Lemma entry_of_mid A e B : NoDup (map snd (A ++ e :: B)) -> entry_of (A ++ e :: B) e.2 = Some (length A, e).
Proof.
  intros Hnd. unfold entry_of. apply list_find_Some. split; [by apply list_lookup_middle|]. split; [done|].
  intros j y Hj Hlt E. rewrite lookup_app_l in Hj by done. rewrite map_app, map_cons in Hnd.
  apply NoDup_app in Hnd as (_ & Hout & _). apply (Hout y.2).
  - apply list_elem_of_fmap. exists y. split; [done|]. by eapply list_elem_of_lookup_2.
  - rewrite E. by left.
Qed.

Lemma entry_of_absent K ele : ele ∉ map snd K -> entry_of K ele = None.
Proof.
  intros Hout. unfold entry_of. apply list_find_None. apply list.Forall_forall. intros e He <-. apply Hout.
  apply list_elem_of_fmap. by exists e.
Qed.

Lemma without_mid A e B : NoDup (map snd (A ++ e :: B)) -> without (A ++ e :: B) e.2 = A ++ B.
Proof.
  intros Hnd. rewrite map_app, map_cons in Hnd. apply NoDup_app in Hnd as (_ & Hout & HB). apply NoDup_cons in HB as [HB _].
  unfold without. rewrite filter_app, filter_cons_False by (intros Hn; by apply Hn). f_equal; apply filter_all; intros y Hy E.
  - apply (Hout y.2); [|rewrite E; by left]. apply list_elem_of_fmap. by exists y.
  - apply HB. rewrite <- E. apply list_elem_of_fmap. by exists y.
Qed.
