(* ===== verification/ZsetProofs.v ===== *)
(** ZsetProofs: the hash table and the skip list of a sorted set agree, and
    every operation of Zset.v keeps them so.

    [rekey_wf] lets a table be read through another heap in which its nodes
    have the same elements.  [zset_ok] says that the skip list is the one of
    SkiplistDelete.v and that the table maps each element to its node. *)

From Stdlib Require Import ZArith Lia Bool.
From S2P Require Import Prelude Bytes Dict DictProofs DictOps Skiplist SkiplistProofs SkiplistOps SkiplistDelete SkiplistRange Zset.
From stdpp Require Import base list numbers decidable gmap sorting.

Local Open Scope Z_scope.

(** * Another way to read the stored keys *)

Section rekey.
Context {K SK V : Type} `{Countable K} (ty ty' : dictType K SK V).
Context (Hhash : hashFunction ty' = hashFunction ty) (Hnv : no_value ty' = no_value ty).

Definition reads_same (l : list (dictEntry SK V)) : Prop :=
  forall e, e ∈ l -> keyFromStoredKey ty' (dictGetKey e) = keyFromStoredKey ty (dictGetKey e).

Lemma rekey_kind e : kind_ok ty e -> kind_ok ty' e.
Proof. unfold kind_ok. by rewrite Hnv. Qed.

Lemma rekey_chain (c : list (dictEntry SK V)) : chain_ok ty c -> chain_ok ty' c.
Proof. induction c as [|e c IH]; [done|]. intros (Hk & He & Hc). split_and!; [by apply rekey_kind|done|by apply IH]. Qed.

Lemma rekey_live (t : ht SK V) : reads_same (elems t) -> ht_live ty t -> ht_live ty' t.
Proof.
  intros Hr [He Hl Hu Hb]. constructor; [done..|]. intros i c Hc. destruct (Hb i c Hc) as [Hch Hbk]. split; [by apply rekey_chain|].
  intros e Hin. rewrite <- (Hbk e Hin). unfold bucket_of, dictGetHash, entry_key, dictStoredKey2Key. rewrite Hhash, Hr; [done|].
  unfold elems. apply elem_of_concat. exists i, c. done.
Qed.

Lemma rekey_keys (l : list (dictEntry SK V)) : reads_same l -> map (entry_key ty') l = map (entry_key ty) l.
Proof.
  intros Hr. apply map_ext_in. intros e He. apply Hr. by apply list_elem_of_In.
Qed.

Lemma rekey_wf (d : dict SK V) : dict_wf ty d -> reads_same (dict_elems d) -> dict_wf ty' d.
Proof.
  intros [Ht Hk] Hr. assert (reads_same (elems (ht0 d)) /\ reads_same (elems (ht1 d))) as [H0 H1].
  { split; intros e He; apply Hr; apply elem_of_app; [by left|by right]. }
  constructor.
  - destruct Ht as [(E & [E0|Hl] & E1)|[L0 L1 Hx Hi Hm]].
    + left. split; [done|]. split; [by left|done].
    + left. split; [done|]. split; [right; by apply rekey_live|done].
    + right. constructor; [by apply rekey_live..|done|done|done].
  - unfold keys_wf in *. by rewrite (rekey_keys _ Hr).
Qed.

Lemma rekey_abs (d : dict SK V) : reads_same (dict_elems d) -> abs ty' d = abs ty d.
Proof.
  intros Hr. unfold abs, contents. f_equal. rewrite !map_map. apply map_ext_in. intros e He. unfold kv, ckey. f_equal.
  apply Hr. by apply list_elem_of_In.
Qed.
End rekey.

(** * The invariant *)

Lemma sdsKeyCompare_ok a b : dictSdsKeyCompare a b = true <-> a = b.
Proof.
  unfold dictSdsKeyCompare. destruct (Z.eqb_spec (zlen a) (zlen b)) as [E|E]; cbn [negb].
  - unfold zlen in *. replace (Z.to_nat (Z.of_nat (length a))) with (Nat.min (length a) (length b)) by lia. rewrite memcmp_ok.
    rewrite <- lexcmp_eq, (lexcmp_take a b). unfold zlen. rewrite E, Z.compare_refl.
    destruct (lexcmp (take (length b) a) (take (length a) b)); simpl; split; by intros.
  - split; [done|]. by intros ->.
Qed.

Section zset_proofs.
Context `{alloc : NodeAllocator} {laws : NodeAllocatorLaws}.
Context (hash : list Z -> Z) (hash_ok : forall k, 0 <= hash k < 2 ^ 64).
Local Abbreviation ty := (zsetDictType hash).

#[local] Instance zset_type_laws h : DictTypeLaws (ty h).
Proof. constructor; [apply hash_ok|apply sdsKeyCompare_ok|done]. Qed.

Definition elements_read (h : heap) (L : list tower) : Prop :=
  forall t, t ∈ L -> zslGetNodeElementForDict h (t_addr t) = (t_key t).2.

(** What the table holds. *)
Definition entries (L : list tower) : gmap (list Z) (addr * option unit) :=
  list_to_map (map (fun t => ((t_key t).2, (t_addr t, None))) L).

Record indexes (h : heap) (d : dict addr unit) (L : list tower) : Prop := {
  ix_wf : dict_wf (ty h) d;
  ix_abs : abs (ty h) d = entries L;
}.

Record zset_ok (h : heap) (zs : zset) (L : list tower) : Prop := {
  zk_list : zsl_ok h (zs_zsl zs) L;
  zk_dict : indexes h (zs_dict zs) L;
}.

Lemma elements_read_ok h z L : skl h z L -> elements_read h L.
Proof.
  intros Hsk t (p & Hp)%list_elem_of_lookup. destruct (sk_nodes _ _ _ Hsk p t Hp) as (n & Hn & Hni & _).
  unfold zslGetNodeElementForDict. rewrite Hn. apply (ni_ele _ _ Hni).
Qed.

Lemma entries_keys L : (map (fun t => ((t_key t).2, (t_addr t, @None unit))) L).*1 = map snd (keys L).
Proof. unfold keys. change ((map ?f L).*1) with (map fst (map f L)). by rewrite !map_map. Qed.

Lemma entries_at L t : NoDup (map snd (keys L)) -> t ∈ L -> entries L !! (t_key t).2 = Some (t_addr t, None).
Proof.
  intros Hnd Ht. apply elem_of_list_to_map_1; [by rewrite entries_keys|]. apply list_elem_of_fmap. by exists t.
Qed.

Lemma entries_none L ele : ele ∉ map snd (keys L) -> entries L !! ele = None.
Proof. intros He. apply not_elem_of_list_to_map_1. by rewrite entries_keys. Qed.

Lemma entries_perm L L' : NoDup (map snd (keys L)) -> L ≡ₚ L' -> entries L = entries L'.
Proof.
  intros Hnd Hp. apply list_to_map_proper; [by rewrite entries_keys|].
  apply (Permutation_map (fun t => ((t_key t).2, (t_addr t, None)))), Hp.
Qed.

(** The stored keys are the nodes. *)
Lemma stored_node h d L e : indexes h d L -> e ∈ dict_elems d -> exists t, t ∈ L /\ dictGetKey e = t_addr t.
Proof.
  intros [Hwf Ha] He. pose proof (abs_elem (ty h) d e Hwf He) as Hat. rewrite Ha in Hat.
  apply elem_of_list_to_map_2 in Hat. apply list_elem_of_fmap in Hat as (t & E & Ht). exists t. split; [done|].
  unfold content in E. by simplify_eq/=.
Qed.

Lemma index_move h h' d L : indexes h d L -> elements_read h L -> elements_read h' L -> indexes h' d L.
Proof.
  intros Hi Hr Hr'. assert (reads_same (ty h) (ty h') (dict_elems d)) as Hs.
  { intros e He. destruct (stored_node h d L e Hi He) as (t & Ht & E). cbn [keyFromStoredKey zsetDictType]. by rewrite E, Hr, Hr'. }
  destruct Hi as [Hwf Ha]. constructor.
  - by apply (rekey_wf (ty h)).
  - by rewrite (rekey_abs (ty h) (ty h')).
Qed.

Lemma index_size h d L : indexes h d L -> NoDup (map snd (keys L)) -> zlen (dict_elems d) = zlen L.
Proof.
  intros [Hwf Ha] Hnd. rewrite <- (abs_size (ty h) d Hwf), Ha. unfold entries.
  rewrite <- length_map_to_list, map_to_list_to_map by by rewrite entries_keys. unfold zlen. by rewrite length_map.
Qed.

Lemma index_maintains h d d' L : indexes h d L -> maintains (ty h) d d' -> indexes h d' L.
Proof. intros [Hwf Ha] Hm. constructor; [apply Hm|]. by rewrite (abs_maintains (ty h) d d' Hwf Hm). Qed.

Lemma index_perm h d L L' : NoDup (map snd (keys L)) -> L ≡ₚ L' -> indexes h d L -> indexes h d L'.
Proof. intros Hnd Hp [Hwf Ha]. constructor; [done|]. by rewrite Ha, (entries_perm L L'). Qed.

(** ** The operations of the table *)

Lemma index_find cr h d L ele : indexes h d L ->
  exists d' r, dictFind (ty h) cr d ele = Ok (d', r) /\ indexes h d' L /\ pauseAutoResize d' = pauseAutoResize d /\
    dictGetKey <$> r = fst <$> entries L !! ele.
Proof.
  intros Hi. destruct (find_ok (ty h) cr d ele (ix_wf _ _ _ Hi)) as (d' & r & E & Hm & Hr).
  exists d', r. split; [done|]. split; [by eapply index_maintains|]. split; [apply Hm|].
  rewrite <- (ix_abs _ _ _ Hi), <- Hr. by destruct r.
Qed.

Lemma index_delete cr h d A t B : indexes h d (A ++ t :: B) -> NoDup (map snd (keys (A ++ t :: B))) ->
  exists d' e, dictGenericDelete (ty h) cr d (t_key t).2 = Ok (d', Some e) /\ dictGetKey e = t_addr t /\
    indexes h d' (A ++ B) /\ pauseAutoResize d' = pauseAutoResize d.
Proof.
  intros [Hwf Ha] Hnd. destruct (delete_ok (ty h) cr d (t_key t).2 Hwf) as (d' & r & E & Hwf' & Hf & Hr & Ha').
  rewrite Ha, (entries_at _ t Hnd) in Hr by (apply elem_of_app; right; by left).
  destruct r as [e|]; [|done]. exists d', e. split; [done|]. split; [by injection Hr|]. split; [|apply Hf].
  constructor; [done|]. rewrite Ha', Ha. pose proof (Permutation_middle A B t) as Hp.
  rewrite <- (entries_perm (t :: A ++ B) (A ++ t :: B)); [|by unfold keys; rewrite Hp|done].
  apply distinct_without in Hnd as [_ Hout]. unfold entries at 1. simpl. apply delete_insert_id.
  apply (entries_none _ _ Hout).
Qed.

Lemma index_delete_none cr h d L ele : indexes h d L -> ele ∉ map snd (keys L) ->
  exists d', dictGenericDelete (ty h) cr d ele = Ok (d', None) /\ indexes h d' L /\ pauseAutoResize d' = pauseAutoResize d.
Proof.
  intros [Hwf Ha] Hout. destruct (delete_ok (ty h) cr d ele Hwf) as (d' & r & E & Hwf' & Hf & Hr & Ha').
  rewrite Ha, (entries_none _ _ Hout) in Hr. destruct r; [done|]. exists d'. split; [done|]. split; [|apply Hf].
  constructor; [done|]. rewrite Ha', Ha. apply delete_id. by apply entries_none.
Qed.

(** A link found, or the bucket for a new entry. *)
Lemma index_link cr h d L ele : indexes h d L ->
  exists d' r b, dictFindLink (ty h) cr d ele true = Ok (d', r, b) /\ indexes h d' L /\
    pauseAutoResize d' = pauseAutoResize d /\
    match r with
    | Some l => exists e, deref d' l = Ok e /\ entries L !! ele = Some (content e)
    | None => entries L !! ele = None /\ DictOps.located (ty h) d' ele None /\
        (b = None \/ (b = Some (target_link (ty h) d' ele) /\ ht_live (ty h) (ht0 d')))
    end.
Proof.
  intros Hi. destruct (findLink_bucket (ty h) cr d ele (ix_wf _ _ _ Hi)) as (d' & r & b & E & Hm & Hloc & Hb).
  exists d', r, b. split; [done|]. split; [by eapply index_maintains|]. split; [apply Hm|].
  pose proof (abs_located (ty h) d' ele r (mt_wf _ _ _ Hm) Hloc) as Ha.
  rewrite (abs_maintains (ty h) d d' (ix_wf _ _ _ Hi) Hm), (ix_abs _ _ _ Hi) in Ha. destruct r as [l|].
  - destruct Ha as (e & Hh & _ & Hat). exists e. split; [by eapply holds_deref|done].
  - split; [done|]. split; [done|]. by apply Hb.
Qed.

Lemma index_add cr raw h h' d L t b :
  indexes h d L -> elements_read h L -> elements_read h' L -> zslGetNodeElementForDict h' (t_addr t) = (t_key t).2 ->
  NoDup (map snd (keys L)) -> (t_key t).2 ∉ map snd (keys L) -> zlen L + 1 < 2 ^ 64 ->
  DictOps.located (ty h) d (t_key t).2 None ->
  b = None \/ (b = Some (target_link (ty h) d (t_key t).2) /\ ht_live (ty h) (ht0 d)) ->
  exists d', dictSetKeyAtLink (ty h') raw cr d (t_addr t) b true = Ok d' /\ indexes h' d' (t :: L) /\
    pauseAutoResize d' = pauseAutoResize d.
Proof.
  intros Hi Hr Hr' Hnew Hnd Hout Hroom Hloc Hb.
  assert (reads_same (ty h) (ty h') (dict_elems d)) as Hs.
  { intros e He. destruct (stored_node h d L e Hi He) as (s & Hs & E). cbn [keyFromStoredKey zsetDictType]. by rewrite E, Hr, Hr'. }
  destruct (index_move h h' d L Hi Hr Hr') as [Hwf Ha].
  destruct (setKeyAtLink_insert (ty h') raw cr d (t_addr t) b Hwf) as (d' & E & Hwf' & Hf & Ha').
  - unfold has_room. by rewrite (index_size h d L Hi Hnd).
  - cbn [keyFromStoredKey zsetDictType]. rewrite Hnew. intros e He Hk. apply (Hloc e He). rewrite <- Hk. symmetry. by apply Hs.
  - cbn [keyFromStoredKey zsetDictType]. rewrite Hnew. destruct Hb as [->|[-> Hl]]; [by left|right]. split; [done|].
    apply (rekey_live (ty h)); [done|done| |done]. intros e He. apply Hs. apply elem_of_app. by left.
  - exists d'. split; [done|]. split; [|apply Hf]. constructor; [done|]. rewrite Ha', Ha.
    cbn [keyFromStoredKey keyDup zsetDictType]. by rewrite Hnew.
Qed.
End zset_proofs.
