(* ===== verification/ZsetOps.v ===== *)
(** ZsetOps: each operation of Zset.v on the elements of a sorted set against
    its counterpart of SortedSet.v. *)

From Stdlib Require Import ZArith Lia Bool.
From S2P Require Import Prelude Bytes Dict DictProofs DictOps Skiplist SkiplistProofs SkiplistOps SkiplistDelete SkiplistRange Zset SortedSet ZsetProofs.
From stdpp Require Import base list numbers decidable gmap sorting.

Local Open Scope Z_scope.

(** The list owns its nodes and leaves the rest of the heap [h0] alone. *)
Definition owns (h0 h : heap) (z : zskiplist) (L : list tower) : Prop :=
  forall b, (b ∈ addrs z L -> h0 !! b = None) /\ (b ∉ addrs z L -> h !! b = h0 !! b).

Lemma addrs_cons z L b : b ∈ addrs z L <-> b = zsl_header z \/ b ∈ map t_addr L.
Proof. unfold addrs, spine. simpl. rewrite map_map, elem_of_cons. done. Qed.

Lemma addrs_perm z z' L L' b : zsl_header z' = zsl_header z -> map t_addr L' ≡ₚ map t_addr L -> b ∈ addrs z' L' <-> b ∈ addrs z L.
Proof. intros Hh Hp. by rewrite !addrs_cons, Hh, Hp. Qed.

Lemma owns_same h0 h h' z z' L L' :
  owns h0 h z L -> only_on (addrs z L) h h' -> zsl_header z' = zsl_header z -> map t_addr L' ≡ₚ map t_addr L -> owns h0 h' z' L'.
Proof.
  intros Ho Hon Hh Hp b. rewrite (addrs_perm z z' L L' b Hh Hp). destruct (Ho b) as [H1 H2]. split; [done|].
  intros Hb. rewrite Hon by done. by apply H2.
Qed.

Lemma owns_insert h0 h h' z z' L L' t :
  owns h0 h z L -> only_on (t_addr t :: addrs z L) h h' -> h !! t_addr t = None -> zsl_header z' = zsl_header z ->
  L' ≡ₚ t :: L -> owns h0 h' z' L'.
Proof.
  intros Ho Hon Hnone Hh Hp b.
  assert (b ∈ addrs z' L' <-> b = t_addr t \/ b ∈ addrs z L) as Hb.
  { rewrite !addrs_cons, Hh. rewrite (Permutation_map t_addr Hp). simpl. rewrite elem_of_cons. tauto. }
  rewrite Hb. destruct (Ho b) as [H1 H2]. split.
  - intros [-> |Hin]; [|by apply H1]. destruct (decide (t_addr t ∈ addrs z L)) as [Hin|Hin]; [by apply H1|].
    rewrite <- H2 by done. done.
  - intros Hn. rewrite Hon; [apply H2; tauto|]. rewrite elem_of_cons. tauto.
Qed.

Lemma owns_delete h0 h h' z z' L L' t :
  owns h0 h z L -> only_on (addrs z L) h h' -> h' !! t_addr t = None -> zsl_header z' = zsl_header z ->
  L ≡ₚ t :: L' -> owns h0 h' z' L'.
Proof.
  intros Ho Hon Hnone Hh Hp b.
  assert (b ∈ addrs z L <-> b = t_addr t \/ b ∈ addrs z' L') as Hb.
  { rewrite !addrs_cons, Hh. rewrite (Permutation_map t_addr Hp). simpl. rewrite elem_of_cons. tauto. }
  destruct (Ho b) as [H1 H2]. rewrite Hb in H1, H2. split; [intros Hin; apply H1; by right|]. intros Hn.
  destruct (decide (b = t_addr t)) as [->|Hne]; [rewrite Hnone; symmetry; apply H1; by left|].
  rewrite Hon by (rewrite Hb; tauto). apply H2. tauto.
Qed.

Section zset_ops.
Context `{alloc : NodeAllocator} {laws : NodeAllocatorLaws}.
Context (hash : list Z -> Z) (hash_ok : forall k, 0 <= hash k < 2 ^ 64).
Local Abbreviation ty := (zsetDictType hash).

(** A sorted set in a heap that was [h0] without it. *)
Record zset_in (h0 h : heap) (zs : zset) (L : list tower) : Prop := {
  zi_list : zsl_ok h (zs_zsl zs) L;
  zi_dict : indexes hash h (zs_dict zs) L;
  zi_auto : pauseAutoResize (zs_dict zs) = 0;
  zi_owns : owns h0 h (zs_zsl zs) L;
}.

Lemma zset_sset h0 h zs L : zset_in h0 h zs L -> sset_ok (keys L).
Proof.
  intros [[Hsk Hso Hdi _] _ _ _]. constructor; [done|done|]. apply list.Forall_forall.
  intros e (t & -> & (p & Hp)%list_elem_of_lookup)%list_elem_of_fmap. destruct (sk_nodes _ _ _ Hsk p t Hp) as (n & _ & Hni & _). apply Hni.
Qed.

(** Where an element is, in both views. *)
Lemma split_entry L ele i e : entry_of (keys L) ele = Some (i, e) ->
  exists A t B, L = A ++ t :: B /\ length A = i /\ t_key t = e /\ e.2 = ele.
Proof.
  intros (A & B & E & Hi & He)%entry_of_split. unfold keys in E. apply map_eq_app in E as (A' & tB & -> & EA & EB).
  apply map_eq_cons in EB as (t & B' & -> & Et & _). exists A', t, B'. split; [done|]. split; [|done]. by rewrite <- Hi, <- EA, length_map.
Qed.

Lemma keys_mid A t B : keys (A ++ t :: B) = keys A ++ t_key t :: keys B.
Proof. unfold keys. by rewrite map_app. Qed.

Lemma addrs_ins_perm t L : map t_addr (ins_tower t L) ≡ₚ t_addr t :: map t_addr L.
Proof. change (t_addr t :: map t_addr L) with (map t_addr (t :: L)). apply Permutation_map, ins_tower_perm. Qed.

Lemma create_in h : exists h' zs, createZsetObject h = (h', zs) /\ zset_in h h' zs [].
Proof.
  unfold createZsetObject. destruct (create_ok h) as (h' & z & -> & Hok & Hnone & Hon). eexists _, _. split; [done|].
  constructor; [done| |done|].
  - constructor; [apply empty_dict_wf|done].
  - intros b. cbn [zs_zsl]. unfold addrs, spine. simpl. split; [|apply Hon].
    by intros [->|[]%not_elem_of_nil]%elem_of_cons.
Qed.

Lemma free_in h0 h zs L : zset_in h0 h zs L -> freeZsetObject h zs = Ok h0.
Proof.
  intros [Hz _ _ Ho]. destruct (free_ok h (zs_zsl zs) L Hz) as (h' & E & Hh). unfold freeZsetObject. rewrite E. f_equal.
  apply map_eq. intros b. rewrite Hh. destruct (Ho b) as [H1 H2]. destruct (decide (b ∈ addrs (zs_zsl zs) L)) as [Hb|Hb].
  - symmetry. by apply H1.
  - by apply H2.
Qed.

(** ** Scores and ranks *)

Lemma find_znode_ok cr h0 h zs L ele : zset_in h0 h zs L ->
  exists zs', find_znode hash cr h zs ele = Ok (zs', fst <$> entries L !! ele) /\ zset_in h0 h zs' L /\ zs_zsl zs' = zs_zsl zs.
Proof.
  intros [Hz Hi Ha Ho]. destruct (index_find hash hash_ok cr h (zs_dict zs) L ele Hi) as (d & r & E & Hi' & Ha' & Hr).
  unfold find_znode. rewrite E. runr. rewrite Hr. eexists. split; [done|]. split; [|done]. by constructor; [| |rewrite <- Ha|].
Qed.

Lemma zsetScore_ok cr h0 h zs L ele : zset_in h0 h zs L ->
  exists zs', zsetScore hash cr h zs ele = Ok (zs', score_of (keys L) ele) /\ zset_in h0 h zs' L.
Proof.
  intros Hin. destruct (find_znode_ok cr h0 h zs L ele Hin) as (zs' & E & Hin' & _). exists zs'. split; [|done].
  unfold zsetScore. rewrite E. runr. unfold score_of. destruct (entry_of (keys L) ele) as [[i e]|] eqn:He.
  - apply split_entry in He as (A & t & B & -> & _ & <- & <-). destruct Hin as [[Hsk _ Hdi _] _ _ _].
    rewrite (entries_at _ t Hdi) by (apply elem_of_app; right; by left). cbn [fmap option_fmap option_map fst].
    destruct (node_at _ _ _ _ _ Hsk) as (n & Hn & Hni & _). unfold get_node. rewrite Hn. runr. by rewrite (ni_score _ _ Hni).
  - by rewrite entries_none by by apply entry_of_none.
Qed.

Lemma zsetRank_ok cr h0 h zs L ele reverse : zset_in h0 h zs L ->
  exists zs', zsetRank hash cr h zs ele reverse = Ok (zs', rank_of (keys L) ele reverse) /\ zset_in h0 h zs' L.
Proof.
  intros Hin. destruct (find_znode_ok cr h0 h zs L ele Hin) as (zs' & E & Hin' & Ez). exists zs'. split; [|done].
  unfold zsetRank. rewrite E. runr. unfold rank_of. destruct (entry_of (keys L) ele) as [[i e]|] eqn:He.
  - apply split_entry in He as (A & t & B & -> & <- & <- & <-). destruct Hin as [[Hsk _ Hdi _] _ _ _].
    rewrite (entries_at _ t Hdi) by (apply elem_of_app; right; by left). cbn [fmap option_fmap option_map fst].
    rewrite Ez, (rank_by_node_ok h (zs_zsl zs) _ Hsk (length A) t) by by apply list_lookup_middle. runr.
    rewrite (proj2 (Z.eqb_neq _ _)) by lia. cbn [negb]. runr.
    destruct (node_at _ _ _ _ _ Hsk) as (n & Hn & Hni & _). unfold get_node. rewrite Hn. runr. rewrite (ni_score _ _ Hni).
    unfold zsetLength. rewrite (sk_length _ _ _ Hsk). pose proof (sk_bound _ _ _ Hsk) as Hb. unfold zlen, keys in *.
    rewrite length_map. rewrite length_app in *. cbn [length] in *. do 4 f_equal.
    destruct reverse; rewrite wrapU_small by lia; rewrite wrapS_small by lia; lia.
  - by rewrite entries_none by by apply entry_of_none.
Qed.

(** ** Removing *)

Lemma zsetDel_ok cr h0 h zs L ele : zset_in h0 h zs L ->
  exists h' zs' L', zsetDel hash cr h zs ele = Ok (h', zs', bool_decide (is_Some (entry_of (keys L) ele))) /\
    zset_in h0 h' zs' L' /\ keys L' = without (keys L) ele.
Proof.
  intros [Hz Hi Ha Ho]. unfold zsetDel, zsetRemoveFromSkiplist, dictUnlink. destruct (entry_of (keys L) ele) as [[i e]|] eqn:He.
  - apply split_entry in He as (A & t & B & -> & _ & <- & <-). pose proof (zo_distinct _ _ _ Hz) as Hdi.
    destruct (index_delete hash hash_ok cr h (zs_dict zs) A t B Hi Hdi) as (d & en & -> & Ek & Hi' & Ha'). runr. rewrite Ek.
    destruct (zslDelete_ok h (zs_zsl zs) A t B Hz) as (h' & z' & -> & Hz' & Hh & Hnone & Hon). runr.
    eexists _, _, (A ++ B). rewrite bool_decide_eq_true_2 by done. split; [done|]. split.
    + constructor; [done| |by cbn [zs_dict]; rewrite Ha'|].
      * apply (index_move hash h); [done| |by apply (elements_read_ok h' z'); apply Hz'].
        intros s Hs. apply (elements_read_ok h (zs_zsl zs) _ (zo_skl _ _ _ Hz)). apply elem_of_app in Hs as [Hs|Hs]; apply elem_of_app; [by left|right; by right].
      * apply (owns_delete h0 h h' (zs_zsl zs) z' (A ++ t :: B) _ t); try done. symmetry. apply Permutation_middle.
    + unfold keys at 2. rewrite map_app, map_cons. symmetry. unfold keys. rewrite map_app. apply without_mid.
      unfold keys in Hdi. by rewrite map_app, map_cons in Hdi.
  - apply entry_of_none in He as Hout. destruct (index_delete_none hash hash_ok cr h (zs_dict zs) L ele Hi Hout) as (d & -> & Hi' & Ha').
    runr. eexists _, _, L. split; [done|]. split; [by constructor; [| |rewrite <- Ha|]|].
    unfold without. symmetry. apply filter_all. intros y Hy E. apply Hout. apply list_elem_of_fmap. by exists y.
Qed.

(** ** Adding *)

Lemma insert_in cr h0 h zs L rnd uninit score ele d b :
  zset_in h0 h zs L -> indexes hash h d L -> pauseAutoResize d = 0 ->
  DictOps.located (ty h) d ele None -> b = None \/ (b = Some (target_link (ty h) d ele) /\ ht_live (ty h) (ht0 d)) ->
  zlen L + 1 < 2 ^ 63 - 1 -> isnan score = false -> ele ∉ map snd (keys L) ->
  zlen rnd < 2 ^ 30 -> (exists r, r ∈ rnd /\ random_threshold <= r) ->
  exists h' z' d' t, zslInsert rnd uninit h (zs_zsl zs) score ele = Ok (h', z', t_addr t) /\
    dictSetKeyAtLink (ty h') (fun _ => []) cr d (t_addr t) b true = Ok d' /\
    zset_in h0 h' {| zs_dict := d'; zs_zsl := z' |} (ins_tower t L) /\ t_key t = (score, ele).
Proof.
  intros [Hz _ _ Ho] Hi Ha Hloc Hb Hlen Hnan Hout Hrl Hr.
  destruct (zslInsert_ok rnd uninit h (zs_zsl zs) L score ele Hz Hlen Hnan Hout Hrl Hr) as (h' & z' & t & E & Ek & Hnone & Hz' & Hh & Hon).
  pose proof (elements_read_ok h' z' _ (zo_skl _ _ _ Hz')) as Hread.
  pose proof (ins_tower_perm t L) as Hp.
  assert (ele = (t_key t).2) as Eele by by rewrite Ek.
  destruct (index_add hash hash_ok cr (fun _ => []) h h' d L t b Hi) as (d' & Ed & Hi' & Ha').
  - apply (elements_read_ok h (zs_zsl zs) _ (zo_skl _ _ _ Hz)).
  - intros s Hs. apply Hread. rewrite Hp. by right.
  - apply Hread. rewrite Hp. by left.
  - apply Hz.
  - by rewrite <- Eele.
  - lia.
  - by rewrite <- Eele.
  - by rewrite <- Eele.
  - exists h', z', d', t. split; [done|]. split; [done|]. split; [|done]. constructor; [done| |by cbn [zs_dict]; rewrite Ha'|].
    + apply (index_perm hash h' d' (t :: L)); [|by symmetry|done]. unfold keys. simpl. constructor; [by rewrite <- Eele|apply Hz].
    + by apply (owns_insert h0 h h' (zs_zsl zs) z' L _ t).
Qed.

Lemma rescore_in h0 h zs A t B s d :
  zset_in h0 h zs (A ++ t :: B) -> indexes hash h d (A ++ t :: B) -> pauseAutoResize d = 0 -> isnan s = false ->
  exists h' z', zslUpdateScore h (zs_zsl zs) (t_addr t) s = Ok (h', z') /\
    zset_in h0 h' {| zs_dict := d; zs_zsl := z' |} (ins_tower (rescore t s) (A ++ B)).
Proof.
  intros [Hz _ _ Ho] Hi Ha Hs. destruct (zslUpdateScore_ok h (zs_zsl zs) A t B s Hz Hs) as (h' & z' & E & Hz' & Hh & Hon).
  exists h', z'. split; [done|]. pose proof (ins_tower_perm (rescore t s) (A ++ B)) as Hp.
  pose proof (Permutation_middle A B t) as Hm. constructor; [done| |done|].
  - apply (index_perm hash h' d (rescore t s :: A ++ B)).
    + pose proof (zo_distinct _ _ _ Hz) as Hdi. unfold keys in *. rewrite <- Hm in Hdi. done.
    + by symmetry.
    + assert (entries (rescore t s :: A ++ B) = entries (A ++ t :: B)) as He.
      { rewrite (entries_perm (A ++ t :: B) (t :: A ++ B)); [done|apply Hz|by symmetry]. }
      assert (indexes hash h d (rescore t s :: A ++ B)) as [Hwf Hab].
      { destruct Hi as [Hwf Hab]. constructor; [done|]. by rewrite Hab, He. }
      apply (index_move hash h h'); [by constructor| |].
      * pose proof (elements_read_ok h _ _ (zo_skl _ _ _ Hz)) as Hread. intros x Hx. apply elem_of_cons in Hx as [->|Hx].
        -- apply (Hread t). apply elem_of_app. right. by left.
        -- apply Hread. rewrite <- Hm. by right.
      * intros x Hx. apply (elements_read_ok h' z' _ (zo_skl _ _ _ Hz')). by rewrite Hp.
  - apply (owns_same h0 h h' (zs_zsl zs) z' (A ++ t :: B)); [done|done|done|].
    rewrite (Permutation_map t_addr Hp), <- (Permutation_map t_addr Hm). done.
Qed.

(** The comparisons of ZADD on scores that are numbers. *)
Lemma add_tests s cur : isnan s = false -> isnan cur = false ->
  SFleb cur s = (match fcmp s cur with Lt => false | _ => true end) /\
  SFleb s cur = (match fcmp s cur with Gt => false | _ => true end) /\
  SFeqb s cur = (match fcmp s cur with Eq => true | _ => false end).
Proof.
  intros Hs Hc. split_and!; [rewrite SFleb_fcmp, (fcmp_antisym s cur) by done; by destruct (fcmp s cur)|by apply SFleb_fcmp|by apply SFeqb_fcmp].
Qed.

Lemma keys_rescored A t B s :
  NoDup (map snd (keys (A ++ t :: B))) ->
  keys (ins_tower (rescore t s) (A ++ B)) = ins (s, (t_key t).2) (without (keys (A ++ t :: B)) (t_key t).2).
Proof.
  intros Hdi. rewrite keys_ins. cbn [t_key rescore]. f_equal. rewrite keys_mid in *. rewrite without_mid by done.
  unfold keys. by rewrite map_app.
Qed.

Lemma zsetAdd_ok cr h0 h zs L rnd uninit score ele flags :
  zset_in h0 h zs L -> zlen L + 1 < 2 ^ 63 - 1 -> zlen rnd < 2 ^ 30 -> (exists r, r ∈ rnd /\ random_threshold <= r) ->
  exists h' zs' L' r, zsetAdd hash cr rnd uninit h zs score ele flags = Ok (h', zs', r) /\
    zset_in h0 h' zs' L' /\ add_flags (keys L) score ele flags = (keys L', r).
Proof.
  intros Hin Hlen Hrl Hr. unfold zsetAdd, add_flags. fold (flag flags ZADD_IN_INCR) (flag flags ZADD_IN_NX) (flag flags ZADD_IN_XX)
    (flag flags ZADD_IN_GT) (flag flags ZADD_IN_LT).
  generalize (flag flags ZADD_IN_INCR) (flag flags ZADD_IN_NX) (flag flags ZADD_IN_XX) (flag flags ZADD_IN_GT) (flag flags ZADD_IN_LT).
  intros incr nx xx gt lt. unfold add. destruct (isnan score) eqn:Hnan; [by eexists _, _, L, _|].
  pose proof Hin as [Hz Hi Ha Ho].
  destruct (index_link hash hash_ok cr h (zs_dict zs) L ele Hi) as (d & l & b & -> & Hi' & Ha' & Hl). runr. rewrite Ha in Ha'.
  assert (zset_in h0 h (set_dict zs d) L) as Hin' by by constructor.
  unfold score_of. destruct (entry_of (keys L) ele) as [[i e]|] eqn:He; cbn [fmap option_fmap option_map fst snd].
  - apply split_entry in He as (A & t & B & -> & _ & <- & <-). rewrite (entries_at _ t (zo_distinct _ _ _ Hz)) in Hl by (apply elem_of_app; right; by left).
    destruct l as [l|]; [|by destruct Hl]. destruct Hl as (e & -> & Hc). runr. destruct nx; [by eexists _, _, _, _|].
    assert (dictGetKey e = t_addr t) as -> by by injection Hc.
    destruct (node_at _ _ _ _ _ (zo_skl _ _ _ Hz)) as (n & Hn & Hni & _). unfold get_node at 1. rewrite Hn. runr. rewrite (ni_score _ _ Hni).
    set (s := if incr then double_add score (t_key t).1 else score).
    assert (incr && isnan s = isnan s) as -> by (unfold s; by destruct incr; [|rewrite Hnan]).
    destruct (isnan s) eqn:Hsn; [by eexists _, _, _, _|].
    destruct (add_tests s (t_key t).1 Hsn (ni_nan _ _ Hni)) as (-> & -> & ->).
    destruct (rescore_in h0 h (set_dict zs d) A t B s d Hin' Hi' Ha' Hsn) as (h' & z' & Hup & Hin2).
    pose proof (keys_rescored A t B s (zo_distinct _ _ _ Hz)) as Hk.
    destruct (fcmp s (t_key t).1), gt, lt; cbn [andb orb negb]; try by eexists _, _, _, _.
    all: unfold set_dict in Hup; cbn [zs_zsl set_dict] in *; rewrite Hup; runr; eexists _, _, _, _; (split; [done|]); (split; [exact Hin2|by rewrite Hk]).
  - apply entry_of_none in He as Hout. rewrite (entries_none _ _ Hout) in Hl. destruct l as [l|]; [by destruct Hl as (? & _ & ?)|].
    destruct Hl as (_ & Hloc & Hb). destruct xx; cbn [negb]; [by eexists _, _, L, _|].
    destruct (insert_in cr h0 h (set_dict zs d) L rnd uninit score ele d b Hin' Hi' Ha' Hloc Hb Hlen Hnan Hout Hrl Hr)
      as (h' & z' & d' & t & Hins & Hset & Hin2 & Ek).
    rewrite Hins. runr. rewrite Hset. runr. eexists _, _, _, _. split; [done|]. split; [exact Hin2|]. by rewrite keys_ins, Ek.
Qed.
End zset_ops.
