(* ===== verification/ZsetRange.v ===== *)
(** ZsetRange: the deletions of ranges of a sorted set, by score, by element and
    by rank, against SortedSet.v. *)

From Stdlib Require Import ZArith Lia Bool.
From S2P Require Import Prelude Bytes Dict DictProofs DictOps Skiplist SkiplistProofs SkiplistOps SkiplistDelete SkiplistRange Zset SortedSet ZsetProofs ZsetOps.
From stdpp Require Import base list numbers decidable gmap sorting.

Local Open Scope Z_scope.

(** * Windows of a list *)

Lemma filter_outside {A} (P : A -> Prop) `{forall x, Decision (P x)} (l : list A) lo hi :
  (lo <= hi)%nat -> (forall p x, l !! p = Some x -> P x <-> ~ (lo <= p < hi)%nat) -> filter P l = take lo l ++ drop hi l.
Proof.
  intros Hlh HP. rewrite <- (take_drop lo l) at 1. rewrite filter_app. f_equal.
  - apply filter_all. intros x (p & Hp)%list_elem_of_lookup. apply lookup_take_Some in Hp as [Hp Hlt]. rewrite (HP _ _ Hp). lia.
  - rewrite <- (take_drop (hi - lo) (drop lo l)). rewrite filter_app, drop_drop. replace (lo + (hi - lo))%nat with hi by lia.
    rewrite (filter_none _ (take (hi - lo) (drop lo l))), filter_all; [done| |].
    + intros x (p & Hp)%list_elem_of_lookup. rewrite lookup_drop in Hp. rewrite (HP _ _ Hp). lia.
    + intros x (p & Hp)%list_elem_of_lookup Hx. apply lookup_take_Some in Hp as [Hp Hlt]. rewrite lookup_drop in Hp.
      apply (HP _ _ Hp) in Hx. lia.
Qed.

Section cut.
Context (L : list tower) (g m : scored -> bool) (a b : nat).
Context (Ha : prefix_of (fun e => negb (g e)) L a) (Hb : prefix_of m L b).

Lemma cut_at p e : keys L !! p = Some e -> g e && m e = true <-> (a <= p < b)%nat.
Proof.
  intros (t & Ht & <-)%key_tower. pose proof (proj2 Ha p t Ht) as Hp. pose proof (proj2 Hb p t Ht) as Hq.
  rewrite negb_true_iff in Hp. rewrite andb_true_iff, Hq, <- not_false_iff_true, Hp. lia.
Qed.

Lemma among_window : among (fun e => g e && m e) (keys L) = take (b - a) (drop a (keys L)).
Proof.
  unfold among. rewrite (filter_window _ _ a (a + (b - a))%nat); [f_equal; lia|lia|]. intros p e He. rewrite (cut_at p e He). lia.
Qed.

Lemma except_window : except (fun e => g e && m e) (keys L) = take a (keys L) ++ drop (a + (b - a)) (keys L).
Proof.
  unfold except. apply filter_outside; [lia|]. intros p e He. rewrite <- not_true_iff_false, (cut_at p e He). lia.
Qed.

Lemma among_length : length (among (fun e => g e && m e) (keys L)) = (b - a)%nat.
Proof.
  rewrite among_window, length_take, length_drop. unfold keys. rewrite length_map. pose proof (proj1 Ha). pose proof (proj1 Hb). lia.
Qed.
End cut.

Section zset_ranges.
Context `{alloc : NodeAllocator} {laws : NodeAllocatorLaws}.
Context (hash : list Z -> Z) (hash_ok : forall k, 0 <= hash k < 2 ^ 64).
Local Abbreviation ty := (zsetDictType hash).

(** * Deleting *)

(** [zset_in] without the state of automatic resizing, which range deletions
    pause. *)
Record zset_core (h0 h : heap) (zs : zset) (L : list tower) : Prop := {
  zc_list : zsl_ok h (zs_zsl zs) L;
  zc_dict : indexes hash h (zs_dict zs) L;
  zc_owns : owns h0 h (zs_zsl zs) L;
}.

Lemma core_of_in h0 h zs L : zset_in hash h0 h zs L -> zset_core h0 h zs L.
Proof. by intros []. Qed.

(** One turn of the deletion loop. *)
Lemma delete_turn cr h0 h zs A t B upd :
  zset_core h0 h zs (A ++ t :: B) ->
  searched (spine (zsl_header (zs_zsl zs)) (A ++ t :: B)) (length A) (Z.to_nat (zsl_level (zs_zsl zs)))
    (take (Z.to_nat (zsl_level (zs_zsl zs))) upd) ->
  exists h1 z1 d h2 z2, zslUnlinkNode h (zs_zsl zs) (t_addr t) upd = Ok (h1, z1) /\
    zslGetNodeElement h1 (t_addr t) = Ok (t_key t).2 /\
    dictDelete (ty h1) cr (zs_dict zs) (t_key t).2 = Ok (d, true) /\ zslFreeNode h1 z1 (t_addr t) = Ok (h2, z2) /\
    zset_core h0 h2 {| zs_dict := d; zs_zsl := z2 |} (A ++ B) /\ pauseAutoResize d = pauseAutoResize (zs_dict zs) /\
    zsl_header z2 = zsl_header (zs_zsl zs) /\
    searched (spine (zsl_header z2) (A ++ B)) (length A) (Z.to_nat (zsl_level z2)) (take (Z.to_nat (zsl_level z2)) upd).
Proof.
  intros [Hz Hi Ho] Hup. pose proof (sk_level _ _ _ (zo_skl _ _ _ Hz)) as Hlev. pose proof (zo_distinct _ _ _ Hz) as Hdi.
  destruct (unlink_free_ok h (zs_zsl zs) A t B _ Hz Hup) as (h1 & z1 & h2 & z2 & E1 & E2 & Hsk1 & (n & Hn & Hni) & Hz2 & Hh & Hl & Hnone & Hon).
  rewrite zslUnlinkNode_take in E1 by lia.
  assert (elements_read h1 (A ++ t :: B)) as Hread1.
  { pose proof (elements_read_ok h1 z1 _ Hsk1) as Hr. intros s Hs. rewrite <- Permutation_middle in Hs.
    apply elem_of_cons in Hs as [->|Hs]; [|by apply Hr]. unfold zslGetNodeElementForDict. rewrite Hn. apply (ni_ele _ _ Hni). }
  assert (indexes hash h1 (zs_dict zs) (A ++ t :: B)) as Hi1.
  { apply (index_move hash h); [done| |done]. apply (elements_read_ok h (zs_zsl zs)). apply Hz. }
  destruct (index_delete hash hash_ok cr h1 (zs_dict zs) A t B Hi1 Hdi) as (d & e & Ed & _ & Hi' & Ha).
  exists h1, z1, d, h2, z2. split; [done|]. split.
  { unfold zslGetNodeElement, get_node. rewrite Hn. runr. rewrite (proj2 (Z.eqb_neq _ _)) by apply (ni_offset _ _ Hni). cbn [negb]. runr. f_equal. apply (ni_ele _ _ Hni). }
  split; [unfold dictDelete; by rewrite Ed|]. split; [done|]. split; [|split; [done|split; [done|]]].
  - constructor; [done| |].
    + apply (index_move hash h1); [done| |].
      * intros s Hs. apply Hread1. rewrite <- Permutation_middle. by right.
      * apply (elements_read_ok h2 z2). apply Hz2.
    + apply (owns_delete h0 h h2 (zs_zsl zs) z2 (A ++ t :: B) _ t); try done. symmetry. apply Permutation_middle.
  - rewrite Hh. apply (searched_shorter _ A t B (Z.to_nat (zsl_level (zs_zsl zs)))); [done|].
    apply zslUnlinkNode_level in E1. lia.
Qed.

Section deletion_loop.
Context (cr : dictResizeEnable) (h0 : heap) (test : Z -> heap -> addr -> result bool) (P : Z -> scored -> bool).
Context (Htest : forall r h z A t B, skl h z (A ++ t :: B) -> test r h (t_addr t) = Ok (P r (t_key t))).

(** How many nodes go. *)
Fixpoint doomed (r : Z) (B : list tower) : nat :=
  match B with [] => 0 | t :: B => if P r (t_key t) then S (doomed (r + 1) B) else 0 end.

Lemma doomed_le B : forall r, (doomed r B <= length B)%nat.
Proof. induction B as [|t B IH]; intros r; simpl; [lia|]. destruct (P r (t_key t)); [|lia]. specialize (IH (r + 1)). lia. Qed.

Lemma delete_range_loop_ok A upd : forall B fuel h zs r removed,
  zset_core h0 h zs (A ++ B) ->
  searched (spine (zsl_header (zs_zsl zs)) (A ++ B)) (length A) (Z.to_nat (zsl_level (zs_zsl zs)))
    (take (Z.to_nat (zsl_level (zs_zsl zs))) upd) ->
  (length B <= fuel)%nat -> 0 <= r -> r + zlen B < 2 ^ 64 -> 0 <= removed -> removed + zlen B < 2 ^ 64 ->
  exists h' zs', delete_range_loop hash cr fuel test h zs upd r (t_addr <$> head B) removed =
      Ok (h', zs', removed + Z.of_nat (doomed r B)) /\
    zset_core h0 h' zs' (A ++ drop (doomed r B) B) /\ pauseAutoResize (zs_dict zs') = pauseAutoResize (zs_dict zs).
Proof.
  induction B as [|t B IH]; intros fuel h zs r removed Hc Hup Hf Hr1 Hr2 Hm1 Hm2.
  - exists h, zs. destruct fuel; cbn [head fmap option_fmap option_map delete_range_loop doomed drop]; rewrite Z.add_0_r; done.
  - rewrite zlen_cons in *. pose proof (zlen_nonneg B). cbn [head fmap option_fmap option_map].
    pose proof (zo_skl _ _ _ (zc_list _ _ _ _ Hc)) as Hsk. destruct fuel as [|fuel]; [simpl in Hf; lia|]. cbn [delete_range_loop doomed].
    rewrite (Htest r h _ A t B Hsk). runr. destruct (P r (t_key t)); [|exists h, zs; cbn [drop]; rewrite Z.add_0_r; done].
    rewrite (forward_zero h _ (A ++ t :: B) (S (length A)) _ (t_height t) Hsk) by (by rewrite spine_node, list_lookup_middle).
    assert ((A ++ t :: B) !! S (length A) = head B) as ->.
    { rewrite lookup_app_r by lia. replace (S (length A) - length A)%nat with 1%nat by lia. by destruct B. }
    destruct (delete_turn cr h0 h zs A t B upd Hc Hup) as (h1 & z1 & d & h2 & z2 & E1 & E2 & E3 & E4 & Hc2 & Ha & Hh & Hup2).
    runr. rewrite E1. runr. rewrite E2. runr. rewrite E3. runr. rewrite E4. runr. rewrite !wrapU_small by lia.
    destruct (IH fuel h2 {| zs_dict := d; zs_zsl := z2 |} (r + 1) (removed + 1)) as (h' & zs' & E & Hc' & Ha'); try done; try lia.
    { simpl in Hf. lia. }
    exists h', zs'. rewrite E. split; [do 2 f_equal; lia|]. split; [done|]. by rewrite Ha'.
Qed.

(** The whole deletion: the search stops at position [k]. *)
Lemma delete_window_ok cond h zs L k :
  zset_core h0 h zs L -> up_to (zs_zsl zs) L cond 0 k -> (k <= length L)%nat ->
  exists h' zs', delete_range hash cr cond test h zs = Ok (h', zs', Z.of_nat (doomed (Z.of_nat k + 1) (drop k L))) /\
    zset_core h0 h' zs' (take k L ++ drop (k + doomed (Z.of_nat k + 1) (drop k L)) L) /\
    pauseAutoResize (zs_dict zs') = pauseAutoResize (zs_dict zs).
Proof.
  intros Hc Hcond Hk. pose proof (zo_skl _ _ _ (zc_list _ _ _ _ Hc)) as Hsk. pose proof (sk_bound _ _ _ Hsk) as Hb. unfold zlen in Hb.
  destruct (descend_all h (zs_zsl zs) L Hsk cond k Hcond Hk) as (a & H & upd & E & Ha & Hup).
  unfold delete_range. rewrite E. runr. rewrite (forward_zero h _ L k a H Hsk Ha), wrapU_small by lia. runr.
  assert (L !! k = head (drop k L)) as ->.
  { rewrite <- (Nat.add_0_r k) at 1. rewrite <- lookup_drop. by destruct (drop k L). }
  assert (length (take k L) = k) as Elen by (rewrite length_take; lia).
  destruct (delete_range_loop_ok (take k L) upd (drop k L) (list_fuel (zs_zsl zs)) h zs (Z.of_nat k + 1) 0) as (h' & zs' & E' & Hc' & Ha').
  - by rewrite take_drop.
  - rewrite take_drop, Elen. rewrite take_ge; [done|]. by rewrite (proj1 Hup).
  - unfold list_fuel. rewrite (sk_length _ _ _ Hsk). unfold zlen. rewrite length_drop. lia.
  - lia.
  - unfold zlen. rewrite length_drop. lia.
  - lia.
  - unfold zlen. rewrite length_drop. lia.
  - exists h', zs'. rewrite E'. split; [done|]. by rewrite drop_drop in Hc'.
Qed.
End deletion_loop.

(** The nodes that go are those before the end of the range. *)
Lemma doomed_cut m L a b r : prefix_of m L b -> (a <= length L)%nat ->
  doomed (fun _ => m) r (drop a L) = (b - a)%nat.
Proof.
  intros [Hb1 Hb2] Ha. assert (forall B r c, (c <= length B)%nat -> (forall p t, B !! p = Some t -> m (t_key t) = true <-> (p < c)%nat) ->
    doomed (fun _ => m) r B = c) as Hd.
  { clear. intros B. induction B as [|t B IH]; intros r c Hc Hm; simpl in *; [lia|].
    pose proof (Hm 0%nat t eq_refl) as H0. destruct (m (t_key t)).
    - destruct c as [|c]; [pose proof (proj1 H0 eq_refl); lia|]. f_equal. apply IH; [lia|]. intros p s Hs.
      rewrite (Hm (S p) s Hs). lia.
    - destruct c as [|c]; [done|]. assert (false = true); [|done]. apply H0. lia. }
  apply Hd; [rewrite length_drop; lia|]. intros p t Ht. rewrite lookup_drop in Ht. rewrite (Hb2 _ _ Ht). lia.
Qed.

Lemma keys_cut L k j : keys (take k L ++ drop j L) = take k (keys L) ++ drop j (keys L).
Proof. unfold keys. by rewrite map_app, firstn_map, skipn_map. Qed.

Lemma delete_cut cr h0 h zs L gte lte nth g m :
  zset_core h0 h zs L -> ranged h L nth gte lte g m ->
  (forall h z A t B, skl h z (A ++ t :: B) -> lte h (t_addr t) = Ok (m (t_key t))) ->
  exists h' zs' L', delete_range hash cr (cond_forward (not_test gte) h) (fun _ => lte) h zs =
      Ok (h', zs', zlen (among (fun e => g e && m e) (keys L))) /\
    zset_core h0 h' zs' L' /\ pauseAutoResize (zs_dict zs') = pauseAutoResize (zs_dict zs) /\
    keys L' = except (fun e => g e && m e) (keys L).
Proof.
  intros Hc [Hg Hl _ (a & b & Ha & Hb)] Hlte. pose proof (zo_skl _ _ _ (zc_list _ _ _ _ Hc)) as Hsk. pose proof (proj1 Ha) as Han.
  destruct (delete_window_ok cr h0 (fun _ => lte) (fun _ => m) (fun _ => Hlte) (cond_forward (not_test gte) h) h zs L a Hc) as (h' & zs' & E & Hc' & Hp).
  - apply (up_to_forward h (zs_zsl zs) L _ (fun e => negb (g e))); [|done]. by apply not_tests.
  - done.
  - rewrite (doomed_cut m L a b) in E, Hc' by done. eexists h', zs', _.
    split; [rewrite E; unfold zlen; by rewrite (among_length L g m a b Ha Hb)|]. split; [exact Hc'|]. split; [done|].
    rewrite keys_cut. symmetry. by apply except_window.
Qed.

Lemma zslDeleteRangeByScore_ok cr h0 h zs L range :
  zset_core h0 h zs L -> isnan (zr_min range) = false -> isnan (zr_max range) = false ->
  exists h' zs' L', zslDeleteRangeByScore hash cr h zs range = Ok (h', zs', zlen (among (score_selects range) (keys L))) /\
    zset_core h0 h' zs' L' /\ pauseAutoResize (zs_dict zs') = pauseAutoResize (zs_dict zs) /\
    keys L' = except (score_selects range) (keys L).
Proof.
  intros Hc Hmin Hmax. pose proof (zc_list _ _ _ _ Hc) as [Hsk Hso _ _].
  apply (delete_cut cr h0 h zs L _ _ _ _ _ Hc (ranged_score h _ L range Hsk Hso Hmin Hmax)).
  intros h1 z A t B Hsk'. destruct (score_tests h1 z _ range Hsk' Hmin Hmax) as [_ Hl]. apply (Hl (length A)). by apply list_lookup_middle.
Qed.

Lemma zslDeleteRangeByLex_ok cr h0 h zs L range :
  zset_core h0 h zs L -> (forall a b, a ∈ keys L -> b ∈ keys L -> fcmp a.1 b.1 = Eq) ->
  exists h' zs' L', zslDeleteRangeByLex hash cr h zs range = Ok (h', zs', zlen (among (lex_selects range) (keys L))) /\
    zset_core h0 h' zs' L' /\ pauseAutoResize (zs_dict zs') = pauseAutoResize (zs_dict zs) /\
    keys L' = except (lex_selects range) (keys L).
Proof.
  intros Hc Hsame. pose proof (zc_list _ _ _ _ Hc) as [Hsk Hso _ _].
  apply (delete_cut cr h0 h zs L _ _ _ _ _ Hc (ranged_lex h _ L range Hsk Hso Hsame)).
  intros h1 z A t B Hsk'. destruct (lex_tests h1 z _ range Hsk') as [_ Hl]. apply (Hl (length A)). by apply list_lookup_middle.
Qed.

Lemma doomed_ranks end_ B : forall r, doomed (fun r _ => r <=? end_) r B = Nat.min (length B) (Z.to_nat (end_ - r + 1)).
Proof.
  induction B as [|t B IH]; intros r; cbn [doomed length]; [done|]. rewrite IH. destruct (Z.leb_spec r end_); lia.
Qed.

Lemma zslDeleteRangeByRank_ok cr h0 h zs L start end_ :
  zset_core h0 h zs L -> 1 <= start < 2 ^ 32 -> 0 <= end_ < 2 ^ 32 ->
  exists h' zs' L', zslDeleteRangeByRank hash cr h zs start end_ =
      Ok (h', zs', zlen (keys L) - zlen (without_ranks (keys L) start end_)) /\
    zset_core h0 h' zs' L' /\ pauseAutoResize (zs_dict zs') = pauseAutoResize (zs_dict zs) /\
    keys L' = without_ranks (keys L) start end_.
Proof.
  intros Hc Hs He. pose proof (zc_list _ _ _ _ Hc) as [Hsk _ _ _].
  destruct (delete_window_ok cr h0 (fun r _ _ => Ok (r <=? end_)) (fun r _ => r <=? end_) (fun _ _ _ _ _ _ _ => eq_refl)
    (fun t s f => Ok (match f with Some _ => u64 (t + s) <? start | None => false end)) h zs L (Nat.min (length L) (Z.to_nat (start - 1))) Hc)
    as (h' & zs' & E & Hc' & Hp).
  - intros p q Hp Hq. pose proof (up_to_rank h (zs_zsl zs) L Hsk 0 (start - 1) ltac:(lia) ltac:(lia) p q Hp Hq) as Hu.
    cbn [Nat.add] in Hu. rewrite <- Hu. f_equal.
    destruct (fst <$> _); [|done]. change (Z.of_nat 0) with 0. generalize (u64 (Z.of_nat p - 0 + Z.of_nat (Nat.min q (length L) - p))).
    intros x. destruct (Z.ltb_spec x start), (Z.leb_spec x (start - 1)); done || lia.
  - lia.
  - set (k := Nat.min (length L) (Z.to_nat (start - 1))) in *. rewrite (doomed_ranks end_) in E, Hc'. rewrite length_drop in E, Hc'.
    assert (keys (take k L ++ drop (k + Nat.min (length L - k) (Z.to_nat (end_ - (Z.of_nat k + 1) + 1))) L) = without_ranks (keys L) start end_) as Ek.
    { rewrite keys_cut. unfold without_ranks. assert (length (keys L) = length L) as El by (unfold keys; apply length_map).
      destruct (Nat.le_gt_cases (length L) (Z.to_nat (start - 1))).
      - rewrite !(take_ge (keys L)) by lia. rewrite !drop_ge by lia. done.
      - replace k with (Z.to_nat (start - 1)) by lia. f_equal.
        destruct (Nat.le_gt_cases (length L) (Nat.max (Z.to_nat (start - 1)) (Z.to_nat end_))); [by rewrite !drop_ge by lia|].
        f_equal. lia. }
    eexists h', zs', _. split; [unfold zslDeleteRangeByRank; rewrite E, <- Ek|split; [exact Hc'|split; [done|done]]].
    rewrite keys_cut. unfold zlen, keys. rewrite length_app, length_take, length_drop, length_map. do 3 f_equal. lia.
Qed.

(** ** Deletions as commands run them *)

Lemma index_pause h d L p : indexes hash h d L -> indexes hash h (set_pauseAutoResize d p) L.
Proof.
  intros [[Ht Hk] Ha]. constructor; [|exact Ha]. constructor; [|exact Hk].
  destruct Ht as [?|[]]; [by left|right; by constructor].
Qed.

Lemma zremrange_ok cr h0 h zs L del K' c :
  zset_in hash h0 h zs L ->
  (forall zs, zset_core h0 h zs L -> exists h' zs' L', del h zs = Ok (h', zs', c) /\ zset_core h0 h' zs' L' /\
     pauseAutoResize (zs_dict zs') = pauseAutoResize (zs_dict zs) /\ keys L' = K') ->
  exists h' zs' L', zremrange hash cr del h zs = Ok (h', zs', c) /\ zset_in hash h0 h' zs' L' /\ keys L' = K'.
Proof.
  intros [Hz Hi Ha Ho] Hdel. unfold zremrange.
  destruct (Hdel (set_dict zs (dictPauseAutoResize (zs_dict zs)))) as (h' & zs' & L' & -> & [Hz' Hi' Ho'] & Hp & Hk).
  { constructor; [done|by apply index_pause|done]. }
  runr. cbn [zs_dict set_dict dictPauseAutoResize set_pauseAutoResize pauseAutoResize] in Hp. rewrite Ha in Hp.
  assert (indexes hash h' (dictResumeAutoResize (zs_dict zs')) L') as Hi2 by by apply index_pause.
  assert (pauseAutoResize (dictResumeAutoResize (zs_dict zs')) = 0) as Ha2.
  { cbn [dictResumeAutoResize set_pauseAutoResize pauseAutoResize]. by rewrite Hp. }
  destruct (dictSize (dictResumeAutoResize (zs_dict zs')) =? 0).
  - eexists _, _, L'. split; [done|]. split; [by constructor|done].
  - destruct (shrinkIfNeeded_ok (ty h') cr _ (ix_wf _ _ _ _ Hi2)) as (d & b & -> & Hm). runr.
    eexists _, _, L'. split; [done|]. split; [|done]. constructor; [done| | |done].
    + by apply (index_maintains hash h' (dictResumeAutoResize (zs_dict zs'))).
    + cbn [zs_dict set_dict]. by rewrite (mt_auto _ _ _ Hm).
Qed.

Lemma sanitize_ok n start end_ : 0 <= n < 2 ^ 63 -> - 2 ^ 63 <= start < 2 ^ 63 -> - 2 ^ 63 <= end_ < 2 ^ 63 ->
  sanitize_indexes n start end_ =
    let '(a, b) := rank_window n start end_ in if a <=? b then Some (a, b) else None.
Proof.
  intros Hn Hs He. unfold sanitize_indexes, rank_window.
  assert (forall i, - 2 ^ 63 <= i < 2 ^ 63 -> (if i <? 0 then i64 (n + i) else i) = norm_index n i) as Hnorm.
  { intros i Hi. unfold norm_index. destruct (Z.ltb_spec i 0); [|done]. apply wrapS_small; lia. }
  rewrite !Hnorm by done.
  assert ((if norm_index n start <? 0 then 0 else norm_index n start) = Z.max 0 (norm_index n start)) as ->.
  { destruct (Z.ltb_spec (norm_index n start) 0); lia. }
  rewrite Z.gtb_ltb, !Z.geb_leb.
  assert ((if n <=? norm_index n end_ then n - 1 else norm_index n end_) = Z.min (n - 1) (norm_index n end_)) as ->
    by (destruct (Z.leb_spec n (norm_index n end_)); lia).
  destruct (Z.ltb_spec (norm_index n end_) (Z.max 0 (norm_index n start))), (Z.leb_spec n (Z.max 0 (norm_index n start))),
    (Z.leb_spec (Z.max 0 (norm_index n start)) (Z.min (n - 1) (norm_index n end_))); done || lia.
Qed.

(** The set must be small enough for its ranks to be unsigned ints. *)
Lemma zremrangebyrank_ok cr h0 h zs L start end_ : zset_in hash h0 h zs L -> zlen (keys L) < 2 ^ 32 ->
  - 2 ^ 63 <= start < 2 ^ 63 -> - 2 ^ 63 <= end_ < 2 ^ 63 ->
  exists h' zs' L', zremrangebyrank hash cr start end_ h zs =
      Ok (h', zs', zlen (keys L) - zlen (without_window (keys L) start end_)) /\
    zset_in hash h0 h' zs' L' /\ keys L' = without_window (keys L) start end_.
Proof.
  intros Hin Hlen Hs He. unfold zremrangebyrank, without_window. pose proof (zlen_nonneg (keys L)) as H0.
  assert (i64 (zsetLength zs) = zlen (keys L)) as ->.
  { unfold zsetLength. rewrite (sk_length _ _ _ (zo_skl _ _ _ (zi_list _ _ _ _ _ Hin))). unfold zlen, keys in *. rewrite length_map in *.
    apply wrapS_small; lia. }
  rewrite sanitize_ok by lia. destruct (rank_window _ _ _) as [a b] eqn:Ew. injection Ew as Ea Eb.
  destruct (Z.leb_spec a b).
  - eapply zremrange_ok; [exact Hin|]. intros zs1 Hc. rewrite !wrapU_small by lia. apply zslDeleteRangeByRank_ok; [done|lia|lia].
  - exists h, zs, L. split; [do 3 f_equal; lia|done].
Qed.
End zset_ranges.
