(* ===== verification/ZsetList.v ===== *)
(** ZsetList: counting, listing and popping the elements of a sorted set, and
    copying it, against SortedSet.v. *)

From Stdlib Require Import ZArith Lia Bool.
From S2P Require Import Prelude Bytes Dict DictProofs DictOps Skiplist SkiplistProofs SkiplistOps SkiplistDelete SkiplistRange Zset SortedSet ZsetProofs ZsetOps ZsetRange.
From stdpp Require Import base list numbers decidable gmap sorting.

Local Open Scope Z_scope.

(** * Walking along the list *)

(** The nodes [T] follow each other in the direction of the walk. *)
Record walkable (reverse : bool) (h : heap) (T : list tower) : Prop := {
  wk_emit : forall t, t ∈ T -> emit_node h (t_addr t) = Ok (t_key t);
  wk_next : forall A t B, T = A ++ t :: B -> next_node reverse h (t_addr t) = Ok (t_addr <$> head B);
}.

Lemma walkable_tail reverse h t T : walkable reverse h (t :: T) -> walkable reverse h T.
Proof.
  intros [He Hn]. constructor; [intros s Hs; apply He; by right|]. intros A s B ->. apply (Hn (t :: A)). done.
Qed.

Fixpoint takewhile (f : scored -> bool) (l : list scored) : list scored :=
  match l with [] => [] | e :: l => if f e then e :: takewhile f l else [] end.

Definition up_to_limit (limit : Z) (l : list scored) : list scored :=
  if limit <? 0 then l else take (Z.to_nat limit) l.

Lemma emit_loop_ok reverse h : forall n T, walkable reverse h T -> (n <= length T)%nat ->
  emit_loop n reverse h (t_addr <$> head T) = Ok (take n (keys T)).
Proof.
  induction n as [|n IH]; intros T Hw Hn; [done|]. destruct T as [|t T]; [simpl in Hn; lia|]. simpl in Hn.
  cbn [emit_loop head fmap option_fmap option_map keys map take]. rewrite (wk_emit _ _ _ Hw) by by left. runr.
  rewrite (wk_next _ _ _ Hw [] t T eq_refl). runr. rewrite IH by (lia || by eapply walkable_tail). done.
Qed.

Lemma emit_range_loop_ok reverse test f h : forall T fuel limit, walkable reverse h T ->
  (forall t, t ∈ T -> test h (t_addr t) = Ok (f (t_key t))) -> (length T <= fuel)%nat -> - 2 ^ 63 + zlen T <= limit < 2 ^ 63 ->
  emit_range_loop fuel reverse test h (t_addr <$> head T) limit = Ok (up_to_limit limit (takewhile f (keys T))).
Proof.
  induction T as [|t T IH]; intros fuel limit Hw Ht Hf Hl.
  { destruct fuel; cbn [head fmap option_fmap option_map emit_range_loop]; unfold up_to_limit; simpl; by rewrite take_nil; case_match. }
  rewrite zlen_cons in Hl. pose proof (zlen_nonneg T). destruct fuel as [|fuel]; [simpl in Hf; lia|].
  cbn [head fmap option_fmap option_map emit_range_loop keys map takewhile]. destruct (Z.eqb_spec limit 0) as [->|Hne]; [done|].
  rewrite chk_i64_ok by lia. runr. rewrite Ht by by left. runr. destruct (f (t_key t)).
  2: { unfold up_to_limit. rewrite take_nil. by case_match. }
  rewrite (wk_emit _ _ _ Hw) by by left. runr. rewrite (wk_next _ _ _ Hw [] t T eq_refl). runr.
  rewrite IH; [|by eapply walkable_tail|intros s Hs; apply Ht; by right|simpl in Hf; lia|lia]. runr. f_equal. unfold up_to_limit.
  destruct (Z.ltb_spec (limit - 1) 0), (Z.ltb_spec limit 0); try done; try lia.
  replace (Z.to_nat limit) with (S (Z.to_nat (limit - 1))) by lia. done.
Qed.

Section walks.
Context (h : heap) (z : zskiplist) (L : list tower) (Hsk : skl h z L).

Lemma emit_node_ok p t : L !! p = Some t -> emit_node h (t_addr t) = Ok (t_key t).
Proof.
  intros Ht. unfold emit_node. rewrite (node_ele h z L p t Hsk Ht). destruct (node_score h z L p t Hsk Ht) as (n & Hn & Es & _).
  unfold get_node. rewrite Hn. runr. rewrite Es. by destruct (t_key t).
Qed.

Lemma walk_forward i : walkable false h (drop i L).
Proof.
  constructor.
  - intros t (p & Hp)%list_elem_of_lookup. rewrite lookup_drop in Hp. by eapply emit_node_ok.
  - intros A t B E. cbn [next_node]. assert (L !! (i + length A)%nat = Some t) as Ht.
    { rewrite <- lookup_drop, E. by apply list_lookup_middle. }
    rewrite (forward_zero h z L (S (i + length A)) _ (t_height t) Hsk) by (by rewrite spine_node, Ht). do 2 f_equal.
    replace (S (i + length A)) with (i + S (length A))%nat by lia. rewrite <- lookup_drop, E, lookup_app_r by lia.
    replace (S (length A) - length A)%nat with 1%nat by lia. by destruct B.
Qed.

Lemma walk_backward i : walkable true h (rev (take i L)).
Proof.
  constructor.
  - intros t Ht. apply list_elem_of_In, in_rev, list_elem_of_In, list_elem_of_lookup in Ht as (p & Hp).
    apply lookup_take_Some in Hp as [Hp _]. by eapply emit_node_ok.
  - intros A t B E. cbn [next_node]. apply (f_equal (@rev _)) in E. rewrite rev_involutive, rev_app_distr in E. simpl in E.
    rewrite <- app_assoc in E. simpl in E. assert (L !! length (rev B) = Some t) as Ht.
    { rewrite <- (take_drop i L), E, <- app_assoc. by apply list_lookup_middle. }
    destruct (sk_nodes _ _ _ Hsk _ t Ht) as (n & Hn & _ & Hb). unfold get_node. rewrite Hn. runr. rewrite Hb. f_equal.
    destruct B as [|s B]; [done|]. simpl. rewrite length_app, Nat.add_1_r. cbn [back_of].
    rewrite <- (take_drop i L), E. simpl. rewrite <- !app_assoc. cbn [app]. by rewrite list_lookup_middle.
Qed.
End walks.

(** * Listing *)

Lemma ranked_keys L : (fun x => t_key x.1) <$> ranked L = keys L.
Proof. unfold ranked, keys. rewrite fmap_imap. apply (imap_const t_key). Qed.

Lemma selected_among P L : (fun x => t_key x.1) <$> selected P L = among P (keys L).
Proof.
  rewrite <- ranked_keys. unfold selected, among. induction (ranked L) as [|x l IH]; [done|]. cbn [fmap list_fmap].
  destruct (decide (P (t_key x.1) = true)).
  - rewrite !filter_cons_True by done. cbn [fmap list_fmap]. by rewrite IH.
  - by rewrite !filter_cons_False by done.
Qed.

Lemma pick_fmap {A B} (f : A -> B) l k : pick (f <$> l) k = f <$> pick l k.
Proof. unfold pick, zlen. rewrite length_fmap. by repeat case_match; rewrite ?list_lookup_fmap. Qed.

(** What an index finds. *)
Lemma pick_selected h z L P k : skl h z L ->
  match found_at (pick (selected P L) k) with
  | None => pick (among P (keys L)) k = None
  | Some (x, rank) => exists e, emit_node h x = Ok e /\ pick (among P (keys L)) k = Some e /\ keys L !! Z.to_nat (rank - 1) = Some e
  end.
Proof.
  intros Hsk. rewrite <- selected_among, pick_fmap. destruct (pick (selected P L) k) as [[t rank]|] eqn:E; [|done].
  cbn [found_at fmap option_fmap option_map fst snd]. exists (t_key t).
  assert ((t, rank) ∈ selected P L) as Hin by (unfold pick in E; repeat case_match; first [done|by eapply list_elem_of_lookup_2]).
  unfold selected in Hin. apply list_elem_of_filter in Hin as [_ (p & Hp)%list_elem_of_lookup].
  apply lookup_ranked in Hp as (s & Hs & [= -> ->]). split; [by apply (emit_node_ok h z L Hsk p)|]. split; [done|].
  replace (Z.to_nat (Z.of_nat p + 1 - 1)) with p by lia. by apply key_at.
Qed.

Lemma keys_drop i L : keys (drop i L) = drop i (keys L).
Proof. unfold keys. by rewrite skipn_map. Qed.

Lemma keys_take i L : keys (take i L) = take i (keys L).
Proof. unfold keys. by rewrite firstn_map. Qed.

Lemma keys_rev L : keys (rev L) = rev (keys L).
Proof. unfold keys. by rewrite map_rev. Qed.

Lemma keys_length L : length (keys L) = length L.
Proof. apply length_map. Qed.

Lemma head_drop {A} (l : list A) i : head (drop i l) = l !! i.
Proof. rewrite <- (Nat.add_0_r i) at 2. rewrite <- lookup_drop. by destruct (drop i l). Qed.

Lemma head_rev_take {A} (l : list A) i : (i < length l)%nat -> head (rev (take (S i) l)) = l !! i.
Proof.
  intros Hi. destruct (lookup_lt_is_Some_2 l i Hi) as [x Hx]. rewrite Hx, (take_S_r l i x) by done. by rewrite rev_unit.
Qed.

Lemma up_to_limit_drop limit o l : up_to_limit limit (drop o l) = window_of l (Z.of_nat o) limit.
Proof. unfold up_to_limit, window_of. by rewrite Nat2Z.id. Qed.

Lemma up_to_limit_nil limit : up_to_limit limit [] = [].
Proof. unfold up_to_limit. rewrite take_nil. by case_match. Qed.

Section listing.
Context `{alloc : NodeAllocator} {laws : NodeAllocatorLaws}.
Context (h : heap) (zs : zset) (L : list tower) (Hok : zsl_ok h (zs_zsl zs) L).
Local Abbreviation K := (keys L).

Lemma length_bound : Z.of_nat (length L) < 2 ^ 63 - 1.
Proof. apply (sk_bound _ _ _ (zo_skl _ _ _ Hok)). Qed.

Lemma zsetLength_ok : zsetLength zs = zlen K.
Proof. unfold zsetLength. rewrite (sk_length _ _ _ (zo_skl _ _ _ Hok)). unfold zlen. by rewrite keys_length. Qed.

Lemma zrangebyrank_ok start end_ reverse :
  - 2 ^ 63 <= start < 2 ^ 63 -> - 2 ^ 63 <= end_ < 2 ^ 63 ->
  genericZrangebyrankCommand h zs start end_ reverse = Ok (list_ranks K start end_ reverse).
Proof.
  intros Hs He. pose proof (zo_skl _ _ _ Hok) as Hsk. pose proof length_bound as Hb. unfold genericZrangebyrankCommand.
  assert (i64 (zsetLength zs) = zlen K) as ->.
  { rewrite zsetLength_ok. apply wrapS_small; unfold zlen; rewrite ?keys_length; lia. }
  rewrite sanitize_ok by (unfold zlen; rewrite ?keys_length; lia). unfold list_ranks. destruct (rank_window _ _ _) as [a b] eqn:Ew.
  injection Ew as Ea Eb. assert (zlen K = Z.of_nat (length L)) as En by (unfold zlen; by rewrite keys_length).
  destruct (Z.leb_spec a b) as [Hae|Hae]; [|done].
  assert (0 <= a) as Ha by lia. destruct reverse.
  - assert ((if a >? 0 then zslGetElementByRank h (zs_zsl zs) (u64 (zlen K - a)) else Ok (zsl_tail (zs_zsl zs))) =
      Ok (t_addr <$> head (rev (take (length L - Z.to_nat a) L)))) as ->.
    { replace (length L - Z.to_nat a)%nat with (S (length L - Z.to_nat a - 1)) by lia. rewrite head_rev_take by lia.
      rewrite Z.gtb_ltb. destruct (Z.ltb_spec 0 a).
      - rewrite wrapU_small by lia. rewrite (by_rank_ok h (zs_zsl zs) L Hsk) by lia.
        replace (Z.to_nat (zlen K - a)) with (S (length L - Z.to_nat a - 1)) by lia. unfold addr_at. rewrite spine_node.
        by destruct (L !! _).
      - rewrite (sk_tail _ _ _ Hsk), last_lookup. do 3 f_equal. lia. }
    runr. rewrite (emit_loop_ok true h _ _ (walk_backward h (zs_zsl zs) L Hsk _)).
    + rewrite keys_rev, keys_take, skipn_rev, keys_length. done.
    + rewrite length_rev, length_take. lia.
  - assert ((if a >? 0 then zslGetElementByRank h (zs_zsl zs) (u64 (a + 1)) else get_forward h (zsl_header (zs_zsl zs)) 0) =
      Ok (t_addr <$> head (drop (Z.to_nat a) L))) as ->.
    { rewrite head_drop, Z.gtb_ltb. destruct (Z.ltb_spec 0 a).
      - rewrite wrapU_small by lia. rewrite (by_rank_ok h (zs_zsl zs) L Hsk) by lia.
        replace (Z.to_nat (a + 1)) with (S (Z.to_nat a)) by lia. unfold addr_at. rewrite spine_node. by destruct (L !! _).
      - rewrite (forward_zero h _ L 0 _ 32 Hsk) by done. do 3 f_equal. lia. }
    runr. rewrite (emit_loop_ok false h _ _ (walk_forward h (zs_zsl zs) L Hsk _)).
    + by rewrite keys_drop.
    + rewrite length_drop. lia.
Qed.

(** ** Ranges *)

Section range.
Context (nth : Z -> result (option (addr * Z))) (gte lte : heap -> addr -> result bool) (g m : scored -> bool).
Context (Hr : ranged h L nth gte lte g m).
Local Abbreviation P := (fun e : scored => g e && m e).

Lemma selected_window : forall a b, prefix_of (fun e => negb (g e)) L a -> prefix_of m L b ->
  selected P L = take (b - a) (drop a (ranked L)).
Proof.
  intros a b Ha Hb. unfold selected. rewrite (filter_window _ _ a (a + (b - a))%nat); [f_equal; lia|lia|].
  intros p x Hx. apply lookup_ranked in Hx as (t & Ht & ->). cbn [fst]. rewrite (cut_at L g m a b Ha Hb p); [lia|]. by apply key_at.
Qed.

(** The node at an index of the range. *)
Lemma selected_lookup a b i : prefix_of (fun e => negb (g e)) L a -> prefix_of m L b ->
  selected P L !! i = if decide (a + i < b)%nat then (fun t => (t, Z.of_nat (a + i) + 1)) <$> L !! (a + i)%nat else None.
Proof.
  intros Ha Hb. rewrite (selected_window a b Ha Hb). destruct (decide (a + i < b)%nat).
  - rewrite lookup_take_lt, lookup_drop by lia. apply list_lookup_imap.
  - apply lookup_take_ge. lia.
Qed.

Lemma selected_length a b : prefix_of (fun e => negb (g e)) L a -> prefix_of m L b -> length (selected P L) = (b - a)%nat.
Proof.
  intros Ha Hb. rewrite (selected_window a b Ha Hb), length_take, length_drop. unfold ranked. rewrite length_imap.
  pose proof (proj1 Ha). pose proof (proj1 Hb). lia.
Qed.

Lemma count_range_ok : count_range (fun _ _ => nth) h zs = Ok (zlen (among P K)).
Proof.
  pose proof length_bound as Hb. destruct (rg_cuts _ _ _ _ _ _ _ Hr) as (a & b & Ha & Hb'). unfold count_range.
  assert (zlen L = Z.of_nat (length L)) as En by done.
  rewrite !(rg_nth _ _ _ _ _ _ _ Hr) by lia. runr. unfold zlen at 1. rewrite (among_length L g m a b Ha Hb').
  unfold pick, zlen. rewrite (selected_length a b Ha Hb'). pose proof (proj1 Ha). pose proof (proj1 Hb'). cbn [Z.geb Z.compare].
  rewrite (selected_lookup a b _ Ha Hb'). change (Z.to_nat 0) with 0%nat. rewrite Nat.add_0_r.
  destruct (decide (a < b)%nat); [|cbn; do 2 f_equal; lia].
  destruct (lookup_lt_is_Some_2 L a) as [t Ht]; [lia|]. rewrite Ht. cbn [found_at fmap option_fmap option_map fst snd]. runr.
  rewrite Z.geb_leb, (proj2 (Z.leb_le 0 _)) by lia. rewrite (selected_lookup a b _ Ha Hb'), decide_True by lia.
  destruct (lookup_lt_is_Some_2 L (a + Z.to_nat (Z.of_nat (b - a) + -1))) as [s Hs]; [lia|]. rewrite Hs.
  cbn [found_at fmap option_fmap option_map fst snd]. runr. rewrite (sk_length _ _ _ (zo_skl _ _ _ Hok)), En.
  autorewrite with wrap; rewrite wrapU_small by lia. f_equal. lia.
Qed.

Lemma takewhile_take f : forall l c, (c <= length l)%nat -> (forall p e, l !! p = Some e -> f e = true <-> (p < c)%nat) ->
  takewhile f l = take c l.
Proof.
  intros l. induction l as [|e l IH]; intros c Hc Hf; simpl in *; [by replace c with 0%nat by lia|].
  pose proof (Hf 0%nat e eq_refl) as H0. destruct (f e).
  - destruct c as [|c]; [pose proof (proj1 H0 eq_refl); lia|]. simpl. f_equal. apply IH; [lia|]. intros p x Hx. rewrite (Hf (S p) x Hx). lia.
  - destruct c as [|c]; [done|]. assert (false = true); [|done]. apply H0. lia.
Qed.

(** Forwards from an index of the range. *)
Lemma forward_window a b o : prefix_of (fun e => negb (g e)) L a -> prefix_of m L b -> (a + o < b)%nat ->
  takewhile m (keys (drop (a + o) L)) = drop o (among P K).
Proof.
  intros Ha Hb Ho. rewrite keys_drop, (takewhile_take m _ (b - (a + o))).
  - rewrite (among_window L g m a b Ha Hb), skipn_firstn_comm, drop_drop. f_equal. lia.
  - rewrite length_drop, keys_length. pose proof (proj1 Hb). lia.
  - intros p e He. rewrite lookup_drop in He. apply key_tower in He as (t & Ht & <-). rewrite (proj2 Hb _ _ Ht). lia.
Qed.

(** Backwards from an index counted from the end of the range. *)
Lemma backward_window a b o : prefix_of (fun e => negb (g e)) L a -> prefix_of m L b -> (a + o < b)%nat ->
  takewhile g (keys (rev (take (b - o) L))) = drop o (rev (among P K)).
Proof.
  intros Ha Hb Ho. pose proof (proj1 Hb) as Hbn. rewrite keys_rev, keys_take.
  assert (length (take (b - o) K) = (b - o)%nat) as El by (rewrite length_take, keys_length; lia).
  rewrite (takewhile_take g _ (b - o - a)).
  - rewrite (among_window L g m a b Ha Hb), skipn_rev, firstn_rev, El, length_take, length_drop, keys_length.
    f_equal. replace (b - o - (b - o - a))%nat with a by lia. rewrite skipn_firstn_comm. rewrite take_take. f_equal. lia.
  - rewrite length_rev, El. lia.
  - intros p e He. assert (p < b - o)%nat as Hp by (apply lookup_lt_Some in He; rewrite length_rev, El in He; done).
    rewrite rev_alt in He. change (rev_append ?l []) with (reverse l) in He. apply reverse_lookup_Some in He as [He' _]. rewrite El in He'.
    apply lookup_take_Some in He' as [He' _]. apply key_tower in He' as (t & Ht & <-). pose proof (proj2 Ha _ _ Ht) as Hat. simpl in Hat.
    rewrite negb_true_iff in Hat. rewrite <- not_false_iff_true, Hat. lia.
Qed.

(** The node a listing starts from. *)
Lemma nth_start a b o (reverse : bool) : prefix_of (fun e => negb (g e)) L a -> prefix_of m L b -> (o <= length L)%nat -> zlen K < 2 ^ 62 ->
  fst <$> match nth (if reverse then - Z.of_nat o - 1 else Z.of_nat o) with Ok r => r | Err _ => None end =
    (if decide (a + o < b)%nat then t_addr <$> L !! (if reverse then b - o - 1 else a + o)%nat else None) /\
  exists r, nth (if reverse then - Z.of_nat o - 1 else Z.of_nat o) = Ok r.
Proof.
  intros Ha Hb Ho Hsm. unfold zlen in Hsm. rewrite keys_length in Hsm. pose proof (proj1 Ha). pose proof (proj1 Hb).
  rewrite (rg_nth _ _ _ _ _ _ _ Hr) by (destruct reverse; unfold zlen; lia). split; [|by eexists].
  unfold pick, zlen. rewrite (selected_length a b Ha Hb), !Z.geb_leb. destruct reverse.
  - rewrite (proj2 (Z.leb_gt 0 _)) by lia. destruct (Z.leb_spec 0 (Z.of_nat (b - a) + (- Z.of_nat o - 1))) as [Hle|Hgt].
    + rewrite (selected_lookup a b _ Ha Hb), !decide_True by lia.
      replace (a + Z.to_nat (Z.of_nat (b - a) + (- Z.of_nat o - 1)))%nat with (b - o - 1)%nat by lia. by destruct (L !! _).
    + by rewrite decide_False by lia.
  - rewrite (proj2 (Z.leb_le 0 _)) by lia. rewrite Nat2Z.id, (selected_lookup a b _ Ha Hb). destruct (decide (a + o < b)%nat); [|done].
    by destruct (L !! _).
Qed.

Lemma emit_range_ok offset limit reverse :
  zlen K < 2 ^ 62 -> - 2 ^ 63 <= offset < 2 ^ 63 -> - 2 ^ 63 + zlen K <= limit < 2 ^ 63 ->
  emit_range nth gte lte h zs offset limit reverse = Ok (list_range P K offset limit reverse).
Proof.
  intros Hsm Ho Hl. pose proof (zo_skl _ _ _ Hok) as Hsk. pose proof length_bound as Hb. assert (zlen K = Z.of_nat (length L)) as En by (unfold zlen; by rewrite keys_length).
  destruct (rg_cuts _ _ _ _ _ _ _ Hr) as (a & b & Ha & Hb'). pose proof (proj1 Ha) as Han. pose proof (proj1 Hb') as Hbn.
  unfold emit_range, list_range. assert (i64 (zsetLength zs) = zlen K) as -> by (rewrite zsetLength_ok; apply wrapS_small; lia).
  destruct (Z.ltb_spec offset 0); [done|]. cbn [orb]. set (o := Z.to_nat offset). assert (offset = Z.of_nat o) as Eo by lia.
  rewrite Eo, <- up_to_limit_drop. pose proof (among_length L g m a b Ha Hb') as Hal.
  assert ((b <= a + o)%nat -> up_to_limit limit (drop o (if reverse then rev (among P K) else among P K)) = []) as Hnone.
  { intros Hbo. rewrite drop_ge; [apply up_to_limit_nil|]. destruct reverse; rewrite ?length_rev, Hal; lia. }
  rewrite Z.gtb_ltb, Z.geb_leb. assert ((0 <? Z.of_nat o) && (zlen K <=? Z.of_nat o) = false -> (o <= length L)%nat) as Hol.
  { destruct (Z.ltb_spec 0 (Z.of_nat o)), (Z.leb_spec (zlen K) (Z.of_nat o)); simpl; try done; lia. }
  destruct ((0 <? Z.of_nat o) && (zlen K <=? Z.of_nat o)) eqn:Eout.
  { apply andb_true_iff in Eout as [_ Eout%Z.leb_le]. by rewrite Hnone by lia. }
  destruct (nth_start a b o reverse Ha Hb' (Hol eq_refl) Hsm) as (Hst & r & E). rewrite E in Hst. rewrite E. runr. rewrite Hst.
  destruct (decide (a + o < b)%nat) as [Hin|Hge]; [|rewrite Hnone by lia; by destruct (list_fuel (zs_zsl zs))].
  assert (length L <= list_fuel (zs_zsl zs))%nat as Hf by (pose proof (SkiplistRange.fuel_enough h _ L Hsk); lia).
  destruct reverse.
  - replace (L !! (b - o - 1)%nat) with (head (rev (take (b - o) L))).
    2: { replace (b - o)%nat with (S (b - o - 1)) by lia. rewrite head_rev_take by lia. f_equal. lia. }
    rewrite (emit_range_loop_ok true gte g h _ _ _ (walk_backward h (zs_zsl zs) L Hsk _)).
    + by rewrite (backward_window a b o Ha Hb' Hin).
    + intros t Ht. apply list_elem_of_In, in_rev, list_elem_of_In, list_elem_of_lookup in Ht as (p & Hp).
      apply lookup_take_Some in Hp as [Hp _]. by apply (rg_gte _ _ _ _ _ _ _ Hr p).
    + rewrite length_rev, length_take. lia.
    + unfold zlen in *. rewrite length_rev, length_take. lia.
  - rewrite <- head_drop. rewrite (emit_range_loop_ok false lte m h _ _ _ (walk_forward h (zs_zsl zs) L Hsk _)).
    + by rewrite (forward_window a b o Ha Hb' Hin).
    + intros t (p & Hp)%list_elem_of_lookup. rewrite lookup_drop in Hp. by apply (rg_lte _ _ _ _ _ _ _ Hr (a + o + p)%nat).
    + rewrite length_drop. lia.
    + unfold zlen in *. rewrite length_drop. lia.
Qed.
End range.
End listing.

(** * Popping *)

Section popping.
Context `{alloc : NodeAllocator} {laws : NodeAllocatorLaws}.
Context (hash : list Z -> Z) (hash_ok : forall k, 0 <= hash k < 2 ^ 64) (cr : dictResizeEnable).

(** The two ways to take [n] elements off a list. *)
Definition pop_n (K : sset) (max : bool) (n : nat) : sset * sset :=
  if max then (take (length K - n) K, rev (drop (length K - n) K)) else (drop n K, take n K).

Lemma pop_end (K : sset) (max : bool) : K <> [] -> exists A e B, K = A ++ e :: B /\
  (if max then B = [] else A = []).
Proof.
  intros Hne. destruct max.
  - destruct K as [|e K' _] using rev_ind; [done|]. by exists K', e, [].
  - destruct K as [|e K']; [done|]. by exists [], e, K'.
Qed.

Lemma pop_n_step A e B (max : bool) n : (if max then B = [] else A = []) ->
  pop_n (A ++ e :: B) max (S n) = (let '(K, es) := pop_n (A ++ B) max n in (K, e :: es)).
Proof.
  intros Hend. unfold pop_n. destruct max; subst.
  - rewrite app_nil_r, length_app. cbn [length]. replace (length A + 1 - S n)%nat with (length A - n)%nat by lia.
    rewrite take_app_le, drop_app_le by lia. f_equal. by rewrite rev_app_distr.
  - done.
Qed.

Lemma zpop_loop_ok h0 max : forall n h zs L, zset_in hash h0 h zs L -> (0 < n <= length L)%nat ->
  exists h' zs' L', zpop_loop hash cr n max h zs (Z.of_nat n) = Ok (h', zs', (pop_n (keys L) max n).2) /\
    zset_in hash h0 h' zs' L' /\ keys L' = (pop_n (keys L) max n).1.
Proof.
  induction n as [|n IH]; intros h zs L Hin Hn; [lia|]. cbn [zpop_loop].
  destruct (pop_end (keys L) max) as (A & e & B & EK & Hend).
  { intros E. apply (f_equal length) in E. rewrite keys_length in E. simpl in E. lia. }
  pose proof EK as ET. unfold keys in ET. apply map_eq_app in ET as (A' & tB & -> & EA & EB).
  apply map_eq_cons in EB as (t & B' & -> & Et & EB'). pose proof (zi_list _ _ _ _ _ Hin) as [Hsk _ Hdi _].
  assert ((if max then Ok (zsl_tail (zs_zsl zs)) else get_forward h (zsl_header (zs_zsl zs)) 0) = Ok (Some (t_addr t))) as ->.
  { destruct max; rewrite Hend in *.
    - apply map_eq_nil in EB' as ->. by rewrite (sk_tail _ _ _ Hsk), last_snoc.
    - apply map_eq_nil in EA as ->. by rewrite (forward_zero h _ _ 0 _ 32 Hsk) by done. }
  runr. rewrite (emit_node_ok h (zs_zsl zs) _ Hsk (length A') t) by by apply list_lookup_middle. runr. rewrite Et.
  destruct (zsetDel_ok hash hash_ok cr h0 h zs _ e.2 Hin) as (h1 & zs1 & L1 & -> & Hin1 & Ek1).
  rewrite EK in Ek1, Hdi. rewrite EK, (entry_of_mid A e B Hdi), bool_decide_eq_true_2 by done. runr.
  rewrite (without_mid A e B Hdi) in Ek1. rewrite (pop_n_step A e B max n Hend). destruct (Z.eqb_spec (Z.of_nat (S n) - 1) 0) as [E|E].
  - eexists _, _, L1. replace n with 0%nat by lia. rewrite Ek1. unfold pop_n. destruct max.
    + rewrite Nat.sub_0_r, take_ge, drop_ge by lia. done.
    + done.
  - replace (Z.of_nat (S n) - 1) with (Z.of_nat n) by lia.
    destruct (IH h1 zs1 L1 Hin1) as (h2 & zs2 & L2 & -> & Hin2 & Ek2).
    { pose proof (f_equal length Ek1) as El. rewrite keys_length, length_app in El. apply (f_equal length) in EK.
      rewrite keys_length in EK. rewrite EK in Hn. rewrite length_app in Hn. cbn [length] in Hn. lia. }
    runr. rewrite Ek1 in *. exists h2, zs2, L2. destruct (pop_n (A ++ B) max n) as [K2 es] eqn:Ep. done.
Qed.

Lemma genericZpop_ok h0 h zs L max count : zset_in hash h0 h zs L -> L <> [] -> (1 <= count < 2 ^ 63 \/ count = -1) ->
  exists h' zs' L', genericZpop hash cr max count h zs = Ok (h', zs', (pop (keys L) max (Z.abs count)).2) /\
    zset_in hash h0 h' zs' L' /\ keys L' = (pop (keys L) max (Z.abs count)).1.
Proof.
  intros Hin Hne Hc. pose proof (zi_list _ _ _ _ _ Hin) as Hok. pose proof (length_bound h zs L Hok) as Hb.
  assert (zlen (keys L) = Z.of_nat (length L)) as En by (unfold zlen; by rewrite keys_length).
  assert (0 < length L)%nat by (destruct L; [done|simpl; lia]). unfold genericZpop.
  assert ((if count =? -1 then 1 else count) = Z.abs count) as -> by (destruct (Z.eqb_spec count (-1)); lia).
  assert (i64 (zsetLength zs) = zlen (keys L)) as -> by (rewrite (zsetLength_ok h zs L Hok); apply wrapS_small; lia).
  assert ((if Z.abs count >? zlen (keys L) then zlen (keys L) else Z.abs count) = Z.of_nat (Z.to_nat (Z.min (Z.abs count) (zlen (keys L))))) as ->.
  { rewrite Z.gtb_ltb. destruct (Z.ltb_spec (zlen (keys L)) (Z.abs count)); lia. }
  rewrite Nat2Z.id. apply (zpop_loop_ok h0 max _ h zs L Hin). lia.
Qed.
End popping.

(** * Copying *)

Section copying.
Context `{alloc : NodeAllocator} {laws : NodeAllocatorLaws}.
Context (hash : list Z -> Z) (hash_ok : forall k, 0 <= hash k < 2 ^ 64) (cr : dictResizeEnable).
Local Abbreviation ty := (zsetDictType hash).

#[local] Instance zset_dict_laws h : DictTypeLaws (ty h).
Proof. by apply zset_type_laws. Qed.

Lemma index_dictAdd h h' d L t :
  indexes hash h d L -> elements_read h L -> elements_read h' L -> zslGetNodeElementForDict h' (t_addr t) = (t_key t).2 ->
  NoDup (map snd (keys L)) -> (t_key t).2 ∉ map snd (keys L) -> zlen L + 1 < 2 ^ 64 -> pauseAutoResize d = 0 ->
  exists d', dictAdd (ty h') cr d (t_addr t) tt = Ok (d', true) /\ indexes hash h' d' (t :: L) /\ pauseAutoResize d' = 0.
Proof.
  intros Hi Hr Hr' Hnew Hnd Hout Hroom Ha. pose proof (index_move hash h h' d L Hi Hr Hr') as [Hwf Hab].
  assert (abs (ty h') d !! keyFromStoredKey (ty h') (t_addr t) = None) as Hn.
  { rewrite Hab. cbn [keyFromStoredKey zsetDictType]. rewrite Hnew. by apply entries_none. }
  destruct (add_ok (ty h') cr d (t_addr t) tt Hwf) as (d' & E & Hwf' & Hf & Hab').
  - left. lia.
  - unfold has_room. by rewrite (index_size hash h d L Hi Hnd).
  - rewrite bool_decide_eq_true_2 in E, Hab' by done. exists d'. split; [done|]. split; [|by rewrite (sf_auto _ _ _ Hf)].
    constructor; [done|]. rewrite Hab', Hab. cbn [keyFromStoredKey keyDup zsetDictType stored_val no_value]. by rewrite Hnew.
Qed.

(** A node of the heap before is still there while another set is built. *)
Lemma still_there h h1 z M b n : owns h h1 z M -> h !! b = Some n -> h1 !! b = Some n.
Proof.
  intros Ho Hb. destruct (Ho b) as [H1 H2]. rewrite H2; [done|]. intros Hin. rewrite H1 in Hb by done. done.
Qed.

Lemma ins_front k l : Forall (elt k) l -> ins k l = k :: l.
Proof.
  intros Hl. unfold ins. replace (place k l) with 0%nat; [done|]. destruct Hl as [|x l Hx _]; [done|]. simpl.
  rewrite (ecmp_antisym k x). by rewrite (Hx : ecmp k x = Lt).
Qed.

Lemma sorted_drop (K : sset) n e : sorted K -> K !! n = Some e -> Forall (elt e) (drop (S n) K).
Proof.
  intros Hs He. apply list.Forall_lookup. intros p x Hp. rewrite lookup_drop in Hp. apply (sorted_lookup K n (S n + p)); try done. lia.
Qed.

Definition good_random (rnd : list Z) : Prop := zlen rnd < 2 ^ 30 /\ exists r, r ∈ rnd /\ random_threshold <= r.

Lemma dup_loop_ok h z L uninit : zsl_ok h z L -> forall n rnds h1 zs M,
  (n <= length L)%nat -> length rnds = n -> Forall good_random rnds ->
  zset_in hash h h1 zs M -> keys M = drop n (keys L) ->
  exists h2 zs2 M2, dup_loop hash cr n rnds uninit h1 zs (back_of L n) = Ok (h2, zs2) /\
    zset_in hash h h2 zs2 M2 /\ keys M2 = keys L.
Proof.
  intros [Hsk Hso Hdi _]. pose proof (sk_bound _ _ _ Hsk) as Hb. unfold zlen in Hb.
  induction n as [|n IH]; intros rnds h1 zs M Hn Hlen Hg Hin HM; [by exists h1, zs, M|]. cbn [dup_loop back_of].
  destruct (lookup_lt_is_Some_2 L n ltac:(lia)) as [t Ht]. rewrite Ht. cbn [fmap option_fmap option_map].
  destruct rnds as [|rnd rnds]; [done|]. apply list.Forall_cons in Hg as [[Hg1 Hg2] Hg].
  destruct (sk_nodes _ _ _ Hsk n t Ht) as (nd & Hnd & Hni & Hbk). pose proof (zi_owns _ _ _ _ _ Hin) as Ho.
  pose proof (still_there _ _ _ _ _ _ Ho Hnd) as Hnd1. unfold zslGetNodeElement, get_node at 1. rewrite Hnd1. runr.
  rewrite (proj2 (Z.eqb_neq _ _)) by apply (ni_offset _ _ Hni). cbn [negb]. runr. unfold get_node at 1. rewrite Hnd1. runr.
  rewrite (ni_score _ _ Hni), (ni_ele _ _ Hni). destruct Hin as [Hz Hi Ha _].
  assert (length M = length L - S n)%nat as HMl by (rewrite <- keys_length, HM, length_drop, keys_length; done).
  pose proof (key_at L n t Ht) as Hkt.
  assert ((t_key t).2 ∉ map snd (keys M)) as Hout.
  { rewrite HM. intros (e & Ee & He)%list_elem_of_fmap. apply list_elem_of_lookup in He as (p & Hp). rewrite lookup_drop in Hp.
    assert (n = S n + p)%nat; [|lia]. apply (NoDup_lookup (map snd (keys L)) _ _ (t_key t).2 Hdi).
    - change (map snd (keys L)) with (snd <$> keys L). by rewrite list_lookup_fmap, Hkt.
    - change (map snd (keys L)) with (snd <$> keys L). rewrite list_lookup_fmap, Hp. simpl. by rewrite Ee. }
  destruct (zslInsert_ok rnd uninit h1 (zs_zsl zs) M (t_key t).1 (t_key t).2 Hz) as (h2 & z2 & s & Eins & Ek & Hnone & Hz2 & Hh & Hon);
    [unfold zlen; lia|apply Hni|done|done|done|].
  rewrite Eins. runr. pose proof (elements_read_ok h2 z2 _ (zo_skl _ _ _ Hz2)) as Hread. pose proof (ins_tower_perm s M) as Hp.
  assert ((t_key s).2 = (t_key t).2) as Eele by by rewrite Ek.
  destruct (index_dictAdd h1 h2 (zs_dict zs) M s Hi) as (d & -> & Hi2 & Ha2).
  - apply (elements_read_ok h1 (zs_zsl zs)). apply Hz.
  - intros x Hx. apply Hread. rewrite Hp. by right.
  - apply Hread. rewrite Hp. by left.
  - apply Hz.
  - by rewrite Eele.
  - unfold zlen. lia.
  - done.
  - runr. assert (zset_in hash h h2 {| zs_dict := d; zs_zsl := z2 |} (ins_tower s M)) as Hin2.
    { constructor; [done| |done|].
      - apply (index_perm hash h2 d (s :: M)); [|by symmetry|done]. unfold keys. simpl. constructor; [by rewrite Eele|apply Hz].
      - by apply (owns_insert h h1 h2 (zs_zsl zs) z2 M _ s). }
    pose proof (still_there _ _ _ _ _ _ (zi_owns _ _ _ _ _ Hin2) Hnd) as Hnd2. unfold get_node. rewrite Hnd2. runr. rewrite Hbk.
    apply (IH rnds h2 _ (ins_tower s M)); [lia|by injection Hlen|done|done|].
    rewrite keys_ins, Ek, HM. replace ((t_key t).1, (t_key t).2) with (t_key t) by by destruct (t_key t).
    rewrite ins_front by by apply (sorted_drop _ n). by rewrite (drop_S _ (t_key t) n).
Qed.

Lemma zsetDup_ok h0 h zs L rnds uninit : zset_in hash h0 h zs L -> length rnds = length L -> Forall good_random rnds ->
  exists h' zs' L', zsetDup hash cr rnds uninit h zs = Ok (h', zs') /\ zset_in hash h h' zs' L' /\ keys L' = keys L.
Proof.
  intros Hin Hlen Hg. pose proof (zi_list _ _ _ _ _ Hin) as Hok. pose proof (zo_skl _ _ _ Hok) as Hsk. unfold zsetDup.
  destruct (create_in hash h) as (h1 & zs1 & -> & Hin1). pose proof Hin1 as [Hz1 Hi1 Ha1 Ho1].
  assert (0 <= dictSize (zs_dict zs) < 2 ^ 64) as Hsize by (apply wrapU_range; lia).
  unfold dictExpand. destruct (expand_ok (ty h1) cr (zs_dict zs1) (dictSize (zs_dict zs)) None (ix_wf _ _ _ _ Hi1) Hsize)
    as (d & ok & mf & -> & Hm & _). runr.
  assert (zset_in hash h h1 (set_dict zs1 d) []) as Hin2.
  { constructor; [done|by apply (index_maintains hash h1 (zs_dict zs1))|by cbn [zs_dict set_dict]; rewrite (mt_auto _ _ _ Hm)|done]. }
  unfold zsetLength. rewrite (sk_length _ _ _ Hsk), (sk_tail _ _ _ Hsk). unfold zlen. rewrite Nat2Z.id.
  assert (t_addr <$> last L = back_of L (length L)) as ->.
  { rewrite last_lookup. destruct L as [|t L']; done. }
  apply (dup_loop_ok h (zs_zsl zs) L uninit Hok _ rnds h1 (set_dict zs1 d) []); try done.
  rewrite drop_ge; [done|]. by rewrite keys_length.
Qed.
End copying.
