(* ===== verification/ZsetSpec.v ===== *)
(** ZsetSpec: sorted sets against their contract, the ordered list of scored
    elements of SortedSet.v.

    [run_zops] runs a sequence of operations, each under the resize policy of its
    moment, on the hash table and the skip list; [spec_zops] runs it on the list.
    The first theorem compares the answers, the others state what the structure
    itself keeps, what freeing and copying it leave, and what ranges return. *)

From Stdlib Require Import ZArith Lia Bool.
From S2P Require Import Prelude Bytes Dict DictProofs DictOps Skiplist SkiplistProofs SkiplistOps SkiplistDelete SkiplistRange Zset SortedSet ZsetProofs ZsetOps ZsetRange ZsetList.
From stdpp Require Import base list numbers decidable gmap sorting.

Local Open Scope Z_scope.

Inductive zop :=
  | ZAdd (rnd : list Z) (uninit : nat -> zskiplistLevel) (score : double) (ele : list Z) (flags : Z)
  | ZRem (ele : list Z)
  | ZScore (ele : list Z)
  | ZRank (ele : list Z) (reverse : bool)
  | ZCard
  | ZCount (range : zrangespec)
  | ZLexCount (range : zlexrangespec)
  | ZRange (start end_ : Z) (reverse : bool)
  | ZRangeByScore (range : zrangespec) (offset limit : Z) (reverse : bool)
  | ZRangeByLex (range : zlexrangespec) (offset limit : Z) (reverse : bool)
  | ZRemRangeByRank (start end_ : Z)
  | ZRemRangeByScore (range : zrangespec)
  | ZRemRangeByLex (range : zlexrangespec)
  | ZPop (max : bool) (count : Z).

Inductive zout :=
  | OAdd (r : zadd_result)
  | ODeleted (b : bool)
  | OScore (s : option double)
  | ORank (r : option (Z * double))
  | ONumber (n : Z)
  | OElements (l : list (double * list Z)).

(** The same operation on the list. *)
Definition spec_zop (K : sset) (o : zop) : sset * zout :=
  match o with
  | ZAdd _ _ score ele flags => let '(K, r) := add_flags K score ele flags in (K, OAdd r)
  | ZRem ele => (without K ele, ODeleted (bool_decide (is_Some (entry_of K ele))))
  | ZScore ele => (K, OScore (score_of K ele))
  | ZRank ele reverse => (K, ORank (rank_of K ele reverse))
  | ZCard => (K, ONumber (zlen K))
  | ZCount range => (K, ONumber (zlen (among (score_selects range) K)))
  | ZLexCount range => (K, ONumber (zlen (among (lex_selects range) K)))
  | ZRange start end_ reverse => (K, OElements (list_ranks K start end_ reverse))
  | ZRangeByScore range offset limit reverse => (K, OElements (list_range (score_selects range) K offset limit reverse))
  | ZRangeByLex range offset limit reverse => (K, OElements (list_range (lex_selects range) K offset limit reverse))
  | ZRemRangeByRank start end_ => (without_window K start end_, ONumber (zlen K - zlen (without_window K start end_)))
  | ZRemRangeByScore range => (except (score_selects range) K, ONumber (zlen (among (score_selects range) K)))
  | ZRemRangeByLex range => (except (lex_selects range) K, ONumber (zlen (among (lex_selects range) K)))
  | ZPop max count => let '(K, l) := pop K max (Z.abs count) in (K, OElements l)
  end.

Fixpoint spec_zops (K : sset) (os : list (dictResizeEnable * zop)) : sset * list zout :=
  match os with
  | [] => (K, [])
  | (_, o) :: os =>
      let '(K, r) := spec_zop K o in
      let '(K, rs) := spec_zops K os in
      (K, r :: rs)
  end.

Definition numbers (range : zrangespec) : Prop := isnan (zr_min range) = false /\ isnan (zr_max range) = false.

(** The documented condition of lexicographic ranges. *)
Definition one_score (K : sset) : Prop := forall a b, a ∈ K -> b ∈ K -> fcmp a.1 b.1 = Eq.

Definition is_long (n : Z) : Prop := - 2 ^ 63 <= n < 2 ^ 63.

(** What the callers of an operation see to: bounds of ranges are numbers,
    arguments longs, ranks to delete those of a set of less than 2^32 elements; a limit is not so low
    that counting it down overflows; random numbers do not go on for ever. *)
Definition zop_legal (K : sset) (o : zop) : Prop :=
  match o with
  | ZAdd rnd _ _ _ _ => good_random rnd
  | ZRem _ | ZScore _ | ZRank _ _ | ZCard => True
  | ZCount range | ZRemRangeByScore range => numbers range
  | ZLexCount _ | ZRemRangeByLex _ => one_score K
  | ZRange start end_ _ => is_long start /\ is_long end_
  | ZRangeByScore range offset limit _ => numbers range /\ is_long offset /\ - 2 ^ 63 + zlen K <= limit < 2 ^ 63
  | ZRangeByLex _ offset limit _ => one_score K /\ is_long offset /\ - 2 ^ 63 + zlen K <= limit < 2 ^ 63
  | ZRemRangeByRank start end_ => is_long start /\ is_long end_ /\ zlen K < 2 ^ 32
  | ZPop _ count => K <> [] /\ (1 <= count < 2 ^ 63 \/ count = -1)
  end.

Fixpoint zops_legal (K : sset) (os : list (dictResizeEnable * zop)) : Prop :=
  match os with
  | [] => True
  | (_, o) :: os => zop_legal K o /\ zops_legal (spec_zop K o).1 os
  end.

Section zset_spec.
Context `{alloc : NodeAllocator} (hash : list Z -> Z).

Definition conc_zop (cr : dictResizeEnable) (h : heap) (zs : zset) (o : zop) : result (heap * zset * zout) :=
  match o with
  | ZAdd rnd uninit score ele flags =>
      let* (h, zs, r) := zsetAdd hash cr rnd uninit h zs score ele flags in Ok (h, zs, OAdd r)
  | ZRem ele => let* (h, zs, b) := zsetDel hash cr h zs ele in Ok (h, zs, ODeleted b)
  | ZScore ele => let* (zs, s) := zsetScore hash cr h zs ele in Ok (h, zs, OScore s)
  | ZRank ele reverse => let* (zs, r) := zsetRank hash cr h zs ele reverse in Ok (h, zs, ORank r)
  | ZCard => Ok (h, zs, ONumber (zsetLength zs))
  | ZCount range => let* n := zcountCommand h zs range in Ok (h, zs, ONumber n)
  | ZLexCount range => let* n := zlexcountCommand h zs range in Ok (h, zs, ONumber n)
  | ZRange start end_ reverse =>
      let* l := genericZrangebyrankCommand h zs start end_ reverse in Ok (h, zs, OElements l)
  | ZRangeByScore range offset limit reverse =>
      let* l := genericZrangebyscoreCommand h zs range offset limit reverse in Ok (h, zs, OElements l)
  | ZRangeByLex range offset limit reverse =>
      let* l := genericZrangebylexCommand h zs range offset limit reverse in Ok (h, zs, OElements l)
  | ZRemRangeByRank start end_ =>
      let* (h, zs, n) := zremrangebyrank hash cr start end_ h zs in Ok (h, zs, ONumber n)
  | ZRemRangeByScore range =>
      let* (h, zs, n) := zremrange hash cr (fun h zs => zslDeleteRangeByScore hash cr h zs range) h zs in Ok (h, zs, ONumber n)
  | ZRemRangeByLex range =>
      let* (h, zs, n) := zremrange hash cr (fun h zs => zslDeleteRangeByLex hash cr h zs range) h zs in Ok (h, zs, ONumber n)
  | ZPop max count => let* (h, zs, l) := genericZpop hash cr max count h zs in Ok (h, zs, OElements l)
  end.

Fixpoint conc_zops (h : heap) (zs : zset) (os : list (dictResizeEnable * zop)) : result (heap * zset * list zout) :=
  match os with
  | [] => Ok (h, zs, [])
  | (cr, o) :: os =>
      let* (h, zs, r) := conc_zop cr h zs o in
      let* (h, zs, rs) := conc_zops h zs os in
      Ok (h, zs, r :: rs)
  end.

(** From a new sorted set. *)
Definition run_zops (h : heap) (os : list (dictResizeEnable * zop)) : result (heap * zset * list zout) :=
  let '(h, zs) := createZsetObject h in conc_zops h zs os.

Context {laws : NodeAllocatorLaws} (hash_ok : forall k, 0 <= hash k < 2 ^ 64).

Lemma among_le P (K : sset) : zlen (except P K) <= zlen K.
Proof. unfold zlen, except. pose proof (length_filter (fun e => P e = false) K). lia. Qed.

Lemma spec_length K o : zlen (spec_zop K o).1 <= zlen K + 1.
Proof.
  pose proof (zlen_nonneg K). destruct o as [rnd un score ele fl|ele|ele|ele rv| |rg|rg|s e rv|rg off lim rv|rg off lim rv|s e|rg|rg|mx c]; cbn [spec_zop fst]; try lia.
  - unfold add_flags, add. assert (forall k K', zlen (ins k K') = zlen K' + 1) as Hins.
    { intros k K'. unfold zlen. rewrite (Permutation_length (ins_perm k K')). simpl. lia. }
    assert (zlen (without K ele) <= zlen K) as Hw by (unfold zlen, without; pose proof (length_filter (fun e => e.2 <> ele) K); lia).
    repeat case_match; simplify_eq; cbn [fst]; rewrite ?Hins; lia.
  - unfold zlen, without. pose proof (length_filter (fun e => e.2 <> ele) K). lia.
  - unfold without_window. destruct (rank_window _ _ _) as [a b]. destruct (a <=? b); [|lia].
    unfold without_ranks, zlen. rewrite length_app, length_take, length_drop. lia.
  - pose proof (among_le (score_selects rg) K). lia.
  - pose proof (among_le (lex_selects rg) K). lia.
  - unfold pop. destruct mx; cbn [fst]; unfold zlen; rewrite ?length_take, ?length_drop; lia.
Qed.

Lemma spec_zops_length K os : zlen (spec_zops K os).1 <= zlen K + zlen os.
Proof.
  revert K. induction os as [|[cr o] os IH]; intros K; cbn [spec_zops fst]; [unfold zlen; simpl; lia|]. rewrite zlen_cons.
  pose proof (spec_length K o) as Hl. destruct (spec_zop K o) as [K1 r]. cbn [fst] in Hl. specialize (IH K1).
  destruct (spec_zops K1 os) as [K2 rs]. cbn [fst] in *. lia.
Qed.

Lemma zop_ok h0 cr h zs L o :
  zset_in hash h0 h zs L -> zop_legal (keys L) o -> zlen (keys L) + 1 < 2 ^ 62 ->
  exists h' zs' L' r, conc_zop cr h zs o = Ok (h', zs', r) /\ zset_in hash h0 h' zs' L' /\ spec_zop (keys L) o = (keys L', r).
Proof.
  intros Hin Hlg Hlen. pose proof (zi_list _ _ _ _ _ Hin) as Hok. pose proof Hok as [Hsk Hso _ _].
  assert (zlen (keys L) = zlen L) as En by (unfold zlen; by rewrite keys_length).
  destruct o as [rnd un score ele fl|ele|ele|ele rv| |rg|rg|s e rv|rg off lim rv|rg off lim rv|s e|rg|rg|mx c]; cbn [conc_zop spec_zop zop_legal] in *.
  - destruct Hlg as [Hg1 Hg2]. destruct (zsetAdd_ok hash hash_ok cr h0 h zs L rnd un score ele fl Hin) as (h' & zs' & L' & r & -> & Hin' & ->);
      [lia|done|done|]. runr. by eexists _, _, L', _.
  - destruct (zsetDel_ok hash hash_ok cr h0 h zs L ele Hin) as (h' & zs' & L' & -> & Hin' & Ek). runr. eexists _, _, L', _. by rewrite Ek.
  - destruct (zsetScore_ok hash hash_ok cr h0 h zs L ele Hin) as (zs' & -> & Hin'). runr. by eexists _, _, L, _.
  - destruct (zsetRank_ok hash hash_ok cr h0 h zs L ele rv Hin) as (zs' & -> & Hin'). runr. by eexists _, _, L, _.
  - rewrite (zsetLength_ok h zs L Hok). by eexists _, _, L, _.
  - destruct Hlg as [H1 H2]. change (zcountCommand h zs rg) with (count_range (fun _ _ => zslNthInRange h (zs_zsl zs) rg) h zs).
    rewrite (count_range_ok h zs L Hok _ _ _ _ _ (ranged_score h _ L rg Hsk Hso H1 H2)). runr. by eexists _, _, L, _.
  - change (zlexcountCommand h zs rg) with (count_range (fun _ _ => zslNthInLexRange h (zs_zsl zs) rg) h zs).
    rewrite (count_range_ok h zs L Hok _ _ _ _ _ (ranged_lex h _ L rg Hsk Hso Hlg)). runr. by eexists _, _, L, _.
  - destruct Hlg as [H1 H2]. rewrite (zrangebyrank_ok h zs L Hok s e rv H1 H2). runr. by eexists _, _, L, _.
  - destruct Hlg as ([H1 H2] & H3 & H4). unfold genericZrangebyscoreCommand.
    rewrite (emit_range_ok h zs L Hok _ _ _ _ _ (ranged_score h _ L rg Hsk Hso H1 H2)) by (done || lia). runr. by eexists _, _, L, _.
  - destruct Hlg as (H1 & H3 & H4). unfold genericZrangebylexCommand.
    rewrite (emit_range_ok h zs L Hok _ _ _ _ _ (ranged_lex h _ L rg Hsk Hso H1)) by (done || lia). runr. by eexists _, _, L, _.
  - destruct Hlg as (H1 & H2 & H3). destruct (zremrangebyrank_ok hash hash_ok cr h0 h zs L s e Hin H3 H1 H2) as (h' & zs' & L' & -> & Hin' & Ek).
    runr. eexists _, _, L', _. by rewrite Ek.
  - destruct Hlg as [H1 H2]. destruct (zremrange_ok hash cr h0 h zs L (fun h zs => zslDeleteRangeByScore hash cr h zs rg)
      (except (score_selects rg) (keys L)) (zlen (among (score_selects rg) (keys L))) Hin) as (h' & zs' & L' & -> & Hin' & Ek).
    + intros zs1 Hc. by apply zslDeleteRangeByScore_ok.
    + runr. eexists _, _, L', _. by rewrite Ek.
  - destruct (zremrange_ok hash cr h0 h zs L (fun h zs => zslDeleteRangeByLex hash cr h zs rg)
      (except (lex_selects rg) (keys L)) (zlen (among (lex_selects rg) (keys L))) Hin) as (h' & zs' & L' & -> & Hin' & Ek).
    + intros zs1 Hc. by apply zslDeleteRangeByLex_ok.
    + runr. eexists _, _, L', _. by rewrite Ek.
  - destruct Hlg as [H1 H2]. destruct (genericZpop_ok hash hash_ok cr h0 h zs L mx c Hin) as (h' & zs' & L' & -> & Hin' & Ek); [by intros ->|done|].
    runr. eexists _, _, L', _. split; [done|]. split; [done|]. rewrite Ek. by destruct (pop (keys L) mx (Z.abs c)).
Qed.

Lemma zops_ok h0 os : forall h zs L,
  zset_in hash h0 h zs L -> zops_legal (keys L) os -> zlen (keys L) + zlen os < 2 ^ 62 ->
  exists h' zs' L' rs, conc_zops h zs os = Ok (h', zs', rs) /\ zset_in hash h0 h' zs' L' /\ spec_zops (keys L) os = (keys L', rs).
Proof.
  induction os as [|[cr o] os IH]; intros h zs L Hin Hlg Hlen; [by exists h, zs, L, []|].
  rewrite zlen_cons in Hlen. pose proof (zlen_nonneg os). destruct Hlg as [Hlo Hlg]. cbn [conc_zops spec_zops].
  destruct (zop_ok h0 cr h zs L o Hin Hlo ltac:(lia)) as (h1 & zs1 & L1 & r & -> & Hin1 & E). runr.
  pose proof (spec_length (keys L) o) as Hl. rewrite E in Hl, Hlg. cbn [fst] in Hl, Hlg. rewrite E.
  destruct (IH h1 zs1 L1 Hin1 Hlg ltac:(lia)) as (h2 & zs2 & L2 & rs & -> & Hin2 & ->). runr. by exists h2, zs2, L2, (r :: rs).
Qed.

Lemma run_zops_ok h os : zops_legal [] os -> zlen os < 2 ^ 62 ->
  exists h' zs L rs, run_zops h os = Ok (h', zs, rs) /\ zset_in hash h h' zs L /\ spec_zops [] os = (keys L, rs).
Proof.
  intros Hlg Hlen. unfold run_zops. destruct (create_in hash h) as (h1 & zs1 & -> & Hin). by apply (zops_ok h os h1 zs1 [] Hin).
Qed.
End zset_spec.

(** * Examples *)

Definition integer_double (z : Z) : double := binary_normalize 53 1024 z 0 false.
Definition no_memory (i : nat) : zskiplistLevel := {| forward := None; span := 77 |}.
Definition sum_hash (l : list Z) : Z := foldr Z.add 0 l mod 16.

Lemma sum_hash_ok k : 0 <= sum_hash k < 2 ^ 64.
Proof. unfold sum_hash. pose proof (Z.mod_pos_bound (foldr Z.add 0 k) 16). lia. Qed.

(** Random numbers that give a node [n + 1] levels. *)
Definition coins (n : nat) : list Z := replicate n 0 ++ [random_threshold].

Definition zadd_example (score : Z) (ele : list Z) (height : nat) (flags : Z) : dictResizeEnable * zop :=
  (DICT_RESIZE_ENABLE, ZAdd (coins height) no_memory (integer_double score) ele flags).

(** Five elements, of heights 1 to 4, two of them with the same score. *)
Definition zset_example : list (dictResizeEnable * zop) :=
  [zadd_example 5 [97] 1 0; zadd_example 3 [98] 0 0; zadd_example 9 [99] 3 0; zadd_example 5 [99; 1] 2 0; zadd_example 7 [100] 0 0].

Lemma coins_good n : (n < 1000)%nat -> good_random (coins n).
Proof.
  intros Hn. unfold coins. split.
  - unfold zlen. rewrite length_app, length_replicate. simpl. lia.
  - exists random_threshold. split; [|lia]. apply elem_of_app. right. by left.
Qed.

Lemma zset_example_legal : zops_legal [] zset_example.
Proof. cbn [zset_example zops_legal zadd_example zop_legal]. split_and!; try done; apply coins_good; lia. Qed.

Definition all_scores : zrangespec :=
  {| zr_min := S754_infinity true; zr_max := S754_infinity false; minex := false; maxex := false |}.

Definition from_three_to_seven : zrangespec :=
  {| zr_min := integer_double 3; zr_max := integer_double 7; minex := true; maxex := false |}.

(** * The theorems *)

(** C5: a sorted set is the ordered list of its scored elements: starting from a
    new one, any legal sequence of operations - ZADD with all its flags, ZREM,
    ZSCORE, ZRANK and ZREVRANK, ZCARD, ZCOUNT, ZLEXCOUNT, ZRANGE by rank, score
    or element in both directions with limits, the deletions of ranges, ZPOPMIN
    and ZPOPMAX - runs on the hash table and the skip list without fault (no
    failed assertion, dangling pointer or overflow) and answers like the same
    sequence on the list, whatever the hash function, the allocator, the random
    levels, the memory new nodes hold and the resize policies; the list stays
    sorted and each element unique. *)
Theorem zset_refines_sorted_set `{alloc : NodeAllocator} (laws : NodeAllocatorLaws) (hash : list Z -> Z) (h : heap)
    (os : list (dictResizeEnable * zop)) :
  (forall k, 0 <= hash k < 2 ^ 64) -> zops_legal [] os -> zlen os < 2 ^ 62 ->
  exists h' zs K rs, run_zops hash h os = Ok (h', zs, rs) /\ spec_zops [] os = (K, rs) /\ sset_ok K /\ zsetLength zs = zlen K.
Proof.
  intros Hh Hlg Hlen. destruct (run_zops_ok hash Hh h os Hlg Hlen) as (h' & zs & L & rs & E & Hin & Es).
  exists h', zs, (keys L), rs. split; [done|]. split; [done|]. split; [by eapply zset_sset|]. apply (zsetLength_ok h'), Hin.
Qed.

Lemma zset_refines_sorted_set_witness :
  exists h zs K rs,
    run_zops sum_hash ∅ (zset_example ++
      [zadd_example 1 [98] 0 ZADD_IN_INCR; (DICT_RESIZE_AVOID, ZRank [100] true); (DICT_RESIZE_AVOID, ZRemRangeByScore from_three_to_seven);
       (DICT_RESIZE_ENABLE, ZRange 0 (-1) false)]) = Ok (h, zs, rs) /\
    drop 5 rs = [OAdd (zadd_out 1 ZADD_OUT_UPDATED (Some (integer_double 4))); ORank (Some (1, integer_double 7)); ONumber 4;
                 OElements [(integer_double 9, [99])]] /\ K = [(integer_double 9, [99])].
Proof.
  destruct (zset_refines_sorted_set bump_allocator_laws sum_hash ∅ (zset_example ++
      [zadd_example 1 [98] 0 ZADD_IN_INCR; (DICT_RESIZE_AVOID, ZRank [100] true); (DICT_RESIZE_AVOID, ZRemRangeByScore from_three_to_seven);
       (DICT_RESIZE_ENABLE, ZRange 0 (-1) false)])) as (h & zs & K & rs & E & Es & _).
  - apply sum_hash_ok.
  - cbn [zset_example app zops_legal zadd_example zop_legal]. split_and!; try done; apply coins_good; lia.
  - done.
  - exists h, zs, K, rs. split; [exact E|].
    lazymatch type of Es with ?x = _ => let y := eval vm_compute in x in assert (x = y) as Ev by (vm_compute; reflexivity) end.
    rewrite Ev in Es. injection Es as EK Er. rewrite <- EK, <- Er. split; vm_compute; reflexivity.
Defined.

(** C6: what the structure keeps: after any legal sequence of operations the skip
    list is well formed - at every level the pointers skip exactly the lower
    nodes and the spans are the distances, the pointers back and the tail are
    right, the levels are as high as the highest node - the hash table maps every
    element to its node and nothing else, automatic resizing is not left paused,
    and the allocation size of the list is the sum of its blocks. *)
Theorem zset_structure_kept `{alloc : NodeAllocator} (laws : NodeAllocatorLaws) (hash : list Z -> Z) (h : heap)
    (os : list (dictResizeEnable * zop)) :
  (forall k, 0 <= hash k < 2 ^ 64) -> zops_legal [] os -> zlen os < 2 ^ 62 ->
  exists h' zs L rs, run_zops hash h os = Ok (h', zs, rs) /\ keys L = (spec_zops [] os).1 /\
    skl h' (zs_zsl zs) L /\ alloc_exact (zs_zsl zs) L /\
    dict_wf (zsetDictType hash h') (zs_dict zs) /\ abs (zsetDictType hash h') (zs_dict zs) = entries L /\
    dictSize (zs_dict zs) = zlen L /\ pauseAutoResize (zs_dict zs) = 0.
Proof.
  intros Hh Hlg Hlen. destruct (run_zops_ok hash Hh h os Hlg Hlen) as (h' & zs & L & rs & E & [Hz Hi Ha _] & Es).
  exists h', zs, L, rs. rewrite Es. split; [done|]. split; [done|]. split; [apply Hz|]. split; [apply Hz|].
  split; [apply Hi|]. split; [apply Hi|]. split; [|done].
  rewrite (dictSize_ok (zsetDictType hash h') _ (ix_wf _ _ _ _ Hi)). apply (index_size hash h' _ L Hi). apply Hz.
Qed.

Lemma zset_structure_kept_witness :
  exists h zs L rs, run_zops sum_hash ∅ zset_example = Ok (h, zs, rs) /\ keys L = (spec_zops [] zset_example).1 /\
    dictSize (zs_dict zs) = 5 /\ zlen L = 5.
Proof.
  destruct (zset_structure_kept bump_allocator_laws sum_hash ∅ zset_example) as (h & zs & L & rs & E & Ek & _ & _ & _ & _ & Hs & _).
  - apply sum_hash_ok.
  - apply zset_example_legal.
  - done.
  - assert (zlen L = 5) as El.
    { transitivity (zlen (keys L)); [unfold zlen; by rewrite keys_length|]. rewrite Ek. vm_compute. reflexivity. }
    exists h, zs, L, rs. split; [exact E|]. split; [exact Ek|]. rewrite Hs. by split.
Defined.

(** C7: freeing a sorted set after any legal sequence of operations releases
    every node once and leaves the heap exactly as it was before the set was
    created; the assertion on the allocation size at the end of zslFree holds. *)
Theorem zset_free_leaves_heap `{alloc : NodeAllocator} (laws : NodeAllocatorLaws) (hash : list Z -> Z) (h : heap)
    (os : list (dictResizeEnable * zop)) :
  (forall k, 0 <= hash k < 2 ^ 64) -> zops_legal [] os -> zlen os < 2 ^ 62 ->
  exists h' zs rs, run_zops hash h os = Ok (h', zs, rs) /\ freeZsetObject h' zs = Ok h.
Proof.
  intros Hh Hlg Hlen. destruct (run_zops_ok hash Hh h os Hlg Hlen) as (h' & zs & L & rs & E & Hin & _).
  exists h', zs, rs. split; [done|]. by apply (free_in hash h h' zs L).
Qed.

Lemma zset_free_leaves_heap_witness :
  exists h zs rs, run_zops sum_hash ∅ (zset_example ++ [(DICT_RESIZE_ENABLE, ZPop true 2)]) = Ok (h, zs, rs) /\
    size h = 4%nat /\ freeZsetObject h zs = Ok ∅.
Proof.
  destruct (zset_free_leaves_heap bump_allocator_laws sum_hash ∅ (zset_example ++ [(DICT_RESIZE_ENABLE, ZPop true 2)]))
    as (h & zs & rs & E & Ef).
  - apply sum_hash_ok.
  - cbn [zset_example app zops_legal zadd_example zop_legal]. split_and!; try done; try (apply coins_good; lia).
    left. lia.
  - done.
  - exists h, zs, rs. split; [exact E|]. split; [|exact Ef].
    assert (match run_zops sum_hash ∅ (zset_example ++ [(DICT_RESIZE_ENABLE, ZPop true 2)]) with
            | Ok (h, _, _) => size h | Err _ => 0%nat end = 4%nat) as Hs by (vm_compute; reflexivity).
    by rewrite E in Hs.
Defined.

(** C23: zslNthInRange finds the elements of a range of scores by their index,
    from the first or, with a negative index, from the last; it returns NULL
    exactly when the index is outside the range, and the rank it stores is the
    one of the node in the whole list. *)
Theorem zslNthInRange_correct `{alloc : NodeAllocator} (laws : NodeAllocatorLaws) (hash : list Z -> Z) (h : heap)
    (os : list (dictResizeEnable * zop)) (range : zrangespec) (k : Z) :
  (forall k, 0 <= hash k < 2 ^ 64) -> zops_legal [] os -> zlen os < 2 ^ 62 -> numbers range -> - 2 ^ 63 < k < 2 ^ 62 ->
  exists h' zs rs r, run_zops hash h os = Ok (h', zs, rs) /\ zslNthInRange h' (zs_zsl zs) range k = Ok r /\
    match r with
    | None => pick (among (score_selects range) (spec_zops [] os).1) k = None
    | Some (x, rank) => exists e, emit_node h' x = Ok e /\ pick (among (score_selects range) (spec_zops [] os).1) k = Some e /\
        (spec_zops [] os).1 !! Z.to_nat (rank - 1) = Some e
    end.
Proof.
  intros Hh Hlg Hlen [H1 H2] Hk. destruct (run_zops_ok hash Hh h os Hlg Hlen) as (h' & zs & L & rs & E & Hin & Es).
  pose proof (zi_list _ _ _ _ _ Hin) as [Hsk Hso _ _]. rewrite Es. cbn [fst].
  pose proof (spec_zops_length [] os) as Hl. rewrite Es in Hl. cbn [fst] in Hl. change (zlen []) with 0 in Hl.
  assert (zlen L = zlen (keys L)) as El by (unfold zlen; by rewrite keys_length).
  exists h', zs, rs. rewrite (nth_by_score h' _ L range k Hsk Hso H1 H2) by lia.
  eexists. split; [done|]. split; [done|]. by apply (pick_selected h' (zs_zsl zs)).
Qed.

Lemma zslNthInRange_correct_witness :
  exists h zs rs r, run_zops sum_hash ∅ zset_example = Ok (h, zs, rs) /\ zslNthInRange h (zs_zsl zs) from_three_to_seven (-2) = Ok r /\
    exists x e, r = Some (x, 3) /\ emit_node h x = Ok e /\ e = (integer_double 5, [99; 1]).
Proof.
  destruct (zslNthInRange_correct bump_allocator_laws sum_hash ∅ zset_example from_three_to_seven (-2)) as (h & zs & rs & r & E & En & Hr).
  - apply sum_hash_ok.
  - apply zset_example_legal.
  - done.
  - done.
  - lia.
  - exists h, zs, rs, r. split; [exact E|]. split; [exact En|].
    assert (match run_zops sum_hash ∅ zset_example with
            | Ok (h, zs, _) => match zslNthInRange h (zs_zsl zs) from_three_to_seven (-2) with Ok (Some (_, rank)) => rank | _ => 0 end
            | Err _ => 0 end = 3) as Hrank by (vm_compute; reflexivity).
    rewrite E, En in Hrank. destruct r as [[x rank]|]; [|discriminate Hrank]. subst rank.
    destruct Hr as (e & He & Hp & _). exists x, e. split; [done|]. split; [exact He|].
    assert (Some e = Some (integer_double 5, [99; 1])) as Ee by (etrans; [symmetry; exact Hp|vm_compute; reflexivity]).
    by injection Ee.
Defined.

(** Copying a sorted set, from its greatest element down to its smallest,
    makes a second set with the same scored elements in nodes of its own: the
    original still lists the same, and freeing the copy gives back the heap with
    the original alone. *)
Theorem zsetDup_copies `{alloc : NodeAllocator} (laws : NodeAllocatorLaws) (hash : list Z -> Z) (cr : dictResizeEnable) (h : heap)
    (os : list (dictResizeEnable * zop)) (rnds : list (list Z)) (uninit : nat -> zskiplistLevel) :
  (forall k, 0 <= hash k < 2 ^ 64) -> zops_legal [] os -> zlen os < 2 ^ 62 ->
  zlen rnds = zlen (spec_zops [] os).1 -> Forall good_random rnds ->
  exists h1 zs rs h2 copy, run_zops hash h os = Ok (h1, zs, rs) /\ zsetDup hash cr rnds uninit h1 zs = Ok (h2, copy) /\
    genericZrangebyrankCommand h2 copy 0 (-1) false = Ok (spec_zops [] os).1 /\
    genericZrangebyrankCommand h2 zs 0 (-1) false = Ok (spec_zops [] os).1 /\
    (forall b n, h1 !! b = Some n -> h2 !! b = Some n) /\ freeZsetObject h2 copy = Ok h1.
Proof.
  intros Hh Hlg Hlen Hrl Hg. destruct (run_zops_ok hash Hh h os Hlg Hlen) as (h1 & zs & L & rs & E & Hin & Es).
  rewrite Es in *. cbn [fst] in *. unfold zlen in Hrl. rewrite keys_length in Hrl.
  destruct (zsetDup_ok hash Hh cr h h1 zs L rnds uninit Hin ltac:(lia) Hg) as (h2 & copy & L2 & Ed & Hin2 & Ek).
  exists h1, zs, rs, h2, copy. split; [done|]. split; [done|].
  assert (forall K : sset, list_ranks K 0 (-1) false = K) as Hall.
  { intros K. unfold list_ranks, rank_window, norm_index. cbn [Z.ltb Z.compare]. pose proof (zlen_nonneg K).
    destruct (Z.leb_spec (Z.max 0 0) (Z.min (zlen K - 1) (zlen K + -1))).
    - rewrite drop_0. apply take_ge. unfold zlen in *. lia.
    - symmetry. apply nil_length_inv. unfold zlen in *. lia. }
  assert (forall b n, h1 !! b = Some n -> h2 !! b = Some n) as Hkeep.
  { intros b n. by apply (still_there h1 h2 (zs_zsl copy) L2), Hin2. }
  split; [|split; [|split; [done|by apply (free_in hash h1 h2 copy L2)]]].
  - rewrite (zrangebyrank_ok h2 copy L2) by (lia || apply Hin2). by rewrite Hall, Ek.
  - pose proof (zi_list _ _ _ _ _ Hin) as [Hsk Hso Hdi Hal]. rewrite (zrangebyrank_ok h2 zs L); [by rewrite Hall| |lia|lia].
    constructor; [|done|done|done]. apply (skl_frame h1); [done|]. intros b Hb.
    destruct (zi_owns _ _ _ _ _ Hin2 b) as [H1 H2]. apply H2. intros Hb2. apply H1 in Hb2.
    apply addrs_cons in Hb as [->|(t & -> & (p & Hp)%list_elem_of_lookup)%list_elem_of_fmap].
    + destruct (sk_header _ _ _ Hsk) as (n & Hn & _). congruence.
    + destruct (sk_nodes _ _ _ Hsk p t Hp) as (n & Hn & _). congruence.
Qed.

Lemma zsetDup_copies_witness :
  exists h1 zs rs h2 copy, run_zops sum_hash ∅ zset_example = Ok (h1, zs, rs) /\
    zsetDup sum_hash DICT_RESIZE_ENABLE (replicate 5 (coins 1)) no_memory h1 zs = Ok (h2, copy) /\
    freeZsetObject h2 copy = Ok h1 /\ size h1 = 6%nat /\ size h2 = 12%nat.
Proof.
  destruct (zsetDup_copies bump_allocator_laws sum_hash DICT_RESIZE_ENABLE ∅ zset_example (replicate 5 (coins 1)) no_memory)
    as (h1 & zs & rs & h2 & copy & E & Ed & _ & _ & _ & Ef).
  - apply sum_hash_ok.
  - apply zset_example_legal.
  - done.
  - vm_compute. reflexivity.
  - repeat constructor; apply coins_good; lia.
  - exists h1, zs, rs, h2, copy. split; [exact E|]. split; [exact Ed|]. split; [exact Ef|].
    assert (match run_zops sum_hash ∅ zset_example with
            | Ok (h1, zs, _) =>
                match zsetDup sum_hash DICT_RESIZE_ENABLE (replicate 5 (coins 1)) no_memory h1 zs with
                | Ok (h2, _) => (size h1, size h2) | Err _ => (0%nat, 0%nat) end
            | Err _ => (0%nat, 0%nat) end = (6%nat, 12%nat)) as Hs by (vm_compute; reflexivity).
    rewrite E, Ed in Hs. injection Hs as E1 E2. split; [exact E1|exact E2].
Defined.

(** C37: the limit of ZRANGEBYSCORE is counted down from whatever long the client
    sent, below zero too: with the lowest one the decrement overflows as soon as
    the range holds an element, and the behaviour of the C code is undefined. *)
Theorem zrangebyscore_limit_overflows `{alloc : NodeAllocator} (laws : NodeAllocatorLaws) (hash : list Z -> Z) (h : heap)
    (os : list (dictResizeEnable * zop)) (range : zrangespec) (reverse : bool) :
  (forall k, 0 <= hash k < 2 ^ 64) -> zops_legal [] os -> zlen os < 2 ^ 61 -> numbers range ->
  among (score_selects range) (spec_zops [] os).1 <> [] ->
  exists h' zs rs, run_zops hash h os = Ok (h', zs, rs) /\
    genericZrangebyscoreCommand h' zs range 0 LLONG_MIN reverse = Err SignedOverflow.
Proof.
  intros Hh Hlg Hlen [H1 H2] Hne. destruct (run_zops_ok hash Hh h os Hlg ltac:(lia)) as (h' & zs & L & rs & E & Hin & Es).
  pose proof (spec_zops_length [] os) as Hl. rewrite Es in Hne, Hl. cbn [fst] in Hne, Hl. change (zlen []) with 0 in Hl.
  pose proof (zi_list _ _ _ _ _ Hin) as Hok. pose proof Hok as [Hsk Hso _ _]. exists h', zs, rs. split; [done|].
  pose proof (ranged_score h' _ L range Hsk Hso H1 H2) as Hr. destruct (rg_cuts _ _ _ _ _ _ _ Hr) as (a & b & Ha & Hb).
  pose proof (among_length L _ _ a b Ha Hb) as Hal. pose proof (proj1 Hb).
  assert (a + 0 < b)%nat as Hab.
  { destruct (decide (a + 0 < b)%nat); [done|]. destruct Hne. apply nil_length_inv. unfold score_selects, score_above, score_below in *. lia. }
  destruct (nth_start h' L _ _ _ _ _ Hr a b 0%nat reverse Ha Hb) as (Hst & r & En); [lia|lia|].
  unfold genericZrangebyscoreCommand, emit_range. change ((0 <? 0) || ((0 >? 0) && (0 >=? i64 (zsetLength zs)))) with false. cbv iota beta.
  change (if reverse then - 0 - 1 else 0) with (if reverse then - Z.of_nat 0 - 1 else Z.of_nat 0).
  rewrite En in Hst. rewrite En. runr. rewrite Hst, decide_True by exact Hab.
  destruct (lookup_lt_is_Some_2 L (if reverse then b - 0 - 1 else a + 0)%nat) as [t Ht]; [destruct reverse; lia|]. rewrite Ht.
  unfold list_fuel. cbn [fmap option_fmap option_map emit_range_loop]. change (LLONG_MIN =? 0) with false. cbv iota.
  change (chk_i64 (LLONG_MIN - 1)) with (Err SignedOverflow : result Z). reflexivity.
Qed.

Lemma zrangebyscore_limit_overflows_witness :
  exists h zs rs, run_zops sum_hash ∅ zset_example = Ok (h, zs, rs) /\
    genericZrangebyscoreCommand h zs all_scores 0 LLONG_MIN false = Err SignedOverflow.
Proof.
  destruct (zrangebyscore_limit_overflows bump_allocator_laws sum_hash ∅ zset_example all_scores false) as (h & zs & rs & E & Eo).
  - apply sum_hash_ok.
  - apply zset_example_legal.
  - done.
  - done.
  - vm_compute. discriminate.
  - exists h, zs, rs. split; [exact E|exact Eo].
Defined.
