(* ===== verification/Listpack.v ===== *)
(** Listpack: the listpack encoding of src/redis-stable/src/listpack.c.

    A listpack is one block of memory: a header (total bytes, number of
    elements), the entries, and an end marker.  An entry is its encoding
    followed by the length of that encoding written backwards ([backlen]), so
    that the block can be walked in both directions.

    The block is the list of its bytes (all [lp_malloc_size] of them: the
    allocator may hand out more than was asked for), a pointer into it is an
    offset, the null pointer is [None].  This file holds the code; what it
    means is in ListpackProofs (walking and validating), ListpackOps (updates)
    and ListpackSpec (the properties). *)

From Stdlib Require Import ZArith Lia Bool.
From stdpp Require Import base list numbers decidable.
From S2P Require Import Prelude Bytes Numbers.

Local Open Scope Z_scope.

(** What listpack.c relies on in its allocator (zmalloc.c over the C library):
    a block of at least the requested size, whose fresh bytes are
    indeterminate. *)
Class Allocator := {
  uninit : nat -> Z;
  usable : Z -> Z;
  usable_ge : forall n, n <= usable n
}.

(** * Constants *)

Abbreviation LP_HDR_SIZE := 6.
Abbreviation LP_HDR_NUMELE_UNKNOWN := 65535.
Abbreviation LP_INTBUF_SIZE := 21.
Abbreviation LP_EOF := 255.
Abbreviation UINT32_MAX := 4294967295.
Abbreviation UINT64_MAX := 18446744073709551615.
Abbreviation UCHAR_MAX := 255.

Inductive lp_enctype := LP_ENCODING_INT | LP_ENCODING_STRING.
Inductive lp_where := LP_BEFORE | LP_AFTER | LP_REPLACE.

Definition LP_ENCODING_IS_7BIT_UINT (b : Z) : bool := Z.land b 0x80 =? 0.
Definition LP_ENCODING_IS_6BIT_STR (b : Z) : bool := Z.land b 0xC0 =? 0x80.
Definition LP_ENCODING_IS_13BIT_INT (b : Z) : bool := Z.land b 0xE0 =? 0xC0.
Definition LP_ENCODING_IS_12BIT_STR (b : Z) : bool := Z.land b 0xF0 =? 0xE0.
Definition LP_ENCODING_IS_16BIT_INT (b : Z) : bool := Z.land b 0xFF =? 0xF1.
Definition LP_ENCODING_IS_24BIT_INT (b : Z) : bool := Z.land b 0xFF =? 0xF2.
Definition LP_ENCODING_IS_32BIT_INT (b : Z) : bool := Z.land b 0xFF =? 0xF3.
Definition LP_ENCODING_IS_64BIT_INT (b : Z) : bool := Z.land b 0xFF =? 0xF4.
Definition LP_ENCODING_IS_32BIT_STR (b : Z) : bool := Z.land b 0xFF =? 0xF0.

(** [b0<<0 | b1<<8 | ...] *)
Fixpoint or_bytes (bs : list Z) (sh : Z) : Z :=
  match bs with
  | [] => 0
  | b :: bs => Z.lor (Z.shiftl b sh) (or_bytes bs (sh + 8))
  end.

(** [(v)&0xff, ((v)>>8)&0xff, ...] *)
Definition and_bytes (n : nat) (v : Z) : list Z :=
  map (fun k => Z.land (Z.shiftr v (8 * Z.of_nat k)) 0xff) (seq 0 n).

Definition LP_ENCODING_6BIT_STR_LEN (lp : list Z) (p : Z) : result Z :=
  let* b := rd1 lp p in Ok (Z.land b 0x3F).
Definition LP_ENCODING_12BIT_STR_LEN (lp : list Z) (p : Z) : result Z :=
  let* b0 := rd1 lp p in
  let* b1 := rd1 lp (p + 1) in
  Ok (Z.lor (Z.shiftl (Z.land b0 0xF) 8) b1).
Definition LP_ENCODING_32BIT_STR_LEN (lp : list Z) (p : Z) : result Z :=
  let* bs := rdn lp (p + 1) 4 in Ok (or_bytes bs 0).

Definition lpGetTotalBytes (lp : list Z) : result Z :=
  let* bs := rdn lp 0 4 in Ok (or_bytes bs 0).
Definition lpGetNumElements (lp : list Z) : result Z :=
  let* bs := rdn lp 4 2 in Ok (or_bytes bs 0).
Definition lpSetTotalBytes (lp : list Z) (v : Z) : result (list Z) := wrn lp 0 (and_bytes 4 v).
Definition lpSetNumElements (lp : list Z) (v : Z) : result (list Z) := wrn lp 4 (and_bytes 2 v).

Definition ASSERT_INTEGRITY (lp : list Z) (p : Z) : result unit :=
  let* total := lpGetTotalBytes lp in
  guardr ((p >=? LP_HDR_SIZE) && (p <? total)) AssertFailed.
Definition ASSERT_INTEGRITY_LEN (lp : list Z) (p len : Z) : result unit :=
  let* total := lpGetTotalBytes lp in
  guardr ((p >=? LP_HDR_SIZE) && (p + len <? total)) AssertFailed.

Definition LISTPACK_MAX_SAFETY_SIZE : Z := Z.shiftl 1 30.

Definition lpSafeToAdd (lp : option (list Z)) (add : Z) : result bool :=
  let* len := match lp with Some lp => lpGetTotalBytes lp | None => Ok 0 end in
  if u64 (len + add) >? LISTPACK_MAX_SAFETY_SIZE then Ok false else Ok true.

Definition lpBytes (lp : list Z) : result Z := lpGetTotalBytes lp.

(** * Encoding *)

(** The same text as [string2ll] of util.c. *)
Definition lpStringToInt64 (s : list Z) (slen : Z) : result (option Z) :=
  if (slen =? 0) || (slen >=? LONG_STR_SIZE) then Ok None else
  let* c := rd1 s 0 in
  if (slen =? 1) && (c =? ch_0) then Ok (Some 0) else
  let negative := c =? ch_minus in
  let plen := if negative then 1 else 0 in
  if negative && (plen =? slen) then Ok None else
  let* c := rd1 s plen in
  if negb ((c >=? ch_1) && (c <=? ch_9)) then Ok None else
  let* r := s2ll_loop (Z.to_nat slen) s (plen + 1) slen (c - ch_0) in
  match r with
  | None => Ok None
  | Some (v, plen) =>
      if plen <? slen then Ok None
      else if negative then
        if v >? u64 (- (LLONG_MIN + 1)) + 1 then Ok None else Ok (Some (i64 (u64 (- v))))
      else if v >? LLONG_MAX then Ok None else Ok (Some v)
  end.

(** The bytes stored in [intenc] and [*enclen]. *)
Definition lpEncodeIntegerGetType (v : Z) : list Z * Z :=
  if (v >=? 0) && (v <=? 127) then ([u8 v], 1)
  else if (v >=? -4096) && (v <=? 4095) then
    let v := if v <? 0 then Z.shiftl 1 13 + v else v in
    ([u8 (Z.lor (Z.shiftr v 8) 0xC0); Z.land v 0xff], 2)
  else if (v >=? -32768) && (v <=? 32767) then
    let v := if v <? 0 then Z.shiftl 1 16 + v else v in
    ([0xF1; Z.land v 0xff; u8 (Z.shiftr v 8)], 3)
  else if (v >=? -8388608) && (v <=? 8388607) then
    let v := if v <? 0 then Z.shiftl 1 24 + v else v in
    ([0xF2; Z.land v 0xff; Z.land (Z.shiftr v 8) 0xff; u8 (Z.shiftr v 16)], 4)
  else if (v >=? -2147483648) && (v <=? 2147483647) then
    let v := if v <? 0 then Z.shiftl 1 32 + v else v in
    ([0xF3; Z.land v 0xff; Z.land (Z.shiftr v 8) 0xff; Z.land (Z.shiftr v 16) 0xff;
      u8 (Z.shiftr v 24)], 5)
  else
    let uv := u64 v in
    ([0xF4; Z.land uv 0xff; Z.land (Z.shiftr uv 8) 0xff; Z.land (Z.shiftr uv 16) 0xff;
      Z.land (Z.shiftr uv 24) 0xff; Z.land (Z.shiftr uv 32) 0xff;
      Z.land (Z.shiftr uv 40) 0xff; Z.land (Z.shiftr uv 48) 0xff;
      u8 (Z.shiftr uv 56)], 9).

(** The encoding type, the bytes of [intenc] and [*enclen]. *)
Definition lpEncodeGetType (ele : list Z) (size : Z) : result (lp_enctype * list Z * Z) :=
  let* r := lpStringToInt64 ele size in
  match r with
  | Some v =>
      let '(intenc, enclen) := lpEncodeIntegerGetType v in
      Ok (LP_ENCODING_INT, intenc, enclen)
  | None =>
      Ok (LP_ENCODING_STRING, [],
          if size <? 64 then u32 (1 + size)
          else if size <? 4096 then u32 (2 + size)
          else 5 + size)
  end.

(** The bytes stored in [buf] and the value returned. *)
Definition lpEncodeBacklen (l : Z) : list Z * Z :=
  if l <=? 127 then ([u8 l], 1)
  else if l <? 16383 then
    ([u8 (Z.shiftr l 7); Z.lor (Z.land l 127) 128], 2)
  else if l <? 2097151 then
    ([u8 (Z.shiftr l 14); Z.lor (Z.land (Z.shiftr l 7) 127) 128; Z.lor (Z.land l 127) 128], 3)
  else if l <? 268435455 then
    ([u8 (Z.shiftr l 21); Z.lor (Z.land (Z.shiftr l 14) 127) 128;
      Z.lor (Z.land (Z.shiftr l 7) 127) 128; Z.lor (Z.land l 127) 128], 4)
  else
    ([u8 (Z.shiftr l 28); Z.lor (Z.land (Z.shiftr l 21) 127) 128;
      Z.lor (Z.land (Z.shiftr l 14) 127) 128; Z.lor (Z.land (Z.shiftr l 7) 127) 128;
      Z.lor (Z.land l 127) 128], 5).

Definition lpEncodeBacklenBytes (l : Z) : Z :=
  if l <=? 127 then 1
  else if l <? 16383 then 2
  else if l <? 2097151 then 3
  else if l <? 268435455 then 4
  else 5.

Definition lpDecodeBacklen (lp : list Z) (p : Z) : result Z :=
  let* b0 := rd1 lp p in
  if Z.land b0 128 =? 0 then Ok (Z.land b0 127) else
  let val := Z.land b0 127 in
  let* b1 := rd1 lp (p - 1) in
  if Z.land b1 128 =? 0 then Ok (Z.lor val (Z.shiftl (Z.land b1 127) 7)) else
  let val := Z.lor val (Z.shiftl (Z.land b1 127) 7) in
  let* b2 := rd1 lp (p - 2) in
  if Z.land b2 128 =? 0 then Ok (Z.lor val (Z.shiftl (Z.land b2 127) 14)) else
  let val := Z.lor val (Z.shiftl (Z.land b2 127) 14) in
  let* b3 := rd1 lp (p - 3) in
  if Z.land b3 128 =? 0 then Ok (Z.lor val (Z.shiftl (Z.land b3 127) 21)) else
  let val := Z.lor val (Z.shiftl (Z.land b3 127) 21) in
  let* b4 := rd1 lp (p - 4) in
  if Z.land b4 128 =? 0 then Ok (Z.lor val (Z.shiftl (Z.land b4 127) 28)) else
  Ok UINT64_MAX.

(** The encoding byte and length bytes, then [memcpy] of the [len] bytes. *)
Definition lpEncodeString (buf : list Z) (off : Z) (s : list Z) (len : Z) : result (list Z) :=
  let hdr :=
    if len <? 64 then [Z.lor len 0x80]
    else if len <? 4096 then [Z.lor (Z.shiftr len 8) 0xE0; Z.land len 0xff]
    else 0xF0 :: and_bytes 4 len in
  let* buf := wrn buf off hdr in
  let* bs := rdn s 0 len in
  wrn buf (off + zlen hdr) bs.

Definition lpCurrentEncodedSizeUnsafe (lp : list Z) (p : Z) : result Z :=
  let* b := rd1 lp p in
  if LP_ENCODING_IS_7BIT_UINT b then Ok 1
  else if LP_ENCODING_IS_6BIT_STR b then
    let* len := LP_ENCODING_6BIT_STR_LEN lp p in Ok (1 + len)
  else if LP_ENCODING_IS_13BIT_INT b then Ok 2
  else if LP_ENCODING_IS_16BIT_INT b then Ok 3
  else if LP_ENCODING_IS_24BIT_INT b then Ok 4
  else if LP_ENCODING_IS_32BIT_INT b then Ok 5
  else if LP_ENCODING_IS_64BIT_INT b then Ok 9
  else if LP_ENCODING_IS_12BIT_STR b then
    let* len := LP_ENCODING_12BIT_STR_LEN lp p in Ok (2 + len)
  else if LP_ENCODING_IS_32BIT_STR b then
    let* len := LP_ENCODING_32BIT_STR_LEN lp p in Ok (u32 (5 + len))
  else if b =? LP_EOF then Ok 1
  else Ok 0.

Definition lpCurrentEncodedSizeBytes (encoding : Z) : Z :=
  if LP_ENCODING_IS_7BIT_UINT encoding then 1
  else if LP_ENCODING_IS_6BIT_STR encoding then 1
  else if LP_ENCODING_IS_13BIT_INT encoding then 1
  else if LP_ENCODING_IS_16BIT_INT encoding then 1
  else if LP_ENCODING_IS_24BIT_INT encoding then 1
  else if LP_ENCODING_IS_32BIT_INT encoding then 1
  else if LP_ENCODING_IS_64BIT_INT encoding then 1
  else if LP_ENCODING_IS_12BIT_STR encoding then 2
  else if LP_ENCODING_IS_32BIT_STR encoding then 5
  else if encoding =? LP_EOF then 1
  else 0.

(** * Walking *)

Definition lpSkip (lp : list Z) (p : Z) : result Z :=
  let* entrylen := lpCurrentEncodedSizeUnsafe lp p in
  Ok (p + (entrylen + lpEncodeBacklenBytes entrylen)).

(** Returns the verdict and the new value of [*pp]. *)
Definition lpValidateNext (lp : list Z) (pp : option Z) (lpbytes : Z) : result (bool * option Z) :=
  let out_of_range p := (p <? LP_HDR_SIZE) || (p >? lpbytes - 1) in
  match pp with
  | None => Ok (false, pp)
  | Some p =>
      if out_of_range p then Ok (false, pp) else
      let* b := rd1 lp p in
      if b =? LP_EOF then Ok (true, None) else
      let lenbytes := lpCurrentEncodedSizeBytes b in
      if lenbytes =? 0 then Ok (false, pp) else
      if out_of_range (p + lenbytes) then Ok (false, pp) else
      let* entrylen := lpCurrentEncodedSizeUnsafe lp p in
      let encodedBacklen := lpEncodeBacklenBytes entrylen in
      let entrylen := entrylen + encodedBacklen in
      if out_of_range (p + entrylen) then Ok (false, pp) else
      let p := p + entrylen in
      let* prevlen := lpDecodeBacklen lp (p - 1) in
      if negb (u64 (prevlen + encodedBacklen) =? entrylen) then Ok (false, pp) else
      Ok (true, Some p)
  end.

Definition lpAssertValidEntry (lp : list Z) (lpbytes : Z) (p : Z) : result unit :=
  let* (valid, _) := lpValidateNext lp (Some p) lpbytes in
  guardr valid AssertFailed.

Definition lpNextWithBytes (lp : list Z) (p : Z) (lpbytes : Z) : result (option Z) :=
  let* p := lpSkip lp p in
  let* b := rd1 lp p in
  if b =? LP_EOF then Ok None else
  let* _ := lpAssertValidEntry lp lpbytes p in
  Ok (Some p).

Definition lpNext (lp : list Z) (p : Z) : result (option Z) :=
  let* p := lpSkip lp p in
  let* b := rd1 lp p in
  if b =? LP_EOF then Ok None else
  let* bytes := lpBytes lp in
  let* _ := lpAssertValidEntry lp bytes p in
  Ok (Some p).

Definition lpPrev (lp : list Z) (p : Z) : result (option Z) :=
  if p =? LP_HDR_SIZE then Ok None else
  let p := p - 1 in
  let* prevlen := lpDecodeBacklen lp p in
  let prevlen := u64 (prevlen + lpEncodeBacklenBytes prevlen) in
  let p := p - u64 (prevlen - 1) in
  let* bytes := lpBytes lp in
  let* _ := lpAssertValidEntry lp bytes p in
  Ok (Some p).

Definition lpFirst (lp : list Z) : result (option Z) :=
  let p := LP_HDR_SIZE in
  let* b := rd1 lp p in
  if b =? LP_EOF then Ok None else
  let* bytes := lpBytes lp in
  let* _ := lpAssertValidEntry lp bytes p in
  Ok (Some p).

Definition lpLast (lp : list Z) : result (option Z) :=
  let* total := lpGetTotalBytes lp in
  lpPrev lp (total - 1).

(** The counting loop of lpLength. *)
Fixpoint count_loop (fuel : nat) (lp : list Z) (p : option Z) (count : Z) : result Z :=
  match p with
  | None => Ok count
  | Some p =>
      match fuel with
      | O => Err OutOfFuel
      | S fuel =>
          let* p := lpNext lp p in
          count_loop fuel lp p (u32 (count + 1))
      end
  end.

(** Returns the block too: the count is cached in the header when it fits. *)
Definition lpLength (lp : list Z) : result (list Z * Z) :=
  let* numele := lpGetNumElements lp in
  if negb (numele =? LP_HDR_NUMELE_UNKNOWN) then Ok (lp, numele) else
  let* p := lpFirst lp in
  let* count := count_loop (length lp) lp p 0 in
  let* lp := if count <? LP_HDR_NUMELE_UNKNOWN then lpSetNumElements lp count else Ok lp in
  Ok (lp, count).

(** The two scanning loops of lpSeek. *)
Fixpoint seek_forward (fuel : nat) (lp : list Z) (index : Z) (ele : option Z) : result (option Z) :=
  match ele with
  | Some p =>
      if index >? 0 then
        match fuel with
        | O => Err OutOfFuel
        | S fuel => let* ele := lpNext lp p in seek_forward fuel lp (index - 1) ele
        end
      else Ok ele
  | None => Ok ele
  end.

Fixpoint seek_backward (fuel : nat) (lp : list Z) (index : Z) (ele : option Z) : result (option Z) :=
  match ele with
  | Some p =>
      if index <? -1 then
        match fuel with
        | O => Err OutOfFuel
        | S fuel => let* ele := lpPrev lp p in seek_backward fuel lp (index + 1) ele
        end
      else Ok ele
  | None => Ok ele
  end.

Definition lpSeek (lp : list Z) (index : Z) : result (option Z) :=
  let scan (forward : bool) (index : Z) :=
    if forward then let* ele := lpFirst lp in seek_forward (length lp) lp index ele
    else let* ele := lpLast lp in seek_backward (length lp) lp index ele in
  let* numele := lpGetNumElements lp in
  if negb (numele =? LP_HDR_NUMELE_UNKNOWN) then
    let* index := if index <? 0 then chk_i64 (numele + index) else Ok index in
    if index <? 0 then Ok None else
    if index >=? numele then Ok None else
    if index >? numele / 2 then scan false (index - numele) else scan true index
  else scan (negb (index <? 0)) index.

(** * Reading elements *)

(** What a getter returns: a pointer into the listpack, the caller's buffer,
    or null (then [count] is the integer itself). *)
Inductive lp_vstr := InListpack (off : Z) | InBuf | Null.

(** The conversion of the stored word to a signed value, then either the
    integer or its decimal form in [intbuf]. *)
Definition int_result (uval negstart negmax : Z) (intbuf : option (list Z))
  : result (lp_vstr * Z * option (list Z)) :=
  let val := if uval >=? negstart then - i64 (u64 (negmax - uval)) - 1 else i64 uval in
  match intbuf with
  | Some buf =>
      let* (buf, count) := ll2string buf 0 LP_INTBUF_SIZE val in
      Ok (InBuf, count, Some buf)
  | None => Ok (Null, val, None)
  end.

(** [p[from] | p[from+1]<<8 | ...] of [n] bytes. *)
Definition int_bytes (lp : list Z) (p n : Z) : result Z :=
  let* bs := rdn lp p n in Ok (or_bytes bs 0).

Definition lpGetWithSize (lp : list Z) (p : Z) (intbuf : option (list Z)) (entry_size : Z)
  : result (lp_vstr * Z * option (list Z) * Z) :=
  let int uval negstart negmax entry_size :=
    let* r := int_result uval negstart negmax intbuf in Ok (r, entry_size) in
  let* b := rd1 lp p in
  if LP_ENCODING_IS_7BIT_UINT b then int (Z.land b 0x7f) UINT64_MAX 0 2
  else if LP_ENCODING_IS_6BIT_STR b then
    let* count := LP_ENCODING_6BIT_STR_LEN lp p in
    Ok (InListpack (p + 1), count, intbuf, 1 + count + lpEncodeBacklenBytes (count + 1))
  else if LP_ENCODING_IS_13BIT_INT b then
    let* b1 := rd1 lp (p + 1) in
    int (Z.lor (Z.shiftl (Z.land b 0x1f) 8) b1) (Z.shiftl 1 12) 8191 3
  else if LP_ENCODING_IS_16BIT_INT b then
    let* uval := int_bytes lp (p + 1) 2 in int uval (Z.shiftl 1 15) 65535 4
  else if LP_ENCODING_IS_24BIT_INT b then
    let* uval := int_bytes lp (p + 1) 3 in int uval (Z.shiftl 1 23) (Z.shiftr UINT32_MAX 8) 5
  else if LP_ENCODING_IS_32BIT_INT b then
    let* uval := int_bytes lp (p + 1) 4 in int uval (Z.shiftl 1 31) UINT32_MAX 6
  else if LP_ENCODING_IS_64BIT_INT b then
    let* uval := int_bytes lp (p + 1) 8 in int uval (Z.shiftl 1 63) UINT64_MAX 10
  else if LP_ENCODING_IS_12BIT_STR b then
    let* count := LP_ENCODING_12BIT_STR_LEN lp p in
    Ok (InListpack (p + 2), count, intbuf, 2 + count + lpEncodeBacklenBytes (count + 2))
  else if LP_ENCODING_IS_32BIT_STR b then
    let* count := LP_ENCODING_32BIT_STR_LEN lp p in
    Ok (InListpack (p + 5), count, intbuf, 5 + count + lpEncodeBacklenBytes (count + 5))
  else int (12345678900000000 + b) UINT64_MAX 0 entry_size.

Definition lpGetWithBuf (lp : list Z) (p : Z) (intbuf : option (list Z))
  : result (lp_vstr * Z * option (list Z)) :=
  let* encoding := rd1 lp p in
  if LP_ENCODING_IS_6BIT_STR encoding then
    let* count := LP_ENCODING_6BIT_STR_LEN lp p in Ok (InListpack (p + 1), count, intbuf)
  else if LP_ENCODING_IS_12BIT_STR encoding then
    let* count := LP_ENCODING_12BIT_STR_LEN lp p in Ok (InListpack (p + 2), count, intbuf)
  else if LP_ENCODING_IS_32BIT_STR encoding then
    let* count := LP_ENCODING_32BIT_STR_LEN lp p in Ok (InListpack (p + 5), count, intbuf)
  else if LP_ENCODING_IS_7BIT_UINT encoding then
    int_result (Z.land encoding 0x7f) UINT64_MAX 0 intbuf
  else if LP_ENCODING_IS_13BIT_INT encoding then
    let* b1 := rd1 lp (p + 1) in
    int_result (Z.lor (Z.shiftl (Z.land encoding 0x1f) 8) b1) (Z.shiftl 1 12) 8191 intbuf
  else if LP_ENCODING_IS_16BIT_INT encoding then
    let* uval := int_bytes lp (p + 1) 2 in int_result uval (Z.shiftl 1 15) 65535 intbuf
  else if LP_ENCODING_IS_24BIT_INT encoding then
    let* uval := int_bytes lp (p + 1) 3 in
    int_result uval (Z.shiftl 1 23) (Z.shiftr UINT32_MAX 8) intbuf
  else if LP_ENCODING_IS_32BIT_INT encoding then
    let* uval := int_bytes lp (p + 1) 4 in int_result uval (Z.shiftl 1 31) UINT32_MAX intbuf
  else if LP_ENCODING_IS_64BIT_INT encoding then
    let* uval := int_bytes lp (p + 1) 8 in int_result uval (Z.shiftl 1 63) UINT64_MAX intbuf
  else int_result (12345678900000000 + encoding) UINT64_MAX 0 intbuf.

Definition lpGet (lp : list Z) (p : Z) (intbuf : option (list Z)) := lpGetWithBuf lp p intbuf.

(** The element at [p], as lpGetValue reports it: a string (offset and length,
    truncated to [unsigned int]) or an integer. *)
Definition lpGetValue (lp : list Z) (p : Z) : result (lp_vstr * Z) :=
  let* (vstr, ele_len, _) := lpGet lp p None in
  match vstr with
  | Null => Ok (Null, ele_len)
  | _ => Ok (vstr, u32 ele_len)
  end.

Definition lpGetIntegerValue (lp : list Z) (p : Z) : result (option Z) :=
  let* (vstr, ele_len, _) := lpGet lp p None in
  match vstr with
  | Null => Ok (Some ele_len)
  | _ => Ok None
  end.

(** * Searching *)

Section find.
(** The comparator is called with the entry pointer, its user data, the string
    pointer (null for an integer) and the length or integer. *)
Context {U : Type} (cmp : Z -> U -> option Z -> Z -> result (Z * U)).

Fixpoint find_loop (fuel : nat) (lp : list Z) (lp_bytes : Z) (p : option Z) (user : U)
    (skip skipcnt entry_size : Z) : result (option Z * U) :=
  match p with
  | None => Ok (None, user)
  | Some p =>
      match fuel with
      | O => Err OutOfFuel
      | S fuel =>
          let continue p user skipcnt entry_size :=
            let* _ := if p + 8 >=? lp_bytes then lpAssertValidEntry lp lp_bytes p
                      else guardr ((p >=? LP_HDR_SIZE) && (p <? lp_bytes)) AssertFailed in
            let* b := rd1 lp p in
            if b =? LP_EOF then Ok (None, user)
            else find_loop fuel lp lp_bytes (Some p) user skip skipcnt entry_size in
          if skipcnt =? 0 then
            let* (value, ll, _, entry_size) := lpGetWithSize lp p None entry_size in
            let value := match value with InListpack off => Some off | _ => None end in
            let* _ := match value with
                      | Some _ =>
                          guardr ((p >=? LP_HDR_SIZE) && (p + entry_size <? lp_bytes)) AssertFailed
                      | None => Ok tt
                      end in
            let* (c, user) := cmp p user value ll in
            if c =? 0 then Ok (Some p, user)
            else continue (p + entry_size) user (i32 skip) entry_size
          else
            let* skipcnt := chk_i32 (skipcnt - 1) in
            let* p := lpSkip lp p in
            continue p user skipcnt entry_size
      end
  end.

Definition lpFindCbInternal (lp : list Z) (p : option Z) (user : U) (skip : Z)
  : result (option Z * U) :=
  let* lp_bytes := lpBytes lp in
  let lp_bytes := u32 lp_bytes in
  let* p := match p with None => lpFirst lp | Some _ => Ok p end in
  find_loop (S (length lp)) lp lp_bytes p user skip 0 123456789.

Definition lpFindCb (lp : list Z) (p : option Z) (user : U) (skip : Z) :=
  lpFindCbInternal lp p user skip.
End find.

(** struct lpFindArg; [s] is shared by all calls, the other two change. *)
Record lpFindArg := { fa_s : list Z; fa_slen : Z; fa_vencoding : Z; fa_vll : Z }.

Definition lpFindCmp (lp : list Z) (p : Z) (arg : lpFindArg) (s : option Z) (slen : Z)
  : result (Z * lpFindArg) :=
  match s with
  | Some s =>
      if slen =? fa_slen arg then
        let* a := rdn (fa_s arg) 0 slen in
        let* b := rdn lp s slen in
        if bool_decide (a = b) then Ok (0, arg) else Ok (1, arg)
      else Ok (1, arg)
  | None =>
      let* arg :=
        if fa_vencoding arg =? 0 then
          let* v := if (fa_slen arg >=? 32) || (fa_slen arg =? 0) then Ok None
                    else lpStringToInt64 (fa_s arg) (fa_slen arg) in
          Ok match v with
             | None => {| fa_s := fa_s arg; fa_slen := fa_slen arg;
                          fa_vencoding := UCHAR_MAX; fa_vll := fa_vll arg |}
             | Some v => {| fa_s := fa_s arg; fa_slen := fa_slen arg;
                            fa_vencoding := 1; fa_vll := v |}
             end
        else Ok arg in
      if negb (fa_vencoding arg =? UCHAR_MAX) && (slen =? fa_vll arg) then Ok (0, arg)
      else Ok (1, arg)
  end.

Definition lpFind (lp : list Z) (p : option Z) (s : list Z) (slen skip : Z) : result (option Z) :=
  let arg := {| fa_s := s; fa_slen := slen; fa_vencoding := 0; fa_vll := 0 |} in
  let* (r, _) := lpFindCbInternal (lpFindCmp lp) lp p arg skip in
  Ok r.

(** [cached] is the pair of [*cached_longval] and [*cached_valid], when given. *)
Definition lpCompare (lp : list Z) (p : Z) (s : list Z) (slen : Z) (cached : option (Z * Z))
  : result (bool * option (Z * Z)) :=
  let* b := rd1 lp p in
  if b =? LP_EOF then Ok (false, cached) else
  let* (value, sz, _) := lpGet lp p None in
  match value with
  | InListpack off =>
      if slen =? sz then
        let* a := rdn lp off slen in
        let* b := rdn s 0 slen in
        Ok (bool_decide (a = b), cached)
      else Ok (false, cached)
  | _ =>
      match cached with
      | Some (longval, valid) =>
          let* (longval, valid) :=
            if valid =? 0 then
              let* r := lpStringToInt64 s slen in
              Ok match r with Some v => (v, 1) | None => (longval, -1) end
            else Ok (longval, valid) in
          Ok ((valid =? 1) && (sz =? longval), Some (longval, valid))
      | None =>
          let* r := lpStringToInt64 s slen in
          Ok (match r with Some sval => sz =? sval | None => false end, cached)
      end
  end.

(** * Validation *)

Section validate.
(** The callback sees the entry, the element count of the header and its data. *)
Context {U : Type}.

(** The entry loop of lpValidateIntegrity. [None]: refused. *)
Fixpoint validate_loop (fuel : nat) (lp : list Z) (bytes numele : Z)
    (entry_cb : option (Z -> Z -> U -> result (bool * U))) (p : option Z) (count : Z) (data : U)
  : result (option (option Z * Z) * U) :=
  match p with
  | None => Ok (Some (p, count), data)
  | Some prev =>
      let* b := rd1 lp prev in
      if b =? LP_EOF then Ok (Some (p, count), data) else
      match fuel with
      | O => Err OutOfFuel
      | S fuel =>
          let* (valid, p) := lpValidateNext lp p bytes in
          if negb valid then Ok (None, data) else
          let* (accept, data) :=
            match entry_cb with
            | Some cb => cb prev numele data
            | None => Ok (true, data)
            end in
          if negb accept then Ok (None, data) else
          validate_loop fuel lp bytes numele entry_cb p (u32 (count + 1)) data
      end
  end.

Definition lpValidateIntegrity (lp : list Z) (size : Z) (deep : bool)
    (entry_cb : option (Z -> Z -> U -> result (bool * U))) (cb_userdata : U)
  : result (bool * U) :=
  if size <? LP_HDR_SIZE + 1 then Ok (false, cb_userdata) else
  let* bytes := lpGetTotalBytes lp in
  if negb (bytes =? size) then Ok (false, cb_userdata) else
  let* b := rd1 lp (size - 1) in
  if negb (b =? LP_EOF) then Ok (false, cb_userdata) else
  if negb deep then Ok (true, cb_userdata) else
  let* numele := lpGetNumElements lp in
  let* (r, data) :=
    validate_loop (length lp) lp bytes numele entry_cb (Some LP_HDR_SIZE) 0 cb_userdata in
  match r with
  | None => Ok (false, data)
  | Some (p, count) =>
      if negb (bool_decide (p = Some (size - 1))) then Ok (false, data) else
      if negb (numele =? LP_HDR_NUMELE_UNKNOWN) && negb (numele =? count) then Ok (false, data) else
      Ok (true, data)
  end.
End validate.

Definition lpValidateFirst (lp : list Z) : result (option Z) :=
  let p := LP_HDR_SIZE in
  let* b := rd1 lp p in
  if b =? LP_EOF then Ok None else Ok (Some p).

(** * Updates *)

Section update.
Context {alloc : Allocator}.

Definition lp_malloc (n : Z) : list Z := realloc uninit [] (usable n).
Definition lp_realloc (lp : list Z) (n : Z) : list Z := realloc uninit lp (usable n).
Definition lp_malloc_size (lp : list Z) : Z := zlen lp.

Definition lpNew (capacity : Z) : result (list Z) :=
  let lp := lp_malloc (if capacity >? LP_HDR_SIZE + 1 then capacity else LP_HDR_SIZE + 1) in
  let* lp := lpSetTotalBytes lp (LP_HDR_SIZE + 1) in
  let* lp := lpSetNumElements lp 0 in
  wr1 lp LP_HDR_SIZE LP_EOF.

Definition lpShrinkToFit (lp : list Z) : result (list Z) :=
  let* size := lpGetTotalBytes lp in
  if size <? lp_malloc_size lp then Ok (lp_realloc lp size) else Ok lp.

Definition is_delete (elestr eleint : option (list Z)) : bool :=
  match elestr, eleint with None, None => true | _, _ => false end.

(** Encoding type (null when deleting), the encoded integer and the length. *)
Definition insert_encoding (elestr eleint : option (list Z)) (size : Z)
  : result (option lp_enctype * option (list Z) * Z) :=
  match elestr, eleint with
  | Some s, _ =>
      let* (enctype, intenc, enclen) := lpEncodeGetType s size in
      Ok (Some enctype,
          match enctype with LP_ENCODING_INT => Some intenc | LP_ENCODING_STRING => eleint end,
          enclen)
  | None, Some i => Ok (Some LP_ENCODING_INT, eleint, size)
  | None, None => Ok (None, eleint, 0)
  end.

(** "Store the entry": the encoded element and its backlen at [dst]. *)
Definition insert_store (lp : list Z) (dst : Z) (enctype : option lp_enctype)
    (elestr eleint : option (list Z)) (size enclen : Z) (backlen : list Z) (backlen_size : Z)
  : result (list Z) :=
  let* lp :=
    match enctype, eleint, elestr with
    | Some LP_ENCODING_INT, Some i, _ => let* bs := rdn i 0 enclen in wrn lp dst bs
    | Some LP_ENCODING_INT, None, _ => Err NullDeref
    | _, _, Some s => lpEncodeString lp dst s size
    | _, _, None => Err AssertFailed
    end in
  let* bs := rdn backlen 0 backlen_size in
  wrn lp (dst + enclen) bs.

(** "Update header" of lpInsert. *)
Definition insert_header (lp : list Z) (replace delete : bool) (new_listpack_bytes : Z)
  : result (list Z) :=
  let* lp :=
    if negb replace || delete then
      let* num_elements := lpGetNumElements lp in
      if negb (num_elements =? LP_HDR_NUMELE_UNKNOWN) then
        lpSetNumElements lp (if negb delete then u32 (num_elements + 1) else u32 (num_elements - 1))
      else Ok lp
    else Ok lp in
  lpSetTotalBytes lp new_listpack_bytes.

(** lpInsert once the position is settled: everything after LP_AFTER has been
    turned into LP_BEFORE ([replace] says whether [where] is LP_REPLACE).
    Returns the new block and [*newp]; [None] when it would be too large. *)
Definition insert_at (lp : list Z) (elestr eleint : option (list Z)) (size : Z) (p : Z)
    (replace : bool) : result (option (list Z * option Z)) :=
  let delete := is_delete elestr eleint in
  let poff := p in
  let* (enctype, eleint, enclen) := insert_encoding elestr eleint size in
  let '(backlen, backlen_size) := if negb delete then lpEncodeBacklen enclen else ([], 0) in
  let* old_listpack_bytes := lpGetTotalBytes lp in
  let* replaced_len :=
    if replace then
      let* replaced_len := lpCurrentEncodedSizeUnsafe lp p in
      let replaced_len := u32 (replaced_len + lpEncodeBacklenBytes replaced_len) in
      let* _ := ASSERT_INTEGRITY_LEN lp p replaced_len in
      Ok replaced_len
    else Ok 0 in
  let new_listpack_bytes := u64 (old_listpack_bytes + enclen + backlen_size - replaced_len) in
  if new_listpack_bytes >? UINT32_MAX then Ok None else
  let lp := if (new_listpack_bytes >? old_listpack_bytes)
               && (new_listpack_bytes >? lp_malloc_size lp)
            then lp_realloc lp new_listpack_bytes else lp in
  let dst := poff in
  let* lp :=
    if negb replace then
      memmove lp (dst + enclen + backlen_size) dst (old_listpack_bytes - poff)
    else
      memmove lp (dst + enclen + backlen_size) (dst + replaced_len)
        (old_listpack_bytes - poff - replaced_len) in
  let lp := if new_listpack_bytes <? old_listpack_bytes
            then lp_realloc lp new_listpack_bytes else lp in
  let* b := rd1 lp dst in
  let newp := if delete && (b =? LP_EOF) then None else Some dst in
  let* lp :=
    if negb delete then
      insert_store lp dst enctype elestr eleint size enclen backlen backlen_size
    else Ok lp in
  let* lp := insert_header lp replace delete new_listpack_bytes in
  Ok (Some (lp, newp)).

Definition lpInsert (lp : list Z) (elestr eleint : option (list Z)) (size : Z) (p : Z)
    (where_ : lp_where) : result (option (list Z * option Z)) :=
  let delete := is_delete elestr eleint in
  let where_ := if delete then LP_REPLACE else where_ in
  match where_ with
  | LP_AFTER =>
      let* p := lpSkip lp p in
      let* _ := ASSERT_INTEGRITY lp p in
      insert_at lp elestr eleint size p false
  | LP_BEFORE => insert_at lp elestr eleint size p false
  | LP_REPLACE => insert_at lp elestr eleint size p true
  end.

Definition lpInsertString (lp : list Z) (s : list Z) (slen p : Z) (where_ : lp_where) :=
  lpInsert lp (Some s) None slen p where_.

Definition lpInsertInteger (lp : list Z) (lval p : Z) (where_ : lp_where) :=
  let '(intenc, enclen) := lpEncodeIntegerGetType lval in
  lpInsert lp None (Some intenc) enclen p where_.

(** Forget [*newp], for the callers that pass NULL. *)
Definition drop_newp (r : result (option (list Z * option Z))) : result (option (list Z)) :=
  let* r := r in Ok (option_map fst r).

Definition lpAppend (lp : list Z) (ele : list Z) (size : Z) : result (option (list Z)) :=
  let* listpack_bytes := lpGetTotalBytes lp in
  let eofptr := listpack_bytes - 1 in
  drop_newp (lpInsert lp (Some ele) None size eofptr LP_BEFORE).

Definition lpAppendInteger (lp : list Z) (lval : Z) : result (option (list Z)) :=
  let* listpack_bytes := lpGetTotalBytes lp in
  let eofptr := listpack_bytes - 1 in
  drop_newp (lpInsertInteger lp lval eofptr LP_BEFORE).

Definition lpPrepend (lp : list Z) (s : list Z) (slen : Z) : result (option (list Z)) :=
  let* p := lpFirst lp in
  match p with
  | None => lpAppend lp s slen
  | Some p => drop_newp (lpInsert lp (Some s) None slen p LP_BEFORE)
  end.

Definition lpPrependInteger (lp : list Z) (lval : Z) : result (option (list Z)) :=
  let* p := lpFirst lp in
  match p with
  | None => lpAppendInteger lp lval
  | Some p => drop_newp (lpInsertInteger lp lval p LP_BEFORE)
  end.

Definition lpReplace (lp : list Z) (p : Z) (s : list Z) (slen : Z) :=
  lpInsert lp (Some s) None slen p LP_REPLACE.

Definition lpReplaceInteger (lp : list Z) (p : Z) (lval : Z) := lpInsertInteger lp lval p LP_REPLACE.

Definition lpDelete (lp : list Z) (p : Z) := lpInsert lp None None 0 p LP_REPLACE.

(** ** Batches *)

Record listpackEntry := { le_sval : option (list Z); le_slen : Z; le_lval : Z }.

Record listpackInsertEntry := {
  ie_enctype : lp_enctype;
  ie_enclen : Z;
  ie_intenc : list Z;
  ie_backlen : list Z;
  ie_backlen_size : Z
}.

(** The first loop of lpBatchInsert: encode every entry, sum the lengths. *)
Fixpoint batch_encode (entries : list listpackEntry) (addedlen : Z)
  : result (list listpackInsertEntry * Z) :=
  match entries with
  | [] => Ok ([], addedlen)
  | e :: entries =>
      let* (enctype, intenc, enclen) :=
        match le_sval e with
        | Some sval => lpEncodeGetType sval (le_slen e)
        | None =>
            let '(intenc, enclen) := lpEncodeIntegerGetType (le_lval e) in
            Ok (LP_ENCODING_INT, intenc, enclen)
        end in
      let addedlen := u64 (addedlen + enclen) in
      let '(backlen, backlen_size) := lpEncodeBacklen enclen in
      let addedlen := u64 (addedlen + backlen_size) in
      let* (enc, addedlen) := batch_encode entries addedlen in
      Ok ({| ie_enctype := enctype; ie_enclen := enclen; ie_intenc := intenc;
             ie_backlen := backlen; ie_backlen_size := backlen_size |} :: enc, addedlen)
  end.

(** The second loop: store the entries; returns the block and [*newp]. *)
Fixpoint batch_store (lp : list Z) (dst : Z) (entries : list listpackEntry)
    (enc : list listpackInsertEntry) (newp : Z) : result (list Z * Z) :=
  match entries, enc with
  | ent :: entries, x :: enc =>
      let newp := dst in
      let* lp :=
        match ie_enctype x, le_sval ent with
        | LP_ENCODING_INT, _ => let* bs := rdn (ie_intenc x) 0 (ie_enclen x) in wrn lp dst bs
        | LP_ENCODING_STRING, Some sval => lpEncodeString lp dst sval (le_slen ent)
        | LP_ENCODING_STRING, None => Err NullDeref
        end in
      let dst := dst + ie_enclen x in
      let* bs := rdn (ie_backlen x) 0 (ie_backlen_size x) in
      let* lp := wrn lp dst bs in
      let dst := dst + ie_backlen_size x in
      batch_store lp dst entries enc newp
  | _, _ => Ok (lp, newp)
  end.

Definition lpBatchInsert (lp : list Z) (p : Z) (where_ : lp_where) (entries : list listpackEntry)
  : result (option (list Z * Z)) :=
  let len := zlen entries in
  check match where_ with LP_REPLACE => false | _ => true end else AssertFailed;;
  check len >? 0 else AssertFailed;;
  let* p :=
    match where_ with
    | LP_AFTER =>
        let* p := lpSkip lp p in
        let* _ := ASSERT_INTEGRITY lp p in
        Ok p
    | _ => Ok p
    end in
  let* (enc, addedlen) := batch_encode entries 0 in
  let* old_listpack_bytes := lpGetTotalBytes lp in
  let new_listpack_bytes := u64 (old_listpack_bytes + addedlen) in
  if new_listpack_bytes >? UINT32_MAX then Ok None else
  let poff := p in
  let dst := poff in
  let lp := if (new_listpack_bytes >? old_listpack_bytes)
               && (new_listpack_bytes >? lp_malloc_size lp)
            then lp_realloc lp new_listpack_bytes else lp in
  let* lp := memmove lp (dst + addedlen) dst (old_listpack_bytes - poff) in
  let* (lp, newp) := batch_store lp dst entries enc dst in
  let* num_elements := lpGetNumElements lp in
  let* lp :=
    if negb (num_elements =? LP_HDR_NUMELE_UNKNOWN) then
      if len >? LP_HDR_NUMELE_UNKNOWN - num_elements
      then lpSetNumElements lp LP_HDR_NUMELE_UNKNOWN
      else lpSetNumElements lp (u32 (num_elements + len))
    else Ok lp in
  let* lp := lpSetTotalBytes lp new_listpack_bytes in
  Ok (Some (lp, newp)).

Definition lpBatchAppend (lp : list Z) (entries : list listpackEntry) : result (option (list Z)) :=
  let* listpack_bytes := lpGetTotalBytes lp in
  let eofptr := listpack_bytes - 1 in
  let* r := lpBatchInsert lp eofptr LP_BEFORE entries in
  Ok (option_map fst r).

(** ** Deleting ranges *)

(** The loop of lpDeleteRangeWithEntry: the tail pointer and the number of
    deleted elements. *)
Fixpoint range_loop (fuel : nat) (lp : list Z) (bytes num deleted tail : Z) : result (Z * Z) :=
  if num =? 0 then Ok (deleted, tail) else
  match fuel with
  | O => Err OutOfFuel
  | S fuel =>
      let deleted := deleted + 1 in
      let* tail := lpSkip lp tail in
      let* b := rd1 lp tail in
      if b =? LP_EOF then Ok (deleted, tail) else
      let* _ := lpAssertValidEntry lp bytes tail in
      range_loop fuel lp bytes (num - 1) deleted tail
  end.

Definition lpDeleteRangeWithEntry (lp : list Z) (p : Z) (num : Z) : result (list Z * option Z) :=
  let* bytes := lpBytes lp in
  let eofptr := bytes - 1 in
  let first := p in
  if num =? 0 then Ok (lp, Some p) else
  let* (deleted, tail) := range_loop (length lp) lp bytes num 0 p in
  let poff := first in
  let* lp := memmove lp first tail (eofptr - tail + 1) in
  let* lp := lpSetTotalBytes lp (u64 (bytes - (tail - first))) in
  let* numele := lpGetNumElements lp in
  let* lp := if negb (numele =? LP_HDR_NUMELE_UNKNOWN)
             then lpSetNumElements lp (u64 (numele - deleted)) else Ok lp in
  let* lp := lpShrinkToFit lp in
  let* b := rd1 lp poff in
  Ok (lp, if b =? LP_EOF then None else Some poff).

Definition lpDeleteRange (lp : list Z) (index num : Z) : result (list Z) :=
  let* numele := lpGetNumElements lp in
  if num =? 0 then Ok lp else
  let* p := lpSeek lp index in
  match p with
  | None => Ok lp
  | Some p =>
      let known := negb (numele =? LP_HDR_NUMELE_UNKNOWN) in
      let index := if known && (index <? 0) then numele + index else index in
      if known && (u64 (numele - u64 index) <=? num) then
        let* lp := wr1 lp p LP_EOF in
        let* lp := lpSetTotalBytes lp (p + 1) in
        let* lp := lpSetNumElements lp index in
        lpShrinkToFit lp
      else
        let* (lp, _) := lpDeleteRangeWithEntry lp p num in
        Ok lp
  end.

(** The loop of lpBatchDelete over the element pointers. *)
Fixpoint batch_delete_loop (lp : list Z) (lp_end dst : Z) (ps : list Z) : result (list Z * Z) :=
  match ps with
  | [] => Ok (lp, dst)
  | skip :: ps =>
      let* b := rd1 lp skip in
      check negb (b =? LP_EOF) else AssertFailed;;
      let* keep_start := lpSkip lp skip in
      let keep_end := match ps with p' :: _ => p' | [] => lp_end end in
      if negb (bool_decide (ps = [])) && (keep_start =? keep_end) then
        batch_delete_loop lp lp_end dst ps
      else
        check keep_end >? keep_start else AssertFailed;;
        let bytes_to_keep := keep_end - keep_start in
        let* lp := memmove lp dst keep_start bytes_to_keep in
        batch_delete_loop lp lp_end (dst + bytes_to_keep) ps
  end.

Definition lpBatchDelete (lp : list Z) (ps : list Z) : result (list Z) :=
  match ps with
  | [] => Ok lp
  | dst :: _ =>
      let count := zlen ps in
      let* total_bytes := lpGetTotalBytes lp in
      let lp_end := total_bytes in
      let* b := rd1 lp (lp_end - 1) in
      check b =? LP_EOF else AssertFailed;;
      let* (lp, dst) := batch_delete_loop lp lp_end dst ps in
      let deleted_bytes := lp_end - dst in
      let total_bytes := total_bytes - deleted_bytes in
      let* b := rd1 lp (total_bytes - 1) in
      check b =? LP_EOF else AssertFailed;;
      let* lp := lpSetTotalBytes lp total_bytes in
      let* numele := lpGetNumElements lp in
      let* lp := if negb (numele =? LP_HDR_NUMELE_UNKNOWN)
                 then lpSetNumElements lp (u64 (numele - count)) else Ok lp in
      lpShrinkToFit lp
  end.

(** ** Merging *)

(** The two listpacks are distinct blocks (a listpack is never merged into
    itself).  [None] when NULL is returned and nothing changed, otherwise the
    new values of [*first] and [*second], of which one is null. *)
Definition lpMerge (first second : option (list Z))
  : result (option (option (list Z) * option (list Z))) :=
  match first, second with
  | Some first, Some second =>
      let* first_bytes := lpBytes first in
      let* (first, first_len) := lpLength first in
      let* second_bytes := lpBytes second in
      let* (second, second_len) := lpLength second in
      let append := first_bytes >=? second_bytes in
      let '(target, target_bytes, source, source_bytes) :=
        if append then (first, first_bytes, second, second_bytes)
        else (second, second_bytes, first, first_bytes) in
      let lpbytes := u64 (first_bytes + second_bytes - LP_HDR_SIZE - 1) in
      check lpbytes <? UINT32_MAX else AssertFailed;;
      let lplength := first_len + second_len in
      let lplength := if lplength <? 65535 then lplength else 65535 in
      let target := lp_realloc target lpbytes in
      let* target :=
        if append then
          let* bs := rdn source LP_HDR_SIZE (source_bytes - LP_HDR_SIZE) in
          wrn target (target_bytes - 1) bs
        else
          let* target := memmove target (source_bytes - 1) LP_HDR_SIZE (target_bytes - LP_HDR_SIZE) in
          let* bs := rdn source 0 (source_bytes - 1) in
          wrn target 0 bs in
      let* target := lpSetNumElements target lplength in
      let* target := lpSetTotalBytes target lpbytes in
      if append then Ok (Some (Some target, None)) else Ok (Some (None, Some target))
  | _, _ => Ok None
  end.

Definition lpDup (lp : list Z) : result (list Z) :=
  let* lpbytes := lpBytes lp in
  let newlp := lp_malloc lpbytes in
  let* bs := rdn lp 0 lpbytes in
  wrn newlp 0 bs.
End update.

Definition lpEntrySizeInteger (lval : Z) : Z :=
  let '(_, enclen) := lpEncodeIntegerGetType lval in
  let backlen := lpEncodeBacklenBytes enclen in
  enclen + backlen.

Definition lpEstimateBytesRepeatedInteger (lval rep : Z) : Z :=
  u64 (LP_HDR_SIZE + lpEntrySizeInteger lval * rep + 1).
