(* ===== verification/ListpackProofs.v ===== *)
(** ListpackProofs: what the bytes of a listpack mean, and the walking and
    validation code of Listpack.v against that meaning.

    [valid_enc] and [decode] describe one encoding independently of the C
    code; [lp_repr lp es] says that the block [lp] holds the entries [es]
    with their canonical back lengths; [chain] is the weaker notion of a block
    every entry of which passes lpValidateNext, which is all that walking and
    validation need. *)

From Stdlib Require Import ZArith Lia Bool.
From stdpp Require Import base list numbers decidable.
From S2P Require Import Prelude Bytes Numbers Listpack.

Local Open Scope Z_scope.

(** * Bits *)

Lemma or_bytes_shift bs sh : 0 <= sh -> or_bytes bs sh = Z.shiftl (or_bytes bs 0) sh.
Proof.
  assert (forall bs sh k, 0 <= sh -> 0 <= k -> or_bytes bs (k + sh) = Z.shiftl (or_bytes bs k) sh) as H.
  { clear. induction bs as [|b bs IH]; intros sh k Hs Hk; simpl; [by rewrite Z.shiftl_0_l|].
    rewrite Z.shiftl_lor, Z.shiftl_shiftl by lia. f_equal.
    replace (k + sh + 8) with (k + 8 + sh) by lia. apply IH; lia. }
  intros Hs. by rewrite <- (H bs sh 0).
Qed.

(** The shift-and-or of a little-endian field is its value. *)
Lemma or_bytes_val bs : Forall is_byte bs -> or_bytes bs 0 = le_val bs.
Proof.
  induction 1 as [|b bs Hb _ IH]; [done|]. unfold is_byte in Hb.
  cbn [or_bytes le_val]. rewrite Z.add_0_l, Z.shiftl_0_r, or_bytes_shift by lia.
  rewrite IH, lor_disjoint; change (2 ^ 8) with 256; lia.
Qed.

Lemma and_byte v k : 0 <= k -> Z.land (Z.shiftr v k) 255 = (v / 2 ^ k) mod 256.
Proof.
  intros Hk. change 255 with (Z.ones 8). rewrite Z.land_ones, Z.shiftr_div_pow2 by lia. done.
Qed.

(** ... and the mask-and-shift of a word its little-endian bytes. *)
Lemma and_bytes_le n v : and_bytes n v = le_bytes n v.
Proof.
  unfold and_bytes. revert v. induction n as [|n IH]; intros v; [done|].
  cbn [seq]. rewrite <- seq_shift. cbn [map le_bytes]. f_equal.
  - by rewrite and_byte, Z.pow_0_r, Z.div_1_r by lia.
  - rewrite <- IH, map_map. apply map_ext. intros k.
    rewrite !and_byte by lia. replace (8 * Z.of_nat (S k)) with (8 + 8 * Z.of_nat k) by lia.
    rewrite Z.pow_add_r by lia. rewrite <- Z.div_div by (try apply Z.pow_pos_nonneg; lia). done.
Qed.

(** Facts on a byte are decided by trying the 256 of them. *)
Lemma byte_cases (P : Z -> bool) :
  forallb P (map Z.of_nat (seq 0 256)) = true -> forall b, is_byte b -> P b = true.
Proof.
  intros H b Hb. unfold is_byte in Hb. rewrite forallb_forall in H. apply H.
  apply in_map_iff. exists (Z.to_nat b). split; [lia|]. apply in_seq. lia.
Qed.

Lemma classify b : is_byte b ->
  LP_ENCODING_IS_7BIT_UINT b = (b <? 128) /\
  LP_ENCODING_IS_6BIT_STR b = ((128 <=? b) && (b <? 192)) /\
  LP_ENCODING_IS_13BIT_INT b = ((192 <=? b) && (b <? 224)) /\
  LP_ENCODING_IS_12BIT_STR b = ((224 <=? b) && (b <? 240)) /\
  LP_ENCODING_IS_32BIT_STR b = (b =? 240) /\
  LP_ENCODING_IS_16BIT_INT b = (b =? 241) /\
  LP_ENCODING_IS_24BIT_INT b = (b =? 242) /\
  LP_ENCODING_IS_32BIT_INT b = (b =? 243) /\
  LP_ENCODING_IS_64BIT_INT b = (b =? 244).
Proof.
  intros Hb. repeat split; apply eqb_prop; revert b Hb; apply byte_cases; vm_compute; reflexivity.
Qed.

Lemma low_masks b : is_byte b ->
  Z.land b 0x7f = b mod 128 /\ Z.land b 0x3f = b mod 64 /\
  Z.land b 0x1f = b mod 32 /\ Z.land b 0xf = b mod 16.
Proof.
  intros _. repeat split;
    [change 0x7f with (Z.ones 7) | change 0x3f with (Z.ones 6)
    |change 0x1f with (Z.ones 5) | change 0xf with (Z.ones 4)]; by rewrite Z.land_ones by lia.
Qed.

Lemma cont_bit d : 0 <= d < 128 ->
  Z.lor d 128 = d + 128 /\ Z.land d 128 = 0 /\ Z.land (d + 128) 128 = 128 /\
  Z.land d 127 = d /\ Z.land (d + 128) 127 = d.
Proof.
  intros Hd.
  assert (forallb (fun d => implb (d <? 128) ((Z.lor d 128 =? d + 128) && (Z.land d 128 =? 0) &&
     (Z.land (d + 128) 128 =? 128) && (Z.land d 127 =? d) && (Z.land (d + 128) 127 =? d)))
     (map Z.of_nat (seq 0 256)) = true) as H by (vm_compute; reflexivity).
  pose proof (byte_cases _ H d ltac:(unfold is_byte; lia)) as Hb. cbv beta in Hb.
  rewrite (proj2 (Z.ltb_lt d 128)) in Hb by lia. cbn [implb] in Hb.
  repeat (apply andb_prop in Hb as [Hb ?]). rewrite Z.eqb_eq in *. done.
Qed.

(** * One entry *)

Inductive lpval :=
  | LStr (s : list Z)
  | LInt (v : Z).

#[global] Instance lpval_eq_dec : EqDecision lpval.
Proof. solve_decision. Defined.

(** The length an encoding announces (0 when its first byte announces none). *)
Definition enc_len (e : list Z) : Z :=
  match e with
  | [] => 0
  | b :: t =>
      if b <? 128 then 1
      else if b <? 192 then 1 + (b - 128)
      else if b <? 224 then 2
      else if b <? 240 then 2 + (b - 224) * 256 + default 0 (head t)
      else if b =? 240 then 5 + le_val (take 4 t)
      else if b =? 241 then 3
      else if b =? 242 then 4
      else if b =? 243 then 5
      else if b =? 244 then 9
      else 0
  end.

(** Bytes that encode exactly one element. *)
Definition valid_enc (e : list Z) : Prop :=
  Forall is_byte e /\ 0 < zlen e < 2 ^ 32 /\ enc_len e = zlen e.

Definition decode (e : list Z) : lpval :=
  match e with
  | [] => LInt 0
  | b :: t =>
      if b <? 128 then LInt b
      else if b <? 192 then LStr t
      else if b <? 224 then LInt (wrapS 13 ((b - 192) * 256 + le_val t))
      else if b <? 240 then LStr (drop 1 t)
      else if b =? 240 then LStr (drop 4 t)
      else LInt (wrapS (8 * zlen t) (le_val t))
  end.

(** The bytes written for a back length. *)
Definition backlen (l : Z) : list Z := fst (lpEncodeBacklen l).

Definition entry (e : list Z) : list Z := e ++ backlen (zlen e).

Definition body (es : list (list Z)) : list Z := concat (map entry es).

(** Where entry [i] starts ([i] may be the number of entries: the end marker). *)
Definition offset (es : list (list Z)) (i : nat) : Z := LP_HDR_SIZE + zlen (body (take i es)).

Definition total (es : list (list Z)) : Z := LP_HDR_SIZE + zlen (body es) + 1.

(** The element count a header may hold: the number of entries, or 65535 for
    "unknown". *)
Definition numele_ok (num : Z) (es : list (list Z)) : Prop :=
  num = LP_HDR_NUMELE_UNKNOWN \/ num = zlen es /\ zlen es < LP_HDR_NUMELE_UNKNOWN.

(** The block [lp] is a listpack with entries [es] (and bytes to spare). *)
Record lp_repr (lp : list Z) (es : list (list Z)) : Prop := {
  r_layout : exists num slack,
    lp = le_bytes 4 (total es) ++ le_bytes 2 num ++ body es ++ LP_EOF :: slack /\ numele_ok num es;
  r_valid : Forall valid_enc es;
  r_fits : total es < 2 ^ 32
}.

(** Lengths of concrete lists, everywhere. *)
Ltac zlens :=
  rewrite ?zlen_cons, ?zlen_app, ?zlen_le_bytes in *;
  change (zlen (@nil Z)) with 0 in *.

(** ** The shapes of an encoding *)

Definition int_width (b : Z) : Z :=
  if b =? 241 then 2 else if b =? 242 then 3 else if b =? 243 then 4 else 8.

Inductive enc_shape : list Z -> lpval -> Prop :=
  | shape_7bit b : 0 <= b < 128 -> enc_shape [b] (LInt b)
  | shape_6str b s : 128 <= b < 192 -> zlen s = b - 128 -> enc_shape (b :: s) (LStr s)
  | shape_13bit b b1 : 192 <= b < 224 -> is_byte b1 ->
      enc_shape [b; b1] (LInt (wrapS 13 ((b - 192) * 256 + b1)))
  | shape_12str b b1 s : 224 <= b < 240 -> is_byte b1 -> zlen s = (b - 224) * 256 + b1 ->
      enc_shape (b :: b1 :: s) (LStr s)
  | shape_32str b l s : b = 240 -> zlen l = 4 -> Forall is_byte l -> zlen s = le_val l ->
      enc_shape (b :: l ++ s) (LStr s)
  | shape_int b t : 241 <= b < 245 -> zlen t = int_width b -> Forall is_byte t ->
      enc_shape (b :: t) (LInt (wrapS (8 * zlen t) (le_val t))).

Lemma enc_shape_decode e x : enc_shape e x -> decode e = x.
Proof.
  destruct 1; unfold decode; dec_bool; try done.
  - unfold le_val. by rewrite Z.mul_0_r, Z.add_0_r.
  - f_equal. unfold zlen in *. replace 4%nat with (length l) by lia. apply drop_app_length.
Qed.

Lemma take_short_byte n t : Forall is_byte t -> zlen t < Z.of_nat n ->
  0 <= le_val (take n t) < 2 ^ (8 * zlen t).
Proof. intros Ht Hl. unfold zlen in *. rewrite take_ge by lia. by apply le_val_range. Qed.

Lemma valid_shape e : valid_enc e -> enc_shape e (decode e).
Proof.
  intros (Hb & Hz & Hl). enough (exists x, enc_shape e x) as [x Hx].
  { by rewrite (enc_shape_decode _ _ Hx). }
  destruct e as [|b t]; [unfold zlen in Hz; simpl in Hz; lia|].
  rewrite list.Forall_cons in Hb. destruct Hb as [Hb Ht]. unfold is_byte in Hb.
  rewrite zlen_cons in *. unfold enc_len in Hl. pose proof (zlen_nonneg t).
  destruct (Z.ltb_spec b 128).
  { assert (t = []) as -> by (apply zlen_nil_inv; lia). eexists. constructor. lia. }
  destruct (Z.ltb_spec b 192). { eexists. constructor; lia. }
  destruct (Z.ltb_spec b 224).
  { destruct t as [|b1 t]; rewrite ?zlen_nil, ?zlen_cons in Hl; [lia|].
    rewrite list.Forall_cons in Ht. assert (t = []) as -> by (apply zlen_nil_inv; lia).
    eexists. constructor; [lia | tauto]. }
  destruct (Z.ltb_spec b 240).
  { destruct t as [|b1 t]; rewrite ?zlen_cons in Hl; cbn in Hl; [unfold zlen in Hl; cbn in Hl; lia|].
    rewrite list.Forall_cons in Ht. eexists. apply shape_12str; [lia | tauto | lia]. }
  destruct (Z.eqb_spec b 240) as [->|].
  { destruct (Z.lt_ge_cases (zlen t) 4) as [Hs|Hs].
    - pose proof (take_short_byte 4 t Ht Hs). lia.
    - exists (LStr (drop 4 t)). rewrite <- (take_drop 4 t) at 1. apply shape_32str.
      + done.
      + apply (zlen_take t 4). lia.
      + by apply Forall_take.
      + pose proof (zlen_drop t 4 ltac:(lia)) as Hd. change (Z.to_nat 4) with 4%nat in Hd. lia. }
  destruct (Z.ltb_spec b 245).
  - eexists. apply shape_int; [lia | unfold int_width | done].
    revert Hl. repeat case_bool; lia.
  - revert Hl. repeat case_bool; lia.
Qed.

Lemma shape_valid e x : enc_shape e x -> Forall is_byte e -> zlen e < 2 ^ 32 -> valid_enc e.
Proof.
  intros Hs Hb Hz. split; [done|].
  enough (0 < zlen e /\ enc_len e = zlen e) by lia.
  destruct Hs; zlens;
    try pose proof (zlen_nonneg s); try pose proof (zlen_nonneg t);
    (split; [lia|]); unfold enc_len; dec_bool; try lia.
  - change (default 0 (head (b1 :: s))) with b1. lia.
  - unfold zlen in H0. replace 4%nat with (length l) by lia. rewrite take_app_length. unfold zlen in *. lia.
  - unfold int_width in *. repeat case_bool; lia.
Qed.

(** The code tells the shapes apart by their first byte. *)
Lemma shape_first e x : enc_shape e x -> exists b t, e = b :: t /\ 0 <= b < 245.
Proof. destruct 1; repeat eexists; lia. Qed.

Ltac classify b :=
  let H := fresh in
  assert (is_byte b) as H by (unfold is_byte; lia);
  destruct (classify b H) as (? & ? & ? & ? & ? & ? & ? & ? & ?); clear H.

Ltac shape_tests b :=
  repeat match goal with H : _ b = _ |- _ => rewrite H; clear H end; dec_bool.

(** Reads inside an entry that sits between [a] and [c]. *)
Lemma rd_snd {A} (a c : list A) x y off : off = zlen a + 1 -> rd1 (a ++ x :: y :: c) off = Ok y.
Proof.
  intros ->. change (a ++ x :: y :: c) with (a ++ [x] ++ y :: c). rewrite app_assoc.
  apply rd1_mid. by rewrite zlen_app.
Qed.

Lemma rdn_tail {A} (a t c : list A) x off n :
  off = zlen a + 1 -> n = zlen t -> rdn (a ++ x :: t ++ c) off n = Ok t.
Proof.
  intros -> ->. change (a ++ x :: t ++ c) with (a ++ [x] ++ t ++ c). rewrite app_assoc.
  apply rdn_mid; by rewrite ?zlen_app.
Qed.

Lemma str12_len a c b b1 : 224 <= b < 240 -> is_byte b1 ->
  LP_ENCODING_12BIT_STR_LEN (a ++ b :: b1 :: c) (zlen a) = Ok ((b - 224) * 256 + b1).
Proof.
  intros Hb Hb1. unfold LP_ENCODING_12BIT_STR_LEN. rewrite rd1_mid by done. runr.
  rewrite rd_snd by done. runr. f_equal.
  destruct (low_masks b) as (_ & _ & _ & ->); [unfold is_byte; lia|].
  unfold is_byte in Hb1. rewrite Z.lor_comm, lor_disjoint by (change (2 ^ 8) with 256; lia).
  change (2 ^ 8) with 256. replace b with ((b - 224) + 14 * 16) at 1 by lia.
  rewrite Z.mod_add, Z.mod_small by lia. lia.
Qed.

Lemma str32_len a c l b : zlen l = 4 -> Forall is_byte l ->
  LP_ENCODING_32BIT_STR_LEN (a ++ b :: l ++ c) (zlen a) = Ok (le_val l).
Proof.
  intros Hl Hb. unfold LP_ENCODING_32BIT_STR_LEN. rewrite rdn_tail by done. runr.
  by rewrite or_bytes_val.
Qed.

Lemma str6_len a c b : 128 <= b < 192 ->
  LP_ENCODING_6BIT_STR_LEN (a ++ b :: c) (zlen a) = Ok (b - 128).
Proof.
  intros Hb. unfold LP_ENCODING_6BIT_STR_LEN. rewrite rd1_mid by done. runr. f_equal.
  destruct (low_masks b) as (_ & -> & _); [unfold is_byte; lia|].
  replace b with ((b - 128) + 2 * 64) at 1 by lia. rewrite Z.mod_add, Z.mod_small by lia. done.
Qed.

Lemma size_unsafe_ok a e c off : valid_enc e -> off = zlen a ->
  lpCurrentEncodedSizeUnsafe (a ++ e ++ c) off = Ok (zlen e).
Proof.
  intros Hv ->. pose proof (valid_shape e Hv) as Hs. destruct Hv as (_ & Hz & _).
  unfold lpCurrentEncodedSizeUnsafe.
  destruct Hs; classify b; rewrite <- ?app_assoc, <- ?app_comm_cons, rd1_mid by done; runr;
    zlens; shape_tests b; try done.
  - rewrite str6_len by done. runr. by rewrite H0.
  - rewrite str12_len by done. runr. f_equal. lia.
  - rewrite <- app_assoc, str32_len by done. runr. rewrite wrapU_small by lia. f_equal. lia.
  - unfold int_width in *. repeat case_bool; f_equal; lia.
Qed.

Lemma size_bytes_ok e : valid_enc e ->
  exists b t, e = b :: t /\ 0 <= b < 245 /\ 0 < lpCurrentEncodedSizeBytes b <= zlen e.
Proof.
  intros Hv. pose proof (valid_shape e Hv) as Hs.
  unfold lpCurrentEncodedSizeBytes.
  destruct Hs; classify b; (eexists b, _; split; [done|]); (split; [lia|]);
    zlens; shape_tests b;
    try pose proof (zlen_nonneg s); try pose proof (zlen_nonneg t); try lia.
  unfold int_width in *. repeat case_bool; lia.
Qed.

(** ** Getters *)

(** An integer handed to the caller: in its buffer when it passed one. *)
Definition give (v : Z) (intbuf : option (list Z)) : result (lp_vstr * Z * option (list Z)) :=
  match intbuf with
  | Some buf =>
      let* (buf, count) := ll2string buf 0 LP_INTBUF_SIZE v in
      Ok (InBuf, count, Some buf)
  | None => Ok (Null, v, None)
  end.

(** Two's complement over [w] bits, the way the getters undo it. *)
Lemma int_result_ok w u negstart negmax ib :
  0 < w <= 64 -> 0 <= u < 2 ^ w -> negstart = 2 ^ (w - 1) -> negmax = 2 ^ w - 1 ->
  int_result u negstart negmax ib = give (wrapS w u) ib.
Proof.
  intros Hw Hu -> ->. unfold int_result.
  change (give (if u >=? 2 ^ (w - 1) then - i64 (u64 (2 ^ w - 1 - u)) - 1 else i64 u) ib =
    give (wrapS w u) ib). f_equal.
  assert (2 ^ w = 2 * 2 ^ (w - 1)) as Hp.
  { rewrite <- Z.pow_succ_r by lia. f_equal; lia. }
  assert (2 ^ (w - 1) <= 2 ^ 63) as Hmax by (apply Z.pow_le_mono_r; lia).
  change (2 ^ 63) with 9223372036854775808 in Hmax.
  rewrite Z.geb_leb. destruct (Z.leb_spec (2 ^ (w - 1)) u).
  - rewrite wrapU_small by (change (2 ^ 64) with 18446744073709551616; lia).
    rewrite wrapS_small by (change (2 ^ (64 - 1)) with 9223372036854775808; lia).
    unfold wrapS. replace (u + 2 ^ (w - 1)) with ((u - 2 ^ (w - 1)) + 1 * 2 ^ w) by lia.
    rewrite Z.mod_add, Z.mod_small by lia. lia.
  - rewrite (wrapS_small 64) by (change (2 ^ (64 - 1)) with 9223372036854775808; lia).
    rewrite wrapS_small by lia. done.
Qed.

Lemma int_result_plain u ib : 0 <= u < 128 -> int_result u UINT64_MAX 0 ib = give u ib.
Proof.
  intros Hu. unfold int_result, give. dec_bool. by rewrite wrapS_small by (cbn; lia).
Qed.

Lemma int_bytes_ok a t c x off n : off = zlen a -> Forall is_byte t -> n = zlen t ->
  int_bytes (a ++ x :: t ++ c) (off + 1) n = Ok (le_val t).
Proof.
  intros -> Ht ->. unfold int_bytes. rewrite rdn_tail by done. runr. by rewrite or_bytes_val.
Qed.

Lemma int13_word b b1 : 192 <= b < 224 -> is_byte b1 ->
  Z.lor (Z.shiftl (Z.land b 0x1f) 8) b1 = (b - 192) * 256 + b1.
Proof.
  intros Hb Hb1. unfold is_byte in Hb1.
  destruct (low_masks b) as (_ & _ & -> & _); [unfold is_byte; lia|].
  rewrite Z.lor_comm, lor_disjoint by (change (2 ^ 8) with 256; lia). change (2 ^ 8) with 256.
  replace b with ((b - 192) + 6 * 32) at 1 by lia. rewrite Z.mod_add, Z.mod_small by lia. lia.
Qed.

(** What the getters report of an element: where its string is, or its value. *)
Definition reported (off : Z) (e : list Z) : lp_vstr * Z :=
  match decode e with
  | LStr s => (InListpack (off + (zlen e - zlen s)), zlen s)
  | LInt v => (Null, v)
  end.

Ltac int_word w :=
  rewrite ?(int_result_ok w) by (first [done | lia | vm_compute; reflexivity]).

Lemma get_buf_ok a e c off ib : valid_enc e -> off = zlen a ->
  lpGetWithBuf (a ++ e ++ c) off ib =
    match decode e with
    | LStr s => Ok (InListpack (off + (zlen e - zlen s)), zlen s, ib)
    | LInt v => give v ib
    end.
Proof.
  intros Hv ->. pose proof (valid_shape e Hv) as Hs.
  remember (decode e) as x eqn:Hx. clear Hx. unfold lpGetWithBuf.
  destruct Hs; classify b; rewrite <- ?app_assoc, <- ?app_comm_cons, rd1_mid by done; runr;
    zlens; shape_tests b; cbn [fst snd].
  - destruct (low_masks b) as (-> & _); [unfold is_byte; lia|].
    rewrite Z.mod_small by lia. by apply int_result_plain.
  - rewrite str6_len by done. runr. do 4 f_equal; lia.
  - rewrite rd_snd by done. runr. rewrite int13_word by done.
    unfold is_byte in *. int_word 13. done.
  - rewrite str12_len by done. runr. do 4 f_equal; lia.
  - rewrite <- app_assoc, str32_len by done. runr. do 4 f_equal; lia.
  - pose proof (le_val_range t H1) as Hr. unfold int_width in H0.
    revert H0. repeat case_bool; intros Ht; [ | | | | lia]; rewrite int_bytes_ok by done; rewrite Ht in Hr |- *;
      runr; [int_word 16 | int_word 24 | int_word 32 | int_word 64 ]; done.
Qed.

Lemma get_ok a e c off : valid_enc e -> off = zlen a ->
  lpGetWithBuf (a ++ e ++ c) off None = Ok (fst (reported off e), snd (reported off e), None).
Proof.
  intros Hv Hoff. rewrite get_buf_ok by done. unfold reported. by destruct (decode e).
Qed.

Lemma get_size_ok a e c off es : valid_enc e -> off = zlen a ->
  lpGetWithSize (a ++ e ++ c) off None es =
    Ok (fst (reported off e), snd (reported off e), None,
        zlen e + lpEncodeBacklenBytes (zlen e)).
Proof.
  intros Hv ->. pose proof (valid_shape e Hv) as Hs. unfold reported.
  remember (decode e) as x eqn:Hx. clear Hx. unfold lpGetWithSize.
  destruct Hs; classify b; rewrite <- ?app_assoc, <- ?app_comm_cons, rd1_mid by done; runr;
    zlens; shape_tests b; cbn [fst snd].
  - destruct (low_masks b) as (-> & _); [unfold is_byte; lia|].
    rewrite Z.mod_small, int_result_plain by lia. done.
  - rewrite str6_len by done. runr. rewrite <- H0, (Z.add_comm (zlen s) 1), Z.add_simpl_r. done.
  - rewrite rd_snd by done. runr. rewrite int13_word by done.
    unfold is_byte in *. int_word 13. done.
  - rewrite str12_len by done. runr.
    rewrite <- H1, (Z.add_comm (zlen s) 2), (Z.add_assoc 1 1), Z.add_simpl_r. done.
  - rewrite <- app_assoc, str32_len by done. runr.
    rewrite H0, <- H2, (Z.add_comm (zlen s) 5), (Z.add_assoc 1 4), Z.add_simpl_r. done.
  - pose proof (le_val_range t H1) as Hr. unfold int_width in H0.
    revert H0. repeat case_bool; intros Ht; [ | | | | lia]; rewrite int_bytes_ok by done; rewrite Ht in Hr |- *;
      runr; [int_word 16 | int_word 24 | int_word 32 | int_word 64 ]; done.
Qed.

(** ** Back lengths *)

Lemma rd1_in {A} (a l c : list A) off k x :
  l !! k = Some x -> off = zlen a + Z.of_nat k -> rd1 (a ++ l ++ c) off = Ok x.
Proof.
  intros Hx ->. pose proof (lookup_lt_Some _ _ _ Hx). pose proof (zlen_nonneg a).
  apply rd1_lookup; [lia|]. unfold zlen.
  replace (Z.to_nat (Z.of_nat (length a) + Z.of_nat k)) with (length a + k)%nat by lia.
  rewrite lookup_app_r by lia. replace (length a + k - length a)%nat with k by lia.
  by rewrite lookup_app_l.
Qed.

Lemma backlen_len l : zlen (backlen l) = lpEncodeBacklenBytes l.
Proof. unfold backlen, lpEncodeBacklen, lpEncodeBacklenBytes. repeat case_bool; done. Qed.

Lemma encode_backlen l : lpEncodeBacklen l = (backlen l, lpEncodeBacklenBytes l).
Proof. unfold backlen, lpEncodeBacklen, lpEncodeBacklenBytes. repeat case_bool; done. Qed.

Lemma backlen_bytes_range l : 1 <= lpEncodeBacklenBytes l <= 5.
Proof. unfold lpEncodeBacklenBytes. repeat case_bool; lia. Qed.

(** The groups of seven bits of a back length, most significant first. *)
Fixpoint groups (n : nat) (l : Z) : list Z :=
  match n with
  | O => []
  | S n => groups n (l / 128) ++ [l mod 128 + 128]
  end.

Lemma shr7 l k : 0 <= k -> Z.lor (Z.land (Z.shiftr l k) 127) 128 = (l / 2 ^ k) mod 128 + 128.
Proof.
  intros Hk. change 127 with (Z.ones 7). rewrite Z.land_ones, Z.shiftr_div_pow2 by lia.
  apply cont_bit, Z.mod_pos_bound. lia.
Qed.

Lemma backlen_groups l : 0 <= l < 2 ^ 35 ->
  exists n : nat, lpEncodeBacklenBytes l = Z.of_nat (S n) /\ (n <= 4)%nat /\
    backlen l = l / 2 ^ (7 * Z.of_nat n) :: groups n l /\ l / 2 ^ (7 * Z.of_nat n) < 128.
Proof.
  intros Hl. assert (forall l, Z.land l 127 = Z.land (Z.shiftr l 0) 127) as H0.
  { intros. by rewrite Z.shiftr_0_r. }
  assert (forall k x, 0 <= x < 128 -> 0 <= k -> x = l / 2 ^ k -> u8 (Z.shiftr l k) = x) as H8.
  { intros k x Hx Hk ->. rewrite Z.shiftr_div_pow2 by lia. apply wrapU_small. change (2 ^ 8) with 256. lia. }
  unfold backlen, lpEncodeBacklen, lpEncodeBacklenBytes.
  destruct (Z.leb_spec l 127); [exists 0%nat|
    destruct (Z.ltb_spec l 16383); [exists 1%nat|
      destruct (Z.ltb_spec l 2097151); [exists 2%nat|
        destruct (Z.ltb_spec l 268435455); [exists 3%nat | exists 4%nat]]]];
    cbn [fst groups app]; rewrite ?(H0 l), ?shr7, ?Z.div_div by lia;
    repeat match goal with |- context [2 ^ ?k] => let v := eval vm_compute in (2 ^ k) in
      progress change (2 ^ k) with v end;
    change (128 * 128) with 16384; change (16384 * 128) with 2097152;
    change (2097152 * 128) with 268435456; rewrite ?Z.div_1_r;
    (split; [done|]); (split; [lia|]);
    (split; [|first [lia | apply Z.div_lt_upper_bound; lia]]).
  - by rewrite wrapU_small by (change (2 ^ 8) with 256; lia).
  - f_equal. apply H8; [split; [apply Z.div_pos | apply Z.div_lt_upper_bound]; lia | lia | done].
  - f_equal. apply H8; [split; [apply Z.div_pos | apply Z.div_lt_upper_bound]; lia | lia | done].
  - f_equal. apply H8; [split; [apply Z.div_pos | apply Z.div_lt_upper_bound]; lia | lia | done].
  - f_equal. apply H8; [split; [apply Z.div_pos | apply Z.div_lt_upper_bound]; lia | lia | done].
Qed.

(** One step of lpDecodeBacklen: a group with the continuation bit, or the last. *)
Ltac backlen_step k :=
  erewrite (rd1_in _ _ _ _ k); [|reflexivity|lia]; runr;
  match goal with
  | |- context [Z.land (?d + 128) 128] =>
      let H := fresh in
      assert (0 <= d < 128) as H by (try apply Z.mod_pos_bound; lia);
      destruct (cont_bit d H) as (_ & _ & -> & _ & ->); clear H
  | |- context [Z.land ?d 128] =>
      let H := fresh in
      assert (0 <= d < 128) as H by (split; [apply Z.div_pos; lia | lia]);
      destruct (cont_bit d H) as (_ & -> & _ & -> & _); clear H
  end; cbn [Z.eqb].

(** Put the groups of a number together again. *)
Ltac sum_groups l :=
  change 16384 with (128 * 128); change 2097152 with (128 * 128 * 128);
  change 268435456 with (128 * 128 * 128 * 128);
  rewrite <- ?Z.div_div by lia;
  pose proof (Z.div_mod l 128 ltac:(lia)); pose proof (Z.div_mod (l / 128) 128 ltac:(lia));
  pose proof (Z.div_mod (l / 128 / 128) 128 ltac:(lia));
  pose proof (Z.div_mod (l / 128 / 128 / 128) 128 ltac:(lia)); lia.

Lemma decode_groups n a c l : (n <= 4)%nat -> 0 <= l -> l / 2 ^ (7 * Z.of_nat n) < 128 ->
  lpDecodeBacklen (a ++ (l / 2 ^ (7 * Z.of_nat n) :: groups n l) ++ c) (zlen a + Z.of_nat n) = Ok l.
Proof.
  intros Hn Hl Hh. unfold lpDecodeBacklen.
  pose proof (Z.mod_pos_bound l 128 ltac:(lia)).
  pose proof (Z.mod_pos_bound (l / 128) 128 ltac:(lia)).
  pose proof (Z.mod_pos_bound (l / 128 / 128) 128 ltac:(lia)).
  pose proof (Z.mod_pos_bound (l / 128 / 128 / 128) 128 ltac:(lia)).
  destruct n as [|[|[|[|[|n]]]]]; [.. | lia]; cbn [groups].
  - backlen_step 0%nat. by rewrite Z.div_1_r.
  - backlen_step 1%nat. backlen_step 0%nat.
    rewrite ?(lor_disjoint _ _ 7), ?(lor_disjoint _ _ 14), ?(lor_disjoint _ _ 21), ?(lor_disjoint _ _ 28) by lia. f_equal. change (2 ^ 7) with 128.
    change (2 ^ (7 * Z.of_nat 1)) with 128. sum_groups l.
  - backlen_step 2%nat. backlen_step 1%nat. backlen_step 0%nat.
    rewrite ?(lor_disjoint _ _ 7), ?(lor_disjoint _ _ 14), ?(lor_disjoint _ _ 21), ?(lor_disjoint _ _ 28) by lia. f_equal. change (2 ^ 7) with 128. change (2 ^ 14) with 16384.
    change (2 ^ (7 * Z.of_nat 2)) with 16384. sum_groups l.
  - backlen_step 3%nat. backlen_step 2%nat. backlen_step 1%nat. backlen_step 0%nat.
    rewrite ?(lor_disjoint _ _ 7), ?(lor_disjoint _ _ 14), ?(lor_disjoint _ _ 21), ?(lor_disjoint _ _ 28) by lia. f_equal. change (2 ^ 7) with 128. change (2 ^ 14) with 16384.
    change (2 ^ 21) with 2097152. change (2 ^ (7 * Z.of_nat 3)) with 2097152. sum_groups l.
  - backlen_step 4%nat. backlen_step 3%nat. backlen_step 2%nat. backlen_step 1%nat.
    backlen_step 0%nat.
    rewrite ?(lor_disjoint _ _ 7), ?(lor_disjoint _ _ 14), ?(lor_disjoint _ _ 21), ?(lor_disjoint _ _ 28) by lia. f_equal. change (2 ^ 7) with 128. change (2 ^ 14) with 16384.
    change (2 ^ 21) with 2097152. change (2 ^ 28) with 268435456.
    change (2 ^ (7 * Z.of_nat 4)) with 268435456. sum_groups l.
Qed.

Lemma decode_backlen_ok a c l off : 0 <= l < 2 ^ 35 -> off = zlen a + zlen (backlen l) - 1 ->
  lpDecodeBacklen (a ++ backlen l ++ c) off = Ok l.
Proof.
  intros Hl ->. rewrite backlen_len.
  destruct (backlen_groups l Hl) as (n & Hn & Hn4 & -> & Hh).
  rewrite Hn. replace (zlen a + Z.of_nat (S n) - 1) with (zlen a + Z.of_nat n) by lia.
  apply decode_groups; [done | lia | done].
Qed.

(** * Walking a block of valid entries *)

(** The entry at [o] is valid in a listpack of [bytes] bytes and ends at [o']. *)
Definition link (lp : list Z) (bytes o o' : Z) : Prop :=
  exists size, LP_HDR_SIZE <= o /\ 0 <= size < 2 ^ 32 /\
    o' = o + (size + lpEncodeBacklenBytes size) /\ o' <= bytes - 1 /\
    (exists b, rd1 lp o = Ok b /\ b <> LP_EOF) /\
    lpCurrentEncodedSizeUnsafe lp o = Ok size /\
    lpDecodeBacklen lp (o' - 1) = Ok size /\
    lpValidateNext lp (Some o) bytes = Ok (true, Some o').

(** Entries follow one another from [o] to the end marker; [os] are the ends. *)
Fixpoint chain (lp : list Z) (bytes o : Z) (os : list Z) : Prop :=
  match os with
  | [] => o = bytes - 1 /\ rd1 lp o = Ok LP_EOF
  | o' :: os => link lp bytes o o' /\ chain lp bytes o' os
  end.

(** Element [k] of a chain, null outside. *)
Definition elem_at (o : Z) (os : list Z) (k : Z) : option Z :=
  if (0 <=? k) && (k <? zlen os) then (o :: os) !! Z.to_nat k else None.

Section walk.
Context (lp : list Z) (bytes : Z).
Context (Hbytes : lpGetTotalBytes lp = Ok bytes).

Lemma link_valid o o' : link lp bytes o o' -> lpAssertValidEntry lp bytes o = Ok tt.
Proof. intros (size & H). unfold lpAssertValidEntry. destruct H as (_&_&_&_&_&_&_&->). done. Qed.

Lemma link_skip o o' : link lp bytes o o' -> lpSkip lp o = Ok o'.
Proof. intros (size & H). unfold lpSkip. destruct H as (_&_&->&_&_&->&_). done. Qed.

Lemma link_not_eof o o' : link lp bytes o o' -> exists b, rd1 lp o = Ok b /\ b <> LP_EOF.
Proof. intros (size & H). tauto. Qed.

Lemma link_lt o o' : link lp bytes o o' -> LP_HDR_SIZE <= o < o' /\ o' <= bytes - 1.
Proof. intros (size & H). pose proof (backlen_bytes_range size). lia. Qed.

Lemma link_prev o o' : link lp bytes o o' -> lpPrev lp o' = Ok (Some o).
Proof.
  intros Hl. pose proof (link_lt _ _ Hl). pose proof (link_valid _ _ Hl) as Hv.
  destruct Hl as (size & Ho & Hs & Ho' & _ & _ & _ & Hd & _).
  pose proof (backlen_bytes_range size).
  unfold lpPrev, lpBytes. dec_bool. rewrite Hd, Hbytes. runr.
  change (2 ^ 32) with 4294967296 in Hs.
  rewrite (wrapU_small 64 (size + _)) by (change (2 ^ 64) with 18446744073709551616; lia).
  rewrite wrapU_small by (change (2 ^ 64) with 18446744073709551616; lia).
  replace (o' - 1 - (size + lpEncodeBacklenBytes size - 1)) with o by lia.
  by rewrite Hv.
Qed.

(** The first entry of a chain, or the end marker. *)
Lemma chain_head o os : chain lp bytes o os ->
  (let* b := rd1 lp o in
   if b =? LP_EOF then Ok None else
   let* bytes := lpBytes lp in
   let* _ := lpAssertValidEntry lp bytes o in Ok (Some o)) = Ok (elem_at o os 0).
Proof.
  unfold elem_at, lpBytes. destruct os as [|o' os]; cbn [chain].
  - intros [_ ->]. done.
  - intros [Hl _]. destruct (link_not_eof _ _ Hl) as (b & -> & Hb). runr.
    dec_bool. rewrite Hbytes. runr. rewrite (link_valid _ _ Hl). runr.
    rewrite zlen_cons. pose proof (zlen_nonneg os). dec_bool. done.
Qed.

Lemma chain_bound o os : chain lp bytes o os -> o + zlen os <= bytes - 1.
Proof.
  revert o. induction os as [|o' os IH]; intros o; cbn [chain].
  - intros [-> _]. change (zlen (@nil Z)) with 0. lia.
  - intros [Hl Hc]. apply IH in Hc. apply link_lt in Hl. rewrite zlen_cons. lia.
Qed.

Lemma elem_at_cons o o' os k : 1 <= k -> elem_at o (o' :: os) k = elem_at o' os (k - 1).
Proof.
  intros Hk. unfold elem_at. rewrite zlen_cons.
  destruct (Z.lt_ge_cases (k - 1) (zlen os)); dec_bool; [|done].
  replace (Z.to_nat k) with (S (Z.to_nat (k - 1))) by lia. done.
Qed.

Lemma elem_at_out o os k : ~ (0 <= k < zlen os) -> elem_at o os k = None.
Proof.
  intros H. unfold elem_at.
  destruct (Z.leb_spec 0 k), (Z.ltb_spec k (zlen os)); try done; lia.
Qed.

(** Every element has a link, and what follows it is again a chain. *)
Lemma elem_chain os : forall o k p, chain lp bytes o os -> elem_at o os k = Some p ->
  exists p' os', link lp bytes p p' /\ chain lp bytes p' os' /\
    zlen os' = zlen os - k - 1 /\ (forall j, 1 <= j -> elem_at p (p' :: os') j = elem_at o os (k + j)).
Proof.
  induction os as [|o' os IH]; intros o k p Hc Hk.
  { unfold elem_at in Hk. change (zlen (@nil Z)) with 0 in Hk.
    destruct (Z.leb_spec 0 k), (Z.ltb_spec k 0); try discriminate; lia. }
  destruct (Z.lt_ge_cases k 1) as [H1|H1].
  - destruct (Z.lt_ge_cases k 0) as [Hn|Hn]; [by rewrite elem_at_out in Hk by lia|].
    assert (k = 0) as -> by lia. unfold elem_at in Hk.
    destruct ((0 <=? 0) && (0 <? zlen (o' :: os))); [|done]. injection Hk as <-.
    destruct Hc as [Hl Hc]. exists o', os. rewrite zlen_cons.
    split_and!; [done | done | lia | done].
  - rewrite elem_at_cons in Hk by lia. destruct Hc as [Hl Hc].
    destruct (IH o' (k - 1) p Hc Hk) as (p' & os' & ? & ? & ? & Hj).
    exists p', os'. rewrite zlen_cons. split_and!; [done | done | lia |].
    intros j Hj1. rewrite Hj, (elem_at_cons o) by lia. f_equal. lia.
Qed.

Lemma elem_in_range o os k p : elem_at o os k = Some p -> 0 <= k < zlen os.
Proof. unfold elem_at. destruct (Z.leb_spec 0 k), (Z.ltb_spec k (zlen os)); done. Qed.

Lemma elem_is_some o os k : 0 <= k < zlen os -> exists p, elem_at o os k = Some p.
Proof.
  intros Hk. unfold elem_at. dec_bool. apply lookup_lt_is_Some_2.
  unfold zlen in Hk. simpl. lia.
Qed.

Lemma first_ok os : chain lp bytes LP_HDR_SIZE os ->
  lpFirst lp = Ok (elem_at LP_HDR_SIZE os 0).
Proof. apply chain_head. Qed.

Lemma lp_next_ok o os k p : chain lp bytes o os -> elem_at o os k = Some p ->
  lpNext lp p = Ok (elem_at o os (k + 1)).
Proof.
  intros Hc Hk. destruct (elem_chain _ _ _ _ Hc Hk) as (p' & os' & Hl & Hc' & Hz & Hj).
  unfold lpNext. rewrite (link_skip _ _ Hl). runr.
  rewrite <- Hj, elem_at_cons by lia. by apply chain_head.
Qed.

(** Going back from the [k]-th boundary (an element, or the end marker). *)
Lemma prev_ok os : forall o k p, chain lp bytes o os ->
  0 < k <= zlen os -> (o :: os) !! Z.to_nat k = Some p -> lpPrev lp p = Ok (elem_at o os (k - 1)).
Proof.
  induction os as [|o' os IH]; intros o k p Hc Hk Hp; [change (zlen (@nil Z)) with 0 in Hk; lia|].
  rewrite zlen_cons in Hk. destruct Hc as [Hl Hc].
  replace (Z.to_nat k) with (S (Z.to_nat (k - 1))) in Hp by lia. cbn in Hp.
  destruct (Z.eq_dec k 1) as [->|].
  - injection Hp as <-. rewrite (link_prev _ _ Hl). unfold elem_at. rewrite zlen_cons.
    pose proof (zlen_nonneg os). dec_bool. done.
  - rewrite elem_at_cons by lia. by apply (IH o' (k - 1)); [|lia|].
Qed.

Lemma prev_first : lpPrev lp LP_HDR_SIZE = Ok None.
Proof. done. Qed.

Lemma chain_last os : forall o, chain lp bytes o os -> (o :: os) !! Z.to_nat (zlen os) = Some (bytes - 1).
Proof.
  induction os as [|o' os IH]; intros o; cbn [chain]; [by intros [-> _]|].
  intros [_ Hc]. unfold zlen in *. rewrite Nat2Z.id in *. exact (IH _ Hc).
Qed.

Lemma prev_elem os k p : chain lp bytes LP_HDR_SIZE os -> 0 <= k <= zlen os ->
  (LP_HDR_SIZE :: os) !! Z.to_nat k = Some p -> lpPrev lp p = Ok (elem_at LP_HDR_SIZE os (k - 1)).
Proof.
  intros Hc Hk Hp. destruct (Z.eq_dec k 0) as [->|].
  - injection Hp as <-. rewrite prev_first, elem_at_out by lia. done.
  - apply prev_ok; [done | lia | done].
Qed.

Lemma last_ok os : chain lp bytes LP_HDR_SIZE os ->
  lpLast lp = Ok (elem_at LP_HDR_SIZE os (zlen os - 1)).
Proof.
  intros Hc. unfold lpLast. rewrite Hbytes. runr.
  apply prev_elem; [done | pose proof (zlen_nonneg os); lia | by apply chain_last].
Qed.

Lemma count_loop_ok os : chain lp bytes LP_HDR_SIZE os ->
  forall fuel k c, 0 <= k <= zlen os -> zlen os - k < Z.of_nat fuel ->
    0 <= c -> c + (zlen os - k) < 2 ^ 32 ->
    count_loop fuel lp (elem_at LP_HDR_SIZE os k) c = Ok (c + (zlen os - k)).
Proof.
  intros Hc fuel. induction fuel as [|fuel IH]; intros k c Hk Hf Hc0 Hmax; [lia|].
  destruct (Z.eq_dec k (zlen os)) as [->|].
  { rewrite elem_at_out by lia. cbn. f_equal. lia. }
  destruct (elem_is_some LP_HDR_SIZE os k) as [p Hp]; [lia|]. rewrite Hp. cbn [count_loop].
  rewrite (lp_next_ok _ _ _ _ Hc Hp). runr. rewrite wrapU_small by lia.
  rewrite IH by lia. f_equal. lia.
Qed.

Lemma seek_forward_ok os : chain lp bytes LP_HDR_SIZE os ->
  forall fuel k j, 0 <= k -> 0 <= j -> zlen os - k < Z.of_nat fuel ->
    seek_forward fuel lp j (elem_at LP_HDR_SIZE os k) = Ok (elem_at LP_HDR_SIZE os (k + j)).
Proof.
  intros Hc fuel. induction fuel as [|fuel IH]; intros k j Hk Hj Hf.
  { rewrite !elem_at_out by lia. done. }
  destruct (elem_at LP_HDR_SIZE os k) as [p|] eqn:Hp; cbn [seek_forward].
  - rewrite Z.gtb_ltb. destruct (Z.ltb_spec 0 j).
    + rewrite (lp_next_ok _ _ _ _ Hc Hp). runr. rewrite IH by lia. do 2 f_equal. lia.
    + rewrite <- Hp. do 2 f_equal. lia.
  - rewrite elem_at_out; [done|]. intros Hr. destruct (elem_is_some LP_HDR_SIZE os k); [lia | congruence].
Qed.

Lemma seek_backward_ok os : chain lp bytes LP_HDR_SIZE os ->
  forall fuel k j, k < zlen os -> 1 <= j -> k < Z.of_nat fuel ->
    seek_backward fuel lp (- j) (elem_at LP_HDR_SIZE os k) = Ok (elem_at LP_HDR_SIZE os (k + 1 - j)).
Proof.
  intros Hc fuel. induction fuel as [|fuel IH]; intros k j Hk Hj Hf.
  { rewrite !elem_at_out by lia. done. }
  destruct (elem_at LP_HDR_SIZE os k) as [p|] eqn:Hp; cbn [seek_backward].
  - destruct (Z.ltb_spec (- j) (-1)).
    + pose proof (elem_in_range _ _ _ _ Hp). rewrite (prev_elem os k p Hc); [|lia|].
      * runr. replace (- j + 1) with (- (j - 1)) by lia. rewrite IH by lia. do 2 f_equal. lia.
      * unfold elem_at in Hp. destruct ((0 <=? k) && (k <? zlen os)); done.
    + rewrite <- Hp. do 2 f_equal. lia.
  - rewrite elem_at_out; [done|]. intros Hr. destruct (elem_is_some LP_HDR_SIZE os k); [lia | congruence].
Qed.

(** Where a possibly negative index points. *)
Definition norm_index (n index : Z) : Z := if index <? 0 then n + index else index.

Lemma seek_ok os num index :
  chain lp bytes LP_HDR_SIZE os -> bytes <= zlen lp ->
  lpGetNumElements lp = Ok num ->
  num = LP_HDR_NUMELE_UNKNOWN \/ num = zlen os ->
  LLONG_MIN <= index <= LLONG_MAX -> zlen os < 2 ^ 32 ->
  lpSeek lp index = Ok (elem_at LP_HDR_SIZE os (norm_index (zlen os) index)).
Proof.
  intros Hc Hb Hnum Hn Hi Hmax. pose proof (chain_bound _ _ Hc) as Hbd. pose proof (zlen_nonneg os).
  assert (forall j, 0 <= j ->
    (let* ele := lpFirst lp in seek_forward (length lp) lp j ele) = Ok (elem_at LP_HDR_SIZE os j)) as Hfw.
  { intros j Hj. rewrite (first_ok _ Hc). runr. rewrite seek_forward_ok; [done | done | lia | done |].
    unfold zlen in *. lia. }
  assert (forall j, j < 0 ->
    (let* ele := lpLast lp in seek_backward (length lp) lp j ele) =
      Ok (elem_at LP_HDR_SIZE os (zlen os + j))) as Hbw.
  { intros j Hj. rewrite (last_ok _ Hc). runr. replace j with (- (- j)) at 1 by lia.
    rewrite seek_backward_ok; [|done|lia|lia|unfold zlen in *; lia]. do 2 f_equal. lia. }
  unfold lpSeek, norm_index. rewrite Hnum. runr.
  destruct (Z.eqb_spec num LP_HDR_NUMELE_UNKNOWN) as [->|Hne]; cbn [negb].
  - destruct (Z.ltb_spec index 0); cbn [negb]; [by apply Hbw | by apply Hfw].
  - destruct Hn as [? | ->]; [done|].
    assert ((if index <? 0 then chk_i64 (zlen os + index) else Ok index) =
            Ok (if index <? 0 then zlen os + index else index)) as ->.
    { case_bool; [|done]. apply chk_i64_ok. lia. }
    runr. generalize (if index <? 0 then zlen os + index else index). intros k.
    rewrite Z.geb_leb, Z.gtb_ltb.
    destruct (Z.ltb_spec k 0); [by rewrite elem_at_out by lia|].
    destruct (Z.leb_spec (zlen os) k); [by rewrite elem_at_out by lia|].
    destruct (Z.ltb_spec (zlen os / 2) k); [rewrite Hbw by lia; do 2 f_equal; lia | by apply Hfw].
Qed.
End walk.

(** * Blocks that hold a list of entries *)

Lemma rdn_head {A} (b c : list A) n : n = zlen b -> rdn (b ++ c) 0 n = Ok b.
Proof. intros ->. by apply (rdn_mid [] b c). Qed.

Lemma wrn_head {A} (b b' c : list A) : zlen b' = zlen b -> wrn (b ++ c) 0 b' = Ok (b' ++ c).
Proof. intros H. by apply (wrn_mid [] b b' c). Qed.

Lemma entry_len e : zlen (entry e) = zlen e + lpEncodeBacklenBytes (zlen e).
Proof. unfold entry. by rewrite zlen_app, backlen_len. Qed.

Lemma body_app a b : body (a ++ b) = body a ++ body b.
Proof. unfold body. by rewrite map_app, concat_app. Qed.

Lemma body_cons e es : body (e :: es) = entry e ++ body es.
Proof. done. Qed.

Lemma body_middle es i e : es !! i = Some e ->
  body es = body (take i es) ++ entry e ++ body (drop (S i) es).
Proof. intros He. rewrite <- (take_drop_middle _ _ _ He) at 1. by rewrite body_app, body_cons. Qed.

Lemma offset_0 es : offset es 0 = LP_HDR_SIZE.
Proof. done. Qed.

Lemma offset_end es : offset es (length es) = total es - 1.
Proof. unfold offset, total. rewrite firstn_all. lia. Qed.

Lemma offset_S es i e : es !! i = Some e -> offset es (S i) = offset es i + zlen (entry e).
Proof.
  intros He. unfold offset. rewrite (take_S_r _ _ _ He), body_app, zlen_app.
  change (body [e]) with (entry e ++ []). rewrite app_nil_r. lia.
Qed.

(** An entry that sits between [a] and [c] is a link. *)
Lemma entry_link a e c bytes : valid_enc e -> LP_HDR_SIZE <= zlen a ->
  zlen a + zlen (entry e) <= bytes - 1 ->
  link (a ++ entry e ++ c) bytes (zlen a) (zlen a + zlen (entry e)).
Proof.
  intros Hv Ha Hb. destruct (size_bytes_ok e Hv) as (b & t & He & Hb245 & Hsz).
  assert (0 < zlen e < 2 ^ 32) as Hz by apply Hv.
  pose proof (backlen_bytes_range (zlen e)). pose proof (entry_len e) as Hel.
  assert (rd1 (a ++ entry e ++ c) (zlen a) = Ok b) as Hrd.
  { unfold entry. rewrite He. cbn [app]. by apply rd1_mid. }
  assert (lpCurrentEncodedSizeUnsafe (a ++ entry e ++ c) (zlen a) = Ok (zlen e)) as Hsu.
  { unfold entry. rewrite <- app_assoc. by apply size_unsafe_ok. }
  assert (lpDecodeBacklen (a ++ entry e ++ c) (zlen a + zlen (entry e) - 1) = Ok (zlen e)) as Hd.
  { unfold entry. rewrite <- app_assoc, app_assoc. change (2 ^ 32) with 4294967296 in Hz.
    apply decode_backlen_ok; [change (2 ^ 35) with 34359738368; lia|].
    rewrite !zlen_app. lia. }
  exists (zlen e). rewrite Hel in *. split_and!; try done; try lia.
  - exists b. split; [done | lia].
  - unfold lpValidateNext. dec_bool. rewrite Hrd. runr. dec_bool. rewrite Hsu. runr. dec_bool.
    rewrite Hd. runr. rewrite wrapU_small, Z.eqb_refl
      by (change (2 ^ 64) with 18446744073709551616; change (2 ^ 32) with 4294967296 in Hz; lia).
    done.
Qed.

(** The boundaries of the entries after [pre]. *)
Fixpoint ends (o : Z) (es : list (list Z)) : list Z :=
  match es with
  | [] => []
  | e :: es => let o' := o + zlen (entry e) in o' :: ends o' es
  end.

Lemma ends_len o es : zlen (ends o es) = zlen es.
Proof.
  revert o. induction es as [|e es IH]; intros o; [done|]. cbn [ends]. by rewrite !zlen_cons, IH.
Qed.

Lemma ends_lookup es : forall o i, (i <= length es)%nat ->
  (o :: ends o es) !! i = Some (o + zlen (body (take i es))).
Proof.
  induction es as [|e es IH]; intros o [|i] Hi; cbn in Hi; try lia.
  - cbn. f_equal. unfold zlen; cbn; lia.
  - cbn. f_equal. unfold zlen; cbn; lia.
  - cbn [ends]. cbv zeta.
    change ((o :: o + zlen (entry e) :: ends (o + zlen (entry e)) es) !! S i)
      with ((o + zlen (entry e) :: ends (o + zlen (entry e)) es) !! i).
    rewrite IH by lia. cbn [take]. rewrite body_cons, zlen_app. f_equal. lia.
Qed.

Lemma entries_chain es : forall a c bytes, Forall valid_enc es -> LP_HDR_SIZE <= zlen a ->
  bytes = zlen a + zlen (body es) + 1 ->
  chain (a ++ body es ++ LP_EOF :: c) bytes (zlen a) (ends (zlen a) es).
Proof.
  induction es as [|e es IH]; intros a c bytes Hv Ha Hb.
  - cbn. change (zlen (body [])) with 0 in Hb. split; [lia|]. by apply rd1_mid.
  - rewrite body_cons, zlen_app in Hb. apply Forall_cons_1 in Hv as [He Hv].
    pose proof (zlen_nonneg (body es)). pose proof (zlen_nonneg (entry e)).
    cbn [ends chain]. rewrite body_cons, <- app_assoc. split.
    + apply entry_link; [done | done | lia].
    + replace (zlen a + zlen (entry e)) with (zlen (a ++ entry e)) by apply zlen_app.
      rewrite app_assoc. apply IH; [done | rewrite zlen_app; lia | rewrite zlen_app; lia].
Qed.

Section repr.
Context (lp : list Z) (es : list (list Z)) (Hr : lp_repr lp es).

Lemma total_range : 7 <= total es < 2 ^ 32.
Proof. unfold total. pose proof (zlen_nonneg (body es)). pose proof (r_fits _ _ Hr). unfold total in *. lia. Qed.

Lemma repr_total : lpGetTotalBytes lp = Ok (total es).
Proof.
  pose proof total_range as Ht.
  destruct (r_layout _ _ Hr) as (num & slack & -> & _). unfold lpGetTotalBytes.
  rewrite rdn_head by (by rewrite zlen_le_bytes). runr.
  rewrite or_bytes_val, le_val_bytes by apply le_bytes_byte.
  change (8 * Z.of_nat 4) with 32. rewrite Z.mod_small by lia. done.
Qed.

Lemma numele_range num : numele_ok num es -> 0 <= num < 2 ^ 16.
Proof. pose proof (zlen_nonneg es). unfold numele_ok. change (2 ^ 16) with 65536. lia. Qed.

Lemma repr_num : exists num, lpGetNumElements lp = Ok num /\ numele_ok num es.
Proof.
  destruct (r_layout _ _ Hr) as (num & slack & -> & Hn). exists num. split; [|done].
  unfold lpGetNumElements. rewrite rdn_mid by (rewrite ?zlen_le_bytes; done). runr.
  rewrite or_bytes_val, le_val_bytes by apply le_bytes_byte.
  change (8 * Z.of_nat 2) with 16. pose proof (numele_range _ Hn). rewrite Z.mod_small by lia. done.
Qed.

Lemma repr_bytes : total es <= zlen lp.
Proof.
  destruct (r_layout _ _ Hr) as (num & slack & -> & _). autorewrite with bytes. unfold total.
  pose proof (zlen_nonneg slack). lia.
Qed.

Lemma repr_chain : chain lp (total es) LP_HDR_SIZE (ends LP_HDR_SIZE es).
Proof.
  destruct (r_layout _ _ Hr) as (num & slack & -> & _). rewrite app_assoc.
  set (h := le_bytes 4 (total es) ++ le_bytes 2 num).
  assert (zlen h = LP_HDR_SIZE) as Hh by (unfold h; autorewrite with bytes; done). rewrite <- Hh.
  apply entries_chain; [apply Hr | lia | unfold total; lia].
Qed.

Lemma repr_elem k : elem_at LP_HDR_SIZE (ends LP_HDR_SIZE es) k =
  if (0 <=? k) && (k <? zlen es) then Some (offset es (Z.to_nat k)) else None.
Proof.
  unfold elem_at. rewrite ends_len. destruct (Z.leb_spec 0 k), (Z.ltb_spec k (zlen es)); try done.
  cbn [andb]. rewrite ends_lookup; [done|]. unfold zlen in *. lia.
Qed.

Lemma repr_count : zlen es <= total es.
Proof.
  pose proof (chain_bound _ _ _ _ repr_chain) as Hb. rewrite ends_len in Hb. lia.
Qed.

Lemma repr_split i e : es !! i = Some e ->
  exists a c, lp = a ++ e ++ c /\ zlen a = offset es i /\ valid_enc e.
Proof.
  intros He. destruct (r_layout _ _ Hr) as (num & slack & -> & _).
  exists (le_bytes 4 (total es) ++ le_bytes 2 num ++ body (take i es)).
  exists (backlen (zlen e) ++ body (drop (S i) es) ++ LP_EOF :: slack).
  split_and!.
  - rewrite (body_middle es i e He). unfold entry. by rewrite <- !app_assoc.
  - autorewrite with bytes. unfold offset. lia.
  - pose proof (r_valid _ _ Hr) as Hv. rewrite Forall_lookup in Hv. eauto.
Qed.

(** lpSeek finds the element a (possibly negative) index denotes. *)
Lemma repr_seek index : LLONG_MIN <= index <= LLONG_MAX ->
  let k := norm_index (zlen es) index in
  lpSeek lp index = Ok (if (0 <=? k) && (k <? zlen es) then Some (offset es (Z.to_nat k)) else None).
Proof.
  intros Hi k. destruct repr_num as (num & Hnum & Hn).
  rewrite (seek_ok lp (total es) repr_total (ends LP_HDR_SIZE es) num);
    rewrite ?ends_len.
  - by rewrite repr_elem.
  - apply repr_chain.
  - apply repr_bytes.
  - done.
  - unfold numele_ok in Hn. tauto.
  - done.
  - pose proof repr_count. pose proof total_range. lia.
Qed.
End repr.

(** lpLength counts the entries, and only ever fills in the header's count. *)
Lemma repr_length lp es : lp_repr lp es ->
  exists lp', lpLength lp = Ok (lp', zlen es) /\ lp_repr lp' es /\ zlen lp' = zlen lp.
Proof.
  intros Hr. destruct (repr_num _ _ Hr) as (num & Hnum & Hn).
  unfold lpLength. rewrite Hnum. runr.
  destruct (Z.eqb_spec num LP_HDR_NUMELE_UNKNOWN) as [->|Hne]; cbn [negb].
  2: { exists lp. destruct Hn as [?|[-> _]]; done. }
  pose proof (repr_chain _ _ Hr) as Hc. pose proof (repr_count _ _ Hr). pose proof (total_range _ _ Hr).
  pose proof (repr_bytes _ _ Hr) as Hb. pose proof (chain_bound _ _ _ _ Hc) as Hcb.
  rewrite (first_ok _ _ (repr_total _ _ Hr) _ Hc). runr.
  rewrite ends_len in Hcb. pose proof (zlen_nonneg es).
  rewrite (count_loop_ok _ _ (repr_total _ _ Hr) _ Hc); rewrite ?ends_len; [|lia|unfold zlen in *; lia|lia|lia].
  runr. rewrite Z.sub_0_r, Z.add_0_l.
  destruct (Z.ltb_spec (zlen es) LP_HDR_NUMELE_UNKNOWN); [|by exists lp].
  destruct (r_layout _ _ Hr) as (num & slack & -> & _).
  unfold lpSetNumElements. rewrite and_bytes_le, (wrn_mid _ (le_bytes 2 num)) by (rewrite ?zlen_le_bytes; done).
  runr. eexists. split; [done|]. split; [|by autorewrite with bytes].
  split; [|apply Hr..]. exists (zlen es), slack. split; [done | by right].
Qed.

(** * Validation of untrusted bytes *)

Lemma rd1_byte lp p : Forall is_byte lp -> 0 <= p < zlen lp ->
  exists b, rd1 lp p = Ok b /\ is_byte b.
Proof.
  intros Hb Hp. destruct (rd1_ok lp p Hp) as (b & Hr & Hl). exists b. split; [done|].
  rewrite Forall_lookup in Hb. eauto.
Qed.

Lemma rdn_ok {A} (lp : list A) p n : 0 <= p -> 0 <= n -> p + n <= zlen lp ->
  exists bs, rdn lp p n = Ok bs /\ zlen bs = n /\ (forall P, Forall P lp -> Forall P bs).
Proof.
  intros Hp Hn Hl. unfold rdn. dec_bool. eexists. split; [done|]. split.
  - unfold zlen in *. rewrite length_take, length_drop. lia.
  - intros P HP. by apply Forall_take, Forall_drop.
Qed.

(** Once the length bytes are known to be inside, reading the size is safe. *)
Lemma size_unsafe_safe lp p b : Forall is_byte lp -> 0 <= p -> rd1 lp p = Ok b -> is_byte b ->
  0 < lpCurrentEncodedSizeBytes b -> p + lpCurrentEncodedSizeBytes b <= zlen lp ->
  exists s, lpCurrentEncodedSizeUnsafe lp p = Ok s /\ 0 <= s < 2 ^ 32.
Proof.
  intros Hlp Hp Hrd Hb. unfold lpCurrentEncodedSizeBytes, lpCurrentEncodedSizeUnsafe. rewrite Hrd. runr.
  pose proof (low_masks b Hb) as (_ & H63 & _ & H15).
  repeat (match goal with |- context [if ?c then _ else _] =>
    lazymatch c with context [if _ then _ else _] => fail | _ => destruct c eqn:? end end;
    [try (intros; eexists; split; [done | lia])|]); [| | | intros; lia].
  - intros _ _. unfold LP_ENCODING_6BIT_STR_LEN. rewrite Hrd. runr. eexists. split; [done|].
    rewrite H63. pose proof (Z.mod_pos_bound b 64 ltac:(lia)). lia.
  - intros _ Hin. unfold LP_ENCODING_12BIT_STR_LEN. rewrite Hrd. runr.
    destruct (rd1_byte lp (p + 1) Hlp) as (b1 & -> & Hb1); [lia|]. runr. eexists. split; [done|].
    unfold is_byte in Hb1.
    rewrite H15, Z.lor_comm, lor_disjoint by (change (2 ^ 8) with 256; lia).
    pose proof (Z.mod_pos_bound b 16 ltac:(lia)). change (2 ^ 8) with 256. lia.
  - intros _ Hin. unfold LP_ENCODING_32BIT_STR_LEN.
    destruct (rdn_ok lp (p + 1) 4) as (bs & -> & _); [lia..|]. runr. eexists. split; [done|].
    apply wrapU_range. lia.
Qed.

Lemma decode_backlen_safe lp q : 4 <= q < zlen lp ->
  exists v, lpDecodeBacklen lp q = Ok v /\ (0 <= v < 2 ^ 35 \/ v = UINT64_MAX).
Proof.
  intros Hq. unfold lpDecodeBacklen.
  destruct (rd1_ok lp q) as (b0 & -> & _); [lia|].
  destruct (rd1_ok lp (q - 1)) as (b1 & -> & _); [lia|].
  destruct (rd1_ok lp (q - 2)) as (b2 & -> & _); [lia|].
  destruct (rd1_ok lp (q - 3)) as (b3 & -> & _); [lia|].
  destruct (rd1_ok lp (q - 4)) as (b4 & -> & _); [lia|]. runr.
  assert (forall b, 0 <= Z.land b 127 < 128) as Hm.
  { intros b. change 127 with (Z.ones 7). rewrite Z.land_ones by lia. apply Z.mod_pos_bound. lia. }
  pose proof (Hm b0). pose proof (Hm b1). pose proof (Hm b2). pose proof (Hm b3). pose proof (Hm b4).
  rewrite !(lor_disjoint _ _ 7), !(lor_disjoint _ _ 14), !(lor_disjoint _ _ 21),
    !(lor_disjoint _ _ 28) by lia.
  repeat case_match; eexists; (split; [done|]); first [left; lia | by right].
Qed.

(** lpValidateNext never leaves the block, and what it accepts is a link. *)
Lemma validate_next_cases lp bytes p : Forall is_byte lp -> bytes <= zlen lp ->
  exists v r, lpValidateNext lp (Some p) bytes = Ok (v, r) /\
    (v = true -> match r with None => rd1 lp p = Ok LP_EOF | Some o' => link lp bytes p o' end).
Proof.
  intros Hlp Hb.
  enough (exists v r, lpValidateNext lp (Some p) bytes = Ok (v, r) /\
    (v = true -> match r with
     | None => rd1 lp p = Ok LP_EOF
     | Some o' => lpValidateNext lp (Some p) bytes = Ok (v, r) -> link lp bytes p o'
     end)) as (v & r & Hv & Hr).
  { exists v, r. split; [done|]. intros ->. destruct r; auto. }
  unfold lpValidateNext at 1. rewrite !Z.gtb_ltb.
  destruct (Z.ltb_spec p LP_HDR_SIZE); cbn [orb]; [by eexists _, _|].
  destruct (Z.ltb_spec (bytes - 1) p); [by eexists _, _|].
  destruct (rd1_byte lp p Hlp) as (b & Hrd & Hby); [lia|]. rewrite Hrd. runr. rewrite !Z.gtb_ltb.
  destruct (Z.eqb_spec b LP_EOF) as [->|Hne]; [by eexists _, _|].
  destruct (Z.eqb_spec (lpCurrentEncodedSizeBytes b) 0) as [|Hlb]; [by eexists _, _|].
  assert (0 < lpCurrentEncodedSizeBytes b) as Hpos.
  { revert Hlb. unfold lpCurrentEncodedSizeBytes. repeat case_match; lia. }
  destruct (Z.ltb_spec (p + lpCurrentEncodedSizeBytes b) LP_HDR_SIZE); cbn [orb]; [by eexists _, _|].
  destruct (Z.ltb_spec (bytes - 1) (p + lpCurrentEncodedSizeBytes b)); [by eexists _, _|].
  destruct (size_unsafe_safe lp p b) as (s & Hs & Hsr); [done | lia | done | done | done | lia |].
  rewrite Hs. runr. rewrite !Z.gtb_ltb. pose proof (backlen_bytes_range s).
  destruct (Z.ltb_spec (p + (s + lpEncodeBacklenBytes s)) LP_HDR_SIZE); cbn [orb]; [by eexists _, _|].
  destruct (Z.ltb_spec (bytes - 1) (p + (s + lpEncodeBacklenBytes s))); [by eexists _, _|].
  destruct (decode_backlen_safe lp (p + (s + lpEncodeBacklenBytes s) - 1)) as (v & Hd & Hv); [lia|].
  rewrite Hd. runr.
  destruct (Z.eqb_spec (u64 (v + lpEncodeBacklenBytes s)) (s + lpEncodeBacklenBytes s)) as [Hsum|];
    cbn [negb]; [|by eexists _, _].
  assert (v = s) as ->.
  { destruct Hv as [Hv | ->].
    - rewrite wrapU_small in Hsum by (change (2 ^ 64) with 18446744073709551616;
        change (2 ^ 35) with 34359738368 in Hv; lia). lia.
    - unfold wrapU in Hsum. change (2 ^ 64) with (UINT64_MAX + 1) in Hsum.
      replace (UINT64_MAX + lpEncodeBacklenBytes s)
        with ((lpEncodeBacklenBytes s - 1) + 1 * (UINT64_MAX + 1)) in Hsum by lia.
      rewrite Z.mod_add, Z.mod_small in Hsum by lia. lia. }
  eexists _, _. split; [done|]. intros _ Hval. exists s. split_and!; try done; try lia. eauto.
Qed.

Lemma link_functional lp bytes o o1 o2 : link lp bytes o o1 -> link lp bytes o o2 -> o1 = o2.
Proof.
  intros (s1 & H1) (s2 & H2). destruct H1 as (_&_&_&_&_&_&_&H1), H2 as (_&_&_&_&_&_&_&H2). congruence.
Qed.

(** The entry loop of lpValidateIntegrity without a callback: it stops inside
    the block, and accepts only a chain that ends on the marker it found. *)
Lemma validate_loop_sound lp bytes numele fuel : forall o c,
  Forall is_byte lp -> bytes <= zlen lp -> bytes - o <= Z.of_nat fuel ->
  LP_HDR_SIZE <= o <= bytes - 1 -> 0 <= c -> c + (bytes - o) < 2 ^ 32 ->
  exists r, validate_loop fuel lp bytes numele (@None (Z -> Z -> unit -> _)) (Some o) c tt = Ok (r, tt) /\
    (forall p c', r = Some (p, c') -> exists last os,
       p = Some last /\ c' = c + zlen os /\ rd1 lp last = Ok LP_EOF /\
       (last = bytes - 1 -> chain lp bytes o os)).
Proof.
  induction fuel as [|fuel IH]; intros o c Hlp Hb Hf Ho Hc Hmax; [lia|].
  cbn [validate_loop]. destruct (rd1_byte lp o Hlp) as (b & Hrd & Hby); [lia|]. rewrite Hrd. runr.
  destruct (Z.eqb_spec b LP_EOF) as [->|Hne].
  { eexists. split; [done|]. intros p c' [= <- <-]. exists o, []. cbn.
    split_and!; [done | change (zlen (@nil Z)) with 0; lia | done | intros ->; done]. }
  destruct (validate_next_cases lp bytes o Hlp Hb) as (v & r & -> & Hv). runr.
  destruct v; cbn [negb]; [|eexists; split; [done|]; discriminate].
  destruct r as [o'|]; [|rewrite Hrd in Hv; specialize (Hv eq_refl); congruence].
  specialize (Hv eq_refl). pose proof (link_lt _ _ _ _ Hv).
  rewrite wrapU_small by lia.
  destruct (IH o' (c + 1)) as (r & -> & Hr); [done | done | lia..|].
  exists r. split; [done|]. intros p c' Hpc. destruct (Hr p c' Hpc) as (last & os & -> & -> & He & Hcn).
  exists last, (o' :: os). rewrite zlen_cons. split_and!; [done | lia | done|].
  intros Hl. cbn [chain]. auto.
Qed.

(** ... and it accepts every chain. *)
Lemma validate_loop_complete lp bytes numele os : forall fuel o c,
  chain lp bytes o os -> zlen os <= Z.of_nat fuel -> 0 <= c -> c + zlen os < 2 ^ 32 ->
  validate_loop fuel lp bytes numele (@None (Z -> Z -> unit -> _)) (Some o) c tt =
    Ok (Some (Some (bytes - 1), c + zlen os), tt).
Proof.
  induction os as [|o' os IH]; intros fuel o c; cbn [chain].
  - intros [-> Hr] _ _ _. change (zlen (@nil Z)) with 0. rewrite Z.add_0_r.
    destruct fuel; cbn [validate_loop]; by rewrite Hr.
  - intros [Hl Hc] Hf Hc0 Hmax. rewrite zlen_cons in *. pose proof (zlen_nonneg os).
    destruct fuel as [|fuel]; [lia|]. cbn [validate_loop].
    destruct (link_not_eof _ _ _ _ Hl) as (b & -> & Hb). runr. dec_bool.
    destruct Hl as (s & _ & _ & _ & _ & _ & _ & _ & ->). runr. cbn [negb].
    rewrite wrapU_small, IH by (done || lia). do 4 f_equal. lia.
Qed.
