(* ===== verification/ListpackOps.v ===== *)
(** ListpackOps: the updating operations of Listpack.v against the list of
    entries a listpack holds.

    The encoders produce encodings that decode to the value stored; lpInsert,
    lpBatchInsert, lpDeleteRangeWithEntry, lpDeleteRange, lpBatchDelete and
    lpMerge rearrange the block in place with [memmove] before or after a
    reallocation, and the lemmas here show that what is left is the edited
    list of entries. *)

From Stdlib Require Import ZArith Lia Bool String.
From stdpp Require Import base list numbers decidable.
From S2P Require Import Prelude Bytes Numbers Listpack ListpackProofs.

Local Open Scope Z_scope.

(** * Encoding values *)

Lemma lpStringToInt64_eq s slen : lpStringToInt64 s slen = string2ll s slen.
Proof. unfold lpStringToInt64, string2ll. by rewrite (Z.eqb_sym 0 slen). Qed.

Lemma u8_and v k : 0 <= k -> u8 (Z.shiftr v k) = Z.land (Z.shiftr v k) 255.
Proof. intros Hk. by rewrite and_byte, Z.shiftr_div_pow2. Qed.

Lemma wrapS_period w v : 0 <= w -> wrapS w (2 ^ w + v) = wrapS w v.
Proof.
  intros Hw. unfold wrapS. f_equal.
  replace (2 ^ w + v + 2 ^ (w - 1)) with (v + 2 ^ (w - 1) + 1 * 2 ^ w) by lia.
  apply Z.mod_add. pose proof (Z.pow_pos_nonneg 2 w). lia.
Qed.

(** The word written for [v] in [w] bits reads back as [v]. *)
Lemma wrap_back w v : 0 < w -> - 2 ^ (w - 1) <= v < 2 ^ (w - 1) ->
  wrapS w (if v <? 0 then Z.shiftl 1 w + v else v) = v.
Proof.
  intros Hw Hv. rewrite Z.shiftl_1_l. case_bool; rewrite ?wrapS_period by lia; by apply wrapS_small.
Qed.

Lemma int_shape (n : nat) b v : 241 <= b < 245 -> Z.of_nat n = int_width b ->
  - 2 ^ (8 * Z.of_nat n - 1) <= v < 2 ^ (8 * Z.of_nat n - 1) ->
  forall u, wrapS (8 * Z.of_nat n) u = v -> enc_shape (b :: and_bytes n u) (LInt v).
Proof.
  intros Hb Hn Hv u Hu.
  assert (LInt v = LInt (wrapS (8 * zlen (and_bytes n u)) (le_val (and_bytes n u)))) as ->.
  { f_equal. rewrite and_bytes_le, zlen_le_bytes, le_val_bytes.
    rewrite <- Hu at 1. symmetry. apply wrapS_wrapU. lia. }
  constructor; [done | by rewrite and_bytes_le, zlen_le_bytes |
    rewrite and_bytes_le; apply le_bytes_byte].
Qed.

Lemma shape13 v : -4096 <= v <= 4095 ->
  let u := if v <? 0 then Z.shiftl 1 13 + v else v in
  enc_shape [u8 (Z.lor (Z.shiftr u 8) 0xC0); Z.land u 0xff] (LInt v).
Proof.
  intros Hv u. assert (0 <= u < 8192) as Hu.
  { unfold u. change (Z.shiftl 1 13) with 8192. case_bool; lia. }
  assert (0 <= u / 256 < 32) by (split; [apply Z.div_pos | apply Z.div_lt_upper_bound]; lia).
  rewrite Z.shiftr_div_pow2 by lia. change (2 ^ 8) with 256.
  change 0xC0 with (Z.shiftl 3 6). rewrite lor_disjoint by (change (2 ^ 6) with 64; lia).
  change (2 ^ 6) with 64. rewrite wrapU_small by (change (2 ^ 8) with 256; lia).
  change 0xff with (Z.ones 8). rewrite Z.land_ones by lia. change (2 ^ 8) with 256.
  assert (LInt v = LInt (wrapS 13 ((u / 256 + 3 * 64 - 192) * 256 + u mod 256))) as ->.
  { f_equal. replace ((u / 256 + 3 * 64 - 192) * 256 + u mod 256) with u
      by (pose proof (Z.div_mod u 256 ltac:(lia)); lia).
    symmetry. apply wrap_back; [lia|]. cbn. lia. }
  constructor; [lia | unfold is_byte; apply Z.mod_pos_bound; lia].
Qed.

Lemma int_shape_bytes e v : enc_shape e (LInt v) -> Forall is_byte e.
Proof. inversion 1; subst; repeat constructor; unfold is_byte in *; done || lia. Qed.

Lemma encode_integer_shape v : LLONG_MIN <= v <= LLONG_MAX ->
  enc_shape (fst (lpEncodeIntegerGetType v)) (LInt v) /\
  snd (lpEncodeIntegerGetType v) = zlen (fst (lpEncodeIntegerGetType v)) /\
  1 <= snd (lpEncodeIntegerGetType v) <= 9.
Proof.
  intros Hv. unfold lpEncodeIntegerGetType. rewrite !Z.geb_leb.
  assert (forall a b, LLONG_MIN <= a -> (a <=? v) && (v <=? b) = true -> a <= v <= b) as Hr.
  { intros a b _. destruct (Z.leb_spec a v), (Z.leb_spec v b); try done; lia. }
  destruct ((0 <=? v) && (v <=? 127)) eqn:E1.
  { apply Hr in E1; [|lia]. cbn [fst snd]. rewrite wrapU_small by (cbn; lia).
    split_and!; [by constructor; lia | done | lia..]. }
  destruct ((-4096 <=? v) && (v <=? 4095)) eqn:E2.
  { apply Hr in E2; [|lia]. split_and!; [by apply shape13 | done | cbn; lia..]. }
  destruct ((-32768 <=? v) && (v <=? 32767)) eqn:E3.
  { apply Hr in E3; [|lia]. split_and!; [|done | cbn; lia..]. cbn [fst]. rewrite u8_and by lia.
    apply (int_shape 2); [lia | done | cbn; lia | apply wrap_back; cbn; lia]. }
  destruct ((-8388608 <=? v) && (v <=? 8388607)) eqn:E4.
  { apply Hr in E4; [|lia]. split_and!; [|done | cbn; lia..]. cbn [fst]. rewrite u8_and by lia.
    apply (int_shape 3); [lia | done | cbn; lia | apply wrap_back; cbn; lia]. }
  destruct ((-2147483648 <=? v) && (v <=? 2147483647)) eqn:E5.
  { apply Hr in E5; [|lia]. split_and!; [|done | cbn; lia..]. cbn [fst]. rewrite u8_and by lia.
    apply (int_shape 4); [lia | done | cbn; lia | apply wrap_back; cbn; lia]. }
  split_and!; [|done | cbn; lia..]. cbn [fst]. rewrite u8_and by lia.
  apply (int_shape 8); [lia | done | cbn; lia |].
  change (8 * Z.of_nat 8) with 64. rewrite wrapS_wrapU by lia. apply wrapS_small; cbn; lia.
Qed.

(** The bytes lpEncodeString puts before the string. *)
Definition str_header (len : Z) : list Z :=
  if len <? 64 then [Z.lor len 0x80]
  else if len <? 4096 then [Z.lor (Z.shiftr len 8) 0xE0; Z.land len 0xff]
  else 0xF0 :: and_bytes 4 len.

Lemma str_header_len len : zlen (str_header len) = if len <? 64 then 1 else if len <? 4096 then 2 else 5.
Proof. unfold str_header. repeat case_bool; done. Qed.

Lemma str_shape s : zlen s < 2 ^ 32 -> enc_shape (str_header (zlen s) ++ s) (LStr s).
Proof.
  intros Hs. pose proof (zlen_nonneg s) as H0. unfold str_header.
  destruct (Z.ltb_spec (zlen s) 64).
  - change 0x80 with (Z.shiftl 1 7). rewrite lor_disjoint by (change (2 ^ 7) with 128; lia).
    change (2 ^ 7) with 128. apply shape_6str; lia.
  - destruct (Z.ltb_spec (zlen s) 4096).
    + assert (0 <= zlen s / 256 < 16) by (split; [apply Z.div_pos | apply Z.div_lt_upper_bound]; lia).
      rewrite Z.shiftr_div_pow2 by lia. change (2 ^ 8) with 256. change 0xE0 with (Z.shiftl 7 5).
      rewrite lor_disjoint by (change (2 ^ 5) with 32; lia). change (2 ^ 5) with 32.
      change 0xff with (Z.ones 8). rewrite Z.land_ones by lia. change (2 ^ 8) with 256.
      cbn [app]. apply shape_12str; [lia | unfold is_byte; apply Z.mod_pos_bound; lia |].
      pose proof (Z.div_mod (zlen s) 256 ltac:(lia)). lia.
    + rewrite and_bytes_le. cbn [app]. apply shape_32str; [done | done | apply le_bytes_byte|].
      rewrite le_val_bytes. symmetry. apply Z.mod_small. change (8 * Z.of_nat 4) with 32. lia.
Qed.

(** Writing over a hole: [x] is replaced by two pieces of the same total size. *)
Lemma wrn_two {A} (p x r u v : list A) off :
  off = zlen p -> zlen x = zlen u + zlen v ->
  (let* b := wrn (p ++ x ++ r) off u in wrn b (off + zlen u) v) = Ok (p ++ (u ++ v) ++ r).
Proof.
  intros -> Hx. pose proof (zlen_nonneg u). pose proof (zlen_nonneg v).
  rewrite <- (take_drop (Z.to_nat (zlen u)) x), <- app_assoc.
  rewrite (wrn_mid p _ u) by (rewrite ?zlen_take; done || lia). runr.
  rewrite (app_assoc p u). rewrite wrn_mid by (rewrite ?zlen_app, ?zlen_drop; done || lia).
  by rewrite <- !app_assoc.
Qed.

Lemma encode_string_ok p x r s off : off = zlen p -> zlen x = zlen (str_header (zlen s) ++ s) ->
  lpEncodeString (p ++ x ++ r) off s (zlen s) = Ok (p ++ (str_header (zlen s) ++ s) ++ r).
Proof.
  intros Hoff Hx. rewrite zlen_app in Hx. rewrite <- (wrn_two p x r _ _ off Hoff Hx).
  unfold lpEncodeString. fold (str_header (zlen s)).
  destruct (wrn (p ++ x ++ r) off (str_header (zlen s))); [|done]. runr.
  rewrite <- (app_nil_r s) at 1. by rewrite rdn_head.
Qed.

(** What is stored for a value: strings that denote a 64-bit integer are
    stored as integers. *)
Definition canon (x : lpval) : lpval :=
  match x with
  | LInt v => LInt v
  | LStr s => match lpStringToInt64 s (zlen s) with Ok (Some v) => LInt v | _ => LStr s end
  end.

Definition encode_val (x : lpval) : list Z :=
  match canon x with
  | LInt v => fst (lpEncodeIntegerGetType v)
  | LStr s => str_header (zlen s) ++ s
  end.

(** The values the API takes: byte strings of a 32-bit length, 64-bit integers. *)
Definition val_ok (x : lpval) : Prop :=
  match x with
  | LInt v => LLONG_MIN <= v <= LLONG_MAX
  | LStr s => Forall is_byte s /\ zlen s < 2 ^ 32 - 5
  end.

Lemma str_to_int_ok s : exists r, lpStringToInt64 s (zlen s) = Ok r /\
  (forall v, r = Some v <-> is_sdec s v /\ LLONG_MIN <= v <= LLONG_MAX).
Proof. rewrite lpStringToInt64_eq. apply string2ll_ok. Qed.

Lemma canon_ok x : val_ok x -> val_ok (canon x).
Proof.
  destruct x as [s|v]; [|done]. cbn. intros Hs.
  destruct (str_to_int_ok s) as ([v|] & -> & Hv); [|done]. cbn. by apply Hv.
Qed.

Lemma header_byte len : 0 <= len < 2 ^ 32 -> Forall is_byte (str_header len).
Proof.
  intros Hl. unfold str_header, is_byte.
  destruct (Z.ltb_spec len 64); [|destruct (Z.ltb_spec len 4096)].
  - change 0x80 with (Z.shiftl 1 7). rewrite lor_disjoint by (change (2 ^ 7) with 128; lia).
    repeat constructor; change (2 ^ 7) with 128; lia.
  - assert (0 <= len / 256 < 16) by (split; [apply Z.div_pos | apply Z.div_lt_upper_bound]; lia).
    rewrite Z.shiftr_div_pow2 by lia. change (2 ^ 8) with 256. change 0xE0 with (Z.shiftl 7 5).
    rewrite lor_disjoint by (change (2 ^ 5) with 32; lia). change (2 ^ 5) with 32.
    change 0xff with (Z.ones 8). rewrite Z.land_ones by lia. change (2 ^ 8) with 256.
    repeat constructor; try lia; apply Z.mod_pos_bound; lia.
  - constructor; [lia|]. rewrite and_bytes_le. apply le_bytes_byte.
Qed.

(** What is written decodes to what was stored. *)
Lemma encode_val_ok x : val_ok x -> valid_enc (encode_val x) /\ decode (encode_val x) = canon x.
Proof.
  intros Hx. pose proof (canon_ok x Hx) as Hc. unfold encode_val.
  enough (enc_shape (encode_val x) (canon x) /\ Forall is_byte (encode_val x) /\
          zlen (encode_val x) < 2 ^ 32) as (Hs & Hb & Hz).
  { unfold encode_val in *. split; [by eapply shape_valid | by apply enc_shape_decode]. }
  unfold encode_val. destruct (canon x) as [s|v]; cbn in Hc.
  - destruct Hc as [Hb Hz]. pose proof (zlen_nonneg s). split_and!.
    + apply str_shape. lia.
    + apply Forall_app; split; [apply header_byte; lia | done].
    + rewrite zlen_app, str_header_len. repeat case_bool; lia.
  - destruct (encode_integer_shape v Hc) as (Hs & Hl & Hr). split_and!; [done| |lia].
    by eapply int_shape_bytes.
Qed.

(** * Moving the tail of a block *)

Section update_proofs.
Context {alloc : Allocator}.

Lemma realloc_keep (a b : list Z) n : zlen a <= n ->
  exists b', lp_realloc (a ++ b) n = a ++ b' /\ n <= zlen (a ++ b').
Proof.
  intros Ha. pose proof (usable_ge n) as Hu. unfold lp_realloc, realloc.
  exists (take (Z.to_nat (usable n) - length a) b ++
     map (fun k => uninit (length (a ++ b) + k)%nat) (seq 0 (Z.to_nat (usable n) - length (a ++ b)))).
  split.
  - rewrite take_app_ge by (unfold zlen in *; lia). by rewrite app_assoc.
  - unfold zlen in *. rewrite !length_app, length_take, length_map, length_seq. lia.
Qed.

(** Moving [t] so that a hole of [k] bytes precedes it, whatever was there. *)
Lemma memmove_splice (p r t s : list Z) k dst src n :
  0 <= k -> zlen p + k + zlen t <= zlen (p ++ r ++ t ++ s) ->
  dst = zlen p + k -> src = zlen p + zlen r -> n = zlen t ->
  exists x s', memmove (p ++ r ++ t ++ s) dst src n = Ok (p ++ x ++ t ++ s') /\ zlen x = k.
Proof.
  intros Hk Hlen -> -> ->. pose proof (zlen_nonneg p). pose proof (zlen_nonneg t).
  unfold memmove. rewrite (app_assoc p r), rdn_mid by (rewrite ?zlen_app; done). runr.
  rewrite <- app_assoc. unfold wrn. dec_bool.
  rewrite zlen_app in Hlen. set (rest := r ++ t ++ s) in *.
  exists (take (Z.to_nat k) rest).
  eexists (drop (Z.to_nat (zlen p + k) + length t) (p ++ rest)). split.
  - rewrite take_app_ge by (unfold zlen in *; lia).
    replace (Z.to_nat (zlen p + k) - length p)%nat with (Z.to_nat k) by (unfold zlen; lia).
    by rewrite <- app_assoc.
  - apply zlen_take. lia.
Qed.

(** The reallocations around the move: before it when the block grows beyond
    its allocation, after it when it shrinks. *)
Lemma splice_block (p r t s : list Z) k old new dst src n :
  0 <= k -> old = zlen p + zlen r + zlen t -> new = zlen p + k + zlen t ->
  dst = zlen p + k -> src = zlen p + zlen r -> n = zlen t ->
  exists buf, 
    memmove (if (new >? old) && (new >? lp_malloc_size (p ++ r ++ t ++ s))
             then lp_realloc (p ++ r ++ t ++ s) new else p ++ r ++ t ++ s) dst src n = Ok buf /\
    exists x s', (if new <? old then lp_realloc buf new else buf) = p ++ x ++ t ++ s' /\ zlen x = k.
Proof.
  intros Hk Hold Hnew Hdst Hsrc Hn. pose proof (zlen_nonneg s). pose proof (zlen_nonneg r).
  assert (exists s1, (if (new >? old) && (new >? lp_malloc_size (p ++ r ++ t ++ s))
             then lp_realloc (p ++ r ++ t ++ s) new else p ++ r ++ t ++ s) = p ++ r ++ t ++ s1 /\
             new <= zlen (p ++ r ++ t ++ s1)) as (s1 & -> & Hs1).
  { unfold lp_malloc_size. rewrite !Z.gtb_ltb.
    destruct (Z.ltb_spec old new); cbn [andb];
      [destruct (Z.ltb_spec (zlen (p ++ r ++ t ++ s)) new)|].
    - destruct (realloc_keep (p ++ r ++ t) s new) as (s1 & He & Hl); [rewrite !zlen_app; lia|].
      rewrite <- !app_assoc in He. rewrite <- !app_assoc in Hl. by exists s1.
    - by exists s.
    - exists s. split; [done|]. rewrite !zlen_app. lia. }
  destruct (memmove_splice p r t s1 k dst src n) as (x & s2 & -> & Hx); try done; [lia|].
  eexists. split; [done|]. destruct (Z.ltb_spec new old); [|by exists x, s2].
  destruct (realloc_keep (p ++ x ++ t) s2 new) as (s3 & He & _); [rewrite !zlen_app; lia|].
  rewrite <- !app_assoc in He. by exists x, s3.
Qed.
(** * lpInsert *)

(** The arguments with which the API passes a new value. *)
Definition ele_str (x : lpval) : option (list Z) :=
  match x with LStr s => Some s | LInt _ => None end.
Definition ele_int (x : lpval) : option (list Z) :=
  match x with LStr _ => None | LInt v => Some (fst (lpEncodeIntegerGetType v)) end.
Definition ele_size (x : lpval) : Z :=
  match x with LStr s => zlen s | LInt v => snd (lpEncodeIntegerGetType v) end.

Lemma rdn_all {A} (s : list A) n : n = zlen s -> rdn s 0 n = Ok s.
Proof. intros ->. rewrite <- (app_nil_r s) at 1. by apply rdn_head. Qed.

Lemma insert_encoding_ok x : val_ok x ->
  exists ty int', insert_encoding (ele_str x) (ele_int x) (ele_size x) =
      Ok (Some ty, int', zlen (encode_val x)) /\
    forall p y r bl, zlen y = zlen (encode_val x) + zlen bl ->
      insert_store (p ++ y ++ r) (zlen p) (Some ty) (ele_str x) int' (ele_size x)
        (zlen (encode_val x)) bl (zlen bl) = Ok (p ++ (encode_val x ++ bl) ++ r).
Proof.
  intros Hx. unfold encode_val. pose proof (canon_ok x Hx) as Hc.
  destruct x as [s|v]; cbn [ele_str ele_int ele_size canon] in *.
  - unfold insert_encoding, lpEncodeGetType.
    destruct (str_to_int_ok s) as (r & Hs & _). rewrite Hs in *. destruct r as [v|]; runr.
    + destruct (lpEncodeIntegerGetType v) as [enc len] eqn:E. runr.
      destruct (encode_integer_shape v Hc) as (_ & Hl & _). rewrite E in Hl. cbn [fst snd] in *.
      eexists _, _. split; [by rewrite Hl|]. intros p y r bl Hy. unfold insert_store.
      rewrite rdn_all by done. runr. rewrite <- (wrn_two p y r enc bl (zlen p)) by done.
      destruct (wrn (p ++ y ++ r) (zlen p) enc); [|done]. runr. by rewrite rdn_all.
    + eexists _, _. split.
      * rewrite zlen_app, str_header_len. destruct Hx as [_ Hz]. pose proof (zlen_nonneg s).
        destruct (Z.ltb_spec (zlen s) 64); [|destruct (Z.ltb_spec (zlen s) 4096)];
          rewrite ?wrapU_small by lia; done.
      * intros p y r bl Hy. unfold insert_store.
        pose proof (zlen_nonneg (str_header (zlen s) ++ s)). pose proof (zlen_nonneg bl).
        rewrite <- (take_drop (Z.to_nat (zlen (str_header (zlen s) ++ s))) y), <- app_assoc.
        rewrite encode_string_ok by (rewrite ?zlen_take by lia; done). runr.
        rewrite rdn_all by done. runr. rewrite (app_assoc p).
        rewrite wrn_mid by first [by rewrite (zlen_app p) | rewrite zlen_drop by lia; lia].
        by rewrite <- !app_assoc.
  - destruct (lpEncodeIntegerGetType v) as [enc len] eqn:E.
    destruct (encode_integer_shape v Hc) as (_ & Hl & _). rewrite E in Hl. cbn [fst snd] in *.
    unfold insert_encoding. eexists _, _. split; [by rewrite Hl|]. intros p y r bl Hy.
    unfold insert_store. rewrite rdn_all by done. runr.
    rewrite <- (wrn_two p y r enc bl (zlen p)) by done.
    destruct (wrn (p ++ y ++ r) (zlen p) enc); [|done]. runr. by rewrite rdn_all.
Qed.

(** A block from its header fields. *)
Definition block (tot num : Z) (rest : list Z) : list Z := le_bytes 4 tot ++ le_bytes 2 num ++ rest.

Lemma set_total_block v tot num rest : lpSetTotalBytes (block tot num rest) v = Ok (block v num rest).
Proof. unfold lpSetTotalBytes, block. rewrite and_bytes_le. by rewrite wrn_head by (by rewrite !zlen_le_bytes). Qed.

Lemma set_num_block v tot num rest : lpSetNumElements (block tot num rest) v = Ok (block tot v rest).
Proof.
  unfold lpSetNumElements, block. rewrite and_bytes_le.
  by rewrite (wrn_mid _ (le_bytes 2 num)) by (by rewrite ?zlen_le_bytes).
Qed.

Lemma get_num_block tot num rest : 0 <= num < 2 ^ 16 -> lpGetNumElements (block tot num rest) = Ok num.
Proof.
  intros Hn. unfold lpGetNumElements, block. rewrite rdn_mid by (by rewrite ?zlen_le_bytes). runr.
  rewrite or_bytes_val, le_val_bytes by apply le_bytes_byte.
  change (8 * Z.of_nat 2) with 16. by rewrite Z.mod_small.
Qed.

Lemma get_total_block tot num rest : 0 <= tot < 2 ^ 32 -> lpGetTotalBytes (block tot num rest) = Ok tot.
Proof.
  intros Hn. unfold lpGetTotalBytes, block. rewrite rdn_head by (by rewrite ?zlen_le_bytes). runr.
  rewrite or_bytes_val, le_val_bytes by apply le_bytes_byte.
  change (8 * Z.of_nat 4) with 32. by rewrite Z.mod_small.
Qed.

Lemma zlen_block tot num rest : zlen (block tot num rest) = 6 + zlen rest.
Proof. unfold block. autorewrite with bytes. lia. Qed.

Lemma block_app tot num a b : block tot num (a ++ b) = block tot num a ++ b.
Proof. unfold block. by rewrite <- !app_assoc. Qed.

(** The representation, with the block split around any entries. *)
Lemma repr_block lp es : lp_repr lp es ->
  exists num slack, lp = block (total es) num (body es ++ LP_EOF :: slack) /\ numele_ok num es.
Proof. intros Hr. exact (r_layout _ _ Hr). Qed.

Lemma block_repr num slack es : numele_ok num es -> Forall valid_enc es -> total es < 2 ^ 32 ->
  lp_repr (block (total es) num (body es ++ LP_EOF :: slack)) es.
Proof. intros Hn Hv Ht. split; [by exists num, slack | done..]. Qed.

(** The count in the header mod 2^16 is what is stored. *)
Lemma block_num tot num num' rest : num mod 2 ^ 16 = num' -> block tot num rest = block tot num' rest.
Proof. intros <-. unfold block. by rewrite <- (le_bytes_mod 2 num). Qed.

(** The number of elements changes with the list. *)
Lemma insert_header_ok es es' tot num rest (replace delete : bool) new :
  numele_ok num es ->
  zlen es' = zlen es + (if delete then -1 else if replace then 0 else 1) ->
  exists num', insert_header (block tot num rest) replace delete new = Ok (block new num' rest) /\
    numele_ok num' es'.
Proof.
  intros Hn Hlen. pose proof (numele_range es num Hn). unfold numele_ok in *.
  pose proof (zlen_nonneg es). pose proof (zlen_nonneg es'). change (2 ^ 16) with 65536 in *.
  unfold insert_header. rewrite get_num_block by done.
  assert (exists num', (if negb replace || delete
    then let* num_elements := Ok num in
         if negb (num_elements =? LP_HDR_NUMELE_UNKNOWN)
         then lpSetNumElements (block tot num rest)
           (if negb delete then u32 (num_elements + 1) else u32 (num_elements - 1))
         else Ok (block tot num rest)
    else Ok (block tot num rest)) = Ok (block tot num' rest) /\
    (num' = LP_HDR_NUMELE_UNKNOWN \/ num' = zlen es' /\ zlen es' < LP_HDR_NUMELE_UNKNOWN))
    as (num' & -> & Hn').
  { destruct (negb replace || delete) eqn:E; runr.
    - destruct (Z.eqb_spec num LP_HDR_NUMELE_UNKNOWN) as [->|]; cbn [negb]; [by eauto|].
      rewrite set_num_block. eexists. split; [done|].
      destruct delete; cbn [negb]; rewrite wrapU_small by (change (2 ^ 32) with 4294967296; lia); [lia|].
      destruct replace; cbn in E; [done | lia].
    - destruct replace, delete; try done. eexists. split; [done|]. lia. }
  runr. rewrite set_total_block. by exists num'.
Qed.

(** What is inserted: a value, or nothing (a deletion). *)
Definition new_entries (new : option lpval) : list (list Z) :=
  match new with Some x => [encode_val x] | None => [] end.
Definition new_str (new : option lpval) : option (list Z) :=
  match new with Some x => ele_str x | None => None end.
Definition new_int (new : option lpval) : option (list Z) :=
  match new with Some x => ele_int x | None => None end.
Definition new_size (new : option lpval) : Z :=
  match new with Some x => ele_size x | None => 0 end.

Lemma new_delete new : is_delete (new_str new) (new_int new) = match new with Some _ => false | None => true end.
Proof. by destruct new as [[s|v]|]. Qed.

Lemma body_one e : body [e] = entry e.
Proof. apply app_nil_r. Qed.

Lemma total_split l m r : total (l ++ m ++ r) = 7 + zlen (body l) + zlen (body m) + zlen (body r).
Proof. unfold total. rewrite !body_app, !zlen_app. lia. Qed.

(** The length of the entry to be replaced. *)
Definition replaced_len (lp : list Z) (p : Z) (replace : bool) : result Z :=
  if replace then
    let* replaced_len := lpCurrentEncodedSizeUnsafe lp p in
    let replaced_len := u32 (replaced_len + lpEncodeBacklenBytes replaced_len) in
    let* _ := ASSERT_INTEGRITY_LEN lp p replaced_len in
    Ok replaced_len
  else Ok 0.

Lemma replaced_len_ok lp l m r : lp_repr lp (l ++ m ++ r) -> (length m <= 1)%nat ->
  replaced_len lp (offset (l ++ m ++ r) (length l)) (negb (bool_decide (m = []))) = Ok (zlen (body m)).
Proof.
  intros Hr Hm. destruct m as [|e [|? m]]; [done | | cbn in Hm; lia].
  pose proof (total_range _ _ Hr) as Ht. rewrite total_split in Ht.
  destruct (repr_split _ _ Hr (length l) e) as (a & c & Hlp & Ha & Hv); [by apply list_lookup_middle|].
  unfold replaced_len, ASSERT_INTEGRITY_LEN. cbn [bool_decide negb].
  assert (bool_decide ([e] = []) = false) as -> by (by apply bool_decide_eq_false_2). cbn [negb].
  rewrite Hlp at 1. rewrite size_unsafe_ok by done. runr. rewrite <- entry_len, <- body_one.
  pose proof (zlen_nonneg (body l)). pose proof (zlen_nonneg (body [e])). pose proof (zlen_nonneg (body r)).
  rewrite wrapU_small by lia.
  rewrite (repr_total _ _ Hr). runr. unfold offset. rewrite total_split, take_app_length. dec_bool. done.
Qed.

(** The first byte of the tail tells whether an element follows. *)
Lemma tail_first r : Forall valid_enc r ->
  exists b t, body r ++ [LP_EOF] = b :: t /\ (b =? LP_EOF) = bool_decide (r = []).
Proof.
  intros Hv. destruct r as [|e r]; [by eexists _, _|].
  apply Forall_cons_1 in Hv as [He _]. destruct (size_bytes_ok e He) as (b & t & -> & Hb & _).
  eexists b, _. split; [done|]. rewrite bool_decide_eq_false_2 by done. lia.
Qed.

Lemma new_entries_valid new : (forall x, new = Some x -> val_ok x) -> Forall valid_enc (new_entries new).
Proof.
  intros H. destruct new as [x|]; cbn; [|constructor].
  constructor; [by apply encode_val_ok, H | constructor].
Qed.

Lemma new_entries_size new : (forall x, new = Some x -> val_ok x) ->
  0 <= zlen (body (new_entries new)) < 2 ^ 33.
Proof.
  intros H. pose proof (new_entries_valid new H) as Hv. destruct new as [x|]; [|done].
  cbn [new_entries] in *. apply Forall_cons_1 in Hv as [(_ & Hz & _) _]. rewrite body_one, entry_len.
  pose proof (backlen_bytes_range (zlen (encode_val x))).
  change (2 ^ 33) with 8589934592. change (2 ^ 32) with 4294967296 in Hz. lia.
Qed.

(** The encoding step and the store, for an insertion and for a deletion. *)
Lemma new_encoding_ok new : (forall x, new = Some x -> val_ok x) ->
  exists ty int' enclen bl,
    insert_encoding (new_str new) (new_int new) (new_size new) = Ok (ty, int', enclen) /\
    (if negb (match new with Some _ => false | None => true end) then lpEncodeBacklen enclen else ([], 0))
      = (bl, zlen bl) /\ 0 <= enclen /\ enclen + zlen bl = zlen (body (new_entries new)) /\
    (forall q y s, zlen y = zlen (body (new_entries new)) ->
      (if negb (match new with Some _ => false | None => true end)
       then insert_store (q ++ y ++ s) (zlen q) ty (new_str new) int' (new_size new) enclen bl (zlen bl)
       else Ok (q ++ y ++ s)) = Ok (q ++ body (new_entries new) ++ s)).
Proof.
  intros Hval.
  destruct new as [x|]; cbn [new_str new_int new_size new_entries negb].
  - destruct (insert_encoding_ok x) as (ty & int' & He & Hs); [by apply Hval|].
    exists (Some ty), int', (zlen (encode_val x)), (backlen (zlen (encode_val x))).
    rewrite body_one. unfold entry. rewrite zlen_app, encode_backlen, backlen_len.
    split_and!; [done | done | apply zlen_nonneg | done |].
    intros q y s Hy. rewrite <- backlen_len. apply Hs. by rewrite Hy, backlen_len.
  - exists None, None, 0, []. split_and!; try done.
    intros q y s Hy. by rewrite (zlen_nil_inv y Hy).
Qed.

Lemma insert_at_ok lp l m r new :
  lp_repr lp (l ++ m ++ r) -> (length m <= 1)%nat -> (new = None -> m <> []) ->
  (forall x, new = Some x -> val_ok x) ->
  let es' := l ++ new_entries new ++ r in
  let p := offset (l ++ m ++ r) (length l) in
  let run := insert_at lp (new_str new) (new_int new) (new_size new) p (negb (bool_decide (m = []))) in
  if total es' >? UINT32_MAX then run = Ok None
  else exists lp', run = Ok (Some (lp', if bool_decide (new = None) && bool_decide (r = [])
                                        then None else Some p)) /\ lp_repr lp' es'.
Proof.
  intros Hr Hm Hnew Hval es' p run. unfold run, insert_at. rewrite new_delete.
  pose proof (replaced_len_ok _ _ _ _ Hr Hm) as Hrep. fold p in Hrep.
  pose proof (repr_total _ _ Hr) as Htot. pose proof (total_range _ _ Hr) as Hrange.
  pose proof (r_valid _ _ Hr) as Hvalid. rewrite !Forall_app in Hvalid. destruct Hvalid as (Hvl & _ & Hvr).
  assert (p = 6 + zlen (body l)) as Hp by (unfold p, offset; by rewrite take_app_length).
  pose proof (zlen_nonneg (body l)). pose proof (zlen_nonneg (body m)). pose proof (zlen_nonneg (body r)).
  destruct (new_encoding_ok new Hval) as (ty & int' & enclen & bl & Henc & Hbl & Hpos & Hlen & Hstore).
  rewrite Henc. runr. rewrite Hbl, Htot. runr. fold (replaced_len lp p (negb (bool_decide (m = [])))).
  rewrite Hrep. runr.
  assert (total es' = 7 + zlen (body l) + zlen (body (new_entries new)) + zlen (body r)) as Htot'
    by apply total_split.
  pose proof (new_entries_valid new Hval) as Hvn. pose proof (new_entries_size new Hval) as Hsn.
  pose proof (zlen_nonneg bl).
  destruct (repr_block _ _ Hr) as (num & slack & Hlp & Hnum).
  set (tot := total (l ++ m ++ r)) in *. pose proof (total_split l m r) as Htm. fold tot in Htm.
  replace (tot + enclen + zlen bl - zlen (body m)) with (total es') by lia.
  rewrite wrapU_small by (change (2 ^ 64) with 18446744073709551616; change (2 ^ 32) with 4294967296 in *; lia).
  destruct (total es' >? UINT32_MAX) eqn:Ebig; [done|]. rewrite Z.gtb_ltb, Z.ltb_ge in Ebig.
  set (P := block tot num (body l)). assert (zlen P = p) as HP by (unfold P; rewrite zlen_block; lia).
  assert (lp = P ++ body m ++ (body r ++ [LP_EOF]) ++ slack) as HlpP.
  { unfold P. rewrite Hlp, !body_app, <- block_app. f_equal. by rewrite <- !app_assoc. }
  assert (zlen (body r ++ [LP_EOF]) = zlen (body r) + 1) as HT by (by rewrite zlen_app).
  destruct (splice_block P (body m) (body r ++ [LP_EOF]) slack (zlen (body (new_entries new)))
    tot (total es') (p + enclen + zlen bl) (p + zlen (body m)) (tot - p - zlen (body m)))
    as (buf & Hmove & x & s' & Hbuf & Hx); [lia..|]. rewrite <- HlpP in Hmove.
  assert ((if negb (negb (bool_decide (m = [])))
    then memmove (if (total es' >? tot) && (total es' >? lp_malloc_size lp) then lp_realloc lp (total es') else lp)
           (p + enclen + zlen bl) p (tot - p)
    else memmove (if (total es' >? tot) && (total es' >? lp_malloc_size lp) then lp_realloc lp (total es') else lp)
           (p + enclen + zlen bl) (p + zlen (body m)) (tot - p - zlen (body m))) = Ok buf) as ->.
  { destruct m as [|e m]; [|by rewrite bool_decide_eq_false_2].
    rewrite bool_decide_eq_true_2 by done. cbn [negb]. change (zlen (body [])) with 0 in Hmove.
    by rewrite Z.add_0_r, Z.sub_0_r in Hmove. }
  runr. rewrite Hbuf.
  destruct (tail_first r Hvr) as (b & t & Hbt & Hb).
  assert (exists b', rd1 (P ++ x ++ (body r ++ [LP_EOF]) ++ s') p = Ok b' /\
    (new = None -> (b' =? LP_EOF) = bool_decide (r = []))) as (b' & -> & Hb').
  { rewrite Hbt. destruct x as [|c x].
    - exists b. split; [by apply rd1_mid | done].
    - exists c. split; [by apply rd1_mid|]. intros ->. rewrite zlen_cons in Hx.
      pose proof (zlen_nonneg x). change (zlen (body (new_entries None))) with 0 in Hx. lia. }
  runr. rewrite <- HP, (Hstore P x), HP by done. runr.
  unfold P. rewrite <- (block_app tot num (body l)).
  destruct (insert_header_ok (l ++ m ++ r) es' tot num (body l ++ body (new_entries new) ++ (body r ++ [LP_EOF]) ++ s')
    (negb (bool_decide (m = []))) (match new with Some _ => false | None => true end) (total es') Hnum)
    as (num' & -> & Hnum').
  { unfold es'. rewrite !zlen_app. destruct m as [|e [|? m]]; [| |cbn in Hm; lia].
    - rewrite bool_decide_eq_true_2 by done. destruct new; [unfold zlen; cbn; lia | by destruct Hnew].
    - rewrite bool_decide_eq_false_2 by done. destruct new; unfold zlen; cbn; lia. }
  runr. eexists. split.
  - do 3 f_equal. destruct new; [rewrite (bool_decide_eq_false_2 (Some _ = None)) by done; done|].
    rewrite Hb' by done. by rewrite (bool_decide_eq_true_2 (None = None)) by done.
  - replace (body l ++ body (new_entries new) ++ (body r ++ [LP_EOF]) ++ s') with (body es' ++ LP_EOF :: s')
      by (unfold es'; rewrite !body_app, <- !app_assoc; done).
    apply block_repr; [done | unfold es'; rewrite !Forall_app; done | lia].
Qed.

(** Where an insertion goes, and what it replaces. *)
Definition ins_pos (w : lp_where) (i : nat) : nat := match w with LP_AFTER => S i | _ => i end.
Definition ins_drop (w : lp_where) (i : nat) : nat := match w with LP_BEFORE => i | _ => S i end.

(** The list after storing [x] before, after or in place of element [i]. *)
Definition put {A} (w : lp_where) (i : nat) (x : A) (l : list A) : list A :=
  take (ins_pos w i) l ++ [x] ++ drop (ins_drop w i) l.

(** Every position may be inserted before, also the end; the others need an
    element. *)
Definition pos_ok {A} (w : lp_where) (i : nat) (l : list A) : Prop :=
  match w with LP_BEFORE => (i <= length l)%nat | _ => (i < length l)%nat end.

Lemma insert_before_ok lp es i x : lp_repr lp es -> (i <= length es)%nat -> val_ok x ->
  let es' := put LP_BEFORE i (encode_val x) es in
  let run := insert_at lp (ele_str x) (ele_int x) (ele_size x) (offset es i) false in
  if total es' >? UINT32_MAX then run = Ok None
  else exists lp', run = Ok (Some (lp', Some (offset es i))) /\ lp_repr lp' es'.
Proof.
  intros Hr Hi Hx.
  pose proof (insert_at_ok lp (take i es) [] (drop i es) (Some x)) as H. cbn [app] in H.
  rewrite (bool_decide_eq_true_2 ([] = [])), take_drop, length_take, (Nat.min_l i) in H by (done || lia).
  rewrite (bool_decide_eq_false_2 (Some x = None)) in H by done.
  apply H; [done | cbn; lia | done | by intros ? [= <-]].
Qed.

Lemma insert_over_ok lp es i e new : lp_repr lp es -> es !! i = Some e ->
  (forall x, new = Some x -> val_ok x) ->
  let es' := take i es ++ new_entries new ++ drop (S i) es in
  let run := insert_at lp (new_str new) (new_int new) (new_size new) (offset es i) true in
  if total es' >? UINT32_MAX then run = Ok None
  else exists lp', run = Ok (Some (lp', if bool_decide (new = None) && bool_decide (drop (S i) es = [])
                                        then None else Some (offset es i))) /\ lp_repr lp' es'.
Proof.
  intros Hr He Hx. pose proof (lookup_lt_Some _ _ _ He) as Hlt.
  pose proof (insert_at_ok lp (take i es) [e] (drop (S i) es) new) as H.
  change ([e] ++ drop (S i) es) with (e :: drop (S i) es) in H.
  rewrite (take_drop_middle _ _ _ He), length_take, (Nat.min_l i) in H by lia.
  rewrite (bool_decide_eq_false_2 ([e] = [])) in H by done.
  apply H; [done | cbn; lia | done | done].
Qed.

Lemma body_take_le es i : zlen (body (take i es)) <= zlen (body es).
Proof.
  rewrite <- (take_drop i es) at 2. rewrite body_app, zlen_app.
  pose proof (zlen_nonneg (body (drop i es))). lia.
Qed.

(** lpInsert of a value, in its three modes. *)
Lemma insert_ok lp es w i x : lp_repr lp es -> pos_ok w i es -> val_ok x ->
  let es' := put w i (encode_val x) es in
  let run := lpInsert lp (ele_str x) (ele_int x) (ele_size x) (offset es i) w in
  if total es' >? UINT32_MAX then run = Ok None
  else exists lp', run = Ok (Some (lp', Some (offset es (ins_pos w i)))) /\ lp_repr lp' es'.
Proof.
  intros Hr Hi Hx es' run. unfold run, lpInsert.
  assert (is_delete (ele_str x) (ele_int x) = false) as -> by (by destruct x).
  destruct w; cbn [ins_pos ins_drop pos_ok] in *.
  - by apply insert_before_ok.
  - destruct (lookup_lt_is_Some_2 es i Hi) as [e He].
    destruct (repr_split _ _ Hr i e He) as (a & c & Hlp & Ha & Hv).
    assert (lpSkip lp (offset es i) = Ok (offset es (S i))) as ->.
    { unfold lpSkip. rewrite Hlp at 1. rewrite size_unsafe_ok by done. runr.
      by rewrite (offset_S es i e He), entry_len. }
    runr. unfold ASSERT_INTEGRITY. rewrite (repr_total _ _ Hr). runr.
    assert (LP_HDR_SIZE <= offset es (S i) < total es) as Ho.
    { unfold offset, total. pose proof (body_take_le es (S i)).
      pose proof (zlen_nonneg (body (take (S i) es))). lia. }
    assert ((offset es (S i) >=? LP_HDR_SIZE) && (offset es (S i) <? total es) = true) as ->
      by (dec_bool; done).
    runr. apply (insert_before_ok lp es (S i) x); [done | lia | done].
  - destruct (lookup_lt_is_Some_2 es i Hi) as [e He].
    pose proof (insert_over_ok lp es i e (Some x) Hr He) as H.
    rewrite (bool_decide_eq_false_2 (Some x = None)) in H by done.
    apply H. by intros ? [= <-].
Qed.

Lemma lp_delete_ok lp es i : lp_repr lp es -> (i < length es)%nat ->
  exists lp', lpDelete lp (offset es i) =
      Ok (Some (lp', if bool_decide (drop (S i) es = []) then None else Some (offset es i))) /\
    lp_repr lp' (take i es ++ drop (S i) es).
Proof.
  intros Hr Hi. destruct (lookup_lt_is_Some_2 es i Hi) as [e He].
  pose proof (insert_over_ok lp es i e None Hr He) as H. cbn [new_entries app] in H.
  assert (total (take i es ++ drop (S i) es) < 2 ^ 32) as Hlt.
  { pose proof (total_range _ _ Hr) as Ht. unfold total in *.
    rewrite <- (take_drop_middle _ _ _ He) in Ht. rewrite !body_app, body_cons, !zlen_app in *.
    pose proof (zlen_nonneg (entry e)). lia. }
  rewrite Z.gtb_ltb, (proj2 (Z.ltb_ge _ _)) in H by lia.
  unfold lpDelete, lpInsert. apply H. done.
Qed.

(** * Creating, shrinking, copying *)

Lemma split_at {A} (l : list A) n : 0 <= n <= zlen l ->
  exists a b, l = a ++ b /\ zlen a = n /\ zlen b = zlen l - n.
Proof.
  intros Hn. exists (take (Z.to_nat n) l), (drop (Z.to_nat n) l).
  rewrite take_drop, zlen_take, zlen_drop by lia. done.
Qed.

Lemma malloc_len n : n <= zlen (lp_malloc n).
Proof.
  destruct (Z.le_gt_cases n 0); [pose proof (zlen_nonneg (lp_malloc n)); lia|].
  pose proof (usable_ge n). unfold lp_malloc, realloc. rewrite zlen_app. unfold zlen at 2.
  rewrite length_map, length_seq. pose proof (zlen_nonneg (take (Z.to_nat (usable n)) (@nil Z))).
  cbn [length]. lia.
Qed.

Lemma new_ok capacity : exists lp, lpNew capacity = Ok lp /\ lp_repr lp [] /\ capacity <= zlen lp.
Proof.
  unfold lpNew. set (n := if capacity >? LP_HDR_SIZE + 1 then capacity else LP_HDR_SIZE + 1).
  assert (7 <= n /\ capacity <= n) as [Hn Hcap] by (unfold n; rewrite Z.gtb_ltb; case_bool; lia).
  pose proof (malloc_len n) as Hl. generalize dependent (lp_malloc n). intros lp Hl.
  destruct (split_at lp 4) as (a & lp1 & -> & Ha & Hl1); [lia|].
  destruct (split_at lp1 2) as (b & lp2 & -> & Hb & Hl2); [lia|].
  destruct lp2 as [|c rest]; [change (zlen (@nil Z)) with 0 in Hl2; lia|].
  rewrite !zlen_app, zlen_cons in *.
  unfold lpSetTotalBytes, lpSetNumElements. rewrite !and_bytes_le.
  rewrite wrn_head by (by rewrite zlen_le_bytes). runr.
  rewrite (wrn_mid _ b) by (by rewrite zlen_le_bytes). runr.
  rewrite app_assoc, wr1_mid by (by rewrite zlen_app, !zlen_le_bytes).
  rewrite <- app_assoc. eexists. split; [done|]. split.
  - apply (block_repr 0 rest []); [by right | constructor | done].
  - rewrite !zlen_app, zlen_cons, !zlen_le_bytes. lia.
Qed.

Lemma lp_shrink_ok lp es : lp_repr lp es -> exists lp', lpShrinkToFit lp = Ok lp' /\ lp_repr lp' es.
Proof.
  intros Hr. unfold lpShrinkToFit. rewrite (repr_total _ _ Hr). runr.
  destruct (Z.ltb_spec (total es) (lp_malloc_size lp)); [|by exists lp].
  eexists. split; [done|]. destruct (repr_block _ _ Hr) as (num & slack & Hlp & Hn).
  destruct (realloc_keep (block (total es) num (body es ++ [LP_EOF])) slack (total es)) as (s' & He & _).
  { rewrite zlen_block, zlen_app, zlen_one. unfold total. lia. }
  rewrite <- !block_app, <- !app_assoc in He. cbn [app] in He.
  rewrite Hlp, He. apply block_repr; [done | apply Hr..].
Qed.

Lemma dup_ok lp es : lp_repr lp es -> exists lp', lpDup lp = Ok lp' /\ lp_repr lp' es.
Proof.
  intros Hr. unfold lpDup, lpBytes. rewrite (repr_total _ _ Hr). runr.
  destruct (repr_block _ _ Hr) as (num & slack & Hlp & Hn).
  replace (body es ++ LP_EOF :: slack) with ((body es ++ [LP_EOF]) ++ slack) in Hlp
    by (by rewrite <- app_assoc).
  rewrite block_app in Hlp. set (b := block (total es) num (body es ++ [LP_EOF])) in *.
  assert (zlen b = total es) as Hb.
  { unfold b. rewrite zlen_block, zlen_app, zlen_one. unfold total. lia. }
  rewrite Hlp, rdn_head by done. runr. pose proof (total_range _ _ Hr).
  destruct (split_at (lp_malloc (total es)) (total es)) as (u & v & -> & Hu & _);
    [pose proof (malloc_len (total es)); lia|].
  rewrite wrn_head by lia. eexists. split; [done|]. unfold b. rewrite <- block_app, <- app_assoc.
  apply block_repr; [done | apply Hr..].
Qed.

(** * The derived insertions *)

Definition api_insert (lp : list Z) (x : lpval) (p : Z) (w : lp_where) :=
  match x with LStr s => lpInsertString lp s (zlen s) p w | LInt v => lpInsertInteger lp v p w end.

Lemma api_insert_eq lp x p w :
  api_insert lp x p w = lpInsert lp (ele_str x) (ele_int x) (ele_size x) p w.
Proof.
  destruct x as [s|v]; [done|]. cbn. unfold lpInsertInteger.
  by destruct (lpEncodeIntegerGetType v).
Qed.

Definition api_append (lp : list Z) (x : lpval) :=
  match x with LStr s => lpAppend lp s (zlen s) | LInt v => lpAppendInteger lp v end.

Definition api_prepend (lp : list Z) (x : lpval) :=
  match x with LStr s => lpPrepend lp s (zlen s) | LInt v => lpPrependInteger lp v end.

Definition api_replace (lp : list Z) (p : Z) (x : lpval) :=
  match x with LStr s => lpReplace lp p s (zlen s) | LInt v => lpReplaceInteger lp p v end.

Lemma put_end {A} (l : list A) x : put LP_BEFORE (length l) x l = l ++ [x].
Proof. unfold put. cbn [ins_pos ins_drop]. by rewrite firstn_all, drop_all. Qed.

Lemma append_ok lp es x : lp_repr lp es -> val_ok x ->
  if total (es ++ [encode_val x]) >? UINT32_MAX then api_append lp x = Ok None
  else exists lp', api_append lp x = Ok (Some lp') /\ lp_repr lp' (es ++ [encode_val x]).
Proof.
  intros Hr Hx. pose proof (insert_ok lp es LP_BEFORE (length es) x Hr (le_n _) Hx) as H.
  cbv zeta in H. rewrite put_end, offset_end in H. rewrite <- api_insert_eq in H.
  assert (api_append lp x = drop_newp (api_insert lp x (total es - 1) LP_BEFORE)) as ->.
  { destruct x; cbn; unfold lpAppend, lpAppendInteger; by rewrite (repr_total _ _ Hr). }
  destruct (total (es ++ [encode_val x]) >? UINT32_MAX); [by rewrite H|].
  destruct H as (lp' & -> & Hr'). by exists lp'.
Qed.

Lemma prepend_ok lp es x : lp_repr lp es -> val_ok x ->
  if total (encode_val x :: es) >? UINT32_MAX then api_prepend lp x = Ok None
  else exists lp', api_prepend lp x = Ok (Some lp') /\ lp_repr lp' (encode_val x :: es).
Proof.
  intros Hr Hx. pose proof (first_ok _ _ (repr_total _ _ Hr) _ (repr_chain _ _ Hr)) as Hf.
  rewrite repr_elem in Hf. destruct es as [|e es].
  - assert (api_prepend lp x = api_append lp x) as ->.
    { destruct x; cbn; unfold lpPrepend, lpPrependInteger; by rewrite Hf. }
    by apply (append_ok lp [] x).
  - pose proof (insert_ok lp (e :: es) LP_BEFORE 0 x Hr (Nat.le_0_l _) Hx) as H.
    cbv zeta in H. rewrite <- api_insert_eq in H.
    rewrite zlen_cons in Hf. pose proof (zlen_nonneg es).
    rewrite (proj2 (Z.ltb_lt 0 (1 + zlen es))) in Hf by lia. cbn [andb Z.leb] in Hf.
    assert (api_prepend lp x = drop_newp (api_insert lp x (offset (e :: es) 0) LP_BEFORE)) as ->.
    { destruct x; cbn [api_prepend]; unfold lpPrepend, lpPrependInteger; by rewrite Hf. }
    unfold put in H. cbn [ins_pos ins_drop take drop app] in H.
    destruct (total (encode_val x :: e :: es) >? UINT32_MAX); [by rewrite H|].
    destruct H as (lp' & -> & Hr'). by exists lp'.
Qed.

(** * Deleting ranges *)

Lemma repr_link lp es i e : lp_repr lp es -> es !! i = Some e ->
  link lp (total es) (offset es i) (offset es (S i)).
Proof.
  intros Hr He. destruct (repr_block _ _ Hr) as (num & slack & Hlp & _).
  pose proof (r_valid _ _ Hr) as Hv. rewrite Forall_lookup in Hv.
  rewrite (offset_S es i e He).
  assert (lp = block (total es) num (body (take i es)) ++ entry e ++ body (drop (S i) es) ++ LP_EOF :: slack) as ->.
  { rewrite Hlp, <- block_app. f_equal. by rewrite (body_middle es i e He), <- !app_assoc. }
  assert (offset es i = zlen (block (total es) num (body (take i es)))) as ->
    by (by rewrite zlen_block).
  apply entry_link; [eauto | rewrite zlen_block; pose proof (zlen_nonneg (body (take i es))); lia |].
  rewrite zlen_block. pose proof (body_take_le es (S i)) as Hle.
  rewrite (take_S_r _ _ _ He), body_app, zlen_app, body_one in Hle. unfold total. lia.
Qed.

Lemma repr_eof lp es : lp_repr lp es -> rd1 lp (offset es (length es)) = Ok LP_EOF.
Proof.
  intros Hr. destruct (repr_block _ _ Hr) as (num & slack & -> & _).
  rewrite block_app. apply rd1_mid. rewrite zlen_block. unfold offset. by rewrite firstn_all.
Qed.

Lemma range_loop_ok lp es : lp_repr lp es -> forall fuel i num deleted,
  (i <= length es)%nat -> (0 < num -> (i < length es)%nat) -> 0 <= num ->
  zlen es - Z.of_nat i < Z.of_nat fuel ->
  range_loop fuel lp (total es) num deleted (offset es i) =
    Ok (deleted + Z.min num (zlen es - Z.of_nat i),
        offset es (i + Z.to_nat (Z.min num (zlen es - Z.of_nat i)))).
Proof.
  intros Hr fuel. unfold zlen. induction fuel as [|fuel IH]; intros i num deleted Hi Hin Hn Hf; [lia|].
  cbn [range_loop]. destruct (Z.eqb_spec num 0) as [->|Hn0].
  { rewrite Z.min_l by lia. change (Z.to_nat 0) with 0%nat. by rewrite Nat.add_0_r, Z.add_0_r. }
  destruct (lookup_lt_is_Some_2 es i) as [e He]; [apply Hin; lia|].
  rewrite (link_skip _ _ _ _ (repr_link lp es i e Hr He)). runr.
  destruct (decide (S i = length es)) as [Hlast|Hmore].
  - rewrite Hlast, (repr_eof _ _ Hr). runr. cbn [Z.eqb Pos.eqb].
    replace (Z.min num (Z.of_nat (length es) - Z.of_nat i)) with 1 by lia.
    replace (i + Z.to_nat 1)%nat with (length es) by lia. done.
  - destruct (lookup_lt_is_Some_2 es (S i)) as [e' He']; [pose proof (Hin ltac:(lia)); lia|].
    pose proof (repr_link lp es (S i) e' Hr He') as Hl.
    destruct (link_not_eof _ _ _ _ Hl) as (b & -> & Hb). runr. dec_bool.
    rewrite (link_valid _ _ _ _ Hl). runr.
    rewrite IH by (try (intros; apply lookup_lt_Some in He'); lia). do 2 f_equal; [lia|].
    f_equal. lia.
Qed.

(** A block after its middle entries have been moved over. *)
Lemma cut_block lp l m r : lp_repr lp (l ++ m ++ r) ->
  let first := offset (l ++ m ++ r) (length l) in
  let tail := offset (l ++ m ++ r) (length (l ++ m)) in
  exists s' num, numele_ok num (l ++ m ++ r) /\
    memmove lp first tail (total (l ++ m ++ r) - 1 - tail + 1) =
      Ok (block (total (l ++ m ++ r)) num (body (l ++ r) ++ LP_EOF :: s')) /\
    total (l ++ m ++ r) - (tail - first) = total (l ++ r).
Proof.
  intros Hr first tail. destruct (repr_block _ _ Hr) as (num & slack & Hlp & Hn).
  pose proof (total_split l m r) as Ht. pose proof (total_split l [] r) as Ht'. cbn [app] in Ht'.
  change (zlen (body [])) with 0 in Ht'.
  set (tot := total (l ++ m ++ r)) in *. set (P := block tot num (body l)).
  assert (zlen P = first) as HP.
  { unfold P, first, offset. by rewrite zlen_block, take_app_length. }
  assert (first = 6 + zlen (body l)) as Hf by (rewrite <- HP; apply zlen_block).
  assert (tail = first + zlen (body m)) as Htl.
  { unfold tail, offset. rewrite (app_assoc l m r), take_app_length, body_app, zlen_app. lia. }
  assert (lp = P ++ body m ++ (body r ++ [LP_EOF]) ++ slack) as HlpP.
  { unfold P. rewrite Hlp, !body_app, <- block_app. f_equal. by rewrite <- !app_assoc. }
  destruct (memmove_splice P (body m) (body r ++ [LP_EOF]) slack 0 first tail (tot - 1 - tail + 1))
    as (x & s' & Hm & Hx); rewrite ?zlen_app, ?zlen_one; try lia.
  { pose proof (zlen_nonneg (body m)). pose proof (zlen_nonneg slack). lia. }
  rewrite <- HlpP in Hm. exists s', num. split; [done|]. split; [|lia].
  rewrite Hm, (zlen_nil_inv x Hx). unfold P. cbn [app]. rewrite <- block_app.
  by rewrite body_app, <- !app_assoc.
Qed.

Lemma cut_total l m r : total (l ++ r) <= total (l ++ m ++ r).
Proof. unfold total. rewrite !body_app, !zlen_app. pose proof (zlen_nonneg (body m)). lia. Qed.

Lemma sub_count_ok es es' d tot num rest :
  numele_ok num es -> zlen es' = zlen es - d -> 0 <= d ->
  exists num', (if negb (num =? LP_HDR_NUMELE_UNKNOWN)
                then lpSetNumElements (block tot num rest) (u64 (num - d))
                else Ok (block tot num rest)) = Ok (block tot num' rest) /\ numele_ok num' es'.
Proof.
  intros Hn Hz Hd. pose proof (zlen_nonneg es'). unfold numele_ok in *.
  destruct (Z.eqb_spec num LP_HDR_NUMELE_UNKNOWN); cbn [negb]; [by eauto|].
  rewrite set_num_block, wrapU_small by (change (2 ^ 64) with 18446744073709551616; lia).
  eexists. split; [done|]. lia.
Qed.

(** What a pointer left at a boundary of the new list shows. *)
Lemma boundary_byte lp l r : lp_repr lp (l ++ r) ->
  exists b, rd1 lp (offset (l ++ r) (length l)) = Ok b /\ (b =? LP_EOF) = bool_decide (r = []).
Proof.
  intros Hr. destruct r as [|e r].
  - exists LP_EOF. rewrite app_nil_r in *. by rewrite (repr_eof _ _ Hr).
  - destruct (link_not_eof _ _ _ _ (repr_link lp _ (length l) e Hr ltac:(by apply list_lookup_middle)))
      as (b & Hb & Hne).
    exists b. split; [done|]. rewrite bool_decide_eq_false_2 by done. lia.
Qed.

Lemma offset_prefix l r r' : offset (l ++ r) (length l) = offset (l ++ r') (length l).
Proof. unfold offset. by rewrite !take_app_length. Qed.

Lemma delete_range_entry_ok lp es i num : lp_repr lp es -> (i < length es)%nat ->
  0 <= num < 2 ^ 64 ->
  exists lp', lpDeleteRangeWithEntry lp (offset es i) num =
      Ok (lp', if (0 <? num) && (Z.of_nat (length es) <=? Z.of_nat i + num) then None else Some (offset es i)) /\
    lp_repr lp' (take i es ++ drop (i + Z.to_nat num) es).
Proof.
  intros Hr Hi Hnum. unfold lpDeleteRangeWithEntry, lpBytes. rewrite (repr_total _ _ Hr). runr.
  destruct (Z.eqb_spec num 0) as [->|Hn0].
  { exists lp. split; [done|]. rewrite Nat.add_0_r, take_drop. done. }
  pose proof (repr_bytes _ _ Hr) as Hb. pose proof (repr_count _ _ Hr) as Hc.
  pose proof (chain_bound _ _ _ _ (repr_chain _ _ Hr)) as Hcb. rewrite ends_len in Hcb.
  rewrite (range_loop_ok lp es Hr) by (unfold zlen in *; lia). runr.
  set (k := Z.to_nat (Z.min num (zlen es - Z.of_nat i))).
  set (l := take i es). set (m := take k (drop i es)). set (r := drop (i + k) es).
  assert (es = l ++ m ++ r) as Hes.
  { unfold l, m, r. rewrite <- drop_drop. by rewrite !take_drop. }
  assert (length l = i) as Hl by (unfold l; rewrite length_take; lia).
  assert (length m = k) as Hm by (unfold m; rewrite length_take, length_drop; unfold k, zlen in *; lia).
  assert (drop (i + Z.to_nat num) es = r) as Hr'.
  { unfold r. destruct (Z.le_gt_cases num (zlen es - Z.of_nat i)).
    - unfold k. by rewrite Z.min_l by lia.
    - rewrite !drop_ge; [done | unfold k, zlen in *; lia..]. }
  rewrite Hr'. clearbody l m r. subst es.
  destruct (cut_block lp l m r Hr) as (s' & num0 & Hn & Hmv & Ht).
  rewrite length_app, Hl, Hm in *. rewrite Hmv. runr.
  pose proof (total_range _ _ Hr) as Hrange.
  assert (7 <= total (l ++ r)) by (unfold total; pose proof (zlen_nonneg (body (l ++ r))); lia).
  rewrite Ht, wrapU_small, set_total_block
    by (change (2 ^ 64) with 18446744073709551616; change (2 ^ 32) with 4294967296 in *;
        pose proof (cut_total l m r); lia). runr.
  rewrite get_num_block by (by eapply numele_range). runr. rewrite Z.add_0_l.
  destruct (sub_count_ok (l ++ m ++ r) (l ++ r) (Z.min num (zlen (l ++ m ++ r) - Z.of_nat i))
    (total (l ++ r)) num0 (body (l ++ r) ++ LP_EOF :: s') Hn) as (num' & -> & Hn').
  { rewrite !zlen_app in *. unfold k, zlen in *. rewrite !length_app in *. lia. }
  { unfold zlen. rewrite !length_app. lia. }
  runr. destruct (lp_shrink_ok (block (total (l ++ r)) num' (body (l ++ r) ++ LP_EOF :: s')) (l ++ r))
    as (lp' & -> & Hlp').
  { pose proof (r_valid _ _ Hr) as Hv. rewrite !Forall_app in Hv.
    apply block_repr; [done | rewrite Forall_app; tauto | pose proof (cut_total l m r); lia]. }
  runr. destruct (boundary_byte lp' l r Hlp') as (b & Hbd & Hbe). rewrite Hl in Hbd.
  assert (offset (l ++ m ++ r) i = offset (l ++ r) i) as Ho by (rewrite <- Hl; apply offset_prefix).
  rewrite Ho, Hbd. runr. rewrite Hbe.
  exists lp'. split; [|done].
  enough (bool_decide (r = []) = (0 <? num) && (Z.of_nat (length (l ++ m ++ r)) <=? Z.of_nat i + num)) as Hdec.
  { rewrite length_app, Hl in Hdec. by rewrite Hdec. }
  rewrite (proj2 (Z.ltb_lt 0 num)) by lia. cbn [andb]. rewrite !length_app.
  destruct (decide (r = [])) as [->|Hne].
  - rewrite bool_decide_eq_true_2 by done. symmetry. apply Z.leb_le. cbn [length].
    unfold k, zlen in *. rewrite !length_app in *. cbn [length] in *. lia.
  - rewrite bool_decide_eq_false_2 by done. symmetry. apply Z.leb_gt.
    destruct r; [done|]. unfold k, zlen in *. rewrite !length_app in *. cbn [length] in *. lia.
Qed.
(** Putting the end marker over element [k] keeps the first [k]. *)
Lemma truncate_ok lp es k : lp_repr lp es -> (k < length es)%nat -> zlen es < LP_HDR_NUMELE_UNKNOWN ->
  exists lp', (let* lp := wr1 lp (offset es k) LP_EOF in
    let* lp := lpSetTotalBytes lp (offset es k + 1) in
    let* lp := lpSetNumElements lp (Z.of_nat k) in lpShrinkToFit lp) = Ok lp' /\
    lp_repr lp' (take k es).
Proof.
  intros Hr Hk Hn. destruct (lookup_lt_is_Some_2 es k Hk) as [e He].
  pose proof (r_valid _ _ Hr) as Hv.
  destruct (size_bytes_ok e) as (b & t & Het & _); [rewrite Forall_lookup in Hv; eauto|].
  destruct (repr_block _ _ Hr) as (num & slack & Hlp & _).
  assert (exists rest, lp = block (total es) num (body (take k es)) ++ b :: rest) as (rest & ->).
  { rewrite Hlp, (body_middle es k e He). unfold entry. rewrite Het. cbn [app]. eexists. by rewrite <- app_assoc, block_app. }
  rewrite wr1_mid by (by rewrite zlen_block). runr. rewrite <- block_app, set_total_block. runr.
  rewrite set_num_block. runr.
  assert (offset es k + 1 = total (take k es)) as -> by done.
  apply lp_shrink_ok, block_repr.
  - right. unfold zlen in *. rewrite length_take. lia.
  - by apply Forall_take.
  - pose proof (total_range _ _ Hr). unfold total in *. pose proof (body_take_le es k). lia.
Qed.

(** The elements a range deletion leaves. *)
Definition remove_range {A} (index num : Z) (l : list A) : list A :=
  let k := norm_index (zlen l) index in
  if (0 <=? k) && (k <? zlen l) then take (Z.to_nat k) l ++ drop (Z.to_nat k + Z.to_nat num) l else l.

Lemma delete_range_ok lp es index num : lp_repr lp es ->
  LLONG_MIN <= index <= LLONG_MAX -> 0 <= num < 2 ^ 64 ->
  exists lp', lpDeleteRange lp index num = Ok lp' /\ lp_repr lp' (remove_range index num es).
Proof.
  intros Hr Hi Hnum. unfold lpDeleteRange, remove_range.
  destruct (repr_num _ _ Hr) as (numele & -> & Hn). runr.
  destruct (Z.eqb_spec num 0) as [->|Hn0].
  { exists lp. split; [done|]. cbv zeta. case_match; [|done]. by rewrite Nat.add_0_r, take_drop. }
  rewrite (repr_seek _ _ Hr) by done. runr. cbv zeta.
  set (k := norm_index (zlen es) index).
  destruct (Z.leb_spec 0 k) as [Hk0|]; cbn [andb]; [|by exists lp].
  destruct (Z.ltb_spec k (zlen es)) as [Hk|]; [|by exists lp].
  destruct (_ && (_ <=? num)) eqn:Ecut.
  - apply andb_prop in Ecut as [Eknown Ecut].
    destruct (Z.eqb_spec numele LP_HDR_NUMELE_UNKNOWN); [done|]. cbn [negb andb] in *.
    destruct Hn as [|[-> Hlt]]; [done|].
    change (if index <? 0 then zlen es + index else index) with k in *.
    rewrite (wrapU_small 64 k), wrapU_small, Z.leb_le in Ecut
      by (change (2 ^ 64) with 18446744073709551616; lia).
    destruct (truncate_ok lp es (Z.to_nat k) Hr) as (lp' & Hrun & Hr'); [unfold zlen in *; lia | done|].
    rewrite Z2Nat.id in Hrun by lia. exists lp'. split; [done|].
    rewrite drop_ge by (unfold zlen in *; lia). by rewrite app_nil_r.
  - destruct (delete_range_entry_ok lp es (Z.to_nat k) num Hr) as (lp' & -> & Hr');
      [unfold zlen in *; lia | done|]. runr. by exists lp'.
Qed.

(** * Batches *)

Definition to_entry (x : lpval) : listpackEntry :=
  match x with
  | LStr s => {| le_sval := Some s; le_slen := zlen s; le_lval := 0 |}
  | LInt v => {| le_sval := None; le_slen := 0; le_lval := v |}
  end.

Lemma encode_get_type_ok s : val_ok (LStr s) ->
  exists ty intenc, lpEncodeGetType s (zlen s) = Ok (ty, intenc, zlen (encode_val (LStr s))) /\
    match ty with
    | LP_ENCODING_INT => intenc = encode_val (LStr s)
    | LP_ENCODING_STRING => str_header (zlen s) ++ s = encode_val (LStr s)
    end.
Proof.
  intros Hx. pose proof (canon_ok _ Hx) as Hc. unfold encode_val, lpEncodeGetType. cbn [canon] in *.
  destruct (str_to_int_ok s) as (r & Hs & _). rewrite Hs in *. destruct r as [v|]; runr.
  - destruct (encode_integer_shape v Hc) as (_ & Hl & _).
    destruct (lpEncodeIntegerGetType v) as [enc len]. cbn [fst snd] in *.
    exists LP_ENCODING_INT, enc. by rewrite Hl.
  - exists LP_ENCODING_STRING, []. split; [|done]. rewrite zlen_app, str_header_len.
    destruct Hx as [_ Hz]. pose proof (zlen_nonneg s).
    destruct (Z.ltb_spec (zlen s) 64); [|destruct (Z.ltb_spec (zlen s) 4096)];
      rewrite ?wrapU_small by lia; done.
Qed.

(** The record kept for one entry, and the store it leads to. *)
Definition ie_ok (x : lpval) (ie : listpackInsertEntry) : Prop :=
  ie_enclen ie = zlen (encode_val x) /\ ie_backlen ie = backlen (zlen (encode_val x)) /\
  ie_backlen_size ie = zlen (backlen (zlen (encode_val x))) /\
  match ie_enctype ie, x with
  | LP_ENCODING_INT, _ => ie_intenc ie = encode_val x
  | LP_ENCODING_STRING, LStr s => str_header (zlen s) ++ s = encode_val x
  | LP_ENCODING_STRING, LInt _ => False
  end.

Lemma batch_encode_ok xs : forall a, Forall val_ok xs -> 0 <= a ->
  a + zlen (body (map encode_val xs)) < 2 ^ 64 ->
  exists enc, batch_encode (map to_entry xs) a = Ok (enc, a + zlen (body (map encode_val xs))) /\
    Forall2 ie_ok xs enc.
Proof.
  induction xs as [|x xs IH]; intros a Hv Ha Hb.
  { exists []. cbn. rewrite Z.add_0_r. done. }
  apply Forall_cons_1 in Hv as [Hx Hv]. cbn [map batch_encode] in *.
  rewrite body_cons, zlen_app, entry_len in *.
  pose proof (zlen_nonneg (body (map encode_val xs))). pose proof (zlen_nonneg (encode_val x)).
  pose proof (backlen_bytes_range (zlen (encode_val x))).
  assert (exists ty intenc, match le_sval (to_entry x) with
    | Some sval => lpEncodeGetType sval (le_slen (to_entry x))
    | None => let '(intenc, enclen) := lpEncodeIntegerGetType (le_lval (to_entry x)) in
        Ok (LP_ENCODING_INT, intenc, enclen) end = Ok (ty, intenc, zlen (encode_val x)) /\
    match ty, x with
    | LP_ENCODING_INT, _ => intenc = encode_val x
    | LP_ENCODING_STRING, LStr s => str_header (zlen s) ++ s = encode_val x
    | LP_ENCODING_STRING, LInt _ => False
    end) as (ty & intenc & -> & Hty).
  { destruct x as [s|v]; cbn [to_entry le_sval le_slen le_lval].
    - destruct (encode_get_type_ok s Hx) as (ty & intenc & -> & Hty). exists ty, intenc. by destruct ty.
    - destruct (encode_integer_shape v Hx) as (_ & Hl & _). unfold encode_val. cbn [canon].
      destruct (lpEncodeIntegerGetType v) as [enc len]. cbn [fst snd] in *.
      exists LP_ENCODING_INT, enc. by rewrite Hl. }
  runr. rewrite encode_backlen, !wrapU_small by (rewrite ?wrapU_small; lia).
  destruct (IH (a + zlen (encode_val x) + lpEncodeBacklenBytes (zlen (encode_val x)))) as (enc & -> & Henc);
    [done | lia.. |].
  runr. eexists. split; [do 2 f_equal; lia|]. constructor; [|done].
  unfold ie_ok. cbn. rewrite backlen_len. destruct ty, x; done.
Qed.

(** Where the last entry of a batch goes. *)
Fixpoint last_off (o : Z) (es : list (list Z)) (newp : Z) : Z :=
  match es with
  | [] => newp
  | e :: es => last_off (o + zlen (entry e)) es o
  end.

Lemma batch_store_ok xs : forall enc p y r newp, Forall2 ie_ok xs enc ->
  zlen y = zlen (body (map encode_val xs)) ->
  batch_store (p ++ y ++ r) (zlen p) (map to_entry xs) enc newp =
    Ok (p ++ body (map encode_val xs) ++ r, last_off (zlen p) (map encode_val xs) newp).
Proof.
  induction xs as [|x xs IH]; intros enc p y r newp Hie Hy; inversion Hie as [|? ie ? enc' Hx Hie']; subst.
  { cbn. by rewrite (zlen_nil_inv y Hy). }
  cbn [map batch_store last_off]. cbn [map] in Hy. rewrite body_cons in *.
  destruct Hx as (Hlen & Hbl & Hbs & Hty). rewrite Hlen, Hbl, Hbs.
  rewrite zlen_app, entry_len, <- backlen_len in Hy.
  set (e := encode_val x) in *. set (bl := backlen (zlen e)) in *.
  pose proof (zlen_nonneg e). pose proof (zlen_nonneg bl). pose proof (zlen_nonneg (body (map encode_val xs))).
  destruct (split_at y (zlen e)) as (y1 & y' & -> & Hy1 & Hy'); [lia|].
  destruct (split_at y' (zlen bl)) as (y2 & y3 & -> & Hy2 & Hy3); [lia|]. rewrite <- !app_assoc.
  assert (match ie_enctype ie, le_sval (to_entry x) with
    | LP_ENCODING_INT, _ => let* bs := rdn (ie_intenc ie) 0 (zlen e) in wrn (p ++ y1 ++ y2 ++ y3 ++ r) (zlen p) bs
    | LP_ENCODING_STRING, Some sval => lpEncodeString (p ++ y1 ++ y2 ++ y3 ++ r) (zlen p) sval (le_slen (to_entry x))
    | LP_ENCODING_STRING, None => Err NullDeref end = Ok (p ++ e ++ y2 ++ y3 ++ r)) as ->.
  { destruct (ie_enctype ie).
    - rewrite Hty, rdn_all by done. runr. by apply wrn_mid.
    - destruct x as [s|]; [|done]. cbn [to_entry le_sval le_slen].
      rewrite encode_string_ok; rewrite ?Hty; done. }
  runr. rewrite rdn_all by done. runr.
  rewrite (app_assoc p e), (wrn_mid (p ++ e) y2 bl) by (rewrite ?zlen_app; done). runr.
  replace (zlen p + zlen e + zlen bl) with (zlen ((p ++ e) ++ bl)) by (rewrite !zlen_app; lia).
  rewrite (app_assoc (p ++ e) bl), IH by (done || lia).
  rewrite entry_len, <- backlen_len. fold bl. unfold entry. fold bl.
  rewrite <- !app_assoc, !zlen_app, Z.add_assoc. done.
Qed.

Lemma skip_after lp es i : lp_repr lp es -> (i < length es)%nat ->
  lpSkip lp (offset es i) = Ok (offset es (S i)) /\ ASSERT_INTEGRITY lp (offset es (S i)) = Ok tt.
Proof.
  intros Hr Hi. destruct (lookup_lt_is_Some_2 es i Hi) as [e He].
  pose proof (repr_link lp es i e Hr He) as Hl. split; [exact (link_skip _ _ _ _ Hl)|].
  pose proof (link_lt _ _ _ _ Hl). unfold ASSERT_INTEGRITY. rewrite (repr_total _ _ Hr). runr.
  dec_bool. done.
Qed.

Lemma add_count_ok es es' d tot num rest :
  numele_ok num es -> zlen es' = zlen es + d -> 0 <= d < 2 ^ 32 ->
  exists num', (if negb (num =? LP_HDR_NUMELE_UNKNOWN) then
      if d >? LP_HDR_NUMELE_UNKNOWN - num then lpSetNumElements (block tot num rest) LP_HDR_NUMELE_UNKNOWN
      else lpSetNumElements (block tot num rest) (u32 (num + d))
    else Ok (block tot num rest)) = Ok (block tot num' rest) /\ numele_ok num' es'.
Proof.
  intros Hn Hz Hd. pose proof (zlen_nonneg es). unfold numele_ok in *.
  destruct (Z.eqb_spec num LP_HDR_NUMELE_UNKNOWN); cbn [negb]; [by eauto|].
  rewrite !set_num_block, Z.gtb_ltb. destruct (Z.ltb_spec (LP_HDR_NUMELE_UNKNOWN - num) d); [by eauto|].
  eexists. split; [done|]. rewrite wrapU_small by (change (2 ^ 32) with 4294967296; lia). lia.
Qed.

Lemma encode_all_valid xs : Forall val_ok xs -> Forall valid_enc (map encode_val xs).
Proof. induction 1; cbn; constructor; [by apply encode_val_ok | done]. Qed.

Lemma last_off_eq es : forall o newp, es <> [] ->
  last_off o es newp = o + zlen (body (take (length es - 1) es)).
Proof.
  induction es as [|e es IH]; intros o newp Hne; [done|]. cbn [last_off].
  destruct es as [|e' es]; [cbn [last_off length Nat.sub take]; unfold zlen; cbn; lia|].
  rewrite IH by done. cbn [length]. replace (S (S (length es)) - 1)%nat with (S (S (length es) - 1)) by lia.
  cbn [take]. rewrite (body_cons e), zlen_app. lia.
Qed.

Lemma batch_insert_ok lp es w i xs :
  lp_repr lp es -> w <> LP_REPLACE -> pos_ok w i es -> xs <> [] -> Forall val_ok xs ->
  total es + zlen (body (map encode_val xs)) < 2 ^ 64 -> zlen xs < 2 ^ 32 ->
  let i' := ins_pos w i in
  let es' := take i' es ++ map encode_val xs ++ drop i' es in
  let run := lpBatchInsert lp (offset es i) w (map to_entry xs) in
  if total es' >? UINT32_MAX then run = Ok None
  else exists lp', run = Ok (Some (lp', offset es' (i' + length xs - 1))) /\ lp_repr lp' es'.
Proof.
  intros Hr Hw Hi Hxs Hv Hmax Hcnt i' es' run. unfold run, lpBatchInsert.
  assert (0 < zlen xs) as Hpos by (destruct xs; [done | rewrite zlen_cons; pose proof (zlen_nonneg xs); lia]).
  assert (zlen (map to_entry xs) = zlen xs) as -> by (unfold zlen; by rewrite length_map).
  rewrite (proj2 (Z.gtb_lt (zlen xs) 0)) by lia.
  assert ((i' <= length es)%nat) as Hi' by (unfold i'; destruct w; cbn in *; lia).
  assert (match w with LP_AFTER => let* p := lpSkip lp (offset es i) in
      let* _ := ASSERT_INTEGRITY lp p in Ok p | _ => Ok (offset es i) end = Ok (offset es i')) as ->.
  { unfold i'. destruct w; cbn [ins_pos]; [done| |done].
    destruct (skip_after lp es i Hr Hi) as [-> Ha]. runr. by rewrite Ha. }
  destruct (batch_encode_ok xs 0) as (enc & -> & Henc); [done | done | pose proof (total_range _ _ Hr); lia |].
  assert (match w with LP_REPLACE => false | _ => true end = true) as -> by (by destruct w).
  runr. rewrite (repr_total _ _ Hr). runr. rewrite Z.add_0_l.
  set (l := take i' es). set (r := drop i' es). assert (length l = i') as Hl by (unfold l; rewrite length_take; lia).
  assert (es = l ++ r) as Hes by (unfold l, r; by rewrite take_drop).
  set (N := map encode_val xs) in *. change es' with (l ++ N ++ r). clear run. clearbody l r.
  pose proof (total_split l N r) as Ht. pose proof (total_split l [] r) as Ht0.
  cbn [app] in Ht0. rewrite <- Hes in Ht0. change (zlen (body [])) with 0 in Ht0.
  pose proof (total_range _ _ Hr) as Hrange. pose proof (zlen_nonneg (body N)).
  replace (total es + zlen (body N)) with (total (l ++ N ++ r)) in * by lia.
  rewrite wrapU_small by lia.
  destruct (total (l ++ N ++ r) >? UINT32_MAX) eqn:Ebig; [done|]. rewrite Z.gtb_ltb, Z.ltb_ge in Ebig.
  destruct (repr_block _ _ Hr) as (num & slack & Hlp & Hnum).
  set (P := block (total es) num (body l)).
  assert (offset es i' = zlen P) as HP.
  { unfold P. rewrite zlen_block. unfold offset. by rewrite Hes, <- Hl, take_app_length. }
  assert (lp = P ++ [] ++ (body r ++ [LP_EOF]) ++ slack) as HlpP.
  { unfold P. rewrite Hlp, <- block_app. f_equal. rewrite Hes, body_app. by rewrite <- !app_assoc. }
  assert (zlen P = 6 + zlen (body l)) as HzP by apply zlen_block.
  assert (zlen (body r ++ [LP_EOF]) = zlen (body r) + 1) as HT by (by rewrite zlen_app).
  destruct (splice_block P [] (body r ++ [LP_EOF]) slack (zlen (body N)) (total es) (total (l ++ N ++ r))
    (zlen P + zlen (body N)) (zlen P) (total es - zlen P)) as (buf & Hmove & x & s' & Hbuf & Hx);
    try (change (zlen (@nil Z)) with 0); try lia.
  rewrite <- HlpP in Hmove. rewrite HP, Hmove. runr.
  rewrite (proj2 (Z.ltb_ge (total (l ++ N ++ r)) (total es))) in Hbuf by lia. rewrite Hbuf.
  rewrite (batch_store_ok xs enc P x _ (zlen P) Henc Hx). runr. unfold P. rewrite <- block_app.
  fold N P. rewrite get_num_block by (by eapply numele_range). runr.
  destruct (add_count_ok es (l ++ N ++ r) (zlen xs) (total es) num
    (body l ++ body N ++ (body r ++ [LP_EOF]) ++ s') Hnum) as (num' & -> & Hnum').
  { rewrite Hes, !zlen_app. unfold N, zlen. rewrite length_map. lia. }
  { lia. }
  runr. rewrite set_total_block. runr. eexists. split.
  - do 3 f_equal. rewrite last_off_eq by (unfold N; by destruct xs).
    rewrite HzP. unfold offset. unfold N at 1. rewrite length_map.
    replace (i' + length xs - 1)%nat with (length l + (length xs - 1))%nat by (destruct xs; [done | cbn; lia]).
    rewrite take_app_add', body_app, zlen_app, take_app_le by (unfold N; rewrite ?length_map; lia). lia.
  - replace (body l ++ body N ++ (body r ++ [LP_EOF]) ++ s') with (body (l ++ N ++ r) ++ LP_EOF :: s')
      by (rewrite !body_app, <- !app_assoc; done).
    pose proof (r_valid _ _ Hr) as Hvr. rewrite Hes, Forall_app in Hvr.
    apply block_repr; [done | | lia]. rewrite !Forall_app. split_and!; [tauto| |tauto].
    by apply encode_all_valid.
Qed.

(** ** lpBatchDelete *)

(** Moving [t] down over [r] leaves what follows [t] alone. *)
Lemma memmove_down (p r t s : list Z) dst src n :
  dst = zlen p -> src = zlen p + zlen r -> n = zlen t ->
  exists x, memmove (p ++ r ++ t ++ s) dst src n = Ok (p ++ t ++ x ++ s) /\ zlen x = zlen r.
Proof.
  intros -> -> ->. unfold memmove. rewrite (app_assoc p r), rdn_mid by (rewrite ?zlen_app; done). runr.
  rewrite <- app_assoc, (app_assoc r t). pose proof (zlen_nonneg r). pose proof (zlen_nonneg t).
  destruct (split_at (r ++ t) (zlen t)) as (u & v & Huv & Hu & Hv); [rewrite zlen_app; lia|].
  rewrite Huv, <- app_assoc, wrn_mid by done. exists v. split; [done|]. rewrite zlen_app in Hv. lia.
Qed.

(** The entries to delete, each with the run of entries kept after it. *)
Definition flat (gs : list (list Z * list (list Z))) : list (list Z) :=
  concat (map (fun g => fst g :: snd g) gs).
Definition kept (gs : list (list Z * list (list Z))) : list (list Z) := concat (map snd gs).

Fixpoint group_offs (o : Z) (gs : list (list Z * list (list Z))) : list Z :=
  match gs with
  | [] => []
  | g :: gs => o :: group_offs (o + zlen (entry (fst g)) + zlen (body (snd g))) gs
  end.

Lemma body_pos es : es <> [] -> 0 < zlen (body es).
Proof.
  destruct es as [|e es]; [done|]. intros _. rewrite body_cons, zlen_app, entry_len.
  pose proof (zlen_nonneg e). pose proof (backlen_bytes_range (zlen e)). pose proof (zlen_nonneg (body es)). lia.
Qed.

Lemma lp_flat_cons e seg gs : body (flat ((e, seg) :: gs)) = entry e ++ body seg ++ body (flat gs).
Proof. unfold flat. cbn [map concat fst snd]. cbn [app]. by rewrite body_cons, body_app. Qed.

Lemma kept_cons e seg gs : body (kept ((e, seg) :: gs)) = body seg ++ body (kept gs).
Proof. unfold kept. cbn [map concat snd]. by rewrite body_app. Qed.

(** The two reads at an entry that is about to be deleted. *)
Lemma skip_mid a e c : valid_enc e ->
  exists b, rd1 (a ++ entry e ++ c) (zlen a) = Ok b /\ b <> LP_EOF /\
    lpSkip (a ++ entry e ++ c) (zlen a) = Ok (zlen a + zlen (entry e)).
Proof.
  intros He. destruct (size_bytes_ok e He) as (b & t & Het & Hb & _). exists b. split_and!.
  - unfold entry. rewrite Het. cbn [app]. by apply rd1_mid.
  - lia.
  - unfold lpSkip, entry. rewrite <- app_assoc, size_unsafe_ok by done. runr.
    fold (entry e). by rewrite entry_len.
Qed.

Lemma batch_delete_loop_ok gs : forall a h slack lp_end,
  gs <> [] -> Forall valid_enc (flat gs) ->
  lp_end = zlen a + zlen h + zlen (body (flat gs)) + 1 ->
  exists s', batch_delete_loop (a ++ h ++ body (flat gs) ++ LP_EOF :: slack) lp_end (zlen a)
      (group_offs (zlen a + zlen h) gs) =
    Ok (a ++ body (kept gs) ++ LP_EOF :: s', zlen a + zlen (body (kept gs)) + 1).
Proof.
  induction gs as [|[e seg] gs IH]; intros a h slack lp_end Hne Hv Hend; [done|].
  rewrite lp_flat_cons, !zlen_app in Hend.
  change (flat ((e, seg) :: gs)) with ((e :: seg) ++ flat gs) in Hv. rewrite Forall_app in Hv.
  destruct Hv as [Hv Hvgs]. apply Forall_cons_1 in Hv as [He Hseg].
  rewrite lp_flat_cons, kept_cons. cbn [group_offs batch_delete_loop fst snd].
  destruct (skip_mid (a ++ h) e (body seg ++ body (flat gs) ++ LP_EOF :: slack) He) as (b & Hrd & Hb & Hsk).
  rewrite zlen_app in Hrd, Hsk. rewrite <- !app_assoc in *. rewrite Hrd. runr.
  rewrite (proj2 (Z.eqb_neq b LP_EOF)) by done. cbn [negb]. runr. rewrite Hsk. runr.
  pose proof (zlen_nonneg (body seg)). pose proof (zlen_nonneg (body (flat gs))).
  destruct gs as [|g gs].
  - cbn [group_offs]. rewrite (bool_decide_eq_true_2 ([] = [])) by done. cbn [negb andb].
    change (zlen (body (flat []))) with 0 in Hend.
    rewrite (proj2 (Z.gtb_lt lp_end _)) by lia. runr.
    destruct (memmove_down a (h ++ entry e) (body seg ++ [LP_EOF]) slack (zlen a)
      (zlen a + zlen h + zlen (entry e)) (lp_end - (zlen a + zlen h + zlen (entry e))))
      as (x & Hm & _); rewrite ?zlen_app, ?zlen_one; [done | lia..|].
    rewrite <- !app_assoc in Hm. cbn [app] in Hm. cbn [flat map concat body app]. rewrite Hm. runr.
    exists (x ++ slack). cbn [kept map concat body app]. rewrite !app_nil_r. cbn [batch_delete_loop].
    change (zlen (@nil Z)) with 0. do 2 f_equal. lia.
  - destruct g as [e' seg']. cbn [group_offs fst snd].
    set (o' := zlen a + zlen h + zlen (entry e) + zlen (body seg)).
    rewrite bool_decide_eq_false_2 by done. cbn [negb andb].
    destruct seg as [|e1 seg].
    + change (body []) with (@nil Z) in *. change (zlen (@nil Z)) with 0 in *.
      assert (o' = zlen a + zlen h + zlen (entry e)) as Ho' by (unfold o'; lia).
      rewrite (proj2 (Z.eqb_eq _ _)) by lia. cbn [app].
      destruct (IH a (h ++ entry e) slack lp_end) as (s' & Hs'); [done | done | rewrite zlen_app; lia |].
      exists s'. rewrite zlen_app, Z.add_assoc, <- Ho', <- !app_assoc in Hs'. exact Hs'.
    + set (sg := e1 :: seg) in *. pose proof (body_pos sg ltac:(done)) as Hpos.
      rewrite (proj2 (Z.eqb_neq _ o')), (proj2 (Z.gtb_lt o' _)) by (unfold o'; lia). runr.
      destruct (memmove_down a (h ++ entry e) (body sg) (body (flat ((e', seg') :: gs)) ++ LP_EOF :: slack)
        (zlen a) (zlen a + zlen h + zlen (entry e)) (o' - (zlen a + zlen h + zlen (entry e))))
        as (x & Hm & Hx); rewrite ?zlen_app in *; [done | lia | unfold o'; lia |].
      rewrite <- !app_assoc in Hm. rewrite Hm. runr.
      destruct (IH (a ++ body sg) x slack lp_end) as (s' & Hs'); [done | done | rewrite zlen_app; lia |].
      exists s'. rewrite zlen_app in Hs'. rewrite <- !app_assoc in *.
      replace (zlen a + (o' - (zlen a + zlen h + zlen (entry e)))) with (zlen a + zlen (body sg)) by (unfold o'; lia).
      replace (zlen a + zlen (body sg) + zlen x) with o' in Hs' by (unfold o'; lia).
      cbn [group_offs fst snd] in Hs'. rewrite Hs'. do 2 f_equal. lia.
Qed.

Lemma group_offs_len gs : forall o, zlen (group_offs o gs) = zlen gs.
Proof. induction gs; intros o; [done|]. cbn [group_offs]. by rewrite !zlen_cons, IHgs. Qed.

Lemma flat_len gs : zlen (flat gs) = zlen (kept gs) + zlen gs.
Proof.
  induction gs as [|[e seg] gs IH]; [done|]. unfold flat, kept in *. cbn [map concat fst snd].
  cbn [app]. rewrite !zlen_cons, !zlen_app, IH. lia.
Qed.

Lemma kept_valid gs : Forall valid_enc (flat gs) -> Forall valid_enc (kept gs).
Proof.
  unfold flat, kept. induction gs as [|[e seg] gs IH]; [done|]. cbn [map concat fst snd app].
  rewrite list.Forall_cons, !Forall_app. tauto.
Qed.

Lemma kept_shorter gs : zlen (body (kept gs)) <= zlen (body (flat gs)).
Proof.
  induction gs as [|[e seg] gs IH]; [done|]. rewrite lp_flat_cons, kept_cons, !zlen_app.
  pose proof (zlen_nonneg (entry e)). lia.
Qed.

Lemma batch_delete_ok lp l gs : lp_repr lp (l ++ flat gs) ->
  exists lp', lpBatchDelete lp (group_offs (offset (l ++ flat gs) (length l)) gs) = Ok lp' /\
    lp_repr lp' (l ++ kept gs).
Proof.
  intros Hr. set (o := offset (l ++ flat gs) (length l)).
  assert (o = 6 + zlen (body l)) as Ho by (unfold o, offset; by rewrite take_app_length).
  destruct gs as [|[e seg] gs0]; [by exists lp|]. set (gs := (e, seg) :: gs0) in *.
  unfold lpBatchDelete. destruct (group_offs o gs) as [|dst ps'] eqn:Eps; [done|].
  assert (dst = o) as -> by (unfold gs in Eps; cbn in Eps; congruence). rewrite <- Eps. clear ps' Eps.
  rewrite (repr_total _ _ Hr). runr.
  pose proof (repr_eof _ _ Hr) as Heof. rewrite offset_end in Heof. rewrite Heof. runr. cbn [Z.eqb Pos.eqb]. runr.
  destruct (repr_block _ _ Hr) as (num & slack & Hlp & Hn).
  pose proof (r_valid _ _ Hr) as Hv. rewrite Forall_app in Hv. destruct Hv as [Hvl Hvg].
  pose proof (total_range _ _ Hr) as Hrange.
  assert (total (l ++ flat gs) = zlen (block (total (l ++ flat gs)) num (body l)) + zlen (@nil Z) +
    zlen (body (flat gs)) + 1) as Hend.
  { rewrite zlen_block. change (zlen (@nil Z)) with 0. unfold total. rewrite body_app, zlen_app. lia. }
  destruct (batch_delete_loop_ok gs (block (total (l ++ flat gs)) num (body l)) [] slack _ ltac:(done) Hvg Hend)
    as (s' & Hloop).
  rewrite zlen_block in Hloop. change (zlen (@nil Z)) with 0 in Hloop. rewrite Z.add_0_r, <- Ho in Hloop.
  rewrite body_app, <- app_assoc, block_app in Hlp. rewrite app_nil_l, <- Hlp in Hloop. rewrite Hloop. runr.
  pose proof (kept_shorter gs) as Hks.
  assert (total (l ++ kept gs) = o + zlen (body (kept gs)) + 1) as Htk.
  { unfold total. rewrite body_app, zlen_app. lia. }
  assert (total (l ++ kept gs) <= total (l ++ flat gs)) as Hle.
  { unfold total. rewrite !body_app, !zlen_app. lia. }
  replace (total (l ++ flat gs) - (total (l ++ flat gs) - (o + zlen (body (kept gs)) + 1)))
    with (total (l ++ kept gs)) by lia.
  rewrite <- block_app.
  assert (rd1 (block (total (l ++ flat gs)) num (body l ++ body (kept gs) ++ LP_EOF :: s'))
    (total (l ++ kept gs) - 1) = Ok LP_EOF) as ->.
  { rewrite app_assoc, block_app. apply rd1_mid. rewrite zlen_block, zlen_app. lia. }
  runr. cbn [Z.eqb Pos.eqb]. runr. rewrite set_total_block. runr.
  rewrite get_num_block by (by eapply numele_range). runr.
  destruct (sub_count_ok (l ++ flat gs) (l ++ kept gs) (zlen (group_offs o gs)) (total (l ++ kept gs)) num
    (body l ++ body (kept gs) ++ LP_EOF :: s') Hn) as (num' & -> & Hn').
  { rewrite group_offs_len, !zlen_app, flat_len. lia. }
  { apply zlen_nonneg. }
  runr. rewrite app_assoc, <- body_app. apply lp_shrink_ok, block_repr;
    [done | rewrite Forall_app; split; [done | by apply kept_valid] | lia].
Qed.

(** * Merging *)

Lemma merge_num es1 es2 :
  numele_ok (if zlen es1 + zlen es2 <? 65535 then zlen es1 + zlen es2 else 65535) (es1 ++ es2).
Proof. unfold numele_ok. rewrite zlen_app. case_bool; lia. Qed.

(** The larger block is the first: the second's entries go behind it. *)
Lemma merge_append lp1 es1 lp2 es2 : lp_repr lp1 es1 -> lp_repr lp2 es2 ->
  exists n s', (let* bs := rdn lp2 LP_HDR_SIZE (total es2 - LP_HDR_SIZE) in
      wrn (lp_realloc lp1 (total (es1 ++ es2))) (total es1 - 1) bs) =
    Ok (block (total es1) n (body (es1 ++ es2) ++ LP_EOF :: s')).
Proof.
  intros Hr1 Hr2.
  destruct (repr_block _ _ Hr1) as (n1 & s1 & Hl1 & _). destruct (repr_block _ _ Hr2) as (n2 & s2 & Hl2 & _).
  pose proof (zlen_nonneg (body es2)).
  destruct (realloc_keep (block (total es1) n1 (body es1)) (LP_EOF :: s1) (total (es1 ++ es2)))
    as (t & Htgt & Htl).
  { rewrite zlen_block. unfold total. rewrite body_app, zlen_app. lia. }
  rewrite <- block_app, <- Hl1 in Htgt. rewrite Htgt.
  assert (rdn lp2 LP_HDR_SIZE (total es2 - LP_HDR_SIZE) = Ok (body es2 ++ [LP_EOF])) as ->.
  { rewrite Hl2. change (LP_EOF :: s2) with ([LP_EOF] ++ s2). unfold block.
    rewrite (app_assoc (le_bytes 4 _)), (app_assoc (body es2)). apply rdn_mid.
    - rewrite zlen_app, !zlen_le_bytes. done.
    - rewrite zlen_app, zlen_one. unfold total. lia. }
  runr. rewrite zlen_app, zlen_block in Htl.
  destruct (split_at t (zlen (body es2) + 1)) as (u & v & -> & Hu & _).
  { unfold total in Htl. rewrite body_app, zlen_app in Htl. lia. }
  rewrite wrn_mid by (rewrite ?zlen_block, ?zlen_app, ?zlen_one; unfold total; lia).
  exists n1, v. by rewrite <- block_app, body_app, <- !app_assoc.
Qed.

(** The larger block is the second: its entries make room for the first's. *)
Lemma merge_prepend lp1 es1 lp2 es2 : lp_repr lp1 es1 -> lp_repr lp2 es2 ->
  exists n s', (let* target := memmove (lp_realloc lp2 (total (es1 ++ es2))) (total es1 - 1) LP_HDR_SIZE
        (total es2 - LP_HDR_SIZE) in
      let* bs := rdn lp1 0 (total es1 - 1) in wrn target 0 bs) =
    Ok (block (total es1) n (body (es1 ++ es2) ++ LP_EOF :: s')).
Proof.
  intros Hr1 Hr2.
  destruct (repr_block _ _ Hr1) as (n1 & s1 & Hl1 & _). destruct (repr_block _ _ Hr2) as (n2 & s2 & Hl2 & _).
  pose proof (zlen_nonneg (body es1)).
  assert (total (es1 ++ es2) = 7 + zlen (body es1) + zlen (body es2)) as Ht.
  { unfold total. rewrite body_app, zlen_app. lia. }
  destruct (realloc_keep (block (total es2) n2 (body es2 ++ [LP_EOF])) s2 (total (es1 ++ es2)))
    as (t & Htgt & Htl).
  { rewrite zlen_block, zlen_app, zlen_one. lia. }
  rewrite <- block_app, <- app_assoc in Htgt. cbn [app] in Htgt. rewrite <- Hl2 in Htgt. rewrite Htgt.
  rewrite <- block_app in *. unfold block at 1. unfold block in Htl. rewrite app_assoc in *.
  set (h := le_bytes 4 (total es2) ++ le_bytes 2 n2) in *.
  assert (zlen h = LP_HDR_SIZE) as Hh by (unfold h; by rewrite zlen_app, !zlen_le_bytes).
  destruct (memmove_splice h [] (body es2 ++ [LP_EOF]) t (zlen (body es1)) (total es1 - 1) LP_HDR_SIZE
    (total es2 - LP_HDR_SIZE)) as (x & s' & Hm & Hx);
    [done | cbn [app]; rewrite zlen_app, zlen_one; lia | unfold total; lia
    | change (zlen (@nil Z)) with 0; lia | rewrite zlen_app, zlen_one; unfold total; lia |].
  cbn [app] in Hm. rewrite Hm. runr.
  rewrite Hl1, block_app, rdn_head by (rewrite zlen_block; unfold total; lia). runr.
  rewrite (app_assoc h x), wrn_head by (rewrite zlen_block, zlen_app; lia).
  exists n1, s'. by rewrite <- block_app, body_app, <- !app_assoc.
Qed.

Lemma merge_ok lp1 es1 lp2 es2 : lp_repr lp1 es1 -> lp_repr lp2 es2 ->
  if total (es1 ++ es2) <? UINT32_MAX then
    exists lp', lp_repr lp' (es1 ++ es2) /\
      lpMerge (Some lp1) (Some lp2) =
        Ok (Some (if total es2 <=? total es1 then (Some lp', None) else (None, Some lp')))
  else lpMerge (Some lp1) (Some lp2) = Err AssertFailed.
Proof.
  intros Hr1 Hr2. unfold lpMerge, lpBytes. rewrite (repr_total _ _ Hr1), (repr_total _ _ Hr2). runr.
  destruct (repr_length _ _ Hr1) as (lp1' & -> & Hr1' & _).
  destruct (repr_length _ _ Hr2) as (lp2' & -> & Hr2' & _). runr. clear Hr1 Hr2 lp1 lp2.
  pose proof (total_range _ _ Hr1'). pose proof (total_range _ _ Hr2').
  assert (total es1 + total es2 - LP_HDR_SIZE - 1 = total (es1 ++ es2)) as Ht.
  { unfold total. rewrite body_app, zlen_app. lia. }
  assert (7 <= total (es1 ++ es2)) by (unfold total; pose proof (zlen_nonneg (body (es1 ++ es2))); lia).
  rewrite Ht, wrapU_small by (change (2 ^ 64) with 18446744073709551616; change (2 ^ 32) with 4294967296 in *; lia).
  rewrite Z.geb_leb.
  assert (Forall valid_enc (es1 ++ es2)) as Hv by (apply Forall_app; split; [apply Hr1' | apply Hr2']).
  destruct (Z.leb_spec (total es2) (total es1));
    (destruct (Z.ltb_spec (total (es1 ++ es2)) UINT32_MAX); [|done]); runr.
  - destruct (merge_append lp1' es1 lp2' es2 Hr1' Hr2') as (n & s' & ->). runr.
    rewrite set_num_block. runr. rewrite set_total_block. runr.
    eexists. split; [|done]. apply block_repr; [apply merge_num | done | lia].
  - destruct (merge_prepend lp1' es1 lp2' es2 Hr1' Hr2') as (n & s' & ->). runr.
    rewrite set_num_block. runr. rewrite set_total_block. runr.
    eexists. split; [|done]. apply block_repr; [apply merge_num | done | lia].
Qed.
End update_proofs.

(** * A sample *)

(** The listpack of "hi", 300 and "-7" (stored as an integer). *)
Definition sample_vals : list lpval := [LStr (chars "hi"); LInt 300; LStr (chars "-7")].
Definition sample_es : list (list Z) := map encode_val sample_vals.
Definition sample_lp : list Z := block (total sample_es) 3 (body sample_es ++ [LP_EOF]).

Lemma sample_vals_ok : Forall val_ok sample_vals.
Proof.
  repeat constructor; unfold is_byte; vm_compute; try discriminate; try (split; discriminate || reflexivity).
Qed.

Lemma lp_sample_repr : lp_repr sample_lp sample_es.
Proof.
  apply block_repr; [by right | apply encode_all_valid, sample_vals_ok | vm_compute; reflexivity].
Qed.
