(* ===== verification/ListpackFind.v ===== *)
(** ListpackFind: the searching code of Listpack.v (lpFindCbInternal, lpFind,
    lpCompare) against the entries of the listpack.

    The search is proved for any comparator that decides a property of the
    entries (keeping its user data in shape), and then for lpFindCmp, whose
    property is: the entry, as a string, equals the one searched for. *)

From Stdlib Require Import ZArith Lia Bool.
From stdpp Require Import base list numbers decidable.
From S2P Require Import Prelude Bytes Numbers Listpack ListpackProofs ListpackOps.

Local Open Scope Z_scope.

(** What the getters hand to a comparator. *)
Definition value_ptr (v : lp_vstr) : option Z := match v with InListpack off => Some off | _ => None end.

(** The positions a search that starts at [i], after [c] skips, looks at. *)
Definition probed (i : nat) (c skip : Z) (j : nat) : Prop :=
  exists m, 0 <= m /\ Z.of_nat j = Z.of_nat i + c + m * (skip + 1).

(** The answer of a search among the probed positions. *)
Definition found {A} (es : list A) (mt : A -> bool) (P : nat -> Prop) (r : option nat) : Prop :=
  match r with
  | Some j => P j /\ (exists e, es !! j = Some e /\ mt e = true) /\
      forall j' e, (j' < j)%nat -> P j' -> es !! j' = Some e -> mt e = false
  | None => forall j e, P j -> es !! j = Some e -> mt e = false
  end.

Lemma repr_get_size lp es i e z : lp_repr lp es -> es !! i = Some e ->
  lpGetWithSize lp (offset es i) None z =
    Ok (fst (reported (offset es i) e), snd (reported (offset es i) e), None, zlen (entry e)).
Proof.
  intros Hr He. destruct (repr_split _ _ Hr i e He) as (a & c & -> & <- & Hv).
  rewrite entry_len. by apply get_size_ok.
Qed.

Lemma repr_get lp es i e : lp_repr lp es -> es !! i = Some e ->
  lpGet lp (offset es i) None = Ok (fst (reported (offset es i) e), snd (reported (offset es i) e), None).
Proof.
  intros Hr He. destruct (repr_split _ _ Hr i e He) as (a & c & -> & <- & Hv). by apply get_ok.
Qed.

Section search.
Context (lp : list Z) (es : list (list Z)) (Hr : lp_repr lp es).
Context {U : Type} (cmp : Z -> U -> option Z -> Z -> result (Z * U)).
Context (Inv : U -> Prop) (mt : list Z -> bool).
Context (Hcmp : forall i e u, Inv u -> es !! i = Some e -> exists c u',
  cmp (offset es i) u (value_ptr (fst (reported (offset es i) e))) (snd (reported (offset es i) e)) = Ok (c, u') /\
  Inv u' /\ (c =? 0) = mt e).

Lemma assert_valid_boundary i : (i <= length es)%nat -> lpAssertValidEntry lp (total es) (offset es i) = Ok tt.
Proof.
  intros Hi. destruct (decide (i = length es)) as [->|Hne].
  - unfold lpAssertValidEntry, lpValidateNext. pose proof (total_range _ _ Hr).
    rewrite (repr_eof _ _ Hr), offset_end. dec_bool. done.
  - destruct (lookup_lt_is_Some_2 es i) as [e He]; [lia|].
    exact (link_valid _ _ _ _ (repr_link lp es i e Hr He)).
Qed.

Lemma boundary_range i : (i <= length es)%nat -> LP_HDR_SIZE <= offset es i < total es.
Proof.
  intros Hi. unfold offset, total. pose proof (body_take_le es i).
  pose proof (zlen_nonneg (body (take i es))). lia.
Qed.

Lemma probed_skip i c skip j : 0 < c -> probed (S i) (c - 1) skip j <-> probed i c skip j.
Proof.
  intros Hc. unfold probed. split; intros (m & Hm & Hj); exists m; lia.
Qed.

Lemma probed_after i skip j : 0 <= skip -> probed i 0 skip j <-> j = i \/ probed (S i) skip skip j.
Proof.
  intros Hs. unfold probed. split.
  - intros (m & Hm & Hj). destruct (Z.eq_dec m 0) as [->|]; [left; lia|].
    right. exists (m - 1). lia.
  - intros [->|(m & Hm & Hj)]; [exists 0; lia | exists (m + 1); lia].
Qed.

Lemma probed_ge i c skip j : 0 <= c -> 0 <= skip -> probed i c skip j -> (i <= j)%nat.
Proof. intros Hc Hs (m & Hm & Hj). pose proof (Z.mul_nonneg_nonneg m (skip + 1)). lia. Qed.

Lemma found_ext {A} (l : list A) f (P Q : nat -> Prop) r :
  (forall j, (j < length l)%nat -> P j <-> Q j) -> found l f P r -> found l f Q r.
Proof.
  intros HPQ. destruct r as [j|]; cbn.
  - intros (Hp & (e & He & Hm) & Hmin). pose proof (lookup_lt_Some _ _ _ He). split_and!.
    + by apply HPQ.
    + eauto.
    + intros j' e' Hlt Hq He'. eapply Hmin; eauto. apply HPQ; [|done]. by apply lookup_lt_Some in He'.
  - intros H j e Hq He. eapply H; eauto. apply HPQ; [|done]. by apply lookup_lt_Some in He.
Qed.

Lemma found_step i skip e r : 0 <= skip -> es !! i = Some e -> mt e = false ->
  found es mt (probed (S i) skip skip) r -> found es mt (probed i 0 skip) r.
Proof.
  intros Hs He Hm. destruct r as [j|]; cbn.
  - intros (Hp & Hj & Hmin). split_and!; [by apply probed_after; auto | done |].
    intros j' e' Hlt Hp' He'. apply probed_after in Hp' as [-> | Hp']; [congruence | eauto | done].
  - intros H j e' Hp He'. apply probed_after in Hp as [-> | Hp]; [congruence | eauto | done].
Qed.

Lemma lp_find_loop_ok skip : 0 <= skip < 2 ^ 31 -> forall fuel i c u esz,
  (i < length es)%nat -> 0 <= c < 2 ^ 31 -> Inv u -> (length es - i < fuel)%nat ->
  exists r u', find_loop cmp fuel lp (total es) (Some (offset es i)) u skip c esz =
      Ok (option_map (offset es) r, u') /\ Inv u' /\ found es mt (probed i c skip) r.
Proof.
  intros Hskip fuel. induction fuel as [|fuel IH]; intros i c u esz Hi Hc Hu Hf; [lia|].
  destruct (lookup_lt_is_Some_2 es i Hi) as [e He].
  pose proof (boundary_range i ltac:(lia)). pose proof (boundary_range (S i) ltac:(lia)) as Hb.
  assert (forall u c' esz, Inv u -> 0 <= c' < 2 ^ 31 ->
    exists r u', (let* _ := if offset es (S i) + 8 >=? total es
        then lpAssertValidEntry lp (total es) (offset es (S i))
        else guardr ((offset es (S i) >=? LP_HDR_SIZE) && (offset es (S i) <? total es)) AssertFailed in
      let* b := rd1 lp (offset es (S i)) in
      if b =? LP_EOF then Ok (None, u)
      else find_loop cmp fuel lp (total es) (Some (offset es (S i))) u skip c' esz) =
      Ok (option_map (offset es) r, u') /\ Inv u' /\ found es mt (probed (S i) c' skip) r) as Hcont.
  { intros v c' z Hv Hc'. rewrite assert_valid_boundary by lia.
    assert ((offset es (S i) >=? LP_HDR_SIZE) && (offset es (S i) <? total es) = true) as -> by (dec_bool; done).
    assert ((if offset es (S i) + 8 >=? total es then Ok tt else guardr true AssertFailed) = Ok tt) as ->
      by (by case_match). runr.
    destruct (decide (S i = length es)) as [Hlast|Hmore].
    - rewrite Hlast, (repr_eof _ _ Hr). runr. exists None, v. split; [done|]. split; [done|].
      intros j e' Hp He'. apply probed_ge in Hp; [|lia..]. apply lookup_lt_Some in He'. lia.
    - destruct (lookup_lt_is_Some_2 es (S i)) as [e' He']; [lia|].
      destruct (link_not_eof _ _ _ _ (repr_link lp es (S i) e' Hr He')) as (b & -> & Hb'). runr.
      rewrite (proj2 (Z.eqb_neq b LP_EOF)) by done. apply IH; [lia | lia | done | lia]. }
  cbn [find_loop]. destruct (Z.eqb_spec c 0) as [->|Hc0].
  - rewrite (repr_get_size lp es i e esz Hr He). runr. rewrite <- (offset_S es i e He).
    fold (value_ptr (fst (reported (offset es i) e))).
    destruct (Hcmp i e u Hu He) as (cr & u' & Hcr & Hu' & Hmt).
    assert ((match value_ptr (fst (reported (offset es i) e)) with
      | Some _ => guardr ((offset es i >=? LP_HDR_SIZE) && (offset es i + zlen (entry e) <? total es)) AssertFailed
      | None => Ok tt end) = Ok tt) as Hassert.
    { rewrite <- (offset_S es i e He). destruct (value_ptr _); [|done]. dec_bool. done. }
    rewrite <- (offset_S es i e He) in Hassert. rewrite Hassert.
    runr. rewrite Hcr. runr. rewrite Hmt. destruct (mt e) eqn:Em.
    + exists (Some i), u'. split; [done|]. split; [done|]. split_and!.
      * exists 0. lia.
      * eauto.
      * intros j' e' Hlt Hp _. apply probed_ge in Hp; lia.
    + rewrite wrapS_small by (cbn; lia).
      destruct (Hcont u' skip (zlen (entry e)) Hu' Hskip) as (r & u2 & Hrun & Hu2 & Hfd).
      exists r, u2. split; [exact Hrun|]. split; [done|].
      apply (found_step i skip e r); [lia | done | done | done].
  - rewrite chk_i32_ok by lia. runr. rewrite (link_skip _ _ _ _ (repr_link lp es i e Hr He)). runr.
    destruct (Hcont u (c - 1) esz Hu ltac:(lia)) as (r & u2 & Hrun & Hu2 & Hfd).
    exists r, u2. split; [exact Hrun|]. split; [done|].
    eapply found_ext; [|exact Hfd]. intros j _. apply probed_skip. lia.
Qed.

(** The whole search, from an element or from the start. *)
Lemma find_cb_ok p i skip u : 0 <= skip < 2 ^ 31 -> Inv u ->
  (p = None /\ i = 0%nat) \/ (p = Some (offset es i) /\ (i < length es)%nat) ->
  exists r u', lpFindCbInternal cmp lp p u skip = Ok (option_map (offset es) r, u') /\ Inv u' /\
    found es mt (probed i 0 skip) r.
Proof.
  intros Hskip Hu Hp. unfold lpFindCbInternal, lpBytes. rewrite (repr_total _ _ Hr). runr.
  pose proof (total_range _ _ Hr). rewrite wrapU_small by lia.
  pose proof (repr_count _ _ Hr). pose proof (repr_bytes _ _ Hr).
  assert ((i < length es)%nat -> exists r u', find_loop cmp (S (length lp)) lp (total es) (Some (offset es i)) u
      skip 0 123456789 = Ok (option_map (offset es) r, u') /\ Inv u' /\ found es mt (probed i 0 skip) r) as Hloop.
  { intros Hi. apply lp_find_loop_ok; [done | done | lia | done | unfold zlen in *; lia]. }
  destruct Hp as [[-> ->] | [-> Hi]]; [|by apply Hloop].
  rewrite (first_ok _ _ (repr_total _ _ Hr) _ (repr_chain _ _ Hr)), repr_elem. runr. cbn [Z.leb Z.compare andb].
  change (Z.to_nat 0) with 0%nat. destruct (Z.ltb_spec 0 (zlen es)).
  - apply Hloop. unfold zlen in *. lia.
  - exists None, u. split; [done|]. split; [done|]. intros j e _ He.
    apply lookup_lt_Some in He. unfold zlen in *. lia.
Qed.
End search.

(** * Elements as strings *)

(** The element [x] prints as the string [s]. *)
Definition spells (x : lpval) (s : list Z) : Prop :=
  match x with LStr t => t = s | LInt v => is_sdec s v end.

(** The decision the code makes: compare bytes, or convert [s] once. *)
Definition spells_b (x : lpval) (s : list Z) : bool :=
  match x with
  | LStr t => bool_decide (t = s)
  | LInt v => match lpStringToInt64 s (zlen s) with Ok (Some w) => v =? w | _ => false end
  end.

Lemma decode_int_range e v : valid_enc e -> decode e = LInt v -> LLONG_MIN <= v <= LLONG_MAX.
Proof.
  intros Hv Hd. pose proof (valid_shape e Hv) as Hs. rewrite Hd in Hs.
  assert (forall w u, 0 < w <= 64 -> LLONG_MIN <= wrapS w u <= LLONG_MAX) as Hw.
  { intros w u Hw. unfold wrapS.
    assert (2 ^ w = 2 * 2 ^ (w - 1)) as Hp by (rewrite <- Z.pow_succ_r by lia; f_equal; lia).
    assert (2 ^ (w - 1) <= 2 ^ 63) as Hmax by (apply Z.pow_le_mono_r; lia).
    change (2 ^ 63) with 9223372036854775808 in Hmax.
    pose proof (Z.mod_pos_bound (u + 2 ^ (w - 1)) (2 ^ w) ltac:(apply Z.pow_pos_nonneg; lia)). lia. }
  inversion Hs; subst; [lia | apply Hw; lia | apply Hw].
  match goal with H : zlen t = _ |- _ => revert H end.
  unfold int_width. repeat case_bool; lia.
Qed.

Lemma spells_iff e s : valid_enc e -> spells_b (decode e) s = true <-> spells (decode e) s.
Proof.
  intros Hv. destruct (decode e) as [t|v] eqn:Hd; cbn [spells_b spells].
  - apply bool_decide_eq_true.
  - pose proof (decode_int_range e v Hv Hd) as Hrange.
    destruct (str_to_int_ok s) as (r & -> & Hr). destruct r as [w|].
    + rewrite Z.eqb_eq. destruct (proj1 (Hr w) eq_refl) as [Hsw _]. split; [by intros ->|].
      intros Hsv. assert (Some w = Some v) as [= ->] by (by apply Hr). done.
    + split; [done|]. intros Hs. assert (None = Some v) by (by apply Hr). done.
Qed.

(** A string element's bytes are the end of its encoding. *)
Lemma decode_str_suffix e t : valid_enc e -> decode e = LStr t -> exists h, e = h ++ t.
Proof.
  intros Hv Hd. pose proof (valid_shape e Hv) as Hs. rewrite Hd in Hs. inversion Hs; subst.
  - by exists [b].
  - by exists [b; b1].
  - by exists (240 :: l).
Qed.

Lemma read_str lp es i e t : lp_repr lp es -> es !! i = Some e -> decode e = LStr t ->
  reported (offset es i) e = (InListpack (offset es i + (zlen e - zlen t)), zlen t) /\
  rdn lp (offset es i + (zlen e - zlen t)) (zlen t) = Ok t.
Proof.
  intros Hr He Hd. unfold reported. rewrite Hd. split; [done|].
  destruct (repr_split _ _ Hr i e He) as (a & c & -> & <- & Hv).
  destruct (decode_str_suffix e t Hv Hd) as (h & ->).
  rewrite <- app_assoc, app_assoc. apply rdn_mid; [rewrite !zlen_app; lia | done].
Qed.

(** * lpFindCmp and lpFind *)

Section find_string.
Context (lp : list Z) (es : list (list Z)) (Hr : lp_repr lp es) (s : list Z).

Definition arg_ok (a : lpFindArg) : Prop :=
  fa_s a = s /\ fa_slen a = zlen s /\
  (fa_vencoding a = 0 \/
   fa_vencoding a = 1 /\ lpStringToInt64 s (zlen s) = Ok (Some (fa_vll a)) \/
   fa_vencoding a = UCHAR_MAX /\ lpStringToInt64 s (zlen s) = Ok None).

(** The lazily computed integer form is the right one, whatever the shortcut
    on the length says. *)
Lemma arg_encode a : arg_ok a ->
  exists a', (if fa_vencoding a =? 0 then
      let* v := if (fa_slen a >=? 32) || (fa_slen a =? 0) then Ok None
                else lpStringToInt64 (fa_s a) (fa_slen a) in
      Ok match v with
         | None => {| fa_s := fa_s a; fa_slen := fa_slen a; fa_vencoding := UCHAR_MAX; fa_vll := fa_vll a |}
         | Some v => {| fa_s := fa_s a; fa_slen := fa_slen a; fa_vencoding := 1; fa_vll := v |}
         end
    else Ok a) = Ok a' /\ arg_ok a' /\ fa_vencoding a' <> 0.
Proof.
  intros (Hs & Hl & Hv). destruct (Z.eqb_spec (fa_vencoding a) 0).
  2: { exists a. split; [done|]. split; [|done]. split_and!; [done | done | tauto]. }
  rewrite Hs, Hl.
  assert ((if (zlen s >=? 32) || (zlen s =? 0) then Ok None else lpStringToInt64 s (zlen s)) =
    lpStringToInt64 s (zlen s)) as ->.
  { rewrite Z.geb_leb. destruct (Z.leb_spec 32 (zlen s)), (Z.eqb_spec (zlen s) 0) as [He|]; cbn [orb]; try done;
      unfold lpStringToInt64; rewrite ?He; [lia | | done].
    dec_bool. done. }
  destruct (str_to_int_ok s) as (r & Hr' & _). rewrite Hr'. runr. eexists. split; [done|].
  destruct r; (split; [|cbn; lia]); split_and!; cbn; auto.
Qed.

Lemma find_cmp_ok i e a : arg_ok a -> es !! i = Some e -> exists c a',
  lpFindCmp lp (offset es i) a (value_ptr (fst (reported (offset es i) e)))
    (snd (reported (offset es i) e)) = Ok (c, a') /\ arg_ok a' /\ (c =? 0) = spells_b (decode e) s.
Proof.
  intros Ha He. unfold lpFindCmp. destruct (decode e) as [t|v] eqn:Hd.
  - destruct (read_str lp es i e t Hr He Hd) as (-> & Hrd). cbn [value_ptr fst snd spells_b].
    pose proof Ha as (Hs & Hl & _). rewrite Hs, Hl. destruct (Z.eqb_spec (zlen t) (zlen s)) as [Heq|Hne].
    + rewrite rdn_all by done. runr. rewrite Hrd. runr.
      destruct (decide (t = s)) as [->|Hts].
      * rewrite !bool_decide_eq_true_2 by done. by eexists _, _.
      * rewrite !bool_decide_eq_false_2 by congruence. by eexists _, _.
    + rewrite bool_decide_eq_false_2 by (by intros ->). by eexists _, _.
  - unfold reported. rewrite Hd. cbn [value_ptr fst snd spells_b].
    destruct (arg_encode a Ha) as (a' & -> & Ha' & Hne). runr.
    pose proof Ha' as (_ & _ & [?|[[Hv ->]|[Hv ->]]]); [done| |]; rewrite Hv; cbn [negb andb Z.eqb Pos.eqb].
    + destruct (v =? fa_vll a'); by eexists _, _.
    + by eexists _, _.
Qed.

Lemma lp_find_ok p i skip : 0 <= skip < 2 ^ 31 ->
  (p = None /\ i = 0%nat) \/ (p = Some (offset es i) /\ (i < length es)%nat) ->
  exists r, lpFind lp p s (zlen s) skip = Ok (option_map (offset es) r) /\
    found es (fun e => spells_b (decode e) s) (probed i 0 skip) r.
Proof.
  intros Hskip Hp. unfold lpFind.
  destruct (find_cb_ok lp es Hr (lpFindCmp lp) arg_ok (fun e => spells_b (decode e) s)
    (fun i e u Hu He => find_cmp_ok i e u Hu He) p i skip
    {| fa_s := s; fa_slen := zlen s; fa_vencoding := 0; fa_vll := 0 |} Hskip)
    as (r & u' & -> & _ & Hf); [split_and!; cbn; auto | done|].
  runr. by exists r.
Qed.

(** * lpCompare *)

(** The caller's cache is empty, or holds the conversion of this string. *)
Definition cache_ok (c : option (Z * Z)) : Prop :=
  match c with
  | None => True
  | Some (longval, valid) =>
      valid = 0 \/ valid = 1 /\ lpStringToInt64 s (zlen s) = Ok (Some longval) \/
      valid = -1 /\ lpStringToInt64 s (zlen s) = Ok None
  end.

Lemma compare_ok i e c : es !! i = Some e -> cache_ok c ->
  exists c', lpCompare lp (offset es i) s (zlen s) c = Ok (spells_b (decode e) s, c') /\ cache_ok c'.
Proof.
  intros He Hc. unfold lpCompare.
  destruct (link_not_eof _ _ _ _ (repr_link lp es i e Hr He)) as (b & -> & Hb). runr.
  rewrite (proj2 (Z.eqb_neq b LP_EOF)), (repr_get lp es i e Hr He) by done. runr.
  destruct (decode e) as [t|v] eqn:Hd; cbn [spells_b].
  - destruct (read_str lp es i e t Hr He Hd) as (-> & Hrd). cbn [fst snd].
    destruct (Z.eqb_spec (zlen s) (zlen t)) as [Heq|Hne].
    + rewrite Heq, Hrd. runr. rewrite rdn_all by done. runr. by exists c.
    + rewrite bool_decide_eq_false_2 by (by intros ->). by exists c.
  - unfold reported. rewrite Hd. cbn [fst snd]. destruct (str_to_int_ok s) as (r & Hs & _).
    destruct c as [[longval valid]|]; cbn [cache_ok] in Hc; rewrite Hs in *; runr.
    + destruct Hc as [-> | [[-> Hl]|[-> Hl]]]; cbn [Z.eqb Pos.eqb]; runr.
      * destruct r as [w|]; runr; cbn [Z.eqb Pos.eqb andb]; eexists; (split; [done|]); cbn; rewrite Hs; auto.
      * injection Hl as ->. cbn [Z.eqb Pos.eqb andb]. eexists. split; [done|]. cbn. rewrite Hs. auto.
      * injection Hl as ->. cbn [Z.eqb Pos.eqb andb]. eexists. split; [done|]. cbn. rewrite Hs. auto.
    + by exists None.
Qed.
End find_string.
