(* ===== verification/ListpackValidate.v ===== *)
(** ListpackValidate: what lpValidateIntegrity guarantees of bytes that come
    from outside (an RDB file, a RESTORE payload).

    Every entry it lets through is a well-formed encoding followed by a back
    length that leads back to it; in particular a 32-bit string length that
    wraps around is caught by the back length. *)

From Stdlib Require Import ZArith Lia Bool.
From stdpp Require Import base list numbers decidable.
From S2P Require Import Prelude Bytes Numbers Listpack ListpackProofs ListpackOps ListpackFind.

Local Open Scope Z_scope.

(** The low seven bits of a back length are those of its last byte. *)
Lemma decode_backlen_low lp q b v :
  rd1 lp q = Ok b -> lpDecodeBacklen lp q = Ok v -> v mod 128 = b mod 128 \/ v = UINT64_MAX.
Proof.
  intros Hb. unfold lpDecodeBacklen. rewrite Hb. runr.
  assert (forall x, Z.land x 127 = x mod 128) as Hl.
  { intros x. change 127 with (Z.ones 7). by rewrite Z.land_ones by lia. }
  assert (forall x, 0 <= Z.land x 127 < 128) as Hm by (intros x; rewrite Hl; apply Z.mod_pos_bound; lia).
  assert (forall x y, (x + y * 128) mod 128 = x mod 128) as Hmod by (intros; by apply Z.mod_add).
  case_match; [intros [= <-]; left; rewrite Hl; by apply Zmod_mod|].
  destruct (rd1 lp (q - 1)) as [b1|]; [|done]. runr.
  pose proof (Hm b). pose proof (Hm b1).
  rewrite !(lor_disjoint _ _ 7) by lia. change (2 ^ 7) with 128.
  case_match; [intros [= <-]; left; rewrite Hmod, Hl; by apply Zmod_mod|].
  destruct (rd1 lp (q - 2)) as [b2|]; [|done]. runr. pose proof (Hm b2).
  rewrite !(lor_disjoint _ _ 14) by lia. change (2 ^ 14) with (128 * 128).
  case_match.
  { intros [= <-]; left. rewrite Z.mul_assoc, !Hmod, Hl. by apply Zmod_mod. }
  destruct (rd1 lp (q - 3)) as [b3|]; [|done]. runr. pose proof (Hm b3).
  rewrite !(lor_disjoint _ _ 21) by lia. change (2 ^ 21) with (128 * 128 * 128).
  case_match.
  { intros [= <-]; left. rewrite !Z.mul_assoc, !Hmod, Hl. by apply Zmod_mod. }
  destruct (rd1 lp (q - 4)) as [b4|]; [|done]. runr. pose proof (Hm b4).
  rewrite !(lor_disjoint _ _ 28) by lia. change (2 ^ 28) with (128 * 128 * 128 * 128).
  case_match.
  { intros [= <-]; left. rewrite !Z.mul_assoc, !Hmod, Hl. by apply Zmod_mod. }
  intros [= <-]. by right.
Qed.

(** A 32-bit length that would wrap the entry size cannot have a back length. *)
Lemma wrapped_length a b l c s : b = 240 -> zlen l = 4 -> Forall is_byte l ->
  2 ^ 32 <= 5 + le_val l -> s = 5 + le_val l - 2 ^ 32 ->
  lpDecodeBacklen (a ++ b :: l ++ c) (zlen a + s) <> Ok s.
Proof.
  intros Hb Hl Hby Hw Hs Hd.
  pose proof (le_val_range l Hby) as Hr. rewrite Hl in Hr. change (8 * 4) with 32 in Hr.
  assert (0 <= s < 5) as Hs5 by lia.
  destruct l as [|l0 [|l1 [|l2 [|l3 [|? ?]]]]]; try (unfold zlen in Hl; cbn in Hl; lia).
  rewrite !list.Forall_cons in Hby. unfold is_byte in Hby. cbn [le_val] in *.
  change (2 ^ 32) with 4294967296 in *.
  assert (exists x, (b :: [l0; l1; l2; l3]) !! Z.to_nat s = Some x /\ 112 <= x mod 128) as (x & Hx & Hlow).
  { assert (s = 0 \/ s = 1 \/ s = 2 \/ s = 3 \/ s = 4) as [-> | [-> | [-> | [-> | ->]]]] by lia.
    - exists b. by subst b.
    - exists l0. split; [done|]. replace l0 with 252 by lia. done.
    - exists l1. split; [done|]. replace l1 with 255 by lia. done.
    - exists l2. split; [done|]. replace l2 with 255 by lia. done.
    - exists l3. split; [done|]. replace l3 with 255 by lia. done. }
  change (b :: [l0; l1; l2; l3] ++ c) with ([b; l0; l1; l2; l3] ++ c) in Hd.
  assert (rd1 (a ++ [b; l0; l1; l2; l3] ++ c) (zlen a + s) = Ok x) as Hrd
    by (apply (rd1_in _ _ _ _ _ _ Hx); lia).
  destruct (decode_backlen_low _ _ _ _ Hrd Hd) as [Hm | Hm]; [|lia].
  rewrite (Z.mod_small s) in Hm by lia. lia.
Qed.

(** A read of one byte, as a split of the block. *)
Lemma rd1_split (lp : list Z) o b : rd1 lp o = Ok b -> exists a c, lp = a ++ b :: c /\ zlen a = o.
Proof.
  intros H. apply rd1_inv in H as [Hr Hl]. exists (take (Z.to_nat o) lp), (drop (S (Z.to_nat o)) lp).
  split; [by rewrite take_drop_middle | apply zlen_take; lia].
Qed.

(** The bytes from [b] on hold an encoding of the size the code computes,
    unless a 32-bit length wraps. *)
Lemma enc_of_size a b c s : Forall is_byte (b :: c) -> b <> LP_EOF ->
  lpCurrentEncodedSizeBytes b <> 0 -> lpCurrentEncodedSizeBytes b <= 1 + zlen c ->
  s + 1 <= 1 + zlen c ->
  lpCurrentEncodedSizeUnsafe (a ++ b :: c) (zlen a) = Ok s ->
  (exists e c' x, b :: c = e ++ c' /\ zlen e = s /\ enc_shape e x) \/
  (exists l c', c = l ++ c' /\ b = 240 /\ zlen l = 4 /\ Forall is_byte l /\
     2 ^ 32 <= 5 + le_val l /\ s = 5 + le_val l - 2 ^ 32).
Proof.
  intros Hby Hne. apply Forall_cons_1 in Hby as [Hb Hc]. pose proof Hb as Hb'. unfold is_byte in Hb'.
  unfold lpCurrentEncodedSizeBytes, lpCurrentEncodedSizeUnsafe. rewrite rd1_mid by done. runr.
  assert (forall n : Z, 0 <= n -> n <= zlen c -> exists u v, c = u ++ v /\ zlen u = n /\ Forall is_byte u) as Hsp.
  { intros n H0 Hn. destruct (split_at c n) as (u & v & -> & Hu & _); [lia|].
    exists u, v. rewrite Forall_app in Hc. tauto. }
  destruct (classify b Hb) as (-> & -> & -> & -> & -> & -> & -> & -> & ->).
  destruct (Z.ltb_spec b 128).
  { intros _ _ _ [= <-]. left. exists [b], c, (LInt b). split_and!; [done | done | constructor; lia]. }
  rewrite (proj2 (Z.leb_le 128 b)) by lia. cbn [andb]. destruct (Z.ltb_spec b 192).
  { intros _ _ Hs. rewrite str6_len by lia. intros [= <-]. left.
    destruct (Hsp (b - 128)) as (u & v & -> & Hu & _); [lia..|].
    exists (b :: u), v, (LStr u). rewrite zlen_cons. split_and!; [done | lia | constructor; lia]. }
  rewrite (proj2 (Z.leb_le 192 b)) by lia. cbn [andb]. destruct (Z.ltb_spec b 224).
  { intros _ _ Hs [= <-]. left. destruct (Hsp 1) as (u & v & -> & Hu & Hub); [lia..|].
    destruct u as [|b1 [|? ?]]; try (unfold zlen in Hu; cbn in Hu; lia).
    apply Forall_cons_1 in Hub as [Hb1 _]. eexists [b; b1], v, _. split_and!; [done | done | by constructor]. }
  rewrite (proj2 (Z.leb_le 224 b)) by lia. cbn [andb].
  assert (forall n, 0 <= n -> n = int_width b -> 241 <= b < 245 -> n <= zlen c ->
    exists e c' x, b :: c = e ++ c' /\ zlen e = 1 + n /\ enc_shape e x) as Hint.
  { intros n Hn0 Hn Hrange Hlen. destruct (Hsp n) as (u & v & -> & Hu & Hub); [lia..|].
    eexists (b :: u), v, _. rewrite zlen_cons. split_and!; [done | lia | constructor; lia || done]. }
  unfold int_width in Hint.
  destruct (Z.eqb_spec b 241); [intros _ _ Hs [= <-]; left; apply (Hint 2); lia|].
  destruct (Z.eqb_spec b 242); [intros _ _ Hs [= <-]; left; apply (Hint 3); lia|].
  destruct (Z.eqb_spec b 243); [intros _ _ Hs [= <-]; left; apply (Hint 4); lia|].
  destruct (Z.eqb_spec b 244); [intros _ _ Hs [= <-]; left; apply (Hint 8); lia|].
  destruct (Z.ltb_spec b 240).
  { intros _ Hl Hs. destruct (Hsp 1) as (u & v & -> & Hu & Hub); [lia..|].
    destruct u as [|b1 [|? ?]]; try (unfold zlen in Hu; cbn in Hu; lia). cbn [app].
    apply Forall_cons_1 in Hub as [Hb1 _]. rewrite str12_len by (done || lia). intros [= <-]. left.
    cbn [app] in Hs. rewrite zlen_cons in Hs. pose proof Hb1. unfold is_byte in Hb1.
    destruct (split_at v ((b - 224) * 256 + b1)) as (w & z & -> & Hw & _); [lia|].
    exists (b :: b1 :: w), z, (LStr w). rewrite !zlen_cons. split_and!; [done | lia | constructor; done || lia]. }
  destruct (Z.eqb_spec b 240) as [->|].
  - intros _ Hl Hs. destruct (Hsp 4) as (l & v & -> & Hlen & Hlb); [lia..|].
    rewrite str32_len by done. runr. intros Heq.
    pose proof (le_val_range l Hlb) as Hr. rewrite Hlen in Hr. change (8 * 4) with 32 in Hr.
    rewrite zlen_app in Hs. destruct (Z.lt_ge_cases (5 + le_val l) (2 ^ 32)).
    + left. rewrite wrapU_small in Heq by lia. injection Heq as <-.
      destruct (split_at v (le_val l)) as (w & z & -> & Hw & _); [lia|].
      exists (240 :: l ++ w), z, (LStr w). rewrite zlen_cons, zlen_app.
      split_and!; [by rewrite <- app_comm_cons, <- app_assoc | lia | by constructor].
    + right. exists l, v. split_and!; try done. injection Heq as <-. unfold wrapU.
      replace (5 + le_val l) with ((5 + le_val l - 2 ^ 32) + 1 * 2 ^ 32) at 1 by lia.
      rewrite Z.mod_add, Z.mod_small; lia.
  - rewrite (proj2 (Z.eqb_neq b LP_EOF)) by done. done.
Qed.

(** What lpValidateNext accepts is a well-formed encoding. *)
Lemma link_enc lp bytes o o' : Forall is_byte lp -> bytes <= zlen lp -> link lp bytes o o' ->
  exists a e c, lp = a ++ e ++ c /\ zlen a = o /\ valid_enc e /\ o' = o + zlen (entry e).
Proof.
  intros Hby Hb (s & Ho & Hs & Ho' & Hle & (b & Hrd & Hne) & Hsz & Hdec & Hval).
  destruct (rd1_split lp o b Hrd) as (a & c & -> & <-). rewrite Forall_app in Hby.
  destruct Hby as (_ & Hbc). pose proof (backlen_bytes_range s).
  rewrite zlen_app, zlen_cons in Hb.
  assert (lpCurrentEncodedSizeBytes b <> 0 /\ zlen a + lpCurrentEncodedSizeBytes b <= bytes - 1) as [Hlb0 Hlb].
  { revert Hval. unfold lpValidateNext. rewrite !Z.gtb_ltb.
    rewrite (proj2 (Z.ltb_ge (zlen a) LP_HDR_SIZE)), (proj2 (Z.ltb_ge (bytes - 1) (zlen a))) by lia. cbn [orb].
    rewrite Hrd. runr. rewrite (proj2 (Z.eqb_neq b LP_EOF)) by done.
    destruct (Z.eqb_spec (lpCurrentEncodedSizeBytes b) 0); [done|]. rewrite !Z.gtb_ltb.
    destruct (Z.ltb_spec (zlen a + lpCurrentEncodedSizeBytes b) LP_HDR_SIZE); [done|]. cbn [orb].
    destruct (Z.ltb_spec (bytes - 1) (zlen a + lpCurrentEncodedSizeBytes b)); [done | lia]. }
  destruct (enc_of_size a b c s) as [(e & c' & x & He & Hz & Hx)|(l & c' & -> & Hb240 & Hl & Hlb' & Hw & Hsw)];
    try done; try lia.
  - exists a, e, c'. rewrite He, entry_len, Hz. split_and!; [done | done | | done].
    apply (shape_valid e x Hx); [|lia]. rewrite He, Forall_app in Hbc. tauto.
  - exfalso. apply (wrapped_length a b l c' s Hb240 Hl Hlb' Hw Hsw).
    pose proof (le_val_range l Hlb') as Hr. rewrite Hl in Hr. change (8 * 4) with 32 in Hr.
    assert (lpEncodeBacklenBytes s = 1) as Hbs by (unfold lpEncodeBacklenBytes; dec_bool; done).
    rewrite <- Hdec. f_equal. lia.
Qed.

(** The boundaries of a block behave like an array of elements: every walking
    function moves by one, lpSeek indexes, and every element can be read. *)
Record walkable (lp : list Z) (size : Z) (os : list Z) : Prop := {
  w_bytes : lpBytes lp = Ok size;
  w_first : lpFirst lp = Ok (elem_at LP_HDR_SIZE os 0);
  w_last : lpLast lp = Ok (elem_at LP_HDR_SIZE os (zlen os - 1));
  w_next : forall k p, elem_at LP_HDR_SIZE os k = Some p ->
    lpNext lp p = Ok (elem_at LP_HDR_SIZE os (k + 1));
  w_prev : forall k p, elem_at LP_HDR_SIZE os k = Some p ->
    lpPrev lp p = Ok (elem_at LP_HDR_SIZE os (k - 1));
  w_seek : forall index, LLONG_MIN <= index <= LLONG_MAX ->
    lpSeek lp index = Ok (elem_at LP_HDR_SIZE os (norm_index (zlen os) index));
  w_length : exists lp', lpLength lp = Ok (lp', zlen os);
  w_get : forall k p, elem_at LP_HDR_SIZE os k = Some p -> exists e,
    rdn lp p (zlen e) = Ok e /\ valid_enc e /\ p + zlen e < size /\
    lpGet lp p None = Ok (fst (reported p e), snd (reported p e), None)
}.

Lemma chain_walkable lp size num os : Forall is_byte lp -> size <= zlen lp -> size < 2 ^ 32 ->
  lpGetTotalBytes lp = Ok size -> lpGetNumElements lp = Ok num ->
  num = LP_HDR_NUMELE_UNKNOWN \/ num = zlen os -> chain lp size LP_HDR_SIZE os ->
  walkable lp size os.
Proof.
  intros Hby Hsz Hmax Htot Hnum Hn Hc. pose proof (chain_bound _ _ _ _ Hc) as Hb. pose proof (zlen_nonneg os).
  split.
  - done.
  - by eapply first_ok.
  - by eapply last_ok.
  - intros k p Hk. by eapply lp_next_ok.
  - intros k p Hk. pose proof (elem_in_range _ _ _ _ Hk). eapply prev_elem; [done | done | lia |].
    unfold elem_at in Hk. by destruct ((0 <=? k) && (k <? zlen os)).
  - intros index Hi. apply (seek_ok lp size Htot os num); [done | done | done | done | done | lia].
  - unfold lpLength. rewrite Hnum. runr. destruct (Z.eqb_spec num LP_HDR_NUMELE_UNKNOWN); cbn [negb].
    + rewrite (first_ok _ _ Htot _ Hc). runr.
      rewrite (count_loop_ok _ _ Htot _ Hc) by (unfold zlen in *; lia). runr.
      rewrite Z.sub_0_r, Z.add_0_l. destruct (zlen os <? LP_HDR_NUMELE_UNKNOWN); [|by eexists].
      unfold lpSetNumElements, wrn. rewrite and_bytes_le, zlen_le_bytes. dec_bool. runr. by eexists.
    + destruct Hn as [? | ->]; [done|]. by eexists.
  - intros k p Hk. destruct (elem_chain _ _ _ _ _ _ Hc Hk) as (p' & os' & Hl & _).
    destruct (link_enc lp size p p' Hby Hsz Hl) as (a & e & c & -> & <- & Hv & Hp').
    exists e. apply link_lt in Hl. rewrite entry_len in Hp'. pose proof (backlen_bytes_range (zlen e)).
    split_and!; [by apply rdn_mid | done | lia | by apply get_ok].
Qed.

(** C11: untrusted bytes may be handed to [lpValidateIntegrity] with any size
    up to that of the buffer: it never reads outside it, and when the deep
    check accepts, the whole API is safe on the result, with both walking
    directions, lpSeek and lpLength agreeing on one sequence of well-formed
    elements that lie inside the listpack. *)
Theorem lpValidateIntegrity_sound lp size :
  Forall is_byte lp -> 0 <= size <= zlen lp -> size < 2 ^ 32 ->
  exists v, lpValidateIntegrity lp size true None tt = Ok (v, tt) /\
    (v = true -> exists os, walkable lp size os).
Proof.
  intros Hby Hsz Hmax. unfold lpValidateIntegrity.
  destruct (Z.ltb_spec size (LP_HDR_SIZE + 1)); [by exists false|].
  assert (exists t, lpGetTotalBytes lp = Ok t) as [t Ht].
  { unfold lpGetTotalBytes. destruct (rdn_ok lp 0 4) as (bs & -> & _); [lia..|]. by eexists. }
  assert (exists n, lpGetNumElements lp = Ok n) as [n Hn].
  { unfold lpGetNumElements. destruct (rdn_ok lp 4 2) as (bs & -> & _); [lia..|]. by eexists. }
  rewrite Ht. runr. destruct (Z.eqb_spec t size) as [->|]; cbn [negb]; [|by exists false].
  destruct (rd1_byte lp (size - 1) Hby) as (b & -> & _); [lia|]. runr.
  destruct (b =? LP_EOF); cbn [negb]; [|by exists false]. rewrite Hn. runr.
  destruct (validate_loop_sound lp size n (length lp) LP_HDR_SIZE 0) as (r & -> & Hr);
    [done | lia | unfold zlen in *; lia | lia..|]. runr.
  destruct r as [[p c]|]; [|by exists false].
  destruct (Hr p c eq_refl) as (last & os & -> & -> & _ & Hc). rewrite Z.add_0_l.
  destruct (decide (last = size - 1)) as [Hlast|]; [|rewrite bool_decide_eq_false_2 by congruence; by exists false].
  rewrite bool_decide_eq_true_2 by congruence. cbn [negb].
  destruct (Z.eqb_spec n LP_HDR_NUMELE_UNKNOWN), (Z.eqb_spec n (zlen os)); cbn [negb andb];
    eexists; (split; [done|]); intros [=]; exists os; apply (chain_walkable lp size n); auto; lia.
Qed.

(** ... and nothing the library builds is refused: the bytes in use of
    every listpack that represents a list pass the deep check. *)
Theorem lpValidateIntegrity_complete lp es :
  lp_repr lp es -> lpValidateIntegrity lp (total es) true None tt = Ok (true, tt).
Proof.
  intros Hr. pose proof (total_range _ _ Hr). pose proof (repr_count _ _ Hr). pose proof (repr_bytes _ _ Hr).
  unfold lpValidateIntegrity. rewrite (proj2 (Z.ltb_ge _ _)) by lia.
  rewrite (repr_total _ _ Hr). runr. rewrite Z.eqb_refl. cbn [negb].
  pose proof (repr_eof _ _ Hr) as He. rewrite offset_end in He. rewrite He. runr. cbn [Z.eqb Pos.eqb negb].
  destruct (repr_num _ _ Hr) as (n & -> & Hn). runr.
  rewrite (validate_loop_complete _ _ _ _ _ _ _ (repr_chain _ _ Hr)); rewrite ?ends_len;
    [|unfold zlen in *; lia | lia..]. runr.
  rewrite bool_decide_eq_true_2 by done. cbn [negb]. rewrite Z.add_0_l.
  destruct Hn as [-> | [-> _]]; [done|]. rewrite Z.eqb_refl. cbn [negb].
  by rewrite andb_false_r.
Qed.

Lemma lpValidateIntegrity_sound_witness :
  exists v, lpValidateIntegrity sample_lp 17 true None tt = Ok (v, tt) /\
    (v = true -> exists os, walkable sample_lp 17 os).
Proof.
  apply (lpValidateIntegrity_sound sample_lp 17).
  - change sample_lp with [17; 0; 0; 0; 3; 0; 130; 104; 105; 3; 193; 44; 2; 223; 249; 2; LP_EOF].
    repeat (constructor; [unfold is_byte; lia|]). constructor.
  - change (zlen sample_lp) with 17. lia.
  - reflexivity.
Defined.

Lemma lpValidateIntegrity_complete_witness :
  lpValidateIntegrity sample_lp (total sample_es) true None tt = Ok (true, tt).
Proof. apply (lpValidateIntegrity_complete sample_lp sample_es), lp_sample_repr. Defined.
