(* ===== verification/ListpackSpec.v ===== *)
(** ListpackSpec: what listpack.c promises to its users.

    The abstract object is a list of encodings, read as a list of values
    through [decode].  [run_op] drives the real operations the way callers do
    (positions come from lpSeek), [spec_op] edits the abstract list, and
    [listpack_refines_list] relates every sequence of them, from lpNew on.
    The other properties are about reading, walking, searching, merging,
    deleting by pointers, and validating untrusted bytes. *)

From Stdlib Require Import ZArith Lia Bool String.
From stdpp Require Import base list numbers decidable.
From S2P Require Import Prelude Bytes Numbers Listpack ListpackProofs ListpackOps ListpackFind.

Local Open Scope Z_scope.

(** An allocator that returns exactly what is asked for, zeroed. *)
Definition exact_alloc : Allocator := {|
  uninit := fun _ => 0; usable := fun n => n; usable_ge := Z.le_refl |}.

(** An allocator that rounds sizes up to multiples of sixteen. *)
Definition round16 (n : Z) : Z := n + (- n) mod 16.

Lemma round16_ge n : n <= round16 n.
Proof. unfold round16. pose proof (Z.mod_pos_bound (- n) 16 ltac:(lia)). lia. Qed.

Definition alloc16 : Allocator := {|
  uninit := fun k => Z.of_nat k mod 256; usable := round16; usable_ge := round16_ge |}.

(** * Operations *)

Inductive lp_op :=
  | OpInsert (w : lp_where) (index : Z) (x : lpval)   (** before, after, or over an element *)
  | OpAppend (x : lpval)
  | OpPrepend (x : lpval)
  | OpDelete (index : Z)
  | OpDeleteRange (index num : Z)
  | OpBatchInsert (w : lp_where) (index : Z) (xs : list lpval)
  | OpBatchAppend (xs : list lpval)
  | OpShrink
  | OpDup
  | OpLength.

Definition index_ok (index : Z) : Prop := LLONG_MIN <= index <= LLONG_MAX.

(** Batches are bounded by the address space and the [unsigned int] count. *)
Definition batch_ok (xs : list lpval) : Prop :=
  xs <> [] /\ Forall val_ok xs /\ zlen xs < 2 ^ 32 /\ zlen (body (map encode_val xs)) < 2 ^ 63.

Definition op_ok (o : lp_op) : Prop :=
  match o with
  | OpInsert _ index x => index_ok index /\ val_ok x
  | OpAppend x | OpPrepend x => val_ok x
  | OpDelete index => index_ok index
  | OpDeleteRange index num => index_ok index /\ 0 <= num < 2 ^ 64
  | OpBatchInsert w index xs => w <> LP_REPLACE /\ index_ok index /\ batch_ok xs
  | OpBatchAppend xs => batch_ok xs
  | OpShrink | OpDup | OpLength => True
  end.

Section run.
Context {alloc : Allocator}.

(** A refused operation (NULL) leaves the caller with the listpack it had. *)
Definition or_keep {A} (lp : list Z) (r : result (option A)) (f : A -> list Z) : result (list Z) :=
  let* r := r in Ok match r with Some a => f a | None => lp end.

Definition at_index (lp : list Z) (index : Z) (k : Z -> result (list Z)) : result (list Z) :=
  let* p := lpSeek lp index in
  match p with None => Ok lp | Some p => k p end.

Definition run_op (lp : list Z) (o : lp_op) : result (list Z) :=
  match o with
  | OpInsert w index x => at_index lp index (fun p => or_keep lp (api_insert lp x p w) fst)
  | OpAppend x => or_keep lp (api_append lp x) id
  | OpPrepend x => or_keep lp (api_prepend lp x) id
  | OpDelete index => at_index lp index (fun p => or_keep lp (lpDelete lp p) fst)
  | OpDeleteRange index num => lpDeleteRange lp index num
  | OpBatchInsert w index xs =>
      at_index lp index (fun p => or_keep lp (lpBatchInsert lp p w (map to_entry xs)) fst)
  | OpBatchAppend xs => or_keep lp (lpBatchAppend lp (map to_entry xs)) id
  | OpShrink => lpShrinkToFit lp
  | OpDup => lpDup lp
  | OpLength => let* (lp, _) := lpLength lp in Ok lp
  end.

Fixpoint run_ops (lp : list Z) (os : list lp_op) : result (list Z) :=
  match os with
  | [] => Ok lp
  | o :: os => let* lp := run_op lp o in run_ops lp os
  end.
End run.

(** The same operations on any list, [f] giving what is stored for a value. *)
Section spec.
Context {A : Type} (f : lpval -> A).

Definition on_index (index : Z) (l : list A) (k : nat -> list A) : list A :=
  let i := norm_index (zlen l) index in
  if (0 <=? i) && (i <? zlen l) then k (Z.to_nat i) else l.

Definition spec_op (l : list A) (o : lp_op) : list A :=
  match o with
  | OpInsert w index x => on_index index l (fun i => put w i (f x) l)
  | OpAppend x => l ++ [f x]
  | OpPrepend x => f x :: l
  | OpDelete index => on_index index l (fun i => take i l ++ drop (S i) l)
  | OpDeleteRange index num => remove_range index num l
  | OpBatchInsert w index xs =>
      on_index index l (fun i => take (ins_pos w i) l ++ map f xs ++ drop (ins_pos w i) l)
  | OpBatchAppend xs => l ++ map f xs
  | OpShrink | OpDup | OpLength => l
  end.
End spec.

(** An edit whose result would not fit in 32 bits is refused. *)
Definition step_op (es : list (list Z)) (o : lp_op) : list (list Z) :=
  let es' := spec_op encode_val es o in
  if total es' >? UINT32_MAX then es else es'.

(** * The operations implement the list edits *)

Section refine.
Context {alloc : Allocator}.

Lemma at_index_ok lp es index k (kk : nat -> list (list Z)) :
  lp_repr lp es -> index_ok index ->
  (forall i, (i < length es)%nat -> exists lp', k (offset es i) = Ok lp' /\
     lp_repr lp' (if total (kk i) >? UINT32_MAX then es else kk i)) ->
  exists lp', at_index lp index k = Ok lp' /\
    lp_repr lp' (if total (on_index index es kk) >? UINT32_MAX then es else on_index index es kk).
Proof.
  intros Hr Hi Hk. unfold at_index. rewrite (repr_seek _ _ Hr) by done. runr.
  unfold on_index. cbv zeta. set (i := norm_index (zlen es) index).
  destruct (Z.leb_spec 0 i); cbn [andb]; [|exists lp; split; [done|]; by destruct (total es >? _)].
  destruct (Z.ltb_spec i (zlen es)); [|exists lp; split; [done|]; by destruct (total es >? _)].
  apply Hk. unfold zlen in *. lia.
Qed.

(** From the "refused or edited" form of the operation lemmas. *)
Lemma or_keep_ok {A} lp es es' (run : result (option A)) (f : A -> list Z) :
  lp_repr lp es ->
  (if total es' >? UINT32_MAX then run = Ok None
   else exists a, run = Ok (Some a) /\ lp_repr (f a) es') ->
  exists lp', or_keep lp run f = Ok lp' /\ lp_repr lp' (if total es' >? UINT32_MAX then es else es').
Proof.
  intros Hr. unfold or_keep. destruct (total es' >? UINT32_MAX).
  - intros ->. by exists lp.
  - intros (a & -> & Ha). by exists (f a).
Qed.

Lemma keep_small es es' : total es' <= UINT32_MAX ->
  (if total es' >? UINT32_MAX then es else es') = es'.
Proof. intros H. rewrite Z.gtb_ltb. by rewrite (proj2 (Z.ltb_ge _ _)). Qed.

Lemma lp_run_op_ok lp es o : lp_repr lp es -> op_ok o ->
  exists lp', run_op lp o = Ok lp' /\ lp_repr lp' (step_op es o).
Proof.
  intros Hr Ho. unfold step_op. cbv zeta. pose proof (total_range _ _ Hr) as Ht.
  destruct o; cbn [run_op spec_op op_ok] in *.
  - destruct Ho as [Hi Hx]. apply at_index_ok; [done | done|]. intros i Hlt.
    apply or_keep_ok; [done|]. rewrite api_insert_eq.
    pose proof (insert_ok lp es w i x Hr) as H. cbv zeta in H.
    specialize (H ltac:(destruct w; cbn; lia) Hx).
    destruct (total (put w i (encode_val x) es) >? UINT32_MAX); [done|].
    destruct H as (lp' & -> & Hr'). by eexists.
  - apply or_keep_ok; [done|]. by apply append_ok.
  - apply or_keep_ok; [done|]. by apply prepend_ok.
  - apply at_index_ok; [done | done|]. intros i Hlt.
    destruct (lp_delete_ok lp es i Hr Hlt) as (lp' & -> & Hr'). exists lp'. split; [done|].
    rewrite keep_small; [done|]. pose proof (total_range _ _ Hr'). lia.
  - destruct Ho as [Hi Hn]. destruct (delete_range_ok lp es index num Hr Hi Hn) as (lp' & -> & Hr').
    exists lp'. split; [done|]. rewrite keep_small; [done|]. pose proof (total_range _ _ Hr'). lia.
  - destruct Ho as (Hw & Hi & Hne & Hv & Hc & Hb). apply at_index_ok; [done | done|]. intros i Hlt.
    apply or_keep_ok; [done|].
    pose proof (batch_insert_ok lp es w i xs Hr Hw ltac:(destruct w; cbn; lia) Hne Hv ltac:(lia) Hc) as H.
    cbv zeta in H. destruct (total (take (ins_pos w i) es ++ _) >? UINT32_MAX); [done|].
    destruct H as (lp' & -> & Hr'). by eexists.
  - destruct Ho as (Hne & Hv & Hc & Hb). apply or_keep_ok; [done|]. unfold lpBatchAppend.
    rewrite (repr_total _ _ Hr). runr. rewrite <- offset_end.
    pose proof (batch_insert_ok lp es LP_BEFORE (length es) xs Hr ltac:(done) ltac:(cbn; lia) Hne Hv ltac:(lia) Hc) as H.
    cbv zeta in H. cbn [ins_pos] in H. rewrite firstn_all, drop_all, app_nil_r in H.
    destruct (total (es ++ map encode_val xs) >? UINT32_MAX); [by rewrite H|].
    destruct H as (lp' & -> & Hr'). by eexists.
  - rewrite keep_small by lia. by apply lp_shrink_ok.
  - rewrite keep_small by lia. by apply dup_ok.
  - rewrite keep_small by lia. destruct (repr_length _ _ Hr) as (lp' & -> & Hr' & _). by exists lp'.
Qed.

Lemma run_ops_ok os : forall lp es, lp_repr lp es -> Forall op_ok os ->
  exists lp', run_ops lp os = Ok lp' /\ lp_repr lp' (foldl step_op es os).
Proof.
  induction os as [|o os IH]; intros lp es Hr Ho; [by exists lp|].
  apply Forall_cons_1 in Ho as [Ho Hos]. cbn [run_ops foldl].
  destruct (lp_run_op_ok lp es o Hr Ho) as (lp1 & -> & Hr1). runr. by apply IH.
Qed.
End refine.

(** * Values *)

(** The edits commute with any reading of what is stored. *)
Lemma spec_op_map {A B} (f : lpval -> A) (g : A -> B) l o :
  map g (spec_op f l o) = spec_op (fun x => g (f x)) (map g l) o.
Proof.
  assert (zlen (map g l) = zlen l) as Hz by (unfold zlen; by rewrite length_map).
  assert (forall index (k : nat -> list A) (k' : nat -> list B), (forall i, map g (k i) = k' i) ->
    map g (on_index index l k) = on_index index (map g l) k') as Hon.
  { intros index k k' Hk. unfold on_index. rewrite Hz. cbv zeta. case_match; [apply Hk | done]. }
  destruct o; cbn [spec_op]; try done; rewrite ?map_app, ?map_cons; try done.
  - apply Hon. intros i. unfold put. by rewrite !map_app, firstn_map, skipn_map.
  - apply Hon. intros i. by rewrite map_app, firstn_map, skipn_map.
  - unfold remove_range. rewrite Hz. cbv zeta. case_match; [|done]. by rewrite map_app, firstn_map, skipn_map.
  - apply Hon. intros i. by rewrite !map_app, firstn_map, skipn_map, map_map.
  - by rewrite map_map.
Qed.

Lemma spec_op_ext {A} (f f' : lpval -> A) l o : (forall x, val_ok x -> f x = f' x) -> op_ok o ->
  spec_op f l o = spec_op f' l o.
Proof.
  intros Hf Ho. assert (forall xs, Forall val_ok xs -> map f xs = map f' xs) as Hm.
  { intros xs. induction 1 as [|x xs Hx _ IH]; [done|]. cbn. by rewrite Hf, IH. }
  destruct o; cbn [spec_op op_ok] in *; try done; unfold batch_ok in *; rewrite ?Hf, ?Hm by tauto; done.
Qed.

(** * Sizes *)

Definition ele_bytes (x : lpval) : Z := match x with LStr s => zlen s | LInt _ => 0 end.

Lemma encode_val_size x : val_ok x -> zlen (encode_val x) <= ele_bytes x + 9.
Proof.
  intros Hx. pose proof (canon_ok x Hx) as Hc. unfold encode_val.
  assert (ele_bytes (canon x) <= ele_bytes x) as Hle.
  { destruct x as [s|v]; cbn; [|done]. pose proof (zlen_nonneg s).
    destruct (lpStringToInt64 s (zlen s)) as [[v|]|]; cbn; lia. }
  destruct (canon x) as [s|v]; cbn [ele_bytes] in *.
  - rewrite zlen_app, str_header_len. repeat case_bool; lia.
  - destruct (encode_integer_shape v Hc) as (_ & Hl & Hr). lia.
Qed.

(** An insertion adds at most the string, nine encoding and five backlen bytes. *)
Lemma put_size w i x es : pos_ok w i es -> val_ok x ->
  total (put w i (encode_val x) es) <= total es + ele_bytes x + 14.
Proof.
  intros Hi Hx. pose proof (encode_val_size x Hx). pose proof (backlen_bytes_range (zlen (encode_val x))).
  unfold put, total. rewrite !body_app, !zlen_app, body_one, entry_len.
  assert (zlen (body (take (ins_pos w i) es)) + zlen (body (drop (ins_pos w i) es)) = zlen (body es)) as Hs.
  { rewrite <- zlen_app, <- body_app, take_drop. done. }
  enough (zlen (body (drop (ins_drop w i) es)) <= zlen (body (drop (ins_pos w i) es))) by lia.
  destruct w; cbn [ins_pos ins_drop]; try lia.
  destruct (lookup_lt_is_Some_2 es i Hi) as [e He]. rewrite (drop_S _ _ _ He), body_cons, zlen_app.
  pose proof (zlen_nonneg (entry e)). lia.
Qed.

(** * Properties *)

(** C10: every sequence of insertions (before, after, in place of an element),
    appends, prepends, deletions, range deletions, batches, shrinking, copying
    and counting, on a listpack made by [lpNew], runs without a fault on any
    allocator, and the block then holds exactly the list the same edits give;
    an edit is refused, leaving the listpack alone, only when the result would
    not fit in 2^32-1 bytes. *)
Theorem listpack_refines_list {alloc : Allocator} capacity os :
  Forall op_ok os ->
  exists lp, (let* lp := lpNew capacity in run_ops lp os) = Ok lp /\
    lp_repr lp (foldl step_op [] os).
Proof.
  intros Ho. destruct (new_ok capacity) as (lp & -> & Hr & _). runr. by apply run_ops_ok.
Qed.

Definition sample_ops : list lp_op :=
  [OpAppend (LStr (chars "hi")); OpPrepend (LInt 300); OpInsert LP_AFTER 0 (LStr (chars "-7"));
   OpBatchAppend [LInt 70000; LStr []]; OpDelete (-1); OpShrink].

Lemma sample_ops_ok : Forall op_ok sample_ops.
Proof.
  repeat constructor; unfold is_byte, index_ok; try (vm_compute; congruence);
    try (vm_compute; split; congruence).
Qed.

Lemma listpack_refines_list_witness :
  exists lp, (let* lp := @lpNew alloc16 0 in @run_ops alloc16 lp sample_ops) = Ok lp /\
    lp_repr lp (foldl step_op [] sample_ops).
Proof. apply (@listpack_refines_list alloc16 0 sample_ops), sample_ops_ok. Defined.

(** Read as values, an edit of the entries is the same edit of the values,
    a new value being stored as an integer exactly when it is an integer or
    the decimal form of one. *)
Theorem listpack_edit_values es o :
  op_ok o -> map decode (spec_op encode_val es o) = spec_op canon (map decode es) o.
Proof.
  intros Ho. rewrite spec_op_map. apply spec_op_ext; [|done]. intros x Hx. by apply encode_val_ok.
Qed.

Lemma listpack_edit_values_witness :
  map decode (spec_op encode_val sample_es (OpInsert LP_REPLACE 1 (LStr (chars "12")))) =
    spec_op canon (map decode sample_es) (OpInsert LP_REPLACE 1 (LStr (chars "12"))).
Proof.
  apply (listpack_edit_values sample_es). split; [unfold index_ok; lia|].
  split; [repeat constructor; unfold is_byte; vm_compute; congruence | reflexivity].
Defined.

(** reading an element gives back its value: for a string, a pointer into
    the listpack at which exactly its bytes are; for an integer, the integer,
    or, when the caller passes a buffer of LP_INTBUF_SIZE bytes, its decimal
    form and a terminator inside that buffer. *)
Theorem lpGet_correct lp es i e buf ds :
  lp_repr lp es -> es !! i = Some e -> zlen buf = LP_INTBUF_SIZE ->
  match decode e with
  | LStr s => exists off, lpGet lp (offset es i) (Some buf) = Ok (InListpack off, zlen s, Some buf) /\
      lpGet lp (offset es i) None = Ok (InListpack off, zlen s, None) /\ rdn lp off (zlen s) = Ok s
  | LInt v => lpGet lp (offset es i) None = Ok (Null, v, None) /\
      lpGetIntegerValue lp (offset es i) = Ok (Some v) /\
      (is_sdec ds v -> lpGet lp (offset es i) (Some buf) =
         Ok (InBuf, zlen ds, Some (printed [] ds (drop (S (length ds)) buf))))
  end.
Proof.
  intros Hr He Hb. destruct (repr_split _ _ Hr i e He) as (a & c & Hlp & Ha & Hv).
  assert (forall ib, lpGet lp (offset es i) ib = match decode e with
    | LStr s => Ok (InListpack (offset es i + (zlen e - zlen s)), zlen s, ib) | LInt v => give v ib end) as Hget.
  { intros ib. rewrite Hlp. by apply get_buf_ok. }
  destruct (decode e) as [s|v] eqn:Hd.
  - exists (offset es i + (zlen e - zlen s)). rewrite !Hget. split_and!; [done | done|].
    by eapply read_str.
  - unfold lpGetIntegerValue. rewrite !Hget. split_and!; [done | done|]. intros Hds.
    pose proof (decode_int_range e v Hv Hd) as Hrange.
    destruct (is_sdec_exists v Hrange) as (ds' & Hds' & Hlen).
    rewrite (is_sdec_unique ds' ds v Hds' Hds) in Hlen.
    pose proof (ll2string_ok [] buf [] 0 LP_INTBUF_SIZE v ds eq_refl Hb Hrange Hds) as Hll.
    rewrite (proj2 (Z.ltb_lt _ _)) in Hll by lia. rewrite !app_nil_r in Hll. cbn [app] in Hll.
    unfold give. rewrite Hll. runr. done.
Qed.

Lemma lpGet_correct_witness :
  lpGet sample_lp (offset sample_es 2) None = Ok (Null, -7, None) /\
  lpGetIntegerValue sample_lp (offset sample_es 2) = Ok (Some (-7)) /\
  (is_sdec (chars "-7") (-7) -> lpGet sample_lp (offset sample_es 2) (Some (repeat 0 21)) =
     Ok (InBuf, 2, Some (printed [] (chars "-7") (drop 3 (repeat 0 21))))).
Proof.
  apply (lpGet_correct sample_lp sample_es 2 [223; 249] (repeat 0 21) (chars "-7"));
    [apply lp_sample_repr | reflexivity | reflexivity].
Defined.

(** [lpSeek] finds the element a zero-based or negative index denotes and
    returns null for the others, [lpLength] is the number of elements (and
    leaves the same listpack), and lpFirst, lpLast, lpNext and lpPrev step
    through the same positions. *)
Theorem lpSeek_walk_correct lp es index k :
  lp_repr lp es -> index_ok index -> 0 <= k < zlen es ->
  let at_ j := if (0 <=? j) && (j <? zlen es) then Some (offset es (Z.to_nat j)) else None in
  lpSeek lp index = Ok (at_ (norm_index (zlen es) index)) /\
  lpFirst lp = Ok (at_ 0) /\ lpLast lp = Ok (at_ (zlen es - 1)) /\
  lpNext lp (offset es (Z.to_nat k)) = Ok (at_ (k + 1)) /\
  lpPrev lp (offset es (Z.to_nat k)) = Ok (at_ (k - 1)) /\
  exists lp', lpLength lp = Ok (lp', zlen es) /\ lp_repr lp' es.
Proof.
  intros Hr Hi Hk at_. pose proof (repr_total _ _ Hr) as Ht. pose proof (repr_chain _ _ Hr) as Hc.
  assert (elem_at LP_HDR_SIZE (ends LP_HDR_SIZE es) k = Some (offset es (Z.to_nat k))) as Hek.
  { rewrite repr_elem. dec_bool. done. }
  unfold at_. rewrite <- !repr_elem. split_and!.
  - rewrite repr_elem. by apply repr_seek.
  - by eapply first_ok.
  - rewrite <- (ends_len LP_HDR_SIZE es). by eapply last_ok.
  - by eapply lp_next_ok.
  - eapply prev_elem; [done | done | rewrite ends_len; lia|].
    unfold elem_at in Hek. by destruct ((0 <=? k) && (k <? zlen (ends LP_HDR_SIZE es))).
  - destruct (repr_length _ _ Hr) as (lp' & H & Hr' & _). by exists lp'.
Qed.

Lemma lpSeek_walk_correct_witness :
  let at_ j := if (0 <=? j) && (j <? zlen sample_es) then Some (offset sample_es (Z.to_nat j)) else None in
  lpSeek sample_lp (-1) = Ok (at_ (norm_index (zlen sample_es) (-1))) /\
  lpFirst sample_lp = Ok (at_ 0) /\ lpLast sample_lp = Ok (at_ (zlen sample_es - 1)) /\
  lpNext sample_lp (offset sample_es (Z.to_nat 1)) = Ok (at_ (1 + 1)) /\
  lpPrev sample_lp (offset sample_es (Z.to_nat 1)) = Ok (at_ (1 - 1)) /\
  exists lp', lpLength sample_lp = Ok (lp', zlen sample_es) /\ lp_repr lp' sample_es.
Proof.
  apply (lpSeek_walk_correct sample_lp sample_es (-1) 1);
    [apply lp_sample_repr | unfold index_ok; lia | change (zlen sample_es) with 3; lia].
Defined.

(** [lpFind] returns the first element, among those it looks at when it
    skips [skip] elements between comparisons, that equals the given string
    byte for byte or is the integer the string spells, and null when there is
    none; the cached conversion of the string never changes the answer. *)
Theorem lpFind_correct lp es s p i skip :
  lp_repr lp es -> 0 <= skip < 2 ^ 31 ->
  (p = None /\ i = 0%nat) \/ (p = Some (offset es i) /\ (i < length es)%nat) ->
  exists r, lpFind lp p s (zlen s) skip = Ok (option_map (offset es) r) /\
    match r with
    | Some j => probed i 0 skip j /\ (exists e, es !! j = Some e /\ spells (decode e) s) /\
        forall j' e, (j' < j)%nat -> probed i 0 skip j' -> es !! j' = Some e -> ~ spells (decode e) s
    | None => forall j e, probed i 0 skip j -> es !! j = Some e -> ~ spells (decode e) s
    end.
Proof.
  intros Hr Hs Hp. destruct (lp_find_ok lp es Hr s p i skip Hs Hp) as (r & -> & Hf).
  pose proof (r_valid _ _ Hr) as Hv. rewrite Forall_lookup in Hv.
  exists r. split; [done|]. destruct r as [j|]; cbn [found] in Hf.
  - destruct Hf as (Hpj & (e & He & Hm) & Hmin). split_and!; [done| |].
    + exists e. split; [done|]. apply spells_iff; eauto.
    + intros j' e' Hlt Hpj' He' Hsp. apply spells_iff in Hsp; [|by eauto].
      rewrite (Hmin j' e' Hlt Hpj' He') in Hsp. done.
  - intros j e Hpj He Hsp. apply spells_iff in Hsp; [|by eauto]. by rewrite (Hf j e Hpj He) in Hsp.
Qed.

Lemma lpFind_correct_witness :
  exists r, lpFind sample_lp (Some (offset sample_es 0)) (chars "-7") 2 1 = Ok (option_map (offset sample_es) r) /\
    match r with
    | Some j => probed 0 0 1 j /\ (exists e, sample_es !! j = Some e /\ spells (decode e) (chars "-7")) /\
        forall j' e, (j' < j)%nat -> probed 0 0 1 j' -> sample_es !! j' = Some e -> ~ spells (decode e) (chars "-7")
    | None => forall j e, probed 0 0 1 j -> sample_es !! j = Some e -> ~ spells (decode e) (chars "-7")
    end.
Proof.
  apply (lpFind_correct sample_lp sample_es (chars "-7") (Some (offset sample_es 0)) 0 1);
    [apply lp_sample_repr | lia | right; split; [reflexivity | cbn; lia]].
Defined.

(** [lpCompare] decides whether an element equals a string, with or
    without the caller's cache, and keeps the cache right. *)
Theorem lpCompare_correct lp es s i e c :
  lp_repr lp es -> es !! i = Some e -> cache_ok s c ->
  exists b c', lpCompare lp (offset es i) s (zlen s) c = Ok (b, c') /\ cache_ok s c' /\
    (b = true <-> spells (decode e) s).
Proof.
  intros Hr He Hc. destruct (compare_ok lp es Hr s i e c He Hc) as (c' & -> & Hc').
  pose proof (r_valid _ _ Hr) as Hv. rewrite Forall_lookup in Hv.
  eexists _, _. split_and!; [done | done | apply spells_iff; eauto..].
Qed.

Lemma lpCompare_correct_witness :
  exists b c', lpCompare sample_lp (offset sample_es 1) (chars "300") 3 (Some (0, 0)) = Ok (b, c') /\
    cache_ok (chars "300") c' /\ (b = true <-> spells (decode [193; 44]) (chars "300")).
Proof.
  apply (lpCompare_correct sample_lp sample_es (chars "300") 1 [193; 44] (Some (0, 0)));
    [apply lp_sample_repr | reflexivity | left; reflexivity].
Defined.

(** [lpMerge] joins two listpacks whichever of them is the larger (it is
    the one reallocated and returned, the other becomes null), unless the
    result would reach 2^32-1 bytes, which is an assertion failure. *)
Theorem lpMerge_correct {alloc : Allocator} lp1 es1 lp2 es2 :
  lp_repr lp1 es1 -> lp_repr lp2 es2 ->
  if total (es1 ++ es2) <? UINT32_MAX then
    exists lp', lp_repr lp' (es1 ++ es2) /\
      lpMerge (Some lp1) (Some lp2) =
        Ok (Some (if total es2 <=? total es1 then (Some lp', None) else (None, Some lp')))
  else lpMerge (Some lp1) (Some lp2) = Err AssertFailed.
Proof. apply merge_ok. Qed.

Lemma lpMerge_correct_witness :
  if total (sample_es ++ sample_es) <? UINT32_MAX then
    exists lp', lp_repr lp' (sample_es ++ sample_es) /\
      @lpMerge alloc16 (Some sample_lp) (Some sample_lp) =
        Ok (Some (if total sample_es <=? total sample_es then (Some lp', None) else (None, Some lp')))
  else @lpMerge alloc16 (Some sample_lp) (Some sample_lp) = Err AssertFailed.
Proof. apply (@lpMerge_correct alloc16 sample_lp sample_es sample_lp sample_es); apply lp_sample_repr. Defined.

(** [lpBatchDelete], given pointers to elements in order (each followed by
    a run of elements to keep, possibly empty), deletes exactly those in one
    pass of moves. *)
Theorem lpBatchDelete_correct {alloc : Allocator} lp l gs :
  lp_repr lp (l ++ flat gs) ->
  exists lp', lpBatchDelete lp (group_offs (offset (l ++ flat gs) (length l)) gs) = Ok lp' /\
    lp_repr lp' (l ++ kept gs).
Proof. apply batch_delete_ok. Qed.

Lemma lpBatchDelete_correct_witness :
  exists lp', @lpBatchDelete exact_alloc sample_lp
      (group_offs (offset ([] ++ flat [([130; 104; 105], [[193; 44]]); ([223; 249], [])]) 0)
         [([130; 104; 105], [[193; 44]]); ([223; 249], [])]) = Ok lp' /\
    lp_repr lp' ([] ++ kept [([130; 104; 105], [[193; 44]]); ([223; 249], [])]).
Proof.
  apply (@lpBatchDelete_correct exact_alloc sample_lp [] [([130; 104; 105], [[193; 44]]); ([223; 249], [])]).
  apply lp_sample_repr.
Defined.

(** the guard [lpSafeToAdd] that callers put before growing a listpack is
    enough: when it accepts [add] bytes, storing any value whose string form
    takes at most [add] bytes is never refused. *)
Theorem lpSafeToAdd_bounds {alloc : Allocator} lp es add w i x :
  lp_repr lp es -> 0 <= add < 2 ^ 64 -> lpSafeToAdd (Some lp) add = Ok true -> total es + add < 2 ^ 64 ->
  pos_ok w i es -> val_ok x -> (forall s, x = LStr s -> zlen s <= add) ->
  exists lp', api_insert lp x (offset es i) w = Ok (Some (lp', Some (offset es (ins_pos w i)))) /\
    lp_repr lp' (put w i (encode_val x) es).
Proof.
  intros Hr Ha Hsafe Hnw Hi Hx Hlen. rewrite api_insert_eq.
  pose proof (insert_ok lp es w i x Hr Hi Hx) as H. cbv zeta in H.
  enough (total (put w i (encode_val x) es) <= UINT32_MAX) as Hle.
  { rewrite Z.gtb_ltb, (proj2 (Z.ltb_ge _ _)) in H by lia. exact H. }
  unfold lpSafeToAdd in Hsafe. rewrite (repr_total _ _ Hr) in Hsafe. runr_in Hsafe.
  pose proof (total_range _ _ Hr). rewrite wrapU_small, Z.gtb_ltb in Hsafe by lia.
  change LISTPACK_MAX_SAFETY_SIZE with 1073741824 in Hsafe.
  destruct (Z.ltb_spec 1073741824 (total es + add)); [done|].
  pose proof (put_size w i x es Hi Hx) as Hp. destruct x as [s|v]; cbn [ele_bytes] in Hp.
  - specialize (Hlen s eq_refl). lia.
  - lia.
Qed.

Lemma lpSafeToAdd_bounds_witness :
  exists lp', @api_insert exact_alloc sample_lp (LStr (chars "abc")) (offset sample_es 1) LP_BEFORE =
      Ok (Some (lp', Some (offset sample_es (ins_pos LP_BEFORE 1)))) /\
    lp_repr lp' (put LP_BEFORE 1 (encode_val (LStr (chars "abc"))) sample_es).
Proof.
  apply (@lpSafeToAdd_bounds exact_alloc sample_lp sample_es 3 LP_BEFORE 1 (LStr (chars "abc")));
    [apply lp_sample_repr | lia | reflexivity | reflexivity | cbn; lia | | intros s [= <-]; cbv; congruence].
  split; [repeat constructor; unfold is_byte; vm_compute; congruence | reflexivity].
Defined.
