(* ===== verification/Lzf.v ===== *)
(** Lzf: the LZF compressor and decompressor of
    src/redis-stable/src/lzf_c.c, lzf_d.c and lzfP.h, which rdb.c and
    quicklist.c use for string payloads and for cold list nodes.

    The configuration is the one lzfP.h selects: HLOG 16, VERY_FAST,
    CHECK_INPUT, no INIT_HTAB, pointers (not offsets) in the hash table, no
    [rep movsb].  STRICT_ALIGN depends on the host and stays a parameter.

    The hash table of [lzf_compress] is an uninitialised stack array of
    pointers: its initial contents are an arbitrary function [htab], and a
    slot holds a 64-bit address.  [in_data] is the address of the input
    block; [ip] and [op] are offsets into the input and the output block,
    [ref] is an address.

    The format itself is given by [token] and [expand], the reference the
    theorems of LzfProofs compare both directions with. *)

From Stdlib Require Import ZArith Lia Bool.
From stdpp Require Import base list numbers decidable.
From S2P Require Import Prelude Bytes.

Local Open Scope Z_scope.

(** * The format *)

(** A run of literal octets, or a copy of [n] octets that starts [d] octets
    before the end of what has been produced. *)
Inductive token :=
  | Lit (bs : list Z)
  | Ref (d n : Z).

Definition wf_token (t : token) : bool :=
  match t with
  | Lit bs => (1 <=? zlen bs) && (zlen bs <=? 32) && forallb (fun b => (0 <=? b) && (b <? 256)) bs
  | Ref d n => (1 <=? d) && (d <=? 8192) && (3 <=? n) && (n <=? 264)
  end.

Definition token_bytes (t : token) : list Z :=
  match t with
  | Lit bs => zlen bs - 1 :: bs
  | Ref d n =>
      if n <? 9 then [(d - 1) / 256 + 32 * (n - 2); (d - 1) mod 256]
      else [(d - 1) / 256 + 224; n - 9; (d - 1) mod 256]
  end.

Definition tokens_bytes (ts : list token) : list Z := concat (map token_bytes ts).

(** [n] times: append the octet [d] places before the end. *)
Fixpoint lz_copy (d n : nat) (h : list Z) : option (list Z) :=
  match n with
  | O => Some h
  | S n =>
      if (d =? 0)%nat || (length h <? d)%nat then None
      else match h !! (length h - d)%nat with
           | Some b => lz_copy d n (h ++ [b])
           | None => None
           end
  end.

Definition expand1 (h : list Z) (t : token) : option (list Z) :=
  match t with
  | Lit bs => Some (h ++ bs)
  | Ref d n => lz_copy (Z.to_nat d) (Z.to_nat n) h
  end.

Fixpoint expand (h : list Z) (ts : list token) : option (list Z) :=
  match ts with
  | [] => Some h
  | t :: ts =>
      match expand1 h t with
      | Some h => expand h ts
      | None => None
      end
  end.

(** * lzf_d.c *)

(** What [lzf_decompress] leaves in errno. *)
Inductive errno := E_OK | E2BIG | EINVAL.

#[global] Instance errno_eq_dec : EqDecision errno.
Proof. solve_decision. Defined.

(** [n] times [*op++ = *ip++]: the fall-through cases of the literal switch. *)
Fixpoint copy_lit (n : nat) (inp : list Z) (ip : Z) (out : list Z) (op : Z)
  : result (list Z) :=
  match n with
  | O => Ok out
  | S n =>
      let* b := rd1 inp ip in
      let* out := wr1 out op b in
      copy_lit n inp (ip + 1) out (op + 1)
  end.

(** [n] times [*op++ = *ref++], both in the output block. *)
Fixpoint copy_ref (n : nat) (out : list Z) (ref op : Z) : result (list Z) :=
  match n with
  | O => Ok out
  | S n =>
      let* b := rd1 out ref in
      let* out := wr1 out op b in
      copy_ref n out (ref + 1) (op + 1)
  end.

(** [switch (len)]: lengths up to 9 fall through the cases, longer ones go
    through [memcpy] when the areas are disjunct and octet by octet
    otherwise.  Returns the output block and the advanced [op]. *)
Definition copy_backref (out : list Z) (ref op len : Z) : result (list Z * Z) :=
  if len <=? 9 then
    let* out := copy_ref (Z.to_nat (len + 2)) out ref op in
    Ok (out, op + (len + 2))
  else
    let len := len + 2 in
    if op >=? ref + len then
      let* out := memmove out op ref len in
      Ok (out, op + len)
    else
      let* out := copy_ref (Z.to_nat len) out ref op in
      Ok (out, op + len).

(** One literal run, [ctrl] already incremented past its octet. *)
Definition lzf_literal (inp out : list Z) (ip op ctrl out_len in_len : Z)
  : result (list Z * Z * Z + errno) :=
  let ctrl := ctrl + 1 in
  if op + ctrl >? out_len then Ok (inr E2BIG)
  else if ip + ctrl >? in_len then Ok (inr EINVAL)
  else
    let* out := copy_lit (Z.to_nat ctrl) inp ip out op in
    Ok (inl (out, ip + ctrl, op + ctrl)).

(** One back reference, [ip] past the control octet. *)
Definition lzf_backref (inp out : list Z) (ip op ctrl out_len in_len : Z)
  : result (list Z * Z * Z + errno) :=
  let len := Z.shiftr ctrl 5 in
  let ref := op - Z.shiftl (Z.land ctrl 0x1f) 8 - 1 in
  if ip >=? in_len then Ok (inr EINVAL)
  else
    let* r :=
      (if len =? 7 then
         let* b := rd1 inp ip in
         let len := len + b in
         let ip := ip + 1 in
         if ip >=? in_len then Ok None else Ok (Some (len, ip))
       else Ok (Some (len, ip))) in
    match r with
    | None => Ok (inr EINVAL)
    | Some (len, ip) =>
        let* b := rd1 inp ip in
        let ref := ref - b in
        let ip := ip + 1 in
        if op + len + 2 >? out_len then Ok (inr E2BIG)
        else if ref <? 0 then Ok (inr EINVAL)
        else
          let* (out, op) := copy_backref out ref op len in
          Ok (inl (out, ip, op))
    end.

Fixpoint lzf_decompress_loop (fuel : nat) (inp out : list Z) (ip op out_len in_len : Z)
  : result (list Z * Z * errno) :=
  if ip <? in_len then
    match fuel with
    | O => Err OutOfFuel
    | S fuel =>
        let* ctrl := rd1 inp ip in
        let ip := ip + 1 in
        let* r :=
          (if ctrl <? 32 then lzf_literal inp out ip op ctrl out_len in_len
           else lzf_backref inp out ip op ctrl out_len in_len) in
        match r with
        | inr e => Ok (out, 0, e)
        | inl (out, ip, op) => lzf_decompress_loop fuel inp out ip op out_len in_len
        end
    end
  else Ok (out, op, E_OK).

(** The output block, the returned length, and errno.  Every iteration
    consumes an octet of input, which bounds the fuel. *)
Definition lzf_decompress (inp out : list Z) : result (list Z * Z * errno) :=
  lzf_decompress_loop (length inp) inp out 0 0 (zlen out) (zlen inp).

(** * lzf_c.c *)

Definition HLOG : Z := 16.
Definition HSIZE : Z := Z.shiftl 1 HLOG.
Definition MAX_LIT : Z := Z.shiftl 1 5.
Definition MAX_OFF : Z := Z.shiftl 1 13.
Definition MAX_REF : Z := Z.shiftl 1 8 + Z.shiftl 1 3.

Definition FRST (inp : list Z) (p : Z) : result Z :=
  let* b0 := rd1 inp p in
  let* b1 := rd1 inp (p + 1) in
  Ok (Z.lor (Z.shiftl b0 8) b1).

Definition NEXT (v : Z) (inp : list Z) (p : Z) : result Z :=
  let* b2 := rd1 inp (p + 2) in
  Ok (Z.lor (u32 (Z.shiftl v 8)) b2).

Definition IDX (h : Z) : Z :=
  Z.land (u32 (Z.shiftr h (3 * 8 - HLOG) - u32 (h * 5))) (HSIZE - 1).

(** LZF_STATE: one address per slot. *)
Definition LZF_STATE := Z -> Z.
Definition hslot_set (htab : LZF_STATE) (i p : Z) : LZF_STATE :=
  fun j => if j =? i then p else htab j.

Record cstate := CState {
  c_ip : Z;
  c_op : Z;
  c_lit : Z;
  c_hval : Z;
  c_htab : LZF_STATE;
  c_out : list Z
}.

Section compress.
Context {host : HostEndian}.
(** STRICT_ALIGN of lzfP.h. *)
Variable STRICT_ALIGN : bool.
(** The input block and its address. *)
Variable in_data : Z.
Variable inp : list Z.

(** [p[k]] for an address [p]. *)
Definition deref (p k : Z) : result Z := rd1 inp (p + k - in_data).

(** The two octets at [ref] and at [ip] compared as a 16-bit word. *)
Definition same_u16 (ref ip : Z) : result bool :=
  if STRICT_ALIGN then
    let* r1 := deref ref 1 in
    let* r0 := deref ref 0 in
    let* i1 := rd1 inp (ip + 1) in
    let* i0 := rd1 inp ip in
    Ok (Z.lor (Z.shiftl r1 8) r0 =? Z.lor (Z.shiftl i1 8) i0)
  else
    let* r := rdn inp (ref - in_data) 2 in
    let* i := rdn inp ip 2 in
    Ok (load r =? load i).

(** The condition of the [if]: the offset when there is a match at [ref]. *)
Definition find_match (ref ip : Z) : result (option Z) :=
  let off := u64 (in_data + ip - ref - 1) in
  if negb (off <? MAX_OFF) then Ok None
  else if negb (ref >? in_data) then Ok None
  else
    let* r2 := deref ref 2 in
    let* i2 := rd1 inp (ip + 2) in
    if negb (r2 =? i2) then Ok None
    else
      let* s := same_u16 ref ip in
      Ok (if s then Some off else None).

(** [n] times [len++; if (ref[len] != ip[len]) break;]: the length reached,
    and whether a [break] was taken. *)
Fixpoint unrolled (n : nat) (ref ip len : Z) : result (Z * bool) :=
  match n with
  | O => Ok (len, false)
  | S n =>
      let len := len + 1 in
      let* r := deref ref len in
      let* i := rd1 inp (ip + len) in
      if negb (r =? i) then Ok (len, true) else unrolled n ref ip len
  end.

(** [do len++; while (len < maxlen && ref[len] == ip[len]);] *)
Fixpoint do_match (fuel : nat) (ref ip len maxlen : Z) : result Z :=
  match fuel with
  | O => Err OutOfFuel
  | S fuel =>
      let len := len + 1 in
      if len <? maxlen then
        let* r := deref ref len in
        let* i := rd1 inp (ip + len) in
        if r =? i then do_match fuel ref ip len maxlen else Ok len
      else Ok len
  end.

(** The [for (;;)] block: how far the match extends.  [maxlen] is at most
    MAX_REF, so MAX_REF + 1 rounds are enough. *)
Definition match_len (ref ip maxlen : Z) : result Z :=
  let len := 2 in
  let* (len, stopped) := (if maxlen >? 16 then unrolled 16 ref ip len else Ok (len, false)) in
  if stopped then Ok len
  else do_match (Z.to_nat (MAX_REF + 1)) ref ip len maxlen.

(** The octets of a back reference of [len + 2] octets at [off]. *)
Definition put_ref (out : list Z) (op off len : Z) : result (list Z * Z) :=
  let* (out, op) :=
    (if len <? 7 then
       let* out := wr1 out op (u8 (Z.shiftr off 8 + Z.shiftl len 5)) in
       Ok (out, op + 1)
     else
       let* out := wr1 out op (u8 (Z.shiftr off 8 + Z.shiftl 7 5)) in
       let* out := wr1 out (op + 1) (u8 (len - 7)) in
       Ok (out, op + 2)) in
  let* out := wr1 out op (u8 off) in
  Ok (out, op + 1).

(** [op [- lit - 1] = lit - 1] *)
Definition stop_run (out : list Z) (op lit : Z) : result (list Z) :=
  wr1 out (op - lit - 1) (u8 (lit - 1)).

(** What the body of the loop decides. *)
Inductive next :=
  | Continue (s : cstate)
  | Break (s : cstate)
  | Return0 (out : list Z).

(** VERY_FAST: the hash table learns the last two positions of the match. *)
Definition rehash_tail (s : cstate) : result cstate :=
  let ip := c_ip s - 1 - 1 in
  let* hval := FRST inp ip in
  let* hval := NEXT hval inp ip in
  let htab := hslot_set (c_htab s) (IDX hval) (in_data + ip) in
  let ip := ip + 1 in
  let* hval := NEXT hval inp ip in
  let htab := hslot_set htab (IDX hval) (in_data + ip) in
  let ip := ip + 1 in
  Ok (CState ip (c_op s) (c_lit s) hval htab (c_out s)).

(** The branch taken when a match was found at [ref]. *)
Definition emit_match (s : cstate) (ref off : Z) : result next :=
  let ip := c_ip s in
  let op := c_op s in
  let lit := c_lit s in
  let in_end := zlen inp in
  let out_end := zlen (c_out s) in
  let nolit := b2z (lit =? 0) in
  let maxlen := in_end - ip - 2 in
  let maxlen := if maxlen >? MAX_REF then MAX_REF else maxlen in
  if (op + 3 + 1 >=? out_end) && (op - nolit + 3 + 1 >=? out_end) then Ok (Return0 (c_out s))
  else
    let* out := stop_run (c_out s) op lit in
    let op := op - nolit in
    let* len := match_len ref ip maxlen in
    let len := len - 2 in
    let ip := ip + 1 in
    let* (out, op) := put_ref out op off len in
    let lit := 0 in
    let op := op + 1 in
    let ip := ip + (len + 1) in
    let s := CState ip op lit (c_hval s) (c_htab s) out in
    if ip >=? in_end - 2 then Ok (Break s)
    else
      let* s := rehash_tail s in
      Ok (Continue s).

(** [lit++; *op++ = *ip++;] and the end of a full run. *)
Definition put_literal (s : cstate) : result cstate :=
  let* b := rd1 inp (c_ip s) in
  let* out := wr1 (c_out s) (c_op s) b in
  let lit := c_lit s + 1 in
  let ip := c_ip s + 1 in
  let op := c_op s + 1 in
  if lit =? MAX_LIT then
    let* out := stop_run out op lit in
    Ok (CState ip (op + 1) 0 (c_hval s) (c_htab s) out)
  else Ok (CState ip op lit (c_hval s) (c_htab s) out).

Definition emit_literal (s : cstate) : result next :=
  if c_op s >=? zlen (c_out s) then Ok (Return0 (c_out s))
  else
    let* s := put_literal s in
    Ok (Continue s).

(** One round of [while (ip < in_end - 2)]. *)
Definition compress_step (s : cstate) : result next :=
  let* hval := NEXT (c_hval s) inp (c_ip s) in
  let i := IDX hval in
  let ref := c_htab s i in
  let htab := hslot_set (c_htab s) i (in_data + c_ip s) in
  let s := CState (c_ip s) (c_op s) (c_lit s) hval htab (c_out s) in
  let* m := find_match ref (c_ip s) in
  match m with
  | Some off => emit_match s ref off
  | None => emit_literal s
  end.

Fixpoint compress_loop (fuel : nat) (s : cstate) : result (cstate + list Z) :=
  if c_ip s <? zlen inp - 2 then
    match fuel with
    | O => Err OutOfFuel
    | S fuel =>
        let* n := compress_step s in
        match n with
        | Continue s => compress_loop fuel s
        | Break s => Ok (inl s)
        | Return0 out => Ok (inr out)
        end
    end
  else Ok (inl s).

(** [while (ip < in_end)]: the octets after the last hashed position. *)
Fixpoint tail_loop (fuel : nat) (s : cstate) : result cstate :=
  if c_ip s <? zlen inp then
    match fuel with
    | O => Err OutOfFuel
    | S fuel =>
        let* s := put_literal s in
        tail_loop fuel s
    end
  else Ok s.

Definition compress_end (s : cstate) : result (list Z * Z) :=
  if c_op s + 3 >? zlen (c_out s) then Ok (c_out s, 0)
  else
    let* s := tail_loop (length inp) s in
    let* out := stop_run (c_out s) (c_op s) (c_lit s) in
    Ok (out, c_op s - b2z (c_lit s =? 0)).

(** The output block and the returned length.  [ip] grows in every round of
    the main loop, so one round per input octet is enough fuel. *)
Definition lzf_compress (htab : LZF_STATE) (out : list Z) : result (list Z * Z) :=
  if (zlen inp =? 0) || (zlen out =? 0) then Ok (out, 0)
  else
    let* hval := FRST inp 0 in
    let* r := compress_loop (length inp) (CState 0 1 0 hval htab out) in
    match r with
    | inr out => Ok (out, 0)
    | inl s => compress_end s
    end.
End compress.
