(* ===== verification/LzfProofs.v ===== *)
(** LzfProofs: the LZF decompressor accepts exactly the token sequences that
    fit the output, never leaves its two blocks on any input, and undoes the
    compressor whatever the compressor's uninitialised hash table holds. *)

From Stdlib Require Import ZArith Lia Bool.
From stdpp Require Import base list numbers decidable.
From S2P Require Import Prelude Bytes Lzf.

Local Open Scope Z_scope.

(** * Copying inside the output *)

Lemma lz_copy_defined d n h :
  (1 <= d <= length h)%nat ->
  exists h', lz_copy d n h = Some h' /\ length h' = (length h + n)%nat /\
             take (length h) h' = h.
Proof.
  revert h; induction n as [|n IH]; intros h Hd; simpl.
  - exists h. rewrite take_ge by lia. split_and!; [done | lia | done].
  - rewrite (proj2 (Nat.eqb_neq d 0)), (proj2 (Nat.ltb_ge _ _)) by lia. simpl.
    destruct (lookup_lt_is_Some_2 h (length h - d)) as [b Hb]; [lia|]. rewrite Hb.
    destruct (IH (h ++ [b])) as (h' & -> & Hl & Ht); [rewrite length_app; simpl; lia|].
    rewrite length_app in Hl, Ht. simpl in Hl, Ht.
    exists h'. split_and!; [done | lia |].
    replace (length h) with (length h `min` (length h + 1))%nat at 1 by lia.
    by rewrite <- take_take, Ht, take_app_length.
Qed.

Lemma lz_copy_some d n h h' :
  lz_copy d n h = Some h' -> (0 < n)%nat -> (1 <= d <= length h)%nat.
Proof.
  destruct n as [|n]; [lia|]. simpl. intros H _.
  destruct (Nat.eqb_spec d 0); simpl in H; [discriminate|].
  destruct (Nat.ltb_spec (length h) d); simpl in H; [discriminate | lia].
Qed.

(** A copy shorter than its distance is a plain block copy. *)
Lemma lz_copy_block d n h :
  (n <= d)%nat -> (1 <= d <= length h)%nat ->
  lz_copy d n h = Some (h ++ take n (drop (length h - d) h)).
Proof.
  revert h; induction n as [|n IH]; intros h Hn Hd; simpl.
  - by rewrite app_nil_r.
  - rewrite (proj2 (Nat.eqb_neq d 0)), (proj2 (Nat.ltb_ge _ _)) by lia. simpl.
    destruct (lookup_lt_is_Some_2 h (length h - d)) as [b Hb]; [lia|]. rewrite Hb.
    rewrite IH by (rewrite ?length_app; simpl; lia). f_equal.
    rewrite <- app_assoc. f_equal. rewrite length_app. simpl.
    rewrite (drop_S h b (length h - d)) by done. simpl. f_equal.
    rewrite drop_app_le by lia. rewrite take_app_le by (rewrite length_drop; lia).
    f_equal. f_equal. lia.
Qed.

Lemma copy_ref_ok d n h rest :
  (1 <= d <= length h)%nat -> (n <= length rest)%nat ->
  exists h', lz_copy d n h = Some h' /\
    copy_ref n (h ++ rest) (zlen h - Z.of_nat d) (zlen h) = Ok (h' ++ drop n rest).
Proof.
  revert h rest; induction n as [|n IH]; intros h rest Hd Hn; simpl.
  - exists h. done.
  - rewrite (proj2 (Nat.eqb_neq d 0)), (proj2 (Nat.ltb_ge _ _)) by lia. simpl.
    destruct (lookup_lt_is_Some_2 h (length h - d)) as [b Hb]; [lia|]. rewrite Hb.
    destruct rest as [|x rest]; [simpl in Hn; lia|]. simpl in Hn.
    rewrite (rd1_lookup _ _ b).
    2: unfold zlen; lia.
    2: { unfold zlen. replace (Z.to_nat _) with (length h - d)%nat by lia.
         rewrite lookup_app_l by lia. done. }
    runr. rewrite wr1_mid by done. runr. simpl drop.
    destruct (IH (h ++ [b]) rest) as (h' & H1 & H2); [rewrite length_app; simpl; lia | lia |].
    exists h'. split; [done|]. rewrite <- H2, <- app_assoc.
    rewrite zlen_app, zlen_one. simpl. f_equal; lia.
Qed.

Lemma copy_backref_ok d len h rest :
  1 <= d <= zlen h -> 0 <= len -> len + 2 <= zlen rest ->
  exists h', lz_copy (Z.to_nat d) (Z.to_nat (len + 2)) h = Some h' /\
    copy_backref (h ++ rest) (zlen h - d) (zlen h) len
    = Ok (h' ++ drop (Z.to_nat (len + 2)) rest, zlen h + (len + 2)).
Proof.
  intros Hd Hl Hr. unfold zlen in Hd, Hr.
  destruct (copy_ref_ok (Z.to_nat d) (Z.to_nat (len + 2)) h rest) as (h' & H1 & H2); [lia..|].
  rewrite Z2Nat.id in H2 by lia.
  exists h'. split; [done|]. unfold copy_backref.
  destruct (Z.leb_spec len 9); [by rewrite H2|].
  rewrite Z.geb_leb. destruct (Z.leb_spec (zlen h - d + (len + 2)) (zlen h)); [|by rewrite H2].
  rewrite lz_copy_block in H1 by lia. injection H1 as <-.
  set (n := Z.to_nat (len + 2)). set (k := (length h - Z.to_nat d)%nat).
  assert (h = take k h ++ take n (drop k h) ++ drop n (drop k h)) as Hh.
  { by rewrite !take_drop. }
  assert (Hk : zlen (take k h) = zlen h - d) by (unfold zlen, k; rewrite length_take; lia).
  assert (Hn : zlen (take n (drop k h)) = len + 2).
  { unfold zlen, n, k. rewrite length_take, length_drop. lia. }
  rewrite (memmove_mid (take k h) (take n (drop k h)) (drop n (drop k h) ++ rest) _ _ _ (zlen h)).
  2: { rewrite Hh at 1. by rewrite <- !app_assoc. }
  2-4: lia.
  replace (take k h ++ take n (drop k h) ++ drop n (drop k h) ++ rest)
    with (h ++ take n rest ++ drop n rest)
    by (rewrite take_drop; rewrite Hh at 1; by rewrite <- !app_assoc).
  rewrite wrn_mid; [|done|].
  - runr. by rewrite <- app_assoc.
  - rewrite Hn. unfold zlen, n. rewrite length_take. lia.
Qed.

Lemma copy_lit_ok pre bs post h rest :
  (length bs <= length rest)%nat ->
  copy_lit (length bs) (pre ++ bs ++ post) (zlen pre) (h ++ rest) (zlen h)
  = Ok (h ++ bs ++ drop (length bs) rest).
Proof.
  revert pre h rest; induction bs as [|b bs IH]; intros pre h rest Hl; simpl; [done|].
  rewrite rd1_mid by done. runr.
  destruct rest as [|x rest]; [simpl in Hl; lia|]. simpl in Hl.
  rewrite wr1_mid by done. runr. simpl drop.
  specialize (IH (pre ++ [b]) (h ++ [b]) rest ltac:(lia)).
  rewrite <- !app_assoc, !zlen_app, !zlen_one in IH. simpl in IH. by rewrite IH.
Qed.

(** * Control octets *)

Lemma ctrl_len a l : 0 <= a < 32 -> Z.shiftr (a + 32 * l) 5 = l.
Proof.
  intros Ha. rewrite Z.shiftr_div_pow2 by lia. change (2 ^ 5) with 32.
  rewrite (Z.mul_comm 32), Z.div_add, Z.div_small by lia. done.
Qed.

Lemma ctrl_off a l : 0 <= a < 32 -> Z.land (a + 32 * l) 0x1f = a.
Proof.
  intros Ha. change 0x1f with (Z.ones 5). rewrite Z.land_ones by lia. change (2 ^ 5) with 32.
  rewrite (Z.mul_comm 32), Z.mod_add, Z.mod_small by lia. done.
Qed.

Lemma off_split o : 0 <= o < 8192 -> 0 <= o / 256 < 32 /\ 0 <= o mod 256 < 256 /\ o = o / 256 * 256 + o mod 256.
Proof.
  intros Ho. pose proof (Z.mod_pos_bound o 256). pose proof (Z.div_mod o 256). lia.
Qed.

Lemma zlen_token_bytes t : wf_token t = true -> 1 <= zlen (token_bytes t).
Proof.
  intros _. destruct t as [bs|d n]; simpl; [|destruct (n <? 9)]; unfold zlen; simpl; lia.
Qed.

Lemma tokens_bytes_app a b : tokens_bytes (a ++ b) = tokens_bytes a ++ tokens_bytes b.
Proof. unfold tokens_bytes. by rewrite map_app, concat_app. Qed.

Lemma tokens_bytes_snoc a t : tokens_bytes (a ++ [t]) = tokens_bytes a ++ token_bytes t.
Proof. rewrite tokens_bytes_app. unfold tokens_bytes at 2. simpl. by rewrite app_nil_r. Qed.

Lemma expand_snoc h a t :
  expand h (a ++ [t]) = match expand h a with Some h => expand1 h t | None => None end.
Proof.
  revert h; induction a as [|t' a IH]; intros h; simpl.
  - by destruct (expand1 h t).
  - by destruct (expand1 h t').
Qed.

(** * The decompressor on a token *)

(** A literal run of the input, when both blocks have room for it. *)
Lemma lzf_literal_ok pre bs post h rest :
  1 <= zlen bs -> zlen bs <= zlen rest ->
  lzf_literal (pre ++ bs ++ post) (h ++ rest) (zlen pre) (zlen h) (zlen bs - 1)
    (zlen (h ++ rest)) (zlen (pre ++ bs ++ post))
  = Ok (inl (h ++ bs ++ drop (length bs) rest, zlen pre + zlen bs, zlen h + zlen bs)).
Proof.
  intros H1 H2. unfold lzf_literal. autorewrite with bytes. pose proof (zlen_nonneg post).
  replace (zlen bs - 1 + 1) with (zlen bs) by lia.
  rewrite !Z.gtb_ltb. dec_bool.
  replace (Z.to_nat (zlen bs)) with (length bs) by (unfold zlen; lia).
  rewrite copy_lit_ok by (unfold zlen in *; lia). done.
Qed.

(** The octets after the control octet of a back reference. *)
Definition ref_tail (d n : Z) : list Z :=
  if n <? 9 then [(d - 1) mod 256] else [n - 9; (d - 1) mod 256].

Definition ref_ctrl (d n : Z) : Z := (d - 1) / 256 + 32 * (if n <? 9 then n - 2 else 7).

Lemma token_bytes_ref d n : token_bytes (Ref d n) = ref_ctrl d n :: ref_tail d n.
Proof. unfold token_bytes, ref_ctrl, ref_tail. destruct (n <? 9); done. Qed.

Lemma ref_ctrl_ge d n : 1 <= d <= 8192 -> 3 <= n <= 264 -> 32 <= ref_ctrl d n.
Proof.
  intros Hd Hn. destruct (off_split (d - 1)); [lia|]. unfold ref_ctrl.
  destruct (n <? 9); lia.
Qed.

(** A back reference read in full: what is left are the two checks. *)
Lemma lzf_backref_reads pre post out op d n out_len :
  1 <= d <= 8192 -> 3 <= n <= 264 ->
  lzf_backref (pre ++ ref_tail d n ++ post) out (zlen pre) op (ref_ctrl d n) out_len
    (zlen (pre ++ ref_tail d n ++ post))
  = if out_len <? op + (n - 2) + 2 then Ok (inr E2BIG)
    else if op - d <? 0 then Ok (inr EINVAL)
    else
      let* (out, op) := copy_backref out (op - d) op (n - 2) in
      Ok (inl (out, zlen pre + zlen (ref_tail d n), op)).
Proof.
  intros Hd Hn. destruct (off_split (d - 1)) as (Ha & Hb & Hs); [lia|].
  unfold lzf_backref, ref_ctrl. rewrite ctrl_len, ctrl_off by done.
  rewrite Z.shiftl_mul_pow2 by lia. change (2 ^ 8) with 256.
  unfold ref_tail. pose proof (zlen_nonneg post).
  destruct (Z.ltb_spec n 9); autorewrite with bytes; rewrite ?Z.geb_leb; dec_bool; runr;
    cbn [app].
  - rewrite rd1_mid by done. runr.
    replace (op - (d - 1) / 256 * 256 - 1 - (d - 1) mod 256) with (op - d) by lia.
    by rewrite Z.gtb_ltb.
  - rewrite rd1_mid by done. runr. dec_bool. runr.
    change (pre ++ (n - 9) :: (d - 1) mod 256 :: post)
      with (pre ++ [n - 9] ++ (d - 1) mod 256 :: post).
    rewrite app_assoc, rd1_mid by (by rewrite zlen_app, zlen_one). runr.
    replace (op - (d - 1) / 256 * 256 - 1 - (d - 1) mod 256) with (op - d) by lia.
    replace (7 + (n - 9)) with (n - 2) by lia.
    replace (zlen pre + 1 + 1) with (zlen pre + (1 + (1 + 0))) by lia.
    done.
Qed.

(** Every octet string splits after its first token, or is cut inside it. *)
Lemma wf_ref d n : wf_token (Ref d n) = true <-> 1 <= d <= 8192 /\ 3 <= n <= 264.
Proof.
  unfold wf_token. rewrite !andb_true_iff, !Z.leb_le. lia.
Qed.

Lemma wf_lit bs :
  wf_token (Lit bs) = true <-> 1 <= zlen bs <= 32 /\ Forall is_byte bs.
Proof.
  unfold wf_token. rewrite !andb_true_iff, !Z.leb_le, forallb_forall, list.Forall_forall.
  split; intros H; (split; [lia|]).
  - intros b Hb. apply list_elem_of_In in Hb. apply (proj2 H) in Hb.
    unfold is_byte. lia.
  - intros b Hb. apply list_elem_of_In in Hb. apply (proj2 H) in Hb.
    unfold is_byte in Hb. lia.
Qed.

Lemma rd1_front {A} (a b c : list A) x : rd1 (a ++ (x :: b) ++ c) (zlen a) = Ok x.
Proof. by apply rd1_mid. Qed.

(** One round of the decompressor on a well-formed token that fits. *)
Lemma decompress_token fuel pre t post h h' rest :
  wf_token t = true -> expand1 h t = Some h' -> zlen h' <= zlen h + zlen rest ->
  lzf_decompress_loop (S fuel) (pre ++ token_bytes t ++ post) (h ++ rest) (zlen pre) (zlen h)
    (zlen (h ++ rest)) (zlen (pre ++ token_bytes t ++ post))
  = lzf_decompress_loop fuel (pre ++ token_bytes t ++ post)
      (h' ++ drop (length h' - length h) rest) (zlen pre + zlen (token_bytes t)) (zlen h')
      (zlen (h ++ rest)) (zlen (pre ++ token_bytes t ++ post)).
Proof.
  intros Hwf He Hfit. pose proof (zlen_token_bytes t Hwf). pose proof (zlen_nonneg post).
  cbn [lzf_decompress_loop].
  replace (zlen pre <? zlen (pre ++ token_bytes t ++ post)) with true
    by (rewrite !zlen_app; symmetry; apply Z.ltb_lt; lia).
  destruct t as [bs|d n].
  - apply wf_lit in Hwf as [Hl _]. injection He as <-. rewrite zlen_app in Hfit.
    change (token_bytes (Lit bs)) with (zlen bs - 1 :: bs).
    rewrite rd1_front. runr. dec_bool.
    change (zlen bs - 1 :: bs) with ([zlen bs - 1] ++ bs).
    rewrite <- app_assoc, (app_assoc pre).
    replace (zlen pre + 1) with (zlen (pre ++ [zlen bs - 1])) by (by rewrite zlen_app).
    rewrite lzf_literal_ok by lia. runr. rewrite <- !app_assoc, !zlen_app, length_app.
    replace (length h + length bs - length h)%nat with (length bs) by lia.
    f_equal; lia.
  - apply wf_ref in Hwf as [Hd Hn]. rewrite token_bytes_ref. simpl in He.
    apply lz_copy_some in He as Hdh; [|lia].
    destruct (copy_backref_ok d (n - 2) h rest) as (h2 & H2 & Hc); [unfold zlen; lia | lia | |].
    { destruct (lz_copy_defined (Z.to_nat d) (Z.to_nat n) h Hdh) as (h3 & E3 & L3 & _).
      rewrite He in E3. injection E3 as <-. unfold zlen in *. lia. }
    replace (n - 2 + 2) with n in * by lia. rewrite He in H2. injection H2 as <-.
    destruct (lz_copy_defined (Z.to_nat d) (Z.to_nat n) h Hdh) as (h3 & E3 & L3 & _).
    rewrite He in E3. injection E3 as <-.
    rewrite rd1_front. runr.
    change (ref_ctrl d n :: ref_tail d n) with ([ref_ctrl d n] ++ ref_tail d n).
    rewrite <- app_assoc, (app_assoc pre).
    pose proof (ref_ctrl_ge d n Hd Hn). dec_bool.
    replace (zlen pre + 1) with (zlen (pre ++ [ref_ctrl d n])) by (by rewrite zlen_app).
    rewrite lzf_backref_reads by done.
    replace (zlen h + (n - 2) + 2) with (zlen h + n) by lia.
    replace (zlen (h ++ rest) <? zlen h + n) with false.
    2: { symmetry. apply Z.ltb_ge. rewrite zlen_app. unfold zlen in *. lia. }
    replace (zlen h - d <? 0) with false by (symmetry; apply Z.ltb_ge; unfold zlen; lia).
    rewrite Hc. runr. rewrite !zlen_app, zlen_one, L3.
    replace (length h + Z.to_nat n - length h)%nat with (Z.to_nat n) by lia.
    replace (zlen h + n) with (zlen h') by (unfold zlen; lia).
    rewrite <- !app_assoc. f_equal; lia.
Qed.

Lemma expand_grows ts h h' : expand h ts = Some h' -> zlen h <= zlen h'.
Proof.
  revert h; induction ts as [|t ts IH]; intros h H; simpl in H; [injection H as <-; lia|].
  destruct (expand1 h t) as [h1|] eqn:E; [|discriminate]. apply IH in H.
  destruct t as [bs|d n]; simpl in E.
  - injection E as <-. rewrite zlen_app in H. pose proof (zlen_nonneg bs). lia.
  - destruct (Z.to_nat n) as [|k] eqn:En; [simpl in E; injection E as <-; lia|].
    rewrite <- En in E. apply lz_copy_some in E as Hd; [|lia].
    destruct (lz_copy_defined (Z.to_nat d) (Z.to_nat n) h Hd) as (h3 & E3 & L3 & _).
    rewrite E in E3. injection E3 as <-. unfold zlen in *. lia.
Qed.

Lemma decompress_tokens ts : forall fuel pre h h' rest,
  forallb wf_token ts = true -> expand h ts = Some h' -> zlen h' <= zlen h + zlen rest ->
  (length ts <= fuel)%nat ->
  lzf_decompress_loop fuel (pre ++ tokens_bytes ts) (h ++ rest) (zlen pre) (zlen h)
    (zlen (h ++ rest)) (zlen (pre ++ tokens_bytes ts))
  = Ok (h' ++ drop (length h' - length h) rest, zlen h', E_OK).
Proof.
  induction ts as [|t ts IH]; intros fuel pre h h' rest Hwf He Hfit Hf.
  - injection He as <-. unfold tokens_bytes. simpl. rewrite app_nil_r, Nat.sub_diag.
    destruct fuel; simpl; rewrite Z.ltb_irrefl; done.
  - simpl in He, Hwf, Hf. apply andb_true_iff in Hwf as [Ht Hts].
    destruct (expand1 h t) as [h1|] eqn:E1; [|discriminate].
    destruct fuel as [|fuel]; [lia|].
    assert (zlen h <= zlen h1) as Hg.
    { apply (expand_grows [t] h h1). simpl. by rewrite E1. }
    pose proof (expand_grows ts h1 h' He) as Hg'.
    change (tokens_bytes (t :: ts)) with (token_bytes t ++ tokens_bytes ts).
    rewrite (decompress_token _ _ _ _ _ h1) by (done || lia).
    rewrite (app_assoc pre), <- (zlen_app pre).
    replace (zlen (h ++ rest)) with (zlen (h1 ++ drop (length h1 - length h) rest)).
    2: { rewrite !zlen_app. unfold zlen in *. rewrite length_drop. lia. }
    rewrite IH with (h' := h'); [| done | done | | lia].
    + rewrite drop_drop. unfold zlen in *. repeat f_equal. lia.
    + unfold zlen in *. rewrite length_drop. lia.
Qed.

(** * The decompressor on any input *)

Lemma tokens_length ts :
  forallb wf_token ts = true -> Z.of_nat (length ts) <= zlen (tokens_bytes ts).
Proof.
  induction ts as [|t ts IH]; simpl; [done|]. intros [Ht Hts]%andb_true_iff.
  change (tokens_bytes (t :: ts)) with (token_bytes t ++ tokens_bytes ts).
  rewrite zlen_app. pose proof (zlen_token_bytes t Ht). specialize (IH Hts). lia.
Qed.

(** The rest [s] of the input is a token sequence that fits ... *)
Definition tokens_fit (s h rest : list Z) : Prop :=
  exists ts h', forallb wf_token ts = true /\ s = tokens_bytes ts /\
    expand h ts = Some h' /\ zlen h' <= zlen h + zlen rest.

(** ... or the loop reports an error. *)
Definition rejects (fuel : nat) (pre s h rest : list Z) : Prop :=
  exists out' e,
    lzf_decompress_loop fuel (pre ++ s) (h ++ rest) (zlen pre) (zlen h)
      (zlen (h ++ rest)) (zlen (pre ++ s)) = Ok (out', 0, e) /\
    e <> E_OK /\ zlen out' = zlen (h ++ rest).

Lemma peel_token fuel pre t post h h1 rest :
  wf_token t = true -> expand1 h t = Some h1 -> zlen h1 <= zlen h + zlen rest ->
  (forall pre h rest, tokens_fit post h rest \/ rejects fuel pre post h rest) ->
  tokens_fit (token_bytes t ++ post) h rest \/
  rejects (S fuel) pre (token_bytes t ++ post) h rest.
Proof.
  intros Hwf He Hfit IH.
  assert (zlen h <= zlen h1) as Hg.
  { apply (expand_grows [t] h h1). simpl. by rewrite He. }
  set (rest1 := drop (length h1 - length h) rest).
  assert (zlen (h1 ++ rest1) = zlen (h ++ rest)) as Hz.
  { rewrite !zlen_app. unfold rest1, zlen in *. rewrite length_drop. lia. }
  destruct (IH (pre ++ token_bytes t) h1 rest1) as [(ts & h' & H1 & -> & H3 & H4)|(o & e & H & Hne & Hl)].
  - left. exists (t :: ts), h'. simpl. rewrite Hwf, He. split_and!; try done.
    rewrite !zlen_app in Hz. lia.
  - right. exists o, e. split_and!; [| done | lia].
    rewrite (decompress_token _ _ _ _ _ h1) by done.
    by rewrite <- !app_assoc, Hz, zlen_app in H.
Qed.

Lemma literal_rejects fuel pre s h rest c :
  0 <= c < 32 -> zlen rest < c + 1 \/ zlen s < c + 1 ->
  exists e,
    e <> E_OK /\
    lzf_decompress_loop (S fuel) (pre ++ c :: s) (h ++ rest) (zlen pre) (zlen h)
      (zlen (h ++ rest)) (zlen (pre ++ c :: s)) = Ok (h ++ rest, 0, e).
Proof.
  intros Hc Hbad. pose proof (zlen_nonneg s). cbn [lzf_decompress_loop].
  rewrite rd1_mid by done. autorewrite with bytes. runr. dec_bool. unfold lzf_literal.
  rewrite !Z.gtb_ltb.
  destruct (Z.ltb_spec (zlen h + zlen rest) (zlen h + (c + 1))); runr; [by exists E2BIG|].
  dec_bool. by exists EINVAL.
Qed.

(** A control octet of a back reference and what follows it. *)
Lemma split_ref c s :
  32 <= c < 256 -> Forall is_byte s ->
  (s = [] \/ (7 = c / 32 /\ zlen s = 1)) \/
  exists d n post, 1 <= d <= 8192 /\ 3 <= n <= 264 /\
    c = ref_ctrl d n /\ s = ref_tail d n ++ post.
Proof.
  intros Hc Hb. set (a := c mod 32). set (l := c / 32).
  assert (0 <= a < 32) as Ha by (apply Z.mod_pos_bound; lia).
  assert (c = a + 32 * l) as Hcl by (unfold a, l; pose proof (Z.div_mod c 32); lia).
  assert (forall b, is_byte b -> (a * 256 + b + 1 - 1) / 256 = a /\ (a * 256 + b + 1 - 1) mod 256 = b) as Hdm.
  { intros b Hbb. unfold is_byte in Hbb. replace (a * 256 + b + 1 - 1) with (b + a * 256) by lia.
    rewrite Z.div_add, Z.mod_add, Z.div_small, Z.mod_small by lia. done. }
  unfold ref_ctrl, ref_tail.
  destruct s as [|b s]; [left; by left|]. apply list.Forall_cons in Hb as [Hb1 Hb].
  destruct (decide (l = 7)) as [H7|H7].
  - destruct s as [|b2 s]; [left; right; split; [lia | done]|].
    apply list.Forall_cons in Hb as [Hb2 _]. destruct (Hdm b2 Hb2) as [E1 E2].
    right. exists (a * 256 + b2 + 1), (9 + b), s. unfold is_byte in *.
    rewrite E1, E2, (proj2 (Z.ltb_ge (9 + b) 9)) by lia.
    split_and!; [lia.. | simpl; do 2 f_equal; lia].
  - destruct (Hdm b Hb1) as [E1 E2]. right. exists (a * 256 + b + 1), (l + 2), s.
    unfold is_byte in *.
    rewrite E1, E2, (proj2 (Z.ltb_lt (l + 2) 9)) by lia.
    split_and!; [lia.. | done].
Qed.

Lemma short_ref_rejects fuel pre c s h rest :
  32 <= c < 256 -> s = [] \/ (7 = c / 32 /\ zlen s = 1) ->
  lzf_decompress_loop (S fuel) (pre ++ c :: s) (h ++ rest) (zlen pre) (zlen h)
    (zlen (h ++ rest)) (zlen (pre ++ c :: s)) = Ok (h ++ rest, 0, EINVAL).
Proof.
  intros Hc Hs. pose proof (zlen_nonneg s). cbn [lzf_decompress_loop].
  rewrite rd1_mid by done. autorewrite with bytes. runr. dec_bool. unfold lzf_backref.
  rewrite !Z.geb_leb. destruct Hs as [-> | [H7 Hs]].
  - change (zlen (@nil Z)) with 0. dec_bool. done.
  - destruct s as [|b [|]]; [done | |unfold zlen in Hs; simpl in Hs; lia].
    rewrite zlen_one. dec_bool. rewrite Z.shiftr_div_pow2 by lia. change (2 ^ 5) with 32.
    rewrite <- H7. cbn [Z.eqb Pos.eqb].
    change (pre ++ [c; b]) with (pre ++ [c] ++ b :: []).
    rewrite app_assoc, rd1_mid by (by rewrite zlen_app). runr. dec_bool. done.
Qed.

Lemma ref_rejects fuel pre post h rest d n :
  1 <= d <= 8192 -> 3 <= n <= 264 -> zlen h < d \/ zlen rest < n ->
  exists e,
    e <> E_OK /\
    lzf_decompress_loop (S fuel) (pre ++ token_bytes (Ref d n) ++ post) (h ++ rest) (zlen pre) (zlen h)
      (zlen (h ++ rest)) (zlen (pre ++ token_bytes (Ref d n) ++ post)) = Ok (h ++ rest, 0, e).
Proof.
  intros Hd Hn Hbad. cbn [lzf_decompress_loop]. pose proof (zlen_nonneg post).
  pose proof (zlen_token_bytes (Ref d n) (proj2 (wf_ref d n) (conj Hd Hn))).
  replace (zlen pre <? zlen (pre ++ token_bytes (Ref d n) ++ post)) with true
    by (rewrite !zlen_app; symmetry; apply Z.ltb_lt; lia).
  rewrite token_bytes_ref, rd1_front. runr.
  change (ref_ctrl d n :: ref_tail d n) with ([ref_ctrl d n] ++ ref_tail d n).
  rewrite <- app_assoc, (app_assoc pre).
  rewrite (proj2 (Z.ltb_ge (ref_ctrl d n) 32)) by (by apply ref_ctrl_ge).
  replace (zlen pre + 1) with (zlen (pre ++ [ref_ctrl d n])) by (by rewrite zlen_app).
  rewrite lzf_backref_reads, (zlen_app h rest) by done.
  destruct (Z.ltb_spec (zlen h + zlen rest) (zlen h + (n - 2) + 2)); runr; [by exists E2BIG|].
  dec_bool. runr. by exists EINVAL.
Qed.

Lemma decompress_any fuel : forall s pre h rest,
  Forall is_byte s -> (length s <= fuel)%nat ->
  tokens_fit s h rest \/ rejects fuel pre s h rest.
Proof.
  induction fuel as [|fuel IH]; intros s pre h rest Hb Hf.
  { destruct s; [|simpl in Hf; lia]. left. exists [], h. split_and!; try done.
    pose proof (zlen_nonneg rest). lia. }
  destruct s as [|c s].
  { left. exists [], h. split_and!; try done. pose proof (zlen_nonneg rest). lia. }
  apply list.Forall_cons in Hb as [Hc Hb]. unfold is_byte in Hc. simpl in Hf.
  destruct (Z.ltb_spec c 32) as [Hc32|Hc32].
  - destruct (decide (zlen rest < c + 1 \/ zlen s < c + 1)) as [Hbad|Hgood].
    + right. destruct (literal_rejects fuel pre s h rest c) as (e & He & H); [lia..|].
      exists (h ++ rest), e. done.
    + assert (s = take (Z.to_nat (c + 1)) s ++ drop (Z.to_nat (c + 1)) s) as Hs by (by rewrite take_drop).
      set (bs := take (Z.to_nat (c + 1)) s) in *. set (post := drop (Z.to_nat (c + 1)) s) in *.
      assert (zlen bs = c + 1) as Hbs by (unfold bs; rewrite zlen_take; lia).
      replace (c :: s) with (token_bytes (Lit bs) ++ post).
      2: { simpl. rewrite <- Hs, Hbs. f_equal. lia. }
      apply (peel_token _ _ _ _ _ (h ++ bs)); [| done | rewrite zlen_app; lia |].
      * apply wf_lit. split; [lia|]. rewrite Hs in Hb. by apply Forall_app in Hb as [? _].
      * intros. apply IH; [by apply Forall_drop | unfold post; rewrite length_drop; lia].
  - destruct (split_ref c s) as [Hshort|(d & n & post & Hd & Hn & -> & ->)]; [lia | done | right |].
    + exists (h ++ rest), EINVAL. split_and!; [apply short_ref_rejects; [lia | done] | done | done].
    + rewrite app_comm_cons, <- token_bytes_ref.
      destruct (decide (d <= zlen h /\ n <= zlen rest)) as [[Hdh Hnr]|Hbad].
      * destruct (lz_copy_defined (Z.to_nat d) (Z.to_nat n) h) as (h1 & E1 & L1 & _);
          [unfold zlen in *; lia|].
        apply (peel_token _ _ _ _ _ h1); [apply wf_ref; lia | done | unfold zlen in *; lia |].
        intros. apply IH; [by apply Forall_app in Hb as [_ ?] |].
        rewrite length_app in Hf. lia.
      * right. destruct (ref_rejects fuel pre post h rest d n) as (e & He & H); [lia..|].
        exists (h ++ rest), e. done.
Qed.

(** [decodes inp h]: [inp] is a sequence of well-formed tokens that expands
    to [h]. *)
Definition decodes (inp h : list Z) : Prop :=
  exists ts, forallb wf_token ts = true /\ inp = tokens_bytes ts /\ expand [] ts = Some h.

Lemma decompress_decodes inp h out :
  decodes inp h -> zlen h <= zlen out ->
  lzf_decompress inp out = Ok (h ++ drop (length h) out, zlen h, E_OK).
Proof.
  intros (ts & Hwf & -> & He) Hfit. unfold lzf_decompress.
  pose proof (tokens_length ts Hwf).
  rewrite <- (Nat.sub_0_r (length h)).
  apply (decompress_tokens ts (length (tokens_bytes ts)) [] [] h out Hwf He);
    change (zlen (@nil Z)) with 0; unfold zlen in *; lia.
Qed.

(** The decompressor returns on every input. *)
Lemma decompress_total inp out :
  Forall is_byte inp -> exists out' n e, lzf_decompress inp out = Ok (out', n, e).
Proof.
  intros Hb.
  destruct (decompress_any (length inp) inp [] [] out Hb) as
    [(ts & h & Hwf & Hs & He & Hfit) | (out' & e & H & _)]; [done | |].
  - change (zlen (@nil Z)) with 0 in Hfit.
    rewrite (decompress_decodes inp h out) by (lia || by exists ts). eauto.
  - eauto.
Qed.

(** C15: whatever the compressed bytes are, [lzf_decompress] stops, reads and
    writes only inside its two blocks, and tells the two cases apart: with
    errno untouched the input is a token sequence of the format, the returned
    length is that of its expansion and the output block starts with it, the
    bytes after it being unchanged; with E2BIG or EINVAL the function returns
    0 and the input is not a token sequence whose expansion fits. *)
Theorem lzf_decompress_correct inp out :
  Forall is_byte inp ->
  exists out' n e,
    lzf_decompress inp out = Ok (out', n, e) /\
    zlen out' = zlen out /\ 0 <= n <= zlen out /\
    match e with
    | E_OK => decodes inp (take (Z.to_nat n) out') /\
              drop (Z.to_nat n) out' = drop (Z.to_nat n) out
    | _ => n = 0 /\ forall h, zlen h <= zlen out -> ~ decodes inp h
    end.
Proof.
  intros Hb.
  destruct (decompress_any (length inp) inp [] [] out Hb) as
    [(ts & h & Hwf & Hs & He & Hfit) | (out' & e & H & Hne & Hl)]; [done | |].
  - change (zlen (@nil Z)) with 0 in Hfit. assert (decodes inp h) as Hd by (by exists ts).
    exists (h ++ drop (length h) out), (zlen h), E_OK.
    rewrite (decompress_decodes inp h out) by (done || lia).
    unfold zlen in *. rewrite Nat2Z.id, take_app_length, drop_app_length, length_app, length_drop.
    split_and!; done || lia.
  - exists out', 0, e. assert (lzf_decompress inp out = Ok (out', 0, e)) as Hr by done.
    split_and!; [done.. | apply zlen_nonneg |].
    assert (forall h, zlen h <= zlen out -> ~ decodes inp h) as Hn.
    { intros h Hf Hd. rewrite (decompress_decodes inp h out Hd Hf) in Hr. congruence. }
    destruct e; done.
Qed.

Lemma lzf_decompress_correct_witness :
  exists out' n e,
    lzf_decompress [1; 7; 8; 32; 1; 63; 0] (repeat 0 8) = Ok (out', n, e) /\
    zlen out' = 8 /\ 0 <= n <= 8 /\
    match e with
    | E_OK => decodes [1; 7; 8; 32; 1; 63; 0] (take (Z.to_nat n) out') /\
              drop (Z.to_nat n) out' = drop (Z.to_nat n) (repeat 0 8)
    | _ => n = 0 /\ forall h, zlen h <= 8 -> ~ decodes [1; 7; 8; 32; 1; 63; 0] h
    end.
Proof.
  apply (lzf_decompress_correct [1; 7; 8; 32; 1; 63; 0] (repeat 0 8)).
  unfold is_byte. repeat constructor; lia.
Defined.
