(* ===== verification/LzfCompress.v ===== *)
(** LzfCompress: [lzf_compress] never leaves its blocks, succeeds whenever the
    output has room for the worst case, and produces a token sequence that
    expands to its input, whatever its uninitialised hash table holds. *)

From Stdlib Require Import ZArith Lia Bool.
From stdpp Require Import base list numbers decidable.
From S2P Require Import Prelude Bytes Lzf LzfProofs.

Local Open Scope Z_scope.

Lemma lzf_consts : MAX_LIT = 32 /\ MAX_OFF = 8192 /\ MAX_REF = 264.
Proof. done. Qed.

Lemma cons_app {A} (x : A) l : x :: l = [x] ++ l.
Proof. done. Qed.

Lemma word_of_octets a b :
  0 <= a < 256 -> 0 <= b < 256 -> Z.lor (Z.shiftl a 8) b = a * 256 + b.
Proof.
  intros Ha Hb. rewrite Z.lor_comm, lor_disjoint by (change (2 ^ 8) with 256; lia).
  change (2 ^ 8) with 256. lia.
Qed.

Section compressor.
Context {host : HostEndian}.
Variable STRICT_ALIGN : bool.
Variable in_data : Z.
Variable inp : list Z.
Hypothesis inp_bytes : Forall is_byte inp.
(** The input block lies in the 64-bit address space, above the first pages. *)
Hypothesis in_data_low : 8192 <= in_data.
Hypothesis in_data_high : in_data + zlen inp < 2 ^ 64.

(** * Matches *)

(** The [n] octets at [r] and at [ip] are equal. *)
Definition same (r ip n : Z) : Prop :=
  forall k, 0 <= k < n -> inp !! Z.to_nat (r + k) = inp !! Z.to_nat (ip + k).

Lemma same_next r ip n :
  0 <= n -> same r ip n -> inp !! Z.to_nat (r + n) = inp !! Z.to_nat (ip + n) -> same r ip (n + 1).
Proof.
  intros Hn Hs He k Hk. destruct (decide (k = n)) as [->|]; [done|]. apply Hs. lia.
Qed.

(** A match is a legal back reference: copying it extends the prefix. *)
Lemma copy_prefix n : forall a p,
  (a < p)%nat -> (p + n <= length inp)%nat ->
  (forall k, (k < n)%nat -> inp !! (a + k)%nat = inp !! (p + k)%nat) ->
  lz_copy (p - a) n (take p inp) = Some (take (p + n) inp).
Proof.
  induction n as [|n IH]; intros a p Ha Hl Hs; cbn [lz_copy].
  { by rewrite Nat.add_0_r. }
  rewrite length_take, Nat.min_l by lia.
  rewrite (proj2 (Nat.eqb_neq _ 0)), (proj2 (Nat.ltb_ge _ _)) by lia. cbn [orb].
  destruct (lookup_lt_is_Some_2 inp p) as [b Hb]; [lia|].
  rewrite lookup_take_lt by lia.
  replace (p - (p - a))%nat with a by lia.
  specialize (Hs 0%nat ltac:(lia)) as H0. rewrite !Nat.add_0_r in H0. rewrite H0, Hb.
  rewrite <- (take_S_r inp p b) by done.
  replace (p - a)%nat with (S p - S a)%nat by lia.
  rewrite IH; [by rewrite Nat.add_succ_r | lia | lia |].
  intros k Hk. specialize (Hs (S k) ltac:(lia)). by rewrite !Nat.add_succ_r in Hs.
Qed.

Lemma same_copy r ip n :
  0 <= r < ip -> 0 <= n -> ip + n <= zlen inp -> same r ip n ->
  lz_copy (Z.to_nat (ip - r)) (Z.to_nat n) (take (Z.to_nat ip) inp)
  = Some (take (Z.to_nat (ip + n)) inp).
Proof.
  intros Hr Hn Hle Hs. unfold zlen in Hle.
  replace (Z.to_nat (ip + n)) with (Z.to_nat ip + Z.to_nat n)%nat by lia.
  replace (Z.to_nat (ip - r)) with (Z.to_nat ip - Z.to_nat r)%nat by lia.
  apply copy_prefix; [lia.. |]. intros k Hk. specialize (Hs (Z.of_nat k) ltac:(lia)).
  by rewrite !Z2Nat.inj_add, Nat2Z.id in Hs by lia.
Qed.

Lemma deref_in r k :
  0 <= r + k < zlen inp ->
  exists b, deref in_data inp (in_data + r) k = Ok b /\ inp !! Z.to_nat (r + k) = Some b.
Proof.
  intros H. unfold deref. replace (in_data + r + k - in_data) with (r + k) by lia.
  by apply rd1_ok.
Qed.

Lemma two_octets r :
  0 <= r -> r + 1 < zlen inp ->
  exists a b, inp !! Z.to_nat r = Some a /\ inp !! Z.to_nat (r + 1) = Some b /\
    rd1 inp r = Ok a /\ rd1 inp (r + 1) = Ok b /\ rdn inp r 2 = Ok [a; b] /\
    is_byte a /\ is_byte b.
Proof.
  intros H0 H1. destruct (rd1_ok inp r) as (a & Ra & La); [lia|].
  destruct (rd1_ok inp (r + 1)) as (b & Rb & Lb); [lia|].
  exists a, b. split_and!; try done.
  - unfold rdn. dec_bool. rewrite (drop_S inp a) by done.
    replace (Z.to_nat (r + 1)) with (S (Z.to_nat r)) in Lb by lia.
    by rewrite (drop_S inp b) by done.
  - by eapply list.Forall_lookup_1.
  - by eapply list.Forall_lookup_1.
Qed.

(** Both ways of comparing the first two octets. *)
Lemma same_u16_ok r ip :
  0 <= r -> r + 1 < zlen inp -> 0 <= ip -> ip + 1 < zlen inp ->
  exists s, same_u16 STRICT_ALIGN in_data inp (in_data + r) ip = Ok s /\
            (s = true -> same r ip 2).
Proof.
  intros Hr Hr1 Hi Hi1.
  destruct (two_octets r) as (a & b & La & Lb & Ra & Rb & Rn & Ba & Bb); [lia..|].
  destruct (two_octets ip) as (a' & b' & La' & Lb' & Ra' & Rb' & Rn' & Ba' & Bb'); [lia..|].
  assert (a = a' /\ b = b' -> same r ip 2) as Hsame.
  { intros [-> ->] k Hk. assert (k = 0 \/ k = 1) as [-> | ->] by lia.
    - rewrite !Z.add_0_r. congruence.
    - congruence. }
  unfold same_u16, deref.
  replace (in_data + r + 1 - in_data) with (r + 1) by lia.
  replace (in_data + r + 0 - in_data) with r by lia.
  replace (in_data + r - in_data) with r by lia.
  unfold is_byte in *. destruct STRICT_ALIGN.
  - rewrite Rb, Ra, Rb', Ra'. runr. eexists. split; [done|]. intros Hs%Z.eqb_eq. apply Hsame.
    rewrite !word_of_octets in Hs by lia. lia.
  - rewrite Rn, Rn'. runr. eexists. split; [done|]. intros Hs%Z.eqb_eq. apply Hsame.
    unfold load in Hs. destruct host_is_be; cbn in Hs; lia.
Qed.

(** The test for a match: what it finds lies strictly inside the input,
    before [ip] and at most MAX_OFF octets away, and agrees on three octets. *)
Lemma find_match_ok ref ip :
  0 <= ip -> ip + 2 < zlen inp -> 0 <= ref < 2 ^ 64 ->
  exists m, find_match STRICT_ALIGN in_data inp ref ip = Ok m /\
    forall off, m = Some off ->
      exists r, ref = in_data + r /\ 0 < r < ip /\ off = ip - r - 1 /\ off < 8192 /\ same r ip 3.
Proof.
  intros Hi Hi2 Href. destruct lzf_consts as (_ & HO & _). unfold find_match.
  rewrite HO. set (off := u64 (in_data + ip - ref - 1)).
  destruct (Z.ltb_spec off 8192) as [Hoff|]; cbn [negb]; [|by exists None].
  rewrite Z.gtb_ltb. destruct (Z.ltb_spec in_data ref) as [Hgt|]; cbn [negb]; [|by exists None].
  assert (ref < in_data + ip /\ off = in_data + ip - ref - 1) as [Hlt Ho].
  { unfold off, wrapU in *. destruct (Z.ltb_spec (in_data + ip - ref - 1) 0).
    - rewrite <- (Z.mod_add _ 1), Z.mod_small in Hoff by lia. lia.
    - rewrite Z.mod_small in * by lia. lia. }
  set (r := ref - in_data). replace ref with (in_data + r) by lia.
  destruct (deref_in r 2) as (b & -> & Lb); [lia|].
  destruct (rd1_ok inp (ip + 2)) as (b' & -> & Lb'); [lia|]. runr.
  destruct (Z.eqb_spec b b') as [->|]; cbn [negb]; [|by exists None].
  destruct (same_u16_ok r ip) as (s & -> & Hs); [lia..|]. runr.
  eexists. split; [done|]. intros o Hm. destruct s; [|done]. injection Hm as <-.
  exists r. split_and!; try lia. apply (same_next r ip 2); [lia | auto | congruence].
Qed.
(** * How far a match extends *)

Lemma unrolled_ok n : forall r ip len,
  0 <= r < ip -> 0 <= len -> ip + len + Z.of_nat n < zlen inp -> same r ip (len + 1) ->
  exists len' st, unrolled in_data inp n (in_data + r) ip len = Ok (len', st) /\
    len <= len' <= len + Z.of_nat n /\
    (if st then len < len' /\ same r ip len' else len' = len + Z.of_nat n /\ same r ip (len' + 1)).
Proof.
  induction n as [|n IH]; intros r ip len Hr Hl Hi Hs; cbn [unrolled].
  { exists len, false. split_and!; [done | lia.. | done]. }
  destruct (deref_in r (len + 1)) as (b & -> & Lb); [lia|].
  destruct (rd1_ok inp (ip + (len + 1))) as (b' & -> & Lb'); [lia|]. runr.
  destruct (Z.eqb_spec b b') as [->|]; cbn [negb].
  - destruct (IH r ip (len + 1)) as (len' & st & H1 & H2 & H3); [lia.. | |].
    { apply same_next; [lia | done | congruence]. }
    exists len', st. split; [done|]. split; [lia|]. destruct st.
    + split; [lia | tauto].
    + destruct H3 as [-> H3]. split; [lia|]. done.
  - exists (len + 1), true. split_and!; [done | lia | lia | lia | done].
Qed.

Lemma do_match_ok fuel : forall r ip len maxlen,
  0 <= r < ip -> 0 <= len -> ip + Z.max (len + 1) maxlen <= zlen inp -> same r ip (len + 1) ->
  maxlen - len <= Z.of_nat fuel -> (0 < fuel)%nat ->
  exists len', do_match in_data inp fuel (in_data + r) ip len maxlen = Ok len' /\
    len < len' <= Z.max (len + 1) maxlen /\ same r ip len'.
Proof.
  induction fuel as [|fuel IH]; intros r ip len maxlen Hr Hl Hi Hs Hf Hf0; [lia|].
  cbn [do_match]. destruct (Z.ltb_spec (len + 1) maxlen).
  2: { exists (len + 1). split_and!; [done | lia | lia | done]. }
  destruct (deref_in r (len + 1)) as (b & -> & Lb); [lia|].
  destruct (rd1_ok inp (ip + (len + 1))) as (b' & -> & Lb'); [lia|]. runr.
  destruct (Z.eqb_spec b b') as [->|].
  - destruct (IH r ip (len + 1) maxlen) as (len' & H1 & H2 & H3); [lia.. | | lia | lia |].
    { apply same_next; [lia | done | congruence]. }
    exists len'. split_and!; [done | lia | lia | done].
  - exists (len + 1). split_and!; [done | lia | lia | done].
Qed.

Lemma match_len_ok r ip maxlen :
  0 <= r < ip -> 1 <= maxlen <= 264 -> ip + 2 + maxlen <= zlen inp -> same r ip 3 ->
  exists n, match_len in_data inp (in_data + r) ip maxlen = Ok n /\
    3 <= n <= 264 /\ ip + n <= zlen inp /\ same r ip n.
Proof.
  intros Hr Hm Hi Hs. unfold match_len. rewrite Z.gtb_ltb.
  destruct (Z.ltb_spec 16 maxlen).
  - destruct (unrolled_ok 16 r ip 2) as (len & st & -> & Hl & H2); [lia.. | done |]. runr.
    destruct st; [exists len; split_and!; try lia; [done | tauto]|].
    destruct H2 as [Hl2 Hs2].
    destruct (do_match_ok (Z.to_nat (MAX_REF + 1)) r ip len maxlen) as (n & -> & Hn & Hsn);
      [lia.. | done | change MAX_REF with 264; lia | change MAX_REF with 264; lia |].
    exists n. split_and!; try lia; done.
  - runr. destruct (do_match_ok (Z.to_nat (MAX_REF + 1)) r ip 2 maxlen) as (n & -> & Hn & Hsn);
      [lia.. | done | change MAX_REF with 264; lia | change MAX_REF with 264; lia |].
    exists n. split_and!; try lia; done.
Qed.

(** * Writing tokens *)

Lemma put_ref_ok a rest d n :
  1 <= d <= 8192 -> 3 <= n <= 264 -> 3 <= zlen rest ->
  exists rest', put_ref (a ++ rest) (zlen a) (d - 1) (n - 2)
    = Ok (a ++ token_bytes (Ref d n) ++ rest', zlen a + zlen (token_bytes (Ref d n))) /\
    zlen rest' + zlen (token_bytes (Ref d n)) = zlen rest.
Proof.
  intros Hd Hn Hr. destruct (off_split (d - 1)) as (Ha & Hb & Hs); [lia|].
  destruct rest as [|x1 [|x2 [|x3 rest]]]; try (unfold zlen in Hr; simpl in Hr; lia).
  unfold put_ref. rewrite !Z.shiftr_div_pow2, !Z.shiftl_mul_pow2 by lia.
  change (2 ^ 8) with 256. change (2 ^ 5) with 32. rewrite (Z.mul_comm (n - 2)).
  rewrite wr1_mid by done. unfold token_bytes.
  assert (u8 (d - 1) = (d - 1) mod 256) as -> by done.
  destruct (Z.ltb_spec (n - 2) 7); destruct (Z.ltb_spec n 9); try lia; runr.
  - rewrite wrapU_small by (change (2 ^ 8) with 256; lia).
    rewrite (cons_app _ (x2 :: x3 :: rest)), app_assoc, wr1_mid by (by rewrite zlen_app).
    runr. exists (x3 :: rest). rewrite <- app_assoc. simpl. autorewrite with bytes.
    split; [|lia]. do 2 f_equal. lia.
  - rewrite wrapU_small by (change (2 ^ 8) with 256; lia).
    rewrite wrapU_small by (change (2 ^ 8) with 256; lia).
    rewrite wr1_mid by done. runr.
    rewrite (cons_app _ (x2 :: x3 :: rest)), app_assoc, wr1_mid by (by rewrite zlen_app).
    runr.
    rewrite (cons_app _ (x3 :: rest)), app_assoc, wr1_mid by (autorewrite with bytes; done || lia).
    runr. exists rest. rewrite <- !app_assoc. simpl. autorewrite with bytes.
    split; [|lia]. replace (n - 2 - 7) with (n - 9) by lia. do 2 f_equal. lia.
Qed.

(** * The invariant of the compressor *)

(** What has been written is a token sequence for the input read so far, less
    the [lit] octets of the pending run, which follow their header octet;
    [op] has used at most 33/32 of the input read. *)
Record cinv (s : cstate) (ts : list token) (tail ls : list Z) : Prop := {
  ci_out : c_out s = tokens_bytes ts ++ tail;
  ci_op : c_op s = zlen (tokens_bytes ts) + 1 + c_lit s;
  ci_lit : 0 <= c_lit s <= 32;
  ci_run : c_lit s = zlen ls;
  ci_tail : ls = [] \/ exists x rest, tail = x :: ls ++ rest;
  ci_wf : forallb wf_token ts = true;
  ci_ip : 0 <= c_ip s <= zlen inp;
  ci_read : exists h, expand [] ts = Some h /\ h ++ ls = take (Z.to_nat (c_ip s)) inp;
  ci_htab : forall i, 0 <= c_htab s i < 2 ^ 64;
  ci_size : 32 * (c_op s - 1) + c_lit s <= 33 * c_ip s
}.

Definition Inv (s : cstate) : Prop := exists ts tail ls, cinv s ts tail ls.

Lemma take_bytes k : Forall is_byte (take k inp).
Proof. by apply Forall_take. Qed.

(** Ending the pending run leaves a complete token sequence for the input
    read so far; an empty run is undone. *)
Lemma stop_run_ok s :
  Inv s -> c_op s <= zlen (c_out s) ->
  exists ts tail,
    stop_run (c_out s) (c_op s) (c_lit s) = Ok (tokens_bytes ts ++ tail) /\
    zlen (tokens_bytes ts ++ tail) = zlen (c_out s) /\
    zlen (tokens_bytes ts) = c_op s - b2z (c_lit s =? 0) /\
    forallb wf_token ts = true /\
    expand [] ts = Some (take (Z.to_nat (c_ip s)) inp).
Proof.
  intros (ts & tail & ls & [Ho Hp Hl Hr Ht Hw _ (h & He & Hh) _ _]) Hfit.
  unfold stop_run. rewrite Ho in *. rewrite zlen_app in Hfit.
  replace (c_op s - c_lit s - 1) with (zlen (tokens_bytes ts)) by lia.
  destruct (decide (ls = [])) as [-> | Hne].
  - change (zlen (@nil Z)) with 0 in Hr. rewrite Hr in *. simpl b2z.
    destruct tail as [|x tail]; [change (zlen (@nil Z)) with 0 in Hfit; lia|].
    rewrite wr1_mid by done. exists ts, (u8 (0 - 1) :: tail).
    rewrite app_nil_r in Hh. subst h.
    split_and!; try done; [by autorewrite with bytes | lia].
  - destruct Ht as [? | (x & rest & ->)]; [done|].
    assert (1 <= zlen ls) as H1.
    { destruct ls; [done|]. rewrite zlen_cons. pose proof (zlen_nonneg ls). lia. }
    rewrite (proj2 (Z.eqb_neq (c_lit s) 0)) by lia. simpl b2z.
    rewrite wr1_mid by done. exists (ts ++ [Lit ls]), rest.
    rewrite wrapU_small by (change (2 ^ 8) with 256; lia).
    rewrite tokens_bytes_snoc, forallb_app, expand_snoc, He, Hw, Hr. simpl token_bytes.
    split_and!.
    + by rewrite <- app_assoc.
    + autorewrite with bytes. lia.
    + autorewrite with bytes. lia.
    + cbn [forallb andb]. rewrite andb_true_r. apply wf_lit. split; [lia|].
      assert (Forall is_byte (h ++ ls)) as Hb by (rewrite Hh; apply take_bytes).
      by apply Forall_app in Hb as [_ ?].
    + simpl. by rewrite Hh.
Qed.

(** * The two branches of the loop *)

(** A pending run with room for one more octet. *)
Lemma run_room s ts tail ls :
  cinv s ts tail ls -> c_op s < zlen (c_out s) ->
  exists x y rest, tail = x :: ls ++ y :: rest.
Proof.
  intros [Ho Hp Hl Hr Ht _ _ _ _ _] Hfit. rewrite Ho, zlen_app in Hfit.
  destruct Ht as [-> | (x & rest & ->)].
  - change (zlen (@nil Z)) with 0 in Hr.
    destruct tail as [|x [|y rest]]; [unfold zlen in *; simpl in *; lia.. |].
    by exists x, y, rest.
  - destruct rest as [|y rest]; [|by exists x, y, rest].
    rewrite app_nil_r, zlen_cons in Hfit. lia.
Qed.

Lemma put_octet_ok s b :
  Inv s -> c_lit s < 32 -> c_op s < zlen (c_out s) -> c_ip s < zlen inp ->
  inp !! Z.to_nat (c_ip s) = Some b ->
  exists out', wr1 (c_out s) (c_op s) b = Ok out' /\ zlen out' = zlen (c_out s) /\
    Inv (CState (c_ip s + 1) (c_op s + 1) (c_lit s + 1) (c_hval s) (c_htab s) out').
Proof.
  intros (ts & tail & ls & Hc) Hlit Hfit Hip Hb.
  destruct (run_room _ _ _ _ Hc Hfit) as (x & y & rest & ->).
  destruct Hc as [Ho Hp Hl Hr Ht Hw Hi (h & He & Hh) Hta Hs].
  exists (tokens_bytes ts ++ x :: (ls ++ [b]) ++ rest). split_and!.
  - rewrite Ho, app_comm_cons, app_assoc, wr1_mid by (autorewrite with bytes; lia).
    by rewrite <- !app_assoc.
  - rewrite Ho. autorewrite with bytes. change (zlen (@nil Z)) with 0. lia.
  - exists ts, (x :: (ls ++ [b]) ++ rest), (ls ++ [b]). split; cbn [c_out c_op c_lit c_ip c_htab]; try done.
    + lia.
    + lia.
    + rewrite zlen_app, zlen_one. lia.
    + right. by exists x, rest.
    + lia.
    + exists h. split; [done|]. replace (Z.to_nat (c_ip s + 1)) with (S (Z.to_nat (c_ip s))) by lia.
      by rewrite (take_S_r inp _ b), <- Hh, app_assoc.
    + lia.
Qed.

(** The state right after a token: an empty run starts. *)
Lemma Inv_start ts tail ip op hval htab :
  op = zlen (tokens_bytes ts) + 1 -> forallb wf_token ts = true ->
  expand [] ts = Some (take (Z.to_nat ip) inp) -> 0 <= ip <= zlen inp ->
  (forall i, 0 <= htab i < 2 ^ 64) -> 32 * (op - 1) <= 33 * ip ->
  Inv (CState ip op 0 hval htab (tokens_bytes ts ++ tail)).
Proof.
  intros -> Hw He Hi Ht Hs. exists ts, tail, []. split; cbn [c_out c_op c_lit c_ip c_htab]; try done.
  - lia.
  - by left.
  - exists (take (Z.to_nat ip) inp). by rewrite app_nil_r.
  - lia.
Qed.

Lemma put_literal_ok s :
  Inv s -> c_lit s < 32 -> c_op s < zlen (c_out s) -> c_ip s < zlen inp ->
  exists s', put_literal inp s = Ok s' /\ Inv s' /\ c_lit s' < 32 /\
    c_ip s' = c_ip s + 1 /\ zlen (c_out s') = zlen (c_out s) /\
    (c_lit s' = c_lit s + 1 /\ c_op s' = c_op s + 1 \/
     c_lit s = 31 /\ c_lit s' = 0 /\ c_op s' = c_op s + 2).
Proof.
  intros Hinv Hlit Hfit Hip.
  assert (0 <= c_ip s) as H0 by (destruct Hinv as (? & ? & ? & []); lia).
  unfold put_literal. destruct (rd1_ok inp (c_ip s)) as (b & -> & Hb); [lia|]. runr.
  destruct (put_octet_ok s b Hinv Hlit Hfit Hip Hb) as (out' & -> & Hz & Hinv'). runr.
  change MAX_LIT with 32. destruct (Z.eqb_spec (c_lit s + 1) 32) as [E|E].
  - destruct (stop_run_ok _ Hinv') as (ts & tail & Hst & Hz2 & Ht & Hw & He); [simpl; lia|].
    cbn [c_out c_op c_lit c_ip] in *. rewrite Hst. runr.
    rewrite (proj2 (Z.eqb_neq _ 0)) in Ht by lia. cbn [b2z] in Ht.
    eexists. split; [done|]. cbn [c_out c_op c_lit c_ip]. split_and!; try lia.
    destruct Hinv' as (? & ? & ? & [_ _ _ _ _ _ Hi' _ Hta Hs]). cbn [c_out c_op c_lit c_ip c_htab] in *.
    apply Inv_start; try done; lia.
  - eexists. split; [done|]. cbn [c_out c_op c_lit c_ip].
    split_and!; try done; try lia.
Qed.

Lemma hslot_set_range htab i p :
  (forall j, 0 <= htab j < 2 ^ 64) -> 0 <= p < 2 ^ 64 ->
  forall j, 0 <= hslot_set htab i p j < 2 ^ 64.
Proof. intros H Hp j. unfold hslot_set. by destruct (j =? i). Qed.

(** The hash table and the rolling hash do not matter to the invariant. *)
Lemma Inv_rehash s hval htab :
  Inv s -> (forall i, 0 <= htab i < 2 ^ 64) ->
  Inv (CState (c_ip s) (c_op s) (c_lit s) hval htab (c_out s)).
Proof.
  intros (ts & tail & ls & [? ? ? ? ? ? ? ? ? ?]) Ht. exists ts, tail, ls.
  by split.
Qed.

Lemma NEXT_ok v p : 0 <= p + 2 < zlen inp -> exists h, NEXT v inp p = Ok h.
Proof.
  intros H. unfold NEXT. destruct (rd1_ok inp (p + 2)) as (b & -> & _); [done|]. runr. eauto.
Qed.

Lemma FRST_ok p : 0 <= p -> p + 1 < zlen inp -> exists h, FRST inp p = Ok h.
Proof.
  intros H H1. unfold FRST.
  destruct (two_octets p) as (a & b & _ & _ & -> & -> & _); [lia..|]. runr. eauto.
Qed.

Lemma rehash_tail_ok s :
  Inv s -> 2 <= c_ip s -> c_ip s < zlen inp - 2 ->
  exists s', rehash_tail in_data inp s = Ok s' /\ Inv s' /\ c_ip s' = c_ip s /\
    c_lit s' = c_lit s /\ c_out s' = c_out s.
Proof.
  intros Hinv H2 Hi. unfold rehash_tail.
  destruct (FRST_ok (c_ip s - 1 - 1)) as (h1 & ->); [lia..|]. runr.
  destruct (NEXT_ok h1 (c_ip s - 1 - 1)) as (h2 & ->); [lia|]. runr.
  destruct (NEXT_ok h2 (c_ip s - 1 - 1 + 1)) as (h3 & ->); [lia|]. runr.
  eexists. split; [done|]. cbn [c_ip c_lit c_out].
  replace (c_ip s - 1 - 1 + 1 + 1) with (c_ip s) by lia. split_and!; try done.
  apply Inv_rehash; [done|].
  assert (forall i, 0 <= c_htab s i < 2 ^ 64) as Ht by (by destruct Hinv as (? & ? & ? & [])).
  apply hslot_set_range; [apply hslot_set_range; [done|]|]; lia.
Qed.

(** The worst case does not fit: what every [return 0] implies. *)
Definition short (out : list Z) : Prop := 32 * zlen out < 33 * zlen inp + 192.

(** What one round of the loop leaves. *)
Definition round_ok (s : cstate) (n : next) : Prop :=
  match n with
  | Return0 out => zlen out = zlen (c_out s) /\ short out
  | Continue s' | Break s' =>
      Inv s' /\ c_lit s' < 32 /\ zlen (c_out s') = zlen (c_out s) /\ c_ip s < c_ip s' /\
      match n with Break _ => zlen inp - 2 <= c_ip s' | _ => True end
  end.

Lemma token_ref_size d n :
  3 <= n -> 2 <= zlen (token_bytes (Ref d n)) <= 3 /\
            32 * (zlen (token_bytes (Ref d n)) + 1) <= 33 * n.
Proof.
  intros Hn. unfold token_bytes. destruct (Z.ltb_spec n 9); unfold zlen; simpl; lia.
Qed.

(** Emitting a match extends the token sequence by one back reference. *)
Lemma put_match_ok s r n :
  Inv s -> c_lit s < 32 -> c_op s - b2z (c_lit s =? 0) + 4 < zlen (c_out s) ->
  0 < r < c_ip s -> c_ip s - r <= 8192 -> 3 <= n <= 264 -> c_ip s + n <= zlen inp ->
  same r (c_ip s) n ->
  exists out1 out2 op2,
    stop_run (c_out s) (c_op s) (c_lit s) = Ok out1 /\
    put_ref out1 (c_op s - b2z (c_lit s =? 0)) (c_ip s - r - 1) (n - 2) = Ok (out2, op2) /\
    zlen out2 = zlen (c_out s) /\
    Inv (CState (c_ip s + n) (op2 + 1) 0 (c_hval s) (c_htab s) out2).
Proof.
  intros Hinv Hlit Hroom Hr Hd Hn Hi Hsame.
  assert (0 <= b2z (c_lit s =? 0) <= 1) as Hb by (destruct (c_lit s =? 0); simpl; lia).
  destruct (stop_run_ok s Hinv) as (ts & tail & Hst & Hz & Ht & Hw & He); [lia|].
  rewrite zlen_app in Hz.
  destruct (put_ref_ok (tokens_bytes ts) tail (c_ip s - r) n) as (rest & Hput & Hz2); [lia..|].
  rewrite Ht in Hput. destruct (token_ref_size (c_ip s - r) n) as [_ Hsz]; [lia|].
  exists (tokens_bytes ts ++ tail),
    (tokens_bytes ts ++ token_bytes (Ref (c_ip s - r) n) ++ rest),
    (c_op s - b2z (c_lit s =? 0) + zlen (token_bytes (Ref (c_ip s - r) n))).
  split_and!; [done | done | rewrite !zlen_app; lia |].
  destruct Hinv as (? & ? & ? & [_ _ Hl0 _ _ _ Hip _ Hta Hs]).
  rewrite app_assoc, <- tokens_bytes_snoc. apply Inv_start; try done; try lia.
  - rewrite tokens_bytes_snoc, zlen_app. lia.
  - rewrite forallb_app, Hw. cbn [forallb andb]. rewrite andb_true_r. apply wf_ref. lia.
  - rewrite expand_snoc, He. cbn [expand1]. apply same_copy; [lia.. | done].
Qed.

Lemma emit_match_ok s r :
  Inv s -> c_lit s < 32 -> c_ip s + 2 < zlen inp -> 0 < r < c_ip s -> c_ip s - r <= 8192 ->
  same r (c_ip s) 3 ->
  exists n, emit_match in_data inp s (in_data + r) (c_ip s - r - 1) = Ok n /\ round_ok s n.
Proof.
  intros Hinv Hlit Hi Hr Hd Hsame. unfold emit_match. change MAX_REF with 264.
  set (nolit := b2z (c_lit s =? 0)).
  assert (0 <= nolit <= 1) as Hb by (unfold nolit; destruct (c_lit s =? 0); simpl; lia).
  set (maxlen := if zlen inp - c_ip s - 2 >? 264 then 264 else zlen inp - c_ip s - 2).
  assert (1 <= maxlen <= 264 /\ c_ip s + 2 + maxlen <= zlen inp) as [Hm Hm2].
  { unfold maxlen. rewrite Z.gtb_ltb. destruct (Z.ltb_spec 264 (zlen inp - c_ip s - 2)); lia. }
  destruct ((_ >=? _) && _) eqn:Efull.
  - rewrite andb_true_iff, !Z.geb_leb, !Z.leb_le in Efull. eexists. split; [done|].
    split; [done|]. destruct Hinv as (? & ? & ? & [_ _ Hl _ _ _ _ _ _ Hs]). unfold short. lia.
  - rewrite andb_false_iff, !Z.geb_leb, !Z.leb_gt in Efull.
    destruct (match_len_ok r (c_ip s) maxlen) as (n & Hml & Hn & Hin & Hsn); [lia.. | done |].
    destruct (put_match_ok s r n) as (out1 & out2 & op2 & Hst & Hput & Hz & Hinv'); try done; [lia..|].
    rewrite Hst. runr. rewrite Hml. runr. fold nolit in Hput. rewrite Hput. runr.
    replace (c_ip s + 1 + (n - 2 + 1)) with (c_ip s + n) by lia.
    rewrite Z.geb_leb. destruct (Z.leb_spec (zlen inp - 2) (c_ip s + n)).
    + eexists. split; [done|]. cbn [round_ok c_ip c_lit c_out]. split_and!; done || lia.
    + destruct (rehash_tail_ok _ Hinv') as (s' & -> & Hinv2 & E1 & E2 & E3); [simpl; lia..|].
      runr. cbn [c_ip c_lit c_out] in *. eexists. split; [done|]. cbn [round_ok].
      rewrite E1, E2, E3. split_and!; done || lia.
Qed.

Lemma compress_step_ok s :
  Inv s -> c_lit s < 32 -> c_ip s < zlen inp - 2 ->
  exists n, compress_step STRICT_ALIGN in_data inp s = Ok n /\ round_ok s n.
Proof.
  intros Hinv Hlit Hi.
  assert (0 <= c_ip s /\ forall i, 0 <= c_htab s i < 2 ^ 64) as [H0 Ht]
    by (destruct Hinv as (? & ? & ? & []); split; [lia | done]).
  unfold compress_step. destruct (NEXT_ok (c_hval s) (c_ip s)) as (hval & ->); [lia|]. runr.
  set (s1 := CState _ _ _ _ _ _).
  assert (Inv s1) as Hinv1 by (apply Inv_rehash; [done|]; apply hslot_set_range; [done | lia]).
  change (c_ip s1) with (c_ip s).
  destruct (find_match_ok (c_htab s (IDX hval)) (c_ip s)) as (m & -> & Hm); [lia | lia | done |].
  runr. destruct m as [off|].
  - destruct (Hm off eq_refl) as (r & -> & Hr & -> & Hoff & Hsame).
    apply (emit_match_ok s1 r); try done; cbn [s1 c_ip]; lia.
  - unfold emit_literal. rewrite Z.geb_leb. destruct (Z.leb_spec (zlen (c_out s1)) (c_op s1)).
    + eexists. split; [done|]. split; [done|].
      destruct Hinv1 as (? & ? & ? & [_ _ Hl _ _ _ Hip _ _ Hs]). unfold short.
      change (c_ip s1) with (c_ip s) in *. lia.
    + destruct (put_literal_ok s1) as (s' & -> & Hinv2 & Hl2 & Hip2 & Hz2 & _); try done; [cbn [s1 c_ip]; lia|].
      runr. eexists. split; [done|]. cbn [round_ok].
      change (c_ip s1) with (c_ip s) in *. split_and!; done || lia.
Qed.

(** * The loops *)

Lemma compress_loop_ok fuel : forall s,
  Inv s -> c_lit s < 32 -> zlen inp - c_ip s <= Z.of_nat fuel ->
  exists r, compress_loop STRICT_ALIGN in_data inp fuel s = Ok r /\
    match r with
    | inr out => zlen out = zlen (c_out s) /\ short out
    | inl s' => Inv s' /\ c_lit s' < 32 /\ zlen (c_out s') = zlen (c_out s) /\ zlen inp - 2 <= c_ip s'
    end.
Proof.
  induction fuel as [|fuel IH]; intros s Hinv Hlit Hf; cbn [compress_loop].
  - rewrite (proj2 (Z.ltb_ge _ _)) by lia. eexists. split; [done|]. split_and!; done || lia.
  - destruct (Z.ltb_spec (c_ip s) (zlen inp - 2)) as [Hi|]; [|eexists; split; [done|]; split_and!; done || lia].
    destruct (compress_step_ok s Hinv Hlit Hi) as (n & -> & Hn). runr.
    destruct n as [s'|s'|out].
    + destruct Hn as (H1 & H2 & H3 & H4 & _).
      destruct (IH s' H1 H2) as (r & -> & Hr); [lia|]. exists r. split; [done|].
      by rewrite H3 in Hr.
    + destruct Hn as (H1 & H2 & H3 & H4 & H5). eexists. split; [done|]. by split_and!.
    + eexists. split; [done|]. done.
Qed.

(** The octets after the loop: [k] literals, one of which may end a full run. *)
Lemma tail_loop_ok fuel : forall s,
  Inv s -> c_lit s < 32 -> zlen inp - c_ip s <= Z.of_nat fuel -> zlen inp - c_ip s <= 2 ->
  c_op s + (zlen inp - c_ip s) + b2z (32 <=? c_lit s + (zlen inp - c_ip s)) <= zlen (c_out s) ->
  exists s', tail_loop inp fuel s = Ok s' /\ Inv s' /\ c_ip s' = zlen inp /\
    c_op s' <= zlen (c_out s') /\ zlen (c_out s') = zlen (c_out s).
Proof.
  induction fuel as [|fuel IH]; intros s Hinv Hlit Hf H2 Hroom; cbn [tail_loop].
  all: assert (c_ip s <= zlen inp) as Hle by (destruct Hinv as (? & ? & ? & []); lia).
  - rewrite (proj2 (Z.ltb_ge _ _)) by lia. exists s.
    assert (0 <= b2z (32 <=? c_lit s + (zlen inp - c_ip s))) by (destruct (32 <=? _); done).
    split_and!; done || lia.
  - assert (0 <= b2z (32 <=? c_lit s + (zlen inp - c_ip s))) by (destruct (32 <=? _); done).
    destruct (Z.ltb_spec (c_ip s) (zlen inp)) as [Hi|]; [|exists s; split_and!; done || lia].
    destruct (put_literal_ok s) as (s' & -> & Hinv' & Hl' & Hip' & Hz' & Hcase); [done | done | lia | done |].
    runr. destruct (IH s') as (s2 & -> & H3 & H4 & H5 & H6); try done; [lia.. | |].
    + rewrite Hip', Hz'. destruct Hcase as [[-> ->] | (Hl31 & -> & ->)].
      * replace (c_lit s + 1 + (zlen inp - (c_ip s + 1))) with (c_lit s + (zlen inp - c_ip s)) by lia. lia.
      * rewrite (proj2 (Z.leb_le 32 _)) in Hroom by lia.
        rewrite (proj2 (Z.leb_gt 32 _)) by lia. cbn [b2z] in *. lia.
    + exists s2. split_and!; try done. lia.
Qed.

Lemma compress_end_ok s :
  Inv s -> c_lit s < 32 -> zlen inp - 2 <= c_ip s -> 2 <= zlen inp ->
  exists out n, compress_end inp s = Ok (out, n) /\ zlen out = zlen (c_out s) /\
    (n = 0 /\ short (c_out s) \/
     0 < n <= zlen out /\ decodes (take (Z.to_nat n) out) inp).
Proof.
  intros Hinv Hlit Hi H2. unfold compress_end. rewrite Z.gtb_ltb.
  assert (c_ip s <= zlen inp) as Hle by (destruct Hinv as (? & ? & ? & []); lia).
  destruct (Z.ltb_spec (zlen (c_out s)) (c_op s + 3)).
  - eexists _, _. split; [done|]. split; [done|]. left. split; [done|].
    destruct Hinv as (? & ? & ? & [_ _ Hl _ _ _ _ _ _ Hs]). unfold short. lia.
  - destruct (tail_loop_ok (length inp) s Hinv Hlit) as (s' & -> & Hinv' & Hip & Hop & Hz).
    { unfold zlen in *. destruct Hinv as (? & ? & ? & []). lia. }
    { lia. }
    { destruct (32 <=? _); cbn [b2z]; lia. }
    runr. destruct (stop_run_ok s' Hinv' Hop) as (ts & tail & -> & Hz2 & Ht & Hw & He). runr.
    eexists _, _. split; [done|]. split; [lia|]. right. rewrite <- Ht.
    rewrite Hip in He. unfold zlen in He at 1. rewrite Nat2Z.id, take_ge in He by lia.
    split.
    + rewrite zlen_app. pose proof (zlen_nonneg tail). pose proof (tokens_length ts Hw).
      destruct ts as [|t ts]; [|simpl length in *; lia].
      injection He as He. rewrite <- He in H2. change (zlen (@nil Z)) with 0 in H2. lia.
    + exists ts. split_and!; try done. unfold zlen. rewrite Nat2Z.id. by rewrite take_app_length.
Qed.

(** Everything there is to say about a call of the compressor. *)
Lemma lzf_compress_ok htab out :
  2 <= zlen inp -> (forall i, 0 <= htab i < 2 ^ 64) ->
  exists out' n, lzf_compress STRICT_ALIGN in_data inp htab out = Ok (out', n) /\
    zlen out' = zlen out /\
    (n = 0 /\ short out \/
     0 < n <= zlen out /\ decodes (take (Z.to_nat n) out') inp).
Proof.
  intros H2 Ht. unfold lzf_compress. rewrite (proj2 (Z.eqb_neq (zlen inp) 0)) by lia. cbn [orb].
  destruct (Z.eqb_spec (zlen out) 0) as [E|E].
  { exists out, 0. split; [done|]. split; [done|]. left. unfold short. lia. }
  destruct (FRST_ok 0) as (hval & ->); [lia..|]. runr.
  assert (Inv (CState 0 1 0 hval htab out)) as Hinv.
  { apply (Inv_start [] out); try done; lia. }
  destruct (compress_loop_ok (length inp) _ Hinv) as (r & -> & Hr); [cbn; lia | cbn; unfold zlen; lia |].
  runr. cbn [c_out] in Hr. destruct r as [s|out'].
  - destruct Hr as (H3 & H4 & H5 & H6).
    destruct (compress_end_ok s H3 H4 H6 H2) as (out' & n & -> & Hz & Hn).
    exists out', n. split; [done|]. split; [lia|]. unfold short in *. rewrite H5 in *.
    rewrite Hz in Hn. by rewrite ?H5 in Hn.
  - destruct Hr as [Hz Hs]. exists out', 0. split; [done|]. split; [done|]. left.
    unfold short in *. by rewrite Hz in Hs.
Qed.

End compressor.

(** * Properties *)

(** The concrete input of the witnesses: a period of three octets. *)
Definition lzf_sample : list Z := [97; 98; 99; 97; 98; 99; 97; 98; 99; 97; 98; 99; 97; 98; 99; 100].

Lemma lzf_sample_bytes : Forall is_byte lzf_sample.
Proof. unfold lzf_sample, is_byte. repeat constructor; lia. Qed.

Section claims.
Context {host : HostEndian}.

(** C14: decompression undoes compression.  For every input of at least two
    octets, every output block and every contents of the uninitialised hash
    table, lzf_compress stops without leaving its blocks and returns a length
    that fits the output; unless that length is 0, lzf_decompress turns the
    compressed octets back into the input, in any block that can hold it and
    without touching the rest of that block. *)
Theorem lzf_roundtrip STRICT_ALIGN in_data inp htab out :
  Forall is_byte inp -> 2 <= zlen inp ->
  8192 <= in_data -> in_data + zlen inp < 2 ^ 64 ->
  (forall i, 0 <= htab i < 2 ^ 64) ->
  exists out' n,
    lzf_compress STRICT_ALIGN in_data inp htab out = Ok (out', n) /\
    zlen out' = zlen out /\ 0 <= n <= zlen out /\
    (n <> 0 -> forall dst, zlen inp <= zlen dst ->
       lzf_decompress (take (Z.to_nat n) out') dst
       = Ok (inp ++ drop (length inp) dst, zlen inp, E_OK)).
Proof.
  intros Hb H2 Hlo Hhi Ht.
  destruct (lzf_compress_ok STRICT_ALIGN in_data inp Hb Hlo Hhi htab out H2 Ht)
    as (out' & n & Hc & Hz & Hcase).
  pose proof (zlen_nonneg out). exists out', n. split_and!; [done | done | lia.. |].
  intros Hn dst Hdst. destruct Hcase as [[? _] | [_ Hd]]; [done|].
  by apply decompress_decodes.
Qed.

(** Lzf_compress gives up only when the output block is smaller than the
    worst case of the format: an output of 33/32 of the input plus six octets
    always receives the compressed data, and never more than that block. *)
Theorem lzf_compress_bound STRICT_ALIGN in_data inp htab out :
  Forall is_byte inp -> 2 <= zlen inp ->
  8192 <= in_data -> in_data + zlen inp < 2 ^ 64 ->
  (forall i, 0 <= htab i < 2 ^ 64) ->
  33 * zlen inp + 192 <= 32 * zlen out ->
  exists out' n,
    lzf_compress STRICT_ALIGN in_data inp htab out = Ok (out', n) /\ 0 < n <= zlen out.
Proof.
  intros Hb H2 Hlo Hhi Ht Hroom.
  destruct (lzf_compress_ok STRICT_ALIGN in_data inp Hb Hlo Hhi htab out H2 Ht)
    as (out' & n & Hc & _ & [[_ Hs] | [Hn _]]); [unfold short in Hs; lia|].
  by exists out', n.
Qed.
End claims.

(** The compressor reads two octets before it looks at the length: an input of
    one octet is read past its end. *)
Lemma lzf_compress_one_octet `{HostEndian} STRICT_ALIGN in_data x htab out :
  zlen out <> 0 ->
  lzf_compress STRICT_ALIGN in_data [x] htab out = Err OutOfBounds.
Proof. intros Ho. unfold lzf_compress. rewrite (proj2 (Z.eqb_neq (zlen out) 0)) by done. done. Qed.

Lemma lzf_roundtrip_witness :
  exists out' n,
    lzf_compress (host := false) false 65536 lzf_sample (fun _ => 65537) (repeat 0 30) = Ok (out', n) /\
    lzf_decompress (take (Z.to_nat n) out') (repeat 0 20)
    = Ok (lzf_sample ++ repeat 0 4, 16, E_OK).
Proof.
  destruct (lzf_roundtrip (host := false) false 65536 lzf_sample (fun _ => 65537) (repeat 0 30))
    as (out' & n & Hc & _ & _ & Hd); [apply lzf_sample_bytes | done | done | done | lia |].
  exists out', n. split; [done|]. apply (Hd ltac:(intros ->; vm_compute in Hc; discriminate) (repeat 0 20)).
  done.
Defined.

Lemma lzf_compress_bound_witness :
  exists out' n,
    lzf_compress (host := true) true 65536 lzf_sample (fun _ => 0) (repeat 0 30) = Ok (out', n) /\
    0 < n <= 30.
Proof.
  apply (lzf_compress_bound (host := true) true 65536 lzf_sample (fun _ => 0) (repeat 0 30));
    [apply lzf_sample_bytes | done | done | done | lia | done].
Defined.
