(* ===== verification/Rio.v ===== *)
(** Rio: the stream abstraction of src/redis-stable/src/rio.h, and its
    in-memory backend of rio.c.

    A [rio] holds a backend, whose read and write function pointers are the
    class [RioBackend], the optional checksum callback and the sticky error
    flags.  [RioLaws] is what the serialization code relies on: a successful
    write appends to what was written, a read hands out the bytes ahead or
    fails.  The buffer backend of rio.c is proved to satisfy it; the theorems
    about rdb.c hold for every backend that does. *)

From Stdlib Require Import ZArith Lia Bool.
From stdpp Require Import base list numbers decidable.
From S2P Require Import Prelude Bytes.

Local Open Scope Z_scope.

Definition RIO_FLAG_READ_ERROR : Z := Z.shiftl 1 0.
Definition RIO_FLAG_WRITE_ERROR : Z := Z.shiftl 1 1.

(** The backend functions: zero on error, non zero on complete success. *)
Class RioBackend (io : Type) := {
  io_read : io -> Z -> io * option (list Z);
  io_write : io -> list Z -> io * bool;
  io_tell : io -> Z
}.

Record rio (io : Type) := Rio {
  r_io : io;
  update_cksum : option (Z -> list Z -> Z);
  cksum : Z;
  flags : Z;
  processed_bytes : Z;
  max_processing_chunk : Z
}.
Arguments Rio {io}.
Arguments r_io {io}.
Arguments update_cksum {io}.
Arguments cksum {io}.
Arguments flags {io}.
Arguments processed_bytes {io}.
Arguments max_processing_chunk {io}.

Section rio.
Context {io : Type} `{RioBackend io}.

Definition set_io (r : rio io) (x : io) : rio io := Rio x (update_cksum r) (cksum r) (flags r) (processed_bytes r) (max_processing_chunk r).
Definition set_flags (r : rio io) (x : Z) : rio io := Rio (r_io r) (update_cksum r) (cksum r) x (processed_bytes r) (max_processing_chunk r).

(** [if (r->update_cksum) r->update_cksum(r,buf,n)] *)
Definition apply_cksum (r : rio io) (bs : list Z) : rio io :=
  match update_cksum r with
  | Some f => Rio (r_io r) (update_cksum r) (f (cksum r) bs) (flags r) (processed_bytes r) (max_processing_chunk r)
  | None => r
  end.

Definition add_processed (r : rio io) (n : Z) : rio io :=
  Rio (r_io r) (update_cksum r) (cksum r) (flags r) (u64 (processed_bytes r + n)) (max_processing_chunk r).

Definition chunk_of (r : rio io) (len : Z) : Z :=
  if negb (max_processing_chunk r =? 0) && (max_processing_chunk r <? len)
  then max_processing_chunk r else len.

(** The loops move at least one byte per round. *)
Fixpoint rio_write_loop (fuel : nat) (r : rio io) (buf : list Z) : rio io * bool :=
  match buf, fuel with
  | [], _ => (r, true)
  | _, O => (r, false)
  | _, S fuel =>
      let n := chunk_of r (zlen buf) in
      let bs := take (Z.to_nat n) buf in
      let r := apply_cksum r bs in
      let '(x, ok) := io_write (r_io r) bs in
      let r := set_io r x in
      if negb ok then (set_flags r (Z.lor (flags r) RIO_FLAG_WRITE_ERROR), false)
      else rio_write_loop fuel (add_processed r n) (drop (Z.to_nat n) buf)
  end.

Definition rioWrite (r : rio io) (buf : list Z) : rio io * bool :=
  if negb (Z.land (flags r) RIO_FLAG_WRITE_ERROR =? 0) then (r, false)
  else rio_write_loop (length buf) r buf.

Fixpoint rio_read_loop (fuel : nat) (r : rio io) (len : Z) (acc : list Z) : rio io * option (list Z) :=
  if len =? 0 then (r, Some acc)
  else
    match fuel with
    | O => (r, None)
    | S fuel =>
        let n := chunk_of r len in
        let '(x, res) := io_read (r_io r) n in
        let r := set_io r x in
        match res with
        | None => (set_flags r (Z.lor (flags r) RIO_FLAG_READ_ERROR), None)
        | Some bs =>
            let r := apply_cksum r bs in
            rio_read_loop fuel (add_processed r n) (len - n) (acc ++ bs)
        end
    end.

(** [None] for a 0 return, the [len] bytes stored in the caller's buffer
    otherwise. *)
Definition rioRead (r : rio io) (len : Z) : rio io * option (list Z) :=
  if negb (Z.land (flags r) RIO_FLAG_READ_ERROR =? 0) then (r, None)
  else rio_read_loop (Z.to_nat len) r len [].

Definition rioTell (r : rio io) : Z := io_tell (r_io r).

Definition rioAbort (r : rio io) : rio io :=
  set_flags r (Z.lor (flags r) (Z.lor RIO_FLAG_READ_ERROR RIO_FLAG_WRITE_ERROR)).
Definition rioGetReadError (r : rio io) : bool := negb (Z.land (flags r) RIO_FLAG_READ_ERROR =? 0).
Definition rioGetWriteError (r : rio io) : bool := negb (Z.land (flags r) RIO_FLAG_WRITE_ERROR =? 0).
Definition rioClearErrors (r : rio io) : rio io :=
  set_flags r (Z.land (flags r) (Z.lnot (Z.lor RIO_FLAG_READ_ERROR RIO_FLAG_WRITE_ERROR))).
End rio.

(** * The buffer backend of rio.c *)

Record buffer_io := BufferIo { b_ptr : list Z; b_pos : Z }.

Definition rioBufferWrite (b : buffer_io) (buf : list Z) : buffer_io * bool :=
  (BufferIo (b_ptr b ++ buf) (b_pos b + zlen buf), true).

Definition rioBufferRead (b : buffer_io) (len : Z) : buffer_io * option (list Z) :=
  if u64 (zlen (b_ptr b) - b_pos b) <? len then (b, None)
  else (BufferIo (b_ptr b) (b_pos b + len),
        Some (take (Z.to_nat len) (drop (Z.to_nat (b_pos b)) (b_ptr b)))).

Definition rioBufferTell (b : buffer_io) : Z := b_pos b.

#[export] Instance rioBufferIO : RioBackend buffer_io := {
  io_read := rioBufferRead;
  io_write := rioBufferWrite;
  io_tell := rioBufferTell
}.

Definition rioInitWithBuffer (s : list Z) : rio buffer_io := Rio (BufferIo s 0) None 0 0 0 0.

(** * What a backend promises *)

(** [io_ok] is the backend's own invariant, [io_written] what has been written
    so far, [io_ahead] the bytes a reader still has in front of it. *)
Class RioLaws (io : Type) `{RioBackend io} := {
  io_ok : io -> Prop;
  io_written : io -> list Z;
  io_ahead : io -> list Z;
  io_write_ok x bs x' : io_write x bs = (x', true) -> io_written x' = io_written x ++ bs;
  io_read_ok x n :
    io_ok x -> 0 < n ->
    exists x', io_ok x' /\
      if n <=? zlen (io_ahead x)
      then io_read x n = (x', Some (take (Z.to_nat n) (io_ahead x))) /\
           io_ahead x' = drop (Z.to_nat n) (io_ahead x)
      else io_read x n = (x', None)
}.

Definition buffer_ok (b : buffer_io) : Prop :=
  0 <= b_pos b <= zlen (b_ptr b) /\ zlen (b_ptr b) < 2 ^ 63.

#[export] Program Instance rioBuffer_laws : RioLaws buffer_io := {
  io_ok := buffer_ok;
  io_written := b_ptr;
  io_ahead b := drop (Z.to_nat (b_pos b)) (b_ptr b)
}.
Next Obligation. intros x bs x' [= <-]. done. Qed.
Next Obligation.
  intros [p pos] n [Hpos Hlen] Hn. cbn [b_ptr b_pos io_read rioBufferIO] in *.
  unfold rioBufferRead. cbn [b_ptr b_pos].
  rewrite wrapU_small by (change (2 ^ 64) with (2 * 2 ^ 63); lia).
  rewrite zlen_drop by lia.
  destruct (Z.leb_spec n (zlen p - pos)).
  - exists (BufferIo p (pos + n)). split; [split; cbn; lia|].
    rewrite (proj2 (Z.ltb_ge _ _)) by lia. split; [done|].
    cbn [b_ptr b_pos]. rewrite drop_drop. f_equal. lia.
  - exists (BufferIo p pos). split; [done|]. by rewrite (proj2 (Z.ltb_lt _ _)) by lia.
Qed.

(** * Reading and writing through a rio *)

Section rio_lemmas.
Context {io : Type} `{RioLaws io}.

(** A backend whose writes always succeed, like the buffer. *)
Definition reliable : Prop := forall x bs, (io_write x bs).2 = true.

Definition written (r : rio io) : list Z := io_written (r_io r).
Definition ahead (r : rio io) : list Z := io_ahead (r_io r).

(** A stream that can be read from: no error yet, the chunk size is a size. *)
Definition readable (r : rio io) : Prop :=
  io_ok (r_io r) /\ rioGetReadError r = false /\ 0 <= max_processing_chunk r.

Lemma chunk_of_range (r : rio io) len :
  0 <= max_processing_chunk r -> 0 < len -> 0 < chunk_of r len <= len.
Proof.
  intros Hm Hl. unfold chunk_of. destruct (Z.eqb_spec (max_processing_chunk r) 0); cbn [negb andb]; [lia|].
  destruct (Z.ltb_spec (max_processing_chunk r) len); lia.
Qed.

Lemma apply_cksum_fields (r : rio io) bs :
  r_io (apply_cksum r bs) = r_io r /\ flags (apply_cksum r bs) = flags r /\
  max_processing_chunk (apply_cksum r bs) = max_processing_chunk r.
Proof. unfold apply_cksum. by destruct (update_cksum r). Qed.

Lemma rio_write_loop_ok fuel : forall (r : rio io) buf r',
  0 <= max_processing_chunk r -> rio_write_loop fuel r buf = (r', true) ->
  written r' = written r ++ buf /\ max_processing_chunk r' = max_processing_chunk r /\ flags r' = flags r.
Proof.
  induction fuel as [|fuel IH]; intros r buf r' Hm Hw.
  - destruct buf; [|done]. injection Hw as <-. by rewrite app_nil_r.
  - destruct buf as [|b buf]; [injection Hw as <-; by rewrite app_nil_r|].
    cbn [rio_write_loop] in Hw. set (bs := b :: buf) in *.
    set (n := chunk_of r (zlen bs)) in *.
    destruct (apply_cksum_fields r (take (Z.to_nat n) bs)) as (E1 & E2 & E3).
    destruct (io_write _ _) as [x ok] eqn:Ew. destruct ok; cbn [negb] in Hw; [|done].
    apply IH in Hw as (Hw & Hm' & Hf'); [|cbn; lia].
    apply io_write_ok in Ew. unfold written in *. cbn [r_io set_io add_processed] in Hw.
    rewrite Hw, Ew, E1. cbn in Hm', Hf'. rewrite E3 in Hm'. rewrite E2 in Hf'. split; [|done].
    by rewrite <- app_assoc, take_drop.
Qed.

Lemma rioWrite_ok (r : rio io) buf r' :
  0 <= max_processing_chunk r -> rioWrite r buf = (r', true) ->
  written r' = written r ++ buf /\ max_processing_chunk r' = max_processing_chunk r /\ flags r' = flags r.
Proof.
  intros Hm. unfold rioWrite. destruct (negb _); [done|]. by apply rio_write_loop_ok.
Qed.

Lemma rio_read_loop_ok fuel : forall (r : rio io) len acc,
  readable r -> 0 <= len -> len <= Z.of_nat fuel ->
  exists r', 
    if len <=? zlen (ahead r)
    then rio_read_loop fuel r len acc = (r', Some (acc ++ take (Z.to_nat len) (ahead r))) /\
         ahead r' = drop (Z.to_nat len) (ahead r) /\ readable r'
    else rio_read_loop fuel r len acc = (r', None).
Proof.
  induction fuel as [|fuel IH]; intros r len acc Hr Hl Hf; cbn [rio_read_loop].
  { replace len with 0 by lia. exists r. pose proof (zlen_nonneg (ahead r)). dec_bool.
    by rewrite app_nil_r. }
  destruct (Z.eqb_spec len 0) as [->|Hne].
  { exists r. pose proof (zlen_nonneg (ahead r)). dec_bool. by rewrite app_nil_r. }
  destruct Hr as (Hok & Herr & Hm).
  pose proof (chunk_of_range r len Hm ltac:(lia)) as Hc. set (n := chunk_of r len) in *.
  destruct (io_read_ok (r_io r) n Hok ltac:(lia)) as (x & Hok' & Hread).
  fold (ahead r) in Hread. destruct (Z.leb_spec n (zlen (ahead r))) as [Hfit|Hshort].
  2: { rewrite Hread, (proj2 (Z.leb_gt _ _)) by lia. eauto. }
  destruct Hread as [-> Hx].
  set (bs := take (Z.to_nat n) (ahead r)).
  set (r1 := add_processed (apply_cksum (set_io r x) bs) n).
  destruct (apply_cksum_fields (set_io r x) bs) as (E1 & E2 & E3).
  assert (readable r1) as Hr1.
  { unfold readable, rioGetReadError, r1, add_processed. cbn [r_io flags max_processing_chunk].
    rewrite E1, E2, E3. done. }
  assert (ahead r1 = drop (Z.to_nat n) (ahead r)) as Ha1.
  { unfold r1, ahead, add_processed at 1. cbn [r_io]. rewrite E1. cbn [r_io set_io]. by rewrite Hx. }
  destruct (IH r1 (len - n) (acc ++ bs) Hr1) as (r' & Hr'); [lia..|]. exists r'.
  rewrite Ha1, zlen_drop in Hr' by lia.
  destruct (Z.leb_spec len (zlen (ahead r))).
  - rewrite (proj2 (Z.leb_le _ _)) in Hr' by lia. destruct Hr' as (-> & -> & Hr'). split_and!; [| |done].
    + do 2 f_equal. rewrite <- app_assoc. f_equal. unfold bs.
      replace (Z.to_nat len) with (Z.to_nat n + Z.to_nat (len - n))%nat by lia.
      by rewrite <- take_take_drop.
    + rewrite drop_drop. f_equal. lia.
  - rewrite (proj2 (Z.leb_gt _ _)) in Hr' by lia. done.
Qed.

(** What a read gives: the bytes ahead, or an error when there are too few. *)
Lemma rioRead_spec (r : rio io) len :
  readable r -> 0 <= len ->
  exists r',
    if len <=? zlen (ahead r)
    then rioRead r len = (r', Some (take (Z.to_nat len) (ahead r))) /\
         ahead r' = drop (Z.to_nat len) (ahead r) /\ readable r'
    else rioRead r len = (r', None).
Proof.
  intros Hr Hl. unfold rioRead.
  assert (negb (Z.land (flags r) RIO_FLAG_READ_ERROR =? 0) = false) as -> by apply Hr.
  apply (rio_read_loop_ok (Z.to_nat len) r len []); [done | lia..].
Qed.

Lemma rioRead_app (r : rio io) bs rest :
  readable r -> ahead r = bs ++ rest ->
  exists r', rioRead r (zlen bs) = (r', Some bs) /\ ahead r' = rest /\ readable r'.
Proof.
  intros Hr Ha. destruct (rioRead_spec r (zlen bs) Hr (zlen_nonneg bs)) as (r' & Hr').
  rewrite Ha, zlen_app, (proj2 (Z.leb_le _ _)) in Hr' by (pose proof (zlen_nonneg rest); lia).
  unfold zlen in Hr' at 2 3. rewrite Nat2Z.id, take_app_length, drop_app_length in Hr'. eauto.
Qed.
End rio_lemmas.
