(* ===== verification/Rdb.v ===== *)
(** Rdb: the string layer of the RDB format, src/redis-stable/src/rdb.c from
    rdbWriteRaw to rdbLoadEncodedStringObject and the binary doubles and
    times, with the object constructors of object.c it uses.

    A string is saved as a length and its bytes, as an integer of one, two or
    four bytes when it is the decimal form of one, or LZF compressed.  The
    code runs over any [RioBackend]; [rdb] is an option because the save
    functions accept a NULL stream to compute sizes.  The integer forms come
    from util.c (Numbers), compression from Lzf, byte order from Bytes. *)

From Stdlib Require Import ZArith Lia Bool.
From stdpp Require Import base list numbers decidable.
From S2P Require Import Prelude Bytes Sds Numbers Lzf Rio.

Local Open Scope Z_scope.

Definition RDB_6BITLEN : Z := 0.
Definition RDB_14BITLEN : Z := 1.
Definition RDB_32BITLEN : Z := 0x80.
Definition RDB_64BITLEN : Z := 0x81.
Definition RDB_ENCVAL : Z := 3.
Definition RDB_LENERR : Z := ULLONG_MAX.

Definition RDB_ENC_INT8 : Z := 0.
Definition RDB_ENC_INT16 : Z := 1.
Definition RDB_ENC_INT32 : Z := 2.
Definition RDB_ENC_LZF : Z := 3.

Definition RDB_LOAD_NONE : Z := 0.
Definition RDB_LOAD_ENC : Z := Z.shiftl 1 0.
Definition RDB_LOAD_PLAIN : Z := Z.shiftl 1 1.
Definition RDB_LOAD_SDS : Z := Z.shiftl 1 2.

(** * Objects *)

(** A string object: an integer in the pointer (possibly one of the shared
    ones), an sds embedded in the object, or a separate sds. *)
Inductive robj :=
  | ObjInt (v : Z) (shared : bool)
  | ObjEmbstr (bs : list Z)
  | ObjRaw (bs : list Z).

Definition OBJ_SHARED_INTEGERS : Z := 10000.
Definition OBJ_ENCODING_EMBSTR_SIZE_LIMIT : Z := 44.
Definition LL2STROBJ_AUTO : Z := 0.
Definition LL2STROBJ_NO_SHARED : Z := 1.
Definition LL2STROBJ_NO_INT_ENC : Z := 2.

(** What a load returns: a plain block, an sds, or an object. *)
Inductive loaded :=
  | LPlain (bs : list Z)
  | LSds (bs : list Z)
  | LObj (o : robj).

Definition createStringObject (bs : list Z) (len : Z) : result robj :=
  let* bs := rdn bs 0 len in
  Ok (if len <=? OBJ_ENCODING_EMBSTR_SIZE_LIMIT then ObjEmbstr bs else ObjRaw bs).

(** The digits of [val] as [char buf[LONG_STR_SIZE]] holds them after
    ll2string, with the returned length; the block is uninitialised before. *)
Definition ll2string_buf (garbage : list Z) (val : Z) : result (list Z * Z) :=
  ll2string garbage 0 (zlen garbage) val.

Definition createStringObjectFromLongLongWithOptions (garbage : list Z) (value flag : Z)
  : result robj :=
  if (value >=? 0) && (value <? OBJ_SHARED_INTEGERS) && (flag =? LL2STROBJ_AUTO)
  then Ok (ObjInt value true)
  else if (value >=? LLONG_MIN) && (value <=? LLONG_MAX) && negb (flag =? LL2STROBJ_NO_INT_ENC)
  then Ok (ObjInt value false)
  else
    let* (buf, len) := ll2string_buf garbage value in
    createStringObject buf len.

(** [no_shared]: maxmemory is set with a policy that needs per-key LRU/LFU. *)
Definition createStringObjectFromLongLongForValue (no_shared : bool) (garbage : list Z) (value : Z)
  : result robj :=
  if negb no_shared
  then createStringObjectFromLongLongWithOptions garbage value LL2STROBJ_AUTO
  else createStringObjectFromLongLongWithOptions garbage value LL2STROBJ_NO_SHARED.

Definition createStringObjectFromLongLongWithSds (garbage : list Z) (value : Z) : result robj :=
  createStringObjectFromLongLongWithOptions garbage value LL2STROBJ_NO_INT_ENC.

(** * Integers *)

Section endian.
Context {host : HostEndian}.

(** endianconv.h and the C library: to and from network (big-endian) order. *)
Definition htonl (v : Z) : Z := if host_is_be then v else intrev32 v.
Definition ntohl (v : Z) : Z := if host_is_be then v else intrev32 v.
Definition htonu64 (v : Z) : Z := if host_is_be then v else intrev64 v.
Definition ntohu64 (v : Z) : Z := if host_is_be then v else intrev64 v.
End endian.

(** The bytes stored in [enc]; none for a 0 return. *)
Definition rdbEncodeInteger (value : Z) : list Z :=
  if (value >=? - Z.shiftl 1 7) && (value <=? Z.shiftl 1 7 - 1) then
    [Z.lor (Z.shiftl RDB_ENCVAL 6) RDB_ENC_INT8; Z.land value 0xFF]
  else if (value >=? - Z.shiftl 1 15) && (value <=? Z.shiftl 1 15 - 1) then
    [Z.lor (Z.shiftl RDB_ENCVAL 6) RDB_ENC_INT16; Z.land value 0xFF;
     Z.land (Z.shiftr value 8) 0xFF]
  else if (value >=? - Z.shiftl 1 31) && (value <=? Z.shiftl 1 31 - 1) then
    [Z.lor (Z.shiftl RDB_ENCVAL 6) RDB_ENC_INT32; Z.land value 0xFF;
     Z.land (Z.shiftr value 8) 0xFF; Z.land (Z.shiftr value 16) 0xFF;
     Z.land (Z.shiftr value 24) 0xFF]
  else [].

Definition rdbTryIntegerEncoding (s : list Z) (len : Z) : result (list Z) :=
  let* r := string2ll s len in
  match r with
  | Some value => Ok (rdbEncodeInteger value)
  | None => Ok []
  end.

Section rdb.
Context {host : HostEndian} {io : Type} `{RioBackend io}.

(** What the environment decides: server.rdb_compression, whether shared
    integers may be used, whether the allocator has a block for [n] bytes of
    data (its header included), the
    contents of fresh memory and of stack arrays, and for the compressor the
    address of the string and its uninitialised hash table. *)
Variable rdb_compression : bool.
Variable no_shared : bool.
Variable alloc_ok : Z -> bool.
Variable uninit : nat -> Z.
Variable STRICT_ALIGN : bool.
Variable s_addr : Z.
Variable htab : LZF_STATE.

Definition fresh (n : Z) : list Z := realloc uninit [] n.

(** * Saving *)

Definition rdbWriteRaw (rdb : option (rio io)) (p : list Z) : option (rio io) * Z :=
  match rdb with
  | Some r =>
      let '(r, ok) := rioWrite r p in
      if negb ok then (Some r, -1) else (Some r, zlen p)
  | None => (None, zlen p)
  end.

(** Run [k] unless the write before it failed. *)
Definition andthen (w : option (rio io) * Z) (k : option (rio io) -> Z -> option (rio io) * Z)
  : option (rio io) * Z :=
  let '(rdb, n) := w in if n =? -1 then (rdb, -1) else k rdb n.

Definition rdbSaveType (rdb : option (rio io)) (type : Z) : option (rio io) * Z :=
  rdbWriteRaw rdb [u8 type].

Definition rdbSaveLen (rdb : option (rio io)) (len : Z) : option (rio io) * Z :=
  if len <? Z.shiftl 1 6 then
    andthen (rdbWriteRaw rdb [u8 (Z.lor (Z.land len 0xFF) (Z.shiftl RDB_6BITLEN 6))])
      (fun rdb _ => (rdb, 1))
  else if len <? Z.shiftl 1 14 then
    andthen (rdbWriteRaw rdb
        [u8 (Z.lor (Z.land (Z.shiftr len 8) 0xFF) (Z.shiftl RDB_14BITLEN 6)); u8 (Z.land len 0xFF)])
      (fun rdb _ => (rdb, 2))
  else if len <=? 4294967295 then
    andthen (rdbWriteRaw rdb [RDB_32BITLEN])
      (fun rdb _ => andthen (rdbWriteRaw rdb (store 4 (htonl len))) (fun rdb _ => (rdb, 1 + 4)))
  else
    andthen (rdbWriteRaw rdb [RDB_64BITLEN])
      (fun rdb _ => andthen (rdbWriteRaw rdb (store 8 (htonu64 len))) (fun rdb _ => (rdb, 1 + 8))).

Definition rdbSaveMillisecondTime (rdb : option (rio io)) (t : Z) : option (rio io) * Z :=
  rdbWriteRaw rdb (memrev64ifbe (store 8 t)).

(** [data] is the block of [compress_len] bytes. *)
Definition rdbSaveLzfBlob (rdb : option (rio io)) (data : list Z) (original_len : Z)
  : option (rio io) * Z :=
  let compress_len := zlen data in
  andthen (rdbWriteRaw rdb [Z.lor (Z.shiftl RDB_ENCVAL 6) RDB_ENC_LZF]) (fun rdb n =>
  let nwritten := 0 + n in
  andthen (rdbSaveLen rdb compress_len) (fun rdb n =>
  let nwritten := nwritten + n in
  andthen (rdbSaveLen rdb original_len) (fun rdb n =>
  let nwritten := nwritten + n in
  andthen (rdbWriteRaw rdb data) (fun rdb n =>
  (rdb, nwritten + n))))).

(** The block has one byte more than the compressor is told of. *)
Definition rdbSaveLzfStringObject (rdb : option (rio io)) (s : list Z) (len : Z)
  : result (option (rio io) * Z) :=
  if len <=? 4 then Ok (rdb, 0)
  else
    let outlen := len - 4 in
    let* (out, comprlen) := lzf_compress STRICT_ALIGN s_addr s htab (fresh outlen) in
    if comprlen =? 0 then Ok (rdb, 0)
    else
      let* data := rdn out 0 comprlen in
      Ok (rdbSaveLzfBlob rdb data len).

Definition rdbSaveVerbatim (rdb : option (rio io)) (s : list Z) (len : Z) : option (rio io) * Z :=
  andthen (rdbSaveLen rdb len) (fun rdb n =>
  let nwritten := 0 + n in
  if len >? 0 then andthen (rdbWriteRaw rdb s) (fun rdb _ => (rdb, nwritten + len))
  else (rdb, nwritten)).

Definition rdbSaveRawString (rdb : option (rio io)) (s : list Z) : result (option (rio io) * Z) :=
  let len := zlen s in
  let* enc := (if len <=? 11 then rdbTryIntegerEncoding s len else Ok []) in
  if zlen enc >? 0 then Ok (andthen (rdbWriteRaw rdb enc) (fun rdb _ => (rdb, zlen enc)))
  else if rdb_compression && (len >? 20) then
    let* (rdb, n) := rdbSaveLzfStringObject rdb s len in
    if n =? -1 then Ok (rdb, -1)
    else if n >? 0 then Ok (rdb, n)
    else Ok (rdbSaveVerbatim rdb s len)
  else Ok (rdbSaveVerbatim rdb s len).

Definition rdbSaveLongLongAsStringObject (rdb : option (rio io)) (value : Z)
  : result (option (rio io) * Z) :=
  let enc := rdbEncodeInteger value in
  if zlen enc >? 0 then Ok (rdbWriteRaw rdb enc)
  else
    let* (buf, enclen) := ll2string_buf (fresh 32) value in
    check (enclen <? 32) else AssertFailed ;;
    let* bs := rdn buf 0 enclen in
    Ok (andthen (rdbSaveLen rdb enclen) (fun rdb n =>
        let nwritten := 0 + n in
        andthen (rdbWriteRaw rdb bs) (fun rdb n => (rdb, nwritten + n)))).

Definition rdbSaveStringObject (rdb : option (rio io)) (obj : robj)
  : result (option (rio io) * Z) :=
  match obj with
  | ObjInt v _ => rdbSaveLongLongAsStringObject rdb v
  | ObjEmbstr bs | ObjRaw bs => rdbSaveRawString rdb bs
  end.

(** * Loading *)

(** -1 is [None]. *)
Definition rdbLoadType (rdb : rio io) : rio io * Z :=
  let '(rdb, r) := rioRead rdb 1 in
  match r with
  | Some [type] => (rdb, type)
  | _ => (rdb, -1)
  end.

Definition rdbLoadMillisecondTime (rdb : rio io) (rdbver : Z) : rio io * Z :=
  let '(rdb, r) := rioRead rdb 8 in
  match r with
  | None => (rdb, LLONG_MAX)
  | Some t64 =>
      let t64 := if rdbver >=? 9 then memrev64ifbe t64 else t64 in
      (rdb, i64 (load t64))
  end.

(** [*isencoded] and [*lenptr] on a 0 return, [None] on -1; an unknown length
    encoding is reported as corruption, which does not return to the caller
    with data. *)
Definition rdbLoadLenByRef (rdb : rio io) : rio io * option (bool * Z) :=
  let '(rdb, r) := rioRead rdb 1 in
  match r with
  | Some [b0] =>
      let type := Z.shiftr (Z.land b0 0xC0) 6 in
      if type =? RDB_ENCVAL then (rdb, Some (true, Z.land b0 0x3F))
      else if type =? RDB_6BITLEN then (rdb, Some (false, Z.land b0 0x3F))
      else if type =? RDB_14BITLEN then
        let '(rdb, r) := rioRead rdb 1 in
        match r with
        | Some [b1] => (rdb, Some (false, Z.lor (Z.shiftl (Z.land b0 0x3F) 8) b1))
        | _ => (rdb, None)
        end
      else if b0 =? RDB_32BITLEN then
        let '(rdb, r) := rioRead rdb 4 in
        match r with
        | Some bs => (rdb, Some (false, ntohl (load bs)))
        | None => (rdb, None)
        end
      else if b0 =? RDB_64BITLEN then
        let '(rdb, r) := rioRead rdb 8 in
        match r with
        | Some bs => (rdb, Some (false, ntohu64 (load bs)))
        | None => (rdb, None)
        end
      else (rdb, None)
  | _ => (rdb, None)
  end.

(** The flag keeps the 0 it is given first when the read fails. *)
Definition rdbLoadLen (rdb : rio io) : rio io * (bool * Z) :=
  let '(rdb, r) := rdbLoadLenByRef rdb in
  match r with
  | None => (rdb, (false, RDB_LENERR))
  | Some (isencoded, len) => (rdb, (isencoded, len))
  end.

Definition plainFlag (flags : Z) : bool := negb (Z.land flags RDB_LOAD_PLAIN =? 0).
Definition sdsFlag (flags : Z) : bool := negb (Z.land flags RDB_LOAD_SDS =? 0).
Definition encFlag (flags : Z) : bool := negb (Z.land flags RDB_LOAD_ENC =? 0).
Definition robjFlag (flags : Z) : bool := negb (plainFlag flags || sdsFlag flags).

(** The bytes of an integer of one, two or four bytes, as the code folds them. *)
Definition rdbLoadIntegerValue (rdb : rio io) (enctype : Z) : rio io * option Z :=
  if enctype =? RDB_ENC_INT8 then
    let '(rdb, r) := rioRead rdb 1 in
    (rdb, match r with Some [e0] => Some (i8 e0) | _ => None end)
  else if enctype =? RDB_ENC_INT16 then
    let '(rdb, r) := rioRead rdb 2 in
    (rdb, match r with
          | Some [e0; e1] => Some (i16 (u16 (Z.lor e0 (Z.shiftl e1 8))))
          | _ => None end)
  else if enctype =? RDB_ENC_INT32 then
    let '(rdb, r) := rioRead rdb 4 in
    (rdb, match r with
          | Some [e0; e1; e2; e3] =>
              Some (i32 (u32 (Z.lor (Z.lor (Z.lor e0 (Z.shiftl e1 8)) (Z.shiftl e2 16)) (Z.shiftl e3 24))))
          | _ => None end)
  else (rdb, None).

Definition rdbLoadIntegerObject (rdb : rio io) (enctype flags : Z) : result (rio io * option loaded) :=
  let '(rdb, v) := rdbLoadIntegerValue rdb enctype in
  match v with
  | None => Ok (rdb, None)
  | Some val =>
      if plainFlag flags || sdsFlag flags then
        let* (buf, len) := ll2string_buf (fresh LONG_STR_SIZE) val in
        let* bs := rdn buf 0 len in
        Ok (rdb, Some (if plainFlag flags then LPlain bs else LSds bs))
      else if encFlag flags then
        let* o := createStringObjectFromLongLongForValue no_shared (fresh LONG_STR_SIZE) val in
        Ok (rdb, Some (LObj o))
      else
        let* o := createStringObjectFromLongLongWithSds (fresh LONG_STR_SIZE) val in
        Ok (rdb, Some (LObj o))
  end.

(** ztrymalloc refuses requests of half the address space, before it asks the
    allocator; [len] of the [size] bytes are data. *)
Definition ztrymalloc (size len : Z) : bool := (size <? ULLONG_MAX / 2) && alloc_ok len.

(** sdstrynewlen(SDS_NOINIT, len): whether there is a string, unless the
    assertion of _sdsnewlen on the size of the block fails. *)
Definition sdstrynewlen (len : Z) : result bool :=
  let type := sdsReqType len in
  let type := if (type =? SDS_TYPE_5) && (len =? 0) then SDS_TYPE_8 else type in
  let hdrlen := sdsHdrSize type in
  check u64 (len + hdrlen + 1) >? len else AssertFailed;;
  Ok (ztrymalloc (u64 (hdrlen + len + 1)) len).

(** Short strings are embedded, by an allocation that does not return NULL. *)
Definition tryCreateStringObject (len : Z) : result bool :=
  if len <=? OBJ_ENCODING_EMBSTR_SIZE_LIMIT then Ok true else sdstrynewlen len.

(** The pointer [usable] is NULL in every call of the program. *)
Definition rdbLoadLzfStringObject (rdb : rio io) (flags : Z) : result (rio io * option loaded) :=
  let '(rdb, (_, clen)) := rdbLoadLen rdb in
  if clen =? RDB_LENERR then Ok (rdb, None) else
  let '(rdb, (_, len)) := rdbLoadLen rdb in
  if len =? RDB_LENERR then Ok (rdb, None) else
  if negb (ztrymalloc clen clen) then Ok (rdb, None) else
  let* ok := if plainFlag flags then Ok (ztrymalloc len len) else sdstrynewlen len in
  if negb ok then Ok (rdb, None) else
  let '(rdb, r) := rioRead rdb clen in
  match r with
  | None => Ok (rdb, None)
  | Some c =>
      let* (val, n, _) := lzf_decompress c (fresh len) in
      if negb (n =? len) then Ok (rdb, None)
      else Ok (rdb, Some (if plainFlag flags then LPlain val
                          else if robjFlag flags then LObj (ObjRaw val) else LSds val))
  end.

(** [len && rioRead(...) == 0]: nothing is read for an empty string. *)
Definition read_body (rdb : rio io) (len : Z) : rio io * option (list Z) :=
  if negb (len =? 0) then rioRead rdb len else (rdb, Some []).

Definition rdbGenericLoadStringObject (rdb : rio io) (flags : Z) : result (rio io * option loaded) :=
  let '(rdb, (isencoded, len)) := rdbLoadLen rdb in
  if len =? RDB_LENERR then Ok (rdb, None)
  else if isencoded then
    if (len =? RDB_ENC_INT8) || (len =? RDB_ENC_INT16) || (len =? RDB_ENC_INT32)
    then rdbLoadIntegerObject rdb len flags
    else if len =? RDB_ENC_LZF then rdbLoadLzfStringObject rdb flags
    else Ok (rdb, None)
  else if robjFlag flags then
    let* ok := tryCreateStringObject len in
    if negb ok then Ok (rdb, None)
    else
      let '(rdb, r) := read_body rdb len in
      Ok (rdb, match r with
               | None => None
               | Some bs => Some (LObj (if len <=? OBJ_ENCODING_EMBSTR_SIZE_LIMIT
                                        then ObjEmbstr bs else ObjRaw bs))
               end)
  else
    let* ok := if plainFlag flags then Ok (ztrymalloc len len) else sdstrynewlen len in
    if negb ok then Ok (rdb, None)
    else
      let '(rdb, r) := read_body rdb len in
      Ok (rdb, match r with
               | None => None
               | Some bs => Some (if plainFlag flags then LPlain bs else LSds bs)
               end).

Definition rdbLoadStringObject (rdb : rio io) : result (rio io * option loaded) :=
  rdbGenericLoadStringObject rdb RDB_LOAD_NONE.

Definition rdbLoadEncodedStringObject (rdb : rio io) : result (rio io * option loaded) :=
  rdbGenericLoadStringObject rdb RDB_LOAD_ENC.
End rdb.
