(* ===== verification/RdbProofs.v ===== *)
(** RdbProofs: strings survive the RDB format.

    [encodes] describes the byte strings rdbSaveRawString may produce for a
    string, independently of the code; saving is shown to append one of them
    (or to fail with the stream's sticky error set), and loading to map each
    of them back, over any stream backend that satisfies [RioLaws].  The
    integer case rests on Numbers, the compressed one on LzfCompress. *)

From Stdlib Require Import ZArith Lia Bool String.
From stdpp Require Import base list numbers decidable.
From S2P Require Import Prelude Bytes Sds Numbers Lzf LzfProofs LzfCompress Rio Rdb.

Local Open Scope Z_scope.

(** * Byte order *)

Section endian.
Context {host : HostEndian}.

Lemma le_bytes_reverse_load n bs :
  length bs = n -> Forall is_byte bs -> le_bytes n (le_val (reverse bs)) = reverse bs.
Proof.
  intros <- Hb. rewrite <- length_reverse. apply le_bytes_val, Forall_reverse, Hb.
Qed.

(** Network order on the wire, whatever the host. *)
Lemma store_htonl v : store 4 (htonl v) = reverse (le_bytes 4 v).
Proof.
  unfold htonl, intrev32, load, store. destruct host_is_be; [done|].
  rewrite memrev32_reverse by apply length_le_bytes.
  apply le_bytes_reverse_load; [apply length_le_bytes | auto with bytes].
Qed.

Lemma store_htonu64 v : store 8 (htonu64 v) = reverse (le_bytes 8 v).
Proof.
  unfold htonu64, intrev64, load, store. destruct host_is_be; [done|].
  rewrite memrev64_reverse by apply length_le_bytes.
  apply le_bytes_reverse_load; [apply length_le_bytes | auto with bytes].
Qed.

Lemma ntohl_load v : 0 <= v < 2 ^ 32 -> ntohl (load (reverse (le_bytes 4 v))) = v.
Proof.
  intros Hv. unfold ntohl, intrev32, load, store. destruct host_is_be.
  - rewrite reverse_involutive, le_val_bytes. apply Z.mod_small. done.
  - rewrite memrev32_reverse by apply length_le_bytes.
    rewrite le_bytes_reverse_load, reverse_involutive by (apply length_le_bytes || auto with bytes).
    rewrite le_val_bytes. by apply Z.mod_small.
Qed.

Lemma ntohu64_load v : 0 <= v < 2 ^ 64 -> ntohu64 (load (reverse (le_bytes 8 v))) = v.
Proof.
  intros Hv. unfold ntohu64, intrev64, load, store. destruct host_is_be.
  - rewrite reverse_involutive, le_val_bytes. apply Z.mod_small. done.
  - rewrite memrev64_reverse by apply length_le_bytes.
    rewrite le_bytes_reverse_load, reverse_involutive by (apply length_le_bytes || auto with bytes).
    rewrite le_val_bytes. by apply Z.mod_small.
Qed.
End endian.

(** * What the bytes are *)

Definition len_bytes (len : Z) : list Z :=
  if len <? 64 then [len]
  else if len <? 16384 then [64 + len / 256; len mod 256]
  else if len <=? 4294967295 then 0x80 :: reverse (le_bytes 4 len)
  else 0x81 :: reverse (le_bytes 8 len).

(** The byte strings that stand for the string [s]. *)
Inductive encodes (s : list Z) : list Z -> Prop :=
  | enc_int v : is_sdec s v -> rdbEncodeInteger v <> [] -> encodes s (rdbEncodeInteger v)
  | enc_lzf c : decodes c s -> 1 <= zlen c <= zlen s ->
      encodes s (0xC3 :: len_bytes (zlen c) ++ len_bytes (zlen s) ++ c)
  | enc_raw : encodes s (len_bytes (zlen s) ++ s).

(** The string a loaded value stands for. *)
Definition obj_denotes (o : robj) (s : list Z) : Prop :=
  match o with
  | ObjInt v _ => is_sdec s v /\ LLONG_MIN <= v <= LLONG_MAX
  | ObjEmbstr bs | ObjRaw bs => bs = s
  end.

Definition denotes (o : loaded) (s : list Z) : Prop :=
  match o with
  | LPlain bs | LSds bs => bs = s
  | LObj o => obj_denotes o s
  end.

(** * Saving *)

Section save.
Context {io : Type} `{RioLaws io}.

(** [res] appended [bs] to the stream and returned [m], or failed with the
    write error of the stream set, which on a reliable backend means that it
    was set before. *)
Definition saves (rdb : option (rio io)) (bs : list Z) (m : Z) (res : option (rio io) * Z) : Prop :=
  match rdb, res with
  | None, (None, n) => n = m
  | Some r, (Some r', n) =>
      0 <= max_processing_chunk r' /\
      (n = -1 /\ rioGetWriteError r' = true /\ (reliable (io := io) -> rioGetWriteError r = true) \/
       n = m /\ written r' = written r ++ bs /\ flags r' = flags r)
  | _, _ => False
  end.

Definition writable (rdb : option (rio io)) : Prop :=
  match rdb with Some r => 0 <= max_processing_chunk r | None => True end.

Lemma flag_set (r : rio io) : rioGetWriteError (set_flags r (Z.lor (flags r) RIO_FLAG_WRITE_ERROR)) = true.
Proof.
  unfold rioGetWriteError, set_flags. cbn [flags]. apply negb_true_iff, Z.eqb_neq.
  intros E. assert (Z.testbit (Z.land (Z.lor (flags r) RIO_FLAG_WRITE_ERROR) RIO_FLAG_WRITE_ERROR) 1 = false) as Ht
    by (by rewrite E).
  rewrite Z.land_spec, Z.lor_spec in Ht. change (Z.testbit RIO_FLAG_WRITE_ERROR 1) with true in Ht.
  by rewrite orb_true_r in Ht.
Qed.

Lemma rio_write_loop_fails fuel : forall (r : rio io) buf r',
  0 <= max_processing_chunk r -> (length buf <= fuel)%nat ->
  rio_write_loop fuel r buf = (r', false) ->
  rioGetWriteError r' = true /\ 0 <= max_processing_chunk r' /\ ~ reliable (io := io).
Proof.
  induction fuel as [|fuel IH]; intros r buf r' Hm Hf Hw.
  - destruct buf; [done | simpl in Hf; lia].
  - destruct buf as [|b buf]; [done|]. cbn [rio_write_loop] in Hw. set (bs := b :: buf) in *.
    pose proof (chunk_of_range r (zlen bs) Hm) as Hc.
    set (n := chunk_of r (zlen bs)) in *.
    destruct (apply_cksum_fields r (take (Z.to_nat n) bs)) as (E1 & E2 & E3).
    destruct (io_write _ _) as [x ok] eqn:Ew. destruct ok; cbn [negb] in Hw.
    + apply IH in Hw; [done | cbn; lia |]. rewrite length_drop.
      assert (0 < zlen bs) by (unfold bs; rewrite zlen_cons; pose proof (zlen_nonneg buf); lia).
      lia.
    + injection Hw as <-. split; [apply (flag_set (set_io _ x))|]. split; [cbn; lia|].
      intros Hrel. specialize (Hrel (r_io (apply_cksum r (take (Z.to_nat n) bs))) (take (Z.to_nat n) bs)).
      by rewrite Ew in Hrel.
Qed.

Lemma rdbWriteRaw_saves rdb p : writable rdb -> saves rdb p (zlen p) (rdbWriteRaw rdb p).
Proof.
  intros Hw. unfold rdbWriteRaw. destruct rdb as [r|]; [|done]. cbn in Hw.
  destruct (rioWrite r p) as [r' ok] eqn:E. destruct ok; cbn [negb saves].
  - apply rioWrite_ok in E as (-> & Hm & ->); [|done]. rewrite Hm. auto.
  - unfold rioWrite in E. destruct (negb (Z.land (flags r) RIO_FLAG_WRITE_ERROR =? 0)) eqn:Ef.
    + injection E as <-. auto.
    + apply rio_write_loop_fails in E as (? & ? & ?); [tauto | done..].
Qed.

(** Writes in a row append in that order; the first failure ends them. *)
Lemma andthen_saves rdb a b m m' w k :
  0 <= m -> saves rdb a m w -> (forall rdb', writable rdb' -> saves rdb' b m' (k rdb' m)) ->
  saves rdb (a ++ b) m' (andthen w k).
Proof.
  intros Hm0 Hw Hk. unfold andthen. destruct w as [[r'|] n]; destruct rdb as [r|]; cbn [saves] in Hw; try done.
  - destruct Hw as [Hm [(-> & Herr & Hrel) | (-> & Hwr & Hfl)]].
    + cbn. auto.
    + rewrite (proj2 (Z.eqb_neq m (-1))) by lia.
      specialize (Hk (Some r') Hm). destruct (k (Some r') m) as [[r2|] n2]; cbn [saves] in *; try done.
      unfold rioGetWriteError in *. rewrite Hfl in Hk.
      destruct Hk as [Hm2 [?|(-> & Hw2 & ->)]]; [tauto|]. split; [done|]. right.
      by rewrite Hw2, Hwr, app_assoc.
  - subst n. rewrite (proj2 (Z.eqb_neq m (-1))) by lia. apply (Hk None I).
Qed.

Lemma saves_return rdb a m m' w k :
  0 <= m -> (forall rdb', k rdb' m = (rdb', m')) -> saves rdb a m w ->
  saves rdb a m' (andthen w k).
Proof.
  intros Hm0 Hk Hw. rewrite <- (app_nil_r a). apply (andthen_saves rdb a [] m m'); [done..|].
  intros [r|] Hr; rewrite Hk; cbn in *; [|done]. rewrite app_nil_r. auto.
Qed.
Context {host : HostEndian}.

Lemma octet_land v : Z.land v 0xFF = v mod 256.
Proof. change 0xFF with (Z.ones 8). by rewrite Z.land_ones by lia. Qed.

Lemma rdbSaveLen_saves rdb len :
  writable rdb -> 0 <= len < 2 ^ 64 ->
  saves rdb (len_bytes len) (zlen (len_bytes len)) (rdbSaveLen rdb len).
Proof.
  intros Hw Hl. unfold rdbSaveLen, len_bytes.
  change (Z.shiftl 1 6) with 64. change (Z.shiftl 1 14) with 16384. rewrite !octet_land.
  destruct (Z.ltb_spec len 64); [|destruct (Z.ltb_spec len 16384); [|destruct (Z.leb_spec len 4294967295)]].
  - replace (u8 (Z.lor (len mod 256) (Z.shiftl RDB_6BITLEN 6))) with len.
    { apply (saves_return _ _ 1); [done | done |]. by apply rdbWriteRaw_saves. }
    change (Z.shiftl RDB_6BITLEN 6) with 0.
    rewrite Z.lor_0_r, Z.mod_small, wrapU_small by (try change (2 ^ 8) with 256; lia). done.
  - assert (0 <= len / 256 < 64) by (split; [apply Z.div_pos; lia | apply Z.div_lt_upper_bound; lia]).
    replace (u8 (Z.lor (Z.shiftr len 8 mod 256) (Z.shiftl RDB_14BITLEN 6))) with (64 + len / 256).
    2: { rewrite Z.shiftr_div_pow2 by lia. change (2 ^ 8) with 256.
         rewrite (Z.mod_small (len / 256)) by lia. change RDB_14BITLEN with 1.
         rewrite lor_disjoint by (try change (2 ^ 6) with 64; lia).
         rewrite wrapU_small by (change (2 ^ 8) with 256; change (2 ^ 6) with 64; lia).
         change (2 ^ 6) with 64. lia. }
    replace (u8 (len mod 256)) with (len mod 256).
    2: { symmetry. apply wrapU_small. change (2 ^ 8) with 256. apply Z.mod_pos_bound. lia. }
    apply (saves_return _ _ 2); [done | done |]. by apply rdbWriteRaw_saves.
  - rewrite store_htonl. set (bs := reverse (le_bytes 4 len)).
    assert (zlen (0x80 :: bs) = 5) as -> by (unfold bs; rewrite zlen_cons; unfold zlen; by rewrite length_reverse, length_le_bytes).
    apply (andthen_saves _ [0x80] bs 1); [done | by apply rdbWriteRaw_saves |].
    intros rdb' Hw'. apply (saves_return _ _ (zlen bs)); [apply zlen_nonneg | done |]. by apply rdbWriteRaw_saves.
  - rewrite store_htonu64. set (bs := reverse (le_bytes 8 len)).
    assert (zlen (0x81 :: bs) = 9) as -> by (unfold bs; rewrite zlen_cons; unfold zlen; by rewrite length_reverse, length_le_bytes).
    apply (andthen_saves _ [0x81] bs 1); [done | by apply rdbWriteRaw_saves |].
    intros rdb' Hw'. apply (saves_return _ _ (zlen bs)); [apply zlen_nonneg | done |]. by apply rdbWriteRaw_saves.
Qed.

Lemma rdbSaveVerbatim_saves rdb s :
  writable rdb -> zlen s < 2 ^ 64 ->
  saves rdb (len_bytes (zlen s) ++ s) (zlen (len_bytes (zlen s) ++ s)) (rdbSaveVerbatim rdb s (zlen s)).
Proof.
  intros Hw Hl. unfold rdbSaveVerbatim. pose proof (zlen_nonneg s). rewrite zlen_app.
  apply (andthen_saves _ _ _ (zlen (len_bytes (zlen s)))); [apply zlen_nonneg | by apply rdbSaveLen_saves |].
  intros rdb' Hw'. rewrite Z.gtb_ltb. destruct (Z.ltb_spec 0 (zlen s)) as [Hpos|Hz].
  - apply (saves_return _ _ (zlen s)); [done | done |]. by apply rdbWriteRaw_saves.
  - rewrite (zlen_nil_inv s) by lia. cbn [zlen length]. rewrite Z.add_0_r.
    destruct rdb' as [r|]; cbn in *; [|done]. rewrite app_nil_r. auto.
Qed.

Lemma rdbSaveLzfBlob_saves rdb (c s : list Z) :
  writable rdb -> zlen c < 2 ^ 64 -> zlen s < 2 ^ 64 ->
  let bs := 0xC3 :: len_bytes (zlen c) ++ len_bytes (zlen s) ++ c in
  saves rdb bs (zlen bs) (rdbSaveLzfBlob rdb c (zlen s)).
Proof.
  intros Hw Hc Hs bs. unfold rdbSaveLzfBlob. change (Z.lor (Z.shiftl RDB_ENCVAL 6) RDB_ENC_LZF) with 0xC3.
  pose proof (zlen_nonneg c). pose proof (zlen_nonneg s).
  apply (andthen_saves _ [0xC3] _ 1); [done | by apply rdbWriteRaw_saves |]. intros rdb1 Hw1.
  eapply andthen_saves; [| by apply rdbSaveLen_saves |]; [apply zlen_nonneg|]. intros rdb2 Hw2.
  eapply andthen_saves; [| by apply rdbSaveLen_saves |]; [apply zlen_nonneg|]. intros rdb3 Hw3.
  unfold bs. apply (saves_return _ _ (zlen c)); [done | | by apply rdbWriteRaw_saves].
  intros rdb'. rewrite zlen_cons, !zlen_app. f_equal. lia.
Qed.

End save.

Lemma zlen_fresh uninit n : 0 <= n -> zlen (fresh uninit n) = n.
Proof.
  intros Hn. unfold fresh, realloc, zlen. rewrite take_nil, length_app, length_map, length_seq. simpl. lia.
Qed.

(** Printing into a stack array that is large enough. *)
Lemma ll2string_buf_ok garbage v s :
  20 < zlen garbage -> LLONG_MIN <= v <= LLONG_MAX -> is_sdec s v ->
  exists buf, ll2string_buf garbage v = Ok (buf, zlen s) /\ rdn buf 0 (zlen s) = Ok s /\ zlen s <= 20.
Proof.
  intros Hg Hv Hs. destruct (is_sdec_exists v Hv) as (ds & Hds & Hlen).
  rewrite (is_sdec_unique s ds v Hs Hds). unfold ll2string_buf.
  pose proof (ll2string_ok [] garbage [] 0 (zlen garbage) v ds eq_refl eq_refl Hv Hds) as Hok.
  rewrite (proj2 (Z.ltb_lt _ _)), app_nil_r in Hok by lia.
  eexists. split; [exact Hok|]. split; [|done]. by apply (rdn_mid [] ds).
Qed.

Section save_string.
Context {host : HostEndian} {io : Type} `{RioLaws io}.
Variable rdb_compression : bool.
Variable uninit : nat -> Z.
Variable STRICT_ALIGN : bool.
Variable s_addr : Z.
Variable htab : LZF_STATE.
Hypothesis htab_range : forall i, 0 <= htab i < 2 ^ 64.

Lemma rdbSaveLzfStringObject_saves rdb s :
  writable rdb -> Forall is_byte s -> 8192 <= s_addr -> s_addr + zlen s < 2 ^ 64 ->
  exists rdb' n,
    rdbSaveLzfStringObject uninit STRICT_ALIGN s_addr htab rdb s (zlen s) = Ok (rdb', n) /\
    (rdb' = rdb /\ n = 0 \/
     exists c, decodes c s /\ 1 <= zlen c <= zlen s /\
       let bs := 0xC3 :: len_bytes (zlen c) ++ len_bytes (zlen s) ++ c in
       saves rdb bs (zlen bs) (rdb', n)).
Proof.
  intros Hw Hb Hlo Hhi. unfold rdbSaveLzfStringObject.
  destruct (Z.leb_spec (zlen s) 4); [exists rdb, 0; auto|].
  pose proof (zlen_fresh uninit (zlen s - 4) ltac:(lia)) as Hf.
  destruct (lzf_compress_ok STRICT_ALIGN s_addr s Hb Hlo Hhi htab (fresh uninit (zlen s - 4)))
    as (out & n & -> & Hz & Hcase); [lia | done |]. runr. rewrite Hf in *.
  destruct Hcase as [[-> _] | [Hn Hd]]; [exists rdb, 0; auto|].
  rewrite (proj2 (Z.eqb_neq n 0)) by lia.
  assert (zlen (take (Z.to_nat n) out) = n) as Hc by (apply zlen_take; lia).
  assert (rdn out 0 n = Ok (take (Z.to_nat n) out)) as -> by (unfold rdn; dec_bool; done).
  runr. destruct (rdbSaveLzfBlob rdb _ _) as [rdb' m] eqn:E. exists rdb', m. split; [done|]. right.
  exists (take (Z.to_nat n) out). split; [done|]. split; [lia|]. rewrite <- E.
  apply rdbSaveLzfBlob_saves; [done | lia..].
Qed.

Lemma saves_nonneg rdb bs rdb' n :
  saves rdb bs (zlen bs) (rdb', n) -> n = -1 \/ n = zlen bs.
Proof. destruct rdb, rdb'; cbn; tauto. Qed.

Lemma rdbSaveRawString_saves rdb s :
  writable rdb -> Forall is_byte s -> 8192 <= s_addr -> s_addr + zlen s < 2 ^ 64 ->
  exists bs res,
    rdbSaveRawString rdb_compression uninit STRICT_ALIGN s_addr htab rdb s = Ok res /\
    encodes s bs /\ saves rdb bs (zlen bs) res.
Proof.
  intros Hw Hb Hlo Hhi. unfold rdbSaveRawString. pose proof (zlen_nonneg s).
  assert (exists enc, (if zlen s <=? 11 then rdbTryIntegerEncoding s (zlen s) else Ok []) = Ok enc /\
            (enc <> [] -> encodes s enc)) as (enc & -> & Henc).
  { destruct (zlen s <=? 11); [|by exists []]. unfold rdbTryIntegerEncoding.
    destruct (string2ll_ok s) as (r & -> & Hr). runr. destruct r as [v|]; [|by exists []].
    exists (rdbEncodeInteger v). split; [done|]. intros Hne. constructor; [|done].
    by apply Hr. }
  runr. rewrite Z.gtb_ltb. destruct (Z.ltb_spec 0 (zlen enc)) as [Hpos|Hz].
  { exists enc. eexists. split; [done|]. split.
    - apply Henc. intros ->. by cbn in Hpos.
    - apply (saves_return _ _ (zlen enc)); [lia | done | by apply rdbWriteRaw_saves]. }
  assert (exists bs res, Ok (rdbSaveVerbatim rdb s (zlen s)) = Ok res /\
            encodes s bs /\ saves rdb bs (zlen bs) res) as Hverb.
  { eexists _, _. split; [done|]. split; [apply enc_raw|]. apply rdbSaveVerbatim_saves; [done | lia]. }
  destruct (rdb_compression && (zlen s >? 20)); [|done].
  destruct (rdbSaveLzfStringObject_saves rdb s Hw Hb Hlo Hhi) as (rdb' & n & -> & Hcase). runr.
  destruct Hcase as [[-> ->] | (c & Hd & Hc & Hs)]; [done|].
  eexists. exists (rdb', n). split; [|split; [by apply enc_lzf | exact Hs]].
  apply saves_nonneg in Hs as [->| ->]; [done|]. rewrite zlen_cons.
  set (m := zlen (len_bytes (zlen c) ++ _)). assert (0 <= m) by apply zlen_nonneg.
  rewrite Z.gtb_ltb. dec_bool. done.
Qed.

Lemma rdbSaveLongLong_saves rdb v s :
  writable rdb -> LLONG_MIN <= v <= LLONG_MAX -> is_sdec s v ->
  exists bs res,
    rdbSaveLongLongAsStringObject uninit rdb v = Ok res /\
    encodes s bs /\ saves rdb bs (zlen bs) res.
Proof.
  intros Hw Hv Hs. unfold rdbSaveLongLongAsStringObject. rewrite Z.gtb_ltb.
  destruct (Z.ltb_spec 0 (zlen (rdbEncodeInteger v))) as [Hpos|Hz].
  - eexists _, _. split; [done|]. split; [|by apply rdbWriteRaw_saves].
    constructor; [done|]. intros E. by rewrite E in Hpos.
  - destruct (ll2string_buf_ok (fresh uninit 32) v s) as (buf & -> & Hr & Hlen);
      [by rewrite zlen_fresh | done | done |].
    runr. rewrite (proj2 (Z.ltb_lt (zlen s) 32)) by lia. runr. rewrite Hr. runr.
    eexists _, _. split; [done|]. split; [apply enc_raw|]. pose proof (zlen_nonneg s).
    eapply andthen_saves; [| apply rdbSaveLen_saves; [done | lia] |]; [apply zlen_nonneg|].
    intros rdb' Hw'. apply (saves_return _ _ (zlen s)); [lia | | by apply rdbWriteRaw_saves].
    intros rdb2. rewrite zlen_app. done.
Qed.

Lemma rdbSaveStringObject_saves rdb o s :
  writable rdb -> obj_denotes o s -> Forall is_byte s -> 8192 <= s_addr -> s_addr + zlen s < 2 ^ 64 ->
  exists bs res,
    rdbSaveStringObject rdb_compression uninit STRICT_ALIGN s_addr htab rdb o = Ok res /\
    encodes s bs /\ saves rdb bs (zlen bs) res.
Proof.
  intros Hw Ho Hb Hlo Hhi. destruct o as [v sh|bs|bs]; cbn in Ho.
  - destruct Ho. by apply rdbSaveLongLong_saves.
  - subst bs. by apply rdbSaveRawString_saves.
  - subst bs. by apply rdbSaveRawString_saves.
Qed.
End save_string.

(** * Loading *)

Lemma type_bits b : 0 <= b < 256 -> Z.shiftr (Z.land b 0xC0) 6 = b / 64.
Proof.
  intros Hb. rewrite Z.shiftr_land. change (Z.shiftr 0xC0 6) with (Z.ones 2).
  rewrite Z.land_ones, Z.shiftr_div_pow2 by lia. change (2 ^ 6) with 64. change (2 ^ 2) with 4.
  apply Z.mod_small. split; [apply Z.div_pos; lia | apply Z.div_lt_upper_bound; lia].
Qed.

Lemma low_bits b : Z.land b 0x3F = b mod 64.
Proof. change 0x3F with (Z.ones 6). by rewrite Z.land_ones by lia. Qed.

Lemma int16_bytes v :
  - 2 ^ 15 <= v < 2 ^ 15 ->
  i16 (u16 (Z.lor (v mod 256) (Z.shiftl (v / 256 mod 256) 8))) = v.
Proof.
  intros Hv. pose proof (Z.mod_pos_bound v 256). pose proof (Z.mod_pos_bound (v / 256) 256).
  rewrite lor_disjoint by (change (2 ^ 8) with 256; lia). change (2 ^ 8) with 256.
  replace (v mod 256 + v / 256 mod 256 * 256) with (v mod 2 ^ 16).
  - change (v mod 2 ^ 16) with (wrapU 16 v). rewrite wrapU_wrapU, wrapS_wrapU by lia.
    apply wrapS_small; lia.
  - change (2 ^ 16) with (256 * 256). rewrite Z.rem_mul_r by lia. lia.
Qed.

Lemma int32_bytes v :
  - 2 ^ 31 <= v < 2 ^ 31 ->
  i32 (u32 (Z.lor (Z.lor (Z.lor (v mod 256) (Z.shiftl (v / 256 mod 256) 8))
                         (Z.shiftl (v / 65536 mod 256) 16)) (Z.shiftl (v / 16777216 mod 256) 24))) = v.
Proof.
  intros Hv. pose proof (Z.mod_pos_bound v 256). pose proof (Z.mod_pos_bound (v / 256) 256).
  pose proof (Z.mod_pos_bound (v / 65536) 256). pose proof (Z.mod_pos_bound (v / 16777216) 256).
  rewrite (lor_disjoint (v mod 256)) by (change (2 ^ 8) with 256; lia). change (2 ^ 8) with 256.
  rewrite (lor_disjoint (v mod 256 + _)) by (change (2 ^ 16) with 65536; lia). change (2 ^ 16) with 65536.
  rewrite lor_disjoint by (change (2 ^ 24) with 16777216; lia). change (2 ^ 24) with 16777216.
  match goal with |- i32 (u32 ?x) = _ => replace x with (v mod 2 ^ 32) end.
  - change (v mod 2 ^ 32) with (wrapU 32 v). rewrite wrapU_wrapU, wrapS_wrapU by lia.
    apply wrapS_small; lia.
  - change (2 ^ 32) with (256 * (256 * (256 * 256))).
    rewrite !Z.rem_mul_r by lia. rewrite !Z.div_div by lia.
    change (256 * 256) with 65536. change (65536 * 256) with 16777216. lia.
Qed.

Section load.
Context {host : HostEndian} {io : Type} `{RioLaws io}.

(** A reader that has consumed a prefix: what is ahead of it now. *)
Definition reads (r' : rio io) (rest : list Z) : Prop := readable r' /\ ahead r' = rest.

Lemma rioRead_reads r bs rest :
  reads r (bs ++ rest) -> exists r', rioRead r (zlen bs) = (r', Some bs) /\ reads r' rest.
Proof.
  intros [Hr Ha]. destruct (rioRead_app r bs rest Hr Ha) as (r' & -> & Ha' & Hr').
  by exists r'.
Qed.

Lemma rdbLoadLen_reads r len rest :
  0 <= len < 2 ^ 64 -> reads r (len_bytes len ++ rest) ->
  exists r', rdbLoadLen r = (r', (false, len)) /\ reads r' rest.
Proof.
  intros Hl Hr. unfold rdbLoadLen, rdbLoadLenByRef, len_bytes in *.
  destruct (Z.ltb_spec len 64); [|destruct (Z.ltb_spec len 16384); [|destruct (Z.leb_spec len 4294967295)]].
  - destruct (rioRead_reads r [len] rest Hr) as (r' & E & Hr'). change (zlen [len]) with 1 in E.
    rewrite E, type_bits, (Z.div_small len 64), low_bits, Z.mod_small by lia. by exists r'.
  - assert (0 <= len / 256 < 64) by (split; [apply Z.div_pos; lia | apply Z.div_lt_upper_bound; lia]).
    pose proof (Z.mod_pos_bound len 256).
    destruct (rioRead_reads r [64 + len / 256] ([len mod 256] ++ rest)) as (r1 & E & Hr1); [done|].
    change (zlen [64 + len / 256]) with 1 in E. rewrite E.
    destruct (rioRead_reads r1 [len mod 256] rest Hr1) as (r2 & E2 & Hr2).
    change (zlen [len mod 256]) with 1 in E2.
    rewrite type_bits, low_bits by lia.
    replace ((64 + len / 256) / 64) with 1
      by (apply (Z.div_unique _ _ _ (len / 256)); lia).
    replace ((64 + len / 256) mod 64) with (len / 256)
      by (apply (Z.mod_unique _ _ 1); lia).
    cbn [Z.eqb Pos.eqb RDB_ENCVAL RDB_6BITLEN RDB_14BITLEN]. rewrite E2. exists r2. split; [|done].
    rewrite word_of_octets by lia. do 3 f_equal. pose proof (Z.div_mod len 256). lia.
  - destruct (rioRead_reads r [0x80] (reverse (le_bytes 4 len) ++ rest)) as (r1 & E & Hr1); [done|].
    change (zlen [0x80]) with 1 in E. rewrite E.
    destruct (rioRead_reads r1 (reverse (le_bytes 4 len)) rest Hr1) as (r2 & E2 & Hr2).
    replace (zlen (reverse (le_bytes 4 len))) with 4 in E2
      by (unfold zlen; by rewrite length_reverse, length_le_bytes).
    cbv beta iota zeta delta [Z.shiftr Z.land]. cbn. rewrite E2, ntohl_load by lia. by exists r2.
  - destruct (rioRead_reads r [0x81] (reverse (le_bytes 8 len) ++ rest)) as (r1 & E & Hr1); [done|].
    change (zlen [0x81]) with 1 in E. rewrite E.
    destruct (rioRead_reads r1 (reverse (le_bytes 8 len)) rest Hr1) as (r2 & E2 & Hr2).
    replace (zlen (reverse (le_bytes 8 len))) with 8 in E2
      by (unfold zlen; by rewrite length_reverse, length_le_bytes).
    cbv beta iota zeta delta [Z.shiftr Z.land]. cbn. rewrite E2, ntohu64_load by lia. by exists r2.
Qed.

(** The header byte of a special encoding. *)
Lemma rdbLoadLen_enc r e rest :
  0 <= e < 64 -> reads r ((0xC0 + e) :: rest) ->
  exists r', rdbLoadLen r = (r', (true, e)) /\ reads r' rest.
Proof.
  intros He Hr. unfold rdbLoadLen, rdbLoadLenByRef.
  destruct (rioRead_reads r [0xC0 + e] rest Hr) as (r' & E & Hr').
  change (zlen [0xC0 + e]) with 1 in E. rewrite E, type_bits, low_bits by lia.
  replace ((0xC0 + e) / 64) with 3 by (apply (Z.div_unique _ _ _ e); lia).
  replace ((0xC0 + e) mod 64) with e by (apply (Z.mod_unique _ _ 3); lia).
  by exists r'.
Qed.

Lemma rdbEncodeInteger_cases v :
  rdbEncodeInteger v <> [] ->
  (- 2 ^ 7 <= v < 2 ^ 7 /\ rdbEncodeInteger v = [0xC0; v mod 256]) \/
  (- 2 ^ 15 <= v < 2 ^ 15 /\ rdbEncodeInteger v = [0xC1; v mod 256; v / 256 mod 256]) \/
  (- 2 ^ 31 <= v < 2 ^ 31 /\
   rdbEncodeInteger v = [0xC2; v mod 256; v / 256 mod 256; v / 65536 mod 256; v / 16777216 mod 256]).
Proof.
  unfold rdbEncodeInteger. rewrite !octet_land, !Z.shiftr_div_pow2 by lia.
  change (2 ^ 8) with 256. change (2 ^ 16) with 65536. change (2 ^ 24) with 16777216.
  change (- Z.shiftl 1 7) with (-128). change (- Z.shiftl 1 15) with (-32768).
  change (- Z.shiftl 1 31) with (-2147483648). change (Z.shiftl 1 7 - 1) with 127.
  change (Z.shiftl 1 15 - 1) with 32767. change (Z.shiftl 1 31 - 1) with 2147483647.
  rewrite !Z.geb_leb.
  destruct (Z.leb_spec (-128) v), (Z.leb_spec v 127); cbn [andb]; [intros _; left; split; [lia | done] | | |];
  (destruct (Z.leb_spec (-32768) v), (Z.leb_spec v 32767); cbn [andb]; [intros _; right; left; split; [lia | done] | | |];
  (destruct (Z.leb_spec (-2147483648) v), (Z.leb_spec v 2147483647); cbn [andb];
     [intros _; right; right; split; [lia | done] | done | done | done])).
Qed.

Lemma load_integer_reads r v rest :
  rdbEncodeInteger v <> [] -> reads r (rdbEncodeInteger v ++ rest) ->
  exists r1 e r2, rdbLoadLen r = (r1, (true, e)) /\
    (e = RDB_ENC_INT8 \/ e = RDB_ENC_INT16 \/ e = RDB_ENC_INT32) /\
    rdbLoadIntegerValue r1 e = (r2, Some v) /\ reads r2 rest /\ LLONG_MIN <= v <= LLONG_MAX.
Proof.
  intros Hne Hr. apply rdbEncodeInteger_cases in Hne as [[Hv E]|[[Hv E]|[Hv E]]]; rewrite E in Hr.
  - destruct (rdbLoadLen_enc r 0 ([v mod 256] ++ rest)) as (r1 & E1 & Hr1); [lia | done |].
    destruct (rioRead_reads r1 [v mod 256] rest Hr1) as (r2 & E2 & Hr2).
    exists r1, 0, r2. split_and!; [done | auto | | done | lia..].
    unfold rdbLoadIntegerValue. cbn [Z.eqb RDB_ENC_INT8]. change (zlen [v mod 256]) with 1 in E2.
    rewrite E2. do 2 f_equal. change (v mod 256) with (wrapU 8 v). rewrite wrapS_wrapU by lia.
    apply wrapS_small; lia.
  - destruct (rdbLoadLen_enc r 1 ([v mod 256; v / 256 mod 256] ++ rest)) as (r1 & E1 & Hr1); [lia | done |].
    destruct (rioRead_reads r1 [v mod 256; v / 256 mod 256] rest Hr1) as (r2 & E2 & Hr2).
    exists r1, 1, r2. split_and!; [done | auto | | done | lia..].
    unfold rdbLoadIntegerValue. cbn [Z.eqb RDB_ENC_INT8 RDB_ENC_INT16 Pos.eqb].
    change (zlen [_; _]) with 2 in E2. rewrite E2, int16_bytes by done. done.
  - set (bs := [v mod 256; v / 256 mod 256; v / 65536 mod 256; v / 16777216 mod 256]).
    destruct (rdbLoadLen_enc r 2 (bs ++ rest)) as (r1 & E1 & Hr1); [lia | done |].
    destruct (rioRead_reads r1 bs rest Hr1) as (r2 & E2 & Hr2).
    exists r1, 2, r2. split_and!; [done | auto | | done | lia..].
    unfold rdbLoadIntegerValue. cbn [Z.eqb RDB_ENC_INT8 RDB_ENC_INT16 RDB_ENC_INT32 Pos.eqb].
    change (zlen bs) with 4 in E2. rewrite E2. unfold bs. rewrite int32_bytes by done. done.
Qed.
End load.

Section load_string.
Context {host : HostEndian} {io : Type} `{RioLaws io}.
Variable no_shared : bool.
Variable alloc_ok : Z -> bool.
Variable uninit : nat -> Z.

Lemma createFromLongLong_ok garbage v flag s :
  20 < zlen garbage -> LLONG_MIN <= v <= LLONG_MAX -> is_sdec s v ->
  exists o, createStringObjectFromLongLongWithOptions garbage v flag = Ok o /\ obj_denotes o s.
Proof.
  intros Hg Hv Hs. unfold createStringObjectFromLongLongWithOptions.
  destruct ((v >=? 0) && _ && _); [by eexists|]. destruct ((v >=? LLONG_MIN) && _ && _); [by eexists|].
  destruct (ll2string_buf_ok garbage v s Hg Hv Hs) as (buf & -> & Hr & Hl). runr.
  unfold createStringObject. rewrite Hr. runr. eexists. split; [done|].
  by destruct (zlen s <=? OBJ_ENCODING_EMBSTR_SIZE_LIMIT).
Qed.

Lemma load_integer_object r r' e v s fl :
  rdbLoadIntegerValue r e = (r', Some v) -> LLONG_MIN <= v <= LLONG_MAX -> is_sdec s v ->
  exists o, rdbLoadIntegerObject no_shared uninit r e fl = Ok (r', Some o) /\ denotes o s.
Proof.
  intros E Hv Hs. unfold rdbLoadIntegerObject. rewrite E.
  assert (20 < zlen (fresh uninit LONG_STR_SIZE)) as Hg by (by rewrite zlen_fresh).
  destruct (plainFlag fl || sdsFlag fl).
  - destruct (ll2string_buf_ok _ v s Hg Hv Hs) as (buf & -> & Hr & _). runr. rewrite Hr. runr.
    eexists. split; [done|]. by destruct (plainFlag fl).
  - assert (forall flag, exists o,
      createStringObjectFromLongLongWithOptions (fresh uninit LONG_STR_SIZE) v flag = Ok o /\ obj_denotes o s) as Hc
      by (intros flag; by apply createFromLongLong_ok).
    destruct (encFlag fl).
    + unfold createStringObjectFromLongLongForValue.
      destruct no_shared; cbn [negb];
        [destruct (Hc LL2STROBJ_NO_SHARED) as (o & -> & Ho) | destruct (Hc LL2STROBJ_AUTO) as (o & -> & Ho)];
        runr; by eexists.
    + unfold createStringObjectFromLongLongWithSds.
      destruct (Hc LL2STROBJ_NO_INT_ENC) as (o & -> & Ho). runr. by eexists.
Qed.

(** The lengths for which the size of the block wraps around. *)
Definition wraps (len : Z) : bool := 2 ^ 64 - 18 <=? len.

Lemma sdstrynewlen_faults len : 0 <= len -> wraps len = true -> sdstrynewlen alloc_ok len = Err AssertFailed.
Proof.
  intros Hl Hw%Z.leb_le. unfold sdstrynewlen, sdsReqType.
  rewrite (proj2 (Z.ltb_ge len _)), !(proj2 (Z.leb_gt len _)) by (rewrite Z.shiftl_mul_pow2 by lia; lia).
  change (sdsHdrSize _) with 17. rewrite Z.gtb_ltb, (proj2 (Z.ltb_ge _ _)); [done|].
  assert (2 ^ 64 <= len \/ len < 2 ^ 64) as [|] by lia.
  - unfold wrapU. pose proof (Z.mod_pos_bound (len + 17 + 1) (2 ^ 64)). lia.
  - unfold wrapU. replace (len + 17 + 1) with (len + 18 - 2 ^ 64 + 1 * 2 ^ 64) by lia.
    rewrite Z.mod_add, Z.mod_small by lia. lia.
Qed.

Lemma sds_block len : exists size, len + 1 < size <= len + 18 /\
  (0 <= len -> wraps len = false -> sdstrynewlen alloc_ok len = Ok (ztrymalloc alloc_ok size len)).
Proof.
  set (type := if (sdsReqType len =? SDS_TYPE_5) && (len =? 0) then SDS_TYPE_8 else sdsReqType len).
  assert (0 < sdsHdrSize type <= 17) as Hh.
  { unfold type, sdsReqType. repeat case_match; cbn; lia. }
  exists (sdsHdrSize type + len + 1). split; [lia|]. intros Hl Hw%Z.leb_gt. unfold sdstrynewlen. fold type.
  rewrite !wrapU_small by lia. rewrite Z.gtb_ltb, (proj2 (Z.ltb_lt _ _)) by lia. done.
Qed.

Lemma sdstrynewlen_total len :
  0 <= len -> if wraps len then sdstrynewlen alloc_ok len = Err AssertFailed
              else exists ok, sdstrynewlen alloc_ok len = Ok ok.
Proof.
  intros Hl. destruct (wraps len) eqn:Hw; [by apply sdstrynewlen_faults|].
  destruct (sds_block len) as (size & _ & E). rewrite E by done. eauto.
Qed.

Lemma sdstrynewlen_ok len :
  0 <= len < 2 ^ 63 - 32 -> alloc_ok len = true -> sdstrynewlen alloc_ok len = Ok true.
Proof.
  intros Hl Ha. destruct (sds_block len) as (size & Hs & E).
  rewrite E; [|lia | unfold wraps; apply Z.leb_gt; lia].
  unfold ztrymalloc. rewrite Ha, andb_true_r, (proj2 (Z.ltb_lt _ _)); [done|].
  change (ULLONG_MAX / 2) with (2 ^ 63 - 1). lia.
Qed.

Lemma ztrymalloc_ok len : 0 <= len < 2 ^ 63 - 32 -> alloc_ok len = true -> ztrymalloc alloc_ok len len = true.
Proof.
  intros Hl Ha. unfold ztrymalloc. rewrite Ha, andb_true_r. apply Z.ltb_lt.
  change (ULLONG_MAX / 2) with (2 ^ 63 - 1). lia.
Qed.

Lemma load_lzf_object r c s rest fl :
  decodes c s -> 1 <= zlen c <= zlen s -> zlen s < 2 ^ 63 - 32 ->
  (forall n, 0 <= n <= zlen s -> alloc_ok n = true) ->
  reads r (len_bytes (zlen c) ++ len_bytes (zlen s) ++ c ++ rest) ->
  exists r' o, rdbLoadLzfStringObject alloc_ok uninit r fl = Ok (r', Some o) /\
    denotes o s /\ reads r' rest.
Proof.
  intros Hd Hc Hs Ha Hr. unfold rdbLoadLzfStringObject.
  destruct (rdbLoadLen_reads r (zlen c) _ ltac:(lia) Hr) as (r1 & -> & Hr1).
  unfold RDB_LENERR. rewrite (proj2 (Z.eqb_neq (zlen c) _)) by lia.
  destruct (rdbLoadLen_reads r1 (zlen s) _ ltac:(lia) Hr1) as (r2 & -> & Hr2).
  rewrite (proj2 (Z.eqb_neq (zlen s) _)), ztrymalloc_ok by (lia || (apply Ha; lia)). cbn [negb].
  assert ((if plainFlag fl then Ok (ztrymalloc alloc_ok (zlen s) (zlen s)) else sdstrynewlen alloc_ok (zlen s)) = Ok true) as ->.
  { destruct (plainFlag fl); [rewrite ztrymalloc_ok|apply sdstrynewlen_ok]; done || lia || (apply Ha; lia). }
  runr. cbn [negb].
  destruct (rioRead_reads r2 c rest Hr2) as (r3 & -> & Hr3).
  rewrite (decompress_decodes c s) by (done || (rewrite zlen_fresh; lia)). runr.
  rewrite Z.eqb_refl. cbn [negb].
  assert (drop (length s) (fresh uninit (zlen s)) = []) as ->.
  { apply drop_ge. pose proof (zlen_fresh uninit (zlen s) ltac:(lia)). unfold zlen in *. lia. }
  rewrite app_nil_r. eexists _, _. split; [done|]. split; [|done].
  destruct (plainFlag fl); [done|]. by destruct (robjFlag fl).
Qed.

Lemma read_body_reads r bs rest :
  reads r (bs ++ rest) -> exists r', read_body r (zlen bs) = (r', Some bs) /\ reads r' rest.
Proof.
  intros Hr. unfold read_body. destruct (Z.eqb_spec (zlen bs) 0) as [E|E]; cbn [negb].
  - rewrite (zlen_nil_inv bs E) in *. by exists r.
  - by apply rioRead_reads.
Qed.

Lemma load_encodes r s bs rest fl :
  encodes s bs -> zlen s < 2 ^ 63 - 32 -> (forall n, 0 <= n <= zlen s -> alloc_ok n = true) ->
  reads r (bs ++ rest) ->
  exists r' o, rdbGenericLoadStringObject no_shared alloc_ok uninit r fl = Ok (r', Some o) /\
    denotes o s /\ reads r' rest.
Proof.
  intros Henc Hs Ha Hr. unfold rdbGenericLoadStringObject, RDB_LENERR. pose proof (zlen_nonneg s).
  destruct Henc as [v Hd Hne | c Hd Hc | ].
  - destruct (load_integer_reads r v rest Hne Hr) as (r1 & e & r2 & -> & He & Hv & Hr2 & Hvr).
    destruct (load_integer_object r1 r2 e v s fl Hv Hvr Hd) as (o & Ho & Hden).
    exists r2, o. split; [|done].
    destruct He as [-> | [-> | ->]]; exact Ho.
  - destruct (rdbLoadLen_enc r 3 (len_bytes (zlen c) ++ len_bytes (zlen s) ++ c ++ rest))
      as (r1 & -> & Hr1); [lia | by rewrite <- !app_comm_cons, <- !app_assoc in Hr |].
    cbn [Z.eqb Pos.eqb orb RDB_ENC_INT8 RDB_ENC_INT16 RDB_ENC_INT32 RDB_ENC_LZF].
    by apply (load_lzf_object r1 c).
  - rewrite <- app_assoc in Hr.
    destruct (rdbLoadLen_reads r (zlen s) _ ltac:(lia) Hr) as (r1 & -> & Hr1).
    rewrite (proj2 (Z.eqb_neq (zlen s) _)) by lia.
    pose proof (sdstrynewlen_ok (zlen s) ltac:(lia) ltac:(apply Ha; lia)) as Hn.
    destruct (read_body_reads r1 s rest Hr1) as (r2 & E2 & Hr2).
    destruct (robjFlag fl); [|destruct (plainFlag fl)]; rewrite ?ztrymalloc_ok by (lia || (apply Ha; lia)).
    + unfold tryCreateStringObject. rewrite Hn.
      destruct (zlen s <=? OBJ_ENCODING_EMBSTR_SIZE_LIMIT); runr; cbn [negb]; rewrite E2; by eexists _, _.
    + runr. cbn [negb]. rewrite E2. by eexists _, _.
    + rewrite Hn. runr. cbn [negb]. rewrite E2. by eexists _, _.
Qed.
End load_string.

(** * Loading untrusted bytes *)

Section untrusted.
Context {host : HostEndian} {io : Type} `{RioLaws io}.
Variable no_shared : bool.
Variable alloc_ok : Z -> bool.
Variable uninit : nat -> Z.

(** A reader over bytes, whatever they say. *)
Definition over_bytes (r : rio io) : Prop := readable r /\ Forall is_byte (ahead r).

Lemma rioRead_any r n :
  over_bytes r -> 0 <= n ->
  exists r' o, rioRead r n = (r', o) /\
    forall bs, o = Some bs -> over_bytes r' /\ zlen bs = n /\ Forall is_byte bs.
Proof.
  intros [Hr Hb] Hn. destruct (rioRead_spec r n Hr Hn) as (r' & E).
  destruct (Z.leb_spec n (zlen (ahead r))) as [Hfit|]; [|by eexists _, _].
  destruct E as (E & Ha & Hr'). eexists _, _. split; [exact E|]. intros bs [= <-].
  split_and!; [split; [done|] | by apply zlen_take | by apply Forall_take].
  rewrite Ha. by apply Forall_drop.
Qed.

Lemma load_nonneg bs : Forall is_byte bs -> 0 <= load bs.
Proof.
  intros Hb. unfold load. destruct host_is_be; [apply le_val_range, Forall_reverse, Hb | by apply le_val_range].
Qed.

Lemma ntohl_nonneg v : 0 <= v -> 0 <= ntohl v.
Proof.
  intros Hv. unfold ntohl, intrev32. destruct host_is_be eqn:E; [done|]. apply load_nonneg.
  rewrite memrev32_reverse by apply length_store. apply Forall_reverse.
  unfold store. rewrite E. auto with bytes.
Qed.

Lemma ntohu64_nonneg v : 0 <= v -> 0 <= ntohu64 v.
Proof.
  intros Hv. unfold ntohu64, intrev64. destruct host_is_be eqn:E; [done|]. apply load_nonneg.
  rewrite memrev64_reverse by apply length_store. apply Forall_reverse.
  unfold store. rewrite E. auto with bytes.
Qed.

Lemma rdbLoadLen_any r :
  over_bytes r ->
  exists r' e len, rdbLoadLen r = (r', (e, len)) /\ (len = RDB_LENERR \/ over_bytes r' /\ 0 <= len).
Proof.
  intros Hr. unfold rdbLoadLen, rdbLoadLenByRef.
  destruct (rioRead_any r 1 Hr ltac:(lia)) as (r1 & o & -> & Ho).
  destruct o as [[|b0 [|]]|]; try (eexists _, _, _; split; [done | by left]).
  destruct (Ho _ eq_refl) as (Hr1 & _ & Hb0). apply Forall_cons_1 in Hb0 as [Hb0 _].
  assert (0 <= Z.land b0 0x3F) by (apply Z.land_nonneg; lia).
  destruct (_ =? RDB_ENCVAL); [eexists _, _, _; split; [done | by right]|].
  destruct (_ =? RDB_6BITLEN); [eexists _, _, _; split; [done | by right]|].
  destruct (_ =? RDB_14BITLEN).
  { destruct (rioRead_any r1 1 Hr1 ltac:(lia)) as (r2 & o2 & -> & Ho2).
    destruct o2 as [[|b1 [|]]|]; try (eexists _, _, _; split; [done | by left]).
    destruct (Ho2 _ eq_refl) as (Hr2 & _ & Hb1). apply Forall_cons_1 in Hb1 as [Hb1 _].
    eexists _, _, _. split; [done|]. right. split; [done|].
    apply Z.lor_nonneg. split; [by apply Z.shiftl_nonneg | apply Hb1]. }
  destruct (b0 =? RDB_32BITLEN); [|destruct (b0 =? RDB_64BITLEN)].
  - destruct (rioRead_any r1 4 Hr1 ltac:(lia)) as (r2 & o2 & -> & Ho2).
    destruct o2 as [bs|]; [|eexists _, _, _; split; [done | by left]].
    destruct (Ho2 _ eq_refl) as (Hr2 & _ & Hbs).
    eexists _, _, _. split; [done|]. right. split; [done|]. by apply ntohl_nonneg, load_nonneg.
  - destruct (rioRead_any r1 8 Hr1 ltac:(lia)) as (r2 & o2 & -> & Ho2).
    destruct o2 as [bs|]; [|eexists _, _, _; split; [done | by left]].
    destruct (Ho2 _ eq_refl) as (Hr2 & _ & Hbs).
    eexists _, _, _. split; [done|]. right. split; [done|]. by apply ntohu64_nonneg, load_nonneg.
  - eexists _, _, _. split; [done | by left].
Qed.

Lemma wrapS_i64 w z : 0 < w <= 64 -> LLONG_MIN <= wrapS w z <= LLONG_MAX.
Proof.
  intros Hw. unfold wrapS.
  assert (0 < 2 ^ (w - 1) <= 2 ^ 63) as Hp
    by (split; [apply Z.pow_pos_nonneg; lia | apply Z.pow_le_mono_r; lia]).
  assert (2 ^ w = 2 * 2 ^ (w - 1)) as E by (rewrite <- Z.pow_succ_r by lia; f_equal; lia).
  pose proof (Z.mod_pos_bound (z + 2 ^ (w - 1)) (2 ^ w)). lia.
Qed.

Lemma rdbLoadIntegerValue_range r e r' v :
  rdbLoadIntegerValue r e = (r', Some v) -> LLONG_MIN <= v <= LLONG_MAX.
Proof.
  unfold rdbLoadIntegerValue. intros Hv.
  destruct (e =? RDB_ENC_INT8); [|destruct (e =? RDB_ENC_INT16); [|destruct (e =? RDB_ENC_INT32); [|done]]];
    destruct (rioRead r _) as [r1 o]; injection Hv as _ Hv;
    repeat match type of Hv with
           | match ?x with _ => _ end = _ => destruct x; try discriminate
           end;
    injection Hv as <-; apply wrapS_i64; lia.
Qed.

Lemma rdbLoadIntegerObject_any r e fl :
  exists r' o, rdbLoadIntegerObject no_shared uninit r e fl = Ok (r', o).
Proof.
  destruct (rdbLoadIntegerValue r e) as [r' [v|]] eqn:E.
  - pose proof (rdbLoadIntegerValue_range r e r' v E) as Hv.
    destruct (is_sdec_exists v Hv) as (ds & Hds & _).
    destruct (load_integer_object no_shared uninit r r' e v ds fl E Hv Hds) as (o & -> & _). eauto.
  - unfold rdbLoadIntegerObject. rewrite E. eauto.
Qed.

(** The length of the string that a non-plain load asks sdstrynewlen for: the
    one of an uncompressed string, or the second of a compressed one. *)
Definition lzf_length (r : rio io) : option Z :=
  let '(r, (_, clen)) := rdbLoadLen r in
  if clen =? RDB_LENERR then None else
  let '(r, (_, len)) := rdbLoadLen r in
  if (len =? RDB_LENERR) || negb (ztrymalloc alloc_ok clen clen) then None else Some len.

Definition asked_length (r : rio io) : option Z :=
  let '(r, (isencoded, len)) := rdbLoadLen r in
  if len =? RDB_LENERR then None
  else if isencoded then if len =? RDB_ENC_LZF then lzf_length r else None
  else Some len.

Definition asks_too_much (len : option Z) (fl : Z) : bool :=
  negb (plainFlag fl) && match len with Some len => wraps len | None => false end.

Lemma rdbLoadLzf_any r fl :
  over_bytes r ->
  if asks_too_much (lzf_length r) fl then rdbLoadLzfStringObject alloc_ok uninit r fl = Err AssertFailed
  else exists r' o, rdbLoadLzfStringObject alloc_ok uninit r fl = Ok (r', o).
Proof.
  intros Hr. unfold rdbLoadLzfStringObject, lzf_length, asks_too_much.
  destruct (rdbLoadLen_any r Hr) as (r1 & e1 & clen & -> & H1).
  destruct (Z.eqb_spec clen RDB_LENERR); [rewrite andb_false_r; eauto|]. destruct H1 as [? | [Hr1 Hc]]; [done|].
  destruct (rdbLoadLen_any r1 Hr1) as (r2 & e2 & len & -> & H2).
  destruct (Z.eqb_spec len RDB_LENERR); cbn [orb]; [rewrite andb_false_r; eauto|]. destruct H2 as [? | [Hr2 Hl]]; [done|].
  destruct (negb (ztrymalloc _ clen clen)); [rewrite andb_false_r; eauto|].
  pose proof (sdstrynewlen_total alloc_ok len Hl) as Hn.
  assert (forall ok, exists r' o, (if negb ok then Ok (r2, None) else
    let '(rdb, r) := rioRead r2 clen in
    match r with
    | None => Ok (rdb, None)
    | Some c =>
        let* (val, n, _) := lzf_decompress c (fresh uninit len) in
        if negb (n =? len) then Ok (rdb, None)
        else Ok (rdb, Some (if plainFlag fl then LPlain val
                            else if robjFlag fl then LObj (ObjRaw val) else LSds val))
    end) = Ok (r', o)) as Hrest.
  { intros []; cbn [negb]; [|eauto].
    destruct (rioRead_any r2 clen Hr2 Hc) as (r3 & o & -> & Ho). destruct o as [c|]; [|eauto].
    destruct (Ho _ eq_refl) as (_ & _ & Hb).
    destruct (decompress_total c (fresh uninit len) Hb) as (out & m & er & ->). runr.
    destruct (negb (m =? len)); eauto. }
  destruct (plainFlag fl); cbn [negb andb]; [apply (Hrest (ztrymalloc alloc_ok len len))|].
  destruct (wraps len); [by rewrite Hn|]. destruct Hn as [ok ->]. apply (Hrest ok).
Qed.

(** C32: loading a string from a stream of arbitrary bytes (truncated, of an
    unknown encoding, with a corrupt LZF blob), whatever allocations fail and
    whatever the flags, ends with a value or NULL and leaves no buffer, with one
    exception that is exact: when the load is not into a plain buffer and the
    stream announces a string of [2^64 - 18] bytes or more, the assertion of
    sdsnewlen on the size of the block fails. *)
Theorem rdb_load_string_safe r fl :
  over_bytes r ->
  if asks_too_much (asked_length r) fl
  then rdbGenericLoadStringObject no_shared alloc_ok uninit r fl = Err AssertFailed
  else exists r' o, rdbGenericLoadStringObject no_shared alloc_ok uninit r fl = Ok (r', o).
Proof.
  intros Hr. unfold rdbGenericLoadStringObject, asked_length.
  destruct (rdbLoadLen_any r Hr) as (r1 & e & len & -> & H1).
  destruct (Z.eqb_spec len RDB_LENERR); [unfold asks_too_much; rewrite andb_false_r; eauto|].
  destruct H1 as [? | [Hr1 Hl]]; [done|]. destruct e.
  - destruct (len =? RDB_ENC_LZF) eqn:E.
    + apply Z.eqb_eq in E as ->. by apply rdbLoadLzf_any.
    + unfold asks_too_much. rewrite andb_false_r. destruct (_ || _ || _); [apply rdbLoadIntegerObject_any | eauto].
  - pose proof (sdstrynewlen_total alloc_ok len Hl) as Hn. unfold asks_too_much, robjFlag.
    destruct (plainFlag fl); cbn [negb andb orb]; [|destruct (sdsFlag fl); cbn [negb]].
    + runr. destruct (negb _); [eauto|]. destruct (read_body r1 len). eauto.
    + destruct (wraps len); [by rewrite Hn|]. destruct Hn as [ok ->]. runr.
      destruct (negb ok); [eauto|]. destruct (read_body r1 len). eauto.
    + unfold tryCreateStringObject. destruct (Z.leb_spec len OBJ_ENCODING_EMBSTR_SIZE_LIMIT) as [Hle|].
      * unfold wraps. rewrite (proj2 (Z.leb_gt _ _)) by (unfold OBJ_ENCODING_EMBSTR_SIZE_LIMIT in Hle; lia).
        runr. cbn [negb]. destruct (read_body r1 len). eauto.
      * destruct (wraps len); [by rewrite Hn|]. destruct Hn as [ok ->]. runr.
        destruct (negb ok); [eauto|]. destruct (read_body r1 len). eauto.
Qed.
End untrusted.

(** * Round trip *)

(** C13: a string object survives the RDB format.  Saving any string object,
    integer encoded or not, to any stream either reports -1 with the stream's
    write error set, or appends exactly as many bytes as it returns; and a
    reader of those bytes on any other stream, with any load flags and
    whatever the memory of the two processes holds, gets a value that stands
    for the same string and is left right after them. *)
Theorem rdb_string_roundtrip {host : HostEndian} {wio : Type} `{RioLaws wio} {rdio : Type} `{RioLaws rdio}
    rdb_compression uninit STRICT_ALIGN s_addr htab w o s :
  0 <= max_processing_chunk w -> obj_denotes o s -> Forall is_byte s ->
  8192 <= s_addr -> s_addr + zlen s < 2 ^ 63 -> (forall i, 0 <= htab i < 2 ^ 64) ->
  exists w' n,
    rdbSaveStringObject (io := wio) rdb_compression uninit STRICT_ALIGN s_addr htab (Some w) o
    = Ok (Some w', n) /\
    (n = -1 /\ rioGetWriteError w' = true \/
     exists bs, n = zlen bs /\ written w' = written w ++ bs /\
       forall no_shared alloc_ok uninit' fl (r : rio rdio) rest,
         (forall k, 0 <= k <= zlen s -> alloc_ok k = true) ->
         readable r -> ahead r = bs ++ rest ->
         exists r' l,
           rdbGenericLoadStringObject no_shared alloc_ok uninit' r fl = Ok (r', Some l) /\
           denotes l s /\ readable r' /\ ahead r' = rest).
Proof.
  intros Hm Ho Hb Hlo Hhi Ht.
  destruct (rdbSaveStringObject_saves rdb_compression uninit STRICT_ALIGN s_addr htab Ht (Some w) o s
              Hm Ho Hb Hlo ltac:(lia)) as (bs & [[w'|] n] & E & Henc & Hs); [|done].
  exists w', n. split; [done|]. cbn [saves] in Hs. destruct Hs as [_ [(? & ? & _)|(-> & Hw & _)]]; [by left|].
  right. exists bs. split; [done|]. split; [done|]. intros no_shared alloc_ok uninit' fl r rest Ha Hr Hah.
  destruct (load_encodes no_shared alloc_ok uninit' r s bs rest fl Henc ltac:(lia) Ha (conj Hr Hah))
    as (r' & l & El & Hd & Hr' & Ha'). by exists r', l.
Qed.

(** A compressible string and the streams of the witnesses. *)
Definition rdb_sample : list Z := lzf_sample ++ lzf_sample.

Lemma rdb_sample_bytes : Forall is_byte rdb_sample.
Proof. apply Forall_app; split; apply lzf_sample_bytes. Qed.

Lemma buffer_readable bs : zlen bs < 2 ^ 63 -> readable (rioInitWithBuffer bs).
Proof. intros Hl. split; [|done]. split; [|done]. cbn. pose proof (zlen_nonneg bs). lia. Qed.

Lemma rdb_string_roundtrip_witness :
  exists w' n r' l,
    rdbSaveStringObject (host := false) true (fun _ => 0) false 65536 (fun _ => 65540)
      (Some (rioInitWithBuffer [])) (ObjRaw rdb_sample) = Ok (Some w', n) /\ n < zlen rdb_sample /\
    rdbGenericLoadStringObject (host := false) false (fun _ => true) (fun _ => 7)
      (rioInitWithBuffer (written w')) RDB_LOAD_NONE = Ok (r', Some l) /\ denotes l rdb_sample.
Proof.
  destruct (rdb_string_roundtrip (host := false) (rdio := buffer_io) true (fun _ => 0) false 65536
              (fun _ => 65540) (rioInitWithBuffer []) (ObjRaw rdb_sample) rdb_sample)
    as (w' & n & E & Hcase); [done | done | apply rdb_sample_bytes | done | done | lia |].
  exists w', n. pose proof E as E'. vm_compute in E'. injection E' as <- <-.
  destruct Hcase as [[? _] | (bs & _ & Hw & Hload)]; [discriminate|].
  change (written (rioInitWithBuffer []) ++ bs) with bs in Hw.
  destruct (Hload false (fun _ => true) (fun _ => 7) RDB_LOAD_NONE (rioInitWithBuffer bs) [])
    as (r' & l & El & Hd & _); [done | | by rewrite app_nil_r |].
  { apply buffer_readable. by rewrite <- Hw. }
  exists r', l. rewrite Hw. split; [exact E|]. split; [done|]. split; [exact El | exact Hd].
Defined.

Lemma rdb_load_string_safe_witness :
  (exists r' o, rdbGenericLoadStringObject (host := true) false (fun _ => true) (fun _ => 7)
    (rioInitWithBuffer [0xC3; 4; 9; 0; 1; 255; 255]) RDB_LOAD_SDS = Ok (r', o)) /\
  rdbGenericLoadStringObject (host := true) false (fun _ => false) (fun _ => 7)
    (rioInitWithBuffer (0x81 :: replicate 7 255 ++ [254])) RDB_LOAD_NONE = Err AssertFailed.
Proof.
  assert (forall bs, zlen bs < 2 ^ 63 -> Forall is_byte bs -> over_bytes (rioInitWithBuffer bs)) as Hb.
  { intros bs Hz Hbs. split; [by apply buffer_readable | exact Hbs]. }
  split.
  - pose proof (rdb_load_string_safe (host := true) false (fun _ => true) (fun _ => 7)
      (rioInitWithBuffer [0xC3; 4; 9; 0; 1; 255; 255]) RDB_LOAD_SDS) as H.
    replace (asks_too_much _ _) with false in H by (vm_compute; reflexivity).
    apply H, Hb; [done|]. unfold is_byte. repeat constructor; lia.
  - pose proof (rdb_load_string_safe (host := true) false (fun _ => false) (fun _ => 7)
      (rioInitWithBuffer (0x81 :: replicate 7 255 ++ [254])) RDB_LOAD_NONE) as H.
    replace (asks_too_much _ _) with true in H by (vm_compute; reflexivity).
    apply H, Hb; [done|]. unfold is_byte. cbn. repeat constructor; lia.
Defined.

(** C34: a defect found by the check of untrusted lengths: a stream whose length
    prefix, in the encoding of the format itself, announces between [2^64 - 18]
    and [2^64 - 2] bytes makes every load into an sds or an object abort the
    server by a failed assertion, whatever follows and whatever memory there
    is, where the loader means to return NULL. *)
Theorem rdb_load_length_aborts {host : HostEndian} {io : Type} `{RioLaws io} no_shared alloc_ok uninit
    (r : rio io) fl len rest :
  readable r -> ahead r = len_bytes len ++ rest -> 2 ^ 64 - 18 <= len < 2 ^ 64 - 1 -> plainFlag fl = false ->
  rdbGenericLoadStringObject no_shared alloc_ok uninit r fl = Err AssertFailed.
Proof.
  intros Hr Ha Hl Hp. unfold rdbGenericLoadStringObject.
  destruct (rdbLoadLen_reads r len rest ltac:(lia) (conj Hr Ha)) as (r1 & -> & _).
  unfold RDB_LENERR. rewrite (proj2 (Z.eqb_neq len _)), Hp by lia.
  pose proof (sdstrynewlen_faults alloc_ok len ltac:(lia) ltac:(apply Z.leb_le; lia)) as Hn.
  unfold tryCreateStringObject, OBJ_ENCODING_EMBSTR_SIZE_LIMIT. rewrite (proj2 (Z.leb_gt len _)), Hn by lia.
  by destruct (robjFlag fl).
Qed.

Lemma rdb_load_length_aborts_witness :
  rdbGenericLoadStringObject (host := false) true (fun _ => false) (fun _ => 0)
    (rioInitWithBuffer (0x81 :: replicate 7 255 ++ [254; 1; 2; 3])) RDB_LOAD_SDS = Err AssertFailed.
Proof.
  apply (rdb_load_length_aborts (host := false) true (fun _ => false) (fun _ => 0) _ RDB_LOAD_SDS (2 ^ 64 - 2) [1; 2; 3]).
  - by apply buffer_readable.
  - vm_compute. reflexivity.
  - lia.
  - reflexivity.
Defined.
