(* ===== verification/Crc.v ===== *)
(** Crc: the 64-bit CRC of RDB files and DUMP payloads, crc64.c, crcspeed.c
    and crccombine.c of src/redis-stable/src.

    crc64.c holds a bit-by-bit routine, [_crc64], from which crcspeed.c
    derives tables; the routine in use takes eight bytes at a time, splits
    long inputs in two or three streams and merges them with the matrices of
    crccombine.c, which are cached in a static array ([combine_cache], threaded
    through).  The address of the buffer matters (alignment) and is a
    parameter, as are the two cutoffs, which are variables of the program. *)

From Stdlib Require Import ZArith Lia Bool.
From stdpp Require Import base list numbers decidable.
From S2P Require Import Prelude Bytes.

Local Open Scope Z_scope.

(** The numbers 0 .. n-1. *)
Definition zseq (n : nat) : list Z := map Z.of_nat (seq 0 n).

(** * crc64.c *)

Definition POLY : Z := 0xad93d23594c935a9.

Definition crc_reflect (data data_len : Z) : result Z :=
  check (data_len <=? 64) else AssertFailed ;;
  let data := Z.lor (Z.land (Z.shiftr data 1) 0x5555555555555555)
                    (u64 (Z.shiftl (Z.land data 0x5555555555555555) 1)) in
  let data := Z.lor (Z.land (Z.shiftr data 2) 0x3333333333333333)
                    (u64 (Z.shiftl (Z.land data 0x3333333333333333) 2)) in
  let data := Z.lor (Z.land (Z.shiftr data 4) 0x0F0F0F0F0F0F0F0F)
                    (u64 (Z.shiftl (Z.land data 0x0F0F0F0F0F0F0F0F) 4)) in
  let data := Z.lor (Z.land (Z.shiftr data 8) 0x00FF00FF00FF00FF)
                    (u64 (Z.shiftl (Z.land data 0x00FF00FF00FF00FF) 8)) in
  let data := Z.lor (Z.land (Z.shiftr data 16) 0xFFFF0000FFFF)
                    (u64 (Z.shiftl (Z.land data 0xFFFF0000FFFF) 16)) in
  let data := Z.lor (Z.land (Z.shiftr data 32) 0xFFFFFFFF)
                    (u64 (Z.shiftl (Z.land data 0xFFFFFFFF) 32)) in
  Ok (Z.shiftr data (64 - data_len)).

(** One round of the inner loop, for the bit [i] of the byte [c]. *)
Definition crc64_bit (c crc i : Z) : Z :=
  let bit := negb (Z.land crc 0x8000000000000000 =? 0) in
  let bit := if negb (Z.land c i =? 0) then negb bit else bit in
  let crc := u64 (Z.shiftl crc 1) in
  if bit then Z.lxor crc POLY else crc.

Definition crc64_byte (crc c : Z) : Z :=
  let crc := fold_left (crc64_bit c) [0x01; 0x02; 0x04; 0x08; 0x10; 0x20; 0x40; 0x80] crc in
  Z.land crc 0xffffffffffffffff.

Definition _crc64 (crc : Z) (data : list Z) : result Z :=
  let crc := fold_left crc64_byte data crc in
  let crc := Z.land crc 0xffffffffffffffff in
  let* r := crc_reflect crc 64 in
  Ok (Z.lxor r 0x0000000000000000).

(** * crccombine.c *)

(** The cells of the matrix each case of the switch adds up. *)
Definition switch_cells (v : Z) : list Z :=
  match v with
  | 15 => [0; 1; 2; 3] | 14 => [1; 2; 3] | 13 => [0; 2; 3] | 12 => [2; 3]
  | 11 => [0; 1; 3] | 10 => [1; 3] | 9 => [0; 3] | 8 => [3]
  | 7 => [0; 1; 2] | 6 => [1; 2] | 5 => [0; 2] | 4 => [2]
  | 3 => [0; 1] | 2 => [1] | 1 => [0] | _ => []
  end.

(** [sum ^= *(mat+i) ^ ...] *)
Fixpoint xor_cells (mat : list Z) (base : Z) (cells : list Z) (sum : Z) : result Z :=
  match cells with
  | [] => Ok sum
  | i :: cells =>
      let* m := rd1 mat (base + i) in
      xor_cells mat base cells (Z.lxor sum m)
  end.

(** [while (vec)]: four bits per round. *)
Fixpoint times_switch_loop (fuel : nat) (mat : list Z) (base vec sum : Z) : result Z :=
  if vec =? 0 then Ok sum
  else
    match fuel with
    | O => Err OutOfFuel
    | S fuel =>
        let* sum := xor_cells mat base (switch_cells (Z.land vec 15)) sum in
        times_switch_loop fuel mat (base + 4) (Z.shiftr vec 4) sum
    end.

Definition gf2_matrix_times_switch (mat : list Z) (vec : Z) : result Z :=
  times_switch_loop 16 mat 0 vec 0.

(** The products of the first rows of [mat] with the matrix. *)
Fixpoint square_rows (mat rows : list Z) : result (list Z) :=
  match rows with
  | [] => Ok []
  | r :: rows =>
      let* s := gf2_matrix_times_switch mat r in
      let* ss := square_rows mat rows in
      Ok (s :: ss)
  end.

(** [gf2_matrix_square(combine_cache[dst], combine_cache[src], dim)] *)
Definition gf2_matrix_square (cache : list (list Z)) (dst src dim : Z) : result (list (list Z)) :=
  let* mat := rd1 cache src in
  let* square := rd1 cache dst in
  let* rows := rdn mat 0 dim in
  let* sq := square_rows mat rows in
  let* square := wrn square 0 sq in
  wr1 cache dst square.

(** [combine_cache[1][n] = row; row <<= 1] for n = 1 .. dim-1 *)
Fixpoint shift_rows (fuel : nat) (row1 : list Z) (n dim row : Z) : result (list Z) :=
  if n <? dim then
    match fuel with
    | O => Err OutOfFuel
    | S fuel =>
        let* row1 := wr1 row1 n row in
        shift_rows fuel row1 (n + 1) dim (u64 (Z.shiftl row 1))
    end
  else Ok row1.

(** The do/while loop: the first round squares layer 1 into layer 0, the
    others the layer before. *)
Fixpoint cache_loop (fuel : nat) (cache : list (list Z)) (cache_num prev dim : Z)
  : result (list (list Z)) :=
  match fuel with
  | O => Err OutOfFuel
  | S fuel =>
      let* cache := gf2_matrix_square cache cache_num (cache_num + prev) dim in
      let cache_num := cache_num + 1 in
      if cache_num <? 64 then cache_loop fuel cache cache_num (-1) dim else Ok cache
  end.

Definition init_combine_cache (cache : list (list Z)) (poly dim : Z) : result (list (list Z)) :=
  let* row1 := rd1 cache 1 in
  let* row1 := wr1 row1 0 poly in
  let* row1 := shift_rows (Z.to_nat dim) row1 1 dim 1 in
  let* cache := wr1 cache 1 row1 in
  let* cache := gf2_matrix_square cache 0 1 dim in
  let* cache := gf2_matrix_square cache 1 0 dim in
  cache_loop 64 cache 0 1 dim.

(** The static array of the program, before its first use. *)
Definition combine_cache0 : list (list Z) := repeat (repeat 0 64) 64.

Fixpoint combine_loop (fuel : nat) (cache : list (list Z)) (cache_num crc1 len2 : Z) : result Z :=
  match fuel with
  | O => Err OutOfFuel
  | S fuel =>
      let* crc1 :=
        (if negb (Z.land len2 1 =? 0) then
           let* mat := rd1 cache cache_num in
           gf2_matrix_times_switch mat crc1
         else Ok crc1) in
      let len2 := Z.shiftr len2 1 in
      let cache_num := Z.land (cache_num + 1) 63 in
      if negb (len2 =? 0) then combine_loop fuel cache cache_num crc1 len2 else Ok crc1
  end.

(** The combined checksum and the cache, which the first call fills. *)
Definition crc64_combine (cache : list (list Z)) (crc1 crc2 len2 poly dim : Z)
  : result (Z * list (list Z)) :=
  if len2 =? 0 then Ok (crc1, cache)
  else
    let* row0 := rd1 cache 0 in
    let* c00 := rd1 row0 0 in
    let* cache := (if c00 =? 0 then init_combine_cache cache poly dim else Ok cache) in
    let* crc1 := combine_loop 64 cache 0 crc1 len2 in
    Ok (Z.lxor crc1 crc2, cache).

(** * crcspeed.c *)

Definition CRC64_LEN_MASK : Z := 0x7ffffffffffffff8.
Definition CRC64_REVERSED_POLY : Z := 0x95ac9329ac4bc9b5.

(** [uint64_t table[8][256]], kept by columns: [tab table k n] is
    [table[k][n]]. *)
Definition crc_table := list (list Z).

Definition tab (table : crc_table) (k n : Z) : result Z :=
  let* col := rd1 table n in
  rd1 col k.

(** [crc = table[0][crc & 0xff] ^ (crc >> 8)] for k = 1 .. 7 *)
Fixpoint nested_loop (k : nat) (row0 : list Z) (crc : Z) : result (list Z) :=
  match k with
  | O => Ok []
  | S k =>
      let* t := rd1 row0 (Z.land crc 0xff) in
      let crc := Z.lxor t (Z.shiftr crc 8) in
      let* rest := nested_loop k row0 crc in
      Ok (crc :: rest)
  end.

(** Apply a fallible function to each element. *)
Fixpoint mapr {A B} (f : A -> result B) (l : list A) : result (list B) :=
  match l with
  | [] => Ok []
  | x :: l =>
      let* y := f x in
      let* ys := mapr f l in
      Ok (y :: ys)
  end.

Definition crcspeed64little_init (crcfn : Z -> list Z -> result Z) : result crc_table :=
  let* row0 := mapr (fun n => crcfn 0 [n]) (zseq 256) in
  mapr (fun n =>
    let* crc := rd1 row0 n in
    let* rest := nested_loop 7 row0 crc in
    Ok (crc :: rest)) (zseq 256).

Definition rev8 (a : Z) : Z :=
  let m := 0xff00ff00ff00ff in
  let a := Z.lor (Z.land (Z.shiftr a 8) m) (u64 (Z.shiftl (Z.land a m) 8)) in
  let m := 0xffff0000ffff in
  let a := Z.lor (Z.land (Z.shiftr a 16) m) (u64 (Z.shiftl (Z.land a m) 16)) in
  Z.lor (Z.shiftr a 32) (u64 (Z.shiftl a 32)).

Definition crcspeed64big_init (fn : Z -> list Z -> result Z) : result crc_table :=
  let* table := crcspeed64little_init fn in
  Ok (map (map rev8) table).

(** [crc1 = little_table[0][(crc1 ^ *next1++) & 0xff] ^ (crc1 >> 8)] *)
Definition little_byte (table : crc_table) (buf : list Z) (crc next : Z) : result Z :=
  let* b := rd1 buf next in
  let* t := tab table 0 (Z.land (Z.lxor crc b) 0xff) in
  Ok (Z.lxor t (Z.shiftr crc 8)).

(** Bytes one at a time while [len], and while not aligned when [addr] is
    given: the register, the position and the length left. *)
Fixpoint little_bytes (fuel : nat) (table : crc_table) (buf : list Z) (addr : option Z)
    (crc next len : Z) : result (Z * Z * Z) :=
  if negb (len =? 0) &&
     match addr with Some a => negb (Z.land (a + next) 7 =? 0) | None => true end
  then
    match fuel with
    | O => Err OutOfFuel
    | S fuel =>
        let* crc := little_byte table buf crc next in
        little_bytes fuel table buf addr crc (next + 1) (len - 1)
    end
  else Ok (crc, next, len).

(** DO_8_1: [crc ^= *(uint64_t * )next], on a little-endian host. *)
Definition DO_8_1 (buf : list Z) (crc next : Z) : result Z :=
  let* w := rdn buf next 8 in
  Ok (Z.lxor crc (le_val w)).

Definition DO_8_2 (table : crc_table) (crc : Z) : result Z :=
  let* t7 := tab table 7 (u8 crc) in
  let* t6 := tab table 6 (u8 (Z.shiftr crc 8)) in
  let* t5 := tab table 5 (u8 (Z.shiftr crc 16)) in
  let* t4 := tab table 4 (u8 (Z.shiftr crc 24)) in
  let* t3 := tab table 3 (u8 (Z.shiftr crc 32)) in
  let* t2 := tab table 2 (u8 (Z.shiftr crc 40)) in
  let* t1 := tab table 1 (u8 (Z.shiftr crc 48)) in
  let* t0 := tab table 0 (Z.shiftr crc 56) in
  Ok (Z.lxor (Z.lxor (Z.lxor (Z.lxor (Z.lxor (Z.lxor (Z.lxor t7 t6) t5) t4) t3) t2) t1) t0).

(** [while (len >= 8)] over several streams at once: each is a register and a
    position. *)
Fixpoint words_step (table : crc_table) (buf : list Z) (ss : list (Z * Z)) : result (list (Z * Z)) :=
  match ss with
  | [] => Ok []
  | (crc, next) :: ss =>
      let* crc := DO_8_1 buf crc next in
      let* crc := DO_8_2 table crc in
      let* ss := words_step table buf ss in
      Ok ((crc, next + 8) :: ss)
  end.

Fixpoint words_loop (fuel : nat) (table : crc_table) (buf : list Z) (ss : list (Z * Z)) (len : Z)
  : result (list (Z * Z) * Z) :=
  if len >=? 8 then
    match fuel with
    | O => Err OutOfFuel
    | S fuel =>
        let* ss := words_step table buf ss in
        words_loop fuel table buf ss (len - 8)
    end
  else Ok (ss, len).

(** Three streams: the register, the position and the length left after the
    merge, and the cache. *)
Definition tri_streams (table : crc_table) (buf : list Z) (cache : list (list Z)) (crc1 next1 len : Z)
  : result (Z * Z * Z * list (list Z)) :=
  let olen := len in
  let next2 := next1 + Z.land (len / 3) CRC64_LEN_MASK in
  let len := next2 - next1 in
  let next3 := next2 + len in
  let* (ss, _) := words_loop (length buf) table buf [(crc1, next1); (0, next2); (0, next3)] len in
  match ss with
  | [(crc1, next1); (crc2, next2); (crc3, next3)] =>
      let* (crc1, cache) := crc64_combine cache crc1 crc2 (next2 - next1) CRC64_REVERSED_POLY 64 in
      let* (crc1, cache) := crc64_combine cache crc1 crc3 (next2 - next1) CRC64_REVERSED_POLY 64 in
      Ok (crc1, next3, olen - (next2 - next1) * 3, cache)
  | _ => Err OutOfFuel
  end.

Definition dual_streams (table : crc_table) (buf : list Z) (cache : list (list Z)) (crc1 next1 len : Z)
  : result (Z * Z * Z * list (list Z)) :=
  let olen := len in
  let next2 := next1 + Z.land (len / 2) CRC64_LEN_MASK in
  let len := next2 - next1 in
  let* (ss, _) := words_loop (length buf) table buf [(crc1, next1); (0, next2)] len in
  match ss with
  | [(crc1, next1); (crc2, next2)] =>
      let* (crc1, cache) := crc64_combine cache crc1 crc2 (next2 - next1) CRC64_REVERSED_POLY 64 in
      Ok (crc1, next2, olen - (next2 - next1) * 2, cache)
  | _ => Err OutOfFuel
  end.

Section cutoffs.
(** The tuning variables and the address of the buffer. *)
Variables CRC64_TRI_CUTOFF CRC64_DUAL_CUTOFF : Z.
Variable addr : Z.

Definition crcspeed64little (table : crc_table) (cache : list (list Z)) (crc1 : Z) (buf : list Z)
  : result (Z * list (list Z)) :=
  let len := zlen buf in
  let* (crc1, next1, len, cache) :=
    (if CRC64_DUAL_CUTOFF <? 1 then Ok (crc1, 0, len, cache)
     else
       let* (crc1, next1, len) := little_bytes (length buf) table buf (Some addr) crc1 0 len in
       let* (crc1, next1, len, cache) :=
         (if len >? CRC64_TRI_CUTOFF then tri_streams table buf cache crc1 next1 len
          else if len >? CRC64_DUAL_CUTOFF then dual_streams table buf cache crc1 next1 len
          else Ok (crc1, next1, len, cache)) in
       let* (ss, len) := words_loop (length buf) table buf [(crc1, next1)] len in
       match ss with
       | [(crc1, next1)] => Ok (crc1, next1, len, cache)
       | _ => Err OutOfFuel
       end) in
  let* (crc1, _, _) := little_bytes (length buf) table buf None crc1 next1 len in
  Ok (crc1, cache).

(** [crc = big_table[0][(crc >> 56) ^ *next++] ^ (crc << 8)] *)
Definition big_byte (table : crc_table) (buf : list Z) (crc next : Z) : result Z :=
  let* b := rd1 buf next in
  let* t := tab table 0 (Z.lxor (Z.shiftr crc 56) b) in
  Ok (Z.lxor t (u64 (Z.shiftl crc 8))).

Fixpoint big_bytes (fuel : nat) (table : crc_table) (buf : list Z) (aligned : bool)
    (crc next len : Z) : result (Z * Z * Z) :=
  if negb (len =? 0) && (aligned || negb (Z.land (addr + next) 7 =? 0))
  then
    match fuel with
    | O => Err OutOfFuel
    | S fuel =>
        let* crc := big_byte table buf crc next in
        big_bytes fuel table buf aligned crc (next + 1) (len - 1)
    end
  else Ok (crc, next, len).

(** Eight bytes on a big-endian host. *)
Definition big_word (table : crc_table) (buf : list Z) (crc next : Z) : result Z :=
  let* w := rdn buf next 8 in
  let crc := Z.lxor crc (le_val (reverse w)) in
  let* t0 := tab table 0 (Z.land crc 0xff) in
  let* t1 := tab table 1 (Z.land (Z.shiftr crc 8) 0xff) in
  let* t2 := tab table 2 (Z.land (Z.shiftr crc 16) 0xff) in
  let* t3 := tab table 3 (Z.land (Z.shiftr crc 24) 0xff) in
  let* t4 := tab table 4 (Z.land (Z.shiftr crc 32) 0xff) in
  let* t5 := tab table 5 (Z.land (Z.shiftr crc 40) 0xff) in
  let* t6 := tab table 6 (Z.land (Z.shiftr crc 48) 0xff) in
  let* t7 := tab table 7 (Z.shiftr crc 56) in
  Ok (Z.lxor (Z.lxor (Z.lxor (Z.lxor (Z.lxor (Z.lxor (Z.lxor t0 t1) t2) t3) t4) t5) t6) t7).

Fixpoint big_words (fuel : nat) (table : crc_table) (buf : list Z) (crc next len : Z)
  : result (Z * Z * Z) :=
  if len >=? 8 then
    match fuel with
    | O => Err OutOfFuel
    | S fuel =>
        let* crc := big_word table buf crc next in
        big_words fuel table buf crc (next + 8) (len - 8)
    end
  else Ok (crc, next, len).

Definition crcspeed64big (table : crc_table) (crc : Z) (buf : list Z) : result Z :=
  let crc := rev8 crc in
  let* (crc, next, len) := big_bytes (length buf) table buf false crc 0 (zlen buf) in
  let* (crc, next, len) := big_words (length buf) table buf crc next len in
  let* (crc, _, _) := big_bytes (length buf) table buf true crc next len in
  Ok (rev8 crc).

Context {host : HostEndian}.

Definition crcspeed64native (table : crc_table) (cache : list (list Z)) (crc : Z) (buf : list Z)
  : result (Z * list (list Z)) :=
  if host_is_be then
    let* crc := crcspeed64big table crc buf in
    Ok (crc, cache)
  else crcspeed64little table cache crc buf.

Definition crcspeed64native_init (fn : Z -> list Z -> result Z) : result crc_table :=
  if host_is_be then crcspeed64big_init fn else crcspeed64little_init fn.

Definition crc64_init : result crc_table := crcspeed64native_init _crc64.

(** [table] is the static array [crc64_init] fills. *)
Definition crc64 (table : crc_table) (cache : list (list Z)) (crc : Z) (s : list Z)
  : result (Z * list (list Z)) :=
  crcspeed64native table cache crc s.
End cutoffs.
