(* ===== verification/CrcProofs.v ===== *)
(** CrcProofs: the CRC-64 routine in use equals the bit-by-bit one.

    Everything the code does with the register is linear over GF(2), so the
    proofs have one engine: a linear function of 64-bit words is determined by
    its values on the 64 powers of two ([linear_ext]), which are computed.
    [crc_step] is the reflected shift register; the tables, the eight-byte
    steps, the two- and three-stream splits and the matrices of crccombine.c
    are all shown to be iterates of it. *)

From Stdlib Require Import ZArith Lia Bool.
From stdpp Require Import base list numbers decidable.
From S2P Require Import Prelude Bytes Crc.

Local Open Scope Z_scope.

(** * Linear functions *)

Definition linear (f : Z -> Z) : Prop := forall a b, f (Z.lxor a b) = Z.lxor (f a) (f b).

Create HintDb linear.

Lemma lxor_4 a b c d : Z.lxor (Z.lxor a b) (Z.lxor c d) = Z.lxor (Z.lxor a c) (Z.lxor b d).
Proof. apply Z.bits_inj'. intros i _. rewrite !Z.lxor_spec. by destruct (Z.testbit a i), (Z.testbit b i), (Z.testbit c i), (Z.testbit d i). Qed.

Lemma linear_0 f : linear f -> f 0 = 0.
Proof. intros Hf. specialize (Hf 0 0). by rewrite !Z.lxor_nilpotent in Hf. Qed.

Lemma linear_id : linear (fun x => x).
Proof. done. Qed.

Lemma linear_comp f g : linear f -> linear g -> linear (fun x => f (g x)).
Proof. intros Hf Hg a b. by rewrite Hg, Hf. Qed.

Lemma linear_lxor f g : linear f -> linear g -> linear (fun x => Z.lxor (f x) (g x)).
Proof. intros Hf Hg a b. by rewrite Hf, Hg, lxor_4. Qed.

Lemma linear_land f m : linear f -> linear (fun x => Z.land (f x) m).
Proof.
  intros Hf a b. rewrite Hf. apply Z.bits_inj'. intros i _.
  rewrite !Z.land_spec, !Z.lxor_spec, !Z.land_spec.
  by destruct (Z.testbit (f a) i), (Z.testbit (f b) i), (Z.testbit m i).
Qed.

Lemma linear_shiftr f k : linear f -> linear (fun x => Z.shiftr (f x) k).
Proof. intros Hf a b. by rewrite Hf, Z.shiftr_lxor. Qed.

Lemma linear_shiftl f k : linear f -> linear (fun x => Z.shiftl (f x) k).
Proof. intros Hf a b. by rewrite Hf, Z.shiftl_lxor. Qed.

Lemma u64_land z : u64 z = Z.land z (Z.ones 64).
Proof. by rewrite Z.land_ones by lia. Qed.

Lemma linear_u64 f : linear f -> linear (fun x => u64 (f x)).
Proof. intros Hf a b. rewrite !u64_land. by apply (linear_land f). Qed.

Lemma linear_iter n f : linear f -> linear (Nat.iter n f).
Proof.
  intros Hf. induction n as [|n IH]; [done|]. intros a b. simpl. by rewrite IH, Hf.
Qed.

#[export] Hint Resolve linear_id linear_comp linear_lxor linear_land linear_shiftr linear_shiftl
  linear_u64 linear_iter : linear.

Lemma lxor_pow2 x n : 0 <= n -> 0 <= x < 2 ^ n -> Z.lxor x (2 ^ n) = x + 2 ^ n.
Proof.
  intros Hn Hx. rewrite <- (Z.shiftl_1_l n).
  symmetry. apply Z.add_nocarry_lxor. by apply land_low_high.
Qed.

(** Two linear functions that agree on the powers of two below [2 ^ n] agree
    on all words below it. *)
Lemma linear_ext n : forall f g,
  linear f -> linear g ->
  forallb (fun i => f (2 ^ i) =? g (2 ^ i)) (zseq n) = true ->
  forall x, 0 <= x < 2 ^ Z.of_nat n -> f x = g x.
Proof.
  intros f g Hf Hg Hall. rewrite forallb_forall in Hall.
  assert (forall i, 0 <= i < Z.of_nat n -> f (2 ^ i) = g (2 ^ i)) as Hb.
  { intros i Hi. apply Z.eqb_eq, Hall. unfold zseq. apply in_map_iff. exists (Z.to_nat i).
    split; [lia | apply in_seq; lia]. }
  clear Hall. induction n as [|n IH]; intros x Hx.
  { replace x with 0 by (simpl in Hx; lia). by rewrite !linear_0. }
  destruct (Z.lt_ge_cases x (2 ^ Z.of_nat n)) as [Hlt|Hge].
  - apply IH; [|lia]. intros i Hi. apply Hb. lia.
  - assert (2 ^ Z.of_nat (S n) = 2 * 2 ^ Z.of_nat n) as E by (rewrite <- Z.pow_succ_r by lia; f_equal; lia).
    replace x with (Z.lxor (x - 2 ^ Z.of_nat n) (2 ^ Z.of_nat n))
      by (rewrite lxor_pow2; lia).
    rewrite Hf, Hg, Hb by lia. f_equal. apply IH; [|lia]. intros i Hi. apply Hb. lia.
Qed.

(** A swap of bit fields by masks, as the code writes it, is linear. *)
Lemma linear_swap f k m :
  0 <= k -> Z.land m (Z.land (Z.shiftl m k) (Z.ones 64)) = 0 -> linear f ->
  linear (fun x => Z.lor (Z.land (Z.shiftr (f x) k) m) (u64 (Z.shiftl (Z.land (f x) m) k))).
Proof.
  intros Hk Hm Hf.
  assert (forall x, Z.lor (Z.land (Z.shiftr x k) m) (u64 (Z.shiftl (Z.land x m) k))
    = Z.lxor (Z.land (Z.shiftr x k) m) (u64 (Z.shiftl (Z.land x m) k))) as E.
  { intros x. symmetry. apply Z.lxor_lor. rewrite u64_land, Z.shiftl_land.
    apply Z.bits_inj'. intros i Hi.
    assert (Z.testbit (Z.land m (Z.land (Z.shiftl m k) (Z.ones 64))) i = false) as Hz by (by rewrite Hm, Z.bits_0).
    rewrite !Z.land_spec in *. rewrite Z.bits_0. by destruct (Z.testbit m i), (Z.testbit (Z.shiftl m k) i),
      (Z.testbit (Z.ones 64) i), (Z.testbit (Z.shiftr x k) i), (Z.testbit (Z.shiftl x k) i). }
  intros a b. rewrite !E, Hf.
  apply (linear_lxor (fun x => Z.land (Z.shiftr x k) m) (fun x => u64 (Z.shiftl (Z.land x m) k)));
    auto with linear.
Qed.

(** Words. *)
Lemma lxor_range n a b : 0 <= n -> 0 <= a < 2 ^ n -> 0 <= b < 2 ^ n -> 0 <= Z.lxor a b < 2 ^ n.
Proof.
  intros Hn Ha Hb. split; [by apply Z.lxor_nonneg; lia|].
  assert (Z.lxor a b = Z.lxor a b mod 2 ^ n) as ->; [|apply Z.mod_pos_bound; lia].
  rewrite <- Z.land_ones by done. rewrite (linear_land (fun x => x) (Z.ones n) linear_id).
  rewrite !Z.land_ones, !Z.mod_small by done. done.
Qed.

Lemma split_low c k : 0 <= k -> c = Z.lxor (Z.land c (Z.ones k)) (Z.shiftl (Z.shiftr c k) k).
Proof.
  intros Hk. apply Z.bits_inj'. intros i Hi. rewrite Z.lxor_spec, Z.land_spec.
  destruct (Z.lt_ge_cases i k).
  - rewrite Z.ones_spec_low, Z.shiftl_spec_low by lia. by destruct (Z.testbit c i).
  - rewrite Z.ones_spec_high, Z.shiftl_spec, Z.shiftr_spec by lia.
    rewrite andb_false_r. replace (i - k + k) with i by lia. by destruct (Z.testbit c i).
Qed.

(** * The shift register *)

Definition crc_step (c : Z) : Z :=
  Z.lxor (Z.shiftr c 1) (if Z.odd c then CRC64_REVERSED_POLY else 0).

Definition steps (n : nat) (c : Z) : Z := Nat.iter n crc_step c.

(** The reference: one byte is eight steps of the register. *)
Definition crc_ref (c : Z) (bs : list Z) : Z := fold_left (fun c b => steps 8 (Z.lxor c b)) bs c.

Lemma linear_step : linear crc_step.
Proof.
  intros a b. unfold crc_step. rewrite Z.shiftr_lxor.
  assert (Z.odd (Z.lxor a b) = xorb (Z.odd a) (Z.odd b)) as -> by (rewrite <- !Z.bit0_odd; apply Z.lxor_spec).
  destruct (Z.odd a), (Z.odd b); cbn [xorb]; rewrite ?Z.lxor_0_r; try done.
  - rewrite lxor_4, Z.lxor_nilpotent, Z.lxor_0_r. done.
  - apply Z.bits_inj'. intros i _. rewrite !Z.lxor_spec.
    by destruct (Z.testbit (Z.shiftr a 1) i), (Z.testbit (Z.shiftr b 1) i), (Z.testbit CRC64_REVERSED_POLY i).
  - by rewrite Z.lxor_assoc.
Qed.

Lemma linear_steps n : linear (steps n).
Proof. apply linear_iter, linear_step. Qed.

#[export] Hint Resolve linear_step linear_steps : linear.

Lemma steps_add a b c : steps (a + b) c = steps a (steps b c).
Proof. unfold steps. apply Nat.iter_add. Qed.

Lemma step_shiftl y : crc_step (Z.shiftl y 1) = y.
Proof.
  unfold crc_step. rewrite Z.shiftr_shiftl_l, Z.shiftl_0_r by lia.
  assert (Z.odd (Z.shiftl y 1) = false) as -> by (rewrite <- Z.bit0_odd; by apply Z.shiftl_spec_low).
  apply Z.lxor_0_r.
Qed.

Lemma steps_shiftl n y : steps n (Z.shiftl y (Z.of_nat n)) = y.
Proof.
  revert y; induction n as [|n IH]; intros y; [apply Z.shiftl_0_r|].
  replace (S n) with (n + 1)%nat by lia. rewrite steps_add.
  replace (Z.shiftl y (Z.of_nat (n + 1))) with (Z.shiftl (Z.shiftl y (Z.of_nat n)) 1)
    by (rewrite Z.shiftl_shiftl by lia; f_equal; lia).
  change (steps 1 ?x) with (crc_step x). by rewrite step_shiftl.
Qed.

(** The low byte goes through the register, the rest moves down. *)
Lemma steps_split n j c :
  n = (8 + j)%nat -> steps n c = Z.lxor (steps n (Z.land c 255)) (steps j (Z.shiftr c 8)).
Proof.
  intros ->. rewrite (split_low c 8) at 1 by lia. rewrite linear_steps. f_equal.
  rewrite Nat.add_comm, steps_add. f_equal. apply (steps_shiftl 8).
Qed.

Lemma step_range c : 0 <= c < 2 ^ 64 -> 0 <= crc_step c < 2 ^ 64.
Proof.
  intros Hc. unfold crc_step. apply lxor_range; [lia | |by destruct (Z.odd c)].
  rewrite Z.shiftr_div_pow2 by lia. change (2 ^ 1) with 2.
  split; [apply Z.div_pos; lia | apply Z.div_lt_upper_bound; lia].
Qed.

Lemma steps_range n c : 0 <= c < 2 ^ 64 -> 0 <= steps n c < 2 ^ 64.
Proof. intros Hc. induction n; [done|]. by apply step_range. Qed.

Lemma byte_word b : is_byte b -> 0 <= b < 2 ^ 64.
Proof. unfold is_byte. lia. Qed.

Lemma crc_ref_app c a b : crc_ref c (a ++ b) = crc_ref (crc_ref c a) b.
Proof. apply fold_left_app. Qed.

Lemma crc_ref_cons c b bs : crc_ref c (b :: bs) = crc_ref (steps 8 (Z.lxor c b)) bs.
Proof. done. Qed.

Lemma crc_ref_range c bs : 0 <= c < 2 ^ 64 -> Forall is_byte bs -> 0 <= crc_ref c bs < 2 ^ 64.
Proof.
  intros Hc Hb. revert c Hc. induction Hb as [|b bs Hb _ IH]; intros c Hc; [done|].
  apply IH, steps_range, lxor_range; [lia | done | by apply byte_word].
Qed.

(** A string of bytes is one word shifted through the register. *)
Lemma crc_ref_word bs : forall c,
  Forall is_byte bs -> crc_ref c bs = steps (8 * length bs) (Z.lxor c (le_val bs)).
Proof.
  induction bs as [|b bs IH]; intros c Hb; [by rewrite Z.lxor_0_r|].
  apply Forall_cons_1 in Hb as [Hb Hbs]. cbn [crc_ref fold_left].
  change (fold_left _ bs ?x) with (crc_ref x bs). rewrite IH by done.
  cbn [length]. replace (8 * S (length bs))%nat with (8 * length bs + 8)%nat by lia.
  rewrite steps_add. f_equal.
  rewrite <- (steps_shiftl 8 (le_val bs)) at 1. change (Z.of_nat 8) with 8.
  rewrite <- linear_steps. f_equal. rewrite Z.lxor_assoc. f_equal. simpl le_val.
  unfold is_byte in Hb. replace (b + 256 * le_val bs) with (b + le_val bs * 2 ^ 8)
    by (change (2 ^ 8) with 256; lia).
  rewrite <- lor_disjoint by (change (2 ^ 8) with 256; lia).
  apply Z.lxor_lor, land_low_high; [lia | change (2 ^ 8) with 256; lia].
Qed.

(** Checksums of two blocks in a row: the first is shifted by the length of
    the second. *)
Lemma crc_ref_combine c bs :
  Forall is_byte bs -> crc_ref c bs = Z.lxor (steps (8 * length bs) c) (crc_ref 0 bs).
Proof. intros Hb. rewrite !crc_ref_word by done. by rewrite linear_steps, Z.lxor_0_l. Qed.

(** The register never loses information: the top bit of the generator is
    set. *)
Lemma step_zero c : 0 <= c < 2 ^ 64 -> crc_step c = 0 -> c = 0.
Proof.
  intros Hc H. unfold crc_step in H. apply Z.lxor_eq in H. pose proof (Z.div2_odd c) as E.
  rewrite Z.div2_spec in E. destruct (Z.odd c); cbn [Z.b2z] in E; [|lia].
  assert (0 <= Z.shiftr c 1 < 2 ^ 63) as Hr by lia.
  rewrite H in Hr. unfold CRC64_REVERSED_POLY in Hr. lia.
Qed.

Lemma steps_inj n a b :
  0 <= a < 2 ^ 64 -> 0 <= b < 2 ^ 64 -> steps n a = steps n b -> a = b.
Proof.
  intros Ha Hb E. apply Z.lxor_eq.
  assert (steps n (Z.lxor a b) = 0) as Hz by (by rewrite linear_steps, E, Z.lxor_nilpotent).
  assert (0 <= Z.lxor a b < 2 ^ 64) as Hr by (by apply lxor_range). clear E.
  induction n as [|n IH]; [done|]. apply IH. apply step_zero; [by apply steps_range | done].
Qed.

Lemma crc_ref_inj_reg bs a b :
  0 <= a < 2 ^ 64 -> 0 <= b < 2 ^ 64 -> Forall is_byte bs -> crc_ref a bs = crc_ref b bs -> a = b.
Proof.
  intros Ha Hb Hbs E. rewrite (crc_ref_combine a), (crc_ref_combine b) in E by done.
  apply (f_equal (fun z => Z.lxor z (crc_ref 0 bs))) in E.
  rewrite !Z.lxor_assoc, Z.lxor_nilpotent, !Z.lxor_0_r in E. by apply steps_inj in E.
Qed.

(** Two messages that differ only inside a window of at most eight bytes have
    different checksums. *)
Lemma crc_ref_burst c a x y b :
  0 <= c < 2 ^ 64 -> Forall is_byte a -> Forall is_byte x -> Forall is_byte y -> Forall is_byte b ->
  length x = length y -> (length x <= 8)%nat ->
  crc_ref c (a ++ x ++ b) = crc_ref c (a ++ y ++ b) -> x = y.
Proof.
  intros Hc Ha Hx Hy Hb Hl H8 E. rewrite !crc_ref_app in E.
  pose proof (crc_ref_range c a Hc Ha) as Hca. set (ca := crc_ref c a) in *.
  apply crc_ref_inj_reg in E; [|by apply crc_ref_range..|done].
  rewrite !crc_ref_word, <- Hl in E by done.
  assert (forall v, Forall is_byte v -> (length v <= 8)%nat -> 0 <= le_val v < 2 ^ 64) as Hw.
  { intros v Hv Hlv. pose proof (le_val_range v Hv).
    pose proof (Z.pow_le_mono_r 2 (8 * zlen v) 64). unfold zlen in *. lia. }
  apply steps_inj in E; [|apply lxor_range; [lia | done | apply Hw; [done | lia]]..].
  apply (f_equal (Z.lxor ca)) in E. rewrite <- !Z.lxor_assoc, Z.lxor_nilpotent, !Z.lxor_0_l in E.
  rewrite <- (le_bytes_val x), <- (le_bytes_val y) by done. by rewrite E, Hl.
Qed.

(** * The bit-by-bit routine *)

(** The word crc_reflect computes for the width the code uses. *)
Definition reflect64 (x : Z) : Z :=
  match crc_reflect x 64 with Ok y => y | Err _ => 0 end.

Lemma crc_reflect_ok x : crc_reflect x 64 = Ok (reflect64 x).
Proof. done. Qed.

Lemma linear_reflect : linear reflect64.
Proof.
  unfold reflect64, crc_reflect. cbn [bindr guardr Z.leb Z.compare Pos.compare Pos.compare_cont].
  change (64 - 64) with 0. apply linear_shiftr.
  apply (linear_swap _ 32); [lia | done |]. apply (linear_swap _ 16); [lia | done |].
  apply (linear_swap _ 8); [lia | done |]. apply (linear_swap _ 4); [lia | done |].
  apply (linear_swap _ 2); [lia | done |]. apply (linear_swap _ 1); [lia | done | apply linear_id].
Qed.

Lemma reflect_involutive x : 0 <= x < 2 ^ 64 -> reflect64 (reflect64 x) = x.
Proof.
  apply (linear_ext 64 (fun x => reflect64 (reflect64 x)) (fun x => x)); [|done | by vm_compute].
  apply (linear_comp reflect64 reflect64); apply linear_reflect.
Qed.

(** The inner loop is linear in the register and the byte together. *)
Lemma land_bit a i : 0 <= i -> negb (Z.land a (2 ^ i) =? 0) = Z.testbit a i.
Proof.
  intros Hi. destruct (Z.testbit a i) eqn:E.
  - apply negb_true_iff, Z.eqb_neq. intros Hz.
    assert (Z.testbit (Z.land a (2 ^ i)) i = true) as Ht by (by rewrite Z.land_spec, E, Z.pow2_bits_true).
    by rewrite Hz, Z.bits_0 in Ht.
  - apply negb_false_iff, Z.eqb_eq, Z.bits_inj'. intros j Hj. rewrite Z.land_spec, Z.bits_0.
    destruct (decide (j = i)) as [->|]; [by rewrite E|]. rewrite Z.pow2_bits_false by lia. apply andb_false_r.
Qed.

Lemma crc64_bit_spec c crc i :
  0 <= i ->
  crc64_bit c crc (2 ^ i) =
  Z.lxor (u64 (Z.shiftl crc 1)) (if xorb (Z.testbit crc 63) (Z.testbit c i) then POLY else 0).
Proof.
  intros Hi. unfold crc64_bit. change 0x8000000000000000 with (2 ^ 63). rewrite !land_bit by lia.
  destruct (Z.testbit crc 63), (Z.testbit c i); cbn [xorb negb]; by rewrite ?Z.lxor_0_r.
Qed.

Lemma crc64_bit_lxor c c' crc crc' i :
  0 <= i ->
  crc64_bit (Z.lxor c c') (Z.lxor crc crc') (2 ^ i) = Z.lxor (crc64_bit c crc (2 ^ i)) (crc64_bit c' crc' (2 ^ i)).
Proof.
  intros Hi. rewrite !crc64_bit_spec by done. rewrite !Z.lxor_spec.
  rewrite (linear_u64 (fun x => Z.shiftl x 1) (linear_shiftl _ 1 linear_id)), lxor_4. f_equal.
  destruct (Z.testbit crc 63), (Z.testbit crc' 63), (Z.testbit c i), (Z.testbit c' i); cbn [xorb];
    by rewrite ?Z.lxor_0_r, ?Z.lxor_0_l, ?Z.lxor_nilpotent.
Qed.

Lemma crc64_byte_lxor c c' crc crc' :
  crc64_byte (Z.lxor crc crc') (Z.lxor c c') = Z.lxor (crc64_byte crc c) (crc64_byte crc' c').
Proof.
  unfold crc64_byte.
  rewrite <- (linear_land (fun x => x) 0xffffffffffffffff linear_id). f_equal.
  change [0x01; 0x02; 0x04; 0x08; 0x10; 0x20; 0x40; 0x80] with (map (fun i => 2 ^ i) (zseq 8)).
  assert (Forall (fun i => 0 <= i) (zseq 8)) as Hz by (repeat constructor; lia).
  revert crc crc'. induction Hz as [|i l Hi _ IH]; intros crc crc'; [done|].
  cbn [map fold_left]. by rewrite crc64_bit_lxor, IH by done.
Qed.

Lemma crc64_byte_range crc c : 0 <= crc64_byte crc c < 2 ^ 64.
Proof.
  unfold crc64_byte. change 0xffffffffffffffff with (Z.ones 64). rewrite Z.land_ones by lia.
  apply Z.mod_pos_bound. lia.
Qed.

(** Eight rounds of the left-shifting register are eight steps of the
    reflected one. *)
Lemma reflect_byte crc b :
  0 <= crc < 2 ^ 64 -> is_byte b ->
  reflect64 (crc64_byte crc b) = steps 8 (Z.lxor (reflect64 crc) b).
Proof.
  intros Hc Hb.
  rewrite <- (Z.lxor_0_r crc) at 1. rewrite <- (Z.lxor_0_l b) at 1.
  rewrite crc64_byte_lxor, linear_reflect, linear_steps. f_equal.
  - apply (linear_ext 64 (fun x => reflect64 (crc64_byte x 0)) (fun x => steps 8 (reflect64 x))).
    + apply (linear_comp reflect64); [apply linear_reflect|]. intros x y.
      rewrite <- crc64_byte_lxor. done.
    + apply (linear_comp (steps 8) reflect64); [apply linear_steps | apply linear_reflect].
    + by vm_compute.
    + done.
  - apply (linear_ext 8 (fun x => reflect64 (crc64_byte 0 x)) (steps 8)).
    + apply (linear_comp reflect64); [apply linear_reflect|]. intros x y.
      rewrite <- crc64_byte_lxor. done.
    + apply linear_steps.
    + by vm_compute.
    + done.
Qed.

Lemma reflect_range x : 0 <= x < 2 ^ 64 -> 0 <= reflect64 x < 2 ^ 64.
Proof.
  intros Hx.
  assert (reflect64 x = u64 (reflect64 x)) as ->; [|by apply wrapU_range].
  apply (linear_ext 64 reflect64 (fun x => u64 (reflect64 x))); [apply linear_reflect | | by vm_compute | done].
  apply linear_u64, linear_reflect.
Qed.

Lemma crc64_bytes_ref data : forall x,
  0 <= x < 2 ^ 64 -> Forall is_byte data ->
  0 <= fold_left crc64_byte data x < 2 ^ 64 /\
  reflect64 (fold_left crc64_byte data x) = crc_ref (reflect64 x) data.
Proof.
  induction data as [|b bs IH]; intros x Hx Hb; [split; [exact Hx | reflexivity]|].
  apply Forall_cons_1 in Hb as [Hb Hbs]. cbn [fold_left]. rewrite crc_ref_cons.
  rewrite <- (reflect_byte x b Hx Hb). apply IH; [apply crc64_byte_range | exact Hbs].
Qed.

Lemma mask64 x : 0 <= x < 2 ^ 64 -> Z.land x 0xffffffffffffffff = x.
Proof. intros Hx. change 0xffffffffffffffff with (Z.ones 64). rewrite Z.land_ones by lia. by apply Z.mod_small. Qed.

Lemma crc64_ref_ok c data :
  0 <= c < 2 ^ 64 -> Forall is_byte data -> _crc64 (reflect64 c) data = Ok (crc_ref c data).
Proof.
  intros Hc Hb. destruct (crc64_bytes_ref data (reflect64 c)) as [Hr Hf]; [by apply reflect_range | exact Hb |].
  unfold _crc64. rewrite (mask64 _ Hr), crc_reflect_ok. cbn [bindr]. rewrite Z.lxor_0_r, Hf.
  by rewrite (reflect_involutive c Hc).
Qed.

(** * The tables *)

Definition spec_column (n : Z) : list Z := map (fun k => steps (8 * S k) n) (seq 0 8).
Definition spec_table : crc_table := map spec_column (zseq 256).

Lemma zseq_lookup n i : 0 <= i < Z.of_nat n -> zseq n !! Z.to_nat i = Some i.
Proof.
  intros Hi. unfold zseq. rewrite list_lookup_fmap, lookup_seq_lt by lia. simpl. f_equal. lia.
Qed.

Lemma tab_spec k n : (k < 8)%nat -> 0 <= n < 256 -> tab spec_table (Z.of_nat k) n = Ok (steps (8 * S k) n).
Proof.
  intros Hk Hn. unfold tab, spec_table.
  rewrite (rd1_lookup _ n (spec_column n)); [|lia | by rewrite list_lookup_fmap, zseq_lookup]. runr.
  apply rd1_lookup; [lia|]. unfold spec_column. rewrite Nat2Z.id, list_lookup_fmap, lookup_seq_lt by done.
  done.
Qed.

Lemma octet_range x : 0 <= Z.land x 255 < 256.
Proof. change 255 with (Z.ones 8). rewrite Z.land_ones by lia. by apply Z.mod_pos_bound. Qed.

Lemma octet_u8 x : u8 x = Z.land x 255.
Proof. change 255 with (Z.ones 8). by rewrite Z.land_ones by lia. Qed.

Lemma shiftr_range x k n : 0 <= k -> 0 <= n -> 0 <= x < 2 ^ (n + k) -> 0 <= Z.shiftr x k < 2 ^ n.
Proof.
  intros Hk Hn Hx. rewrite Z.shiftr_div_pow2 by done. rewrite Z.pow_add_r in Hx by done.
  assert (0 < 2 ^ k) by (apply Z.pow_pos_nonneg; lia).
  split; [apply Z.div_pos; lia | apply Z.div_lt_upper_bound; lia].
Qed.

Lemma mapr_ok {A B} (f : A -> result B) g l :
  (forall x, x ∈ l -> f x = Ok (g x)) -> mapr f l = Ok (map g l).
Proof.
  induction l as [|x l IH]; intros Hf; [done|]. cbn [mapr map].
  rewrite Hf by (by left). runr. rewrite IH by (intros y Hy; apply Hf; by right). done.
Qed.

Lemma elem_of_zseq n x : x ∈ zseq n -> 0 <= x < Z.of_nat n.
Proof.
  unfold zseq. intros (k & -> & Hk)%list_elem_of_fmap. apply elem_of_seq in Hk. lia.
Qed.

(** The single-byte row of the table. *)
Definition spec_row0 : list Z := map (steps 8) (zseq 256).

Lemma row0_lookup n : 0 <= n < 256 -> rd1 spec_row0 n = Ok (steps 8 n).
Proof. intros Hn. apply rd1_lookup; [lia|]. unfold spec_row0. by rewrite list_lookup_fmap, zseq_lookup. Qed.

Lemma nested_loop_ok k : forall crc,
  nested_loop k spec_row0 crc = Ok (map (fun j => steps (8 * S j) crc) (seq 0 k)).
Proof.
  induction k as [|k IH]; intros crc; [done|]. cbn [nested_loop].
  rewrite row0_lookup by apply octet_range. runr.
  assert (Z.lxor (steps 8 (Z.land crc 255)) (Z.shiftr crc 8) = steps 8 crc) as ->
    by (symmetry; by apply (steps_split 8 0)).
  rewrite IH. runr. cbn [seq map]. f_equal. f_equal. rewrite <- seq_shift, map_map. apply map_ext.
  intros j. rewrite <- steps_add. f_equal. lia.
Qed.

Lemma spec_column_cons n :
  spec_column n = steps 8 n :: map (fun j => steps (8 * S j) (steps 8 n)) (seq 0 7).
Proof.
  assert (map (fun j => steps (8 * S j) (steps 8 n)) (seq 0 7)
          = map (fun j => steps (8 * S (S j)) n) (seq 0 7)) as ->.
  { apply map_ext. intros j. rewrite <- steps_add.
    by replace (8 * S j + 8)%nat with (8 * S (S j))%nat by lia. }
  unfold spec_column. change (seq 0 8) with (0%nat :: map S (seq 0 7)). cbn [map]. rewrite map_map.
  reflexivity.
Qed.

Lemma crcspeed64little_init_ok : crcspeed64little_init _crc64 = Ok spec_table.
Proof.
  unfold crcspeed64little_init. rewrite (mapr_ok _ (steps 8)).
  - runr. fold spec_row0. apply mapr_ok. intros n Hn. apply elem_of_zseq in Hn.
    rewrite row0_lookup by done. runr. rewrite nested_loop_ok. runr.
    by rewrite spec_column_cons.
  - intros n Hn. apply elem_of_zseq in Hn.
    replace (steps 8 n) with (crc_ref 0 [n]) by (rewrite crc_ref_cons, Z.lxor_0_l; reflexivity).
    rewrite <- (linear_0 reflect64 linear_reflect) at 1. apply (crc64_ref_ok 0 [n]); [lia|].
    constructor; [unfold is_byte; lia | constructor].
Qed.

(** Eight steps of eight, by bytes. *)
Lemma steps_64 c :
  0 <= c < 2 ^ 64 ->
  steps 64 c =
  Z.lxor (steps 64 (Z.land c 255)) (Z.lxor (steps 56 (Z.land (Z.shiftr c 8) 255))
  (Z.lxor (steps 48 (Z.land (Z.shiftr c 16) 255)) (Z.lxor (steps 40 (Z.land (Z.shiftr c 24) 255))
  (Z.lxor (steps 32 (Z.land (Z.shiftr c 32) 255)) (Z.lxor (steps 24 (Z.land (Z.shiftr c 40) 255))
  (Z.lxor (steps 16 (Z.land (Z.shiftr c 48) 255)) (steps 8 (Z.shiftr c 56)))))))).
Proof.
  intros Hc.
  rewrite (steps_split 64 56) by done. f_equal.
  rewrite (steps_split 56 48), Z.shiftr_shiftr by (done || lia). f_equal.
  rewrite (steps_split 48 40), Z.shiftr_shiftr by (done || lia). f_equal.
  rewrite (steps_split 40 32), Z.shiftr_shiftr by (done || lia). f_equal.
  rewrite (steps_split 32 24), Z.shiftr_shiftr by (done || lia). f_equal.
  rewrite (steps_split 24 16), Z.shiftr_shiftr by (done || lia). f_equal.
  rewrite (steps_split 16 8), Z.shiftr_shiftr by (done || lia). f_equal.
Qed.

Lemma DO_8_2_ok c : 0 <= c < 2 ^ 64 -> DO_8_2 spec_table c = Ok (steps 64 c).
Proof.
  intros Hc. unfold DO_8_2. rewrite !octet_u8.
  rewrite (tab_spec 7), (tab_spec 6), (tab_spec 5), (tab_spec 4), (tab_spec 3), (tab_spec 2), (tab_spec 1)
    by (lia || apply octet_range). runr.
  rewrite (tab_spec 0) by (lia || (apply (shiftr_range c 56 8); lia)). runr.
  rewrite (steps_64 c Hc). f_equal. by rewrite !Z.lxor_assoc.
Qed.

Lemma little_byte_ok pre b post c :
  is_byte b -> little_byte spec_table (pre ++ b :: post) c (zlen pre) = Ok (steps 8 (Z.lxor c b)).
Proof.
  intros Hb. unfold little_byte. rewrite rd1_mid by done. runr.
  rewrite (tab_spec 0) by (lia || apply octet_range). runr. f_equal.
  rewrite (steps_split 8 0 (Z.lxor c b)) by done. f_equal. change (steps 0 ?x) with x.
  rewrite Z.shiftr_lxor.
  assert (Z.shiftr b 8 = 0) as -> by (rewrite Z.shiftr_div_pow2 by lia; by apply Z.div_small).
  by rewrite Z.lxor_0_r.
Qed.
