(* ===== verification/CrcSpeed.v ===== *)
(** CrcSpeed: the loops of crcspeed.c and the matrices of crccombine.c, for
    every alignment, cutoff, length and byte order, against [crc_ref]. *)

From Stdlib Require Import ZArith Lia Bool.
From stdpp Require Import base list numbers decidable.
From S2P Require Import Prelude Bytes Crc CrcProofs.

Local Open Scope Z_scope.

(** * Byte loops *)

Lemma little_bytes_ok fuel : forall pre rest addr c,
  Forall is_byte rest -> (length rest <= fuel)%nat ->
  exists done rest', rest = done ++ rest' /\
    little_bytes fuel spec_table (pre ++ rest) addr c (zlen pre) (zlen rest)
    = Ok (crc_ref c done, zlen (pre ++ done), zlen rest') /\
    (addr = None -> rest' = []).
Proof.
  induction fuel as [|fuel IH]; intros pre rest addr c Hb Hf.
  - destruct rest; [|simpl in Hf; lia]. exists [], []. split; [done|]. by rewrite !app_nil_r.
  - destruct rest as [|b rest]; [exists [], []; split; [done|]; by rewrite !app_nil_r|].
    apply Forall_cons_1 in Hb as [Hb Hrest]. cbn [little_bytes].
    rewrite (proj2 (Z.eqb_neq (zlen (b :: rest)) 0))
      by (rewrite zlen_cons; pose proof (zlen_nonneg rest); lia). cbn [negb andb].
    destruct (match addr with Some a => _ | None => true end) eqn:Ea.
    + rewrite little_byte_ok by done. cbn [bindr].
      destruct (IH (pre ++ [b]) rest addr (steps 8 (Z.lxor c b)) Hrest) as (dn & rest' & E1 & E2 & E3);
        [simpl in Hf; lia|].
      exists (b :: dn), rest'. split; [by rewrite E1|]. split; [|done].
      rewrite <- app_assoc, zlen_app in E2. cbn [app] in E2.
      replace (zlen (b :: rest) - 1) with (zlen rest) by (rewrite zlen_cons; lia).
      change (zlen [b]) with 1 in E2. rewrite E2, crc_ref_cons. by rewrite <- app_assoc.
    + exists [], (b :: rest). split; [done|]. split; [by rewrite app_nil_r|]. by intros ->.
Qed.

(** * Word loops *)

Section words.
Variable buf : list Z.
Hypothesis buf_bytes : Forall is_byte buf.

(** A word step advances the register over eight bytes. *)
Lemma word_ok c i :
  0 <= c < 2 ^ 64 -> 0 <= i -> i + 8 <= zlen buf ->
  exists c1, DO_8_1 buf c i = Ok c1 /\ DO_8_2 spec_table c1 = Ok (crc_ref c (seg buf i 8)).
Proof.
  intros Hc Hi Hl. unfold DO_8_1. rewrite rdn_seg by lia. cbn [bindr]. eexists. split; [reflexivity|].
  pose proof (seg_bytes buf i 8 buf_bytes) as Hs.
  pose proof (seg_length buf i 8 Hi ltac:(lia) Hl) as Hlen.
  rewrite DO_8_2_ok.
  - rewrite crc_ref_word, Hlen by done. reflexivity.
  - apply lxor_range; [lia | done |]. pose proof (le_val_range _ Hs) as Hr. unfold zlen in Hr.
    rewrite Hlen in Hr. exact Hr.
Qed.

(** The streams [words_loop] may be given: registers and positions that leave
    room for [n] bytes. *)
Definition streams_ok (n : Z) (ss : list (Z * Z)) : Prop :=
  Forall (fun '(c, i) => 0 <= c < 2 ^ 64 /\ 0 <= i /\ i + n <= zlen buf) ss.

Definition advance (n : Z) (ss : list (Z * Z)) : list (Z * Z) :=
  map (fun '(c, i) => (crc_ref c (seg buf i n), i + n)) ss.

Lemma words_step_ok n ss :
  8 <= n -> streams_ok n ss -> words_step spec_table buf ss = Ok (advance 8 ss).
Proof.
  intros Hn. induction ss as [|[c i] ss IH]; intros Hss; [done|].
  apply Forall_cons_1 in Hss as [(Hc & Hi & Hl) Hss]. cbn [words_step].
  destruct (word_ok c i Hc Hi ltac:(lia)) as (c1 & -> & H2). cbn [bindr]. rewrite H2. cbn [bindr].
  rewrite (IH Hss). reflexivity.
Qed.

Lemma advance_ok m n ss : 0 <= m -> streams_ok (m + n) ss -> streams_ok n (advance m ss).
Proof.
  intros Hm. induction ss as [|[c i] ss IH]; intros Hss; [constructor|].
  apply Forall_cons_1 in Hss as [(Hc & Hi & Hl) Hss]. constructor; [|by apply IH].
  split; [|lia]. apply crc_ref_range; [done | by apply seg_bytes].
Qed.

Lemma advance_add m n ss :
  0 <= m -> 0 <= n -> streams_ok (m + n) ss -> advance n (advance m ss) = advance (m + n) ss.
Proof.
  intros Hm Hn. induction ss as [|[c i] ss IH]; intros Hss; [reflexivity|].
  apply Forall_cons_1 in Hss as [(Hc & Hi & Hl) Hss]. cbn [advance map].
  rewrite seg_split, crc_ref_app by lia. f_equal; [f_equal; lia|]. by apply IH.
Qed.

Lemma words_loop_ok fuel : forall ss len,
  0 <= len -> len <= 8 * Z.of_nat fuel + 7 -> streams_ok (8 * (len / 8)) ss ->
  words_loop fuel spec_table buf ss len = Ok (advance (8 * (len / 8)) ss, len mod 8).
Proof.
  assert (forall ss, streams_ok 0 ss -> advance 0 ss = ss) as H0.
  { intros ss Hss. induction Hss as [|[c i] ss _ _ IH]; [reflexivity|]. cbn [advance map]. unfold seg.
    cbn [Z.to_nat take crc_ref fold_left]. f_equal; [f_equal; lia | exact IH]. }
  induction fuel as [|fuel IH]; intros ss len Hl Hf Hss; cbn [words_loop]; rewrite Z.geb_leb.
  - rewrite (proj2 (Z.leb_gt 8 len)) by lia.
    rewrite Z.div_small, Z.mod_small in * by lia. by rewrite H0.
  - destruct (Z.leb_spec 8 len).
    + assert (len / 8 = 1 + (len - 8) / 8 /\ len mod 8 = (len - 8) mod 8) as [Ed Em].
      { replace len with ((len - 8) + 1 * 8) at 1 3 by lia. rewrite Z.div_add, Z.mod_add by lia. lia. }
      pose proof (Z.div_pos (len - 8) 8 ltac:(lia) ltac:(lia)).
      rewrite (words_step_ok (8 * (len / 8))) by (done || lia). cbn [bindr].
      rewrite Ed in Hss. replace (8 * (1 + (len - 8) / 8)) with (8 + 8 * ((len - 8) / 8)) in Hss by lia.
      rewrite IH by (lia || (apply advance_ok; [lia | done])).
      rewrite advance_add by (lia || done). rewrite Ed, Em. do 3 f_equal. lia.
    + rewrite Z.div_small, Z.mod_small in * by lia. by rewrite H0.
Qed.
End words.

(** * Matrices *)

(** The matrix of a linear function: its values on the powers of two. *)
Definition mat_of (f : Z -> Z) : list Z := map (fun i => f (2 ^ i)) (zseq 64).

Lemma mat_lookup f i : 0 <= i < 64 -> rd1 (mat_of f) i = Ok (f (2 ^ i)).
Proof. intros Hi. apply rd1_lookup; [lia|]. unfold mat_of. by rewrite list_lookup_fmap, zseq_lookup. Qed.

Lemma zlen_mat f : zlen (mat_of f) = 64.
Proof. reflexivity. Qed.

Definition cells_word (cells : list Z) : Z := fold_right (fun i w => Z.lxor (2 ^ i) w) 0 cells.

Lemma xor_cells_ok f base cells : forall sum,
  linear f -> 0 <= base -> Forall (fun i => 0 <= i /\ base + i < 64) cells ->
  xor_cells (mat_of f) base cells sum = Ok (Z.lxor sum (f (Z.shiftl (cells_word cells) base))).
Proof.
  induction cells as [|i cells IH]; intros sum Hf Hb Hc; cbn [xor_cells cells_word fold_right].
  - by rewrite Z.shiftl_0_l, (linear_0 f Hf), Z.lxor_0_r.
  - apply Forall_cons_1 in Hc as [Hi Hc]. rewrite mat_lookup by lia. cbn [bindr].
    rewrite IH by done. rewrite Z.shiftl_lxor, Hf, Z.lxor_assoc.
    rewrite (Z.shiftl_mul_pow2 (2 ^ i)), <- Z.pow_add_r by lia. by rewrite (Z.add_comm i).
Qed.

Lemma switch_cells_ok v :
  0 <= v < 16 -> cells_word (switch_cells v) = v /\ Forall (fun i => 0 <= i < 4) (switch_cells v).
Proof.
  intros Hv.
  assert (v = 0 \/ v = 1 \/ v = 2 \/ v = 3 \/ v = 4 \/ v = 5 \/ v = 6 \/ v = 7 \/ v = 8 \/ v = 9 \/
          v = 10 \/ v = 11 \/ v = 12 \/ v = 13 \/ v = 14 \/ v = 15) as Hc by lia.
  repeat destruct Hc as [-> | Hc]; try subst v; (split; [reflexivity | repeat constructor; lia]).
Qed.

Lemma times_switch_loop_ok f fuel : forall base vec sum,
  linear f -> 0 <= base -> base + 4 * Z.of_nat fuel = 64 -> 0 <= vec < 2 ^ (4 * Z.of_nat fuel) ->
  times_switch_loop fuel (mat_of f) base vec sum = Ok (Z.lxor sum (f (Z.shiftl vec base))).
Proof.
  induction fuel as [|fuel IH]; intros base vec sum Hf Hb Hbase Hv; cbn [times_switch_loop].
  - replace vec with 0 by (simpl in Hv; lia). cbn [Z.eqb]. by rewrite Z.shiftl_0_l, (linear_0 f Hf), Z.lxor_0_r.
  - destruct (Z.eqb_spec vec 0) as [->|Hne].
    { by rewrite Z.shiftl_0_l, (linear_0 f Hf), Z.lxor_0_r. }
    assert (0 <= Z.land vec 15 < 16) as Hn.
    { change 15 with (Z.ones 4). rewrite Z.land_ones by lia. by apply Z.mod_pos_bound. }
    destruct (switch_cells_ok (Z.land vec 15) Hn) as [Hw Hcells].
    rewrite xor_cells_ok; [|done | done |].
    2: { revert Hcells. apply Forall_impl. intros i Hi. lia. }
    cbn [bindr]. rewrite Hw, IH; [|done | lia | lia |].
    + rewrite (split_low vec 4) at 3 by lia. change (Z.ones 4) with 15.
      rewrite Z.shiftl_lxor, Hf, Z.lxor_assoc, Z.shiftl_shiftl by lia.
      by rewrite (Z.add_comm 4).
    + apply shiftr_range; [lia | lia |]. by replace (4 * Z.of_nat fuel + 4) with (4 * Z.of_nat (S fuel)) by lia.
Qed.

Lemma gf2_matrix_times_ok f v :
  linear f -> 0 <= v < 2 ^ 64 -> gf2_matrix_times_switch (mat_of f) v = Ok (f v).
Proof.
  intros Hf Hv. unfold gf2_matrix_times_switch. rewrite times_switch_loop_ok by (done || lia).
  by rewrite Z.shiftl_0_r, Z.lxor_0_l.
Qed.

(** Functions that keep 64-bit words. *)
Definition word_fun (f : Z -> Z) : Prop := forall x, 0 <= x < 2 ^ 64 -> 0 <= f x < 2 ^ 64.

Lemma square_rows_ok f : linear f -> word_fun f ->
  square_rows (mat_of f) (mat_of f) = Ok (mat_of (fun x => f (f x))).
Proof.
  intros Hf Hw. unfold mat_of at 2 3.
  assert (Forall (fun i => 0 <= i < 64) (zseq 64)) as Hz.
  { apply list.Forall_forall. intros i Hi. by apply (elem_of_zseq 64). }
  induction Hz as [|i l Hi _ IH]; [reflexivity|]. cbn [map square_rows].
  rewrite gf2_matrix_times_ok; [|done|].
  - cbn [bindr]. rewrite IH. reflexivity.
  - apply Hw. split; [apply Z.pow_nonneg; lia | apply Z.pow_lt_mono_r; lia].
Qed.

(** ** The cache *)

Definition cache_shape (cache : list (list Z)) : Prop :=
  zlen cache = 64 /\ Forall (fun row => zlen row = 64) cache.

Lemma mat_of_ext f g : (forall x, f x = g x) -> mat_of f = mat_of g.
Proof. intros Hfg. apply map_ext. intros i. apply Hfg. Qed.

Lemma gf2_matrix_square_ok cache dst src f g :
  cache_shape cache -> 0 <= dst < 64 -> 0 <= src -> cache !! Z.to_nat src = Some (mat_of f) ->
  linear f -> word_fun f -> (forall x, f (f x) = g x) ->
  gf2_matrix_square cache dst src 64 = Ok (<[Z.to_nat dst := mat_of g]> cache).
Proof.
  intros [Hl Hrows] Hd Hs Hsrc Hf Hw Hg. unfold gf2_matrix_square.
  rewrite (rd1_lookup cache src (mat_of f)) by done. cbn [bindr].
  destruct (rd1_ok cache dst) as (row & -> & Hrow); [lia|]. cbn [bindr].
  assert (rdn (mat_of f) 0 64 = Ok (mat_of f)) as ->.
  { rewrite <- (app_nil_r (mat_of f)) at 1. by apply (rdn_mid [] (mat_of f) []). }
  cbn [bindr]. rewrite square_rows_ok, (mat_of_ext _ g Hg) by done. cbn [bindr].
  assert (zlen row = 64) as Hr by (by eapply list.Forall_lookup_1 in Hrows).
  assert (wrn row 0 (mat_of g) = Ok (mat_of g)) as ->.
  { rewrite <- (app_nil_r row).
    rewrite (wrn_mid [] row (mat_of g) []); [|done | by rewrite zlen_mat].
    by rewrite app_nil_r. }
  cbn [bindr]. apply wr1_ok. lia.
Qed.

Lemma cache_shape_insert cache i f : cache_shape cache -> cache_shape (<[i := mat_of f]> cache).
Proof.
  intros [Hl Hrows]. split; [by rewrite zlen_insert|]. by apply Forall_insert.
Qed.

(** The operator of [n] zero bytes. *)
Definition zeros (n : Z) (c : Z) : Z := steps (Z.to_nat (8 * n)) c.

Lemma zeros_add a b c : 0 <= a -> 0 <= b -> zeros a (zeros b c) = zeros (a + b) c.
Proof.
  intros Ha Hb. unfold zeros. rewrite <- steps_add. f_equal. lia.
Qed.

Lemma linear_zeros n : linear (zeros n).
Proof. apply linear_steps. Qed.

Lemma zeros_range n : word_fun (zeros n).
Proof. intros x Hx. by apply steps_range. Qed.

(** Layer [i] applies 2^i zero bytes. *)
Definition layers (n : Z) (cache : list (list Z)) : Prop :=
  forall i, 0 <= i < n -> cache !! Z.to_nat i = Some (mat_of (zeros (2 ^ i))).

Lemma square_layer cache j src n :
  cache_shape cache -> 0 <= j < 64 -> 0 <= src -> 0 <= n ->
  cache !! Z.to_nat src = Some (mat_of (zeros n)) ->
  gf2_matrix_square cache j src 64 = Ok (<[Z.to_nat j := mat_of (zeros (2 * n))]> cache).
Proof.
  intros Hs Hj Hsrc Hn Hl.
  apply (gf2_matrix_square_ok cache j src (zeros n)); try done; [apply linear_zeros | apply zeros_range |].
  intros x. rewrite zeros_add by done. f_equal. lia.
Qed.

Lemma cache_loop_ok fuel : forall cache j,
  cache_shape cache -> 1 <= j -> j + Z.of_nat fuel = 64 -> (0 < fuel)%nat -> layers j cache ->
  exists cache', cache_loop fuel cache j (-1) 64 = Ok cache' /\ cache_shape cache' /\ layers 64 cache'.
Proof.
  induction fuel as [|fuel IH]; intros cache j Hs Hj Hf Hpos Hlay; [lia|]. cbn [cache_loop].
  rewrite (square_layer cache j (j + -1) (2 ^ (j - 1))); [|done | lia | lia | apply Z.pow_nonneg; lia |].
  2: { replace (j + -1) with (j - 1) by lia. apply Hlay. lia. }
  cbn [bindr].
  assert (layers (j + 1) (<[Z.to_nat j := mat_of (zeros (2 * 2 ^ (j - 1)))]> cache)) as Hlay'.
  { intros i Hi. rewrite <- Z.pow_succ_r by lia. replace (Z.succ (j - 1)) with j by lia.
    destruct (decide (i = j)) as [->|].
    - apply list_lookup_insert_eq. destruct Hs as [Hl _]. unfold zlen in Hl. lia.
    - rewrite list_lookup_insert_ne by lia. apply Hlay. lia. }
  pose proof (cache_shape_insert cache (Z.to_nat j) (zeros (2 * 2 ^ (j - 1))) Hs) as Hs'.
  destruct (Z.ltb_spec (j + 1) 64).
  - apply IH; [done | lia | lia | lia | done].
  - eexists. split; [reflexivity|]. split; [done|]. by replace 64 with (j + 1) by lia.
Qed.

Lemma shift_rows_ok fuel : forall row n,
  zlen row = 64 -> 1 <= n <= 64 -> 64 - n <= Z.of_nat fuel ->
  exists row', shift_rows fuel row n 64 (2 ^ (n - 1)) = Ok row' /\ zlen row' = 64 /\
    (forall i, 0 <= i < n -> row' !! Z.to_nat i = row !! Z.to_nat i) /\
    (forall i, n <= i < 64 -> row' !! Z.to_nat i = Some (2 ^ (i - 1))).
Proof.
  induction fuel as [|fuel IH]; intros row n Hl Hn Hf; cbn [shift_rows].
  { rewrite (proj2 (Z.ltb_ge n 64)) by lia. exists row. split_and!; [done | done | done | lia]. }
  destruct (Z.ltb_spec n 64).
  2: { exists row. split_and!; [done | done | done | lia]. }
  rewrite wr1_ok by lia. cbn [bindr].
  assert (u64 (Z.shiftl (2 ^ (n - 1)) 1) = 2 ^ (n + 1 - 1)) as ->.
  { rewrite Z.shiftl_mul_pow2, <- Z.pow_add_r by lia. replace (n - 1 + 1) with (n + 1 - 1) by lia.
    apply wrapU_small. split; [apply Z.pow_nonneg; lia | apply Z.pow_lt_mono_r; lia]. }
  destruct (IH (<[Z.to_nat n := 2 ^ (n - 1)]> row) (n + 1)) as (row' & E & Hz & Hlow & Hhigh);
    [by rewrite zlen_insert | lia | lia |].
  exists row'. split_and!; [done | done | |].
  - intros i Hi. rewrite Hlow, list_lookup_insert_ne by lia. done.
  - intros i Hi. destruct (decide (i = n)) as [->|]; [|apply Hhigh; lia].
    rewrite Hlow by lia. apply list_lookup_insert_eq. unfold zlen in Hl. lia.
Qed.

Lemma step_pow2 i : 1 <= i -> crc_step (2 ^ i) = 2 ^ (i - 1).
Proof.
  intros Hi. replace (2 ^ i) with (Z.shiftl (2 ^ (i - 1)) 1); [apply step_shiftl|].
  rewrite Z.shiftl_mul_pow2, <- Z.pow_add_r by lia. f_equal. lia.
Qed.

Lemma poly_row row :
  zlen row = 64 -> row !! 0%nat = Some CRC64_REVERSED_POLY ->
  (forall i, 1 <= i < 64 -> row !! Z.to_nat i = Some (2 ^ (i - 1))) -> row = mat_of crc_step.
Proof.
  intros Hl H0 Hi. apply list_eq_same_length with (n := 64%nat); [reflexivity | unfold zlen in Hl; lia |].
  intros i x y Hlt Hx Hy. unfold mat_of in Hy. rewrite list_lookup_fmap in Hy.
  replace (zseq 64 !! i) with (Some (Z.of_nat i)) in Hy
    by (symmetry; rewrite <- (Nat2Z.id i) at 1; apply zseq_lookup; lia).
  cbn [fmap option_fmap option_map] in Hy. injection Hy as <-.
  destruct i as [|i].
  - rewrite H0 in Hx. injection Hx as <-. reflexivity.
  - specialize (Hi (Z.of_nat (S i)) ltac:(lia)). rewrite Nat2Z.id, Hx in Hi. injection Hi as ->.
    rewrite step_pow2 by lia. reflexivity.
Qed.

(** The same with the new layers named, which keeps them folded. *)
Lemma wr1_row cache i f :
  cache_shape cache -> 0 <= i < 64 ->
  exists cache', wr1 cache i (mat_of f) = Ok cache' /\ cache_shape cache' /\
    cache' !! Z.to_nat i = Some (mat_of f).
Proof.
  intros Hs Hi. pose proof Hs as [Hl _]. rewrite wr1_ok by lia. eexists. split; [reflexivity|].
  split; [by apply cache_shape_insert|]. apply list_lookup_insert_eq. unfold zlen in Hl. lia.
Qed.

Lemma gf2_matrix_square_ex cache dst src f g :
  cache_shape cache -> 0 <= dst < 64 -> 0 <= src -> cache !! Z.to_nat src = Some (mat_of f) ->
  linear f -> word_fun f -> (forall x, f (f x) = g x) ->
  exists cache', gf2_matrix_square cache dst src 64 = Ok cache' /\ cache_shape cache' /\
    cache' !! Z.to_nat dst = Some (mat_of g).
Proof.
  intros Hs Hd Hsrc Hl Hf Hw Hg. rewrite (gf2_matrix_square_ok cache dst src f g) by done.
  eexists. split; [reflexivity|]. split; [by apply cache_shape_insert|].
  apply list_lookup_insert_eq. destruct Hs as [Hz _]. unfold zlen in Hz. lia.
Qed.

Lemma cache_loop_S fuel cache cache_num prev dim :
  cache_loop (S fuel) cache cache_num prev dim =
  let* cache := gf2_matrix_square cache cache_num (cache_num + prev) dim in
  if cache_num + 1 <? 64 then cache_loop fuel cache (cache_num + 1) (-1) dim else Ok cache.
Proof. reflexivity. Qed.

Lemma steps_two_two x : steps 2 (steps 2 x) = steps 4 x.
Proof. symmetry. apply (steps_add 2 2). Qed.

Lemma zeros_one x : steps 4 (steps 4 x) = zeros (2 ^ 0) x.
Proof.
  unfold zeros. replace (Z.to_nat (8 * 2 ^ 0)) with (4 + 4)%nat by reflexivity. symmetry. apply steps_add.
Qed.

(** From the operator of one zero bit in layer 1: two, four and eight bits,
    then one byte in layer 0 and the doublings. *)
Lemma init_layers_ok c1 :
  cache_shape c1 -> c1 !! 1%nat = Some (mat_of crc_step) ->
  exists c2 c3 cache',
    gf2_matrix_square c1 0 1 64 = Ok c2 /\ gf2_matrix_square c2 1 0 64 = Ok c3 /\
    cache_loop 64 c3 0 1 64 = Ok cache' /\ cache_shape cache' /\ layers 64 cache'.
Proof.
  intros Hs1 Hc1.
  assert (forall n, word_fun (steps n)) as Hwf by (intros n x Hx; by apply steps_range).
  destruct (gf2_matrix_square_ex c1 0 1 crc_step (steps 2)) as (c2 & E2 & Hs2 & Hc2);
    [done | lia | lia | done | apply linear_step | exact step_range | reflexivity |].
  destruct (gf2_matrix_square_ex c2 1 0 (steps 2) (steps 4)) as (c3 & E3 & Hs3 & Hc3);
    [done | lia | lia | done | apply linear_steps | apply Hwf | exact steps_two_two |].
  destruct (gf2_matrix_square_ex c3 0 (0 + 1) (steps 4) (zeros (2 ^ 0))) as (c4 & E4 & Hs4 & Hc4);
    [done | lia | lia | done | apply linear_steps | apply Hwf | exact zeros_one |].
  destruct (cache_loop_ok 63 c4 1) as (cache' & E5 & Hs5 & Hl5); [done | lia | lia | lia | |].
  { intros i Hi. replace i with 0 by lia. exact Hc4. }
  exists c2, c3, cache'. split; [exact E2|]. split; [exact E3|]. split; [|by split].
  rewrite (cache_loop_S 63), E4. exact E5.
Qed.

Lemma poly_layer row1 :
  zlen row1 = 64 ->
  exists row, wr1 row1 0 CRC64_REVERSED_POLY = Ok row /\
    shift_rows (Z.to_nat 64) row 1 64 1 = Ok (mat_of crc_step).
Proof.
  intros Hr1. eexists. split; [apply wr1_ok; lia|]. change (Z.to_nat 0) with 0%nat.
  destruct (shift_rows_ok (Z.to_nat 64) (<[0%nat := CRC64_REVERSED_POLY]> row1) 1) as (row & E & Hz & Hlow & Hhigh);
    [by rewrite zlen_insert | lia | lia |].
  change (2 ^ (1 - 1)) with 1 in E. rewrite E. apply (f_equal Ok).
  apply poly_row; [done | | done]. specialize (Hlow 0 ltac:(lia)). change (Z.to_nat 0) with 0%nat in Hlow.
  rewrite Hlow. apply list_lookup_insert_eq. unfold zlen in Hr1. lia.
Qed.

Lemma init_combine_cache_ok cache :
  cache_shape cache ->
  exists cache', init_combine_cache cache CRC64_REVERSED_POLY 64 = Ok cache' /\
    cache_shape cache' /\ layers 64 cache'.
Proof.
  intros Hs. pose proof Hs as [Hl Hrows].
  destruct (rd1_ok cache 1) as (row1 & Er & Hrow1); [lia|].
  assert (zlen row1 = 64) as Hr1 by (by eapply list.Forall_lookup_1 in Hrows).
  destruct (poly_layer row1 Hr1) as (row & Ew & Es).
  destruct (wr1_row cache 1 crc_step Hs ltac:(lia)) as (c1 & E1 & Hs1 & Hc1).
  destruct (init_layers_ok c1 Hs1 Hc1) as (c2 & c3 & cache' & E2 & E3 & E4 & Hs' & Hl').
  exists cache'. split; [|by split]. unfold init_combine_cache.
  rewrite Er, bindr_ret, Ew, bindr_ret, Es, bindr_ret, E1, bindr_ret, E2, bindr_ret, E3, bindr_ret.
  exact E4.
Qed.

(** The static cache: not used yet, or filled. *)
Definition cache_ok (cache : list (list Z)) : Prop :=
  cache_shape cache /\ (layers 64 cache \/ exists row, cache !! 0%nat = Some row /\ row !! 0%nat = Some 0).

Lemma combine_loop_ok fuel : forall cache j crc len2,
  layers 64 cache -> 0 <= j -> j + Z.of_nat fuel = 64 -> 0 < len2 < 2 ^ Z.of_nat fuel -> 0 <= crc < 2 ^ 64 ->
  combine_loop fuel cache j crc len2 = Ok (zeros (2 ^ j * len2) crc).
Proof.
  induction fuel as [|fuel IH]; intros cache j crc len2 Hlay Hj Hf Hlen Hc; [simpl in Hlen; lia|].
  cbn [combine_loop]. rewrite Z.shiftr_div_pow2 by lia. change (2 ^ 1) with 2.
  change 1 with (Z.ones 1) at 1. rewrite Z.land_ones by lia. change (2 ^ 1) with 2.
  pose proof (Z.div_mod len2 2 ltac:(lia)) as Hdm. pose proof (Z.mod_pos_bound len2 2 ltac:(lia)) as Hm.
  assert (0 < 2 ^ j) as Hp by (apply Z.pow_pos_nonneg; lia).
  assert ((if negb (len2 mod 2 =? 0) then
             let* mat := rd1 cache j in gf2_matrix_times_switch mat crc else Ok crc)
          = Ok (zeros (2 ^ j * (len2 mod 2)) crc)) as ->.
  { destruct (Z.eqb_spec (len2 mod 2) 0) as [E|E]; cbn [negb].
    - by rewrite E, Z.mul_0_r.
    - rewrite (rd1_lookup cache j (mat_of (zeros (2 ^ j)))) by (lia || (apply Hlay; lia)). cbn [bindr].
      rewrite gf2_matrix_times_ok by (assumption || apply linear_zeros).
      replace (len2 mod 2) with 1 by lia. by rewrite Z.mul_1_r. }
  cbn [bindr]. pose proof (Z.div_pos len2 2 ltac:(lia) ltac:(lia)) as Hd0.
  destruct (Z.eqb_spec (len2 / 2) 0) as [E|E]; cbn [negb].
  - do 2 f_equal. rewrite E in Hdm. f_equal. lia.
  - assert (len2 / 2 < 2 ^ Z.of_nat fuel) as Hd.
    { apply Z.div_lt_upper_bound; [lia|]. rewrite <- Z.pow_succ_r by lia.
      replace (Z.succ (Z.of_nat fuel)) with (Z.of_nat (S fuel)) by lia. apply Hlen. }
    assert (0 < Z.of_nat fuel) by (destruct fuel; [simpl in Hd; lia | lia]).
    assert (Z.land (j + 1) 63 = j + 1) as ->.
    { change 63 with (Z.ones 6). rewrite Z.land_ones, Z.mod_small by (try change (2 ^ 6) with 64; lia). done. }
    rewrite IH; [|done | lia | lia | lia | by apply zeros_range].
    rewrite zeros_add by (try apply Z.mul_nonneg_nonneg; try apply Z.pow_nonneg; lia).
    rewrite Z.pow_add_r by lia. change (2 ^ 1) with 2. do 2 f_equal. lia.
Qed.

Lemma crc64_combine_ok cache crc1 crc2 len2 :
  cache_ok cache -> 0 <= crc1 < 2 ^ 64 -> 0 <= len2 < 2 ^ 64 -> (len2 = 0 -> crc2 = 0) ->
  exists cache',
    crc64_combine cache crc1 crc2 len2 CRC64_REVERSED_POLY 64 = Ok (Z.lxor (zeros len2 crc1) crc2, cache') /\
    cache_ok cache'.
Proof.
  intros [Hs Hc] H1 Hlen H0. unfold crc64_combine. destruct (Z.eqb_spec len2 0) as [->|Hne].
  { exists cache. rewrite H0, Z.lxor_0_r by done. split; [reflexivity | by split]. }
  assert (exists cache' row c00, rd1 cache 0 = Ok row /\ rd1 row 0 = Ok c00 /\
    (if c00 =? 0 then init_combine_cache cache CRC64_REVERSED_POLY 64 else Ok cache) = Ok cache' /\
    cache_shape cache' /\ layers 64 cache') as (cache' & row & c00 & -> & Hrow & Hi & Hs' & Hl').
  { destruct Hc as [Hlay | (row & Hrow & Hz)].
    - exists cache, (mat_of (zeros 1)), (zeros 1 1).
      split; [apply rd1_lookup; [lia|]; apply (Hlay 0); lia|].
      split; [by apply (mat_lookup (zeros 1) 0)|]. split; [reflexivity | by split].
    - destruct (init_combine_cache_ok cache Hs) as (cache' & E & Hs' & Hl').
      exists cache', row, 0. split; [by apply rd1_lookup|]. split; [by apply rd1_lookup|].
      split; [exact E | by split]. }
  cbn [bindr]. rewrite Hrow. cbn [bindr]. rewrite Hi. cbn [bindr].
  rewrite combine_loop_ok by (done || lia). cbn [bindr]. rewrite Z.pow_0_r, Z.mul_1_l.
  exists cache'. split; [reflexivity|]. split; [done | by left].
Qed.

(** * Streams *)

Lemma len_mask x : 0 <= x < 2 ^ 63 -> Z.land x CRC64_LEN_MASK = 8 * (x / 8).
Proof.
  intros Hx. transitivity (Z.shiftl (Z.shiftr x 3) 3).
  - apply (linear_ext 63 (fun x => Z.land x CRC64_LEN_MASK) (fun x => Z.shiftl (Z.shiftr x 3) 3));
      [apply linear_land, linear_id | apply linear_shiftl, linear_shiftr, linear_id | by vm_compute | done].
  - rewrite Z.shiftl_mul_pow2, Z.shiftr_div_pow2 by lia. change (2 ^ 3) with 8. lia.
Qed.

Section little.
Variable buf : list Z.
Hypothesis buf_bytes : Forall is_byte buf.
Hypothesis buf_size : zlen buf < 2 ^ 63.
Variable crc0 : Z.
Hypothesis crc0_word : 0 <= crc0 < 2 ^ 64.

(** The register after the first [next] bytes, with [len] to go. *)
Definition reached (c next len : Z) : Prop :=
  0 <= next /\ 0 <= len /\ next + len = zlen buf /\ c = crc_ref crc0 (seg buf 0 next).

Lemma reached_word c next len : reached c next len -> 0 <= c < 2 ^ 64.
Proof. intros (_ & _ & _ & ->). apply crc_ref_range; [done | by apply seg_bytes]. Qed.

Lemma reached_next c next len m :
  reached c next len -> 0 <= m <= len ->
  reached (crc_ref c (seg buf next m)) (next + m) (len - m).
Proof.
  intros (Hn & Hl & Hz & ->) Hm. split; [lia|]. split; [lia|]. split; [lia|].
  by rewrite <- crc_ref_app, seg_split by lia.
Qed.

Lemma stream_merge_ok cache c i n :
  cache_ok cache -> 0 <= c < 2 ^ 64 -> 0 <= i -> 0 <= n -> i + n <= zlen buf ->
  exists cache', crc64_combine cache c (crc_ref 0 (seg buf i n)) n CRC64_REVERSED_POLY 64
    = Ok (crc_ref c (seg buf i n), cache') /\ cache_ok cache'.
Proof.
  intros Hc Hw Hi Hn Hl.
  destruct (crc64_combine_ok cache c (crc_ref 0 (seg buf i n)) n Hc Hw) as (cache' & E & Hc'); [lia | by intros -> |].
  exists cache'. split; [|done]. rewrite E, (crc_ref_combine c) by (by apply seg_bytes).
  unfold zeros. rewrite seg_length by lia. by replace (8 * Z.to_nat n)%nat with (Z.to_nat (8 * n)) by lia.
Qed.

Lemma stream_len d len : 0 < d -> 0 <= len < 2 ^ 63 ->
  exists n, Z.land (len / d) CRC64_LEN_MASK = 8 * n /\ 0 <= n /\ 8 * n * d <= len.
Proof.
  intros Hd Hl. exists (len / d / 8).
  assert (0 <= len / d < 2 ^ 63) as Hq.
  { split; [apply Z.div_pos; lia|]. apply Z.div_lt_upper_bound; [lia | nia]. }
  rewrite len_mask by done. split; [done|]. split; [apply Z.div_pos; lia|].
  pose proof (Z.mul_div_le len d Hd). pose proof (Z.mul_div_le (len / d) 8 ltac:(lia)). nia.
Qed.

(** [words_loop] on streams of a whole number of words. *)
Lemma words_loop_whole ss n :
  0 <= n -> 8 * n <= zlen buf -> streams_ok buf (8 * n) ss ->
  words_loop (length buf) spec_table buf ss (8 * n) = Ok (advance buf (8 * n) ss, 0).
Proof.
  intros Hn Hz Hss.
  assert (8 * n / 8 = n) as Hd by (rewrite Z.mul_comm; apply Z.div_mul; lia).
  rewrite words_loop_ok; [rewrite Hd | done | lia | unfold zlen in Hz; lia | by rewrite Hd].
  do 2 f_equal. rewrite Z.mul_comm. apply Z.mod_mul. lia.
Qed.

Lemma word0 : 0 <= 0 < 2 ^ 64.
Proof. lia. Qed.

Lemma tri_streams_ok cache c next len :
  cache_ok cache -> reached c next len ->
  exists c' next' len' cache',
    tri_streams spec_table buf cache c next len = Ok (c', next', len', cache') /\
    reached c' next' len' /\ cache_ok cache'.
Proof.
  intros Hca Hr. pose proof (reached_word _ _ _ Hr) as Hw. pose proof Hr as (Hn & Hl & Hz & _).
  unfold tri_streams. destruct (stream_len 3 len) as (n & -> & Hn0 & H3); [lia | lia |].
  replace (next + 8 * n - next) with (8 * n) by lia.
  rewrite words_loop_whole; [|done | lia |].
  2: { repeat constructor; cbn beta iota; lia. }
  cbn [bindr advance map].
  replace (next + 8 * n + 8 * n - (next + 8 * n)) with (8 * n) by lia.
  destruct (stream_merge_ok cache (crc_ref c (seg buf next (8 * n))) (next + 8 * n) (8 * n) Hca) as (ca1 & E1 & Hc1);
    [apply crc_ref_range; [done | by apply seg_bytes] | lia | lia | lia |].
  rewrite E1. cbn [bindr].
  rewrite <- crc_ref_app, <- seg_split by lia.
  destruct (stream_merge_ok ca1 (crc_ref c (seg buf next (8 * n + 8 * n))) (next + 8 * n + 8 * n) (8 * n) Hc1)
    as (ca2 & E2 & Hc2); [apply crc_ref_range; [done | by apply seg_bytes] | lia | lia | lia |].
  rewrite E2. cbn [bindr]. eexists _, _, _, _. split; [reflexivity|]. split; [|done].
  replace (next + 8 * n + 8 * n) with (next + (8 * n + 8 * n)) by lia.
  rewrite <- crc_ref_app, <- seg_split by lia.
  replace (next + (8 * n + 8 * n) + 8 * n) with (next + (8 * n + 8 * n + 8 * n)) by lia.
  replace (len - 8 * n * 3) with (len - (8 * n + 8 * n + 8 * n)) by lia.
  apply reached_next; [done | lia].
Qed.

Lemma dual_streams_ok cache c next len :
  cache_ok cache -> reached c next len ->
  exists c' next' len' cache',
    dual_streams spec_table buf cache c next len = Ok (c', next', len', cache') /\
    reached c' next' len' /\ cache_ok cache'.
Proof.
  intros Hca Hr. pose proof (reached_word _ _ _ Hr) as Hw. pose proof Hr as (Hn & Hl & Hz & _).
  unfold dual_streams. destruct (stream_len 2 len) as (n & -> & Hn0 & H3); [lia | lia |].
  replace (next + 8 * n - next) with (8 * n) by lia.
  rewrite words_loop_whole; [|done | lia |].
  2: { repeat constructor; cbn beta iota; lia. }
  cbn [bindr advance map].
  replace (next + 8 * n + 8 * n - (next + 8 * n)) with (8 * n) by lia.
  destruct (stream_merge_ok cache (crc_ref c (seg buf next (8 * n))) (next + 8 * n) (8 * n) Hca) as (ca1 & E1 & Hc1);
    [apply crc_ref_range; [done | by apply seg_bytes] | lia | lia | lia |].
  rewrite E1. cbn [bindr]. eexists _, _, _, _. split; [reflexivity|]. split; [|done].
  rewrite <- crc_ref_app, <- seg_split by lia.
  replace (next + 8 * n + 8 * n) with (next + (8 * n + 8 * n)) by lia.
  replace (len - 8 * n * 2) with (len - (8 * n + 8 * n)) by lia.
  apply reached_next; [done | lia].
Qed.

Lemma seg_all : seg buf 0 (zlen buf) = buf.
Proof. unfold seg, zlen. rewrite Nat2Z.id. apply take_ge. simpl. lia. Qed.

Lemma little_bytes_reached addr c next len :
  reached c next len ->
  exists c' next' len', little_bytes (length buf) spec_table buf addr c next len = Ok (c', next', len') /\
    reached c' next' len' /\ (addr = None -> len' = 0).
Proof.
  intros Hr. pose proof Hr as (Hn & Hl & Hz & _).
  set (pre := take (Z.to_nat next) buf). set (rest := drop (Z.to_nat next) buf).
  assert (buf = pre ++ rest) as Hbuf by (unfold pre, rest; by rewrite take_drop).
  assert (zlen pre = next) as Hpre by (apply zlen_take; lia).
  assert (zlen rest = len) as Hrest by (unfold rest; rewrite zlen_drop; lia).
  destruct (little_bytes_ok (length buf) pre rest addr c) as (dn & rest' & E1 & E2 & E3).
  { by apply Forall_drop. }
  { unfold rest. rewrite length_drop. lia. }
  rewrite <- Hbuf, Hpre, Hrest in E2. rewrite E2. eexists _, _, _. split; [reflexivity|].
  assert (zlen rest' = len - zlen dn) as Hz' by (rewrite <- Hrest, E1, zlen_app; lia).
  pose proof (zlen_nonneg rest'). pose proof (zlen_nonneg dn).
  split; [|intros Ha; by rewrite (E3 Ha)].
  rewrite zlen_app, Hpre, Hz'. assert (dn = seg buf next (zlen dn)) as ->.
  { unfold seg. fold rest. rewrite E1. unfold zlen. by rewrite Nat2Z.id, take_app_length. }
  assert (zlen (seg buf next (zlen dn)) = zlen dn) as ->.
  { unfold zlen at 1. rewrite seg_length by lia. lia. }
  apply reached_next; [done | lia].
Qed.

Lemma words_reached c next len :
  reached c next len ->
  exists c' next' len', words_loop (length buf) spec_table buf [(c, next)] len = Ok ([(c', next')], len') /\
    reached c' next' len'.
Proof.
  intros Hr. pose proof (reached_word _ _ _ Hr) as Hw. pose proof Hr as (Hn & Hl & Hz & _).
  pose proof (Z.div_mod len 8 ltac:(lia)) as Hdm. pose proof (Z.mod_pos_bound len 8 ltac:(lia)) as Hm.
  rewrite words_loop_ok; [|done | done | unfold zlen in Hz; lia |].
  2: { constructor; [|constructor]. lia. }
  eexists _, _, _. split; [reflexivity|].
  replace (len mod 8) with (len - 8 * (len / 8)) by lia. apply reached_next; [done | lia].
Qed.

Lemma crcspeed64little_ok tri dual addr cache :
  cache_ok cache ->
  exists cache', crcspeed64little tri dual addr spec_table cache crc0 buf = Ok (crc_ref crc0 buf, cache') /\
    cache_ok cache'.
Proof.
  intros Hca. unfold crcspeed64little.
  assert (reached crc0 0 (zlen buf)) as H0.
  { pose proof (zlen_nonneg buf). split; [lia|]. split; [lia|]. by split. }
  assert (exists c next len cache',
    (if dual <? 1 then Ok (crc0, 0, zlen buf, cache)
     else
       let* (crc1, next1, len) := little_bytes (length buf) spec_table buf (Some addr) crc0 0 (zlen buf) in
       let* (crc1, next1, len, cache) :=
         (if len >? tri then tri_streams spec_table buf cache crc1 next1 len
          else if len >? dual then dual_streams spec_table buf cache crc1 next1 len
          else Ok (crc1, next1, len, cache)) in
       let* (ss, len) := words_loop (length buf) spec_table buf [(crc1, next1)] len in
       match ss with
       | [(crc1, next1)] => Ok (crc1, next1, len, cache)
       | _ => Err OutOfFuel
       end) = Ok (c, next, len, cache') /\ reached c next len /\ cache_ok cache')
    as (c & next & len & cache' & -> & Hr & Hc').
  { destruct (dual <? 1); [by exists crc0, 0, (zlen buf), cache|].
    destruct (little_bytes_reached (Some addr) _ _ _ H0) as (c1 & n1 & l1 & -> & Hr1 & _). cbn [bindr].
    assert (exists c2 n2 l2 ca2,
      (if l1 >? tri then tri_streams spec_table buf cache c1 n1 l1
       else if l1 >? dual then dual_streams spec_table buf cache c1 n1 l1
       else Ok (c1, n1, l1, cache)) = Ok (c2, n2, l2, ca2) /\ reached c2 n2 l2 /\ cache_ok ca2)
      as (c2 & n2 & l2 & ca2 & -> & Hr2 & Hca2).
    { destruct (l1 >? tri); [by apply tri_streams_ok|]. destruct (l1 >? dual); [by apply dual_streams_ok|].
      by exists c1, n1, l1, cache. }
    cbn [bindr]. destruct (words_reached _ _ _ Hr2) as (c3 & n3 & l3 & -> & Hr3). cbn [bindr].
    by exists c3, n3, l3, ca2. }
  cbn [bindr].
  destruct (little_bytes_reached None _ _ _ Hr) as (c4 & n4 & l4 & -> & Hr4 & Hend). cbn [bindr].
  exists cache'. split; [|done]. destruct Hr4 as (_ & _ & Hz & ->).
  rewrite (Hend eq_refl), Z.add_0_r in Hz. by rewrite Hz, seg_all.
Qed.
End little.

(** * Big-endian hosts *)

Lemma rot32_lxor y :
  0 <= y < 2 ^ 64 ->
  Z.lor (Z.shiftr y 32) (u64 (Z.shiftl y 32)) = Z.lxor (Z.shiftr y 32) (u64 (Z.shiftl y 32)).
Proof.
  intros Hy. symmetry. apply Z.lxor_lor.
  assert (u64 (Z.shiftl y 32) = Z.shiftl (y mod 2 ^ 32) 32) as ->.
  { unfold wrapU. rewrite !Z.shiftl_mul_pow2 by lia. change (2 ^ 64) with (2 ^ 32 * 2 ^ 32).
    rewrite Z.mul_mod_distr_r by lia. done. }
  apply land_low_high; [lia|]. by apply (shiftr_range y 32 32).
Qed.

(** Masking bounds a word. *)
Lemma and_le_r a m : 0 <= a -> 0 <= m -> Z.land a m <= m.
Proof.
  intros Ha Hm. assert (Z.ldiff m a + Z.land a m = m) as E.
  { rewrite (Z.land_comm a), Z.add_nocarry_lxor.
    - rewrite Z.lxor_lor by (apply Z.bits_inj'; intros i _; rewrite !Z.land_spec, Z.ldiff_spec, Z.bits_0;
        by destruct (Z.testbit m i), (Z.testbit a i)).
      apply Z.bits_inj'. intros i _. rewrite Z.lor_spec, Z.ldiff_spec, Z.land_spec.
      by destruct (Z.testbit m i), (Z.testbit a i).
    - apply Z.bits_inj'. intros i _. rewrite !Z.land_spec, Z.ldiff_spec, Z.bits_0.
      by destruct (Z.testbit m i), (Z.testbit a i). }
  assert (0 <= Z.ldiff m a) by (apply Z.ldiff_nonneg; lia). lia.
Qed.

Lemma linear_rev8 : linear rev8.
Proof.
  set (g := fun a => Z.lor (Z.land (Z.shiftr a 8) 0xff00ff00ff00ff) (u64 (Z.shiftl (Z.land a 0xff00ff00ff00ff) 8))).
  set (h := fun x => Z.lor (Z.land (Z.shiftr (g x) 16) 0xffff0000ffff) (u64 (Z.shiftl (Z.land (g x) 0xffff0000ffff) 16))).
  assert (linear h) as Hh.
  { apply (linear_swap g 16); [lia | done |]. apply (linear_swap (fun a => a) 8); [lia | done | apply linear_id]. }
  assert (forall x, 0 <= h x < 2 ^ 64) as Hw.
  { intros x. unfold h.
    assert (0 <= Z.land (Z.shiftr (g x) 16) 0xffff0000ffff) by (apply Z.land_nonneg; lia).
    pose proof (wrapU_range 64 (Z.shiftl (Z.land (g x) 0xffff0000ffff) 16) ltac:(lia)).
    split; [apply Z.lor_nonneg; lia|].
    assert (forall a b, 0 <= a < 2 ^ 64 -> 0 <= b < 2 ^ 64 -> Z.lor a b < 2 ^ 64) as Hlor.
    { intros a b Ha Hb. assert (Z.lor a b = u64 (Z.lor a b)) as ->; [|apply wrapU_range; lia].
      rewrite u64_land, Z.land_lor_distr_l, !Z.land_ones, !Z.mod_small by lia. done. }
    apply Hlor; [|done]. split; [done|].
    apply Z.le_lt_trans with 0xffff0000ffff; [|done].
    assert (Z.land (Z.shiftr (g x) 16) 0xffff0000ffff = Z.land (Z.land (Z.shiftr (g x) 16) 0xffff0000ffff) 0xffff0000ffff) as ->
      by (by rewrite <- Z.land_assoc, Z.land_diag).
    by apply and_le_r. }
  intros a b. change (rev8 (Z.lxor a b)) with (Z.lor (Z.shiftr (h (Z.lxor a b)) 32) (u64 (Z.shiftl (h (Z.lxor a b)) 32))).
  change (rev8 a) with (Z.lor (Z.shiftr (h a) 32) (u64 (Z.shiftl (h a) 32))).
  change (rev8 b) with (Z.lor (Z.shiftr (h b) 32) (u64 (Z.shiftl (h b) 32))).
  rewrite !rot32_lxor by apply Hw. rewrite Hh.
  apply (linear_lxor (fun y => Z.shiftr y 32) (fun y => u64 (Z.shiftl y 32))); auto with linear.
Qed.

Lemma rev8_involutive c : 0 <= c < 2 ^ 64 -> rev8 (rev8 c) = c.
Proof.
  apply (linear_ext 64 (fun c => rev8 (rev8 c)) (fun c => c));
    [apply (linear_comp rev8 rev8); apply linear_rev8 | apply linear_id | by vm_compute].
Qed.

Lemma rev8_range c : 0 <= c < 2 ^ 64 -> 0 <= rev8 c < 2 ^ 64.
Proof.
  intros Hc. assert (rev8 c = u64 (rev8 c)) as ->; [|by apply wrapU_range].
  revert c Hc. apply (linear_ext 64); [apply linear_rev8 | apply linear_u64, linear_rev8 | by vm_compute].
Qed.

(** Byte [k] of the reversed word is byte [7 - k] of the word. *)
Lemma rev8_octet k c :
  In k (zseq 8) -> 0 <= c < 2 ^ 64 ->
  Z.land (Z.shiftr (rev8 c) (8 * k)) 255 = Z.land (Z.shiftr c (56 - 8 * k)) 255.
Proof.
  intros Hk. apply (linear_ext 64 (fun c => Z.land (Z.shiftr (rev8 c) (8 * k)) 255)
                                  (fun c => Z.land (Z.shiftr c (56 - 8 * k)) 255)).
  - apply linear_land, linear_shiftr, linear_rev8.
  - apply linear_land, linear_shiftr, linear_id.
  - revert k Hk. apply forallb_forall. by vm_compute.
Qed.

Lemma rev8_top c : 0 <= c < 2 ^ 64 -> Z.shiftr (rev8 c) 56 = Z.land c 255.
Proof.
  apply (linear_ext 64 (fun c => Z.shiftr (rev8 c) 56) (fun c => Z.land c 255));
    [apply linear_shiftr, linear_rev8 | apply linear_land, linear_id | by vm_compute].
Qed.

Lemma rev8_shift c : 0 <= c < 2 ^ 64 -> u64 (Z.shiftl (rev8 c) 8) = rev8 (Z.shiftr c 8).
Proof.
  apply (linear_ext 64 (fun c => u64 (Z.shiftl (rev8 c) 8)) (fun c => rev8 (Z.shiftr c 8)));
    [apply linear_u64, linear_shiftl, linear_rev8 | | by vm_compute].
  apply (linear_comp rev8 (fun c => Z.shiftr c 8)); [apply linear_rev8 | apply linear_shiftr, linear_id].
Qed.

Lemma le_val_snoc bs b : le_val (bs ++ [b]) = le_val bs + b * 2 ^ (8 * zlen bs).
Proof.
  induction bs as [|x bs IH]; [change (zlen (@nil Z)) with 0; cbn [app le_val]; lia|].
  rewrite zlen_cons. cbn [app le_val]. rewrite IH.
  replace (8 * (1 + zlen bs)) with (8 + 8 * zlen bs) by lia. pose proof (zlen_nonneg bs).
  rewrite Z.pow_add_r by lia. change (2 ^ 8) with 256. lia.
Qed.

(** A word stored most significant byte first reads as the reversed word. *)
Lemma rev8_bytes n : forall bs,
  (n <= 8)%nat -> length bs = n -> Forall is_byte bs ->
  rev8 (le_val bs) = Z.shiftl (le_val (reverse bs)) (64 - 8 * Z.of_nat n).
Proof.
  induction n as [|n IH]; intros bs Hn Hl Hb.
  { destruct bs; [|done]. reflexivity. }
  destruct (exists_last (l := bs)) as (bs' & b & ->); [by intros ->|].
  rewrite length_app in Hl. cbn [length] in Hl. assert (length bs' = n) as Hl' by lia.
  apply Forall_app in Hb as [Hb' Hb]. apply Forall_cons_1 in Hb as [Hb _]. unfold is_byte in Hb.
  pose proof (le_val_range bs' Hb') as Hr. unfold zlen in Hr. rewrite Hl' in Hr.
  rewrite le_val_snoc, reverse_app. cbn [app reverse rev_append]. unfold zlen. rewrite Hl'.
  change (reverse [b]) with [b]. cbn [app le_val].
  rewrite <- (lor_disjoint (le_val bs') b (8 * Z.of_nat n)) by (lia || exact Hr).
  rewrite <- Z.lxor_lor by (apply land_low_high; [lia | exact Hr]).
  rewrite linear_rev8, IH by (done || lia).
  assert (In (Z.of_nat n) (zseq 8)) as Hin.
  { unfold zseq. apply in_map_iff. exists n. split; [done|]. apply in_seq. lia. }
  assert (rev8 (Z.shiftl b (8 * Z.of_nat n)) = Z.shiftl b (56 - 8 * Z.of_nat n)) as ->.
  { assert (forall k, In k (zseq 8) -> forall b, 0 <= b < 2 ^ Z.of_nat 8 ->
      rev8 (Z.shiftl b (8 * k)) = Z.shiftl b (56 - 8 * k)) as Hk.
    { intros k Hk. apply (linear_ext 8 (fun b => rev8 (Z.shiftl b (8 * k))) (fun b => Z.shiftl b (56 - 8 * k))).
      - apply (linear_comp rev8 (fun b => Z.shiftl b (8 * k))); [apply linear_rev8 | apply linear_shiftl, linear_id].
      - apply linear_shiftl, linear_id.
      - revert k Hk. apply forallb_forall. by vm_compute. }
    apply Hk; [done | exact Hb]. }
  replace (64 - 8 * Z.of_nat (S n)) with (56 - 8 * Z.of_nat n) by lia.
  replace (64 - 8 * Z.of_nat n) with (8 + (56 - 8 * Z.of_nat n)) by lia.
  rewrite <- Z.shiftl_shiftl, <- Z.shiftl_lxor by lia. f_equal.
  replace (b + 256 * le_val (reverse bs')) with (b + le_val (reverse bs') * 2 ^ 8) by (change (2 ^ 8) with 256; lia).
  rewrite <- lor_disjoint by (change (2 ^ 8) with 256; lia).
  rewrite Z.lxor_comm. apply Z.lxor_lor, land_low_high; [lia | change (2 ^ 8) with 256; lia].
Qed.

Definition big_table : crc_table := map (map rev8) spec_table.

Lemma big_tab k n : (k < 8)%nat -> 0 <= n < 256 -> tab big_table (Z.of_nat k) n = Ok (rev8 (steps (8 * S k) n)).
Proof.
  intros Hk Hn. unfold tab, big_table, spec_table.
  rewrite (rd1_lookup _ n (map rev8 (spec_column n)));
    [|lia | by rewrite !list_lookup_fmap, zseq_lookup]. cbn [bindr].
  apply rd1_lookup; [lia|]. unfold spec_column.
  by rewrite Nat2Z.id, !list_lookup_fmap, lookup_seq_lt by done.
Qed.

Lemma big_byte_ok pre b post c :
  is_byte b -> 0 <= c < 2 ^ 64 ->
  big_byte big_table (pre ++ b :: post) (rev8 c) (zlen pre) = Ok (rev8 (steps 8 (Z.lxor c b))).
Proof.
  intros Hb Hc. unfold big_byte. rewrite rd1_mid by done. cbn [bindr]. rewrite rev8_top, rev8_shift by done.
  assert (Z.land b 255 = b) as Eb.
  { change 255 with (Z.ones 8). rewrite Z.land_ones by lia. by apply Z.mod_small. }
  rewrite <- Eb at 1. rewrite <- (linear_land (fun x => x) 255 linear_id).
  rewrite (big_tab 0) by (lia || apply octet_range). cbn [bindr]. apply (f_equal Ok).
  rewrite <- linear_rev8. apply (f_equal rev8). rewrite (steps_split 8 0 (Z.lxor c b)) by done.
  change (steps 0 ?x) with x. rewrite Z.shiftr_lxor.
  assert (Z.shiftr b 8 = 0) as -> by (rewrite Z.shiftr_div_pow2 by lia; by apply Z.div_small).
  by rewrite Z.lxor_0_r.
Qed.

Lemma lxor_8_rev a b c d e f g h :
  Z.lxor (Z.lxor (Z.lxor (Z.lxor (Z.lxor (Z.lxor (Z.lxor h g) f) e) d) c) b) a =
  Z.lxor a (Z.lxor b (Z.lxor c (Z.lxor d (Z.lxor e (Z.lxor f (Z.lxor g h)))))).
Proof.
  rewrite (Z.lxor_comm h g), (Z.lxor_comm _ f), (Z.lxor_comm _ e), (Z.lxor_comm _ d), (Z.lxor_comm _ c),
    (Z.lxor_comm _ b), (Z.lxor_comm _ a). reflexivity.
Qed.

Lemma big_word_ok buf c i :
  Forall is_byte buf -> 0 <= c < 2 ^ 64 -> 0 <= i -> i + 8 <= zlen buf ->
  big_word big_table buf (rev8 c) i = Ok (rev8 (crc_ref c (seg buf i 8))).
Proof.
  intros Hb Hc Hi Hl. unfold big_word. rewrite rdn_seg by lia. cbn [bindr].
  pose proof (seg_bytes buf i 8 Hb) as Hs.
  pose proof (seg_length buf i 8 Hi ltac:(lia) Hl) as Hlen. change (Z.to_nat 8) with 8%nat in Hlen.
  assert (le_val (reverse (seg buf i 8)) = rev8 (le_val (seg buf i 8))) as ->.
  { rewrite (rev8_bytes 8) by done. by rewrite Z.shiftl_0_r. }
  rewrite <- linear_rev8.
  pose proof (le_val_range _ Hs) as Hv. unfold zlen in Hv. rewrite Hlen in Hv.
  set (x := Z.lxor c (le_val (seg buf i 8))).
  assert (0 <= x < 2 ^ 64) as Hx by (apply lxor_range; [lia | done | exact Hv]).
  rewrite crc_ref_word, Hlen by done. fold x. change (8 * 8)%nat with 64%nat.
  assert (forall k i j, In k (zseq 8) -> i = 8 * k -> j = 56 - 8 * k ->
            Z.land (Z.shiftr (rev8 x) i) 255 = Z.land (Z.shiftr x j) 255) as Ho
    by (intros k i' j Hk -> ->; by apply rev8_octet).
  assert (Z.land (rev8 x) 255 = Z.shiftr x 56) as ->.
  { rewrite <- (Z.shiftr_0_r (rev8 x)), (Ho 0 0 56) by (done || by left). change 255 with (Z.ones 8). rewrite Z.land_ones by lia.
    apply Z.mod_small. by apply (shiftr_range x 56 8). }
  rewrite (Ho 1 8 48), (Ho 2 16 40), (Ho 3 24 32), (Ho 4 32 24), (Ho 5 40 16), (Ho 6 48 8), rev8_top
    by (done || (cbn; tauto)).
  rewrite (big_tab 0) by (lia || by apply (shiftr_range x 56 8)).
  rewrite (big_tab 1), (big_tab 2), (big_tab 3), (big_tab 4), (big_tab 5), (big_tab 6), (big_tab 7)
    by (lia || apply octet_range).
  cbn [bindr]. apply (f_equal Ok). rewrite <- !linear_rev8. apply (f_equal rev8).
  rewrite (steps_64 x Hx). apply lxor_8_rev.
Qed.

Lemma crc_ref_one c b : crc_ref c [b] = steps 8 (Z.lxor c b).
Proof. reflexivity. Qed.

Section big.
Variable buf : list Z.
Hypothesis buf_bytes : Forall is_byte buf.
Variable crc0 : Z.
Hypothesis crc0_word : 0 <= crc0 < 2 ^ 64.

Abbreviation reach := (reached buf crc0).

Lemma big_bytes_ok addr al fuel : forall c next len,
  reach c next len -> len <= Z.of_nat fuel ->
  exists c' next' len', big_bytes addr fuel big_table buf al (rev8 c) next len = Ok (rev8 c', next', len') /\
    reach c' next' len' /\ (al = true -> len' = 0).
Proof.
  induction fuel as [|fuel IH]; intros c next len Hr Hf; cbn [big_bytes].
  all: pose proof Hr as (Hn & Hl & Hz & _); pose proof (reached_word buf buf_bytes crc0 crc0_word _ _ _ Hr) as Hw.
  - replace len with 0 in * by lia. cbn [Z.eqb negb andb]. by exists c, next, 0.
  - destruct (Z.eqb_spec len 0) as [E|Hne]; cbn [negb andb]; [by exists c, next, len|].
    destruct (al || _) eqn:Ea; [|exists c, next, len; split_and!; [done.. | by intros ->]].
    destruct (lookup_lt_is_Some_2 buf (Z.to_nat next)) as [b Hb]; [unfold zlen in Hz; lia|].
    assert (is_byte b) as Hbb by (by eapply list.Forall_lookup_1).
    assert (big_byte big_table buf (rev8 c) next = Ok (rev8 (steps 8 (Z.lxor c b)))) as ->.
    { rewrite <- (take_drop_middle buf (Z.to_nat next) b Hb) at 1.
      assert (zlen (take (Z.to_nat next) buf) = next) as Hp by (apply zlen_take; lia).
      rewrite <- Hp at 3. by apply big_byte_ok. }
    cbn [bindr].
    assert (seg buf next 1 = [b]) as Hseg.
    { unfold seg. rewrite (drop_S buf b) by done. reflexivity. }
    pose proof (reached_next buf crc0 _ _ _ 1 Hr ltac:(lia)) as Hr'. rewrite Hseg in Hr'.
    rewrite crc_ref_one in Hr'.
    destruct (IH _ _ _ Hr' ltac:(lia)) as (c' & n' & l' & E' & Hr2 & Hal). by exists c', n', l'.
Qed.

Lemma big_words_ok fuel : forall c next len,
  reach c next len -> len <= 8 * Z.of_nat fuel + 7 ->
  exists c' next' len', big_words fuel big_table buf (rev8 c) next len = Ok (rev8 c', next', len') /\
    reach c' next' len'.
Proof.
  induction fuel as [|fuel IH]; intros c next len Hr Hf; cbn [big_words]; rewrite Z.geb_leb.
  all: pose proof Hr as (Hn & Hl & Hz & _); pose proof (reached_word buf buf_bytes crc0 crc0_word _ _ _ Hr) as Hw.
  - rewrite (proj2 (Z.leb_gt 8 len)) by lia. by exists c, next, len.
  - destruct (Z.leb_spec 8 len); [|by exists c, next, len].
    rewrite big_word_ok by (done || lia). cbn [bindr].
    pose proof (reached_next buf crc0 _ _ _ 8 Hr ltac:(lia)) as Hr'. apply (IH _ _ _ Hr'). lia.
Qed.

Lemma crcspeed64big_ok addr : crcspeed64big addr big_table crc0 buf = Ok (crc_ref crc0 buf).
Proof.
  unfold crcspeed64big.
  assert (reach crc0 0 (zlen buf)) as H0.
  { pose proof (zlen_nonneg buf). split; [lia|]. split; [lia|]. by split. }
  destruct (big_bytes_ok addr false (length buf) _ _ _ H0) as (c1 & n1 & l1 & -> & Hr1 & _); [unfold zlen; lia|].
  cbn [bindr]. pose proof Hr1 as (Hn1 & Hl1 & Hz1 & _).
  destruct (big_words_ok (length buf) _ _ _ Hr1) as (c2 & n2 & l2 & -> & Hr2); [unfold zlen in Hz1; lia|].
  cbn [bindr]. pose proof Hr2 as (Hn2 & Hl2 & Hz2 & _).
  destruct (big_bytes_ok addr true (length buf) _ _ _ Hr2) as (c3 & n3 & l3 & -> & Hr3 & Hend); [unfold zlen in Hz2; lia|].
  cbn [bindr]. rewrite rev8_involutive by (by eapply reached_word).
  destruct Hr3 as (_ & _ & Hz & ->). rewrite (Hend eq_refl), Z.add_0_r in Hz. by rewrite Hz, seg_all.
Qed.
End big.

(** * Properties *)

Lemma crcspeed64big_init_ok : crcspeed64big_init _crc64 = Ok big_table.
Proof.
  unfold crcspeed64big_init, big_table. rewrite crcspeed64little_init_ok.
  exact (bindr_ret spec_table (fun table => Ok (map (map rev8) table))).
Qed.

Lemma crc64_ok {host : HostEndian} tri dual addr table cache crc s :
  crc64_init = Ok table -> cache_ok cache -> 0 <= crc < 2 ^ 64 -> Forall is_byte s -> zlen s < 2 ^ 63 ->
  exists cache', crc64 tri dual addr table cache crc s = Ok (crc_ref crc s, cache') /\ cache_ok cache'.
Proof.
  intros Ht Hca Hc Hb Hz. unfold crc64_init, crcspeed64native_init in Ht.
  unfold crc64, crcspeed64native. destruct host_is_be.
  - rewrite crcspeed64big_init_ok in Ht. apply Ok_inj in Ht. subst table.
    rewrite (crcspeed64big_ok s Hb crc Hc addr), bindr_ret. by exists cache.
  - rewrite crcspeed64little_init_ok in Ht. apply Ok_inj in Ht. subst table.
    exact (crcspeed64little_ok s Hb Hz crc Hc tri dual addr cache Hca).
Qed.

Lemma cache_ok0 : cache_ok combine_cache0.
Proof.
  split; [|right; by exists (repeat 0 64)]. split; [reflexivity|].
  apply list.Forall_forall. intros row Hrow. unfold combine_cache0 in Hrow.
  apply list_elem_of_In, repeat_spec in Hrow. by subst row.
Qed.

(** C16: the checksum routine in use equals the bit-by-bit one.  With the tables
    crc64_init builds, on hosts of either byte order, for every buffer, every
    alignment of it, every setting of the two cutoffs and whatever state the
    matrix cache is in, crc64 returns the value of _crc64 on the same bytes
    (started from the reflected register) and leaves the cache usable. *)
Theorem crc64_correct {host : HostEndian} tri dual addr table cache crc s :
  crc64_init = Ok table -> cache_ok cache -> 0 <= crc < 2 ^ 64 -> Forall is_byte s -> zlen s < 2 ^ 63 ->
  exists r v cache',
    crc_reflect crc 64 = Ok r /\ _crc64 r s = Ok v /\
    crc64 tri dual addr table cache crc s = Ok (v, cache') /\ cache_ok cache'.
Proof.
  intros Ht Hca Hc Hb Hz.
  destruct (crc64_ok tri dual addr table cache crc s Ht Hca Hc Hb Hz) as (cache' & E & Hca').
  exists (reflect64 crc), (crc_ref crc s), cache'.
  split; [apply crc_reflect_ok|]. split; [by apply crc64_ref_ok|]. by split.
Qed.

Lemma crc64_correct_witness :
  exists table r v cache',
    crc64_init (host := false) = Ok table /\ crc_reflect 0 64 = Ok r /\
    _crc64 r [49; 50; 51; 52; 53; 54; 55; 56; 57] = Ok v /\
    crc64 (host := false) 4 2 3 table combine_cache0 0 [49; 50; 51; 52; 53; 54; 55; 56; 57] = Ok (v, cache').
Proof.
  destruct (crc64_correct (host := false) 4 2 3 spec_table combine_cache0 0 [49; 50; 51; 52; 53; 54; 55; 56; 57])
    as (r & v & cache' & Hr & Hv & Hc & _).
  - exact crcspeed64little_init_ok.
  - exact cache_ok0.
  - lia.
  - repeat constructor; unfold is_byte; lia.
  - reflexivity.
  - exists spec_table, r, v, cache'. split; [exact crcspeed64little_init_ok|]. split; [exact Hr|].
    split; [exact Hv | exact Hc].
Defined.
