(* ===== verification/Slot.v ===== *)
(** Slot: the hash slot of a key and of a pattern, from crc16.c, cluster.h
    (keyHashSlot) and cluster.c (patternHashSlot) of src/redis-stable/src.

    The reference for the checksum is the polynomial definition of CRC-16/XMODEM:
    the remainder of the message, shifted by 16, by x^16 + x^12 + x^5 + 1 over
    the field of two elements.  The reference for the hashed part is the
    documented one: what is between the first opening brace and the first
    closing brace after it when that is not empty, the whole key otherwise.

    Theorems: keyHashSlot computes the low 14 bits of that remainder of that
    part; a slot patternHashSlot gives for a pattern is the slot of every key
    the glob matcher accepts.  Lengths are of type int in the code; the indices
    never exceed the length, so they are plain integers here. *)

From Stdlib Require Import ZArith Lia Bool.
From stdpp Require Import base list numbers decidable sets.
From S2P Require Import Prelude Bytes Glob Crc CrcProofs.

Local Open Scope Z_scope.

(** * The code *)

Definition crc16tab : list Z :=
  [0x0000; 0x1021; 0x2042; 0x3063; 0x4084; 0x50a5; 0x60c6; 0x70e7;
   0x8108; 0x9129; 0xa14a; 0xb16b; 0xc18c; 0xd1ad; 0xe1ce; 0xf1ef;
   0x1231; 0x0210; 0x3273; 0x2252; 0x52b5; 0x4294; 0x72f7; 0x62d6;
   0x9339; 0x8318; 0xb37b; 0xa35a; 0xd3bd; 0xc39c; 0xf3ff; 0xe3de;
   0x2462; 0x3443; 0x0420; 0x1401; 0x64e6; 0x74c7; 0x44a4; 0x5485;
   0xa56a; 0xb54b; 0x8528; 0x9509; 0xe5ee; 0xf5cf; 0xc5ac; 0xd58d;
   0x3653; 0x2672; 0x1611; 0x0630; 0x76d7; 0x66f6; 0x5695; 0x46b4;
   0xb75b; 0xa77a; 0x9719; 0x8738; 0xf7df; 0xe7fe; 0xd79d; 0xc7bc;
   0x48c4; 0x58e5; 0x6886; 0x78a7; 0x0840; 0x1861; 0x2802; 0x3823;
   0xc9cc; 0xd9ed; 0xe98e; 0xf9af; 0x8948; 0x9969; 0xa90a; 0xb92b;
   0x5af5; 0x4ad4; 0x7ab7; 0x6a96; 0x1a71; 0x0a50; 0x3a33; 0x2a12;
   0xdbfd; 0xcbdc; 0xfbbf; 0xeb9e; 0x9b79; 0x8b58; 0xbb3b; 0xab1a;
   0x6ca6; 0x7c87; 0x4ce4; 0x5cc5; 0x2c22; 0x3c03; 0x0c60; 0x1c41;
   0xedae; 0xfd8f; 0xcdec; 0xddcd; 0xad2a; 0xbd0b; 0x8d68; 0x9d49;
   0x7e97; 0x6eb6; 0x5ed5; 0x4ef4; 0x3e13; 0x2e32; 0x1e51; 0x0e70;
   0xff9f; 0xefbe; 0xdfdd; 0xcffc; 0xbf1b; 0xaf3a; 0x9f59; 0x8f78;
   0x9188; 0x81a9; 0xb1ca; 0xa1eb; 0xd10c; 0xc12d; 0xf14e; 0xe16f;
   0x1080; 0x00a1; 0x30c2; 0x20e3; 0x5004; 0x4025; 0x7046; 0x6067;
   0x83b9; 0x9398; 0xa3fb; 0xb3da; 0xc33d; 0xd31c; 0xe37f; 0xf35e;
   0x02b1; 0x1290; 0x22f3; 0x32d2; 0x4235; 0x5214; 0x6277; 0x7256;
   0xb5ea; 0xa5cb; 0x95a8; 0x8589; 0xf56e; 0xe54f; 0xd52c; 0xc50d;
   0x34e2; 0x24c3; 0x14a0; 0x0481; 0x7466; 0x6447; 0x5424; 0x4405;
   0xa7db; 0xb7fa; 0x8799; 0x97b8; 0xe75f; 0xf77e; 0xc71d; 0xd73c;
   0x26d3; 0x36f2; 0x0691; 0x16b0; 0x6657; 0x7676; 0x4615; 0x5634;
   0xd94c; 0xc96d; 0xf90e; 0xe92f; 0x99c8; 0x89e9; 0xb98a; 0xa9ab;
   0x5844; 0x4865; 0x7806; 0x6827; 0x18c0; 0x08e1; 0x3882; 0x28a3;
   0xcb7d; 0xdb5c; 0xeb3f; 0xfb1e; 0x8bf9; 0x9bd8; 0xabbb; 0xbb9a;
   0x4a75; 0x5a54; 0x6a37; 0x7a16; 0x0af1; 0x1ad0; 0x2ab3; 0x3a92;
   0xfd2e; 0xed0f; 0xdd6c; 0xcd4d; 0xbdaa; 0xad8b; 0x9de8; 0x8dc9;
   0x7c26; 0x6c07; 0x5c64; 0x4c45; 0x3ca2; 0x2c83; 0x1ce0; 0x0cc1;
   0xef1f; 0xff3e; 0xcf5d; 0xdf7c; 0xaf9b; 0xbfba; 0x8fd9; 0x9ff8;
   0x6e17; 0x7e36; 0x4e55; 0x5e74; 0x2e93; 0x3eb2; 0x0ed1; 0x1ef0].

Fixpoint crc16_loop (crc : Z) (buf : list Z) : result Z :=
  match buf with
  | [] => Ok crc
  | b :: buf =>
      let* t := rd1 crc16tab (Z.land (Z.lxor (Z.shiftr crc 8) (schar b)) 0x00FF) in
      crc16_loop (u16 (Z.lxor (Z.shiftl crc 8) t)) buf
  end.

Definition crc16 (buf : list Z) : result Z := crc16_loop 0 buf.

Abbreviation ch_lbrace := 123.
Abbreviation ch_rbrace := 125.

(** [for (; i < keylen; i++) if (key[i] == c) break;] *)
Fixpoint scan_for (c : Z) (fuel : nat) (key : list Z) (i : Z) : result Z :=
  if i <? zlen key then
    match fuel with
    | O => Err OutOfFuel
    | S fuel =>
        let* b := rd1 key i in
        if b =? c then Ok i else scan_for c fuel key (i + 1)
    end
  else Ok i.

Definition slot_of (buf : list Z) : result Z :=
  let* crc := crc16 buf in
  Ok (Z.land crc 0x3FFF).

Definition keyHashSlot (key : list Z) : result Z :=
  let keylen := zlen key in
  let* s := scan_for ch_lbrace (length key) key 0 in
  if s =? keylen then slot_of key else
  let* e := scan_for ch_rbrace (length key) key (s + 1) in
  if (e =? keylen) || (e =? s + 1) then slot_of key else
  let* tag := rdn key (s + 1) (e - s - 1) in
  slot_of tag.

Fixpoint pattern_loop (fuel : nat) (pattern : list Z) (i s : Z) : result Z :=
  if i <? zlen pattern then
    match fuel with
    | O => Err OutOfFuel
    | S fuel =>
        let* a := rd1 pattern i in
        if (a =? ch_star) || (a =? ch_quest) || (a =? ch_lbrack) then Ok (-1)
        else if a =? ch_backslash then Ok (-1)
        else if (s =? -1) && (a =? ch_lbrace) then pattern_loop fuel pattern (i + 1) i
        else if (0 <=? s) && (a =? ch_rbrace) && (i =? s + 1) then pattern_loop fuel pattern (i + 1) (-2)
        else if (0 <=? s) && (a =? ch_rbrace) then
          let* tag := rdn pattern (s + 1) (i - s - 1) in
          slot_of tag
        else pattern_loop fuel pattern (i + 1) s
    end
  else slot_of pattern.

Definition patternHashSlot (pattern : list Z) : result Z :=
  pattern_loop (length pattern) pattern 0 (-1).

(** * Reference definitions *)

(** The generator of CRC-16/XMODEM. *)
Definition xmodem_poly : Z := 0x11021.

(** The polynomials over two elements that it divides. *)
Inductive divisible : Z -> Prop :=
  | div_zero : divisible 0
  | div_add m k : 0 <= k -> divisible m -> divisible (Z.lxor m (Z.shiftl xmodem_poly k)).

(** The message as a polynomial, first byte first, high bit first. *)
Definition message (bs : list Z) : Z := fold_left (fun m b => Z.lxor (Z.shiftl m 8) b) bs 0.

(** [r] is the remainder of the shifted message. *)
Definition xmodem (bs : list Z) (r : Z) : Prop :=
  0 <= r < 2 ^ 16 /\ divisible (Z.lxor (Z.shiftl (message bs) 16) r).

(** The part of a key that is hashed. *)
Inductive hash_part : list Z -> list Z -> Prop :=
  | hash_tag pre tag post :
      ch_lbrace ∉ pre -> tag <> [] -> ch_rbrace ∉ tag ->
      hash_part (pre ++ ch_lbrace :: tag ++ ch_rbrace :: post) tag
  | hash_whole key :
      (forall pre tag post, key = pre ++ ch_lbrace :: tag ++ ch_rbrace :: post ->
        ch_lbrace ∉ pre -> ch_rbrace ∉ tag -> tag = []) ->
      hash_part key key.

(** * The checksum *)

(** Divide from the top: the bits 16+n-1 .. 16. *)
Fixpoint red (n : nat) (x : Z) : Z :=
  match n with
  | O => x
  | S n => red n (if Z.testbit x (16 + Z.of_nat n) then Z.lxor x (Z.shiftl xmodem_poly (Z.of_nat n)) else x)
  end.

Lemma div_lxor a b : divisible a -> divisible b -> divisible (Z.lxor a b).
Proof.
  intros Ha Hb. induction Hb as [|m k Hk _ IH]; [by rewrite Z.lxor_0_r|].
  rewrite <- Z.lxor_assoc. by constructor.
Qed.

Lemma div_shiftl a j : 0 <= j -> divisible a -> divisible (Z.shiftl a j).
Proof.
  intros Hj. induction 1 as [|m k Hk _ IH]; [rewrite Z.shiftl_0_l; constructor|].
  rewrite Z.shiftl_lxor, Z.shiftl_shiftl by done. constructor; [lia | done].
Qed.

Lemma red_div n : forall x, divisible (Z.lxor x (red n x)).
Proof.
  induction n as [|n IH]; intros x; cbn [red]; [rewrite Z.lxor_nilpotent; constructor|].
  destruct (Z.testbit _ _); [|apply IH].
  set (p := Z.shiftl xmodem_poly (Z.of_nat n)). specialize (IH (Z.lxor x p)).
  replace (Z.lxor x (red n (Z.lxor x p))) with (Z.lxor (Z.lxor (Z.lxor x p) (red n (Z.lxor x p))) p).
  - constructor; [lia | done].
  - apply Z.bits_inj'. intros i _. rewrite !Z.lxor_spec.
    by destruct (Z.testbit x i), (Z.testbit p i), (Z.testbit (red n (Z.lxor x p)) i).
Qed.

Lemma red_linear n : linear (red n).
Proof.
  induction n as [|n IH]; [apply linear_id|]. intros a b. cbn [red]. rewrite Z.lxor_spec.
  set (p := Z.shiftl xmodem_poly (Z.of_nat n)).
  destruct (Z.testbit a _), (Z.testbit b _); cbn [xorb]; rewrite <- IH; f_equal;
    apply Z.bits_inj'; intros i _; rewrite ?Z.lxor_spec;
    by destruct (Z.testbit a i), (Z.testbit b i), (Z.testbit p i).
Qed.

Lemma high_bit_clear x i : 0 <= x < 2 ^ i -> 0 <= i -> Z.testbit x i = false.
Proof.
  intros Hx Hi. destruct (Z.eq_dec x 0) as [->|]; [apply Z.bits_0|].
  apply Z.bits_above_log2; [lia | apply Z.log2_lt_pow2; lia].
Qed.

Lemma red_small n : forall x, 0 <= x < 2 ^ 16 -> red n x = x.
Proof.
  induction n as [|n IH]; intros x Hx; [done|]. cbn [red].
  rewrite high_bit_clear; [by apply IH | | lia].
  pose proof (Z.pow_le_mono_r 2 16 (16 + Z.of_nat n)). lia.
Qed.

Lemma red_multiple n k : 0 <= k < Z.of_nat n -> red n (Z.shiftl xmodem_poly k) = 0.
Proof.
  induction n as [|n IH]; intros Hk; [lia|]. cbn [red]. rewrite Z.shiftl_spec by lia.
  destruct (Z.eq_dec k (Z.of_nat n)) as [->|].
  - replace (16 + Z.of_nat n - Z.of_nat n) with 16 by lia.
    change (Z.testbit xmodem_poly 16) with true. cbv iota. rewrite Z.lxor_nilpotent.
    by apply red_small.
  - rewrite high_bit_clear; [apply IH; lia | | lia].
    pose proof (Z.pow_le_mono_r 2 17 (16 + Z.of_nat n - k)).
    assert (xmodem_poly < 2 ^ 17) by done. unfold xmodem_poly in *. lia.
Qed.

Lemma divisible_red m : divisible m -> exists N, forall n, (N <= n)%nat -> red n m = 0.
Proof.
  induction 1 as [|m k Hk _ [N IH]].
  - exists 0%nat. intros n _. by apply red_small.
  - exists (N + S (Z.to_nat k))%nat. intros n Hn.
    rewrite red_linear, IH, red_multiple by lia. done.
Qed.

(** The remainder is unique. *)
Lemma xmodem_unique bs r r' : xmodem bs r -> xmodem bs r' -> r = r'.
Proof.
  intros [Hr Hd] [Hr' Hd']. apply Z.lxor_eq.
  assert (divisible (Z.lxor r r')) as H.
  { rewrite <- (Z.lxor_0_l (Z.lxor r r')), <- (Z.lxor_nilpotent (Z.shiftl (message bs) 16)), lxor_4.
    by apply div_lxor. }
  destruct (divisible_red _ H) as [N HN].
  rewrite <- (red_small N (Z.lxor r r')) by (apply (lxor_range 16); lia). by apply HN.
Qed.

Definition table_entry_ok (h : Z) : bool :=
  match rd1 crc16tab h with
  | Ok t => (t =? red 8 (Z.shiftl h 16)) && (0 <=? t) && (t <? 2 ^ 16)
  | Err _ => false
  end.

Lemma crc16tab_ok h : 0 <= h < 256 ->
  exists t, rd1 crc16tab h = Ok t /\ 0 <= t < 2 ^ 16 /\ divisible (Z.lxor (Z.shiftl h 16) t).
Proof.
  intros Hh. assert (forallb table_entry_ok (zseq 256) = true) as Hall by (vm_compute; reflexivity).
  rewrite forallb_forall in Hall. specialize (Hall h).
  assert (table_entry_ok h = true) as H.
  { apply Hall, list_elem_of_In. apply (list_elem_of_lookup_2 _ (Z.to_nat h)). by apply zseq_lookup. }
  unfold table_entry_ok in H. destruct (rd1 crc16tab h) as [t|]; [|done]. exists t. split; [done|].
  apply andb_true_iff in H as [[->%Z.eqb_eq ?%Z.leb_le]%andb_true_iff ?%Z.ltb_lt].
  split; [lia | apply red_div].
Qed.

Lemma table_index crc b :
  0 <= crc < 2 ^ 16 -> is_byte b ->
  Z.land (Z.lxor (Z.shiftr crc 8) (schar b)) 255 = Z.lxor (Z.shiftr crc 8) b.
Proof.
  intros Hc Hb. rewrite !(Z.land_comm _ 255).
  assert (Z.land 255 (Z.shiftr crc 8) = Z.shiftr crc 8) as E1.
  { rewrite Z.land_comm. change 255 with (Z.ones 8). rewrite Z.land_ones by done.
    apply Z.mod_small, shiftr_range; try lia. }
  assert (Z.land 255 (schar b) = b) as E2.
  { rewrite Z.land_comm. change 255 with (Z.ones 8). rewrite Z.land_ones by done.
    change (wrapU 8 (wrapS 8 b) = b). rewrite wrapU_wrapS by done. by apply wrapU_small. }
  transitivity (Z.lxor (Z.land 255 (Z.shiftr crc 8)) (Z.land 255 (schar b))); [|by rewrite E1, E2].
  apply Z.bits_inj'. intros i _. rewrite ?Z.land_spec, ?Z.lxor_spec, ?Z.land_spec.
  by destruct (Z.testbit 255 i), (Z.testbit (Z.shiftr crc 8) i), (Z.testbit (schar b) i).
Qed.

Lemma crc16_byte_step crc t :
  0 <= crc < 2 ^ 16 -> 0 <= t < 2 ^ 16 ->
  u16 (Z.lxor (Z.shiftl crc 8) t) = Z.lxor (Z.lxor (Z.shiftl crc 8) (Z.shiftl (Z.shiftr crc 8) 16)) t.
Proof.
  intros Hc Ht. unfold wrapU. rewrite <- Z.land_ones by done.
  apply Z.bits_inj'. intros i Hi. rewrite Z.land_spec, !Z.lxor_spec, !Z.shiftl_spec by done.
  destruct (Z.lt_ge_cases i 16).
  - rewrite Z.ones_spec_low, (Z.testbit_neg_r _ (i - 16)), andb_true_r, xorb_false_r by lia. done.
  - rewrite Z.ones_spec_high, andb_false_r, Z.shiftr_spec by lia.
    replace (i - 16 + 8) with (i - 8) by lia.
    rewrite xorb_nilpotent, (high_bit_clear t i); [done | | lia].
    pose proof (Z.pow_le_mono_r 2 16 i). lia.
Qed.

Lemma crc16_loop_ok buf : forall crc m,
  Forall is_byte buf -> 0 <= crc < 2 ^ 16 -> divisible (Z.lxor (Z.shiftl m 16) crc) ->
  exists r, crc16_loop crc buf = Ok r /\ 0 <= r < 2 ^ 16 /\
    divisible (Z.lxor (Z.shiftl (fold_left (fun m b => Z.lxor (Z.shiftl m 8) b) buf m) 16) r).
Proof.
  induction buf as [|b buf IH]; intros crc m Hbs Hc Hm; [by exists crc|].
  apply Forall_cons_1 in Hbs as [Hb Hbs]. cbn [crc16_loop fold_left].
  rewrite table_index by done.
  destruct (crc16tab_ok (Z.lxor (Z.shiftr crc 8) b)) as (t & -> & Ht & Hd).
  { apply (lxor_range 8); [done | apply shiftr_range; lia | done]. }
  cbn [bindr]. apply IH; [done | apply wrapU_range; lia|].
  rewrite crc16_byte_step by done. rewrite !Z.shiftl_lxor in *. rewrite Z.shiftl_shiftl in * by lia.
  apply (div_lxor (Z.shiftl (Z.lxor (Z.shiftl m 16) crc) 8)) in Hd; [|by apply div_shiftl].
  rewrite Z.shiftl_lxor, Z.shiftl_shiftl in Hd by lia.
  replace (8 + 16) with (16 + 8) by done.
  set (c8 := Z.shiftl crc 8) in *. set (b16 := Z.shiftl b 16) in *.
  set (h16 := Z.shiftl (Z.shiftr crc 8) 16) in *. set (m24 := Z.shiftl m (16 + 8)) in *.
  match type of Hd with divisible ?v => match goal with |- divisible ?w => enough (w = v) as -> by exact Hd end end.
  apply Z.bits_inj'. intros i _. rewrite !Z.lxor_spec.
  by destruct (Z.testbit c8 i), (Z.testbit b16 i), (Z.testbit h16 i), (Z.testbit m24 i), (Z.testbit t i).
Qed.

Lemma crc16_xmodem buf : Forall is_byte buf -> exists r, crc16 buf = Ok r /\ xmodem buf r.
Proof.
  intros Hb. destruct (crc16_loop_ok buf 0 0 Hb) as (r & E & Hr & Hd); [lia | constructor | by exists r].
Qed.

(** * The hashed part *)

Lemma scan_for_ok c key mid : forall pre rest fuel,
  key = pre ++ mid ++ rest -> c ∉ mid -> (rest = [] \/ exists r, rest = c :: r) ->
  (length mid + length rest <= fuel)%nat ->
  scan_for c fuel key (zlen pre) = Ok (zlen pre + zlen mid).
Proof.
  induction mid as [|b mid IH]; intros pre rest fuel -> Hc Hr Hf.
  - change (zlen (@nil Z)) with 0. rewrite Z.add_0_r. destruct Hr as [->|[r ->]].
    + destruct fuel; cbn [scan_for]; rewrite !app_nil_r, (proj2 (Z.ltb_ge _ _)) by lia; done.
    + destruct fuel as [|fuel]; [cbn in Hf; lia|]. cbn [scan_for app].
      rewrite zlen_app, zlen_cons, (proj2 (Z.ltb_lt _ _)), rd1_mid by (pose proof (zlen_nonneg r); lia || done).
      cbn [bindr]. by rewrite Z.eqb_refl.
  - destruct fuel as [|fuel]; [cbn in Hf; lia|]. apply not_elem_of_cons in Hc as [Hb Hc].
    cbn [scan_for app]. rewrite zlen_app, zlen_cons, (proj2 (Z.ltb_lt _ _)), rd1_mid
      by (pose proof (zlen_nonneg (mid ++ rest)); lia || done).
    cbn [bindr]. rewrite (proj2 (Z.eqb_neq _ _)) by congruence.
    replace (zlen pre + 1) with (zlen (pre ++ [b])) by (by rewrite zlen_app).
    rewrite (IH (pre ++ [b]) rest); [rewrite zlen_app, !zlen_cons; change (zlen (@nil Z)) with 0; f_equal; lia | | done | done | cbn in Hf; lia].
    by rewrite <- app_assoc.
Qed.

Lemma scan_for_start c mid rest :
  c ∉ mid -> (rest = [] \/ exists r, rest = c :: r) ->
  scan_for c (length (mid ++ rest)) (mid ++ rest) 0 = Ok (zlen mid).
Proof.
  intros Hc Hr. apply (scan_for_ok c (mid ++ rest) mid [] rest); [done.. | rewrite length_app; lia].
Qed.

(** A list without [c], or split at its first [c]. *)
Lemma first_split c (l : list Z) : c ∉ l \/ exists a b, l = a ++ c :: b /\ c ∉ a.
Proof.
  destruct (decide (c ∈ l)) as [H|]; [right | by left].
  apply list_elem_of_split_l in H as (a & b & -> & H). eauto.
Qed.

Lemma split_unique c (a a' b b' : list Z) :
  c ∉ a -> c ∉ a' -> a ++ c :: b = a' ++ c :: b' -> a = a' /\ b = b'.
Proof.
  revert a'. induction a as [|x a IH]; intros [|x' a'] Ha Ha' E; cbn in E.
  - by injection E as ->.
  - injection E as <- _. set_solver.
  - injection E as -> _. set_solver.
  - injection E as -> E. apply IH in E as [-> ->]; [done | set_solver..].
Qed.

Lemma keyHashSlot_tag pre tag post :
  ch_lbrace ∉ pre -> tag <> [] -> ch_rbrace ∉ tag ->
  keyHashSlot (pre ++ ch_lbrace :: tag ++ ch_rbrace :: post) = slot_of tag.
Proof.
  intros Hp Hne Ht. set (key := pre ++ _). unfold keyHashSlot.
  unfold key at 1 2. rewrite scan_for_start, bindr_ret by eauto. fold key.
  assert (zlen key = zlen pre + 1 + zlen tag + 1 + zlen post) as Hk
    by (unfold key; rewrite zlen_app, zlen_cons, zlen_app, zlen_cons; lia).
  pose proof (zlen_nonneg post). pose proof (zlen_nonneg tag).
  assert (0 < zlen tag) by (destruct tag; [done | rewrite zlen_cons; pose proof (zlen_nonneg tag); lia]).
  rewrite (proj2 (Z.eqb_neq _ _)) by lia.
  replace (zlen pre + 1) with (zlen (pre ++ [ch_lbrace])) by (by rewrite zlen_app).
  rewrite (scan_for_ok ch_rbrace key tag (pre ++ [ch_lbrace]) (ch_rbrace :: post));
    [| unfold key; by rewrite <- app_assoc | done | eauto | unfold zlen in Hk; cbn [length]; lia].
  rewrite bindr_ret, zlen_app. change (zlen [ch_lbrace]) with 1. rewrite !(proj2 (Z.eqb_neq _ _)) by lia.
  cbn [orb]. assert (key = (pre ++ [ch_lbrace]) ++ tag ++ ch_rbrace :: post) as ->
    by (unfold key; by rewrite <- app_assoc).
  rewrite rdn_mid; [done | by rewrite zlen_app | lia].
Qed.

Lemma keyHashSlot_whole key :
  (forall pre tag post, key = pre ++ ch_lbrace :: tag ++ ch_rbrace :: post ->
     ch_lbrace ∉ pre -> ch_rbrace ∉ tag -> tag = []) ->
  keyHashSlot key = slot_of key.
Proof.
  intros Hall. unfold keyHashSlot. destruct (first_split ch_lbrace key) as [Hno|(pre & post & E & Hp)].
  - pose proof (scan_for_start ch_lbrace key [] Hno (or_introl eq_refl)) as Hs. rewrite app_nil_r in Hs.
    by rewrite Hs, bindr_ret, Z.eqb_refl.
  - pose proof (scan_for_start ch_lbrace pre (ch_lbrace :: post) Hp ltac:(eauto)) as Hs. rewrite <- E in Hs.
    rewrite Hs, bindr_ret.
    assert (zlen key = zlen pre + 1 + zlen post) as Hk by (rewrite E, zlen_app, zlen_cons; lia).
    pose proof (zlen_nonneg post). rewrite (proj2 (Z.eqb_neq _ _)) by lia.
    replace (zlen pre + 1) with (zlen (pre ++ [ch_lbrace])) by (by rewrite zlen_app).
    destruct (first_split ch_rbrace post) as [Hno|(tag & post' & -> & Ht)].
    + rewrite (scan_for_ok ch_rbrace key post (pre ++ [ch_lbrace]) []);
        [| by rewrite app_nil_r, E, <- app_assoc | done | by left | unfold zlen in Hk; cbn [length]; lia].
      rewrite bindr_ret, zlen_app. change (zlen [ch_lbrace]) with 1.
      by rewrite (proj2 (Z.eqb_eq _ (zlen key))) by lia.
    + assert (tag = []) as -> by exact (Hall pre tag post' E Hp Ht).
      rewrite (scan_for_ok ch_rbrace key [] (pre ++ [ch_lbrace]) (ch_rbrace :: post'));
        [| by rewrite E, <- app_assoc | set_solver | eauto | rewrite E, length_app; cbn; lia].
      change (zlen (@nil Z)) with 0. rewrite Z.add_0_r, bindr_ret, zlen_app, Z.eqb_refl.
      by rewrite orb_true_r.
Qed.

Lemma keyHashSlot_part key part : hash_part key part -> keyHashSlot key = slot_of part.
Proof. destruct 1; [by apply keyHashSlot_tag | by apply keyHashSlot_whole]. Qed.

Lemma hash_part_total key : exists part, hash_part key part.
Proof.
  destruct (first_split ch_lbrace key) as [Hno|(pre & post & -> & Hp)].
  { exists key. constructor. intros pre tag post -> _ _. set_solver. }
  destruct (first_split ch_rbrace post) as [Hno|(tag & post' & -> & Ht)].
  { exists (pre ++ ch_lbrace :: post). constructor. intros pre' tag post' E Hp' _.
    apply split_unique in E as [_ ->]; [set_solver | done..]. }
  destruct (decide (tag = [])) as [->|]; [|exists tag; by constructor].
  eexists. apply hash_whole. intros pre' tag post E Hp' Ht'.
  apply split_unique in E as [_ E]; [|done..]. by apply (split_unique _ [] tag) in E as [<- _].
Qed.

Lemma hash_part_sub key part : hash_part key part -> Forall is_byte key -> Forall is_byte part.
Proof.
  destruct 1; [|done]. intros H2. apply Forall_app in H2 as [_ H2].
  apply Forall_cons_1 in H2 as [_ H2]. by apply Forall_app in H2 as [H2 _].
Qed.

Lemma slot_of_xmodem part : Forall is_byte part ->
  exists r, xmodem part r /\ slot_of part = Ok (r mod 2 ^ 14).
Proof.
  intros Hb. destruct (crc16_xmodem part Hb) as (r & E & Hr). exists r. split; [done|].
  unfold slot_of. rewrite E, bindr_ret. change 0x3FFF with (Z.ones 14). by rewrite Z.land_ones.
Qed.

(** * Patterns *)

Definition literal (a : Z) : Prop :=
  a <> ch_star /\ a <> ch_quest /\ a <> ch_lbrack /\ a <> ch_backslash.

Lemma match_literal_step fuel a p c s skip nesting sk :
  literal a -> match_loop (S fuel) (a :: p) (c :: s) false skip nesting = Ok (true, sk) ->
  a = c /\
  match s with
  | [] => drop_stars p = []
  | _ => match_loop fuel p s false skip nesting = Ok (true, sk)
  end.
Proof.
  intros (H1 & H2 & H3 & H4) H. cbn [match_loop] in H.
  rewrite (proj2 (Z.eqb_neq _ _) H1), (proj2 (Z.eqb_neq _ _) H2), (proj2 (Z.eqb_neq _ _) H3),
    (proj2 (Z.eqb_neq _ _) H4) in H. unfold same_char in H. cbn [negb] in H.
  destruct (Z.eqb_spec a c) as [->|]; [split; [done|] | done].
  destruct s; [by destruct (drop_stars p) | done].
Qed.

(** A matcher that accepts has matched the literal beginning of the pattern
    literally. *)
Lemma match_literal_prefix lit rest skip nesting sk : forall fuel s,
  Forall literal lit -> match_loop fuel (lit ++ rest) s false skip nesting = Ok (true, sk) ->
  exists s', s = lit ++ s' /\ (rest = [] -> s' = []).
Proof.
  induction lit as [|a lit IH]; intros fuel s Hl H.
  - exists s. split; [done|]. intros ->. destruct fuel, s; done.
  - apply Forall_cons_1 in Hl as [Ha Hl]. destruct s as [|c s]; [by destruct fuel|].
    destruct fuel as [|fuel]; [done|]. cbn [app] in H. apply match_literal_step in H as [-> H]; [|done].
    destruct s as [|c' s].
    + destruct lit as [|b lit]; [by exists []|].
      apply Forall_cons_1 in Hl as [(Hb & _) _]. cbn [app drop_stars] in H.
      by rewrite (proj2 (Z.eqb_neq _ _) Hb) in H.
    + destruct (IH fuel (c' :: s) Hl H) as (s' & -> & Hs). by exists s'.
Qed.

Lemma stringmatchlen_literal lit rest key :
  Forall literal lit -> stringmatchlen (lit ++ rest) key false = Ok true ->
  exists s', key = lit ++ s' /\ (rest = [] -> s' = []).
Proof.
  intros Hl H. unfold stringmatchlen, stringmatchlen_impl in H. cbn [Z.gtb Z.compare] in H.
  apply bindr_ok in H as ([m sk] & H & [= ->]). by eapply match_literal_prefix.
Qed.

(** What the variable [s] says of the characters read so far. *)
Inductive scan_state : list Z -> Z -> Prop :=
  | no_brace pre : ch_lbrace ∉ pre -> scan_state pre (-1)
  | open_brace a tag : ch_lbrace ∉ a -> ch_rbrace ∉ tag -> scan_state (a ++ ch_lbrace :: tag) (zlen a)
  | empty_tag a b : ch_lbrace ∉ a -> scan_state (a ++ ch_lbrace :: ch_rbrace :: b) (-2).

Lemma scan_state_whole p s : scan_state p s -> hash_part p p.
Proof.
  intros H. apply hash_whole. intros pre tag post E Hp Ht. destruct H as [p Hn | a t Ha Hn | a b Ha].
  - set_solver.
  - apply split_unique in E as [_ ->]; [set_solver | done..].
  - apply split_unique in E as [_ E]; [|done..].
    apply (split_unique _ [] tag) in E as [<- _]; [done | set_solver | done].
Qed.

Lemma scan_state_next pre s x :
  scan_state pre s ->
  ((0 <=? s) && (x =? ch_rbrace) && negb (zlen pre =? s + 1) = false /\
   scan_state (pre ++ [x])
    (if (s =? -1) && (x =? ch_lbrace) then zlen pre
     else if (0 <=? s) && (x =? ch_rbrace) && (zlen pre =? s + 1) then -2 else s)) \/
  exists a tag, pre = a ++ ch_lbrace :: tag /\ s = zlen a /\ ch_lbrace ∉ a /\ ch_rbrace ∉ tag /\
    tag <> [] /\ x = ch_rbrace.
Proof.
  destruct 1 as [p Hn | a t Ha Hn | a b Ha]; cbn [Z.eqb Z.leb Z.compare andb].
  - left. split; [done|]. destruct (Z.eqb_spec x ch_lbrace) as [->|]; constructor; set_solver.
  - pose proof (zlen_nonneg a). rewrite (proj2 (Z.eqb_neq _ (-1))), (proj2 (Z.leb_le 0 _)) by lia.
    cbn [andb]. rewrite zlen_app, zlen_cons. destruct (Z.eqb_spec x ch_rbrace) as [->|]; cbn [andb].
    + destruct t as [|b t]; [left | right; by exists a, (b :: t)].
      rewrite (proj2 (Z.eqb_eq _ _)) by (change (zlen (@nil Z)) with 0; lia).
      split; [done|]. rewrite <- app_assoc. by constructor.
    + left. split; [done|]. rewrite <- app_assoc. cbn [app]. constructor; set_solver.
  - left. split; [done|]. rewrite <- app_assoc. by constructor.
Qed.

(** Every key that begins with [lit], and is [lit] when nothing follows it in
    the pattern, has [part] as its hashed part. *)
Definition covers (p part : list Z) : Prop :=
  exists lit rest, p = lit ++ rest /\ Forall literal lit /\
    forall s', (rest = [] -> s' = []) -> hash_part (lit ++ s') part.

Lemma pattern_loop_ok rest : forall pre s fuel,
  scan_state pre s -> Forall literal pre -> (length rest <= fuel)%nat ->
  pattern_loop fuel (pre ++ rest) (zlen pre) s = Ok (-1) \/
  exists part, pattern_loop fuel (pre ++ rest) (zlen pre) s = slot_of part /\ covers (pre ++ rest) part.
Proof.
  induction rest as [|x rest IH]; intros pre s fuel Hs Hl Hf.
  { right. exists (pre ++ []). split.
    - destruct fuel; cbn [pattern_loop]; by rewrite app_nil_r, Z.ltb_irrefl.
    - exists pre, []. split; [done|]. split; [done|]. intros s' E. rewrite (E eq_refl), app_nil_r.
      by eapply scan_state_whole. }
  destruct fuel as [|fuel]; [cbn in Hf; lia|]. cbn [pattern_loop].
  rewrite zlen_app, zlen_cons, (proj2 (Z.ltb_lt _ _)), rd1_mid by (pose proof (zlen_nonneg rest); lia || done).
  rewrite bindr_ret.
  destruct (Z.eqb_spec x ch_star); [by left|]. destruct (Z.eqb_spec x ch_quest); [by left|].
  destruct (Z.eqb_spec x ch_lbrack); [by left|]. destruct (Z.eqb_spec x ch_backslash); [by left|].
  cbn [orb]. assert (Forall literal (pre ++ [x])) as Hl' by (apply Forall_app; split; [done | by repeat constructor]).
  destruct (scan_state_next pre s x Hs) as [[Hx Hn] | (a & tag & Ep & Es & Ha & Ht & Hne & Ex)].
  - assert (forall s1, scan_state (pre ++ [x]) s1 ->
      pattern_loop fuel (pre ++ x :: rest) (zlen pre + 1) s1 = Ok (-1) \/
      exists part, pattern_loop fuel (pre ++ x :: rest) (zlen pre + 1) s1 = slot_of part /\
        covers (pre ++ x :: rest) part) as Hgo.
    { intros s1 Hs1. pose proof (IH (pre ++ [x]) s1 fuel Hs1 Hl' ltac:(cbn in Hf; lia)) as H.
      by rewrite <- app_assoc, zlen_app in H. }
    destruct ((s =? -1) && (x =? ch_lbrace)); [by apply Hgo|].
    destruct ((0 <=? s) && (x =? ch_rbrace)), (zlen pre =? s + 1); cbn [andb negb] in *; first [discriminate Hx | by apply Hgo].
  - subst x s. right. exists tag. pose proof (zlen_nonneg a).
    assert (0 < zlen tag) by (destruct tag; [done | rewrite zlen_cons; pose proof (zlen_nonneg tag); lia]).
    assert (zlen pre = zlen a + 1 + zlen tag) as Hz by (rewrite Ep, zlen_app, zlen_cons; lia).
    rewrite !(proj2 (Z.eqb_neq (zlen _) _)), (proj2 (Z.leb_le 0 _)), Z.eqb_refl by lia. cbn [andb].
    assert (pre ++ ch_rbrace :: rest = (a ++ [ch_lbrace]) ++ tag ++ ch_rbrace :: rest) as E
      by (rewrite Ep, <- !app_assoc; done).
    split; [rewrite E, rdn_mid by (rewrite ?zlen_app; change (zlen [ch_lbrace]) with 1; lia); done|].
    exists (pre ++ [ch_rbrace]), rest. split; [by rewrite <- app_assoc|]. split; [done|].
    intros s' _. rewrite Ep, <- !app_assoc. cbn [app]. by constructor.
Qed.

Lemma patternHashSlot_ok p :
  patternHashSlot p = Ok (-1) \/ exists part, patternHashSlot p = slot_of part /\ covers p part.
Proof.
  apply (pattern_loop_ok p [] (-1) (length p)); [constructor; set_solver | constructor | done].
Qed.

(** * Properties *)

(** C21: the hash slot of a key is the low 14 bits of the CRC-16/XMODEM - the
    remainder of the polynomial division - of the hashed part: what the first
    opening brace and the first closing brace after it enclose when that is not
    empty, the whole key otherwise.  The table-driven loop reads inside its
    table and the scans inside the key. *)
Theorem keyHashSlot_correct key :
  Forall is_byte key ->
  exists part, hash_part key part /\
    forall slot, keyHashSlot key = Ok slot <-> exists r, xmodem part r /\ slot = r mod 2 ^ 14.
Proof.
  intros Hb. destruct (hash_part_total key) as [part Hp]. exists part. split; [done|]. intros slot.
  destruct (slot_of_xmodem part) as (r & Hr & E); [by eapply hash_part_sub|].
  rewrite (keyHashSlot_part _ _ Hp), E. split.
  - intros [= <-]. by exists r.
  - intros (r' & Hr' & ->). by rewrite (xmodem_unique part r' r).
Qed.

(** The keys "123456789", whose checksum is the check value 0x31C3 of the
    standard, and "u{7}a", whose tag is "7". *)
Lemma keyHashSlot_correct_witness :
  keyHashSlot [49; 50; 51; 52; 53; 54; 55; 56; 57] = Ok (0x31C3 mod 2 ^ 14) /\
  keyHashSlot [117; 123; 55; 125; 97] = keyHashSlot [55] /\
  exists part, hash_part [117; 123; 55; 125; 97] part /\
    forall slot, keyHashSlot [117; 123; 55; 125; 97] = Ok slot <-> exists r, xmodem part r /\ slot = r mod 2 ^ 14.
Proof.
  split; [reflexivity|]. split; [reflexivity|].
  apply keyHashSlot_correct. repeat constructor; unfold is_byte; lia.
Defined.

(** C20: the slot inferred for a pattern is right.  patternHashSlot always
    returns, -1 or a slot; when it returns a slot, every key the glob matcher
    accepts for that pattern, case sensitively, hashes to that slot, so a scan
    restricted to it misses nothing. *)
Theorem patternHashSlot_sound p :
  Forall is_byte p ->
  exists slot, patternHashSlot p = Ok slot /\ -1 <= slot < 2 ^ 14 /\
    (slot <> -1 -> forall key, stringmatchlen p key false = Ok true -> keyHashSlot key = Ok slot).
Proof.
  intros Hb. destruct (patternHashSlot_ok p) as [E | (part & E & lit & rest & -> & Hl & Hh)].
  { exists (-1). split; [done|]. split; [lia | done]. }
  assert (Forall is_byte part) as Hpart by (apply (hash_part_sub (lit ++ rest)); [by apply Hh | done]).
  destruct (slot_of_xmodem part Hpart) as (r & _ & Er). exists (r mod 2 ^ 14).
  split; [by rewrite E|]. split; [pose proof (Z.mod_pos_bound r (2 ^ 14)); lia|].
  intros _ key Hm. destruct (stringmatchlen_literal lit rest key Hl Hm) as (s' & -> & Hs).
  by rewrite (keyHashSlot_part _ _ (Hh s' Hs)).
Qed.

Lemma patternHashSlot_sound_witness :
  patternHashSlot [97; 123; 98; 99; 125; 42] = keyHashSlot [98; 99] /\
  exists slot, patternHashSlot [97; 123; 98; 99; 125; 42] = Ok slot /\ -1 <= slot < 2 ^ 14 /\
    (slot <> -1 -> forall key, stringmatchlen [97; 123; 98; 99; 125; 42] key false = Ok true ->
       keyHashSlot key = Ok slot).
Proof.
  split; [reflexivity|]. apply patternHashSlot_sound. repeat constructor; unfold is_byte; lia.
Defined.
