(* ===== verification/Dump.v ===== *)
(** Dump: the checksums of serialized values and files: the DUMP payload of
    src/redis-stable/src/cluster.c (createDumpPayload, verifyDumpPayload), the
    checksum a rio keeps over what goes through it (rioGenericUpdateChecksum
    of rio.c as the callback of rio.h) and the trailer of an RDB file (the end
    of rdbSaveRio and of rdbLoadRioWithLoadingCtx in rdb.c).

    This is where the components meet: the string layer of Rdb over the
    buffer of Rio, compressed by Lzf, sealed by the checksum of Crc.

    createDumpPayload is modelled for string objects without module metadata,
    the objects the string layer saves. *)

From Stdlib Require Import ZArith Lia Bool.
From stdpp Require Import base list numbers decidable relations.
From S2P Require Import Prelude Bytes Numbers Lzf LzfProofs Rio Rdb RdbProofs Crc CrcProofs CrcSpeed.

Local Open Scope Z_scope.

Definition RDB_VERSION : Z := 13.
Definition RDB_TYPE_STRING : Z := 0.

(** * DUMP payloads *)

Section dump.
Context {host : HostEndian}.

(** The tuning of the checksum, the address of the payload, its tables. *)
Variable tri dual addr : Z.
Variable table : crc_table.

(** The version and the checksum, appended to the buffer of the payload. *)
Definition dumpFooter (cache : list (list Z)) (ptr : list Z) (skip_checksum : bool)
  : result (list Z * list (list Z)) :=
  let buf := [Z.land RDB_VERSION 0xff; Z.land (Z.shiftr RDB_VERSION 8) 0xff] in
  let ptr := ptr ++ buf in
  let* (crc, cache) :=
    (if negb skip_checksum then
       let* (crc, cache) := crc64 tri dual addr table cache 0 ptr in
       Ok (memrev64ifbe (store 8 crc), cache)
     else Ok (store 8 0, cache)) in
  Ok (ptr ++ crc, cache).

(** serverAssert on a count of bytes: it stops on 0 only. *)
Definition createDumpPayload rdb_compression uninit STRICT_ALIGN s_addr htab
    (cache : list (list Z)) (o : robj) (skip_checksum : bool) : result (list Z * list (list Z)) :=
  let payload := rioInitWithBuffer [] in
  let '(payload, n) := rdbSaveType (Some payload) RDB_TYPE_STRING in
  check (negb (n =? 0)) else AssertFailed ;;
  let* (payload, n) := rdbSaveStringObject rdb_compression uninit STRICT_ALIGN s_addr htab payload o in
  check (negb (n =? 0)) else AssertFailed ;;
  match payload with
  | Some payload => dumpFooter cache (b_ptr (r_io payload)) skip_checksum
  | None => Err NullDeref
  end.

(** [true] for C_OK, with the version stored through [rdbver_ptr]. *)
Definition verifyDumpPayload (skip_checksum_validation : bool) (cache : list (list Z)) (p : list Z)
  : result (bool * option Z * list (list Z)) :=
  let len := zlen p in
  if len <? 10 then Ok (false, None, cache) else
  let footer := len - 10 in
  let* f1 := rd1 p (footer + 1) in
  let* f0 := rd1 p footer in
  let rdbver := u16 (Z.lor (Z.shiftl f1 8) f0) in
  if rdbver >? RDB_VERSION then Ok (false, Some rdbver, cache) else
  if skip_checksum_validation then Ok (true, Some rdbver, cache) else
  let* stored := rdn p (footer + 2) 8 in
  let crc_payload := load stored in
  if crc_payload =? 0 then Ok (true, Some rdbver, cache) else
  let* data := rdn p 0 (len - 8) in
  let* (crc, cache) := crc64 tri dual addr table cache 0 data in
  let crc := load (memrev64ifbe (store 8 crc)) in
  Ok (crc =? crc_payload, Some rdbver, cache).
End dump.

(** * The checksum of a rio *)

Section stream.
Context {io : Type} `{RioBackend io}.

(** What rioGenericUpdateChecksum computes: [f] is the value crc64 returns for
    the register and the bytes, whatever the static cache holds at that time
    and wherever the bytes are. *)
Definition rioGenericUpdateChecksum {host : HostEndian} (f : Z -> list Z -> Z) : Prop :=
  forall crc bs, 0 <= crc < 2 ^ 64 -> Forall is_byte bs -> zlen bs < 2 ^ 63 ->
  exists tri dual addr table cache cache',
    crc64_init = Ok table /\ cache_ok cache /\
    crc64 tri dual addr table cache crc bs = Ok (f crc bs, cache').

(** The end of rdbSaveRio. *)
Definition rdbSaveChecksum {host : HostEndian} (rdb : rio io) : rio io * bool :=
  rioWrite rdb (memrev64ifbe (store 8 (cksum rdb))).

Inductive checksum_verdict := ChecksumOk | ChecksumEof | ChecksumCorrupt.

(** The end of rdbLoadRioWithLoadingCtx; [rdb_checksum] and
    [skip_checksum_validation] are fields of the server. *)
Definition rdbLoadChecksum {host : HostEndian} (rdb_checksum skip_checksum_validation : bool) (rdbver : Z)
    (rdb : rio io) : rio io * checksum_verdict :=
  if rdbver >=? 5 then
    let expected := cksum rdb in
    let '(rdb, r) := rioRead rdb 8 in
    match r with
    | None => (rdb, ChecksumEof)
    | Some bs =>
        if rdb_checksum && negb skip_checksum_validation then
          let cksum := load (memrev64ifbe bs) in
          if cksum =? 0 then (rdb, ChecksumOk)
          else if negb (cksum =? expected) then (rdb, ChecksumCorrupt)
          else (rdb, ChecksumOk)
        else (rdb, ChecksumOk)
    end
  else (rdb, ChecksumOk).

(** The life of a stream, with the log of what went through it: writes and
    reads of any size, errors included. *)
Inductive stream_step : rio io * list Z -> rio io * list Z -> Prop :=
  | step_write r log bs r' ok :
      Forall is_byte bs -> zlen bs < 2 ^ 63 -> rioWrite r bs = (r', ok) ->
      stream_step (r, log) (r', log ++ bs)
  | step_read r log n r' bs :
      0 <= n < 2 ^ 63 -> rioRead r n = (r', Some bs) -> Forall is_byte bs -> zlen bs = n ->
      stream_step (r, log) (r', log ++ bs)
  | step_read_fails r log n r' :
      0 <= n < 2 ^ 63 -> rioRead r n = (r', None) -> stream_step (r, log) (r', log).

Definition stream_run : rio io * list Z -> rio io * list Z -> Prop := rtc stream_step.
End stream.

(** * Proofs: payloads *)

Lemma load_inj {host : HostEndian} a b :
  Forall is_byte a -> Forall is_byte b -> length a = length b -> load a = load b -> a = b.
Proof.
  assert (forall x y, Forall is_byte x -> Forall is_byte y -> length x = length y ->
            le_val x = le_val y -> x = y) as Hle.
  { intros x y Hx Hy Hl E. rewrite <- (le_bytes_val x), <- (le_bytes_val y) by done. by rewrite E, Hl. }
  intros Ha Hb Hl E. unfold load in E. destruct host_is_be; [|by apply Hle].
  apply Hle in E; [by apply (inj reverse) | by apply Forall_reverse.. | by rewrite !length_reverse].
Qed.

Lemma bytes_snoc2 body f0 f1 :
  Forall is_byte body -> is_byte f0 -> is_byte f1 -> Forall is_byte (body ++ [f0; f1]).
Proof.
  intros Hb H0 H1. apply Forall_app. split; [done|]. apply Forall_cons_2; [done|].
  apply Forall_cons_2; [done | apply Forall_nil_2].
Qed.

Section payload.
Context {host : HostEndian}.

Lemma le_bytes_inj v v' : 0 <= v < 2 ^ 64 -> 0 <= v' < 2 ^ 64 -> le_bytes 8 v = le_bytes 8 v' -> v = v'.
Proof.
  intros Hv Hv' E. apply (f_equal le_val) in E. rewrite !le_val_bytes in E.
  change (8 * Z.of_nat 8) with 64 in E. by rewrite !Z.mod_small in E by done.
Qed.

Lemma load_eqb bs v :
  Forall is_byte bs -> length bs = 8%nat ->
  (load (memrev64ifbe (store 8 v)) =? load bs) = bool_decide (bs = le_bytes 8 v).
Proof.
  intros Hb Hl. rewrite store_memrev64. apply eq_bool_prop_intro. rewrite bool_decide_spec.
  rewrite Is_true_true, Z.eqb_eq. split; [|by intros ->].
  intros E. symmetry. apply load_inj; [apply le_bytes_byte | done | by rewrite length_le_bytes | done].
Qed.

Lemma load_zero bs :
  Forall is_byte bs -> length bs = 8%nat -> (load bs =? 0) = bool_decide (bs = le_bytes 8 0).
Proof.
  intros Hb Hl. rewrite <- (load_eqb bs 0) by done. rewrite Z.eqb_sym. f_equal.
  unfold load, store, memrev64ifbe. by destruct host_is_be.
Qed.

Variable tri dual addr : Z.
Variable table : crc_table.
Hypothesis table_init : crc64_init = Ok table.

(** The verdict on a payload of a body, a version and eight bytes. *)
Lemma verify_verdict skip cache body f0 f1 t :
  cache_ok cache -> Forall is_byte body -> is_byte f0 -> is_byte f1 -> Forall is_byte t ->
  length t = 8%nat -> zlen body + 2 < 2 ^ 63 ->
  exists cache', cache_ok cache' /\
    verifyDumpPayload tri dual addr table skip cache (body ++ [f0; f1] ++ t) =
    Ok ((f0 + 256 * f1 <=? RDB_VERSION) &&
        (skip || bool_decide (t = le_bytes 8 0) ||
         bool_decide (t = le_bytes 8 (crc_ref 0 (body ++ [f0; f1])))),
        Some (f0 + 256 * f1), cache').
Proof.
  intros Hca Hb H0 H1 Ht Hl Hz. unfold verifyDumpPayload. pose proof (zlen_nonneg body).
  assert (zlen t = 8) as Hlt by (unfold zlen; lia).
  assert (zlen (body ++ [f0; f1] ++ t) = zlen body + 10) as -> by (rewrite !zlen_app, Hlt; done).
  rewrite (proj2 (Z.ltb_ge _ _)) by lia. replace (zlen body + 10 - 10) with (zlen body) by lia.
  assert (rd1 (body ++ [f0; f1] ++ t) (zlen body + 1) = Ok f1) as ->.
  { replace (body ++ [f0; f1] ++ t) with ((body ++ [f0]) ++ f1 :: t) by (by rewrite <- app_assoc).
    apply rd1_mid. by rewrite zlen_app. }
  cbn [app]. rewrite bindr_ret, rd1_mid, bindr_ret by done.
  assert (u16 (Z.lor (Z.shiftl f1 8) f0) = f0 + 256 * f1) as ->.
  { unfold is_byte in *. rewrite Z.lor_comm, lor_disjoint by (change (2 ^ 8) with 256; lia).
    rewrite wrapU_small by (change (2 ^ 8) with 256; change (2 ^ 16) with 65536; lia).
    change (2 ^ 8) with 256. lia. }
  rewrite Z.gtb_ltb, Z.leb_antisym. destruct (RDB_VERSION <? f0 + 256 * f1); [by exists cache|].
  cbn [negb andb]. destruct skip; [by exists cache|]. cbn [orb].
  replace (body ++ f0 :: f1 :: t) with ((body ++ [f0; f1]) ++ t ++ []) by (by rewrite app_nil_r, <- app_assoc).
  rewrite rdn_mid, bindr_ret by (rewrite ?zlen_app, ?Hlt; done).
  rewrite load_zero by done. destruct (bool_decide (t = le_bytes 8 0)); [by exists cache|]. cbn [orb].
  assert (rdn ((body ++ [f0; f1]) ++ t ++ []) 0 (zlen body + 10 - 8) = Ok (body ++ [f0; f1])) as ->
    by (apply (rdn_mid []); [done | rewrite zlen_app; change (zlen [f0; f1]) with 2; lia]).
  rewrite bindr_ret.
  destruct (crc64_ok tri dual addr table cache 0 (body ++ [f0; f1]) table_init Hca) as (cache' & -> & Hca');
    [lia | by apply bytes_snoc2
     | rewrite zlen_app; change (zlen [f0; f1]) with 2; lia |].
  rewrite bindr_ret, load_eqb by done. by exists cache'.
Qed.

Lemma dumpFooter_ok cache body skip :
  cache_ok cache -> Forall is_byte body -> zlen body + 2 < 2 ^ 63 ->
  exists cache', cache_ok cache' /\
    dumpFooter tri dual addr table cache body skip =
    Ok (body ++ [RDB_VERSION; 0] ++ le_bytes 8 (if skip then 0 else crc_ref 0 (body ++ [RDB_VERSION; 0])), cache').
Proof.
  intros Hca Hb Hz. unfold dumpFooter. change (Z.land RDB_VERSION 255) with RDB_VERSION.
  change (Z.land (Z.shiftr RDB_VERSION 8) 255) with 0. destruct skip; cbn [negb].
  - exists cache. split; [done|]. rewrite bindr_ret, <- app_assoc.
    assert (store 8 0 = le_bytes 8 0) as -> by (unfold store; by destruct host_is_be). done.
  - destruct (crc64_ok tri dual addr table cache 0 (body ++ [RDB_VERSION; 0]) table_init Hca) as (cache' & -> & Hca');
      [lia | by apply bytes_snoc2
       | rewrite zlen_app; change (zlen [RDB_VERSION; 0]) with 2; lia |].
    exists cache'. split; [done|]. rewrite !bindr_ret, store_memrev64, <- app_assoc. done.
Qed.
End payload.

(** What the string layer writes are bytes, hardly more of them than the string. *)
Lemma token_bytes_byte t : wf_token t = true -> Forall is_byte (token_bytes t).
Proof.
  destruct t as [bs|d n].
  - intros [Hl Hb]%wf_lit. constructor; [unfold is_byte; lia | done].
  - intros [Hd Hn]%wf_ref. cbn [token_bytes].
    assert (0 <= (d - 1) / 256 < 32) by (split; [apply Z.div_pos; lia | apply Z.div_lt_upper_bound; lia]).
    pose proof (Z.mod_pos_bound (d - 1) 256).
    destruct (Z.ltb_spec n 9); repeat constructor; unfold is_byte; lia.
Qed.

Lemma decodes_bytes c s : decodes c s -> Forall is_byte c.
Proof.
  intros (ts & Hwf & -> & _). unfold tokens_bytes. apply Forall_concat, Forall_map.
  apply list.Forall_forall. intros t Ht. apply token_bytes_byte.
  rewrite forallb_forall in Hwf. by apply Hwf, list_elem_of_In.
Qed.

Lemma len_bytes_ok len : 0 <= len -> Forall is_byte (len_bytes len) /\ 1 <= zlen (len_bytes len) <= 9.
Proof.
  intros Hl. unfold len_bytes.
  destruct (Z.ltb_spec len 64); [|destruct (Z.ltb_spec len 16384); [|destruct (len <=? 4294967295)]].
  - split; [repeat constructor; unfold is_byte; lia | done].
  - split; [|done]. pose proof (Z.mod_pos_bound len 256).
    assert (0 <= len / 256 < 64) by (split; [apply Z.div_pos; lia | apply Z.div_lt_upper_bound; lia]).
    repeat constructor; unfold is_byte; lia.
  - split; [|done]. constructor; [done | apply Forall_reverse, le_bytes_byte].
  - split; [|done]. constructor; [done | apply Forall_reverse, le_bytes_byte].
Qed.

Lemma encodeInteger_ok v : Forall is_byte (rdbEncodeInteger v) /\ zlen (rdbEncodeInteger v) <= 5.
Proof.
  unfold rdbEncodeInteger. repeat case_match; (split; [|done]); repeat constructor;
    first [done | rewrite octet_land; unfold is_byte; by apply Z.mod_pos_bound].
Qed.

Lemma encodes_ok s bs :
  encodes s bs -> Forall is_byte s -> Forall is_byte bs /\ 1 <= zlen bs <= zlen s + 19.
Proof.
  intros He Hs. pose proof (zlen_nonneg s). destruct He as [v _ Hne | c Hd Hc |].
  - destruct (encodeInteger_ok v) as [Hb Hl]. split; [done|]. split; [|lia].
    destruct (rdbEncodeInteger v); [done|]. rewrite zlen_cons. pose proof (zlen_nonneg l). lia.
  - destruct (len_bytes_ok (zlen c)) as [Hb1 Hl1]; [lia|]. destruct (len_bytes_ok (zlen s)) as [Hb2 Hl2]; [lia|].
    split; [|rewrite zlen_cons, !zlen_app; lia].
    constructor; [done|]. rewrite !Forall_app. split; [done|]. split; [done|]. by eapply decodes_bytes.
  - destruct (len_bytes_ok (zlen s)) as [Hb Hl]; [lia|].
    split; [apply Forall_app; by split | rewrite zlen_app; lia].
Qed.

Lemma buffer_reliable : reliable (io := buffer_io).
Proof. done. Qed.

Lemma createDumpPayload_ok {host : HostEndian} tri dual addr table rdb_compression uninit STRICT_ALIGN s_addr htab
    cache o s skip :
  crc64_init = Ok table -> cache_ok cache -> obj_denotes o s -> Forall is_byte s ->
  8192 <= s_addr -> s_addr + zlen s < 2 ^ 62 -> (forall i, 0 <= htab i < 2 ^ 64) ->
  exists bs cache',
    encodes s bs /\ cache_ok cache' /\
    let body := RDB_TYPE_STRING :: bs in
    createDumpPayload tri dual addr table rdb_compression uninit STRICT_ALIGN s_addr htab cache o skip =
    Ok (body ++ [RDB_VERSION; 0] ++ le_bytes 8 (if skip then 0 else crc_ref 0 (body ++ [RDB_VERSION; 0])), cache').
Proof.
  intros Ht Hca Ho Hb Hlo Hhi Htab. unfold createDumpPayload.
  set (r0 := Rio (BufferIo [0] 1) None 0 0 1 0).
  change (rdbSaveType (Some (rioInitWithBuffer [])) RDB_TYPE_STRING) with (Some r0, 1).
  cbn [Z.eqb negb guardr]. rewrite bindr_ret.
  destruct (rdbSaveStringObject_saves rdb_compression uninit STRICT_ALIGN s_addr htab Htab (Some r0) o s)
    as (bs & [[r1|] n] & -> & He & Hs); [done | done | done | done | lia | | done].
  destruct (encodes_ok s bs He Hb) as [Hbs Hl]. pose proof (zlen_nonneg s).
  destruct Hs as [_ [(_ & _ & Hrel) | (-> & Hw & _)]]; [by specialize (Hrel buffer_reliable)|].
  rewrite bindr_ret, (proj2 (Z.eqb_neq _ _)) by lia. cbn [negb guardr]. rewrite bindr_ret.
  change (b_ptr (r_io r1)) with (written r1). rewrite Hw. change (written r0 ++ bs) with (0 :: bs).
  destruct (dumpFooter_ok tri dual addr table Ht cache (0 :: bs) skip Hca) as (cache' & Hca' & E);
    [by apply Forall_cons_2 | rewrite zlen_cons; lia |].
  exists bs, cache'. by split_and!.
Qed.

(** * Properties of payloads *)

(** C19: a string object survives DUMP and RESTORE.  createDumpPayload, for any
    string object and whatever the state of the compressor's and the checksum's
    memory, returns a payload; verifyDumpPayload accepts it on every host
    setting and reports the version it was written with; and loading from it
    gives the type byte of a string and then a value that stands for the same
    string. *)
Theorem dump_payload_roundtrip {host : HostEndian} tri dual addr table rdb_compression uninit STRICT_ALIGN
    s_addr htab cache o s skip :
  crc64_init = Ok table -> cache_ok cache -> obj_denotes o s -> Forall is_byte s ->
  8192 <= s_addr -> s_addr + zlen s < 2 ^ 62 -> (forall i, 0 <= htab i < 2 ^ 64) ->
  exists p cache',
    createDumpPayload tri dual addr table rdb_compression uninit STRICT_ALIGN s_addr htab cache o skip
    = Ok (p, cache') /\ cache_ok cache' /\
    (forall tri' dual' addr' skip' cache1, cache_ok cache1 ->
       exists cache2, verifyDumpPayload tri' dual' addr' table skip' cache1 p
                      = Ok (true, Some RDB_VERSION, cache2)) /\
    exists r1, rdbLoadType (rioInitWithBuffer p) = (r1, RDB_TYPE_STRING) /\
      forall no_shared alloc_ok uninit' fl,
        (forall k, 0 <= k <= zlen s -> alloc_ok k = true) ->
        exists r2 l, rdbGenericLoadStringObject no_shared alloc_ok uninit' r1 fl = Ok (r2, Some l) /\ denotes l s.
Proof.
  intros Ht Hca Ho Hb Hlo Hhi Htab.
  destruct (createDumpPayload_ok tri dual addr table rdb_compression uninit STRICT_ALIGN s_addr htab cache o s skip)
    as (bs & cache' & He & Hca' & E); [done..|].
  destruct (encodes_ok s bs He Hb) as [Hbs Hl]. pose proof (zlen_nonneg s).
  cbv zeta in E. set (body := RDB_TYPE_STRING :: bs) in *.
  set (crc := if skip then 0 else crc_ref 0 (body ++ [RDB_VERSION; 0])) in E.
  eexists. exists cache'. split; [exact E|]. split; [done|].
  assert (Forall is_byte body) as Hbody by (by apply Forall_cons_2).
  assert (zlen body = 1 + zlen bs) as Hz by (unfold body; apply zlen_cons). split.
  - intros tri' dual' addr' skip' cache1 Hca1.
    destruct (verify_verdict tri' dual' addr' table Ht skip' cache1 body RDB_VERSION 0 (le_bytes 8 crc))
      as (cache2 & _ & ->); [done | done | done | done | apply le_bytes_byte | apply length_le_bytes | lia |].
    exists cache2. do 3 f_equal. rewrite (proj2 (Z.leb_le _ _)) by (unfold RDB_VERSION; lia). cbn [andb].
    unfold crc. destruct skip.
    + by rewrite (bool_decide_eq_true_2 (le_bytes 8 0 = _)), orb_true_r by done.
    + by rewrite (bool_decide_eq_true_2 _ eq_refl), orb_true_r.
  - set (rest := [RDB_VERSION; 0] ++ le_bytes 8 crc).
    assert (readable (rioInitWithBuffer (body ++ rest))) as Hr.
    { apply buffer_readable. rewrite zlen_app, Hz. unfold rest. rewrite zlen_app, zlen_le_bytes.
      change (zlen [RDB_VERSION; 0]) with 2. lia. }
    destruct (rioRead_app (rioInitWithBuffer (body ++ rest)) [RDB_TYPE_STRING] (bs ++ rest) Hr eq_refl)
      as (r1 & E1 & Ha1 & Hr1).
    exists r1. split; [unfold rdbLoadType; change 1 with (zlen [RDB_TYPE_STRING]); by rewrite E1|].
    intros no_shared alloc_ok uninit' fl Hal.
    destruct (load_encodes no_shared alloc_ok uninit' r1 s bs rest fl He ltac:(lia) Hal (conj Hr1 Ha1))
      as (r2 & l & E2 & Hd & _). by exists r2, l.
Qed.

(** * Proofs: corruption *)

Lemma verify_sound {host : HostEndian} tri dual addr table cache q t :
  crc64_init = Ok table -> cache_ok cache -> Forall is_byte q -> Forall is_byte t ->
  length t = 8%nat -> zlen q < 2 ^ 63 ->
  exists v ver cache', verifyDumpPayload tri dual addr table false cache (q ++ t) = Ok (v, ver, cache') /\
    (v = true -> t <> le_bytes 8 0 -> t = le_bytes 8 (crc_ref 0 q)).
Proof.
  intros Ht Hca Hq Hbt Hl Hz. assert (zlen t = 8) as Hlt by (unfold zlen; lia).
  destruct (Z.lt_ge_cases (zlen q) 2) as [Hshort|Hlong].
  { exists false, None, cache. split; [|done]. unfold verifyDumpPayload.
    by rewrite zlen_app, (proj2 (Z.ltb_lt _ _)) by lia. }
  assert (exists body f0 f1, q = body ++ [f0; f1]) as (body & f0 & f1 & ->).
  { destruct (exists_last (l := q)) as (q1 & f1 & ->); [by intros ->|].
    destruct (exists_last (l := q1)) as (body & f0 & ->); [by intros ->|].
    exists body, f0, f1. by rewrite <- app_assoc. }
  apply Forall_app in Hq as [Hb (H0 & [H1 _]%Forall_cons_1)%Forall_cons_1].
  rewrite zlen_app in Hz. change (zlen [f0; f1]) with 2 in Hz.
  destruct (verify_verdict tri dual addr table Ht false cache body f0 f1 t) as (cache' & _ & E); [done..|].
  rewrite <- app_assoc. eexists _, _, _. split; [exact E|].
  intros [_ [[H|H]%orb_true_iff|H]%orb_true_iff]%andb_true_iff Hne; [done | |].
  - by apply bool_decide_eq_true in H.
  - by apply bool_decide_eq_true in H.
Qed.

(** Corrupted payloads are refused.  When a payload with a checksum is
    accepted, every payload that differs from it inside one window of at most
    eight bytes, anywhere before the checksum, is rejected - on any host
    settings, and wherever the two payloads are in memory. *)
Theorem dump_corruption_detected {host : HostEndian} tri dual addr tri' dual' addr' table cache cache1
    a x y b t v cache2 :
  crc64_init = Ok table -> cache_ok cache -> cache_ok cache1 ->
  Forall is_byte a -> Forall is_byte x -> Forall is_byte y -> Forall is_byte b -> Forall is_byte t ->
  length t = 8%nat -> length x = length y -> (length x <= 8)%nat -> zlen (a ++ x ++ b) < 2 ^ 63 ->
  x <> y -> t <> le_bytes 8 0 ->
  verifyDumpPayload tri dual addr table false cache (a ++ x ++ b ++ t) = Ok (true, v, cache2) ->
  exists v' cache3,
    verifyDumpPayload tri' dual' addr' table false cache1 (a ++ y ++ b ++ t) = Ok (false, v', cache3).
Proof.
  intros Ht Hca Hca1 Ha Hx Hy Hb Hbt Hl Hxy H8 Hz Hne Ht0 Hacc.
  assert (forall w, a ++ w ++ b ++ t = (a ++ w ++ b) ++ t) as E by (intros w; by rewrite <- !app_assoc).
  rewrite E in *. assert (zlen (a ++ y ++ b) < 2 ^ 63) as Hz' by (rewrite !zlen_app in *; unfold zlen in *; lia).
  destruct (verify_sound tri dual addr table cache (a ++ x ++ b) t) as (v1 & ver1 & c1 & E1 & H1);
    [done | done | by rewrite !Forall_app | done..|].
  destruct (verify_sound tri' dual' addr' table cache1 (a ++ y ++ b) t) as (v2 & ver2 & c2 & E2 & H2);
    [done | done | by rewrite !Forall_app | done..|].
  rewrite Hacc in E1. injection E1 as <- _ _.
  destruct v2; [|by exists ver2, c2]. exfalso. apply Hne.
  specialize (H1 eq_refl Ht0). specialize (H2 eq_refl Ht0). rewrite H1 in H2.
  apply le_bytes_inj in H2; [|apply crc_ref_range; [lia | by rewrite !Forall_app]..].
  by apply (crc_ref_burst 0 a x y b) in H2.
Qed.

(** The string "hi" and the payload of it. *)
Lemma dump_payload_roundtrip_witness :
  exists p cache' cache2 r1,
    createDumpPayload (host := false) 4 2 3 spec_table true (fun _ => 0) false 65536 (fun _ => 65540)
      combine_cache0 (ObjEmbstr [104; 105]) false = Ok (p, cache') /\
    verifyDumpPayload (host := false) 9 9 0 spec_table false cache' p = Ok (true, Some RDB_VERSION, cache2) /\
    rdbLoadType (rioInitWithBuffer p) = (r1, RDB_TYPE_STRING).
Proof.
  destruct (dump_payload_roundtrip (host := false) 4 2 3 spec_table true (fun _ => 0) false 65536 (fun _ => 65540)
              combine_cache0 (ObjEmbstr [104; 105]) [104; 105] false) as (p & cache' & E & Hca & Hv & r1 & Hr & _).
  - exact crcspeed64little_init_ok.
  - exact cache_ok0.
  - reflexivity.
  - repeat constructor; unfold is_byte; lia.
  - lia.
  - reflexivity.
  - lia.
  - destruct (Hv 9 9 0 false cache' Hca) as [cache2 Ev].
    exists p, cache', cache2, r1. split; [exact E|]. split; [exact Ev | exact Hr].
Defined.

Lemma dump_corruption_detected_witness :
  let t := le_bytes 8 (crc_ref 0 [0; 2; 104; 105; 13; 0]) in
  exists v' cache3,
    verifyDumpPayload (host := false) 9 9 0 spec_table false combine_cache0 ([0; 2] ++ [106; 105] ++ [13; 0] ++ t)
    = Ok (false, v', cache3).
Proof.
  cbv zeta. set (t := le_bytes 8 (crc_ref 0 [0; 2; 104; 105; 13; 0])).
  assert (t <> le_bytes 8 0) as Hne by (vm_compute; congruence).
  assert (forall l, forallb (fun b => (0 <=? b) && (b <? 256)) l = true -> Forall is_byte l) as Hb.
  { intros l H. rewrite forallb_forall in H. apply list.Forall_forall. intros b Hb%list_elem_of_In.
    specialize (H b Hb). unfold is_byte. lia. }
  destruct (verify_verdict (host := false) 4 2 3 spec_table crcspeed64little_init_ok false combine_cache0
              [0; 2; 104; 105] 13 0 t) as (cache2 & Hca2 & E);
    [exact cache_ok0 | by apply Hb | unfold is_byte; lia | unfold is_byte; lia | by apply Hb | done | done |].
  rewrite (bool_decide_eq_true_2 (t = le_bytes 8 (crc_ref 0 ([0; 2; 104; 105] ++ [13; 0]))) eq_refl),
    orb_true_r in E.
  exact (dump_corruption_detected (host := false) 4 2 3 9 9 0 spec_table combine_cache0 combine_cache0
    [0; 2] [104; 105] [106; 105] [13; 0] t (Some (13 + 256 * 0)) cache2 crcspeed64little_init_ok cache_ok0 cache_ok0
    (Hb [0; 2] eq_refl) (Hb [104; 105] eq_refl) (Hb [106; 105] eq_refl) (Hb [13; 0] eq_refl) (Hb t eq_refl)
    eq_refl eq_refl (le_S _ _ (le_S _ _ (le_S _ _ (le_S _ _ (le_S _ _ (le_S _ _ (le_n 2)))))))
    eq_refl ltac:(discriminate) Hne E).
Defined.

(** * Proofs: streams *)

Lemma update_checksum_ref {host : HostEndian} f crc bs :
  rioGenericUpdateChecksum f -> 0 <= crc < 2 ^ 64 -> Forall is_byte bs -> zlen bs < 2 ^ 63 ->
  f crc bs = crc_ref crc bs.
Proof.
  intros Hf Hc Hb Hz. destruct (Hf crc bs Hc Hb Hz) as (tri & dual & addr & table & cache & cache' & Ht & Hca & E).
  destruct (crc64_ok tri dual addr table cache crc bs Ht Hca Hc Hb Hz) as (cache2 & E2 & _).
  rewrite E in E2. by injection E2.
Qed.

Section stream_proofs.
Context {host : HostEndian} {io : Type} `{RioBackend io}.
Variable f : Z -> list Z -> Z.
Hypothesis f_crc : rioGenericUpdateChecksum f.

Definition noerr (r : rio io) : Prop := rioGetReadError r = false /\ rioGetWriteError r = false.

Lemma read_flag_set (r : rio io) : rioGetReadError (set_flags r (Z.lor (flags r) RIO_FLAG_READ_ERROR)) = true.
Proof.
  unfold rioGetReadError, set_flags. cbn [flags]. apply negb_true_iff, Z.eqb_neq. intros E.
  apply (f_equal (fun z => Z.testbit z 0)) in E. rewrite Z.land_spec, Z.lor_spec in E.
  change (Z.testbit RIO_FLAG_READ_ERROR 0) with true in E. by rewrite orb_true_r in E.
Qed.

Lemma apply_cksum_f (r : rio io) bs :
  update_cksum r = Some f ->
  cksum (apply_cksum r bs) = f (cksum r) bs /\ update_cksum (apply_cksum r bs) = Some f.
Proof. intros E. unfold apply_cksum. by rewrite E. Qed.

Definition word (z : Z) : Prop := 0 <= z < 2 ^ 64.

(** The register follows the bytes, chunk by chunk. *)
Definition follows (c c' : Z) (bs : list Z) : Prop :=
  word c -> Forall is_byte bs -> zlen bs < 2 ^ 63 -> c' = crc_ref c bs.

Lemma follows_chunk c c' (a b : list Z) :
  follows (f c a) c' b -> follows c c' (a ++ b).
Proof.
  intros Hf Hc [Ha Hb]%Forall_app Hz. rewrite zlen_app in Hz.
  pose proof (zlen_nonneg a). pose proof (zlen_nonneg b).
  rewrite (update_checksum_ref f) in Hf by (done || lia). rewrite crc_ref_app.
  apply Hf; [by apply crc_ref_range | done | lia].
Qed.

Lemma write_loop_cksum fuel : forall (r : rio io) buf r' ok,
  0 <= max_processing_chunk r -> (length buf <= fuel)%nat -> update_cksum r = Some f ->
  rio_write_loop fuel r buf = (r', ok) ->
  update_cksum r' = Some f /\ max_processing_chunk r' = max_processing_chunk r /\
  if ok then flags r' = flags r /\ follows (cksum r) (cksum r') buf else rioGetWriteError r' = true.
Proof.
  induction fuel as [|fuel IH]; intros r buf r' ok Hm Hf Hu E.
  - destruct buf; [injection E as <- <- | cbn in Hf; lia]. done.
  - destruct buf as [|b0 buf]; [by injection E as <- <-|]. cbn [rio_write_loop] in E.
    set (bs := b0 :: buf) in *. set (n := chunk_of r (zlen bs)) in *.
    assert (0 < zlen bs) by (unfold bs; rewrite zlen_cons; pose proof (zlen_nonneg buf); lia).
    pose proof (chunk_of_range r (zlen bs) Hm ltac:(done)) as Hc. fold n in Hc.
    destruct (apply_cksum_fields r (take (Z.to_nat n) bs)) as (E1 & E2 & E3).
    destruct (apply_cksum_f r (take (Z.to_nat n) bs) Hu) as [E4 E5].
    set (r1 := apply_cksum r (take (Z.to_nat n) bs)) in *.
    destruct (io_write (r_io r1) (take (Z.to_nat n) bs)) as [x ok1]. destruct ok1; cbn [negb] in E.
    + apply IH in E as (Hu' & Hm' & Hok); [| cbn; lia | rewrite length_drop; unfold zlen in *; lia | done].
      cbn in Hm', Hok. rewrite E3 in Hm'. rewrite E2, E4 in Hok. split; [done|]. split; [done|].
      destruct ok; [|done]. destruct Hok as [Hfl Hfo]. split; [done|].
      rewrite <- (take_drop (Z.to_nat n) bs). by apply follows_chunk.
    + injection E as <- <-. split; [done|]. split; [done|]. apply (flag_set (set_io r1 x)).
Qed.

Lemma read_loop_cksum fuel : forall (r : rio io) len acc r' res,
  0 <= max_processing_chunk r -> 0 <= len <= Z.of_nat fuel -> update_cksum r = Some f ->
  rio_read_loop fuel r len acc = (r', res) ->
  update_cksum r' = Some f /\ max_processing_chunk r' = max_processing_chunk r /\
  match res with
  | Some bs => flags r' = flags r /\ exists bs', bs = acc ++ bs' /\ follows (cksum r) (cksum r') bs'
  | None => rioGetReadError r' = true
  end.
Proof.
  induction fuel as [|fuel IH]; intros r len acc r' res Hm Hl Hu E; cbn [rio_read_loop] in E.
  { rewrite (proj2 (Z.eqb_eq _ _)) in E by lia. injection E as <- <-. split; [done|]. split; [done|].
    split; [done|]. exists []. by rewrite app_nil_r. }
  destruct (Z.eqb_spec len 0) as [_|Hne].
  { injection E as <- <-. split; [done|]. split; [done|]. split; [done|]. exists []. by rewrite app_nil_r. }
  pose proof (chunk_of_range r len Hm ltac:(lia)) as Hc. set (n := chunk_of r len) in *.
  destruct (io_read (r_io r) n) as [x [bs|]].
  - destruct (apply_cksum_fields (set_io r x) bs) as (E1 & E2 & E3).
    destruct (apply_cksum_f (set_io r x) bs Hu) as [E4 E5].
    apply IH in E as (Hu' & Hm' & Hok); [| cbn; rewrite E3; done | lia | done].
    cbn [add_processed max_processing_chunk flags cksum] in Hm', Hok. rewrite E3 in Hm'. rewrite E2, E4 in Hok.
    split; [done|]. split; [done|]. destruct res; [|done]. destruct Hok as (Hfl & bs' & -> & Hfo).
    split; [done|]. exists (bs ++ bs'). split; [by rewrite app_assoc | by apply follows_chunk].
  - injection E as <- <-. split; [done|]. split; [done|]. apply (read_flag_set (set_io r x)).
Qed.

(** The invariant of a stream that started with the register [c0]. *)
Definition cksum_inv (c0 : Z) (st : rio io * list Z) : Prop :=
  let '(r, log) := st in
  update_cksum r = Some f /\ 0 <= max_processing_chunk r /\ Forall is_byte log /\
  (noerr r -> cksum r = crc_ref c0 log).

Lemma cksum_inv_extend c0 r log r' bs :
  word c0 -> cksum_inv c0 (r, log) -> Forall is_byte bs -> zlen bs < 2 ^ 63 ->
  update_cksum r' = Some f -> max_processing_chunk r' = max_processing_chunk r ->
  flags r' = flags r -> follows (cksum r) (cksum r') bs -> cksum_inv c0 (r', log ++ bs).
Proof.
  intros Hw (Hu & Hm & Hb & Hc) Hbs Hz Hu' Hm' Hfl Hfo. split; [done|]. split; [lia|].
  split; [by apply Forall_app|]. unfold noerr, rioGetReadError, rioGetWriteError. rewrite Hfl. intros Hne.
  rewrite crc_ref_app, <- (Hc Hne). apply Hfo; [|done..]. rewrite (Hc Hne). by apply crc_ref_range.
Qed.

Lemma cksum_inv_step c0 st st' : word c0 -> cksum_inv c0 st -> stream_step st st' -> cksum_inv c0 st'.
Proof.
  intros Hw Hi Hs. destruct Hs as [r log bs r' ok Hb Hz E | r log n r' bs Hn E Hb Hz | r log n r' Hn E];
    pose proof Hi as (Hu & Hm & Hlog & Hc).
  - unfold rioWrite in E. destruct (negb (Z.land (flags r) RIO_FLAG_WRITE_ERROR =? 0)) eqn:Ef.
    { injection E as <- <-. split; [done|]. split; [done|]. split; [by apply Forall_app|].
      intros [_ He]. by unfold rioGetWriteError in He; rewrite Ef in He. }
    apply write_loop_cksum in E as (Hu' & Hm' & Hok); [|done..].
    destruct ok; [destruct Hok; by eapply cksum_inv_extend|].
    split; [done|]. split; [lia|]. split; [by apply Forall_app|]. intros [_ He]. congruence.
  - unfold rioRead in E. destruct (negb _); [done|].
    apply read_loop_cksum in E as (Hu' & Hm' & Hfl & bs' & -> & Hfo); [|done | lia | done].
    eapply cksum_inv_extend; [done | exact Hi | done | lia | done..].
  - unfold rioRead in E. destruct (negb (Z.land (flags r) RIO_FLAG_READ_ERROR =? 0)) eqn:Ef; [by injection E as <-|].
    apply read_loop_cksum in E as (Hu' & Hm' & He); [|done | lia | done].
    split; [done|]. split; [lia|]. split; [done|]. intros [He' _]. congruence.
Qed.

Lemma cksum_inv_run c0 st st' : word c0 -> cksum_inv c0 st -> stream_run st st' -> cksum_inv c0 st'.
Proof. intros Hw Hi Hr. induction Hr as [|st st1 st2 Hs _ IH]; [done|]. eapply IH, cksum_inv_step; done. Qed.
End stream_proofs.

(** * Properties of streams *)

(** C18: the checksum register of a stream is the CRC-64 of everything that
    went through it.  Whatever the order and the sizes of the writes and reads,
    the processing chunk that splits them, the failures in between and the
    state of the checksum's static cache, as long as the stream has no error
    flag set its register equals the reference CRC, from the register it
    started with, of the bytes transferred since. *)
Theorem rio_checksum_invariant {host : HostEndian} {io : Type} `{RioBackend io} f (r r' : rio io) log :
  rioGenericUpdateChecksum f -> update_cksum r = Some f -> 0 <= max_processing_chunk r ->
  0 <= cksum r < 2 ^ 64 -> stream_run (r, []) (r', log) ->
  rioGetReadError r' = false -> rioGetWriteError r' = false ->
  cksum r' = crc_ref (cksum r) log.
Proof.
  intros Hf Hu Hm Hc Hrun He1 He2.
  assert (cksum_inv f (cksum r) (r', log)) as (_ & _ & _ & Hinv).
  { apply (cksum_inv_run f Hf (cksum r) (r, [])); [done | | done].
    split; [done|]. split; [done|]. split; [by constructor | done]. }
  by apply Hinv.
Qed.

Lemma crc_ref_update : rioGenericUpdateChecksum (host := false) crc_ref.
Proof.
  intros crc bs Hc Hb Hz.
  destruct (crc64_ok (host := false) 4 2 0 spec_table combine_cache0 crc bs crcspeed64little_init_ok cache_ok0 Hc Hb Hz)
    as (cache' & E & _).
  exists 4, 2, 0, spec_table, combine_cache0, cache'. split; [exact crcspeed64little_init_ok|].
  split; [exact cache_ok0 | exact E].
Qed.

(** A stream with checksumming on and a chunk of two bytes. *)
Definition sample_stream (bs : list Z) : rio buffer_io := Rio (BufferIo bs 0) (Some crc_ref) 0 0 0 2.

Lemma sample_write : exists r', stream_run (sample_stream [], []) (r', [] ++ [1; 2; 3]) /\
  written r' = [1; 2; 3] /\ rioGetReadError r' = false /\ rioGetWriteError r' = false /\
  0 <= max_processing_chunk r'.
Proof.
  eexists. split.
  - apply rtc_once. apply (step_write _ _ [1; 2; 3] _ true); [repeat constructor; unfold is_byte; lia | done |].
    reflexivity.
  - by split_and!.
Qed.

Lemma rio_checksum_invariant_witness :
  exists r', stream_run (sample_stream [], []) (r', [] ++ [1; 2; 3]) /\ cksum r' = crc_ref 0 [1; 2; 3].
Proof.
  destruct sample_write as (r' & Hrun & _ & He1 & He2 & _). exists r'. split; [exact Hrun|].
  apply (rio_checksum_invariant (host := false) crc_ref (sample_stream []) r' ([] ++ [1; 2; 3])
           crc_ref_update eq_refl); [cbn; lia | cbn; lia | exact Hrun | exact He1 | exact He2].
Defined.

(** C17: the trailer of an RDB file protects it.  When a file was written
    through a checksumming stream from a zero register and its trailer
    written, a reader that consumed [log'] through a checksumming stream and
    is at the trailer accepts it if [log'] is what was written, and reports
    corruption if it differs inside one window of at most eight bytes (unless
    the checksum stored is zero, which means that none was computed). *)
Theorem rdb_checksum_protects {host : HostEndian} {wio : Type} `{RioLaws wio} {rdio : Type} `{RioLaws rdio}
    f g (w w1 w2 : rio wio) log (r r1 : rio rdio) log' trailer rest rdbver :
  rioGenericUpdateChecksum f -> update_cksum w = Some f -> 0 <= max_processing_chunk w -> cksum w = 0 ->
  stream_run (w, []) (w1, log) -> written w1 = log ->
  rioGetReadError w1 = false -> rioGetWriteError w1 = false ->
  rdbSaveChecksum w1 = (w2, true) -> written w2 = log ++ trailer ->
  rioGenericUpdateChecksum g -> update_cksum r = Some g -> cksum r = 0 -> 0 <= max_processing_chunk r ->
  stream_run (r, []) (r1, log') -> rioGetWriteError r1 = false -> readable r1 ->
  ahead r1 = trailer ++ rest -> 5 <= rdbver ->
  exists r2 verdict,
    rdbLoadChecksum true false rdbver r1 = (r2, verdict) /\
    (log' = log -> verdict = ChecksumOk) /\
    (forall a x y b, log = a ++ x ++ b -> log' = a ++ y ++ b -> length x = length y -> (length x <= 8)%nat ->
       x <> y -> crc_ref 0 log <> 0 -> verdict = ChecksumCorrupt).
Proof.
  intros Hf Huw Hmw Hcw Hrw Hwr Hw1 Hw2 Hsave Htr Hg Hur Hcr Hmr Hrr Hr2 Hread Hah Hver.
  assert (cksum_inv f 0 (w1, log)) as (_ & Hm1 & Hlog & Hinv).
  { apply (cksum_inv_run f Hf 0 (w, [])); [unfold word; lia | | done]. by split_and!. }
  assert (cksum_inv g 0 (r1, log')) as (_ & _ & Hlog' & Hinv').
  { apply (cksum_inv_run g Hg 0 (r, [])); [unfold word; lia | | done]. by split_and!. }
  specialize (Hinv (conj Hw1 Hw2)). specialize (Hinv' (conj (proj1 (proj2 Hread)) Hr2)).
  pose proof (crc_ref_range 0 log ltac:(lia) Hlog) as Hrange.
  unfold rdbSaveChecksum in Hsave. rewrite store_memrev64 in Hsave.
  apply rioWrite_ok in Hsave as (Hw & _ & _); [|done]. rewrite Hwr, Hinv, Htr in Hw. apply app_inv_head in Hw.
  subst trailer. unfold rdbLoadChecksum. rewrite Z.geb_leb, (proj2 (Z.leb_le _ _)) by lia.
  destruct (rioRead_app r1 (le_bytes 8 (crc_ref 0 log)) rest Hread Hah) as (r2 & E & _ & _).
  rewrite zlen_le_bytes in E. change (Z.of_nat 8) with 8 in E. rewrite E. cbn [andb negb].
  rewrite load_memrev64, le_val_bytes by apply length_le_bytes. change (8 * Z.of_nat 8) with 64.
  rewrite Z.mod_small, Hinv' by done. exists r2.
  destruct (Z.eqb_spec (crc_ref 0 log) 0) as [Hz|Hz].
  { exists ChecksumOk. split_and!; [done | done | by intros]. }
  destruct (Z.eqb_spec (crc_ref 0 log) (crc_ref 0 log')) as [Heq|Hne]; cbn [negb].
  - exists ChecksumOk. split_and!; [done | done |]. intros a x y b -> -> Hl H8 Hxy _. exfalso. apply Hxy.
    rewrite !Forall_app in Hlog, Hlog'. destruct Hlog as (Ha & Hx & Hb), Hlog' as (_ & Hy & _).
    by apply (crc_ref_burst 0 a x y b) in Heq.
  - exists ChecksumCorrupt. split_and!; [done | by intros -> | done].
Qed.

Lemma rdb_checksum_protects_witness :
  let trailer := le_bytes 8 (crc_ref 0 [1; 2; 3]) in
  exists r1 r2, stream_run (sample_stream ([1; 9; 3] ++ trailer), []) (r1, [] ++ [1; 9; 3]) /\
    rdbLoadChecksum (host := false) true false 13 r1 = (r2, ChecksumCorrupt).
Proof.
  cbv zeta. set (trailer := le_bytes 8 (crc_ref 0 [1; 2; 3])).
  destruct sample_write as (w1 & Hrun & Hwr & He1 & He2 & Hm).
  assert (exists w2, rdbSaveChecksum (host := false) w1 = (w2, true) /\ written w2 = [1; 2; 3] ++ trailer)
    as (w2 & Hs & Hw2).
  { assert (cksum w1 = crc_ref 0 [1; 2; 3]) as Hc.
    { assert (cksum_inv crc_ref 0 (w1, [] ++ [1; 2; 3])) as (_ & _ & _ & Hi).
      { apply (cksum_inv_run (host := false) crc_ref crc_ref_update 0 (sample_stream [], [])); [done | | exact Hrun].
        by split_and!. }
      exact (Hi (conj He1 He2)). }
    destruct (rdbSaveChecksum (host := false) w1) as [w2 ok] eqn:E. exists w2.
    pose proof (rdbWriteRaw_saves (Some w1) (memrev64ifbe (host := false) (store (host := false) 8 (cksum w1))) Hm) as Hsv.
    unfold rdbWriteRaw in Hsv. unfold rdbSaveChecksum in E. rewrite E in Hsv.
    destruct ok; cbn [negb saves] in Hsv.
    - split; [done|]. destruct Hsv as [_ [(Hn & _) | (_ & -> & _)]]; [done|]. rewrite Hwr, Hc. done.
    - destruct Hsv as [_ [(_ & _ & Hrel) | (Hn & _)]]; [|done]. specialize (Hrel buffer_reliable). congruence. }
  assert (exists r1, stream_run (sample_stream ([1; 9; 3] ++ trailer), []) (r1, [] ++ [1; 9; 3]) /\
    readable r1 /\ rioGetWriteError r1 = false /\ ahead r1 = trailer ++ []) as (r1 & Hr & Hread & Hwe & Hah).
  { eexists. split.
    - apply rtc_once. apply (step_read _ _ 3 _ [1; 9; 3]); [done | reflexivity | repeat constructor; unfold is_byte; lia | done].
    - by split_and!. }
  destruct (rdb_checksum_protects (host := false) crc_ref crc_ref (sample_stream []) w1 w2 ([] ++ [1; 2; 3])
    (sample_stream ([1; 9; 3] ++ trailer)) r1 ([] ++ [1; 9; 3]) trailer [] 13)
    as (r2 & verdict & E & _ & Hcor); try done; [exact crc_ref_update | exact crc_ref_update |].
  rewrite (Hcor [1] [2] [9] [3]) in E; [|done..| cbn; lia | done | vm_compute; congruence].
  exists r1, r2. split; [exact Hr | exact E].
Defined.
