(* ===== verification/Objects.v ===== *)
(** Objects: string objects, argument parsing and the keyspace, as the commands
    of BitCommands use them (object.c, sds.c, db.c under src/redis-stable/src).

    A command receives its arguments as byte strings and answers a [reply].
    The keyspace is a finite map from keys to values: which keys are expired,
    the histograms, the notifications and the tracking of clients are left
    out; [dirty] is server.dirty, the count of changes to persist and to send
    to the replicas. *)

From Stdlib Require Import ZArith Lia Bool String.
From stdpp Require Import base list numbers decidable gmap.
From S2P Require Import Prelude Bytes Numbers Glob.

Local Open Scope Z_scope.

(** * Replies *)

Inductive cmd_error :=
  | SyntaxErr | WrongTypeErr | NotAnInteger | BadBitOffset | BadBitfieldType | BadBitValue
  | BadOverflowType | ReadOnlyErr | BadBitArgument | NotSingleKeyErr | TwoKeysErr.

Inductive reply :=
  | ReplyInt (n : Z)
  | ReplyNull
  | ReplyError (e : cmd_error)
  | ReplyArray (rs : list reply).

(** A helper that may have sent an error to the client (C_ERR), or faulted. *)
Definition cmd (A : Type) : Type := result (cmd_error + A).

Definition bindc {A B} (m : cmd A) (k : A -> cmd B) : cmd B :=
  let* r := m in
  match r with
  | inl e => Ok (inl e)
  | inr a => k a
  end.

Notation "'let!' x ':=' m 'in' k" := (bindc m (fun x => k))
  (at level 10, x pattern, m at level 100, k at level 200,
   format "'[v' 'let!'  x  ':='  m  'in' '/' k ']'") : redis_scope.

Definition retc {A} (a : A) : cmd A := Ok (inr a).
Definition failc {A} (e : cmd_error) : cmd A := Ok (inl e).

Lemma bindc_ret {A B} (a : A) (k : A -> cmd B) : bindc (retc a) k = k a.
Proof. reflexivity. Qed.

Lemma bindc_fail {A B} e (k : A -> cmd B) : bindc (failc e) k = failc e.
Proof. reflexivity. Qed.

Lemma bindc_ok {A B} (a : A) (k : A -> cmd B) : bindc (Ok (inr a)) k = k a.
Proof. reflexivity. Qed.

Lemma bindc_err {A B} e (k : A -> cmd B) : bindc (Ok (inl e)) k = Ok (inl e).
Proof. reflexivity. Qed.

Lemma bindc_inr {A B} (m : cmd A) (k : A -> cmd B) b :
  bindc m k = Ok (inr b) -> exists a, m = Ok (inr a) /\ k a = Ok (inr b).
Proof.
  unfold bindc. intros H. apply bindr_ok in H as ([e|a] & Hm & Hk); [done|]. by exists a.
Qed.

(** Run a helper one step. *)
Ltac runc := repeat first [rewrite bindc_ret | rewrite bindc_fail | rewrite bindc_ok | rewrite bindc_err | progress runr].

(** * Arguments *)

(** The C string a pointer to the bytes of an sds denotes: up to its first NUL. *)
Fixpoint c_str (s : list Z) : list Z :=
  match s with
  | [] => []
  | c :: s => if c =? 0 then [] else c :: c_str s
  end.

(** [!strcasecmp(s, lit)] for a lower-case literal. *)
Definition strcaseeq (s : list Z) (lit : string) : bool :=
  bool_decide (map tolower (c_str s) = chars lit).

Definition getLongLongFromObjectOrReply (s : list Z) (e : cmd_error) : cmd Z :=
  let* r := string2ll s (zlen s) in
  match r with
  | None => failc e
  | Some value => retc value
  end.

(** long and long long have the same range. *)
Definition getLongFromObjectOrReply (s : list Z) (e : cmd_error) : cmd Z :=
  let! value := getLongLongFromObjectOrReply s e in
  if (value <? LLONG_MIN) || (value >? LLONG_MAX) then failc e else retc value.

(** * Values *)

(** A string value: an sds (raw or embedded), or a long. *)
Inductive strobj :=
  | ObjSds (s : list Z)
  | ObjInt (v : Z).

(** A value of the keyspace: a string, or one of the other types. *)
Inductive kvobj :=
  | KvString (o : strobj)
  | KvOther.

Record redisDb := mkDb {
  keyspace : gmap (list Z) kvobj;
  dirty : Z;
}.

Definition dbFind (db : redisDb) (key : list Z) : option kvobj := keyspace db !! key.
Definition setKey (db : redisDb) (key : list Z) (o : strobj) : redisDb :=
  mkDb (<[key := KvString o]> (keyspace db)) (dirty db).
Definition dbDelete (db : redisDb) (key : list Z) : redisDb * bool :=
  (mkDb (delete key (keyspace db)) (dirty db), bool_decide (is_Some (keyspace db !! key))).
Definition add_dirty (db : redisDb) (n : Z) : redisDb := mkDb (keyspace db) (dirty db + n).

(** [checkType(c, o, OBJ_STRING)] on the outcome of a lookup. *)
Definition checkString (o : option kvobj) : cmd (option strobj) :=
  match o with
  | None => retc None
  | Some (KvString o) => retc (Some o)
  | Some KvOther => failc WrongTypeErr
  end.

(** The decimal form of a long, through a buffer on the stack. *)
Definition print_long (size v : Z) : result (list Z) :=
  let* (buf, len) := ll2string (replicate (Z.to_nat size) 0) 0 size v in
  rdn buf 0 len.

(** The bytes behind the returned pointer, [None] for a null object. *)
Definition getObjectReadOnlyString (o : option strobj) : result (option (list Z)) :=
  match o with
  | Some (ObjInt v) => let* s := print_long LONG_STR_SIZE v in Ok (Some s)
  | Some (ObjSds s) => Ok (Some s)
  | None => Ok None
  end.

Definition getDecodedObject (o : strobj) : result (list Z) :=
  match o with
  | ObjSds s => Ok s
  | ObjInt v => print_long 32 v
  end.

Definition sdsgrowzero (s : list Z) (len : Z) : list Z :=
  if len <=? zlen s then s else s ++ replicate (Z.to_nat (len - zlen s)) 0.

(** * Lemmas *)

(** A string value denotes bytes; an integer value, its decimal form. *)
Definition str_bytes (o : strobj) (s : list Z) : Prop :=
  match o with
  | ObjSds s' => s = s' /\ Forall is_byte s
  | ObjInt v => LLONG_MIN <= v <= LLONG_MAX /\ is_sdec s v
  end.

Lemma sdec_bytes ds v : is_sdec ds v -> Forall is_byte ds.
Proof.
  assert (forall l w, is_dec l w -> Forall is_byte l) as Hd.
  { intros l w [H _ _ _]. eapply list.Forall_impl; [exact H|]. intros c Hc. unfold is_digit in Hc. unfold is_byte. lia. }
  unfold is_sdec. case_bool; [|by apply Hd]. intros (l & -> & Hl). constructor; [done | by eapply Hd].
Qed.

Lemma str_bytes_byte o s : str_bytes o s -> Forall is_byte s.
Proof. destruct o; intros [H1 H2]; [done | by eapply sdec_bytes]. Qed.

Lemma sdec_short ds v : LLONG_MIN <= v <= LLONG_MAX -> is_sdec ds v -> zlen ds <= 20.
Proof.
  intros Hv Hd. destruct (is_sdec_exists v Hv) as (l & Hl & Hz). by rewrite (is_sdec_unique ds l v Hd Hl).
Qed.

Lemma print_long_ok size v ds :
  LONG_STR_SIZE <= size -> LLONG_MIN <= v <= LLONG_MAX -> is_sdec ds v -> print_long size v = Ok ds.
Proof.
  intros Hs Hv Hd. unfold print_long. pose proof (sdec_short ds v Hv Hd) as Hl.
  pose proof (ll2string_ok [] (replicate (Z.to_nat size) 0) [] 0 size v ds) as Hp.
  rewrite app_nil_r in Hp. cbn [app] in Hp.
  assert (zlen (replicate (Z.to_nat size) 0) = size) as Hz by (unfold zlen; rewrite length_replicate; lia).
  specialize (Hp eq_refl Hz Hv Hd). rewrite (proj2 (Z.ltb_lt (zlen ds) size)) in Hp by lia.
  rewrite Hp. runr. unfold printed, rdn. cbn [app]. rewrite zlen_app, zlen_cons.
  pose proof (zlen_nonneg ds). pose proof (zlen_nonneg (drop (S (length ds)) (replicate (Z.to_nat size) 0) ++ [])).
  dec_bool. cbn [drop Z.to_nat]. f_equal. unfold zlen. rewrite Nat2Z.id. apply take_app_length.
Qed.

Lemma getObjectReadOnlyString_ok o s : str_bytes o s -> getObjectReadOnlyString (Some o) = Ok (Some s).
Proof.
  destruct o as [s'|v]; intros [H1 H2]; cbn [getObjectReadOnlyString]; [by subst|].
  by rewrite (print_long_ok _ v s).
Qed.

Lemma getDecodedObject_ok o s : str_bytes o s -> getDecodedObject o = Ok s.
Proof.
  destruct o as [s'|v]; intros [H1 H2]; cbn [getDecodedObject]; [by subst|]. by rewrite (print_long_ok _ v s).
Qed.

Lemma zlen_sdsgrowzero s len : zlen (sdsgrowzero s len) = Z.max (zlen s) len.
Proof.
  unfold sdsgrowzero. case_bool; [lia|]. rewrite zlen_app. unfold zlen at 2. rewrite length_replicate. lia.
Qed.

Lemma sdsgrowzero_byte s len : Forall is_byte s -> Forall is_byte (sdsgrowzero s len).
Proof.
  intros Hs. unfold sdsgrowzero. case_bool; [done|]. apply Forall_app. split; [done|].
  apply Forall_replicate. by unfold is_byte.
Qed.
