(* ===== verification/Bitops.v ===== *)
(** Bitops: the bit operations of src/redis-stable/src/bitops.c on the bytes
    of a string: counting, searching, bit fields and overflow control, and the
    bitwise combination of strings.  The commands built on them are in
    BitCommands.

    A string is the list of its bytes and stands for a sequence of bits, the
    most significant bit of a byte first ([bits_of]).  The address of a string
    matters where the code aligns its accesses and is a parameter; so is the
    presence of the POPCNT instruction.  The AVX and NEON variants, which are
    compiler intrinsics, are not modelled.  A long has 8 bytes. *)

From Stdlib Require Import ZArith Lia Bool.
From stdpp Require Import base list numbers decidable.
From S2P Require Import Prelude Bytes.

Local Open Scope Z_scope.

(** * Counting *)

Definition bits_B2 (n : Z) : list Z := [n; n + 1; n + 1; n + 2].
Definition bits_B4 (n : Z) : list Z := bits_B2 n ++ bits_B2 (n + 1) ++ bits_B2 (n + 1) ++ bits_B2 (n + 2).
Definition bits_B6 (n : Z) : list Z := bits_B4 n ++ bits_B4 (n + 1) ++ bits_B4 (n + 1) ++ bits_B4 (n + 2).
Definition bitsinbyte : list Z := bits_B6 0 ++ bits_B6 1 ++ bits_B6 1 ++ bits_B6 2.

(** The compiler builtin: the number of ones among the 64 bits. *)
Definition popcountll (x : Z) : Z :=
  fold_right (fun i n => n + Z.b2z (Z.testbit x (Z.of_nat i))) 0 (seq 0 64).

(** The count of one byte, added to [bits]. *)
Definition count_byte (s : list Z) (off bits : Z) : result Z :=
  let* b := rd1 s off in
  let* n := rd1 bitsinbyte b in
  Ok (bits + n).

(** [while ((unsigned long)p & align && count)] *)
Fixpoint pop_align (fuel : nat) (addr align : Z) (s : list Z) (off count bits : Z) : result (Z * Z * Z) :=
  if negb (Z.land (addr + off) align =? 0) && negb (count =? 0) then
    match fuel with
    | O => Err OutOfFuel
    | S fuel =>
        let* bits := count_byte s off bits in
        pop_align fuel addr align s (off + 1) (count - 1) bits
    end
  else Ok (off, count, bits).

(** [while(count--) bits += bitsinbyte[*p++]] *)
Fixpoint pop_remain (fuel : nat) (s : list Z) (off count bits : Z) : result Z :=
  if count =? 0 then Ok bits
  else
    match fuel with
    | O => Err OutOfFuel
    | S fuel =>
        let* bits := count_byte s off bits in
        pop_remain fuel s (off + 1) (count - 1) bits
    end.

Section host.
Context {host : HostEndian}.

Definition ld64 (s : list Z) (off : Z) : result Z := let* w := rdn s off 8 in Ok (load w).
Definition ld32 (s : list Z) (off : Z) : result Z := let* w := rdn s off 4 in Ok (load w).

(** 32 bytes per round with POPCNT, in four counters. *)
Fixpoint pop_popcnt (fuel : nat) (s : list Z) (off count : Z) (cnt : Z * Z * Z * Z)
  : result (Z * Z * (Z * Z * Z * Z)) :=
  if count >=? 32 then
    match fuel with
    | O => Err OutOfFuel
    | S fuel =>
        let '(c0, c1, c2, c3) := cnt in
        let* w0 := ld64 s off in
        let* w1 := ld64 s (off + 8) in
        let* w2 := ld64 s (off + 16) in
        let* w3 := ld64 s (off + 24) in
        pop_popcnt fuel s (off + 32) (count - 32)
          (u64 (c0 + popcountll w0), u64 (c1 + popcountll w1),
           u64 (c2 + popcountll w2), u64 (c3 + popcountll w3))
    end
  else Ok (off, count, cnt).

(** The two folding steps on a 32-bit word, and the third with its mask. *)
Definition swar (aux : Z) : Z :=
  let aux := u32 (aux - Z.land (Z.shiftr aux 1) 0x55555555) in
  u32 (Z.land aux 0x33333333 + Z.land (Z.shiftr aux 2) 0x33333333).
Definition swar4 (aux : Z) : Z := Z.land (u32 (aux + Z.shiftr aux 4)) 0x0F0F0F0F.

(** 28 bytes per round without it. *)
Fixpoint pop_swar (fuel : nat) (s : list Z) (off count bits : Z) : result (Z * Z * Z) :=
  if count >=? 28 then
    match fuel with
    | O => Err OutOfFuel
    | S fuel =>
        let* aux1 := ld32 s off in
        let* aux2 := ld32 s (off + 4) in
        let* aux3 := ld32 s (off + 8) in
        let* aux4 := ld32 s (off + 12) in
        let* aux5 := ld32 s (off + 16) in
        let* aux6 := ld32 s (off + 20) in
        let* aux7 := ld32 s (off + 24) in
        let sum := u32 (swar4 (swar aux1) + swar4 (swar aux2) + swar4 (swar aux3) + swar4 (swar aux4)
                        + swar4 (swar aux5) + swar4 (swar aux6) + swar4 (swar aux7)) in
        pop_swar fuel s (off + 28) (count - 28) (bits + Z.shiftr (u32 (sum * 0x01010101)) 24)
    end
  else Ok (off, count, bits).

(** [s] is the block of [count] bytes at address [addr]. *)
Definition redisPopcount (addr : Z) (use_popcnt : bool) (s : list Z) : result Z :=
  let align := if use_popcnt then 7 else 3 in
  let* (off, count, bits) := pop_align (length s) addr align s 0 (zlen s) 0 in
  let* (off, count, bits) :=
    (if use_popcnt then
       let* (off, count, cnt) := pop_popcnt (length s) s off count (0, 0, 0, 0) in
       let '(c0, c1, c2, c3) := cnt in
       Ok (off, count, i64 (bits + u64 (c0 + c1 + c2 + c3)))
     else pop_swar (length s) s off count bits) in
  pop_remain (length s) s off count bits.

(** * Searching *)

(** The unaligned bytes: position, offset, bytes left, found. *)
Fixpoint bitpos_align (fuel : nat) (addr skipval : Z) (s : list Z) (off count pos : Z)
  : result (Z * Z * Z * bool) :=
  if negb (Z.land (addr + off) 7 =? 0) && negb (count =? 0) then
    match fuel with
    | O => Err OutOfFuel
    | S fuel =>
        let* c := rd1 s off in
        if negb (c =? skipval) then Ok (off, count, pos, true)
        else bitpos_align fuel addr skipval s (off + 1) (count - 1) (pos + 8)
    end
  else Ok (off, count, pos, false).

Fixpoint bitpos_words (fuel : nat) (skipval : Z) (s : list Z) (off count pos : Z) : result (Z * Z * Z) :=
  if count >=? 8 then
    match fuel with
    | O => Err OutOfFuel
    | S fuel =>
        let* l := ld64 s off in
        if negb (l =? skipval) then Ok (off, count, pos)
        else bitpos_words fuel skipval s (off + 8) (count - 8) (pos + 64)
    end
  else Ok (off, count, pos).

(** The bytes left, first byte most significant, zero padded on the right. *)
Fixpoint bitpos_load (j : nat) (s : list Z) (off count word : Z) : result Z :=
  match j with
  | O => Ok word
  | S j =>
      let word := u64 (Z.shiftl word 8) in
      if negb (count =? 0) then
        let* c := rd1 s off in
        bitpos_load j s (off + 1) (count - 1) (Z.lor word c)
      else bitpos_load j s off count word
  end.

Fixpoint bitpos_scan (fuel : nat) (bit word one pos : Z) : result Z :=
  if one =? 0 then Err AssertFailed
  else
    match fuel with
    | O => Err OutOfFuel
    | S fuel =>
        if b2z (negb (Z.land one word =? 0)) =? bit then Ok pos
        else bitpos_scan fuel bit word (Z.shiftr one 1) (pos + 1)
    end.

Definition redisBitpos (addr : Z) (s : list Z) (bit : Z) : result Z :=
  let skipval := if negb (bit =? 0) then 0 else 255 in
  let* (off, count, pos, found) := bitpos_align (length s) addr skipval s 0 (zlen s) 0 in
  let* (off, count, pos) :=
    (if negb found then
       let skipval := if negb (bit =? 0) then 0 else ULLONG_MAX in
       bitpos_words (length s) skipval s off count pos
     else Ok (off, count, pos)) in
  let* word := bitpos_load 8 s off count 0 in
  if (bit =? 1) && (word =? 0) then Ok (-1)
  else
    let one := ULLONG_MAX in
    let one := Z.shiftr one 1 in
    let one := u64 (Z.lnot one) in
    bitpos_scan 65 bit word one pos.
End host.

(** * Bit fields *)

(** One round: write [bitval] at the bit [offset]. *)
Definition set_bit_at (p : list Z) (offset bitval : Z) : result (list Z) :=
  let byte := Z.shiftr offset 3 in
  let bit := 7 - Z.land offset 0x7 in
  let* byteval := rd1 p byte in
  let byteval := Z.land byteval (Z.lnot (Z.shiftl 1 bit)) in
  let byteval := Z.lor byteval (Z.shiftl bitval bit) in
  wr1 p byte (Z.land byteval 0xff).

(** [n] rounds are left. *)
Fixpoint set_bits (n : nat) (p : list Z) (offset value : Z) : result (list Z) :=
  match n with
  | O => Ok p
  | S n =>
      let bitval := b2z (negb (Z.land value (Z.shiftl 1 (Z.of_nat n)) =? 0)) in
      let* p := set_bit_at p offset bitval in
      set_bits n p (offset + 1) value
  end.

Definition setUnsignedBitfield (p : list Z) (offset bits value : Z) : result (list Z) :=
  set_bits (Z.to_nat bits) p offset value.

Definition setSignedBitfield (p : list Z) (offset bits value : Z) : result (list Z) :=
  setUnsignedBitfield p offset bits (u64 value).

Fixpoint get_bits (n : nat) (p : list Z) (offset value : Z) : result Z :=
  match n with
  | O => Ok value
  | S n =>
      let byte := Z.shiftr offset 3 in
      let bit := 7 - Z.land offset 0x7 in
      let* byteval := rd1 p byte in
      let bitval := Z.land (Z.shiftr byteval bit) 1 in
      get_bits n p (offset + 1) (u64 (Z.lor (Z.shiftl value 1) bitval))
  end.

Definition getUnsignedBitfield (p : list Z) (offset bits : Z) : result Z :=
  get_bits (Z.to_nat bits) p offset 0.

Definition getSignedBitfield (p : list Z) (offset bits : Z) : result Z :=
  let* u := getUnsignedBitfield p offset bits in
  let value := i64 u in
  if (bits <? 64) && negb (Z.land (u64 value) (Z.shiftl 1 (bits - 1)) =? 0)
  then Ok (i64 (Z.lor (u64 value) (u64 (Z.shiftl (2 ^ 64 - 1) bits))))
  else Ok value.

(** * Overflow control *)

Inductive bfoverflow := BFOVERFLOW_WRAP | BFOVERFLOW_SAT | BFOVERFLOW_FAIL.

(** The returned value and [*limit], which is left alone ([None]) without
    overflow and for BFOVERFLOW_FAIL.  The conversions to int64_t wrap around
    (two's complement). *)
Definition checkUnsignedBitfieldOverflow (value incr bits : Z) (owtype : bfoverflow) : Z * option Z :=
  let max := if bits =? 64 then ULLONG_MAX else u64 (Z.shiftl 1 bits - 1) in
  let maxincr := i64 (u64 (max - value)) in
  let minincr := i64 (u64 (- value)) in
  let wrap :=
    let mask := u64 (Z.shiftl (2 ^ 64 - 1) bits) in
    let res := u64 (value + incr) in
    Z.land res (u64 (Z.lnot mask)) in
  if (value >? max) || ((incr >? 0) && (incr >? maxincr)) then
    match owtype with
    | BFOVERFLOW_WRAP => (1, Some wrap)
    | BFOVERFLOW_SAT => (1, Some max)
    | BFOVERFLOW_FAIL => (1, None)
    end
  else if (incr <? 0) && (incr <? minincr) then
    match owtype with
    | BFOVERFLOW_WRAP => (1, Some wrap)
    | BFOVERFLOW_SAT => (-1, Some 0)
    | BFOVERFLOW_FAIL => (-1, None)
    end
  else (0, None).

(** [minincr] is a subtraction of int64_t values made before the range of
    [value] is known, without the cast that protects [maxincr]. *)
Definition checkSignedBitfieldOverflow (value incr bits : Z) (owtype : bfoverflow) : result (Z * option Z) :=
  let max := if bits =? 64 then LLONG_MAX else Z.shiftl 1 (bits - 1) - 1 in
  let min := - max - 1 in
  let maxincr := i64 (u64 (max - value)) in
  let* minincr := chk_i64 (min - value) in
  let wrap :=
    let msb := u64 (Z.shiftl 1 (bits - 1)) in
    let c := u64 (u64 value + u64 incr) in
    let c :=
      if bits <? 64 then
        let mask := u64 (Z.shiftl (2 ^ 64 - 1) bits) in
        if negb (Z.land c msb =? 0) then Z.lor c mask else Z.land c (u64 (Z.lnot mask))
      else c in
    i64 c in
  Ok (if (value >? max) || (negb (bits =? 64) && (incr >? maxincr))
         || ((value >=? 0) && (incr >? 0) && (incr >? maxincr)) then
        match owtype with
        | BFOVERFLOW_WRAP => (1, Some wrap)
        | BFOVERFLOW_SAT => (1, Some max)
        | BFOVERFLOW_FAIL => (1, None)
        end
      else if (value <? min) || (negb (bits =? 64) && (incr <? minincr))
              || ((value <? 0) && (incr <? 0) && (incr <? minincr)) then
        match owtype with
        | BFOVERFLOW_WRAP => (1, Some wrap)
        | BFOVERFLOW_SAT => (-1, Some min)
        | BFOVERFLOW_FAIL => (-1, None)
        end
      else (0, None)).
