(* ===== verification/BitopsProofs.v ===== *)
(** BitopsProofs: counting and searching of Bitops against the bits of the
    string, and the bit-field accesses as updates of a segment of them. *)

From Stdlib Require Import ZArith Lia Bool.
From stdpp Require Import base list numbers decidable.
From S2P Require Import Prelude Bytes Bitops.

Local Open Scope Z_scope.

(** * The bits of a string *)

Definition byte_bits (b : Z) : list bool :=
  [Z.testbit b 7; Z.testbit b 6; Z.testbit b 5; Z.testbit b 4;
   Z.testbit b 3; Z.testbit b 2; Z.testbit b 1; Z.testbit b 0].

Definition bits_of (s : list Z) : list bool := concat (map byte_bits s).

(** The number of ones. *)
Definition ones (l : list bool) : Z := fold_right (fun b n => Z.b2z b + n) 0 l.

Lemma bits_of_app a b : bits_of (a ++ b) = bits_of a ++ bits_of b.
Proof. unfold bits_of. by rewrite map_app, concat_app. Qed.

Lemma bits_of_cons b s : bits_of (b :: s) = byte_bits b ++ bits_of s.
Proof. done. Qed.

Lemma length_bits_of s : length (bits_of s) = (8 * length s)%nat.
Proof. induction s as [|b s IH]; [done|]. rewrite bits_of_cons, length_app, IH. cbn. lia. Qed.

Lemma zlen_bits_of s : zlen (bits_of s) = 8 * zlen s.
Proof. unfold zlen. rewrite length_bits_of. lia. Qed.

Lemma ones_app a b : ones (a ++ b) = ones a + ones b.
Proof. induction a as [|x a IH]; [done|]. cbn. fold (ones (a ++ b)) (ones a). lia. Qed.

Lemma ones_range l : 0 <= ones l <= zlen l.
Proof.
  induction l as [|b l IH]; [done|]. rewrite zlen_cons. cbn. fold (ones l). destruct b; cbn; lia.
Qed.

Lemma ones_reverse l : ones (reverse l) = ones l.
Proof.
  induction l as [|b l IH]; [done|]. rewrite reverse_cons, ones_app, IH. cbn. fold (ones l). lia.
Qed.

Lemma ones_bits_reverse s : ones (bits_of (reverse s)) = ones (bits_of s).
Proof.
  induction s as [|b s IH]; [done|]. rewrite reverse_cons, bits_of_app, ones_app, IH, !bits_of_cons, !ones_app.
  change (ones (bits_of [])) with 0. lia.
Qed.

(** * Facts on bytes, by computation *)

Lemma byte_forall (P : Z -> bool) :
  forallb P (map Z.of_nat (seq 0 256)) = true -> forall b, is_byte b -> P b = true.
Proof.
  intros H b Hb. unfold is_byte in Hb. rewrite forallb_forall in H. apply H.
  apply in_map_iff. exists (Z.to_nat b). split; [lia | apply in_seq; lia].
Qed.

Lemma bitsinbyte_ok b : is_byte b -> rd1 bitsinbyte b = Ok (ones (byte_bits b)).
Proof.
  intros Hb.
  pose proof (byte_forall (fun b => match rd1 bitsinbyte b with Ok n => n =? ones (byte_bits b) | _ => false end)
    ltac:(vm_compute; reflexivity) b Hb) as H. cbv beta in H.
  destruct (rd1 bitsinbyte b); [|done]. apply Z.eqb_eq in H. by subst.
Qed.

(** * Words as bytes *)

(** The ones among the first [n] bits of a word. *)
Definition word_ones (n : nat) (x : Z) : Z :=
  fold_right (fun i m => m + Z.b2z (Z.testbit x (Z.of_nat i))) 0 (seq 0 n).

Lemma fold_seq_shift (f : nat -> Z) k n :
  fold_right (fun i m => m + f i) 0 (seq k n) = fold_right (fun i m => m + f (k + i)%nat) 0 (seq 0 n).
Proof.
  replace (seq k n) with (Nat.add k <$> seq 0 n) by (rewrite fmap_add_seq; f_equal; lia).
  by rewrite foldr_fmap.
Qed.

Lemma word_ones_add k n x :
  word_ones (k + n) x = word_ones k x + word_ones n (Z.shiftr x (Z.of_nat k)).
Proof.
  unfold word_ones. rewrite seq_app, foldr_app.
  assert (forall l z, fold_right (fun i m => m + Z.b2z (Z.testbit x (Z.of_nat i))) z l
            = fold_right (fun i m => m + Z.b2z (Z.testbit x (Z.of_nat i))) 0 l + z) as Hz.
  { intros l z. induction l as [|a l IH]; [done|]. cbn. rewrite IH. lia. }
  rewrite Hz. f_equal. rewrite (fold_seq_shift (fun i => Z.b2z (Z.testbit x (Z.of_nat i)))). cbn [Nat.add].
  clear Hz. induction (seq 0 n) as [|a l IH]; [done|]. cbn. rewrite IH. do 2 f_equal.
  rewrite Z.shiftr_spec by lia. f_equal. lia.
Qed.

Lemma word_ones_byte x : word_ones 8 x = ones (byte_bits x).
Proof. unfold word_ones, byte_bits, ones. cbv [seq fold_right Z.of_nat Pos.of_succ_nat Pos.succ]. lia. Qed.

Lemma byte_bits_low b a : ones (byte_bits (b + 256 * a)) = ones (byte_bits b).
Proof.
  unfold byte_bits.
  assert (forall i, 0 <= i < 8 -> Z.testbit (b + 256 * a) i = Z.testbit b i) as H.
  { intros i Hi. rewrite <- (Z.mod_pow2_bits_low (b + 256 * a) 8 i), <- (Z.mod_pow2_bits_low b 8 i) by lia.
    f_equal. change (2 ^ 8) with 256. rewrite (Z.mul_comm 256 a). apply Z_mod_plus_full. }
  by rewrite !H by lia.
Qed.

Lemma word_ones_le s : Forall is_byte s -> word_ones (8 * length s) (le_val s) = ones (bits_of s).
Proof.
  induction 1 as [|b s Hb _ IH]; [done|]. cbn [length le_val]. rewrite bits_of_cons, ones_app, <- IH.
  replace (8 * S (length s))%nat with (8 + 8 * length s)%nat by lia.
  rewrite word_ones_add, word_ones_byte, byte_bits_low. f_equal. f_equal. unfold is_byte in Hb.
  rewrite Z.shiftr_div_pow2 by lia. change (2 ^ Z.of_nat 8) with 256.
  rewrite (Z.mul_comm 256), Z.div_add by lia. rewrite Z.div_small by lia. lia.
Qed.

Lemma popcountll_ones x : popcountll x = word_ones 64 x.
Proof. unfold popcountll, word_ones. reflexivity. Qed.

Lemma popcountll_load {host : HostEndian} w :
  Forall is_byte w -> length w = 8%nat -> popcountll (load w) = ones (bits_of w).
Proof.
  intros Hb Hl. rewrite popcountll_ones. unfold load. destruct host_is_be.
  - rewrite <- ones_bits_reverse, <- word_ones_le by (by apply Forall_reverse).
    rewrite length_reverse, Hl. reflexivity.
  - rewrite <- word_ones_le, Hl by done. reflexivity.
Qed.

(** * The folding of a 32-bit word, byte by byte *)

Lemma le_val_map2 (f g h : Z -> Z) s :
  (forall b, In b s -> h b = f b + g b) -> le_val (map h s) = le_val (map f s) + le_val (map g s).
Proof.
  induction s as [|b s IH]; intros H; [done|]. cbn [map le_val].
  rewrite IH, H; [lia | by left | intros x Hx; apply H; by right].
Qed.

Lemma land_digit b a m n :
  is_byte b -> is_byte m -> Z.land (b + 256 * a) (m + 256 * n) = Z.land b m + 256 * Z.land a n.
Proof.
  intros Hb Hm. unfold is_byte in *.
  assert (forall x y, 0 <= x < 256 -> x + 256 * y = Z.lor x (Z.shiftl y 8)) as E.
  { intros x y Hx. rewrite lor_disjoint by (change (2 ^ 8) with 256; lia). change (2 ^ 8) with 256. lia. }
  assert (0 <= Z.land b m < 256) as Hl.
  { split; [apply Z.land_nonneg; lia|].
    destruct (Z.eq_dec (Z.land b m) 0) as [->|]; [lia|].
    pose proof (Z.land_nonneg b m). pose proof (Z.log2_land b m).
    apply (Z.log2_lt_pow2 _ 8); [lia|].
    destruct (Z.eq_dec b 0) as [->|]; [by rewrite Z.land_0_l in *|].
    assert (Z.log2 b < 8) by (apply Z.log2_lt_pow2; lia). lia. }
  rewrite !E by done. apply Z.bits_inj'. intros i Hi.
  rewrite Z.land_spec, !Z.lor_spec, Z.land_spec, !Z.shiftl_spec, Z.land_spec by lia.
  destruct (Z.lt_ge_cases i 8).
  - rewrite !(Z.testbit_neg_r _ (i - 8)) by lia. cbn. by rewrite !orb_false_r.
  - assert (forall x, 0 <= x < 256 -> Z.testbit x i = false) as Hz.
    { intros x Hx. destruct (Z.eq_dec x 0) as [->|]; [apply Z.bits_0|].
      apply Z.bits_above_log2; [lia|]. assert (Z.log2 x < 8) by (apply Z.log2_lt_pow2; lia). lia. }
    by rewrite !Hz by lia.
Qed.

(** A shift masked inside each byte. *)
Lemma shift_mask_bytes k m s :
  0 <= k < 8 -> 0 <= m < 2 ^ (8 - k) -> Forall is_byte s ->
  Z.land (Z.shiftr (le_val s) k) (le_val (map (fun _ => m) s))
  = le_val (map (fun b => Z.land (Z.shiftr b k) m) s).
Proof.
  intros Hk Hm. induction 1 as [|b s Hb _ IH]; [apply Z.land_0_r|]. cbn [map le_val]. rewrite <- IH.
  assert (2 ^ (8 - k) <= 256) by (change 256 with (2 ^ 8); apply Z.pow_le_mono_r; lia).
  unfold is_byte in *.
  assert (Z.shiftr (b + 256 * le_val s) k
          = Z.shiftr b k + 2 ^ (8 - k) * Z.land (le_val s) (Z.ones k) + 256 * Z.shiftr (le_val s) k) as ->.
  { rewrite Z.land_ones, !Z.shiftr_div_pow2 by lia.
    assert (256 = 2 ^ (8 - k) * 2 ^ k) as E8 by (rewrite <- Z.pow_add_r by lia; replace (8 - k + k) with 8 by lia; done).
    set (p := 2 ^ (8 - k)) in *. set (q := 2 ^ k) in *.
    assert (0 < q) by (unfold q; apply Z.pow_pos_nonneg; lia). assert (0 < p) by (unfold p; apply Z.pow_pos_nonneg; lia).
    replace (b + 256 * le_val s) with (b + (p * le_val s) * q) by (rewrite E8; lia).
    rewrite Z.div_add by lia. rewrite (Z.div_mod (le_val s) q) at 1 by lia. rewrite E8. lia. }
  set (hi := Z.land (le_val s) (Z.ones k)). set (p := 2 ^ (8 - k)) in *.
  assert (0 <= hi < 2 ^ k) as Hhi.
  { unfold hi. rewrite Z.land_ones by lia. apply Z.mod_pos_bound. apply Z.pow_pos_nonneg; lia. }
  assert (p * 2 ^ k = 256) as Hpk by (unfold p; rewrite <- Z.pow_add_r by lia; replace (8 - k + k) with 8 by lia; done).
  assert (0 <= Z.shiftr b k < p) as Hbk.
  { rewrite Z.shiftr_div_pow2 by lia. split; [apply Z.div_pos; [lia | apply Z.pow_pos_nonneg; lia]|].
    apply Z.div_lt_upper_bound; [apply Z.pow_pos_nonneg; lia | lia]. }
  rewrite land_digit; [| unfold is_byte; nia | unfold is_byte; lia]. f_equal.
  apply Z.bits_inj'. intros i Hi. rewrite !Z.land_spec. destruct (Z.lt_ge_cases i (8 - k)).
  - f_equal. rewrite (Z.mul_comm p hi). unfold p.
    rewrite <- (Z.mod_pow2_bits_low (Z.shiftr b k + hi * 2 ^ (8 - k)) (8 - k)) by lia.
    rewrite Z_mod_plus_full. by rewrite Z.mod_pow2_bits_low by lia.
  - assert (Z.testbit m i = false) as ->; [|by rewrite !andb_false_r].
    destruct (Z.eq_dec m 0) as [->|]; [apply Z.bits_0|]. apply Z.bits_above_log2; [lia|].
    assert (Z.log2 m < 8 - k) by (apply Z.log2_lt_pow2; unfold p in *; lia). lia.
Qed.

Definition sw1 (b : Z) : Z := b - Z.land (Z.shiftr b 1) 0x55.
Definition sw2 (b : Z) : Z := Z.land (sw1 b) 0x33 + Z.land (Z.shiftr (sw1 b) 2) 0x33.

(** The byte after the two steps: two counts of at most four. *)
Definition sw_ok (b : Z) : bool :=
  (0 <=? sw1 b) && (sw1 b <? 256) && (sw2 b mod 16 <=? 4) && (0 <=? sw2 b / 16) && (sw2 b / 16 <=? 4)
  && (sw2 b mod 16 + sw2 b / 16 =? ones (byte_bits b)).

Lemma sw_byte b : is_byte b -> sw_ok b = true.
Proof. apply byte_forall. vm_compute. reflexivity. Qed.

Lemma le_val_range4 (s : list Z) : Forall is_byte s -> length s = 4%nat -> 0 <= le_val s < 2 ^ 32.
Proof. intros Hb Hl. pose proof (le_val_range s Hb) as H. unfold zlen in H. by rewrite Hl in H. Qed.

Lemma mask4 m (s : list Z) : length s = 4%nat -> le_val (map (fun _ => m) s) = m * 0x01010101.
Proof. destruct s as [|? [|? [|? [|? [|]]]]]; try done. intros _. cbn [map le_val]. lia. Qed.

Lemma swar_bytes s :
  Forall is_byte s -> length s = 4%nat -> swar (le_val s) = le_val (map sw2 s).
Proof.
  intros Hb Hl. unfold swar.
  assert (Forall is_byte (map sw1 s)) as Hb1.
  { apply Forall_map. eapply list.Forall_impl; [exact Hb|]. intros b H%sw_byte. unfold sw_ok in H. unfold is_byte. lia. }
  assert (Forall is_byte (map sw2 s)) as Hb2.
  { apply Forall_map. eapply list.Forall_impl; [exact Hb|]. intros b H%sw_byte. unfold sw_ok in H.
    pose proof (Z.div_mod (sw2 b) 16). pose proof (Z.mod_pos_bound (sw2 b) 16). unfold is_byte. lia. }
  pose proof (le_val_range4 (map sw1 s) Hb1 ltac:(by rewrite length_map)) as Hr1.
  pose proof (le_val_range4 (map sw2 s) Hb2 ltac:(by rewrite length_map)) as Hr2.
  replace (0x55555555) with (le_val (map (fun _ => 0x55) s)) by (by rewrite mask4).
  rewrite shift_mask_bytes by (done || lia || (split; [lia | reflexivity])).
  assert (le_val s - le_val (map (fun b => Z.land (Z.shiftr b 1) 0x55) s) = le_val (map sw1 s)) as ->.
  { pose proof (le_val_map2 sw1 (fun b => Z.land (Z.shiftr b 1) 0x55) (fun b => b) s) as H.
    rewrite map_id in H. rewrite H; [lia|]. intros b _. unfold sw1. lia. }
  rewrite (wrapU_small 32 (le_val (map sw1 s)) Hr1).
  assert (forall k, 0 <= k < 8 -> 0x33 < 2 ^ (8 - k) ->
    Z.land (Z.shiftr (le_val (map sw1 s)) k) 0x33333333 = le_val (map (fun b => Z.land (Z.shiftr (sw1 b) k) 0x33) s)) as Hm.
  { intros k Hk H33. replace 0x33333333 with (le_val (map (fun _ => 0x33) (map sw1 s)))
      by (rewrite mask4 by (by rewrite length_map); done).
    rewrite shift_mask_bytes by (done || lia). by rewrite map_map. }
  pose proof (Hm 0) as Hm0. rewrite Z.shiftr_0_r in Hm0. rewrite Hm0, Hm by (lia || reflexivity).
  rewrite <- (le_val_map2 _ _ sw2); [by apply wrapU_small|].
  intros b _. unfold sw2. by rewrite Z.shiftr_0_r.
Qed.

(** The third step leaves the count of each byte. *)
Lemma swar4_bytes s :
  Forall is_byte s -> length s = 4%nat ->
  swar4 (swar (le_val s)) = le_val (map (fun b => ones (byte_bits b)) s).
Proof.
  intros Hb Hl. rewrite swar_bytes by done. unfold swar4.
  destruct s as [|b0 [|b1 [|b2 [|b3 [|]]]]]; try done. clear Hl.
  apply Forall_cons_1 in Hb as [H0%sw_byte Hb]. apply Forall_cons_1 in Hb as [H1%sw_byte Hb].
  apply Forall_cons_1 in Hb as [H2%sw_byte Hb]. apply Forall_cons_1 in Hb as [H3%sw_byte _].
  unfold sw_ok in *. cbn [map le_val]. rewrite !Z.mul_0_r, !Z.add_0_r.
  pose proof (Z.div_mod (sw2 b0) 16 ltac:(done)) as E0. pose proof (Z.div_mod (sw2 b1) 16 ltac:(done)) as E1.
  pose proof (Z.div_mod (sw2 b2) 16 ltac:(done)) as E2. pose proof (Z.div_mod (sw2 b3) 16 ltac:(done)) as E3.
  pose proof (Z.mod_pos_bound (sw2 b0) 16 ltac:(done)). pose proof (Z.mod_pos_bound (sw2 b1) 16 ltac:(done)).
  pose proof (Z.mod_pos_bound (sw2 b2) 16 ltac:(done)). pose proof (Z.mod_pos_bound (sw2 b3) 16 ltac:(done)).
  set (l0 := sw2 b0 mod 16) in *. set (h0 := sw2 b0 / 16) in *. set (l1 := sw2 b1 mod 16) in *.
  set (h1 := sw2 b1 / 16) in *. set (l2 := sw2 b2 mod 16) in *. set (h2 := sw2 b2 / 16) in *.
  set (l3 := sw2 b3 mod 16) in *. set (h3 := sw2 b3 / 16) in *.
  set (x := sw2 b0 + 256 * (sw2 b1 + 256 * (sw2 b2 + 256 * sw2 b3))).
  assert (Z.shiftr x 4 = h0 + 16 * (l1 + 16 * h1) + 4096 * (l2 + 16 * h2) + 1048576 * (l3 + 16 * h3)) as ->.
  { rewrite Z.shiftr_div_pow2 by done. symmetry. apply (Z.div_unique _ _ _ l0); [change (2 ^ 4) with 16; lia|].
    change (2 ^ 4) with 16. unfold x. lia. }
  rewrite wrapU_small by (change (2 ^ 32) with 4294967296; unfold x; lia).
  replace (x + _) with
    ((l0 + h0 + 16 * (h0 + l1)) + 256 * ((l1 + h1 + 16 * (h1 + l2)) + 256 * ((l2 + h2 + 16 * (h2 + l3))
      + 256 * ((l3 + h3 + 16 * h3) + 256 * 0)))) by (unfold x; lia).
  change 0x0F0F0F0F with (15 + 256 * (15 + 256 * (15 + 256 * (15 + 256 * 0)))).
  assert (forall a c, 0 <= a < 16 -> Z.land (a + 16 * c) 15 = a) as Hnib.
  { intros a c Ha. change 15 with (Z.ones 4). rewrite Z.land_ones by done. change (2 ^ 4) with 16.
    rewrite (Z.mul_comm 16 c), Z_mod_plus_full. by apply Z.mod_small. }
  rewrite !land_digit by (unfold is_byte; lia). rewrite !Hnib by lia. change (Z.land 0 0) with 0.
  assert (l0 + h0 = ones (byte_bits b0) /\ l1 + h1 = ones (byte_bits b1) /\
          l2 + h2 = ones (byte_bits b2) /\ l3 + h3 = ones (byte_bits b3)) as (-> & -> & -> & ->) by lia.
  lia.
Qed.

(** Seven words folded, multiplied and shifted: their ones. *)
Lemma swar_sum x0 x1 x2 x3 :
  0 <= x0 -> 0 <= x1 -> 0 <= x2 -> 0 <= x3 -> x0 + x1 + x2 + x3 < 256 ->
  Z.shiftr (u32 ((x0 + 256 * (x1 + 256 * (x2 + 256 * x3))) * 0x01010101)) 24 = x0 + x1 + x2 + x3.
Proof.
  intros. rewrite Z.shiftr_div_pow2 by done. change (2 ^ 24) with 16777216.
  unfold wrapU. change (2 ^ 32) with 4294967296.
  set (low := x0 + 256 * (x0 + x1) + 65536 * (x0 + x1 + x2)).
  assert (0 <= low < 16777216) by (unfold low; lia).
  match goal with |- (?a mod ?m) / _ = _ =>
    assert (a mod m = 16777216 * (x0 + x1 + x2 + x3) + low) as ->
      by (symmetry; apply (Z.mod_unique _ _ (x1 + x2 + x3 + 256 * (x2 + x3) + 65536 * x3));
          [left; lia | unfold low; lia]) end.
  symmetry. by apply (Z.div_unique _ _ _ low); [lia|].
Qed.

(** * The counting loops *)

(** The ones before the offset. *)
Definition ones_to (s : list Z) (off : Z) : Z := ones (bits_of (take (Z.to_nat off) s)).

Lemma ones_to_add s off n : 0 <= off -> 0 <= n -> ones_to s (off + n) = ones_to s off + ones (bits_of (seg s off n)).
Proof.
  intros Ho Hn. unfold ones_to, seg. rewrite <- ones_app, <- bits_of_app. do 2 f_equal.
  rewrite Z2Nat.inj_add by done. symmetry. apply take_take_drop.
Qed.

Lemma ones_to_all s : ones_to s (zlen s) = ones (bits_of s).
Proof. unfold ones_to, zlen. by rewrite Nat2Z.id, take_ge. Qed.

Section count.
Context {host : HostEndian} (s : list Z).
Hypothesis s_bytes : Forall is_byte s.

Lemma rd1_seg off : 0 <= off < zlen s -> exists b, rd1 s off = Ok b /\ is_byte b /\ seg s off 1 = [b].
Proof.
  intros Ho. destruct (rd1_ok s off Ho) as (b & E & Hb). exists b. split; [done|].
  split; [by apply (list.Forall_lookup_1 _ s (Z.to_nat off))|]. unfold seg.
  by rewrite (drop_S _ _ _ Hb).
Qed.

Lemma count_byte_ok off bits :
  0 <= off < zlen s -> bits = ones_to s off -> count_byte s off bits = Ok (ones_to s (off + 1)).
Proof.
  intros Ho ->. destruct (rd1_seg off Ho) as (b & E & Hb & Hs). unfold count_byte. rewrite E. runr.
  rewrite bitsinbyte_ok by done. runr. rewrite ones_to_add, Hs, bits_of_cons, ones_app by lia.
  change (ones (bits_of [])) with 0. f_equal. lia.
Qed.

Lemma pop_align_ok addr align fuel : forall off count,
  0 <= off -> off + count = zlen s -> 0 <= count <= Z.of_nat fuel ->
  exists off' count', pop_align fuel addr align s off count (ones_to s off) = Ok (off', count', ones_to s off') /\
    off <= off' /\ off' + count' = zlen s /\ 0 <= count'.
Proof.
  induction fuel as [|fuel IH]; intros off count Ho Hz Hc; cbn [pop_align].
  - replace count with 0 by lia. rewrite andb_false_r. exists off, 0. split; [done | lia].
  - destruct (negb (Z.land (addr + off) align =? 0) && negb (count =? 0)) eqn:E; [|exists off, count; split; [done | lia]].
    apply andb_true_iff in E as [_ E%negb_true_iff]. apply Z.eqb_neq in E.
    rewrite count_byte_ok by (done || lia). runr.
    destruct (IH (off + 1) (count - 1)) as (off' & count' & -> & ?); [lia..|]. exists off', count'. split; [done | lia].
Qed.

Lemma pop_remain_ok fuel : forall off count,
  0 <= off -> off + count = zlen s -> 0 <= count <= Z.of_nat fuel ->
  pop_remain fuel s off count (ones_to s off) = Ok (ones (bits_of s)).
Proof.
  induction fuel as [|fuel IH]; intros off count Ho Hz Hc; cbn [pop_remain].
  - replace count with 0 by lia. cbn. rewrite <- ones_to_all. do 2 f_equal. lia.
  - destruct (Z.eqb_spec count 0); [rewrite <- ones_to_all; do 2 f_equal; lia|].
    rewrite count_byte_ok by (done || lia). runr. apply IH; lia.
Qed.

Lemma ld64_pop off : 0 <= off -> off + 8 <= zlen s ->
  exists w, ld64 s off = Ok w /\ popcountll w = ones_to s (off + 8) - ones_to s off.
Proof.
  intros Ho Hz. unfold ld64. rewrite rdn_seg by lia. runr. eexists. split; [done|].
  rewrite popcountll_load; [rewrite ones_to_add by lia; lia | by apply seg_bytes | by apply seg_length].
Qed.

Lemma ones_to_range off : 0 <= off <= zlen s -> 0 <= ones_to s off <= 8 * zlen s.
Proof.
  intros Ho. unfold ones_to. pose proof (ones_range (bits_of (take (Z.to_nat off) s))) as H.
  rewrite zlen_bits_of, zlen_take in H by lia. lia.
Qed.

Lemma ones_to_mono a b : 0 <= a -> a <= b -> ones_to s a <= ones_to s b.
Proof.
  intros Ha Hab. replace b with (a + (b - a)) by lia. rewrite ones_to_add by lia.
  pose proof (ones_range (bits_of (seg s a (b - a)))). lia.
Qed.

Hypothesis s_small : 8 * zlen s < 2 ^ 63.

Lemma pop_popcnt_ok fuel : forall off count c0 c1 c2 c3 base,
  0 <= off -> off + count = zlen s -> 0 <= count <= Z.of_nat fuel ->
  0 <= c0 -> 0 <= c1 -> 0 <= c2 -> 0 <= c3 -> 0 <= base -> base + (c0 + c1 + c2 + c3) = ones_to s off ->
  exists off' count' d0 d1 d2 d3,
    pop_popcnt fuel s off count (c0, c1, c2, c3) = Ok (off', count', (d0, d1, d2, d3)) /\
    off <= off' /\ off' + count' = zlen s /\ 0 <= count' /\
    0 <= d0 + d1 + d2 + d3 /\ base + (d0 + d1 + d2 + d3) = ones_to s off'.
Proof.
  induction fuel as [|fuel IH]; intros off count c0 c1 c2 c3 base Ho Hz Hc H0 H1 H2 H3 Hb Hsum; cbn [pop_popcnt];
    rewrite Z.geb_leb; (destruct (Z.leb_spec 32 count) as [Hge|]; [|exists off, count, c0, c1, c2, c3; split; [done | lia]]).
  - lia.
  - destruct (ld64_pop off) as (w0 & -> & E0); [lia..|]. destruct (ld64_pop (off + 8)) as (w1 & -> & E1); [lia..|].
    destruct (ld64_pop (off + 16)) as (w2 & -> & E2); [lia..|]. destruct (ld64_pop (off + 24)) as (w3 & -> & E3); [lia..|].
    runr. replace (off + 8 + 8) with (off + 16) in E1 by lia. replace (off + 16 + 8) with (off + 24) in E2 by lia.
    replace (off + 24 + 8) with (off + 32) in E3 by lia.
    pose proof (ones_to_mono off (off + 8)). pose proof (ones_to_mono (off + 8) (off + 16)).
    pose proof (ones_to_mono (off + 16) (off + 24)). pose proof (ones_to_mono (off + 24) (off + 32)).
    pose proof (ones_to_range (off + 32)). assert (2 ^ 63 < 2 ^ 64) by done.
    rewrite !wrapU_small by lia.
    destruct (IH (off + 32) (count - 32) (c0 + popcountll w0) (c1 + popcountll w1) (c2 + popcountll w2)
                (c3 + popcountll w3) base) as (off' & count' & d0 & d1 & d2 & d3 & -> & ?); [lia..|].
    exists off', count', d0, d1, d2, d3. split; [done | lia].
Qed.

Lemma ld32_pop off : 0 <= off -> off + 4 <= zlen s ->
  exists w x0 x1 x2 x3, ld32 s off = Ok w /\ swar4 (swar w) = x0 + 256 * (x1 + 256 * (x2 + 256 * x3)) /\
    0 <= x0 <= 8 /\ 0 <= x1 <= 8 /\ 0 <= x2 <= 8 /\ 0 <= x3 <= 8 /\
    x0 + x1 + x2 + x3 = ones_to s (off + 4) - ones_to s off.
Proof.
  intros Ho Hz. unfold ld32. rewrite rdn_seg by lia. runr.
  set (w := seg s off 4). assert (Forall is_byte w) as Hw by (by apply seg_bytes).
  assert (length w = 4%nat) as Hl by (by apply seg_length).
  assert (exists v, load w = le_val v /\ Forall is_byte v /\ length v = 4%nat /\
            ones (bits_of v) = ones_to s (off + 4) - ones_to s off) as (v & -> & Hv & Hlv & Hone).
  { assert (ones (bits_of w) = ones_to s (off + 4) - ones_to s off) as E by (rewrite ones_to_add by lia; unfold w; lia).
    unfold load. destruct host_is_be; [|by exists w]. exists (reverse w).
    rewrite ones_bits_reverse, length_reverse. split_and!; [done | by apply Forall_reverse | done | done]. }
  eexists. rewrite swar4_bytes by done. destruct v as [|b0 [|b1 [|b2 [|b3 [|]]]]]; try done.
  exists (ones (byte_bits b0)), (ones (byte_bits b1)), (ones (byte_bits b2)), (ones (byte_bits b3)).
  split; [done|]. cbn [map le_val]. split; [lia|]. rewrite !bits_of_cons, !ones_app in Hone.
  change (ones (bits_of [])) with 0 in Hone.
  pose proof (ones_range (byte_bits b0)). pose proof (ones_range (byte_bits b1)).
  pose proof (ones_range (byte_bits b2)). pose proof (ones_range (byte_bits b3)).
  change (zlen (byte_bits _)) with 8 in *. lia.
Qed.

Lemma pop_swar_ok fuel : forall off count,
  0 <= off -> off + count = zlen s -> 0 <= count <= Z.of_nat fuel ->
  exists off' count', pop_swar fuel s off count (ones_to s off) = Ok (off', count', ones_to s off') /\
    off <= off' /\ off' + count' = zlen s /\ 0 <= count'.
Proof.
  induction fuel as [|fuel IH]; intros off count Ho Hz Hc; cbn [pop_swar]; rewrite Z.geb_leb;
    (destruct (Z.leb_spec 28 count) as [Hge|]; [|exists off, count; split; [done | lia]]).
  - lia.
  - destruct (ld32_pop off) as (w1 & a0 & a1 & a2 & a3 & -> & Ea & ? & ? & ? & ? & Sa); [lia..|].
    destruct (ld32_pop (off + 4)) as (w2 & b0 & b1 & b2 & b3 & -> & Eb & ? & ? & ? & ? & Sb); [lia..|].
    destruct (ld32_pop (off + 8)) as (w3 & c0 & c1 & c2 & c3 & -> & Ec & ? & ? & ? & ? & Sc); [lia..|].
    destruct (ld32_pop (off + 12)) as (w4 & d0 & d1 & d2 & d3 & -> & Ed & ? & ? & ? & ? & Sd); [lia..|].
    destruct (ld32_pop (off + 16)) as (w5 & e0 & e1 & e2 & e3 & -> & Ee & ? & ? & ? & ? & Se); [lia..|].
    destruct (ld32_pop (off + 20)) as (w6 & f0 & f1 & f2 & f3 & -> & Ef & ? & ? & ? & ? & Sf); [lia..|].
    destruct (ld32_pop (off + 24)) as (w7 & g0 & g1 & g2 & g3 & -> & Eg & ? & ? & ? & ? & Sg); [lia..|].
    runr. rewrite Ea, Eb, Ec, Ed, Ee, Ef, Eg.
    match goal with |- context [Z.shiftr (u32 (u32 ?v * _)) 24] =>
      rewrite (wrapU_small 32 v) by (change (2 ^ 32) with 4294967296; lia);
      replace v with ((a0+b0+c0+d0+e0+f0+g0) + 256 * ((a1+b1+c1+d1+e1+f1+g1) + 256 * ((a2+b2+c2+d2+e2+f2+g2)
        + 256 * (a3+b3+c3+d3+e3+f3+g3)))) by lia end.
    rewrite swar_sum by lia.
    replace (off + 4 + 4) with (off + 8) in Sb by lia. replace (off + 8 + 4) with (off + 12) in Sc by lia.
    replace (off + 12 + 4) with (off + 16) in Sd by lia. replace (off + 16 + 4) with (off + 20) in Se by lia.
    replace (off + 20 + 4) with (off + 24) in Sf by lia. replace (off + 24 + 4) with (off + 28) in Sg by lia.
    match goal with |- context [pop_swar fuel s _ _ ?v] => replace v with (ones_to s (off + 28)) by lia end.
    destruct (IH (off + 28) (count - 28)) as (off' & count' & -> & ?); [lia..|]. exists off', count'. split; [done | lia].
Qed.

Lemma redisPopcount_ok addr use_popcnt : redisPopcount addr use_popcnt s = Ok (ones (bits_of s)).
Proof.
  unfold redisPopcount. pose proof (zlen_nonneg s).
  destruct (pop_align_ok addr (if use_popcnt then 7 else 3) (length s) 0 (zlen s)) as (off & count & E & Ho & Hz & Hc);
    [lia | lia | unfold zlen; lia|].
  change (ones_to s 0) with 0 in E. rewrite E. runr. assert (count <= Z.of_nat (length s)) by (unfold zlen in *; lia).
  destruct use_popcnt.
  - destruct (pop_popcnt_ok (length s) off count 0 0 0 0 (ones_to s off))
      as (off' & count' & d0 & d1 & d2 & d3 & -> & Ho' & Hz' & Hc' & Hd & Hsum); try lia.
    { apply (ones_to_range off). lia. }
    runr. pose proof (ones_to_range off). pose proof (ones_to_range off').
    assert (2 ^ 63 < 2 ^ 64) by done. rewrite (wrapU_small 64) by lia. rewrite Hsum, wrapS_small by lia.
    apply pop_remain_ok; lia.
  - destruct (pop_swar_ok (length s) off count) as (off' & count' & -> & Ho' & Hz' & Hc'); [lia..|].
    runr. apply pop_remain_ok; lia.
Qed.
End count.

(** * Searching *)

(** The index of the first [b], the length if there is none. *)
Fixpoint fpos (b : bool) (l : list bool) : Z :=
  match l with
  | [] => 0
  | x :: l => if eqb x b then 0 else 1 + fpos b l
  end.

Lemma fpos_range b l : 0 <= fpos b l <= zlen l.
Proof.
  induction l as [|x l IH]; [done|]. rewrite zlen_cons. cbn [fpos]. destruct (eqb x b); lia.
Qed.

Lemma fpos_app b l m : fpos b (l ++ m) = if fpos b l <? zlen l then fpos b l else zlen l + fpos b m.
Proof.
  induction l as [|x l IH]; [done|]. cbn [app fpos]. rewrite zlen_cons. pose proof (fpos_range b l).
  pose proof (zlen_nonneg l). destruct (eqb x b); [by rewrite (proj2 (Z.ltb_lt _ _)) by lia|].
  rewrite IH. destruct (Z.ltb_spec (fpos b l) (zlen l)).
  - by rewrite (proj2 (Z.ltb_lt _ _)) by lia.
  - rewrite (proj2 (Z.ltb_ge _ _)) by lia. lia.
Qed.

(** What the index means. *)
Lemma fpos_spec b l i :
  0 <= i -> (fpos b l = i /\ i < zlen l <-> l !! Z.to_nat i = Some b /\ forall j, (j < Z.to_nat i)%nat -> l !! j = Some (negb b)).
Proof.
  revert i. induction l as [|x l IH]; intros i Hi; cbn [fpos].
  { rewrite lookup_nil. change (zlen (@nil bool)) with 0. split; [lia | intros [? _]; done]. }
  rewrite zlen_cons. destruct (eqb x b) eqn:E.
  - apply eqb_prop in E as ->. split.
    + intros [<- _]. split; [done | lia].
    + intros [_ H]. destruct (Z.eq_dec i 0) as [->|]; [pose proof (zlen_nonneg l); lia|].
      specialize (H 0%nat ltac:(lia)). by destruct b.
  - assert (x = negb b) as -> by (by destruct x, b).
    pose proof (fpos_range b l). split.
    + intros [<- Hl]. replace (Z.to_nat (1 + fpos b l)) with (S (Z.to_nat (fpos b l))) by lia.
      destruct (proj1 (IH (fpos b l) ltac:(lia)) ltac:(lia)) as [H1 H2]. split; [done|].
      intros [|j] Hj; [done|]. apply H2. lia.
    + intros [H1 H2]. destruct (Z.eq_dec i 0) as [->|]; [by destruct b|].
      replace (Z.to_nat i) with (S (Z.to_nat (i - 1))) in * by lia.
      destruct (proj2 (IH (i - 1) ltac:(lia))) as [E1 ?]; [|lia].
      split; [done|]. intros j Hj. apply (H2 (S j)). lia.
Qed.

(** The big-endian value of bytes and its bits. *)
Definition be_val (l : list Z) : Z := fold_left (fun v b => 256 * v + b) l 0.

Definition word_bits (n : nat) (x : Z) : list bool :=
  map (fun i => Z.testbit x (Z.of_nat (n - 1 - i))) (seq 0 n).

Lemma be_val_snoc l b : be_val (l ++ [b]) = 256 * be_val l + b.
Proof. unfold be_val. by rewrite fold_left_app. Qed.

Lemma testbit_digit a b i : is_byte b -> 0 <= i ->
  Z.testbit (256 * a + b) i = if i <? 8 then Z.testbit b i else Z.testbit a (i - 8).
Proof.
  intros Hb Hi. unfold is_byte in Hb.
  replace (256 * a + b) with (Z.lor b (Z.shiftl a 8)) by (rewrite lor_disjoint; change (2 ^ 8) with 256; lia).
  rewrite Z.lor_spec, Z.shiftl_spec by done. destruct (Z.ltb_spec i 8).
  - by rewrite (Z.testbit_neg_r _ (i - 8)), orb_false_r by lia.
  - destruct (Z.eq_dec b 0) as [->|]; [by rewrite Z.bits_0|].
    rewrite Z.bits_above_log2; [done | lia |]. assert (Z.log2 b < 8) by (apply Z.log2_lt_pow2; lia). lia.
Qed.

Lemma be_val_bits l : Forall is_byte l -> word_bits (8 * length l) (be_val l) = bits_of l.
Proof.
  induction l as [|b l IH] using rev_ind; intros Hb; [done|].
  apply Forall_app in Hb as [Hl [Hb _]%Forall_cons_1]. rewrite be_val_snoc, bits_of_app, length_app, <- IH by done.
  cbn [length]. unfold word_bits. replace (8 * (length l + 1))%nat with (8 * length l + 8)%nat by lia.
  rewrite seq_app, map_app. f_equal.
  - apply map_ext_in. intros i Hi%in_seq. rewrite testbit_digit by (done || lia).
    rewrite (proj2 (Z.ltb_ge _ _)) by lia. f_equal. lia.
  - change (bits_of [b]) with (byte_bits b ++ []). rewrite app_nil_r.
    unfold byte_bits. cbn [seq map].
    repeat (apply (f_equal2 cons);
      [rewrite testbit_digit by (done || lia); rewrite (proj2 (Z.ltb_lt _ _)) by lia; f_equal; lia|]).
    done.
Qed.

Lemma be_val_range l : Forall is_byte l -> 0 <= be_val l < 2 ^ (8 * zlen l).
Proof.
  induction l as [|b l IH] using rev_ind; intros Hb; [done|].
  apply Forall_app in Hb as [Hl [Hb _]%Forall_cons_1]. specialize (IH Hl). rewrite be_val_snoc, zlen_app.
  change (zlen [b]) with 1. replace (8 * (zlen l + 1)) with (8 * zlen l + 8) by lia.
  pose proof (zlen_nonneg l). rewrite Z.pow_add_r by lia. change (2 ^ 8) with 256. unfold is_byte in Hb. lia.
Qed.

(** The last loop: the first bit from the top of the [n] low bits. *)
Lemma scan_ok bit word fuel : forall (n : nat) pos,
  (n < fuel)%nat -> fpos bit (word_bits n word) < Z.of_nat n ->
  bitpos_scan fuel (b2z bit) word (if n is S k then 2 ^ Z.of_nat k else 0) pos = Ok (pos + fpos bit (word_bits n word)).
Proof.
  induction fuel as [|fuel IH]; intros n pos Hn Hf; [lia|].
  destruct n as [|n]; [cbn in Hf; lia|]. cbn [bitpos_scan].
  rewrite (proj2 (Z.eqb_neq _ _)) by (pose proof (Z.pow_pos_nonneg 2 (Z.of_nat n)); lia).
  assert (negb (Z.land (2 ^ Z.of_nat n) word =? 0) = Z.testbit word (Z.of_nat n)) as ->.
  { rewrite Z.land_comm. destruct (Z.testbit word (Z.of_nat n)) eqn:E.
    - apply negb_true_iff, Z.eqb_neq. intros H. apply (f_equal (fun z => Z.testbit z (Z.of_nat n))) in H.
      by rewrite Z.land_spec, E, Z.pow2_bits_true, Z.bits_0 in H by lia.
    - apply negb_false_iff, Z.eqb_eq, Z.bits_inj'. intros i Hi. rewrite Z.land_spec, Z.bits_0.
      destruct (Z.eq_dec i (Z.of_nat n)) as [->|]; [by rewrite E|].
      by rewrite Z.pow2_bits_false, andb_false_r by done. }
  assert (word_bits (S n) word = Z.testbit word (Z.of_nat n) :: word_bits n word) as E.
  { unfold word_bits. cbn [seq map]. f_equal; [do 2 f_equal; lia|]. rewrite <- seq_shift, map_map.
    apply map_ext_in. intros i Hi%in_seq. do 2 f_equal. lia. }
  rewrite E in *. cbn [fpos] in *.
  assert ((b2z (Z.testbit word (Z.of_nat n)) =? b2z bit) = eqb (Z.testbit word (Z.of_nat n)) bit) as ->
    by (by destruct (Z.testbit word (Z.of_nat n)), bit).
  destruct (eqb _ bit); [f_equal; lia|].
  replace (Z.shiftr (2 ^ Z.of_nat n) 1) with (if n is S k then 2 ^ Z.of_nat k else 0).
  - rewrite IH by lia. f_equal. lia.
  - destruct n as [|n]; [done|]. rewrite Z.shiftr_div_pow2 by lia. change (2 ^ 1) with 2.
    rewrite Nat2Z.inj_succ, Z.pow_succ_r, Z.mul_comm, Z.div_mul by lia. done.
Qed.

Section search.
Context {host : HostEndian} (s : list Z) (b : bool).
Hypothesis s_bytes : Forall is_byte s.

Definition skip_byte : Z := if b then 0 else 255.

(** What the search of the whole string is from an offset on. *)
Definition searched (off : Z) : Prop :=
  fpos b (bits_of s) = 8 * off + fpos b (bits_of (drop (Z.to_nat off) s)).

Lemma fpos_skip n l : fpos b (bits_of (replicate n skip_byte) ++ l) = 8 * Z.of_nat n + fpos b l.
Proof.
  induction n as [|n IH]; [done|]. cbn [replicate]. rewrite bits_of_cons, <- app_assoc.
  assert (forall m, fpos b (byte_bits skip_byte ++ m) = 8 + fpos b m) as ->; [|rewrite IH; lia].
  intros m. unfold skip_byte. destruct b; cbn -[Z.add]; lia.
Qed.

Lemma searched_skip off n :
  0 <= off -> 0 <= n -> off + n <= zlen s -> searched off -> seg s off n = replicate (Z.to_nat n) skip_byte ->
  searched (off + n).
Proof.
  intros Ho Hn Hz Hs E. unfold searched in *. rewrite Hs.
  assert (drop (Z.to_nat off) s = seg s off n ++ drop (Z.to_nat (off + n)) s) as ->.
  { unfold seg. rewrite Z2Nat.inj_add, <- drop_drop by done. symmetry. apply take_drop. }
  rewrite bits_of_app, E, fpos_skip. lia.
Qed.

Lemma bitpos_align_ok addr fuel : forall off count,
  0 <= off -> off + count = zlen s -> 0 <= count <= Z.of_nat fuel -> searched off ->
  exists off' count' found,
    bitpos_align fuel addr skip_byte s off count (8 * off) = Ok (off', count', 8 * off', found) /\
    off <= off' /\ off' + count' = zlen s /\ 0 <= count' /\ searched off' /\
    (found = true -> 0 < count' /\ exists c, rd1 s off' = Ok c /\ c <> skip_byte).
Proof.
  induction fuel as [|fuel IH]; intros off count Ho Hz Hc Hs; cbn [bitpos_align].
  - replace count with 0 by lia. rewrite andb_false_r. exists off, 0, false. split; [done|]. split_and!; [lia.. | done | done].
  - destruct (negb (Z.land (addr + off) 7 =? 0) && negb (count =? 0)) eqn:E.
    2: { exists off, count, false. split; [done|]. split_and!; [lia.. | done | done]. }
    apply andb_true_iff in E as [_ E%negb_true_iff]. apply Z.eqb_neq in E.
    destruct (rd1_seg s s_bytes off) as (c & Ec & Hb & Hseg); [lia|]. rewrite Ec. runr.
    destruct (Z.eqb_spec c skip_byte) as [->|Hne]; cbn [negb].
    + replace (8 * off + 8) with (8 * (off + 1)) by lia.
      destruct (IH (off + 1) (count - 1)) as (off' & count' & found & -> & ?); [lia | lia | lia | |].
      * apply searched_skip; [lia.. | done | done].
      * exists off', count', found. split; [done|]. split_and!; try tauto. lia.
    + exists off, count, true. split; [done|]. split_and!; [lia.. | done |]. intros _. split; [lia | by exists c].
Qed.

Lemma all_same_word w :
  Forall is_byte w -> length w = 8%nat ->
  load w = (if b then 0 else ULLONG_MAX) -> w = replicate 8 skip_byte.
Proof.
  intros Hb Hl E.
  assert (load w = load (replicate 8 skip_byte)) as E2.
  { rewrite E. unfold load, skip_byte. by destruct host_is_be, b. }
  assert (Forall is_byte (replicate 8 skip_byte)) as Hr.
  { apply Forall_replicate. unfold skip_byte, is_byte. destruct b; lia. }
  unfold load in E2.
  assert (forall u v, Forall is_byte u -> Forall is_byte v -> length u = length v -> le_val u = le_val v -> u = v) as Hinj.
  { intros u v Hu Hv Huv E3. rewrite <- (le_bytes_val u), <- (le_bytes_val v) by done. by rewrite E3, Huv. }
  destruct host_is_be; [|apply Hinj; [done | done | by rewrite Hl | done]].
  apply Hinj in E2; [by apply (inj reverse) | by apply Forall_reverse.. | by rewrite !length_reverse, Hl].
Qed.

Lemma bitpos_words_ok fuel : forall off count,
  0 <= off -> off + count = zlen s -> 0 <= count <= Z.of_nat fuel -> searched off ->
  exists off' count',
    bitpos_words fuel (if b then 0 else ULLONG_MAX) s off count (8 * off) = Ok (off', count', 8 * off') /\
    off <= off' /\ off' + count' = zlen s /\ 0 <= count' /\ searched off' /\
    (count' < 8 \/ seg s off' 8 <> replicate 8 skip_byte).
Proof.
  induction fuel as [|fuel IH]; intros off count Ho Hz Hc Hs; cbn [bitpos_words]; rewrite Z.geb_leb;
    (destruct (Z.leb_spec 8 count) as [Hge|]; [|exists off, count; split; [done|]; split_and!; [lia.. | done | lia]]).
  - lia.
  - unfold ld64. rewrite rdn_seg by lia. runr.
    destruct (Z.eqb_spec (load (seg s off 8)) (if b then 0 else ULLONG_MAX)) as [E|Hne]; cbn [negb].
    + apply all_same_word in E; [|by apply seg_bytes | by apply seg_length; lia].
      replace (8 * off + 64) with (8 * (off + 8)) by lia.
      destruct (IH (off + 8) (count - 8)) as (off' & count' & -> & ?); [lia | lia | lia | |].
      * apply searched_skip; [lia.. | done | done].
      * exists off', count'. split; [done|]. split_and!; try tauto. lia.
    + exists off, count. split; [done|]. split_and!; [lia.. | done |]. right. intros E. apply Hne. rewrite E.
      unfold load, skip_byte. by destruct host_is_be, b.
Qed.

(** The bytes that are left, padded to [j]. *)
Definition padded (j : nat) (t : list Z) : list Z := take j t ++ replicate (j - length t) 0.

Lemma bitpos_load_ok j : forall off count word,
  0 <= off -> off + count = zlen s -> 0 <= count -> (j <= 8)%nat -> 0 <= word < 2 ^ (64 - 8 * Z.of_nat j) ->
  bitpos_load j s off count word
  = Ok (fold_left (fun v c => 256 * v + c) (padded j (drop (Z.to_nat off) s)) word).
Proof.
  induction j as [|j IH]; intros off count word Ho Hz Hc Hj Hw; cbn [bitpos_load].
  { unfold padded. by rewrite take_0, app_nil_l. }
  replace (64 - 8 * Z.of_nat (S j)) with (56 - 8 * Z.of_nat j) in Hw by lia.
  assert (2 ^ (64 - 8 * Z.of_nat j) = 256 * 2 ^ (56 - 8 * Z.of_nat j)) as E8.
  { change 256 with (2 ^ 8). rewrite <- Z.pow_add_r by lia. f_equal. lia. }
  assert (u64 (Z.shiftl word 8) = 256 * word) as ->.
  { rewrite Z.shiftl_mul_pow2 by lia. change (2 ^ 8) with 256. rewrite wrapU_small; [lia|].
    pose proof (Z.pow_le_mono_r 2 (64 - 8 * Z.of_nat j) 64). lia. }
  unfold padded. destruct (Z.eqb_spec count 0) as [->|Hne]; cbn [negb].
  - rewrite IH by lia. unfold padded. rewrite drop_ge by (unfold zlen in *; lia).
    rewrite !take_nil. cbn [length app]. rewrite !Nat.sub_0_r. cbn [replicate fold_left]. by rewrite Z.add_0_r.
  - destruct (rd1_ok s off) as (c & -> & Hlk); [lia|]. runr.
    assert (is_byte c) as Hcb by (by apply (list.Forall_lookup_1 _ s (Z.to_nat off))).
    assert (Z.lor (256 * word) c = 256 * word + c) as ->.
    { unfold is_byte in Hcb. rewrite Z.lor_comm. rewrite (Z.mul_comm 256). change 256 with (2 ^ 8).
      rewrite <- Z.shiftl_mul_pow2 by lia. rewrite lor_disjoint by (change (2 ^ 8) with 256; lia).
      rewrite Z.shiftl_mul_pow2 by lia. lia. }
    unfold is_byte in Hcb. rewrite IH by lia. unfold padded.
    rewrite (drop_S _ _ _ Hlk). replace (S (Z.to_nat off)) with (Z.to_nat (off + 1)) by lia. done.
Qed.

Lemma fpos_all_skip u :
  Forall is_byte u -> fpos b (bits_of u) = 8 * zlen u -> u = replicate (length u) skip_byte.
Proof.
  induction 1 as [|c u Hc _ IH]; intros H; [done|]. rewrite bits_of_cons, fpos_app, zlen_cons in H.
  change (zlen (byte_bits c)) with 8 in H. pose proof (fpos_range b (bits_of u)) as Hr. rewrite zlen_bits_of in Hr.
  pose proof (fpos_range b (byte_bits c)) as Hr8. change (zlen (byte_bits c)) with 8 in Hr8.
  destruct (Z.ltb_spec (fpos b (byte_bits c)) 8); [pose proof (zlen_nonneg u); lia|].
  cbn [length replicate]. rewrite <- IH by lia. f_equal. unfold skip_byte.
  pose proof (byte_forall (fun c => (fpos true (byte_bits c) <? 8) || (c =? 0)) eq_refl c Hc) as H1.
  pose proof (byte_forall (fun c => (fpos false (byte_bits c) <? 8) || (c =? 255)) eq_refl c Hc) as H2.
  cbv beta in H1, H2. destruct b; lia.
Qed.

(** The two skipping loops: everything before [off] was skipped, and what
    follows is shorter than a word or has something else in its first word. *)
Lemma bitpos_skipped addr :
  exists off count found off' count',
    bitpos_align (length s) addr skip_byte s 0 (zlen s) 0 = Ok (off, count, 8 * off, found) /\
    (if negb found then bitpos_words (length s) (if b then 0 else ULLONG_MAX) s off count (8 * off)
     else Ok (off, count, 8 * off)) = Ok (off', count', 8 * off') /\
    0 <= off' /\ off' + count' = zlen s /\ 0 <= count' /\ searched off' /\
    (count' < 8 \/ take 8 (drop (Z.to_nat off') s) <> replicate (length (take 8 (drop (Z.to_nat off') s))) skip_byte).
Proof.
  pose proof (zlen_nonneg s).
  destruct (bitpos_align_ok addr (length s) 0 (zlen s)) as (off & count & found & E & Ho & Hz & Hc & Hs & Hf);
    [lia | lia | unfold zlen; lia | done |].
  change (8 * 0) with 0 in E. destruct found; cbn [negb].
  - exists off, count, true, off, count. split_and!; try done; try lia. right. destruct (Hf eq_refl) as [Hpos (c & Ec & Hne)].
    apply rd1_inv in Ec as [_ Ec]. rewrite (drop_S _ _ _ Ec). cbn. intros [= E']. done.
  - destruct (bitpos_words_ok (length s) off count) as (off' & count' & Ew & ? & ? & ? & Hs' & Hp);
      [lia | lia | unfold zlen in *; lia | done |].
    exists off, count, false, off', count'. split_and!; try done; try lia. destruct Hp as [?|Hp]; [by left|].
    destruct (Z.lt_ge_cases count' 8); [by left | right]. unfold seg in Hp. change (Z.to_nat 8) with 8%nat in Hp.
    rewrite length_take, length_drop, Nat.min_l by (unfold zlen in *; lia). done.
Qed.

(** The last word, padded with zeros: [t] is what is left of the string. *)
Lemma bitpos_last_word (t : list Z) pos :
  Forall is_byte t ->
  zlen t < 8 \/ take 8 t <> replicate (length (take 8 t)) skip_byte ->
  let word := be_val (padded 8 t) in
  (if b && (word =? 0) then Ok (-1)
   else bitpos_scan 65 (b2z b) word (u64 (Z.lnot (Z.shiftr ULLONG_MAX 1))) pos)
  = Ok (if b && (fpos b (bits_of t) =? 8 * zlen t) then -1 else pos + fpos b (bits_of t)).
Proof.
  intros Ht Hprog word.
  assert (Forall is_byte (padded 8 t)) as Hpb.
  { unfold padded. apply Forall_app. split; [by apply Forall_take|]. apply Forall_replicate. unfold is_byte. lia. }
  assert (length (padded 8 t) = 8%nat) as Hpl by (unfold padded; rewrite length_app, length_take, length_replicate; lia).
  pose proof (be_val_bits _ Hpb) as Hwb. rewrite Hpl in Hwb. change (8 * 8)%nat with 64%nat in Hwb. fold word in Hwb.
  assert (fpos b (bits_of (padded 8 t)) < 64 ->
    bitpos_scan 65 (b2z b) word (u64 (Z.lnot (Z.shiftr ULLONG_MAX 1))) pos = Ok (pos + fpos b (bits_of (padded 8 t)))) as Hscan.
  { intros Hlt. rewrite <- Hwb in *. apply (scan_ok b word 65 64); [lia | done]. }
  assert (word = 0 -> fpos true (bits_of (padded 8 t)) = 64) as Hw0 by (intros E0; rewrite <- Hwb, E0; done).
  set (u := take 8 t) in *. pose proof (fpos_range b (bits_of u)) as Hru. rewrite zlen_bits_of in Hru.
  assert (zlen u <= 8 /\ zlen u <= zlen t) as [Hu8 Huc] by (unfold u, zlen in *; rewrite length_take; lia).
  destruct (Z.lt_ge_cases (fpos b (bits_of u)) (8 * zlen u)) as [Hin|Hall].
  - assert (fpos b (bits_of t) = fpos b (bits_of u)) as E1.
    { rewrite <- (take_drop 8 t), bits_of_app, fpos_app, zlen_bits_of. fold u. by rewrite (proj2 (Z.ltb_lt _ _)) by lia. }
    assert (fpos b (bits_of (padded 8 t)) = fpos b (bits_of u)) as E2.
    { unfold padded. fold u. rewrite bits_of_app, fpos_app, zlen_bits_of. by rewrite (proj2 (Z.ltb_lt _ _)) by lia. }
    rewrite E1. assert (b && (word =? 0) = false) as ->.
    { destruct b; [|done]. cbn [andb]. apply Z.eqb_neq. intros E0. specialize (Hw0 E0). lia. }
    rewrite Hscan, E2 by lia. rewrite (proj2 (Z.eqb_neq _ _)) by lia. by rewrite andb_false_r.
  - assert (u = replicate (length u) skip_byte) as Hu by (apply fpos_all_skip; [by apply Forall_take | lia]).
    destruct Hprog as [Hshort|Hne]; [|done].
    assert (u = t) as Hut by (unfold u; apply take_ge; unfold zlen in *; lia).
    rewrite Hut in *. assert (fpos b (bits_of t) = 8 * zlen t) as E1 by lia. rewrite E1.
    rewrite Z.eqb_refl, andb_true_r. unfold skip_byte in Hu. destruct b; cbn [andb].
    + assert (word = 0) as ->; [|done]. unfold word, padded. fold u. rewrite Hut. rewrite Hu at 1.
      rewrite <- replicate_add.
      replace (length t + (8 - length t))%nat with 8%nat by (unfold zlen in *; lia). done.
    + assert (fpos false (bits_of (padded 8 t)) = 8 * zlen t) as E2.
      { unfold padded. fold u. rewrite Hut, bits_of_app, fpos_app, zlen_bits_of, E1, Z.ltb_irrefl.
        replace (8 - length t)%nat with (S (7 - length t)) by (unfold zlen in *; lia). cbn [replicate].
        rewrite bits_of_cons. cbn [app byte_bits fpos eqb Z.testbit]. lia. }
      rewrite Hscan, E2 by lia. reflexivity.
Qed.

Lemma redisBitpos_ok addr :
  redisBitpos addr s (b2z b)
  = Ok (if b && (fpos b (bits_of s) =? 8 * zlen s) then -1 else fpos b (bits_of s)).
Proof.
  unfold redisBitpos. pose proof (zlen_nonneg s).
  assert (negb (b2z b =? 0) = b) as -> by (by destruct b).
  assert ((b2z b =? 1) = b) as -> by (by destruct b). fold skip_byte.
  destruct (bitpos_skipped addr) as (off & count & found & off' & count' & -> & E & Ho & Hz & Hc & Hs & Hprog).
  runr. rewrite E. runr. rewrite bitpos_load_ok by (done || lia). runr. fold (be_val (padded 8 (drop (Z.to_nat off') s))).
  assert (zlen (drop (Z.to_nat off') s) = count') as Hzt by (rewrite zlen_drop by lia; lia).
  pose proof (bitpos_last_word (drop (Z.to_nat off') s) (8 * off') ltac:(by apply Forall_drop)) as Hl.
  rewrite Hzt in Hl. cbv zeta in Hl |- *. rewrite Hl by done. rewrite Hs.
  replace (8 * off' + fpos b (bits_of (drop (Z.to_nat off') s)) =? 8 * zlen s)
    with (fpos b (bits_of (drop (Z.to_nat off') s)) =? 8 * count') by (apply eq_true_iff_eq; rewrite !Z.eqb_eq; lia).
  done.
Qed.
End search.
