(* ===== verification/BitfieldProofs.v ===== *)
(** BitfieldProofs: reading and writing a bit field of Bitops as operations on
    a segment of the bits of the string, and overflow control against integer
    arithmetic. *)

From Stdlib Require Import ZArith Lia Bool.
From stdpp Require Import base list numbers decidable.
From S2P Require Import Prelude Bytes Bitops BitopsProofs.

Local Open Scope Z_scope.

(** * One bit *)

Lemma byte_bits_lookup b i : (i < 8)%nat -> byte_bits b !! i = Some (Z.testbit b (7 - Z.of_nat i)).
Proof. intros Hi. do 8 (destruct i as [|i]; [done|]). lia. Qed.

Lemma bits_of_lookup s : forall i,
  bits_of s !! i = (fun b => Z.testbit b (7 - Z.of_nat (i mod 8))) <$> s !! (i / 8)%nat.
Proof.
  induction s as [|b s IH]; intros i; [by rewrite !lookup_nil|]. rewrite bits_of_cons.
  destruct (decide (i < 8)%nat) as [Hi|Hi].
  - rewrite lookup_app_l by (cbn; lia). rewrite byte_bits_lookup, Nat.div_small, Nat.mod_small by done. done.
  - rewrite lookup_app_r by (cbn; lia). change (length (byte_bits b)) with 8%nat. rewrite IH.
    assert (exists j, i = j + 1 * 8)%nat as [j ->] by (exists (i - 8)%nat; lia).
    replace (j + 1 * 8 - 8)%nat with j by lia.
    rewrite Nat.div_add, Nat.Div0.mod_add by lia. by rewrite Nat.add_1_r.
Qed.

Definition set_byte_bit (byteval bit bitval : Z) : Z :=
  Z.land (Z.lor (Z.land byteval (Z.lnot (Z.shiftl 1 bit))) (Z.shiftl bitval bit)) 0xff.

Lemma set_byte_bit_byte byteval bit bitval : is_byte (set_byte_bit byteval bit bitval).
Proof.
  unfold set_byte_bit, is_byte. change 0xff with (Z.ones 8). rewrite Z.land_ones by done.
  by apply Z.mod_pos_bound.
Qed.

Lemma set_byte_bit_spec byteval bit (v : bool) k :
  0 <= bit < 8 -> 0 <= k < 8 ->
  Z.testbit (set_byte_bit byteval bit (b2z v)) k = if k =? bit then v else Z.testbit byteval k.
Proof.
  intros Hb Hk. unfold set_byte_bit. change 0xff with (Z.ones 8).
  rewrite Z.land_spec, Z.lor_spec, Z.land_spec, Z.lnot_spec, Z.ones_spec_low, andb_true_r by lia.
  rewrite !Z.shiftl_spec by lia. destruct (Z.eqb_spec k bit) as [->|].
  - rewrite Z.sub_diag. cbn [Z.testbit Z.odd negb]. rewrite andb_false_r. by destruct v.
  - assert (forall x, 0 <= x <= 1 -> Z.testbit x (k - bit) = false) as Hx.
    { intros x Hx. destruct (Z.lt_ge_cases (k - bit) 0); [by apply Z.testbit_neg_r|].
      destruct (Z.eq_dec x 0) as [->|]; [apply Z.bits_0|]. replace x with 1 by lia.
      apply Z.bits_above_log2; [lia | cbn; lia]. }
    rewrite !Hx by (destruct v; cbn; lia). cbn. by rewrite andb_true_r, orb_false_r.
Qed.

Lemma shiftr_3 off : 0 <= off -> Z.to_nat (Z.shiftr off 3) = (Z.to_nat off / 8)%nat.
Proof. intros H. rewrite Z.shiftr_div_pow2 by done. change (2 ^ 3) with 8. by rewrite Z2Nat.inj_div by lia. Qed.

Lemma land_7 off : 0 <= off -> Z.land off 0x7 = Z.of_nat (Z.to_nat off mod 8).
Proof.
  intros H. change 7 with (Z.ones 3). rewrite Z.land_ones by done. change (2 ^ 3) with 8.
  rewrite <- (Z2Nat.id off) at 1 by done. by rewrite Nat2Z.inj_mod.
Qed.

Lemma shiftr_3_range off n : 0 <= off < 8 * n -> 0 <= Z.shiftr off 3 < n.
Proof.
  intros H. rewrite Z.shiftr_div_pow2 by done. change (2 ^ 3) with 8.
  split; [apply Z.div_pos; lia | apply Z.div_lt_upper_bound; lia].
Qed.

Lemma set_bit_at_ok p off (v : bool) :
  Forall is_byte p -> 0 <= off < 8 * zlen p ->
  exists p', set_bit_at p off (b2z v) = Ok p' /\ Forall is_byte p' /\ length p' = length p /\
    bits_of p' = <[Z.to_nat off := v]> (bits_of p).
Proof.
  intros Hp Ho. unfold set_bit_at. pose proof (shiftr_3_range off (zlen p) Ho) as Hr.
  destruct (rd1_ok p (Z.shiftr off 3) Hr) as (c & -> & Hc). runr.
  fold (set_byte_bit c (7 - Z.land off 7) (b2z v)). rewrite (land_7 off) by lia.
  set (c' := set_byte_bit c _ (b2z v)). rewrite wr1_ok by done.
  eexists. split; [done|]. split; [|split; [by rewrite length_insert|]].
  { apply Forall_insert; [done | apply set_byte_bit_byte]. }
  rewrite shiftr_3 in * by lia. set (o := Z.to_nat off) in *.
  assert (o < length (bits_of p))%nat as Hlen by (rewrite length_bits_of; unfold zlen in *; lia).
  apply list_eq. intros i. rewrite bits_of_lookup.
  destruct (decide (i / 8 = o / 8)%nat) as [E|E].
  - rewrite E, list_lookup_insert_eq by (by apply lookup_lt_Some in Hc). cbn [fmap option_fmap option_map].
    pose proof (Nat.mod_upper_bound i 8 ltac:(lia)). pose proof (Nat.mod_upper_bound o 8 ltac:(lia)).
    unfold c'. rewrite set_byte_bit_spec by lia.
    pose proof (Nat.div_mod_eq i 8). pose proof (Nat.div_mod_eq o 8).
    destruct (Z.eqb_spec (7 - Z.of_nat (i mod 8)) (7 - Z.of_nat (o mod 8))) as [E2|E2].
    + replace i with o by lia. by rewrite list_lookup_insert_eq.
    + rewrite list_lookup_insert_ne by (intros ->; done). by rewrite bits_of_lookup, E, Hc.
  - rewrite list_lookup_insert_ne by done. rewrite list_lookup_insert_ne by (intros ->; done).
    by rewrite bits_of_lookup.
Qed.

(** * A field *)

(** [n] bits written at an offset. *)
Definition put_bits (l : list bool) (off : nat) (f : list bool) : list bool :=
  take off l ++ f ++ drop (off + length f) l.

Definition get_field (l : list bool) (off n : nat) : list bool := take n (drop off l).

Lemma word_bits_S n x : word_bits (S n) x = Z.testbit x (Z.of_nat n) :: word_bits n x.
Proof.
  unfold word_bits. cbn [seq map]. f_equal; [do 2 f_equal; lia|]. rewrite <- seq_shift, map_map.
  apply map_ext_in. intros i Hi%in_seq. do 2 f_equal. lia.
Qed.

Lemma length_word_bits n x : length (word_bits n x) = n.
Proof. unfold word_bits. by rewrite length_map, length_seq. Qed.

Lemma land_bit_test v n : negb (Z.land v (Z.shiftl 1 (Z.of_nat n)) =? 0) = Z.testbit v (Z.of_nat n).
Proof.
  rewrite Z.shiftl_1_l. destruct (Z.testbit v (Z.of_nat n)) eqn:E.
  - apply negb_true_iff, Z.eqb_neq. intros H. apply (f_equal (fun z => Z.testbit z (Z.of_nat n))) in H.
    by rewrite Z.land_spec, E, Z.pow2_bits_true, Z.bits_0 in H by lia.
  - apply negb_false_iff, Z.eqb_eq, Z.bits_inj'. intros i Hi. rewrite Z.land_spec, Z.bits_0.
    destruct (Z.eq_dec i (Z.of_nat n)) as [->|]; [by rewrite E|].
    by rewrite Z.pow2_bits_false, andb_false_r by done.
Qed.

Lemma put_bits_cons l off x f :
  (off < length l)%nat -> put_bits (<[off := x]> l) (S off) f = put_bits l off (x :: f).
Proof.
  intros Hl. unfold put_bits. cbn [length]. rewrite (take_S_r _ _ x) by (by rewrite list_lookup_insert_eq).
  rewrite take_insert_ge by lia. rewrite drop_insert_lt by lia. rewrite <- app_assoc. cbn [app].
  replace (off + S (length f))%nat with (S off + length f)%nat by lia. done.
Qed.

Lemma set_bits_ok n : forall p off value,
  Forall is_byte p -> 0 <= off -> off + Z.of_nat n <= 8 * zlen p ->
  exists p', set_bits n p off value = Ok p' /\ Forall is_byte p' /\ length p' = length p /\
    bits_of p' = put_bits (bits_of p) (Z.to_nat off) (word_bits n value).
Proof.
  induction n as [|n IH]; intros p off value Hp Ho Hz; cbn [set_bits].
  { exists p. split_and!; try done. unfold put_bits. cbn. by rewrite Nat.add_0_r, take_drop. }
  rewrite land_bit_test.
  destruct (set_bit_at_ok p off (Z.testbit value (Z.of_nat n))) as (p1 & -> & Hp1 & Hl1 & Hb1); [done | lia|]. runr.
  destruct (IH p1 (off + 1) value) as (p' & -> & Hp' & Hl' & Hb'); [done | lia | unfold zlen in *; lia|].
  exists p'. split_and!; [done | done | congruence|]. rewrite Hb', Hb1, word_bits_S.
  replace (Z.to_nat (off + 1)) with (S (Z.to_nat off)) by lia. apply put_bits_cons.
  rewrite length_bits_of. unfold zlen in *. lia.
Qed.

(** The value of bits, most significant first. *)
Definition bval (l : list bool) : Z := fold_left (fun v b => 2 * v + b2z b) l 0.

Lemma bval_acc l : forall v, fold_left (fun v b => 2 * v + b2z b) l v = v * 2 ^ zlen l + bval l.
Proof.
  unfold bval. induction l as [|b l IH]; intros v; cbn [fold_left].
  - change (zlen (@nil bool)) with 0. lia.
  - rewrite IH, (IH (2 * 0 + b2z b)), zlen_cons. pose proof (zlen_nonneg l).
    rewrite Z.pow_add_r by lia. change (2 ^ 1) with 2. lia.
Qed.

Lemma bval_range l : 0 <= bval l < 2 ^ zlen l.
Proof.
  induction l as [|b l IH]; [done|]. unfold bval. cbn [fold_left]. rewrite bval_acc, zlen_cons.
  pose proof (zlen_nonneg l). rewrite Z.pow_add_r by lia. change (2 ^ 1) with 2.
  pose proof (Z.pow_pos_nonneg 2 (zlen l)). destruct b; cbn [b2z]; lia.
Qed.

Lemma bval_word_bits n x : bval (word_bits n x) = x mod 2 ^ Z.of_nat n.
Proof.
  induction n as [|n IH]; [cbn; by rewrite Z.mod_1_r|]. rewrite word_bits_S. unfold bval. cbn [fold_left].
  rewrite bval_acc. fold (bval (word_bits n x)). rewrite IH. unfold zlen. rewrite length_word_bits.
  rewrite Nat2Z.inj_succ, Z.pow_succ_r by lia.
  pose proof (Z.pow_pos_nonneg 2 (Z.of_nat n)). set (m := 2 ^ Z.of_nat n) in *.
  rewrite (Z.mul_comm 2 m), Z.rem_mul_r by lia.
  assert (b2z (Z.testbit x (Z.of_nat n)) = (x / m) mod 2) as ->; [|lia].
  rewrite <- Z.bit0_mod. unfold m. rewrite Z.div_pow2_bits by lia. rewrite Z.add_0_l.
  by destruct (Z.testbit x (Z.of_nat n)).
Qed.

Lemma get_field_S l off n x :
  l !! off = Some x -> get_field l off (S n) = x :: get_field l (S off) n.
Proof. intros H. unfold get_field. by rewrite (drop_S _ _ _ H). Qed.

Lemma get_bits_ok n : forall p off v,
  Forall is_byte p -> 0 <= off -> off + Z.of_nat n <= 8 * zlen p -> (n <= 64)%nat ->
  0 <= v < 2 ^ (64 - Z.of_nat n) ->
  get_bits n p off v = Ok (fold_left (fun v b => 2 * v + b2z b) (get_field (bits_of p) (Z.to_nat off) n) v).
Proof.
  induction n as [|n IH]; intros p off v Hp Ho Hz Hn Hv; cbn [get_bits]; [done|].
  pose proof (shiftr_3_range off (zlen p) ltac:(lia)) as Hr.
  destruct (rd1_ok p (Z.shiftr off 3) Hr) as (c & -> & Hc). runr. rewrite shiftr_3 in Hc by lia.
  rewrite (land_7 off) by lia. set (o := Z.to_nat off) in *.
  pose proof (Nat.mod_upper_bound o 8 ltac:(lia)) as Hm.
  assert (Z.land (Z.shiftr c (7 - Z.of_nat (o mod 8))) 1 = b2z (Z.testbit c (7 - Z.of_nat (o mod 8)))) as ->.
  { change 1 with (Z.ones 1). rewrite Z.land_ones by lia. change (2 ^ 1) with 2.
    rewrite <- Z.bit0_mod, Z.shiftr_spec by lia. rewrite Z.add_0_l. by destruct (Z.testbit c _). }
  assert (bits_of p !! o = Some (Z.testbit c (7 - Z.of_nat (o mod 8)))) as Hb by (by rewrite bits_of_lookup, Hc).
  rewrite (get_field_S _ _ _ _ Hb). cbn [fold_left]. set (x := Z.testbit c _) in *.
  replace (64 - Z.of_nat (S n)) with (63 - Z.of_nat n) in Hv by lia.
  assert (2 ^ (64 - Z.of_nat n) = 2 * 2 ^ (63 - Z.of_nat n)) as E2
    by (rewrite <- Z.pow_succ_r by lia; f_equal; lia).
  assert (Z.lor (Z.shiftl v 1) (b2z x) = 2 * v + b2z x) as ->.
  { rewrite Z.lor_comm, lor_disjoint; [change (2 ^ 1) with 2; lia | lia | destruct x; cbn; lia]. }
  assert (0 <= 2 * v + b2z x < 2 ^ (64 - Z.of_nat n)) by (destruct x; cbn [b2z]; lia).
  pose proof (Z.pow_le_mono_r 2 (64 - Z.of_nat n) 64).
  rewrite wrapU_small by lia. rewrite IH by (done || lia). do 2 f_equal.
  replace (Z.to_nat (off + 1)) with (S o) by (unfold o; lia). done.
Qed.

Lemma getUnsigned_ok p off bits :
  Forall is_byte p -> 0 <= off -> 0 <= bits <= 64 -> off + bits <= 8 * zlen p ->
  getUnsignedBitfield p off bits = Ok (bval (get_field (bits_of p) (Z.to_nat off) (Z.to_nat bits))).
Proof.
  intros Hp Ho Hb Hz. unfold getUnsignedBitfield.
  rewrite get_bits_ok; [done | done | done | lia | lia |].
  split; [done|]. apply Z.pow_pos_nonneg; lia.
Qed.

Lemma length_get_field l off n : (off + n <= length l)%nat -> length (get_field l off n) = n.
Proof. intros H. unfold get_field. rewrite length_take, length_drop. lia. Qed.

(** * Words of fewer than 64 bits *)

Lemma high_mask bits : 0 <= bits <= 64 -> u64 (Z.shiftl (2 ^ 64 - 1) bits) = 2 ^ 64 - 2 ^ bits.
Proof.
  intros Hb. rewrite Z.shiftl_mul_pow2 by lia. unfold wrapU. symmetry.
  apply (Z.mod_unique _ _ (2 ^ bits - 1)); [left|nia].
  pose proof (Z.pow_pos_nonneg 2 bits). pose proof (Z.pow_le_mono_r 2 bits 64). lia.
Qed.

Lemma not_high_mask bits : 0 <= bits <= 64 -> u64 (Z.lnot (2 ^ 64 - 2 ^ bits)) = Z.ones bits.
Proof.
  intros Hb. unfold Z.lnot, wrapU. rewrite Z.ones_equiv. symmetry.
  pose proof (Z.pow_pos_nonneg 2 bits). pose proof (Z.pow_le_mono_r 2 bits 64).
  apply (Z.mod_unique _ _ (-1)); [left; lia | lia].
Qed.

Lemma land_not_mask c bits :
  0 <= bits <= 64 -> Z.land c (u64 (Z.lnot (u64 (Z.shiftl (2 ^ 64 - 1) bits)))) = c mod 2 ^ bits.
Proof. intros Hb. rewrite high_mask, not_high_mask by done. apply Z.land_ones. lia. Qed.

Lemma lor_mask c bits :
  0 <= bits <= 64 -> 0 <= c < 2 ^ 64 ->
  Z.lor c (u64 (Z.shiftl (2 ^ 64 - 1) bits)) = 2 ^ 64 - 2 ^ bits + c mod 2 ^ bits.
Proof.
  intros Hb Hc. rewrite high_mask by done.
  pose proof (Z.pow_pos_nonneg 2 bits). pose proof (Z.mod_pos_bound c (2 ^ bits) ltac:(lia)) as Hm.
  assert (2 ^ 64 - 2 ^ bits = Z.shiftl (Z.ones (64 - bits)) bits) as E.
  { rewrite Z.ones_equiv, Z.shiftl_mul_pow2 by lia. replace (2 ^ 64) with (2 ^ (64 - bits) * 2 ^ bits); [lia|].
    rewrite <- Z.pow_add_r by lia. f_equal. lia. }
  rewrite E, Z.add_comm. rewrite (Z.shiftl_mul_pow2 _ bits) at 2 by lia. rewrite <- lor_disjoint by (done || lia).
  apply Z.bits_inj'. intros i Hi. rewrite !Z.lor_spec, Z.shiftl_spec by done.
  destruct (Z.lt_ge_cases i bits); [by rewrite Z.mod_pow2_bits_low by lia|].
  rewrite Z.mod_pow2_bits_high by lia. destruct (Z.lt_ge_cases i 64).
  - rewrite Z.ones_spec_low by lia. by rewrite orb_true_r.
  - rewrite Z.ones_spec_high, orb_false_r by lia. cbn [orb].
    destruct (Z.eq_dec c 0) as [->|]; [apply Z.bits_0|]. apply Z.bits_above_log2; [lia|].
    assert (Z.log2 c < 64) by (apply Z.log2_lt_pow2; lia). lia.
Qed.

(** Two's complement of [bits] bits through the sign bit, as the code does it. *)
Definition sign_extend (bits u : Z) : Z :=
  if Z.testbit u (bits - 1) then u mod 2 ^ bits - 2 ^ bits else u mod 2 ^ bits.

Lemma sign_extend_wrapS bits u : 1 <= bits -> sign_extend bits u = wrapS bits u.
Proof.
  intros Hb. unfold sign_extend, wrapS.
  assert (2 ^ bits = 2 * 2 ^ (bits - 1)) as E by (rewrite <- Z.pow_succ_r by lia; f_equal; lia).
  pose proof (Z.pow_pos_nonneg 2 (bits - 1)) as Hp. set (h := 2 ^ (bits - 1)) in *.
  rewrite <- (Z.mod_pow2_bits_low u bits) by lia. rewrite <- (Z.add_mod_idemp_l u h) by lia.
  pose proof (Z.mod_pos_bound u (2 ^ bits) ltac:(lia)) as Hm. set (v := u mod 2 ^ bits) in *.
  destruct (Z.testbit v (bits - 1)) eqn:Et.
  - assert (h <= v) as Hge.
    { destruct (Z.lt_ge_cases v h); [|done]. exfalso. destruct (Z.eq_dec v 0) as [E0|]; [by rewrite E0, Z.bits_0 in Et|].
      rewrite Z.bits_above_log2 in Et; [done | lia |]. apply Z.log2_lt_pow2; unfold h in *; lia. }
    rewrite <- (Z.mod_unique (v + h) (2 ^ bits) 1 (v - h)); [lia | left; lia | lia].
  - assert (v < h) as Hlt.
    { destruct (Z.lt_ge_cases v h) as [|Hge]; [done|]. exfalso.
      assert (v / h = 1) as Ed by (symmetry; apply (Z.div_unique _ _ _ (v - h)); [left; lia | lia]).
      rewrite <- (Z.add_0_l (bits - 1)), <- Z.div_pow2_bits in Et by lia. fold h in Et. by rewrite Ed in Et. }
    rewrite Z.mod_small by lia. lia.
Qed.

Lemma i64_high bits v : 1 <= bits < 64 -> 0 <= v < 2 ^ bits -> i64 (2 ^ 64 - 2 ^ bits + v) = v - 2 ^ bits.
Proof.
  intros Hb Hv. pose proof (Z.pow_le_mono_r 2 bits 63).
  assert (2 ^ 64 = 2 * 2 ^ 63) by done. unfold wrapS. change (64 - 1) with 63.
  rewrite <- (Z.mod_unique (2 ^ 64 - 2 ^ bits + v + 2 ^ 63) (2 ^ 64) 1 (v - 2 ^ bits + 2 ^ 63)); [lia | left; lia | lia].
Qed.

Lemma getSigned_ok p off bits :
  Forall is_byte p -> 0 <= off -> 1 <= bits <= 64 -> off + bits <= 8 * zlen p ->
  getSignedBitfield p off bits
  = Ok (wrapS bits (bval (get_field (bits_of p) (Z.to_nat off) (Z.to_nat bits)))).
Proof.
  intros Hp Ho Hb Hz. unfold getSignedBitfield. rewrite getUnsigned_ok by (done || lia). runr.
  set (f := get_field _ _ _). pose proof (bval_range f) as Hr.
  assert (zlen f = bits) as Hl.
  { unfold zlen, f. rewrite length_get_field; [lia|]. rewrite length_bits_of. unfold zlen in *. lia. }
  rewrite Hl in Hr. pose proof (Z.pow_le_mono_r 2 bits 64).
  rewrite wrapU_wrapS, (wrapU_small 64) by lia.
  destruct (Z.ltb_spec bits 64) as [Hlt|]; cbn [andb].
  - pose proof (land_bit_test (bval f) (Z.to_nat (bits - 1))) as Ht. rewrite Z2Nat.id in Ht by lia. rewrite Ht.
    rewrite <- (sign_extend_wrapS bits) by lia. unfold sign_extend. rewrite (Z.mod_small (bval f) (2 ^ bits)) by (exact Hr).
    pose proof (Z.pow_le_mono_r 2 bits 63).
    destruct (Z.testbit (bval f) (bits - 1)).
    + rewrite lor_mask, Z.mod_small by lia. by rewrite i64_high by lia.
    + rewrite wrapS_small; [done | lia | change (64 - 1) with 63; lia].
  - by replace bits with 64 by lia.
Qed.

(** * Overflow control

    What the code comments promise: the value stored by an increment is the
    mathematical sum when it fits, and otherwise the sum reduced modulo the
    width, the nearest limit, or nothing at all. *)

Definition bf_spec (lo hi : Z) (wrap : Z -> Z) (ow : bfoverflow) (t : Z) : option Z :=
  if (lo <=? t) && (t <=? hi) then Some t
  else
    match ow with
    | BFOVERFLOW_WRAP => Some (wrap t)
    | BFOVERFLOW_SAT => Some (if t <? lo then lo else hi)
    | BFOVERFLOW_FAIL => None
    end.

(** What the caller stores, from the answer of the check and the sum. *)
Definition bf_stored (ow : bfoverflow) (answer : Z * option Z) (sum : Z) : option Z :=
  if answer.1 =? 0 then Some sum
  else match ow with BFOVERFLOW_FAIL => None | _ => answer.2 end.

(** Boolean guards as propositions, for lia. *)
Ltac bprop :=
  rewrite ?orb_true_iff, ?andb_true_iff, ?Z.gtb_ltb, ?Z.geb_leb, ?negb_true_iff, ?Z.ltb_lt, ?Z.leb_le, ?Z.eqb_neq; lia.
Ltac bguard := apply eq_true_iff_eq; bprop.

(** The answer of a check whose guards are exact, the second one where the
    first fails. *)
Lemma bf_exact lo hi wrap ow t sum g1 g2 :
  lo <= hi -> (lo <= t <= hi -> sum = t) -> g1 = (hi <? t) -> (t <= hi -> g2 = (t <? lo)) ->
  bf_stored ow
    (if g1 then
       match ow with
       | BFOVERFLOW_WRAP => (1, Some (wrap t))
       | BFOVERFLOW_SAT => (1, Some hi)
       | BFOVERFLOW_FAIL => (1, None)
       end
     else if g2 then
       match ow with
       | BFOVERFLOW_WRAP => (1, Some (wrap t))
       | BFOVERFLOW_SAT => (-1, Some lo)
       | BFOVERFLOW_FAIL => (-1, None)
       end
     else (0, None)) sum
  = bf_spec lo hi wrap ow t.
Proof.
  intros Hh Hs -> Hg. unfold bf_stored, bf_spec.
  destruct (Z.ltb_spec hi t); [|rewrite Hg by done];
    destruct (Z.ltb_spec t lo), (Z.leb_spec lo t), (Z.leb_spec t hi); try lia;
    destruct ow; try reflexivity; cbn; f_equal; lia.
Qed.

Lemma u_max bits : 1 <= bits <= 63 -> u64 (Z.shiftl 1 bits - 1) = 2 ^ bits - 1.
Proof.
  intros Hb. rewrite Z.shiftl_mul_pow2 by lia. pose proof (Z.pow_le_mono_r 2 bits 63).
  pose proof (Z.pow_pos_nonneg 2 bits). rewrite Z.mul_1_l. apply wrapU_small.
  change (2 ^ 64) with (2 * 2 ^ 63). lia.
Qed.

(** Conversion of an unsigned difference to int64_t. *)
Lemma i64_u64 x : i64 (u64 x) = i64 x.
Proof. unfold wrapU, wrapS. by rewrite Z.add_mod_idemp_l by done. Qed.

Lemma u64_mod bits x : 0 <= bits <= 64 -> u64 x mod 2 ^ bits = x mod 2 ^ bits.
Proof.
  intros Hb. unfold wrapU. apply Z.mod_mod_divide. exists (2 ^ (64 - bits)).
  rewrite <- Z.pow_add_r by lia. f_equal. lia.
Qed.

Lemma i64_small x : - 2 ^ 63 <= x < 2 ^ 63 -> i64 x = x.
Proof. intros. apply wrapS_small; [done|]. by change (64 - 1) with 63. Qed.

Lemma i64_over x : 2 ^ 63 <= x < 2 ^ 64 -> i64 x = x - 2 ^ 64.
Proof.
  intros. unfold wrapS. change (64 - 1) with 63. assert (2 ^ 64 = 2 * 2 ^ 63) by reflexivity.
  rewrite <- (Z.mod_unique (x + 2 ^ 63) (2 ^ 64) 1 (x - 2 ^ 63)); [lia | left; lia | lia].
Qed.

Lemma checkUnsigned_ok value incr bits ow :
  1 <= bits <= 63 -> 0 <= value < 2 ^ 64 -> - 2 ^ 63 <= incr < 2 ^ 63 ->
  value < 2 ^ bits \/ incr = 0 ->
  bf_stored ow (checkUnsignedBitfieldOverflow value incr bits ow) (u64 (value + incr))
  = bf_spec 0 (2 ^ bits - 1) (fun t => t mod 2 ^ bits) ow (value + incr).
Proof.
  intros Hb Hv Hi Hc. pose proof (Z.pow_le_mono_r 2 bits 63). pose proof (Z.pow_pos_nonneg 2 bits).
  unfold checkUnsignedBitfieldOverflow, bf_stored, bf_spec.
  rewrite land_not_mask, u64_mod, u_max, !i64_u64 by lia.
  rewrite (proj2 (Z.eqb_neq bits 64)) by lia.
  assert (2 ^ 64 = 2 * 2 ^ 63) by reflexivity.
  apply (bf_exact 0 (2 ^ bits - 1) (fun t => t mod 2 ^ bits)); [lia | intros; apply wrapU_small; lia |..].
  - destruct (Z.lt_ge_cases value (2 ^ bits)); [rewrite i64_small by lia|]; bguard.
  - intros. destruct (Z.lt_ge_cases value (2 ^ bits)); [rewrite i64_small by lia|]; bguard.
Qed.

Lemma s_max bits : 1 <= bits <= 64 ->
  (if bits =? 64 then LLONG_MAX else Z.shiftl 1 (bits - 1) - 1) = 2 ^ (bits - 1) - 1.
Proof.
  intros Hb. destruct (Z.eqb_spec bits 64) as [->|]; [reflexivity|]. rewrite Z.shiftl_mul_pow2 by lia. lia.
Qed.

Lemma wrapS_congr bits x y : 1 <= bits -> x mod 2 ^ bits = y mod 2 ^ bits -> wrapS bits x = wrapS bits y.
Proof.
  intros Hb E. unfold wrapS. f_equal. rewrite (Z.add_mod x), (Z.add_mod y), E; [done|..];
    pose proof (Z.pow_pos_nonneg 2 bits); lia.
Qed.

(** The [handle_wrap] branch of the signed check. *)
Lemma signed_wrap value incr bits :
  1 <= bits <= 64 ->
  i64 (if bits <? 64 then
         if negb (Z.land (u64 (u64 value + u64 incr)) (u64 (Z.shiftl 1 (bits - 1))) =? 0)
         then Z.lor (u64 (u64 value + u64 incr)) (u64 (Z.shiftl (2 ^ 64 - 1) bits))
         else Z.land (u64 (u64 value + u64 incr)) (u64 (Z.lnot (u64 (Z.shiftl (2 ^ 64 - 1) bits))))
       else u64 (u64 value + u64 incr))
  = wrapS bits (value + incr).
Proof.
  intros Hb. rewrite wrapU_add_l, wrapU_add_r. set (t := value + incr).
  assert (u64 (Z.shiftl 1 (bits - 1)) = Z.shiftl 1 (bits - 1)) as ->.
  { apply wrapU_small. rewrite Z.shiftl_mul_pow2, Z.mul_1_l by lia.
    split; [apply Z.pow_nonneg; lia | apply Z.pow_lt_mono_r; lia]. }
  destruct (Z.ltb_spec bits 64) as [Hlt|]; cycle 1.
  { replace bits with 64 by lia. by rewrite i64_u64. }
  pose proof (land_bit_test (u64 t) (Z.to_nat (bits - 1))) as Ht. rewrite Z2Nat.id in Ht by lia. rewrite Ht.
  transitivity (wrapS bits (u64 t)).
  - rewrite <- (sign_extend_wrapS bits) by lia. unfold sign_extend.
    pose proof (Z.pow_pos_nonneg 2 bits). pose proof (Z.pow_le_mono_r 2 bits 63).
    pose proof (Z.mod_pos_bound (u64 t) (2 ^ bits)).
    destruct (Z.testbit (u64 t) (bits - 1)).
    + rewrite lor_mask; [by rewrite i64_high by lia | lia | by apply wrapU_range].
    + rewrite land_not_mask by lia. apply i64_small. lia.
  - apply wrapS_congr; [lia|]. apply u64_mod. lia.
Qed.

(** The values for which [min - value] fits int64_t. *)
Definition minincr_fits (value bits : Z) : bool := value <=? 2 ^ 63 - 2 ^ (bits - 1).

Lemma minincr_chk value bits :
  1 <= bits <= 64 -> - 2 ^ 63 <= value < 2 ^ 63 ->
  chk_i64 (- (2 ^ (bits - 1) - 1) - 1 - value)
  = if minincr_fits value bits then Ok (- 2 ^ (bits - 1) - value) else Err SignedOverflow.
Proof.
  intros Hb Hv. pose proof (Z.pow_pos_nonneg 2 (bits - 1)). unfold minincr_fits, chk_i64, in_i64.
  replace (- (2 ^ (bits - 1) - 1) - 1 - value) with (- 2 ^ (bits - 1) - value) by lia.
  rewrite (proj2 (Z.leb_le (- 2 ^ (bits - 1) - value) LLONG_MAX)), andb_true_r by lia.
  destruct (Z.leb_spec value (2 ^ 63 - 2 ^ (bits - 1))); [by rewrite (proj2 (Z.leb_le _ _)) by lia|].
  by rewrite (proj2 (Z.leb_gt _ _)) by lia.
Qed.

Lemma checkSigned_faults value incr bits ow :
  1 <= bits <= 64 -> - 2 ^ 63 <= value < 2 ^ 63 -> minincr_fits value bits = false ->
  checkSignedBitfieldOverflow value incr bits ow = Err SignedOverflow.
Proof.
  intros Hb Hv Hf. unfold checkSignedBitfieldOverflow. rewrite s_max, minincr_chk, Hf by lia. done.
Qed.

(** The last hypothesis excludes the values for which [maxincr] wraps around
    (see [bitfield_sat_inverts]). *)
Lemma checkSigned_ok value incr bits ow :
  1 <= bits <= 64 -> - 2 ^ 63 <= value < 2 ^ 63 -> - 2 ^ 63 <= incr < 2 ^ 63 ->
  - 2 ^ (bits - 1) <= value < 2 ^ (bits - 1) \/ incr = 0 ->
  minincr_fits value bits = true ->
  ow <> BFOVERFLOW_SAT \/ bits = 64 \/ 2 ^ (bits - 1) - 2 ^ 63 <= value ->
  exists r, checkSignedBitfieldOverflow value incr bits ow = Ok r /\
    bf_stored ow r (i64 (value + incr))
    = bf_spec (- 2 ^ (bits - 1)) (2 ^ (bits - 1) - 1) (wrapS bits) ow (value + incr).
Proof.
  intros Hb Hv Hi Hc Hf Hs. unfold checkSignedBitfieldOverflow.
  rewrite signed_wrap, s_max, minincr_chk, Hf, !i64_u64 by lia. pose proof (Z.pow_pos_nonneg 2 (bits - 1)) as Hp.
  apply Z.leb_le in Hf. eexists. split; [reflexivity|].
  set (h := 2 ^ (bits - 1)) in *. assert (- (h - 1) - 1 = - h) as -> by lia.
  assert (bits = 64 /\ h = 2 ^ 63 \/ bits <> 64 /\ 2 * h <= 2 ^ 63) as Hh.
  { destruct (Z.eq_dec bits 64) as [E|]; [left; split; [done | by unfold h; rewrite E]|].
    right. split; [done|]. unfold h. rewrite <- Z.pow_succ_r by lia. apply Z.pow_le_mono_r; lia. }
  assert (0 < h <= 2 ^ 63) as Hr by lia. clear Hp.
  assert (- h <= value + incr <= h - 1 -> i64 (value + incr) = value + incr) as Hsum by (intros; apply i64_small; lia).
  assert (bits <> 64 /\ value < h - 2 ^ 63 \/ (bits <> 64 -> h - 2 ^ 63 <= value)) as [[Hn Hl]|Hg] by lia.
  - (* [maxincr] wraps around *)
    assert (incr = 0) as -> by lia.
    match goal with |- context [if ?g then _ else if _ then _ else _] =>
      assert (g = true) as -> by (rewrite i64_over by lia; bprop)
    end.
    unfold bf_stored, bf_spec. rewrite (proj2 (Z.leb_gt (- h) (value + 0))) by lia.
    destruct ow; [done | destruct Hs as [|[]]; [done | lia..] | done].
  - apply (bf_exact (- h) (h - 1) (wrapS bits)); [lia | done | |intros].
    + destruct (Z.lt_ge_cases value (h - 2 ^ 63)); [|rewrite i64_small by lia]; bguard.
    + bguard.
Qed.

(** * Reading what was written *)

Lemma get_put_same l off f : (off + length f <= length l)%nat -> get_field (put_bits l off f) off (length f) = f.
Proof.
  intros Hl. unfold get_field, put_bits. rewrite drop_app_length' by (rewrite length_take; lia). by rewrite take_app_length.
Qed.

Lemma put_bits_lookup l off f i :
  (off + length f <= length l)%nat ->
  put_bits l off f !! i = if decide (off <= i < off + length f)%nat then f !! (i - off)%nat else l !! i.
Proof.
  intros Hl. unfold put_bits. assert (length (take off l) = off) as Ht by (rewrite length_take; lia).
  destruct (decide (i < off)%nat).
  - rewrite decide_False by lia. rewrite lookup_app_l by lia. by rewrite lookup_take_lt.
  - rewrite lookup_app_r by lia. rewrite Ht. destruct (decide (i < off + length f)%nat).
    + rewrite decide_True by lia. by rewrite lookup_app_l by lia.
    + rewrite decide_False by lia. rewrite lookup_app_r by lia. rewrite lookup_drop. f_equal. lia.
Qed.

Lemma get_put_other l off f off' n :
  (off + length f <= length l)%nat -> (off' + n <= off \/ off + length f <= off')%nat ->
  get_field (put_bits l off f) off' n = get_field l off' n.
Proof.
  intros Hl Hd. unfold get_field. apply list_eq. intros i. destruct (decide (i < n)%nat).
  - rewrite !lookup_take_lt, !lookup_drop, put_bits_lookup by done. by rewrite decide_False by lia.
  - by rewrite !lookup_take_ge by lia.
Qed.

(** * Properties *)

(** A value written to a bit field is read back, reduced to the width of
    the field with its sign, and every field that does not overlap keeps its
    value; the writes stay inside the string. *)
Theorem bitfield_set_get s off bits v :
  Forall is_byte s -> 0 <= off -> 1 <= bits <= 64 -> off + bits <= 8 * zlen s ->
  exists s', setSignedBitfield s off bits v = Ok s' /\ zlen s' = zlen s /\ Forall is_byte s' /\
    getSignedBitfield s' off bits = Ok (wrapS bits v) /\
    getUnsignedBitfield s' off bits = Ok (v mod 2 ^ bits) /\
    forall off' bits', 0 <= off' -> 1 <= bits' <= 64 -> off' + bits' <= 8 * zlen s ->
      off' + bits' <= off \/ off + bits <= off' ->
      getUnsignedBitfield s' off' bits' = getUnsignedBitfield s off' bits' /\
      getSignedBitfield s' off' bits' = getSignedBitfield s off' bits'.
Proof.
  intros Hs Ho Hb Hz. unfold setSignedBitfield, setUnsignedBitfield.
  destruct (set_bits_ok (Z.to_nat bits) s off (u64 v)) as (s' & -> & Hs' & Hl & E); [done | done | lia |].
  assert (zlen s' = zlen s) as Hzl by (unfold zlen; congruence).
  assert (Z.to_nat off + Z.to_nat bits <= length (bits_of s))%nat as Hle by (rewrite length_bits_of; unfold zlen in *; lia).
  assert (bval (get_field (bits_of s') (Z.to_nat off) (Z.to_nat bits)) = v mod 2 ^ bits) as Ev.
  { rewrite E. pose proof (get_put_same (bits_of s) (Z.to_nat off) (word_bits (Z.to_nat bits) (u64 v))) as Hg.
    rewrite length_word_bits in Hg. rewrite Hg by done. rewrite bval_word_bits, Z2Nat.id by lia. apply u64_mod. lia. }
  exists s'. split_and!; try done.
  - rewrite getSigned_ok, Ev by (done || lia). f_equal. apply wrapS_congr; [lia|]. apply Z.mod_mod.
    pose proof (Z.pow_pos_nonneg 2 bits). lia.
  - rewrite getUnsigned_ok, Ev by (done || lia). done.
  - intros off' bits' Ho' Hb' Hz' Hd.
    assert (get_field (bits_of s') (Z.to_nat off') (Z.to_nat bits') = get_field (bits_of s) (Z.to_nat off') (Z.to_nat bits')) as Eg.
    { rewrite E. apply get_put_other; rewrite length_word_bits; lia. }
    rewrite !getSigned_ok, !getUnsigned_ok, Eg by (done || lia). done.
Qed.

Lemma bitfield_set_get_witness :
  exists s', setSignedBitfield [255; 0; 255] 4 12 (-1000) = Ok s' /\ getSignedBitfield s' 4 12 = Ok (wrapS 12 (-1000)).
Proof.
  destruct (bitfield_set_get [255; 0; 255] 4 12 (-1000)) as (s' & H1 & _ & _ & H2 & _).
  - repeat constructor; unfold is_byte; lia.
  - lia.
  - lia.
  - unfold zlen. simpl. lia.
  - by exists s'.
Defined.

(** C30: Overflow control follows its specification, for a value that the field
    holds and any increment (INCRBY), and for any value with increment zero
    (SET).  What is stored is the sum if the type holds it; otherwise the sum
    reduced to the width (WRAP), the limit on its side (SAT), or nothing (FAIL).
    For unsigned fields there is no other condition.  For signed fields the check
    is undefined (a signed subtraction overflows) exactly when [min - value]
    leaves int64_t, that is for values above [2^63 - 2^(bits-1)]; for the others
    it answers as specified, a saturating SET of a value below [2^(bits-1) - 2^63]
    in a field of less than 64 bits excepted. *)
Theorem bitfield_overflow_correct value incr bits ow :
  - 2 ^ 63 <= incr < 2 ^ 63 ->
  (1 <= bits <= 63 -> 0 <= value < 2 ^ 64 -> value < 2 ^ bits \/ incr = 0 ->
   bf_stored ow (checkUnsignedBitfieldOverflow value incr bits ow) (u64 (value + incr))
   = bf_spec 0 (2 ^ bits - 1) (fun t => t mod 2 ^ bits) ow (value + incr)) /\
  (1 <= bits <= 64 -> - 2 ^ 63 <= value < 2 ^ 63 ->
   (2 ^ 63 - 2 ^ (bits - 1) < value ->
    checkSignedBitfieldOverflow value incr bits ow = Err SignedOverflow) /\
   (value <= 2 ^ 63 - 2 ^ (bits - 1) ->
    - 2 ^ (bits - 1) <= value < 2 ^ (bits - 1) \/ incr = 0 ->
    ow <> BFOVERFLOW_SAT \/ bits = 64 \/ 2 ^ (bits - 1) - 2 ^ 63 <= value ->
    exists r, checkSignedBitfieldOverflow value incr bits ow = Ok r /\
      bf_stored ow r (i64 (value + incr))
      = bf_spec (- 2 ^ (bits - 1)) (2 ^ (bits - 1) - 1) (wrapS bits) ow (value + incr))).
Proof.
  intros Hi. split; [intros; by apply checkUnsigned_ok|]. intros Hb Hv. split.
  - intros H. apply checkSigned_faults; [done..|]. by apply Z.leb_gt.
  - intros H Hc Hs. apply checkSigned_ok; try done. by apply Z.leb_le.
Qed.

Lemma bitfield_overflow_correct_witness :
  bf_stored BFOVERFLOW_SAT (checkUnsignedBitfieldOverflow 250 10 8 BFOVERFLOW_SAT) (u64 260) = Some 255 /\
  (exists r, checkSignedBitfieldOverflow 120 10 8 BFOVERFLOW_WRAP = Ok r /\
     bf_stored BFOVERFLOW_WRAP r (i64 130) = Some (-126)) /\
  checkSignedBitfieldOverflow 1 1 64 BFOVERFLOW_WRAP = Err SignedOverflow.
Proof.
  split_and!.
  - apply (bitfield_overflow_correct 250 10 8 BFOVERFLOW_SAT); lia.
  - apply (bitfield_overflow_correct 120 10 8 BFOVERFLOW_WRAP); first [lia | by left].
  - apply (bitfield_overflow_correct 1 1 64 BFOVERFLOW_WRAP); lia.
Defined.

(** C40: A defect of saturation: a signed field is set with OVERFLOW SAT to a
    value so far below its range that [max - value] leaves int64_t; the value
    is then taken for an overflow and the field receives its maximum, where
    the specification says its minimum.  The comment in the code argues that
    the differences are used only after the range check, but [value < min] is
    tested in the second branch only. *)
Theorem bitfield_sat_inverts value bits :
  1 <= bits <= 63 -> - 2 ^ 63 <= value < 2 ^ (bits - 1) - 2 ^ 63 ->
  checkSignedBitfieldOverflow value 0 bits BFOVERFLOW_SAT = Ok (1, Some (2 ^ (bits - 1) - 1)) /\
  bf_spec (- 2 ^ (bits - 1)) (2 ^ (bits - 1) - 1) (wrapS bits) BFOVERFLOW_SAT value = Some (- 2 ^ (bits - 1)).
Proof.
  intros Hb Hv. assert (2 ^ 63 = 2 * 2 ^ 62) by reflexivity.
  pose proof (Z.pow_le_mono_r 2 (bits - 1) 62). pose proof (Z.pow_pos_nonneg 2 (bits - 1)).
  unfold checkSignedBitfieldOverflow, bf_spec. rewrite s_max, minincr_chk, i64_u64 by lia.
  unfold minincr_fits. rewrite (proj2 (Z.leb_le value _)) by lia. set (h := 2 ^ (bits - 1)) in *.
  split.
  - match goal with |- context [if ?g then _ else if _ then _ else _] =>
      assert (g = true) as -> by (rewrite i64_over by (change (2 ^ 64) with (2 * 2 ^ 63); lia); bprop)
    end. done.
  - rewrite (proj2 (Z.leb_gt (- h) value)) by lia. cbn [andb]. by rewrite (proj2 (Z.ltb_lt value (- h))) by lia.
Qed.

Lemma bitfield_sat_inverts_witness :
  checkSignedBitfieldOverflow LLONG_MIN 0 8 BFOVERFLOW_SAT = Ok (1, Some 127).
Proof. apply (bitfield_sat_inverts LLONG_MIN 8); lia. Defined.
