(* ===== verification/BitCommands.v ===== *)
(** BitCommands: the commands of src/redis-stable/src/bitops.c: SETBIT, GETBIT,
    BITCOUNT, BITPOS and BITFIELD over the operations of Bitops (BITOP is in
    BitOp).

    A command takes its arguments after the name, as byte strings, and the
    keyspace; it answers the new keyspace and the reply.  [proto_max_bulk_len]
    is the configured limit on strings, [obey] the outcome of mustObeyClient,
    [popcnt] whether the processor has the instruction, [addr] and [stack]
    where the string and a local buffer happen to be. *)

From Stdlib Require Import ZArith Lia Bool String.
From stdpp Require Import base list numbers decidable gmap.
From S2P Require Import Prelude Bytes Numbers Objects Bitops.

Local Open Scope Z_scope.

Inductive bitfield_opcode := BITFIELDOP_GET | BITFIELDOP_SET | BITFIELDOP_INCRBY.

#[global] Instance bitfield_opcode_eq_dec : EqDecision bitfield_opcode.
Proof. solve_decision. Defined.
#[global] Instance bfoverflow_eq_dec : EqDecision bfoverflow.
Proof. solve_decision. Defined.

Record bitfieldOp := mkOp {
  bo_offset : Z;
  bo_i64 : Z;
  bo_opcode : bitfield_opcode;
  bo_owtype : bfoverflow;
  bo_bits : Z;
  bo_sign : bool;
}.

Section commands.
Context {host : HostEndian}.
Variable proto_max_bulk_len : Z.
Variables obey popcnt : bool.
Variables addr stack : Z.

(** * Arguments *)

Definition getBitOffsetFromArgument (p : list Z) (hash : bool) (bits : Z) : cmd Z :=
  let usehash := bool_decide (head p = Some 35) && hash && (bits >? 0) in
  let p := if usehash then drop 1 p else p in
  let* r := string2ll p (zlen p) in
  match r with
  | None => failc BadBitOffset
  | Some loffset =>
      let* loffset := if usehash then chk_i64 (loffset * bits) else Ok loffset in
      if (loffset <? 0) || (negb obey && (Z.shiftr loffset 3 >=? proto_max_bulk_len))
      then failc BadBitOffset
      else retc loffset
  end.

(** The sign and the width. *)
Definition getBitfieldTypeFromArgument (p : list Z) : cmd (bool * Z) :=
  let width (sign : bool) (p : list Z) :=
    let* r := string2ll (c_str p) (zlen (c_str p)) in
    match r with
    | None => failc BadBitfieldType
    | Some llbits =>
        if (llbits <? 1) || (sign && (llbits >? 64)) || (negb sign && (llbits >? 63))
        then failc BadBitfieldType
        else retc (sign, llbits)
    end in
  match p with
  | c :: p =>
      if c =? 105 then width true p
      else if c =? 117 then width false p
      else failc BadBitfieldType
  | [] => failc BadBitfieldType
  end.

(** The string under [key], created or padded with zeros so that it has the
    bit [maxbit]; its old size and how much it grew. *)
Definition lookupStringForBitCommand (db : redisDb) (key : list Z) (maxbit : Z)
  : cmd (redisDb * list Z * Z * Z) :=
  let byte := Z.shiftr maxbit 3 in
  let! o := checkString (dbFind db key) in
  match o with
  | None =>
      let s := replicate (Z.to_nat (byte + 1)) 0 in
      retc (setKey db key (ObjSds s), s, 0, byte + 1)
  | Some o =>
      let* old := getDecodedObject o in
      let s := sdsgrowzero old (byte + 1) in
      retc (setKey db key (ObjSds s), s, zlen old, zlen s - zlen old)
  end.

(** * SETBIT and GETBIT *)

(** What a command sends: its error, or its reply. *)
Definition answer (db : redisDb) (m : cmd (redisDb * reply)) : result (redisDb * reply) :=
  let* r := m in
  match r with
  | inl e => Ok (db, ReplyError e)
  | inr x => Ok x
  end.

Definition setbitCommand (db : redisDb) (key offset value : list Z) : result (redisDb * reply) :=
  answer db
    (let! bitoffset := getBitOffsetFromArgument offset false 0 in
     let! on := getLongFromObjectOrReply value BadBitValue in
     if negb (Z.land on (Z.lnot 1) =? 0) then failc BadBitValue else
     let! (db, s, strOldSize, strGrowSize) := lookupStringForBitCommand db key bitoffset in
     let byte := Z.shiftr bitoffset 3 in
     let* byteval := rd1 s byte in
     let bit := 7 - Z.land bitoffset 0x7 in
     let bitval := Z.land byteval (Z.shiftl 1 bit) in
     let* db :=
       (if negb (strGrowSize =? 0) || negb (b2z (negb (bitval =? 0)) =? on) then
          let byteval := Z.land byteval (Z.lnot (Z.shiftl 1 bit)) in
          let byteval := Z.lor byteval (Z.shiftl (Z.land on 0x1) bit) in
          let* s := wr1 s byte (u8 byteval) in
          Ok (add_dirty (setKey db key (ObjSds s)) 1)
        else Ok db) in
     retc (db, ReplyInt (b2z (negb (bitval =? 0))))).

Definition getbitCommand (db : redisDb) (key offset : list Z) : result (redisDb * reply) :=
  answer db
    (let! bitoffset := getBitOffsetFromArgument offset false 0 in
     let! o := checkString (dbFind db key) in
     match o with
     | None => retc (db, ReplyInt 0)
     | Some kv =>
         let byte := Z.shiftr bitoffset 3 in
         let bit := 7 - Z.land bitoffset 0x7 in
         let* s := match kv with ObjSds s => Ok s | ObjInt v => print_long 32 v end in
         let* bitval := if byte <? zlen s then let* b := rd1 s byte in Ok (Z.land b (Z.shiftl 1 bit)) else Ok 0 in
         retc (db, ReplyInt (b2z (negb (bitval =? 0))))
     end).

(** * BITCOUNT *)

(** The masks for the edges of a range of bits. *)
Definition first_byte_mask (start : Z) : Z :=
  Z.land (Z.lnot (Z.shiftl 1 (8 - Z.land start 7) - 1)) 0xFF.
Definition last_byte_mask (end_ : Z) : Z := Z.shiftl 1 (7 - Z.land end_ 7) - 1.

(** [BIT] or [BYTE]. *)
Definition bit_unit (s : list Z) : cmd bool :=
  if strcaseeq s "bit" then retc true
  else if strcaseeq s "byte" then retc false
  else failc SyntaxErr.

(** Negative indexes count from the end; the range is cut to the string and
    turned into bytes and masks. *)
Definition bit_range (start end_ totlen : Z) (isbit : bool) : Z * Z * Z * Z :=
  let totlen := if isbit then Z.shiftl totlen 3 else totlen in
  let start := if start <? 0 then totlen + start else start in
  let end_ := if end_ <? 0 then totlen + end_ else end_ in
  let start := if start <? 0 then 0 else start in
  let end_ := if end_ <? 0 then 0 else end_ in
  let end_ := if end_ >=? totlen then totlen - 1 else end_ in
  if isbit && (start <=? end_)
  then (Z.shiftr start 3, Z.shiftr end_ 3, first_byte_mask start, last_byte_mask end_)
  else (start, end_, 0, 0).

(** From the range to the answer. *)
Definition bitcount_range (s : list Z) (start end_ first last : Z) : result Z :=
  if start >? end_ then Ok 0
  else
    let bytes := end_ - start + 1 in
    let* p := rdn s start bytes in
    let* count := redisPopcount (addr + start) popcnt p in
    if negb (first =? 0) || negb (last =? 0) then
      let* c0 := (if negb (first =? 0) then let* b := rd1 s start in Ok (Z.land b first) else Ok 0) in
      let* c1 := (if negb (last =? 0) then let* b := rd1 s end_ in Ok (Z.land b last) else Ok 0) in
      let* out := redisPopcount stack popcnt [c0; c1] in
      Ok (count - out)
    else Ok count.

(** The string a read command works on; [None] for a missing key. *)
Definition lookupReadString (db : redisDb) (key : list Z) : cmd (option (list Z)) :=
  let! o := checkString (dbFind db key) in
  let* s := getObjectReadOnlyString o in
  retc s.

Definition str_len (s : option (list Z)) : Z := match s with Some s => zlen s | None => 0 end.

(** The range asked for; [None] for the whole string. *)
Definition bitcount_args (args : list (list Z)) : cmd (option (Z * Z * bool)) :=
  match args with
  | [] => retc None
  | [a; b] =>
      let! start := getLongLongFromObjectOrReply a NotAnInteger in
      let! end_ := getLongLongFromObjectOrReply b NotAnInteger in
      retc (Some (start, end_, false))
  | [a; b; u] =>
      let! start := getLongLongFromObjectOrReply a NotAnInteger in
      let! end_ := getLongLongFromObjectOrReply b NotAnInteger in
      let! isbit := bit_unit u in
      retc (Some (start, end_, isbit))
  | _ => failc SyntaxErr
  end.

(** The reply, 0 for a missing key. *)
Definition bitcount_reply (db : redisDb) (s : option (list Z)) (start end_ first last : Z) : cmd (redisDb * reply) :=
  match s with
  | None => retc (db, ReplyInt 0)
  | Some s => let* n := bitcount_range s start end_ first last in retc (db, ReplyInt n)
  end.

Definition bitcountCommand (db : redisDb) (key : list Z) (args : list (list Z)) : result (redisDb * reply) :=
  answer db
    (let! range := bitcount_args args in
     let! s := lookupReadString db key in
     match range with
     | Some (start, end_, isbit) =>
         check str_len s <=? Z.shiftr LLONG_MAX 3 else AssertFailed ;;
         if (start <? 0) && (end_ <? 0) && (start >? end_) then retc (db, ReplyInt 0)
         else
           let '(start, end_, first, last) := bit_range start end_ (str_len s) isbit in
           bitcount_reply db s start end_ first last
     | None => bitcount_reply db s 0 (str_len s - 1) 0 0
     end).

(** * BITPOS *)

(** The start, the end when it is given, and the unit. *)
Definition bitpos_args (args : list (list Z)) : cmd (option (Z * option Z * bool)) :=
  match args with
  | [] => retc None
  | [a] =>
      let! start := getLongLongFromObjectOrReply a NotAnInteger in
      retc (Some (start, None, false))
  | [a; b] =>
      let! start := getLongLongFromObjectOrReply a NotAnInteger in
      let! end_ := getLongLongFromObjectOrReply b NotAnInteger in
      retc (Some (start, Some end_, false))
  | [a; b; u] =>
      let! start := getLongLongFromObjectOrReply a NotAnInteger in
      let! isbit := bit_unit u in
      let! end_ := getLongLongFromObjectOrReply b NotAnInteger in
      retc (Some (start, Some end_, isbit))
  | _ => failc SyntaxErr
  end.

(** [result:], with what [start] and [bytes] are there. *)
Definition bitpos_result (end_given : bool) (bit pos start bytes : Z) : Z :=
  if end_given && (bit =? 0) && (pos =? Z.shiftl bytes 3) then -1
  else if negb (pos =? -1) then pos + Z.shiftl start 3 else pos.

(** The last byte of the range, with its mask. *)
Definition bitpos_last (end_given : bool) (s : list Z) (bit start end_ bytes last : Z) : result Z :=
  let* b := rd1 s end_ in
  let tmpchar := if negb (bit =? 0) then Z.land b (u8 (Z.lnot last)) else Z.lor b last in
  let* pos := redisBitpos stack [tmpchar] bit in
  Ok (bitpos_result end_given bit pos start bytes).

(** The bytes after the first one. *)
Definition bitpos_middle (end_given : bool) (s : list Z) (bit start end_ bytes last : Z) : result Z :=
  let curbytes := bytes - (if negb (last =? 0) then 1 else 0) in
  if curbytes >? 0 then
    let* p := rdn s start curbytes in
    let* pos := redisBitpos (addr + start) p bit in
    if (bytes =? curbytes) || (negb (pos =? -1) && negb (pos =? Z.shiftl curbytes 3))
    then Ok (bitpos_result end_given bit pos start bytes)
    else bitpos_last end_given s bit (start + curbytes) end_ (bytes - curbytes) last
  else bitpos_last end_given s bit start end_ bytes last.

Definition bitpos_range (end_given : bool) (s : list Z) (bit start end_ first last : Z) : result Z :=
  if start >? end_ then Ok (-1)
  else
    let bytes := end_ - start + 1 in
    if negb (first =? 0) then
      let* b := rd1 s start in
      let tmpchar := if negb (bit =? 0) then Z.land b (u8 (Z.lnot first)) else Z.lor b first in
      let tmpchar :=
        if negb (last =? 0) && (bytes =? 1) then
          if negb (bit =? 0) then Z.land tmpchar (u8 (Z.lnot last)) else Z.lor tmpchar last
        else tmpchar in
      let* pos := redisBitpos stack [tmpchar] bit in
      if (bytes =? 1) || (negb (pos =? -1) && negb (pos =? 8))
      then Ok (bitpos_result end_given bit pos start bytes)
      else bitpos_middle end_given s bit (start + 1) end_ (bytes - 1) last
    else bitpos_middle end_given s bit start end_ bytes last.

Definition bitpos_reply (db : redisDb) (end_given : bool) (s : option (list Z)) (bit start end_ first last : Z)
  : cmd (redisDb * reply) :=
  match s with
  | None => retc (db, ReplyInt (if negb (bit =? 0) then -1 else 0))
  | Some s => let* n := bitpos_range end_given s bit start end_ first last in retc (db, ReplyInt n)
  end.

Definition bitposCommand (db : redisDb) (key bitarg : list Z) (args : list (list Z)) : result (redisDb * reply) :=
  answer db
    (let! bit := getLongFromObjectOrReply bitarg NotAnInteger in
     if negb (bit =? 0) && negb (bit =? 1) then failc BadBitArgument else
     let! range := bitpos_args args in
     let! s := lookupReadString db key in
     match range with
     | Some (start, end_, isbit) =>
         check str_len s <=? Z.shiftr LLONG_MAX 3 else AssertFailed ;;
         let end_given := bool_decide (is_Some end_) in
         let end_ := match end_ with Some e => e | None => str_len s - 1 end in
         let '(start, end_, first, last) := bit_range start end_ (str_len s) isbit in
         bitpos_reply db end_given s bit start end_ first last
     | None => bitpos_reply db false s bit 0 (str_len s - 1) 0 0
     end).

(** * BITFIELD *)

(** The type and offset arguments, common to all the operations. *)
Definition bitfield_target (type offset : list Z) : cmd (bool * Z * Z) :=
  let! (sign, bits) := getBitfieldTypeFromArgument type in
  let! bitoffset := getBitOffsetFromArgument offset true bits in
  retc (sign, bits, bitoffset).

(** The overflow types, by name. *)
Definition bitfield_owtype (s : list Z) : cmd bfoverflow :=
  if strcaseeq s "wrap" then retc BFOVERFLOW_WRAP
  else if strcaseeq s "sat" then retc BFOVERFLOW_SAT
  else if strcaseeq s "fail" then retc BFOVERFLOW_FAIL
  else failc BadOverflowType.

(** The first loop: the operations, whether all are GET, the highest bit
    written. *)
Fixpoint bitfield_parse (args : list (list Z)) (owtype : bfoverflow) (ops : list bitfieldOp)
    (readonly : bool) (highest : Z) : cmd (list bitfieldOp * bool * Z) :=
  match args with
  | [] => retc (ops, readonly, highest)
  | subcmd :: rest =>
      let remargs := zlen rest in
      let write (opcode : bitfield_opcode) :=
        match rest with
        | type :: offset :: value :: rest =>
            let! (sign, bits, bitoffset) := bitfield_target type offset in
            let last := u64 (bitoffset + bits - 1) in
            let highest := if highest <? last then last else highest in
            let! i64 := getLongLongFromObjectOrReply value NotAnInteger in
            bitfield_parse rest owtype (ops ++ [mkOp bitoffset i64 opcode owtype bits sign]) false highest
        | _ => failc SyntaxErr
        end in
      if strcaseeq subcmd "get" && (remargs >=? 2) then
        match rest with
        | type :: offset :: rest =>
            let! (sign, bits, bitoffset) := bitfield_target type offset in
            bitfield_parse rest owtype (ops ++ [mkOp bitoffset 0 BITFIELDOP_GET owtype bits sign]) readonly highest
        | _ => failc SyntaxErr
        end
      else if strcaseeq subcmd "set" && (remargs >=? 3) then write BITFIELDOP_SET
      else if strcaseeq subcmd "incrby" && (remargs >=? 3) then write BITFIELDOP_INCRBY
      else if strcaseeq subcmd "overflow" && (remargs >=? 1) then
        match rest with
        | name :: rest =>
            let! owtype := bitfield_owtype name in
            bitfield_parse rest owtype ops readonly highest
        | _ => failc SyntaxErr
        end
      else failc SyntaxErr
  end.

(** GET: up to nine bytes are copied to a zeroed buffer first. *)
Fixpoint bitfield_copy (n : nat) (i : Z) (src : list Z) (byte : Z) (buf : list Z) : result (list Z) :=
  match n with
  | O => Ok buf
  | S n =>
      if i + byte >=? zlen src then Ok buf
      else
        let* b := rd1 src (i + byte) in
        let* buf := wr1 buf i b in
        bitfield_copy n (i + 1) src byte buf
  end.

Definition bitfield_get (op : bitfieldOp) (src : option (list Z)) : result Z :=
  let byte := Z.shiftr (bo_offset op) 3 in
  let buf := replicate 9 0 in
  let* buf := match src with Some s => bitfield_copy 9 0 s byte buf | None => Ok buf end in
  if bo_sign op then getSignedBitfield buf (bo_offset op - byte * 8) (bo_bits op)
  else let* val := getUnsignedBitfield buf (bo_offset op - byte * 8) (bo_bits op) in Ok (i64 val).

(** SET and INCRBY, signed.  [wrapped] is not initialised, and not used, when
    an overflow of type FAIL is found. *)
Definition bitfield_set_signed (op : bitfieldOp) (s : list Z) (grow : Z) : result (list Z * reply * Z) :=
  let* oldval := getSignedBitfield s (bo_offset op) (bo_bits op) in
  let* (overflow, newval, retval) :=
    (if bool_decide (bo_opcode op = BITFIELDOP_INCRBY) then
       let* (overflow, wrapped) := checkSignedBitfieldOverflow oldval (bo_i64 op) (bo_bits op) (bo_owtype op) in
       let* newval := if negb (overflow =? 0) then Ok (default 0 wrapped) else chk_i64 (oldval + bo_i64 op) in
       Ok (overflow, newval, newval)
     else
       let newval := bo_i64 op in
       let* (overflow, wrapped) := checkSignedBitfieldOverflow newval 0 (bo_bits op) (bo_owtype op) in
       let newval := if negb (overflow =? 0) then default 0 wrapped else newval in
       Ok (overflow, newval, oldval)) in
  if negb (negb (overflow =? 0) && bool_decide (bo_owtype op = BFOVERFLOW_FAIL)) then
    let* s := setSignedBitfield s (bo_offset op) (bo_bits op) newval in
    Ok (s, ReplyInt retval, b2z (negb (grow =? 0) || negb (oldval =? newval)))
  else Ok (s, ReplyNull, 0).

Definition bitfield_set_unsigned (op : bitfieldOp) (s : list Z) (grow : Z) : result (list Z * reply * Z) :=
  let* oldval := getUnsignedBitfield s (bo_offset op) (bo_bits op) in
  let '(overflow, newval, retval) :=
    if bool_decide (bo_opcode op = BITFIELDOP_INCRBY) then
      let newval := u64 (oldval + bo_i64 op) in
      let '(overflow, wrapped) := checkUnsignedBitfieldOverflow oldval (bo_i64 op) (bo_bits op) (bo_owtype op) in
      let newval := if negb (overflow =? 0) then default 0 wrapped else newval in
      (overflow, newval, newval)
    else
      let newval := u64 (bo_i64 op) in
      let '(overflow, wrapped) := checkUnsignedBitfieldOverflow newval 0 (bo_bits op) (bo_owtype op) in
      let newval := if negb (overflow =? 0) then default 0 wrapped else newval in
      (overflow, newval, oldval) in
  if negb (negb (overflow =? 0) && bool_decide (bo_owtype op = BFOVERFLOW_FAIL)) then
    let* s := setUnsignedBitfield s (bo_offset op) (bo_bits op) newval in
    Ok (s, ReplyInt (i64 retval), b2z (negb (grow =? 0) || negb (oldval =? newval)))
  else Ok (s, ReplyNull, 0).

(** The second loop: the string, the replies and the number of changes. *)
Fixpoint bitfield_exec (ops : list bitfieldOp) (o : option (list Z)) (grow changes : Z)
  : result (option (list Z) * list reply * Z) :=
  match ops with
  | [] => Ok (o, [], changes)
  | op :: ops =>
      let* (o, r, changed) :=
        (if bool_decide (bo_opcode op = BITFIELDOP_GET) then
           let* val := bitfield_get op o in Ok (o, ReplyInt val, 0)
         else
           match o with
           | None => Err NullDeref
           | Some s =>
               let* (s, r, changed) :=
                 (if bo_sign op then bitfield_set_signed op s grow else bitfield_set_unsigned op s grow) in
               Ok (Some s, r, changed)
           end) in
      let* (o, rs, changes) := bitfield_exec ops o grow (changes + changed) in
      Ok (o, r :: rs, changes)
  end.

Definition bitfieldGeneric (db : redisDb) (ro : bool) (key : list Z) (args : list (list Z)) : result (redisDb * reply) :=
  answer db
    (let! (ops, readonly, highest_write_offset) := bitfield_parse args BFOVERFLOW_WRAP [] true 0 in
     if readonly then
       let! s := lookupReadString db key in
       let* (_, rs, _) := bitfield_exec ops s 0 0 in
       retc (db, ReplyArray rs)
     else if ro then failc ReadOnlyErr
     else
       let! (db, s, strOldSize, strGrowSize) := lookupStringForBitCommand db key highest_write_offset in
       let* (o, rs, changes) := bitfield_exec ops (Some s) strGrowSize 0 in
       match o with
       | None => Err NullDeref
       | Some s => retc (add_dirty (setKey db key (ObjSds s)) changes, ReplyArray rs)
       end).

Definition bitfieldCommand (db : redisDb) := bitfieldGeneric db false.
Definition bitfieldroCommand (db : redisDb) := bitfieldGeneric db true.

End commands.
