(* ===== verification/BitfieldCommand.v ===== *)
(** BitfieldCommand: the BITFIELD command of BitCommands implements the
    sequential execution of its operations on an unbounded sequence of bits,
    zero beyond the end of the string, with integer arithmetic. *)

From Stdlib Require Import ZArith Lia Bool String.
From stdpp Require Import base list numbers decidable gmap.
From S2P Require Import Prelude Bytes Numbers Objects Bitops BitopsProofs BitfieldProofs BitCommands.

Local Open Scope Z_scope.

(** * The specification *)

(** Bits beyond the end are zero. *)
Definition zbit (l : list bool) (i : nat) : bool := default false (l !! i).
Definition zfield (l : list bool) (off n : nat) : list bool := map (fun k => zbit l (off + k)) (seq 0 n).

Definition field_val (sign : bool) (l : list bool) (off bits : Z) : Z :=
  let v := bval (zfield l (Z.to_nat off) (Z.to_nat bits)) in
  if sign then wrapS bits v else v.

(** The values of a type, and what wrapping means there. *)
Definition bf_lo (sign : bool) (bits : Z) : Z := if sign then - 2 ^ (bits - 1) else 0.
Definition bf_hi (sign : bool) (bits : Z) : Z := if sign then 2 ^ (bits - 1) - 1 else 2 ^ bits - 1.
Definition bf_wrap (sign : bool) (bits t : Z) : Z := if sign then wrapS bits t else t mod 2 ^ bits.

(** The sum or value that an operation wants to store: SET takes the argument
    of an unsigned field as uint64_t. *)
Definition op_target_value (l : list bool) (op : bitfieldOp) : Z :=
  match bo_opcode op with
  | BITFIELDOP_INCRBY => field_val (bo_sign op) l (bo_offset op) (bo_bits op) + bo_i64 op
  | _ => if bo_sign op then bo_i64 op else u64 (bo_i64 op)
  end.

(** The bits, the reply and the number of changes after one operation; a write
    that is stored counts when the command made the string longer ([grew]) or
    when the value differs from the old one. *)
Definition spec_op (grew : bool) (l : list bool) (op : bitfieldOp) : list bool * reply * Z :=
  let old := field_val (bo_sign op) l (bo_offset op) (bo_bits op) in
  match bo_opcode op with
  | BITFIELDOP_GET => (l, ReplyInt old, 0)
  | opcode =>
      match bf_spec (bf_lo (bo_sign op) (bo_bits op)) (bf_hi (bo_sign op) (bo_bits op))
              (bf_wrap (bo_sign op) (bo_bits op)) (bo_owtype op) (op_target_value l op) with
      | None => (l, ReplyNull, 0)
      | Some v =>
          (put_bits l (Z.to_nat (bo_offset op)) (word_bits (Z.to_nat (bo_bits op)) v),
           ReplyInt (if bool_decide (opcode = BITFIELDOP_SET) then old else v),
           b2z (grew || negb (old =? v)))
      end
  end.

Fixpoint spec_ops (grew : bool) (l : list bool) (ops : list bitfieldOp) : list bool * list reply * Z :=
  match ops with
  | [] => (l, [], 0)
  | op :: ops =>
      let '(l, r, n) := spec_op grew l op in
      let '(l, rs, ns) := spec_ops grew l ops in
      (l, r :: rs, n + ns)
  end.

(** The signed subtraction of the overflow check is defined: for every write to
    a signed field, the value checked (the old one for INCRBY, the argument for
    SET) is not above [2^63 - 2^(bits-1)]. *)
Definition op_defined (l : list bool) (op : bitfieldOp) : bool :=
  match bo_opcode op with
  | BITFIELDOP_GET => true
  | BITFIELDOP_SET => negb (bo_sign op) || minincr_fits (bo_i64 op) (bo_bits op)
  | BITFIELDOP_INCRBY =>
      negb (bo_sign op) || minincr_fits (field_val true l (bo_offset op) (bo_bits op)) (bo_bits op)
  end.

Fixpoint ops_defined (l : list bool) (ops : list bitfieldOp) : bool :=
  match ops with
  | [] => true
  | op :: ops => op_defined l op && ops_defined (spec_op false l op).1.1 ops
  end.

(** * Fields at the edge of a string *)

Lemma length_zfield l off n : length (zfield l off n) = n.
Proof. unfold zfield. by rewrite length_map, length_seq. Qed.

Lemma zfield_lookup l off n i : (i < n)%nat -> zfield l off n !! i = Some (zbit l (off + i)).
Proof. intros Hi. unfold zfield. by rewrite list_lookup_fmap, lookup_seq_lt. Qed.

Lemma zfield_inside l off n : (off + n <= length l)%nat -> zfield l off n = get_field l off n.
Proof.
  intros Hl. apply list_eq_same_length with n; [by apply length_get_field | by rewrite length_zfield |].
  intros i x y Hi. rewrite zfield_lookup by done. unfold get_field, zbit.
  rewrite lookup_take_lt, lookup_drop by done. intros [= <-] Hy. by rewrite Hy.
Qed.

(** The byte of a bit. *)
Definition zbyte (s : list Z) (i : nat) : Z := default 0 (s !! i).

Lemma zbit_bits_of s i : zbit (bits_of s) i = Z.testbit (zbyte s (i / 8)) (7 - Z.of_nat (i mod 8)).
Proof.
  unfold zbit, zbyte. rewrite bits_of_lookup. destruct (s !! (i / 8)%nat); cbn; [done | by rewrite Z.bits_0].
Qed.

(** The copy of the GET path. *)
Lemma bitfield_copy_ok src byte n : forall i buf,
  0 <= i -> 0 <= byte -> zlen buf = 9 -> i + Z.of_nat n = 9 -> Forall is_byte src -> Forall is_byte buf ->
  (forall k, (k < Z.to_nat i)%nat -> zbyte buf k = zbyte src (k + Z.to_nat byte)) ->
  (forall k, (Z.to_nat i <= k)%nat -> zbyte buf k = 0) ->
  exists buf', bitfield_copy n i src byte buf = Ok buf' /\ zlen buf' = 9 /\ Forall is_byte buf' /\
    forall k, (k < 9)%nat -> zbyte buf' k = zbyte src (k + Z.to_nat byte).
Proof.
  induction n as [|n IH]; intros i buf Hi Hy Hl Hn Hs Hb Hlow Hhigh; cbn [bitfield_copy].
  { exists buf. split_and!; try done. intros k Hk. apply Hlow. lia. }
  rewrite Z.geb_leb. destruct (Z.leb_spec (zlen src) (i + byte)) as [Hend|Hin].
  - exists buf. split_and!; try done. intros k Hk. destruct (decide (k < Z.to_nat i)%nat); [by apply Hlow|].
    rewrite Hhigh by lia. unfold zbyte. rewrite lookup_ge_None_2; [done|]. unfold zlen in *. lia.
  - destruct (rd1_ok src (i + byte)) as (b & -> & Hsb); [lia|]. runr.
    rewrite wr1_ok by lia. runr.
    assert (forall k, zbyte (<[Z.to_nat i:=b]> buf) k = if decide (k = Z.to_nat i) then b else zbyte buf k) as Hz.
    { intros k. unfold zbyte. destruct (decide (k = Z.to_nat i)) as [->|].
      - rewrite list_lookup_insert_eq; [done|]. unfold zlen in *. lia.
      - by rewrite list_lookup_insert_ne by done. }
    apply IH; try done; try lia.
    + by rewrite zlen_insert.
    + apply Forall_insert; [done|]. eapply list.Forall_lookup_1; [exact Hs | exact Hsb].
    + intros k Hk. rewrite Hz. destruct (decide (k = Z.to_nat i)) as [->|]; [|apply Hlow; lia].
      unfold zbyte. rewrite <- Z2Nat.inj_add by lia. by rewrite Hsb.
    + intros k Hk. rewrite Hz. destruct (decide (k = Z.to_nat i)); [lia|]. apply Hhigh. lia.
Qed.

Lemma zfield_ext l m off off' n :
  (forall k, (k < n)%nat -> zbit l (off + k) = zbit m (off' + k)) -> zfield l off n = zfield m off' n.
Proof. intros H. unfold zfield. apply map_ext_in. intros k Hk%in_seq. apply H. lia. Qed.

Lemma bitfield_get_ok op (src : option (list Z)) :
  let s := default [] src in
  Forall is_byte s -> 0 <= bo_offset op -> 1 <= bo_bits op <= (if bo_sign op then 64 else 63) ->
  bitfield_get op src = Ok (field_val (bo_sign op) (bits_of s) (bo_offset op) (bo_bits op)).
Proof.
  intros s Hs Ho Hb. unfold bitfield_get.
  set (off := bo_offset op) in *. set (bits := bo_bits op) in *. set (byte := Z.shiftr off 3).
  assert (0 <= byte /\ off = 8 * byte + off mod 8 /\ 0 <= off mod 8 < 8) as (Hy & Hoff & Hmod).
  { unfold byte. rewrite Z.shiftr_div_pow2 by done. change (2 ^ 3) with 8.
    pose proof (Z.div_mod off 8). pose proof (Z.mod_pos_bound off 8). split; [apply Z.div_pos|]; lia. }
  assert (exists buf, match src with Some s => bitfield_copy 9 0 s byte (replicate 9 0) | None => Ok (replicate 9 0) end = Ok buf
    /\ zlen buf = 9 /\ Forall is_byte buf /\ forall k, (k < 9)%nat -> zbyte buf k = zbyte s (k + Z.to_nat byte))
    as (buf & -> & Hlen & Hbuf & Hz).
  { assert (Forall is_byte (replicate 9 0)) by (apply Forall_replicate; by unfold is_byte).
    assert (forall k, zbyte (replicate 9 0) k = 0) as H0.
    { intros k. unfold zbyte. destruct (replicate 9 0 !! k) eqn:E; [|done]. by apply lookup_replicate in E as [-> _]. }
    destruct src as [s'|]; [|exists (replicate 9 0); split_and!; try done; intros; by rewrite H0].
    apply bitfield_copy_ok; try done; intros; first [lia | apply H0]. }
  runr. replace (off - byte * 8) with (off mod 8) by lia.
  assert (get_field (bits_of buf) (Z.to_nat (off mod 8)) (Z.to_nat bits) = zfield (bits_of s) (Z.to_nat off) (Z.to_nat bits)) as E.
  { rewrite <- zfield_inside; cycle 1.
    { rewrite length_bits_of. unfold zlen in Hlen. destruct (bo_sign op); lia. }
    apply zfield_ext. intros k Hk. rewrite !zbit_bits_of.
    replace (Z.to_nat off + k)%nat with (Z.to_nat (off mod 8) + k + Z.to_nat byte * 8)%nat by lia.
    rewrite Nat.div_add, Nat.Div0.mod_add by lia. f_equal. apply Hz.
    apply Nat.Div0.div_lt_upper_bound. destruct (bo_sign op); lia. }
  unfold field_val. destruct (bo_sign op).
  - rewrite getSigned_ok by (done || lia). by rewrite E.
  - rewrite getUnsigned_ok by (done || lia). runr. rewrite E.
    pose proof (bval_range (zfield (bits_of s) (Z.to_nat off) (Z.to_nat bits))) as Hr.
    unfold zlen in Hr. rewrite length_zfield, Z2Nat.id in Hr by lia.
    pose proof (Z.pow_le_mono_r 2 bits 63). rewrite i64_small by lia. done.
Qed.

(** * The writing operations *)

Lemma word_bits_u64 n v : (n <= 64)%nat -> word_bits n (u64 v) = word_bits n v.
Proof.
  intros Hn. unfold word_bits. apply map_ext_in. intros i Hi%in_seq. apply Z.mod_pow2_bits_low. lia.
Qed.

Lemma field_val_range sign l off bits :
  1 <= bits -> bf_lo sign bits <= field_val sign l off bits <= bf_hi sign bits.
Proof.
  intros Hb. unfold field_val, bf_lo, bf_hi.
  pose proof (bval_range (zfield l (Z.to_nat off) (Z.to_nat bits))) as Hr.
  unfold zlen in Hr. rewrite length_zfield, Z2Nat.id in Hr by lia. destruct sign; [|lia].
  unfold wrapS. assert (2 ^ bits = 2 * 2 ^ (bits - 1)) as E by (rewrite <- Z.pow_succ_r by lia; f_equal; lia).
  pose proof (Z.mod_pos_bound (bval (zfield l (Z.to_nat off) (Z.to_nat bits)) + 2 ^ (bits - 1)) (2 ^ bits)). lia.
Qed.

(** The operations the theorems speak of: the types the parser lets through,
    and no saturating SET of a value so small that [maxincr] wraps around. *)
Record wf_op (len : Z) (op : bitfieldOp) : Prop := {
  wo_bits : 1 <= bo_bits op <= (if bo_sign op then 64 else 63);
  wo_offset : 0 <= bo_offset op;
  wo_value : - 2 ^ 63 <= bo_i64 op < 2 ^ 63;
  wo_room : bo_opcode op <> BITFIELDOP_GET -> bo_offset op + bo_bits op <= 8 * len;
  wo_sat : bo_opcode op = BITFIELDOP_SET -> bo_sign op = true -> bo_owtype op = BFOVERFLOW_SAT ->
           bo_bits op = 64 \/ 2 ^ (bo_bits op - 1) - 2 ^ 63 <= bo_i64 op;
}.

(** What an executed operation guarantees. *)
Record op_done (grew : bool) (s : list Z) (op : bitfieldOp) (s' : list Z) (r : reply) (ch : Z) : Prop := {
  od_spec : (bits_of s', r, ch) = spec_op grew (bits_of s) op;
  od_byte : Forall is_byte s';
  od_len : length s' = length s;
}.

(** Growth only matters to the count. *)
Lemma spec_op_grew g g' l op : (spec_op g l op).1 = (spec_op g' l op).1.
Proof. unfold spec_op. destruct (bo_opcode op); [done|..]; by destruct (bf_spec _ _ _ _ _). Qed.

(** From the answer of a check to the branch taken by the command. *)
Lemma stored_branch lo hi wrap ow t (a : Z * option Z) sum :
  bf_stored ow a sum = bf_spec lo hi wrap ow t ->
  match bf_spec lo hi wrap ow t with
  | Some v => negb (negb (a.1 =? 0) && bool_decide (ow = BFOVERFLOW_FAIL)) = true
              /\ (if negb (a.1 =? 0) then default 0 a.2 else sum) = v
  | None => negb (negb (a.1 =? 0) && bool_decide (ow = BFOVERFLOW_FAIL)) = false
  end.
Proof.
  unfold bf_stored. intros H. destruct a as [c w]. cbn [fst snd] in *.
  destruct (bf_spec lo hi wrap ow t) as [v|] eqn:E; destruct (Z.eqb_spec c 0); cbn [negb andb] in *.
  - by injection H as ->.
  - rewrite bool_decide_false by (intros ->; done). split; [done|]. destruct ow; [by subst..|done].
  - done.
  - destruct ow; [| |by rewrite bool_decide_true]; unfold bf_spec in E; destruct ((lo <=? t) && (t <=? hi)); done.
Qed.

(** The check answers 0 only for a sum that fits. *)
Lemma checkSigned_zero value incr bits ow :
  1 <= bits <= 64 -> - 2 ^ 63 <= incr < 2 ^ 63 -> - 2 ^ (bits - 1) <= value < 2 ^ (bits - 1) ->
  minincr_fits value bits = true ->
  (exists w, checkSignedBitfieldOverflow value incr bits ow = Ok (0, w)) ->
  - 2 ^ (bits - 1) <= value + incr <= 2 ^ (bits - 1) - 1.
Proof.
  intros Hb Hi Hv Hfit [w Hz]. pose proof (Z.pow_le_mono_r 2 (bits - 1) 63) as Hp.
  destruct (checkSigned_ok value incr bits BFOVERFLOW_FAIL Hb ltac:(lia) Hi (or_introl Hv) Hfit ltac:(by left)) as (r & Hr & H).
  assert (r.1 = 0) as Hz'.
  { revert Hz Hr. unfold checkSignedBitfieldOverflow. rewrite s_max, minincr_chk, Hfit by lia. runr.
    intros [= Hz] [= <-]. revert Hz.
    repeat match goal with |- context [if ?g then _ else _] => destruct g end; by destruct ow. }
  unfold bf_stored in H. rewrite Hz' in H. cbn [Z.eqb] in H. unfold bf_spec in H.
  destruct (Z.leb_spec (- 2 ^ (bits - 1)) (value + incr)), (Z.leb_spec (value + incr) (2 ^ (bits - 1) - 1)); try done; lia.
Qed.

Lemma setSigned_ok s off bits v :
  Forall is_byte s -> 0 <= off -> 0 <= bits <= 64 -> off + bits <= 8 * zlen s ->
  exists s', setSignedBitfield s off bits v = Ok s' /\ Forall is_byte s' /\ length s' = length s /\
    bits_of s' = put_bits (bits_of s) (Z.to_nat off) (word_bits (Z.to_nat bits) v).
Proof.
  intros Hs Ho Hb Hz. unfold setSignedBitfield, setUnsignedBitfield.
  destruct (set_bits_ok (Z.to_nat bits) s off (u64 v)) as (s' & H1 & H2 & H3 & H4); [done | done | lia |].
  exists s'. split_and!; try done. by rewrite H4, word_bits_u64 by lia.
Qed.

Lemma bf_spec_range sign bits ow t v :
  1 <= bits -> bf_spec (bf_lo sign bits) (bf_hi sign bits) (bf_wrap sign bits) ow t = Some v ->
  bf_lo sign bits <= v <= bf_hi sign bits.
Proof.
  intros Hb. unfold bf_spec. pose proof (Z.pow_pos_nonneg 2 bits) as Hp. pose proof (Z.pow_pos_nonneg 2 (bits - 1)) as Hp1.
  assert (2 ^ bits = 2 * 2 ^ (bits - 1)) as E by (rewrite <- Z.pow_succ_r by lia; f_equal; lia).
  destruct (Z.leb_spec (bf_lo sign bits) t), (Z.leb_spec t (bf_hi sign bits)); cbn [andb];
    [intros [= <-]; lia|..]; (destruct ow; [|case_bool|done]); intros [= <-]; unfold bf_wrap, bf_lo, bf_hi, wrapS in *;
    pose proof (Z.mod_pos_bound t (2 ^ bits)); pose proof (Z.mod_pos_bound (t + 2 ^ (bits - 1)) (2 ^ bits));
    destruct sign; lia.
Qed.

(** The end of both writing paths, from the answer [a] of the check: [set] is
    the setter, [ret] what is replied from the new value. *)
Lemma bf_commit op s grow (set : Z -> result (list Z)) (ret : Z -> Z) a sum old :
  wf_op (zlen s) op -> bo_opcode op <> BITFIELDOP_GET -> Forall is_byte s ->
  old = field_val (bo_sign op) (bits_of s) (bo_offset op) (bo_bits op) ->
  let spec := bf_spec (bf_lo (bo_sign op) (bo_bits op)) (bf_hi (bo_sign op) (bo_bits op))
                (bf_wrap (bo_sign op) (bo_bits op)) (bo_owtype op) (op_target_value (bits_of s) op) in
  bf_stored (bo_owtype op) a sum = spec ->
  (forall v, spec = Some v -> ret v = if bool_decide (bo_opcode op = BITFIELDOP_SET) then old else v) ->
  (forall v, exists s', set v = Ok s' /\ Forall is_byte s' /\ length s' = length s /\
     bits_of s' = put_bits (bits_of s) (Z.to_nat (bo_offset op)) (word_bits (Z.to_nat (bo_bits op)) v)) ->
  let newval := if negb (a.1 =? 0) then default 0 a.2 else sum in
  exists s' r ch,
    (if negb (negb (a.1 =? 0) && bool_decide (bo_owtype op = BFOVERFLOW_FAIL)) then
       let* s := set newval in
       Ok (s, ReplyInt (ret newval), b2z (negb (grow =? 0) || negb (old =? newval)))
     else Ok (s, ReplyNull, 0)) = Ok (s', r, ch) /\ op_done (negb (grow =? 0)) s op s' r ch.
Proof.
  intros [Hb Ho Hv Hr Hsat] Hop Hs Hold spec Hst Hret Hset newval. specialize (Hr Hop).
  apply stored_branch in Hst. fold spec in Hst.
  assert (spec_op (negb (grow =? 0)) (bits_of s) op = match spec with
      | None => (bits_of s, ReplyNull, 0)
      | Some v => (put_bits (bits_of s) (Z.to_nat (bo_offset op)) (word_bits (Z.to_nat (bo_bits op)) v), ReplyInt (ret v),
                   b2z (negb (grow =? 0) || negb (old =? v)))
      end) as Hspec.
  { unfold spec_op. rewrite <- Hold. fold spec.
    destruct spec as [v|]; [rewrite (Hret v) by done|]; by destruct (bo_opcode op). }
  unfold newval. destruct spec as [v|].
  - destruct Hst as [-> ->]. destruct (Hset v) as (s' & -> & Hs' & Hl' & Hb').
    runr. eexists _, _, _. split; [done|]. constructor; [by rewrite Hspec, Hb'|done..].
  - rewrite Hst. eexists _, _, _. split; [done|]. constructor; [by rewrite Hspec|done..].
Qed.

Lemma bitfield_set_signed_ok op s grow :
  wf_op (zlen s) op -> bo_sign op = true -> bo_opcode op <> BITFIELDOP_GET -> Forall is_byte s ->
  if op_defined (bits_of s) op
  then exists s' r ch, bitfield_set_signed op s grow = Ok (s', r, ch) /\ op_done (negb (grow =? 0)) s op s' r ch
  else bitfield_set_signed op s grow = Err SignedOverflow.
Proof.
  intros Hwf Hsg Hop Hs. pose proof Hwf as [Hb Ho Hv Hr Hsat]. rewrite Hsg in *. specialize (Hr Hop).
  unfold bitfield_set_signed. rewrite getSigned_ok by (done || lia). runr. rewrite <- zfield_inside; cycle 1.
  { rewrite length_bits_of. unfold zlen in *. lia. }
  fold (field_val true (bits_of s) (bo_offset op) (bo_bits op)). unfold op_defined. rewrite Hsg. cbn [negb orb].
  set (old := field_val true (bits_of s) (bo_offset op) (bo_bits op)).
  pose proof (field_val_range true (bits_of s) (bo_offset op) (bo_bits op) ltac:(lia)) as Hold. fold old in Hold.
  unfold bf_lo, bf_hi in Hold. pose proof (Z.pow_le_mono_r 2 (bo_bits op - 1) 63) as Hp63.
  assert (forall v, exists s', setSignedBitfield s (bo_offset op) (bo_bits op) v = Ok s' /\ Forall is_byte s' /\ length s' = length s /\
     bits_of s' = put_bits (bits_of s) (Z.to_nat (bo_offset op)) (word_bits (Z.to_nat (bo_bits op)) v)) as Hset
    by (intros v; apply setSigned_ok; done || lia).
  destruct (bo_opcode op) eqn:Eop; [done | rewrite bool_decide_false by done | rewrite bool_decide_true by done].
  - destruct (minincr_fits _ _) eqn:Hfit; [|by rewrite checkSigned_faults by (done || lia)].
    destruct (checkSigned_ok (bo_i64 op) 0 (bo_bits op) (bo_owtype op)) as ([c w] & -> & Hck); try (done || lia).
    { destruct (bo_owtype op) eqn:Eow; [by left | right; by apply Hsat | by left]. }
    runr.
    apply (bf_commit op s grow (setSignedBitfield s (bo_offset op) (bo_bits op)) (fun _ => old) (c, w) (bo_i64 op)); try done.
    + by rewrite Eop.
    + by rewrite Hsg.
    + rewrite Hsg. unfold op_target_value. rewrite Eop, Hsg. cbn [bf_lo bf_hi bf_wrap].
      rewrite Z.add_0_r in Hck. by rewrite i64_small in Hck by lia.
    + intros v _. by rewrite Eop.
  - destruct (minincr_fits _ _) eqn:Hfit; [|by rewrite checkSigned_faults by (done || lia)].
    destruct (checkSigned_ok old (bo_i64 op) (bo_bits op) (bo_owtype op)) as ([c w] & Ec & Hck); try (done || lia).
    { destruct (Z.eq_dec (bo_bits op) 64); [by right; left|]. right; right.
      assert (2 ^ 63 = 2 * 2 ^ 62) by done. pose proof (Z.pow_le_mono_r 2 (bo_bits op - 1) 62). lia. }
    pose proof (checkSigned_zero old (bo_i64 op) (bo_bits op) (bo_owtype op) ltac:(lia) Hv ltac:(lia) Hfit) as Hz.
    rewrite Ec in Hz |- *. runr.
    assert ((if negb (c =? 0) then Ok (default 0 w) else chk_i64 (old + bo_i64 op))
            = Ok (if negb (c =? 0) then default 0 w else i64 (old + bo_i64 op))) as ->.
    { destruct (Z.eqb_spec c 0) as [->|]; cbn [negb]; [|done]. specialize (Hz ltac:(by exists w)).
      rewrite chk_i64_ok, i64_small by lia. done. }
    runr. apply (bf_commit op s grow (setSignedBitfield s (bo_offset op) (bo_bits op)) id (c, w) (i64 (old + bo_i64 op))); try done.
    + by rewrite Eop.
    + by rewrite Hsg.
    + rewrite Hsg. unfold op_target_value. rewrite Eop, Hsg. fold old. cbn [bf_lo bf_hi bf_wrap]. done.
    + intros v _. by rewrite Eop.
Qed.

Lemma bitfield_set_unsigned_ok op s grow :
  wf_op (zlen s) op -> bo_sign op = false -> bo_opcode op <> BITFIELDOP_GET -> Forall is_byte s ->
  exists s' r ch, bitfield_set_unsigned op s grow = Ok (s', r, ch) /\ op_done (negb (grow =? 0)) s op s' r ch.
Proof.
  intros Hwf Hsg Hop Hs. pose proof Hwf as [Hb Ho Hv Hr Hsat]. rewrite Hsg in *. specialize (Hr Hop).
  unfold bitfield_set_unsigned. rewrite getUnsigned_ok by (done || lia). runr. rewrite <- zfield_inside; cycle 1.
  { rewrite length_bits_of. unfold zlen in *. lia. }
  fold (field_val false (bits_of s) (bo_offset op) (bo_bits op)).
  set (old := field_val false (bits_of s) (bo_offset op) (bo_bits op)).
  pose proof (field_val_range false (bits_of s) (bo_offset op) (bo_bits op) ltac:(lia)) as Hold. fold old in Hold.
  unfold bf_lo, bf_hi in Hold. pose proof (Z.pow_le_mono_r 2 (bo_bits op) 63) as Hp63.
  assert (forall v, exists s', setUnsignedBitfield s (bo_offset op) (bo_bits op) v = Ok s' /\ Forall is_byte s' /\ length s' = length s /\
     bits_of s' = put_bits (bits_of s) (Z.to_nat (bo_offset op)) (word_bits (Z.to_nat (bo_bits op)) v)) as Hset
    by (intros v; apply set_bits_ok; done || lia).
  assert (2 ^ 64 = 2 * 2 ^ 63) by reflexivity.
  destruct (bo_opcode op) eqn:Eop; [done | rewrite bool_decide_false by done | rewrite bool_decide_true by done].
  - pose proof (checkUnsigned_ok (u64 (bo_i64 op)) 0 (bo_bits op) (bo_owtype op) ltac:(lia) (wrapU_range 64 _ ltac:(lia)) ltac:(lia) ltac:(by right)) as Hck.
    destruct (checkUnsignedBitfieldOverflow _ _ _ _) as [c w].
    apply (bf_commit op s grow (setUnsignedBitfield s (bo_offset op) (bo_bits op)) (fun _ => i64 old) (c, w) (u64 (bo_i64 op))); try done.
    + by rewrite Eop.
    + by rewrite Hsg.
    + rewrite Hsg. unfold op_target_value. rewrite Eop, Hsg. unfold bf_lo, bf_hi, bf_wrap.
      rewrite Z.add_0_r in Hck. rewrite wrapU_wrapU in Hck. apply Hck.
    + intros v _. rewrite Eop. by rewrite i64_small by lia.
  - pose proof (checkUnsigned_ok old (bo_i64 op) (bo_bits op) (bo_owtype op) ltac:(lia) ltac:(lia) Hv ltac:(left; lia)) as Hck.
    destruct (checkUnsignedBitfieldOverflow _ _ _ _) as [c w].
    apply (bf_commit op s grow (setUnsignedBitfield s (bo_offset op) (bo_bits op)) i64 (c, w) (u64 (old + bo_i64 op))); try done.
    + by rewrite Eop.
    + by rewrite Hsg.
    + rewrite Hsg. unfold op_target_value. rewrite Eop, Hsg. fold old. unfold bf_lo, bf_hi, bf_wrap. apply Hck.
    + intros v Hsp. rewrite Eop. apply bf_spec_range in Hsp; [|lia]. rewrite Hsg in Hsp. unfold bf_lo, bf_hi in Hsp.
      rewrite bool_decide_false by done. apply i64_small. lia.
Qed.

(** * The loop over the operations *)

(** One turn of the loop; the string exists when the operation writes. *)
Definition exec_op (op : bitfieldOp) (o : option (list Z)) (grow : Z) : result (option (list Z) * reply * Z) :=
  if bool_decide (bo_opcode op = BITFIELDOP_GET) then
    let* val := bitfield_get op o in Ok (o, ReplyInt val, 0)
  else
    match o with
    | None => Err NullDeref
    | Some s =>
        let* (s, r, changed) :=
          (if bo_sign op then bitfield_set_signed op s grow else bitfield_set_unsigned op s grow) in
        Ok (Some s, r, changed)
    end.

Lemma exec_op_ok op (o : option (list Z)) grow :
  let s := default [] o in
  Forall is_byte s -> wf_op (zlen s) op -> (bo_opcode op <> BITFIELDOP_GET -> is_Some o) ->
  if op_defined (bits_of s) op
  then exists o1 r ch, exec_op op o grow = Ok (o1, r, ch) /\
    op_done (negb (grow =? 0)) s op (default [] o1) r ch /\ (is_Some o <-> is_Some o1)
  else exec_op op o grow = Err SignedOverflow.
Proof.
  intros s Hs Hop Hw. unfold exec_op. destruct (decide (bo_opcode op = BITFIELDOP_GET)) as [E|E].
  - rewrite bool_decide_true by done. destruct Hop as [Hb Ho _ _ _]. unfold op_defined. rewrite E.
    rewrite bitfield_get_ok by done. runr. eexists _, _, _. split; [done|]. split; [|done].
    constructor; try done. unfold spec_op. by rewrite E.
  - rewrite bool_decide_false by done. destruct (Hw E) as [s0 ->]. cbn in s. subst s.
    destruct (bo_sign op) eqn:Esg.
    + pose proof (bitfield_set_signed_ok op s0 grow Hop Esg E Hs) as H.
      destruct (op_defined _ _); [|by rewrite H]. destruct H as (s' & r & ch & -> & Hd). runr. by eexists _, _, _.
    + assert (op_defined (bits_of s0) op = true) as -> by (unfold op_defined; rewrite Esg; by destruct (bo_opcode op)).
      destruct (bitfield_set_unsigned_ok op s0 grow) as (s' & r & ch & -> & Hd); try done. runr. by eexists _, _, _.
Qed.

Lemma bitfield_exec_cons op ops o grow changes :
  bitfield_exec (op :: ops) o grow changes =
  let* (o, r, changed) := exec_op op o grow in
  let* (o, rs, changes) := bitfield_exec ops o grow (changes + changed) in
  Ok (o, r :: rs, changes).
Proof. done. Qed.

Lemma bitfield_exec_ok ops : forall (o : option (list Z)) grow changes,
  let s := default [] o in
  Forall is_byte s -> Forall (wf_op (zlen s)) ops ->
  (Exists (fun op => bo_opcode op <> BITFIELDOP_GET) ops -> is_Some o) ->
  if ops_defined (bits_of s) ops
  then exists o' rs n, bitfield_exec ops o grow changes = Ok (o', rs, changes + n) /\
    (bits_of (default [] o'), rs, n) = spec_ops (negb (grow =? 0)) (bits_of s) ops /\
    Forall is_byte (default [] o') /\ length (default [] o') = length s /\ (is_Some o <-> is_Some o')
  else bitfield_exec ops o grow changes = Err SignedOverflow.
Proof.
  induction ops as [|op ops IH]; intros o grow changes s Hs Hwf Hw; cbn [ops_defined spec_ops].
  { exists o, [], 0. rewrite Z.add_0_r. by split_and!. }
  rewrite bitfield_exec_cons. apply Forall_cons_1 in Hwf as [Hop Hops].
  pose proof (exec_op_ok op o grow Hs Hop ltac:(intros; apply Hw; by left)) as Hex. fold s in Hex.
  destruct (op_defined (bits_of s) op); cbn [andb]; [|by rewrite Hex].
  destruct Hex as (o1 & r & ch & -> & [Hsp Hb1 Hl1] & Hsome). runr.
  rewrite (spec_op_grew false (negb (grow =? 0))), <- Hsp. cbn [fst].
  specialize (IH o1 grow (changes + ch) Hb1).
  replace (zlen (default [] o1)) with (zlen s) in IH by (unfold zlen; congruence).
  specialize (IH Hops ltac:(intros He; apply Hsome, Hw; by right)).
  destruct (ops_defined _ ops); [|by rewrite IH].
  destruct IH as (o2 & rs & n & -> & Hsp2 & Hb2 & Hl2 & Hsome2). runr.
  exists o2, (r :: rs), (ch + n). rewrite Z.add_assoc, <- Hsp2.
  split_and!; try done; [congruence | tauto].
Qed.

(** * The parser *)

Section parse.
Variable proto_max_bulk_len : Z.
Variable obey : bool.

Lemma string2ll_range s r : string2ll s (zlen s) = Ok (Some r) -> LLONG_MIN <= r <= LLONG_MAX.
Proof. intros H. destruct (string2ll_ok s) as (r' & H' & Hr). rewrite H in H'. injection H' as <-. by apply Hr. Qed.

Lemma getLongLong_range s e v : getLongLongFromObjectOrReply s e = Ok (inr v) -> - 2 ^ 63 <= v < 2 ^ 63.
Proof.
  unfold getLongLongFromObjectOrReply. intros H. apply bindr_ok in H as ([r|] & Hs & Hr); [|done].
  injection Hr as ->. apply string2ll_range in Hs. lia.
Qed.

Lemma getBitOffset_range p hash bits v :
  getBitOffsetFromArgument proto_max_bulk_len obey p hash bits = Ok (inr v) -> 0 <= v < 2 ^ 63.
Proof.
  unfold getBitOffsetFromArgument. set (h := _ && _ && _). intros H.
  apply bindr_ok in H as ([r|] & Hs & H); [|done]. apply bindr_ok in H as (l & Hl & H).
  assert (l <= LLONG_MAX) as Hm.
  { destruct h.
    - unfold chk_i64 in Hl. destruct (in_i64 (r * bits)) eqn:E; [|done]. injection Hl as <-.
      unfold in_i64 in E. apply andb_true_iff in E as [_ E%Z.leb_le]. done.
    - injection Hl as <-. apply string2ll_range in Hs; lia. }
  destruct (Z.ltb_spec l 0); [done|]. cbn [orb] in H. destruct (negb obey && _); [done|]. injection H as <-. lia.
Qed.

Lemma getBitfieldType_range p sign bits :
  getBitfieldTypeFromArgument p = Ok (inr (sign, bits)) -> 1 <= bits <= (if sign then 64 else 63).
Proof.
  assert (forall (sg : bool) q,
    (let* r := string2ll (c_str q) (zlen (c_str q)) in
     match r with
     | None => failc BadBitfieldType
     | Some llbits =>
         if (llbits <? 1) || (sg && (llbits >? 64)) || (negb sg && (llbits >? 63))
         then failc BadBitfieldType else retc (sg, llbits)
     end) = Ok (inr (sign, bits)) -> 1 <= bits <= (if sign then 64 else 63)) as Hw.
  { intros sg q H. apply bindr_ok in H as ([r|] & _ & H); [|done]. rewrite !Z.gtb_ltb in H.
    destruct (Z.ltb_spec r 1), sg, (Z.ltb_spec 64 r), (Z.ltb_spec 63 r); try done; injection H as <- <-; lia. }
  unfold getBitfieldTypeFromArgument.
  destruct p as [|c p]; [done|].
  destruct (c =? 105); [apply Hw|]. destruct (c =? 117); [apply Hw | done].
Qed.

(** What the parser guarantees of an operation. *)
Record parsed_op (highest : Z) (op : bitfieldOp) : Prop := {
  po_bits : 1 <= bo_bits op <= (if bo_sign op then 64 else 63);
  po_offset : 0 <= bo_offset op < 2 ^ 63;
  po_value : - 2 ^ 63 <= bo_i64 op < 2 ^ 63;
  po_write : bo_opcode op <> BITFIELDOP_GET -> bo_offset op + bo_bits op - 1 <= highest;
}.

Definition parsed (ops : list bitfieldOp) (readonly : bool) (highest : Z) : Prop :=
  Forall (parsed_op highest) ops /\ 0 <= highest < 2 ^ 64 /\
  (readonly = false <-> Exists (fun op => bo_opcode op <> BITFIELDOP_GET) ops).

Lemma parsed_snoc ops readonly highest op highest' :
  parsed ops readonly highest -> highest <= highest' < 2 ^ 64 -> parsed_op highest' op ->
  parsed (ops ++ [op]) (readonly && bool_decide (bo_opcode op = BITFIELDOP_GET)) highest'.
Proof.
  intros (Hf & Hh & Hr) Hle Hop. split; [|split; [lia|]].
  - apply Forall_app. split; [|by constructor]. eapply list.Forall_impl; [exact Hf|].
    intros o [H1 H2 H3 H4]. constructor; try done. intros Hw. specialize (H4 Hw). lia.
  - rewrite andb_false_iff, Exists_app, Hr. rewrite bool_decide_eq_false.
    split; (intros [H|H]; [by left | right]); [by constructor | by inversion H as [? ? Hx|? ? Hx]; [|inversion Hx]].
Qed.

Lemma bitfield_target_range type offset sign bits off :
  bitfield_target proto_max_bulk_len obey type offset = Ok (inr (sign, bits, off)) ->
  1 <= bits <= (if sign then 64 else 63) /\ 0 <= off < 2 ^ 63.
Proof.
  unfold bitfield_target. intros H. apply bindc_inr in H as ([sg b] & H1 & H). apply bindc_inr in H as (o & H2 & H).
  injection H as -> -> ->. split; [by apply getBitfieldType_range in H1 | by apply getBitOffset_range in H2].
Qed.

Lemma bitfield_parse_ok n : forall args owtype ops readonly highest ops' readonly' highest',
  (length args <= n)%nat -> parsed ops readonly highest ->
  bitfield_parse proto_max_bulk_len obey args owtype ops readonly highest = Ok (inr (ops', readonly', highest')) ->
  parsed ops' readonly' highest'.
Proof.
  induction n as [|n IH]; intros args owtype ops readonly highest ops' readonly' highest' Hn Hp Hr.
  { destruct args; [|cbn in Hn; lia]. by injection Hr as <- <- <-. }
  destruct args as [|subcmd rest]; [by injection Hr as <- <- <-|]. cbn [bitfield_parse] in Hr. cbn in Hn.
  assert (forall opcode, opcode <> BITFIELDOP_GET ->
    match rest with
    | type :: offset :: value :: rest =>
        let! (sign, bits, bitoffset) := bitfield_target proto_max_bulk_len obey type offset in
        let last := u64 (bitoffset + bits - 1) in
        let highest := if highest <? last then last else highest in
        let! i64 := getLongLongFromObjectOrReply value NotAnInteger in
        bitfield_parse proto_max_bulk_len obey rest owtype (ops ++ [mkOp bitoffset i64 opcode owtype bits sign]) false highest
    | _ => failc SyntaxErr
    end = Ok (inr (ops', readonly', highest')) -> parsed ops' readonly' highest') as Hw.
  { intros opcode Hop H. destruct rest as [|type [|offset [|value rest]]]; try done.
    apply bindc_inr in H as ([[sign bits] off] & Ht & H). apply bindc_inr in H as (v & Hv & H).
    apply bitfield_target_range in Ht as [Hb Ho]. apply getLongLong_range in Hv.
    rewrite wrapU_small in H by (destruct sign; lia).
    eapply IH; [|..|exact H]; [cbn in Hn; lia|].
    replace false with (readonly && bool_decide (opcode = BITFIELDOP_GET)) by (by rewrite bool_decide_false, andb_false_r).
    destruct Hp as (? & ? & ?).
    eapply parsed_snoc; [done | case_bool; destruct sign; lia |]. constructor; try done. intros _. cbn. case_bool; lia. }
  destruct (_ && _).
  { destruct rest as [|type [|offset rest]]; try done. apply bindc_inr in Hr as ([[sign bits] off] & Ht & H).
    apply bitfield_target_range in Ht as [Hb Ho]. eapply IH; [|..|exact H]; [cbn in Hn; lia|].
    replace readonly with (readonly && bool_decide (BITFIELDOP_GET = BITFIELDOP_GET)) by (by rewrite bool_decide_true, andb_true_r).
    pose proof Hp as (_ & Hh & _). eapply parsed_snoc; [done | lia |]. constructor; try done; lia. }
  destruct (_ && _); [by apply Hw in Hr|]. destruct (_ && _); [by apply Hw in Hr|].
  destruct (_ && _); [|done]. destruct rest as [|name rest]; [done|]. apply bindc_inr in Hr as (ow & _ & H).
  eapply IH; [|done|exact H]. cbn in Hn. lia.
Qed.

(** * The command *)

(** The string that a key denotes: empty when the key is missing. *)
Definition str_at (db : redisDb) (key s : list Z) : Prop :=
  match dbFind db key with
  | None => s = []
  | Some (KvString o) => str_bytes o s
  | Some KvOther => False
  end.

Definition pad_bits (l : list bool) (n : Z) : list bool := l ++ replicate (Z.to_nat n - length l) false.

Lemma str_at_byte db key s : str_at db key s -> Forall is_byte s.
Proof.
  unfold str_at. destruct (dbFind db key) as [[o|]|]; [apply str_bytes_byte | done | by intros ->].
Qed.

Lemma lookupReadString_ok db key s :
  str_at db key s -> exists o, lookupReadString db key = Ok (inr o) /\ default [] o = s /\ (o = None <-> dbFind db key = None).
Proof.
  unfold str_at, lookupReadString. destruct (dbFind db key) as [[o|]|]; cbn [checkString]; intros H; runc.
  - rewrite (getObjectReadOnlyString_ok o s) by done. by exists (Some s).
  - done.
  - subst. by exists None.
Qed.

Lemma lookupString_ok db key s maxbit :
  str_at db key s -> 0 <= maxbit ->
  let g := sdsgrowzero s (Z.shiftr maxbit 3 + 1) in
  lookupStringForBitCommand db key maxbit = Ok (inr (setKey db key (ObjSds g), g, zlen s, zlen g - zlen s)).
Proof.
  intros H Hm. unfold lookupStringForBitCommand. unfold str_at in H.
  destruct (dbFind db key) as [[o|]|]; cbn [checkString]; runc.
  - by rewrite (getDecodedObject_ok o s).
  - done.
  - subst. pose proof (Z.shiftr_nonneg maxbit 3). unfold sdsgrowzero. change (zlen (@nil Z)) with 0.
    rewrite (proj2 (Z.leb_gt _ _)) by lia. cbn [app]. rewrite !Z.sub_0_r. unfold zlen. rewrite length_replicate.
    by rewrite Z2Nat.id by lia.
Qed.

Lemma bits_of_zeros n : bits_of (replicate n 0) = replicate (8 * n) false.
Proof.
  induction n as [|n IH]; [done|]. replace (8 * S n)%nat with (8 + 8 * n)%nat by lia.
  cbn [replicate]. rewrite bits_of_cons, IH. done.
Qed.

Lemma bits_of_grow s len : bits_of (sdsgrowzero s len) = pad_bits (bits_of s) (8 * len).
Proof.
  unfold sdsgrowzero, pad_bits. rewrite length_bits_of. case_bool.
  - replace (Z.to_nat (8 * len) - 8 * length s)%nat with 0%nat by (unfold zlen in *; lia). by rewrite app_nil_r.
  - rewrite bits_of_app, bits_of_zeros. do 2 f_equal. unfold zlen in *. lia.
Qed.

Definition sat_ok (op : bitfieldOp) : Prop :=
  bo_opcode op = BITFIELDOP_SET -> bo_sign op = true -> bo_owtype op = BFOVERFLOW_SAT ->
  bo_bits op = 64 \/ 2 ^ (bo_bits op - 1) - 2 ^ 63 <= bo_i64 op.

Lemma parsed_wf len highest ops :
  highest < 8 * len -> Forall (parsed_op highest) ops -> Forall sat_ok ops -> Forall (wf_op len) ops.
Proof.
  intros Hl H1 H2. apply Forall_forall. intros op Hop.
  pose proof (proj1 (Forall_forall _ _) H1 op Hop) as [Hb Ho Hv Hw].
  pose proof (proj1 (Forall_forall _ _) H2 op Hop) as Hs.
  constructor; [done | lia | done | intros Hn; specialize (Hw Hn); lia | done].
Qed.

Lemma readonly_wf len highest ops :
  ~ Exists (fun op => bo_opcode op <> BITFIELDOP_GET) ops -> Forall (parsed_op highest) ops -> Forall (wf_op len) ops.
Proof.
  intros Hn H1. apply Forall_forall. intros op Hop.
  pose proof (proj1 (Forall_forall _ _) H1 op Hop) as [Hb Ho Hv Hw].
  assert (bo_opcode op = BITFIELDOP_GET) as E.
  { destruct (decide (bo_opcode op = BITFIELDOP_GET)); [done|]. exfalso. apply Hn, Exists_exists. by exists op. }
  constructor; [done | lia | done | by intros | by rewrite E].
Qed.

(** The keyspace after a writing command: the bits under the key are [l], and
    nothing else changed. *)
Definition wrote (db : redisDb) (key : list Z) (l : list bool) (db' : redisDb) : Prop :=
  exists s, keyspace db' = <[key := KvString (ObjSds s)]> (keyspace db) /\ Forall is_byte s /\ bits_of s = l.

Lemma spec_ops_grew g g' ops : forall l, (spec_ops g l ops).1 = (spec_ops g' l ops).1.
Proof.
  induction ops as [|op ops IH]; intros l; cbn [spec_ops]; [done|].
  pose proof (spec_op_grew g g' l op) as H. destruct (spec_op g l op) as [[l1 r] n], (spec_op g' l op) as [[l2 r'] n'].
  cbn in H. injection H as <- <-. specialize (IH l1).
  destruct (spec_ops g l1 ops) as [[l2 rs] m], (spec_ops g' l1 ops) as [[l3 rs'] m']. cbn in *. congruence.
Qed.

Lemma grow_size s len : negb (zlen (sdsgrowzero s len) - zlen s =? 0) = (zlen s <? len).
Proof. rewrite zlen_sdsgrowzero. destruct (Z.eqb_spec (Z.max (zlen s) len - zlen s) 0), (Z.ltb_spec (zlen s) len); done || lia. Qed.

Lemma bitfieldGeneric_ok db ro key args s ops readonly highest :
  str_at db key s ->
  bitfield_parse proto_max_bulk_len obey args BFOVERFLOW_WRAP [] true 0 = Ok (inr (ops, readonly, highest)) ->
  Forall sat_ok ops ->
  let len := highest / 8 + 1 in
  let l0 := if readonly then bits_of s else pad_bits (bits_of s) (8 * len) in
  let '(l, rs, n) := spec_ops (zlen s <? len) l0 ops in
  if ro && negb readonly
  then bitfieldGeneric proto_max_bulk_len obey db ro key args = Ok (db, ReplyError ReadOnlyErr)
  else if ops_defined l0 ops
  then exists db', bitfieldGeneric proto_max_bulk_len obey db ro key args = Ok (db', ReplyArray rs) /\
    (if readonly then db' = db else wrote db key l db' /\ dirty db' = dirty db + n)
  else bitfieldGeneric proto_max_bulk_len obey db ro key args = Err SignedOverflow.
Proof.
  intros Hat Hparse Hsat len l0. pose proof (str_at_byte db key s Hat) as Hs.
  assert (parsed ops readonly highest) as (Hf & Hh & Hro).
  { eapply (bitfield_parse_ok (length args)); [done | | exact Hparse].
    split; [done|]. split; [lia|]. split; [done | intros H; inversion H]. }
  destruct (spec_ops _ l0 ops) as [[l rs] n] eqn:Espec.
  unfold bitfieldGeneric, answer. rewrite Hparse. runc. destruct readonly; cbn [andb negb].
  - rewrite andb_false_r. destruct (lookupReadString_ok db key s Hat) as (o & -> & Ho & _). runc.
    pose proof (bitfield_exec_ok ops o 0 0) as Hex. rewrite Ho in Hex.
    specialize (Hex Hs ltac:(apply (readonly_wf _ highest); [intros He; by apply Hro in He|done])
      ltac:(intros He; by apply Hro in He)).
    change l0 with (bits_of s) in *. destruct (ops_defined _ ops); [|by rewrite Hex].
    destruct Hex as (o' & rs' & m & -> & Hsp & _). runr. exists db. split; [|done].
    apply (f_equal fst) in Hsp. rewrite (spec_ops_grew _ (zlen s <? len)), Espec in Hsp. by injection Hsp as _ ->.
  - destruct ro; cbn [andb]; [done|]. rewrite (lookupString_ok db key s highest) by (done || lia). runc.
    rewrite Z.shiftr_div_pow2 by done. change (2 ^ 3) with 8. fold len. set (g := sdsgrowzero s len).
    assert (bits_of g = l0) as Eg by (unfold g; apply bits_of_grow).
    pose proof (bitfield_exec_ok ops (Some g) (zlen g - zlen s) 0) as Hex. cbn [from_option id] in Hex.
    assert (highest < 8 * zlen g) as Hroom.
    { unfold g. rewrite zlen_sdsgrowzero. unfold len. pose proof (Z.div_mod highest 8). pose proof (Z.mod_pos_bound highest 8). lia. }
    specialize (Hex (sdsgrowzero_byte _ _ Hs) (parsed_wf _ _ _ Hroom Hf Hsat) ltac:(by intros)).
    rewrite Eg in Hex. destruct (ops_defined l0 ops); [|by rewrite Hex].
    destruct Hex as (o' & rs' & m & -> & Hsp & Hb & Hl & Hsome).
    destruct (proj1 Hsome ltac:(by eexists)) as [s' ->]. runr. cbn [from_option id] in *.
    unfold g in Hsp. rewrite grow_size in Hsp. rewrite Espec in Hsp. injection Hsp as El -> ->.
    eexists. split; [done|]. split; [|done]. exists s'. split; [|done]. cbn. by rewrite insert_insert_eq.
Qed.
End parse.

(** * Properties *)

(** C27: BITFIELD refines the sequential execution of its operations on the bits
    of the string, which is empty for a missing key and zero beyond its end:
    each GET, SET and INCRBY reads and stores fields with the integer semantics
    of [spec_op], in the order given.  The replies are those of the
    specification; a read-only command changes nothing and BITFIELD_RO refuses
    the others; the string that is stored has the bits of the specification and
    no other key changes; server.dirty grows by exactly one for each write that
    was stored and that changed its field, or that was stored by a command that
    made the string longer.  The command is undefined, by the signed subtraction
    of its overflow check, exactly when some write to a signed field checks a
    value above [2^63 - 2^(bits-1)].  Excluded are saturating SETs of values so
    far below a signed field that the check inverts them ([sat_ok]). *)
Theorem bitfield_refines_spec proto_max_bulk_len obey db ro key args s ops readonly highest :
  str_at db key s ->
  bitfield_parse proto_max_bulk_len obey args BFOVERFLOW_WRAP [] true 0 = Ok (inr (ops, readonly, highest)) ->
  Forall sat_ok ops ->
  let len := highest / 8 + 1 in
  let l0 := if readonly then bits_of s else pad_bits (bits_of s) (8 * len) in
  let '(l, rs, n) := spec_ops (zlen s <? len) l0 ops in
  if ro && negb readonly
  then bitfieldGeneric proto_max_bulk_len obey db ro key args = Ok (db, ReplyError ReadOnlyErr)
  else if ops_defined l0 ops
  then exists db', bitfieldGeneric proto_max_bulk_len obey db ro key args = Ok (db', ReplyArray rs) /\
    (if readonly then db' = db else wrote db key l db' /\ dirty db' = dirty db + n)
  else bitfieldGeneric proto_max_bulk_len obey db ro key args = Err SignedOverflow.
Proof. apply bitfieldGeneric_ok. Qed.

(** [BITFIELD k SET u4 4 9 OVERFLOW SAT INCRBY u4 4 20 GET i8 0] on no key. *)
Definition sample_args : list (list Z) :=
  map chars ["SET"; "u4"; "4"; "9"; "overflow"; "sat"; "INCRBY"; "u4"; "#1"; "20"; "get"; "i8"; "0"]%string.
Definition sample_ops : list bitfieldOp :=
  [mkOp 4 9 BITFIELDOP_SET BFOVERFLOW_WRAP 4 false;
   mkOp 4 20 BITFIELDOP_INCRBY BFOVERFLOW_SAT 4 false;
   mkOp 0 0 BITFIELDOP_GET BFOVERFLOW_SAT 8 true].

Lemma bitfield_refines_spec_witness :
  exists db', bitfieldGeneric 536870912 false (mkDb ∅ 0) false [107] sample_args
              = Ok (db', ReplyArray [ReplyInt 0; ReplyInt 15; ReplyInt 15]) /\
    wrote (mkDb ∅ 0) [107] [false; false; false; false; true; true; true; true] db' /\ dirty db' = 2.
Proof.
  pose proof (bitfield_refines_spec 536870912 false (mkDb ∅ 0) false [107] sample_args [] sample_ops false 7
    eq_refl ltac:(vm_compute; reflexivity) ltac:(repeat constructor; intros ?; discriminate)) as H.
  destruct H as (db' & H1 & H2 & H3). exists db'. split; [exact H1|]. split; [exact H2 | exact H3].
Defined.

(** A defect of propagation: a BITFIELD whose writes all fail by OVERFLOW
    FAIL still creates the key, and server.dirty stays as it was, so that the
    new key reaches neither the append-only file nor the replicas.  Here the
    key is missing and one SET does not fit its field. *)
Theorem bitfield_fail_unpropagated proto_max_bulk_len obey db key args op highest :
  dbFind db key = None ->
  bitfield_parse proto_max_bulk_len obey args BFOVERFLOW_WRAP [] true 0 = Ok (inr ([op], false, highest)) ->
  bo_opcode op = BITFIELDOP_SET -> bo_owtype op = BFOVERFLOW_FAIL -> bo_sign op = false -> 2 ^ bo_bits op <= bo_i64 op ->
  exists db', bitfieldGeneric proto_max_bulk_len obey db false key args = Ok (db', ReplyArray [ReplyNull]) /\
    dirty db' = dirty db /\ dbFind db' key = Some (KvString (ObjSds (replicate (Z.to_nat (highest / 8 + 1)) 0))).
Proof.
  intros Hnone Hparse Hop How Hsg Hbig.
  assert (parsed [op] false highest) as (Hf & Hh & _).
  { eapply (bitfield_parse_ok _ _ (length args)); [done | | exact Hparse].
    split; [done|]. split; [lia|]. split; [done | intros H; inversion H]. }
  apply Forall_cons_1 in Hf as [[Hb Ho Hv Hw] _]. rewrite Hsg in Hb. rewrite Hop in Hw. specialize (Hw ltac:(done)).
  unfold bitfieldGeneric, answer. rewrite Hparse. runc.
  rewrite (lookupString_ok db key [] highest) by (lia || by unfold str_at; rewrite Hnone). runc.
  rewrite Z.shiftr_div_pow2 by done. change (2 ^ 3) with 8. set (g := sdsgrowzero [] (highest / 8 + 1)).
  assert (Forall is_byte g) as Hg by (by apply sdsgrowzero_byte).
  assert (g = replicate (Z.to_nat (highest / 8 + 1)) 0) as Eg.
  { unfold g, sdsgrowzero. change (zlen (@nil Z)) with 0. pose proof (Z.div_pos highest 8).
    rewrite (proj2 (Z.leb_gt _ _)) by lia. by rewrite Z.sub_0_r. }
  cbn [bitfield_exec]. rewrite Hop, bool_decide_false by done. rewrite Hsg. unfold bitfield_set_unsigned.
  rewrite getUnsigned_ok; [|done | lia | lia |]; cycle 1.
  { unfold g. rewrite zlen_sdsgrowzero. pose proof (Z.div_mod highest 8). pose proof (Z.mod_pos_bound highest 8). lia. }
  runr. rewrite Hop, How, bool_decide_false by done.
  pose proof (Z.pow_pos_nonneg 2 (bo_bits op)). rewrite wrapU_small by (change (2 ^ 64) with (2 * 2 ^ 63); lia).
  assert (exists w, checkUnsignedBitfieldOverflow (bo_i64 op) 0 (bo_bits op) BFOVERFLOW_FAIL = (1, w)) as [w ->].
  { unfold checkUnsignedBitfieldOverflow. rewrite u_max by lia.
    rewrite (proj2 (Z.eqb_neq (bo_bits op) 64)) by lia. rewrite Z.gtb_ltb, (proj2 (Z.ltb_lt _ _)) by lia. by eexists. }
  cbn [negb Z.eqb andb]. rewrite bool_decide_true by done. runr. eexists. split; [done|]. cbn. split; [lia|].
  unfold dbFind. cbn. by rewrite insert_insert_eq, lookup_insert_eq, Eg.
Qed.

Lemma bitfield_fail_unpropagated_witness :
  exists db', bitfieldGeneric 536870912 false (mkDb ∅ 0) false [107] (map chars ["OVERFLOW"; "FAIL"; "SET"; "u8"; "0"; "300"]%string)
              = Ok (db', ReplyArray [ReplyNull]) /\ dirty db' = 0 /\ dbFind db' [107] = Some (KvString (ObjSds [0])).
Proof.
  apply (bitfield_fail_unpropagated 536870912 false (mkDb ∅ 0) [107] _
    (mkOp 0 300 BITFIELDOP_SET BFOVERFLOW_FAIL 8 false) 7); [reflexivity | vm_compute; reflexivity | reflexivity.. | cbn; lia].
Defined.

Lemma zbit_pad l n i : zbit (pad_bits l n) i = zbit l i.
Proof.
  unfold zbit, pad_bits. destruct (decide (i < length l)%nat) as [|Hi]; [by rewrite lookup_app_l|].
  rewrite lookup_app_r, (lookup_ge_None_2 l) by lia.
  destruct (replicate _ _ !! _) eqn:E; [|done]. by apply lookup_replicate in E as [-> _].
Qed.

Lemma field_val_pad sign l n off bits : field_val sign (pad_bits l n) off bits = field_val sign l off bits.
Proof.
  unfold field_val. rewrite (zfield_ext (pad_bits l n) l (Z.to_nat off) (Z.to_nat off)); [done|].
  intros. apply zbit_pad.
Qed.

(** A defect of the overflow check: BITFIELD with one INCRBY of a signed
    64-bit field that holds a positive value, whatever the increment and the
    overflow type, makes the check compute [INT64_MIN - value], a signed
    overflow, which the C standard leaves undefined. *)
Theorem bitfield_incrby_i64_overflows proto_max_bulk_len obey db key args s op highest :
  str_at db key s ->
  bitfield_parse proto_max_bulk_len obey args BFOVERFLOW_WRAP [] true 0 = Ok (inr ([op], false, highest)) ->
  bo_opcode op = BITFIELDOP_INCRBY -> bo_sign op = true -> bo_bits op = 64 ->
  0 < field_val true (bits_of s) (bo_offset op) 64 ->
  bitfieldGeneric proto_max_bulk_len obey db false key args = Err SignedOverflow.
Proof.
  intros Hat Hparse Hop Hsg Hb Hpos.
  pose proof (bitfieldGeneric_ok proto_max_bulk_len obey db false key args s [op] false highest Hat Hparse) as H.
  cbv zeta in H. destruct (spec_ops _ _ _) as [[l rs] n]. cbn [andb] in H.
  replace (ops_defined _ [op]) with false in H; [apply H; constructor; [|done]; intros E; congruence|].
  cbn [ops_defined]. unfold op_defined, minincr_fits. rewrite Hop, Hsg, Hb, field_val_pad. cbn [negb orb].
  rewrite (proj2 (Z.leb_gt _ _)); [done|]. change (2 ^ 63 - 2 ^ (64 - 1)) with 0. exact Hpos.
Qed.

(** [BITFIELD k INCRBY i64 0 1] where the key holds the eight bytes of 1. *)
Lemma bitfield_incrby_i64_overflows_witness :
  bitfieldGeneric 536870912 false (mkDb (<[[107] := KvString (ObjSds [0; 0; 0; 0; 0; 0; 0; 1])]> ∅) 0) false [107]
    (map chars ["INCRBY"; "i64"; "0"; "1"]%string) = Err SignedOverflow.
Proof.
  apply (bitfield_incrby_i64_overflows 536870912 false _ [107] _ [0; 0; 0; 0; 0; 0; 0; 1]
    (mkOp 0 1 BITFIELDOP_INCRBY BFOVERFLOW_WRAP 64 true) 63);
    [ | vm_compute; reflexivity | reflexivity.. | vm_compute; reflexivity].
  unfold str_at, dbFind. cbn. rewrite lookup_insert_eq. split; [reflexivity|].
  repeat constructor; unfold is_byte; lia.
Defined.
