(* ===== verification/BitRange.v ===== *)
(** BitRange: SETBIT, GETBIT, BITCOUNT and BITPOS of BitCommands as operations
    on the bits of a string: a bit, the ones of a range, the first occurrence
    of a bit in a range. *)

From Stdlib Require Import ZArith Lia Bool String.
From stdpp Require Import base list numbers decidable gmap.
From S2P Require Import Prelude Bytes Numbers Objects Bitops BitopsProofs BitfieldProofs BitCommands BitfieldCommand.

Local Open Scope Z_scope.

(** * The specification of ranges *)

(** Indexes in units (bytes or bits): negative ones count from the end, and the
    range is cut to [0 .. tot-1]. *)
Definition norm_range (start end_ tot : Z) : Z * Z :=
  let norm x := Z.max 0 (if x <? 0 then tot + x else x) in
  (norm start, Z.min (norm end_) (tot - 1)).

(** The bits [lo .. hi-1] that the command speaks of. *)
Definition bit_bounds (start end_ len : Z) (isbit : bool) : Z * Z :=
  if isbit then let '(a, b) := norm_range start end_ (8 * len) in (a, b + 1)
  else let '(a, b) := norm_range start end_ len in (8 * a, 8 * (b + 1)).

Definition slice (l : list bool) (lo hi : Z) : list bool := take (Z.to_nat (hi - lo)) (drop (Z.to_nat lo) l).

(** BITPOS: the first [b] in the range; without one, -1, or the bit after the
    range when a zero is looked for and no end was given. *)
Definition bitpos_spec (end_given b : bool) (l : list bool) (lo hi : Z) : Z :=
  let sl := slice l lo hi in
  if fpos b sl <? zlen sl then lo + fpos b sl
  else if b || end_given then -1 else hi.

(** * Masks, by computation *)

Definition lists_eqb (l m : list bool) : bool := bool_decide (l = m).
Definition first_mask (k : nat) : Z := Z.land (Z.lnot (Z.shiftl 1 (8 - Z.of_nat k) - 1)) 0xFF.
Definition last_mask (j : nat) : Z := Z.shiftl 1 (7 - Z.of_nat j) - 1.
Definition tmp_first (b : bool) (m x : Z) : Z := if b then Z.land x (u8 (Z.lnot m)) else Z.lor x m.

Definition mask_ok (x : Z) : bool :=
  forallb (fun k =>
    (ones (byte_bits (Z.land x (first_mask k))) =? ones (take k (byte_bits x)))
    && (ones (byte_bits (Z.land x (last_mask k))) =? ones (drop (S k) (byte_bits x)))
    && forallb (fun b =>
         lists_eqb (byte_bits (tmp_first b (first_mask k) x)) (replicate k (negb b) ++ drop k (byte_bits x))
         && lists_eqb (byte_bits (tmp_first b (last_mask k) x)) (take (S k) (byte_bits x) ++ replicate (7 - k) (negb b))
         && forallb (fun j =>
              negb (k <=? j)%nat
              || lists_eqb (byte_bits (tmp_first b (last_mask j) (tmp_first b (first_mask k) x)))
                   (replicate k (negb b) ++ take (S j - k) (drop k (byte_bits x)) ++ replicate (7 - j) (negb b)))
            (seq 0 8)
         && (0 <=? tmp_first b (first_mask k) x) && (tmp_first b (first_mask k) x <? 256)
         && (0 <=? tmp_first b (last_mask k) x) && (tmp_first b (last_mask k) x <? 256))
       [true; false]) (seq 0 8).

Lemma mask_ok_all x : is_byte x -> mask_ok x = true.
Proof. apply byte_forall. vm_compute. reflexivity. Qed.

Lemma mask_ok_at x k : is_byte x -> (k < 8)%nat ->
  ones (byte_bits (Z.land x (first_mask k))) = ones (take k (byte_bits x)) /\
  ones (byte_bits (Z.land x (last_mask k))) = ones (drop (S k) (byte_bits x)) /\
  forall b, byte_bits (tmp_first b (first_mask k) x) = replicate k (negb b) ++ drop k (byte_bits x) /\
    byte_bits (tmp_first b (last_mask k) x) = take (S k) (byte_bits x) ++ replicate (7 - k) (negb b) /\
    (forall j, (k <= j < 8)%nat -> byte_bits (tmp_first b (last_mask j) (tmp_first b (first_mask k) x))
       = replicate k (negb b) ++ take (S j - k) (drop k (byte_bits x)) ++ replicate (7 - j) (negb b)) /\
    is_byte (tmp_first b (first_mask k) x) /\ is_byte (tmp_first b (last_mask k) x).
Proof.
  intros Hx Hk. pose proof (mask_ok_all x Hx) as H. unfold mask_ok in H.
  rewrite forallb_forall in H. specialize (H k ltac:(apply in_seq; lia)).
  apply andb_true_iff in H as [[H1%Z.eqb_eq H2%Z.eqb_eq]%andb_true_iff H]. split; [done|]. split; [done|].
  intros b. rewrite forallb_forall in H. specialize (H b ltac:(destruct b; cbn; tauto)).
  rewrite !andb_true_iff in H. destruct H as [[[[[[H3 H4] H5] H6] H7] H8] H9].
  unfold lists_eqb in H3, H4. apply bool_decide_eq_true in H3, H4. unfold is_byte. split; [done|]. split; [done|].
  split; [|lia]. intros j Hj. rewrite forallb_forall in H5. specialize (H5 j ltac:(apply in_seq; lia)).
  rewrite (proj2 (Nat.leb_le k j)) in H5 by lia. cbn [negb orb] in H5. unfold lists_eqb in H5. by apply bool_decide_eq_true in H5.
Qed.

Lemma first_byte_mask_at start : 0 <= start -> first_byte_mask start = first_mask (Z.to_nat start mod 8).
Proof. intros H. unfold first_byte_mask, first_mask. by rewrite land_7. Qed.

Lemma last_byte_mask_at end_ : 0 <= end_ -> last_byte_mask end_ = last_mask (Z.to_nat end_ mod 8).
Proof. intros H. unfold last_byte_mask, last_mask. by rewrite land_7. Qed.

(** * Counting *)

(** Ones before a position. *)
Definition cnt (l : list bool) (i : Z) : Z := ones (take (Z.to_nat i) l).

Lemma cnt_slice l lo hi : 0 <= lo <= hi -> ones (slice l lo hi) = cnt l hi - cnt l lo.
Proof.
  intros H. unfold cnt, slice. replace (Z.to_nat hi) with (Z.to_nat lo + Z.to_nat (hi - lo))%nat by lia.
  rewrite <- take_take_drop, ones_app. lia.
Qed.

Lemma take_bits_of n s : take (8 * n) (bits_of s) = bits_of (take n s).
Proof.
  revert n. induction s as [|x s IH]; intros [|n]; try done.
  - replace (8 * S n)%nat with (8 + 8 * n)%nat by lia. cbn [take]. rewrite !bits_of_cons.
    rewrite take_app_add' by done. by rewrite IH.
Qed.

Lemma drop_bits_of n s : drop (8 * n) (bits_of s) = bits_of (drop n s).
Proof.
  revert n. induction s as [|x s IH]; intros [|n]; try done.
  - replace (8 * S n)%nat with (8 + 8 * n)%nat by lia. cbn [drop]. rewrite !bits_of_cons.
    rewrite drop_app_add' by done. by rewrite IH.
Qed.

(** The bits of one byte of the string. *)
Lemma slice_byte s i x k j :
  0 <= i -> s !! Z.to_nat i = Some x -> (k <= j <= 8)%nat ->
  slice (bits_of s) (8 * i + Z.of_nat k) (8 * i + Z.of_nat j) = take (j - k) (drop k (byte_bits x)).
Proof.
  intros Hi Hx Hkj. unfold slice. replace (Z.to_nat (8 * i + Z.of_nat k)) with (8 * Z.to_nat i + k)%nat by lia.
  rewrite <- drop_drop, drop_bits_of, (drop_S _ _ _ Hx), bits_of_cons.
  replace (Z.to_nat (8 * i + Z.of_nat j - (8 * i + Z.of_nat k))) with (j - k)%nat by lia.
  rewrite drop_app_le by (cbn; lia). rewrite take_app_le; [done|]. rewrite length_drop. cbn. lia.
Qed.

Lemma slice_bytes s a n : 0 <= a -> 0 <= n -> slice (bits_of s) (8 * a) (8 * (a + n)) = bits_of (seg s a n).
Proof.
  intros Ha Hn. unfold slice, seg. replace (Z.to_nat (8 * a)) with (8 * Z.to_nat a)%nat by lia.
  replace (Z.to_nat (8 * (a + n) - 8 * a)) with (8 * Z.to_nat n)%nat by lia.
  by rewrite drop_bits_of, take_bits_of.
Qed.

Lemma land_byte x m : is_byte x -> is_byte (Z.land x m).
Proof.
  intros Hx. unfold is_byte in *. replace (Z.land x m) with (Z.land (Z.land x m) (Z.ones 8)).
  - rewrite Z.land_ones by done. by apply Z.mod_pos_bound.
  - rewrite <- Z.land_assoc, (Z.land_comm m), Z.land_assoc, Z.land_ones by done. by rewrite Z.mod_small.
Qed.

Lemma slice_split (m lo hi : Z) l : 0 <= lo <= m -> m <= hi -> slice l lo m ++ slice l m hi = slice l lo hi.
Proof.
  intros H1 H2. unfold slice. replace (Z.to_nat m) with (Z.to_nat lo + Z.to_nat (m - lo))%nat by lia.
  rewrite <- drop_drop, take_take_drop. f_equal. lia.
Qed.

Section range.
Context {host : HostEndian} (addr stack : Z) (popcnt : bool) (s : list Z).
Hypothesis s_bytes : Forall is_byte s.
Hypothesis s_small : 8 * zlen s < 2 ^ 63.

Lemma masked_byte i m :
  0 <= i < zlen s -> exists x, s !! Z.to_nat i = Some x /\ is_byte x /\
    (if negb (m =? 0) then let* b := rd1 s i in Ok (Z.land b m) else Ok 0) = Ok (Z.land x m).
Proof.
  intros Hi. destruct (rd1_ok s i Hi) as (x & E & Hx). exists x. split; [done|].
  split; [by eapply list.Forall_lookup_1|]. destruct (Z.eqb_spec m 0) as [->|]; cbn [negb].
  - by rewrite Z.land_0_r.
  - by rewrite E.
Qed.

Lemma bitcount_range_ok a b (k j : nat) :
  0 <= a <= b -> b < zlen s -> (k < 8)%nat -> (j < 8)%nat ->
  8 * a + Z.of_nat k <= 8 * b + Z.of_nat j ->
  bitcount_range popcnt addr stack s a b (first_mask k) (last_mask j)
  = Ok (ones (slice (bits_of s) (8 * a + Z.of_nat k) (8 * b + Z.of_nat j + 1))).
Proof.
  intros Ha Hb Hk Hj Hkj. unfold bitcount_range. rewrite Z.gtb_ltb, (proj2 (Z.ltb_ge _ _)) by lia.
  rewrite rdn_seg by lia. runr.
  rewrite redisPopcount_ok; [|by apply seg_bytes|]; cycle 1.
  { unfold zlen at 1. rewrite seg_length by lia. lia. }
  runr. destruct (masked_byte a (first_mask k)) as (x & Hx & Hxb & ->); [lia|].
  destruct (masked_byte b (last_mask j)) as (y & Hy & Hyb & ->); [lia|]. runr.
  destruct (mask_ok_at x k Hxb Hk) as [Ef _]. destruct (mask_ok_at y j Hyb Hj) as (_ & El & _).
  set (l := bits_of s).
  assert (ones (take k (byte_bits x)) = cnt l (8 * a + Z.of_nat k) - cnt l (8 * a)) as E1.
  { pose proof (slice_byte s a x 0 k ltac:(lia) Hx ltac:(lia)) as E. change (Z.of_nat 0) with 0 in E. rewrite drop_0, Nat.sub_0_r, Z.add_0_r in E.
    rewrite <- E. apply cnt_slice. lia. }
  assert (ones (drop (S j) (byte_bits y)) = cnt l (8 * b + 8) - cnt l (8 * b + Z.of_nat j + 1)) as E2.
  { pose proof (slice_byte s b y (S j) 8 ltac:(lia) Hy ltac:(lia)) as E.
    rewrite (take_ge (drop (S j) (byte_bits y))) in E by (rewrite length_drop; cbn; lia). rewrite <- E.
    rewrite cnt_slice by lia. do 2 f_equal. lia. }
  assert (ones (bits_of (seg s a (b - a + 1))) = cnt l (8 * b + 8) - cnt l (8 * a)) as E3.
  { rewrite <- slice_bytes by lia. rewrite cnt_slice by lia. do 2 f_equal. lia. }
  rewrite (cnt_slice l) by lia.
  assert (is_byte (Z.land x (first_mask k)) /\ is_byte (Z.land y (last_mask j))) as [Hb1 Hb2]
    by (split; by apply land_byte).
  destruct (negb (first_mask k =? 0) || negb (last_mask j =? 0)) eqn:Em.
  - rewrite redisPopcount_ok; [|by apply Forall_cons_2; [|apply Forall_cons_2; [|constructor]]|by cbn]. runr. f_equal.
    rewrite !bits_of_cons, !ones_app. change (ones (bits_of [])) with 0. lia.
  - apply orb_false_iff in Em as [Em1%negb_false_iff%Z.eqb_eq Em2%negb_false_iff%Z.eqb_eq].
    rewrite Em1, Z.land_0_r in Ef. rewrite Em2, Z.land_0_r in El. change (ones (byte_bits 0)) with 0 in *. f_equal. lia.
Qed.
End range.

(** * Searching *)

(** The answer for the bits [t] from position [base] on. *)
Definition fin (end_given b : bool) (base : Z) (t : list bool) : Z :=
  if fpos b t <? zlen t then base + fpos b t
  else if b || end_given then -1 else base + zlen t.

Lemma fin_app end_given b base t u :
  fin end_given b base (t ++ u)
  = if fpos b t <? zlen t then base + fpos b t else fin end_given b (base + zlen t) u.
Proof.
  unfold fin. rewrite fpos_app, zlen_app. pose proof (fpos_range b u). pose proof (zlen_nonneg u).
  destruct (Z.ltb_spec (fpos b t) (zlen t)); [by rewrite (proj2 (Z.ltb_lt _ _)) by lia|].
  destruct (Z.ltb_spec (fpos b u) (zlen u)).
  - rewrite (proj2 (Z.ltb_lt _ _)) by lia. lia.
  - rewrite (proj2 (Z.ltb_ge _ _)) by lia. destruct (b || end_given); [done|lia].
Qed.

Lemma fpos_replicate b n : fpos b (replicate n (negb b)) = Z.of_nat n.
Proof. induction n as [|n IH]; [done|]. cbn [replicate fpos]. rewrite IH. destruct b; cbn; lia. Qed.

Lemma zlen_replicate {A} n (x : A) : zlen (replicate n x) = Z.of_nat n.
Proof. unfold zlen. by rewrite length_replicate. Qed.

(** Bits that cannot match around the range. *)
Lemma fin_pad end_given b base k t r :
  (end_given = false -> r = 0%nat) ->
  fin end_given b base (replicate k (negb b) ++ t ++ replicate r (negb b)) = fin end_given b (base + Z.of_nat k) t.
Proof.
  intros Hr. rewrite fin_app, fpos_replicate, zlen_replicate, Z.ltb_irrefl, fin_app.
  unfold fin at 2. destruct (Z.ltb_spec (fpos b t) (zlen t)); [done|].
  unfold fin. rewrite fpos_replicate, zlen_replicate, Z.ltb_irrefl.
  destruct end_given; [by rewrite orb_true_r|]. rewrite Hr by done. destruct b; cbn; lia.
Qed.

Section search.
Context {host : HostEndian} (addr stack : Z) (s : list Z) (end_given b : bool).
Hypothesis s_bytes : Forall is_byte s.

Lemma shiftl_3 n : Z.shiftl n 3 = 8 * n.
Proof. rewrite Z.shiftl_mul_pow2 by done. change (2 ^ 3) with 8. lia. Qed.

(** The code after [result:], on what redisBitpos answered for all the bytes. *)
Lemma bitpos_result_fin p start bytes :
  bytes = zlen p ->
  bitpos_result end_given (b2z b)
    (if b && (fpos b (bits_of p) =? 8 * zlen p) then -1 else fpos b (bits_of p)) start bytes
  = fin end_given b (8 * start) (bits_of p).
Proof.
  intros ->. unfold bitpos_result, fin. rewrite !shiftl_3, zlen_bits_of. pose proof (fpos_range b (bits_of p)) as Hr.
  rewrite zlen_bits_of in Hr. destruct (Z.eqb_spec (fpos b (bits_of p)) (8 * zlen p)) as [E|E].
  - rewrite E, Z.ltb_irrefl. destruct b, end_given; cbn [b2z Z.eqb andb orb negb]; rewrite ?Z.eqb_refl; try done;
      rewrite (proj2 (Z.eqb_neq _ _)) by lia; cbn; lia.
  - rewrite !andb_false_r, (proj2 (Z.eqb_neq _ _) E), andb_false_r, (proj2 (Z.ltb_lt _ _)) by lia.
    rewrite (proj2 (Z.eqb_neq (fpos b (bits_of p)) (-1))) by lia. cbn. lia.
Qed.

(** A prefix was searched: found there, or go on. *)
Lemma bitpos_partial p base t (k : result Z) :
  k = Ok (fin end_given b (base + 8 * zlen p) t) ->
  let pos := if b && (fpos b (bits_of p) =? 8 * zlen p) then -1 else fpos b (bits_of p) in
  (if negb (pos =? -1) && negb (pos =? 8 * zlen p) then Ok (base + pos) else k)
  = Ok (fin end_given b base (bits_of p ++ t)).
Proof.
  intros Hk. rewrite fin_app, zlen_bits_of. pose proof (fpos_range b (bits_of p)) as Hr. rewrite zlen_bits_of in Hr.
  cbn zeta. destruct (Z.eqb_spec (fpos b (bits_of p)) (8 * zlen p)) as [E|E].
  - rewrite andb_true_r, E, Z.ltb_irrefl. destruct b; [done|]. rewrite Z.eqb_refl. by rewrite andb_false_r.
  - rewrite andb_false_r, (proj2 (Z.ltb_lt _ _)) by lia. rewrite (proj2 (Z.eqb_neq (fpos b (bits_of p)) (-1))) by lia.
    by rewrite (proj2 (Z.eqb_neq _ _) E).
Qed.

Lemma tmp_char m x : (if negb (b2z b =? 0) then Z.land x (u8 (Z.lnot m)) else Z.lor x m) = tmp_first b m x.
Proof. unfold tmp_first. by destruct b. Qed.

Lemma bits_of_one x : bits_of [x] = byte_bits x.
Proof. rewrite bits_of_cons. apply app_nil_r. Qed.

(** The bits of the last byte that are in the range, and padding. *)
Definition last_bits (x : Z) (j : nat) : list bool := take (S j) (byte_bits x) ++ replicate (7 - j) (negb b).

Lemma bitpos_last_ok end_ x (j : nat) :
  0 <= end_ -> s !! Z.to_nat end_ = Some x -> (j < 8)%nat ->
  bitpos_last stack end_given s (b2z b) end_ end_ 1 (last_mask j) = Ok (fin end_given b (8 * end_) (last_bits x j)).
Proof.
  intros He Hx Hj. unfold bitpos_last. assert (is_byte x) as Hxb by (by eapply list.Forall_lookup_1).
  destruct (rd1_ok s end_) as (x' & -> & Hx'); [apply lookup_lt_Some in Hx; unfold zlen; lia|].
  rewrite Hx in Hx'. injection Hx' as <-. runr. rewrite tmp_char.
  destruct (mask_ok_at x j Hxb Hj) as (_ & _ & Hm). destruct (Hm b) as (_ & E & _ & _ & Hb).
  rewrite redisBitpos_ok by (by constructor). runr.
  rewrite bitpos_result_fin by done. by rewrite bits_of_one, E.
Qed.

(** From byte [start] on, up to bit [j] of byte [end_]. *)
Lemma bitpos_middle_ok start bytes end_ x (j : nat) :
  0 <= start -> 1 <= bytes -> end_ = start + bytes - 1 -> s !! Z.to_nat end_ = Some x -> (j < 8)%nat ->
  bitpos_middle addr stack end_given s (b2z b) start end_ bytes (last_mask j)
  = Ok (fin end_given b (8 * start) (bits_of (seg s start (bytes - 1)) ++ last_bits x j)).
Proof.
  intros Hs Hb He Hx Hj. unfold bitpos_middle.
  assert (end_ < zlen s) as Hlt by (apply lookup_lt_Some in Hx; unfold zlen; lia).
  assert (seg s start bytes = seg s start (bytes - 1) ++ [x]) as Eseg.
  { unfold seg. replace (Z.to_nat bytes) with (S (Z.to_nat (bytes - 1))) by lia. apply take_S_r.
    rewrite lookup_drop, <- Z2Nat.inj_add, <- Hx by lia. do 2 f_equal. lia. }
  assert (forall n, 0 <= n <= bytes -> zlen (seg s start n) = n) as Hzl
    by (intros n Hn; unfold zlen at 1; rewrite seg_length by lia; lia).
  destruct (Z.eqb_spec (last_mask j) 0) as [E0|E0]; cbn [negb].
  - assert (j = 7%nat) as -> by (do 7 (destruct j as [|j]; [done|]); lia).
    rewrite Z.sub_0_r, Z.gtb_ltb, (proj2 (Z.ltb_lt 0 bytes)) by lia. rewrite rdn_seg by lia. runr.
    rewrite redisBitpos_ok by (by apply seg_bytes). runr. rewrite Z.eqb_refl. cbn [orb].
    rewrite bitpos_result_fin by (by rewrite Hzl by lia).
    rewrite Eseg, bits_of_app, bits_of_one. unfold last_bits. cbn [replicate Nat.sub]. rewrite app_nil_r.
    by rewrite (take_ge (byte_bits x)) by done.
  - rewrite Z.gtb_ltb. destruct (Z.ltb_spec 0 (bytes - 1)) as [Hpos|Hneg].
    + rewrite rdn_seg by lia. runr. rewrite redisBitpos_ok by (by apply seg_bytes). runr.
      rewrite (proj2 (Z.eqb_neq bytes (bytes - 1))) by lia. cbn [orb].
      pose proof (bitpos_partial (seg s start (bytes - 1)) (8 * start) (last_bits x j)
        (bitpos_last stack end_given s (b2z b) end_ end_ 1 (last_mask j))) as Hp.
      rewrite Hzl in * by lia. rewrite bitpos_last_ok with (x := x) in Hp by (done || lia).
      specialize (Hp ltac:(do 2 f_equal; lia)). cbn zeta in Hp. rewrite <- Hp. rewrite shiftl_3.
      set (pos := if b && _ then -1 else _).
      replace (start + (bytes - 1)) with end_ by lia. replace (bytes - (bytes - 1)) with 1 by lia.
      rewrite bitpos_last_ok with (x := x) by (done || lia).
      destruct (Z.eqb_spec pos (-1)) as [->|Hn1]; [done|]. destruct (Z.eqb_spec pos (8 * (bytes - 1))) as [->|Hn2]; [done|].
      cbn [negb andb]. f_equal. unfold bitpos_result. rewrite !shiftl_3.
      rewrite (proj2 (Z.eqb_neq pos (-1))) by done.
      assert (pos <> 8 * bytes) as Hn3.
      { unfold pos in *. pose proof (fpos_range b (bits_of (seg s start (bytes - 1)))) as Hr.
        rewrite zlen_bits_of, Hzl in Hr by lia. destruct (b && _); lia. }
      rewrite (proj2 (Z.eqb_neq pos (8 * bytes))) by done. rewrite andb_false_r. cbn. lia.
    + assert (bytes = 1) as -> by lia. replace end_ with start in * by lia.
      rewrite bitpos_last_ok with (x := x) by done. reflexivity.
Qed.

(** What stands for the range in the search: [k] bits before it and [7 - j]
    after it that cannot match. *)
Definition masked (k j : nat) (t : list bool) : list bool := replicate k (negb b) ++ t ++ replicate (7 - j) (negb b).

Lemma first_mask_zero k : (k < 8)%nat -> first_mask k = 0 -> k = 0%nat.
Proof. intros Hk E. destruct k as [|k]; [done|]. do 7 (destruct k as [|k]; [done|]). lia. Qed.

Lemma rd1_at i x : 0 <= i -> s !! Z.to_nat i = Some x -> rd1 s i = Ok x.
Proof. intros Hi Hx. unfold rd1. rewrite (proj2 (Z.leb_le 0 i)) by done. by rewrite Hx. Qed.

(** The range is inside one byte. *)
Lemma bitpos_one_byte a x (k j : nat) :
  0 <= a -> s !! Z.to_nat a = Some x -> (k <= j < 8)%nat ->
  bitpos_range addr stack end_given s (b2z b) a a (first_mask k) (last_mask j)
  = Ok (fin end_given b (8 * a) (masked k j (take (S j - k) (drop k (byte_bits x))))).
Proof.
  intros Ha Hx Hkj. assert (is_byte x) as Hxb by (exact (list.Forall_lookup_1 _ _ _ _ s_bytes Hx)).
  destruct (mask_ok_at x k Hxb ltac:(lia)) as (_ & _ & Hm). destruct (Hm b) as (_ & _ & E2 & Hb1 & _).
  unfold bitpos_range. rewrite Z.gtb_ltb, Z.ltb_irrefl, (rd1_at a x) by done. runr. rewrite !tmp_char.
  replace (a - a + 1) with 1 by lia. unfold masked.
  destruct (Z.eqb_spec (first_mask k) 0) as [E0|E0]; cbn [negb].
  - apply first_mask_zero in E0 as ->; [|lia].
    rewrite bitpos_middle_ok with (x := x) by (done || lia). unfold last_bits. rewrite Nat.sub_0_r, drop_0. done.
  - rewrite Z.eqb_refl, andb_true_r. cbn [orb].
    assert ((if negb (last_mask j =? 0) then tmp_first b (last_mask j) (tmp_first b (first_mask k) x)
             else tmp_first b (first_mask k) x) = tmp_first b (last_mask j) (tmp_first b (first_mask k) x)) as ->.
    { destruct (Z.eqb_spec (last_mask j) 0) as [El|]; cbn [negb]; [|done]. rewrite El. unfold tmp_first at 2.
      destruct b; [|by rewrite Z.lor_0_r]. change (u8 (Z.lnot 0)) with (Z.ones 8).
      rewrite Z.land_ones by done. symmetry. by apply Z.mod_small. }
    assert (is_byte (tmp_first b (last_mask j) (tmp_first b (first_mask k) x))) as Hb2.
    { destruct (mask_ok_at _ j Hb1 ltac:(lia)) as (_ & _ & Hm2). by destruct (Hm2 b) as (_ & _ & _ & _ & ?). }
    rewrite redisBitpos_ok by (by constructor). runr. rewrite bitpos_result_fin by done.
    rewrite bits_of_one, E2 by lia. done.
Qed.

(** The range spans several bytes. *)
Lemma bitpos_many_bytes a e x y (k j : nat) :
  0 <= a < e -> s !! Z.to_nat a = Some x -> s !! Z.to_nat e = Some y -> (k < 8)%nat -> (j < 8)%nat ->
  bitpos_range addr stack end_given s (b2z b) a e (first_mask k) (last_mask j)
  = Ok (fin end_given b (8 * a)
          (masked k j (drop k (byte_bits x) ++ bits_of (seg s (a + 1) (e - a - 1)) ++ take (S j) (byte_bits y)))).
Proof.
  intros Ha Hx Hy Hk Hj. assert (is_byte x) as Hxb by (exact (list.Forall_lookup_1 _ _ _ _ s_bytes Hx)).
  destruct (mask_ok_at x k Hxb Hk) as (_ & _ & Hm). destruct (Hm b) as (E1 & _ & _ & Hb1 & _).
  unfold bitpos_range. rewrite Z.gtb_ltb, (proj2 (Z.ltb_ge _ _)), (rd1_at a x) by (done || lia). runr. rewrite !tmp_char.
  rewrite (proj2 (Z.eqb_neq (e - a + 1) 1)) by lia. rewrite andb_false_r. cbn [orb]. unfold masked.
  destruct (Z.eqb_spec (first_mask k) 0) as [E0|E0]; cbn [negb].
  - apply first_mask_zero in E0 as ->; [|lia].
    rewrite bitpos_middle_ok with (x := y) by (done || lia). do 2 f_equal. cbn [replicate app]. rewrite drop_0.
    replace (seg s a (e - a + 1 - 1)) with (x :: seg s (a + 1) (e - a - 1)); cycle 1.
    { unfold seg. rewrite (drop_S _ _ _ Hx). replace (Z.to_nat (e - a + 1 - 1)) with (S (Z.to_nat (e - a - 1))) by lia.
      cbn [take]. do 3 f_equal. lia. }
    rewrite bits_of_cons. unfold last_bits. by rewrite <- !app_assoc.
  - rewrite redisBitpos_ok by (by constructor). runr.
    pose proof (bitpos_partial [tmp_first b (first_mask k) x] (8 * a) (bits_of (seg s (a + 1) (e - a - 1)) ++ last_bits y j)
      (bitpos_middle addr stack end_given s (b2z b) (a + 1) e (e - a + 1 - 1) (last_mask j))) as Hp.
    change (8 * zlen [tmp_first b (first_mask k) x]) with 8 in *. rewrite bits_of_one in *.
    rewrite bitpos_middle_ok with (x := y) in * by (done || lia).
    replace (e - a + 1 - 1 - 1) with (e - a - 1) in * by lia.
    specialize (Hp ltac:(do 2 f_equal; lia)). cbn zeta in Hp. replace (8 * a + 8) with (8 * (a + 1)) in Hp by lia.
    transitivity (@Ok Z (fin end_given b (8 * a) (byte_bits (tmp_first b (first_mask k) x)
                      ++ bits_of (seg s (a + 1) (e - a - 1)) ++ last_bits y j)));
      [rewrite <- Hp | do 2 f_equal; rewrite E1; unfold last_bits; by rewrite <- !app_assoc].
    set (pos := if b && _ then -1 else _) in *.
    assert (0 <= pos <= 8 \/ pos = -1) as Hpos.
    { unfold pos. pose proof (fpos_range b (byte_bits (tmp_first b (first_mask k) x))) as Hr.
      change (zlen (byte_bits (tmp_first b (first_mask k) x))) with 8 in Hr. destruct (b && _); lia. }
    destruct (negb (pos =? -1) && negb (pos =? 8)) eqn:Ec; [|done].
    apply andb_true_iff in Ec as [Ec1%negb_true_iff%Z.eqb_neq Ec2%negb_true_iff%Z.eqb_neq].
    f_equal. unfold bitpos_result. rewrite !shiftl_3, (proj2 (Z.eqb_neq pos (-1))) by done.
    rewrite (proj2 (Z.eqb_neq pos (8 * (e - a + 1)))) by lia. rewrite andb_false_r. cbn. lia.
Qed.

(** The bits of a range that spans several bytes. *)
Lemma slice_many a e x y (k j : nat) :
  0 <= a < e -> s !! Z.to_nat a = Some x -> s !! Z.to_nat e = Some y -> (k < 8)%nat -> (j < 8)%nat ->
  slice (bits_of s) (8 * a + Z.of_nat k) (8 * e + Z.of_nat j + 1)
  = drop k (byte_bits x) ++ bits_of (seg s (a + 1) (e - a - 1)) ++ take (S j) (byte_bits y).
Proof.
  intros Ha Hx Hy Hk Hj. rewrite <- (slice_split (8 * (a + 1))) by lia. rewrite <- (slice_split (8 * e) (8 * (a + 1))) by lia.
  f_equal; [|f_equal].
  - replace (8 * (a + 1)) with (8 * a + Z.of_nat 8) by lia. rewrite (slice_byte s a x k 8) by (done || lia).
    apply take_ge. rewrite length_drop. cbn. lia.
  - replace e with (a + 1 + (e - a - 1)) at 1 by lia. apply slice_bytes; lia.
  - replace (8 * e) with (8 * e + Z.of_nat 0) at 1 by lia.
    replace (8 * e + Z.of_nat j + 1) with (8 * e + Z.of_nat (S j)) by lia.
    rewrite (slice_byte s e y 0 (S j)) by (done || lia). by rewrite drop_0, Nat.sub_0_r.
Qed.

(** The whole range, cut at bit [k] of its first and bit [j] of its last byte. *)
Lemma bitpos_range_ok a e (k j : nat) :
  0 <= a <= e -> e < zlen s -> (k < 8)%nat -> (j < 8)%nat ->
  8 * a + Z.of_nat k <= 8 * e + Z.of_nat j -> (end_given = false -> j = 7%nat) ->
  bitpos_range addr stack end_given s (b2z b) a e (first_mask k) (last_mask j)
  = Ok (bitpos_spec end_given b (bits_of s) (8 * a + Z.of_nat k) (8 * e + Z.of_nat j + 1)).
Proof.
  intros Ha He Hk Hj Hkj Hend.
  destruct (lookup_lt_is_Some_2 s (Z.to_nat a) ltac:(unfold zlen in *; lia)) as [x Hx].
  destruct (lookup_lt_is_Some_2 s (Z.to_nat e) ltac:(unfold zlen in *; lia)) as [y Hy].
  set (t := slice (bits_of s) (8 * a + Z.of_nat k) (8 * e + Z.of_nat j + 1)).
  assert (zlen t = 8 * e + Z.of_nat j + 1 - (8 * a + Z.of_nat k)) as Hzt.
  { unfold t, slice, zlen. rewrite length_take, length_drop, length_bits_of. unfold zlen in *. lia. }
  transitivity (@Ok Z (fin end_given b (8 * a) (masked k j t))).
  - destruct (Z.eq_dec a e) as [<-|Hne].
    + rewrite (bitpos_one_byte a x) by (done || lia). unfold t.
      replace (8 * a + Z.of_nat j + 1) with (8 * a + Z.of_nat (S j)) by lia. by rewrite (slice_byte s a x k (S j)) by (done || lia).
    + rewrite (bitpos_many_bytes a e x y) by (done || lia). unfold t. by rewrite (slice_many a e x y) by (done || lia).
  - unfold masked. rewrite fin_pad by (intros Hf; rewrite (Hend Hf); done). unfold bitpos_spec, fin. fold t.
    f_equal. destruct (_ <? _); [done|]. destruct (_ || _); [done|]. lia.
Qed.
End search.

(** * From the arguments to the range *)

Lemma bit_range_ok start end_ len (isbit : bool) :
  0 <= len ->
  let '(a, e) := norm_range start end_ (if isbit then 8 * len else len) in
  bit_range start end_ len isbit
  = if isbit && (a <=? e)
    then (a / 8, e / 8, first_mask (Z.to_nat a mod 8), last_mask (Z.to_nat e mod 8))
    else (a, e, 0, 0).
Proof.
  intros Hl. unfold norm_range, bit_range. rewrite shiftl_3. set (tot := if isbit then 8 * len else len).
  set (a := Z.max 0 _). set (e := Z.min _ _).
  assert ((if (if start <? 0 then tot + start else start) <? 0 then 0 else if start <? 0 then tot + start else start) = a) as ->.
  { unfold a. destruct (Z.ltb_spec start 0); case_bool; lia. }
  match goal with |- context [isbit && (a <=? ?e')] => assert (e' = e) as -> end.
  { unfold e. rewrite Z.geb_leb. destruct (Z.ltb_spec end_ 0); repeat case_bool; lia. }
  destruct (isbit && (a <=? e)) eqn:E; [|done]. apply andb_true_iff in E as [-> E%Z.leb_le].
  assert (0 <= a) by (unfold a; lia). rewrite !Z.shiftr_div_pow2 by done. change (2 ^ 3) with 8.
  by rewrite first_byte_mask_at, last_byte_mask_at by lia.
Qed.

(** A position as a byte and a bit of the byte. *)
Lemma split_pos p : 0 <= p -> p = 8 * (p / 8) + Z.of_nat (Z.to_nat p mod 8) /\ (Z.to_nat p mod 8 < 8)%nat.
Proof.
  intros Hp. rewrite Nat2Z.inj_mod, Z2Nat.id by done. change (Z.of_nat 8) with 8.
  split; [apply Z.div_mod; lia | apply Nat.mod_upper_bound; lia].
Qed.

(** A range as the masks and bytes the code works on; bytes are the case of
    the masks that hide nothing. *)
Lemma range_cases start end_ len (isbit : bool) :
  0 <= len ->
  let '(lo, hi) := bit_bounds start end_ len isbit in
  let '(a, e, f, l) := bit_range start end_ len isbit in
  (e < a /\ hi <= lo) \/
  exists k j, 0 <= a <= e /\ e < len /\ (k < 8)%nat /\ (j < 8)%nat /\ f = first_mask k /\ l = last_mask j /\
    lo = 8 * a + Z.of_nat k /\ hi = 8 * e + Z.of_nat j + 1 /\ lo < hi /\ (isbit = false -> j = 7%nat).
Proof.
  intros Hl. pose proof (bit_range_ok start end_ len isbit Hl) as H. unfold bit_bounds.
  destruct isbit; cbn [andb] in H.
  - destruct (norm_range start end_ (8 * len)) as [a e] eqn:En. rewrite H.
    assert (0 <= a /\ e < 8 * len) as [Ha He] by (unfold norm_range in En; injection En as <- <-; lia).
    destruct (Z.leb_spec a e) as [Hle|Hgt]; [right | left; lia].
    destruct (split_pos a) as [E1 H1]; [lia|]. destruct (split_pos e) as [E2 H2]; [lia|].
    exists (Z.to_nat a mod 8)%nat, (Z.to_nat e mod 8)%nat.
    assert (0 <= a / 8) by (apply Z.div_pos; lia). pose proof (Z.div_le_mono a e 8).
    assert (e / 8 < len) by (apply Z.div_lt_upper_bound; lia). split_and!; try done; lia.
  - destruct (norm_range start end_ len) as [a e] eqn:En. rewrite H.
    assert (0 <= a /\ e < len) as [Ha He] by (unfold norm_range in En; injection En as <- <-; lia).
    destruct (Z.leb_spec a e) as [Hle|Hgt]; [right | left; lia].
    exists 0%nat, 7%nat. split_and!; try done; lia.
Qed.

(** No range given: the whole string. *)
Lemma whole_range len :
  0 <= len -> bit_bounds 0 (len - 1) len false = (0, 8 * len) /\ bit_range 0 (len - 1) len false = (0, len - 1, 0, 0).
Proof.
  intros Hl. pose proof (bit_range_ok 0 (len - 1) len false Hl) as H. unfold bit_bounds.
  assert (norm_range 0 (len - 1) len = (0, len - 1)) as E.
  { unfold norm_range. f_equal. destruct (Z.ltb_spec (len - 1) 0); lia. }
  cbn [andb] in H. rewrite E in H. rewrite E. split; [f_equal; lia | exact H].
Qed.

Section bit_commands.
Context {host : HostEndian} (proto_max_bulk_len : Z) (obey popcnt : bool) (addr stack : Z).

Lemma bitcount_cut s start end_ isbit :
  Forall is_byte s -> 8 * zlen s < 2 ^ 63 ->
  let '(lo, hi) := bit_bounds start end_ (zlen s) isbit in
  let '(a, e, f, l) := bit_range start end_ (zlen s) isbit in
  bitcount_range popcnt addr stack s a e f l = Ok (ones (slice (bits_of s) lo hi)).
Proof.
  intros Hs Hz. pose proof (range_cases start end_ (zlen s) isbit (zlen_nonneg s)) as H.
  destruct (bit_bounds _ _ _ _) as [lo hi]. destruct (bit_range _ _ _ _) as [[[a e] f] l].
  destruct H as [[H1 H2]|(k & j & Ha & He & Hk & Hj & -> & -> & -> & -> & Hlt & _)].
  - unfold bitcount_range. rewrite Z.gtb_ltb, (proj2 (Z.ltb_lt _ _)) by done. unfold slice.
    replace (Z.to_nat (hi - lo)) with 0%nat by lia. done.
  - by apply bitcount_range_ok; try lia.
Qed.

Lemma slice_all s : slice (bits_of s) 0 (8 * zlen s) = bits_of s.
Proof. unfold slice. rewrite drop_0. apply take_ge. rewrite length_bits_of. unfold zlen. lia. Qed.

Lemma bitcount_whole s :
  Forall is_byte s -> 8 * zlen s < 2 ^ 63 ->
  bitcount_range popcnt addr stack s 0 (zlen s - 1) 0 0 = Ok (ones (bits_of s)).
Proof.
  intros Hs Hz. destruct (Z.eq_dec (zlen s) 0) as [E|].
  { rewrite E. destruct s; [done | rewrite zlen_cons in E; pose proof (zlen_nonneg s); lia]. }
  pose proof (zlen_nonneg s).
  pose proof (bitcount_range_ok addr stack popcnt s Hs Hz 0 (zlen s - 1) 0 7) as E.
  change (8 * 0 + Z.of_nat 0) with 0 in E. replace (8 * (zlen s - 1) + Z.of_nat 7 + 1) with (8 * zlen s) in E by lia.
  rewrite slice_all in E. apply E; lia.
Qed.

Lemma bitpos_cut s (b : bool) start end_ isbit end_given :
  Forall is_byte s -> (end_given = false -> isbit = false) ->
  let '(lo, hi) := bit_bounds start end_ (zlen s) isbit in
  let '(a, e, f, l) := bit_range start end_ (zlen s) isbit in
  bitpos_range addr stack end_given s (b2z b) a e f l
  = Ok (if lo <? hi then bitpos_spec end_given b (bits_of s) lo hi else -1).
Proof.
  intros Hs Hg. pose proof (range_cases start end_ (zlen s) isbit (zlen_nonneg s)) as H.
  destruct (bit_bounds _ _ _ _) as [lo hi]. destruct (bit_range _ _ _ _) as [[[a e] f] l].
  destruct H as [[H1 H2]|(k & j & Ha & He & Hk & Hj & -> & -> & Elo & Ehi & Hlt & Hj7)].
  - unfold bitpos_range. rewrite Z.gtb_ltb, (proj2 (Z.ltb_lt _ _)) by done.
    by rewrite (proj2 (Z.ltb_ge _ _)) by done.
  - rewrite (proj2 (Z.ltb_lt _ _)) by done. subst lo hi. apply bitpos_range_ok; try done; try lia.
    intros Hf. apply Hj7, Hg, Hf.
Qed.

(** * The commands *)

Lemma lookup_str_len db key s o :
  str_at db key s -> lookupReadString db key = Ok (inr o) -> default [] o = s -> str_len o = zlen s.
Proof. intros _ _ <-. by destruct o. Qed.

Definition bitcount_spec (s : list Z) (range : option (Z * Z * bool)) : Z :=
  match range with
  | None => ones (bits_of s)
  | Some (start, end_, isbit) =>
      if (start <? 0) && (end_ <? 0) && (start >? end_) then 0
      else let '(lo, hi) := bit_bounds start end_ (zlen s) isbit in ones (slice (bits_of s) lo hi)
  end.

Lemma bitcount_reply_ok db o start end_ f l n :
  bitcount_range popcnt addr stack (default [] o) start end_ f l = Ok n -> (o = None -> n = 0) ->
  bitcount_reply popcnt addr stack db o start end_ f l = Ok (inr (db, ReplyInt n)).
Proof.
  intros H Hn. unfold bitcount_reply. destruct o as [s|]; [cbn in H; by rewrite H | by rewrite Hn].
Qed.

Lemma ones_slice_nil lo hi : ones (slice (bits_of []) lo hi) = 0.
Proof. unfold slice. change (bits_of []) with (@nil bool). by rewrite drop_nil, take_nil. Qed.

Lemma bitcount_ok db key args s range :
  str_at db key s -> 8 * zlen s < 2 ^ 63 -> bitcount_args args = Ok (inr range) ->
  bitcountCommand popcnt addr stack db key args = Ok (db, ReplyInt (bitcount_spec s range)).
Proof.
  intros Hat Hz Hargs. pose proof (str_at_byte db key s Hat) as Hs. unfold bitcountCommand, answer. rewrite Hargs. runc.
  destruct (lookupReadString_ok db key s Hat) as (o & Ho & Eo & _). rewrite Ho. runc.
  rewrite (lookup_str_len db key s o) by done.
  destruct range as [[[start end_] isbit]|]; cbn [bitcount_spec].
  - rewrite (proj2 (Z.leb_le (zlen s) (Z.shiftr LLONG_MAX 3))) by (change (Z.shiftr LLONG_MAX 3) with (2 ^ 60 - 1); lia).
    runc. destruct (_ && _); [done|].
    pose proof (bitcount_cut s start end_ isbit Hs Hz) as H.
    destruct (bit_bounds _ _ _ _) as [lo hi]. destruct (bit_range _ _ _ _) as [[[a e] f] l].
    rewrite (bitcount_reply_ok db o a e f l (ones (slice (bits_of s) lo hi))); [done | by rewrite Eo |].
    intros ->. cbn in Eo. subst s. apply ones_slice_nil.
  - rewrite (bitcount_reply_ok db o 0 (zlen s - 1) 0 0 (ones (bits_of s))); [done | rewrite Eo; by apply bitcount_whole |].
    intros ->. cbn in Eo. by subst s.
Qed.

(** The string is what [o] holds; a missing key is an endless run of zeros. *)
Definition bitpos_answer (missing b : bool) (s : list Z) (range : option (Z * option Z * bool)) : Z :=
  if missing then (if b then -1 else 0)
  else
    let '(given, (lo, hi)) :=
      match range with
      | None => (false, (0, 8 * zlen s))
      | Some (start, end_, isbit) =>
          (bool_decide (is_Some end_), bit_bounds start (default (zlen s - 1) end_) (zlen s) isbit)
      end in
    if lo <? hi then bitpos_spec given b (bits_of s) lo hi else -1.

Lemma bitpos_args_unit args start end_ isbit :
  bitpos_args args = Ok (inr (Some (start, end_, isbit))) -> end_ = None -> isbit = false.
Proof.
  unfold bitpos_args. intros H ->. destruct args as [|a [|b0 [|u [|? ?]]]]; try done;
    repeat (apply bindc_inr in H as (? & ? & H)); by injection H.
Qed.

Lemma bitpos_ok db key bitarg args s (b : bool) range :
  str_at db key s -> 8 * zlen s < 2 ^ 63 ->
  getLongFromObjectOrReply bitarg NotAnInteger = Ok (inr (b2z b)) -> bitpos_args args = Ok (inr range) ->
  bitposCommand addr stack db key bitarg args
  = Ok (db, ReplyInt (bitpos_answer (bool_decide (dbFind db key = None)) b s range)).
Proof.
  intros Hat Hz Hbit Hargs. pose proof (str_at_byte db key s Hat) as Hs. unfold bitposCommand, answer. rewrite Hbit. runc.
  assert (negb (b2z b =? 0) && negb (b2z b =? 1) = false) as -> by (by destruct b). rewrite Hargs. runc.
  destruct (lookupReadString_ok db key s Hat) as (o & Ho & Eo & Hnone). rewrite Ho. runc.
  rewrite (lookup_str_len db key s o) by done. unfold bitpos_answer.
  assert (negb (b2z b =? 0) = b) as Eb by (by destruct b).
  destruct o as [s'|]; cbn in Eo; subst.
  - rewrite bool_decide_false by (intros H; by apply Hnone in H).
    destruct range as [[[start end_] isbit]|].
    + rewrite (proj2 (Z.leb_le (zlen s) (Z.shiftr LLONG_MAX 3))) by (change (Z.shiftr LLONG_MAX 3) with (2 ^ 60 - 1); lia).
      runc. pose proof (bitpos_cut s b start (default (zlen s - 1) end_) isbit (bool_decide (is_Some end_)) Hs) as H.
      assert (match end_ with Some e => e | None => zlen s - 1 end = default (zlen s - 1) end_) as -> by (by destruct end_).
      destruct (bit_bounds _ _ _ _) as [lo hi]. destruct (bit_range _ _ _ _) as [[[a e] f] l].
      cbn [bitpos_reply]. rewrite H; [done|]. intros Hf%bool_decide_eq_false.
      destruct end_; [by destruct Hf; eexists|]. by eapply bitpos_args_unit.
    + cbn [bitpos_reply]. pose proof (bitpos_cut s b 0 (zlen s - 1) false false Hs ltac:(done)) as H.
      destruct (whole_range (zlen s) (zlen_nonneg s)) as [E1 E2]. rewrite E1, E2 in H. by rewrite H.
  - rewrite bool_decide_true by (by apply Hnone). change (default [] None) with (@nil Z) in *.
    destruct range as [[[start end_] isbit]|]; runc.
    + destruct (bit_range _ _ _ _) as [[[a e] f] l]. cbn [bitpos_reply]. by rewrite Eb.
    + cbn [bitpos_reply]. by rewrite Eb.
Qed.

Lemma getbit_ok db key offset s off :
  str_at db key s -> getBitOffsetFromArgument proto_max_bulk_len obey offset false 0 = Ok (inr off) ->
  getbitCommand proto_max_bulk_len obey db key offset = Ok (db, ReplyInt (b2z (zbit (bits_of s) (Z.to_nat off)))).
Proof.
  intros Hat Hoff. pose proof (str_at_byte db key s Hat) as Hs. unfold getbitCommand, answer. rewrite Hoff. runc.
  apply getBitOffset_range in Hoff. unfold str_at in Hat.
  destruct (dbFind db key) as [[kv|]|]; cbn [checkString]; [|done|subst; by runc]. runc.
  assert (match kv with ObjSds s => Ok s | ObjInt v => print_long 32 v end = Ok s) as -> by (apply (getDecodedObject_ok kv s Hat)).
  runc. rewrite zbit_bits_of, (land_7 off) by lia. pose proof (shiftr_3 off ltac:(lia)) as E3.
  destruct (Z.ltb_spec (Z.shiftr off 3) (zlen s)) as [Hin|Hout].
  - destruct (rd1_ok s (Z.shiftr off 3)) as (c & -> & Hc); [pose proof (Z.shiftr_nonneg off 3); lia|]. runc.
    pose proof (Nat.mod_upper_bound (Z.to_nat off) 8 ltac:(lia)).
    pose proof (land_bit_test c (7 - Z.to_nat off mod 8)) as Ht.
    replace (Z.of_nat (7 - Z.to_nat off mod 8)) with (7 - Z.of_nat (Z.to_nat off mod 8)) in Ht by lia. rewrite Ht.
    unfold zbyte. rewrite <- E3, Hc. done.
  - runc. unfold zbyte. rewrite <- E3, lookup_ge_None_2; [by rewrite Z.bits_0|]. unfold zlen in *. lia.
Qed.

Lemma lnot1_test on : (Z.land on (Z.lnot 1) =? 0) = (on =? 0) || (on =? 1).
Proof.
  assert (Z.land on (Z.lnot 1) = 2 * (on / 2)) as E.
  { apply Z.bits_inj'. intros i Hi. rewrite Z.land_spec, Z.lnot_spec by done.
    destruct (Z.eq_dec i 0) as [->|]; [by rewrite andb_false_r, Z.testbit_even_0|].
    replace i with (Z.succ (i - 1)) by lia. rewrite Z.testbit_even_succ by lia.
    rewrite <- Z.div2_div, Z.div2_spec, Z.shiftr_spec by lia. replace (i - 1 + 1) with (Z.succ (i - 1)) by lia.
    rewrite (Z.bits_above_log2 1 (Z.succ (i - 1))) by (cbn; lia). apply andb_true_r. }
  rewrite E. pose proof (Z.div_mod on 2). pose proof (Z.mod_pos_bound on 2).
  apply eq_true_iff_eq. rewrite orb_true_iff, !Z.eqb_eq. lia.
Qed.

(** The byte that SETBIT stores is the one [set_bit_at] stores. *)
Lemma setbit_write g off (v : bool) c :
  rd1 g (Z.shiftr off 3) = Ok c ->
  wr1 g (Z.shiftr off 3)
    (u8 (Z.lor (Z.land c (Z.lnot (Z.shiftl 1 (7 - Z.land off 7)))) (Z.shiftl (Z.land (b2z v) 1) (7 - Z.land off 7))))
  = set_bit_at g off (b2z v).
Proof.
  intros H. unfold set_bit_at. rewrite H. runr. f_equal.
  change 0xff with (Z.ones 8). rewrite Z.land_ones by done. by destruct v.
Qed.

Lemma setbit_ok db key offset value s off (v : bool) :
  str_at db key s -> getBitOffsetFromArgument proto_max_bulk_len obey offset false 0 = Ok (inr off) ->
  getLongFromObjectOrReply value BadBitValue = Ok (inr (b2z v)) ->
  let old := zbit (bits_of s) (Z.to_nat off) in
  exists db', setbitCommand proto_max_bulk_len obey db key offset value = Ok (db', ReplyInt (b2z old)) /\
    wrote db key (<[Z.to_nat off := v]> (pad_bits (bits_of s) (8 * (off / 8 + 1)))) db' /\
    dirty db' = dirty db + b2z ((8 * zlen s <=? off) || negb (eqb old v)).
Proof.
  intros Hat Hoff Hv old. pose proof (str_at_byte db key s Hat) as Hs. unfold setbitCommand, answer. rewrite Hoff. runc.
  rewrite Hv. runc. rewrite lnot1_test. assert ((b2z v =? 0) || (b2z v =? 1) = true) as -> by (by destruct v). cbn [negb].
  apply getBitOffset_range in Hoff. rewrite (lookupString_ok db key s off) by (done || lia). runc.
  assert (Z.shiftr off 3 = off / 8) as E8 by (rewrite Z.shiftr_div_pow2 by done; done).
  assert (bits_of (sdsgrowzero s (Z.shiftr off 3 + 1)) = pad_bits (bits_of s) (8 * (off / 8 + 1))) as Eg
    by (rewrite bits_of_grow, E8; done).
  pose proof (zlen_sdsgrowzero s (Z.shiftr off 3 + 1)) as Hzg. pose proof (sdsgrowzero_byte s (Z.shiftr off 3 + 1) Hs) as Hgb.
  set (g := sdsgrowzero s (Z.shiftr off 3 + 1)) in *.
  assert (off < 8 * zlen g) as Hin.
  { rewrite Hzg, E8. pose proof (Z.div_mod off 8). pose proof (Z.mod_pos_bound off 8). lia. }
  destruct (rd1_ok g (Z.shiftr off 3)) as (c & Erd & Hc); [apply shiftr_3_range; lia|]. rewrite Erd. runc.
  assert (old = Z.testbit c (7 - Z.of_nat (Z.to_nat off mod 8))) as Eold.
  { transitivity (zbit (bits_of g) (Z.to_nat off)).
    - unfold old, zbit. rewrite Eg. unfold pad_bits. destruct (bits_of s !! Z.to_nat off) eqn:El.
      + by rewrite (lookup_app_l_Some _ _ _ _ El).
      + apply lookup_ge_None in El. rewrite lookup_app_r by done.
        destruct (replicate _ false !! _) eqn:Er; [|done]. by apply lookup_replicate in Er as [-> _].
    - rewrite zbit_bits_of. unfold zbyte. rewrite shiftr_3 in Hc by lia. by rewrite Hc. }
  pose proof (Nat.mod_upper_bound (Z.to_nat off) 8 ltac:(lia)).
  pose proof (land_bit_test c (7 - Z.to_nat off mod 8)) as Ht.
  replace (Z.of_nat (7 - Z.to_nat off mod 8)) with (7 - Z.of_nat (Z.to_nat off mod 8)) in Ht by lia.
  rewrite <- Eold in Ht. rewrite land_7 by lia. rewrite Ht.
  assert ((negb (zlen g - zlen s =? 0)) || negb (b2z old =? b2z v) = (8 * zlen s <=? off) || negb (eqb old v)) as ->.
  { f_equal; [|by destruct old, v]. rewrite Hzg, E8. pose proof (Z.div_mod off 8). pose proof (Z.mod_pos_bound off 8).
    apply eq_true_iff_eq. rewrite negb_true_iff, Z.eqb_neq, Z.leb_le. lia. }
  destruct ((8 * zlen s <=? off) || negb (eqb old v)) eqn:Ech.
  - pose proof (setbit_write g off v c Erd) as Hw. rewrite land_7 in Hw by lia. rewrite Hw.
    destruct (set_bit_at_ok g off v) as (g' & -> & Hg' & _ & Eg'); [done | lia|]. runc.
    eexists. split; [done|]. split; [|done]. exists g'. cbn. rewrite insert_insert_eq. split_and!; try done. by rewrite Eg', Eg.
  - apply orb_false_iff in Ech as [_ Ech%negb_false_iff%eqb_prop]. runc. eexists. split; [done|]. split; [|cbn; lia].
    exists g. split_and!; try done. rewrite <- Eg. symmetry. apply list_insert_id.
    rewrite bits_of_lookup, <- (shiftr_3 off), Hc by lia. cbn [fmap option_fmap option_map]. by rewrite <- Eold, Ech.
Qed.
End bit_commands.

(** * Properties *)

Lemma wrote_str_at db key l db' : wrote db key l db' -> exists s, str_at db' key s /\ bits_of s = l.
Proof.
  intros (s & E & Hs & Hl). exists s. split; [|done]. unfold str_at, dbFind. by rewrite E, lookup_insert_eq.
Qed.

(** SETBIT and GETBIT are an array of bits: SETBIT replies the old bit;
    afterwards GETBIT at that offset replies the new bit and at any other
    offset what it replied before, whether the string was missing, shorter
    than the offset or stored as an integer; no other key changes;
    server.dirty counts the command exactly when the string grew or the bit
    changed. *)
Theorem setbit_getbit proto_max_bulk_len obey db key offset value s off (v : bool) :
  str_at db key s -> getBitOffsetFromArgument proto_max_bulk_len obey offset false 0 = Ok (inr off) ->
  getLongFromObjectOrReply value BadBitValue = Ok (inr (b2z v)) ->
  let get db offset := getbitCommand proto_max_bulk_len obey db key offset in
  exists db' (old : bool),
    setbitCommand proto_max_bulk_len obey db key offset value = Ok (db', ReplyInt (b2z old)) /\
    get db offset = Ok (db, ReplyInt (b2z old)) /\
    get db' offset = Ok (db', ReplyInt (b2z v)) /\
    (forall offset2 off2 n, getBitOffsetFromArgument proto_max_bulk_len obey offset2 false 0 = Ok (inr off2) ->
       off2 <> off -> get db offset2 = Ok (db, ReplyInt n) -> get db' offset2 = Ok (db', ReplyInt n)) /\
    (forall key', key' <> key -> dbFind db' key' = dbFind db key') /\
    dirty db' = dirty db + b2z ((8 * zlen s <=? off) || negb (eqb old v)).
Proof.
  intros Hat Hoff Hv get. destruct (setbit_ok proto_max_bulk_len obey db key offset value s off v) as (db' & E & Hw & Hd); try done.
  destruct (wrote_str_at _ _ _ _ Hw) as (s' & Hat' & Es').
  assert (forall off2, 0 <= off2 -> zbit (bits_of s') (Z.to_nat off2) = if off2 =? off then v else zbit (bits_of s) (Z.to_nat off2)) as Hbit.
  { intros off2 H2. apply getBitOffset_range in Hoff. rewrite Es'. destruct (Z.eqb_spec off2 off) as [->|Hne].
    - unfold zbit. rewrite list_lookup_insert_eq; [done|]. unfold pad_bits. rewrite length_app, length_replicate.
      pose proof (Z.div_mod off 8). pose proof (Z.mod_pos_bound off 8). lia.
    - unfold zbit. rewrite list_lookup_insert_ne by lia. apply zbit_pad. }
  exists db', (zbit (bits_of s) (Z.to_nat off)). split_and!; try done; unfold get.
  - by apply getbit_ok.
  - rewrite (getbit_ok _ _ db' key offset s' off) by done. apply getBitOffset_range in Hoff. by rewrite Hbit, Z.eqb_refl by lia.
  - intros offset2 off2 n H2 Hne. rewrite (getbit_ok _ _ db key offset2 s off2), (getbit_ok _ _ db' key offset2 s' off2) by done.
    intros [= <-]. apply getBitOffset_range in H2. by rewrite Hbit, (proj2 (Z.eqb_neq _ _) Hne) by lia.
  - intros key' Hk. destruct Hw as (s'' & Ek & _). unfold dbFind. by rewrite Ek, lookup_insert_ne.
Qed.

Lemma setbit_getbit_witness :
  exists db' (old : bool), setbitCommand 536870912 false (mkDb {[ [107] := KvString (ObjInt 7) ]} 0) [107] (chars "15") (chars "1")
    = Ok (db', ReplyInt (b2z old)) /\ dirty db' = 1.
Proof.
  destruct (setbit_getbit 536870912 false (mkDb {[ [107] := KvString (ObjInt 7) ]} 0) [107] (chars "15") (chars "1") [55] 15 true)
    as (db' & old & H1 & _ & _ & _ & _ & H2).
  - unfold str_at. cbn. split; [lia|]. unfold is_sdec. simpl.
    split; unfold dec_val, zlen; simpl; try lia. repeat constructor; unfold is_digit; lia.
  - vm_compute. reflexivity.
  - vm_compute. reflexivity.
  - exists db', old. split; [exact H1 | exact H2].
Defined.

(** BITCOUNT replies the number of ones among the bits of the range: the
    whole string, a range of bytes or a range of bits, with negative indexes
    counted from the end and the range cut to the string, for every alignment
    and with or without the POPCNT instruction.  The keyspace is unchanged. *)
Theorem bitcount_correct {host : HostEndian} popcnt addr stack db key args s range :
  str_at db key s -> 8 * zlen s < 2 ^ 63 -> bitcount_args args = Ok (inr range) ->
  bitcountCommand popcnt addr stack db key args = Ok (db, ReplyInt (bitcount_spec s range)).
Proof. apply bitcount_ok. Qed.

Definition sample_db : redisDb := mkDb {[ [107] := KvString (ObjSds [255; 0; 15]) ]} 0.

Lemma sample_str : str_at sample_db [107] [255; 0; 15].
Proof. split; [done|]. repeat constructor; unfold is_byte; lia. Qed.

Lemma bitcount_correct_witness :
  bitcountCommand (host := false) true 5 0 sample_db [107] (map chars ["5"; "-2"; "BIT"]%string)
  = Ok (sample_db, ReplyInt 6).
Proof.
  apply (bitcount_correct (host := false) true 5 0 sample_db [107] _ [255; 0; 15] (Some (5, -2, true))
    sample_str ltac:(unfold zlen; simpl; lia)). vm_compute. reflexivity.
Defined.

(** C29: BITPOS replies the position of the first bit equal to its argument in
    the range; when there is none it replies -1, or, looking for a zero with no
    explicit end, the position just after the range; an empty range gives -1
    and a missing key counts as zeros.  The keyspace is unchanged. *)
Theorem bitpos_correct {host : HostEndian} addr stack db key bitarg args s (b : bool) range :
  str_at db key s -> 8 * zlen s < 2 ^ 63 ->
  getLongFromObjectOrReply bitarg NotAnInteger = Ok (inr (b2z b)) -> bitpos_args args = Ok (inr range) ->
  bitposCommand addr stack db key bitarg args
  = Ok (db, ReplyInt (bitpos_answer (bool_decide (dbFind db key = None)) b s range)).
Proof. apply bitpos_ok. Qed.

Lemma bitpos_correct_witness :
  bitposCommand (host := false) 5 0 sample_db [107] (chars "1") (map chars ["9"; "-1"; "bit"]%string)
  = Ok (sample_db, ReplyInt 20).
Proof.
  apply (bitpos_correct (host := false) 5 0 sample_db [107] (chars "1") _ [255; 0; 15] true (Some (9, Some (-1), true))
    sample_str ltac:(unfold zlen; simpl; lia)); vm_compute; reflexivity.
Defined.
