(* ===== verification/BitOp.v ===== *)
(** BitOp: the BITOP command of src/redis-stable/src/bitops.c (bitopCommand):
    the loop over blocks of four words, the loop over the remaining bytes with
    its early exits, and the command around them.  The AVX2 variant is made of
    compiler intrinsics and is not modelled: as in a build without it,
    [useAVX2] is 0.  [aligned] is whether USE_ALIGNED_ACCESS is defined, which
    removes the word loop. *)

From Stdlib Require Import ZArith Lia Bool String.
From stdpp Require Import base list numbers decidable gmap.
From S2P Require Import Prelude Bytes Numbers Objects Bitops BitCommands.

Local Open Scope Z_scope.

Inductive bitop :=
  | BITOP_AND | BITOP_OR | BITOP_XOR | BITOP_NOT
  | BITOP_DIFF | BITOP_DIFF1 | BITOP_ANDOR | BITOP_ONE.

#[global] Instance bitop_eq_dec : EqDecision bitop.
Proof. solve_decision. Defined.

(** The operations that combine the first key with the disjunction of the others. *)
Definition is_diff (op : bitop) : bool :=
  match op with BITOP_DIFF | BITOP_DIFF1 | BITOP_ANDOR => true | _ => false end.

(** The test of the first letter is implied by the comparison of the name. *)
Definition bitop_parse (opname : list Z) : cmd bitop :=
  if strcaseeq opname "and" then retc BITOP_AND
  else if strcaseeq opname "or" then retc BITOP_OR
  else if strcaseeq opname "xor" then retc BITOP_XOR
  else if strcaseeq opname "not" then retc BITOP_NOT
  else if strcaseeq opname "diff" then retc BITOP_DIFF
  else if strcaseeq opname "diff1" then retc BITOP_DIFF1
  else if strcaseeq opname "andor" then retc BITOP_ANDOR
  else if strcaseeq opname "one" then retc BITOP_ONE
  else failc SyntaxErr.

Section bitop.
Context {host : HostEndian}.

(** * Words *)

Definition st64 (res : list Z) (off w : Z) : result (list Z) := wrn res off (store 8 w).

(** [lres[w] = f(lres[w], lp[i][k+w])] *)
Definition word_op (f : Z -> Z -> Z) (src : list Z) (off : Z) (res : list Z) : result (list Z) :=
  let* a := ld64 res off in
  let* b := ld64 src off in
  st64 res off (f a b).

(** The same line for the words 0 to 3. *)
Definition four (g : Z -> list Z -> result (list Z)) (off : Z) (res : list Z) : result (list Z) :=
  let* res := g off res in
  let* res := g (off + 8) res in
  let* res := g (off + 16) res in
  g (off + 24) res.

(** [for (i = 1; i < numkeys; i++)] *)
Fixpoint fold_words (f : Z -> Z -> Z) (srcs : list (list Z)) (off : Z) (res : list Z) : result (list Z) :=
  match srcs with
  | [] => Ok res
  | src :: srcs =>
      let* res := four (word_op f src) off res in
      fold_words f srcs off res
  end.

Definition not_word (off : Z) (res : list Z) : result (list Z) :=
  let* a := ld64 res off in
  st64 res off (u64 (Z.lnot a)).

(** BITOP_ONE: one source into [lcommon_bits] and [lres]. *)
Definition common_word (src res : list Z) (off c : Z) : result Z :=
  let* a := ld64 res off in
  let* b := ld64 src off in
  Ok (Z.lor c (Z.land a b)).

Fixpoint one_words (srcs : list (list Z)) (off : Z) (res : list Z) (c0 c1 c2 c3 : Z)
  : result (list Z * (Z * Z * Z * Z)) :=
  match srcs with
  | [] => Ok (res, (c0, c1, c2, c3))
  | src :: srcs =>
      let* c0 := common_word src res off c0 in
      let* c1 := common_word src res (off + 8) c1 in
      let* c2 := common_word src res (off + 16) c2 in
      let* c3 := common_word src res (off + 24) c3 in
      let* res := four (word_op Z.lxor src) off res in
      one_words srcs off res c0 c1 c2 c3
  end.

Definition clear_word (off c : Z) (res : list Z) : result (list Z) :=
  let* a := ld64 res off in
  st64 res off (Z.land a (u64 (Z.lnot c))).

Definition one_round (srcs : list (list Z)) (off : Z) (res : list Z) : result (list Z) :=
  let* (res, (c0, c1, c2, c3)) := one_words srcs off res 0 0 0 0 in
  let* res := clear_word off c0 res in
  let* res := clear_word (off + 8) c1 res in
  let* res := clear_word (off + 16) c2 res in
  clear_word (off + 24) c3 res.

(** The body of the loop of each operation. *)
Definition word_round (op : bitop) (srcs : list (list Z)) (off : Z) (res : list Z) : result (list Z) :=
  match op with
  | BITOP_AND => fold_words Z.land srcs off res
  | BITOP_OR => fold_words Z.lor srcs off res
  | BITOP_XOR => fold_words Z.lxor srcs off res
  | BITOP_NOT => four not_word off res
  | BITOP_DIFF | BITOP_DIFF1 | BITOP_ANDOR => fold_words Z.lor srcs off res
  | BITOP_ONE => one_round srcs off res
  end.

(** [while(minlen >= sizeof(unsigned long)*4)]: the bytes done and the result. *)
Fixpoint word_loop (fuel : nat) (round : Z -> list Z -> result (list Z)) (j minlen : Z) (res : list Z)
  : result (list Z * Z) :=
  if minlen >=? 32 then
    match fuel with
    | O => Err OutOfFuel
    | S fuel =>
        let* res := round j res in
        word_loop fuel round (j + 32) (minlen - 32) res
    end
  else Ok (res, j).

(** The second pass of DIFF, DIFF1 and ANDOR, against the first key. *)
Definition first_word (op : bitop) (a r : Z) : Z :=
  match op with
  | BITOP_DIFF => Z.land a (u64 (Z.lnot r))
  | BITOP_DIFF1 => Z.land (u64 (Z.lnot a)) r
  | _ => Z.land a r
  end.

Fixpoint first_loop (fuel : nat) (op : bitop) (first : list Z) (i processed : Z) (res : list Z) : result (list Z) :=
  if i <? processed then
    match fuel with
    | O => Err OutOfFuel
    | S fuel =>
        let* res := four (word_op (fun r a => first_word op a r) first) i res in
        first_loop fuel op first (i + 32) processed res
    end
  else Ok res.

(** The fast path, from the zeroed result. *)
Definition bitop_fast (op : bitop) (src0 : list Z) (srcs : list (list Z)) (minlen : Z) (res : list Z)
  : result (list Z * Z) :=
  let* res := (if negb (is_diff op) then let* p := rdn src0 0 minlen in wrn res 0 p else Ok res) in
  let* (res, j) := word_loop (Z.to_nat minlen) (word_round op srcs) 0 minlen res in
  if is_diff op then
    let* res := first_loop (Z.to_nat minlen) op src0 0 j res in
    Ok (res, j)
  else Ok (res, j).

(** * Bytes *)

Definition byte_at (src : list Z) (j : Z) : result Z := if zlen src <=? j then Ok 0 else rd1 src j.

(** One source: output, disjunction, common bits, and whether to stop. *)
Definition byte_step (op : bitop) (byte output disjunction common : Z) : Z * Z * Z * bool :=
  match op with
  | BITOP_AND => let output := Z.land output byte in (output, disjunction, common, output =? 0)
  | BITOP_OR => let output := Z.lor output byte in (output, disjunction, common, output =? 0xff)
  | BITOP_XOR => (Z.lxor output byte, disjunction, common, false)
  | BITOP_DIFF | BITOP_DIFF1 | BITOP_ANDOR =>
      let disjunction := Z.lor disjunction byte in (output, disjunction, common, disjunction =? 0xff)
  | BITOP_ONE =>
      let common := Z.lor common (Z.land output byte) in
      let output := Z.lxor output byte in
      let output := Z.land output (u8 (Z.lnot common)) in
      (output, disjunction, common, common =? 0xff)
  | BITOP_NOT => (output, disjunction, common, false)
  end.

Fixpoint byte_inner (op : bitop) (srcs : list (list Z)) (j output disjunction common : Z) : result (Z * Z) :=
  match srcs with
  | [] => Ok (output, disjunction)
  | src :: srcs =>
      let* byte := byte_at src j in
      let '(output, disjunction, common, skip) := byte_step op byte output disjunction common in
      if skip then Ok (output, disjunction) else byte_inner op srcs j output disjunction common
  end.

Definition byte_result (op : bitop) (output disjunction : Z) : Z :=
  match op with
  | BITOP_DIFF => Z.land output (u8 (Z.lnot disjunction))
  | BITOP_DIFF1 => Z.land (u8 (Z.lnot output)) disjunction
  | BITOP_ANDOR => Z.land output disjunction
  | _ => output
  end.

(** [for (; j < maxlen; j++)] *)
Fixpoint byte_loop (fuel : nat) (op : bitop) (src0 : list Z) (srcs : list (list Z)) (j maxlen : Z) (res : list Z)
  : result (list Z) :=
  if j <? maxlen then
    match fuel with
    | O => Err OutOfFuel
    | S fuel =>
        let* output := byte_at src0 j in
        let output := if bool_decide (op = BITOP_NOT) then u8 (Z.lnot output) else output in
        let* (output, disjunction) := byte_inner op srcs j output 0 0 in
        let* res := wr1 res j (byte_result op output disjunction) in
        byte_loop fuel op src0 srcs (j + 1) maxlen res
    end
  else Ok res.

(** * The command *)

Definition bitop_compute (aligned : bool) (op : bitop) (src0 : list Z) (srcs : list (list Z)) (minlen maxlen : Z)
  : result (list Z) :=
  let res := replicate (Z.to_nat maxlen) 0 in
  let* (res, j) :=
    (if negb aligned && (minlen >=? 32) then bitop_fast op src0 srcs minlen res else Ok (res, 0)) in
  byte_loop (Z.to_nat maxlen) op src0 srcs j maxlen res.

(** The loop that looks the keys up: the strings, the shortest and the longest
    length; [j] is the index of the next key. *)
Fixpoint bitop_lookup (db : redisDb) (keys : list (list Z)) (j : Z) (minlen maxlen : Z) : cmd (list (list Z) * Z * Z) :=
  match keys with
  | [] => retc ([], minlen, maxlen)
  | key :: keys =>
      let! o := checkString (dbFind db key) in
      match o with
      | None =>
          let! (srcs, minlen, maxlen) := bitop_lookup db keys (j + 1) 0 maxlen in
          retc ([] :: srcs, minlen, maxlen)
      | Some o =>
          let* s := getDecodedObject o in
          let maxlen := if zlen s >? maxlen then zlen s else maxlen in
          let minlen := if (j =? 0) || (zlen s <? minlen) then zlen s else minlen in
          let! (srcs, minlen, maxlen) := bitop_lookup db keys (j + 1) minlen maxlen in
          retc (s :: srcs, minlen, maxlen)
      end
  end.

Definition bitopCommand (aligned : bool) (db : redisDb) (opname target : list Z) (keys : list (list Z))
  : result (redisDb * reply) :=
  answer db
    (let! op := bitop_parse opname in
     if bool_decide (op = BITOP_NOT) && negb (zlen keys =? 1) then failc NotSingleKeyErr
     else if is_diff op && (zlen keys <? 2) then failc TwoKeysErr
     else
       let! (srcs, minlen, maxlen) := bitop_lookup db keys 0 0 0 in
       if negb (maxlen =? 0) then
         match srcs with
         | [] => Err OutOfBounds
         | src0 :: srcs =>
             let* res := bitop_compute aligned op src0 srcs minlen maxlen in
             retc (add_dirty (setKey db target (ObjSds res)) 1, ReplyInt maxlen)
         end
       else
         let '(db', deleted) := dbDelete db target in
         retc (if deleted : bool then add_dirty db' 1 else db', ReplyInt maxlen)).
End bitop.
