(* ===== verification/BitOpProofs.v ===== *)
(** BitOpProofs: BITOP computes its operation on every bit of the sources,
    padded with zeros to the longest, whichever loop handles it. *)

From Stdlib Require Import ZArith Lia Bool String.
From stdpp Require Import base list numbers decidable gmap.
From S2P Require Import Prelude Bytes Numbers Objects Bitops BitopsProofs BitfieldProofs BitCommands BitfieldCommand BitOp.

Local Open Scope Z_scope.

(** * Bitwise functions on words *)

(** [f] works on the bits of [w]-bit words as [g]. *)
Definition bitwise (w : Z) (f : Z -> Z -> Z) (g : bool -> bool -> bool) : Prop :=
  forall a b, 0 <= a < 2 ^ w -> 0 <= b < 2 ^ w ->
    0 <= f a b < 2 ^ w /\ forall n, 0 <= n < w -> Z.testbit (f a b) n = g (Z.testbit a n) (Z.testbit b n).

Lemma bits_range w x : 0 <= w -> (forall n, w <= n -> Z.testbit x n = false) -> 0 <= x -> x < 2 ^ w.
Proof.
  intros Hw H Hx. replace x with (x mod 2 ^ w); [apply Z.mod_pos_bound, Z.pow_pos_nonneg; lia|].
  apply Z.bits_inj'. intros n Hn. destruct (Z.lt_ge_cases n w).
  - by apply Z.mod_pow2_bits_low.
  - rewrite Z.mod_pow2_bits_high by lia. by rewrite H.
Qed.

Lemma high_bits w x n : 0 <= x < 2 ^ w -> 0 <= w <= n -> Z.testbit x n = false.
Proof. intros Hx Hn. rewrite <- (Z.mod_small x (2 ^ w)) by done. apply Z.mod_pow2_bits_high. lia. Qed.

Lemma bitwise_land w : 0 <= w -> bitwise w Z.land andb.
Proof.
  intros Hw a b Ha Hb. split; [|intros; apply Z.land_spec]. split; [apply Z.land_nonneg; lia|].
  apply bits_range; [done| |apply Z.land_nonneg; lia]. intros n Hn. rewrite Z.land_spec. by rewrite (high_bits w a).
Qed.

Lemma bitwise_lor w : 0 <= w -> bitwise w Z.lor orb.
Proof.
  intros Hw a b Ha Hb. split; [|intros; apply Z.lor_spec]. split; [apply Z.lor_nonneg; lia|].
  apply bits_range; [done| |apply Z.lor_nonneg; lia]. intros n Hn. rewrite Z.lor_spec.
  by rewrite (high_bits w a), (high_bits w b).
Qed.

Lemma bitwise_lxor w : 0 <= w -> bitwise w Z.lxor xorb.
Proof.
  intros Hw a b Ha Hb. assert (0 <= Z.lxor a b) by (apply Z.lxor_nonneg; lia).
  split; [|intros; apply Z.lxor_spec]. split; [done|].
  apply bits_range; [done| |done]. intros n Hn. rewrite Z.lxor_spec. by rewrite (high_bits w a), (high_bits w b).
Qed.

Lemma lnot_range w x : 0 <= w -> 0 <= wrapU w (Z.lnot x) < 2 ^ w.
Proof. apply wrapU_range. Qed.

Lemma lnot_bit w x n : 0 <= n < w -> Z.testbit (wrapU w (Z.lnot x)) n = negb (Z.testbit x n).
Proof. intros Hn. unfold wrapU. rewrite Z.mod_pow2_bits_low by lia. apply Z.lnot_spec. lia. Qed.

Lemma bitwise_andnot w : 0 <= w -> bitwise w (fun a b => Z.land a (wrapU w (Z.lnot b))) (fun a b => a && negb b).
Proof.
  intros Hw a b Ha Hb. destruct (bitwise_land w Hw a _ Ha (lnot_range w b Hw)) as [H1 H2].
  split; [done|]. intros n Hn. by rewrite H2, lnot_bit.
Qed.

Lemma bitwise_notand w : 0 <= w -> bitwise w (fun a b => Z.land (wrapU w (Z.lnot a)) b) (fun a b => negb a && b).
Proof.
  intros Hw a b Ha Hb. destruct (bitwise_land w Hw _ b (lnot_range w a Hw) Hb) as [H1 H2].
  split; [done|]. intros n Hn. by rewrite H2, lnot_bit.
Qed.

Lemma bitwise_flip w f g : bitwise w f g -> bitwise w (fun a b => f b a) (fun a b => g b a).
Proof. intros H a b Ha Hb. by apply H. Qed.

(** The bits of the little-endian value of bytes. *)
Lemma le_val_bit l n : Forall is_byte l -> 0 <= n ->
  Z.testbit (le_val l) n = Z.testbit (zbyte l (Z.to_nat (n / 8))) (n mod 8).
Proof.
  intros Hl. revert n. induction Hl as [|x l Hx Hl IH]; intros n Hn.
  { cbn. unfold zbyte. rewrite lookup_nil. by rewrite !Z.bits_0. }
  cbn [le_val]. unfold is_byte in Hx.
  assert (x + 256 * le_val l = Z.lor x (Z.shiftl (le_val l) 8)) as ->.
  { rewrite lor_disjoint by (change (2 ^ 8) with 256; lia). change (2 ^ 8) with 256. lia. }
  rewrite Z.lor_spec, Z.shiftl_spec by done. destruct (Z.lt_ge_cases n 8) as [H8|H8].
  - rewrite (Z.testbit_neg_r _ (n - 8)), orb_false_r by lia. by rewrite Z.div_small, Z.mod_small by lia.
  - rewrite (high_bits 8 x n) by (change (2 ^ 8) with 256; lia). cbn [orb]. rewrite IH by lia.
    assert (n / 8 = (n - 8) / 8 + 1 /\ n mod 8 = (n - 8) mod 8) as [-> ->].
    { split; replace n with ((n - 8) + 1 * 8) at 1 by lia; [by rewrite Z.div_add | by rewrite Z.mod_add]. }
    assert (0 <= (n - 8) / 8) by (apply Z.div_pos; lia). rewrite Z2Nat.inj_add by lia.
    change (Z.to_nat 1) with 1%nat. unfold zbyte. by rewrite Nat.add_1_r.
Qed.

Lemma zip_bytes f g a b : bitwise 8 f g -> Forall is_byte a -> Forall is_byte b -> Forall is_byte (zip_with f a b).
Proof.
  intros Hf Ha. revert b. induction Ha as [|x a Hx _ IH]; intros [|y b] Hb; try constructor.
  - apply Forall_cons_1 in Hb as [Hy _]. unfold is_byte in *. apply (Hf x y); by change (2 ^ 8) with 256.
  - apply IH. by apply Forall_cons_1 in Hb as [_ ?].
Qed.

Lemma le_val_zip f f8 g a b :
  bitwise 64 f g -> bitwise 8 f8 g -> Forall is_byte a -> Forall is_byte b -> length a = 8%nat -> length b = 8%nat ->
  f (le_val a) (le_val b) = le_val (zip_with f8 a b).
Proof.
  intros Hf Hf8 Ha Hb Hla Hlb. pose proof (le_val_range a Ha) as Ra. pose proof (le_val_range b Hb) as Rb.
  pose proof (zip_bytes f8 g a b Hf8 Ha Hb) as Hz. pose proof (le_val_range _ Hz) as Rz.
  unfold zlen in *. rewrite length_zip_with_l_eq in Rz by congruence. rewrite Hla, Hlb in *. change (8 * Z.of_nat 8) with 64 in *.
  destruct (Hf _ _ Ra Rb) as [Hr Hbit]. apply Z.bits_inj'. intros n Hn.
  destruct (Z.lt_ge_cases n 64) as [Hlt|Hge]; [|rewrite (high_bits 64 (f _ _)) by (done || lia); rewrite (high_bits 64) by (done || lia); done].
  rewrite Hbit by lia. rewrite !le_val_bit by done.
  assert (Z.to_nat (n / 8) < 8)%nat as Hi.
  { assert (n / 8 < 8) by (apply Z.div_lt_upper_bound; lia). assert (0 <= n / 8) by (apply Z.div_pos; lia). lia. }
  set (i := Z.to_nat (n / 8)) in *. unfold zbyte. rewrite lookup_zip_with.
  destruct (lookup_lt_is_Some_2 a i ltac:(lia)) as [x Hx]. destruct (lookup_lt_is_Some_2 b i ltac:(lia)) as [y Hy].
  rewrite Hx, Hy. cbn. pose proof (list.Forall_lookup_1 _ _ _ _ Ha Hx) as Bx. pose proof (list.Forall_lookup_1 _ _ _ _ Hb Hy) as By.
  destruct (Hf8 x y) as [_ H8]; [done | done |]. symmetry. apply H8. by apply Z.mod_pos_bound.
Qed.

Lemma reverse_zip (f : Z -> Z -> Z) (a : list Z) : forall b, length a = length b ->
  reverse (zip_with f a b) = zip_with f (reverse a) (reverse b).
Proof.
  induction a as [|x a IH]; intros [|y b] H; try done. cbn [zip_with]. rewrite !reverse_cons, IH by (cbn in H; lia).
  rewrite zip_with_app; [done|]. rewrite !length_reverse. cbn in H. lia.
Qed.

Section word.
Context {host : HostEndian}.

Lemma store_le_val (l : list Z) : Forall is_byte l -> length l = 8%nat -> store 8 (load l) = l.
Proof.
  intros Hl E. unfold store, load. destruct host_is_be.
  - rewrite <- (length_reverse l) in E. rewrite <- E, le_bytes_val by (by apply Forall_reverse). by rewrite reverse_involutive.
  - rewrite <- E. by apply le_bytes_val.
Qed.

Lemma store_zip f f8 g a b :
  bitwise 64 f g -> bitwise 8 f8 g -> Forall is_byte a -> Forall is_byte b -> length a = 8%nat -> length b = 8%nat ->
  store 8 (f (load a) (load b)) = zip_with f8 a b.
Proof.
  intros Hf Hf8 Ha Hb Hla Hlb. rewrite <- (store_le_val (zip_with f8 a b)); cycle 1.
  { by eapply zip_bytes. }
  { rewrite length_zip_with_l_eq; congruence. }
  f_equal. unfold load. destruct host_is_be; [|by eapply le_val_zip].
  rewrite reverse_zip by congruence. eapply le_val_zip; try done; rewrite ?length_reverse; try done; by apply Forall_reverse.
Qed.
End word.

(** * Updating a block of bytes, byte by byte *)

Definition upd (off n : Z) (phi : nat -> Z -> Z) (res : list Z) : list Z :=
  imap (fun i x => if decide (off <= Z.of_nat i < off + n) then phi i x else x) res.

Lemma upd_lookup off n phi res i :
  upd off n phi res !! i = (fun x => if decide (off <= Z.of_nat i < off + n) then phi i x else x) <$> res !! i.
Proof. apply list_lookup_imap. Qed.

Lemma length_upd off n phi res : length (upd off n phi res) = length res.
Proof. apply length_imap. Qed.

Lemma zlen_upd off n phi res : zlen (upd off n phi res) = zlen res.
Proof. unfold zlen. by rewrite length_upd. Qed.

Lemma upd_comp off n phi psi res :
  upd off n phi (upd off n psi res) = upd off n (fun i x => phi i (psi i x)) res.
Proof.
  apply list_eq. intros i. rewrite !upd_lookup. destruct (res !! i); [|done]. cbn. by destruct (decide _).
Qed.

Lemma upd_adj off n m phi res :
  0 <= n -> 0 <= m -> upd (off + n) m phi (upd off n phi res) = upd off (n + m) phi res.
Proof.
  intros Hn Hm. apply list_eq. intros i. rewrite !upd_lookup. destruct (res !! i); [|done]. cbn. f_equal.
  repeat destruct (decide _); done || lia.
Qed.

Lemma upd_ext off n phi psi res :
  (forall i x, off <= Z.of_nat i < off + n -> res !! i = Some x -> phi i x = psi i x) -> upd off n phi res = upd off n psi res.
Proof.
  intros H. apply list_eq. intros i. rewrite !upd_lookup. destruct (res !! i) eqn:E; [|done]. cbn. f_equal.
  destruct (decide _); [by apply H | done].
Qed.

Lemma upd_empty off n phi res : n <= 0 -> upd off n phi res = res.
Proof.
  intros Hn. apply list_eq. intros i. rewrite upd_lookup. destruct (res !! i); [|done]. cbn.
  by rewrite decide_False by lia.
Qed.

(** Byte functions keep bytes. *)
Definition on_bytes (phi : nat -> Z -> Z) : Prop := forall i x, is_byte x -> is_byte (phi i x).

Lemma upd_bytes off n phi res : on_bytes phi -> Forall is_byte res -> Forall is_byte (upd off n phi res).
Proof.
  intros Hp Hr. apply Forall_lookup_2. intros i x. rewrite upd_lookup.
  destruct (res !! i) eqn:E; [|done]. pose proof (list.Forall_lookup_1 _ _ _ _ Hr E) as Hx. cbn. intros [= <-].
  destruct (decide _); [by apply Hp | done].
Qed.

(** The eight bytes [c] gives for a word. *)
Definition cells (c : nat -> Z) (off : Z) : list Z := map (fun k => c (Z.to_nat off + k)%nat) (seq 0 8).

Lemma length_cells c off : length (cells c off) = 8%nat.
Proof. done. Qed.

Lemma cells_lookup c off k : (k < 8)%nat -> cells c off !! k = Some (c (Z.to_nat off + k)%nat).
Proof. intros Hk. unfold cells. by rewrite list_lookup_fmap, lookup_seq_lt. Qed.

Lemma cells_bytes c off : (forall i, is_byte (c i)) -> Forall is_byte (cells c off).
Proof. intros H. unfold cells. apply Forall_fmap, Forall_true. intros k. apply H. Qed.

Lemma seg_cells s off : 0 <= off -> off + 8 <= zlen s -> seg s off 8 = cells (zbyte s) off.
Proof.
  intros Ho Hs. apply list_eq_same_length with 8%nat; [done | by rewrite seg_length by lia |].
  intros k x y Hk. rewrite cells_lookup by done. unfold seg, zbyte. rewrite lookup_take_lt, lookup_drop by (cbn; lia).
  intros Hx [= <-]. by rewrite Hx.
Qed.

Lemma cells_zip f8 c d off : zip_with f8 (cells c off) (cells d off) = cells (fun i => f8 (c i) (d i)) off.
Proof. reflexivity. Qed.

(** Writing eight bytes. *)
Lemma wrn_cells c (res : list Z) off :
  0 <= off -> off + 8 <= zlen res -> wrn res off (cells c off) = Ok (upd off 8 (fun i _ => c i) res).
Proof.
  intros Ho Hr. unfold wrn. change (zlen (cells c off)) with 8. dec_bool. f_equal.
  apply list_eq. intros i. rewrite upd_lookup. rewrite length_cells.
  destruct (decide (i < Z.to_nat off)%nat) as [H1|H1].
  - rewrite lookup_app_l by (rewrite length_take; unfold zlen in *; lia). rewrite lookup_take_lt by done.
    destruct (res !! i); [|done]. cbn. by rewrite decide_False by lia.
  - rewrite lookup_app_r by (rewrite length_take; lia). rewrite length_take, Nat.min_l by (unfold zlen in *; lia).
    destruct (decide (i < Z.to_nat off + 8)%nat) as [H2|H2].
    + rewrite lookup_app_l by (rewrite length_cells; lia). rewrite cells_lookup by lia.
      replace (Z.to_nat off + (i - Z.to_nat off))%nat with i by lia.
      destruct (lookup_lt_is_Some_2 res i ltac:(unfold zlen in *; lia)) as [x ->]. cbn. by rewrite decide_True by lia.
    + rewrite lookup_app_r by (rewrite length_cells; lia). rewrite lookup_drop, length_cells.
      match goal with |- res !! ?k = _ => replace k with i by lia end.
      destruct (res !! i); [|done]. cbn. by rewrite decide_False by lia.
Qed.

Lemma upd_zbyte off n (phi : nat -> Z -> Z) res : upd off n (fun i _ => phi i (zbyte res i)) res = upd off n phi res.
Proof. apply upd_ext. intros i x _ Hx. unfold zbyte. by rewrite Hx. Qed.

(** * The word loops, byte by byte *)

Section rounds.
Context {host : HostEndian}.

(** [g] updates a block of [n] bytes as [phi], as long as it stays below [lim]. *)
Definition pw (n lim : Z) (phi : nat -> Z -> Z) (g : Z -> list Z -> result (list Z)) : Prop :=
  on_bytes phi /\
  forall off res, 0 <= off -> off + n <= lim -> lim <= zlen res -> Forall is_byte res ->
    g off res = Ok (upd off n phi res).

Definition src_ok (lim : Z) (src : list Z) : Prop := lim <= zlen src /\ Forall is_byte src.

Lemma zbyte_byte s i : Forall is_byte s -> is_byte (zbyte s i).
Proof.
  intros H. unfold zbyte. destruct (s !! i) eqn:E; [exact (list.Forall_lookup_1 _ _ _ _ H E) | by unfold is_byte].
Qed.

Lemma bitwise8_byte f g x y : bitwise 8 f g -> is_byte x -> is_byte y -> is_byte (f x y).
Proof. intros H Hx Hy. apply (H x y Hx Hy). Qed.

Lemma word_op_pw f f8 g lim src :
  bitwise 64 f g -> bitwise 8 f8 g -> src_ok lim src -> pw 8 lim (fun i x => f8 x (zbyte src i)) (word_op f src).
Proof.
  intros Hf Hf8 [Hl Hs]. split; [intros i x Hx; eapply bitwise8_byte; [done | done | by apply zbyte_byte]|].
  intros off res Ho Hn Hlim Hr. unfold word_op, ld64, st64. rewrite !rdn_seg by lia. runr.
  rewrite !seg_cells by lia.
  rewrite (store_zip f f8 g) by (done || apply cells_bytes; intros; by apply zbyte_byte).
  rewrite cells_zip, wrn_cells by lia. f_equal. apply (upd_zbyte off 8 (fun i x => f8 x (zbyte src i))).
Qed.

Lemma not_word_pw lim : pw 8 lim (fun _ x => u8 (Z.lnot x)) not_word.
Proof.
  split; [intros i x Hx; by apply (lnot_range 8)|].
  intros off res Ho Hn Hlim Hr. unfold not_word, ld64, st64. rewrite !rdn_seg by lia. runr.
  assert (forall w, 0 <= w -> bitwise w (fun a _ => wrapU w (Z.lnot a)) (fun a _ => negb a)) as Hb.
  { intros w Hw a b _ _. split; [by apply wrapU_range|]. intros n Hb. by apply lnot_bit. }
  rewrite !seg_cells by lia. set (c := cells (zbyte res) off).
  rewrite (store_zip (fun a _ => u64 (Z.lnot a)) (fun a _ => u8 (Z.lnot a)) (fun a _ => negb a) c c);
    [|by apply Hb | by apply Hb | apply cells_bytes; intros; by apply zbyte_byte.. | done | done].
  unfold c. rewrite cells_zip, wrn_cells by lia. f_equal. apply (upd_zbyte off 8 (fun _ x => u8 (Z.lnot x))).
Qed.

Lemma four_pw lim phi g : pw 8 lim phi g -> pw 32 lim phi (four g).
Proof.
  intros [Hb Hg]. split; [done|]. intros off res Ho Hn Hlim Hr. unfold four.
  rewrite Hg by (done || lia). runr. rewrite Hg by (rewrite ?zlen_upd; lia || by apply upd_bytes). runr.
  rewrite upd_adj by lia. rewrite Hg by (rewrite ?zlen_upd; lia || by apply upd_bytes). runr.
  replace (off + 16) with (off + (8 + 8)) by lia. rewrite upd_adj by lia.
  rewrite Hg by (rewrite ?zlen_upd; lia || by apply upd_bytes).
  replace (off + 24) with (off + (8 + 8 + 8)) by lia. rewrite upd_adj by lia. done.
Qed.

Lemma fold_words_pw f f8 g lim srcs :
  bitwise 64 f g -> bitwise 8 f8 g -> Forall (src_ok lim) srcs ->
  pw 32 lim (fun i x => fold_left (fun x s => f8 x (zbyte s i)) srcs x) (fold_words f srcs).
Proof.
  intros Hf Hf8 Hs. induction Hs as [|src srcs Hsrc _ [IHb IH]].
  { split; [by intros i x Hx|]. intros off res _ _ _ _. cbn. f_equal. symmetry.
    apply list_eq. intros i. rewrite upd_lookup. destruct (res !! i); [|done]. cbn. by destruct (decide _). }
  destruct (four_pw _ _ _ (word_op_pw f f8 g lim src Hf Hf8 Hsrc)) as [Hb1 H1].
  split; [intros i x Hx; apply (IHb i), (Hb1 i x Hx)|].
  intros off res Ho Hn Hlim Hr. cbn [fold_words]. rewrite H1 by done. runr.
  rewrite IH by (rewrite ?zlen_upd; done || by apply upd_bytes). by rewrite upd_comp.
Qed.

(** The loop over blocks of 32 bytes. *)
Lemma word_loop_pw lim phi round : pw 32 lim phi round -> forall fuel j m res,
  0 <= j -> 0 <= m -> j + m = lim -> m <= Z.of_nat fuel -> lim <= zlen res -> Forall is_byte res ->
  word_loop fuel round j m res = Ok (upd j (32 * (m / 32)) phi res, j + 32 * (m / 32)).
Proof.
  intros [Hb Hg]. induction fuel as [|fuel IH]; intros j m res Hj Hm Hjm Hf Hlim Hr; cbn [word_loop]; rewrite Z.geb_leb.
  - assert (m = 0) as -> by lia. change (32 <=? 0) with false. change (32 * (0 / 32)) with 0.
    rewrite upd_empty by lia. by rewrite Z.add_0_r.
  - destruct (Z.leb_spec 32 m) as [H32|H32].
    + rewrite Hg by (done || lia). runr. rewrite IH by (rewrite ?zlen_upd; done || lia || by apply upd_bytes).
      assert (m / 32 = (m - 32) / 32 + 1) as ->.
      { replace m with ((m - 32) + 1 * 32) at 1 by lia. by rewrite Z.div_add. }
      assert (0 <= (m - 32) / 32) by (apply Z.div_pos; lia).
      rewrite upd_adj by lia. do 2 f_equal; [f_equal; lia | lia].
    + rewrite Z.div_small by lia. rewrite Z.mul_0_r, upd_empty by lia. by rewrite Z.add_0_r.
Qed.

Lemma first_word_bitwise op w : 0 <= w ->
  bitwise w (fun a r => match op with
                        | BITOP_DIFF => Z.land a (wrapU w (Z.lnot r))
                        | BITOP_DIFF1 => Z.land (wrapU w (Z.lnot a)) r
                        | _ => Z.land a r
                        end)
            (fun a r => match op with BITOP_DIFF => a && negb r | BITOP_DIFF1 => negb a && r | _ => a && r end).
Proof.
  intros Hw. destruct op; first [by apply bitwise_andnot | by apply bitwise_notand | by apply bitwise_land].
Qed.

Lemma first_loop_pw lim op first : src_ok lim first -> forall fuel i q res,
  0 <= i -> 0 <= q -> i + 32 * q <= lim -> q <= Z.of_nat fuel -> lim <= zlen res -> Forall is_byte res ->
  first_loop fuel op first i (i + 32 * q) res = Ok (upd i (32 * q) (fun i x => byte_result op (zbyte first i) x) res)
  \/ is_diff op = false.
Proof.
  intros Hs. destruct (is_diff op) eqn:Ed; [|by right].
  assert (pw 32 lim (fun i x => byte_result op (zbyte first i) x) (four (word_op (fun r a => first_word op a r) first))) as [Hb Hg].
  { apply four_pw. pose proof (word_op_pw (fun r a => first_word op a r) (fun r a => byte_result op a r)
      (fun r a => match op with BITOP_DIFF => a && negb r | BITOP_DIFF1 => negb a && r | _ => a && r end) lim first) as H.
    apply H; [| |done]; destruct op; try done; apply bitwise_flip;
      first [by apply bitwise_andnot | by apply bitwise_notand | by apply bitwise_land]. }
  induction fuel as [|fuel IH]; intros i q res Hi Hq Hl Hf Hlim Hr; left; cbn [first_loop].
  - assert (q = 0) as -> by lia. rewrite Z.add_0_r, Z.ltb_irrefl, upd_empty by lia. done.
  - destruct (Z.ltb_spec i (i + 32 * q)).
    + rewrite Hg by (done || lia). runr. replace (i + 32 * q) with ((i + 32) + 32 * (q - 1)) by lia.
      destruct (IH (i + 32) (q - 1) (upd i 32 (fun i x => byte_result op (zbyte first i) x) res)) as [->|];
        [lia | lia | lia | lia | by rewrite zlen_upd | by apply upd_bytes | | done].
      rewrite upd_adj by lia. do 2 f_equal. lia.
    + assert (q = 0) as -> by lia. rewrite upd_empty by lia. done.
Qed.

(** * BITOP_ONE *)

Lemma load_zip f f8 g c d off :
  bitwise 64 f g -> bitwise 8 f8 g -> (forall i, is_byte (c i)) -> (forall i, is_byte (d i)) ->
  f (load (cells c off)) (load (cells d off)) = load (cells (fun i => f8 (c i) (d i)) off).
Proof.
  intros Hf Hf8 Hc Hd. rewrite <- cells_zip. unfold load.
  pose proof (cells_bytes c off Hc). pose proof (cells_bytes d off Hd).
  destruct host_is_be; [|by eapply le_val_zip].
  rewrite reverse_zip by done. eapply le_val_zip; try done; by apply Forall_reverse.
Qed.

Abbreviation cw c off := (load (cells c off)).

Lemma common_word_ok lim src res c off :
  src_ok lim src -> 0 <= off -> off + 8 <= lim -> lim <= zlen res -> Forall is_byte res -> (forall i, is_byte (c i)) ->
  common_word src res off (cw c off)
  = Ok (cw (fun i => Z.lor (c i) (Z.land (zbyte res i) (zbyte src i))) off).
Proof.
  intros [Hl Hs] Ho Hn Hlim Hr Hc. unfold common_word, ld64. rewrite !rdn_seg by lia. runr. rewrite !seg_cells by lia.
  pose proof (fun i => zbyte_byte res i Hr) as Hbr. pose proof (fun i => zbyte_byte src i Hs) as Hbs. f_equal.
  rewrite (load_zip Z.land Z.land andb) by (done || by apply bitwise_land).
  rewrite (load_zip Z.lor Z.lor orb); [done | by apply bitwise_lor | by apply bitwise_lor | done |].
  intros i. by eapply bitwise8_byte; [apply bitwise_land|..].
Qed.

(** One source at one byte: the output and the common bits. *)
Definition one_step (i : nat) (p : Z * Z) (s : list Z) : Z * Z :=
  (Z.lxor p.1 (zbyte s i), Z.lor p.2 (Z.land p.1 (zbyte s i))).

Lemma one_step_byte i p s : Forall is_byte s -> is_byte p.1 -> is_byte p.2 ->
  is_byte (one_step i p s).1 /\ is_byte (one_step i p s).2.
Proof.
  intros Hs H1 H2. pose proof (zbyte_byte s i Hs) as Hb. unfold one_step. cbn [fst snd]. split.
  - by eapply bitwise8_byte; [apply bitwise_lxor|..].
  - eapply bitwise8_byte; [by apply bitwise_lor | done |]. by eapply bitwise8_byte; [apply bitwise_land|..].
Qed.

Lemma one_fold_byte i srcs : Forall (Forall is_byte) srcs -> forall p, is_byte p.1 -> is_byte p.2 ->
  is_byte (fold_left (one_step i) srcs p).1 /\ is_byte (fold_left (one_step i) srcs p).2.
Proof.
  induction 1 as [|s srcs Hs _ IH]; intros p H1 H2; [done|]. cbn [fold_left].
  destruct (one_step_byte i p s Hs H1 H2). by apply IH.
Qed.

Lemma cells_ext c d off : (forall i, off <= Z.of_nat i < off + 8 -> c i = d i) -> 0 <= off -> cells c off = cells d off.
Proof. intros H Ho. unfold cells. apply map_ext_in. intros k Hk%in_seq. apply H. lia. Qed.

Lemma zbyte_upd off n phi res i :
  off <= Z.of_nat i < off + n -> off + n <= zlen res -> zbyte (upd off n phi res) i = phi i (zbyte res i).
Proof.
  intros Hi Hn. unfold zbyte. rewrite upd_lookup.
  destruct (lookup_lt_is_Some_2 res i ltac:(unfold zlen in *; lia)) as [x ->]. cbn. by rewrite decide_True.
Qed.

Lemma one_words_ok lim srcs off : Forall (src_ok lim) srcs -> 0 <= off -> off + 32 <= lim -> forall res c,
  lim <= zlen res -> Forall is_byte res -> (forall i, is_byte (c i)) ->
  let c' i := (fold_left (one_step i) srcs (zbyte res i, c i)).2 in
  one_words srcs off res (cw c off) (cw c (off + 8)) (cw c (off + 16)) (cw c (off + 24))
  = Ok (upd off 32 (fun i x => (fold_left (one_step i) srcs (x, c i)).1) res,
        (cw c' off, cw c' (off + 8), cw c' (off + 16), cw c' (off + 24))).
Proof.
  intros Hs Ho Hn. induction Hs as [|src srcs Hsrc Hs IH]; intros res c Hlim Hr Hc c'; cbn [one_words].
  { do 2 f_equal. symmetry. apply list_eq. intros i. rewrite upd_lookup. destruct (res !! i); [|done]. cbn. by destruct (decide _). }
  rewrite !(common_word_ok lim) by (done || lia). runr.
  destruct (four_pw _ _ _ (word_op_pw Z.lxor Z.lxor xorb lim src (bitwise_lxor 64 ltac:(done)) (bitwise_lxor 8 ltac:(done)) Hsrc)) as [Hb1 H1].
  rewrite H1 by (done || lia). runr. rewrite IH; cycle 1.
  { by rewrite zlen_upd. }
  { by apply upd_bytes. }
  { intros i. destruct Hsrc as [_ Hsb]. exact (proj2 (one_step_byte i (zbyte res i, c i) src Hsb (zbyte_byte res i Hr) (Hc i))). }
  cbv zeta. rewrite upd_comp. f_equal. f_equal.
  - apply upd_ext. intros i x _ Hx. cbn [fold_left].
    assert (zbyte res i = x) as -> by (unfold zbyte; by rewrite Hx). done.
  - assert (forall o, off <= o -> o + 8 <= off + 32 ->
      cells (fun i => (fold_left (one_step i) srcs
         (zbyte (upd off 32 (fun i x => Z.lxor x (zbyte src i)) res) i, Z.lor (c i) (Z.land (zbyte res i) (zbyte src i)))).2) o
      = cells c' o) as E.
    { intros o H2 H3. apply cells_ext; [|lia]. intros i Hi. rewrite zbyte_upd by lia. done. }
    rewrite !E by lia. done.
Qed.

Lemma clear_word_pw lim c : (forall i, is_byte (c i)) ->
  pw 8 lim (fun i x => Z.land x (u8 (Z.lnot (c i)))) (fun off res => clear_word off (cw c off) res).
Proof.
  intros Hc. split; [intros i x Hx; exact (bitwise8_byte _ _ x (c i) (bitwise_andnot 8 ltac:(done)) Hx (Hc i))|].
  intros off res Ho Hn Hlim Hr. unfold clear_word, ld64, st64. rewrite !rdn_seg by lia. runr. rewrite !seg_cells by lia.
  rewrite (store_zip (fun a b => Z.land a (u64 (Z.lnot b))) (fun a b => Z.land a (u8 (Z.lnot b))) (fun a b => a && negb b));
    [|by apply bitwise_andnot | by apply bitwise_andnot | | by apply cells_bytes | done | done];
    [|apply cells_bytes; intros; by apply zbyte_byte].
  rewrite cells_zip, wrn_cells by lia. f_equal. apply (upd_zbyte off 8 (fun i x => Z.land x (u8 (Z.lnot (c i))))).
Qed.

Definition one_byte (srcs : list (list Z)) (i : nat) (x : Z) : Z :=
  let p := fold_left (one_step i) srcs (x, 0) in Z.land p.1 (u8 (Z.lnot p.2)).

Lemma src_ok_bytes lim srcs : Forall (src_ok lim) srcs -> Forall (Forall is_byte) srcs.
Proof. intros H. eapply list.Forall_impl; [exact H|]. by intros s [_ ?]. Qed.

Lemma one_round_pw lim srcs : Forall (src_ok lim) srcs -> pw 32 lim (one_byte srcs) (one_round srcs).
Proof.
  intros Hs. pose proof (src_ok_bytes lim srcs Hs) as Hsb. assert (is_byte 0) as H0 by (by unfold is_byte). split.
  { intros i x Hx. destruct (one_fold_byte i srcs Hsb (x, 0) Hx H0) as [H1 H2].
    exact (bitwise8_byte _ _ _ _ (bitwise_andnot 8 ltac:(done)) H1 H2). }
  intros off res Ho Hn Hlim Hr. unfold one_round.
  assert (forall o, cw (fun _ => 0) o = 0) as E0 by (intros o; unfold load; by destruct host_is_be).
  pose proof (one_words_ok lim srcs off Hs Ho Hn res (fun _ => 0) Hlim Hr ltac:(done)) as H. cbv zeta in H.
  rewrite !E0 in H. rewrite H. runr.
  set (c' := fun i => (fold_left (one_step i) srcs (zbyte res i, 0)).2).
  assert (forall i, is_byte (c' i)) as Hc' by (intros i; apply (one_fold_byte i srcs Hsb (zbyte res i, 0)); [by apply zbyte_byte | done]).
  destruct (four_pw _ _ _ (clear_word_pw lim c' Hc')) as [_ H4]. unfold four in H4. rewrite H4; cycle 1.
  { done. }
  { lia. }
  { by rewrite zlen_upd. }
  { apply upd_bytes; [|done]. intros i x Hx. by apply (one_fold_byte i srcs Hsb (x, 0)). }
  rewrite upd_comp. f_equal. apply upd_ext. intros i x _ Hx. unfold one_byte, c'.
  by assert (zbyte res i = x) as -> by (unfold zbyte; by rewrite Hx).
Qed.

(** What the loop of an operation leaves in a byte that held [x]. *)
Definition fast_byte (op : bitop) (srcs : list (list Z)) (i : nat) (x : Z) : Z :=
  match op with
  | BITOP_AND => fold_left (fun x s => Z.land x (zbyte s i)) srcs x
  | BITOP_XOR => fold_left (fun x s => Z.lxor x (zbyte s i)) srcs x
  | BITOP_NOT => u8 (Z.lnot x)
  | BITOP_OR | BITOP_DIFF | BITOP_DIFF1 | BITOP_ANDOR => fold_left (fun x s => Z.lor x (zbyte s i)) srcs x
  | BITOP_ONE => one_byte srcs i x
  end.

Lemma word_round_pw lim op srcs : Forall (src_ok lim) srcs -> pw 32 lim (fast_byte op srcs) (word_round op srcs).
Proof.
  intros Hs. destruct op;
    first [ exact (fold_words_pw Z.land Z.land andb lim srcs (bitwise_land 64 ltac:(done)) (bitwise_land 8 ltac:(done)) Hs)
          | exact (fold_words_pw Z.lor Z.lor orb lim srcs (bitwise_lor 64 ltac:(done)) (bitwise_lor 8 ltac:(done)) Hs)
          | exact (fold_words_pw Z.lxor Z.lxor xorb lim srcs (bitwise_lxor 64 ltac:(done)) (bitwise_lxor 8 ltac:(done)) Hs)
          | exact (four_pw _ _ _ (not_word_pw lim)) | exact (one_round_pw lim srcs Hs) ].
Qed.

(** The byte at [i] of the result. *)
Definition final_byte (op : bitop) (src0 : list Z) (srcs : list (list Z)) (i : nat) : Z :=
  if is_diff op then byte_result op (zbyte src0 i) (fast_byte op srcs i 0) else fast_byte op srcs i (zbyte src0 i).

Lemma bitop_fast_ok op src0 srcs m maxlen :
  Forall (src_ok m) (src0 :: srcs) -> 0 <= m <= maxlen ->
  exists res j, bitop_fast op src0 srcs m (replicate (Z.to_nat maxlen) 0) = Ok (res, j) /\
    zlen res = maxlen /\ Forall is_byte res /\ 0 <= j <= maxlen /\
    forall i, Z.of_nat i < j -> zbyte res i = final_byte op src0 srcs i.
Proof.
  intros Hs Hm. apply Forall_cons_1 in Hs as [H0 Hs]. unfold bitop_fast.
  assert (exists res0, (if negb (is_diff op) then let* p := rdn src0 0 m in wrn (replicate (Z.to_nat maxlen) 0) 0 p
                        else Ok (replicate (Z.to_nat maxlen) 0)) = Ok res0 /\
    zlen res0 = maxlen /\ Forall is_byte res0 /\
    forall i, Z.of_nat i < m -> zbyte res0 i = if is_diff op then 0 else zbyte src0 i) as (res0 & -> & Hz & Hb & Hv).
  { assert (Forall is_byte (replicate (Z.to_nat maxlen) 0)) as Hrep by (apply Forall_replicate; by unfold is_byte).
    assert (zlen (replicate (Z.to_nat maxlen) 0) = maxlen) as Hzr by (unfold zlen; rewrite length_replicate; lia).
    destruct (is_diff op); cbn [negb].
    - eexists. split; [done|]. split_and!; try done. intros i _. unfold zbyte.
      destruct (replicate _ 0 !! i) eqn:E; [|done]. by apply lookup_replicate in E as [-> _].
    - destruct H0 as [Hl0 Hb0]. rewrite rdn_seg by lia. runr. unfold wrn.
      assert (zlen (seg src0 0 m) = m) as Hzs by (unfold zlen; rewrite seg_length by lia; lia).
      rewrite Hzs, Hzr. dec_bool. eexists. split; [done|]. change (Z.to_nat 0) with 0%nat. rewrite take_0. cbn [app Nat.add]. split_and!.
      + rewrite zlen_app, Hzs. unfold zlen. rewrite length_drop, length_replicate. unfold zlen in Hzs. lia.
      + apply Forall_app. split; [by apply seg_bytes | by apply Forall_drop].
      + intros i Hi. unfold zbyte. rewrite lookup_app_l by (unfold zlen in Hzs; lia). unfold seg.
        change (Z.to_nat 0) with 0%nat. rewrite drop_0, lookup_take_lt by lia. done. }
  runr. rewrite (word_loop_pw m (fast_byte op srcs) (word_round op srcs)) by (try apply word_round_pw; done || lia). runr.
  set (q := m / 32). assert (0 <= q /\ 32 * q <= m) as [Hq Hqm].
  { unfold q. pose proof (Z.div_mod m 32). pose proof (Z.mod_pos_bound m 32). split; [apply Z.div_pos; lia | lia]. }
  destruct (word_round_pw m op srcs Hs) as [Hbp _].
  change (0 + 32 * q) with (32 * q). destruct (is_diff op) eqn:Ed.
  - destruct (first_loop_pw m op src0 H0 (Z.to_nat m) 0 q (upd 0 (32 * q) (fast_byte op srcs) res0)) as [E|]; try lia.
    { rewrite zlen_upd. lia. }
    { by apply upd_bytes. }
    { change (0 + 32 * q) with (32 * q) in E. rewrite E. runr. eexists _, _. split; [done|]. rewrite !zlen_upd. split_and!; try lia.
      - apply upd_bytes; [|by apply upd_bytes]. intros i x Hx. destruct H0 as [_ Hb0]. pose proof (zbyte_byte src0 i Hb0) as H0b.
        destruct op; try done; cbn [byte_result];
          first [ exact (bitwise8_byte _ _ _ _ (bitwise_andnot 8 ltac:(done)) H0b Hx)
                | exact (bitwise8_byte _ _ _ _ (bitwise_notand 8 ltac:(done)) H0b Hx)
                | exact (bitwise8_byte _ _ _ _ (bitwise_land 8 ltac:(done)) H0b Hx) ].
      - intros i Hi. rewrite upd_comp, zbyte_upd, Hv by lia. unfold final_byte. by rewrite Ed. }
    congruence.
  - eexists _, _. split; [done|]. rewrite zlen_upd. split_and!; try lia; [by apply upd_bytes|].
    intros i Hi. rewrite zbyte_upd, Hv by lia. unfold final_byte. by rewrite Ed.
Qed.
End rounds.

(** * The specification, bit by bit *)

Definition bitop_bit (op : bitop) (b0 : bool) (bs : list bool) : bool :=
  match op with
  | BITOP_AND => b0 && forallb id bs
  | BITOP_OR => b0 || existsb id bs
  | BITOP_XOR => fold_left xorb bs b0
  | BITOP_NOT => negb b0
  | BITOP_DIFF => b0 && negb (existsb id bs)
  | BITOP_DIFF1 => negb b0 && existsb id bs
  | BITOP_ANDOR => b0 && existsb id bs
  | BITOP_ONE => ones (b0 :: bs) =? 1
  end.

(** The bit [n] of the byte [i] of a source. *)
Definition src_bit (i : nat) (n : Z) (s : list Z) : bool := Z.testbit (zbyte s i) n.

Lemma fold_bits f g i n srcs : bitwise 8 f g -> 0 <= n < 8 -> Forall (Forall is_byte) srcs -> forall x, is_byte x ->
  is_byte (fold_left (fun x s => f x (zbyte s i)) srcs x) /\
  Z.testbit (fold_left (fun x s => f x (zbyte s i)) srcs x) n = fold_left g (map (src_bit i n) srcs) (Z.testbit x n).
Proof.
  intros Hf Hn. induction 1 as [|s srcs Hs _ IH]; intros x Hx; [done|]. cbn [fold_left map].
  pose proof (zbyte_byte s i Hs) as Hb. destruct (Hf x (zbyte s i) Hx Hb) as [_ Hbit].
  destruct (IH (f x (zbyte s i)) (bitwise8_byte f g x _ Hf Hx Hb)) as [H1 H2]. split; [done|].
  rewrite H2, Hbit by done. done.
Qed.

Lemma fold_andb bs b : fold_left andb bs b = b && forallb id bs.
Proof. revert b. induction bs as [|c bs IH]; intros b; cbn; [by rewrite andb_true_r|]. by rewrite IH, andb_assoc. Qed.

Lemma fold_orb bs b : fold_left orb bs b = b || existsb id bs.
Proof. revert b. induction bs as [|c bs IH]; intros b; cbn; [by rewrite orb_false_r|]. by rewrite IH, orb_assoc. Qed.

(** What is left to do of BITOP ONE, from the state of a bit. *)
Definition one_bit (o c : bool) (bs : list bool) : bool := negb c && (ones (o :: bs) =? 1).

Lemma one_bit_step o c b bs : one_bit o c (b :: bs) = one_bit (xorb o b) (c || (o && b)) bs.
Proof.
  unfold one_bit, ones. cbn [fold_right]. fold (ones bs). pose proof (ones_range bs).
  destruct o, c, b; cbn; try done; (repeat case_bool; try done; lia) || f_equal; lia.
Qed.

Lemma one_bit_done o bs : one_bit o true bs = false.
Proof. done. Qed.

Lemma one_byte_bit i n srcs : 0 <= n < 8 -> Forall (Forall is_byte) srcs -> forall p, is_byte p.1 -> is_byte p.2 ->
  let q := fold_left (one_step i) srcs p in
  Z.testbit q.1 n && negb (Z.testbit q.2 n) = one_bit (Z.testbit p.1 n) (Z.testbit p.2 n) (map (src_bit i n) srcs).
Proof.
  intros Hn. induction 1 as [|s srcs Hs _ IH]; intros p H1 H2; cbn [fold_left map].
  { unfold one_bit, ones. cbn [fold_right]. by destruct (Z.testbit p.1 n), (Z.testbit p.2 n). }
  destruct (one_step_byte i p s Hs H1 H2) as [H3 H4]. cbv zeta in *. rewrite IH by done.
  rewrite one_bit_step. unfold one_step. cbn [fst snd]. rewrite Z.lxor_spec, Z.lor_spec, Z.land_spec. done.
Qed.

Lemma final_byte_ok op src0 srcs i n :
  0 <= n < 8 -> Forall (Forall is_byte) (src0 :: srcs) ->
  is_byte (final_byte op src0 srcs i) /\
  Z.testbit (final_byte op src0 srcs i) n = bitop_bit op (src_bit i n src0) (map (src_bit i n) srcs).
Proof.
  intros Hn Hs. apply Forall_cons_1 in Hs as [H0 Hs]. pose proof (zbyte_byte src0 i H0) as Hb0.
  assert (is_byte 0) as Hz by (by unfold is_byte). unfold final_byte.
  destruct (fold_bits Z.land andb i n srcs (bitwise_land 8 ltac:(done)) Hn Hs _ Hb0) as [A1 A2].
  destruct (fold_bits Z.lor orb i n srcs (bitwise_lor 8 ltac:(done)) Hn Hs _ Hb0) as [O1 O2].
  destruct (fold_bits Z.lxor xorb i n srcs (bitwise_lxor 8 ltac:(done)) Hn Hs _ Hb0) as [X1 X2].
  destruct (fold_bits Z.lor orb i n srcs (bitwise_lor 8 ltac:(done)) Hn Hs _ Hz) as [D1 D2].
  rewrite Z.bits_0 in D2. rewrite fold_orb in D2, O2. rewrite fold_andb in A2. cbn [orb] in D2.
  destruct op; cbn [is_diff fast_byte byte_result bitop_bit]; fold (src_bit i n src0) in *.
  - done.
  - done.
  - done.
  - split; [by apply (lnot_range 8) | by apply lnot_bit].
  - destruct (bitwise_andnot 8 ltac:(done) _ _ Hb0 D1) as [H1 H2]. split; [done|]. by rewrite H2, D2.
  - destruct (bitwise_notand 8 ltac:(done) _ _ Hb0 D1) as [H1 H2]. split; [done|]. by rewrite H2, D2.
  - destruct (bitwise_land 8 ltac:(done) _ _ Hb0 D1) as [H1 H2]. split; [done|]. by rewrite H2, D2.
  - unfold one_byte. destruct (one_fold_byte i srcs Hs (zbyte src0 i, 0) Hb0 Hz) as [P1 P2].
    destruct (bitwise_andnot 8 ltac:(done) _ _ P1 P2) as [H1 H2]. split; [done|]. rewrite H2 by done.
    pose proof (one_byte_bit i n srcs Hn Hs (zbyte src0 i, 0) Hb0 Hz) as H. cbv zeta in H. rewrite H.
    cbn [fst snd]. by rewrite Z.bits_0.
Qed.

(** * The byte loop and its early exits *)

(** What is left to do of each operation, from the state of a bit. *)
Definition rest_bit (op : bitop) (o d c : bool) (bs : list bool) : bool :=
  match op with
  | BITOP_AND => o && forallb id bs
  | BITOP_OR => o || existsb id bs
  | BITOP_XOR => fold_left xorb bs o
  | BITOP_NOT => o
  | BITOP_DIFF => o && negb (d || existsb id bs)
  | BITOP_DIFF1 => negb o && (d || existsb id bs)
  | BITOP_ANDOR => o && (d || existsb id bs)
  | BITOP_ONE => one_bit o c bs
  end.

(** The state of the inner loop: bytes, and the common bits cleared. *)
Definition byte_inv (op : bitop) (o d c : Z) : Prop :=
  is_byte o /\ is_byte d /\ is_byte c /\
  (op = BITOP_ONE -> forall n, Z.testbit c n = true -> Z.testbit o n = false).

Lemma byte_result_ok op o d c :
  byte_inv op o d c -> is_byte (byte_result op o d) /\
  forall n, 0 <= n < 8 -> Z.testbit (byte_result op o d) n
    = rest_bit op (Z.testbit o n) (Z.testbit d n) (Z.testbit c n) [].
Proof.
  intros (Ho & Hd & Hc & Hinv). destruct op; cbn [byte_result rest_bit forallb existsb fold_left].
  - split; [done|]. intros n Hn. by rewrite andb_true_r.
  - split; [done|]. intros n Hn. by rewrite orb_false_r.
  - done.
  - done.
  - destruct (bitwise_andnot 8 ltac:(done) _ _ Ho Hd) as [H1 H2]. split; [done|]. intros n Hn. by rewrite H2, orb_false_r.
  - destruct (bitwise_notand 8 ltac:(done) _ _ Ho Hd) as [H1 H2]. split; [done|]. intros n Hn. by rewrite H2, orb_false_r.
  - destruct (bitwise_land 8 ltac:(done) _ _ Ho Hd) as [H1 H2]. split; [done|]. intros n Hn. by rewrite H2, orb_false_r.
  - split; [done|]. intros n Hn. specialize (Hinv eq_refl n). unfold one_bit, ones. cbn [fold_right].
    destruct (Z.testbit c n), (Z.testbit o n); cbn; try done. by rewrite Hinv.
Qed.

Lemma ones8_bit x n : x = 0xff -> 0 <= n < 8 -> Z.testbit x n = true.
Proof. intros -> Hn. change 0xff with (Z.ones 8). by apply Z.ones_spec_low. Qed.

Lemma byte_step_ok op b o d c :
  byte_inv op o d c -> is_byte b ->
  let '(o1, d1, c1, skip) := byte_step op b o d c in
  byte_inv op o1 d1 c1 /\
  forall n bs, 0 <= n < 8 ->
    let rest1 := rest_bit op (Z.testbit o1 n) (Z.testbit d1 n) (Z.testbit c1 n) in
    rest_bit op (Z.testbit o n) (Z.testbit d n) (Z.testbit c n) (Z.testbit b n :: bs) = rest1 bs /\
    (skip = true -> rest1 bs = rest1 []).
Proof.
  intros (Ho & Hd & Hc & Hinv) Hb.
  pose proof (proj1 (bitwise_land 8 ltac:(done) _ _ Ho Hb)) as Hand. pose proof (proj1 (bitwise_lor 8 ltac:(done) _ _ Ho Hb)) as Hor.
  pose proof (proj1 (bitwise_lxor 8 ltac:(done) _ _ Ho Hb)) as Hxor. pose proof (proj1 (bitwise_lor 8 ltac:(done) _ _ Hd Hb)) as Hdis.
  pose proof (proj1 (bitwise_lor 8 ltac:(done) _ _ Hc Hand)) as Hcom.
  pose proof (proj1 (bitwise_andnot 8 ltac:(done) _ _ Hxor Hcom)) as Hone.
  destruct op; cbn [byte_step]; (split; [by split_and!|intros n bs Hn; cbn [rest_bit forallb existsb fold_left]]) || split.
  - rewrite Z.land_spec, andb_assoc. split; [done|]. intros E%Z.eqb_eq. rewrite <- Z.land_spec, E, Z.bits_0. done.
  - rewrite Z.lor_spec, orb_assoc. split; [done|]. intros E%Z.eqb_eq. rewrite <- Z.lor_spec. by rewrite (ones8_bit _ n E).
  - rewrite Z.lxor_spec. by split.
  - by split.
  - rewrite Z.lor_spec, orb_assoc. split; [done|]. intros E%Z.eqb_eq. rewrite <- Z.lor_spec. by rewrite (ones8_bit _ n E).
  - rewrite Z.lor_spec, orb_assoc. split; [done|]. intros E%Z.eqb_eq. rewrite <- Z.lor_spec. by rewrite (ones8_bit _ n E).
  - rewrite Z.lor_spec, orb_assoc. split; [done|]. intros E%Z.eqb_eq. rewrite <- Z.lor_spec. by rewrite (ones8_bit _ n E).
  - split_and!; try done. intros _ n Hn. rewrite Z.land_spec.
    destruct (Z.lt_ge_cases n 0); [by rewrite (Z.testbit_neg_r _ n) in Hn|].
    destruct (Z.lt_ge_cases n 8); [rewrite lnot_bit, Hn by lia; apply andb_false_r|].
    by rewrite (high_bits 8 (Z.lor c (Z.land o b)) n) in Hn by (done || lia).
  - intros n bs Hn. cbn [rest_bit]. rewrite one_bit_step, Z.land_spec, lnot_bit, Z.lxor_spec, Z.lor_spec, Z.land_spec by done.
    split; [by destruct (Z.testbit o n), (Z.testbit b n), (Z.testbit c n)|].
    intros E%Z.eqb_eq. rewrite <- Z.land_spec, <- Z.lor_spec. by rewrite (ones8_bit _ n E).
Qed.

Lemma byte_at_ok src j : 0 <= j -> byte_at src j = Ok (zbyte src (Z.to_nat j)).
Proof.
  intros Hj. unfold byte_at, zbyte. destruct (Z.leb_spec (zlen src) j).
  - rewrite lookup_ge_None_2; [done|]. unfold zlen in *. lia.
  - destruct (rd1_ok src j) as (x & -> & ->); [lia|]. done.
Qed.

Lemma byte_inner_ok op j : 0 <= j -> forall srcs, Forall (Forall is_byte) srcs -> forall o d c, byte_inv op o d c ->
  exists o' d', byte_inner op srcs j o d c = Ok (o', d') /\ is_byte (byte_result op o' d') /\
    forall n, 0 <= n < 8 -> Z.testbit (byte_result op o' d') n
      = rest_bit op (Z.testbit o n) (Z.testbit d n) (Z.testbit c n) (map (src_bit (Z.to_nat j) n) srcs).
Proof.
  intros Hj. induction 1 as [|s srcs Hs _ IH]; intros o d c Hinv; cbn [byte_inner map].
  { exists o, d. split; [done|]. by apply (byte_result_ok op o d c). }
  rewrite byte_at_ok by done. runr.
  pose proof (byte_step_ok op (zbyte s (Z.to_nat j)) o d c Hinv (zbyte_byte s _ Hs)) as H.
  destruct (byte_step op (zbyte s (Z.to_nat j)) o d c) as [[[o1 d1] c1] skip]. destruct H as [Hinv1 Hbit].
  destruct skip.
  - exists o1, d1. destruct (byte_result_ok op o1 d1 c1 Hinv1) as [H1 H2]. split; [done|]. split; [done|].
    intros n Hn. destruct (Hbit n (map (src_bit (Z.to_nat j) n) srcs) Hn) as [E1 E2].
    rewrite H2 by done. unfold src_bit at 1. rewrite E1. symmetry. by apply E2.
  - destruct (IH o1 d1 c1 Hinv1) as (o' & d' & -> & H1 & H2). exists o', d'. split; [done|]. split; [done|].
    intros n Hn. destruct (Hbit n (map (src_bit (Z.to_nat j) n) srcs) Hn) as [E1 _]. rewrite H2 by done. symmetry. exact E1.
Qed.

(** The byte [i] of the result is right. *)
Definition good (op : bitop) (src0 : list Z) (srcs : list (list Z)) (res : list Z) (i : nat) : Prop :=
  forall n, 0 <= n < 8 -> src_bit i n res = bitop_bit op (src_bit i n src0) (map (src_bit i n) srcs).

Lemma byte_loop_ok op src0 srcs maxlen : Forall (Forall is_byte) (src0 :: srcs) -> forall fuel j res,
  0 <= j <= maxlen -> maxlen - j <= Z.of_nat fuel -> zlen res = maxlen -> Forall is_byte res ->
  (forall i, Z.of_nat i < j -> good op src0 srcs res i) ->
  exists res', byte_loop fuel op src0 srcs j maxlen res = Ok res' /\ zlen res' = maxlen /\ Forall is_byte res' /\
    forall i, Z.of_nat i < maxlen -> good op src0 srcs res' i.
Proof.
  intros Hs. apply Forall_cons_1 in Hs as [H0 Hs].
  induction fuel as [|fuel IH]; intros j res Hj Hf Hz Hr Hg; cbn [byte_loop]; destruct (Z.ltb_spec j maxlen) as [Hlt|Hge].
  - lia.
  - exists res. split_and!; try done. intros i Hi. apply Hg. lia.
  - rewrite byte_at_ok by lia. runr. set (b0 := zbyte src0 (Z.to_nat j)).
    pose proof (zbyte_byte src0 (Z.to_nat j) H0) as Hb0. fold b0 in Hb0.
    set (o := if bool_decide (op = BITOP_NOT) then u8 (Z.lnot b0) else b0).
    assert (byte_inv op o 0 0) as Hinv.
    { assert (is_byte 0) by (by unfold is_byte). split_and!; try done.
      - unfold o. destruct (bool_decide _); [by apply (lnot_range 8) | done].
      - intros _ n. by rewrite Z.bits_0. }
    destruct (byte_inner_ok op j ltac:(lia) srcs Hs o 0 0 Hinv) as (o' & d' & -> & Hbr & Hbit). runr.
    rewrite wr1_ok by lia. runr. apply IH; try lia.
    + by rewrite zlen_insert.
    + by apply Forall_insert.
    + intros i Hi. destruct (decide (i = Z.to_nat j)) as [->|Hne].
      * intros n Hn. unfold src_bit at 1, zbyte. rewrite list_lookup_insert_eq by (unfold zlen in *; lia). cbn [default].
        change (Z.testbit (byte_result op o' d') n = bitop_bit op (src_bit (Z.to_nat j) n src0) (map (src_bit (Z.to_nat j) n) srcs)).
        rewrite Hbit by done. unfold src_bit at 2. fold b0. rewrite Z.bits_0. unfold o.
        destruct op; try (rewrite bool_decide_false by done); try done; cbn [rest_bit bitop_bit].
        rewrite bool_decide_true by done. by apply lnot_bit.
      * intros n Hn. unfold src_bit at 1, zbyte. rewrite list_lookup_insert_ne by done. apply (Hg i); [lia | done].
  - exists res. split_and!; try done. intros i Hi. apply Hg. lia.
Qed.

Section command.
Context {host : HostEndian}.

Lemma bitop_compute_ok aligned op src0 srcs minlen maxlen :
  Forall (src_ok minlen) (src0 :: srcs) -> 0 <= minlen <= maxlen ->
  exists res, bitop_compute aligned op src0 srcs minlen maxlen = Ok res /\ zlen res = maxlen /\ Forall is_byte res /\
    forall i, Z.of_nat i < maxlen -> good op src0 srcs res i.
Proof.
  intros Hs Hm. pose proof (src_ok_bytes _ _ Hs) as Hsb. unfold bitop_compute.
  destruct (negb aligned && (minlen >=? 32)).
  - destruct (bitop_fast_ok op src0 srcs minlen maxlen Hs Hm) as (res & j & -> & Hz & Hr & Hj & Hv). runr.
    apply byte_loop_ok; try done; [lia|]. intros i Hi n Hn. unfold src_bit at 1. rewrite Hv by done.
    by apply (final_byte_ok op src0 srcs i n Hn Hsb).
  - runr. apply byte_loop_ok; try done; try lia.
    + unfold zlen. rewrite length_replicate. lia.
    + apply Forall_replicate. by unfold is_byte.
Qed.

(** The longest of the strings. *)
Definition max_len (ss : list (list Z)) : Z := fold_right (fun s m => Z.max (zlen s) m) 0 ss.

Lemma max_len_nonneg ss : 0 <= max_len ss.
Proof. induction ss as [|s ss IH]; [done|]. unfold max_len in *. cbn [fold_right]. lia. Qed.

Lemma bitop_lookup_ok db keys ss : Forall2 (str_at db) keys ss -> forall j minlen maxlen,
  0 <= j -> 0 <= minlen <= maxlen ->
  exists minlen', bitop_lookup db keys j minlen maxlen = Ok (inr (ss, minlen', Z.max maxlen (max_len ss))) /\
    0 <= minlen' <= Z.max maxlen (max_len ss) /\ (j <> 0 -> minlen' <= minlen) /\ Forall (src_ok minlen') ss.
Proof.
  induction 1 as [|key s keys ss Hat _ IH]; intros j minlen maxlen Hj Hm; cbn [bitop_lookup max_len fold_right].
  { exists minlen. rewrite Z.max_l by lia. split_and!; try done; lia. }
  fold (max_len ss). pose proof (str_at_byte db key s Hat) as Hs. pose proof (zlen_nonneg s). unfold str_at in Hat.
  destruct (dbFind db key) as [[o|]|]; cbn [checkString]; [|done|]; runc.
  - rewrite (getDecodedObject_ok o s Hat). runc.
    set (mx := if zlen s >? maxlen then zlen s else maxlen). set (mn := if (j =? 0) || (zlen s <? minlen) then zlen s else minlen).
    assert (mx = Z.max (zlen s) maxlen) as Emx by (unfold mx; rewrite Z.gtb_ltb; case_bool; lia).
    assert (0 <= mn <= zlen s /\ (j <> 0 -> mn <= minlen)) as [Hmn Hmn2].
    { unfold mn. destruct (Z.eqb_spec j 0), (Z.ltb_spec (zlen s) minlen); cbn [orb]; lia. }
    destruct (IH (j + 1) mn mx ltac:(lia) ltac:(lia)) as (m' & -> & H1 & H2 & H3). runc.
    exists m'. replace (Z.max mx (max_len ss)) with (Z.max maxlen (Z.max (zlen s) (max_len ss))) in * by lia.
    split_and!; try done; try lia. constructor; [split; [lia | done] | done].
  - subst. destruct (IH (j + 1) 0 maxlen ltac:(lia) ltac:(lia)) as (m' & -> & H1 & H2 & H3). runc.
    exists m'. change (zlen (@nil Z)) with 0 in *.
    pose proof (max_len_nonneg ss).
    replace (Z.max maxlen (Z.max 0 (max_len ss))) with (Z.max maxlen (max_len ss)) by lia.
    split_and!; try done; try lia. constructor; [split; [change (zlen (@nil Z)) with 0; lia | done] | done].
Qed.

(** The operation on one bit of all the strings. *)
Definition bitop_bits (op : bitop) (bs : list bool) : bool :=
  match bs with b0 :: bs => bitop_bit op b0 bs | [] => false end.

(** The number of keys an operation accepts. *)
Definition bitop_arity (op : bitop) (n : Z) : Prop :=
  (op = BITOP_NOT -> n = 1) /\ (is_diff op = true -> 2 <= n).

Lemma bitop_ok aligned db opname target keys ss op :
  Forall2 (str_at db) keys ss -> keys <> [] -> bitop_parse opname = Ok (inr op) -> bitop_arity op (zlen keys) ->
  exists db', bitopCommand aligned db opname target keys = Ok (db', ReplyInt (max_len ss)) /\
    (max_len ss = 0 -> keyspace db' = delete target (keyspace db)) /\
    (max_len ss <> 0 -> exists res, keyspace db' = <[target := KvString (ObjSds res)]> (keyspace db) /\
       zlen res = max_len ss /\ Forall is_byte res /\
       forall k, Z.of_nat k < 8 * max_len ss ->
         zbit (bits_of res) k = bitop_bits op (map (fun s => zbit (bits_of s) k) ss)).
Proof.
  intros H2 Hne Hop [Ha1 Ha2]. unfold bitopCommand, answer. rewrite Hop. runc.
  assert (bool_decide (op = BITOP_NOT) && negb (zlen keys =? 1) = false) as ->.
  { destruct (decide (op = BITOP_NOT)) as [E|E]; [rewrite Ha1 by done; by rewrite andb_false_r | by rewrite bool_decide_false]. }
  assert (is_diff op && (zlen keys <? 2) = false) as ->.
  { destruct (is_diff op); [|done]. apply Z.ltb_ge. auto. }
  destruct (bitop_lookup_ok db keys ss H2 0 0 0) as (mn & -> & Hmn & _ & Hok); [lia | lia|]. runc.
  pose proof (max_len_nonneg ss). rewrite Z.max_r in * by lia.
  destruct (Z.eqb_spec (max_len ss) 0) as [E0|E0]; cbn [negb].
  - cbn [dbDelete]. unfold dbDelete. runc. eexists. split; [done|]. split; [|done]. intros _.
    by destruct (bool_decide _).
  - destruct ss as [|src0 srcs]; [apply Forall2_nil_inv_r in H2; done|].
    destruct (bitop_compute_ok aligned op src0 srcs mn (max_len (src0 :: srcs)) Hok ltac:(lia)) as (res & -> & Hz & Hr & Hg).
    runc. eexists. split; [done|]. split; [done|]. intros _. exists res. split_and!; try done.
    intros k Hk. rewrite zbit_bits_of. pose proof (Nat.mod_upper_bound k 8 ltac:(lia)).
    pose proof (Nat.div_mod_eq k 8).
    specialize (Hg (k / 8)%nat ltac:(lia) (7 - Z.of_nat (k mod 8)) ltac:(lia)). unfold src_bit at 1 in Hg. rewrite Hg.
    cbn [map bitop_bits]. unfold src_bit. rewrite zbit_bits_of. f_equal. apply map_ext. intros s. by rewrite zbit_bits_of.
Qed.
End command.

(** * Properties *)

(** C28: BITOP stores, under the target key, a string as long as the longest
    source whose every bit is the operation (AND, OR, XOR, NOT, DIFF, DIFF1,
    ANDOR, ONE) of the bits of the sources at that position, missing keys and
    short strings counting as zeros, and replies its length; with only empty
    sources it deletes the target.  The loop over words, the loop over bytes
    and its early exits all agree with this, on either byte order. *)
Theorem bitop_correct {host : HostEndian} aligned db opname target keys ss op :
  Forall2 (str_at db) keys ss -> keys <> [] -> bitop_parse opname = Ok (inr op) -> bitop_arity op (zlen keys) ->
  exists db', bitopCommand aligned db opname target keys = Ok (db', ReplyInt (max_len ss)) /\
    (max_len ss = 0 -> keyspace db' = delete target (keyspace db)) /\
    (max_len ss <> 0 -> exists res, keyspace db' = <[target := KvString (ObjSds res)]> (keyspace db) /\
       zlen res = max_len ss /\ Forall is_byte res /\
       forall k, Z.of_nat k < 8 * max_len ss ->
         zbit (bits_of res) k = bitop_bits op (map (fun s => zbit (bits_of s) k) ss)).
Proof. apply bitop_ok. Qed.

Definition bitop_db : redisDb :=
  mkDb {[ [97] := KvString (ObjSds (replicate 40 0x37)); [98] := KvString (ObjSds (replicate 33 0x26)) ]} 0.

Lemma bitop_correct_witness :
  exists db', bitopCommand (host := false) false bitop_db (chars "ONE") [100] [[97]; [98]; [99]] = Ok (db', ReplyInt 40).
Proof.
  destruct (bitop_correct (host := false) false bitop_db (chars "ONE") [100] [[97]; [98]; [99]]
    [replicate 40 0x37; replicate 33 0x26; []] BITOP_ONE) as (db' & H & _).
  - apply Forall2_cons_2; [split; [reflexivity | apply Forall_replicate; unfold is_byte; lia]|].
    apply Forall2_cons_2; [split; [reflexivity | apply Forall_replicate; unfold is_byte; lia]|].
    apply Forall2_cons_2; [reflexivity | apply Forall2_nil_2].
  - discriminate.
  - vm_compute. reflexivity.
  - split; discriminate.
  - exists db'. exact H.
Defined.
